(* ===== verification/_CoqProject ===== *)
-Q . S2P
Prelude.v
Mem.v
ConstTime.v
X690.v
Cbs.v
DerRead.v
IntRead.v
BerRead.v
Cbb.v
CbbSpec.v
CbbBuild.v
CbbAsn1.v
Oid.v
Ber.v
Unicode.v
Charset.v
MbString.v
Schema.v
Base64.v
Stack.v
LHash.v
BioPair.v
BufMem.v
TimeSupport.v
PbWire.v
PbRead.v
PbWrite.v
PbField.v
PbEncode.v
PbEncodeSpec.v
PbDecode.v
PbLayout.v
PbSafety.v
PbTotal.v
PbMemory.v
PbPlain.v
PbFresh.v
PbValues.v
PbTurns.v
PbFields.v
PbRoundTrip.v
Md32.v
Rounds.v
MdRound.v
Md4.v
Md5.v
Sha2.v
Sha1.v
FipsConst.v
Sha256.v
Sha512.v
SipHash.v
Evp.v
Hmac.v
Hkdf.v
RsaPad.v
Oaep.v
Bn.v
BnCmp.v
BnAdd.v
BnShift.v
BnBits.v
BnBytes.v
BnWords.v
BnMulRec.v
BnSqr.v
BnCtx.v
BnMul.v
BnProgram.v
