(* ===== verification/Prelude.v ===== *)
(** * Verification of the ASN.1, container and Protocol Buffers code of an iOS application

    The repository is an iOS application in Swift whose C code is its vendored
    libraries, under src/HolyWater-Test/Pods/.  The development models two of them: of
    BoringSSL, the part of its crypto directory that everything else there is written
    against (the parsers and serialisers of DER and BER, the text codecs, the
    containers), its hash functions with HMAC and HKDF, the paddings of RSA and the big
    numbers, and all of nanopb, with which Firebase encodes and decodes its messages.  In the table, names are relative to
    src/HolyWater-Test/Pods/BoringSSL-GRPC/src/crypto/, and for the files named Pb... to
    src/HolyWater-Test/Pods/nanopb/.

    - Prelude: machine integers, lists addressed by [Z], the state monad with
      failure [M S A := S -> option A * S], and the tactics.  A C function that
      returns 1 or 0 and has out-parameters is an [M] computation of what the
      out-parameters get; the state is what it changes through pointers, also when
      it fails.
    - Mem (mem.c, internal.h): allocation and C strings.  The class [Libc] is the C
      library's malloc; [reliable_malloc] of CbbSpec states that it succeeds for
      every size below 2^62, and only the completeness half of a theorem assumes it.
    - ConstTime (internal.h): the constant-time word operations.
    - X690: the encoding rules that the specifications refer to, as functions.
    - Cbs (bytestring/cbs.c): the reader.  DerRead, BerRead and IntRead: what its
      element and integer readers accept.
    - Cbb (bytestring/cbb.c): the builder with its open children.  CbbSpec: well-formed
      builders, the contents [st_view] they stand for, flushing.  CbbBuild: [emits m bs]
      states that a computation appends [bs], with rules for sequencing and nesting.
      CbbAsn1 (also bytestring/asn1_compat.c): integers, SET OF, i2d.
    - Schema: reading back what was written, for a language of ASN.1 schemas.
    - Oid (cbb.c, cbs.c): OBJECT IDENTIFIERs from and to text.
    - Ber (bytestring/ber.c): finding and converting BER.
    - Unicode (bytestring/unicode.c): the character codecs; Charset: the class of
      what a character set promises, and its four instances; MbString
      (asn1/a_mbstr.c, asn1/asn1_lib.c): choosing a string type and transcoding,
      proved against the class.
    - Base64 (base64/base64.c), SipHash (siphash/siphash.c), TimeSupport
      (asn1/time_support.c).
    - Stack (stack/stack.c), LHash (lhash/lhash.c), BufMem (buf/buf.c): containers.
    - BioPair (bio/pair.c, bio/bio.c, refcount_lock.c): two BIOs connected through
      ring buffers, in a heap of BIOs, since each half points to the other.
    - PbWire (pb_decode.c, pb_encode.c): streams and the primitives of the wire
      format, and the wire format as a specification.  PbRead: what the readers accept; its
      class [Reader] says that a computation only moves a stream forward.  PbWrite: the class
      [Sink] says what an output callback promises (the buffer and a growing string are
      instances), [emits] what a computation writes to every sink.
    - PbField (pb_common.c, pb.h): memory as a list of bytes, field descriptors, their
      iterator.  The class [Descriptors] gives the descriptor tables at
      addresses, as the generated code would.
    - PbEncode (pb_encode.c): the encoder, from values in memory to fields, arrays,
      submessages, extensions; PbEncodeSpec: the encoding of a message as a
      function, and that the encoder computes it.
    - PbDecode (pb_decode.c): the decoder with PB_ENABLE_MALLOC: static, allocated and
      callback fields, unions, extensions, default values, release.
      PbLayout: messages laid out by their descriptors.  PbSafety: decoding stays within
      them.  PbTotal: decoding ends; the class [Loud] says that a failure leaves its
      message on the stream.
    - PbMemory, PbPlain, PbFresh, PbValues, PbTurns, PbFields: what reading back a message
      needs: equal memory gives equal encodings, what a message holds once its defaults
      are set, the values of each type, the turns of the decoding loop, single fields
      and arrays.  PbRoundTrip: the round trip of messages.
    - Md32 (fipsmodule/digest/md32_common.h): collecting a message into blocks, counting
      its bits, padding it; the class [BlockFunc] says that a block function runs a
      compression function.  Rounds: registers whose names rotate, message schedules in a
      ring.  Md4, Md5 (fipsmodule/md4, md5) over MdRound; Sha1, Sha256, Sha512
      (fipsmodule/sha) over Sha2; FipsConst: the constants of FIPS 180-4 from primes.
    - Evp (fipsmodule/digest/digest.c, digests.c): digests behind method tables.  The
      class [DigestOk] is what a method promises, with nine instances.  Hmac
      (fipsmodule/hmac/hmac.c) and Hkdf (hkdf/hkdf.c) are proved against it.
    - RsaPad, Oaep (fipsmodule/rsa/padding.c): the paddings of RSA over those digests, the
      random generator behind the class [Rand].
    - Bn (fipsmodule/bn/bn.c, generic.c): big numbers as arrays of words in a store, so that
      a function's result may be one of its operands.  BnCmp (cmp.c), BnAdd (add.c), BnShift
      and BnBits (shift.c), BnBytes (bytes.c).  BnWords (generic.c): products of words,
      columns and rows.  BnMulRec and BnSqr (mul.c): Karatsuba's recursion in a result and a
      scratch array.  BnCtx (ctx.c): the context that hands out scratch numbers, over Stack.
      BnMul (mul.c): products of big numbers, with the scratch numbers the context gives.
      BnProgram: sequences of calls.

    What the theorems show.
    - Readers are exact: [CBS_get_any_asn1_element], the BER reader, the integers, the
      UTF-8 reader and the OID parsers succeed precisely on the encodings of
      X.690 (or on the shortest forms of valid code points), with the value, the rest of
      the input and, on failure, the position stated.
    - Builders are exact: whatever is written appears in the contents in order, lengths
      are the shortest, a SET OF is in the order of X.690 (octet strings compared as if
      padded with zeros); failing leaves the builder in its error state, and it stays
      there.  Composed, the two give the round trip over schemas.
    - The BER converter computes the relation [ber_der]; on DER it copies nothing.  When it
      fails midway its model leaves the input where the code does.
    - Containers refine abstract ones: the hash table a finite map, also while
      it is iterated over and edited, the BIO pair two bounded pipes, the stack a list.
      Invariants are proved over all reachable states.  Those of the stack count the two
      operations that may leave its sorted flag wrong, [sk_set] and a copy out of order:
      what depends on the flag is claimed of the stacks made without them.
    - The remaining codecs equal reference definitions and are inverted by
      their decoders, however their input is cut; SipHash equals the one of its paper,
      stated apart from the code's rounds.
    - nanopb's primitive readers accept precisely their wire type, a substream cannot leave
      its string, and fields that are written are read back.  The encoder writes the
      specified bytes for a message to every sink, or fails for lack of room; the
      specification has its own account of the fields of a message, of default values and of
      what the user's callbacks and extensions contribute (class [UserBytes]); the sizes it
      announces for submessages and packed arrays are those it writes.  The decoder,
      given any bytes, changes memory only inside the message it decodes to, and ends with a
      result or with an error message.  Decoding what was encoded gives a message with
      the same encoding.
    - Hash functions, HMAC and HKDF compute what FIPS 180-4, RFC 1320, 1321, 2104 and
      5869 define, however the message is cut; the standards are stated with their own
      rounds and formulas for the constants, not with the code's tables.  The calls fail
      only for want of memory, or when too much key material is asked for.
    - The readers of RSA paddings, written without branches on the secret, accept exactly
      the blocks of RFC 8017 and invert the writers.
    - Big numbers: each operation computes on the integers they stand for what its name says,
      also when the result is an operand, keeps them well-formed, and fails only for want of
      memory; a program of calls refines the assignments over the integers.  The recursive
      multiplications leave exactly the words of the schoolbook product.  The context never
      hands out a number that is in use, and once it has failed it refuses whatever is asked
      of it later.  Bytes carry the absolute value of a number, whose sign is not written.
    - That nested BER followed by DER is overlooked is proved of all such inputs.  Theorems
      with concrete inputs prove what else the modelling found wrong: a dangling pointer, a stack that is no longer sorted, numbers
      above 32 bits that pass for small ones, a count written over an array that has none.

    Bounds and fuel.  Loops that consume input have the input's length as fuel, which is
    shown to be enough where the result matters; converting BER nests at most
    [kMaxDepth] deep as in the code, and its theorems assume inputs of at most 2^30 bytes,
    so that no 32-bit length overflows.  In nanopb every loop over a stream has the bytes left
    as fuel, loops over descriptors their number, and chains of extensions the size of
    memory; recursion through submessages has a depth as argument, and so has the number of
    times one string is given to a callback, which may read nothing of it; that the depth of a
    message and the other fuel suffice is [decode_total] of PbTotal.  The recursions of
    BnMulRec and BnSqr have their depth as argument; 64 exceeds the number of bits of any
    width, and the theorems hold for it.  Integers are [Z] with the wrap-around of
    their width written out ([u8], [u32], [size_t], ...), on a 64-bit little-endian machine.

    Not modelled.  The application (user interface), C++ and generated code.  Of
    BoringSSL: division, Montgomery arithmetic, exponentiation, greatest common divisors and
    primes over big numbers, ciphers and public-key operations, assembly back ends, X.509,
    TLS, error queues and threads.  Within the
    modelled files: returning memory, which has no result; asserts, which state
    preconditions; pushing error codes; BIO types other than the pair.  In LHash the
    addresses of items are explicit, because iteration depends on them; elsewhere a block
    of memory is the list of its bytes, and aliasing occurs only where it is modelled
    (the open child of a builder, the two halves of a pair); in nanopb all of memory is one
    list, and structures are addresses in it.  Of nanopb: input streams with a callback
    of their own; the C library's realloc and free, and callbacks of the user, are
    parameters. *)
From stdpp Require Export prelude.
From Stdlib Require Export ZArith.

#[global] Open Scope Z_scope.

(** lia also understands [/] and [mod]. *)
Ltac Zify.zify_post_hook ::= Z.div_mod_to_equations.

(** * Machine integers

    An unsigned C integer of [w] bits is a [Z] in [0 .. 2^w - 1]; every
    operation that can leave the range is wrapped explicitly. *)

Definition wrap (w z : Z) : Z := z mod 2 ^ w.

Abbreviation u8 := (wrap 8).
Abbreviation u16 := (wrap 16).
Abbreviation u32 := (wrap 32).
Abbreviation u64 := (wrap 64).
(** [size_t] and [crypto_word_t] are 64 bits wide on the target (LP64). *)
Abbreviation size_t := (wrap 64).

Definition UINT64_MAX : Z := 2 ^ 64 - 1.
Definition INT_MAX : Z := 2 ^ 31 - 1.

(** [fits w z]: [z] is a value of a [w]-bit unsigned integer. *)
Definition fits (w z : Z) : Prop := 0 <= z < 2 ^ w.
#[global] Instance fits_dec w z : Decision (fits w z).
Proof. unfold fits. apply _. Defined.

(** * Byte strings *)

Abbreviation bytes := (list Z).
Definition bytes_ok (l : bytes) : Prop := Forall (fits 8) l.
#[global] Instance bytes_ok_dec l : Decision (bytes_ok l).
Proof. unfold bytes_ok. apply _. Defined.

(** C's [sizeof]/length arithmetic is on integers: the length of a list as a
    [Z], and slices at a [Z] index. *)
Definition lenZ {A} (l : list A) : Z := Z.of_nat (length l).
Definition takeZ {A} (n : Z) (l : list A) : list A := take (Z.to_nat n) l.
Definition dropZ {A} (n : Z) (l : list A) : list A := drop (Z.to_nat n) l.
(** [p[i]]; the default is never reached where the index is in range. *)
Definition nthZ (l : bytes) (i : Z) : Z := nth (Z.to_nat i) l 0.

(** [memcpy(p + off, src, len(src))]: overwrite a segment in place. *)
Definition write_at {A} (l : list A) (off : Z) (src : list A) : list A :=
  takeZ off l ++ src ++ dropZ (off + lenZ src) l.

(** Big-endian and little-endian readings of byte strings. *)
Definition be_value (l : bytes) : Z := fold_left (λ acc b, acc * 256 + b) l 0.
Fixpoint le_value (l : bytes) : Z :=
  match l with [] => 0 | b :: l' => b + 256 * le_value l' end.

(** The [n]-byte big-endian encoding of [v mod 256^n]. *)
Fixpoint be_bytes (n : nat) (v : Z) : bytes :=
  match n with O => [] | S n' => be_bytes n' (v / 256) ++ [v mod 256] end.

(** * A state and failure monad

    C functions of this library return 1 or 0 (or a pointer or NULL) and update
    the objects they are given, also on the way to a failure.  [M S A] keeps the
    state of a failed call, so [if (!f(x)) return 0;] is the monad's bind. *)

Definition M (S A : Type) : Type := S → option A * S.

#[global] Instance M_ret {S} : MRet (M S) := λ A a s, (Some a, s).
#[global] Instance M_bind {S} : MBind (M S) := λ A B k m s,
  match m s with
  | (Some a, s') => k a s'
  | (None, s') => (None, s')
  end.

(** [return 0] *)
Definition ret0 {S A} : M S A := λ s, (None, s).
(** [if (!b) return 0;] *)
Definition ensure {S} (b : bool) : M S () := λ s, (if b then Some () else None, s).
Definition getS {S} : M S S := λ s, (Some s, s).
Definition putS {S} (s : S) : M S () := λ _, (Some (), s).
Definition modifyS {S} (f : S → S) : M S () := λ s, (Some (), f s).
(** Lift a call on a local copy: it neither reads nor changes the state. *)
Definition liftO {S A} (o : option A) : M S A := λ s, (o, s).

(** * Notations for the C operators on values *)

Declare Scope c_scope.
Delimit Scope c_scope with C.
Infix ".&" := Z.land (at level 40, left associativity) : c_scope.
Infix ".|" := Z.lor (at level 45, left associativity) : c_scope.
Infix ".^" := Z.lxor (at level 42, left associativity) : c_scope.
#[global] Open Scope c_scope.

(** * Lemmas on machine integers *)

Lemma pow2_8 : 2 ^ 8 = 256. Proof. reflexivity. Qed.
Lemma pow2_16 : 2 ^ 16 = 65536. Proof. reflexivity. Qed.
Lemma pow2_32 : 2 ^ 32 = 4294967296. Proof. reflexivity. Qed.
Lemma pow2_64 : 2 ^ 64 = 18446744073709551616. Proof. reflexivity. Qed.
#[global] Opaque Z.pow.

(** Unfold the machine-integer vocabulary and call [lia]. *)
Ltac mlia :=
  unfold fits, wrap, UINT64_MAX, INT_MAX in *;
  rewrite ?pow2_8, ?pow2_16, ?pow2_32, ?pow2_64 in *; lia.

Lemma wrap_fits w z : 0 <= w → fits w (wrap w z).
Proof. intros Hw. unfold fits, wrap. apply Z.mod_pos_bound, Z.pow_pos_nonneg; lia. Qed.

Lemma wrap_small w z : fits w z → wrap w z = z.
Proof. intros H. apply Z.mod_small, H. Qed.

Lemma fits_0 w : 0 <= w → fits w 0.
Proof. intros. split; [lia|]. apply Z.pow_pos_nonneg; lia. Qed.

Lemma fits_mono w w' z : w <= w' → fits w z → fits w' z.
Proof.
  intros Hw [H0 H1]. split; [done|].
  eapply Z.lt_le_trans; [apply H1|]. apply Z.pow_le_mono_r; lia.
Qed.

(** A disjoint bitwise or is an addition. *)
Lemma lor_shiftl_add a b n : 0 <= n → 0 <= b < 2 ^ n → (a ≪ n) .| b = a * 2 ^ n + b.
Proof.
  intros Hn Hb. rewrite <-Z.shiftl_mul_pow2 by done.
  assert ((a ≪ n) .& b = 0) as Hd.
  { apply Z.bits_inj'. intros i Hi. rewrite Z.land_spec, Z.shiftl_spec, Z.bits_0 by done.
    destruct (Z.ltb_spec i n); [by rewrite Z.testbit_neg_r by lia|].
    destruct (Z.eq_dec b 0) as [->|]; [by rewrite Z.bits_0, andb_false_r|].
    rewrite (Z.bits_above_log2 b i), andb_false_r; [done|lia|].
    apply Z.lt_le_trans with n; [apply Z.log2_lt_pow2; lia|done]. }
  rewrite Z.add_nocarry_lxor, Z.lxor_lor; done.
Qed.

Lemma lor_mul_add a b n : 0 <= n → 0 <= b < 2 ^ n → (a * 2 ^ n) .| b = a * 2 ^ n + b.
Proof. intros Hn Hb. rewrite <-(Z.shiftl_mul_pow2 a) at 1 by done. by apply lor_shiftl_add. Qed.

Lemma land_mask a n : 0 <= n → a .& (2 ^ n - 1) = a mod 2 ^ n.
Proof. intros. rewrite <-Z.land_ones, Z.ones_equiv by done. by rewrite <-Z.sub_1_r. Qed.

Lemma shiftr_div a n : 0 <= n → a ≫ n = a / 2 ^ n.
Proof. apply Z.shiftr_div_pow2. Qed.

(** * Lemmas on byte strings *)

Section lists.
Context {A : Type}.
Implicit Types l k : list A.

Lemma lenZ_nonneg l : 0 <= lenZ l.
Proof. unfold lenZ. lia. Qed.
Lemma lenZ_nil : lenZ (@nil A) = 0.
Proof. done. Qed.
Lemma lenZ_cons x l : lenZ (x :: l) = 1 + lenZ l.
Proof. unfold lenZ. cbn [length]. lia. Qed.
Lemma lenZ_1 (x : A) : lenZ [x] = 1.
Proof. done. Qed.
Lemma lenZ_app l k : lenZ (l ++ k) = lenZ l + lenZ k.
Proof. unfold lenZ. rewrite length_app. lia. Qed.
Lemma lenZ_0_nil l : lenZ l <= 0 → l = [].
Proof. destruct l; [done|]. unfold lenZ. cbn [length]. lia. Qed.
Lemma lenZ_replicate n (x : A) : lenZ (replicate n x) = Z.of_nat n.
Proof. unfold lenZ. by rewrite length_replicate. Qed.
Lemma lenZ_takeZ n l : 0 <= n <= lenZ l → lenZ (takeZ n l) = n.
Proof. unfold lenZ, takeZ. rewrite length_take. lia. Qed.
Lemma lenZ_dropZ n l : 0 <= n <= lenZ l → lenZ (dropZ n l) = lenZ l - n.
Proof. unfold lenZ, dropZ. rewrite length_drop. lia. Qed.
Lemma takeZ_dropZ n l : takeZ n l ++ dropZ n l = l.
Proof. apply take_drop. Qed.
Lemma takeZ_app l k n : n = lenZ l → takeZ n (l ++ k) = l.
Proof. intros ->. unfold takeZ, lenZ. rewrite Nat2Z.id. apply take_app_length. Qed.
Lemma dropZ_app l k n : n = lenZ l → dropZ n (l ++ k) = k.
Proof. intros ->. unfold dropZ, lenZ. rewrite Nat2Z.id. apply drop_app_length. Qed.
Lemma takeZ_all l n : lenZ l <= n → takeZ n l = l.
Proof. unfold takeZ, lenZ. intros. apply take_ge. lia. Qed.
Lemma dropZ_all l n : lenZ l <= n → dropZ n l = [].
Proof. unfold dropZ, lenZ. intros. apply drop_ge. lia. Qed.
Lemma takeZ_0 l : takeZ 0 l = [].
Proof. done. Qed.
Lemma dropZ_0 l : dropZ 0 l = l.
Proof. done. Qed.
Lemma takeZ_app_le l k n : n <= lenZ l → takeZ n (l ++ k) = takeZ n l.
Proof. unfold takeZ, lenZ. intros. apply take_app_le. lia. Qed.
Lemma takeZ_app_ge l k n : lenZ l <= n → takeZ n (l ++ k) = l ++ takeZ (n - lenZ l) k.
Proof.
  unfold takeZ, lenZ. intros. rewrite take_app_ge by lia. f_equal. f_equal. lia.
Qed.
Lemma dropZ_app_le l k n : n <= lenZ l → dropZ n (l ++ k) = dropZ n l ++ k.
Proof. unfold dropZ, lenZ. intros. apply drop_app_le. lia. Qed.
Lemma takeZ_takeZ n m l : n <= m → takeZ n (takeZ m l) = takeZ n l.
Proof. unfold takeZ. intros. rewrite take_take. f_equal. lia. Qed.
Lemma dropZ_takeZ n m l : 0 <= n <= m → dropZ n (takeZ m l) = takeZ (m - n) (dropZ n l).
Proof. intros. unfold takeZ, dropZ. rewrite skipn_firstn_comm. f_equal. lia. Qed.
Lemma dropZ_dropZ n m l : 0 <= n → 0 <= m → dropZ n (dropZ m l) = dropZ (m + n) l.
Proof. unfold dropZ. intros. rewrite drop_drop. f_equal. lia. Qed.
(** Two ways to split a list, the first at most as long as the second. *)
Lemma app_eq_split l1 l2 k1 k2 :
  l1 ++ l2 = k1 ++ k2 → lenZ l1 <= lenZ k1 → ∃ c, k1 = l1 ++ c ∧ l2 = c ++ k2.
Proof.
  intros H Hl. unfold lenZ in Hl. exists (drop (length l1) k1).
  assert (take (length l1) k1 = l1) as Ht.
  { rewrite <-(take_app_le k1 k2), <-H, take_app_length; [done|lia]. }
  assert (k1 = l1 ++ drop (length l1) k1) as Hk by (rewrite <-Ht at 1; by rewrite take_drop).
  split; [done|]. rewrite Hk, <-app_assoc in H. by apply app_inv_head in H.
Qed.
Lemma app_eq_lenZ l1 l2 k1 k2 :
  lenZ l1 = lenZ l2 → l1 ++ k1 = l2 ++ k2 → l1 = l2 ∧ k1 = k2.
Proof. unfold lenZ. intros Hl H. apply app_inj_1 in H; [done|lia]. Qed.

Lemma lenZ_write_at l off src :
  0 <= off → off + lenZ src <= lenZ l → lenZ (write_at l off src) = lenZ l.
Proof.
  intros. pose proof (lenZ_nonneg src). unfold write_at.
  rewrite !lenZ_app, lenZ_takeZ, lenZ_dropZ; lia.
Qed.
(** Writing just after the first [off] elements replaces what was there. *)
Lemma takeZ_write_at l off src n :
  0 <= off → off + lenZ src <= lenZ l → n = off + lenZ src →
  takeZ n (write_at l off src) = takeZ off l ++ src.
Proof.
  intros ??->. pose proof (lenZ_nonneg src). unfold write_at. rewrite app_assoc.
  apply takeZ_app. rewrite lenZ_app, lenZ_takeZ; lia.
Qed.
Lemma write_at_nil l p : write_at l p [] = l.
Proof.
  unfold write_at. change (lenZ (@nil A)) with 0. rewrite Z.add_0_r. apply takeZ_dropZ.
Qed.
Lemma write_at_app (a b c src : list A) p :
  lenZ a = p → lenZ b = lenZ src → write_at (a ++ b ++ c) p src = a ++ src ++ c.
Proof.
  intros <- Hb. unfold write_at. rewrite takeZ_app by done. do 2 f_equal.
  rewrite app_assoc. apply dropZ_app. rewrite lenZ_app. lia.
Qed.
(** A list cut at an offset and after a segment of [n] elements. *)
Lemma cut_at l p n :
  0 <= p → 0 <= n → p + n <= lenZ l →
  ∃ a b c, l = a ++ b ++ c ∧ lenZ a = p ∧ lenZ b = n.
Proof.
  intros. exists (takeZ p l), (takeZ n (dropZ p l)), (dropZ n (dropZ p l)).
  rewrite !takeZ_dropZ, !lenZ_takeZ; rewrite ?lenZ_dropZ; lia || done.
Qed.
Lemma write_at_adjacent l p (x y : list A) :
  0 <= p → p + lenZ x + lenZ y <= lenZ l →
  write_at (write_at l (p + lenZ x) y) p x = write_at l p (x ++ y).
Proof.
  intros Hp Hl. pose proof (lenZ_nonneg x). pose proof (lenZ_nonneg y).
  destruct (cut_at l p (lenZ x)) as (a & b & c' & -> & Ha & Hb); [lia..|].
  rewrite !lenZ_app in Hl.
  destruct (cut_at c' 0 (lenZ y)) as (e & c & d & -> & He & Hc); [lia..|].
  apply Z.eq_le_incl, lenZ_0_nil in He as ->. rewrite app_nil_l.
  assert (write_at (a ++ b ++ c ++ d) (p + lenZ x) y = a ++ b ++ y ++ d) as ->.
  { rewrite (app_assoc a b (c ++ d)), (write_at_app (a ++ b) c d y) by (rewrite ?lenZ_app; lia).
    by rewrite <-app_assoc. }
  rewrite (write_at_app a b (y ++ d) x) by lia.
  rewrite (app_assoc b c d), (write_at_app a (b ++ c) d) by (rewrite ?lenZ_app; lia).
  by rewrite <-app_assoc.
Qed.
(** The same two writes in the other order. *)
Lemma write_at_then l p (x y : list A) :
  0 <= p → p + lenZ x + lenZ y <= lenZ l →
  write_at (write_at l p x) (p + lenZ x) y = write_at l p (x ++ y).
Proof.
  intros Hp Hl. pose proof (lenZ_nonneg x). pose proof (lenZ_nonneg y).
  destruct (cut_at l p (lenZ x + lenZ y)) as (a & b & d & -> & Ha & Hb); [lia..|].
  destruct (cut_at b (lenZ x) (lenZ y)) as (b1 & b2 & e & -> & Hb1 & Hb2); [lia..|].
  rewrite !lenZ_app in Hb. assert (e = []) as -> by (apply lenZ_0_nil; lia). rewrite app_nil_r.
  rewrite <-(app_assoc b1 b2 d), (write_at_app a b1 (b2 ++ d) x) by lia.
  rewrite (app_assoc a x (b2 ++ d)), (write_at_app (a ++ x) b2 d y) by (rewrite ?lenZ_app; lia).
  rewrite (app_assoc b1 b2 d), (write_at_app a (b1 ++ b2) d) by (rewrite ?lenZ_app; lia).
  by rewrite <-!app_assoc.
Qed.
Lemma takeZ_write_at_lo l off src n :
  0 <= off → off + lenZ src <= lenZ l → n <= off →
  takeZ n (write_at l off src) = takeZ n l.
Proof.
  intros. unfold write_at. rewrite takeZ_app_le by (rewrite lenZ_takeZ; pose proof (lenZ_nonneg src); lia).
  by apply takeZ_takeZ.
Qed.
End lists.

Create Rewrite HintDb lenZ.
#[export] Hint Rewrite @lenZ_app @lenZ_cons @lenZ_nil @lenZ_replicate : lenZ.

(** Normalise lengths and call [lia]. *)
Ltac llia :=
  autorewrite with lenZ in *;
  repeat match goal with
  | |- context [lenZ ?l] =>
      lazymatch goal with H : 0 <= lenZ l |- _ => fail | _ => pose proof (lenZ_nonneg l) end
  | _ : context [lenZ ?l] |- _ =>
      lazymatch goal with H : 0 <= lenZ l |- _ => fail | _ => pose proof (lenZ_nonneg l) end
  end;
  mlia.

(** Lists of computed bytes, one element after the other. *)
Ltac list_lia :=
  repeat (apply (f_equal2 cons); [first [lia | f_equal; lia]|]); reflexivity.

Lemma bytes_ok_app l k : bytes_ok (l ++ k) ↔ bytes_ok l ∧ bytes_ok k.
Proof. apply Forall_app. Qed.
Lemma bytes_ok_cons b l : bytes_ok (b :: l) ↔ fits 8 b ∧ bytes_ok l.
Proof. apply Forall_cons. Qed.
Lemma bytes_ok_nil : bytes_ok [].
Proof. constructor. Qed.

Lemma be_value_acc l acc :
  fold_left (λ a b, a * 256 + b) l acc = acc * 256 ^ lenZ l + be_value l.
Proof.
  unfold be_value. revert acc. induction l as [|b l IH]; intros acc; cbn [fold_left].
  - change (lenZ (@nil Z)) with 0. rewrite Z.pow_0_r. lia.
  - rewrite IH, (IH (0 * 256 + b)), lenZ_cons, Z.pow_add_r by llia.
    rewrite Z.pow_1_r. lia.
Qed.

Lemma be_value_cons b l : be_value (b :: l) = b * 256 ^ lenZ l + be_value l.
Proof. unfold be_value at 1. cbn [fold_left]. rewrite be_value_acc. lia. Qed.

Lemma be_value_app l k : be_value (l ++ k) = be_value l * 256 ^ lenZ k + be_value k.
Proof. unfold be_value at 1. rewrite fold_left_app. apply be_value_acc. Qed.

Lemma be_value_snoc l b : be_value (l ++ [b]) = be_value l * 256 + b.
Proof. unfold be_value. by rewrite fold_left_app. Qed.

Lemma be_value_bound l : bytes_ok l → 0 <= be_value l < 256 ^ lenZ l.
Proof.
  induction l as [|b l IH] using rev_ind; intros Hl; [done|].
  apply bytes_ok_app in Hl as [Hl [Hb _]%bytes_ok_cons].
  rewrite be_value_snoc, lenZ_app, Z.pow_add_r by llia.
  change (lenZ [b]) with 1. rewrite Z.pow_1_r.
  specialize (IH Hl). mlia.
Qed.

Lemma length_be_bytes n v : length (be_bytes n v) = n.
Proof.
  revert v; induction n as [|n IH]; intros v; [done|].
  cbn [be_bytes]. rewrite length_app, IH. cbn [length]. lia.
Qed.
Lemma lenZ_be_bytes n v : lenZ (be_bytes n v) = Z.of_nat n.
Proof. unfold lenZ. by rewrite length_be_bytes. Qed.
#[export] Hint Rewrite lenZ_be_bytes : lenZ.

Lemma be_bytes_ok n v : bytes_ok (be_bytes n v).
Proof.
  revert v; induction n as [|n IH]; intros v; [constructor|].
  cbn [be_bytes]. apply bytes_ok_app. split; [apply IH|].
  apply bytes_ok_cons. split; [mlia|apply bytes_ok_nil].
Qed.

Lemma be_value_be_bytes n v : be_value (be_bytes n v) = v mod 256 ^ Z.of_nat n.
Proof.
  revert v; induction n as [|n IH]; intros v.
  - cbn. by rewrite Z.mod_1_r.
  - cbn [be_bytes]. rewrite be_value_snoc, IH, Nat2Z.inj_succ, Z.pow_succ_r by lia.
    rewrite Z.rem_mul_r by (lia || apply Z.pow_nonzero; lia).
    lia.
Qed.

Lemma be_bytes_be_value l n : bytes_ok l → n = length l → be_bytes n (be_value l) = l.
Proof.
  revert n. induction l as [|b l IH] using rev_ind; intros n Hl ->; [done|].
  apply bytes_ok_app in Hl as [Hl [Hb _]%bytes_ok_cons].
  rewrite length_app, be_value_snoc. cbn [length]. rewrite Nat.add_1_r. cbn [be_bytes].
  f_equal; [|f_equal; mlia].
  replace ((be_value l * 256 + b) / 256) with (be_value l) by mlia. by apply IH.
Qed.

Lemma be_bytes_S n v : be_bytes (S n) v = v / 256 ^ Z.of_nat n mod 256 :: be_bytes n v.
Proof.
  revert v; induction n as [|n IH]; intros v.
  - cbn [be_bytes app]. by rewrite Z.pow_0_r, Z.div_1_r.
  - change (be_bytes (S (S n)) v) with (be_bytes (S n) (v / 256) ++ [v mod 256]).
    rewrite IH, Nat2Z.inj_succ, Z.pow_succ_r, Z.div_div by lia. done.
Qed.

(** Only the residue modulo [256 ^ n] matters. *)
Lemma be_bytes_eq n v v' : v mod 256 ^ Z.of_nat n = v' mod 256 ^ Z.of_nat n → be_bytes n v = be_bytes n v'.
Proof.
  intros H. rewrite <-(be_bytes_be_value (be_bytes n v) n), <-(be_bytes_be_value (be_bytes n v') n)
    by (apply be_bytes_ok || by rewrite length_be_bytes).
  by rewrite !be_value_be_bytes, H.
Qed.

Lemma le_value_app l k : le_value (l ++ k) = le_value l + 256 ^ lenZ l * le_value k.
Proof.
  induction l as [|b l IH]; cbn [app le_value].
  - change (lenZ (@nil Z)) with 0. rewrite Z.pow_0_r. lia.
  - rewrite IH, lenZ_cons, Z.pow_add_r, Z.pow_1_r by llia. lia.
Qed.

Lemma le_value_reverse l : le_value (reverse l) = be_value l.
Proof.
  induction l as [|b l IH]; [done|]. rewrite reverse_cons, le_value_app, IH, be_value_cons.
  unfold lenZ. rewrite length_reverse. cbn [le_value]. lia.
Qed.

Lemma le_value_replicate n b : 255 * le_value (replicate n b) = b * (256 ^ Z.of_nat n - 1).
Proof.
  induction n as [|n IH]; [cbn; rewrite Z.pow_0_r; lia|].
  cbn [replicate le_value]. rewrite Nat2Z.inj_succ, Z.pow_succ_r by lia. lia.
Qed.

(** Filling an array one index after the other. *)
Lemma fold_write_at (f : Z → Z) n u :
  Z.of_nat n <= lenZ u →
  fold_left (λ u i, write_at u i [f i]) (seqZ 0 (Z.of_nat n)) u
  = map f (seqZ 0 (Z.of_nat n)) ++ dropZ (Z.of_nat n) u.
Proof.
  intros Hn. induction n as [|n IH]; [done|].
  assert (seqZ 0 (Z.of_nat (S n)) = seqZ 0 (Z.of_nat n) ++ [Z.of_nat n]) as ->.
  { rewrite Nat2Z.inj_succ. unfold seqZ. rewrite Z2Nat.inj_succ, seq_S, fmap_app, Nat2Z.id by lia.
    cbn. do 2 f_equal. lia. }
  rewrite fold_left_app, map_app, IH by lia. cbn [fold_left map].
  assert (dropZ (Z.of_nat n) u = takeZ 1 (dropZ (Z.of_nat n) u) ++ dropZ (Z.of_nat (S n)) u) as ->.
  { transitivity (takeZ 1 (dropZ (Z.of_nat n) u) ++ dropZ 1 (dropZ (Z.of_nat n) u)); [by rewrite takeZ_dropZ|].
    rewrite dropZ_dropZ by lia. by replace (Z.of_nat n + 1) with (Z.of_nat (S n)) by lia. }
  rewrite <-app_assoc. apply write_at_app.
  - unfold lenZ. rewrite length_map, length_seqZ. lia.
  - rewrite lenZ_takeZ; [done|]. rewrite lenZ_dropZ; lia.
Qed.

Lemma map_nthZ_reverse l : map (λ i, nthZ l (lenZ l - i - 1)) (seqZ 0 (lenZ l)) = reverse l.
Proof.
  apply list_eq. intros i. destruct (Nat.lt_ge_cases i (length l)) as [Hi|Hi].
  - rewrite list_lookup_fmap, lookup_seqZ_lt by (unfold lenZ; lia). cbn.
    rewrite reverse_lookup by done. unfold nthZ.
    replace (Z.to_nat (lenZ l - (0 + Z.of_nat i) - 1)) with (length l - S i)%nat by (unfold lenZ; lia).
    destruct (lookup_lt_is_Some_2 l (length l - S i)) as [x Hx]; [lia|].
    rewrite Hx. f_equal. by apply nth_lookup_Some.
  - rewrite !lookup_ge_None_2; [done|by rewrite length_reverse|].
    rewrite length_map, length_seqZ. unfold lenZ. lia.
Qed.

(** * Reasoning about the monad *)

Section monad.
Context {S A B : Type}.
Implicit Types (m : M S A) (k : A → M S B).

Lemma bind_some m k s a s' : m s = (Some a, s') → (m ≫= k) s = k a s'.
Proof. intros H. unfold mbind, M_bind. by rewrite H. Qed.
Lemma bind_none m k s s' : m s = (None, s') → (m ≫= k) s = (None, s').
Proof. intros H. unfold mbind, M_bind. by rewrite H. Qed.
Lemma bind_inv m k s b s'' :
  (m ≫= k) s = (Some b, s'') → ∃ a s', m s = (Some a, s') ∧ k a s' = (Some b, s'').
Proof. unfold mbind, M_bind. destruct (m s) as [[a|] s']; naive_solver. Qed.
Lemma ret_inv (a b : A) (s s' : S) : (mret a : M S A) s = (Some b, s') → a = b ∧ s = s'.
Proof. unfold mret, M_ret. naive_solver. Qed.
Lemma ensure_inv (b : bool) (s s' : S) u :
  ensure b s = (Some u, s') → b = true ∧ s = s'.
Proof. unfold ensure. destruct b; naive_solver. Qed.
Lemma liftO_inv (o : option A) (a : A) (s s' : S) :
  liftO o s = (Some a, s') → o = Some a ∧ s = s'.
Proof. unfold liftO. naive_solver. Qed.
Lemma getS_inv (s s' s'' : S) : getS s = (Some s', s'') → s = s' ∧ s = s''.
Proof. unfold getS. naive_solver. Qed.
Lemma putS_inv (s s' s'' : S) u : putS s s' = (Some u, s'') → s = s''.
Proof. unfold putS. naive_solver. Qed.
Lemma modifyS_inv f (s s'' : S) u : modifyS f s = (Some u, s'') → f s = s''.
Proof. unfold modifyS. naive_solver. Qed.
Lemma ret0_inv (a : A) (s s' : S) : ret0 s = (Some a, s') → False.
Proof. unfold ret0. naive_solver. Qed.
End monad.

Lemma bind_ensure {S B} (k : () → M S B) s : (ensure true ≫= k) s = k tt s.
Proof. done. Qed.
Lemma bind_ret {S A B} (a : A) (k : A → M S B) s : (mret a ≫= k) s = k a s.
Proof. done. Qed.
Lemma bind_assoc {S A B C} (m : M S A) (k : A → M S B) (l : B → M S C) s :
  ((m ≫= k) ≫= l) s = (m ≫= (λ a, k a ≫= l)) s.
Proof. unfold mbind, M_bind. by destruct (m s) as [[a|] s']. Qed.

(** Decompose every successful monadic run of the context. *)
Ltac minv :=
  repeat match goal with
  | H : (_ ≫= _) _ = (Some _, _) |- _ =>
      let a := fresh "a" in let s := fresh "s" in let H1 := fresh "H" in
      apply bind_inv in H as (a & s & H1 & H)
  | H : mret _ _ = (Some _, _) |- _ => apply ret_inv in H as [? ?]; subst
  | H : ensure _ _ = (Some _, _) |- _ => apply ensure_inv in H as [? ?]; subst
  | H : liftO _ _ = (Some _, _) |- _ => apply liftO_inv in H as [? ?]; subst
  | H : getS _ = (Some _, _) |- _ => apply getS_inv in H as [? ?]; subst
  | H : putS _ _ = (Some _, _) |- _ => apply putS_inv in H; subst
  | H : modifyS _ _ = (Some _, _) |- _ => apply modifyS_inv in H; subst
  | H : ret0 _ = (Some _, _) |- _ => destruct (ret0_inv _ _ _ H)
  | H : (match ?p with (_, _) => _ end) _ = (Some _, _) |- _ => is_var p; destruct p
  end.

(** Run one step of a monadic computation whose outcome is known. *)
Ltac mstep H := rewrite (bind_some _ _ _ _ _ H); cbv beta iota zeta.
Ltac mensure :=
  rewrite bind_ensure; cbv beta iota zeta.

(** Turn the C tests of the context into propositions. *)
Ltac bools :=
  repeat match goal with
  | H : (_ && _) = true |- _ => apply andb_true_iff in H as [? ?]
  | H : (_ || _) = false |- _ => apply orb_false_iff in H as [? ?]
  | H : negb _ = true |- _ => apply negb_true_iff in H
  | H : negb _ = false |- _ => apply negb_false_iff in H
  | H : (_ <? _) = true |- _ => apply Z.ltb_lt in H
  | H : (_ <? _) = false |- _ => apply Z.ltb_ge in H
  | H : (_ <=? _) = true |- _ => apply Z.leb_le in H
  | H : (_ <=? _) = false |- _ => apply Z.leb_gt in H
  | H : (_ =? _) = true |- _ => apply Z.eqb_eq in H
  | H : (_ =? _) = false |- _ => apply Z.eqb_neq in H
  end.

(** Prove a decidable proposition about concrete data by evaluation. *)
Ltac decide_now := apply (bool_decide_unpack _); vm_compute; exact I.

(** * Facts about single bytes, by evaluation *)

Lemma byte_cases (P : Z → bool) :
  forallb P (seqZ 0 256) = true → ∀ b, fits 8 b → P b = true.
Proof.
  intros H b Hb. rewrite forallb_forall in H. apply H.
  apply list_elem_of_In, elem_of_seqZ. mlia.
Qed.

(** Prove an equality on bytes, decided by evaluation at the 256 values. *)
Ltac byte_eq b :=
  match goal with
  | H : fits 8 b |- ?l = ?r =>
      let P := constr:(λ b : Z, ltac:(let t := eval pattern b in (Z.eqb l r) in
                 match t with ?f _ => exact (f b) end)) in
      apply Z.eqb_eq; exact (byte_cases P eq_refl b H)
  | H : fits 8 b |- ?l = ?r =>
      let P := constr:(λ b : Z, ltac:(let t := eval pattern b in (Bool.eqb l r) in
                 match t with ?f _ => exact (f b) end)) in
      apply Bool.eqb_prop; exact (byte_cases P eq_refl b H)
  end.

Lemma byte_land_80 b : fits 8 b → (b .& 0x80 =? 0) = (b <? 128).
Proof. intros H. byte_eq b. Qed.
Lemma byte_land_7f b : fits 8 b → b .& 0x7f = b mod 128.
Proof. intros H. byte_eq b. Qed.
Lemma byte_land_1f b : fits 8 b → b .& 0x1f = b mod 32.
Proof. intros H. byte_eq b. Qed.
Lemma byte_land_e0 b : fits 8 b → b .& 0xe0 = b / 32 * 32.
Proof. intros H. byte_eq b. Qed.

(** Shifting a byte into an accumulator. *)
Lemma shift_in v b w n :
  0 <= n <= w → fits (w - n) v → 0 <= b < 2 ^ n → wrap w (v ≪ n) .| b = v * 2 ^ n + b.
Proof.
  intros Hn Hv Hb. rewrite wrap_small; [by apply lor_shiftl_add; lia|].
  rewrite Z.shiftl_mul_pow2 by lia. unfold fits in *.
  replace w with ((w - n) + n) by lia. rewrite Z.pow_add_r by lia. nia.
Qed.
