(* ===== verification/Mem.v ===== *)
(** Memory and C-string helpers: src/HolyWater-Test/Pods/BoringSSL-GRPC/src/crypto/mem.c.

    A heap block is the list of its bytes and a pointer to one is an [option],
    [None] being NULL.  libc's [malloc] is a parameter (class [Libc]): it may
    refuse any request and leaves the block's contents unspecified.  C strings
    are byte lists; reading at or past the end of the list reads the
    terminating NUL. *)
From S2P Require Import Prelude.

(** * The allocator the library is linked against *)

Class Libc := {
  malloc : Z → option bytes;
  malloc_len n p : malloc n = Some p → lenZ p = n;
}.

(** An allocator that never refuses and hands out zeroed blocks. *)
Definition calloc_libc : Libc.
Proof.
  refine {| malloc n := if 0 <=? n then Some (replicate (Z.to_nat n) 0) else None |}.
  intros n p H. destruct (Z.leb_spec 0 n); [|done]. injection H as <-. llia.
Defined.

(** The allocator as a source of addresses: the address of a new object is not
    that of a live one.  Used where a component follows pointers to objects. *)
Class AddrAlloc := {
  new_addr : list Z → option Z;
  new_addr_fresh live a : new_addr live = Some a → (a ∉ live) ∧ 0 < a < 2 ^ 64;
}.

(** Addresses handed out in increasing order. *)
Definition counting_alloc : AddrAlloc.
Proof.
  refine {| new_addr live :=
    let a := 1 + foldr Z.max 0 live in if a <? 2 ^ 64 then Some a else None |}.
  intros live a. cbv zeta. destruct (Z.ltb_spec (1 + foldr Z.max 0 live) (2 ^ 64)) as [Hlt|]; [|done].
  intros [= <-].
  assert (∀ x, x ∈ live → x <= foldr Z.max 0 live) as Hmax.
  { intros x. induction live as [|y l IH]; cbn; [by intros ?%elem_of_nil|].
    intros [->|Hx]%elem_of_cons; [lia|]. cbn in Hlt. specialize (IH ltac:(lia) Hx). lia. }
  split; [intros Hin%Hmax; lia|]. split; [|done].
  clear. induction live; cbn; lia.
Defined.

Definition OPENSSL_MALLOC_PREFIX : Z := 8.

Section mem.
Context {libc : Libc}.

(** [OPENSSL_memory_alloc] is an unset weak symbol; the block handed out
    starts after the size prefix. *)
Definition OPENSSL_malloc (size : Z) : option bytes :=
  if size_t (size + OPENSSL_MALLOC_PREFIX) <? size then None
  else
    ptr ← malloc (size_t (size + OPENSSL_MALLOC_PREFIX));
    Some (dropZ OPENSSL_MALLOC_PREFIX ptr).

(** The old size, kept in the prefix, is the length of the old block. *)
Definition OPENSSL_realloc (orig : option bytes) (new_size : Z) : option bytes :=
  match orig with
  | None => OPENSSL_malloc new_size
  | Some o =>
      ret ← OPENSSL_malloc new_size;
      let to_copy := if lenZ o <? new_size then lenZ o else new_size in
      Some (write_at ret 0 (takeZ to_copy o))
  end.

(** [None] is NULL, also for an empty input. *)
Definition OPENSSL_memdup (data : bytes) : option bytes :=
  if lenZ data =? 0 then None
  else
    ret ← OPENSSL_malloc (lenZ data);
    Some (write_at ret 0 data).

Fixpoint OPENSSL_strnlen (s : bytes) (len : nat) : Z :=
  match len with
  | O => 0
  | S len' =>
      if hd 0 s =? 0 then 0 else 1 + OPENSSL_strnlen (tl s) len'
  end.

Definition OPENSSL_strndup (str : bytes) (size : Z) : option bytes :=
  let size := OPENSSL_strnlen str (Z.to_nat size) in
  let alloc_size := size_t (size + 1) in
  if alloc_size <? size then None
  else
    ret ← OPENSSL_malloc alloc_size;
    Some (write_at (write_at ret 0 (takeZ size str)) size [0]).

Fixpoint strlen (s : bytes) : Z :=
  match s with
  | [] => 0
  | c :: s' => if c =? 0 then 0 else 1 + strlen s'
  end.

Definition OPENSSL_strdup (s : option bytes) : option bytes :=
  s ← s;
  let len := strlen s + 1 in
  ret ← OPENSSL_malloc len;
  Some (write_at ret 0 (takeZ len (s ++ [0]))).

(** [x |= a[i] ^ b[i]] over the two buffers; the result is the [int] value. *)
Definition CRYPTO_memcmp (a b : bytes) : Z :=
  fold_left (λ x ab, x .| (ab.1 .^ ab.2)) (zip a b) 0.

(** [memcmp] over the first [n] bytes, and the sign of its result. *)
Fixpoint memcmp (a b : bytes) (n : nat) : Z :=
  match n with
  | O => 0
  | S n' =>
      if hd 0 a =? hd 0 b then memcmp (tl a) (tl b) n'
      else if hd 0 a <? hd 0 b then -1 else 1
  end.

Definition OPENSSL_memcmp (s1 s2 : bytes) (n : Z) : Z :=
  if n =? 0 then 0 else memcmp s1 s2 (Z.to_nat n).

Definition OPENSSL_hash32 (ptr : bytes) : Z :=
  fold_left (λ h b, u32 ((h .^ b) * 16777619)) ptr 2166136261.

Definition OPENSSL_strhash (s : bytes) : Z := OPENSSL_hash32 (takeZ (strlen s) s).

(** A [char] is signed on the target. *)
Definition s8 (c : Z) : Z := if c <? 128 then c else c - 256.

Definition OPENSSL_tolower (c : Z) : Z :=
  if (65 <=? c) && (c <=? 90) then c + (97 - 65) else c.

Fixpoint OPENSSL_strcasecmp (a b : bytes) : Z :=
  let aa := OPENSSL_tolower (s8 (hd 0 a)) in
  let bb := OPENSSL_tolower (s8 (hd 0 b)) in
  if aa <? bb then -1
  else if bb <? aa then 1
  else if aa =? 0 then 0
  else match a with [] => 0 | _ :: a' => OPENSSL_strcasecmp a' (tl b) end.

Fixpoint OPENSSL_strncasecmp (a b : bytes) (n : nat) : Z :=
  match n with
  | O => 0
  | S n' =>
      let aa := OPENSSL_tolower (s8 (hd 0 a)) in
      let bb := OPENSSL_tolower (s8 (hd 0 b)) in
      if aa <? bb then -1
      else if bb <? aa then 1
      else if aa =? 0 then 0
      else OPENSSL_strncasecmp (tl a) (tl b) n'
  end.

(** The loop [for (; dst_size > 1 && *src; dst_size--)]: the bytes copied, what
    is left of [src] and of [dst_size]. *)
Fixpoint strlcpy_loop (src : bytes) (dst_size : Z) : bytes * bytes * Z :=
  match src with
  | c :: src' =>
      if (1 <? dst_size) && negb (c =? 0) then
        let '(copied, rest, n) := strlcpy_loop src' (dst_size - 1) in
        (c :: copied, rest, n)
      else ([], src, dst_size)
  | [] => ([], [], dst_size)
  end.

(** The destination buffer afterwards and the returned length. *)
Definition OPENSSL_strlcpy (dst src : bytes) (dst_size : Z) : bytes * Z :=
  let '(copied, rest, dst_size) := strlcpy_loop src dst_size in
  let dst := write_at dst 0 copied in
  let dst := if dst_size =? 0 then dst else write_at dst (lenZ copied) [0] in
  (dst, lenZ copied + strlen rest).

(** [for (; dst_size > 0 && *dst; dst_size--, dst++) l++;] *)
Fixpoint strlcat_skip (dst : bytes) (dst_size : nat) : Z :=
  match dst_size, dst with
  | S n, c :: dst' => if c =? 0 then 0 else 1 + strlcat_skip dst' n
  | _, _ => 0
  end.

Definition OPENSSL_strlcat (dst src : bytes) (dst_size : Z) : bytes * Z :=
  let l := strlcat_skip dst (Z.to_nat dst_size) in
  let '(dst', n) := OPENSSL_strlcpy (dropZ l dst) src (dst_size - l) in
  (takeZ l dst ++ dst', l + n).

End mem.

(** * Facts *)

Section mem_facts.
Context {libc : Libc}.

Lemma OPENSSL_malloc_len n p :
  0 <= n → OPENSSL_malloc n = Some p → lenZ p = n.
Proof.
  unfold OPENSSL_malloc, OPENSSL_MALLOC_PREFIX. intros Hn.
  destruct (Z.ltb_spec (size_t (n + 8)) n); [done|].
  destruct (malloc _) as [b|] eqn:Hm; cbn; [|done].
  intros [= <-]. apply malloc_len in Hm. rewrite lenZ_dropZ; mlia.
Qed.

Lemma OPENSSL_realloc_spec o n p :
  lenZ o <= n → OPENSSL_realloc (Some o) n = Some p →
  lenZ p = n ∧ takeZ (lenZ o) p = o.
Proof.
  intros Hn. cbn. destruct (OPENSSL_malloc n) as [r|] eqn:Hm; cbn; [|done].
  apply OPENSSL_malloc_len in Hm; [|llia]. intros [= <-].
  assert ((if lenZ o <? n then lenZ o else n) = lenZ o) as ->
    by (destruct (Z.ltb_spec (lenZ o) n); lia).
  rewrite (takeZ_all o) by lia. split.
  - rewrite lenZ_write_at; llia.
  - rewrite takeZ_write_at; [done|lia|lia|lia].
Qed.

(** A copy, when it succeeds, is the data. *)
Lemma OPENSSL_memdup_spec data p : OPENSSL_memdup data = Some p → p = data.
Proof.
  unfold OPENSSL_memdup. destruct (Z.eqb_spec (lenZ data) 0); [done|].
  destruct (OPENSSL_malloc _) as [r|] eqn:Hm; cbn; [|done].
  apply OPENSSL_malloc_len in Hm; [|llia]. intros [= <-].
  unfold write_at. rewrite takeZ_0, dropZ_all; [apply app_nil_r|lia].
Qed.

Lemma strnlen_bound s n : 0 <= OPENSSL_strnlen s n <= Z.of_nat n.
Proof.
  revert s; induction n as [|n IH]; intros s; cbn [OPENSSL_strnlen]; [lia|].
  destruct (_ =? _); [lia|]. specialize (IH (tl s)). lia.
Qed.
Lemma strnlen_le s : OPENSSL_strnlen s (length s) <= lenZ s.
Proof. pose proof (strnlen_bound s (length s)). unfold lenZ. lia. Qed.

Lemma strnlen_strlen s : OPENSSL_strnlen s (length s) = strlen s.
Proof.
  induction s as [|c s IH]; cbn [OPENSSL_strnlen strlen length hd tl]; [done|].
  destruct (c =? 0); [done|]. by rewrite IH.
Qed.

Lemma strlen_bound s : 0 <= strlen s <= lenZ s.
Proof. rewrite <-strnlen_strlen. pose proof (strnlen_bound s (length s)). unfold lenZ. lia. Qed.

(** The duplicate of a string is its bytes up to the first NUL, terminated. *)
Lemma OPENSSL_strndup_spec str p :
  lenZ str < 2 ^ 64 - 1 → OPENSSL_strndup str (lenZ str) = Some p →
  p = takeZ (strlen str) str ++ [0].
Proof.
  intros Hl. unfold OPENSSL_strndup. unfold lenZ at 1 2 3 4 5. rewrite !Nat2Z.id, strnlen_strlen.
  pose proof (strlen_bound str).
  destruct (Z.ltb_spec (size_t (strlen str + 1)) (strlen str)); [done|].
  destruct (OPENSSL_malloc _) as [r|] eqn:Hm; cbn; [|done].
  assert (size_t (strlen str + 1) = strlen str + 1) as Hsz by (apply wrap_small; mlia).
  rewrite Hsz in Hm. apply OPENSSL_malloc_len in Hm; [|lia]. intros [= <-].
  assert (lenZ (takeZ (strlen str) str) = strlen str) as Ht by (apply lenZ_takeZ; lia).
  unfold write_at at 1. rewrite dropZ_all.
  - rewrite app_nil_r. f_equal. rewrite takeZ_write_at; [done|lia|lia|lia].
  - rewrite lenZ_write_at; llia.
Qed.

Lemma memcmp_acc a b x :
  0 <= x → bytes_ok a → bytes_ok b → length a = length b →
  fold_left (λ x ab, x .| (ab.1 .^ ab.2)) (zip a b) x = 0 ↔ x = 0 ∧ a = b.
Proof.
  revert b x. induction a as [|c a IH]; intros [|d b] x Hx Ha Hb Hl; try done; cbn [zip fold_left zip_with].
  { naive_solver. }
  apply bytes_ok_cons in Ha as [Hc Ha], Hb as [Hd Hb].
  assert (0 <= c .^ d) by (apply Z.lxor_nonneg; unfold fits in *; lia).
  rewrite IH; [|by apply Z.lor_nonneg|done|done|cbn in Hl; lia].
  rewrite Z.lor_eq_0_iff, Z.lxor_eq_0_iff. naive_solver.
Qed.

End mem_facts.

(** * Properties *)

(** [CRYPTO_memcmp] is zero exactly on equal inputs. *)
Theorem CRYPTO_memcmp_exact a b :
  bytes_ok a → bytes_ok b → length a = length b → CRYPTO_memcmp a b = 0 ↔ a = b.
Proof.
  intros Ha Hb Hl. unfold CRYPTO_memcmp. rewrite (memcmp_acc a b 0) by done. naive_solver.
Qed.

Lemma CRYPTO_memcmp_exact_witness : CRYPTO_memcmp [1; 2] [1; 3] = 0 ↔ [1; 2] = [1; 3].
Proof. apply (CRYPTO_memcmp_exact [1; 2] [1; 3]); [decide_now|decide_now|reflexivity]. Defined.
