(* ===== verification/ConstTime.v ===== *)
(** The constant-time primitives of
    src/HolyWater-Test/Pods/BoringSSL-GRPC/src/crypto/internal.h: branch-free
    comparisons that return all-ones or zero masks, and selection by a mask.
    [crypto_word_t] is the 64-bit word; [value_barrier_w] is the identity. *)
From S2P Require Import Prelude.

Definition CONSTTIME_TRUE_W : Z := 2 ^ 64 - 1.
Definition CONSTTIME_FALSE_W : Z := 0.

(** [~a] on a 64-bit word. *)
Definition not_w (a : Z) : Z := u64 (Z.lnot a).

Definition value_barrier_w (a : Z) : Z := a.

Definition constant_time_msb_w (a : Z) : Z := u64 (0 - (a ≫ (8 * 8 - 1))).

Definition constant_time_lt_w (a b : Z) : Z :=
  constant_time_msb_w (a .^ ((a .^ b) .| (u64 (a - b) .^ a))).
Definition constant_time_lt_8 (a b : Z) : Z := u8 (constant_time_lt_w a b).

Definition constant_time_ge_w (a b : Z) : Z := not_w (constant_time_lt_w a b).
Definition constant_time_ge_8 (a b : Z) : Z := u8 (constant_time_ge_w a b).

Definition constant_time_is_zero_w (a : Z) : Z :=
  constant_time_msb_w (not_w a .& u64 (a - 1)).
Definition constant_time_is_zero_8 (a : Z) : Z := u8 (constant_time_is_zero_w a).

Definition constant_time_eq_w (a b : Z) : Z := constant_time_is_zero_w (a .^ b).
Definition constant_time_eq_8 (a b : Z) : Z := u8 (constant_time_eq_w a b).

(** An [int] converts to a word modulo 2^64. *)
Definition constant_time_eq_int (a b : Z) : Z := constant_time_eq_w (u64 a) (u64 b).
Definition constant_time_eq_int_8 (a b : Z) : Z := constant_time_eq_8 (u64 a) (u64 b).

Definition constant_time_select_w (mask a b : Z) : Z :=
  (value_barrier_w mask .& a) .| (value_barrier_w (not_w mask) .& b).
Definition constant_time_select_8 (mask a b : Z) : Z := u8 (constant_time_select_w mask a b).

(** The conversion of a word to [int]. *)
Definition to_int (w : Z) : Z := let v := u32 w in if v <? 2 ^ 31 then v else v - 2 ^ 32.
Definition constant_time_select_int (mask a b : Z) : Z :=
  to_int (constant_time_select_w mask (u64 a) (u64 b)).

Example lt_ex : constant_time_lt_w 3 5 = 0xffffffffffffffff ∧ constant_time_lt_w 5 3 = 0.
Proof. vm_compute. done. Qed.

(** * Masks *)

(** The mask of a truth value. *)
Definition mask_of (b : bool) : Z := if b then CONSTTIME_TRUE_W else CONSTTIME_FALSE_W.

Lemma mask_of_fits b : fits 64 (mask_of b).
Proof. by destruct b. Qed.

Lemma testbit_63 a : fits 64 a → Z.testbit a 63 = (2 ^ 63 <=? a).
Proof.
  intros Ha. change (2 ^ 63) with 9223372036854775808.
  pose proof (Z.testbit_spec' a 63 ltac:(lia)) as Hb. change (2 ^ 63) with 9223372036854775808 in Hb.
  destruct (Z.testbit a 63), (Z.leb_spec 9223372036854775808 a); cbn [Z.b2z] in Hb; mlia.
Qed.

Lemma msb_spec a : fits 64 a → constant_time_msb_w a = mask_of (Z.testbit a 63).
Proof.
  intros Ha. rewrite testbit_63 by done. unfold constant_time_msb_w, mask_of, CONSTTIME_TRUE_W.
  rewrite shiftr_div by lia. change (2 ^ (8 * 8 - 1)) with 9223372036854775808.
  change (2 ^ 63) with 9223372036854775808.
  destruct (Z.leb_spec 9223372036854775808 a).
  - replace (a / 9223372036854775808) with 1 by mlia. mlia.
  - replace (a / 9223372036854775808) with 0 by mlia. done.
Qed.

Lemma testbit_wrap w x n : 0 <= w → 0 <= n → Z.testbit (wrap w x) n = (n <? w) && Z.testbit x n.
Proof.
  intros Hw Hn. unfold wrap. destruct (Z.ltb_spec n w); cbn [andb].
  - by rewrite Z.mod_pow2_bits_low.
  - by rewrite Z.mod_pow2_bits_high by lia.
Qed.

Lemma fits_testbit w a : 0 <= w → fits w a ↔ 0 <= a ∧ ∀ i, w <= i → Z.testbit a i = false.
Proof.
  intros Hw. unfold fits. split.
  - intros [H0 H1]. split; [done|]. intros i Hi.
    destruct (Z.eq_dec a 0) as [->|]; [by rewrite Z.bits_0|].
    apply Z.bits_above_log2; [lia|]. apply Z.log2_lt_pow2 in H1; lia.
  - intros [H0 H1]. split; [done|]. destruct (Z.eq_dec a 0) as [->|]; [by apply Z.pow_pos_nonneg; lia|].
    apply Z.log2_lt_pow2; [lia|]. destruct (Z.lt_ge_cases (Z.log2 a) w) as [|Hge]; [done|].
    specialize (H1 _ Hge). rewrite Z.bit_log2 in H1; [done|lia].
Qed.

Lemma fits_land w a b : 0 <= w → fits w a → fits w b → fits w (a .& b).
Proof.
  intros Hw [Ha Ha']%fits_testbit [Hb Hb']%fits_testbit; try done. apply fits_testbit; [done|].
  split; [by apply Z.land_nonneg; left|]. intros i Hi. by rewrite Z.land_spec, Ha'.
Qed.
Lemma fits_lor w a b : 0 <= w → fits w a → fits w b → fits w (a .| b).
Proof.
  intros Hw [Ha Ha']%fits_testbit [Hb Hb']%fits_testbit; try done. apply fits_testbit; [done|].
  split; [by apply Z.lor_nonneg|]. intros i Hi. by rewrite Z.lor_spec, Ha', Hb'.
Qed.
Lemma fits_lxor w a b : 0 <= w → fits w a → fits w b → fits w (a .^ b).
Proof.
  intros Hw [Ha Ha']%fits_testbit [Hb Hb']%fits_testbit; try done. apply fits_testbit; [done|].
  split; [by apply Z.lxor_nonneg|]. intros i Hi. by rewrite Z.lxor_spec, Ha', Hb'.
Qed.

Lemma not_w_spec a : fits 64 a → not_w a = CONSTTIME_TRUE_W - a.
Proof. intros Ha. unfold not_w, CONSTTIME_TRUE_W, Z.lnot. mlia. Qed.

Lemma not_mask b : not_w (mask_of b) = mask_of (negb b).
Proof. by destruct b. Qed.

Lemma lt_w_spec a b : fits 64 a → fits 64 b → constant_time_lt_w a b = mask_of (a <? b).
Proof.
  intros Ha Hb. unfold constant_time_lt_w.
  assert (fits 64 (u64 (a - b))) as Hd by (apply wrap_fits; lia).
  rewrite msb_spec by (repeat first [apply fits_lxor | apply fits_lor]; done).
  f_equal. rewrite Z.lxor_spec, Z.lor_spec, !Z.lxor_spec, !testbit_63 by done.
  change (2 ^ 63) with 9223372036854775808.
  destruct (Z.leb_spec 9223372036854775808 a), (Z.leb_spec 9223372036854775808 b),
    (Z.leb_spec 9223372036854775808 (u64 (a - b))), (Z.ltb_spec a b); cbn; mlia || done.
Qed.

Lemma ge_w_spec a b : fits 64 a → fits 64 b → constant_time_ge_w a b = mask_of (b <=? a).
Proof.
  intros Ha Hb. unfold constant_time_ge_w. rewrite lt_w_spec, not_mask by done. f_equal. lia.
Qed.

Lemma is_zero_w_spec a : fits 64 a → constant_time_is_zero_w a = mask_of (a =? 0).
Proof.
  intros Ha. unfold constant_time_is_zero_w.
  assert (fits 64 (u64 (a - 1)) ∧ fits 64 (not_w a)) as [Hd Hn] by (split; apply wrap_fits; lia).
  rewrite msb_spec by (by apply fits_land). f_equal. rewrite Z.land_spec, !testbit_63 by done.
  rewrite not_w_spec by done. unfold CONSTTIME_TRUE_W. change (2 ^ 63) with 9223372036854775808.
  rewrite pow2_64.
  destruct (Z.leb_spec 9223372036854775808 (18446744073709551616 - 1 - a)),
    (Z.leb_spec 9223372036854775808 (u64 (a - 1))), (Z.eqb_spec a 0); cbn; mlia || done.
Qed.

Lemma eq_w_spec a b : fits 64 a → fits 64 b → constant_time_eq_w a b = mask_of (a =? b).
Proof.
  intros Ha Hb. unfold constant_time_eq_w. rewrite is_zero_w_spec by (by apply fits_lxor).
  f_equal. destruct (Z.eqb_spec (a .^ b) 0) as [H|H], (Z.eqb_spec a b) as [->|Hne]; try done.
  - by apply Z.lxor_eq in H.
  - by rewrite Z.lxor_nilpotent in H.
Qed.

Lemma land_all_ones a : fits 64 a → CONSTTIME_TRUE_W .& a = a.
Proof.
  intros Ha. unfold CONSTTIME_TRUE_W. rewrite Z.land_comm, land_mask by lia. by apply Z.mod_small.
Qed.

Lemma select_w_spec c a b : fits 64 a → fits 64 b → constant_time_select_w (mask_of c) a b = if c then a else b.
Proof.
  intros Ha Hb. unfold constant_time_select_w, value_barrier_w. rewrite not_mask.
  destruct c; cbn [mask_of negb]; rewrite land_all_ones by done; rewrite Z.land_0_l.
  - apply Z.lor_0_r.
  - done.
Qed.

Lemma to_int_u64 a : - 2 ^ 31 <= a < 2 ^ 31 → to_int (u64 a) = a.
Proof.
  intros Ha. unfold to_int. change (2 ^ 31) with 2147483648 in *.
  rewrite pow2_32. destruct (Z.ltb_spec (u32 (u64 a)) 2147483648); mlia.
Qed.

Lemma eq_int_spec a b :
  - 2 ^ 31 <= a < 2 ^ 31 → - 2 ^ 31 <= b < 2 ^ 31 → constant_time_eq_int a b = mask_of (a =? b).
Proof.
  intros Ha Hb. unfold constant_time_eq_int. rewrite eq_w_spec by (apply wrap_fits; lia). f_equal.
  destruct (Z.eqb_spec a b) as [->|Hne]; [apply Z.eqb_refl|]. apply Z.eqb_neq. intros H.
  apply Hne. by rewrite <-(to_int_u64 a), <-(to_int_u64 b), H.
Qed.

(** The 8-bit variants truncate the mask. *)
Lemma mask_8 b : u8 (mask_of b) = if b then 0xff else 0.
Proof. by destruct b. Qed.

(** * Properties *)

(** The constant-time comparisons and selections compute the ordinary ones on
    64-bit words, as masks of all ones or all zeros. *)
Theorem constant_time_exact a b (c : bool) :
  fits 64 a → fits 64 b →
  constant_time_lt_w a b = mask_of (a <? b) ∧ constant_time_ge_w a b = mask_of (b <=? a) ∧
  constant_time_eq_w a b = mask_of (a =? b) ∧ constant_time_is_zero_w a = mask_of (a =? 0) ∧
  constant_time_lt_8 a b = (if a <? b then 0xff else 0) ∧
  constant_time_eq_8 a b = (if a =? b then 0xff else 0) ∧
  constant_time_select_w (mask_of c) a b = (if c then a else b).
Proof.
  intros Ha Hb. unfold constant_time_lt_8, constant_time_eq_8. fold (constant_time_eq_w a b).
  rewrite lt_w_spec, ge_w_spec, eq_w_spec, is_zero_w_spec, select_w_spec, !mask_8 by done. done.
Qed.

Lemma constant_time_exact_witness :
  constant_time_lt_w 3 5 = mask_of true ∧ constant_time_ge_w 3 5 = mask_of false ∧
  constant_time_eq_w 3 5 = mask_of false ∧ constant_time_is_zero_w 3 = mask_of false ∧
  constant_time_lt_8 3 5 = 0xff ∧ constant_time_eq_8 3 5 = 0 ∧ constant_time_select_w (mask_of true) 3 5 = 3.
Proof. apply (constant_time_exact 3 5 true); decide_now. Defined.
