(* ===== verification/X690.v ===== *)
(** The abstract specification of the encodings that the bytestring component
    reads and writes: DER identifier octets, length octets and elements, and the
    base-128 integers of high tag numbers and OBJECT IDENTIFIERs (ITU-T X.690,
    sections 8.1 and 10.1).  Nothing here is translated from the code: [Cbs],
    [Cbb], [Ber] and [Oid] are proved against these definitions. *)
From S2P Require Import Prelude.

(** * Base-128 integers *)

(** The [n + 1] low base-128 digits of [v], most significant first; all but the
    last have the continuation bit. *)
Fixpoint b128 (n : nat) (v : Z) : bytes :=
  match n with
  | O => [v mod 128]
  | S n' => (128 + v / 128 ^ Z.of_nat n mod 128) :: b128 n' v
  end.

(** The number of digits after the first in the shortest encoding. *)
Definition b128_len (v : Z) : nat := Z.to_nat (Z.log2 v / 7).

Definition base128 (v : Z) : bytes := b128 (b128_len v) v.

(** * Tags: class and constructed bit in bits 29-31, the number below *)

Definition tag_bytes (tag : Z) : bytes :=
  let bits := tag / 2 ^ 29 in
  let number := tag mod 2 ^ 29 in
  if number <? 31 then [bits * 32 + number] else (bits * 32 + 31) :: base128 number.

(** * Lengths: the shortest definite form *)

Definition len_len (n : Z) : nat := Z.to_nat (Z.log2 n / 8 + 1).

Definition len_bytes (n : Z) : bytes :=
  if n <? 128 then [n]
  else (128 + Z.of_nat (len_len n)) :: be_bytes (len_len n) n.

Definition der_header (tag n : Z) : bytes := tag_bytes tag ++ len_bytes n.

Definition der_element (tag : Z) (contents : bytes) : bytes :=
  der_header tag (lenZ contents) ++ contents.

(** * INTEGER bodies: the shortest two's complement form *)

(** The magnitude that decides the length: [v] and [-v-1] need the same octets. *)
Definition int_mag (v : Z) : Z := if v <? 0 then - v - 1 else v.
Definition int_len (v : Z) : nat :=
  if int_mag v =? 0 then 1%nat else Z.to_nat ((Z.log2 (int_mag v) + 1) / 8 + 1).
Definition int_body (v : Z) : bytes := be_bytes (int_len v) v.

(** The value of a two's complement body. *)
Definition signed_value (d : bytes) : Z :=
  if nthZ d 0 <? 128 then be_value d else be_value d - 256 ^ lenZ d.

(** No octet is redundant: the first nine bits are not all equal. *)
Definition int_minimal (d : bytes) : Prop :=
  match d with
  | [] => False
  | [_] => True
  | b0 :: b1 :: _ => ¬ (b0 = 0 ∧ b1 < 128) ∧ ¬ (b0 = 255 ∧ 128 <= b1)
  end.

(** * Facts *)

Lemma b128_len_spec v :
  0 <= v → v < 128 ^ (Z.of_nat (b128_len v) + 1) ∧
           (b128_len v = O ∨ 128 ^ Z.of_nat (b128_len v) <= v).
Proof.
  intros Hv. unfold b128_len. destruct (Z.eq_dec v 0) as [->|Hne]; [split; [done|by left]|].
  pose proof (Z.log2_spec v ltac:(lia)) as [Hlo Hhi].
  pose proof (Z.log2_nonneg v) as Hnn. rewrite Z2Nat.id by lia.
  change 128 with (2 ^ 7). rewrite <-!Z.pow_mul_r by lia.
  split; [|right].
  - eapply Z.lt_le_trans; [apply Hhi|]. apply Z.pow_le_mono_r; lia.
  - etransitivity; [|apply Hlo]. apply Z.pow_le_mono_r; lia.
Qed.

(** A number of digits is the shortest when it is large enough and has no
    leading zero digit. *)
Lemma b128_len_unique n v :
  0 <= v < 128 ^ (Z.of_nat n + 1) → n = O ∨ 128 ^ Z.of_nat n <= v → n = b128_len v.
Proof.
  intros Hv Hn. pose proof (b128_len_spec v ltac:(lia)) as [Hlt Hle].
  destruct (lt_eq_lt_dec n (b128_len v)) as [[Hl|]|Hl]; [|done|]; exfalso.
  - destruct Hle as [|Hle]; [lia|].
    pose proof (Z.pow_le_mono_r 128 (Z.of_nat n + 1) (Z.of_nat (b128_len v))). lia.
  - destruct Hn as [|Hn]; [lia|].
    pose proof (Z.pow_le_mono_r 128 (Z.of_nat (b128_len v) + 1) (Z.of_nat n)). lia.
Qed.

Lemma b128_ok n v : bytes_ok (b128 n v).
Proof.
  induction n as [|n IH]; cbn [b128]; apply bytes_ok_cons; (split; [mlia|]);
    [apply bytes_ok_nil|apply IH].
Qed.

Lemma length_b128 n v : length (b128 n v) = S n.
Proof. induction n as [|n IH]; cbn [b128 length]; [done|]. by rewrite IH. Qed.

Lemma len_len_spec n :
  0 < n → n < 256 ^ Z.of_nat (len_len n) ∧ 256 ^ (Z.of_nat (len_len n) - 1) <= n ∧
          1 <= Z.of_nat (len_len n).
Proof.
  intros Hn. unfold len_len. pose proof (Z.log2_spec n Hn) as [Hlo Hhi].
  pose proof (Z.log2_nonneg n). rewrite Z2Nat.id by lia.
  change 256 with (2 ^ 8). rewrite <-!Z.pow_mul_r by lia.
  split; [|split; [|lia]].
  - eapply Z.lt_le_trans; [apply Hhi|]. apply Z.pow_le_mono_r; lia.
  - etransitivity; [|apply Hlo]. apply Z.pow_le_mono_r; lia.
Qed.

Lemma len_len_unique k n :
  1 <= Z.of_nat k → n < 256 ^ Z.of_nat k → 256 ^ (Z.of_nat k - 1) <= n → k = len_len n.
Proof.
  intros Hk Hlt Hle. assert (0 < n).
  { pose proof (Z.pow_pos_nonneg 256 (Z.of_nat k - 1)). lia. }
  destruct (len_len_spec n) as (H1 & H2 & H3); [done|].
  destruct (lt_eq_lt_dec k (len_len n)) as [[Hl|]|Hl]; [|done|]; exfalso.
  - pose proof (Z.pow_le_mono_r 256 (Z.of_nat k) (Z.of_nat (len_len n) - 1)). lia.
  - pose proof (Z.pow_le_mono_r 256 (Z.of_nat (len_len n)) (Z.of_nat k - 1)). lia.
Qed.

Lemma len_len_4 n : 0 < n < 2 ^ 32 → Z.of_nat (len_len n) <= 4.
Proof.
  intros [H0 H]. destruct (len_len_spec n H0) as (_ & H2 & _).
  destruct (Z.le_gt_cases (Z.of_nat (len_len n)) 4); [done|exfalso].
  pose proof (Z.pow_le_mono_r 256 4 (Z.of_nat (len_len n) - 1)).
  change (256 ^ 4) with (2 ^ 32) in *. lia.
Qed.

Lemma tag_bytes_ok tag : fits 32 tag → bytes_ok (tag_bytes tag).
Proof.
  intros Ht. unfold tag_bytes. change (2 ^ 29) with 536870912.
  destruct (Z.ltb_spec (tag mod 536870912) 31); apply bytes_ok_cons; (split; [mlia|]);
    [apply bytes_ok_nil|apply b128_ok].
Qed.

Lemma len_bytes_ok n : fits 32 n → bytes_ok (len_bytes n).
Proof.
  intros Hn. unfold len_bytes. destruct (Z.ltb_spec n 128); apply bytes_ok_cons.
  - split; [mlia|apply bytes_ok_nil].
  - split; [|apply be_bytes_ok]. pose proof (len_len_4 n ltac:(mlia)). mlia.
Qed.

Lemma der_header_ok tag n : fits 32 tag → fits 32 n → bytes_ok (der_header tag n).
Proof. intros. apply bytes_ok_app. eauto using tag_bytes_ok, len_bytes_ok. Qed.

(** * Sizes *)

Lemma lenZ_b128 n v : lenZ (b128 n v) = Z.of_nat n + 1.
Proof. unfold lenZ. rewrite length_b128. lia. Qed.

Lemma b128_len_29 v : 0 <= v < 2 ^ 29 → Z.of_nat (b128_len v) <= 4.
Proof.
  intros Hv. unfold b128_len. destruct (Z.eq_dec v 0) as [->|]; [done|].
  assert (Z.log2 v < 29) by (apply Z.log2_lt_pow2; lia).
  pose proof (Z.log2_nonneg v). lia.
Qed.

Lemma lenZ_tag_bytes tag : fits 32 tag → 1 <= lenZ (tag_bytes tag) <= 6.
Proof.
  intros Ht. unfold tag_bytes. destruct (_ <? _); [done|]. rewrite lenZ_cons.
  unfold base128. rewrite lenZ_b128.
  pose proof (b128_len_29 (tag mod 2 ^ 29) ltac:(apply Z.mod_pos_bound; lia)). lia.
Qed.

Lemma lenZ_len_bytes n : fits 32 n → 1 <= lenZ (len_bytes n) <= 5.
Proof.
  intros Hn. unfold len_bytes. destruct (Z.ltb_spec n 128); [done|].
  rewrite lenZ_cons, lenZ_be_bytes. pose proof (len_len_4 n ltac:(mlia)). lia.
Qed.

Lemma lenZ_der_header tag n :
  lenZ (der_header tag n) = lenZ (tag_bytes tag) + lenZ (len_bytes n).
Proof. apply lenZ_app. Qed.

(** * INTEGER bodies *)

Lemma int_mag_ge v B : B <= v ∨ B <= - v - 1 → B <= int_mag v.
Proof. unfold int_mag. destruct (Z.ltb_spec v 0); lia. Qed.

Lemma int_len_spec v :
  1 <= Z.of_nat (int_len v) ∧
  - 128 * 256 ^ (Z.of_nat (int_len v) - 1) <= v < 128 * 256 ^ (Z.of_nat (int_len v) - 1) ∧
  (int_len v = 1%nat ∨
   128 * 256 ^ (Z.of_nat (int_len v) - 2) <= int_mag v).
Proof.
  unfold int_len. assert (0 <= int_mag v) as Hm by (unfold int_mag; destruct (Z.ltb_spec v 0); lia).
  assert (∀ B, int_mag v < B → - B <= v < B) as Hb by (unfold int_mag; intros B; destruct (Z.ltb_spec v 0); lia).
  destruct (Z.eqb_spec (int_mag v) 0) as [H0|Hne].
  { change (256 ^ (Z.of_nat 1 - 1)) with 1. specialize (Hb 1). split_and!; lia. }
  pose proof (Z.log2_spec (int_mag v) ltac:(lia)) as [Hlo Hhi].
  pose proof (Z.log2_nonneg (int_mag v)). set (l := Z.log2 (int_mag v)) in *.
  rewrite Z2Nat.id by lia. set (n := (l + 1) / 8).
  assert (int_mag v < 128 * 256 ^ n) as Hlt.
  { eapply Z.lt_le_trans; [apply Hhi|]. change 128 with (2 ^ 7). change 256 with (2 ^ 8).
    rewrite <-Z.pow_mul_r, <-Z.pow_add_r by lia. apply Z.pow_le_mono_r; lia. }
  replace (n + 1 - 1) with n by lia. apply Hb in Hlt. split_and!; try lia.
  destruct (Z.eq_dec n 0) as [->|]; [by left|right]. replace (n + 1 - 2) with (n - 1) by lia.
  etransitivity; [|apply Hlo]. change 128 with (2 ^ 7). change 256 with (2 ^ 8).
  rewrite <-Z.pow_mul_r, <-Z.pow_add_r by lia. apply Z.pow_le_mono_r; lia.
Qed.

Lemma int_len_unique n v :
  1 <= Z.of_nat n → - 128 * 256 ^ (Z.of_nat n - 1) <= v < 128 * 256 ^ (Z.of_nat n - 1) →
  n = 1%nat ∨ 128 * 256 ^ (Z.of_nat n - 2) <= int_mag v → n = int_len v.
Proof.
  intros Hn Hv Hm. destruct (int_len_spec v) as (H1 & H2 & H3).
  assert (∀ B, - B <= v < B → int_mag v < B) as Hb by (unfold int_mag; intros B; destruct (Z.ltb_spec v 0); lia).
  destruct (lt_eq_lt_dec n (int_len v)) as [[Hl|]|Hl]; [|done|]; exfalso.
  - destruct H3 as [|H3]; [lia|].
    pose proof (Z.pow_le_mono_r 256 (Z.of_nat n - 1) (Z.of_nat (int_len v) - 2)).
    specialize (Hb (128 * 256 ^ (Z.of_nat n - 1))). lia.
  - destruct Hm as [|Hm]; [lia|].
    pose proof (Z.pow_le_mono_r 256 (Z.of_nat (int_len v) - 1) (Z.of_nat n - 2)).
    specialize (Hb (128 * 256 ^ (Z.of_nat (int_len v) - 1))). lia.
Qed.

Lemma lenZ_int_body v : lenZ (int_body v) = Z.of_nat (int_len v).
Proof. apply lenZ_be_bytes. Qed.

Lemma int_body_ok v : bytes_ok (int_body v).
Proof. apply be_bytes_ok. Qed.

(** A two's complement body of [k + 1] octets. *)
Lemma signed_value_be_bytes k v :
  - 128 * 256 ^ Z.of_nat k <= v < 128 * 256 ^ Z.of_nat k → signed_value (be_bytes (S k) v) = v.
Proof.
  intros Hv. unfold signed_value. rewrite be_value_be_bytes, lenZ_be_bytes, be_bytes_S.
  rewrite Nat2Z.inj_succ, Z.pow_succ_r by lia.
  set (B := 256 ^ Z.of_nat k) in *. assert (0 < B) by (apply Z.pow_pos_nonneg; lia).
  change (nthZ (v / B mod 256 :: be_bytes k v) 0) with (v / B mod 256).
  destruct (Z.lt_ge_cases v 0).
  - assert (- 128 <= v / B < 0) by (split; [apply Z.div_le_lower_bound|apply Z.div_lt_upper_bound]; lia).
    destruct (Z.ltb_spec (v / B mod 256) 128); [lia|].
    rewrite <-(Z.mod_unique v (256 * B) (-1) (v + 256 * B)); [lia|left; lia|lia].
  - assert (0 <= v / B < 128) by (split; [apply Z.div_pos|apply Z.div_lt_upper_bound]; lia).
    destruct (Z.ltb_spec (v / B mod 256) 128); [|lia]. apply Z.mod_small. lia.
Qed.

Lemma int_len_S v : ∃ k, int_len v = S k.
Proof. destruct (int_len_spec v) as [H _]. destruct (int_len v) as [|k]; [lia|by exists k]. Qed.

Lemma signed_value_int_body v : signed_value (int_body v) = v.
Proof.
  destruct (int_len_spec v) as (H1 & H2 & _). destruct (int_len_S v) as [k Hk].
  unfold int_body. rewrite Hk in *. apply signed_value_be_bytes.
  by replace (Z.of_nat (S k) - 1) with (Z.of_nat k) in H2 by lia.
Qed.

Lemma int_body_minimal v : int_minimal (int_body v).
Proof.
  destruct (int_len_spec v) as (_ & H2 & H3). destruct (int_len_S v) as [k Hk].
  unfold int_body. rewrite Hk in *. rewrite be_bytes_S. destruct k as [|k]; [done|].
  rewrite be_bytes_S. destruct H3 as [|H3]; [lia|].
  replace (Z.of_nat (S (S k)) - 2) with (Z.of_nat k) in H3 by lia.
  replace (Z.of_nat (S (S k)) - 1) with (Z.succ (Z.of_nat k)) in H2 by lia.
  rewrite Nat2Z.inj_succ in *. rewrite Z.pow_succ_r in * by lia.
  set (B := 256 ^ Z.of_nat k) in *. assert (0 < B) by (apply Z.pow_pos_nonneg; lia).
  rewrite (Z.mul_comm 256 B), <-Z.div_div by lia.
  pose proof (Z.div_mod v B ltac:(lia)). pose proof (Z.mod_pos_bound v B ltac:(lia)).
  set (q := v / B) in *. assert (- 32768 <= q < 32768) as Hq by nia.
  cbn [int_minimal].
  assert (128 * B <= v ∨ 128 * B <= - v - 1) as Hm
    by (unfold int_mag in H3; destruct (Z.ltb_spec v 0); lia).
  split; intros [Ha Hb].
  - assert (0 <= q <= 127) as Hq' by lia. clear Ha Hb Hq.
    assert (0 <= B * q <= B * 127) by nia. lia.
  - assert (- 128 <= q <= -1) as Hq' by lia. clear Ha Hb Hq.
    assert (B * (-128) <= B * q <= B * (-1)) by nia. lia.
Qed.

(** The minimal body of a value is unique. *)
Lemma int_body_signed_value d : bytes_ok d → int_minimal d → int_body (signed_value d) = d.
Proof.
  intros Hd Hm. destruct d as [|b0 d]; [done|]. pose proof Hd as [Hb0 Hd']%bytes_ok_cons.
  pose proof (be_value_bound d Hd') as Hv. set (B := 256 ^ lenZ d) in *.
  assert (signed_value (b0 :: d) = (if b0 <? 128 then b0 else b0 - 256) * B + be_value d) as Hs.
  { unfold signed_value. rewrite be_value_cons, lenZ_cons, Z.pow_add_r by llia. fold B.
    change (256 ^ 1) with 256. change (nthZ (b0 :: d) 0) with b0. destruct (b0 <? 128); lia. }
  assert (int_len (signed_value (b0 :: d)) = S (length d)) as Hlen.
  { symmetry. apply int_len_unique; [lia| |].
    - replace (Z.of_nat (S (length d)) - 1) with (lenZ d) by (unfold lenZ; lia). fold B.
      rewrite Hs. destruct (Z.ltb_spec b0 128); mlia || (unfold fits in *; change (2^8) with 256 in *; nia).
    - destruct d as [|b1 d]; [by left|right]. cbn in Hm.
      apply bytes_ok_cons in Hd' as [Hb1 Hd'']. pose proof (be_value_bound d Hd'') as Hv2.
      replace (Z.of_nat (S (length (b1 :: d))) - 2) with (lenZ d) by (unfold lenZ; cbn [length]; lia).
      unfold B in Hs. rewrite lenZ_cons, Z.pow_add_r in Hs by llia. change (256 ^ 1) with 256 in Hs.
      rewrite be_value_cons in Hs. set (C := 256 ^ lenZ d) in *.
      unfold fits in *. change (2 ^ 8) with 256 in *.
      set (q := (if b0 <? 128 then b0 else b0 - 256) * 256 + b1).
      replace (signed_value _) with (q * C + be_value d) by (unfold q; lia).
      assert (128 <= q ∨ q <= -129) as Hq by (unfold q; destruct (Z.ltb_spec b0 128); lia).
      apply int_mag_ge. destruct Hq; [left|right]; nia. }
  unfold int_body. rewrite Hlen.
  transitivity (be_bytes (S (length d)) (be_value (b0 :: d))); [|by apply be_bytes_be_value].
  apply be_bytes_eq. unfold signed_value. destruct (_ <? 128); [done|].
  change (256 ^ lenZ (b0 :: d)) with (256 ^ Z.of_nat (S (length d))).
  rewrite Zminus_mod, Z_mod_same_full, Z.sub_0_r. apply Zmod_mod.
Qed.
