(* ===== verification/Cbs.v ===== *)
(** CBS, the byte-string reader:
    src/HolyWater-Test/Pods/BoringSSL-GRPC/src/crypto/bytestring/cbs.c.

    A [CBS] is a (pointer, length) view of an immutable buffer; here it is the
    list of the bytes it views, so advancing the pointer drops bytes.  A call on
    a CBS is a computation [M cbs A]: the failed calls keep the CBS as the C code
    leaves it.  An out-parameter that the caller may pass as NULL is part of the
    result; out-parameters are meaningful only when the call returns one. *)
From S2P Require Import Prelude Mem.

Abbreviation cbs := bytes.

(** * Constants of include/openssl/bytestring.h *)

Definition CBS_ASN1_TAG_SHIFT : Z := 24.
Definition CBS_ASN1_CONSTRUCTED : Z := 0x20 ≪ CBS_ASN1_TAG_SHIFT.
Definition CBS_ASN1_TAG_NUMBER_MASK : Z := (1 ≪ (5 + CBS_ASN1_TAG_SHIFT)) - 1.
Definition CBS_ASN1_BOOLEAN : Z := 0x1.
Definition CBS_ASN1_INTEGER : Z := 0x2.
Definition CBS_ASN1_OCTETSTRING : Z := 0x4.

(** Run [m] on a local copy of a CBS, failing when it fails. *)
Definition on_copy {S A} (m : M cbs A) (c : cbs) : M S (A * cbs) :=
  λ s, match m c with (Some a, c') => (Some (a, c'), s) | (None, _) => (None, s) end.

(** Does [m] return one? *)
Definition succeeds {A} (m : M cbs A) (c : cbs) : bool :=
  match m c with (Some _, _) => true | (None, _) => false end.

(** * Raw access *)

Definition CBS_init (data : bytes) (len : Z) : cbs := takeZ len data.

Definition cbs_get (n : Z) : M cbs bytes := λ cbs,
  if lenZ cbs <? n then (None, cbs) else (Some (takeZ n cbs), dropZ n cbs).

Definition CBS_skip (len : Z) : M cbs () := cbs_get len;; mret ().

Definition CBS_data (c : cbs) : bytes := c.
Definition CBS_len (c : cbs) : Z := lenZ c.

(** The copy ([None]: NULL) and its length; fails when memory runs out. *)
Definition CBS_stow `{!Libc} (c : cbs) : option (option bytes * Z) :=
  if lenZ c =? 0 then Some (None, 0)
  else
    match OPENSSL_memdup c with
    | None => None
    | Some p => Some (Some p, lenZ c)
    end.

Definition CBS_strdup `{!Libc} (c : cbs) : option bytes := OPENSSL_strndup c (lenZ c).

(** [memchr]: the offset of the first [c]. *)
Fixpoint memchr (s : bytes) (c : Z) : option Z :=
  match s with
  | [] => None
  | b :: s' => if b =? c then Some 0 else Z.succ <$> memchr s' c
  end.

Definition CBS_contains_zero_byte (c : cbs) : bool := bool_decide (memchr c 0 ≠ None).

Definition CBS_mem_equal (c : cbs) (data : bytes) : bool :=
  if negb (lenZ data =? lenZ c) then false
  else CRYPTO_memcmp c data =? 0.

(** * Fixed-width integers *)

Definition cbs_get_u (len : Z) : M cbs Z :=
  data ← cbs_get len;
  mret (fold_left (λ result b, u64 (result ≪ 8) .| b) data 0).

Definition CBS_get_u8 : M cbs Z := v ← cbs_get 1; mret (nthZ v 0).
Definition CBS_get_u16 : M cbs Z := v ← cbs_get_u 2; mret (u16 v).
Definition CBS_get_u24 : M cbs Z := v ← cbs_get_u 3; mret (u32 v).
Definition CBS_get_u32 : M cbs Z := v ← cbs_get_u 4; mret (u32 v).
Definition CBS_get_u64 : M cbs Z := cbs_get_u 8.

(** The byte swaps of crypto/internal.h, in their portable form. *)
Definition CRYPTO_bswap2 (x : Z) : Z := u16 ((x ≫ 8) .| (x ≪ 8)).
Definition CRYPTO_bswap4 (x : Z) : Z :=
  let x := u32 ((x ≫ 16) .| (x ≪ 16)) in
  u32 (((x .& 0xff00ff00) ≫ 8) .| ((x .& 0x00ff00ff) ≪ 8)).
Definition CRYPTO_bswap8 (x : Z) : Z :=
  u64 (CRYPTO_bswap4 (u32 (x ≫ 32)) .| (CRYPTO_bswap4 (u32 x) ≪ 32)).

Definition CBS_get_u16le : M cbs Z := v ← CBS_get_u16; mret (CRYPTO_bswap2 v).
Definition CBS_get_u32le : M cbs Z := v ← CBS_get_u32; mret (CRYPTO_bswap4 v).
Definition CBS_get_u64le : M cbs Z := v ← cbs_get_u 8; mret (CRYPTO_bswap8 v).

Definition CBS_get_last_u8 : M cbs Z := λ cbs,
  if lenZ cbs =? 0 then (None, cbs)
  else (Some (nthZ cbs (lenZ cbs - 1)), takeZ (lenZ cbs - 1) cbs).

(** * Substrings *)

Definition CBS_get_bytes (len : Z) : M cbs cbs :=
  v ← cbs_get len; mret (CBS_init v len).

Definition CBS_copy_bytes (len : Z) : M cbs bytes := cbs_get len.

Definition cbs_get_length_prefixed (len_len : Z) : M cbs cbs :=
  len ← cbs_get_u len_len; CBS_get_bytes len.

Definition CBS_get_u8_length_prefixed : M cbs cbs := cbs_get_length_prefixed 1.
Definition CBS_get_u16_length_prefixed : M cbs cbs := cbs_get_length_prefixed 2.
Definition CBS_get_u24_length_prefixed : M cbs cbs := cbs_get_length_prefixed 3.

Definition CBS_get_until_first (c : Z) : M cbs cbs :=
  cbs ← getS;
  match memchr (CBS_data cbs) c with
  | None => ret0
  | Some split => CBS_get_bytes split
  end.

(** * ASN.1 *)

(** The do-while loop of [parse_base128_integer]; each round reads one byte. *)
Fixpoint parse_base128_loop (v : Z) (cbs : bytes) : option Z * bytes :=
  match cbs with
  | [] => (None, [])
  | b :: cbs' =>
      if negb (v ≫ (64 - 7) =? 0) then (None, cbs')
      else if (v =? 0) && (b =? 0x80) then (None, cbs')
      else
        let v := u64 (v ≪ 7) .| (b .& 0x7f) in
        if b .& 0x80 =? 0 then (Some v, cbs') else parse_base128_loop v cbs'
  end.

Definition parse_base128_integer : M cbs Z := parse_base128_loop 0.

Definition parse_asn1_tag : M cbs Z :=
  tag_byte ← CBS_get_u8;
  let tag := u32 ((tag_byte .& 0xe0) ≪ CBS_ASN1_TAG_SHIFT) in
  let tag_number := tag_byte .& 0x1f in
  if tag_number =? 0x1f then
    v ← parse_base128_integer;
    ensure (negb ((CBS_ASN1_TAG_NUMBER_MASK <? v) || (v <? 0x1f)));;
    mret (tag .| v)
  else mret (tag .| tag_number).

(** What the element readers return through their out-parameters. *)
Record asn1_element := {
  el_out : cbs;
  el_tag : Z;
  el_header_len : Z;
  el_ber_found : bool;
}.

Definition cbs_get_any_asn1_element (ber_ok : bool) : M cbs asn1_element :=
  cbs ← getS;
  '(tag, header) ← on_copy parse_asn1_tag cbs;
  '(length_byte, header) ← on_copy CBS_get_u8 header;
  let header_len := CBS_len cbs - CBS_len header in
  if length_byte .& 0x80 =? 0 then
    (* Short form length. *)
    let len := size_t (length_byte + header_len) in
    out ← CBS_get_bytes len;
    mret {| el_out := out; el_tag := tag; el_header_len := header_len;
            el_ber_found := false |}
  else
    let num_bytes := length_byte .& 0x7f in
    if ber_ok && negb (tag .& CBS_ASN1_CONSTRUCTED =? 0) && (num_bytes =? 0) then
      (* indefinite length *)
      out ← CBS_get_bytes header_len;
      mret {| el_out := out; el_tag := tag; el_header_len := header_len;
              el_ber_found := true |}
    else
      ensure (negb ((num_bytes =? 0) || (4 <? num_bytes)));;
      '(len64, header) ← on_copy (cbs_get_u num_bytes) header;
      let long_when_short := len64 <? 128 in
      ensure (negb long_when_short || ber_ok);;
      let superfluous_zero := len64 ≫ ((num_bytes - 1) * 8) =? 0 in
      ensure (negb superfluous_zero || ber_ok);;
      ensure (negb (size_t (len64 + header_len + num_bytes) <? len64));;
      let len := size_t (len64 + (header_len + num_bytes)) in
      out ← CBS_get_bytes len;
      mret {| el_out := out; el_tag := tag; el_header_len := header_len + num_bytes;
              el_ber_found := ber_ok && (long_when_short || superfluous_zero) |}.

Definition CBS_get_any_asn1_element : M cbs asn1_element :=
  cbs_get_any_asn1_element false.

Definition CBS_get_any_ber_asn1_element : M cbs asn1_element :=
  cbs_get_any_asn1_element true.

(** The contents and the tag. *)
Definition CBS_get_any_asn1 : M cbs (cbs * Z) :=
  el ← CBS_get_any_asn1_element;
  '(_, out) ← on_copy (CBS_skip (el_header_len el)) (el_out el);
  mret (out, el_tag el).

Definition cbs_get_asn1 (tag_value : Z) (skip_header : bool) : M cbs cbs :=
  el ← CBS_get_any_asn1_element;
  ensure (el_tag el =? tag_value);;
  if skip_header then
    '(_, out) ← on_copy (CBS_skip (el_header_len el)) (el_out el);
    mret out
  else mret (el_out el).

Definition CBS_get_asn1 (tag_value : Z) : M cbs cbs := cbs_get_asn1 tag_value true.
Definition CBS_get_asn1_element (tag_value : Z) : M cbs cbs := cbs_get_asn1 tag_value false.

Definition CBS_peek_asn1_tag (c : cbs) (tag_value : Z) : bool :=
  if CBS_len c <? 1 then false
  else match parse_asn1_tag c with
       | (Some actual_tag, _) => tag_value =? actual_tag
       | (None, _) => false
       end.

(** [Some is_negative] for a valid INTEGER body, [None] otherwise. *)
Definition CBS_is_valid_asn1_integer (c : cbs) : option bool :=
  match CBS_get_u8 c with
  | (None, _) => None
  | (Some first_byte, copy) =>
      let is_negative := negb (first_byte .& 0x80 =? 0) in
      match CBS_get_u8 copy with
      | (None, _) => Some is_negative
      | (Some second_byte, _) =>
          if ((first_byte =? 0x00) && (second_byte .& 0x80 =? 0)) ||
             ((first_byte =? 0xff) && negb (second_byte .& 0x80 =? 0))
          then None else Some is_negative
      end
  end.

Definition CBS_is_unsigned_asn1_integer (c : cbs) : bool :=
  match CBS_is_valid_asn1_integer c with
  | Some is_negative => negb is_negative
  | None => false
  end.

(** The accumulation loop of [CBS_get_asn1_uint64]. *)
Fixpoint asn1_uint64_loop (out : Z) (data : bytes) : option Z :=
  match data with
  | [] => Some out
  | b :: data' =>
      if negb (out ≫ 56 =? 0) then None
      else asn1_uint64_loop (u64 (out ≪ 8) .| b) data'
  end.

Definition CBS_get_asn1_uint64 : M cbs Z :=
  bytes ← CBS_get_asn1 CBS_ASN1_INTEGER;
  ensure (CBS_is_unsigned_asn1_integer bytes);;
  liftO (asn1_uint64_loop 0 (CBS_data bytes)).

(** Two's complement reading of a 64-bit word. *)
Definition to_int64 (v : Z) : Z := if v <? 2 ^ 63 then v else v - 2 ^ 64.

Definition CBS_get_asn1_int64 : M cbs Z :=
  bytes ← CBS_get_asn1 CBS_ASN1_INTEGER;
  is_negative ← liftO (CBS_is_valid_asn1_integer bytes);
  let data := CBS_data bytes in
  let len := CBS_len bytes in
  ensure (negb (8 <? len));;
  let u := replicate 8 (if is_negative : bool then 0xff else 0) in
  let u := fold_left (λ u i, write_at u i [nthZ data (len - i - 1)]) (seqZ 0 len) u in
  mret (to_int64 (le_value u)).

Definition CBS_get_asn1_bool : M cbs bool :=
  bytes ← CBS_get_asn1 CBS_ASN1_BOOLEAN;
  ensure (CBS_len bytes =? 1);;
  let value := nthZ (CBS_data bytes) 0 in
  ensure (negb (negb (value =? 0) && negb (value =? 0xff)));;
  mret (negb (value =? 0)).

(** * Optional elements: [None] is [*out_present = 0] *)

Definition CBS_get_optional_asn1 (tag : Z) : M cbs (option cbs) :=
  cbs ← getS;
  if CBS_peek_asn1_tag cbs tag then
    out ← CBS_get_asn1 tag; mret (Some out)
  else mret None.

(** The contents and [*out_present]. *)
Definition CBS_get_optional_asn1_octet_string (tag : Z) : M cbs (cbs * bool) :=
  child ← CBS_get_optional_asn1 tag;
  match child with
  | Some child =>
      '(out, child) ← on_copy (CBS_get_asn1 CBS_ASN1_OCTETSTRING) child;
      ensure (CBS_len child =? 0);;
      mret (out, true)
  | None => mret ([], false)
  end.

Definition CBS_get_optional_asn1_uint64 (tag default_value : Z) : M cbs Z :=
  child ← CBS_get_optional_asn1 tag;
  match child with
  | Some child =>
      '(out, child) ← on_copy CBS_get_asn1_uint64 child;
      ensure (CBS_len child =? 0);;
      mret out
  | None => mret default_value
  end.

Definition CBS_get_optional_asn1_bool (tag default_value : Z) : M cbs Z :=
  child ← CBS_get_optional_asn1 tag;
  match child with
  | Some child =>
      '(child2, child) ← on_copy (CBS_get_asn1 CBS_ASN1_BOOLEAN) child;
      ensure (CBS_len child2 =? 1);;
      ensure (CBS_len child =? 0);;
      let boolean := nthZ (CBS_data child2) 0 in
      if boolean =? 0 then mret 0
      else if boolean =? 0xff then mret 1
      else ret0
  | None => mret default_value
  end.

(** * BIT STRING bodies *)

Definition CBS_is_valid_asn1_bitstring (c : cbs) : bool :=
  match CBS_get_u8 c with
  | (None, _) => false
  | (Some num_unused_bits, rest) =>
      if 7 <? num_unused_bits then false
      else if num_unused_bits =? 0 then true
      else
        match CBS_get_last_u8 rest with
        | (None, _) => false
        | (Some last, _) => last .& ((1 ≪ num_unused_bits) - 1) =? 0
        end
  end.

Definition CBS_asn1_bitstring_has_bit (c : cbs) (bit : Z) : bool :=
  if negb (CBS_is_valid_asn1_bitstring c) then false
  else
    let byte_num := u32 ((bit ≫ 3) + 1) in
    let bit_num := 7 - (bit .& 7) in
    (byte_num <? CBS_len c) &&
    negb (nthZ (CBS_data c) byte_num .& (1 ≪ bit_num) =? 0).

Example get_asn1_ex :
  CBS_get_asn1 CBS_ASN1_INTEGER [2; 1; 5; 9] = (Some [5], [9]).
Proof. vm_compute. reflexivity. Qed.
Example get_int64_ex :
  CBS_get_asn1_int64 [2; 2; 0xff; 0x7f; 9] = (Some (-129), [9]).
Proof. vm_compute. reflexivity. Qed.

(** * Facts *)

Lemma on_copy_iff {S A} (m : M cbs A) c (a : A) c' (s s' : S) :
  on_copy m c s = (Some (a, c'), s') ↔ m c = (Some a, c') ∧ s = s'.
Proof. unfold on_copy. destruct (m c) as [[a0|] c0]; naive_solver. Qed.

Lemma on_copy_some {S A} (m : M cbs A) c (a : A) c' (s : S) :
  m c = (Some a, c') → on_copy m c s = (Some (a, c'), s).
Proof. intros H. by apply on_copy_iff. Qed.

Lemma cbs_get_iff n s d rest :
  0 <= n → cbs_get n s = (Some d, rest) ↔ s = d ++ rest ∧ lenZ d = n.
Proof.
  intros Hn. unfold cbs_get. destruct (Z.ltb_spec (lenZ s) n) as [Hl|Hl]; split; try done.
  - intros [-> <-]. llia.
  - intros [= <- <-]. split; [by rewrite takeZ_dropZ|apply lenZ_takeZ; lia].
  - intros [-> <-]. by rewrite takeZ_app, dropZ_app.
Qed.

Lemma cbs_get_u_fold d :
  bytes_ok d → lenZ d <= 8 →
  fold_left (λ result b, u64 (result ≪ 8) .| b) d 0 = be_value d.
Proof.
  induction d as [|b d IH] using rev_ind; intros Hd Hl; [done|].
  apply bytes_ok_app in Hd as [Hd [Hb _]%bytes_ok_cons].
  rewrite fold_left_app, be_value_snoc, IH by (done || llia). cbn [fold_left].
  apply (shift_in _ b 64 8); [lia| |apply Hb].
  pose proof (be_value_bound d Hd) as Hbd. split; [lia|].
  eapply Z.lt_le_trans; [apply Hbd|]. change (2 ^ (64 - 8)) with (256 ^ 7).
  apply Z.pow_le_mono_r; llia.
Qed.

Lemma cbs_get_u_iff n s v rest :
  bytes_ok s → 0 <= n <= 8 →
  cbs_get_u n s = (Some v, rest) ↔
  ∃ d, s = d ++ rest ∧ lenZ d = n ∧ v = be_value d.
Proof.
  intros Hs Hn. unfold cbs_get_u. split.
  - intros H. minv. apply cbs_get_iff in H0 as [-> Hl]; [|lia].
    apply bytes_ok_app in Hs as [Ha _]. eexists; split_and!; [done|done|].
    apply cbs_get_u_fold; [done|lia].
  - intros (d & -> & Hl & ->). apply bytes_ok_app in Hs as [Hd _].
    rewrite (bind_some _ _ _ d rest) by (apply cbs_get_iff; [lia|done]).
    by rewrite cbs_get_u_fold by (done || lia).
Qed.

Lemma cbs_get_fail n s s' : cbs_get n s = (None, s') → s' = s.
Proof. unfold cbs_get. destruct (_ <? _); naive_solver. Qed.

Lemma CBS_get_u8_iff s b rest : CBS_get_u8 s = (Some b, rest) ↔ s = b :: rest.
Proof.
  unfold CBS_get_u8. split.
  - intros H. minv. apply cbs_get_iff in H0 as [-> Hl]; [|lia].
    destruct a as [|x [|y a]]; [done|done|llia].
  - intros ->. by rewrite (bind_some _ _ _ [b] rest) by (by apply cbs_get_iff).
Qed.

Lemma CBS_get_bytes_iff n s d rest :
  0 <= n → CBS_get_bytes n s = (Some d, rest) ↔ s = d ++ rest ∧ lenZ d = n.
Proof.
  intros Hn. unfold CBS_get_bytes, CBS_init. split.
  - intros H. minv. apply cbs_get_iff in H0 as [-> Hl]; [|lia].
    by rewrite takeZ_all by lia.
  - intros [-> Hl]. rewrite (bind_some _ _ _ d rest) by (by apply cbs_get_iff).
    unfold mret, M_ret. by rewrite takeZ_all by lia.
Qed.

Lemma CBS_skip_iff n s rest u :
  0 <= n → CBS_skip n s = (Some u, rest) ↔ ∃ d, s = d ++ rest ∧ lenZ d = n.
Proof.
  intros Hn. unfold CBS_skip. split.
  - intros H. minv. apply cbs_get_iff in H0 as [-> Hl]; eauto.
  - intros (d & -> & Hl). rewrite (bind_some _ _ _ d rest) by (by apply cbs_get_iff).
    by destruct u.
Qed.

Lemma memchr_some s c n :
  memchr s c = Some n ↔ ∃ p q, s = p ++ c :: q ∧ lenZ p = n ∧ c ∉ p.
Proof.
  revert n; induction s as [|b s IH]; intros n; cbn [memchr].
  { split; [done|]. intros (p & q & H & _). by destruct p. }
  destruct (Z.eqb_spec b c) as [->|Hne]; split.
  - intros [= <-]. exists [], s. split_and!; [done..|]. set_solver.
  - intros ([|x p] & q & [= ->] & <- & Hin); [done|]. set_solver.
  - intros (m & Hm & ->)%fmap_Some. apply IH in Hm as (p & q & -> & <- & Hin).
    exists (b :: p), q. split_and!; [done|llia|]. set_solver.
  - intros ([|x p] & q & [= ->] & <- & Hin); [congruence|].
    apply fmap_Some. exists (lenZ p). split; [|llia]. apply IH.
    exists p, q. split_and!; [done..|]. set_solver.
Qed.

(** The byte swaps reverse the bytes of their argument. *)
Lemma bswap2_be_bytes d : bytes_ok d → lenZ d = 2 → CRYPTO_bswap2 (be_value d) = le_value d.
Proof.
  intros Hd Hl. destruct d as [|x [|y [|? ?]]]; [done|done| |llia].
  apply bytes_ok_cons in Hd as [Hx [Hy _]%bytes_ok_cons].
  change (be_value [x; y]) with ((0 * 256 + x) * 256 + y). cbn [le_value].
  unfold CRYPTO_bswap2. rewrite Z.lor_comm, shiftr_div by lia.
  rewrite lor_shiftl_add by (lia || mlia). mlia.
Qed.

(** * Failing without moving the reader *)

(** A failure of [m] in the state [s] leaves it. *)
Definition stays {S A} (m : M S A) (s : S) : Prop := ∀ s', m s = (None, s') → s' = s.

Lemma stays_getS {S A} (k : S → M S A) s : stays (k s) s → stays (getS ≫= k) s.
Proof. intros H. exact H. Qed.
Lemma stays_on_copy {S A B} (m : M cbs A) c (k : A * cbs → M S B) s :
  (∀ a c', stays (k (a, c')) s) → stays (on_copy m c ≫= k) s.
Proof.
  intros Hk s'. unfold mbind, M_bind, on_copy. destruct (m c) as [[a|] c']; [apply Hk|by intros [= <-]].
Qed.
Lemma stays_ensure {S A} b (k : () → M S A) s : stays (k ()) s → stays (ensure b ≫= k) s.
Proof. intros Hk s'. unfold mbind, M_bind, ensure. destruct b; [apply Hk|by intros [= <-]]. Qed.
Lemma stays_get_bytes {A} n (f : cbs → A) s : stays (out ← CBS_get_bytes n; mret (f out)) s.
Proof.
  intros s'. unfold CBS_get_bytes, mbind, M_bind. destruct (cbs_get n s) as [[d|] s1] eqn:H; cbn; [done|].
  intros [= <-]. by eapply cbs_get_fail.
Qed.
Create HintDb stays.
#[export] Hint Resolve stays_getS stays_on_copy stays_ensure stays_get_bytes : stays.
