(* ===== verification/DerRead.v ===== *)
(** The reader of [Cbs] against the specification of [X690]: base-128 integers,
    tags, and the exact set of inputs that the DER element readers accept. *)
From S2P Require Import Prelude Mem X690 Cbs.

Lemma pow128_S n : 128 ^ Z.of_nat (S n) = 128 * 128 ^ Z.of_nat n.
Proof. rewrite Nat2Z.inj_succ, Z.pow_succ_r; lia. Qed.

Lemma pow128_pos n : 0 < 128 ^ Z.of_nat n.
Proof. apply Z.pow_pos_nonneg; lia. Qed.

Lemma base128_step v b :
  fits 57 v → fits 8 b → u64 (v ≪ 7) .| (b .& 0x7f) = v * 128 + b mod 128.
Proof.
  intros Hv Hb. rewrite byte_land_7f by done.
  apply (shift_in v (b mod 128) 64 7); [lia|done|]. change (2 ^ 7) with 128. lia.
Qed.

Lemma base128_guard v : fits 64 v → (v ≫ (64 - 7) =? 0) = bool_decide (fits 57 v).
Proof.
  intros Hv. rewrite shiftr_div by lia. change (2 ^ (64 - 7)) with 144115188075855872.
  unfold fits in *. change (2 ^ 57) with 144115188075855872. rewrite pow2_64 in Hv.
  case_bool_decide; [apply Z.eqb_eq|apply Z.eqb_neq]; lia.
Qed.

(** [v] continues the number [v0] by [n + 1] digits, the first of them not a
    leading zero. *)
Definition continues (v0 : Z) (n : nat) (v : Z) : Prop :=
  fits 64 v ∧ v / 128 ^ Z.of_nat (S n) = v0 ∧ (v0 = 0 → n = O ∨ 128 ^ Z.of_nat n <= v).

Lemma continues_S v0 n v :
  continues v0 (S n) v ↔
  v / 128 ^ Z.of_nat (S n) / 128 = v0 ∧ v / 128 ^ Z.of_nat (S n) ≠ 0 ∧
  continues (v / 128 ^ Z.of_nat (S n)) n v.
Proof.
  unfold continues. pose proof (pow128_pos (S n)) as Hp.
  rewrite (pow128_S (S n)), (Z.mul_comm 128), <-Z.div_div by lia.
  assert (0 <= v → v / 128 ^ Z.of_nat (S n) ≠ 0 ↔ 128 ^ Z.of_nat (S n) <= v) as Hnz.
  { intros Hv. rewrite Z.div_small_iff by lia. lia. }
  split.
  - intros (Hv & Hd & Hmin). specialize (Hnz (proj1 Hv)).
    assert (v / 128 ^ Z.of_nat (S n) ≠ 0).
    { intros Hz. rewrite Hz in Hd. apply Hnz; [|done].
      destruct Hmin as [|Hmin]; [by rewrite <-Hd|done|done]. }
    naive_solver.
  - intros (Hd & Hne & Hv & _ & _). specialize (Hnz (proj1 Hv)).
    split_and!; [done|done|]. intros _. right. tauto.
Qed.

Lemma continues_57 v0 n v : continues v0 n v → fits 57 v0.
Proof.
  intros ([H0 H1] & Hd & _). pose proof (pow128_pos n). rewrite pow128_S in Hd.
  subst v0. split; [apply Z.div_pos; lia|].
  rewrite <-Z.div_div by lia. change (2 ^ 64) with (128 * 2 ^ 57) in H1.
  apply Z.div_lt_upper_bound; [lia|]. apply Z.div_lt_upper_bound; [lia|]. nia.
Qed.

Lemma b128_last b s v rest n :
  b < 128 → b :: s = b128 n v ++ rest ↔ n = O ∧ b = v mod 128 ∧ s = rest.
Proof.
  intros Hb. destruct n as [|n]; cbn [b128 app]; split; try naive_solver.
  intros [= Hbn _]. mlia.
Qed.

Lemma b128_more b s v rest n :
  128 <= b → b :: s = b128 n v ++ rest ↔
  ∃ m, n = S m ∧ b = 128 + v / 128 ^ Z.of_nat n mod 128 ∧ s = b128 m v ++ rest.
Proof.
  intros Hb. destruct n as [|n]; cbn [b128 app]; split; try naive_solver.
  intros [= Hbn _]. mlia.
Qed.

(** One round of the loop. *)
Lemma base128_loop_cons v0 b s :
  fits 64 v0 → fits 8 b →
  parse_base128_loop v0 (b :: s) =
  if bool_decide (fits 57 v0 ∧ (v0 = 0 → b ≠ 128)) then
    if b <? 128 then (Some (v0 * 128 + b mod 128), s)
    else parse_base128_loop (v0 * 128 + b mod 128) s
  else (None, s).
Proof.
  intros Hv0 Hb. cbn [parse_base128_loop]. rewrite base128_guard, byte_land_80 by done.
  case_bool_decide as H57; cbn [negb]; [|by rewrite bool_decide_false by tauto].
  rewrite base128_step by done.
  destruct (Z.eqb_spec v0 0), (Z.eqb_spec b 0x80); cbn [andb];
    case_bool_decide; tauto || done.
Qed.

(** The loop accepts exactly the digits of the result, most significant first. *)
Lemma base128_loop_iff s v0 v rest :
  bytes_ok s → fits 64 v0 →
  parse_base128_loop v0 s = (Some v, rest) ↔
  ∃ n, s = b128 n v ++ rest ∧ continues v0 n v.
Proof.
  revert v0. induction s as [|b s IH]; intros v0 Hs Hv0.
  { split; [done|]. intros ([|n] & H & _); discriminate H. }
  apply bytes_ok_cons in Hs as [Hb Hs]. rewrite base128_loop_cons by done.
  change (fits 57 v0) with (0 <= v0 < 144115188075855872).
  destruct (Z.ltb_spec b 128) as [Hlt|Hge].
  - setoid_rewrite (b128_last b s v rest); [|done]. split.
    + case_bool_decide; [|done]. intros [= <- <-]. exists O. unfold continues.
      change (128 ^ Z.of_nat 1) with 128.
      split_and!; [done|mlia|done|mlia|mlia|by left].
    + intros (n & (-> & -> & ->) & Hc). pose proof (continues_57 _ _ _ Hc) as H57.
      change (fits 57 v0) with (0 <= v0 < 144115188075855872) in H57.
      rewrite bool_decide_true by mlia. destruct Hc as (_ & <- & _).
      change (128 ^ Z.of_nat 1) with 128. do 2 f_equal. lia.
  - setoid_rewrite (b128_more b s v rest); [|done]. split.
    + case_bool_decide; [|done]. rewrite IH by (done || mlia).
      intros (n & -> & Hc). exists (S n). rewrite continues_S.
      pose proof Hc as (_ & Hd & _). rewrite Hd. split_and!; [|mlia|mlia|done].
      exists n. split_and!; [done|mlia|done].
    + intros (n & (m & -> & Hbv & ->) & Hc). pose proof (continues_57 _ _ _ Hc) as H57.
      change (fits 57 v0) with (0 <= v0 < 144115188075855872) in H57.
      apply continues_S in Hc as (Hd & Hne & Hc).
      rewrite bool_decide_true by mlia. rewrite IH by (done || mlia).
      exists m. split; [done|]. replace (v0 * 128 + b mod 128) with (v / 128 ^ Z.of_nat (S m)) by lia.
      done.
Qed.

(** [parse_base128_integer] is the inverse of the shortest encoding. *)
Lemma parse_base128_iff s v rest :
  bytes_ok s →
  parse_base128_integer s = (Some v, rest) ↔ s = base128 v ++ rest ∧ fits 64 v.
Proof.
  intros Hs. unfold parse_base128_integer, base128.
  rewrite base128_loop_iff by (done || by apply fits_0). split.
  - intros (n & -> & Hv & Hd & Hmin). split; [|done]. do 2 f_equal.
    apply b128_len_unique; [|by apply Hmin].
    apply Z.div_small_iff in Hd; [|pose proof (pow128_pos (S n)); lia].
    rewrite Z.add_1_r, <-Nat2Z.inj_succ. unfold fits in Hv. pose proof (pow128_pos (S n)). lia.
  - intros [-> Hv]. exists (b128_len v). split; [done|].
    destruct (b128_len_spec v) as [H1 H2]; [apply Hv|].
    rewrite Z.add_1_r, <-Nat2Z.inj_succ in H1. unfold fits in Hv.
    split_and!; [done|apply Z.div_small; lia|done].
Qed.

(** * Tags *)

Lemma tag_class_bits b :
  fits 8 b → u32 ((b .& 0xe0) ≪ CBS_ASN1_TAG_SHIFT) = b / 32 * 2 ^ 29.
Proof.
  intros Hb. rewrite byte_land_e0 by done. unfold CBS_ASN1_TAG_SHIFT.
  rewrite Z.shiftl_mul_pow2 by lia. change (2 ^ 24) with 16777216. change (2 ^ 29) with 536870912.
  rewrite wrap_small; [lia|mlia].
Qed.

Lemma tag_number_mask : CBS_ASN1_TAG_NUMBER_MASK = 2 ^ 29 - 1.
Proof. reflexivity. Qed.

(** The class bits [c] and the number [v] packed into a tag, and unpacked. *)
Lemma tag_pack c v :
  0 <= v < 2 ^ 29 → (c * 2 ^ 29) .| v = c * 2 ^ 29 + v ∧
  (c * 2 ^ 29 + v) / 2 ^ 29 = c ∧ (c * 2 ^ 29 + v) mod 2 ^ 29 = v.
Proof.
  intros Hv. split; [apply lor_mul_add; lia|]. change (2 ^ 29) with 536870912 in *. lia.
Qed.

Lemma parse_asn1_tag_cons b s :
  fits 8 b →
  parse_asn1_tag (b :: s) =
  if b mod 32 =? 31 then
    match parse_base128_integer s with
    | (Some v, s') =>
        if (31 <=? v) && (v <? 2 ^ 29) then (Some (b / 32 * 2 ^ 29 + v), s') else (None, s')
    | (None, s') => (None, s')
    end
  else (Some (b / 32 * 2 ^ 29 + b mod 32), s).
Proof.
  intros Hb. unfold parse_asn1_tag.
  rewrite (bind_some _ _ _ _ _ (proj2 (CBS_get_u8_iff _ _ _) eq_refl)).
  rewrite tag_class_bits, byte_land_1f, tag_number_mask by done.
  destruct (Z.eqb_spec (b mod 32) 31).
  - unfold mbind, M_bind. destruct (parse_base128_integer s) as [[v|] s']; [|done].
    unfold ensure. change (2 ^ 29) with 536870912.
    destruct (Z.ltb_spec (536870912 - 1) v), (Z.ltb_spec v 31), (Z.leb_spec 31 v),
      (Z.ltb_spec v 536870912); cbn [orb negb andb]; try (lia || done).
    unfold mret, M_ret. do 2 f_equal. apply (tag_pack (b / 32)). change (2 ^ 29) with 536870912. lia.
  - unfold mret, M_ret. do 2 f_equal. apply (tag_pack (b / 32)). change (2 ^ 29) with 536870912. lia.
Qed.

(** [parse_asn1_tag] is the inverse of the identifier octets of X.690. *)
Lemma parse_asn1_tag_iff s tag rest :
  bytes_ok s →
  parse_asn1_tag s = (Some tag, rest) ↔ s = tag_bytes tag ++ rest ∧ fits 32 tag.
Proof.
  intros Hs. unfold tag_bytes. split.
  - destruct s as [|b s]; [done|]. apply bytes_ok_cons in Hs as [Hb Hs].
    rewrite parse_asn1_tag_cons by done. destruct (Z.eqb_spec (b mod 32) 31).
    + destruct (parse_base128_integer s) as [[v|] s'] eqn:Hv; [|done].
      apply parse_base128_iff in Hv as [-> Hv]; [|done].
      destruct (_ && _) eqn:Hr; [|done]. bools. intros [= <- <-].
      destruct (tag_pack (b / 32) v) as (_ & -> & ->); [lia|].
      destruct (Z.ltb_spec v 31); [lia|]. change (2 ^ 29) with 536870912 in *.
      split; [|mlia]. cbn [app]. f_equal. lia.
    + intros [= <- <-].
      destruct (tag_pack (b / 32) (b mod 32)) as (_ & -> & ->);
        [change (2 ^ 29) with 536870912; lia|].
      destruct (Z.ltb_spec (b mod 32) 31); [|lia]. change (2 ^ 29) with 536870912.
      split; [|mlia]. cbn [app]. f_equal. lia.
  - intros [-> Ht]. change (2 ^ 29) with 536870912 in *.
    destruct (Z.ltb_spec (tag mod 536870912) 31) as [Hlo|Hhi]; cbn [app] in *;
      apply bytes_ok_cons in Hs as [Hb Hs]; rewrite parse_asn1_tag_cons by done;
      change (2 ^ 29) with 536870912.
    + destruct (Z.eqb_spec ((tag / 536870912 * 32 + tag mod 536870912) mod 32) 31); [lia|].
      do 2 f_equal. lia.
    + destruct (Z.eqb_spec ((tag / 536870912 * 32 + 31) mod 32) 31); [|lia].
      rewrite (proj2 (parse_base128_iff _ (tag mod 536870912) rest Hs)) by (split; [done|mlia]).
      destruct (Z.leb_spec 31 (tag mod 536870912)), (Z.ltb_spec (tag mod 536870912) 536870912);
        cbn [andb]; try lia.
      do 2 f_equal. lia.
Qed.

(** * Elements *)

(** What the readers return on the element with this tag and contents. *)
Definition der_parsed (tag : Z) (contents : bytes) : asn1_element := {|
  el_out := der_element tag contents;
  el_tag := tag;
  el_header_len := lenZ (der_header tag (lenZ contents));
  el_ber_found := false;
|}.

Lemma el_len_total tag c :
  fits 32 tag → fits 32 (lenZ c) →
  size_t (lenZ c + lenZ (der_header tag (lenZ c))) = lenZ (der_element tag c).
Proof.
  intros Ht Hc. unfold der_element. rewrite lenZ_app, lenZ_der_header.
  pose proof (lenZ_tag_bytes tag Ht). pose proof (lenZ_len_bytes _ Hc).
  rewrite wrap_small; [lia|mlia].
Qed.

(** What is left to read once the header is known. *)
Lemma element_tail tag n h out rest :
  fits 32 tag → fits 32 n →
  (tag_bytes tag ++ len_bytes n) ++ h = out ++ rest →
  lenZ out = size_t (n + lenZ (der_header tag n)) →
  ∃ c, lenZ c = n ∧ h = c ++ rest ∧ out = der_element tag c.
Proof.
  intros Ht Hn Heq Hl. pose proof (lenZ_tag_bytes tag Ht). pose proof (lenZ_len_bytes n Hn).
  rewrite wrap_small in Hl by (rewrite lenZ_der_header; mlia).
  fold (der_header tag n) in Heq. apply app_eq_split in Heq as (c & -> & ->); [|mlia].
  rewrite lenZ_app in Hl. assert (lenZ c = n) as Hc by lia.
  exists c. unfold der_element. by rewrite Hc.
Qed.

Lemma len_bytes_long k d :
  1 <= k <= 4 → lenZ d = k → bytes_ok d → 128 <= be_value d → be_value d ≫ ((k - 1) * 8) ≠ 0 →
  fits 32 (be_value d) ∧ len_bytes (be_value d) = (128 + k) :: d.
Proof.
  intros Hk Hl Hd H128 Hz. pose proof (be_value_bound d Hd) as [_ Hlt].
  assert (fits 32 (be_value d)) as Hf.
  { split; [lia|]. eapply Z.lt_le_trans; [apply Hlt|]. change (2 ^ 32) with (256 ^ 4).
    apply Z.pow_le_mono_r; lia. }
  split; [done|]. unfold len_bytes. destruct (Z.ltb_spec (be_value d) 128); [lia|].
  assert (length d = len_len (be_value d)) as Hlen.
  { unfold lenZ in *. apply len_len_unique; [lia|done|].
    rewrite shiftr_div in Hz by lia. rewrite (Z.mul_comm _ 8), Z.pow_mul_r in Hz by lia.
    change (2 ^ 8) with 256 in Hz. rewrite Hl.
    pose proof (Z.pow_pos_nonneg 256 (k - 1)).
    destruct (Z.le_gt_cases (256 ^ (k - 1)) (be_value d)); [done|].
    rewrite Z.div_small in Hz; lia. }
  rewrite <-Hlen, be_bytes_be_value by done. do 2 f_equal. unfold lenZ in Hl. lia.
Qed.

Lemma element_read_sound s el rest :
  bytes_ok s → CBS_get_any_asn1_element s = (Some el, rest) →
  ∃ tag c, fits 32 tag ∧ fits 32 (lenZ c) ∧ s = der_element tag c ++ rest ∧ el = der_parsed tag c.
Proof.
  intros Hs H. unfold CBS_get_any_asn1_element, cbs_get_any_asn1_element in H. minv.
  apply on_copy_iff in H1 as [H1 ->], H0 as [H0 ->].
  apply parse_asn1_tag_iff in H1 as [-> Ht]; [|done]. apply CBS_get_u8_iff in H0 as ->.
  rename z into tag, z0 into lb, l0 into h.
  apply bytes_ok_app in Hs as [_ [Hb Hs]%bytes_ok_cons].
  assert (CBS_len (tag_bytes tag ++ lb :: h) - CBS_len h = lenZ (tag_bytes tag) + 1) as Hhl
    by (unfold CBS_len; llia).
  rewrite Hhl, byte_land_80, byte_land_7f in H by done. cbn [andb] in H.
  destruct (Z.ltb_spec lb 128) as [Hlt|Hge].
  - minv. assert (len_bytes lb = [lb]) as Hlb by (unfold len_bytes; by destruct (Z.ltb_spec lb 128); [|lia]).
    apply CBS_get_bytes_iff in H0 as [Heq Hl]; [|apply wrap_fits; lia].
    destruct (element_tail tag lb h a rest) as (c & <- & -> & ->); [done|mlia|..].
    { by rewrite Hlb, <-Heq, <-app_assoc. }
    { by rewrite Hl, lenZ_der_header, Hlb. }
    exists tag, c. unfold der_parsed, der_element. rewrite lenZ_der_header, Hlb, <-!app_assoc.
    split_and!; [done|mlia|by unfold der_header; rewrite Hlb, <-app_assoc|done].
  - minv. bools. apply on_copy_iff in H1 as [H1 <-]. rename z into len64.
    apply cbs_get_u_iff in H1 as (d & -> & Hd & ->); [|done|lia].
    apply bytes_ok_app in Hs as [Hdok _]. rewrite orb_false_r in *. bools.
    destruct (len_bytes_long (lb mod 128) d) as [Hf Hlb]; [lia|done..|].
    apply CBS_get_bytes_iff in H5 as [Heq Hl]; [|apply wrap_fits; lia].
    replace (128 + lb mod 128) with lb in Hlb by mlia.
    assert (lenZ (len_bytes (be_value d)) = 1 + lb mod 128) as Hll by (rewrite Hlb; llia).
    destruct (element_tail tag (be_value d) l a3 rest) as (c & Hc & -> & ->); [done..| | |].
    { by rewrite Hlb, <-Heq, <-!app_assoc. }
    { rewrite Hl, lenZ_der_header, Hll. f_equal. lia. }
    exists tag, c. unfold der_parsed, der_element. rewrite lenZ_der_header, Hc, Hll.
    split_and!; [done|done| |f_equal; lia].
    unfold der_header. rewrite Hlb. cbn [app]. by rewrite <-!app_assoc.
Qed.

(** The element [s] about to be read, and what follows its header. *)
Section read_element.
Context (tag : Z) (c rest : bytes).
Context (Ht : fits 32 tag) (Hc : fits 32 (lenZ c)) (Hok : bytes_ok (c ++ rest)).
Let s : bytes := der_element tag c ++ rest.

Lemma read_element_bytes : s = tag_bytes tag ++ len_bytes (lenZ c) ++ c ++ rest.
Proof. unfold s, der_element, der_header. by rewrite <-!app_assoc. Qed.

Lemma read_element_tag : parse_asn1_tag s = (Some tag, len_bytes (lenZ c) ++ c ++ rest).
Proof.
  rewrite read_element_bytes. apply parse_asn1_tag_iff; [|done].
  apply bytes_ok_app. split; [by apply tag_bytes_ok|].
  apply bytes_ok_app. split; [by apply len_bytes_ok|done].
Qed.

Lemma read_element_out n :
  n = lenZ c + lenZ (der_header tag (lenZ c)) →
  CBS_get_bytes (size_t n) s = (Some (der_element tag c), rest).
Proof.
  intros ->. rewrite el_len_total by done.
  apply CBS_get_bytes_iff; [apply lenZ_nonneg|done].
Qed.

Lemma read_element_short :
  lenZ c < 128 → CBS_get_any_asn1_element s = (Some (der_parsed tag c), rest).
Proof.
  intros Hlt. pose proof (lenZ_nonneg c).
  assert (len_bytes (lenZ c) = [lenZ c]) as Hlb
    by (unfold len_bytes; by destruct (Z.ltb_spec (lenZ c) 128); [|lia]).
  unfold CBS_get_any_asn1_element, cbs_get_any_asn1_element.
  rewrite (bind_some _ _ s s s) by done.
  mstep (on_copy_some (S := cbs) _ _ _ _ s read_element_tag). rewrite Hlb. cbn [app].
  assert (CBS_get_u8 (lenZ c :: c ++ rest) = (Some (lenZ c), c ++ rest)) as Hb
    by (by apply CBS_get_u8_iff).
  mstep (on_copy_some (S := cbs) _ _ _ _ s Hb).
  rewrite byte_land_80 by mlia. destruct (Z.ltb_spec (lenZ c) 128); [|lia].
  assert (CBS_len s - CBS_len (c ++ rest) = lenZ (tag_bytes tag) + 1) as ->
    by (rewrite read_element_bytes, Hlb; unfold CBS_len; llia).
  mstep (read_element_out (lenZ c + (lenZ (tag_bytes tag) + 1)) ltac:(by rewrite lenZ_der_header, Hlb)).
  unfold der_parsed. by rewrite lenZ_der_header, Hlb.
Qed.

Lemma read_element_len_bytes :
  128 <= lenZ c →
  let k := Z.of_nat (len_len (lenZ c)) in
  let d := be_bytes (len_len (lenZ c)) (lenZ c) in
  1 <= k <= 4 ∧ len_bytes (lenZ c) = (128 + k) :: d ∧ lenZ d = k ∧
  lenZ c ≫ ((k - 1) * 8) ≠ 0 ∧ cbs_get_u k (d ++ c ++ rest) = (Some (lenZ c), c ++ rest).
Proof.
  intros Hge k d. destruct (len_len_spec (lenZ c)) as (Hhi & Hlo & H1); [lia|].
  pose proof (len_len_4 (lenZ c) ltac:(mlia)).
  assert (lenZ d = k) as Hd by (apply lenZ_be_bytes). split_and!; [lia|lia| |done| |].
  - unfold len_bytes. by destruct (Z.ltb_spec (lenZ c) 128); [lia|].
  - rewrite shiftr_div by lia. rewrite (Z.mul_comm _ 8), Z.pow_mul_r by lia.
    change (2 ^ 8) with 256. assert (0 < lenZ c / 256 ^ (k - 1)); [|lia].
    apply Z.div_str_pos. split; [apply Z.pow_pos_nonneg; lia|done].
  - apply cbs_get_u_iff; [|lia|].
    { apply bytes_ok_app. by split; [apply be_bytes_ok|]. }
    exists d. split_and!; [done|done|]. unfold d. rewrite be_value_be_bytes, Z.mod_small by lia. done.
Qed.

Lemma read_element_long :
  128 <= lenZ c → CBS_get_any_asn1_element s = (Some (der_parsed tag c), rest).
Proof.
  intros Hge. destruct (read_element_len_bytes Hge) as (Hk & Hlb & Hd & Hz & Hu).
  set (k := Z.of_nat (len_len (lenZ c))) in *. set (d := be_bytes _ _) in *.
  unfold CBS_get_any_asn1_element, cbs_get_any_asn1_element.
  rewrite (bind_some _ _ s s s) by done.
  mstep (on_copy_some (S := cbs) _ _ _ _ s read_element_tag). rewrite Hlb. cbn [app].
  assert (CBS_get_u8 ((128 + k) :: d ++ c ++ rest) = (Some (128 + k), d ++ c ++ rest)) as Hb
    by (by apply CBS_get_u8_iff).
  mstep (on_copy_some (S := cbs) _ _ _ _ s Hb).
  rewrite byte_land_80, byte_land_7f by mlia. destruct (Z.ltb_spec (128 + k) 128); [lia|].
  cbn [andb]. replace ((128 + k) mod 128) with k by lia.
  replace (negb ((k =? 0) || (4 <? k))) with true by lia. mensure.
  assert (CBS_len s - CBS_len (d ++ c ++ rest) = lenZ (tag_bytes tag) + 1) as ->
    by (rewrite read_element_bytes, Hlb; unfold CBS_len; llia).
  mstep (on_copy_some (S := cbs) _ _ _ _ s Hu).
  destruct (Z.ltb_spec (lenZ c) 128); [lia|]. cbn [negb orb]. mensure.
  rewrite (proj2 (Z.eqb_neq _ _) Hz). cbn [negb orb]. mensure.
  pose proof (lenZ_tag_bytes tag Ht).
  assert ((size_t (lenZ c + (lenZ (tag_bytes tag) + 1) + k) <? lenZ c) = false) as ->
    by (rewrite wrap_small; [apply Z.ltb_ge; lia|mlia]).
  cbn [negb]. mensure.
  assert (lenZ (der_header tag (lenZ c)) = lenZ (tag_bytes tag) + 1 + k) as Hh
    by (rewrite lenZ_der_header, Hlb, lenZ_cons, Hd; lia).
  mstep (read_element_out (lenZ c + (lenZ (tag_bytes tag) + 1 + k)) ltac:(by rewrite Hh)).
  unfold der_parsed. by rewrite Hh.
Qed.
End read_element.

Lemma element_read_complete tag c rest :
  fits 32 tag → fits 32 (lenZ c) → bytes_ok (c ++ rest) →
  CBS_get_any_asn1_element (der_element tag c ++ rest) = (Some (der_parsed tag c), rest).
Proof.
  intros. destruct (Z.lt_ge_cases (lenZ c) 128);
    [by apply read_element_short|by apply read_element_long].
Qed.

(** * Properties *)

(** C27. The DER element reader is exact: it succeeds precisely on an encoding of
    a tag and contents in the shortest form, returns that element, its tag and
    the length of its header, and leaves what follows. *)
Theorem der_element_exact s el rest :
  bytes_ok s →
  CBS_get_any_asn1_element s = (Some el, rest) ↔
  ∃ tag c, fits 32 tag ∧ fits 32 (lenZ c) ∧ s = der_element tag c ++ rest ∧ el = der_parsed tag c.
Proof.
  intros Hok. split; [by apply element_read_sound|].
  intros (tag & c & Ht & Hc & -> & ->). apply element_read_complete; [done|done|].
  unfold der_element in Hok. rewrite <-app_assoc in Hok. by apply bytes_ok_app in Hok as [_ ?].
Qed.

Lemma der_element_exact_witness :
  ∃ tag c, fits 32 tag ∧ fits 32 (lenZ c) ∧ [0x30; 3; 2; 1; 5; 9] = der_element tag c ++ [9] ∧
    der_parsed (0x10 + 2 ^ 29) [2; 1; 5] = der_parsed tag c.
Proof.
  apply (proj1 (der_element_exact [0x30; 3; 2; 1; 5; 9] (der_parsed (0x10 + 2 ^ 29) [2; 1; 5]) [9]
    ltac:(decide_now))). vm_compute. reflexivity.
Defined.

(** A failed read of an element, DER or BER, does not move the reader. *)
Theorem element_error_unmoved ber_ok s s' : cbs_get_any_asn1_element ber_ok s = (None, s') → s' = s.
Proof.
  revert s'. change (stays (cbs_get_any_asn1_element ber_ok) s). unfold cbs_get_any_asn1_element.
  apply stays_getS, stays_on_copy. intros tag h1. apply stays_on_copy. intros b h2.
  destruct (_ =? 0); [apply stays_get_bytes|]. destruct (_ && _); [apply stays_get_bytes|].
  apply stays_ensure, stays_on_copy. intros v h3. do 3 apply stays_ensure. apply stays_get_bytes.
Qed.

Lemma element_error_unmoved_witness : [4; 2; 7] = [4; 2; 7].
Proof. apply (element_error_unmoved false [4; 2; 7] [4; 2; 7]). vm_compute. reflexivity. Defined.
