(* ===== verification/IntRead.v ===== *)
(** The typed DER readers of cbs.c: exactly which inputs [CBS_get_asn1] and the
    INTEGER and BOOLEAN readers accept, and the values they return. *)
From S2P Require Import Prelude X690 Cbs DerRead.

(** * Elements of a known tag *)

Lemma CBS_get_asn1_iff tag s c rest :
  bytes_ok s → CBS_get_asn1 tag s = (Some c, rest) ↔
  s = der_element tag c ++ rest ∧ fits 32 tag ∧ fits 32 (lenZ c).
Proof.
  intros Hs. unfold CBS_get_asn1, cbs_get_asn1. split.
  - intros H. minv. bools. apply on_copy_iff in H2 as [H2 ->].
    apply element_read_sound in H0 as (tag' & c' & Ht & Hc & -> & ->); [|done].
    cbn in *. subst. apply CBS_skip_iff in H2 as (d & Heq & Hd); [|apply lenZ_nonneg].
    unfold der_element in Heq. apply app_eq_lenZ in Heq as [<- ->]; [done|by rewrite Hd].
  - intros (-> & Ht & Hc). apply bytes_ok_app in Hs as [Hd Hr].
    apply bytes_ok_app in Hd as [_ Hd].
    assert (CBS_get_any_asn1_element (der_element tag c ++ rest) = (Some (der_parsed tag c), rest)) as He
      by (apply element_read_complete; [done|done|by apply bytes_ok_app]).
    mstep He. cbn [el_tag der_parsed]. rewrite Z.eqb_refl. mensure.
    assert (CBS_skip (el_header_len (der_parsed tag c)) (el_out (der_parsed tag c)) = (Some (), c)) as Hk.
    { apply CBS_skip_iff; [apply lenZ_nonneg|]. by exists (der_header tag (lenZ c)). }
    mstep (on_copy_some (S := cbs) _ _ _ _ rest Hk). done.
Qed.

Lemma der_element_contents_ok tag c : bytes_ok (der_element tag c) → bytes_ok c.
Proof. intros H. by apply bytes_ok_app in H as [_ H]. Qed.

Lemma fits_32_small n : 0 <= n <= 9 → fits 32 n.
Proof. mlia. Qed.

(** Reading a short element and decoding its contents. *)
Lemma get_asn1_then {A} tag (m : M cbs A) (k : bytes → M cbs A) s a rest :
  m = (CBS_get_asn1 tag ≫= k) → bytes_ok s →
  m s = (Some a, rest) ↔
  ∃ c rest0, s = der_element tag c ++ rest0 ∧ fits 32 tag ∧ fits 32 (lenZ c) ∧ bytes_ok c ∧
       k c rest0 = (Some a, rest).
Proof.
  intros -> Hs. split.
  - intros H. apply bind_inv in H as (c & s' & H1 & H2). pose proof H1 as H3.
    apply CBS_get_asn1_iff in H3 as (-> & Ht & Hc); [|done].
    apply bytes_ok_app in Hs as [Hs%der_element_contents_ok Hr].
    exists c, s'. by split_and!.
  - intros (c & rest0 & -> & Ht & Hc & Hok & Hk).
    rewrite (bind_some _ _ _ c rest0); [done|]. by apply CBS_get_asn1_iff.
Qed.

(** * INTEGER *)

Lemma int_minimal_first c b0 d : c = b0 :: d → fits 8 b0 → bytes_ok d →
  (signed_value c <? 0) = negb (b0 <? 128).
Proof.
  intros -> Hb Hd. unfold signed_value. change (nthZ (b0 :: d) 0) with b0.
  pose proof (be_value_bound d Hd) as Hv. rewrite be_value_cons, lenZ_cons, Z.pow_add_r by llia.
  change (256 ^ 1) with 256. unfold fits in Hb. change (2 ^ 8) with 256 in Hb.
  destruct (Z.ltb_spec b0 128); cbn [negb].
  - apply Z.ltb_ge. nia.
  - apply Z.ltb_lt. nia.
Qed.

Lemma is_valid_asn1_integer_iff c neg :
  bytes_ok c → CBS_is_valid_asn1_integer c = Some neg ↔
  int_minimal c ∧ neg = (signed_value c <? 0).
Proof.
  intros Hc. unfold CBS_is_valid_asn1_integer.
  destruct c as [|b0 d]; [by split; [|intros [[] _]]|].
  pose proof Hc as [Hb0 Hd]%bytes_ok_cons.
  rewrite (proj2 (CBS_get_u8_iff (b0 :: d) b0 d) eq_refl).
  rewrite (int_minimal_first (b0 :: d) b0 d), byte_land_80 by done.
  destruct d as [|b1 d].
  { change (CBS_get_u8 []) with (@None Z, @nil Z). cbn [int_minimal]. naive_solver. }
  rewrite (proj2 (CBS_get_u8_iff (b1 :: d) b1 d) eq_refl).
  apply bytes_ok_cons in Hd as [Hb1 Hd]. rewrite byte_land_80 by done. cbn [int_minimal].
  destruct (Z.eqb_spec b0 0), (Z.eqb_spec b0 255), (Z.ltb_spec b1 128), (Z.ltb_spec b0 128);
    cbn [orb andb negb]; split; intros H1; try done;
    first [ by destruct H1; lia | injection H1 as <-; split; [lia|done] | by destruct H1 as [_ ->] ].
Qed.

Lemma is_unsigned_asn1_integer_iff c :
  bytes_ok c → CBS_is_unsigned_asn1_integer c = true ↔ int_minimal c ∧ 0 <= signed_value c.
Proof.
  intros Hc. unfold CBS_is_unsigned_asn1_integer.
  destruct (CBS_is_valid_asn1_integer c) as [neg|] eqn:Hv.
  - apply is_valid_asn1_integer_iff in Hv as [Hm ->]; [|done].
    rewrite negb_true_iff, Z.ltb_ge. naive_solver.
  - split; [done|]. intros [Hm Hs].
    assert (CBS_is_valid_asn1_integer c = Some (signed_value c <? 0)) by (by apply is_valid_asn1_integer_iff).
    congruence.
Qed.

Lemma asn1_uint64_loop_iff d v w :
  bytes_ok d → fits 64 v →
  asn1_uint64_loop v d = Some w ↔ w = v * 256 ^ lenZ d + be_value d ∧ fits 64 w.
Proof.
  revert v. induction d as [|b d IH]; intros v Hd Hv; cbn [asn1_uint64_loop].
  { change (lenZ (@nil Z)) with 0. rewrite Z.pow_0_r. change (be_value []) with 0.
    split; [intros [= <-]; split; [lia|done]|intros [-> _]; f_equal; lia]. }
  apply bytes_ok_cons in Hd as [Hb Hd]. pose proof (be_value_bound d Hd) as Hbd.
  rewrite shiftr_div by lia. change (2 ^ 56) with 72057594037927936.
  rewrite be_value_cons, lenZ_cons, Z.pow_add_r by llia. change (256 ^ 1) with 256.
  assert (0 < 256 ^ lenZ d) by (apply Z.pow_pos_nonneg; llia).
  destruct (Z.eqb_spec (v / 72057594037927936) 0) as [H0|H0]; cbn [negb].
  - rewrite (shift_in v b 64 8) by (lia || (split; [mlia|change (2 ^ (64 - 8)) with 72057594037927936; mlia]) || apply Hb).
    rewrite IH by (done || mlia). change (2 ^ 8) with 256. split; intros [-> Hf]; (split; [lia|]);
      [by replace (v * (256 * 256 ^ lenZ d) + (b * 256 ^ lenZ d + be_value d))
       with ((v * 256 + b) * 256 ^ lenZ d + be_value d) by lia
      |by replace ((v * 256 + b) * 256 ^ lenZ d + be_value d)
       with (v * (256 * 256 ^ lenZ d) + (b * 256 ^ lenZ d + be_value d)) by lia].
  - split; [done|]. intros [-> [_ Hf]]. exfalso. rewrite pow2_64 in Hf.
    assert (72057594037927936 <= v) by mlia. unfold fits in Hb. change (2 ^ 8) with 256 in Hb. nia.
Qed.

Lemma signed_value_nonneg c : int_minimal c → bytes_ok c → 0 <= signed_value c → signed_value c = be_value c.
Proof.
  intros Hm Hc Hs. pose proof (be_value_bound c Hc). unfold signed_value in *.
  destruct (_ <? 128); lia.
Qed.

Lemma int_len_64 v : - 2 ^ 63 <= v < 2 ^ 64 → Z.of_nat (int_len v) <= 9.
Proof.
  intros Hv. destruct (int_len_spec v) as (_ & _ & [H|H]); [lia|].
  destruct (Z.le_gt_cases (Z.of_nat (int_len v)) 9); [done|exfalso].
  pose proof (Z.pow_le_mono_r 256 8 (Z.of_nat (int_len v) - 2)).
  change (256 ^ 8) with 18446744073709551616 in *. change (2 ^ 63) with 9223372036854775808 in *.
  unfold int_mag in H. destruct (Z.ltb_spec v 0); mlia.
Qed.

Lemma fits_32_int_body v : - 2 ^ 63 <= v < 2 ^ 64 → fits 32 (lenZ (int_body v)).
Proof. intros Hv. rewrite lenZ_int_body. pose proof (int_len_64 v Hv). mlia. Qed.

Lemma get_asn1_uint64_iff s v rest :
  bytes_ok s → CBS_get_asn1_uint64 s = (Some v, rest) ↔
  s = der_element CBS_ASN1_INTEGER (int_body v) ++ rest ∧ fits 64 v.
Proof.
  intros Hs. rewrite (get_asn1_then CBS_ASN1_INTEGER CBS_get_asn1_uint64 _ _ _ _ eq_refl Hs). split.
  - intros (c & rest0 & -> & _ & Hc & Hok & H). minv. bools.
    apply is_unsigned_asn1_integer_iff in H0 as [Hm Hn]; [|done].
    unfold CBS_data in *. apply asn1_uint64_loop_iff in H as [-> Hf]; [|done|by apply fits_0].
    rewrite Z.mul_0_l, Z.add_0_l in *. rewrite <-signed_value_nonneg in * by done.
    by rewrite int_body_signed_value.
  - intros [-> Hf]. exists (int_body v), rest. split_and!; [done|done| |apply int_body_ok|].
    { apply fits_32_int_body. change (2 ^ 63) with 9223372036854775808. mlia. }
    rewrite (proj2 (is_unsigned_asn1_integer_iff _ (int_body_ok v))).
    2:{ rewrite signed_value_int_body. split; [apply int_body_minimal|apply Hf]. }
    mensure. unfold liftO, CBS_data. f_equal. apply asn1_uint64_loop_iff; [apply int_body_ok|by apply fits_0|].
    split; [|done]. rewrite Z.mul_0_l, Z.add_0_l.
    rewrite <-signed_value_nonneg; rewrite ?signed_value_int_body; try done.
    + apply int_body_minimal.
    + apply int_body_ok.
    + apply Hf.
Qed.

(** The little-endian scratch array of [CBS_get_asn1_int64]. *)
Lemma int64_scratch c neg :
  bytes_ok c → 1 <= lenZ c <= 8 → neg = (signed_value c <? 0) →
  to_int64 (le_value (fold_left (λ u i, write_at u i [nthZ c (lenZ c - i - 1)]) (seqZ 0 (lenZ c))
              (replicate 8 (if neg : bool then 0xff else 0)))) = signed_value c.
Proof.
  intros Hok Hl ->. change (lenZ c) with (Z.of_nat (length c)) in Hl |- *.
  rewrite (fold_write_at (λ i, nthZ c (Z.of_nat (length c) - i - 1))) by (rewrite lenZ_replicate; lia).
  change (Z.of_nat (length c)) with (lenZ c) in *. rewrite map_nthZ_reverse, le_value_app, le_value_reverse.
  replace (lenZ (reverse c)) with (lenZ c) by (unfold lenZ; by rewrite length_reverse).
  unfold dropZ. rewrite drop_replicate. set (k := (8 - Z.to_nat (lenZ c))%nat).
  destruct c as [|b0 d] eqn:Hc; [done|]. pose proof Hok as [Hb0 Hd]%bytes_ok_cons.
  pose proof (int_minimal_first _ b0 d eq_refl Hb0 Hd) as Hneg. rewrite Hneg.
  pose proof (le_value_replicate k (if negb (b0 <? 128) then 255 else 0)) as Hk.
  assert (256 ^ lenZ (b0 :: d) * 256 ^ Z.of_nat k = 2 ^ 64) as Hp.
  { rewrite <-Z.pow_add_r by llia. replace (lenZ (b0 :: d) + Z.of_nat k) with 8 by lia. done. }
  set (B := 256 ^ lenZ (b0 :: d)) in *. set (K := 256 ^ Z.of_nat k) in *.
  assert (0 < B) by (apply Z.pow_pos_nonneg; llia). assert (0 < K) by (apply Z.pow_pos_nonneg; lia).
  assert (0 <= be_value (b0 :: d) < B) as Hbv by (by apply be_value_bound).
  assert (B = 256 * 256 ^ lenZ d) as HB.
  { unfold B. rewrite lenZ_cons, Z.pow_add_r by llia. done. }
  assert (0 <= be_value d < 256 ^ lenZ d) as Hbd by (by apply be_value_bound).
  assert (be_value (b0 :: d) = b0 * 256 ^ lenZ d + be_value d) as Hbe by apply be_value_cons.
  unfold to_int64, signed_value in *. change (nthZ (b0 :: d) 0) with b0 in *. rewrite pow2_64 in *.
  fold B in Hneg. fold B. change (2 ^ 63) with 9223372036854775808.
  set (L := le_value _) in *. set (V := be_value (b0 :: d)) in *. set (D := 256 ^ lenZ d) in *.
  destruct (Z.ltb_spec b0 128); cbn [negb] in Hk.
  - assert (L = 0) as -> by lia. rewrite Z.mul_0_r, Z.add_0_r.
    assert (2 * V < B) by nia. destruct (Z.ltb_spec V 9223372036854775808); nia.
  - assert (L = K - 1) as -> by lia. rewrite Z.mul_sub_distr_l, Hp, Z.mul_1_r.
    assert (B <= 2 * V) by nia.
    assert (B <= 18446744073709551616) by nia.
    destruct (Z.ltb_spec (V + (18446744073709551616 - B)) 9223372036854775808); lia.
Qed.

Lemma signed_value_range c :
  bytes_ok c → 1 <= lenZ c <= 8 → - 2 ^ 63 <= signed_value c < 2 ^ 63.
Proof.
  intros Hc Hl. destruct c as [|b0 d]; [done|]. apply bytes_ok_cons in Hc as [Hb Hd].
  pose proof (be_value_bound d Hd) as Hv. rewrite lenZ_cons in Hl.
  assert (256 ^ lenZ d <= 256 ^ 7) as Hp by (apply Z.pow_le_mono_r; lia).
  unfold signed_value. rewrite be_value_cons, lenZ_cons, Z.pow_add_r by lia.
  change (nthZ (b0 :: d) 0) with b0. change (256 ^ 1) with 256.
  change (256 ^ 7) with 72057594037927936 in Hp. change (2 ^ 63) with 9223372036854775808.
  unfold fits in Hb. change (2 ^ 8) with 256 in Hb.
  destruct (Z.ltb_spec b0 128); nia.
Qed.

Lemma int_len_63 v : - 2 ^ 63 <= v < 2 ^ 63 → Z.of_nat (int_len v) <= 8.
Proof.
  intros Hv. destruct (int_len_spec v) as (_ & _ & [H|H]); [lia|].
  destruct (Z.le_gt_cases (Z.of_nat (int_len v)) 8); [done|exfalso].
  pose proof (Z.pow_le_mono_r 256 7 (Z.of_nat (int_len v) - 2)).
  change (256 ^ 7) with 72057594037927936 in *. change (2 ^ 63) with 9223372036854775808 in *.
  unfold int_mag in H. destruct (Z.ltb_spec v 0); mlia.
Qed.

Lemma get_asn1_int64_iff s v rest :
  bytes_ok s → CBS_get_asn1_int64 s = (Some v, rest) ↔
  s = der_element CBS_ASN1_INTEGER (int_body v) ++ rest ∧ - 2 ^ 63 <= v < 2 ^ 63.
Proof.
  intros Hs. rewrite (get_asn1_then CBS_ASN1_INTEGER CBS_get_asn1_int64 _ _ _ _ eq_refl Hs).
  unfold CBS_len, CBS_data. split.
  - intros (c & rest0 & -> & _ & Hc & Hok & H). minv. bools.
    apply is_valid_asn1_integer_iff in H0 as [Hm ->]; [|done].
    assert (1 <= lenZ c) by (destruct c; [done|llia]).
    rewrite int64_scratch by (done || lia). split; [by rewrite int_body_signed_value|].
    by apply signed_value_range.
  - intros [-> Hf]. exists (int_body v), rest. split_and!; [done|done| |apply int_body_ok|].
    { apply fits_32_int_body. change (2 ^ 63) with 9223372036854775808 in *. mlia. }
    assert (CBS_is_valid_asn1_integer (int_body v) = Some (v <? 0)) as ->.
    { apply is_valid_asn1_integer_iff; [apply int_body_ok|]. rewrite signed_value_int_body.
      split; [apply int_body_minimal|done]. }
    pose proof (int_len_63 v Hf) as Hl. pose proof (int_len_spec v) as [Hl1 _].
    rewrite <-lenZ_int_body in Hl, Hl1. rewrite (bind_some _ _ rest (v <? 0) rest) by done.
    destruct (Z.ltb_spec 8 (lenZ (int_body v))); [lia|]. cbn [negb]. mensure.
    rewrite int64_scratch; [by rewrite signed_value_int_body|apply int_body_ok|lia|].
    by rewrite signed_value_int_body.
Qed.

(** * BOOLEAN *)

Definition bool_byte (b : bool) : Z := if b then 0xff else 0.

Lemma get_asn1_bool_iff s b rest :
  bytes_ok s → CBS_get_asn1_bool s = (Some b, rest) ↔
  s = der_element CBS_ASN1_BOOLEAN [bool_byte b] ++ rest.
Proof.
  intros Hs. rewrite (get_asn1_then CBS_ASN1_BOOLEAN CBS_get_asn1_bool _ _ _ _ eq_refl Hs).
  unfold CBS_len, CBS_data. split.
  - intros (c & rest0 & -> & _ & Hc & Hok & H). minv. bools.
    destruct c as [|x [|]]; [done| |llia]. change (nthZ [x] 0) with x in *.
    destruct (Z.eqb_spec x 0) as [->|]; [done|]. cbn in H0 |- *.
    by destruct (Z.eqb_spec x 255) as [->|].
  - intros ->. exists [bool_byte b], rest. split_and!; try done.
    + apply bytes_ok_cons. split; [by destruct b|apply bytes_ok_nil].
    + by destruct b.
Qed.

(** * Properties *)

(** The contents of an INTEGER are valid exactly when they are the shortest
    two's-complement form of a number, and the sign reported is that number's. *)
Theorem asn1_integer_valid_exact c neg :
  bytes_ok c →
  CBS_is_valid_asn1_integer c = Some neg ↔ ∃ v, c = int_body v ∧ neg = (v <? 0).
Proof.
  intros Hok. rewrite is_valid_asn1_integer_iff by done. split.
  - intros [Hm ->]. exists (signed_value c). by rewrite int_body_signed_value.
  - intros (v & -> & ->). rewrite signed_value_int_body. split; [apply int_body_minimal|done].
Qed.

Lemma asn1_integer_valid_exact_witness :
  ∃ v, [0xff; 0x7f] = int_body v ∧ true = (v <? 0).
Proof.
  apply (proj1 (asn1_integer_valid_exact [0xff; 0x7f] true ltac:(decide_now))). vm_compute. reflexivity.
Defined.

(** [CBS_get_asn1_int64] reads [v] exactly when the input starts with the DER
    encoding of [v] and [v] is a 64-bit signed integer: no other encoding of [v]
    is accepted and nothing overflows. *)
Theorem asn1_int64_exact s v rest :
  bytes_ok s →
  CBS_get_asn1_int64 s = (Some v, rest) ↔
  s = der_element CBS_ASN1_INTEGER (int_body v) ++ rest ∧ - 2 ^ 63 <= v < 2 ^ 63.
Proof. apply get_asn1_int64_iff. Qed.

Lemma asn1_int64_exact_witness :
  [2; 2; 0xff; 0x7f; 9] = der_element CBS_ASN1_INTEGER (int_body (-129)) ++ [9] ∧ - 2 ^ 63 <= -129 < 2 ^ 63.
Proof.
  apply (proj1 (asn1_int64_exact [2; 2; 0xff; 0x7f; 9] (-129) [9] ltac:(decide_now))). vm_compute. reflexivity.
Defined.

(** [CBS_get_asn1_uint64] reads [v] exactly when the input starts with the DER
    encoding of [v] and [v] fits 64 bits unsigned. *)
Theorem asn1_uint64_exact s v rest :
  bytes_ok s →
  CBS_get_asn1_uint64 s = (Some v, rest) ↔
  s = der_element CBS_ASN1_INTEGER (int_body v) ++ rest ∧ fits 64 v.
Proof. apply get_asn1_uint64_iff. Qed.

Lemma asn1_uint64_exact_witness :
  [2; 2; 0; 0x80; 9] = der_element CBS_ASN1_INTEGER (int_body 128) ++ [9] ∧ fits 64 128.
Proof.
  apply (proj1 (asn1_uint64_exact [2; 2; 0; 0x80; 9] 128 [9] ltac:(decide_now))). vm_compute. reflexivity.
Defined.
