(* ===== verification/BerRead.v ===== *)
(** The BER reader of cbs.c: exactly which elements
    [CBS_get_any_ber_asn1_element] accepts beyond the DER ones. *)
From S2P Require Import Prelude X690 Cbs DerRead.

(** A definite length: one octet below 128, or one to four octets in any, not
    only the shortest, number. *)
Definition ber_length (n : Z) (l : bytes) : Prop :=
  (0 <= n < 128 ∧ l = [n]) ∨
  (∃ d, 1 <= lenZ d <= 4 ∧ bytes_ok d ∧ l = (128 + lenZ d) :: d ∧ n = be_value d).

Definition constructed (tag : Z) : bool := negb (tag .& CBS_ASN1_CONSTRUCTED =? 0).

Definition ber_definite (tag : Z) (l c : bytes) : asn1_element := {|
  el_out := (tag_bytes tag ++ l) ++ c;
  el_tag := tag;
  el_header_len := lenZ (tag_bytes tag ++ l);
  el_ber_found := negb (bool_decide (l = len_bytes (lenZ c)));
|}.

(** Only the header of an indefinite-length element is returned. *)
Definition ber_indefinite (tag : Z) : asn1_element := {|
  el_out := tag_bytes tag ++ [0x80];
  el_tag := tag;
  el_header_len := lenZ (tag_bytes tag ++ [0x80]);
  el_ber_found := true;
|}.

Inductive ber_parsed : asn1_element → Prop :=
  | parsed_definite tag l c :
      fits 32 tag → ber_length (lenZ c) l → ber_parsed (ber_definite tag l c)
  | parsed_indefinite tag :
      fits 32 tag → constructed tag = true → ber_parsed (ber_indefinite tag).

Lemma ber_length_fits n l : ber_length n l → fits 32 n ∧ 1 <= lenZ l <= 5 ∧ bytes_ok l.
Proof.
  intros [[Hn ->]|(d & Hd & Hok & -> & ->)].
  - split; [mlia|split; [llia|]]. apply bytes_ok_cons. split; [mlia|apply bytes_ok_nil].
  - pose proof (be_value_bound d Hok) as Hb.
    assert (256 ^ lenZ d <= 256 ^ 4) by (apply Z.pow_le_mono_r; lia).
    change (256 ^ 4) with 4294967296 in *. rewrite lenZ_cons.
    split; [mlia|split; [lia|]]. apply bytes_ok_cons. split; [mlia|done].
Qed.

(** The two tests that set [*out_ber_found]. *)
Lemma ber_found_long d :
  1 <= lenZ d <= 4 → bytes_ok d →
  (be_value d <? 128) || (be_value d ≫ ((lenZ d - 1) * 8) =? 0)
  = negb (bool_decide ((128 + lenZ d) :: d = len_bytes (be_value d))).
Proof.
  intros Hl Hok. destruct (Z.ltb_spec (be_value d) 128) as [Hs|Hs]; cbn [orb].
  - rewrite bool_decide_false; [done|]. unfold len_bytes.
    destruct (Z.ltb_spec (be_value d) 128); [|lia]. intros [= _ Hd]. subst d. llia.
  - destruct (Z.eqb_spec (be_value d ≫ ((lenZ d - 1) * 8)) 0) as [Hz|Hz].
    + rewrite bool_decide_false; [done|]. unfold len_bytes.
      destruct (Z.ltb_spec (be_value d) 128); [lia|]. intros [= Hk _].
      destruct (len_len_spec (be_value d)) as (_ & Hlo & _); [lia|].
      rewrite shiftr_div in Hz by lia. rewrite (Z.mul_comm _ 8), Z.pow_mul_r in Hz by lia.
      change (2 ^ 8) with 256 in Hz. 
      assert (Z.of_nat (len_len (be_value d)) = lenZ d) as Hk' by lia. rewrite Hk' in Hlo.
      assert (0 < be_value d / 256 ^ (lenZ d - 1)); [|lia].
      apply Z.div_str_pos. split; [apply Z.pow_pos_nonneg; lia|done].
    + rewrite bool_decide_true; [done|]. symmetry. by apply len_bytes_long.
Qed.

Lemma total_fits n h : fits 32 n → 0 <= h <= 12 → size_t (n + h) = n + h.
Proof. intros. apply wrap_small. mlia. Qed.

Lemma ber_read_sound s el rest :
  bytes_ok s → CBS_get_any_ber_asn1_element s = (Some el, rest) → ber_parsed el ∧ s = el_out el ++ rest.
Proof.
  intros Hs H. unfold CBS_get_any_ber_asn1_element, cbs_get_any_asn1_element in H. minv.
  apply on_copy_iff in H1 as [H1 ->], H0 as [H0 ->].
  apply parse_asn1_tag_iff in H1 as [-> Ht]; [|done]. apply CBS_get_u8_iff in H0 as ->.
  rename z into tag, z0 into lb, l0 into h.
  apply bytes_ok_app in Hs as [_ [Hb Hs]%bytes_ok_cons].
  assert (CBS_len (tag_bytes tag ++ lb :: h) - CBS_len h = lenZ (tag_bytes tag) + 1) as Hhl
    by (unfold CBS_len; llia).
  pose proof (lenZ_tag_bytes tag Ht) as Hlt.
  rewrite Hhl, byte_land_80, byte_land_7f in H by done. cbn [andb] in H.
  destruct (Z.ltb_spec lb 128) as [Hlb|Hge].
  - minv. assert (fits 32 lb) as Hf by mlia. rewrite total_fits in H0 by (done || lia).
    apply CBS_get_bytes_iff in H0 as [Heq Hl]; [|mlia].
    change (tag_bytes tag ++ lb :: h) with (tag_bytes tag ++ [lb] ++ h) in Heq |- *.
    rewrite app_assoc in Heq |- *. apply app_eq_split in Heq as (c & -> & ->); [|llia].
    assert (lenZ c = lb) as Hc by llia.
    assert (len_bytes lb = [lb]) as Hlen by (unfold len_bytes; by destruct (Z.ltb_spec lb 128); [|lia]).
    replace {| el_out := _ |} with (ber_definite tag [lb] c).
    + split; [|cbn [el_out ber_definite]; by rewrite <-!app_assoc].
      constructor; [done|]. rewrite Hc. left. split; [mlia|done].
    + unfold ber_definite. rewrite Hc, Hlen, bool_decide_true by done. f_equal. llia.
  - destruct (negb (tag .& CBS_ASN1_CONSTRUCTED =? 0) && (lb mod 128 =? 0)) eqn:Hind.
    + bools. minv.
      match goal with H : CBS_get_bytes _ _ = _ |- _ => apply CBS_get_bytes_iff in H as [Heq Hl]; [|lia] end.
      assert (lb = 0x80) as -> by mlia.
      change (tag_bytes tag ++ 0x80 :: h) with (tag_bytes tag ++ [0x80] ++ h) in Heq |- *.
      rewrite app_assoc in Heq |- *. apply app_eq_lenZ in Heq as [<- <-]; [|llia].
      replace {| el_out := _ |} with (ber_indefinite tag) by (unfold ber_indefinite; f_equal; llia).
      split; [|done]. constructor; [done|]. unfold constructed. by apply negb_true_iff, Z.eqb_neq.
    + minv. bools. rename z into len64.
      match goal with H : on_copy _ _ _ = _ |- _ => rename H into Hu end.
      match goal with H : CBS_get_bytes _ _ = _ |- _ => rename H into Hg end.
      apply on_copy_iff in Hu as [Hu <-]. apply cbs_get_u_iff in Hu as (d & -> & Hd & ->); [|done|lia].
      apply bytes_ok_app in Hs as [Hdok _]. rewrite <-Hd in *.
      assert (ber_length (be_value d) ((128 + lenZ d) :: d)) as Hbl
        by (right; exists d; split_and!; (done || lia)).
      destruct (ber_length_fits _ _ Hbl) as (Hf & _ & _).
      replace lb with (128 + lenZ d) in * by mlia.
      rewrite total_fits in Hg by (done || lia).
      apply CBS_get_bytes_iff in Hg as [Heq Hl]; [|mlia].
      assert (tag_bytes tag ++ (128 + lenZ d) :: d ++ l
              = (tag_bytes tag ++ ((128 + lenZ d) :: d)) ++ l) as Hassoc by (by rewrite <-app_assoc).
      rewrite Hassoc in Heq |- *. apply app_eq_split in Heq as (c & -> & ->); [|llia].
      assert (lenZ c = be_value d) as Hc by llia.
      replace {| el_out := _ |} with (ber_definite tag ((128 + lenZ d) :: d) c).
      * split; [apply parsed_definite; [done|by rewrite Hc]|].
        cbn [el_out ber_definite]. by rewrite <-!app_assoc.
      * unfold ber_definite. rewrite Hc, <-ber_found_long by (done || llia). f_equal. llia.
Qed.

(** * Completeness *)

Section ber_read_element.
Context (tag : Z) (rest : bytes) (Ht : fits 32 tag).

Lemma ber_tag_then x : bytes_ok x → parse_asn1_tag (tag_bytes tag ++ x) = (Some tag, x).
Proof.
  intros Hx. apply parse_asn1_tag_iff; [|done]. apply bytes_ok_app. split; [by apply tag_bytes_ok|done].
Qed.

Lemma ber_read_indefinite :
  constructed tag = true → bytes_ok rest →
  CBS_get_any_ber_asn1_element (el_out (ber_indefinite tag) ++ rest) = (Some (ber_indefinite tag), rest).
Proof.
  intros Hc Hr. cbn [el_out ber_indefinite]. rewrite <-app_assoc. cbn [app].
  set (s := tag_bytes tag ++ 0x80 :: rest).
  unfold CBS_get_any_ber_asn1_element, cbs_get_any_asn1_element.
  rewrite (bind_some _ _ s s s) by done.
  assert (bytes_ok (0x80 :: rest)) as Hr' by (apply bytes_ok_cons; split; [mlia|done]).
  mstep (on_copy_some (S := cbs) _ _ _ _ s (ber_tag_then (0x80 :: rest) Hr')).
  assert (CBS_get_u8 (0x80 :: rest) = (Some 0x80, rest)) as Hb by (by apply CBS_get_u8_iff).
  mstep (on_copy_some (S := cbs) _ _ _ _ s Hb).
  change (0x80 .& 0x80 =? 0) with false. change (0x80 .& 0x7f) with 0. cbv iota.
  unfold constructed in Hc. rewrite Hc. cbn [andb Z.eqb].
  assert (CBS_len s - CBS_len rest = lenZ (tag_bytes tag ++ [0x80])) as -> by (unfold s, CBS_len; llia).
  assert (CBS_get_bytes (lenZ (tag_bytes tag ++ [0x80])) s = (Some (tag_bytes tag ++ [0x80]), rest)) as Hg.
  { apply CBS_get_bytes_iff; [apply lenZ_nonneg|]. by rewrite <-app_assoc. }
  by mstep Hg.
Qed.

Context (l c : bytes) (Hl : ber_length (lenZ c) l) (Hok : bytes_ok (c ++ rest)).
Let s : bytes := (tag_bytes tag ++ l) ++ c ++ rest.

Lemma ber_definite_out n :
  n = lenZ c + lenZ (tag_bytes tag ++ l) →
  CBS_get_bytes (size_t n) s = (Some ((tag_bytes tag ++ l) ++ c), rest).
Proof.
  intros ->. destruct (ber_length_fits _ _ Hl) as (Hf & Hll & _). pose proof (lenZ_tag_bytes tag Ht).
  rewrite total_fits by (done || llia). apply CBS_get_bytes_iff; [llia|].
  unfold s. rewrite <-!app_assoc. split; [done|llia].
Qed.

Lemma ber_read_definite : CBS_get_any_ber_asn1_element s = (Some (ber_definite tag l c), rest).
Proof.
  pose proof (lenZ_tag_bytes tag Ht) as Htl.
  assert (bytes_ok (l ++ c ++ rest)) as Hlok
    by (apply bytes_ok_app; split; [apply (ber_length_fits _ _ Hl)|done]).
  pose proof (ber_tag_then _ Hlok) as Htag. rewrite app_assoc in Htag. fold s in Htag.
  pose proof ber_definite_out as Hout.
  unfold CBS_get_any_ber_asn1_element, cbs_get_any_asn1_element.
  rewrite (bind_some _ _ s s s) by done. mstep (on_copy_some (S := cbs) _ _ _ _ s Htag).
  destruct Hl as [[Hn ->]|(d & Hd & Hdok & -> & Hc)].
  - assert (CBS_get_u8 ([lenZ c] ++ c ++ rest) = (Some (lenZ c), c ++ rest)) as Hb by (by apply CBS_get_u8_iff).
    mstep (on_copy_some (S := cbs) _ _ _ _ s Hb). rewrite byte_land_80 by mlia.
    destruct (Z.ltb_spec (lenZ c) 128); [|lia].
    assert (CBS_len s - CBS_len (c ++ rest) = lenZ (tag_bytes tag ++ [lenZ c])) as -> by (unfold s, CBS_len; llia).
    mstep (Hout (lenZ c + lenZ (tag_bytes tag ++ [lenZ c])) eq_refl).
    unfold ber_definite. rewrite bool_decide_true; [done|].
    unfold len_bytes. by destruct (Z.ltb_spec (lenZ c) 128); [|lia].
  - assert (CBS_get_u8 (((128 + lenZ d) :: d) ++ c ++ rest) = (Some (128 + lenZ d), d ++ c ++ rest)) as Hb
      by (by apply CBS_get_u8_iff).
    mstep (on_copy_some (S := cbs) _ _ _ _ s Hb). rewrite byte_land_80, byte_land_7f by mlia.
    destruct (Z.ltb_spec (128 + lenZ d) 128); [lia|]. replace ((128 + lenZ d) mod 128) with (lenZ d) by lia.
    destruct (Z.eqb_spec (lenZ d) 0); [lia|]. rewrite andb_false_r. cbn [orb].
    destruct (Z.ltb_spec 4 (lenZ d)); [lia|]. cbn [negb]. mensure.
    assert (cbs_get_u (lenZ d) (d ++ c ++ rest) = (Some (lenZ c), c ++ rest)) as Hu.
    { apply cbs_get_u_iff; [|lia|by exists d]. apply bytes_ok_app. by split. }
    mstep (on_copy_some (S := cbs) _ _ _ _ s Hu). rewrite !orb_true_r. do 2 mensure.
    assert (CBS_len s - CBS_len (d ++ c ++ rest) = lenZ (tag_bytes tag) + 1) as -> by (unfold s, CBS_len; llia).
    destruct (ber_length_fits _ _ Hl) as (Hf & _ & _).
    assert ((size_t (lenZ c + (lenZ (tag_bytes tag) + 1) + lenZ d) <? lenZ c) = false) as ->
      by (rewrite wrap_small; [apply Z.ltb_ge; lia|mlia]).
    mensure.
    assert (lenZ (tag_bytes tag) + 1 + lenZ d = lenZ (tag_bytes tag ++ 128 + lenZ d :: d)) as -> by llia.
    mstep (Hout _ eq_refl). unfold ber_definite. cbn [andb].
    rewrite Hc at 1 2. rewrite ber_found_long by done. by rewrite Hc.
Qed.
End ber_read_element.

Lemma ber_read_complete el rest :
  ber_parsed el → bytes_ok (el_out el ++ rest) →
  CBS_get_any_ber_asn1_element (el_out el ++ rest) = (Some el, rest).
Proof.
  intros [tag l c Ht Hl|tag Ht Hc] Hok.
  - cbn [el_out ber_definite]. rewrite <-app_assoc. apply ber_read_definite; [done|done|].
    cbn [el_out ber_definite] in Hok. rewrite <-app_assoc in Hok. by apply bytes_ok_app in Hok as [_ Hok].
  - apply ber_read_indefinite; [done|done|]. by apply bytes_ok_app in Hok as [_ Hok].
Qed.

(** Without a deviation from DER, the two readers agree. *)
Lemma ber_parsed_der el :
  ber_parsed el → el_ber_found el = false → ∃ c, fits 32 (el_tag el) ∧ fits 32 (lenZ c) ∧ el = der_parsed (el_tag el) c.
Proof.
  intros [tag l c Ht Hl|tag Ht Hc]; [|done]. cbn [el_ber_found ber_definite el_tag].
  rewrite negb_false_iff, bool_decide_eq_true. intros ->. exists c.
  destruct (ber_length_fits _ _ Hl) as (Hf & _ & _). split_and!; [done|done|].
  unfold ber_definite, der_parsed, der_element, der_header. by rewrite bool_decide_true.
Qed.

Lemma len_bytes_ber_length n : fits 32 n → ber_length n (len_bytes n).
Proof.
  intros Hn. unfold len_bytes. destruct (Z.ltb_spec n 128); [left; split; [mlia|done]|right].
  destruct (len_len_spec n) as (H1 & H2 & H3); [lia|]. pose proof (len_len_4 n ltac:(mlia)).
  exists (be_bytes (len_len n) n). rewrite lenZ_be_bytes, be_value_be_bytes, Z.mod_small by lia.
  split_and!; [lia|lia|apply be_bytes_ok|done|done].
Qed.

Lemma der_parsed_ber tag c :
  fits 32 tag → fits 32 (lenZ c) → der_parsed tag c = ber_definite tag (len_bytes (lenZ c)) c ∧ ber_parsed (der_parsed tag c).
Proof.
  intros Ht Hc. assert (der_parsed tag c = ber_definite tag (len_bytes (lenZ c)) c) as H.
  { unfold ber_definite, der_parsed, der_element, der_header. by rewrite bool_decide_true. }
  split; [done|]. rewrite H. constructor; [done|]. by apply len_bytes_ber_length.
Qed.

(** * Properties *)

(** The BER element reader is exact: it succeeds precisely on a definite-length
    element whose length octets may be longer than needed, or on the header of an
    indefinite-length constructed element, and reports a non-minimal or indefinite
    length as BER. *)
Theorem ber_element_exact s el rest :
  bytes_ok s →
  CBS_get_any_ber_asn1_element s = (Some el, rest) ↔ ber_parsed el ∧ s = el_out el ++ rest.
Proof.
  intros Hok. split; [by apply ber_read_sound|].
  intros [Hp ->]. by apply ber_read_complete.
Qed.

Lemma ber_element_exact_witness :
  ber_parsed (ber_definite 4 [0x81; 1] [7]) ∧ [4; 0x81; 1; 7; 9] = el_out (ber_definite 4 [0x81; 1] [7]) ++ [9].
Proof.
  apply (proj1 (ber_element_exact [4; 0x81; 1; 7; 9] (ber_definite 4 [0x81; 1] [7]) [9] ltac:(decide_now))).
  vm_compute. reflexivity.
Defined.
