(* ===== verification/Cbb.v ===== *)
(** CBB, the byte-string builder:
    src/HolyWater-Test/Pods/BoringSSL-GRPC/src/crypto/bytestring/cbb.c.

    A tree of [CBB]s shares one growing buffer.  Each [CBB] has at most one open
    child, so the C pointer chain cbb->child->child... is the nested [option] of
    the inductive type below; the shared [cbb_buffer_st] is carried beside it.
    The C code passes a child's address to the next call; here [on_child] runs a
    call on the open child.  Once the parent is flushed the child's [base] is
    NULL and calls on it fail: the child is then [None]. *)
From S2P Require Import Prelude Mem Cbs.

(** [struct cbb_buffer_st].  [buf] is the block of [cap] bytes (NULL, which only
    occurs with capacity zero, is the empty block). *)
Record cbb_buffer := {
  buf : bytes;
  blen : Z;
  cap : Z;
  can_resize : bool;
  error : bool;
}.

(** [struct cbb_st], but for [base]. *)
#[warnings="-register-all"]
Inductive CBB := {
  child : option CBB;
  offset : Z;
  pending_len_len : Z;
  pending_is_asn1 : bool;
  is_child : bool;
}.

(** A [CBB] with the buffer its [base] points to. *)
Record cbb_st := { base : option cbb_buffer; this : CBB }.

Definition set_error (b : cbb_buffer) : cbb_buffer :=
  {| buf := buf b; blen := blen b; cap := cap b; can_resize := can_resize b; error := true |}.
Definition set_blen (n : Z) (b : cbb_buffer) : cbb_buffer :=
  {| buf := buf b; blen := n; cap := cap b; can_resize := can_resize b; error := error b |}.
Definition set_buf (d : bytes) (b : cbb_buffer) : cbb_buffer :=
  {| buf := d; blen := blen b; cap := cap b; can_resize := can_resize b; error := error b |}.
Definition set_child (c : CBB) (ch : option CBB) : CBB :=
  {| child := ch; offset := offset c; pending_len_len := pending_len_len c;
     pending_is_asn1 := pending_is_asn1 c; is_child := is_child c |}.

(** [OPENSSL_memset(cbb, 0, sizeof(CBB))] *)
Definition zero_cbb : CBB :=
  {| child := None; offset := 0; pending_len_len := 0; pending_is_asn1 := false;
     is_child := false |}.
Definition CBB_zero : cbb_st := {| base := None; this := zero_cbb |}.

(** Run a call on the buffer [base] points to; it fails when [base] is NULL. *)
Definition with_base {A} (m : M cbb_buffer A) : M cbb_st A := λ st,
  match base st with
  | None => (None, st)
  | Some b => let '(r, b) := m b in (r, {| base := Some b; this := this st |})
  end.

(** Run a call on the open child. *)
Definition on_child {A} (m : M cbb_st A) : M cbb_st A := λ st,
  match child (this st) with
  | None => (None, st)
  | Some ch =>
      let '(r, st') := m {| base := base st; this := ch |} in
      (r, {| base := base st'; this := set_child (this st) (Some (this st')) |})
  end.

Section cbb.
Context {libc : Libc}.

Definition sizeof_cbb_buffer : Z := 32.

(** * Construction and destruction *)

Definition cbb_init (buf : bytes) (cap : Z) : option cbb_st :=
  _ ← OPENSSL_malloc sizeof_cbb_buffer;
  Some {| base := Some {| buf := buf; blen := 0; cap := cap; can_resize := true;
                          error := false |};
          this := zero_cbb |}.

Definition CBB_init (initial_capacity : Z) : option cbb_st :=
  match OPENSSL_malloc initial_capacity with
  | None => if 0 <? initial_capacity then None else cbb_init [] initial_capacity
  | Some buf => cbb_init buf initial_capacity
  end.

Definition CBB_init_fixed (buf : bytes) : option cbb_st :=
  st ← cbb_init buf (lenZ buf);
  Some {| base := (λ b, {| buf := Cbb.buf b; blen := blen b; cap := cap b;
                           can_resize := false; error := error b |}) <$> base st;
          this := this st |}.

Definition CBB_cleanup (st : cbb_st) : cbb_st :=
  if is_child (this st) then st else {| base := None; this := this st |}.

(** * The buffer *)

(** Returns the offset of the reserved space. *)
Definition cbb_buffer_reserve (len : Z) : M cbb_buffer Z := λ base,
  let newlen := size_t (blen base + len) in
  if newlen <? blen base then (None, set_error base)
  else if cap base <? newlen then
    if negb (can_resize base) then (None, set_error base)
    else
      let newcap := size_t (cap base * 2) in
      let newcap := if (newcap <? cap base) || (newcap <? newlen) then newlen else newcap in
      match OPENSSL_realloc (Some (buf base)) newcap with
      | None => (None, set_error base)
      | Some newbuf =>
          (Some (blen base),
           {| buf := newbuf; blen := blen base; cap := newcap;
              can_resize := can_resize base; error := error base |})
      end
  else (Some (blen base), base).

Definition cbb_buffer_add (len : Z) : M cbb_buffer Z :=
  out ← cbb_buffer_reserve len;
  modifyS (λ base, set_blen (size_t (blen base + len)) base);;
  mret out.

(** [for (i = n - 1; i < n; i--) { p[i] = v; v >>= 8; }] *)
Fixpoint store_be (n : nat) (p v : Z) (buf : bytes) : bytes * Z :=
  match n with
  | O => (buf, v)
  | S i => store_be i p (v ≫ 8) (write_at buf (p + Z.of_nat i) [u8 v])
  end.

(** [base->error = 1; return 0;] *)
Definition fail_base : M cbb_buffer () := λ base, (None, set_error base).

Definition cbb_buffer_add_u (v len_len : Z) : M cbb_buffer () :=
  if len_len =? 0 then mret ()
  else
    p ← cbb_buffer_add len_len;
    base ← getS;
    let '(buf, v) := store_be (Z.to_nat len_len) p v (buf base) in
    putS (set_buf buf base);;
    if negb (v =? 0) then fail_base else mret ().

(** * Flushing *)

(** The shortest DER length: number of octets, first octet, and the value left
    for the octets after the first. *)
Definition flush_len_form (len : Z) : Z * Z * Z :=
  if 0xffffff <? len then (5, 0x80 .| 4, len)
  else if 0xffff <? len then (4, 0x80 .| 3, len)
  else if 0xff <? len then (3, 0x80 .| 2, len)
  else if 0x7f <? len then (2, 0x80 .| 1, len)
  else (1, u8 len, 0).

(** The end of [CBB_flush]: write the length prefix of [ch] and drop it. *)
Definition flush_write (c ch : CBB) (len : Z) (b : cbb_buffer) : bool * cbb_buffer * CBB :=
  let '(d, len) := store_be (Z.to_nat (pending_len_len ch)) (offset ch) len (buf b) in
  let b := set_buf d b in
  if negb (len =? 0) then (false, set_error b, set_child c (Some ch))
  else (true, b, set_child c None).

(** Its body once the child [ch] itself is flushed. *)
Definition flush_child (c ch : CBB) (child_start : Z) (b : cbb_buffer)
    : bool * cbb_buffer * CBB :=
  let len := size_t (blen b - child_start) in
  if pending_is_asn1 ch then
    if 0xfffffffe <? len then (false, set_error b, set_child c (Some ch))
    else
      let '(len_len, initial_length_byte, len') := flush_len_form len in
      let '(ok, b) :=
        if negb (len_len =? 1) then
          let extra_bytes := len_len - 1 in
          match cbb_buffer_add extra_bytes b with
          | (None, b) => (false, b)
          | (Some _, b) =>
              (true, set_buf (write_at (buf b) (child_start + extra_bytes)
                                (takeZ len (dropZ child_start (buf b)))) b)
          end
        else (true, b) in
      if negb ok then (false, set_error b, set_child c (Some ch))
      else
        let b := set_buf (write_at (buf b) (offset ch) [initial_length_byte]) b in
        let ch := {| child := child ch; offset := offset ch + 1;
                     pending_len_len := len_len - 1;
                     pending_is_asn1 := pending_is_asn1 ch; is_child := is_child ch |} in
        flush_write c ch len' b
  else flush_write c ch len b.

Fixpoint flush (c : CBB) (b : cbb_buffer) : bool * cbb_buffer * CBB :=
  if error b then (false, b, c)
  else
    match child c with
    | None => (true, b, c)
    | Some ch =>
        if pending_len_len ch =? 0 then (true, b, c)
        else
          let child_start := size_t (offset ch + pending_len_len ch) in
          let '(ok, b, ch) := flush ch b in
          if negb ok || (child_start <? offset ch) || (blen b <? child_start)
          then (false, set_error b, set_child c (Some ch))
          else flush_child c ch child_start b
    end.

Definition CBB_flush : M cbb_st () := λ st,
  match base st with
  | None => (None, st)
  | Some b =>
      let '(ok, b, c) := flush (this st) b in
      (if ok : bool then Some () else None, {| base := Some b; this := c |})
  end.

(** The finished block and its length; [out_data] and [out_len] tell whether
    the caller's pointers are non-NULL. *)
Definition CBB_finish (out_data out_len : bool) : M cbb_st (bytes * Z) := λ st,
  if is_child (this st) then (None, st)
  else
    match CBB_flush st with
    | (None, st) => (None, st)
    | (Some _, st) =>
        match base st with
        | None => (None, st)
        | Some b =>
            if can_resize b && (negb out_data || negb out_len) then (None, st)
            else (Some (buf b, blen b), CBB_cleanup st)
        end
    end.

(** Both require [child] to be NULL. *)
Definition CBB_data (st : cbb_st) : bytes :=
  match base st with
  | None => []
  | Some b => dropZ (offset (this st) + pending_len_len (this st)) (buf b)
  end.

Definition CBB_len (st : cbb_st) : Z :=
  match base st with
  | None => 0
  | Some b => size_t (blen b - offset (this st) - pending_len_len (this st))
  end.

(** * Fixed-width and raw data *)

Definition cbb_add_u (value len_len : Z) : M cbb_st () :=
  CBB_flush;; with_base (cbb_buffer_add_u value len_len).

Definition CBB_add_u8 (value : Z) : M cbb_st () := cbb_add_u value 1.
Definition CBB_add_u16 (value : Z) : M cbb_st () := cbb_add_u value 2.
Definition CBB_add_u24 (value : Z) : M cbb_st () := cbb_add_u value 3.
Definition CBB_add_u32 (value : Z) : M cbb_st () := cbb_add_u value 4.
Definition CBB_add_u64 (value : Z) : M cbb_st () := cbb_add_u value 8.
Definition CBB_add_u16le (value : Z) : M cbb_st () := CBB_add_u16 (CRYPTO_bswap2 value).
Definition CBB_add_u32le (value : Z) : M cbb_st () := CBB_add_u32 (CRYPTO_bswap4 value).
Definition CBB_add_u64le (value : Z) : M cbb_st () := CBB_add_u64 (CRYPTO_bswap8 value).

Definition CBB_add_space (len : Z) : M cbb_st Z :=
  CBB_flush;; with_base (cbb_buffer_add len).

Definition CBB_reserve (len : Z) : M cbb_st Z :=
  CBB_flush;; with_base (cbb_buffer_reserve len).

(** [memcpy] into the buffer *)
Definition buffer_write (p : Z) (data : bytes) : M cbb_st () :=
  with_base (modifyS (λ b, set_buf (write_at (buf b) p data) b)).

Definition CBB_add_bytes (data : bytes) : M cbb_st () :=
  CBB_flush;;
  dest ← with_base (cbb_buffer_add (lenZ data));
  buffer_write dest data.

Definition CBB_add_zeros (len : Z) : M cbb_st () :=
  out ← CBB_add_space len;
  buffer_write out (replicate (Z.to_nat len) 0).

Definition CBB_did_write (len : Z) : M cbb_st () := λ st,
  match base st with
  | None => (None, st)
  | Some b =>
      let newlen := size_t (blen b + len) in
      if (match child (this st) with Some _ => true | None => false end)
         || (newlen <? blen b) || (cap b <? newlen)
      then (None, st)
      else (Some (), {| base := Some (set_blen newlen b); this := this st |})
  end.

(** * Children *)

(** [memset(out_contents, 0, ...)] and the assignments after it. *)
Definition open_child (ofs len_len : Z) (asn1 : bool) : M cbb_st () :=
  modifyS (λ st,
    {| base := base st;
       this := set_child (this st)
         (Some {| child := None; offset := ofs; pending_len_len := len_len;
                  pending_is_asn1 := asn1; is_child := true |}) |}).

Definition cbb_add_length_prefixed (len_len : Z) : M cbb_st () :=
  CBB_flush;;
  prefix_bytes ← with_base (cbb_buffer_add len_len);
  buffer_write prefix_bytes (replicate (Z.to_nat len_len) 0);;
  open_child prefix_bytes len_len false.

Definition CBB_add_u8_length_prefixed : M cbb_st () := cbb_add_length_prefixed 1.
Definition CBB_add_u16_length_prefixed : M cbb_st () := cbb_add_length_prefixed 2.
Definition CBB_add_u24_length_prefixed : M cbb_st () := cbb_add_length_prefixed 3.

(** [while (copy > 0) { len_len++; copy >>= 7; }]; ten rounds exhaust 64 bits. *)
Fixpoint base128_count (fuel : nat) (copy : Z) : nat :=
  match fuel with
  | O => O
  | S fuel => if 0 <? copy then S (base128_count fuel (copy ≫ 7)) else O
  end.

(** [for (i = len_len - 1; i < len_len; i--)] *)
Fixpoint base128_emit (n : nat) (v : Z) : M cbb_st () :=
  match n with
  | O => mret ()
  | S i =>
      let byte := u8 ((v ≫ (7 * Z.of_nat i)) .& 0x7f) in
      let byte := if negb (Z.of_nat i =? 0) then byte .| 0x80 else byte in
      CBB_add_u8 byte;; base128_emit i v
  end.

Definition add_base128_integer (v : Z) : M cbb_st () :=
  let len_len := base128_count 10 v in
  let len_len := match len_len with O => 1%nat | n => n end in
  base128_emit len_len v.

Definition CBB_add_asn1 (tag : Z) : M cbb_st () :=
  CBB_flush;;
  let tag_bits := u8 ((tag ≫ CBS_ASN1_TAG_SHIFT) .& 0xe0) in
  let tag_number := tag .& CBS_ASN1_TAG_NUMBER_MASK in
  (if 0x1f <=? tag_number then
     CBB_add_u8 (tag_bits .| 0x1f);; add_base128_integer tag_number
   else CBB_add_u8 (tag_bits .| tag_number));;
  ofs ← with_base (b ← getS; mret (blen b));
  CBB_add_u8 0;;
  open_child ofs 1 true.

Definition CBB_discard_child : M cbb_st () := λ st,
  match child (this st) with
  | None => (Some (), st)
  | Some ch =>
      (Some (), {| base := set_blen (offset ch) <$> base st; this := set_child (this st) None |})
  end.

End cbb.
