(* ===== verification/CbbSpec.v ===== *)
(** What a [CBB] promises: a specification of the builder as a tree of pending
    prefixes over a byte string, the refinement of [CBB_flush] to it, and the
    rules by which a client composes builder calls. *)
From S2P Require Import Prelude Mem X690 Cbs Cbb.

(** * The abstract builder *)

(** The bytes written so far. *)
Definition written (b : cbb_buffer) : bytes := takeZ (blen b) (buf b).

(** The length prefix that an open child gets for contents of [n] bytes. *)
Definition prefix_for (ch : CBB) (n : Z) : option bytes :=
  if pending_is_asn1 ch then
    if n <=? 0xfffffffe then Some (len_bytes n) else None
  else
    if n <? 256 ^ pending_len_len ch
    then Some (be_bytes (Z.to_nat (pending_len_len ch)) n) else None.

(** Closing [ch]: its placeholder is replaced by the prefix. *)
Definition close_child (ch : CBB) (d : bytes) : option bytes :=
  let contents := dropZ (offset ch + pending_len_len ch) d in
  pre ← prefix_for ch (lenZ contents);
  Some (takeZ (offset ch) d ++ pre ++ contents).

(** What flushing [c] makes of the bytes [d] written so far: children are closed
    from the innermost outwards. *)
Fixpoint view (c : CBB) (d : bytes) : option bytes :=
  match child c with
  | None => Some d
  | Some ch => d' ← view ch d; close_child ch d'
  end.

(** * Well-formed builders *)

Record buf_wf (b : cbb_buffer) : Prop := {
  wf_len : 0 <= blen b <= cap b;
  wf_cap : cap b = lenZ (buf b);
  wf_fits : fits 64 (cap b);
}.

(** An open child's placeholder lies in the written bytes, after [lo]. *)
Definition child_wf (lo : Z) (ch : CBB) (n : Z) : Prop :=
  lo <= offset ch ∧ 1 <= pending_len_len ch <= 3 ∧
  (pending_is_asn1 ch = true → pending_len_len ch = 1) ∧
  offset ch + pending_len_len ch <= n.

Fixpoint tree_wf (c : CBB) (n : Z) : Prop :=
  match child c with
  | None => True
  | Some ch => child_wf (offset c + pending_len_len c) ch n ∧ tree_wf ch n
  end.

(** Induction along the chain of open children. *)
Lemma CBB_chain_ind (P : CBB → Prop) :
  (∀ c, (∀ ch, child c = Some ch → P ch) → P c) → ∀ c, P c.
Proof.
  intros H. fix IH 1. intros [[ch|] o p a i]; apply H; cbn; [|discriminate].
  intros ch' [= <-]. apply IH.
Qed.

Lemma child_wf_mono lo ch n m : n <= m → child_wf lo ch n → child_wf lo ch m.
Proof. intros Hnm (H1 & H2 & H3 & H4). split_and!; [done|lia|lia|done|lia]. Qed.

Lemma tree_wf_mono c n m : n <= m → tree_wf c n → tree_wf c m.
Proof.
  intros Hnm. induction c as [c IH] using CBB_chain_ind.
  destruct c as [[ch|] o p a i]; cbn; [|done]. intros [Hc Ht]. split.
  - by eapply child_wf_mono.
  - by apply IH.
Qed.

(** * The buffer *)

Lemma store_be_spec n p v d :
  0 <= p → p + Z.of_nat n <= lenZ d →
  store_be n p v d = (write_at d p (be_bytes n v), v / 256 ^ Z.of_nat n).
Proof.
  revert v d. induction n as [|n IH]; intros v d Hp Hl; cbn [store_be be_bytes].
  - change (256 ^ Z.of_nat 0) with 1. rewrite Z.div_1_r. f_equal.
    by rewrite write_at_nil.
  - rewrite IH; [|done|rewrite lenZ_write_at; llia].
    rewrite Nat2Z.inj_succ, Z.pow_succ_r by lia.
    rewrite shiftr_div, pow2_8, Z.div_div by lia. f_equal.
    rewrite <-write_at_adjacent by llia. rewrite lenZ_be_bytes. done.
Qed.

Section spec.
Context {libc : Libc}.

(** The allocator serves every request a builder of this size makes. *)
Definition reliable_malloc : Prop := ∀ n, 0 <= n <= 2 ^ 62 + 8 → is_Some (malloc n).

Lemma OPENSSL_malloc_reliable n :
  reliable_malloc → 0 <= n <= 2 ^ 62 → is_Some (OPENSSL_malloc n).
Proof.
  intros Hm Hn. unfold OPENSSL_malloc, OPENSSL_MALLOC_PREFIX.
  change (2 ^ 62) with 4611686018427387904 in *.
  rewrite wrap_small by mlia. destruct (Z.ltb_spec (n + 8) n); [lia|].
  destruct (Hm (n + 8)) as [p ->]; [change (2 ^ 62) with 4611686018427387904; lia|]. by eexists.
Qed.

Record grown (b b' : cbb_buffer) : Prop := {
  grown_wf : buf_wf b';
  grown_can_resize : can_resize b' = can_resize b;
  grown_error : error b' = error b;
}.

(** A reservation keeps the written bytes and makes room for [n] more. *)
Lemma cbb_buffer_reserve_spec n b r b' :
  buf_wf b → 0 <= n < 2 ^ 64 → cbb_buffer_reserve n b = (r, b') →
  match r with
  | Some p => p = blen b ∧ grown b b' ∧ blen b' = blen b ∧ written b' = written b ∧
              blen b + n <= cap b'
  | None => error b' = true
  end.
Proof.
  intros Hwf Hn. pose proof Hwf as [Hl Hc Hf]. unfold cbb_buffer_reserve.
  destruct (Z.ltb_spec (size_t (blen b + n)) (blen b)) as [Ho|Ho]; [by intros [= <- <-]|].
  assert (size_t (blen b + n) = blen b + n) as Hsz by mlia. rewrite Hsz in *.
  destruct (Z.ltb_spec (cap b) (blen b + n)) as [Hgrow|Hfit].
  - destruct (can_resize b) eqn:Hr; [|by intros [= <- <-]]. cbn [negb].
    set (newcap := if (size_t (cap b * 2) <? cap b) || (size_t (cap b * 2) <? blen b + n)
                   then blen b + n else size_t (cap b * 2)).
    assert (blen b + n <= newcap ∧ cap b <= newcap ∧ fits 64 newcap) as (H1 & H2 & H3).
    { unfold newcap. destruct (Z.ltb_spec (size_t (cap b * 2)) (cap b)),
        (Z.ltb_spec (size_t (cap b * 2)) (blen b + n)); cbn [orb]; mlia. }
    destruct (OPENSSL_realloc _ _) as [nb|] eqn:Hre; [|by intros [= <- <-]].
    intros [= <- <-]. apply OPENSSL_realloc_spec in Hre as [Hnl Hnt]; [|lia].
    assert (takeZ (blen b) nb = written b) as Hw.
    { unfold written. rewrite <-Hnt, takeZ_takeZ by lia. done. }
    split_and!; [done| |done|exact Hw|cbn; lia].
    split; [|done|done]. split; cbn; [lia|done|done].
  - intros [= <- <-]. split_and!; [done|by split|done|done|lia].
Qed.

Lemma cbb_buffer_reserve_total n b :
  reliable_malloc → buf_wf b → can_resize b = true → 0 <= n → blen b + n <= 2 ^ 61 →
  is_Some (cbb_buffer_reserve n b).1.
Proof.
  intros Hm Hwf Hr Hn Hl. pose proof Hwf as [Hbl Hc Hf]. unfold cbb_buffer_reserve.
  change (2 ^ 61) with 2305843009213693952 in Hl.
  rewrite wrap_small by mlia. destruct (Z.ltb_spec (blen b + n) (blen b)); [lia|].
  destruct (Z.ltb_spec (cap b) (blen b + n)); [|by eexists].
  rewrite Hr. cbn [negb]. set (newcap := if (size_t (cap b * 2) <? cap b) || (size_t (cap b * 2) <? blen b + n)
                   then blen b + n else size_t (cap b * 2)).
  assert (0 <= newcap <= 2 ^ 62) as Hnc.
  { change (2 ^ 62) with 4611686018427387904. unfold newcap.
    destruct (Z.ltb_spec (size_t (cap b * 2)) (cap b)),
      (Z.ltb_spec (size_t (cap b * 2)) (blen b + n)); cbn [orb]; mlia. }
  cbn. destruct (OPENSSL_malloc_reliable newcap Hm Hnc) as [p ->]. by eexists.
Qed.

(** The reasons a call that only runs out of room can fail. *)
Definition no_room (b : cbb_buffer) (n : Z) : Prop :=
  reliable_malloc → can_resize b = true → 2 ^ 61 < n.

Lemma cbb_buffer_add_spec n b r b' :
  buf_wf b → 0 <= n < 2 ^ 64 → cbb_buffer_add n b = (r, b') →
  match r with
  | Some p => p = blen b ∧ grown b b' ∧ blen b' = blen b + n ∧
              takeZ (blen b) (buf b') = written b
  | None => error b' = true ∧ no_room b (blen b + n)
  end.
Proof.
  intros Hwf Hn. unfold cbb_buffer_add.
  destruct (cbb_buffer_reserve n b) as [[p|] b1] eqn:Hr.
  - rewrite (bind_some _ _ _ _ _ Hr). unfold mbind, M_bind, modifyS, mret, M_ret. intros [= <- <-].
    apply cbb_buffer_reserve_spec in Hr as (-> & [[Hl Hc Hf] Hcr He] & Hbl & Hw & Hcap); [|done..].
    assert (size_t (blen b1 + n) = blen b + n) as Hsz by (rewrite Hbl; apply wrap_small; mlia).
    cbn. rewrite Hsz. split_and!; [done| |done|].
    + split; [|done|done]. split; cbn; [|done|done]. destruct Hwf. lia.
    + by rewrite <-Hbl.
  - rewrite (bind_none _ _ _ _ Hr). intros [= <- <-]. split.
    + by apply cbb_buffer_reserve_spec in Hr.
    + intros Hm Hcr. destruct (Z.le_gt_cases (blen b + n) (2 ^ 61)) as [Hle|]; [|lia].
      destruct (cbb_buffer_reserve_total n b Hm Hwf Hcr) as [x Hx]; [lia|done|].
      by rewrite Hr in Hx.
Qed.

Lemma lenZ_written b : buf_wf b → lenZ (written b) = blen b.
Proof. intros [Hl Hc Hf]. apply lenZ_takeZ. lia. Qed.

(** Writing inside the written bytes. *)
Lemma written_write_at b p x :
  buf_wf b → 0 <= p → p + lenZ x <= blen b →
  let b' := set_buf (write_at (buf b) p x) b in
  grown b b' ∧ written b' = write_at (written b) p x.
Proof.
  intros [Hl Hc Hf] Hp Hx. cbn. split.
  - split; [|done|done]. split; cbn; [done| |done]. rewrite lenZ_write_at; lia.
  - unfold written. cbn. rewrite <-(takeZ_dropZ (blen b) (buf b)) at 1.
    set (t := dropZ (blen b) (buf b)). set (d := takeZ (blen b) (buf b)).
    assert (lenZ d = blen b) as Hd by (apply lenZ_takeZ; lia).
    pose proof (lenZ_nonneg x).
    destruct (cut_at d p (lenZ x)) as (u & v & w & Heq & Hu & Hv); [lia..|]. rewrite Heq in *.
    rewrite <-!app_assoc, !write_at_app by done.
    rewrite (app_assoc x), (app_assoc u). apply takeZ_app.
    rewrite <-Hd. rewrite !lenZ_app. lia.
Qed.

Lemma grown_trans b1 b2 b3 : grown b1 b2 → grown b2 b3 → grown b1 b3.
Proof. intros [? ? ?] [? ? ?]. split; congruence || done. Qed.

Lemma grown_refl b : buf_wf b → grown b b.
Proof. by split. Qed.

(** Writing right after the bytes written before an allocation. *)
Lemma written_append b b1 n x :
  buf_wf b → grown b b1 → blen b1 = blen b + n → takeZ (blen b) (buf b1) = written b →
  lenZ x = n →
  let b' := set_buf (write_at (buf b1) (blen b) x) b1 in
  grown b b' ∧ blen b' = blen b + n ∧ written b' = written b ++ x.
Proof.
  intros Hwf Hg Hl Hw Hx. pose proof (grown_wf _ _ Hg) as [Hl1 Hc1 Hf1].
  destruct Hwf as [Hl0 Hc0 Hf0]. cbn. split_and!; [|done|].
  - eapply grown_trans; [apply Hg|]. split; [|done|done].
    split; cbn; [lia| |done]. rewrite lenZ_write_at; lia.
  - unfold written at 1. cbn. rewrite takeZ_write_at by lia. by rewrite Hw.
Qed.

Lemma cbb_buffer_add_u_spec v n b r b' :
  buf_wf b → error b = false → 0 <= v → 0 <= n <= 8 → cbb_buffer_add_u v n b = (r, b') →
  match r with
  | Some _ => (0 < n → v < 256 ^ n) ∧ grown b b' ∧ written b' = written b ++ be_bytes (Z.to_nat n) v
  | None => error b' = true ∧ (v < 256 ^ n → no_room b (blen b + n))
  end.
Proof.
  intros Hwf He Hv Hn. unfold cbb_buffer_add_u. destruct (Z.eqb_spec n 0) as [->|Hn0].
  { intros [= <- <-]. split_and!; [lia|by apply grown_refl|]. cbn. by rewrite app_nil_r. }
  destruct (cbb_buffer_add n b) as [[p|] b1] eqn:Ha; cycle 1.
  { rewrite (bind_none _ _ _ _ Ha). intros [= <- <-].
    apply cbb_buffer_add_spec in Ha as [H1 H2]; [|done|mlia]. by split. }
  mstep Ha. apply cbb_buffer_add_spec in Ha as (-> & Hg & Hl & Hw); [|done|mlia].
  rewrite (bind_some getS _ b1 b1 b1) by done.
  pose proof (grown_wf _ _ Hg) as [Hl1 Hc1 Hf1]. pose proof Hwf as [Hl0 _ _].
  rewrite store_be_spec by lia. rewrite Z2Nat.id by lia.
  destruct (written_append b b1 n (be_bytes (Z.to_nat n) v)) as (Hg' & _ & Hw'); [done..|llia|].
  unfold mbind, M_bind, putS, fail_base, mret, M_ret.
  assert (0 < 256 ^ n) by (apply Z.pow_pos_nonneg; lia).
  destruct (Z.eqb_spec (v / 256 ^ n) 0) as [Hz|Hz]; cbn [negb]; intros [= <- <-].
  - split_and!; [|done|done]. intros _. apply Z.div_small_iff in Hz; lia.
  - split; [done|]. intros Hlt. rewrite Z.div_small in Hz; lia.
Qed.

(** * Flushing refines [view] *)

(** The final prefix is never shorter than the placeholder. *)
Lemma close_child_cut lo ch d d' :
  0 <= lo → child_wf lo ch (lenZ d) → close_child ch d = Some d' →
  ∃ u x w pre, d = u ++ x ++ w ∧ lenZ u = offset ch ∧ lenZ x = pending_len_len ch ∧
    prefix_for ch (lenZ w) = Some pre ∧ d' = u ++ pre ++ w.
Proof.
  intros Hlo (H1 & H2 & H3 & H4) Hc.
  destruct (cut_at d (offset ch) (pending_len_len ch)) as (u & x & w & -> & Hu & Hx); [lia..|].
  unfold close_child in Hc. rewrite (app_assoc u x w), dropZ_app in Hc by (rewrite lenZ_app; lia).
  rewrite <-app_assoc, takeZ_app in Hc by done.
  destruct (prefix_for ch (lenZ w)) as [pre|] eqn:Hp; [|done]. injection Hc as <-. eauto 10.
Qed.

Lemma prefix_for_len ch n pre :
  1 <= pending_len_len ch <= 3 → (pending_is_asn1 ch = true → pending_len_len ch = 1) →
  0 <= n → prefix_for ch n = Some pre → pending_len_len ch <= lenZ pre.
Proof.
  unfold prefix_for. intros H2 H3 Hn. destruct (pending_is_asn1 ch).
  - destruct (Z.leb_spec n 0xfffffffe); [|done]. intros [= <-].
    rewrite H3 by done. apply lenZ_len_bytes. mlia.
  - destruct (_ <? _); [|done]. intros [= <-]. rewrite lenZ_be_bytes. lia.
Qed.

Lemma flush_write_spec c ch len b ok b' c' :
  buf_wf b → 0 <= offset ch → 0 <= pending_len_len ch → 0 <= len →
  offset ch + pending_len_len ch <= blen b →
  flush_write c ch len b = (ok, b', c') →
  if (ok : bool) then len < 256 ^ pending_len_len ch ∧ grown b b' ∧ c' = set_child c None ∧
    written b' = write_at (written b) (offset ch) (be_bytes (Z.to_nat (pending_len_len ch)) len)
  else error b' = true ∧ 256 ^ pending_len_len ch <= len.
Proof.
  intros Hwf Ho Hp Hl Hle. pose proof Hwf as [Hl0 Hc Hf]. unfold flush_write.
  rewrite store_be_spec by lia. rewrite Z2Nat.id by lia.
  assert (0 < 256 ^ pending_len_len ch) by (apply Z.pow_pos_nonneg; lia).
  destruct (written_write_at b (offset ch) (be_bytes (Z.to_nat (pending_len_len ch)) len))
    as [Hg Hw]; [done|done|llia|].
  destruct (Z.eqb_spec (len / 256 ^ pending_len_len ch) 0) as [Hz|Hz]; cbn [negb]; intros [= <- <- <-].
  - apply Z.div_small_iff in Hz; [|lia]. split_and!; [lia|done|done|done].
  - split; [done|]. destruct (Z.le_gt_cases (256 ^ pending_len_len ch) len); [done|].
    rewrite Z.div_small in Hz; lia.
Qed.

(** The DER length forms that [CBB_flush] picks are the shortest ones. *)
Lemma flush_len_form_short len :
  0 <= len < 128 → flush_len_form len = (1, len, 0) ∧ len_bytes len = [len].
Proof.
  intros Hl. unfold flush_len_form, len_bytes.
  destruct (Z.ltb_spec 0xffffff len), (Z.ltb_spec 0xffff len), (Z.ltb_spec 0xff len),
    (Z.ltb_spec 0x7f len), (Z.ltb_spec len 128); try lia.
  split; [|done]. by rewrite wrap_small by mlia.
Qed.

Lemma flush_len_form_long len :
  128 <= len <= 0xfffffffe → ∃ k, 1 <= k <= 4 ∧ len < 256 ^ k ∧
  flush_len_form len = (1 + k, 128 + k, len) ∧
  len_bytes len = (128 + k) :: be_bytes (Z.to_nat k) len.
Proof.
  intros Hl. assert (∀ k, 1 <= k → len < 256 ^ k → 256 ^ (k - 1) <= len →
    len_bytes len = (128 + k) :: be_bytes (Z.to_nat k) len) as Hlb.
  { intros k Hk Hhi Hlo. unfold len_bytes. destruct (Z.ltb_spec len 128); [lia|].
    rewrite <-(len_len_unique (Z.to_nat k) len) by (rewrite Z2Nat.id by lia; lia).
    rewrite Z2Nat.id by lia. done. }
  unfold flush_len_form.
  destruct (Z.ltb_spec 0xffffff len); [exists 4|destruct (Z.ltb_spec 0xffff len); [exists 3|
    destruct (Z.ltb_spec 0xff len); [exists 2|
      destruct (Z.ltb_spec 0x7f len); [exists 1|lia]]]].
  all: (split_and!; [lia|lia| | |apply Hlb]).
  all: try done.
  all: try (change (256 ^ 4) with 4294967296 || change (256 ^ 3) with 16777216
            || change (256 ^ 2) with 65536 || change (256 ^ 1) with 256); try lia.
  all: change (256 ^ (4 - 1)) with 16777216 || change (256 ^ (3 - 1)) with 65536
    || change (256 ^ (2 - 1)) with 256 || change (256 ^ (1 - 1)) with 1; lia.
Qed.

(** What a flush of [ch] alone must do, on success and on failure. *)
Definition closes (c ch : CBB) (b : cbb_buffer) (res : bool * cbb_buffer * CBB) : Prop :=
  let '(ok, b', c') := res in
  if (ok : bool) then
    close_child ch (written b) = Some (written b') ∧ grown b b' ∧ c' = set_child c None
  else
    error b' = true ∧
    (∀ d', close_child ch (written b) = Some d' → no_room b (lenZ d')).

Lemma close_child_eq ch u x w :
  lenZ u = offset ch → lenZ x = pending_len_len ch →
  close_child ch (u ++ x ++ w) = (λ pre, u ++ pre ++ w) <$> prefix_for ch (lenZ w).
Proof.
  intros Hu Hx. unfold close_child.
  rewrite (app_assoc u x w), dropZ_app by (rewrite lenZ_app; lia).
  rewrite <-app_assoc, takeZ_app by done. by destruct (prefix_for _ _).
Qed.

Section flush_child.
Context (c ch : CBB) (b : cbb_buffer) (u x w : bytes) (lo : Z).
Context (Hwf : buf_wf b) (Hlo : 0 <= lo) (Hch : child_wf lo ch (blen b)).
Context (Hw : written b = u ++ x ++ w) (Hu : lenZ u = offset ch) (Hx : lenZ x = pending_len_len ch).

Lemma blen_parts : blen b = lenZ u + lenZ x + lenZ w.
Proof. rewrite <-(lenZ_written b Hwf), Hw, !lenZ_app. lia. Qed.

Lemma flush_plain :
  pending_is_asn1 ch = false → closes c ch b (flush_write c ch (lenZ w) b).
Proof.
  intros Ha. pose proof blen_parts as Hb. destruct Hch as (H1 & H2 & H3 & H4).
  pose proof (lenZ_nonneg w). destruct (flush_write _ _ _ _) as [[ok b'] c'] eqn:Hf.
  apply flush_write_spec in Hf; [|done|lia|lia|lia|lia]. unfold closes.
  rewrite Hw, close_child_eq by done. unfold prefix_for. rewrite Ha. destruct ok.
  - destruct Hf as (Hlt & Hg & -> & Hw'). destruct (Z.ltb_spec (lenZ w) (256 ^ pending_len_len ch)); [|lia].
    split_and!; [|done|done]. cbn. f_equal. rewrite Hw', Hw. symmetry.
    apply write_at_app; [done|]. rewrite lenZ_be_bytes. lia.
  - destruct Hf as [He Hge]. split; [done|]. intros d'.
    destruct (Z.ltb_spec (lenZ w) (256 ^ pending_len_len ch)); [lia|done].
Qed.

(** Writing the first length octet over the placeholder. *)
Lemma first_octet v (b1 : cbb_buffer) (y : bytes) :
  pending_len_len ch = 1 → grown b b1 → blen b1 = lenZ u + 1 + lenZ y →
  takeZ (blen b1) (buf b1) = u ++ x ++ y →
  let b' := set_buf (write_at (buf b1) (offset ch) [v]) b1 in
  grown b b' ∧ written b' = u ++ [v] ++ y ∧ blen b' = blen b1.
Proof.
  intros Hp Hg Hl Ht. pose proof (grown_wf _ _ Hg) as Hwf1.
  destruct (written_write_at b1 (offset ch) [v]) as [Hg' Hw']; [done|destruct Hch; lia|..].
  { change (lenZ [v]) with 1. pose proof (lenZ_nonneg y). lia. }
  split_and!; [by eapply grown_trans| |done]. rewrite Hw'. unfold written. rewrite Ht.
  by apply write_at_app; [|rewrite Hx, Hp].
Qed.

Definition stepped (k : Z) : CBB :=
  {| child := child ch; offset := offset ch + 1; pending_len_len := k;
     pending_is_asn1 := true; is_child := is_child ch |}.

Lemma flush_asn1_short :
  pending_is_asn1 ch = true → lenZ w < 128 →
  closes c ch b (flush_write c (stepped 0) 0 (set_buf (write_at (buf b) (offset ch) [lenZ w]) b)).
Proof.
  intros Ha Hlt. pose proof blen_parts as Hb. pose proof Hch as (H1 & H2 & H3 & H4).
  specialize (H3 Ha). pose proof (lenZ_nonneg w). pose proof (lenZ_nonneg u).
  destruct (flush_len_form_short (lenZ w)) as [_ Hlb]; [lia|].
  destruct (first_octet (lenZ w) b w) as (Hg & Hw1 & Hb1);
    [done|by apply grown_refl|lia|exact Hw|]. set (b1 := set_buf _ _) in *.
  destruct (flush_write _ _ _ _) as [[ok b'] c'] eqn:Hf.
  apply flush_write_spec in Hf; [|by apply (grown_wf b)|cbn; lia|done|lia|cbn; lia]. unfold closes.
  rewrite Hw, close_child_eq by done. unfold prefix_for. rewrite Ha.
  destruct (Z.leb_spec (lenZ w) 0xfffffffe); [|lia]. rewrite Hlb.
  cbn [stepped pending_len_len offset] in Hf. destruct ok.
  - destruct Hf as (_ & Hg' & -> & Hw'). split_and!; [|by eapply grown_trans|done].
    rewrite Hw', Hw1. change (be_bytes (Z.to_nat 0) 0) with (@nil Z). by rewrite write_at_nil.
  - destruct Hf as [_ Hge]. change (256 ^ 0) with 1 in Hge. lia.
Qed.

(** Moving the contents [k] bytes along. *)
Lemma memmove_contents k (b1 : cbb_buffer) :
  pending_len_len ch = 1 → 1 <= k → grown b b1 → blen b1 = blen b + k →
  takeZ (blen b) (buf b1) = written b →
  let b2 := set_buf (write_at (buf b1) (offset ch + 1 + k)
                       (takeZ (lenZ w) (dropZ (offset ch + 1) (buf b1)))) b1 in
  grown b b2 ∧ blen b2 = blen b + k ∧
  ∃ mid, lenZ mid = k ∧ takeZ (blen b2) (buf b2) = u ++ x ++ mid ++ w.
Proof.
  intros Hp Hk Hg Hl Ht. pose proof blen_parts as Hb.
  pose proof (grown_wf _ _ Hg) as [Hl1 Hc1 Hf1]. rewrite Hw in Ht.
  set (j := dropZ (blen b) (buf b1)).
  assert (buf b1 = u ++ x ++ w ++ j) as Hbuf
    by (rewrite <-(takeZ_dropZ (blen b) (buf b1)), Ht; by rewrite <-!app_assoc).
  clearbody j.
  assert (k <= lenZ j) as Hj.
  { assert (lenZ (buf b1) = blen b + lenZ j) by (rewrite Hbuf, !lenZ_app; lia). lia. }
  pose proof (lenZ_nonneg u). pose proof (lenZ_nonneg w). rewrite Hbuf.
  rewrite (app_assoc u x (w ++ j)), dropZ_app by (rewrite lenZ_app; lia). rewrite takeZ_app by done.
  destruct (cut_at (w ++ j) k (lenZ w)) as (mid & w' & j' & Heq & Hm & Hw'); [lia|done|rewrite lenZ_app; lia|].
  rewrite Heq, (app_assoc (u ++ x) mid), write_at_app by (rewrite ?lenZ_app; lia).
  rewrite <-!app_assoc. cbn. split_and!.
  - eapply grown_trans; [apply Hg|]. split; [|done|done]. split; cbn; [done| |done].
    rewrite Hc1, Hbuf, Heq, !lenZ_app. lia.
  - done.
  - exists mid. split; [done|]. rewrite (app_assoc mid), (app_assoc x), (app_assoc u).
    apply takeZ_app. rewrite !lenZ_app. lia.
Qed.

(** The octets of a long-form length, over the room made for them. *)
Lemma flush_asn1_octets k (b2 : cbb_buffer) mid :
  pending_is_asn1 ch = true → 1 <= k <= 4 → lenZ w < 256 ^ k → lenZ w <= 0xfffffffe →
  len_bytes (lenZ w) = (128 + k) :: be_bytes (Z.to_nat k) (lenZ w) →
  grown b b2 → blen b2 = blen b + k → lenZ mid = k →
  takeZ (blen b2) (buf b2) = u ++ x ++ mid ++ w →
  closes c ch b (flush_write c (stepped k) (lenZ w)
                   (set_buf (write_at (buf b2) (offset ch) [128 + k]) b2)).
Proof.
  intros Ha Hk Hlt Hmax Hlb Hg Hl Hm Ht. pose proof blen_parts as Hb.
  pose proof Hch as (H1 & H2 & H3 & H4). specialize (H3 Ha).
  pose proof (lenZ_nonneg w). pose proof (lenZ_nonneg u).
  destruct (first_octet (128 + k) b2 (mid ++ w)) as (Hg3 & Hw3 & Hb3);
    [done|done|rewrite lenZ_app; lia|done|]. set (b3 := set_buf _ _) in *.
  destruct (flush_write _ _ _ _) as [[ok b'] c'] eqn:Hf.
  apply flush_write_spec in Hf; [|by apply (grown_wf b)|cbn; lia|cbn; lia|lia|cbn; lia].
  unfold closes. rewrite Hw, close_child_eq by done. unfold prefix_for. rewrite Ha.
  destruct (Z.leb_spec (lenZ w) 0xfffffffe); [|lia]. rewrite Hlb.
  cbn [stepped pending_len_len offset] in Hf. destruct ok.
  - destruct Hf as (_ & Hg' & -> & Hw'). split_and!; [|by eapply grown_trans|done].
    rewrite Hw', Hw3. cbn [fmap option_fmap option_map]. f_equal.
    rewrite (app_assoc u [128 + k] (mid ++ w)), (write_at_app (u ++ [128 + k]) mid w).
    + rewrite <-app_assoc. reflexivity.
    + rewrite lenZ_app. change (lenZ [128 + k]) with 1. lia.
    + rewrite lenZ_be_bytes. lia.
  - destruct Hf as [_ Hge]. lia.
Qed.

Lemma flush_child_closes :
  closes c ch b (flush_child c ch (offset ch + pending_len_len ch) b).
Proof.
  pose proof blen_parts as Hb. pose proof Hch as (H1 & H2 & H3 & H4).
  pose proof Hwf as [Hl0 Hc0 Hf0]. pose proof (lenZ_nonneg w). unfold flush_child.
  assert (size_t (blen b - (offset ch + pending_len_len ch)) = lenZ w) as ->
    by (rewrite wrap_small; [lia|mlia]).
  destruct (pending_is_asn1 ch) eqn:Ha; [|by apply flush_plain]. specialize (H3 eq_refl).
  assert (close_child ch (written b) =
    if lenZ w <=? 0xfffffffe then Some (u ++ len_bytes (lenZ w) ++ w) else None) as Hcc.
  { rewrite Hw, close_child_eq by done. unfold prefix_for. rewrite Ha. by destruct (_ <=? _). }
  destruct (Z.ltb_spec 0xfffffffe (lenZ w)) as [Hbig|Hle].
  { split; [done|]. rewrite Hcc. intros d'. destruct (Z.leb_spec (lenZ w) 0xfffffffe); [lia|done]. }
  destruct (Z.lt_ge_cases (lenZ w) 128) as [Hs|Hs].
  { destruct (flush_len_form_short (lenZ w)) as [-> _]; [lia|]. by apply flush_asn1_short. }
  destruct (flush_len_form_long (lenZ w)) as (k & Hk & Hlt & -> & Hlb); [lia|].
  destruct (Z.eqb_spec (1 + k) 1); [lia|]. cbn [negb]. replace (1 + k - 1) with k by lia.
  rewrite Hlb in Hcc.
  destruct (cbb_buffer_add k b) as [[p|] b1] eqn:Hadd; cycle 1.
  - apply cbb_buffer_add_spec in Hadd as [He Hno]; [|done|mlia]. cbn [negb]. split; [done|].
    rewrite Hcc. intros d'. destruct (_ <=? _); [|done]. intros [= <-] Hm Hr. specialize (Hno Hm Hr).
    repeat (rewrite lenZ_app || rewrite lenZ_cons || rewrite lenZ_be_bytes). lia.
  - apply cbb_buffer_add_spec in Hadd as (-> & Hg & Hl & Ht); [|done|mlia]. cbn [negb].
    rewrite H3. destruct (memmove_contents k b1) as (Hg2 & Hl2 & mid & Hm & Ht2); [lia|lia|done..|].
    by apply (flush_asn1_octets k _ mid).
Qed.

End flush_child.

Lemma view_some c ch d : child c = Some ch → view c d = view ch d ≫= close_child ch.
Proof. intros H. destruct c as [chc o p a i]. cbn in *. subst. cbn. by destruct (view ch d). Qed.

Lemma tree_wf_some c ch n :
  child c = Some ch →
  tree_wf c n ↔ child_wf (offset c + pending_len_len c) ch n ∧ tree_wf ch n.
Proof. intros H. destruct c as [chc o p a i]. cbn in *. by subst. Qed.

Lemma flush_some c ch b :
  child c = Some ch → error b = false → pending_len_len ch ≠ 0 →
  flush c b =
    let child_start := size_t (offset ch + pending_len_len ch) in
    let '(ok, b, ch) := flush ch b in
    if negb ok || (child_start <? offset ch) || (blen b <? child_start)
    then (false, set_error b, set_child c (Some ch))
    else flush_child c ch child_start b.
Proof.
  intros H He Hp. destruct c as [chc o p a i]. cbn in *. subst. rewrite He.
  destruct (Z.eqb_spec (pending_len_len ch) 0); [done|].
  by destruct (flush ch b) as [[? ?] ?].
Qed.

Lemma close_child_grows lo ch d d' :
  0 <= lo → child_wf lo ch (lenZ d) → close_child ch d = Some d' → lenZ d <= lenZ d'.
Proof.
  intros Hlo Hch Hc. pose proof Hch as (_ & H2 & H3 & _).
  destruct (close_child_cut lo ch d d') as (u & x & w & pre & -> & Hu & Hx & Hp & ->); [done..|].
  apply prefix_for_len in Hp; [|done..|apply lenZ_nonneg]. rewrite !lenZ_app. lia.
Qed.

Lemma view_grows c d d' :
  0 <= offset c + pending_len_len c → tree_wf c (lenZ d) → view c d = Some d' → lenZ d <= lenZ d'.
Proof.
  revert d d'. induction c as [c IH] using CBB_chain_ind. intros d d' Hc Ht.
  destruct (child c) as [ch|] eqn:Hch.
  - apply (tree_wf_some c ch) in Ht as [Hw Ht]; [|done]. rewrite (view_some c ch) by done.
    destruct (view ch d) as [d1|] eqn:Hv; [|done]. cbn [mbind option_bind]. intros Hcc.
    pose proof Hw as (H1 & H2 & H3 & H4). apply IH in Hv; [|done|lia|done].
    apply (close_child_grows _ _ _ _ Hc) in Hcc; [lia|]. by eapply child_wf_mono, Hw.
  - destruct c as [[?|] o p a i]; [done|]. intros [= <-]. lia.
Qed.

(** A flush of a whole tree. *)
Definition flushes (c : CBB) (b : cbb_buffer) (res : bool * cbb_buffer * CBB) : Prop :=
  let '(ok, b', c') := res in
  if (ok : bool) then
    view c (written b) = Some (written b') ∧ grown b b' ∧ c' = set_child c None ∧ blen b <= blen b'
  else
    error b' = true ∧ (∀ d', view c (written b) = Some d' → no_room b (lenZ d')).

Lemma flush_flushes c b :
  buf_wf b → error b = false → 0 <= offset c + pending_len_len c → tree_wf c (blen b) →
  flushes c b (flush c b).
Proof.
  revert b. induction c as [c IH] using CBB_chain_ind. intros b Hwf He Hc Ht.
  destruct (child c) as [ch|] eqn:Hch; cycle 1.
  { destruct c as [[?|] o p a i]; [done|]. cbn. rewrite He. cbn.
    split_and!; [done|by apply grown_refl|done|lia]. }
  apply (tree_wf_some c ch) in Ht as [Hw Ht]; [|done]. pose proof Hw as (H1 & H2 & H3 & H4).
  rewrite (flush_some c ch) by (done || lia). cbv zeta.
  assert (size_t (offset ch + pending_len_len ch) = offset ch + pending_len_len ch) as ->
    by (apply wrap_small; destruct Hwf; mlia).
  specialize (IH ch eq_refl b Hwf He ltac:(lia) Ht).
  destruct (flush ch b) as [[ok b1] ch1]. unfold flushes in *. destruct ok; cbn [negb orb].
  - destruct IH as (Hv & Hg & -> & Hbl). pose proof (grown_wf _ _ Hg) as Hwf1.
    change (offset (set_child ch None)) with (offset ch).
    destruct (Z.ltb_spec (offset ch + pending_len_len ch) (offset ch)); [lia|].
    destruct (Z.ltb_spec (blen b1) (offset ch + pending_len_len ch)); [lia|]. cbn [orb].
    rewrite (view_some c ch) by done. rewrite Hv. cbn [mbind option_bind].
    assert (child_wf (offset c + pending_len_len c) ch (blen b1)) as Hw1 by (by eapply child_wf_mono, Hw).
    destruct (cut_at (written b1) (offset ch) (pending_len_len ch)) as (u & x & w & Hcut & Hu & Hx);
      [lia|lia|rewrite lenZ_written by done; lia|].
    pose proof (flush_child_closes c (set_child ch None) b1 u x w _ Hwf1 Hc Hw1 Hcut Hu Hx) as Hcl.
    cbn [offset pending_len_len set_child] in Hcl.
    destruct (flush_child _ _ _ _) as [[ok2 b2] c2]. unfold closes in Hcl. destruct ok2; cbv beta iota.
    + destruct Hcl as (Hcc & Hg2 & ->). split_and!; [done|by eapply grown_trans|done|].
      apply (close_child_grows _ _ _ _ Hc) in Hcc; [|by rewrite lenZ_written].
      rewrite !lenZ_written in Hcc; [lia|by apply (grown_wf b1)|done].
    + destruct Hcl as [He2 Hno]. split; [done|]. intros d' Hd' Hm Hr. apply (Hno d' Hd' Hm).
      by rewrite (grown_can_resize _ _ Hg).
  - destruct IH as [He1 Hno]. split; [done|]. intros d'. rewrite (view_some c ch) by done.
    destruct (view ch (written b)) as [d1|] eqn:Hv; [|done]. cbn [mbind option_bind]. intros Hcc Hm Hr.
    specialize (Hno d1 eq_refl Hm Hr).
    apply view_grows in Hv; [|lia|by rewrite lenZ_written].
    rewrite lenZ_written in Hv by done.
    apply (close_child_grows _ _ _ _ Hc) in Hcc; [lia|]. by eapply child_wf_mono, Hw.
Qed.

End spec.

