(* ===== verification/CbbBuild.v ===== *)
(** Composing builder calls.  [emits m bs] says that a call (or a sequence of
    calls) appends exactly [bs] to what the builder will have written once it is
    flushed, and that it succeeds whenever there is room.  The rules below give
    the bytes of every builder operation and of every composition of them,
    nested length-prefixed and ASN.1 children included. *)
From S2P Require Import Prelude Mem X690 Cbs Cbb CbbSpec.

Section build.
Context {libc : Libc}.

Record base_wf (b : cbb_buffer) : Prop := {
  base_buf : buf_wf b;
  base_ok : error b = false;
}.

(** A builder whose placeholders lie in the written bytes. *)
Definition st_wf (st : cbb_st) : Prop :=
  ∃ b, base st = Some b ∧ base_wf b ∧
       0 <= offset (this st) + pending_len_len (this st) <= blen b ∧
       tree_wf (this st) (blen b).

(** What the builder will have written once flushed. *)
Definition st_view (st : cbb_st) : option bytes := b ← base st; view (this st) (written b).

Record extends (st st' : cbb_st) (bs : bytes) : Prop := {
  ext_wf : st_wf st';
  ext_view : st_view st' = (λ d, d ++ bs) <$> st_view st;
  ext_handle : set_child (this st') None = set_child (this st) None;
  ext_resize : can_resize <$> base st' = can_resize <$> base st;
  ext_child : child (this st) = None → child (this st') = None;
}.

(** Room for [n] more bytes: a growable buffer and an allocator that serves it. *)
Definition roomy (st : cbb_st) (n : Z) : Prop :=
  reliable_malloc ∧ can_resize <$> base st = Some true ∧
  ∃ d, st_view st = Some d ∧ lenZ d + n <= 2 ^ 61.

Definition emits {A} (m : M cbb_st A) (bs : bytes) : Prop := ∀ st, st_wf st →
  (∀ a st', m st = (Some a, st') → extends st st' bs) ∧
  (roomy st (lenZ bs) → ∃ a st', m st = (Some a, st')).

Lemma roomy_mono st n m : n <= m → roomy st m → roomy st n.
Proof. intros Hnm (Hm & Hr & d & Hd & Hl). split_and!; [done..|]. exists d. split; [done|lia]. Qed.

Lemma roomy_extends st st' bs n :
  extends st st' bs → roomy st (lenZ bs + n) → roomy st' n.
Proof.
  intros [_ Hv _ Hr _] (Hm & Hr' & d & Hd & Hl). split_and!; [done|congruence|].
  exists (d ++ bs). rewrite Hv, Hd, lenZ_app. split; [done|lia].
Qed.

Lemma extends_trans st1 st2 st3 bs1 bs2 :
  extends st1 st2 bs1 → extends st2 st3 bs2 → extends st1 st3 (bs1 ++ bs2).
Proof.
  intros [_ Hv Hh Hr Hc] [Hwf Hv' Hh' Hr' Hc'].
  split; [done| |congruence|congruence|auto]. rewrite Hv', Hv.
  destruct (st_view st1); cbn; [|done]. by rewrite app_assoc.
Qed.

Lemma emits_ext {A} (m m' : M cbb_st A) bs : (∀ st, m st = m' st) → emits m bs → emits m' bs.
Proof. intros H Hm st Hst. rewrite <-H. by apply Hm. Qed.

Lemma emits_bind {A B} (m : M cbb_st A) (k : A → M cbb_st B) bs1 bs2 :
  emits m bs1 → (∀ a, emits (k a) bs2) → emits (m ≫= k) (bs1 ++ bs2).
Proof.
  intros Hm Hk st Hst. destruct (Hm st Hst) as [H1 H2]. split.
  - intros b st'' H. apply bind_inv in H as (a & st' & Ha & Hb). pose proof (H1 _ _ Ha) as He.
    eapply extends_trans; [done|]. by eapply (Hk a st' (ext_wf _ _ _ He)).
  - intros Hr. rewrite lenZ_app in Hr.
    destruct H2 as (a & st' & Ha); [eapply roomy_mono, Hr; pose proof (lenZ_nonneg bs2); lia|].
    pose proof (H1 _ _ Ha) as He. rewrite (bind_some _ _ _ _ _ Ha).
    apply (Hk a st' (ext_wf _ _ _ He)). by eapply roomy_extends.
Qed.

Lemma extends_refl st : st_wf st → extends st st [].
Proof.
  intros Hst. split; [done| |done|done|done]. destruct (st_view st); cbn; [|done].
  by rewrite app_nil_r.
Qed.

Lemma emits_pure {A} (f : cbb_st → A) : emits (λ st, (Some (f st), st)) [].
Proof. intros st Hst. split; [|by eauto]. intros a st' [= <- <-]. by apply extends_refl. Qed.

(** * Flushing *)

Lemma view_leaf c d : view (set_child c None) d = Some d.
Proof. by destruct c. Qed.

(** A successful flush leaves no child and has written the view. *)
Lemma flush_result st :
  st_wf st → ∃ b, base st = Some b ∧
  match CBB_flush st with
  | (Some _, st') => ∃ b', st' = {| base := Some b'; this := set_child (this st) None |} ∧
      base_wf b' ∧ can_resize b' = can_resize b ∧ blen b <= blen b' ∧
      st_view st = Some (written b')
  | (None, _) => ∀ d, st_view st = Some d → no_room b (lenZ d)
  end.
Proof.
  intros (b & Hb & [Hwf He] & Ho & Ht). exists b. split; [done|].
  pose proof (flush_flushes (this st) b Hwf He (proj1 Ho) Ht) as Hf.
  unfold CBB_flush, st_view. rewrite Hb. cbn [mbind option_bind].
  destruct (flush (this st) b) as [[ok b'] c']. destruct ok.
  - destruct Hf as (Hv & [Hwf' Hcr Her] & -> & Hl). exists b'. split_and!; try done.
    split; [done|]. congruence.
  - by destruct Hf.
Qed.





Lemma emits_flush : emits CBB_flush [].
Proof.
  intros st Hst. destruct (flush_result st Hst) as (b & Hb & Hf).
  destruct (CBB_flush st) as [[u|] st'].
  - split; [|by eauto]. intros a st'' [= <- <-]. destruct Hf as (b' & -> & Hwf & Hr & Hl & Hv).
    destruct Hst as (b0 & Hb0 & _ & Ho & _). assert (b0 = b) as -> by congruence.
    split.
    + exists b'. cbn. split_and!; [done|done|lia|lia|]. by destruct (this st).
    + rewrite Hv. unfold st_view. cbn. by rewrite app_nil_r.
    + done.
    + rewrite Hb. cbn. by rewrite Hr.
    + done.
  - split; [done|]. intros (Hm & Hr & d & Hd & Hl). exfalso.
    rewrite Hb in Hr. injection Hr as Hr. specialize (Hf d Hd Hm Hr). rewrite lenZ_nil in Hl. lia.
Qed.

(** Calls of the form [CBB_flush; <work on the buffer>]. *)
Definition appends {A} (m : M cbb_buffer A) (bs : bytes) : Prop := ∀ b, base_wf b →
  match m b with
  | (Some _, b') => grown b b' ∧ written b' = written b ++ bs
  | (None, _) => no_room b (blen b + lenZ bs)
  end.

Lemma emits_base {A} (m : M cbb_buffer A) bs :
  appends m bs → emits (CBB_flush;; with_base m) bs.
Proof.
  intros Hm st Hst.
  destruct (emits_flush st Hst) as [He Ht]. destruct (flush_result st Hst) as (b & Hb & Hf).
  destruct (CBB_flush st) as [[u|] st'] eqn:Hfl; cycle 1.
  { rewrite (bind_none _ _ _ _ Hfl). split; [done|]. intros Hr.
    destruct Ht as (? & ? & ?); [|done]. eapply roomy_mono, Hr. rewrite lenZ_nil. apply lenZ_nonneg. }
  rewrite (bind_some _ _ _ _ _ Hfl). specialize (He _ _ eq_refl).
  destruct Hf as (b' & -> & Hwf & Hr & Hl & Hv). unfold with_base. cbn.
  specialize (Hm b' Hwf). destruct (m b') as [[a|] b2].
  - destruct Hm as [Hg Hw]. split; [|by eauto]. intros a' st'' [= <- <-].
    rewrite <-(app_nil_l bs). eapply extends_trans; [exact He|]. pose proof (grown_wf _ _ Hg) as Hwf2.
    assert (blen b' <= blen b2) as Hle.
    { rewrite <-(lenZ_written b'), <-(lenZ_written b2), Hw, lenZ_app by (done || apply Hwf). llia. }
    split; cbn.
    + destruct Hst as (b0 & Hb0 & _ & Ho & _). assert (b0 = b) as -> by congruence.
      exists b2. cbn. split_and!; [done| |lia|lia|by destruct (this st)].
      split; [done|]. rewrite (grown_error _ _ Hg). apply Hwf.
    + unfold st_view. cbn. by rewrite Hw.
    + by destruct (this st).
    + by rewrite (grown_can_resize _ _ Hg).
    + done.
  - split; [done|]. intros (Hm1 & Hr1 & d & Hd & Hld). exfalso.
    rewrite Hb in Hr1. injection Hr1 as Hr1. assert (d = written b') as -> by congruence.
    rewrite lenZ_written in Hld by apply Hwf.
    specialize (Hm Hm1 ltac:(congruence)). lia.
Qed.

Lemma with_base_bind {A B} (m : M cbb_buffer A) (k : A → M cbb_buffer B) st :
  (with_base m ≫= λ a, with_base (k a)) st = with_base (m ≫= k) st.
Proof.
  unfold mbind, M_bind, with_base. destruct (base st) as [b|] eqn:Hb; [|done].
  destruct (m b) as [[a|] b']; [|done]. cbn. by destruct (k a b') as [r b''].
Qed.

Lemma bind_ext {S A B} (m : M S A) (k k' : A → M S B) s :
  (∀ a s', k a s' = k' a s') → (m ≫= k) s = (m ≫= k') s.
Proof. intros H. unfold mbind, M_bind. by destruct (m s) as [[a|] s']. Qed.

(** * Integers and raw data *)

Lemma appends_add_u v n :
  0 <= n <= 8 → 0 <= v < 256 ^ n → appends (cbb_buffer_add_u v n) (be_bytes (Z.to_nat n) v).
Proof.
  intros Hn Hv b [Hwf He]. destruct (cbb_buffer_add_u v n b) as [[u|] b'] eqn:Ha.
  - apply cbb_buffer_add_u_spec in Ha as (_ & Hg & Hw); [done|done|done|lia|done].
  - apply cbb_buffer_add_u_spec in Ha as [_ Hno]; [|done|done|lia|done].
    rewrite lenZ_be_bytes, Z2Nat.id by lia. exact (Hno (proj2 Hv)).
Qed.

Lemma emits_add_u v n :
  0 <= n <= 8 → 0 <= v < 256 ^ n → emits (cbb_add_u v n) (be_bytes (Z.to_nat n) v).
Proof. intros. by apply emits_base, appends_add_u. Qed.

Lemma emits_add_u8 v : fits 8 v → emits (CBB_add_u8 v) [v].
Proof.
  intros Hv. assert ([v] = be_bytes (Z.to_nat 1) v) as ->
    by (change (be_bytes (Z.to_nat 1) v) with [v mod 256]; f_equal; mlia).
  apply emits_add_u; [lia|done].
Qed.

Lemma appends_write n data :
  lenZ data = n → n < 2 ^ 64 →
  appends (p ← cbb_buffer_add n; modifyS (λ b, set_buf (write_at (buf b) p data) b)) data.
Proof.
  intros Hl Hn b [Hwf He]. destruct (cbb_buffer_add n b) as [[p|] b1] eqn:Ha.
  - rewrite (bind_some _ _ _ _ _ Ha). unfold modifyS.
    apply cbb_buffer_add_spec in Ha as (-> & Hg & Hbl & Hw); [|done|llia].
    by destruct (written_append b b1 n data Hwf Hg Hbl Hw Hl) as (? & _ & ?).
  - rewrite (bind_none _ _ _ _ Ha). apply cbb_buffer_add_spec in Ha as [_ Hno]; [|done|llia].
    by rewrite Hl.
Qed.

Lemma emits_add_bytes data : lenZ data < 2 ^ 64 → emits (CBB_add_bytes data) data.
Proof.
  intros Hl. eapply emits_ext; [|apply emits_base, (appends_write (lenZ data) data); done].
  intros st. apply bind_ext. intros _ s'. by rewrite <-with_base_bind.
Qed.

Lemma emits_add_zeros n : 0 <= n < 2 ^ 64 → emits (CBB_add_zeros n) (replicate (Z.to_nat n) 0).
Proof.
  intros Hn. eapply emits_ext; [|apply emits_base, (appends_write n); [llia|lia]].
  intros st. unfold CBB_add_zeros, CBB_add_space. rewrite bind_assoc.
  apply bind_ext. intros _ s'. by rewrite <-with_base_bind.
Qed.

Lemma emits_ret {A} (a : A) (k : M cbb_st A) bs : emits k bs → emits (k ≫= mret) bs.
Proof.
  intros Hk. eapply emits_ext, Hk. intros st. unfold mbind, M_bind.
  by destruct (k st) as [[x|] s'].
Qed.

(** * Children *)

Definition leaf (ofs len_len : Z) (asn1 : bool) : CBB :=
  {| child := None; offset := ofs; pending_len_len := len_len; pending_is_asn1 := asn1;
     is_child := true |}.

(** [m] writes [pre] and a placeholder of [ll] bytes, and opens the child that
    the placeholder belongs to. *)
Definition opens (m : M cbb_st ()) (pre : bytes) (ll : Z) (asn1 : bool) : Prop := ∀ st, st_wf st →
  (∀ a st', m st = (Some a, st') → ∃ d b', st_view st = Some d ∧ base_wf b' ∧
     written b' = d ++ pre ++ replicate (Z.to_nat ll) 0 ∧
     Some (can_resize b') = can_resize <$> base st ∧
     st' = {| base := Some b';
              this := set_child (this st) (Some (leaf (lenZ d + lenZ pre) ll asn1)) |}) ∧
  (roomy st (lenZ pre + ll) → ∃ a st', m st = (Some a, st')).

Lemma childless_view st b :
  base st = Some b → child (this st) = None → st_view st = Some (written b).
Proof. intros Hb Hc. unfold st_view. rewrite Hb. cbn. destruct (this st). cbn in *. by subst. Qed.

Lemma opens_intro (m : M cbb_st Z) pre ll asn1 :
  0 <= ll → emits m (pre ++ replicate (Z.to_nat ll) 0) →
  (∀ st a st', st_wf st → m st = (Some a, st') →
     child (this st') = None ∧ ∃ d, st_view st = Some d ∧ a = lenZ d + lenZ pre) →
  opens (ofs ← m; open_child ofs ll asn1) pre ll asn1.
Proof.
  intros Hll Hm Hofs st Hst. destruct (Hm st Hst) as [He Ht]. split.
  - intros [] st' H. apply bind_inv in H as (ofs & st1 & H1 & H2).
    destruct (Hofs st ofs st1 Hst H1) as (Hc & d & Hd & ->).
    destruct (He _ _ H1) as [(b1 & Hb1 & Hwf1 & _ & _) Hv Hh Hr _].
    rewrite Hd, (childless_view st1 b1) in Hv by done. injection Hv as Hv.
    unfold open_child, modifyS in H2. injection H2 as <-. exists d, b1.
    split_and!; [done|done|done| |].
    + by rewrite <-Hr, Hb1.
    + rewrite Hb1. f_equal. destruct (this st1), (this st). cbn in *. by injection Hh as -> -> -> ->.
  - intros Hr. destruct Ht as (a & st1 & H1).
    { eapply roomy_mono, Hr. rewrite lenZ_app, lenZ_replicate. lia. }
    rewrite (bind_some _ _ _ _ _ H1). by eexists _, _.
Qed.

(** Flush, then work on the buffer: the states involved. *)
Lemma base_run {A} (m : M cbb_buffer A) st a st' :
  st_wf st → (CBB_flush;; with_base m) st = (Some a, st') →
  ∃ b1 b2, base_wf b1 ∧ st_view st = Some (written b1) ∧ m b1 = (Some a, b2) ∧
           st' = {| base := Some b2; this := set_child (this st) None |}.
Proof.
  intros Hst H. destruct (flush_result st Hst) as (b & Hb & Hf).
  destruct (CBB_flush st) as [[u|] st1] eqn:Hfl; [|by rewrite (bind_none _ _ _ _ Hfl) in H].
  rewrite (bind_some _ _ _ _ _ Hfl) in H. destruct Hf as (b1 & -> & Hwf & _ & _ & Hv).
  unfold with_base in H. cbn in H. destruct (m b1) as [r b2] eqn:Hm. injection H as -> <-.
  by exists b1, b2.
Qed.

Lemma opens_length_prefixed ll :
  1 <= ll <= 3 → opens (cbb_add_length_prefixed ll) [] ll false.
Proof.
  intros Hll. set (zeros := replicate (Z.to_nat ll) 0).
  set (m := p ← cbb_buffer_add ll; modifyS (λ b, set_buf (write_at (buf b) p zeros) b);; mret p).
  assert (∀ st, (ofs ← (CBB_flush;; with_base m); open_child ofs ll false) st
              = cbb_add_length_prefixed ll st) as Heq.
  { intros st. unfold cbb_add_length_prefixed. rewrite bind_assoc. apply bind_ext. intros _ st1.
    unfold m, buffer_write, with_base, mbind, M_bind. destruct (base st1) as [b|]; [|done].
    by destruct (cbb_buffer_add ll b) as [[p|] b']. }
  assert (appends m zeros) as Ham.
  { intros b Hb. pose proof (appends_write ll zeros ltac:(unfold zeros; llia) ltac:(lia) b Hb) as Hw.
    unfold m, mbind, M_bind in *. destruct (cbb_buffer_add ll b) as [[p|] b']; [|done]. exact Hw. }
  intros st Hst. rewrite <-Heq. revert st Hst. apply opens_intro; [lia|by apply emits_base|].
  intros st a st' Hst H. apply base_run in H as (b1 & b2 & [Hwf He] & Hv & Hm & ->); [|done].
  split; [by destruct (this st)|]. exists (written b1). split; [done|].
  unfold m in Hm. minv. apply cbb_buffer_add_spec in H as (-> & _); [|done|lia].
  rewrite lenZ_written by done. rewrite lenZ_nil. lia.
Qed.

(** * Base-128 integers and tags *)

Lemma b128_len_small v : 0 <= v < 128 → b128_len v = O.
Proof. intros Hv. symmetry. apply b128_len_unique; [change (128 ^ (Z.of_nat 0 + 1)) with 128; lia|by left]. Qed.

Lemma b128_len_step v : 128 <= v → b128_len v = S (b128_len (v / 128)).
Proof.
  intros Hv. symmetry. destruct (b128_len_spec (v / 128)) as [H1 H2]; [lia|].
  set (n := b128_len (v / 128)) in *.
  assert (0 < 128 ^ Z.of_nat n) by (apply Z.pow_pos_nonneg; lia).
  rewrite Z.pow_add_r, Z.pow_1_r in H1 by lia.
  apply b128_len_unique; rewrite Nat2Z.inj_succ.
  - replace (Z.succ (Z.of_nat n) + 1) with (1 + (Z.of_nat n + 1)) by lia.
    rewrite !Z.pow_add_r, Z.pow_1_r by lia. lia.
  - right. rewrite Z.pow_succ_r by lia. destruct H2 as [Hn|H2]; [|lia].
    rewrite Hn. change (128 ^ Z.of_nat 0) with 1. lia.
Qed.

Lemma base128_count_spec f v :
  0 <= v < 128 ^ Z.of_nat f →
  base128_count f v = if 0 <? v then S (b128_len v) else O.
Proof.
  revert v. induction f as [|f IH]; intros v Hv.
  { change (128 ^ Z.of_nat 0) with 1 in Hv. by destruct (Z.ltb_spec 0 v); [lia|]. }
  rewrite Nat2Z.inj_succ, Z.pow_succ_r in Hv by lia. cbn [base128_count].
  destruct (Z.ltb_spec 0 v); [|done]. f_equal.
  rewrite shiftr_div by lia. change (2 ^ 7) with 128. rewrite IH by lia.
  destruct (Z.ltb_spec 0 (v / 128)); [by rewrite <-b128_len_step by lia|by rewrite b128_len_small by lia].
Qed.

Lemma emits_base128_emit n v : emits (base128_emit (S n) v) (b128 n v).
Proof.
  induction n as [|n IH].
  - cbn [base128_emit]. rewrite <-(app_nil_r (b128 0 v)).
    apply emits_bind; [|intros _; apply emits_pure].
    change (7 * Z.of_nat 0) with 0. cbn [Z.of_nat Z.eqb negb].
    rewrite Z.shiftr_0_r. change 0x7f with (2 ^ 7 - 1). rewrite land_mask by lia.
    change (2 ^ 7) with 128. cbn [b128]. rewrite wrap_small by mlia. apply emits_add_u8. mlia.
  - change (b128 (S n) v) with ([128 + v / 128 ^ Z.of_nat (S n) mod 128] ++ b128 n v).
    change (base128_emit (S (S n)) v) with
      (CBB_add_u8 (if negb (Z.of_nat (S n) =? 0)
                   then u8 ((v ≫ (7 * Z.of_nat (S n))) .& 0x7f) .| 0x80
                   else u8 ((v ≫ (7 * Z.of_nat (S n))) .& 0x7f));; base128_emit (S n) v).
    destruct (Z.eqb_spec (Z.of_nat (S n)) 0); [lia|]. cbn [negb].
    apply emits_bind; [|done].
    rewrite shiftr_div, Z.pow_mul_r by lia. change (2 ^ 7) with 128.
    change 0x7f with (2 ^ 7 - 1). rewrite land_mask by lia. change (2 ^ 7) with 128.
    set (x := v / 128 ^ Z.of_nat (S n)). rewrite wrap_small by mlia.
    rewrite Z.lor_comm. change 0x80 with (1 * 2 ^ 7).
    rewrite lor_mul_add by (lia || (change (2 ^ 7) with 128; lia)). change (2 ^ 7) with 128.
    apply emits_add_u8. mlia.
Qed.

Lemma emits_base128 v : fits 64 v → emits (add_base128_integer v) (base128 v).
Proof.
  intros Hv. unfold add_base128_integer, base128.
  rewrite base128_count_spec.
  2:{ split; [apply Hv|]. change (128 ^ Z.of_nat 10) with 1180591620717411303424. mlia. }
  destruct (Z.ltb_spec 0 v); [apply emits_base128_emit|].
  assert (v = 0) as -> by mlia. rewrite b128_len_small by lia. apply emits_base128_emit.
Qed.

Definition write_tag (tag : Z) : M cbb_st () :=
  let tag_bits := u8 ((tag ≫ CBS_ASN1_TAG_SHIFT) .& 0xe0) in
  let tag_number := tag .& CBS_ASN1_TAG_NUMBER_MASK in
  if 0x1f <=? tag_number then
    CBB_add_u8 (tag_bits .| 0x1f);; add_base128_integer tag_number
  else CBB_add_u8 (tag_bits .| tag_number).

Lemma emits_tag tag : fits 32 tag → emits (write_tag tag) (tag_bytes tag).
Proof.
  intros Ht. unfold write_tag, tag_bytes, CBS_ASN1_TAG_SHIFT.
  assert (u8 ((tag ≫ 24) .& 0xe0) = tag / 2 ^ 29 * 2 ^ 5) as ->.
  { rewrite shiftr_div, byte_land_e0 by (lia || (change (2 ^ 24) with 16777216; mlia)).
    change (2 ^ 24) with 16777216. change (2 ^ 29) with 536870912. change (2 ^ 5) with 32.
    rewrite wrap_small by mlia. lia. }
  change CBS_ASN1_TAG_NUMBER_MASK with (2 ^ 29 - 1). rewrite land_mask by lia.
  assert (fits 8 (tag / 2 ^ 29 * 2 ^ 5 + 31) ∧ 0 <= tag mod 2 ^ 29 ∧ fits 64 (tag mod 2 ^ 29) ∧ 0 <= tag / 2 ^ 29) as (H1 & H2 & H3 & H4)
    by (change (2 ^ 29) with 536870912; change (2 ^ 5) with 32; mlia).
  rewrite (lor_mul_add _ 0x1f) by (lia || (change (2 ^ 5) with 32; lia)).
  destruct (Z.leb_spec 0x1f (tag mod 2 ^ 29)), (Z.ltb_spec (tag mod 2 ^ 29) 31); try lia.
  - change (2 ^ 5) with 32 in *.
    apply (emits_bind _ _ [_]); [by apply emits_add_u8|]. intros _. by apply emits_base128.
  - rewrite lor_mul_add by (lia || (change (2 ^ 5) with 32; lia)). apply emits_add_u8.
    change (2 ^ 5) with 32 in *. mlia.
Qed.

Lemma CBB_add_asn1_steps tag st :
  (ofs ← (CBB_flush;; write_tag tag;; ofs ← with_base (b ← getS; mret (blen b)); CBB_add_u8 0;; mret ofs);
   open_child ofs 1 true) st = CBB_add_asn1 tag st.
Proof.
  unfold CBB_add_asn1. rewrite bind_assoc. apply bind_ext. intros _ s1.
  rewrite bind_assoc. apply bind_ext. intros _ s2. rewrite bind_assoc.
  apply bind_ext. intros ofs s3. by rewrite bind_assoc.
Qed.

Lemma opens_asn1 tag : fits 32 tag → opens (CBB_add_asn1 tag) (tag_bytes tag) 1 true.
Proof.
  intros Ht st Hst. rewrite <-CBB_add_asn1_steps. revert st Hst.
  assert (∀ A (k : Z → M cbb_st A) bs, (∀ o, emits (k o) bs) →
    emits (ofs ← with_base (b ← getS; mret (blen b)); k ofs) bs) as Hget.
  { intros A k bs Hk. rewrite <-(app_nil_l bs). apply emits_bind; [|done].
    intros st Hst. destruct Hst as (b & Hb & Hwf). unfold with_base. rewrite Hb. cbn.
    assert (st = {| base := Some b; this := this st |}) as Heq by (destruct st; cbn in *; by subst).
    split; [|by eauto]. intros a st' [= <- <-]. rewrite <-Heq. apply extends_refl. by exists b. }
  apply opens_intro; [lia| |].
  - change (replicate (Z.to_nat 1) 0) with [0]. rewrite <-(app_nil_l (_ ++ _)).
    apply emits_bind; [apply emits_flush|intros _].
    apply emits_bind; [by apply emits_tag|intros _]. apply Hget. intros o.
    rewrite <-(app_nil_r [0]). apply emits_bind; [|intros _; apply (emits_pure (λ _, o))].
    apply emits_add_u8. by apply fits_0.
  - intros st a st' Hst H. apply bind_inv in H as (u0 & st0 & H0 & H).
    destruct (emits_flush st Hst) as [He0 _]. pose proof (He0 _ _ H0) as E0.
    destruct (flush_result st Hst) as (b & Hb & Hf). rewrite H0 in Hf.
    destruct Hf as (b0 & -> & Hwf0 & _ & _ & Hv).
    apply bind_inv in H as (u1 & st1 & H1 & H).
    destruct (emits_tag tag Ht _ (ext_wf _ _ _ E0)) as [He1 _]. pose proof (He1 _ _ H1) as E1.
    apply bind_inv in H as (ofs & st2 & H2 & H).
    destruct (ext_wf _ _ _ E1) as (b1 & Hb1 & [Hwf1 Her1] & Hr1).
    unfold with_base in H2. rewrite Hb1 in H2. injection H2 as <- <-. minv.
    set (st2 := {| base := Some b1; this := this st1 |}) in *.
    assert (st_wf st2) as Hst2 by (by exists b1). unfold CBB_add_u8, cbb_add_u in H2.
    apply base_run in H2 as (b2 & b3 & _ & _ & _ & ->); [|done].
    split; [by destruct (this st2)|]. exists (written b0). split; [done|].
    assert (child (this st1) = None) as Hc1 by (apply (ext_child _ _ _ E1); by destruct (this st)).
    pose proof (ext_view _ _ _ E1) as Hv1. rewrite (childless_view st1 b1) in Hv1 by done.
    rewrite (childless_view {| base := Some b0; this := _ |} b0) in Hv1; [|done|by destruct (this st)].
    injection Hv1 as Hv1. by rewrite <-lenZ_app, <-Hv1, lenZ_written.
Qed.

(** * The rule for children *)

Lemma set_child_inj c c' : set_child c None = set_child c' None → c = set_child c' (child c).
Proof. destruct c, c'. cbn. by intros [= -> -> -> ->]. Qed.

Lemma close_leaf ofs ll asn1 ch d x w p :
  lenZ d = ofs → lenZ x = ll → prefix_for (leaf 0 ll asn1) (lenZ w) = Some p →
  close_child (set_child (leaf ofs ll asn1) ch) (d ++ x ++ w) = Some (d ++ p ++ w).
Proof. intros Hd Hx Hp. rewrite close_child_eq by done. unfold prefix_for in *. cbn in *. by rewrite Hp. Qed.

(** A handle on which nothing has been written yet, as a child is opened. *)
Definition fresh (st : cbb_st) : Prop :=
  child (this st) = None ∧
  ∃ d, st_view st = Some d ∧ lenZ d = offset (this st) + pending_len_len (this st).

(** [emits], for calls that must be the first on their handle. *)
Definition emits_fresh {A} (m : M cbb_st A) (bs : bytes) : Prop := ∀ st, st_wf st → fresh st →
  (∀ a st', m st = (Some a, st') → extends st st' bs) ∧
  (roomy st (lenZ bs) → ∃ a st', m st = (Some a, st')).

Lemma emits_emits_fresh {A} (m : M cbb_st A) bs : emits m bs → emits_fresh m bs.
Proof. intros Hm st Hst _. by apply Hm. Qed.

Section child_rule.
Context {A : Type} (m : M cbb_st ()) (pre : bytes) (ll : Z) (asn1 : bool) (body : M cbb_st A) (bs p : bytes).
Context (Hm : opens m pre ll asn1) (Hll : 1 <= ll <= 3) (H1 : asn1 = true → ll = 1).
Context (Hbody : emits_fresh body bs) (Hp : prefix_for (leaf 0 ll asn1) (lenZ bs) = Some p).

(** The child that [m] opens, ready for [body]. *)
Lemma child_ready d b1 :
  base_wf b1 → written b1 = d ++ pre ++ replicate (Z.to_nat ll) 0 →
  let st1 := {| base := Some b1; this := leaf (lenZ d + lenZ pre) ll asn1 |} in
  st_wf st1 ∧ st_view st1 = Some (d ++ pre ++ replicate (Z.to_nat ll) 0) ∧ fresh st1.
Proof.
  intros Hwf Hw st1. assert (st_view st1 = Some (d ++ pre ++ replicate (Z.to_nat ll) 0)) as Hv
    by (unfold st_view; cbn; by rewrite Hw).
  split_and!; [|done|split; [done|eexists; split; [done|cbn; llia]]].
  - exists b1. rewrite <-(lenZ_written b1), Hw, !lenZ_app, lenZ_replicate by apply Hwf.
    cbn. pose proof (lenZ_nonneg d). pose proof (lenZ_nonneg pre). split_and!; done || lia.
Qed.

(** The parent once [body] has run on the child. *)
Lemma child_written st d b1 st2 :
  st_wf st → st_view st = Some d → base_wf b1 →
  written b1 = d ++ pre ++ replicate (Z.to_nat ll) 0 →
  extends {| base := Some b1; this := leaf (lenZ d + lenZ pre) ll asn1 |} st2 bs →
  let st' := {| base := base st2; this := set_child (this st) (Some (this st2)) |} in
  st_wf st' ∧ st_view st' = Some (d ++ pre ++ p ++ bs).
Proof.
  intros Hst Hd Hwf1 Hw [(b2 & Hb2 & Hwf2 & Ho2 & Ht2) Hv Hh _ _] st'.
  destruct (child_ready d b1 Hwf1 Hw) as (_ & Hv1 & _). rewrite Hv1 in Hv. cbn in Hv.
  change (set_child (this st2) None = set_child (leaf (lenZ d + lenZ pre) ll asn1) None) in Hh.
  apply set_child_inj in Hh.
  destruct Hst as (b & Hb & Hwf & Ho & Ht). unfold st_view in Hd. rewrite Hb in Hd. cbn in Hd.
  assert (blen b <= lenZ d) as Hbd.
  { rewrite <-(lenZ_written b) by apply Hwf. apply view_grows in Hd; [done|lia|].
    rewrite lenZ_written; [done|apply Hwf]. }
  assert (blen b <= blen b2) as Hb12.
  { unfold st_view in Hv. rewrite Hb2 in Hv. cbn in Hv. rewrite Hh in Ho2. cbn in Ho2. llia. }
  split.
  - exists b2. cbn in *. rewrite Hh in Ht2, Ho2. unfold child_wf. cbn in *.
    rewrite Hh. cbn. pose proof (lenZ_nonneg pre). split_and!; done || lia.
  - unfold st', st_view in *. cbn [base this] in *. rewrite Hb2 in Hv |- *. cbn in Hv.
    cbn [mbind option_bind]. rewrite (view_some _ (this st2)), Hv by done. cbn.
    rewrite Hh, (app_assoc d pre), <-(app_assoc (d ++ pre)).
    rewrite (close_leaf _ _ _ _ (d ++ pre) _ _ p); [by rewrite <-app_assoc| | |done].
    + by rewrite lenZ_app.
    + rewrite lenZ_replicate. lia.
Qed.

Lemma emits_child : emits (m;; a ← on_child body; CBB_flush;; mret a) (pre ++ p ++ bs).
Proof.
  intros st Hst. destruct (Hm st Hst) as [Hs Ht].
  assert (ll <= lenZ p) as Hlp
    by (apply (prefix_for_len (leaf 0 ll asn1) (lenZ bs)); [done|done|apply lenZ_nonneg|done]).
  split.
  - intros a st3 H. apply bind_inv in H as (u1 & st1 & Hr1 & H).
    destruct (Hs _ _ Hr1) as (d & b1 & Hd & Hwf1 & Hw & Hcr & ->).
    apply bind_inv in H as (u2 & st2 & Hr2 & H).
    unfold on_child in Hr2. cbn in Hr2. destruct (child_ready d b1 Hwf1 Hw) as (Hwfc & _ & Hfr).
    destruct (body _) as [r st2'] eqn:Hbd. injection Hr2 as -> <-.
    pose proof (proj1 (Hbody _ Hwfc Hfr) _ _ Hbd) as He.
    destruct (child_written st d b1 st2' Hst Hd Hwf1 Hw He) as [Hwf' Hv'].
    cbv zeta in Hwf', Hv'. change (set_child (set_child (this st) _) (Some (this st2')))
      with (set_child (this st) (Some (this st2'))) in H.
    apply bind_inv in H as (u3 & st3' & H & Hret). apply ret_inv in Hret as [-> ->].
    pose proof (proj1 (emits_flush _ Hwf') _ _ H) as Ef.
    destruct (flush_result _ Hwf') as (b3 & Hb3 & Hf). rewrite H in Hf.
    destruct Hf as (b4 & -> & _). split.
    + apply Ef.
    + rewrite (ext_view _ _ _ Ef), Hv', Hd. cbn. by rewrite app_nil_r.
    + by destruct (this st).
    + rewrite (ext_resize _ _ _ Ef). cbn. rewrite (ext_resize _ _ _ He). cbn. by rewrite Hcr.
    + intros _. by destruct (this st).
  - intros Hr. rewrite !lenZ_app in Hr.
    destruct Ht as (u1 & st1 & Hr1); [eapply roomy_mono, Hr; llia|].
    rewrite (bind_some _ _ _ _ _ Hr1).
    destruct (Hs _ _ Hr1) as (d & b1 & Hd & Hwf1 & Hw & Hcr & ->).
    destruct Hr as (Hmal & Hrs & d0 & Hd0 & Hl). assert (d0 = d) as -> by congruence.
    destruct (child_ready d b1 Hwf1 Hw) as (Hwfc & Hvc & Hfr).
    destruct (proj2 (Hbody _ Hwfc Hfr)) as (u2 & st2' & Hr2).
    { split_and!; [done|cbn; congruence|]. eexists. split; [done|].
      rewrite !lenZ_app, lenZ_replicate. lia. }
    pose proof (proj1 (Hbody _ Hwfc Hfr) _ _ Hr2) as He.
    destruct (child_written st d b1 st2' Hst Hd Hwf1 Hw He) as [Hwf' Hv'].
    erewrite bind_some; [|unfold on_child; cbn; rewrite Hr2; done]. cbn.
    destruct (proj2 (emits_flush _ Hwf')) as (u3 & st3 & Hr3).
    { split_and!; [done| |].
      - cbn. rewrite (ext_resize _ _ _ He). cbn. congruence.
      - eexists. split; [exact Hv'|]. rewrite !lenZ_app, lenZ_nil. lia. }
    rewrite (bind_some _ _ _ _ _ Hr3). by eexists _, _.
Qed.
End child_rule.

Lemma emits_drop_unit (m : M cbb_st ()) (body : M cbb_st ()) bs :
  emits (m;; a ← on_child body; CBB_flush;; mret a) bs → emits (m;; on_child body;; CBB_flush) bs.
Proof.
  apply emits_ext. intros st. apply bind_ext. intros _ s1. apply bind_ext. intros [] s2.
  unfold mbind, M_bind. by destruct (CBB_flush s2) as [[[]|] s3].
Qed.

(** ASN.1 elements and length-prefixed strings, around any emitting body. *)
Lemma emits_asn1_gen {A} tag (body : M cbb_st A) bs :
  fits 32 tag → lenZ bs <= 0xfffffffe → emits_fresh body bs →
  emits (CBB_add_asn1 tag;; a ← on_child body; CBB_flush;; mret a) (der_element tag bs).
Proof.
  intros Ht Hl Hb. unfold der_element, der_header. rewrite <-app_assoc.
  apply (emits_child _ _ 1 true); [by apply opens_asn1|lia|done|done|].
  unfold prefix_for. cbn. by destruct (Z.leb_spec (lenZ bs) 4294967294); [|lia].
Qed.

Lemma emits_asn1 tag (body : M cbb_st ()) bs :
  fits 32 tag → lenZ bs <= 0xfffffffe → emits_fresh body bs →
  emits (CBB_add_asn1 tag;; on_child body;; CBB_flush) (der_element tag bs).
Proof. intros. by apply emits_drop_unit, emits_asn1_gen. Qed.

Lemma emits_length_prefixed ll (body : M cbb_st ()) bs :
  1 <= ll <= 3 → lenZ bs < 256 ^ ll → emits_fresh body bs →
  emits (cbb_add_length_prefixed ll;; on_child body;; CBB_flush)
        (be_bytes (Z.to_nat ll) (lenZ bs) ++ bs).
Proof.
  intros Hll Hl Hb. apply emits_drop_unit.
  apply (emits_child _ [] ll false); [by apply opens_length_prefixed|done|done|done|].
  unfold prefix_for. cbn. by destruct (Z.ltb_spec (lenZ bs) (256 ^ ll)); [|lia].
Qed.

(** * Calls with a result *)

(** [m] appends [bs], and its result can only be [a]. *)
Definition yields {A} (m : M cbb_st A) (a : A) (bs : bytes) : Prop :=
  emits m bs ∧ ∀ st a' st', m st = (Some a', st') → a' = a.

Lemma yields_ext {A} (m m' : M cbb_st A) a bs : (∀ st, m st = m' st) → yields m a bs → yields m' a bs.
Proof.
  intros H [He Ha]. split; [by eapply emits_ext|]. intros st a' st'. rewrite <-H. apply Ha.
Qed.

Lemma yields_ret {A} (a : A) : yields (mret a) a [].
Proof. split; [apply (emits_pure (λ _, a))|]. by intros st a' st' [<- _]%ret_inv. Qed.

Lemma yields_unit (m : M cbb_st ()) bs : emits m bs → yields m tt bs.
Proof. intros H. split; [done|]. by intros st [] st' _. Qed.

Lemma yields_bind {A B} (m : M cbb_st A) (k : A → M cbb_st B) a b bs1 bs2 :
  yields m a bs1 → yields (k a) b bs2 → yields (m ≫= k) b (bs1 ++ bs2).
Proof.
  intros [Hm Ha] [Hk Hb].
  assert (∀ st, (m ≫= k) st = (m ≫= λ _, k a) st) as Heq.
  { intros st. unfold mbind, M_bind. destruct (m st) as [[a'|] st'] eqn:H; [|done].
    by rewrite (Ha _ _ _ H). }
  split.
  - eapply emits_ext; [intros st; symmetry; apply Heq|]. by apply emits_bind.
  - intros st b' st'' H. rewrite Heq in H. apply bind_inv in H as (a' & st' & _ & H). by eapply Hb.
Qed.

Lemma yields_asn1 {A} tag (body : M cbb_st A) a bs :
  fits 32 tag → lenZ bs <= 0xfffffffe → yields body a bs →
  yields (CBB_add_asn1 tag;; a ← on_child body; CBB_flush;; mret a) a (der_element tag bs).
Proof.
  intros Ht Hl [Hb Ha]. split; [by apply emits_asn1_gen, emits_emits_fresh|].
  intros st a' st' H. minv. unfold on_child in *. destruct (child _); [|done].
  destruct (body _) as [r st2] eqn:Hr. match goal with H : (r, _) = _ |- _ => injection H as -> <- end.
  by eapply Ha.
Qed.

(** * Reading while building *)

Lemma emits_on_copy {A B} (m : M cbs A) c a c' (k : A → bytes → M cbb_st B) bs :
  m c = (Some a, c') → emits (k a c') bs → emits ('(a, c) ← on_copy m c; k a c) bs.
Proof.
  intros Hm Hk. eapply emits_ext; [|exact Hk]. intros st.
  by rewrite (bind_some _ _ _ _ _ (on_copy_some m c a c' st Hm)).
Qed.

Lemma on_copy_bind_inv {A B} (m : M cbs A) c (k : A → bytes → M cbb_st B) st b st' :
  ('(a, c) ← on_copy m c; k a c) st = (Some b, st') →
  ∃ a c', m c = (Some a, c') ∧ k a c' st = (Some b, st').
Proof.
  intros H. apply bind_inv in H as ([a c'] & st1 & H1 & H2).
  apply on_copy_iff in H1 as [H1 <-]. by exists a, c'.
Qed.

Lemma yields_on_copy {A B} (m : M cbs A) c a c' (k : A → bytes → M cbb_st B) b bs :
  m c = (Some a, c') → yields (k a c') b bs → yields ('(a, c) ← on_copy m c; k a c) b bs.
Proof.
  intros Hm Hk. eapply yields_ext; [|exact Hk]. intros st.
  by rewrite (bind_some _ _ _ _ _ (on_copy_some m c a c' st Hm)).
Qed.

(** * From [CBB_init] to [CBB_finish] *)

(** A builder call between [CBB_init] and [CBB_finish]: the bytes it produces. *)
Definition run_builder {A} (initial_capacity : Z) (m : M cbb_st A) : option bytes :=
  st ← CBB_init initial_capacity;
  match (m;; CBB_finish true true) st with
  | (Some (data, len), _) => Some (takeZ len data)
  | (None, _) => None
  end.

Lemma cbb_init_wf buf cap st :
  cap = lenZ buf → fits 64 cap → cbb_init buf cap = Some st →
  st_wf st ∧ st_view st = Some [] ∧ can_resize <$> base st = Some true ∧
  is_child (this st) = false ∧ child (this st) = None.
Proof.
  intros Hc Hf H. unfold cbb_init in H. destruct (OPENSSL_malloc _); [|done].
  injection H as <-. split_and!; try done.
  eexists. split_and!; [done| |done|cbn; lia|done].
  split; [|done]. split; cbn; [unfold fits in Hf; lia|done|done].
Qed.

Lemma CBB_init_wf n st :
  fits 64 n → CBB_init n = Some st →
  st_wf st ∧ st_view st = Some [] ∧ can_resize <$> base st = Some true ∧
  is_child (this st) = false ∧ child (this st) = None.
Proof.
  intros Hn. unfold CBB_init. destruct (OPENSSL_malloc n) as [buf|] eqn:Hm.
  - apply OPENSSL_malloc_len in Hm; [|apply Hn]. by apply cbb_init_wf.
  - destruct (Z.ltb_spec 0 n); [done|]. assert (n = 0) as -> by (unfold fits in Hn; lia).
    by apply cbb_init_wf.
Qed.

Lemma CBB_init_total n : reliable_malloc → 0 <= n <= 2 ^ 62 → is_Some (CBB_init n).
Proof.
  intros Hm Hn. unfold CBB_init. destruct (OPENSSL_malloc_reliable n Hm Hn) as [buf ->].
  unfold cbb_init. destruct (OPENSSL_malloc_reliable sizeof_cbb_buffer Hm) as [p ->]; [done|]. by eexists.
Qed.

(** Finishing a root builder hands out its view. *)
Lemma CBB_finish_view st :
  st_wf st → is_child (this st) = false →
  match CBB_finish true true st with
  | (Some (data, len), _) => st_view st = Some (takeZ len data) ∧ len = lenZ (takeZ len data)
  | (None, _) => ∀ b d, base st = Some b → st_view st = Some d → no_room b (lenZ d)
  end.
Proof.
  intros Hst Hroot. unfold CBB_finish. rewrite Hroot.
  destruct (flush_result st Hst) as (b & Hb & Hf).
  destruct (CBB_flush st) as [[u|] st'].
  - destruct Hf as (b' & -> & [Hwf' He'] & _ & _ & Hv). cbn. rewrite andb_false_r.
    fold (written b'). split; [done|]. by rewrite lenZ_written.
  - intros b0 d Hb0. assert (b0 = b) as -> by congruence. apply Hf.
Qed.

(** The same for a builder call with a result. *)
Definition with_finish {A} (m : M cbb_st A) : M cbb_st (A * bytes * Z) :=
  a ← m; '(data, len) ← CBB_finish true true; mret (a, data, len).

Lemma yields_root {A} n (m : M cbb_st A) a bs st a' st1 :
  fits 64 n → CBB_init n = Some st → yields m a bs → m st = (Some a', st1) →
  a' = a ∧ st_wf st1 ∧ is_child (this st1) = false ∧ st_view st1 = Some bs ∧
  can_resize <$> base st1 = Some true.
Proof.
  intros Hn Hst [Hm Ha] H1. destruct (CBB_init_wf n st Hn Hst) as (Hwf & Hv & Hr & Hi & Hc).
  destruct (Hm st Hwf) as [He _]. destruct (He a' st1 H1) as [Hwf1 Hv1 Hh1 Hr1 _].
  split_and!; [by eapply Ha|done| | |congruence].
  - destruct (this st), (this st1). cbn in *. by injection Hh1 as -> -> -> ->.
  - by rewrite Hv1, Hv.
Qed.

(** The length returned is that of what was written. *)
Lemma with_finish_len {A} n (m : M cbb_st A) a bs st r st' :
  fits 64 n → CBB_init n = Some st → yields m a bs → with_finish m st = (Some r, st') → r.2 = lenZ bs.
Proof.
  intros Hn Hst Hy H. apply bind_inv in H as (a' & st1 & H1 & H).
  destruct (yields_root n m a bs st a' st1 Hn Hst Hy H1) as (-> & Hwf1 & Hi1 & Hv1 & _).
  pose proof (CBB_finish_view st1 Hwf1 Hi1) as Hf.
  apply bind_inv in H as ([d l] & st2 & H2 & H). rewrite H2 in Hf. destruct Hf as [Hf Hl].
  apply ret_inv in H as [<- _]. cbn. rewrite Hl. congruence.
Qed.

Lemma with_finish_spec {A} n (m : M cbb_st A) a bs st :
  fits 64 n → CBB_init n = Some st → yields m a bs →
  (∀ r st', with_finish m st = (Some r, st') → ∃ data len, r = (a, data, len) ∧ takeZ len data = bs) ∧
  (reliable_malloc → lenZ bs <= 2 ^ 61 →
   ∃ data len st', with_finish m st = (Some (a, data, len), st') ∧ takeZ len data = bs).
Proof.
  intros Hn Hst Hy. destruct (CBB_init_wf n st Hn Hst) as (Hwf & Hv & Hr & Hi & Hc).
  pose proof (λ a' st1, yields_root n m a bs st a' st1 Hn Hst Hy) as Hrun.
  destruct Hy as [Hm _]. destruct (Hm st Hwf) as [_ Ht]. unfold with_finish.
  split.
  - intros r st' H. apply bind_inv in H as (a' & st1 & H1 & H).
    destruct (Hrun a' st1 H1) as (-> & Hwf1 & Hi1 & Hv1 & _).
    pose proof (CBB_finish_view st1 Hwf1 Hi1) as Hf.
    apply bind_inv in H as ([d l] & st2 & H2 & H). rewrite H2 in Hf. destruct Hf as [Hf _].
    apply ret_inv in H as [<- _]. exists d, l. split; congruence.
  - intros Hmal Hl. destruct Ht as (a' & st1 & H1).
    { split_and!; [done|done|]. exists []. split; [done|]. rewrite lenZ_nil. lia. }
    rewrite (bind_some _ _ _ _ _ H1). destruct (Hrun a' st1 H1) as (-> & Hwf1 & Hi1 & Hv1 & Hr1).
    pose proof (CBB_finish_view st1 Hwf1 Hi1) as Hf.
    destruct (CBB_finish true true st1) as [[[d l]|] st2] eqn:H2.
    + destruct Hf as [Hf _]. rewrite (bind_some _ _ _ _ _ H2). exists d, l, st2. split; [done|congruence].
    + exfalso. destruct (base st1) as [b|] eqn:Hb; [|done]. injection Hr1 as Hr1.
      specialize (Hf b bs eq_refl Hv1 Hmal Hr1). lia.
Qed.

Lemma run_builder_spec {A} n (m : M cbb_st A) bs :
  fits 64 n → emits m bs →
  (∀ out, run_builder n m = Some out → out = bs) ∧
  (reliable_malloc → n <= 2 ^ 62 → lenZ bs <= 2 ^ 61 → run_builder n m = Some bs).
Proof.
  intros Hn Hm.
  assert (∀ st, CBB_init n = Some st → ∀ a st1, m st = (Some a, st1) →
    st_wf st1 ∧ is_child (this st1) = false ∧ st_view st1 = Some bs ∧
    can_resize <$> base st1 = Some true) as Hrun.
  { intros st Hst a st1 H1. destruct (CBB_init_wf n st Hn Hst) as (Hwf & Hv & Hr & Hi & Hc).
    destruct (Hm st Hwf) as [He _]. destruct (He a st1 H1) as [Hwf1 Hv1 Hh1 Hr1 _].
    split_and!; [done| | |congruence].
    - destruct (this st), (this st1). cbn in *. by injection Hh1 as -> -> -> ->.
    - by rewrite Hv1, Hv. }
  unfold run_builder. split.
  - intros out. destruct (CBB_init n) as [st|] eqn:Hst; [|done]. cbn.
    destruct (m st) as [[a|] st1] eqn:H1; [|by rewrite (bind_none _ _ _ _ H1)].
    rewrite (bind_some _ _ _ _ _ H1). destruct (Hrun st eq_refl a st1 H1) as (Hwf & Hi & Hv & _).
    pose proof (CBB_finish_view st1 Hwf Hi) as Hf. destruct (CBB_finish true true st1) as [[[d l]|] st2].
    + destruct Hf as [Hf _]. intros [= <-]. congruence.
    + done.
  - intros Hmal Hn62 Hl. destruct (CBB_init_total n Hmal) as [st Hst]; [unfold fits in Hn; lia|].
    rewrite Hst. cbn. destruct (CBB_init_wf n st Hn Hst) as (Hwf & Hv & Hr & Hi & Hc).
    destruct (Hm st Hwf) as [_ Ht]. destruct Ht as (a & st1 & H1).
    { split_and!; [done|done|]. exists []. split; [done|]. rewrite lenZ_nil. lia. }
    rewrite (bind_some _ _ _ _ _ H1). destruct (Hrun st Hst a st1 H1) as (Hwf1 & Hi1 & Hv1 & Hr1).
    pose proof (CBB_finish_view st1 Hwf1 Hi1) as Hf. destruct (CBB_finish true true st1) as [[[d l]|] st2].
    + destruct Hf as [Hf _]. congruence.
    + exfalso. destruct (base st1) as [b|] eqn:Hb; [|done]. injection Hr1 as Hr1.
      specialize (Hf b bs eq_refl Hv1 Hmal Hr1). lia.
Qed.

End build.

(** * Properties *)

(** The zeroing allocator never refuses a builder. *)
Lemma calloc_reliable : @reliable_malloc calloc_libc.
Proof. intros n [Hn _]. cbn. destruct (Z.leb_spec 0 n); [by eexists|lia]. Qed.

Section properties.
Context {libc : Libc}.

End properties.


