(* ===== verification/CbbAsn1.v ===== *)
(** Typed ASN.1 output: the end of cbb.c and asn1_compat.c of
    src/HolyWater-Test/Pods/BoringSSL-GRPC/src/crypto/bytestring/.  INTEGER,
    BOOLEAN and OCTET STRING elements, the sorting of SET OF contents (shown to be in
    the order [x690_le] that X.690 prescribes), and the i2d calling convention. *)
From stdpp Require Import sorting.
From S2P Require Import Prelude Mem X690 Cbs DerRead IntRead Cbb CbbSpec CbbBuild.

Section asn1.
Context {libc : Libc}.

(** * INTEGER *)

(** The loop of [CBB_add_asn1_uint64] with [n] bytes of [value] to go, run on
    the child; the result is [started]. *)
Fixpoint add_asn1_uint64_loop (n : nat) (value : Z) (started : bool) : M cbb_st bool :=
  match n with
  | O => mret started
  | S k =>
      let byte := u8 ((value ≫ (8 * Z.of_nat k)) .& 0xff) in
      if negb started then
        if byte =? 0 then add_asn1_uint64_loop k value false
        else
          (if negb (byte .& 0x80 =? 0) then CBB_add_u8 0 else mret ());;
          CBB_add_u8 byte;;
          add_asn1_uint64_loop k value true
      else
        CBB_add_u8 byte;;
        add_asn1_uint64_loop k value true
  end.

Definition CBB_add_asn1_uint64 (value : Z) : M cbb_st () :=
  CBB_add_asn1 CBS_ASN1_INTEGER;;
  on_child (
    started ← add_asn1_uint64_loop 8 value false;
    if negb started then CBB_add_u8 0 else mret ());;
  CBB_flush.

(** [u.bytes] of an [int64_t] on a little-endian target. *)
Definition int64_bytes (value : Z) : bytes := reverse (be_bytes 8 value).

(** [while (start > 0 && (u.bytes[start] == 0xff && (u.bytes[start-1] & 0x80)))] *)
Fixpoint int64_start (start : nat) (u : bytes) : nat :=
  match start with
  | O => O
  | S s =>
      if (nthZ u (Z.of_nat start) =? 0xff) && negb (nthZ u (Z.of_nat start - 1) .& 0x80 =? 0)
      then int64_start s u else start
  end.

(** [for (i = start; i >= 0; i--)], with [n = i + 1]. *)
Fixpoint add_asn1_int64_loop (n : nat) (u : bytes) : M cbb_st () :=
  match n with
  | O => mret ()
  | S i => CBB_add_u8 (nthZ u (Z.of_nat i));; add_asn1_int64_loop i u
  end.

Definition CBB_add_asn1_int64 (value : Z) : M cbb_st () :=
  if 0 <=? value then CBB_add_asn1_uint64 value
  else
    let u := int64_bytes value in
    let start := int64_start 7 u in
    CBB_add_asn1 CBS_ASN1_INTEGER;;
    on_child (add_asn1_int64_loop (S start) u);;
    CBB_flush.

(** * OCTET STRING and BOOLEAN *)

Definition CBB_add_asn1_octet_string (data : bytes) : M cbb_st () :=
  CBB_add_asn1 CBS_ASN1_OCTETSTRING;;
  on_child (CBB_add_bytes data);;
  CBB_flush.

Definition CBB_add_asn1_bool (value : Z) : M cbb_st () :=
  CBB_add_asn1 CBS_ASN1_BOOLEAN;;
  on_child (CBB_add_u8 (if negb (value =? 0) then 0xff else 0));;
  CBB_flush.

(** * SET OF *)

Definition compare_set_of_element (a b : cbs) : Z :=
  let a_len := CBS_len a in
  let b_len := CBS_len b in
  let min_len := if a_len <? b_len then a_len else b_len in
  let ret := OPENSSL_memcmp (CBS_data a) (CBS_data b) min_len in
  if negb (ret =? 0) then ret
  else if a_len =? b_len then 0
  else if a_len <? b_len then -1 else 1.

(** [qsort]'s order.  The comparison tells any two distinct elements apart, so
    the sorted array does not depend on [qsort]'s treatment of ties. *)
Definition set_of_le (a b : cbs) : Prop := compare_set_of_element a b <= 0.
#[local] Instance set_of_le_dec a b : Decision (set_of_le a b).
Proof. unfold set_of_le. apply _. Defined.

Definition qsort_set_of (children : list cbs) : list cbs := merge_sort set_of_le children.

(** [while (CBS_len(&cbs) != 0)]: the elements read until the end.  Every round
    consumes input, so as many rounds as there are bytes are enough. *)
Fixpoint set_of_children (fuel : nat) (cbs : bytes) : option (list bytes) :=
  if CBS_len cbs =? 0 then Some []
  else
    match fuel with
    | O => None
    | S fuel =>
        match CBS_get_any_asn1_element cbs with
        | (Some el, cbs) => cons (el_out el) <$> set_of_children fuel cbs
        | (None, _) => None
        end
    end.

Definition sizeof_CBS : Z := 16.

Fixpoint add_children (children : list cbs) : M cbb_st () :=
  match children with
  | [] => mret ()
  | c :: children => CBB_add_bytes (CBS_data c);; add_children children
  end.

Definition CBB_flush_asn1_set_of : M cbb_st () :=
  CBB_flush;;
  cbb ← getS;
  let cbs := CBS_init (CBB_data cbb) (CBB_len cbb) in
  children ← liftO (set_of_children (length cbs) cbs);
  let num_children := lenZ children in
  if num_children <? 2 then mret ()
  else
    ensure (negb (UINT64_MAX / sizeof_CBS <? num_children));;
    let buf_len := CBB_len cbb in
    buf ← liftO (OPENSSL_memdup (takeZ buf_len (CBB_data cbb)));
    _ ← liftO (OPENSSL_malloc (num_children * sizeof_CBS));
    let cbs := CBS_init buf buf_len in
    children ← liftO (set_of_children (length cbs) cbs);
    let children := qsort_set_of children in
    with_base (modifyS (set_blen (size_t (offset (this cbb) + pending_len_len (this cbb)))));;
    add_children children.

(** * The i2d convention *)

(** [outp]: NULL, a pointer to NULL, or a pointer into a block at an offset. *)
Inductive i2d_out :=
  | OutNull
  | OutEmpty
  | OutBlock (block : bytes) (pos : Z).

(** The result and what [*outp] points to afterwards. *)
Definition CBB_finish_i2d (outp : i2d_out) (cbb : cbb_st) : Z * i2d_out :=
  match CBB_finish true true cbb with
  | (None, _) => (-1, outp)
  | (Some (der, der_len), _) =>
      if INT_MAX <? der_len then (-1, outp)
      else
        (der_len,
         match outp with
         | OutNull => OutNull
         | OutEmpty => OutBlock der 0
         | OutBlock block pos =>
             OutBlock (write_at block pos (takeZ der_len der)) (pos + der_len)
         end)
  end.

End asn1.

Example add_int64_ex :
  let m := @CBB_add_asn1_int64 calloc_libc (-129);; @CBB_finish calloc_libc true true in
  (λ '(d, n), takeZ n d) <$>
    (st ← @CBB_init calloc_libc 0; fst (m st)) = Some [2; 2; 0xff; 0x7f].
Proof. vm_compute. reflexivity. Qed.

Example set_of_ex :
  let m := @CBB_add_asn1 calloc_libc (0x11 .| CBS_ASN1_CONSTRUCTED);;
           on_child (@CBB_add_asn1_bool calloc_libc 1;; @CBB_add_asn1_bool calloc_libc 0;;
                     @CBB_flush_asn1_set_of calloc_libc);;
           @CBB_finish calloc_libc true true in
  (λ '(d, n), takeZ n d) <$>
    (st ← @CBB_init calloc_libc 0; fst (m st)) = Some [0x31; 6; 1; 1; 0; 1; 1; 255].
Proof. vm_compute. reflexivity. Qed.

(** * The order of SET OF elements *)

Lemma compare_cons x a y b :
  compare_set_of_element (x :: a) (y :: b) =
  if x =? y then compare_set_of_element a b else if x <? y then -1 else 1.
Proof.
  unfold compare_set_of_element, CBS_len, CBS_data, OPENSSL_memcmp. rewrite !lenZ_cons.
  pose proof (lenZ_nonneg a). pose proof (lenZ_nonneg b).
  assert (∀ n, 0 <= n → memcmp (x :: a) (y :: b) (Z.to_nat (1 + n)) =
    if x =? y then memcmp a b (Z.to_nat n) else if x <? y then -1 else 1) as Hc.
  { intros n Hn. by rewrite Z2Nat.inj_add, Nat.add_1_l by lia. }
  assert (∀ n, n = 0 → memcmp a b (Z.to_nat n) = 0) as Hz by (by intros n ->).
  replace (1 + lenZ a <? 1 + lenZ b) with (lenZ a <? lenZ b) by lia.
  replace (1 + lenZ a =? 1 + lenZ b) with (lenZ a =? lenZ b) by lia.
  set (m := if lenZ a <? lenZ b then lenZ a else lenZ b).
  assert (0 <= m) by (unfold m; destruct (Z.ltb_spec (lenZ a) (lenZ b)); lia).
  replace (if lenZ a <? lenZ b then 1 + lenZ a else 1 + lenZ b) with (1 + m)
    by (unfold m; by destruct (Z.ltb_spec (lenZ a) (lenZ b))).
  destruct (Z.eqb_spec (1 + m) 0); [lia|]. rewrite Hc by done.
  destruct (Z.eqb_spec x y) as [->|]; [|by destruct (x <? y)].
  destruct (Z.eqb_spec m 0) as [Hm|]; [|done]. by rewrite Hz.
Qed.

Lemma compare_nil_l b : compare_set_of_element [] b = if lenZ b =? 0 then 0 else -1.
Proof. by destruct b. Qed.
Lemma compare_nil_r a : compare_set_of_element a [] = if lenZ a =? 0 then 0 else 1.
Proof. by destruct a. Qed.

#[local] Instance set_of_le_total : Total set_of_le.
Proof.
  intros a. unfold set_of_le. induction a as [|x a IH]; intros b.
  - left. rewrite compare_nil_l. by destruct (_ =? _).
  - destruct b as [|y b]; [by right|]. rewrite !compare_cons.
    destruct (Z.eqb_spec x y), (Z.eqb_spec y x), (Z.ltb_spec x y), (Z.ltb_spec y x);
      lia || apply IH.
Qed.

#[local] Instance set_of_le_trans : Transitive set_of_le.
Proof.
  intros a. unfold set_of_le. induction a as [|x a IH]; intros [|y b] [|z c]; try done.
  rewrite !compare_cons. intros H1 H2.
  destruct (Z.eqb_spec x y), (Z.ltb_spec x y), (Z.eqb_spec y z), (Z.ltb_spec y z),
    (Z.eqb_spec x z), (Z.ltb_spec x z); lia || eauto.
Qed.

#[local] Instance set_of_le_antisymm : AntiSymm (=) set_of_le.
Proof.
  intros a. unfold set_of_le. induction a as [|x a IH]; intros [|y b]; try done.
  rewrite !compare_cons. intros H1 H2.
  destruct (Z.eqb_spec x y), (Z.ltb_spec x y), (Z.eqb_spec y x), (Z.ltb_spec y x); try lia.
  f_equal; [done|by apply IH].
Qed.

(** The sorted array is the only sorted arrangement of the elements. *)
Lemma qsort_set_of_unique els sorted :
  Sorted set_of_le sorted → sorted ≡ₚ els → sorted = qsort_set_of els.
Proof.
  intros Hs Hp. apply (Sorted_unique set_of_le); [done|apply Sorted_merge_sort, _|].
  rewrite Hp. symmetry. apply merge_sort_Permutation.
Qed.

Section asn1_facts.
Context {libc : Libc}.

Lemma on_child_bind {A B} (m : M cbb_st A) (k : A → M cbb_st B) st :
  (a ← on_child m; on_child (k a)) st = on_child (m ≫= k) st.
Proof.
  unfold mbind, M_bind, on_child. destruct (child (this st)) as [ch|]; [|done].
  destruct (m _) as [[a|] st']; [|done]. cbn. destruct st' as [b c]. cbn.
  by destruct (k a _) as [r st''].
Qed.

(** * INTEGER bytes *)

Lemma land_ff v : v .& 0xff = v mod 256.
Proof. change 0xff with (2 ^ 8 - 1). by rewrite land_mask. Qed.

Lemma uint64_byte v k : u8 ((v ≫ (8 * Z.of_nat k)) .& 0xff) = v / 256 ^ Z.of_nat k mod 256.
Proof.
  rewrite shiftr_div, Z.pow_mul_r by lia. change (2 ^ 8) with 256.
  rewrite land_ff. apply wrap_small. mlia.
Qed.

Lemma emits_uint64_true {A} k v (f : bool → M cbb_st A) bs :
  emits (f true) bs → emits (add_asn1_uint64_loop k v true ≫= f) (be_bytes k v ++ bs).
Proof.
  intros Hf. induction k as [|k IH]; [exact Hf|].
  cbn [add_asn1_uint64_loop negb]. rewrite uint64_byte, be_bytes_S.
  eapply emits_ext; [intros st; symmetry; apply bind_assoc|].
  apply (emits_bind _ _ [_]); [apply emits_add_u8; mlia|done].
Qed.

(** Leading zero bytes are skipped. *)
Lemma uint64_skip k n v :
  (n <= k)%nat → 0 <= v < 256 ^ Z.of_nat n →
  add_asn1_uint64_loop k v false = add_asn1_uint64_loop n v false.
Proof.
  intros Hn Hv. induction Hn as [|k Hn IH]; [done|]. cbn [add_asn1_uint64_loop negb].
  rewrite uint64_byte, Z.div_small; [done|].
  pose proof (Z.pow_le_mono_r 256 (Z.of_nat n) (Z.of_nat k)). lia.
Qed.

Lemma emits_CBB_add_asn1_uint64 v :
  fits 64 v → emits (CBB_add_asn1_uint64 v) (der_element CBS_ASN1_INTEGER (int_body v)).
Proof.
  intros Hv. assert (lenZ (int_body v) <= 9) as Hl.
  { rewrite lenZ_int_body. apply int_len_64. change (2 ^ 63) with 9223372036854775808. mlia. }
  apply emits_asn1; [done|lia|apply emits_emits_fresh]. unfold fits in Hv. rewrite pow2_64 in Hv.
  destruct (Z.eq_dec v 0) as [->|Hne].
  { change (emits (CBB_add_u8 0) [0]). apply emits_add_u8. by apply fits_0. }
  destruct (len_len_spec v) as (H1 & H2 & H3); [lia|]. set (n := len_len v) in *.
  rewrite (uint64_skip 8 n); [|apply Nat2Z.inj_le|lia].
  2:{ destruct (Z.le_gt_cases (Z.of_nat n) 8); [done|].
      pose proof (Z.pow_le_mono_r 256 8 (Z.of_nat n - 1)).
      change (256 ^ 8) with 18446744073709551616 in *. lia. }
  clearbody n. destruct n as [|k]; [lia|]. replace (Z.of_nat (S k) - 1) with (Z.of_nat k) in H2 by lia.
  rewrite Nat2Z.inj_succ, Z.pow_succ_r in H1 by lia.
  set (B := 256 ^ Z.of_nat k) in *. assert (0 < B) by (apply Z.pow_pos_nonneg; lia).
  assert (1 <= v / B < 256) as Hb
    by (split; [apply Z.div_le_lower_bound|apply Z.div_lt_upper_bound]; lia).
  cbn [add_asn1_uint64_loop negb]. rewrite uint64_byte. fold B. rewrite (Z.mod_small (v / B) 256) by lia.
  destruct (Z.eqb_spec (v / B) 0); [lia|]. rewrite byte_land_80 by mlia.
  assert (emits (CBB_add_u8 (v / B);; started ← add_asn1_uint64_loop k v true;
                 if negb started then CBB_add_u8 0 else mret ()) (be_bytes (S k) v)) as Hrest.
  { rewrite be_bytes_S. fold B. rewrite (Z.mod_small (v / B) 256) by lia.
    apply (emits_bind _ _ [_]); [apply emits_add_u8; mlia|intros _].
    rewrite <-(app_nil_r (be_bytes k v)). apply emits_uint64_true. apply (emits_pure (λ _, tt)). }
  eapply emits_ext; [intros st; symmetry; rewrite bind_assoc; apply bind_ext; intros ? s';
                     apply bind_assoc|].
  unfold int_body. destruct (Z.ltb_spec (v / B) 128) as [Hlt|Hge]; cbn [negb].
  - rewrite <-(int_len_unique (S k) v); [apply (emits_bind _ _ []); [apply (emits_pure (λ _, tt))|done]|lia|..].
    + replace (Z.of_nat (S k) - 1) with (Z.of_nat k) by lia. fold B.
      assert (v < 128 * B) by (rewrite (Z.div_mod v B) by lia; pose proof (Z.mod_pos_bound v B); nia). lia.
    + destruct k as [|k]; [by left|right]. apply int_mag_ge. left.
      replace (Z.of_nat (S (S k)) - 2) with (Z.of_nat k) by lia. unfold B in H2.
      rewrite Nat2Z.inj_succ, Z.pow_succ_r in H2 by lia. pose proof (Z.pow_pos_nonneg 256 (Z.of_nat k)). lia.
  - assert (128 * B <= v) by (rewrite (Z.div_mod v B) by lia; pose proof (Z.mod_pos_bound v B); nia).
    rewrite <-(int_len_unique (S (S k)) v); [|lia|..].
    + rewrite (be_bytes_S (S k)), Nat2Z.inj_succ, Z.pow_succ_r by lia. fold B.
      rewrite (Z.div_small v (256 * B)) by lia. apply (emits_bind _ _ [_]); [apply emits_add_u8; by apply fits_0|done].
    + replace (Z.of_nat (S (S k)) - 1) with (Z.succ (Z.of_nat k)) by lia.
      rewrite Z.pow_succ_r by lia. fold B. lia.
    + right. apply int_mag_ge. left. replace (Z.of_nat (S (S k)) - 2) with (Z.of_nat k) by lia. done.
Qed.

(** * Negative INTEGERs *)

Lemma nthZ_int64_bytes v i :
  0 <= i < 8 → nthZ (int64_bytes v) i = v / 256 ^ i mod 256.
Proof.
  intros Hi. unfold int64_bytes, nthZ.
  do 8 (rewrite be_bytes_S; cbn [Z.of_nat Pos.of_succ_nat]). cbn [be_bytes].
  assert (i = 0 ∨ i = 1 ∨ i = 2 ∨ i = 3 ∨ i = 4 ∨ i = 5 ∨ i = 6 ∨ i = 7) as Hc by lia.
  destruct_or! Hc; subst; reflexivity.
Qed.

Lemma emits_int64_loop v n :
  (n <= 8)%nat → emits (add_asn1_int64_loop n (int64_bytes v)) (be_bytes n v).
Proof.
  induction n as [|n IH]; intros Hn; [apply (emits_pure (λ _, tt))|].
  rewrite be_bytes_S. cbn [add_asn1_int64_loop]. rewrite nthZ_int64_bytes by lia.
  apply (emits_bind _ _ [_]); [apply emits_add_u8; mlia|intros _; apply IH; lia].
Qed.

Lemma int64_start_spec v n :
  (n <= 7)%nat → - 128 * 256 ^ Z.of_nat n <= v < 0 →
  S (int64_start n (int64_bytes v)) = int_len v ∧ (int64_start n (int64_bytes v) <= n)%nat.
Proof.
  induction n as [|n IH]; intros Hn Hv.
  { split; [|done]. apply int_len_unique; [done| |by left]. cbn in *. 
    change (256 ^ (Z.of_nat 1 - 1)) with 1. change (256 ^ Z.of_nat 0) with 1 in Hv. lia. }
  cbn [int64_start]. replace (Z.of_nat (S n) - 1) with (Z.of_nat n) by lia.
  rewrite !nthZ_int64_bytes, byte_land_80 by (lia || mlia).
  rewrite Nat2Z.inj_succ, Z.pow_succ_r in * by lia. set (B := 256 ^ Z.of_nat n) in *.
  assert (0 < B) by (apply Z.pow_pos_nonneg; lia).
  rewrite (Z.mul_comm 256 B), <-Z.div_div by lia.
  pose proof (Z.div_mod v B ltac:(lia)). pose proof (Z.mod_pos_bound v B ltac:(lia)).
  set (q := v / B) in *. assert (- 32768 <= q < 0) as Hq by nia.
  destruct ((q / 256 mod 256 =? 255) && negb (q mod 256 <? 128)) eqn:Hc.
  - bools. assert (-128 <= q) by lia. assert (B * (-128) <= B * q) by nia.
    destruct IH as [IH1 IH2]; [lia|lia|]. split; [done|lia].
  - split; [|done]. apply int_len_unique; [lia| |right].
    + replace (Z.of_nat (S (S n)) - 1) with (Z.succ (Z.of_nat n)) by lia.
      rewrite Z.pow_succ_r by lia. fold B. lia.
    + replace (Z.of_nat (S (S n)) - 2) with (Z.of_nat n) by lia. fold B.
      apply int_mag_ge. right. assert (q <= -129) by (apply andb_false_iff in Hc as [Hc|Hc]; bools; lia).
      assert (B * q <= B * (-129)) by nia. lia.
Qed.

Lemma emits_CBB_add_asn1_int64 v :
  - 2 ^ 63 <= v < 2 ^ 63 →
  emits (CBB_add_asn1_int64 v) (der_element CBS_ASN1_INTEGER (int_body v)).
Proof.
  intros Hv. change (2 ^ 63) with 9223372036854775808 in Hv. unfold CBB_add_asn1_int64.
  destruct (Z.leb_spec 0 v); [apply emits_CBB_add_asn1_uint64; mlia|].
  destruct (int64_start_spec v 7) as [Hs Hle]; [done| |].
  { change (256 ^ Z.of_nat 7) with 72057594037927936. lia. }
  apply emits_asn1; [done| |].
  - rewrite lenZ_int_body, <-Hs. lia.
  - unfold int_body. rewrite <-Hs. apply emits_emits_fresh, emits_int64_loop. lia.
Qed.

(** * OCTET STRING and BOOLEAN *)

Lemma emits_CBB_add_asn1_octet_string data :
  lenZ data <= 0xfffffffe →
  emits (CBB_add_asn1_octet_string data) (der_element CBS_ASN1_OCTETSTRING data).
Proof. intros Hl. apply emits_asn1; [done|done|]. apply emits_emits_fresh, emits_add_bytes. mlia. Qed.

Lemma emits_CBB_add_asn1_bool value :
  emits (CBB_add_asn1_bool value)
        (der_element CBS_ASN1_BOOLEAN [bool_byte (negb (value =? 0))]).
Proof. apply emits_asn1; [done|done|]. apply emits_emits_fresh, emits_add_u8. by destruct (value =? 0). Qed.

(** * SET OF *)

Definition is_der (e : bytes) : Prop :=
  ∃ tag c, fits 32 tag ∧ fits 32 (lenZ c) ∧ e = der_element tag c.

Lemma is_der_size e : is_der e → 2 <= lenZ e.
Proof.
  intros (tag & c & Ht & Hc & ->). unfold der_element, der_header.
  pose proof (lenZ_tag_bytes tag Ht). pose proof (lenZ_len_bytes _ Hc). llia.
Qed.

Lemma set_of_children_iff f s els :
  bytes_ok s → (length s <= f)%nat →
  set_of_children f s = Some els ↔ s = concat els ∧ Forall is_der els.
Proof.
  revert s els. induction f as [|f IH]; intros s els Hs Hf.
  { destruct s; [|cbn in Hf; lia]. cbn. split.
    - intros [= <-]. by split.
    - intros [Heq Hd]. destruct els as [|e els]; [done|]. exfalso.
      apply Forall_cons in Hd as [He%is_der_size _]. destruct e; [done|done]. }
  cbn [set_of_children]. unfold CBS_len. destruct (Z.eqb_spec (lenZ s) 0) as [Hl|Hl].
  { apply Z.eq_le_incl, lenZ_0_nil in Hl as ->. split.
    - intros [= <-]. by split.
    - intros [Heq Hd]. destruct els as [|e els]; [done|]. exfalso.
      apply Forall_cons in Hd as [He%is_der_size _]. destruct e; [done|done]. }
  split.
  - destruct (CBS_get_any_asn1_element s) as [[el|] rest] eqn:He; [|done].
    intros (els' & Hr & ->)%fmap_Some.
    apply element_read_sound in He as (tag & c & Ht & Hc & -> & ->); [|done].
    apply bytes_ok_app in Hs as [_ Hs].
    assert (is_der (der_element tag c)) as Hder by (by exists tag, c).
    apply IH in Hr as [-> Hd]; [|done|].
    + split; [done|]. by constructor.
    + pose proof (is_der_size _ Hder) as H2. unfold lenZ in H2. rewrite length_app in Hf. lia.
  - intros [-> Hd]. destruct els as [|e els]; [done|].
    apply Forall_cons in Hd as [He Hd]. pose proof (is_der_size _ He) as H2.
    destruct He as (tag & c & Ht & Hc & ->). cbn [concat] in *.
    pose proof Hs as [Hs1 Hs2]%bytes_ok_app.
    rewrite element_read_complete; [|done|done|].
    2:{ apply bytes_ok_app. split; [by eapply der_element_contents_ok|done]. }
    assert (length (concat els) <= f)%nat as Hf'
      by (unfold lenZ in H2; rewrite length_app in Hf; lia).
    cbn [el_out der_parsed]. by rewrite (proj2 (IH (concat els) els Hs2 Hf')).
Qed.

Lemma concat_permutation {A} (l k : list (list A)) : l ≡ₚ k → concat l ≡ₚ concat k.
Proof.
  induction 1 as [|x l k _ IH|x y l|l1 l2 l3 _ IH1 _ IH2]; cbn; [done|by rewrite IH| |by rewrite IH1].
  rewrite !app_assoc. apply Permutation_app_tail, Permutation_app_comm.
Qed.

Lemma emits_add_children els :
  lenZ (concat els) < 2 ^ 64 → emits (add_children els) (concat els).
Proof.
  induction els as [|e els IH]; intros Hl; [apply (emits_pure (λ _, tt))|].
  cbn [concat add_children] in *. rewrite lenZ_app in Hl.
  pose proof (lenZ_nonneg e). pose proof (lenZ_nonneg (concat els)).
  apply emits_bind; [apply emits_add_bytes; unfold CBS_data; lia|intros _; apply IH; lia].
Qed.

Lemma lenZ_permutation {A} (l k : list A) : l ≡ₚ k → lenZ l = lenZ k.
Proof. intros H. unfold lenZ. by rewrite H. Qed.

Lemma qsort_permutation els : qsort_set_of els ≡ₚ els.
Proof. apply merge_sort_Permutation. Qed.

Lemma qsort_small els : lenZ els < 2 → qsort_set_of els = els.
Proof. by destruct els as [|e [|e' els]]; [| |llia]. Qed.

Lemma num_children_le els : Forall is_der els → 2 * lenZ els <= lenZ (concat els).
Proof.
  induction 1 as [|e els He _ IH]; [done|]. cbn [concat]. apply is_der_size in He. llia.
Qed.

(** The child's contents, as [CBB_data] and [CBB_len] give them. *)
Lemma child_contents b c d x :
  buf_wf b → written b = d ++ x → lenZ d = offset c + pending_len_len c →
  let st := {| base := Some b; this := c |} in
  CBB_len st = lenZ x ∧ takeZ (lenZ x) (CBB_data st) = x.
Proof.
  intros Hwf Hw Hd st. pose proof (lenZ_written b Hwf) as Hl. pose proof Hwf as [Hb Hc Hf].
  rewrite Hw, lenZ_app in Hl. pose proof (lenZ_nonneg d). pose proof (lenZ_nonneg x). split.
  - cbn. rewrite wrap_small by mlia. lia.
  - cbn. rewrite <-Hd, <-(takeZ_dropZ (blen b) (buf b)). fold (written b). rewrite Hw.
    rewrite <-app_assoc, dropZ_app by done. by apply takeZ_app.
Qed.

(** The state in which the elements, sorted, are written again. *)
Lemma rewind st b d x :
  base_wf b → written b = d ++ x → lenZ d = offset (this st) + pending_len_len (this st) →
  child (this st) = None →
  let st' := {| base := Some (set_blen (size_t (offset (this st) + pending_len_len (this st))) b);
                this := this st |} in
  st_wf st' ∧ st_view st' = Some d.
Proof.
  intros [Hwf He] Hw Hd Hc st'. pose proof (lenZ_written b Hwf) as Hl.
  pose proof Hwf as [Hb Hcap Hf]. rewrite Hw, lenZ_app in Hl.
  pose proof (lenZ_nonneg d). pose proof (lenZ_nonneg x).
  assert (size_t (offset (this st) + pending_len_len (this st)) = lenZ d) as Ho
    by (rewrite <-Hd; apply wrap_small; mlia).
  split; [unfold st'; rewrite Ho|].
  - eexists. split; [done|]. cbn. split_and!; try lia; try done.
    + split; [|done]. split; cbn; [lia|done|done].
    + destruct (this st). cbn in Hc. by subst.
  - rewrite (childless_view st' _ eq_refl Hc). f_equal. unfold st', written. cbn. rewrite Ho.
    rewrite <-(takeZ_takeZ _ (blen b)) by lia. fold (written b). rewrite Hw. by apply takeZ_app.
Qed.

(** The run of [CBB_flush_asn1_set_of] after the initial flush. *)
Lemma set_of_run st b d els :
  base st = Some b → base_wf b → written b = d ++ concat els →
  lenZ d = offset (this st) + pending_len_len (this st) → child (this st) = None →
  bytes_ok (concat els) → Forall is_der els → lenZ (concat els) <= 2 ^ 58 →
  let st' := {| base := Some (set_blen (size_t (offset (this st) + pending_len_len (this st))) b);
                this := this st |} in
  CBB_flush_asn1_set_of st = (Some (), st) ∧ lenZ els < 2 ∨
  (∃ st1, CBB_flush_asn1_set_of st = (None, st1) ∧ ¬ reliable_malloc) ∨
  CBB_flush_asn1_set_of st = add_children (qsort_set_of els) st'.
Proof.
  intros Hb Hwf Hw Hd Hc Hok Hder Hl st'. unfold CBB_flush_asn1_set_of.
  assert (st = {| base := Some b; this := this st |}) as Hst by (destruct st; cbn in *; by subst).
  assert (CBB_flush st = (Some (), st)) as Hfl.
  { unfold CBB_flush. rewrite Hb, Hst. cbn.
    destruct (this st) as [ch o p a i]. cbn in *. subst ch. cbn. by rewrite (base_ok b Hwf). }
  destruct (child_contents b (this st) d (concat els) (base_buf _ Hwf) Hw Hd) as [Hlen Hcon].
  rewrite <-Hst in Hlen, Hcon. change (2 ^ 58) with 288230376151711744 in Hl.
  assert (set_of_children (length (concat els)) (concat els) = Some els) as Hch
    by (by apply set_of_children_iff).
  mstep Hfl. rewrite (bind_some _ _ st st st) by done. unfold CBS_init. rewrite Hlen, Hcon.
  rewrite (bind_some _ _ st els st) by (unfold liftO; by rewrite Hch).
  destruct (Z.ltb_spec (lenZ els) 2) as [Hsmall|Hbig]; [by left|right].
  pose proof (num_children_le els Hder) as Hn.
  destruct (Z.ltb_spec (UINT64_MAX / sizeof_CBS) (lenZ els)) as [Hov|_];
    [exfalso; unfold sizeof_CBS in Hov; mlia|]. cbn [negb]. mensure.
  destruct (OPENSSL_memdup (concat els)) as [p|] eqn:Hp; cycle 1.
  { left. eexists. split; [by apply bind_none|]. intros Hm. unfold OPENSSL_memdup in Hp.
    destruct (Z.eqb_spec (lenZ (concat els)) 0); [lia|].
    destruct (OPENSSL_malloc_reliable (lenZ (concat els)) Hm) as [q Hq];
      [change (2 ^ 62) with 4611686018427387904; llia|]. by rewrite Hq in Hp. }
  pose proof (OPENSSL_memdup_spec _ _ Hp) as ->.
  rewrite (bind_some _ _ st (concat els) st) by done.
  destruct (OPENSSL_malloc (lenZ els * sizeof_CBS)) as [q|] eqn:Hq; cycle 1.
  { left. eexists. split; [by apply bind_none|]. intros Hm.
    destruct (OPENSSL_malloc_reliable (lenZ els * sizeof_CBS) Hm) as [q' Hq'];
      [change (2 ^ 62) with 4611686018427387904; unfold sizeof_CBS; lia|]. by rewrite Hq in Hq'. }
  right. rewrite (bind_some _ _ st q st) by done.
  rewrite takeZ_all by lia. rewrite (bind_some _ _ st els st) by (unfold liftO; by rewrite Hch).
  unfold with_base. unfold mbind, M_bind. by rewrite Hb.
Qed.

Lemma concat_qsort_lenZ els : lenZ (concat (qsort_set_of els)) = lenZ (concat els).
Proof. apply lenZ_permutation, concat_permutation, qsort_permutation. Qed.

Lemma flush_childless st b :
  base st = Some b → base_wf b → child (this st) = None → CBB_flush st = (Some (), st).
Proof.
  intros Hb Hwf Hc. unfold CBB_flush. rewrite Hb. destruct st as [bs c]. cbn in *. subst bs.
  destruct c as [ch o p a i]. cbn in *. subst ch. cbn. by rewrite (base_ok b Hwf).
Qed.

Section set_of.
Context (st : cbb_st) (els : list bytes).
Context (Hst : st_wf st) (Hfresh : fresh st).
Context (Hok : bytes_ok (concat els)) (Hder : Forall is_der els).
Context (Hl : lenZ (concat els) <= 2 ^ 58).

(** The elements are in place and flushed in [st2]; [st3] is rewound. *)
Lemma set_of_extends st2 b d :
  base st2 = Some b → base_wf b → written b = d ++ concat els → st_view st = Some d →
  lenZ d = offset (this st2) + pending_len_len (this st2) → child (this st2) = None →
  extends st st2 (concat els) →
  (∀ a st', CBB_flush_asn1_set_of st2 = (Some a, st') →
     extends st st' (concat (qsort_set_of els))) ∧
  (roomy st (lenZ (concat els)) → ∃ a st', CBB_flush_asn1_set_of st2 = (Some a, st')).
Proof.
  intros Hb Hwf Hw Hd Hld Hc Hext.
  pose proof (set_of_run st2 b d els Hb Hwf Hw Hld Hc Hok Hder Hl) as Hrun.
  destruct (rewind st2 b d (concat els) Hwf Hw Hld Hc) as [Hwf3 Hv3]. cbv zeta in *.
  set (st3 := {| base := _; this := this st2 |}) in *.
  destruct (emits_add_children (qsort_set_of els)) with (st := st3) as [He Ht];
    [rewrite concat_qsort_lenZ; change (2 ^ 58) with 288230376151711744 in Hl; mlia|done|].
  destruct Hrun as [[Hrun Hsm]|[(st4 & Hrun & Hno)|Hrun]]; rewrite Hrun.
  - rewrite qsort_small by done. split; [|by eauto]. by intros a st' [= <- <-].
  - split; [done|]. by intros [Hm _].
  - split.
    + intros a st' H. destruct (He a st' H) as [Hwf' Hv' Hh' Hr' Hc']. split.
      * done.
      * by rewrite Hv', Hv3, Hd.
      * rewrite Hh'. apply (ext_handle _ _ _ Hext).
      * rewrite Hr', <-(ext_resize _ _ _ Hext), Hb. done.
      * intros _. by apply Hc'.
    + intros (Hm & Hr & d' & Hd' & Hld'). apply Ht. split_and!; [done| |].
      * rewrite <-Hr, <-(ext_resize _ _ _ Hext), Hb. done.
      * exists d. split; [done|]. rewrite concat_qsort_lenZ. by assert (d' = d) as -> by congruence.
Qed.

Lemma set_of_after st1 :
  extends st st1 (concat els) →
  (∀ a st', CBB_flush_asn1_set_of st1 = (Some a, st') →
     extends st st' (concat (qsort_set_of els))) ∧
  (roomy st (lenZ (concat els)) → ∃ a st', CBB_flush_asn1_set_of st1 = (Some a, st')).
Proof.
  intros Hext. destruct Hfresh as (Hch & d & Hd & Hld).
  pose proof (ext_wf _ _ _ Hext) as Hst1.
  destruct (flush_result st1 Hst1) as (b1 & Hb1 & Hf). destruct (emits_flush st1 Hst1) as [Hef Htf].
  destruct (CBB_flush st1) as [[[]|] st2] eqn:Hfl; cycle 1.
  { split.
    - intros a st' H. unfold CBB_flush_asn1_set_of in H. by rewrite (bind_none _ _ _ _ Hfl) in H.
    - intros Hr. destruct Htf as (? & ? & ?); [|done]. rewrite lenZ_nil.
      apply (roomy_extends _ _ _ _ Hext). by rewrite Z.add_0_r. }
  destruct Hf as (b2 & -> & Hwf2 & _ & _ & Hv). set (st2 := {| base := Some b2; this := _ |}) in *.
  assert (CBB_flush_asn1_set_of st1 = CBB_flush_asn1_set_of st2) as ->.
  { unfold CBB_flush_asn1_set_of. rewrite (bind_some _ _ _ _ _ Hfl).
    by rewrite (bind_some _ _ _ _ _ (flush_childless st2 b2 eq_refl Hwf2 eq_refl)). }
  rewrite (ext_view _ _ _ Hext), Hd in Hv. injection Hv as Hv.
  apply (set_of_extends st2 b2 d); [done|done|done|done| |done|].
  - rewrite Hld. pose proof (ext_handle _ _ _ Hext) as Hh. unfold st2. cbn.
    destruct (this st), (this st1). cbn in *. by injection Hh as -> -> _ _.
  - rewrite <-(app_nil_r (concat els)). eapply extends_trans; [done|]. by apply (Hef tt).
Qed.
End set_of.

(** SET OF contents written by [body] end up sorted. *)
Lemma emits_set_of (body : M cbb_st ()) els :
  emits body (concat els) → bytes_ok (concat els) → Forall is_der els →
  lenZ (concat els) <= 2 ^ 58 →
  emits_fresh (body;; CBB_flush_asn1_set_of) (concat (qsort_set_of els)).
Proof.
  intros Hbody Hok Hder Hl st Hst Hfr. destruct (Hbody st Hst) as [He Ht]. split.
  - intros a st' H. apply bind_inv in H as (u & st1 & H1 & H2). pose proof (He _ _ H1) as Hext.
    by apply (set_of_after st els Hfr Hok Hder Hl st1 Hext) in H2.
  - rewrite concat_qsort_lenZ. intros Hr. destruct (Ht Hr) as (u & st1 & H1).
    rewrite (bind_some _ _ _ _ _ H1). by apply (set_of_after st els Hfr Hok Hder Hl st1 (He _ _ H1)).
Qed.

(** * i2d *)

Lemma CBB_finish_i2d_view st d outp :
  st_wf st → is_child (this st) = false → st_view st = Some d →
  let '(ret, outp') := CBB_finish_i2d outp st in
  (ret = -1 ∧ outp' = outp ∧ (INT_MAX < lenZ d ∨ ∀ b, base st = Some b → no_room b (lenZ d))) ∨
  (ret = lenZ d ∧ ret <= INT_MAX ∧
   match outp with
   | OutNull => outp' = OutNull
   | OutEmpty => ∃ block, outp' = OutBlock block 0 ∧ takeZ ret block = d
   | OutBlock block pos => outp' = OutBlock (write_at block pos d) (pos + ret)
   end).
Proof.
  intros Hst Hroot Hd. unfold CBB_finish_i2d. pose proof (CBB_finish_view st Hst Hroot) as Hf.
  destruct (CBB_finish true true st) as [[[der len]|] st'].
  - destruct Hf as [Hv Hl]. rewrite Hd in Hv. injection Hv as Hv. rewrite <-Hv in Hl.
    destruct (Z.ltb_spec INT_MAX len); [left; split_and!; [done|done|left; lia]|right].
    split_and!; [done|lia|]. destruct outp; [done|by eexists|by rewrite <-Hv].
  - left. split_and!; [done|done|]. right. intros b Hb. by apply (Hf b d).
Qed.

(** The order of X.690, 11.6: as octet strings, the shorter one padded at its trailing end with zero octets. *)
Definition padded (n : nat) (e : bytes) : bytes := e ++ replicate (n - length e) 0.
Definition x690_le (a b : bytes) : Prop :=
  let n := Nat.max (length a) (length b) in be_value (padded n a) <= be_value (padded n b).

Lemma padded_cons n x l : padded (S n) (x :: l) = x :: padded n l.
Proof. reflexivity. Qed.
Lemma lenZ_padded n l : (length l <= n)%nat → lenZ (padded n l) = Z.of_nat n.
Proof. intros H. unfold padded, lenZ. rewrite length_app, length_replicate. lia. Qed.
Lemma padded_ok n l : bytes_ok l → bytes_ok (padded n l).
Proof. intros H. apply bytes_ok_app. split; [done|]. by apply Forall_replicate. Qed.

Lemma set_of_le_x690 a b : bytes_ok a → bytes_ok b → set_of_le a b → x690_le a b.
Proof.
  unfold set_of_le, x690_le. revert b. induction a as [|x a IH]; intros b Ha Hb Hle.
  { assert (∀ n, be_value (replicate n 0) = 0) as Hz.
    { induction n as [|n IHn]; [done|]. cbn [replicate]. rewrite be_value_cons, IHn. lia. }
    unfold padded at 1. cbn [app]. rewrite Hz. apply be_value_bound. by apply padded_ok. }
  destruct b as [|y b]; [by rewrite compare_nil_r in Hle; pose proof (lenZ_nonneg a); rewrite lenZ_cons in Hle; destruct (Z.eqb_spec (1 + lenZ a) 0); lia|].
  rewrite compare_cons in Hle. apply bytes_ok_cons in Ha as [Hx Ha]. apply bytes_ok_cons in Hb as [Hy Hb].
  cbn [length Nat.max]. rewrite !padded_cons, !be_value_cons, !lenZ_padded by lia. set (n := Nat.max (length a) (length b)).
  pose proof (be_value_bound (padded n a) (padded_ok n a Ha)) as Ba. pose proof (be_value_bound (padded n b) (padded_ok n b Hb)) as Bb.
  rewrite lenZ_padded in Ba, Bb by lia. destruct (Z.eqb_spec x y) as [->|Hne]; [specialize (IH b Ha Hb Hle); cbv zeta in IH; fold n in IH; lia|].
  destruct (Z.ltb_spec x y); [|lia]. nia.
Qed.

(** No DER encoding is another one with zero octets after it. *)
Lemma der_padded_eq a b :
  is_der a → is_der b → bytes_ok b → (length a <= length b)%nat → padded (length b) a = b → a = b.
Proof.
  intros (ta & ca & Hta & Hca & ->) (tb & cb & Htb & Hcb & ->) Hok Hl E. unfold padded in E.
  set (z := replicate _ 0) in E. pose proof Hok as Hok1. rewrite <-E in Hok1. apply bytes_ok_app in Hok1 as [H1 H2].
  pose proof (element_read_complete ta ca z Hta Hca ltac:(apply bytes_ok_app; split; [by eapply der_element_contents_ok|done])) as R1.
  pose proof (element_read_complete tb cb [] Htb Hcb ltac:(rewrite app_nil_r; by eapply der_element_contents_ok)) as R2.
  rewrite E in R1. rewrite app_nil_r, R1 in R2. assert (z = []) as Ez by congruence. clear R1 R2. rewrite Ez, app_nil_r in E. exact E.
Qed.

Lemma be_value_inj a b : bytes_ok a → bytes_ok b → length a = length b → be_value a = be_value b → a = b.
Proof. intros Ha Hb Hl E. rewrite <-(be_bytes_be_value a (length a)), <-(be_bytes_be_value b (length a)) by done. by rewrite E. Qed.

Lemma x690_antisymm a b :
  is_der a → is_der b → bytes_ok a → bytes_ok b → x690_le a b → x690_le b a → a = b.
Proof.
  intros Da Db Ha Hb H1 H2. unfold x690_le in *. rewrite (Nat.max_comm (length b)) in H2. set (n := Nat.max _ _) in *.
  assert (∀ l, (length l <= n)%nat → length (padded n l) = n) as Hp by (intros l Hl; unfold padded; rewrite length_app, length_replicate; lia).
  assert (padded n a = padded n b) as E by (apply be_value_inj; [by apply padded_ok|by apply padded_ok|rewrite !Hp by lia; done|lia]).
  assert (∀ l, padded (length l) l = l) as Hself by (intros l; unfold padded; by rewrite Nat.sub_diag, app_nil_r).
  destruct (Nat.le_ge_cases (length a) (length b)) as [Hl|Hl].
  - replace n with (length b) in E by lia. rewrite Hself in E. by apply der_padded_eq.
  - replace n with (length a) in E by lia. rewrite Hself in E. symmetry. by apply der_padded_eq.
Qed.

(** On DER encodings the comparison is that order. *)
Lemma set_of_le_iff a b : is_der a → is_der b → bytes_ok a → bytes_ok b → set_of_le a b ↔ x690_le a b.
Proof.
  intros Da Db Ha Hb. split; [by apply set_of_le_x690|]. intros H. destruct (total set_of_le a b) as [|Hba]; [done|].
  by rewrite (x690_antisymm a b Da Db Ha Hb H (set_of_le_x690 b a Hb Ha Hba)) in Hba |- *.
Qed.

Lemma sorted_x690 els : Forall (λ e, is_der e ∧ bytes_ok e) els → Sorted set_of_le els ↔ Sorted x690_le els.
Proof.
  induction 1 as [|e els [De He] Hels IH]; [done|]. assert (HdRel set_of_le e els ↔ HdRel x690_le e els) as Hd.
  { destruct Hels as [|e' els [De' He'] _]; [done|]. split; intros H; apply HdRel_inv in H; constructor; by apply set_of_le_iff. }
  split; intros H; apply Sorted_inv in H as [H1 H2]; (constructor; [by apply IH|by apply Hd]).
Qed.

End asn1_facts.

(** * Properties *)

Section properties.
Context {libc : Libc}.

(** C37. A SET OF is canonical: however its DER elements were written, flushing it yields them, none lost or
    repeated, inside one element and in the ascending order that X.690 prescribes, where encodings are
    compared as octet strings, the shorter one padded with zero octets; that is the only arrangement in
    this order, so the bytes do not depend on the writing order. *)
Theorem set_of_canonical n tag els :
  reliable_malloc → 0 <= n <= 2 ^ 62 → fits 32 tag →
  Forall is_der els → bytes_ok (concat els) → lenZ (concat els) <= 0xfffffffe →
  ∃ sorted, sorted ≡ₚ els ∧ Sorted x690_le sorted ∧
    (∀ sorted', sorted' ≡ₚ els → Sorted x690_le sorted' → sorted' = sorted) ∧
    run_builder n (CBB_add_asn1 tag;; on_child (add_children els;; CBB_flush_asn1_set_of);; CBB_flush)
      = Some (der_element tag (concat sorted)).
Proof.
  intros Hm Hn Ht Hd Hok Hl. exists (qsort_set_of els).
  assert (2 ^ 62 = 4611686018427387904 ∧ 2 ^ 61 = 2305843009213693952 ∧ 2 ^ 58 = 288230376151711744)
    as (H62 & H61 & H58) by done.
  assert (∀ l, l ≡ₚ els → Forall (λ e, is_der e ∧ bytes_ok e) l) as Hall.
  { intros l ->. apply Forall_and. split; [done|]. by apply Forall_concat. }
  pose proof (qsort_permutation els) as Hp. split; [done|]. split; [apply sorted_x690; [by apply Hall|apply Sorted_merge_sort, _]|].
  split; [intros l Hlp Hs; apply qsort_set_of_unique; [by apply sorted_x690; [apply Hall|]|done]|].
  pose proof (concat_qsort_lenZ els) as Hc. pose proof (lenZ_nonneg (concat els)).
  assert (fits 32 (lenZ (concat (qsort_set_of els)))) as Hf by mlia.
  pose proof (lenZ_tag_bytes tag Ht). pose proof (lenZ_len_bytes _ Hf).
  apply run_builder_spec; [mlia| |done|lia|].
  - apply emits_asn1; [done|lia|]. apply emits_set_of; [apply emits_add_children; mlia|done|done|lia].
  - unfold der_element. rewrite lenZ_app, lenZ_der_header. lia.
Qed.

(** [CBB_finish_i2d] returns the length of the encoding, or -1 with [*outp]
    untouched when the encoding is longer than an [int] or could not be finished.
    On success a NULL [outp] gets nothing, a pointer to NULL gets a block that
    starts with the encoding and is not advanced, and a pointer into a buffer has
    the encoding written there and is advanced past it. *)
Theorem finish_i2d_exact st d outp :
  st_wf st → is_child (this st) = false → st_view st = Some d →
  let '(ret, outp') := CBB_finish_i2d outp st in
  (ret = -1 ∧ outp' = outp ∧ (INT_MAX < lenZ d ∨ ∀ b, base st = Some b → no_room b (lenZ d))) ∨
  (ret = lenZ d ∧ ret <= INT_MAX ∧
   match outp with
   | OutNull => outp' = OutNull
   | OutEmpty => ∃ block, outp' = OutBlock block 0 ∧ takeZ ret block = d
   | OutBlock block pos => outp' = OutBlock (write_at block pos d) (pos + ret)
   end).
Proof. apply CBB_finish_i2d_view. Qed.
End properties.

Lemma set_of_canonical_witness :
  ∃ sorted, sorted ≡ₚ [[2; 1; 7]; [2; 1; 5]] ∧ Sorted x690_le sorted ∧
    (∀ sorted', sorted' ≡ₚ [[2; 1; 7]; [2; 1; 5]] → Sorted x690_le sorted' → sorted' = sorted) ∧
    @run_builder calloc_libc _ 0
      (@CBB_add_asn1 calloc_libc (0x11 + 2 ^ 29);;
       on_child (@add_children calloc_libc [[2; 1; 7]; [2; 1; 5]];; @CBB_flush_asn1_set_of calloc_libc);;
       @CBB_flush calloc_libc) = Some (der_element (0x11 + 2 ^ 29) (concat sorted)).
Proof.
  apply (@set_of_canonical calloc_libc 0 (0x11 + 2 ^ 29) [[2; 1; 7]; [2; 1; 5]] calloc_reliable).
  - decide_now.
  - decide_now.
  - repeat constructor; [exists 2, [7]|exists 2, [5]]; (split; [decide_now|split; [decide_now|vm_compute; reflexivity]]).
  - decide_now.
  - decide_now.
Defined.

Lemma finish_i2d_exact_witness :
  let st := {| base := Some {| buf := [5; 0]; blen := 2; cap := 2; can_resize := true; error := false |};
               this := {| child := None; offset := 0; pending_len_len := 0; pending_is_asn1 := false;
                          is_child := false |} |} in
  let '(ret, outp') := @CBB_finish_i2d calloc_libc OutEmpty st in
  (ret = -1 ∧ outp' = OutEmpty ∧ (INT_MAX < 2 ∨ ∀ b, base st = Some b → @no_room calloc_libc b 2)) ∨
  (ret = 2 ∧ ret <= INT_MAX ∧ ∃ block, outp' = OutBlock block 0 ∧ takeZ ret block = [5; 0]).
Proof.
  intros st. apply (@finish_i2d_exact calloc_libc st [5; 0] OutEmpty).
  - eexists. split; [reflexivity|]. repeat split; vm_compute; congruence.
  - reflexivity.
  - vm_compute. reflexivity.
Defined.
