(* ===== verification/Oid.v ===== *)
(** OBJECT IDENTIFIERs: their DER bodies and their dotted decimal text, from
    cbb.c and cbs.c of src/HolyWater-Test/Pods/BoringSSL-GRPC/src/crypto/bytestring/. *)
From S2P Require Import Prelude Mem X690 Cbs DerRead Cbb CbbSpec CbbBuild.

Definition dot : Z := 46.
Definition zero_char : Z := 48.
Definition nine_char : Z := 57.

(** * Reading dotted decimal text *)

(** The [for (;;)] of [parse_dotted_decimal]. *)
Fixpoint parse_dotted_loop (cbs : bytes) (out : Z) (seen_digit : bool) : option Z * bytes :=
  match cbs with
  | [] => (if seen_digit then Some out else None, [])
  | u :: cbs =>
      if (u =? dot) && (0 <? CBS_len cbs) then (if seen_digit then Some out else None, cbs)
      else if (u <? zero_char) || (nine_char <? u) || (seen_digit && (out =? 0))
              || (UINT64_MAX / 10 <? out) || (UINT64_MAX - (u - zero_char) <? u64 (out * 10))
      then (None, cbs)
      else parse_dotted_loop cbs (u64 (u64 (out * 10) + (u - zero_char))) true
  end.

Definition parse_dotted_decimal : M cbs Z := λ cbs, parse_dotted_loop cbs 0 false.

Section oid.
Context {libc : Libc}.

(** [while (CBS_len(&cbs) > 0)]; every component consumes input. *)
Fixpoint oid_components (fuel : nat) (cbs : bytes) : M cbb_st () :=
  if CBS_len cbs =? 0 then mret ()
  else
    match fuel with
    | O => ret0
    | S fuel =>
        '(a, cbs) ← on_copy parse_dotted_decimal cbs;
        add_base128_integer a;;
        oid_components fuel cbs
    end.

Definition CBB_add_asn1_oid_from_text (text : bytes) (len : Z) : M cbb_st () :=
  CBB_flush;;
  let cbs := CBS_init text len in
  '(a, cbs) ← on_copy parse_dotted_decimal cbs;
  '(b, cbs) ← on_copy parse_dotted_decimal cbs;
  ensure (negb ((2 <? a) || ((a <? 2) && (39 <? b)) || (UINT64_MAX - 80 <? b)));;
  add_base128_integer (u64 (u64 (40 * a) + b));;
  oid_components (length cbs) cbs.

(** * Writing text *)

(** What printf's ["%" PRIu64] prints: decimal digits without leading zeros. *)
Fixpoint dec_digits (fuel : nat) (v : Z) : bytes :=
  match fuel with
  | O => []
  | S fuel => if v <? 10 then [zero_char + v] else dec_digits fuel (v / 10) ++ [zero_char + v mod 10]
  end.
Definition decimal (v : Z) : bytes := dec_digits 20 v.

Definition DECIMAL_SIZE_uint64 : Z := (8 * 8 + 2) / 3 + 1.

Definition add_decimal (v : Z) : M cbb_st () :=
  let buf := takeZ DECIMAL_SIZE_uint64 (decimal v) ++ [0] in
  CBB_add_bytes (takeZ (strlen buf) buf).

Fixpoint oid_text_loop (fuel : nat) (copy : bytes) : M cbb_st () :=
  if CBS_len copy =? 0 then mret ()
  else
    match fuel with
    | O => ret0
    | S fuel =>
        '(v, copy) ← on_copy parse_base128_integer copy;
        CBB_add_u8 dot;;
        add_decimal v;;
        oid_text_loop fuel copy
    end.

(** The text, as a NUL-terminated block. *)
Definition CBS_asn1_oid_to_text (cbs : cbs) : option bytes :=
  cbb ← CBB_init 32;
  let run :=
    '(v, copy) ← on_copy parse_base128_integer cbs;
    (if 80 <=? v then CBB_add_bytes [50; dot];; add_decimal (v - 80)
     else add_decimal (v / 40);; CBB_add_u8 dot;; add_decimal (v mod 40));;
    oid_text_loop (length copy) copy;;
    CBB_add_u8 0;;
    CBB_finish true true in
  match run cbb with
  | (Some (txt, _), _) => Some txt
  | (None, _) => None
  end.

End oid.

(** ["1.2.840"] *)
Example oid_from_text_ex :
  @run_builder calloc_libc _ 0 (@CBB_add_asn1_oid_from_text calloc_libc
     [49; 46; 50; 46; 56; 52; 48] 7) = Some [42; 134; 72].
Proof. vm_compute. reflexivity. Qed.
Example oid_to_text_ex :
  (λ t, takeZ (strlen t) t) <$> @CBS_asn1_oid_to_text calloc_libc [42; 134; 72]
  = Some [49; 46; 50; 46; 56; 52; 48].
Proof. vm_compute. reflexivity. Qed.

(** * The abstract OID *)

(** A sequence of arcs that fits the encoding of the first two and the width of
    the implementation. *)
Definition oid_valid (arcs : list Z) : Prop :=
  match arcs with
  | a :: b :: rest =>
      0 <= a <= 2 ∧ 0 <= b <= UINT64_MAX - 80 ∧ (a < 2 → b <= 39) ∧ Forall (fits 64) rest
  | _ => False
  end.

#[global] Instance oid_valid_dec arcs : Decision (oid_valid arcs).
Proof. destruct arcs as [|a [|b rest]]; cbn; apply _. Defined.

Definition oid_body (arcs : list Z) : bytes :=
  match arcs with
  | a :: b :: rest => base128 (40 * a + b) ++ concat (base128 <$> rest)
  | _ => []
  end.

Definition dotted (rest : list Z) : bytes := concat ((λ v, dot :: decimal v) <$> rest).
Definition oid_text (arcs : list Z) : bytes :=
  match arcs with [] => [] | a :: rest => decimal a ++ dotted rest end.

(** * Decimal numerals *)

Lemma dec_digits_fuel n f v :
  (1 <= n <= f)%nat → 0 <= v < 10 ^ Z.of_nat n → dec_digits f v = dec_digits n v.
Proof.
  revert f v. induction n as [|n IH]; intros [|f] v Hf Hv; try lia. cbn [dec_digits].
  destruct (Z.ltb_spec v 10) as [|Hge]; [done|]. f_equal.
  rewrite Nat2Z.inj_succ, Z.pow_succ_r in Hv by lia.
  destruct n as [|n]; [change (10 ^ Z.of_nat 0) with 1 in Hv; lia|].
  apply IH; [lia|]. split; [apply Z.div_pos; lia|apply Z.div_lt_upper_bound; lia].
Qed.

Lemma decimal_digit d : 0 <= d < 10 → decimal d = [zero_char + d].
Proof. intros Hd. unfold decimal. cbn [dec_digits]. by destruct (Z.ltb_spec d 10); [|lia]. Qed.

Lemma decimal_snoc v d :
  0 < v → 0 <= d < 10 → fits 64 (v * 10 + d) → decimal (v * 10 + d) = decimal v ++ [zero_char + d].
Proof.
  intros Hv Hd Hf. unfold decimal at 1.
  change (dec_digits 20 (v * 10 + d)) with
    (if v * 10 + d <? 10 then [zero_char + (v * 10 + d)]
     else dec_digits 19 ((v * 10 + d) / 10) ++ [zero_char + (v * 10 + d) mod 10]).
  destruct (Z.ltb_spec (v * 10 + d) 10); [lia|].
  replace ((v * 10 + d) / 10) with v by lia. replace ((v * 10 + d) mod 10) with d by lia.
  unfold decimal. rewrite (dec_digits_fuel 19 20); [done|lia|].
  change (10 ^ Z.of_nat 19) with 10000000000000000000. mlia.
Qed.

(** The last digit of a numeral. *)
Lemma decimal_cases v :
  fits 64 v → (v < 10 ∧ decimal v = [zero_char + v]) ∨
              (0 < v / 10 ∧ decimal v = decimal (v / 10) ++ [zero_char + v mod 10]).
Proof.
  intros Hv. destruct (Z.lt_ge_cases v 10); [left|right].
  - split; [done|]. apply decimal_digit. mlia.
  - split; [mlia|]. rewrite <-decimal_snoc; [f_equal; lia|mlia|mlia|].
    by replace (v / 10 * 10 + v mod 10) with v by lia.
Qed.

(** Induction on a numeral, from its first digit on. *)
Lemma decimal_ind (P : Z → Prop) :
  (∀ d, 0 <= d < 10 → P d) →
  (∀ v d, 0 < v → 0 <= d < 10 → fits 64 (v * 10 + d) → P v → P (v * 10 + d)) →
  ∀ v, fits 64 v → P v.
Proof.
  intros Hd Hs v. unfold fits. intros [H0 H1]. revert H1. pattern v. apply Zlt_0_ind; [|done].
  clear v H0. intros v IH H0 H1. destruct (Z.lt_ge_cases v 10); [apply Hd; lia|].
  replace v with (v / 10 * 10 + v mod 10) by lia. apply Hs; [lia|lia| |apply IH; lia].
  split; [lia|]. by replace (v / 10 * 10 + v mod 10) with v by lia.
Qed.

Lemma decimal_ne v : fits 64 v → decimal v ≠ [].
Proof.
  intros Hv. destruct (decimal_cases v Hv) as [[_ ->]|[_ ->]]; [done|].
  by destruct (decimal (v / 10)).
Qed.

Lemma lenZ_decimal_pos v : fits 64 v → 0 < lenZ (decimal v).
Proof. intros Hv. pose proof (decimal_ne v Hv). destruct (decimal v); [done|llia]. Qed.

Definition is_digit (c : Z) : Prop := zero_char <= c <= nine_char.

Lemma decimal_digits v : fits 64 v → Forall is_digit (decimal v).
Proof.
  revert v. apply decimal_ind.
  - intros d Hd. rewrite decimal_digit by done. repeat constructor; unfold zero_char, nine_char; lia.
  - intros v d Hv Hd Hf IH. rewrite decimal_snoc by done. apply Forall_app. split; [done|].
    repeat constructor; unfold zero_char, nine_char; lia.
Qed.

Lemma length_decimal v : fits 64 v → lenZ (decimal v) <= 20.
Proof.
  intros Hv. assert (∀ f w, lenZ (dec_digits f w) <= Z.of_nat f) as H.
  { induction f as [|f IH]; intros w; cbn [dec_digits]; [done|]. destruct (w <? 10).
    - rewrite lenZ_cons, lenZ_nil. lia.
    - rewrite lenZ_app, lenZ_cons, lenZ_nil. specialize (IH (w / 10)). lia. }
  apply (H 20%nat).
Qed.

(** The value of a string of digits. *)
Definition dval (l : bytes) : Z := fold_left (λ acc c, acc * 10 + (c - zero_char)) l 0.

Lemma dval_decimal v : fits 64 v → dval (decimal v) = v.
Proof.
  revert v. apply decimal_ind.
  - intros d Hd. rewrite decimal_digit by done. unfold dval. cbn. lia.
  - intros v d Hv Hd Hf IH. rewrite decimal_snoc by done. unfold dval in *.
    rewrite fold_left_app, IH. cbn. lia.
Qed.

Lemma decimal_inj v w : fits 64 v → fits 64 w → decimal v = decimal w → v = w.
Proof. intros Hv Hw H. rewrite <-(dval_decimal v), <-(dval_decimal w) by done. by rewrite H. Qed.

Lemma dval_acc_le l acc :
  0 <= acc → Forall is_digit l → acc <= fold_left (λ acc c, acc * 10 + (c - zero_char)) l acc.
Proof.
  revert acc. induction l as [|c l IH]; intros acc Ha Hl; cbn [fold_left]; [done|].
  apply Forall_cons in Hl as [Hc Hl]. unfold is_digit, zero_char in *.
  etransitivity; [|apply IH; [|done]]; lia.
Qed.

Lemma decimal_no_leading_zero w c l : fits 64 w → decimal w = c :: l → l ≠ [] → c ≠ zero_char.
Proof.
  intros Hw. revert c l. revert w Hw. apply (decimal_ind (λ w, ∀ c l, decimal w = c :: l → l ≠ [] → c ≠ zero_char)).
  - intros d Hd c l. rewrite decimal_digit by done. by intros [= <- <-].
  - intros v d Hv Hd Hf IH c l. rewrite decimal_snoc by done. intros H _.
    destruct (decimal v) as [|c' l'] eqn:Hdv; [destruct (decimal_ne v); [mlia|done]|].
    injection H as -> Hl. destruct l' as [|c2 l']; [|by apply (IH c (c2 :: l'))].
    intros ->. pose proof (dval_decimal v ltac:(mlia)) as H0. rewrite Hdv in H0.
    change (dval [zero_char]) with 0 in H0. lia.
Qed.

(** A digit that continues a numeral. *)
Lemma decimal_prefix v w u ds :
  fits 64 v → fits 64 w → decimal w = decimal v ++ u :: ds →
  is_digit u ∧ 0 < v ∧ fits 64 (v * 10 + (u - zero_char)) ∧
  decimal (v * 10 + (u - zero_char)) = decimal v ++ [u].
Proof.
  intros Hv Hw H. pose proof (decimal_digits w Hw) as Hd. rewrite H in Hd.
  apply Forall_app in Hd as [Hdv [Hu Hds]%Forall_cons].
  assert (0 < v) as Hpos.
  { destruct (Z.eq_dec v 0) as [->|]; [exfalso|mlia].
    by apply (decimal_no_leading_zero w zero_char (u :: ds)). }
  assert (v * 10 + (u - zero_char) <= w) as Hle.
  { rewrite <-(dval_decimal w), H by done. unfold dval. rewrite fold_left_app.
    fold (dval (decimal v)). rewrite dval_decimal by done. cbn [fold_left].
    apply dval_acc_le; [|done]. unfold is_digit, zero_char in *. lia. }
  assert (fits 64 (v * 10 + (u - zero_char))) as Hf by (unfold is_digit, zero_char in *; mlia).
  split_and!; [done..|].
  rewrite decimal_snoc; [|done|unfold is_digit, zero_char, nine_char in *; lia|done].
  do 2 f_equal. lia.
Qed.

(** * The text reader *)

(** What follows a component: nothing, or a dot and at least one byte. *)
Definition after_component (rest : bytes) : bytes := match rest with [] => [] | _ => dot :: rest end.

Lemma digit_step v u :
  fits 64 v → is_digit u → (UINT64_MAX / 10 <? v) || (UINT64_MAX - (u - zero_char) <? u64 (v * 10)) = false →
  u64 (u64 (v * 10) + (u - zero_char)) = v * 10 + (u - zero_char) ∧ fits 64 (v * 10 + (u - zero_char)).
Proof.
  intros Hv Hu H. unfold is_digit, zero_char, nine_char in *. bools.
  rewrite !wrap_small in * by mlia. split; [done|mlia].
Qed.

Lemma no_overflow v u :
  0 <= v → is_digit u → fits 64 (v * 10 + (u - zero_char)) →
  (UINT64_MAX / 10 <? v) || (UINT64_MAX - (u - zero_char) <? u64 (v * 10)) = false.
Proof.
  intros Hv Hu Hf. unfold is_digit, zero_char, nine_char in *.
  apply orb_false_iff. rewrite !Z.ltb_ge. rewrite wrap_small by mlia. mlia.
Qed.

Lemma digit_test u : (u <? zero_char) || (nine_char <? u) = false ↔ is_digit u.
Proof. rewrite orb_false_iff, !Z.ltb_ge. done. Qed.

(** Reading on after the numeral of [v]. *)
Lemma dotted_loop_iff s v w rest :
  fits 64 v →
  parse_dotted_loop s v true = (Some w, rest) ↔
  ∃ ds, s = ds ++ after_component rest ∧ fits 64 w ∧ decimal w = decimal v ++ ds.
Proof.
  revert v. induction s as [|u s IH]; intros v Hv; cbn [parse_dotted_loop]; split.
  - intros [= <- <-]. exists []. split_and!; [done..|by rewrite app_nil_r].
  - intros (ds & H & Hw & Hd). symmetry in H. apply app_eq_nil in H as [-> Hr].
    destruct rest; [|done]. rewrite app_nil_r in Hd. by apply decimal_inj in Hd as ->.
  - destruct ((u =? dot) && (0 <? CBS_len s)) eqn:Hdot.
    { bools. subst u. intros [= <- <-]. exists []. rewrite app_nil_r. split_and!; [by destruct s|done|done]. }
    destruct (_ || _) eqn:Hbad; [done|]. apply orb_false_iff in Hbad as [Hbad H4].
    apply orb_false_iff in Hbad as [Hbad H3]. apply orb_false_iff in Hbad as [H1 H2].
    apply digit_test in H1. cbn [andb] in H2. bools. 
    destruct (digit_step v u Hv H1) as [-> Hf]; [by rewrite orb_false_iff, !Z.ltb_ge|].
    rewrite IH by done. intros (ds & -> & Hw & Hd). exists (u :: ds). split_and!; [done..|].
    rewrite Hd, decimal_snoc; [|mlia|unfold is_digit, zero_char, nine_char in *; lia|done].
    rewrite <-app_assoc. cbn. do 2 f_equal. lia.
  - intros ([|u' ds] & H & Hw & Hd).
    + rewrite app_nil_r in Hd. apply decimal_inj in Hd as ->; [|done|done].
      destruct rest as [|r rest]; [done|]. injection H as -> ->.
      assert ((0 <? CBS_len (r :: rest)) = true) as -> by (apply Z.ltb_lt; unfold CBS_len; llia). done.
    + injection H as <- ->. destruct (decimal_prefix v w u ds Hv Hw Hd) as (Hu & Hpos & Hf & Hs).
      assert ((u =? dot) = false) as -> by (apply Z.eqb_neq; unfold is_digit, zero_char, dot in *; lia).
      cbn [andb]. rewrite (proj2 (digit_test u) Hu). cbn [orb].
      destruct (Z.eqb_spec v 0); [lia|]. cbn [orb]. rewrite (no_overflow v u) by (done || lia).
      destruct (digit_step v u Hv Hu) as [-> _]; [by apply no_overflow; [lia|..]|].
      apply IH; [done|]. exists ds. split_and!; [done..|]. by rewrite Hs, <-app_assoc.
Qed.

Lemma parse_dotted_iff s w rest :
  parse_dotted_decimal s = (Some w, rest) ↔ s = decimal w ++ after_component rest ∧ fits 64 w.
Proof.
  unfold parse_dotted_decimal. destruct s as [|u s]; cbn [parse_dotted_loop].
  { split; [done|]. intros [H Hw]. symmetry in H. apply app_eq_nil in H as [H _].
    by destruct (decimal_ne w). }
  destruct ((u =? dot) && (0 <? CBS_len s)) eqn:Hdot; cbn [andb].
  { split; [done|]. intros [H Hw]. bools. subst u. pose proof (decimal_digits w Hw) as Hd.
    destruct (decimal w) as [|c l] eqn:Hdw; [by destruct (decimal_ne w)|].
    injection H as <- _. apply Forall_cons in Hd as [Hd _]. unfold is_digit, zero_char, dot in Hd. lia. }
  rewrite orb_false_r. change (UINT64_MAX / 10 <? 0) with false. rewrite orb_false_r.
  change (u64 (0 * 10)) with 0.
  assert (∀ u, is_digit u → (UINT64_MAX - (u - zero_char) <? 0) = false ∧
     u64 (0 + (u - zero_char)) = u - zero_char ∧ fits 64 (u - zero_char) ∧
     decimal (u - zero_char) = [u]) as Hdig.
  { intros u' Hu. unfold is_digit, zero_char, nine_char in *. rewrite decimal_digit by lia.
    split_and!; try mlia. unfold zero_char. f_equal. lia. }
  split.
  - destruct (_ || _) eqn:Hbad; [done|]. apply orb_false_iff in Hbad as [H1 H2].
    apply digit_test in H1. destruct (Hdig u H1) as (_ & -> & Hf & Hd).
    rewrite dotted_loop_iff by done. intros (ds & -> & Hw & Hdw). rewrite Hdw, Hd. done.
  - intros [H Hw]. pose proof (decimal_digits w Hw) as Hdg.
    destruct (decimal w) as [|c l] eqn:Hdw; [by destruct (decimal_ne w)|].
    injection H as <- ->. apply Forall_cons in Hdg as [Hu _].
    destruct (Hdig u Hu) as (H1 & H2 & Hf & Hd).
    rewrite (proj2 (digit_test u) Hu), H1, H2. cbn [orb]. apply dotted_loop_iff; [done|].
    exists l. rewrite Hdw, Hd. done.
Qed.

(** * From text to body *)

Lemma after_component_text rest :
  Forall (fits 64) rest → after_component (oid_text rest) = dotted rest.
Proof.
  destruct rest as [|x rest]; [done|]. intros [Hx _]%Forall_cons. cbn [oid_text].
  unfold dotted. cbn [fmap list_fmap concat]. fold (dotted rest).
  pose proof (decimal_ne x Hx) as Hne. by destruct (decimal x).
Qed.

Section oid_facts.
Context {libc : Libc}.

Lemma emits_oid_components f rest :
  (length (oid_text rest) <= f)%nat → Forall (fits 64) rest →
  emits (oid_components f (oid_text rest)) (concat (base128 <$> rest)).
Proof.
  revert rest. induction f as [|f IH]; intros [|x rest] Hf Hr; try (apply (emits_pure (λ _, tt))).
  - apply Forall_cons in Hr as [Hx _]. pose proof (lenZ_decimal_pos x Hx). cbn [oid_text] in Hf.
    rewrite length_app in Hf. unfold lenZ in *. lia.
  - apply Forall_cons in Hr as [Hx Hr]. cbn [oid_text] in *. cbn [oid_components fmap list_fmap concat].
    pose proof (lenZ_decimal_pos x Hx) as Hpos.
    assert ((CBS_len (decimal x ++ dotted rest) =? 0) = false) as ->
      by (apply Z.eqb_neq; unfold CBS_len; llia).
    apply (emits_on_copy _ _ x (oid_text rest)).
    { apply parse_dotted_iff. by rewrite after_component_text. }
    apply emits_bind; [by apply emits_base128|intros _]. apply IH; [|done].
    rewrite <-after_component_text, length_app in Hf by done. unfold lenZ in Hpos.
    destruct (oid_text rest); cbn in *; lia.
Qed.

Lemma oid_components_text f s st u st' :
  oid_components f s st = (Some u, st') → ∃ rest, Forall (fits 64) rest ∧ s = oid_text rest.
Proof.
  revert s st. induction f as [|f IH]; intros s st; cbn [oid_components]; unfold CBS_len;
    (destruct (Z.eqb_spec (lenZ s) 0) as [Hl|]; [intros _; exists []; by apply Z.eq_le_incl, lenZ_0_nil in Hl as ->|]).
  { by intros []%ret0_inv. }
  intros H. apply on_copy_bind_inv in H as (a & s' & Hp & H).
  apply parse_dotted_iff in Hp as [-> Ha]. apply bind_inv in H as (u1 & st1 & _ & H).
  apply IH in H as (rest & Hr & ->). exists (a :: rest). split; [by constructor|].
  by rewrite after_component_text.
Qed.

Lemma oid_arcs_test a b :
  fits 64 a → fits 64 b →
  negb ((2 <? a) || ((a <? 2) && (39 <? b)) || (UINT64_MAX - 80 <? b)) = true ↔ oid_valid [a; b].
Proof.
  intros Ha Hb. cbn. rewrite negb_true_iff, !orb_false_iff, andb_false_iff, !Z.ltb_ge.
  split; [intros [[H1 H2] H3]|intros (H1 & H2 & H3 & _)]; split_and?; mlia || done.
Qed.

Lemma CBS_init_all text : CBS_init text (lenZ text) = text.
Proof. by apply takeZ_all. Qed.

Lemma emits_oid_from_text arcs :
  oid_valid arcs → emits (CBB_add_asn1_oid_from_text (oid_text arcs) (lenZ (oid_text arcs))) (oid_body arcs).
Proof.
  destruct arcs as [|a [|b rest]]; [done|done|]. intros (Ha & Hb & Hab & Hr).
  assert (fits 64 a) as Hfa by mlia. assert (fits 64 b) as Hfb by mlia.
  unfold CBB_add_asn1_oid_from_text. rewrite CBS_init_all, <-(app_nil_l (oid_body _)).
  apply emits_bind; [apply emits_flush|intros _].
  assert (Forall (fits 64) (b :: rest)) as Hbr by (by constructor).
  apply (emits_on_copy _ _ a (oid_text (b :: rest))).
  { apply parse_dotted_iff. by rewrite after_component_text. }
  apply (emits_on_copy _ _ b (oid_text rest)).
  { apply parse_dotted_iff. by rewrite after_component_text. }
  rewrite (proj2 (oid_arcs_test a b Hfa Hfb)) by (cbn; split_and!; try lia; constructor).
  assert (u64 (u64 (40 * a) + b) = 40 * a + b ∧ fits 64 (40 * a + b)) as [Hu Hf].
  { rewrite !wrap_small; mlia. }
  eapply emits_ext; [intros st; symmetry; apply bind_ensure|]. rewrite Hu. cbn [oid_body].
  apply emits_bind; [by apply emits_base128|intros _]. by apply emits_oid_components.
Qed.

Lemma oid_from_text_valid text st u st' :
  CBB_add_asn1_oid_from_text text (lenZ text) st = (Some u, st') →
  ∃ arcs, oid_valid arcs ∧ text = oid_text arcs.
Proof.
  intros H. unfold CBB_add_asn1_oid_from_text in H. rewrite CBS_init_all in H.
  apply bind_inv in H as (u0 & st0 & _ & H).
  apply on_copy_bind_inv in H as (a & s1 & H1 & H). apply parse_dotted_iff in H1 as [-> Ha].
  apply on_copy_bind_inv in H as (b & s2 & H2 & H). apply parse_dotted_iff in H2 as [-> Hb].
  apply bind_inv in H as (u1 & st1 & H1 & H). apply ensure_inv in H1 as [H1 <-].
  apply bind_inv in H as (u2 & st2 & _ & H). apply oid_components_text in H as (rest & Hr & ->).
  apply oid_arcs_test in H1 as (Ha' & Hb' & Hab & _); [|done|done].
  exists (a :: b :: rest). split; [done|]. cbn [oid_text].
  rewrite <-(after_component_text (b :: rest)) by (by constructor). cbn [oid_text].
  by rewrite after_component_text.
Qed.

(** * From body to text *)

Lemma strlen_app_nul d e : Forall (λ c, c ≠ 0) d → strlen (d ++ 0 :: e) = lenZ d.
Proof.
  induction 1 as [|c d Hc _ IH]; [done|]. cbn [app strlen]. rewrite lenZ_cons.
  destruct (Z.eqb_spec c 0); [done|]. by rewrite IH.
Qed.

Lemma digits_nonzero l : Forall is_digit l → Forall (λ c, c ≠ 0) l.
Proof. intros H. eapply Forall_impl; [exact H|]. unfold is_digit, zero_char. cbn. lia. Qed.

Lemma emits_add_decimal v : fits 64 v → emits (add_decimal v) (decimal v).
Proof.
  intros Hv. unfold add_decimal. pose proof (length_decimal v Hv) as Hl.
  rewrite (takeZ_all (decimal v)) by (change DECIMAL_SIZE_uint64 with 23; lia).
  rewrite strlen_app_nul by (by apply digits_nonzero, decimal_digits).
  rewrite takeZ_app by done. apply emits_add_bytes. mlia.
Qed.

Lemma lenZ_base128_pos v : 0 < lenZ (base128 v).
Proof. unfold base128. rewrite lenZ_b128. lia. Qed.

Lemma bytes_ok_base128s rest : bytes_ok (concat (base128 <$> rest)).
Proof.
  induction rest as [|v rest IH]; [apply bytes_ok_nil|]. apply bytes_ok_app.
  split; [apply b128_ok|done].
Qed.

Lemma emits_oid_text_loop f rest :
  (length (concat (base128 <$> rest)) <= f)%nat → Forall (fits 64) rest →
  emits (oid_text_loop f (concat (base128 <$> rest))) (dotted rest).
Proof.
  revert rest. induction f as [|f IH]; intros [|x rest] Hf Hr; try (apply (emits_pure (λ _, tt))).
  - exfalso. cbn in Hf. rewrite length_app in Hf. pose proof (lenZ_base128_pos x). unfold lenZ in *. lia.
  - apply Forall_cons in Hr as [Hx Hr]. pose proof (lenZ_base128_pos x) as Hpos.
    cbn [oid_text_loop fmap list_fmap concat] in *.
    change (list_fmap Z bytes base128 rest) with (base128 <$> rest) in *.
    assert ((CBS_len (base128 x ++ concat (base128 <$> rest)) =? 0) = false) as ->
      by (apply Z.eqb_neq; unfold CBS_len; llia).
    apply (emits_on_copy _ _ x (concat (base128 <$> rest))).
    { apply parse_base128_iff; [|done]. apply bytes_ok_app. split; [apply b128_ok|apply bytes_ok_base128s]. }
    unfold dotted. cbn [fmap list_fmap concat]. rewrite <-app_comm_cons.
    apply (emits_bind _ _ [dot]); [by apply emits_add_u8|intros _].
    apply emits_bind; [by apply emits_add_decimal|intros _]. apply IH; [|done].
    rewrite length_app in Hf. unfold lenZ in Hpos. lia.
Qed.

Lemma oid_text_loop_body f s st u st' :
  bytes_ok s → oid_text_loop f s st = (Some u, st') →
  ∃ rest, Forall (fits 64) rest ∧ s = concat (base128 <$> rest).
Proof.
  revert s st. induction f as [|f IH]; intros s st Hs; cbn [oid_text_loop]; unfold CBS_len;
    (destruct (Z.eqb_spec (lenZ s) 0) as [Hl|]; [intros _; exists []; by apply Z.eq_le_incl, lenZ_0_nil in Hl as ->|]).
  { by intros []%ret0_inv. }
  intros H. apply on_copy_bind_inv in H as (a & s' & Hp & H).
  apply parse_base128_iff in Hp as [-> Ha]; [|done]. apply bytes_ok_app in Hs as [_ Hs].
  apply bind_inv in H as (u1 & st1 & _ & H). apply bind_inv in H as (u2 & st2 & _ & H).
  apply IH in H as (rest & Hr & ->); [|done]. exists (a :: rest). split; [by constructor|done].
Qed.

(** The first two arcs, as the reader splits the first component. *)
Definition split_first (v : Z) : Z * Z := if 80 <=? v then (2, v - 80) else (v / 40, v mod 40).

Lemma split_first_join a b :
  oid_valid [a; b] → split_first (40 * a + b) = (a, b) ∧ fits 64 (40 * a + b).
Proof.
  intros (Ha & Hb & Hab & _). unfold split_first. split; [|mlia].
  destruct (Z.leb_spec 80 (40 * a + b)); f_equal; mlia.
Qed.

Lemma split_first_valid v :
  fits 64 v → let '(a, b) := split_first v in oid_valid [a; b] ∧ 40 * a + b = v.
Proof.
  intros Hv. unfold split_first. destruct (Z.leb_spec 80 v); cbn; split_and!; try mlia; constructor.
Qed.

(** The text written for a first component [v] and the arcs after it. *)
Definition oid_writer (v : Z) (copy : bytes) : M cbb_st () :=
  (if 80 <=? v then CBB_add_bytes [50; dot];; add_decimal (v - 80)
   else add_decimal (v / 40);; CBB_add_u8 dot;; add_decimal (v mod 40));;
  oid_text_loop (length copy) copy;;
  CBB_add_u8 0.

Lemma emits_oid_writer v rest :
  fits 64 v → Forall (fits 64) rest →
  emits (oid_writer v (concat (base128 <$> rest)))
        (oid_text ((split_first v).1 :: (split_first v).2 :: rest) ++ [0]).
Proof.
  intros Hv Hr. unfold oid_writer, split_first. 
  assert (∀ a b, oid_text (a :: b :: rest) ++ [0] = (decimal a ++ dot :: decimal b) ++ dotted rest ++ [0]) as Ht.
  { intros a b. cbn [oid_text]. unfold dotted. cbn [fmap list_fmap concat].
    by rewrite <-!app_assoc. }
  assert (emits (oid_text_loop (length (concat (base128 <$> rest))) (concat (base128 <$> rest));;
                 CBB_add_u8 0) (dotted rest ++ [0])) as Htail.
  { apply emits_bind; [by apply emits_oid_text_loop|intros _]. apply emits_add_u8. by apply fits_0. }
  destruct (Z.leb_spec 80 v); cbn [fst snd]; rewrite Ht; (apply emits_bind; [|done]).
  - rewrite (decimal_digit 2) by lia. change ([zero_char + 2] ++ dot :: decimal (v - 80)) with ([50; dot] ++ decimal (v - 80)).
    apply emits_bind; [by apply emits_add_bytes|intros _]. apply emits_add_decimal. mlia.
  - apply emits_bind; [apply emits_add_decimal; mlia|intros _].
    apply (emits_bind _ _ [dot]); [by apply emits_add_u8|intros _]. apply emits_add_decimal. mlia.
Qed.

Definition oid_run (c : bytes) : M cbb_st () :=
  '(v, copy) ← on_copy parse_base128_integer c; oid_writer v copy.

(** The text is what the builder made of [oid_run]. *)
Lemma oid_to_text_run c :
  CBS_asn1_oid_to_text c =
  (st ← CBB_init 32;
   match (oid_run c;; CBB_finish true true) st with
   | (Some (txt, _), _) => Some txt
   | (None, _) => None
   end).
Proof.
  unfold CBS_asn1_oid_to_text. destruct (CBB_init 32) as [st|]; [|done]. cbn [mbind option_bind].
  match goal with |- match ?m st with _ => _ end = match ?m' st with _ => _ end =>
    assert (m st = m' st) as ->; [|done] end.
  unfold oid_run. rewrite bind_assoc. apply bind_ext. intros [v copy] st1.
  unfold oid_writer. rewrite bind_assoc. apply bind_ext. intros _ st2.
  by rewrite bind_assoc.
Qed.

Lemma oid_text_nonzero arcs : Forall (fits 64) arcs → Forall (λ c, c ≠ 0) (oid_text arcs).
Proof.
  assert (∀ rest, Forall (fits 64) rest → Forall (λ c, c ≠ 0) (dotted rest)) as Hd.
  { induction 1 as [|x rest Hx _ IH]; [constructor|]. unfold dotted. cbn [fmap list_fmap concat].
    apply Forall_app. split; [|done]. constructor; [done|]. by apply digits_nonzero, decimal_digits. }
  destruct 1 as [|x rest Hx Hr]; [constructor|]. apply Forall_app.
  split; [|by apply Hd]. by apply digits_nonzero, decimal_digits.
Qed.

Lemma oid_valid_fits arcs : oid_valid arcs → Forall (fits 64) arcs.
Proof.
  destruct arcs as [|a [|b rest]]; [done|done|]. intros (Ha & Hb & _ & Hr).
  repeat constructor; try done; mlia.
Qed.

Lemma text_of_block arcs txt len :
  oid_valid arcs → takeZ len txt = oid_text arcs ++ [0] → takeZ (strlen txt) txt = oid_text arcs.
Proof.
  intros Hv Ht. rewrite <-(takeZ_dropZ len txt), Ht, <-app_assoc. cbn [app].
  rewrite strlen_app_nul by (by apply oid_text_nonzero, oid_valid_fits). by apply takeZ_app.
Qed.

Lemma oid_run_emits arcs :
  oid_valid arcs → emits (oid_run (oid_body arcs)) (oid_text arcs ++ [0]).
Proof.
  intros Hv. destruct arcs as [|a [|b rest]]; [done|done|]. pose proof Hv as (Ha & Hb & Hab & Hr).
  destruct (split_first_join a b) as [Hs Hf]; [cbn; split_and!; try lia; constructor|].
  apply (emits_on_copy _ _ (40 * a + b) (concat (base128 <$> rest))).
  { apply parse_base128_iff; [|done]. apply bytes_ok_app. split; [apply b128_ok|apply bytes_ok_base128s]. }
  pose proof (emits_oid_writer (40 * a + b) rest Hf Hr) as He. by rewrite Hs in He.
Qed.

Lemma oid_run_body c st u st' :
  bytes_ok c → oid_run c st = (Some u, st') → ∃ arcs, oid_valid arcs ∧ c = oid_body arcs.
Proof.
  intros Hc H. apply on_copy_bind_inv in H as (v & copy & Hp & H).
  apply parse_base128_iff in Hp as [-> Hv]; [|done]. apply bytes_ok_app in Hc as [_ Hc].
  apply bind_inv in H as (u1 & st1 & _ & H). apply bind_inv in H as (u2 & st2 & H & _).
  apply oid_text_loop_body in H as (rest & Hr & ->); [|done].
  pose proof (split_first_valid v Hv) as Hs. destruct (split_first v) as [a b].
  destruct Hs as [(Ha & Hb & Hab & _) Hj]. exists (a :: b :: rest). split; [cbn; split_and!; try lia; done|].
  cbn [oid_body]. by rewrite Hj.
Qed.

Lemma oid_to_text_sound c txt :
  bytes_ok c → CBS_asn1_oid_to_text c = Some txt →
  ∃ arcs, oid_valid arcs ∧ c = oid_body arcs ∧ takeZ (strlen txt) txt = oid_text arcs.
Proof.
  intros Hc. rewrite oid_to_text_run. intros H.
  destruct (CBB_init 32) as [st|] eqn:Hi; [|done]. cbn in H.
  destruct ((oid_run c;; CBB_finish true true) st) as [[[d len]|] st'] eqn:Hr; [|done].
  injection H as ->. pose proof Hr as Hr'. apply bind_inv in Hr' as (u & st1 & H1 & _).
  destruct (oid_run_body c st u st1 Hc H1) as (arcs & Hv & ->). exists arcs. split_and!; [done|done|].
  apply (text_of_block arcs txt len Hv).
  destruct (run_builder_spec 32 (oid_run (oid_body arcs)) _ ltac:(done) (oid_run_emits arcs Hv)) as [Hs _].
  apply Hs. unfold run_builder. rewrite Hi. cbn. by rewrite Hr.
Qed.

Lemma oid_to_text_complete arcs :
  reliable_malloc → oid_valid arcs → lenZ (oid_text arcs) < 2 ^ 61 →
  ∃ txt, CBS_asn1_oid_to_text (oid_body arcs) = Some txt ∧ takeZ (strlen txt) txt = oid_text arcs.
Proof.
  intros Hm Hv Hl.
  destruct (run_builder_spec 32 (oid_run (oid_body arcs)) _ ltac:(done) (oid_run_emits arcs Hv)) as [_ Ht].
  specialize (Ht Hm ltac:(done)). rewrite lenZ_app in Ht. specialize (Ht ltac:(change (lenZ [0]) with 1; lia)).
  unfold run_builder in Ht. rewrite oid_to_text_run.
  destruct (CBB_init 32) as [st|]; [|done]. cbn in Ht |- *.
  destruct ((oid_run _;; CBB_finish true true) st) as [[[d len]|] st'] eqn:Hr; [|done].
  injection Ht as Ht. exists d. split; [done|]. by apply (text_of_block arcs d len Hv).
Qed.

End oid_facts.

(** * Sizes *)

Lemma dotted_cons x rest : dotted (x :: rest) = (dot :: decimal x) ++ dotted rest.
Proof. done. Qed.

Lemma base128s_cons x rest : concat (base128 <$> x :: rest) = base128 x ++ concat (base128 <$> rest).
Proof. done. Qed.

Lemma lenZ_base128_64 v : fits 64 v → lenZ (base128 v) <= 10.
Proof.
  intros Hv. unfold base128. rewrite lenZ_b128. unfold b128_len.
  destruct (Z.eq_dec v 0) as [->|]; [done|].
  pose proof (Z.log2_lt_pow2 v 64 ltac:(mlia)) as [H _]. specialize (H ltac:(mlia)). lia.
Qed.

Lemma lenZ_base128s rest :
  Forall (fits 64) rest → lenZ (concat (base128 <$> rest)) <= 10 * lenZ (dotted rest).
Proof.
  induction 1 as [|x rest Hx _ IH]; [done|]. rewrite dotted_cons, base128s_cons.
  pose proof (lenZ_base128_64 x Hx). pose proof (lenZ_decimal_pos x Hx). autorewrite with lenZ. lia.
Qed.

Lemma lenZ_oid_body arcs : oid_valid arcs → lenZ (oid_body arcs) <= 10 * lenZ (oid_text arcs).
Proof.
  destruct arcs as [|a [|b rest]]; [done|done|]. intros (Ha & Hb & Hab & Hr). cbn [oid_body oid_text].
  pose proof (lenZ_base128_64 (40 * a + b) ltac:(mlia)). pose proof (lenZ_base128s rest Hr).
  pose proof (lenZ_decimal_pos a ltac:(mlia)). pose proof (lenZ_nonneg (decimal b)).
  rewrite dotted_cons. autorewrite with lenZ. lia.
Qed.

Lemma lenZ_dotted rest :
  Forall (fits 64) rest → lenZ (dotted rest) <= 21 * lenZ (concat (base128 <$> rest)).
Proof.
  induction 1 as [|x rest Hx _ IH]; [done|]. rewrite dotted_cons, base128s_cons.
  pose proof (lenZ_base128_pos x). pose proof (length_decimal x Hx). autorewrite with lenZ. lia.
Qed.

Lemma lenZ_oid_text arcs : oid_valid arcs → lenZ (oid_text arcs) <= 41 * lenZ (oid_body arcs).
Proof.
  destruct arcs as [|a [|b rest]]; [done|done|]. intros (Ha & Hb & Hab & Hr). cbn [oid_body oid_text].
  pose proof (lenZ_base128_pos (40 * a + b)). pose proof (lenZ_dotted rest Hr).
  pose proof (length_decimal a ltac:(mlia)). pose proof (length_decimal b ltac:(mlia)).
  pose proof (lenZ_nonneg (concat (base128 <$> rest))). rewrite dotted_cons. autorewrite with lenZ. lia.
Qed.

(** * Properties *)

Section properties.
Context {libc : Libc}.

(** C31. [CBB_add_asn1_oid_from_text] accepts exactly the dotted decimal texts of
    OIDs whose arcs fit the first two arcs' rules and 64 bits, without leading
    zeros, and writes their DER bodies. *)
Theorem oid_from_text_exact n text d :
  reliable_malloc → 0 <= n <= 2 ^ 62 → lenZ text < 2 ^ 57 →
  run_builder n (CBB_add_asn1_oid_from_text text (lenZ text)) = Some d ↔
  ∃ arcs, oid_valid arcs ∧ text = oid_text arcs ∧ d = oid_body arcs.
Proof.
  intros Hm Hn Hl. assert (fits 64 n) as Hf by mlia. split.
  - intros H. pose proof H as Hr. unfold run_builder in H.
    destruct (CBB_init n) as [st|]; [|done]. cbn in H.
    destruct (CBB_add_asn1_oid_from_text text (lenZ text) st) as [[u|] st1] eqn:Hrun; cycle 1.
    { by rewrite (bind_none _ _ _ _ Hrun) in H. }
    destruct (oid_from_text_valid _ _ _ _ Hrun) as (arcs & Hv & ->). exists arcs. split_and!; [done|done|].
    by apply (run_builder_spec n _ _ Hf (emits_oid_from_text arcs Hv)).
  - intros (arcs & Hv & -> & ->).
    apply (run_builder_spec n _ _ Hf (emits_oid_from_text arcs Hv)); [done|lia|].
    pose proof (lenZ_oid_body arcs Hv). assert (2 ^ 57 * 16 = 2 ^ 61) by done. lia.
Qed.

(** C32. [CBS_asn1_oid_to_text] accepts exactly the DER bodies of such OIDs: the
    C string it returns is the dotted decimal text of the arcs. *)
Theorem oid_to_text_exact body text :
  reliable_malloc → bytes_ok body → lenZ body < 2 ^ 55 →
  (λ block, takeZ (strlen block) block) <$> CBS_asn1_oid_to_text body = Some text ↔
  ∃ arcs, oid_valid arcs ∧ body = oid_body arcs ∧ text = oid_text arcs.
Proof.
  intros Hm Hok Hl. split.
  - destruct (CBS_asn1_oid_to_text body) as [block|] eqn:H; [|done]. intros [= <-].
    destruct (oid_to_text_sound _ _ Hok H) as (arcs & Hv & Hb & Ht). by exists arcs.
  - intros (arcs & Hv & -> & ->). pose proof (lenZ_oid_text arcs Hv).
    destruct (oid_to_text_complete arcs Hm Hv) as (block & -> & Hb);
      [assert (2 ^ 55 * 64 = 2 ^ 61) by done; lia|]. cbn. by rewrite Hb.
Qed.
End properties.

Lemma oid_from_text_exact_witness :
  @run_builder calloc_libc _ 0 (@CBB_add_asn1_oid_from_text calloc_libc [49; 46; 50; 46; 56; 52; 48] 7)
    = Some [42; 134; 72].
Proof.
  apply (@oid_from_text_exact calloc_libc 0 [49; 46; 50; 46; 56; 52; 48] [42; 134; 72] calloc_reliable);
    [decide_now|decide_now|].
  exists [1; 2; 840]. split_and!; [decide_now|reflexivity|vm_compute; reflexivity].
Defined.

Lemma oid_to_text_exact_witness :
  (λ block, takeZ (strlen block) block) <$> @CBS_asn1_oid_to_text calloc_libc [42; 134; 72]
    = Some [49; 46; 50; 46; 56; 52; 48].
Proof.
  apply (@oid_to_text_exact calloc_libc [42; 134; 72] [49; 46; 50; 46; 56; 52; 48] calloc_reliable);
    [decide_now|decide_now|].
  exists [1; 2; 840]. split_and!; [decide_now|vm_compute; reflexivity|reflexivity].
Defined.
