(* ===== verification/Ber.v ===== *)
(** BER to DER conversion:
    src/HolyWater-Test/Pods/BoringSSL-GRPC/src/crypto/bytestring/ber.c. *)
From S2P Require Import Prelude Mem ConstTime X690 Cbs DerRead IntRead BerRead Cbb CbbSpec CbbBuild.

Definition kMaxDepth : Z := 2048.

(** [tag & ~CBS_ASN1_CONSTRUCTED] *)
Definition primitive_tag (tag : Z) : Z := Z.ldiff tag CBS_ASN1_CONSTRUCTED.

(** OCTET STRING, UTF8, Numeric, Printable, T61, Videotex, IA5, Graphic, Visible,
    General, Universal and BMP strings. *)
Definition string_tags : list Z :=
  [0x4; 0xc; 0x12; 0x13; 0x14; 0x15; 0x16; 0x19; 0x1a; 0x1b; 0x1c; 0x1e].

Definition is_string_type (tag : Z) : bool := bool_decide (primitive_tag tag ∈ string_tags).

(** The [while] of [cbs_find_ber] below [depth], with the current [*ber_found].
    Every round and every level of nesting consumes input. *)
Fixpoint cbs_find_ber_loop (fuel : nat) (input : bytes) (ber_found : bool) (depth : Z) : option bool :=
  if CBS_len input =? 0 then Some ber_found
  else
    match fuel with
    | O => None
    | S fuel =>
        match CBS_get_any_ber_asn1_element input with
        | (None, _) => None
        | (Some el, input) =>
            if el_ber_found el then Some true
            else if negb (el_tag el .& CBS_ASN1_CONSTRUCTED =? 0) then
              if is_string_type (el_tag el) then Some true
              else
                match CBS_skip (el_header_len el) (el_out el) with
                | (None, _) => None
                | (Some _, contents) =>
                    if kMaxDepth <? depth + 1 then None
                    else
                      ber_found ← cbs_find_ber_loop fuel contents false (depth + 1);
                      cbs_find_ber_loop fuel input ber_found depth
                end
            else cbs_find_ber_loop fuel input false depth
        end
    end.

Definition cbs_find_ber (orig_in : cbs) (depth : Z) : option bool :=
  if kMaxDepth <? depth then None
  else cbs_find_ber_loop (length orig_in) orig_in false depth.

Definition is_eoc (header_len : Z) (contents : cbs) : bool :=
  (header_len =? 2) && (CBS_len contents =? 2) &&
  (OPENSSL_memcmp (CBS_data contents) [0; 0] 2 =? 0).

Section ber.
Context {libc : Libc}.

(** What [in] and [out] point to. *)
Definition convert_st : Type := cbs * cbb_st.
Definition on_in {A} (m : M cbs A) : M convert_st A := λ '(i, o), let '(r, i) := m i in (r, (i, o)).
Definition on_out {A} (m : M cbb_st A) : M convert_st A := λ '(i, o), let '(r, o) := m o in (r, (i, o)).
(** Another [in]. *)
Definition with_in {A} (contents : cbs) (m : M convert_st A) : M convert_st A := λ '(i, o),
  let '(r, (_, o)) := m (contents, o) in (r, (i, o)).
(** The child of [out] as [out]. *)
Definition with_child {A} (m : M convert_st A) : M convert_st A := λ '(i, o),
  match child (this o) with
  | None => (None, (i, o))
  | Some ch =>
      let '(r, (i, o')) := m (i, {| base := base o; this := ch |}) in
      (r, (i, {| base := base o'; this := set_child (this o) (Some (this o')) |}))
  end.

(** [out_contents] is [out] itself or the child just added to it. *)
Fixpoint cbs_convert_ber (fuel : nat) (string_tag : Z) (looking_for_eoc : bool) (depth : Z) : M convert_st () :=
  match fuel with
  | O => ret0
  | S fuel =>
      if kMaxDepth <? depth then ret0
      else
        '(input, _) ← getS;
        if CBS_len input =? 0 then ensure (negb looking_for_eoc)
        else
          el ← on_in CBS_get_any_ber_asn1_element;
          let contents := el_out el in
          let tag := el_tag el in
          let header_len := el_header_len el in
          if is_eoc header_len contents then ensure looking_for_eoc
          else
            let is_constructed := negb (tag .& CBS_ASN1_CONSTRUCTED =? 0) in
            let out_tag :=
              if is_constructed && is_string_type tag then primitive_tag tag else tag in
            let child_string_tag :=
              if negb (string_tag =? 0) then string_tag
              else if is_constructed && is_string_type tag then out_tag else string_tag in
            let out_contents (m : M convert_st ()) : M convert_st () :=
              if negb (string_tag =? 0) then m else with_child m in
            (if negb (string_tag =? 0) then ensure (primitive_tag tag =? string_tag)
             else on_out (CBB_add_asn1 out_tag));;
            if (CBS_len contents =? header_len) && (0 <? header_len)
               && (nthZ (CBS_data contents) (header_len - 1) =? 0x80) then
              (* This is an indefinite length element. *)
              out_contents (cbs_convert_ber fuel child_string_tag true (depth + 1));;
              on_out CBB_flush;;
              cbs_convert_ber fuel string_tag looking_for_eoc depth
            else
              '(_, contents) ← on_copy (CBS_skip header_len) contents;
              (if is_constructed then
                 with_in contents (out_contents (cbs_convert_ber fuel child_string_tag false (depth + 1)))
               else out_contents (on_out (CBB_add_bytes (CBS_data contents))));;
              on_out CBB_flush;;
              cbs_convert_ber fuel string_tag looking_for_eoc depth
  end.

(** The rounds that suffice for [input]. *)
Definition convert_fuel (input : bytes) : nat := S (length input).

(** [*out] and [*out_storage]; what is left of [in] is the state. *)
Definition CBS_asn1_ber_to_der : M cbs (cbs * option bytes) := λ input,
  match cbs_find_ber input 0 with
  | None => (None, input)
  | Some false =>
      match CBS_get_any_asn1_element input with
      | (None, input) => (None, input)
      | (Some el, input) => (Some (el_out el, None), input)
      end
  | Some true =>
      match CBB_init (CBS_len input) with
      | None => (None, input)
      | Some cbb =>
          match (cbs_convert_ber (convert_fuel input) 0 false 0;; on_out (CBB_finish true true)) (input, cbb) with
          | (None, (input, _)) => (None, input)
          | (Some (out_storage, len), (input, _)) =>
              (Some (CBS_init out_storage len, Some out_storage), input)
          end
      end
  end.

(** The loop that concatenates the chunks of an implicitly tagged string. *)
Fixpoint implicit_chunks (fuel : nat) (child : bytes) (inner_tag : Z) : M cbb_st () :=
  if CBS_len child =? 0 then mret ()
  else
    match fuel with
    | O => ret0
    | S fuel =>
        '(chunk, child) ← on_copy (CBS_get_asn1 inner_tag) child;
        CBB_add_bytes (CBS_data chunk);;
        implicit_chunks fuel child inner_tag
    end.

Definition CBS_get_asn1_implicit_string (outer_tag inner_tag : Z) : M cbs (cbs * option bytes) :=
  input ← getS;
  if CBS_peek_asn1_tag input outer_tag then
    out ← CBS_get_asn1 outer_tag; mret (out, None)
  else
    result ← liftO (CBB_init (CBS_len input));
    child ← CBS_get_asn1 (outer_tag .| CBS_ASN1_CONSTRUCTED);
    '(data, len) ← liftO (fst ((implicit_chunks (length child) child inner_tag;;
                                CBB_finish true true) result));
    mret (CBS_init data len, Some data).

End ber.

(** An indefinite-length SEQUENCE of a constructed OCTET STRING and an INTEGER. *)
Example ber_to_der_ex :
  let ber := [0x30; 0x80; 0x24; 4; 4; 2; 7; 8; 2; 1; 5; 0; 0] in
  (λ r, r.1) <$> fst (@CBS_asn1_ber_to_der calloc_libc ber) = Some [0x30; 7; 4; 2; 7; 8; 2; 1; 5].
Proof. vm_compute. reflexivity. Qed.

(** BER that a DER sibling follows is overlooked. *)
Example find_ber_sibling_ex :
  cbs_find_ber [0x30; 9; 0x30; 4; 0x24; 0x80; 0; 0; 2; 1; 5] 0 = Some false.
Proof. vm_compute. reflexivity. Qed.

(** * What the conversion computes *)

(** The tag of the element written for one of tag [tag], and the string type
    that its contents are fragments of. *)
Definition out_tag (tag : Z) : Z :=
  if constructed tag && is_string_type tag then primitive_tag tag else tag.
Definition child_tag (string_tag tag : Z) : Z :=
  if negb (string_tag =? 0) then string_tag
  else if constructed tag && is_string_type tag then out_tag tag else string_tag.

(** The output for an element: wrapped, or as a fragment without a header. *)
Definition wrap_element (string_tag tag : Z) (inner : bytes) : bytes :=
  if string_tag =? 0 then der_element (out_tag tag) inner else inner.
Definition fragment_ok (string_tag tag : Z) : Prop :=
  string_tag = 0 ∨ primitive_tag tag = string_tag.

(** [ber_der depth string_tag eoc input out rest]: the BER contents at the front of
    [input] have the DER form [out].  With [eoc] they end at an end-of-contents
    marker, after which [rest] is left; otherwise they are all of [input]. *)
Inductive ber_der : Z → Z → bool → bytes → bytes → bytes → Prop :=
  | ber_der_end depth st :
      depth <= kMaxDepth → ber_der depth st false [] [] []
  | ber_der_eoc depth st rest :
      depth <= kMaxDepth → ber_der depth st true (0 :: 0 :: rest) [] rest
  | ber_der_primitive depth st eoc tag l c s out rest :
      depth <= kMaxDepth → fits 32 tag → constructed tag = false →
      ber_length (lenZ c) l → el_out (ber_definite tag l c) ≠ [0; 0] → fragment_ok st tag →
      ber_der depth st eoc s out rest →
      ber_der depth st eoc (el_out (ber_definite tag l c) ++ s) (wrap_element st tag c ++ out) rest
  | ber_der_definite depth st eoc tag l c s inner out rest :
      depth <= kMaxDepth → fits 32 tag → constructed tag = true →
      ber_length (lenZ c) l → fragment_ok st tag →
      ber_der (depth + 1) (child_tag st tag) false c inner [] →
      ber_der depth st eoc s out rest →
      ber_der depth st eoc (el_out (ber_definite tag l c) ++ s) (wrap_element st tag inner ++ out) rest
  | ber_der_indefinite depth st eoc tag s inner s' out rest :
      depth <= kMaxDepth → fits 32 tag → constructed tag = true → fragment_ok st tag →
      ber_der (depth + 1) (child_tag st tag) true s inner s' →
      ber_der depth st eoc s' out rest →
      ber_der depth st eoc (el_out (ber_indefinite tag) ++ s) (wrap_element st tag inner ++ out) rest.

(** * Facts about the elements *)

Lemma is_eoc_parsed el : ber_parsed el → is_eoc (el_header_len el) (el_out el) = bool_decide (el_out el = [0; 0]).
Proof.
  intros Hp. assert (2 <= el_header_len el <= lenZ (el_out el)) as [Hh Hle].
  { destruct Hp as [tag l c Ht Hl|tag Ht Hc]; cbn; pose proof (lenZ_tag_bytes tag Ht).
    - destruct (ber_length_fits _ _ Hl) as (_ & Hl5 & _). llia.
    - llia. }
  unfold is_eoc, CBS_len, CBS_data, OPENSSL_memcmp. change (2 =? 0) with false. cbv iota.
  destruct (el_out el) as [|x [|y [|z d]]] eqn:Ho.
  - llia.
  - llia.
  - change (lenZ [x; y]) with 2 in *. assert (el_header_len el = 2) as -> by lia.
    change (Z.to_nat 2) with 2%nat. cbn [memcmp hd tl andb Z.eqb Pos.eqb].
    destruct (Z.eqb_spec x 0) as [->|]; [|rewrite bool_decide_false by congruence; by destruct (x <? 0)].
    destruct (Z.eqb_spec y 0) as [->|]; [|rewrite bool_decide_false by congruence; by destruct (y <? 0)].
    done.
  - assert ((lenZ (x :: y :: z :: d) =? 2) = false) as -> by (apply Z.eqb_neq; llia).
    rewrite andb_false_r, bool_decide_false by done. done.
Qed.

(** A zero length never ends in 0x80. *)
Lemma be_value_zero_last d : bytes_ok d → be_value d = 0 → d ≠ [] → ∃ d', d = d' ++ [0].
Proof.
  intros Hok Hz Hne. destruct (exists_last Hne) as (d' & b & ->). exists d'. f_equal.
  rewrite be_value_snoc in Hz. apply bytes_ok_app in Hok as [Hd' [Hb _]%bytes_ok_cons].
  pose proof (be_value_bound d' Hd'). f_equal. mlia.
Qed.

Lemma nthZ_last l b : nthZ (l ++ [b]) (lenZ (l ++ [b]) - 1) = b.
Proof.
  unfold nthZ. rewrite lenZ_app. change (lenZ [b]) with 1.
  replace (Z.to_nat (lenZ l + 1 - 1)) with (length l) by (unfold lenZ; lia).
  rewrite app_nth2, Nat.sub_diag by lia. done.
Qed.

Definition is_indefinite (el : asn1_element) : bool :=
  (CBS_len (el_out el) =? el_header_len el) && (0 <? el_header_len el)
  && (nthZ (CBS_data (el_out el)) (el_header_len el - 1) =? 0x80).

Lemma is_indefinite_indefinite tag : is_indefinite (ber_indefinite tag) = true.
Proof.
  unfold is_indefinite, CBS_len, CBS_data. cbn [el_out el_header_len ber_indefinite].
  rewrite Z.eqb_refl, nthZ_last. cbn [andb]. rewrite andb_true_r. apply Z.ltb_lt. llia.
Qed.

Lemma is_indefinite_definite tag l c :
  ber_length (lenZ c) l → is_indefinite (ber_definite tag l c) = false.
Proof.
  intros Hl. unfold is_indefinite, CBS_len, CBS_data. cbn [el_out el_header_len ber_definite].
  destruct (Z.eqb_spec (lenZ ((tag_bytes tag ++ l) ++ c)) (lenZ (tag_bytes tag ++ l))) as [Hlen|]; [|done].
  rewrite lenZ_app in Hlen. assert (lenZ c <= 0) as Hc%lenZ_0_nil by lia. subst c. rewrite app_nil_r.
  assert (∃ l', l = l' ++ [0]) as [l' ->].
  { destruct Hl as [[_ ->]|(d & Hd & Hok & -> & Hz)]; [by exists []|].
    destruct (be_value_zero_last d Hok) as [d' ->]; [done|intros ->; llia|].
    by exists ((128 + lenZ (d' ++ [0])) :: d'). }
  rewrite app_assoc, nthZ_last. cbn. apply andb_false_r.
Qed.

Lemma string_tags_nonzero tag : is_string_type tag = true → primitive_tag tag ≠ 0.
Proof. unfold is_string_type. intros H%bool_decide_eq_true Hz. rewrite Hz in H. unfold string_tags in H. set_solver. Qed.

Lemma constructed_primitive_tag tag : constructed (primitive_tag tag) = false.
Proof.
  unfold constructed, primitive_tag. rewrite negb_false_iff. apply Z.eqb_eq.
  apply Z.land_ldiff.
Qed.

Lemma primitive_tag_fits tag : fits 32 tag → fits 32 (primitive_tag tag).
Proof.
  intros Ht. unfold primitive_tag. change CBS_ASN1_CONSTRUCTED with (2 ^ 29).
  assert (0 <= Z.ldiff tag (2 ^ 29) <= tag) as Hle; [|unfold fits in *; lia].
  apply Z.ldiff_le; [apply Ht|]. apply Z.bits_inj'. intros i Hi.
  rewrite !Z.ldiff_spec, Z.bits_0. by destruct (Z.testbit tag i), (Z.testbit _ i).
Qed.

Lemma string_tags_small tag : tag ∈ string_tags → 0 <= tag < 31.
Proof. unfold string_tags. rewrite !elem_of_cons, elem_of_nil. lia. Qed.

Lemma out_tag_fits tag : fits 32 tag → fits 32 (out_tag tag).
Proof. intros Ht. unfold out_tag. destruct (_ && _); [by apply primitive_tag_fits|done]. Qed.

Lemma lenZ_out_tag tag : fits 32 tag → lenZ (tag_bytes (out_tag tag)) <= lenZ (tag_bytes tag).
Proof.
  intros Ht. unfold out_tag. destruct (constructed tag && is_string_type tag) eqn:Hs; [|done].
  apply andb_true_iff in Hs as [_ Hs%bool_decide_eq_true].
  apply string_tags_small in Hs. pose proof (lenZ_tag_bytes tag Ht).
  unfold tag_bytes at 1. change (2 ^ 29) with 536870912. rewrite Z.mod_small by lia.
  destruct (Z.ltb_spec (primitive_tag tag) 31); [|lia].
  rewrite lenZ_cons, lenZ_nil. lia.
Qed.

Lemma wrap_element_size st tag inner n :
  fits 32 tag → fits 32 (lenZ inner) → lenZ inner <= 3 * n → 0 <= n →
  lenZ (wrap_element st tag inner) <= 3 * (lenZ (tag_bytes tag) + 1 + n).
Proof.
  intros Ht Hi Hn Hn0. unfold wrap_element, der_element, der_header.
  pose proof (lenZ_len_bytes _ Hi). pose proof (lenZ_out_tag tag Ht). pose proof (lenZ_tag_bytes tag Ht).
  destruct (st =? 0); llia.
Qed.

(** The input left over is a suffix of the input. *)
Lemma ber_der_rest depth st eoc s out rest :
  ber_der depth st eoc s out rest → ∃ pre, s = pre ++ rest.
Proof.
  induction 1 as [|depth st rest| | |depth st eoc tag s inner s' out rest _ _ _ _ _ [p Hp] _ [q Hq]].
  - by exists [].
  - by exists [0; 0].
  - destruct IHber_der as [p ->]. eexists. apply app_assoc.
  - destruct IHber_der2 as [p ->]. eexists. apply app_assoc.
  - subst s s'. eexists. rewrite !app_assoc. done.
Qed.

Lemma ber_der_rest_ok depth st eoc s out rest :
  ber_der depth st eoc s out rest → bytes_ok s → bytes_ok rest.
Proof. intros [p ->]%ber_der_rest Hok. by apply bytes_ok_app in Hok as [_ Hok]. Qed.

(** The end-of-contents octets are a primitive element. *)
Lemma eoc_primitive el : ber_parsed el → el_out el = [0; 0] → constructed (el_tag el) = false.
Proof.
  intros Hp. assert (∀ tag x y, fits 32 tag → (tag_bytes tag ++ x) ++ y = [0; 0] → constructed tag = false) as H.
  { intros tag x y Ht Heq. unfold tag_bytes in Heq. change (2 ^ 29) with 536870912 in Heq.
    destruct (Z.ltb_spec (tag mod 536870912) 31); injection Heq; intros; [|mlia].
    assert (tag = 0) as -> by mlia. done. }
  destruct Hp as [tag l c Ht Hl|tag Ht Hc]; cbn; intros Heq.
  - by eapply H.
  - rewrite <-(app_nil_r (_ ++ _)) in Heq. by eapply H.
Qed.

(** The output is at most three times as long as the input. *)
Lemma ber_der_size depth st eoc s out rest :
  ber_der depth st eoc s out rest → lenZ s <= 2 ^ 30 →
  lenZ rest <= lenZ s ∧ lenZ out <= 3 * (lenZ s - lenZ rest).
Proof.
  change (2 ^ 30) with 1073741824.
  induction 1 as [|depth st rest|depth st eoc tag l c s out rest _ Ht _ Hl _ _ _ IH
    |depth st eoc tag l c s inner out rest _ Ht _ Hl _ _ IHc _ IH
    |depth st eoc tag s inner s' out rest _ Ht _ _ _ IHc _ IH]; intros Hs.
  - done.
  - llia.
  - cbn [el_out ber_definite] in *. destruct (ber_length_fits _ _ Hl) as (Hf & Hll & _).
    autorewrite with lenZ in *. pose proof (wrap_element_size st tag c (lenZ c)). llia.
  - cbn [el_out ber_definite] in *. destruct (ber_length_fits _ _ Hl) as (Hf & Hll & _).
    autorewrite with lenZ in *. pose proof (wrap_element_size st tag inner (lenZ c)).
    pose proof (lenZ_nonneg inner). llia.
  - cbn [el_out ber_indefinite] in *. autorewrite with lenZ in *. change (lenZ [128]) with 1 in *.
    pose proof (wrap_element_size st tag inner (lenZ s - lenZ s')).
    pose proof (lenZ_nonneg inner). pose proof (lenZ_nonneg (tag_bytes tag)). llia.
Qed.

Section ber_facts.
Context {libc : Libc}.

(** The same on the output alone: what is left of [in] is the result. *)
Fixpoint convert_ber (fuel : nat) (input : bytes) (string_tag : Z)
    (looking_for_eoc : bool) (depth : Z) : M cbb_st bytes :=
  match fuel with
  | O => ret0
  | S fuel =>
      if kMaxDepth <? depth then ret0
      else if CBS_len input =? 0 then
        (if looking_for_eoc then ret0 else mret input)
      else
        '(el, input) ← on_copy CBS_get_any_ber_asn1_element input;
        let contents := el_out el in
        let tag := el_tag el in
        let header_len := el_header_len el in
        if is_eoc header_len contents then
          (if looking_for_eoc then mret input else ret0)
        else
          let is_constructed := negb (tag .& CBS_ASN1_CONSTRUCTED =? 0) in
          let out_tag :=
            if is_constructed && is_string_type tag then primitive_tag tag else tag in
          let child_string_tag :=
            if negb (string_tag =? 0) then string_tag
            else if is_constructed && is_string_type tag then out_tag else string_tag in
          let out_contents {A} (m : M cbb_st A) : M cbb_st A :=
            if negb (string_tag =? 0) then m else on_child m in
          (if negb (string_tag =? 0) then ensure (primitive_tag tag =? string_tag)
           else CBB_add_asn1 out_tag);;
          if (CBS_len contents =? header_len) && (0 <? header_len)
             && (nthZ (CBS_data contents) (header_len - 1) =? 0x80) then
            (* This is an indefinite length element. *)
            input ← out_contents (convert_ber fuel input child_string_tag true (depth + 1));
            CBB_flush;;
            convert_ber fuel input string_tag looking_for_eoc depth
          else
            '(_, contents) ← on_copy (CBS_skip header_len) contents;
            (if is_constructed then
               out_contents (convert_ber fuel contents child_string_tag false (depth + 1));;
               mret ()
             else out_contents (CBB_add_bytes (CBS_data contents)));;
            CBB_flush;;
            convert_ber fuel input string_tag looking_for_eoc depth
  end.

(** What there is of [in] and [out] after a success, and of [out] in any case. *)
Definition as_result (m : M convert_st ()) (input : bytes) : M cbb_st bytes := λ o,
  let '(r, (i, o)) := m (input, o) in ((λ _, i) <$> r, o).

Lemma as_result_bind {A} (m : M convert_st A) (k : A → M convert_st ()) (m' : M cbb_st (A * bytes)) (k' : A → bytes → M cbb_st bytes) i o :
  (∀ o, m' o = let '(r, (i, o)) := m (i, o) in ((λ a, (a, i)) <$> r, o)) → (∀ a i o, k' a i o = as_result (k a) i o) →
  ('(a, i) ← m'; k' a i) o = as_result (m ≫= k) i o.
Proof.
  intros Hm Hk. unfold as_result, mbind, M_bind. rewrite Hm. destruct (m (i, o)) as [[a|] [i' o']]; cbn; [|done]. by rewrite Hk.
Qed.

Lemma on_out_bind {A} (m : M cbb_st A) (k : A → M convert_st ()) (k' : A → M cbb_st bytes) i o :
  (∀ a o, k' a o = as_result (k a) i o) → (m ≫= k') o = as_result (on_out m ≫= k) i o.
Proof. intros Hk. unfold as_result, mbind, M_bind, on_out. destruct (m o) as [[a|] o']; cbn; [apply Hk|done]. Qed.

(** A nested conversion: in place of [out] or its child, on the same input. *)
Lemma nested_bind st (m : M convert_st ()) (m' : M cbb_st bytes) (k : () → M convert_st ()) (k' : bytes → M cbb_st bytes) i o :
  (∀ o, m' o = as_result m i o) → (∀ i o, k' i o = as_result (k tt) i o) →
  (i ← (if negb (st =? 0) then m' else on_child m'); k' i) o = as_result ((if negb (st =? 0) then m else with_child m) ≫= k) i o.
Proof.
  intros Hm Hk. unfold as_result, mbind, M_bind in *. destruct (negb (st =? 0)).
  - rewrite Hm. destruct (m (i, o)) as [[[]|] [i' o']]; cbn; [|done]. by rewrite Hk.
  - unfold on_child, with_child. destruct (child (this o)) as [ch|]; [|done]. rewrite Hm.
    destruct (m _) as [[[]|] [i' o']]; cbn; [|done]. by rewrite Hk.
Qed.

Lemma nested_in st (m : M convert_st ()) (m' : M cbb_st bytes) contents (k : () → M convert_st ()) (k' : M cbb_st bytes) i o :
  (∀ o, m' o = as_result m contents o) → (∀ o, k' o = as_result (k tt) i o) →
  (((if negb (st =? 0) then m' else on_child m');; mret ());; k') o =
  as_result (with_in contents (if negb (st =? 0) then m else with_child m) ≫= k) i o.
Proof.
  intros Hm Hk. unfold as_result, with_in, mbind, M_bind, mret, M_ret in *. destruct (negb (st =? 0)).
  - rewrite Hm. destruct (m (contents, o)) as [[[]|] [i' o']]; cbn; [|done]. by rewrite Hk.
  - unfold on_child, with_child. destruct (child (this o)) as [ch|]; [|done]. rewrite Hm.
    destruct (m _) as [[[]|] [i' o']]; cbn; [|done]. by rewrite Hk.
Qed.

Lemma nested_out st (m : M cbb_st ()) (k : () → M convert_st ()) (k' : M cbb_st bytes) i o :
  (∀ o, k' o = as_result (k tt) i o) →
  ((if negb (st =? 0) then m else on_child m);; k') o =
  as_result ((if negb (st =? 0) then on_out m else with_child (on_out m)) ≫= k) i o.
Proof.
  intros Hk. unfold as_result, on_out, mbind, M_bind in *. destruct (negb (st =? 0)).
  - destruct (m o) as [[[]|] o']; cbn; [|done]. by rewrite Hk.
  - unfold on_child, with_child. destruct (child (this o)) as [ch|]; [|done].
    destruct (m _) as [[[]|] o']; cbn; [|done]. by rewrite Hk.
Qed.

Lemma as_result_getS (k : bytes → M convert_st ()) i o : as_result ('(i, _) ← getS; k i) i o = as_result (k i) i o.
Proof. reflexivity. Qed.

Lemma convert_ber_eq fuel input st eoc depth o :
  convert_ber fuel input st eoc depth o = as_result (cbs_convert_ber fuel st eoc depth) input o.
Proof.
  revert input st eoc depth o. induction fuel as [|f IH]; intros input st eoc depth o; [done|]. cbn [convert_ber cbs_convert_ber].
  destruct (kMaxDepth <? depth); [done|]. rewrite (as_result_getS (λ input, _)). destruct (CBS_len input =? 0); [by destruct eoc|].
  apply (as_result_bind (on_in CBS_get_any_ber_asn1_element)).
  { intros o'. unfold on_copy, on_in. by destruct (CBS_get_any_ber_asn1_element input) as [[el|] i]. }
  intros el i' o'. cbv zeta. destruct (is_eoc _ _); [by destruct eoc|]. set (t := child_tag st (el_tag el)).
  assert (∀ (k : () → M convert_st ()) (k' : M cbb_st bytes), (∀ o, k' o = as_result (k tt) i' o) → ∀ o,
    ((if negb (st =? 0) then ensure (primitive_tag (el_tag el) =? st) else CBB_add_asn1 (out_tag (el_tag el)));; k') o =
    as_result ((if negb (st =? 0) then ensure (primitive_tag (el_tag el) =? st) else on_out (CBB_add_asn1 (out_tag (el_tag el)))) ≫= k) i' o) as Htag.
  { intros k k' Hk o1. destruct (negb (st =? 0)); [|apply (on_out_bind _ k (λ _, k')); intros [] o2; apply Hk].
    unfold as_result, mbind, M_bind, ensure. destruct (_ =? st); [apply Hk|done]. }
  apply (Htag (λ _, _)). clear Htag. intros o1. destruct (_ && _ && _).
  - apply nested_bind; [intros; apply IH|]. intros i2 o2. apply on_out_bind. intros _ o3. apply IH.
  - unfold as_result at 1. unfold mbind at 1 6, M_bind at 1 6. unfold on_copy. destruct (CBS_skip _ _) as [[u|] contents]; [|done]. cbv beta iota.
    set (k := λ _ : (), on_out CBB_flush;; cbs_convert_ber f st eoc depth).
    assert (∀ o, (CBB_flush;; convert_ber f i' st eoc depth) o = as_result (k tt) i' o) as Hk by (intros o2; apply on_out_bind; intros _ o3; apply IH).
    destruct (negb (_ =? 0)).
    + apply (nested_in st _ _ contents k); [intros; apply IH|exact Hk].
    + apply (nested_out st _ k); exact Hk.
Qed.


(** A round of the loop on an element. *)
Definition convert_element (f : nat) (el : asn1_element) (input : bytes) (st : Z) (eoc : bool)
    (depth : Z) : M cbb_st bytes :=
  (if negb (st =? 0) then ensure (primitive_tag (el_tag el) =? st)
   else CBB_add_asn1 (out_tag (el_tag el)));;
  if is_indefinite el then
    input ← (if negb (st =? 0) then convert_ber f input (child_tag st (el_tag el)) true (depth + 1)
             else on_child (convert_ber f input (child_tag st (el_tag el)) true (depth + 1)));
    CBB_flush;;
    convert_ber f input st eoc depth
  else
    '(_, contents) ← on_copy (CBS_skip (el_header_len el)) (el_out el);
    (if constructed (el_tag el) then
       (if negb (st =? 0) then convert_ber f contents (child_tag st (el_tag el)) false (depth + 1)
        else on_child (convert_ber f contents (child_tag st (el_tag el)) false (depth + 1)));;
       mret ()
     else if negb (st =? 0) then CBB_add_bytes contents else on_child (CBB_add_bytes contents));;
    CBB_flush;;
    convert_ber f input st eoc depth.

Lemma element_size el : ber_parsed el → (2 <= length (el_out el))%nat.
Proof.
  intros [tag l c Ht Hl|tag Ht Hc]; cbn; rewrite !length_app; pose proof (lenZ_tag_bytes tag Ht) as H1;
    unfold lenZ in H1; cbn; [|lia].
  destruct (ber_length_fits _ _ Hl) as (_ & H2 & _). unfold lenZ in H2. lia.
Qed.

Lemma convert_step f el input st eoc depth cbb :
  ber_parsed el → bytes_ok (el_out el ++ input) → depth <= kMaxDepth →
  convert_ber (S f) (el_out el ++ input) st eoc depth cbb =
  (if bool_decide (el_out el = [0; 0]) then (if eoc then mret input else ret0)
   else convert_element f el input st eoc depth) cbb.
Proof.
  intros Hp Hok Hd. pose proof (ber_read_complete el input Hp Hok) as Hr.
  cbn [convert_ber]. destruct (Z.ltb_spec kMaxDepth depth); [lia|].
  pose proof (element_size el Hp) as Hl.
  assert ((CBS_len (el_out el ++ input) =? 0) = false) as ->
    by (apply Z.eqb_neq; unfold CBS_len, lenZ; rewrite length_app; lia).
  rewrite (bind_some _ _ cbb (el, input) cbb) by (by apply on_copy_iff). cbv beta iota zeta.
  rewrite is_eoc_parsed by done. destruct (bool_decide _); [done|]. reflexivity.
Qed.

(** An element written to the child or to [out] itself, and what follows. *)
Lemma yields_out {A B} st tag (body : M cbb_st A) a inner (k : A → M cbb_st B) b bs :
  fragment_ok st tag → fits 32 tag → lenZ inner <= 0xfffffffe →
  yields body a inner → yields (k a) b bs →
  yields ((if negb (st =? 0) then ensure (primitive_tag tag =? st) else CBB_add_asn1 (out_tag tag));;
          x ← (if negb (st =? 0) then body else on_child body);
          CBB_flush;; k x) b (wrap_element st tag inner ++ bs).
Proof.
  intros Hst Ht Hl Hb Hk. unfold wrap_element. destruct (Z.eqb_spec st 0) as [->|Hne]; cbn [negb].
  - pose proof (yields_bind _ k _ _ _ _
      (yields_asn1 (out_tag tag) body a inner (out_tag_fits tag Ht) Hl Hb) Hk) as H.
    eapply yields_ext; [|exact H]. intros s. rewrite bind_assoc. apply bind_ext. intros _ s1. rewrite bind_assoc.
    apply bind_ext. intros x s2. rewrite bind_assoc. apply bind_ext. by intros _ s3.
  - destruct Hst as [|Hst]; [done|]. rewrite Hst, Z.eqb_refl.
    eapply yields_ext; [intros s; symmetry; apply bind_ensure|].
    apply yields_bind with a; [done|]. rewrite <-(app_nil_l bs).
    apply yields_bind with tt; [apply yields_unit, emits_flush|done].
Qed.

Lemma skip_header tag l c u :
  CBS_skip (el_header_len (ber_definite tag l c)) (el_out (ber_definite tag l c)) = (Some u, c).
Proof. apply CBS_skip_iff; [apply lenZ_nonneg|]. by exists (tag_bytes tag ++ l). Qed.

Lemma yields_convert depth st eoc s out rest :
  ber_der depth st eoc s out rest → bytes_ok s → lenZ s <= 2 ^ 30 →
  ∀ f, (length s < f)%nat → yields (convert_ber f s st eoc depth) rest out.
Proof.
  change (2 ^ 30) with 1073741824.
  assert (∀ x : bytes, lenZ x <= 3 * 1073741824 → lenZ x <= 0xfffffffe) as Hbig by lia.
  induction 1 as [depth st Hd|depth st rest Hd|depth st eoc tag l c s out rest Hd Ht Hc Hl He Hst Hs IH
    |depth st eoc tag l c s inner out rest Hd Ht Hc Hl Hst Hin IHc Hs IH
    |depth st eoc tag s inner s' out rest Hd Ht Hc Hst Hin IHc Hs IH]; intros Hok Hsz [|f] Hf; try lia.
  - eapply yields_ext; [|apply (yields_ret [])]. intros cbb. cbn [convert_ber].
    by destruct (Z.ltb_spec kMaxDepth depth); [lia|].
  - eapply yields_ext; [|apply (yields_ret rest)]. intros cbb.
    change (0 :: 0 :: rest) with (el_out (ber_definite 0 [0] []) ++ rest) in Hok |- *.
    rewrite convert_step; [|constructor; [done|by left]|done|done]. by rewrite bool_decide_true.
  - rewrite lenZ_app in Hsz. rewrite length_app in Hf. pose proof Hok as [_ Hoks]%bytes_ok_app.
    destruct (ber_length_fits _ _ Hl) as (Hfc & _ & _).
    assert (lenZ c <= lenZ (el_out (ber_definite tag l c))) by (cbn; llia).
    pose proof (lenZ_nonneg s). pose proof (lenZ_nonneg c).
    eapply yields_ext.
    { intros cbb. symmetry. rewrite convert_step by (done || by constructor).
      by rewrite bool_decide_false. }
    unfold convert_element. rewrite is_indefinite_definite by done. cbn [el_tag ber_definite].
    fold (ber_definite tag l c). rewrite Hc.
    eapply yields_ext; [|apply (yields_out st tag (CBB_add_bytes c) tt c (λ _, convert_ber f s st eoc depth));
      [done|done|apply Hbig; lia|apply yields_unit, emits_add_bytes; mlia|apply IH; [done|lia|]]].
    + intros cbb. apply bind_ext. intros [] s1. symmetry.
      by rewrite (bind_some _ _ s1 (tt, c) s1) by (by apply on_copy_iff; split; [apply skip_header|]).
    + pose proof (element_size (ber_definite tag l c) ltac:(by constructor)). lia.
  - rewrite lenZ_app in Hsz. rewrite length_app in Hf.
    pose proof Hok as [Hokc Hoks]%bytes_ok_app. cbn [el_out ber_definite] in Hokc.
    apply bytes_ok_app in Hokc as [_ Hokc].
    destruct (ber_length_fits _ _ Hl) as (Hfc & _ & _).
    assert (lenZ c + 2 <= lenZ (el_out (ber_definite tag l c))) as Hlc.
    { cbn. pose proof (lenZ_tag_bytes tag Ht). pose proof (ber_length_fits _ _ Hl). llia. }
    pose proof (lenZ_nonneg s). pose proof (lenZ_nonneg c).
    destruct (ber_der_size _ _ _ _ _ _ Hin) as [_ Hinner]; [change (2 ^ 30) with 1073741824; lia|].
    rewrite lenZ_nil in Hinner.
    eapply yields_ext.
    { intros cbb. symmetry. rewrite convert_step by (done || by constructor).
      rewrite bool_decide_false; [done|]. intros Heoc.
      apply eoc_primitive in Heoc; [cbn in Heoc; congruence|by constructor]. }
    unfold convert_element. rewrite is_indefinite_definite by done. cbn [el_tag ber_definite].
    fold (ber_definite tag l c). rewrite Hc.
    eapply yields_ext; [|apply (yields_out st tag (convert_ber f c (child_tag st tag) false (depth + 1))
        [] inner (λ _, convert_ber f s st eoc depth));
      [done|done|apply Hbig; lia|apply IHc; [done|lia|]|apply IH; [done|lia|]]].
    + intros cbb. apply bind_ext. intros [] s1. symmetry.
      rewrite (bind_some _ _ s1 (tt, c) s1) by (by apply on_copy_iff; split; [apply skip_header|]).
      rewrite bind_assoc. by apply bind_ext.
    + unfold lenZ in Hlc. lia.
    + unfold lenZ in Hlc. lia.
  - rewrite lenZ_app in Hsz. rewrite length_app in Hf. pose proof Hok as [_ Hoks]%bytes_ok_app.
    assert (2 <= lenZ (el_out (ber_indefinite tag))) as Hlc.
    { cbn. pose proof (lenZ_tag_bytes tag Ht). llia. }
    pose proof (lenZ_nonneg s). pose proof (lenZ_nonneg s').
    destruct (ber_der_size _ _ _ _ _ _ Hin) as [Hs' Hinner]; [change (2 ^ 30) with 1073741824; lia|].
    eapply yields_ext.
    { intros cbb. symmetry. rewrite convert_step by (done || by constructor).
      rewrite bool_decide_false; [done|]. intros Heoc.
      apply eoc_primitive in Heoc; [cbn in Heoc; congruence|by constructor]. }
    unfold convert_element. rewrite is_indefinite_indefinite. cbn [el_tag ber_indefinite].
    apply yields_out with s'; [done|done|apply Hbig; lia|apply IHc; [done|lia|]|].
    + unfold lenZ in Hlc. lia.
    + apply IH; [by eapply ber_der_rest_ok|lia|]. unfold lenZ in *. lia.
Qed.
Lemma ber_der_no_eoc depth st s out rest : ber_der depth st false s out rest → rest = [].
Proof. intros H. remember false as eoc eqn:He. by induction H; auto. Qed.

Lemma on_child_inv {A} (m : M cbb_st A) cbb a cbb' :
  on_child m cbb = (Some a, cbb') → ∃ s s', m s = (Some a, s').
Proof.
  unfold on_child. destruct (child (this cbb)) as [ch|]; [|done].
  destruct (m _) as [r s'] eqn:Hm. intros [= -> _]. by eexists _, _.
Qed.

(** A nested conversion, on the child or on [out] itself. *)
Lemma convert_out_inv {A} (st : Z) (m : M cbb_st A) cbb a cbb' :
  (if negb (st =? 0) then m else on_child m) cbb = (Some a, cbb') → ∃ s s', m s = (Some a, s').
Proof. destruct (negb _); [eauto|apply on_child_inv]. Qed.

Lemma convert_sound f s st eoc depth cbb rest cbb' :
  bytes_ok s → convert_ber f s st eoc depth cbb = (Some rest, cbb') →
  ∃ out, ber_der depth st eoc s out rest.
Proof.
  revert s st eoc depth cbb rest cbb'.
  induction f as [|f IH]; intros s st eoc depth cbb rest cbb' Hok H; [by destruct (ret0_inv _ _ _ H)|].
  assert (depth <= kMaxDepth) as Hd
    by (cbn in H; destruct (Z.ltb_spec kMaxDepth depth); [by destruct (ret0_inv _ _ _ H)|done]).
  destruct (CBS_get_any_ber_asn1_element s) as [[el|] input] eqn:Hr; cycle 1.
  { cbn in H. destruct (Z.ltb_spec kMaxDepth depth); [lia|]. unfold CBS_len in H.
    destruct (Z.eqb_spec (lenZ s) 0) as [Hl|].
    - apply Z.eq_le_incl, lenZ_0_nil in Hl as ->. destruct eoc; [by destruct (ret0_inv _ _ _ H)|].
      apply ret_inv in H as [<- _]. exists []. by constructor.
    - by rewrite (bind_none _ _ _ cbb) in H by (unfold on_copy; by rewrite Hr). }
  apply ber_read_sound in Hr as [Hp ->]; [|done]. rewrite convert_step in H by done.
  pose proof Hok as [Hoke Hoki]%bytes_ok_app.
  destruct (bool_decide_reflect (el_out el = [0; 0])) as [Heoc|Hneoc].
  { destruct eoc; [|by destruct (ret0_inv _ _ _ H)]. apply ret_inv in H as [-> _].
    exists []. rewrite Heoc. by constructor. }
  unfold convert_element in H. apply bind_inv in H as (u1 & st1 & H1 & H).
  assert (fragment_ok st (el_tag el)) as Hst.
  { destruct (Z.eqb_spec st 0) as [->|]; [by left|right]. by apply ensure_inv in H1 as [H1%Z.eqb_eq _]. }
  destruct Hp as [tag l c Ht Hl|tag Ht Hc].
  - rewrite is_indefinite_definite in H by done. cbn [el_tag ber_definite] in H, Hst.
    fold (ber_definite tag l c) in H.
    apply bind_inv in H as ([u2 contents] & st2 & H2 & H). apply on_copy_iff in H2 as [H2 <-].
    rewrite (skip_header tag l c u2) in H2. injection H2 as <-.
    apply bind_inv in H as (u3 & st3 & H3 & H). apply bind_inv in H as (u4 & st4 & _ & H).
    apply IH in H as [out Hout]; [|done].
    destruct (constructed tag) eqn:Hc.
    + apply bind_inv in H3 as (r & st5 & H3 & _). apply convert_out_inv in H3 as (s1 & s2 & H3).
      apply IH in H3 as [inner Hin]; [|by cbn in Hoke; apply bytes_ok_app in Hoke as [_ Hoke]].
      pose proof (ber_der_no_eoc _ _ _ _ _ Hin) as ->.
      eexists. by eapply ber_der_definite.
    + eexists. by apply ber_der_primitive.
  - rewrite is_indefinite_indefinite in H. cbn [el_tag ber_indefinite] in H, Hst.
    apply bind_inv in H as (s' & st2 & H2 & H). apply bind_inv in H as (u4 & st4 & _ & H).
    apply convert_out_inv in H2 as (s1 & s2 & H2). apply IH in H2 as [inner Hin]; [|done].
    apply IH in H as [out Hout]; [|by eapply ber_der_rest_ok].
    eexists. by eapply ber_der_indefinite.
Qed.

(** * DER contents *)

(** A sequence of DER elements whose constructed elements hold such sequences
    and whose strings are primitive, nested at most to [kMaxDepth]. *)
Inductive der_forest : Z → bytes → Prop :=
  | der_forest_nil depth : depth <= kMaxDepth → der_forest depth []
  | der_forest_primitive depth tag c s :
      fits 32 tag → fits 32 (lenZ c) → constructed tag = false →
      der_forest depth s → der_forest depth (der_element tag c ++ s)
  | der_forest_constructed depth tag c s :
      fits 32 tag → fits 32 (lenZ c) → constructed tag = true → is_string_type tag = false →
      der_forest (depth + 1) c → der_forest depth s → der_forest depth (der_element tag c ++ s).

Lemma der_forest_depth depth s : der_forest depth s → depth <= kMaxDepth.
Proof. by induction 1. Qed.

Lemma convert_der_forest depth st eoc s out rest :
  ber_der depth st eoc s out rest → lenZ s <= 2 ^ 30 → st = 0 → der_forest depth out.
Proof.
  change (2 ^ 30) with 1073741824.
  assert (∀ tag inner, fits 32 tag → constructed tag = true → fits 32 (lenZ inner) →
    ∀ depth out, (child_tag 0 tag = 0 → der_forest (depth + 1) inner) → der_forest depth out →
    der_forest depth (wrap_element 0 tag inner ++ out)) as Hwrap.
  { intros tag inner Ht Hc Hi depth' out' Hin Hout. unfold wrap_element. cbn [Z.eqb].
    unfold out_tag, child_tag in *. rewrite Hc in *. cbn [andb Z.eqb negb] in *.
    destruct (is_string_type tag) eqn:Hs.
    - apply der_forest_primitive; [by apply primitive_tag_fits|done|apply constructed_primitive_tag|done].
    - apply der_forest_constructed; [done|done|done|done|by apply Hin|done]. }
  assert (∀ c x, lenZ x <= 3 * lenZ (c : bytes) → lenZ c <= 1073741824 → fits 32 (lenZ (x : bytes))) as Hfit
    by (intros; llia).
  induction 1 as [depth st Hd|depth st rest Hd|depth st eoc tag l c s out rest Hd Ht Hc Hl He Hst Hs IH
    |depth st eoc tag l c s inner out rest Hd Ht Hc Hl Hst Hin IHc Hs IH
    |depth st eoc tag s inner s' out rest Hd Ht Hc Hst Hin IHc Hs IH]; intros Hsz ->.
  - by constructor.
  - by constructor.
  - unfold wrap_element. cbn [Z.eqb]. unfold out_tag. rewrite Hc. cbn [andb].
    apply der_forest_primitive; [done|by apply (ber_length_fits _ _ Hl)|done|].
    apply IH; [llia|done].
  - cbn in Hsz. destruct (ber_der_size _ _ _ _ _ _ Hin) as [_ Hi]; [change (2 ^ 30) with 1073741824; llia|].
    apply Hwrap; [done|done| | |].
    + apply (Hfit c); [rewrite lenZ_nil in Hi; lia|llia].
    + intros H0. apply IHc; [llia|done].
    + apply IH; [llia|done].
  - cbn in Hsz. destruct (ber_der_size _ _ _ _ _ _ Hin) as [Hs' Hi]; [change (2 ^ 30) with 1073741824; llia|].
    apply Hwrap; [done|done| | |].
    + apply (Hfit s); llia.
    + intros H0. apply IHc; [llia|done].
    + apply IH; [llia|done].
Qed.

(** The loop of [cbs_find_ber] on a DER element. *)
Lemma find_ber_step f tag c s b depth :
  fits 32 tag → fits 32 (lenZ c) → bytes_ok (der_element tag c ++ s) → (length (der_element tag c ++ s) <= f)%nat →
  ∃ f', f = S f' ∧ (length c <= f')%nat ∧ (length s <= f')%nat ∧
    (lenZ (der_element tag c ++ s) =? 0) = false ∧ bytes_ok c ∧ bytes_ok s ∧
    cbs_find_ber_loop f (der_element tag c ++ s) b depth =
    (if constructed tag then
       if is_string_type tag then Some true
       else if kMaxDepth <? depth + 1 then None
       else (bf ← cbs_find_ber_loop f' c false (depth + 1); cbs_find_ber_loop f' s bf depth)
     else cbs_find_ber_loop f' s false depth).
Proof.
  intros Ht Hc Hok Hf. pose proof Hok as [Hokd Hoks]%bytes_ok_app.
    assert (bytes_ok c) as Hokc by (by eapply der_element_contents_ok).
    destruct (der_parsed_ber tag c Ht Hc) as [Hpe Hp]. pose proof (element_size _ Hp) as Hsz.
    assert (2 + length c <= length (der_element tag c))%nat as Hlen.
    { unfold der_element, der_header. rewrite !length_app. pose proof (lenZ_tag_bytes tag Ht) as H1.
      pose proof (lenZ_len_bytes _ Hc) as H2. unfold lenZ in *. lia. }
    rewrite length_app in Hf. destruct f as [|f']; [lia|]. exists f'.
    assert ((lenZ (der_element tag c ++ s) =? 0) = false) as Hne
      by (apply Z.eqb_neq; unfold lenZ; rewrite length_app; lia).
    split_and!; [done|lia|lia|done|done|done|].
    cbn [cbs_find_ber_loop]. unfold CBS_len. rewrite Hne.
    change (der_element tag c) with (el_out (der_parsed tag c)).
    rewrite (ber_read_complete (der_parsed tag c) s Hp Hok).
    assert (CBS_skip (el_header_len (der_parsed tag c)) (el_out (der_parsed tag c)) = (Some (), c)) as Hsk
      by (rewrite Hpe; apply skip_header).
    rewrite Hsk. cbn [el_ber_found der_parsed el_tag]. fold (constructed tag).
    by destruct (constructed tag), (is_string_type tag).
Qed.

(** [cbs_find_ber] lets DER contents pass. *)
Lemma find_ber_der depth s :
  der_forest depth s → bytes_ok s → ∀ f b, (length s <= f)%nat →
  cbs_find_ber_loop f s b depth = Some (if lenZ s =? 0 then b else false).
Proof.
  induction 1 as [depth Hd|depth tag c s Ht Hc Hct Hs IH|depth tag c s Ht Hc Hct Hst Hin IHc Hs IH];
    intros Hok f b Hf.
  - by destruct f.
  - destruct (find_ber_step f tag c s b depth Ht Hc Hok Hf) as (f' & -> & Hf1 & Hf2 & -> & Hokc & Hoks & ->).
    rewrite Hct, IH by done. by destruct (_ =? _).
  - destruct (find_ber_step f tag c s b depth Ht Hc Hok Hf) as (f' & -> & Hf1 & Hf2 & -> & Hokc & Hoks & ->).
    rewrite Hct, Hst. pose proof (der_forest_depth _ _ Hin).
    destruct (Z.ltb_spec kMaxDepth (depth + 1)); [lia|].
    rewrite IHc by done. cbn [mbind option_bind]. rewrite IH by done.
    by destruct (lenZ c =? 0), (lenZ s =? 0).
Qed.



(** * [CBS_asn1_ber_to_der] *)

(** The run on the output alone, but for what is left of the input after a failure. *)
Lemma ber_to_der_convert input cbb :
  cbs_find_ber input 0 = Some true → CBB_init (CBS_len input) = Some cbb →
  match with_finish (convert_ber (convert_fuel input) input 0 false 0) cbb with
  | (None, _) => (CBS_asn1_ber_to_der input).1 = None
  | (Some (rest, data, len), _) => CBS_asn1_ber_to_der input = (Some (takeZ len data, Some data), rest)
  end.
Proof.
  intros Hf Hi. unfold CBS_asn1_ber_to_der. rewrite Hf, Hi. unfold with_finish, mbind, M_bind, mret, M_ret.
  rewrite convert_ber_eq. unfold as_result, on_out.
  destruct (cbs_convert_ber _ _ _ _ _) as [[[]|] [i o]]; cbn; [|done].
  by destruct (CBB_finish true true o) as [[[data len]|] o'].
Qed.

Lemma ber_to_der_sound input r rest :
  bytes_ok input → lenZ input <= 2 ^ 30 → cbs_find_ber input 0 = Some true →
  CBS_asn1_ber_to_der input = (Some r, rest) →
  ber_der 0 0 false input r.1 [] ∧ r.2 ≠ None ∧ rest = [].
Proof.
  intros Hok Hl Hf H. destruct (CBB_init (CBS_len input)) as [cbb|] eqn:Hi; cycle 1.
  { unfold CBS_asn1_ber_to_der in H. by rewrite Hf, Hi in H. }
  pose proof (ber_to_der_convert input cbb Hf Hi) as Hr.
  destruct (with_finish _ cbb) as [[[[rest' data] len]|] st'] eqn:Hw; rewrite H in Hr; [|done].
  injection Hr as -> ->. pose proof Hw as Hc. apply bind_inv in Hc as (rest1 & st1 & Hc & Hw1).
  destruct (convert_sound _ _ _ _ _ _ _ _ Hok Hc) as [out Hout].
  pose proof (ber_der_no_eoc _ _ _ _ _ Hout) as ->.
  destruct (with_finish_spec (CBS_len input) (convert_ber (convert_fuel input) input 0 false 0) [] out cbb)
    as [Hs _].
  - unfold CBS_len. change (2 ^ 30) with 1073741824 in Hl. llia.
  - done.
  - apply yields_convert; [done|done|done|unfold convert_fuel; lia].
  - destruct (Hs _ _ Hw) as (d & l & [= -> -> ->] & <-). done.
Qed.

Lemma ber_to_der_complete input out :
  reliable_malloc → bytes_ok input → lenZ input <= 2 ^ 30 → cbs_find_ber input 0 = Some true →
  ber_der 0 0 false input out [] → ∃ data, CBS_asn1_ber_to_der input = (Some (out, Some data), []).
Proof.
  intros Hm Hok Hl Hf Hout. pose proof Hl as Hl'. change (2 ^ 30) with 1073741824 in Hl'.
  destruct (CBB_init_total (CBS_len input) Hm) as [cbb Hi].
  { unfold CBS_len. change (2 ^ 62) with 4611686018427387904. llia. }
  pose proof (ber_to_der_convert input cbb Hf Hi) as Hr.
  destruct (ber_der_size _ _ _ _ _ _ Hout Hl) as [_ Hsz].
  destruct (with_finish_spec (CBS_len input) (convert_ber (convert_fuel input) input 0 false 0) [] out cbb)
    as [_ Hs].
  - unfold CBS_len. llia.
  - done.
  - apply yields_convert; [done|done|done|unfold convert_fuel; lia].
  - destruct (Hs Hm) as (d & l & st' & E & <-); [change (2 ^ 61) with 2305843009213693952; llia|].
    rewrite E in Hr. by exists d.
Qed.

(** * Implicitly tagged strings *)

Lemma emits_implicit_chunks f inner chunks :
  fits 32 inner → Forall (λ c, fits 32 (lenZ c)) chunks → bytes_ok (concat (der_element inner <$> chunks)) →
  (length (concat (der_element inner <$> chunks)) <= f)%nat →
  emits (implicit_chunks f (concat (der_element inner <$> chunks)) inner) (concat chunks).
Proof.
  intros Hi Hc. revert f. induction Hc as [|c chunks Hc _ IH]; intros f Hok Hf.
  { destruct f; apply (emits_pure (λ _, tt)). }
  cbn [fmap list_fmap concat] in *. change (list_fmap _ _ (der_element inner) chunks) with (der_element inner <$> chunks) in *.
  pose proof Hok as [Hokc Hok']%bytes_ok_app. rewrite length_app in Hf.
  pose proof (element_size _ (proj2 (der_parsed_ber inner c Hi Hc))) as Hsz. cbn in Hsz.
  destruct f as [|f]; [lia|]. cbn [implicit_chunks].
  assert ((CBS_len (der_element inner c ++ concat (der_element inner <$> chunks)) =? 0) = false) as ->
    by (apply Z.eqb_neq; unfold CBS_len, lenZ; rewrite length_app; lia).
  apply (emits_on_copy _ _ c (concat (der_element inner <$> chunks))).
  { by apply CBS_get_asn1_iff. }
  apply emits_bind; [apply emits_add_bytes; unfold CBS_data; mlia|intros _; apply IH; [done|lia]].
Qed.

Lemma implicit_chunks_sound f child inner cbb u cbb' :
  bytes_ok child → implicit_chunks f child inner cbb = (Some u, cbb') →
  ∃ chunks, child = concat (der_element inner <$> chunks) ∧ (chunks ≠ [] → fits 32 inner) ∧
            Forall (λ c, fits 32 (lenZ c)) chunks.
Proof.
  revert child cbb. induction f as [|f IH]; intros child cbb Hok; cbn [implicit_chunks]; unfold CBS_len;
    (destruct (Z.eqb_spec (lenZ child) 0) as [Hl|];
      [intros _; exists []; by apply Z.eq_le_incl, lenZ_0_nil in Hl as ->|]).
  { by intros []%ret0_inv. }
  intros H. apply on_copy_bind_inv in H as (c & child' & Hg & H).
  apply CBS_get_asn1_iff in Hg as (-> & Hi & Hc); [|done].
  apply bind_inv in H as (u1 & st1 & _ & H). apply bytes_ok_app in Hok as [_ Hok].
  apply IH in H as (chunks & -> & _ & Hcs); [|done]. exists (c :: chunks). split_and!; [done|done|by constructor].
Qed.

End ber_facts.

(** ** Reading an implicitly tagged string *)

Lemma constructed_bit tag : constructed (tag .| CBS_ASN1_CONSTRUCTED) = true.
Proof.
  unfold constructed. rewrite negb_true_iff. apply Z.eqb_neq. intros H.
  assert (Z.testbit ((tag .| CBS_ASN1_CONSTRUCTED) .& CBS_ASN1_CONSTRUCTED) 29 = false) as Hb
    by (rewrite H; apply Z.bits_0).
  rewrite Z.land_spec, Z.lor_spec in Hb. change (Z.testbit CBS_ASN1_CONSTRUCTED 29) with true in Hb.
  by rewrite orb_true_r in Hb.
Qed.

Lemma constructed_fits tag : fits 32 tag → fits 32 (tag .| CBS_ASN1_CONSTRUCTED).
Proof. intros Ht. apply fits_lor; [done|done|decide_now]. Qed.

Lemma peek_tag tag tag' c rest :
  fits 32 tag' → bytes_ok (der_element tag' c ++ rest) →
  CBS_peek_asn1_tag (der_element tag' c ++ rest) tag = (tag =? tag').
Proof.
  intros Ht Hok. unfold CBS_peek_asn1_tag, CBS_len.
  destruct (Z.ltb_spec (lenZ (der_element tag' c ++ rest)) 1) as [Hl|_].
  { unfold der_element, der_header in Hl. autorewrite with lenZ in Hl.
    pose proof (lenZ_tag_bytes tag' Ht). pose proof (lenZ_nonneg c). pose proof (lenZ_nonneg rest).
    pose proof (lenZ_nonneg (len_bytes (lenZ c))). lia. }
  rewrite (proj2 (parse_asn1_tag_iff _ tag' (len_bytes (lenZ c) ++ c ++ rest) Hok)); [done|].
  split; [|done]. unfold der_element, der_header. by rewrite <-!app_assoc.
Qed.

Lemma lenZ_chunks inner chunks : lenZ (concat chunks) <= lenZ (concat (der_element inner <$> chunks)).
Proof.
  induction chunks as [|c chunks IH]; [done|]. cbn [fmap list_fmap concat] in *.
  change (list_fmap _ _ (der_element inner) chunks) with (der_element inner <$> chunks).
  unfold der_element at 1. autorewrite with lenZ. pose proof (lenZ_nonneg (der_header inner (lenZ c))). lia.
Qed.

(** The work on the constructed form. *)
Lemma implicit_constructed {libc : Libc} input outer inner :
  CBS_peek_asn1_tag input outer = false →
  CBS_get_asn1_implicit_string outer inner input =
  match CBB_init (CBS_len input) with
  | None => (None, input)
  | Some cbb =>
      match CBS_get_asn1 (outer .| CBS_ASN1_CONSTRUCTED) input with
      | (None, rest) => (None, rest)
      | (Some child, rest) =>
          match fst (with_finish (implicit_chunks (length child) child inner) cbb) with
          | None => (None, rest)
          | Some (_, data, len) => (Some (CBS_init data len, Some data), rest)
          end
      end
  end.
Proof.
  intros Hp. unfold CBS_get_asn1_implicit_string, with_finish, mbind, M_bind, getS, liftO.
  rewrite Hp. destruct (CBB_init (CBS_len input)) as [cbb|]; [|done].
  destruct (CBS_get_asn1 _ input) as [[child|] rest]; [|done].
  destruct (implicit_chunks _ _ _ cbb) as [[u|] st]; [|done].
  by destruct (CBB_finish true true st) as [[[data len]|] st'].
Qed.

Lemma yields_chunks {libc : Libc} inner chunks :
  (chunks ≠ [] → fits 32 inner) → Forall (λ c, fits 32 (lenZ c)) chunks →
  bytes_ok (concat (der_element inner <$> chunks)) →
  yields (implicit_chunks (length (concat (der_element inner <$> chunks)))
            (concat (der_element inner <$> chunks)) inner) tt (concat chunks).
Proof.
  intros Hi Hc Hoc. apply yields_unit. destruct chunks as [|c chunks]; [apply (emits_pure (λ _, tt))|].
  apply emits_implicit_chunks; [by apply Hi|done|done|lia].
Qed.

Lemma implicit_constructed_sound {libc : Libc} input outer inner out storage rest :
  bytes_ok input → fits 64 (CBS_len input) → CBS_peek_asn1_tag input outer = false →
  CBS_get_asn1_implicit_string outer inner input = (Some (out, storage), rest) →
  ∃ chunks, (chunks ≠ [] → fits 32 inner) ∧ Forall (λ c, fits 32 (lenZ c)) chunks ∧
     fits 32 (lenZ (concat (der_element inner <$> chunks))) ∧ out = concat chunks ∧
     input = der_element (outer .| CBS_ASN1_CONSTRUCTED) (concat (der_element inner <$> chunks)) ++ rest.
Proof.
  intros Hok H64 Hp H. rewrite implicit_constructed in H by done.
  destruct (CBB_init (CBS_len input)) as [cbb|] eqn:Hi; [|done].
  destruct (CBS_get_asn1 _ input) as [[child|] r] eqn:Hg; [|done].
  apply CBS_get_asn1_iff in Hg as (-> & _ & Hfc); [|done].
  pose proof Hok as [Hokc%der_element_contents_ok _]%bytes_ok_app.
  destruct (with_finish _ cbb) as [[[[u data] len]|] st] eqn:Hw; [|done]. injection H as <- _ ->.
  pose proof Hw as Hw'. apply bind_inv in Hw' as (u' & st1 & Hr & _).
  apply implicit_chunks_sound in Hr as (chunks & -> & Hin & Hcs); [|done].
  destruct (with_finish_spec _ _ tt _ cbb H64 Hi (yields_chunks inner chunks Hin Hcs Hokc)) as [Hs _].
  destruct (Hs _ _ Hw) as (d & l & [= _ <- <-] & Hd). by exists chunks.
Qed.

Lemma implicit_constructed_complete {libc : Libc} outer inner chunks rest :
  let input := der_element (outer .| CBS_ASN1_CONSTRUCTED) (concat (der_element inner <$> chunks)) ++ rest in
  reliable_malloc → bytes_ok input → lenZ input <= 2 ^ 61 → fits 32 outer →
  CBS_peek_asn1_tag input outer = false →
  (chunks ≠ [] → fits 32 inner) → Forall (λ c, fits 32 (lenZ c)) chunks →
  fits 32 (lenZ (concat (der_element inner <$> chunks))) →
  ∃ storage, CBS_get_asn1_implicit_string outer inner input = (Some (concat chunks, storage), rest).
Proof.
  intros input Hm Hok Hl Ht Hp Hin Hcs Hf. pose proof (lenZ_nonneg input) as Hl0.
  assert (2 ^ 61 = 2305843009213693952 ∧ 2 ^ 62 = 4611686018427387904) as [H61 H62] by done.
  pose proof (lenZ_chunks inner chunks) as Hlc.
  rewrite implicit_constructed by done. pose proof Hok as [Hokc%der_element_contents_ok _]%bytes_ok_app.
  destruct (CBB_init_total (CBS_len input) Hm) as [cbb Hi]; [unfold CBS_len; lia|]. rewrite Hi.
  rewrite (proj2 (CBS_get_asn1_iff _ _ _ rest Hok)) by (split_and!; [done|by apply constructed_fits..|done]).
  assert (fits 64 (CBS_len input)) as H64 by (unfold CBS_len; mlia).
  destruct (with_finish_spec _ _ tt _ cbb H64 Hi (yields_chunks inner chunks Hin Hcs Hokc)) as [_ Hs].
  destruct (Hs Hm) as (d & l & st & -> & <-); [mlia|]. by eexists.
Qed.

(** * Properties *)

Section properties.
Context {libc : Libc}.

(** C1. When [cbs_find_ber] reports BER, [CBS_asn1_ber_to_der] succeeds exactly on
    well-formed BER of bounded depth, consumes it all and returns its DER form:
    constructed strings joined, indefinite lengths resolved, lengths minimal. *)
Theorem ber_to_der_exact input out rest :
  reliable_malloc → bytes_ok input → lenZ input <= 2 ^ 30 → cbs_find_ber input 0 = Some true →
  ((∃ storage, CBS_asn1_ber_to_der input = (Some (out, storage), rest)) ↔
   ber_der 0 0 false input out [] ∧ rest = []) ∧
  (ber_der 0 0 false input out [] → der_forest 0 out).
Proof.
  intros Hm Hok Hl Hf. split; [split|].
  - intros [storage H]. apply ber_to_der_sound in H as (H & _ & ->); done.
  - intros [H ->]. destruct (ber_to_der_complete input out Hm Hok Hl Hf H) as [data ->]. by eexists.
  - intros H. by eapply convert_der_forest.
Qed.

(** [CBS_asn1_ber_to_der] copies nothing when its input is DER throughout: it
    returns the first element as it stands, without an allocation, and advances
    past that element only. *)
Theorem ber_to_der_of_der tag c rest :
  fits 32 tag → fits 32 (lenZ c) → bytes_ok (der_element tag c ++ rest) →
  der_forest 0 (der_element tag c ++ rest) →
  CBS_asn1_ber_to_der (der_element tag c ++ rest) = (Some (der_element tag c, None), rest).
Proof.
  intros Ht Hc Hok Hd.
  assert (cbs_find_ber (der_element tag c ++ rest) 0 = Some false) as Hf.
  { unfold cbs_find_ber. change (kMaxDepth <? 0) with false. cbv iota.
    rewrite (find_ber_der 0 _ Hd Hok) by lia. by destruct (_ =? _). }
  unfold CBS_asn1_ber_to_der. rewrite Hf, element_read_complete; [done|done|done|].
  apply bytes_ok_app in Hok as [Hok%der_element_contents_ok Hr]. by apply bytes_ok_app.
Qed.


(** [CBS_get_asn1_implicit_string] reads either a primitive element with the
    outer tag, whose contents it returns in place, or a constructed one made of
    chunks with the inner tag, whose contents it joins in a new block. *)
Theorem implicit_string_exact input outer inner out rest :
  reliable_malloc → bytes_ok input → lenZ input <= 2 ^ 61 → constructed outer = false → fits 32 outer →
  (∃ storage, CBS_get_asn1_implicit_string outer inner input = (Some (out, storage), rest)) ↔
  (fits 32 (lenZ out) ∧ input = der_element outer out ++ rest) ∨
  (∃ chunks, (chunks ≠ [] → fits 32 inner) ∧ Forall (λ c, fits 32 (lenZ c)) chunks ∧
     fits 32 (lenZ (concat (der_element inner <$> chunks))) ∧ out = concat chunks ∧
     input = der_element (outer .| CBS_ASN1_CONSTRUCTED) (concat (der_element inner <$> chunks)) ++ rest).
Proof.
  intros Hm Hok Hl Hprim Ht. pose proof (lenZ_nonneg input) as Hl0.
  assert (fits 64 (CBS_len input)) as H64 by (unfold CBS_len; change (2 ^ 61) with 2305843009213693952 in Hl; mlia).
  assert (outer ≠ outer .| CBS_ASN1_CONSTRUCTED) as Hne.
  { intros He. pose proof (constructed_bit outer) as Hc. rewrite <-He in Hc. congruence. }
  split.
  - intros [storage H]. destruct (CBS_peek_asn1_tag input outer) eqn:Hp.
    + left. unfold CBS_get_asn1_implicit_string, mbind, M_bind, getS in H. rewrite Hp in H.
      destruct (CBS_get_asn1 outer input) as [[c|] r] eqn:Hg; [|done]. injection H as -> <- ->.
      by apply CBS_get_asn1_iff in Hg as (-> & _ & Hc).
    + right. by apply implicit_constructed_sound in H.
  - intros [[Hc ->]|(chunks & Hin & Hcs & Hf & -> & ->)].
    + exists None. unfold CBS_get_asn1_implicit_string, mbind, M_bind, getS.
      rewrite peek_tag, Z.eqb_refl by done.
      by rewrite (proj2 (CBS_get_asn1_iff outer _ out rest Hok)).
    + apply implicit_constructed_complete; try done.
      rewrite peek_tag by (done || by apply constructed_fits). by apply Z.eqb_neq.
Qed.
End properties.

Lemma ber_to_der_exact_witness :
  ((∃ storage, @CBS_asn1_ber_to_der calloc_libc [0x24; 0x80; 4; 1; 7; 0; 0] = (Some ([4; 1; 7], storage), [])) ↔
   ber_der 0 0 false [0x24; 0x80; 4; 1; 7; 0; 0] [4; 1; 7] [] ∧ @nil Z = []) ∧
  (ber_der 0 0 false [0x24; 0x80; 4; 1; 7; 0; 0] [4; 1; 7] [] → der_forest 0 [4; 1; 7]).
Proof.
  apply (@ber_to_der_exact calloc_libc [0x24; 0x80; 4; 1; 7; 0; 0] [4; 1; 7] [] calloc_reliable);
    [decide_now|decide_now|vm_compute; reflexivity].
Defined.

Lemma ber_to_der_of_der_witness :
  @CBS_asn1_ber_to_der calloc_libc (der_element 2 [5] ++ [4; 1; 7]) = (Some (der_element 2 [5], None), [4; 1; 7]).
Proof.
  apply (@ber_to_der_of_der calloc_libc 2 [5] [4; 1; 7]); [decide_now|decide_now|decide_now|].
  apply der_forest_primitive; [decide_now|decide_now|reflexivity|].
  apply (der_forest_primitive 0 4 [7] []); [decide_now|decide_now|reflexivity|by constructor].
Defined.

Lemma implicit_string_exact_witness :
  ∃ storage, @CBS_get_asn1_implicit_string calloc_libc 0x80000000 4 [0xa0; 6; 4; 1; 7; 4; 1; 8; 1]
    = (Some ([7; 8], storage), [1]).
Proof.
  apply (@implicit_string_exact calloc_libc [0xa0; 6; 4; 1; 7; 4; 1; 8; 1] 0x80000000 4 [7; 8] [1]
    calloc_reliable); [decide_now|decide_now|reflexivity|decide_now|].
  right. exists [[7]; [8]]. split_and!; try reflexivity; try decide_now.
Defined.

