(* ===== verification/Unicode.v ===== *)
(** Unicode encodings over CBS and CBB:
    src/HolyWater-Test/Pods/BoringSSL-GRPC/src/crypto/bytestring/unicode.c. *)
From S2P Require Import Prelude Mem Cbs Cbb CbbSpec CbbBuild.

Definition is_valid_code_point (v : Z) : bool :=
  negb ((0x10ffff <? v) || (v .& 0xfffe =? 0xfffe) || ((0xfdd0 <=? v) && (v <=? 0xfdef))
        || ((0xd800 <=? v) && (v <=? 0xdfff))).

Definition BOTTOM_BITS (n : Z) : Z := u8 ((1 ≪ n) - 1).
Definition TOP_BITS (n : Z) : Z := u8 (Z.lnot (BOTTOM_BITS (8 - n))).

(** * Readers *)

(** [for (i = 0; i < len; i++)] *)
Fixpoint utf8_continuation (len : nat) (v : Z) : M cbs Z :=
  match len with
  | O => mret v
  | S len =>
      c ← CBS_get_u8;
      ensure (c .& TOP_BITS 2 =? TOP_BITS 1);;
      utf8_continuation len (u32 (v ≪ 6) .| (c .& BOTTOM_BITS 6))
  end.

Definition cbs_get_utf8 : M cbs Z :=
  c ← CBS_get_u8;
  if c <=? 0x7f then mret c
  else
    '(v, len, lower_bound) ←
      (if c .& TOP_BITS 3 =? TOP_BITS 2 then mret (c .& BOTTOM_BITS 5, 1%nat, 0x80)
       else if c .& TOP_BITS 4 =? TOP_BITS 3 then mret (c .& BOTTOM_BITS 4, 2%nat, 0x800)
       else if c .& TOP_BITS 5 =? TOP_BITS 4 then mret (c .& BOTTOM_BITS 3, 3%nat, 0x10000)
       else ret0);
    v ← utf8_continuation len v;
    ensure (negb (negb (is_valid_code_point v) || (v <? lower_bound)));;
    mret v.

Definition cbs_get_latin1 : M cbs Z := CBS_get_u8.

Definition cbs_get_ucs2_be : M cbs Z :=
  c ← CBS_get_u16; ensure (is_valid_code_point c);; mret c.

Definition cbs_get_utf32_be : M cbs Z :=
  c ← CBS_get_u32; ensure (is_valid_code_point c);; mret c.

(** * Writers *)

Definition cbb_get_utf8_len (u : Z) : Z :=
  if u <=? 0x7f then 1
  else if u <=? 0x7ff then 2
  else if u <=? 0xffff then 3
  else 4.

Section unicode.
Context {libc : Libc}.

Definition cbb_add_utf8 (u : Z) : M cbb_st () :=
  if negb (is_valid_code_point u) then ret0
  else if u <=? 0x7f then CBB_add_u8 (u8 u)
  else if u <=? 0x7ff then
    CBB_add_u8 (u8 (TOP_BITS 2 .| (u ≫ 6)));;
    CBB_add_u8 (u8 (TOP_BITS 1 .| (u .& BOTTOM_BITS 6)))
  else if u <=? 0xffff then
    CBB_add_u8 (u8 (TOP_BITS 3 .| (u ≫ 12)));;
    CBB_add_u8 (u8 (TOP_BITS 1 .| ((u ≫ 6) .& BOTTOM_BITS 6)));;
    CBB_add_u8 (u8 (TOP_BITS 1 .| (u .& BOTTOM_BITS 6)))
  else if u <=? 0x10ffff then
    CBB_add_u8 (u8 (TOP_BITS 4 .| (u ≫ 18)));;
    CBB_add_u8 (u8 (TOP_BITS 1 .| ((u ≫ 12) .& BOTTOM_BITS 6)));;
    CBB_add_u8 (u8 (TOP_BITS 1 .| ((u ≫ 6) .& BOTTOM_BITS 6)));;
    CBB_add_u8 (u8 (TOP_BITS 1 .| (u .& BOTTOM_BITS 6)))
  else ret0.

Definition cbb_add_latin1 (u : Z) : M cbb_st () :=
  if u <=? 0xff then CBB_add_u8 (u8 u) else ret0.

Definition cbb_add_ucs2_be (u : Z) : M cbb_st () :=
  if (u <=? 0xffff) && is_valid_code_point u then CBB_add_u16 (u16 u) else ret0.

Definition cbb_add_utf32_be (u : Z) : M cbb_st () :=
  if is_valid_code_point u then CBB_add_u32 u else ret0.

End unicode.

(** U+20AC *)
Example get_utf8_ex : cbs_get_utf8 [0xe2; 0x82; 0xac; 1] = (Some 0x20ac, [1]).
Proof. vm_compute. done. Qed.

(** * The UTF-8 encoding *)

(** A continuation byte. *)
Definition cont (v : Z) : Z := 128 + v mod 64.

Definition utf8 (u : Z) : bytes :=
  if u <? 0x80 then [u]
  else if u <? 0x800 then [192 + u / 64; cont u]
  else if u <? 0x10000 then [224 + u / 4096; cont (u / 64); cont u]
  else [240 + u / 262144; cont (u / 4096); cont (u / 64); cont u].

Lemma is_valid_code_point_iff v :
  is_valid_code_point v = true ↔
  v <= 0x10ffff ∧ v .& 0xfffe ≠ 0xfffe ∧ ¬ (0xfdd0 <= v <= 0xfdef) ∧ ¬ (0xd800 <= v <= 0xdfff).
Proof.
  unfold is_valid_code_point.
  rewrite negb_true_iff, !orb_false_iff, !andb_false_iff, Z.ltb_ge, Z.eqb_neq, !Z.leb_gt. lia.
Qed.

Lemma utf8_len u : lenZ (utf8 u) = cbb_get_utf8_len u.
Proof.
  unfold utf8, cbb_get_utf8_len.
  destruct (Z.ltb_spec u 0x80), (Z.leb_spec u 0x7f); try lia; [done|].
  destruct (Z.ltb_spec u 0x800), (Z.leb_spec u 0x7ff); try lia; [done|].
  by destruct (Z.ltb_spec u 0x10000), (Z.leb_spec u 0xffff); try lia.
Qed.

Lemma cont_fits v : fits 8 (cont v).
Proof. unfold cont. mlia. Qed.

Lemma utf8_ok u : 0 <= u <= 0x10ffff → bytes_ok (utf8 u).
Proof.
  intros Hu. unfold utf8.
  repeat case_match; bools; repeat (apply bytes_ok_cons; split; [apply cont_fits || mlia|]); constructor.
Qed.

(** * Leading and continuation bytes *)

Lemma is_cont c : fits 8 c → (c .& TOP_BITS 2 =? TOP_BITS 1) = (128 <=? c) && (c <? 192).
Proof. intros H. change (TOP_BITS 2) with 192. change (TOP_BITS 1) with 128. byte_eq c. Qed.
Lemma cont_value c : fits 8 c → c .& BOTTOM_BITS 6 = c mod 64.
Proof. intros H. change (BOTTOM_BITS 6) with 63. byte_eq c. Qed.
Lemma lead2 c : fits 8 c → (c .& TOP_BITS 3 =? TOP_BITS 2) = (192 <=? c) && (c <? 224).
Proof. intros H. change (TOP_BITS 3) with 224. change (TOP_BITS 2) with 192. byte_eq c. Qed.
Lemma lead3 c : fits 8 c → (c .& TOP_BITS 4 =? TOP_BITS 3) = (224 <=? c) && (c <? 240).
Proof. intros H. change (TOP_BITS 4) with 240. change (TOP_BITS 3) with 224. byte_eq c. Qed.
Lemma lead4 c : fits 8 c → (c .& TOP_BITS 5 =? TOP_BITS 4) = (240 <=? c) && (c <? 248).
Proof. intros H. change (TOP_BITS 5) with 248. change (TOP_BITS 4) with 240. byte_eq c. Qed.
Lemma lead_value n c : fits 8 c → 0 <= n <= 8 → c .& BOTTOM_BITS n = c mod 2 ^ n.
Proof.
  intros Hc Hn. unfold BOTTOM_BITS. rewrite Z.shiftl_mul_pow2, Z.mul_1_l by lia.
  assert (0 < 2 ^ n <= 2 ^ 8) as Hp by (split; [apply Z.pow_pos_nonneg; lia|apply Z.pow_le_mono_r; lia]).
  rewrite wrap_small by (unfold fits; lia). apply land_mask; lia.
Qed.

(** One continuation byte. *)
Lemma utf8_continuation_iff n v s w rest :
  bytes_ok s → 0 <= v → v * 64 ^ Z.of_nat n < 2 ^ 26 →
  utf8_continuation n v s = (Some w, rest) ↔
  match n with
  | O => w = v ∧ rest = s
  | S k => ∃ c s', s = c :: s' ∧ 128 <= c < 192 ∧
           utf8_continuation k (v * 64 + c mod 64) s' = (Some w, rest)
  end.
Proof.
  intros Hs Hv0 Hv. destruct n as [|k]; cbn [utf8_continuation].
  { split; [by intros [<- <-]%ret_inv|by intros [-> ->]]. }
  rewrite Nat2Z.inj_succ, Z.pow_succ_r in Hv by lia.
  assert (0 < 64 ^ Z.of_nat k) by (apply Z.pow_pos_nonneg; lia).
  assert (fits 26 v) as Hf by (unfold fits; nia).
  assert (∀ c, fits 8 c → u32 (v ≪ 6) .| (c .& BOTTOM_BITS 6) = v * 64 + c mod 64) as Hsh.
  { intros c Hc. rewrite cont_value by done. apply (shift_in _ _ 32 6); [lia|done|].
    change (2 ^ 6) with 64. mlia. }
  split.
  - intros Hrun. apply bind_inv in Hrun as (c & s1 & H1 & Hrun). apply CBS_get_u8_iff in H1 as ->.
    apply bytes_ok_cons in Hs as [Hc Hs]. apply bind_inv in Hrun as (u & s2 & H2 & Hrun).
    apply ensure_inv in H2 as [H2 <-]. rewrite is_cont in H2 by done. bools.
    rewrite Hsh in Hrun by done. by exists c, s1.
  - intros (c & s' & -> & Hc & Hk). apply bytes_ok_cons in Hs as [Hc8 Hs].
    rewrite (bind_some _ _ (c :: s') c s') by (by apply CBS_get_u8_iff).
    rewrite is_cont by done. assert ((128 <=? c) && (c <? 192) = true) as -> by lia.
    rewrite bind_ensure, Hsh by done. done.
Qed.

(** * The UTF-8 reader *)

Lemma ascii_valid u : 0 <= u < 128 → is_valid_code_point u = true.
Proof.
  intros Hu. apply is_valid_code_point_iff. assert (fits 8 u) as Hu8 by mlia.
  assert ((u .& 0xfffe =? 0xfffe) = false) as Hne by byte_eq u.
  apply Z.eqb_neq in Hne. split_and!; lia || done.
Qed.

(** Peel the continuation bytes off a successful read. *)
Ltac conts H :=
  repeat (apply utf8_continuation_iff in H;
    [|assumption|lia|change (2 ^ 26) with 67108864; cbn; lia];
    first [ destruct H as [-> ->]
          | let c := fresh "c" in let s := fresh "s" in let Hc := fresh "Hc" in
            destruct H as (c & s & -> & Hc & H);
            match goal with K : bytes_ok (c :: s) |- _ => apply bytes_ok_cons in K as [_ K] end ]).

Lemma get_utf8_sound s u rest :
  bytes_ok s → cbs_get_utf8 s = (Some u, rest) → s = utf8 u ++ rest ∧ is_valid_code_point u = true.
Proof.
  intros Hs H. unfold cbs_get_utf8 in H. apply bind_inv in H as (c & s1 & H1 & H).
  apply CBS_get_u8_iff in H1 as ->. apply bytes_ok_cons in Hs as [Hc Hs1].
  destruct (Z.leb_spec c 0x7f) as [Hle|Hgt].
  { apply ret_inv in H as [<- <-]. split; [|apply ascii_valid; mlia].
    unfold utf8. by destruct (Z.ltb_spec c 0x80); [|lia]. }
  rewrite lead2, lead3, lead4 in H by done.
  apply bind_inv in H as ([[v len] lo] & s2 & H1 & H).
  apply bind_inv in H as (w & s3 & H2 & H). apply bind_inv in H as (x & s4 & H3 & H).
  apply ensure_inv in H3 as [H3 <-]. apply ret_inv in H as [-> ->].
  rewrite negb_orb, negb_involutive in H3. apply andb_true_iff in H3 as [Hval Hlo].
  split; [|done]. apply is_valid_code_point_iff in Hval as (Hmax & _). bools.
  unfold utf8. destruct ((192 <=? c) && (c <? 224)) eqn:E2; [|destruct ((224 <=? c) && (c <? 240)) eqn:E3;
    [|destruct ((240 <=? c) && (c <? 248)) eqn:E4; [|by destruct (ret0_inv _ _ _ H1)]]];
    apply ret_inv in H1 as [[= <- <- <-] <-]; bools; rewrite lead_value in H2 by (done || lia).
  - change (2 ^ 5) with 32 in H2. conts H2.
    destruct (Z.ltb_spec (c mod 32 * 64 + c0 mod 64) 128); [lia|].
    destruct (Z.ltb_spec (c mod 32 * 64 + c0 mod 64) 2048); [|lia].
    unfold cont. cbn [app]. list_lia.
  - change (2 ^ 4) with 16 in H2. conts H2.
    set (w := (c mod 16 * 64 + c0 mod 64) * 64 + c1 mod 64) in *.
    destruct (Z.ltb_spec w 128); [lia|]. destruct (Z.ltb_spec w 2048); [lia|].
    destruct (Z.ltb_spec w 65536); [|lia]. unfold cont. cbn [app]. list_lia.
  - change (2 ^ 3) with 8 in H2. conts H2.
    set (w := ((c mod 8 * 64 + c0 mod 64) * 64 + c1 mod 64) * 64 + c2 mod 64) in *.
    destruct (Z.ltb_spec w 128); [lia|]. destruct (Z.ltb_spec w 2048); [lia|].
    destruct (Z.ltb_spec w 65536); [lia|]. unfold cont. cbn [app]. list_lia.
Qed.

(** Reading one continuation byte that is there. *)
Lemma continuation_step k v x s w rest :
  bytes_ok s → 0 <= v → v * 64 ^ Z.of_nat (S k) < 2 ^ 26 → 
  utf8_continuation k (v * 64 + x mod 64) s = (Some w, rest) →
  utf8_continuation (S k) v (cont x :: s) = (Some w, rest).
Proof.
  intros Hs Hv0 Hv H. apply utf8_continuation_iff; [|done|done|].
  { apply bytes_ok_cons. split; [apply cont_fits|done]. }
  exists (cont x), s. unfold cont. split_and!; [done|lia|lia|].
  by replace ((128 + x mod 64) mod 64) with (x mod 64) by lia.
Qed.

Lemma get_utf8_complete u rest :
  bytes_ok rest → 0 <= u → is_valid_code_point u = true → cbs_get_utf8 (utf8 u ++ rest) = (Some u, rest).
Proof.
  intros Hr Hu0 Hval. pose proof Hval as Hmax. apply is_valid_code_point_iff in Hmax as (Hmax & _).
  assert (∀ c s lo k v, utf8 u ++ rest = c :: s → fits 8 c → 128 <= c →
    (if (192 <=? c) && (c <? 224) then (c mod 32, 1%nat, 0x80)
     else if (224 <=? c) && (c <? 240) then (c mod 16, 2%nat, 0x800) else (c mod 8, 3%nat, 0x10000))
    = (v, k, lo) → c < 248 → 192 <= c → lo <= u → utf8_continuation k v s = (Some u, rest) →
    cbs_get_utf8 (utf8 u ++ rest) = (Some u, rest)) as Hlead.
  { intros c s lo k v Heq Hc H128 Hsel H248 H192 Hlo Hk. rewrite Heq. unfold cbs_get_utf8.
    rewrite (bind_some _ _ (c :: s) c s) by (by apply CBS_get_u8_iff).
    destruct (Z.leb_spec c 0x7f); [lia|]. rewrite lead2, lead3, lead4 by done.
    rewrite !lead_value by (done || lia). change (2 ^ 5) with 32. change (2 ^ 4) with 16. change (2 ^ 3) with 8.
    rewrite (bind_some _ _ s (v, k, lo) s).
    - rewrite (bind_some _ _ _ _ _ Hk), Hval. cbn [negb orb].
      destruct (Z.ltb_spec u lo); [lia|]. done.
    - destruct ((192 <=? c) && (c <? 224)) eqn:E2; [by rewrite Hsel|].
      destruct ((224 <=? c) && (c <? 240)) eqn:E3; [by rewrite Hsel|].
      assert ((240 <=? c) && (c <? 248) = true) as -> by lia. by rewrite Hsel. }
  unfold utf8 in *. change (2 ^ 26) with 67108864.
  destruct (Z.ltb_spec u 0x80); [|destruct (Z.ltb_spec u 0x800); [|destruct (Z.ltb_spec u 0x10000)]].
  - unfold cbs_get_utf8. rewrite (bind_some _ _ ([u] ++ rest) u rest) by (by apply CBS_get_u8_iff).
    by destruct (Z.leb_spec u 0x7f); [|lia].
  - eapply (Hlead (192 + u / 64)); [done|mlia|lia| |lia|lia| |].
    + assert ((192 <=? 192 + u / 64) && (192 + u / 64 <? 224) = true) as -> by lia. done.
    + lia.
    + apply continuation_step; [done|lia|change (2 ^ 26) with 67108864; cbn; lia|].
      cbn. unfold mret, M_ret. do 2 f_equal. lia.
  - eapply (Hlead (224 + u / 4096)); [done|mlia|lia| |lia|lia| |].
    + assert ((192 <=? 224 + u / 4096) && (224 + u / 4096 <? 224) = false) as -> by lia.
      assert ((224 <=? 224 + u / 4096) && (224 + u / 4096 <? 240) = true) as -> by lia. done.
    + lia.
    + do 2 (apply continuation_step; [repeat (apply bytes_ok_cons; split; [apply cont_fits|]); done
        |lia|change (2 ^ 26) with 67108864; cbn; lia|]).
      cbn. unfold mret, M_ret. do 2 f_equal. lia.
  - eapply (Hlead (240 + u / 262144)); [done|mlia|lia| |lia|lia| |].
    + assert ((192 <=? 240 + u / 262144) && (240 + u / 262144 <? 224) = false) as -> by lia.
      assert ((224 <=? 240 + u / 262144) && (240 + u / 262144 <? 240) = false) as -> by lia. done.
    + lia.
    + do 3 (apply continuation_step; [repeat (apply bytes_ok_cons; split; [apply cont_fits|]); done
        |lia|change (2 ^ 26) with 67108864; cbn; lia|]).
      cbn. unfold mret, M_ret. do 2 f_equal. lia.
Qed.

(** * The UTF-8 writer *)

Section unicode_facts.
Context {libc : Libc}.

Lemma top_or n k x : fits 8 x → 0 <= x < 2 ^ k → TOP_BITS n = 256 - 2 ^ k → 0 <= k <= 8 →
  u8 (TOP_BITS n .| x) = TOP_BITS n + x.
Proof.
  intros Hx Hk Ht Hk8. assert (2 ^ k * 2 ^ (8 - k) = 256) as Hp
    by (rewrite <-Z.pow_add_r by lia; by replace (k + (8 - k)) with 8 by lia).
  assert (TOP_BITS n = (2 ^ (8 - k) - 1) * 2 ^ k) as Hm by lia.
  assert (2 ^ k <= 2 ^ 8) as Hle by (apply Z.pow_le_mono_r; lia).
  rewrite Hm, lor_mul_add by lia. apply wrap_small. rewrite <-Hm, Ht. clear Hm Hp.
  unfold fits in *. change (2 ^ 8) with 256 in *. lia.
Qed.

Lemma cont_bits x : 0 <= x → u8 (TOP_BITS 1 .| (x .& BOTTOM_BITS 6)) = cont x.
Proof.
  intros Hx. change (BOTTOM_BITS 6) with (2 ^ 6 - 1). rewrite land_mask by lia.
  change (2 ^ 6) with 64. rewrite (top_or 1 7); [done|mlia|change (2 ^ 7) with 128; lia|done|lia].
Qed.

Lemma emits_add_utf8 u :
  0 <= u → is_valid_code_point u = true → emits (cbb_add_utf8 u) (utf8 u).
Proof.
  intros Hu Hval. unfold cbb_add_utf8, utf8. rewrite Hval. cbn [negb].
  apply is_valid_code_point_iff in Hval as (Hmax & _).
  destruct (Z.leb_spec u 0x7f), (Z.ltb_spec u 0x80); try lia.
  { rewrite wrap_small by mlia. apply emits_add_u8. mlia. }
  rewrite !cont_bits by (rewrite ?Z.shiftr_nonneg; lia). rewrite !shiftr_div by lia.
  change (2 ^ 6) with 64. change (2 ^ 12) with 4096. change (2 ^ 18) with 262144.
  destruct (Z.leb_spec u 0x7ff), (Z.ltb_spec u 0x800); try lia.
  { rewrite (top_or 2 6) by first [done|lia|change (2 ^ 6) with 64; lia|mlia].
    apply (emits_bind _ _ [_]); [apply emits_add_u8; change (TOP_BITS 2) with 192; mlia|intros _].
    apply emits_add_u8, cont_fits. }
  destruct (Z.leb_spec u 0xffff), (Z.ltb_spec u 0x10000); try lia.
  { rewrite (top_or 3 5) by first [done|lia|change (2 ^ 5) with 32; lia|mlia].
    apply (emits_bind _ _ [_]); [apply emits_add_u8; change (TOP_BITS 3) with 224; mlia|intros _].
    apply (emits_bind _ _ [_]); [apply emits_add_u8, cont_fits|intros _].
    apply emits_add_u8, cont_fits. }
  destruct (Z.leb_spec u 0x10ffff); [|lia].
  rewrite (top_or 4 4) by first [done|lia|change (2 ^ 4) with 16; lia|mlia].
  apply (emits_bind _ _ [_]); [apply emits_add_u8; change (TOP_BITS 4) with 240; mlia|intros _].
  apply (emits_bind _ _ [_]); [apply emits_add_u8, cont_fits|intros _].
  apply (emits_bind _ _ [_]); [apply emits_add_u8, cont_fits|intros _].
  apply emits_add_u8, cont_fits.
Qed.

Lemma add_utf8_invalid u st : is_valid_code_point u = false → cbb_add_utf8 u st = (None, st).
Proof. intros H. unfold cbb_add_utf8. by rewrite H. Qed.

End unicode_facts.

(** * Properties *)

(** The UTF-8 reader is exact: it accepts only the shortest encodings of valid
    code points (no surrogates, no noncharacters, nothing above U+10FFFF) and
    leaves what follows. *)
Theorem utf8_exact s u rest :
  bytes_ok s → 0 <= u →
  cbs_get_utf8 s = (Some u, rest) ↔ s = utf8 u ++ rest ∧ is_valid_code_point u = true.
Proof.
  intros Hs Hu. split; [by apply get_utf8_sound|]. intros [-> Hv].
  apply get_utf8_complete; [|done..]. by apply bytes_ok_app in Hs as [_ ?].
Qed.

Lemma utf8_exact_witness : cbs_get_utf8 [0xe2; 0x82; 0xac; 1] = (Some 0x20ac, [1]).
Proof.
  apply (utf8_exact [0xe2; 0x82; 0xac; 1] 0x20ac [1]); [decide_now|decide_now|].
  split; vm_compute; reflexivity.
Defined.

(** Writing a code point and reading it back gives the code point; what is not
    a valid code point is refused and leaves the builder as it was. *)
Theorem utf8_round_trip {libc : Libc} n u rest :
  fits 64 n → 0 <= u → bytes_ok rest →
  (∀ d, run_builder n (cbb_add_utf8 u) = Some d → cbs_get_utf8 (d ++ rest) = (Some u, rest)) ∧
  (is_valid_code_point u = false → ∀ st, cbb_add_utf8 u st = (None, st)).
Proof.
  intros Hn Hu Hr. split; [|intros; by apply add_utf8_invalid].
  intros d Hd. destruct (is_valid_code_point u) eqn:Hv.
  - apply (run_builder_spec n _ _ Hn (emits_add_utf8 u Hu Hv)) in Hd as ->. by apply get_utf8_complete.
  - unfold run_builder in Hd. destruct (CBB_init n) as [st|]; [|done]. cbn in Hd.
    by rewrite (bind_none _ _ st st) in Hd by (by apply add_utf8_invalid).
Qed.

Lemma utf8_round_trip_witness :
  (∀ d, @run_builder calloc_libc _ 0 (@cbb_add_utf8 calloc_libc 0x1f600) = Some d →
        cbs_get_utf8 (d ++ [7]) = (Some 0x1f600, [7])) ∧
  (is_valid_code_point 0x1f600 = false → ∀ st, @cbb_add_utf8 calloc_libc 0x1f600 st = (None, st)).
Proof. apply (@utf8_round_trip calloc_libc 0 0x1f600 [7]); decide_now. Defined.
