(* ===== verification/Charset.v ===== *)
(** Character sets: what the encodings of unicode.c
    (src/HolyWater-Test/Pods/BoringSSL-GRPC/src/crypto/bytestring/) promise to
    the code that converts between them. *)
From S2P Require Import Prelude Mem Cbs Cbb CbbSpec CbbBuild Unicode.

(** A [decode_func], the [encode_func] that goes with it, and their contract:
    the reader accepts exactly the encodings of the characters of the set, and
    the writer writes them. *)
Class Charset {libc : Libc} := {
  cs_get : M cbs Z;
  cs_add : Z → M cbb_st ();
  cs_enc : Z → bytes;
  cs_has : Z → Prop;
  cs_get_iff s u rest : bytes_ok s → cs_get s = (Some u, rest) ↔ s = cs_enc u ++ rest ∧ cs_has u;
  cs_add_emits u : cs_has u → emits (cs_add u) (cs_enc u);
  cs_enc_ok u : cs_has u → bytes_ok (cs_enc u) ∧ 1 <= lenZ (cs_enc u) <= 4;
  cs_unicode u : cs_has u → 0 <= u ∧ is_valid_code_point u = true;
}.

Section instances.
Context {libc : Libc}.

Lemma get_u_valid n w s u rest :
  bytes_ok s → 0 <= n <= 8 → 256 ^ n = 2 ^ w →
  (c ← (v ← cbs_get_u n; mret (wrap w v)); ensure (is_valid_code_point c);; mret c) s = (Some u, rest) ↔
  s = be_bytes (Z.to_nat n) u ++ rest ∧ 0 <= u < 256 ^ n ∧ is_valid_code_point u = true.
Proof.
  intros Hok Hn Hw. split.
  - intros H. apply bind_inv in H as (c & s1 & H1 & H2). apply bind_inv in H1 as (v & s2 & H3 & H4).
    apply ret_inv in H4 as [<- <-]. apply bind_inv in H2 as ([] & s3 & H5 & H6).
    apply ensure_inv in H5 as [Hv <-]. apply ret_inv in H6 as [<- <-].
    apply cbs_get_u_iff in H3 as (d & -> & Hl & ->); [|done|done].
    apply bytes_ok_app in Hok as [Hd _]. pose proof (be_value_bound d Hd) as Hb. rewrite Hl in Hb.
    rewrite wrap_small in * by (unfold fits; lia).
    split; [|done]. rewrite be_bytes_be_value; [done|done|]. unfold lenZ in Hl. lia.
  - intros (-> & Hu & Hv).
    assert (cbs_get_u n (be_bytes (Z.to_nat n) u ++ rest) = (Some u, rest)) as Hg.
    { apply cbs_get_u_iff; [done|done|]. exists (be_bytes (Z.to_nat n) u).
      rewrite lenZ_be_bytes, be_value_be_bytes, Z2Nat.id by lia. by rewrite Z.mod_small. }
    rewrite bind_assoc. mstep Hg. rewrite bind_ret, wrap_small by (unfold fits; lia). by rewrite Hv.
Qed.

Lemma latin1_valid u : 0 <= u <= 255 → is_valid_code_point u = true.
Proof. intros Hu. assert (fits 8 u) as H by mlia. clear Hu. byte_eq u. Qed.

Program Definition latin1 : Charset := {|
  cs_get := cbs_get_latin1; cs_add := cbb_add_latin1; cs_enc u := [u]; cs_has u := 0 <= u <= 255;
|}.
Next Obligation.
  intros s u rest Hok. cbv beta in *. unfold cbs_get_latin1. rewrite CBS_get_u8_iff. split; [|naive_solver].
  intros ->. split; [done|]. apply bytes_ok_cons in Hok as [Hu _]. mlia.
Qed.
Next Obligation.
  intros u Hu. cbv beta in *. unfold cbb_add_latin1. destruct (Z.leb_spec u 0xff); [|lia].
  rewrite wrap_small by mlia. apply emits_add_u8. mlia.
Qed.
Next Obligation. intros u Hu. cbv beta in *. split; [|done]. by repeat constructor; mlia. Qed.
Next Obligation. intros u Hu. cbv beta in *. split; [lia|by apply latin1_valid]. Qed.

Program Definition ucs2 : Charset := {|
  cs_get := cbs_get_ucs2_be; cs_add := cbb_add_ucs2_be; cs_enc u := be_bytes 2 u;
  cs_has u := 0 <= u <= 0xffff ∧ is_valid_code_point u = true;
|}.
Next Obligation.
  intros s u rest Hok. cbv beta in *. unfold cbs_get_ucs2_be, CBS_get_u16. rewrite get_u_valid by done.
  change (256 ^ 2) with 65536. change (Z.to_nat 2) with 2%nat. naive_solver lia.
Qed.
Next Obligation.
  intros u [Hu Hv]. cbv beta in *. unfold cbb_add_ucs2_be. rewrite Hv, andb_true_r. destruct (Z.leb_spec u 0xffff); [|lia].
  rewrite wrap_small by mlia. apply (emits_add_u u 2); [done|]. change (256 ^ 2) with 65536. lia.
Qed.
Next Obligation. intros u [Hu Hv]. cbv beta in *. split; [apply be_bytes_ok|by rewrite lenZ_be_bytes]. Qed.
Next Obligation. intros u [Hu Hv]. cbv beta in *. split; [lia|done]. Qed.

Program Definition utf32 : Charset := {|
  cs_get := cbs_get_utf32_be; cs_add := cbb_add_utf32_be; cs_enc u := be_bytes 4 u;
  cs_has u := 0 <= u ∧ is_valid_code_point u = true;
|}.
Next Obligation.
  intros s u rest Hok. cbv beta in *. unfold cbs_get_utf32_be, CBS_get_u32. rewrite get_u_valid by done.
  change (256 ^ 4) with 4294967296. change (Z.to_nat 4) with 4%nat. split; [naive_solver lia|].
  intros (-> & Hu & Hv). pose proof (proj1 (is_valid_code_point_iff u) Hv). split_and!; try done; lia.
Qed.
Next Obligation.
  intros u [Hu Hv]. cbv beta in *. unfold cbb_add_utf32_be. rewrite Hv. apply (emits_add_u u 4); [done|].
  apply is_valid_code_point_iff in Hv as [H _]. change (256 ^ 4) with 4294967296. lia.
Qed.
Next Obligation. intros u [Hu Hv]. cbv beta in *. split; [apply be_bytes_ok|by rewrite lenZ_be_bytes]. Qed.
Next Obligation. done. Qed.

Program Definition utf8_charset : Charset := {|
  cs_get := cbs_get_utf8; cs_add := cbb_add_utf8; cs_enc := utf8;
  cs_has u := 0 <= u ∧ is_valid_code_point u = true;
|}.
Next Obligation.
  intros s u rest Hok. cbv beta in *. split.
  - intros H. apply get_utf8_sound in H as [-> Hv]; [|done]. split; [done|]. split; [|done].
    apply bytes_ok_app in Hok as [Hu _]. unfold utf8 in Hu. destruct (Z.ltb_spec u 0x80); [|lia].
    apply bytes_ok_cons in Hu as [Hu _]. apply Hu.
  - intros (-> & Hu & Hv). apply bytes_ok_app in Hok as [_ Hr]. by apply get_utf8_complete.
Qed.
Next Obligation. intros u [Hu Hv]. cbv beta in *. by apply emits_add_utf8. Qed.
Next Obligation.
  intros u [Hu Hv]. cbv beta in *. apply is_valid_code_point_iff in Hv as [Hm _]. split; [by apply utf8_ok|].
  rewrite utf8_len. unfold cbb_get_utf8_len. repeat case_match; lia.
Qed.
Next Obligation. done. Qed.
End instances.
