(* ===== verification/MbString.v ===== *)
(** ASN.1 strings and the choice of their type:
    src/HolyWater-Test/Pods/BoringSSL-GRPC/src/crypto/asn1/a_mbstr.c and the
    ASN1_STRING operations of asn1_lib.c. *)
From S2P Require Import Prelude Mem Cbs Cbb CbbSpec CbbBuild Unicode Charset.

(** * Strings *)

(** [struct asn1_string_st] *)
Record ASN1_STRING := {
  str_length : Z;
  str_type : Z;
  str_data : option bytes;
  str_flags : Z;
}.

Definition V_ASN1_OCTET_STRING : Z := 4.
Definition sizeof_ASN1_STRING : Z := 24.

(** [int] arithmetic that wraps. *)
Definition s32 (z : Z) : Z := (z + 2 ^ 31) mod 2 ^ 32 - 2 ^ 31.

Section asn1_string.
Context {libc : Libc}.

Definition ASN1_STRING_type_new (type : Z) : option ASN1_STRING :=
  _ ← OPENSSL_malloc sizeof_ASN1_STRING;
  Some {| str_length := 0; str_type := type; str_data := None; str_flags := 0 |}.

Definition ASN1_STRING_new : option ASN1_STRING := ASN1_STRING_type_new V_ASN1_OCTET_STRING.

(** The flag and the string. *)
Definition ASN1_STRING_set (str : ASN1_STRING) (data : option bytes) (len : Z) : bool * ASN1_STRING :=
  match (if len <? 0 then strlen <$> data else Some len) with
  | None => (false, str)
  | Some len =>
      let block :=
        if (str_length str <=? len) || negb (bool_decide (is_Some (str_data str))) then
          OPENSSL_realloc (str_data str) (size_t (s32 (len + 1)))
        else str_data str in
      match block with
      | None => (false, str)
      | Some block =>
          let block :=
            match data with
            | None => block
            | Some data => write_at (write_at block 0 (takeZ len data)) len [0]
            end in
          (true, {| str_length := len; str_type := str_type str; str_data := Some block;
                    str_flags := str_flags str |})
      end
  end.

Definition ASN1_STRING_set0 (str : ASN1_STRING) (data : option bytes) (len : Z) : ASN1_STRING :=
  {| str_length := len; str_type := str_type str; str_data := data; str_flags := str_flags str |}.

Definition ASN1_STRING_copy (dst : ASN1_STRING) (str : option ASN1_STRING) : bool * ASN1_STRING :=
  match str with
  | None => (false, dst)
  | Some str =>
      let '(ok, dst) := ASN1_STRING_set dst (str_data str) (str_length str) in
      if negb ok then (false, dst)
      else (true, {| str_length := str_length dst; str_type := str_type str;
                     str_data := str_data dst; str_flags := str_flags str |})
  end.

Definition ASN1_STRING_dup (str : option ASN1_STRING) : option ASN1_STRING :=
  s ← str;
  ret ← ASN1_STRING_new;
  let '(ok, ret) := ASN1_STRING_copy ret str in
  if ok : bool then Some ret else None.

(** * Multi-byte strings *)

Definition asn1_is_printable (value : Z) : bool :=
  if 0x7f <? value then false
  else
    ((97 <=? value) && (value <=? 122)) || ((65 <=? value) && (value <=? 90)) ||
    ((48 <=? value) && (value <=? 57)) ||
    (value =? 32) || (value =? 39) || (value =? 40) || (value =? 41) ||
    (value =? 43) || (value =? 44) || (value =? 45) || (value =? 46) ||
    (value =? 47) || (value =? 58) || (value =? 61) || (value =? 63).

Definition B_ASN1_PRINTABLESTRING : Z := 0x0002.
Definition B_ASN1_T61STRING : Z := 0x0004.
Definition B_ASN1_IA5STRING : Z := 0x0010.
Definition B_ASN1_UNIVERSALSTRING : Z := 0x0100.
Definition B_ASN1_BMPSTRING : Z := 0x0800.
Definition B_ASN1_UTF8STRING : Z := 0x2000.
Definition DIRSTRING_TYPE : Z :=
  B_ASN1_PRINTABLESTRING .| B_ASN1_T61STRING .| B_ASN1_BMPSTRING .| B_ASN1_UTF8STRING.

Definition V_ASN1_UTF8STRING : Z := 12.
Definition V_ASN1_PRINTABLESTRING : Z := 19.
Definition V_ASN1_T61STRING : Z := 20.
Definition V_ASN1_IA5STRING : Z := 22.
Definition V_ASN1_UNIVERSALSTRING : Z := 28.
Definition V_ASN1_BMPSTRING : Z := 30.

Definition MBSTRING_UTF8 : Z := 0x1000.
Definition MBSTRING_ASC : Z := 0x1001.
Definition MBSTRING_BMP : Z := 0x1002.
Definition MBSTRING_UNIV : Z := 0x1004.

Definition test_mask (mask b : Z) : bool := negb (mask .& b =? 0).
(** [if ((mask & b) && bad) mask &= ~b;] *)
Definition drop_if (b : Z) (bad : bool) (mask : Z) : Z :=
  if test_mask mask b && bad then Z.ldiff mask b else mask.

(** The output formats that can still hold the string after the character [c]. *)
Definition narrow (mask c : Z) : Z :=
  drop_if B_ASN1_BMPSTRING (0xffff <? c)
    (drop_if B_ASN1_T61STRING (0xff <? c)
       (drop_if B_ASN1_IA5STRING (127 <? c)
          (drop_if B_ASN1_PRINTABLESTRING (negb (asn1_is_printable c)) mask))).

(** The first loop; [None] is an error.  The fuel bounds the characters. *)
Fixpoint mb_scan (fuel : nat) (decode_func : M cbs Z) (inform : Z) (cbs : cbs) (nchar utf8_len mask : Z) :
    option (Z * Z * Z) :=
  if CBS_len cbs =? 0 then Some (nchar, utf8_len, mask)
  else match fuel with
  | O => None
  | S fuel =>
      match decode_func cbs with
      | (None, _) => None
      | (Some c, cbs) =>
          if (nchar =? 0) && ((inform =? MBSTRING_BMP) || (inform =? MBSTRING_UNIV)) && (c =? 0xfeff) then None
          else
            let mask := narrow mask c in
            if mask =? 0 then None
            else mb_scan fuel decode_func inform cbs (size_t (nchar + 1))
                   (size_t (utf8_len + cbb_get_utf8_len c)) mask
      end
  end.

(** The second loop. *)
Fixpoint mb_transcode (fuel : nat) (decode_func : M cbs Z) (encode_func : Z → M cbb_st ()) (cbs : cbs) :
    M cbb_st () :=
  if CBS_len cbs =? 0 then mret tt
  else match fuel with
  | O => ret0
  | S fuel =>
      '(c, cbs) ← on_copy decode_func cbs;
      encode_func c;;
      mb_transcode fuel decode_func encode_func cbs
  end.

Definition mb_decoder (inform : Z) : option (M cbs Z) :=
  if inform =? MBSTRING_BMP then Some cbs_get_ucs2_be
  else if inform =? MBSTRING_UNIV then Some cbs_get_utf32_be
  else if inform =? MBSTRING_UTF8 then Some cbs_get_utf8
  else if inform =? MBSTRING_ASC then Some cbs_get_latin1
  else None.

(** [str_type], [outform], [encode_func] and [size_estimate]. *)
Definition mb_output (mask nchar utf8_len : Z) : option (Z * Z * (Z → M cbb_st ()) * Z) :=
  if test_mask mask B_ASN1_PRINTABLESTRING then
    Some (V_ASN1_PRINTABLESTRING, MBSTRING_ASC, cbb_add_latin1, nchar)
  else if test_mask mask B_ASN1_IA5STRING then Some (V_ASN1_IA5STRING, MBSTRING_ASC, cbb_add_latin1, nchar)
  else if test_mask mask B_ASN1_T61STRING then Some (V_ASN1_T61STRING, MBSTRING_ASC, cbb_add_latin1, nchar)
  else if test_mask mask B_ASN1_BMPSTRING then
    Some (V_ASN1_BMPSTRING, MBSTRING_BMP, cbb_add_ucs2_be, size_t (2 * nchar))
  else if test_mask mask B_ASN1_UNIVERSALSTRING then
    Some (V_ASN1_UNIVERSALSTRING, MBSTRING_UNIV, cbb_add_utf32_be, size_t (4 * nchar))
  else if test_mask mask B_ASN1_UTF8STRING then
    Some (V_ASN1_UTF8STRING, MBSTRING_UTF8, cbb_add_utf8, utf8_len)
  else None.

(** What [out] points to afterwards; [Dangling]: to a freed object. *)
Inductive out_after :=
  | NoOut
  | Null
  | Live (s : ASN1_STRING)
  | Dangling.

Definition untouched (out : option (option ASN1_STRING)) : out_after :=
  match out with None => NoOut | Some None => Null | Some (Some s) => Live s end.

(** Convert to a new block; [None] is [goto err]. *)
Definition mb_convert (fuel : nat) (decode_func : M cbs Z) (encode_func : Z → M cbb_st ())
    (size_estimate : Z) (cbs : cbs) : option (bytes * Z) :=
  st ← CBB_init (size_t (size_estimate + 1));
  match (mb_transcode fuel decode_func encode_func cbs;; CBB_add_u8 0;; CBB_finish true true) st with
  | (Some (data, data_len), _) =>
      if (data_len <? 1) || (INT_MAX <? data_len) then None else Some (data, data_len - 1)
  | (None, _) => None
  end.

(** [out] is [None] for NULL, [Some None] for a pointer to NULL. *)
Definition ASN1_mbstring_ncopy (out : option (option ASN1_STRING)) (in_ : bytes) (len inform mask minsize maxsize : Z) :
    Z * out_after :=
  let len := if len =? -1 then strlen in_ else len in
  let mask := if mask =? 0 then DIRSTRING_TYPE else mask in
  let fail := (-1, untouched out) in
  match mb_decoder inform with
  | None => fail
  | Some decode_func =>
      let cbs := CBS_init in_ len in
      match mb_scan (length cbs) decode_func inform cbs 0 0 mask with
      | None => fail
      | Some (nchar, utf8_len, mask) =>
          if (0 <? minsize) && (nchar <? minsize) then fail
          else if (0 <? maxsize) && (maxsize <? nchar) then fail
          else match mb_output mask nchar utf8_len with
          | None => fail
          | Some (str_type, outform, encode_func, size_estimate) =>
              match out with
              | None => (str_type, NoOut)
              | Some dest =>
                  let free_out := negb (bool_decide (is_Some dest)) in
                  let dest' :=
                    match dest with
                    | Some d =>
                        Some {| str_length := if bool_decide (is_Some (str_data d)) then 0 else str_length d;
                                str_type := str_type; str_data := None; str_flags := str_flags d |}
                    | None => ASN1_STRING_type_new str_type
                    end in
                  match dest' with
                  | None => fail
                  | Some dest =>
                      if inform =? outform then
                        let '(ok, dest) := ASN1_STRING_set dest (Some in_) len in
                        (if ok : bool then str_type else -1, Live dest)
                      else match mb_convert (length cbs) decode_func encode_func size_estimate cbs with
                      | None => (-1, if free_out then Dangling else Live dest)
                      | Some (data, n) =>
                          (str_type, Live {| str_length := n; str_type := MbString.str_type dest;
                                             str_data := Some data; str_flags := str_flags dest |})
                      end
                  end
              end
          end
      end
  end.

Definition ASN1_mbstring_copy (out : option (option ASN1_STRING)) (in_ : bytes) (len inform mask : Z) :
    Z * out_after :=
  ASN1_mbstring_ncopy out in_ len inform mask 0 0.
End asn1_string.

(** * The types a string can get *)

Inductive text_type := Printable | IA5 | T61 | BMP | Universal | UTF8.

(** In order of preference. *)
Definition text_types : list text_type := [Printable; IA5; T61; BMP; Universal; UTF8].

(** The bit of a type in a mask, as an exponent. *)
Definition tt_bit (t : text_type) : Z :=
  match t with Printable => 1 | IA5 => 4 | T61 => 2 | BMP => 11 | Universal => 8 | UTF8 => 13 end.
Definition tt_code (t : text_type) : Z :=
  match t with
  | Printable => V_ASN1_PRINTABLESTRING | IA5 => V_ASN1_IA5STRING | T61 => V_ASN1_T61STRING
  | BMP => V_ASN1_BMPSTRING | Universal => V_ASN1_UNIVERSALSTRING | UTF8 => V_ASN1_UTF8STRING
  end.
(** Can the type hold the character? *)
Definition tt_holds (t : text_type) (u : Z) : bool :=
  match t with
  | Printable => asn1_is_printable u
  | IA5 => u <=? 127
  | T61 => u <=? 0xff
  | BMP => u <=? 0xffff
  | Universal | UTF8 => true
  end.
Definition tt_form (t : text_type) : Z :=
  match t with
  | Printable | IA5 | T61 => MBSTRING_ASC
  | BMP => MBSTRING_BMP
  | Universal => MBSTRING_UNIV
  | UTF8 => MBSTRING_UTF8
  end.

(** The first type of the mask that can hold every character. *)
Definition chosen_type (mask : Z) (us : list Z) : option text_type :=
  List.find (λ t, Z.testbit mask (tt_bit t) && forallb (tt_holds t) us) text_types.

Section mb_facts.
Context {libc : Libc}.

Definition form_charset (inform : Z) : option Charset :=
  if inform =? MBSTRING_BMP then Some ucs2
  else if inform =? MBSTRING_UNIV then Some utf32
  else if inform =? MBSTRING_UTF8 then Some utf8_charset
  else if inform =? MBSTRING_ASC then Some latin1
  else None.

Definition tt_charset (t : text_type) : Charset :=
  match t with
  | Printable | IA5 | T61 => latin1
  | BMP => ucs2
  | Universal => utf32
  | UTF8 => utf8_charset
  end.

(** A text in a character set. *)
Definition text_of (I : Charset) (us : list Z) : bytes := concat (map (@cs_enc _ I) us).

Lemma mb_decoder_charset inform I : form_charset inform = Some I → mb_decoder inform = Some (@cs_get _ I).
Proof.
  unfold form_charset, mb_decoder. repeat (destruct (inform =? _); [by intros [= <-]|]). done.
Qed.

Lemma tt_form_charset t : form_charset (tt_form t) = Some (tt_charset t).
Proof. by destruct t. Qed.

(** ** Masks *)

Lemma test_mask_bit m k : 0 <= k → test_mask m (2 ^ k) = Z.testbit m k.
Proof.
  intros Hk. unfold test_mask. apply eq_true_iff_eq. rewrite negb_true_iff, Z.eqb_neq. split.
  - intros H. destruct (Z.testbit m k) eqn:Hb; [done|]. exfalso. apply H. apply Z.bits_inj'. intros i Hi.
    rewrite Z.land_spec, Z.bits_0, Z.pow2_bits_eqb by done. destruct (Z.eqb_spec k i) as [->|]; [by rewrite Hb|apply andb_false_r].
  - intros Hb H. assert (Z.testbit (m .& 2 ^ k) k = false) as Hf by (rewrite H; apply Z.bits_0).
    rewrite Z.land_spec, Hb, Z.pow2_bits_eqb, Z.eqb_refl in Hf by done. done.
Qed.

Lemma drop_if_bit k bad m j :
  0 <= k → 0 <= j → Z.testbit (drop_if (2 ^ k) bad m) j = Z.testbit m j && negb (bad && (k =? j)).
Proof.
  intros Hk Hj. unfold drop_if. rewrite test_mask_bit by done.
  destruct (Z.testbit m k) eqn:Hb; cbn [andb].
  - destruct bad; cbn; [|by rewrite andb_true_r]. by rewrite Z.ldiff_spec, Z.pow2_bits_eqb.
  - destruct (Z.eqb_spec k j) as [<-|]; [by rewrite Hb|]. by rewrite andb_false_r, andb_true_r.
Qed.

Lemma narrow_bit m c t : Z.testbit (narrow m c) (tt_bit t) = Z.testbit m (tt_bit t) && tt_holds t c.
Proof.
  unfold narrow. change B_ASN1_BMPSTRING with (2 ^ 11). change B_ASN1_T61STRING with (2 ^ 2).
  change B_ASN1_IA5STRING with (2 ^ 4). change B_ASN1_PRINTABLESTRING with (2 ^ 1).
  rewrite !drop_if_bit by (destruct t; cbn; lia).
  destruct t; cbn; rewrite ?andb_false_r, ?andb_true_r; cbn; rewrite ?andb_true_r, ?negb_involutive, <-?Z.leb_antisym; done.
Qed.

Lemma narrow_fold us m t :
  Z.testbit (fold_left narrow us m) (tt_bit t) = Z.testbit m (tt_bit t) && forallb (tt_holds t) us.
Proof.
  revert m. induction us as [|c us IH]; intros m; cbn [fold_left forallb]; [by rewrite andb_true_r|].
  by rewrite IH, narrow_bit, andb_assoc.
Qed.

Lemma narrow_zero c : narrow 0 c = 0.
Proof. unfold narrow, drop_if, test_mask. by rewrite !Z.land_0_l. Qed.
Lemma narrow_fold_zero us : fold_left narrow us 0 = 0.
Proof. induction us as [|c us IH]; cbn [fold_left]; [done|]. by rewrite narrow_zero. Qed.

Lemma chosen_narrow mask us :
  chosen_type mask us = List.find (λ t, test_mask (fold_left narrow us mask) (2 ^ tt_bit t)) text_types.
Proof.
  unfold chosen_type, text_types. cbn [List.find].
  by rewrite !test_mask_bit, !narrow_fold by (cbn; lia).
Qed.

Lemma chosen_nonzero mask us t : chosen_type mask us = Some t → fold_left narrow us mask ≠ 0.
Proof.
  intros H Hz. unfold chosen_type in H. apply find_some in H as [_ H]. rewrite <-narrow_fold, Hz in H.
  by rewrite Z.bits_0 in H.
Qed.

Lemma mb_output_spec m n u :
  0 <= n < 2 ^ 60 → 0 <= u < 2 ^ 62 →
  match List.find (λ t, test_mask m (2 ^ tt_bit t)) text_types with
  | Some t => ∃ est, 0 <= est < 2 ^ 62 ∧
      mb_output m n u = Some (tt_code t, tt_form t, @cs_add _ (tt_charset t), est)
  | None => mb_output m n u = None
  end.
Proof.
  intros Hn Hu. change (2 ^ 60) with 1152921504606846976 in Hn. change (2 ^ 62) with 4611686018427387904 in *.
  unfold mb_output, text_types. cbn [List.find tt_bit].
  change (2 ^ 1) with B_ASN1_PRINTABLESTRING. change (2 ^ 4) with B_ASN1_IA5STRING.
  change (2 ^ 2) with B_ASN1_T61STRING. change (2 ^ 11) with B_ASN1_BMPSTRING.
  change (2 ^ 8) with B_ASN1_UNIVERSALSTRING. change (2 ^ 13) with B_ASN1_UTF8STRING.
  repeat match goal with
  | |- context [if test_mask m ?b then _ else _] =>
      destruct (test_mask m b); [eexists; split; [|reflexivity]; mlia|]
  end.
  done.
Qed.

Lemma mb_output_none m n u :
  List.find (λ t, test_mask m (2 ^ tt_bit t)) text_types = None → mb_output m n u = None.
Proof.
  intros H. pose proof (find_none _ _ H) as Hn. unfold mb_output.
  assert (test_mask m B_ASN1_PRINTABLESTRING = false) as -> by (apply (Hn Printable); cbn; tauto).
  assert (test_mask m B_ASN1_IA5STRING = false) as -> by (apply (Hn IA5); cbn; tauto).
  assert (test_mask m B_ASN1_T61STRING = false) as -> by (apply (Hn T61); cbn; tauto).
  assert (test_mask m B_ASN1_BMPSTRING = false) as -> by (apply (Hn BMP); cbn; tauto).
  assert (test_mask m B_ASN1_UNIVERSALSTRING = false) as -> by (apply (Hn Universal); cbn; tauto).
  assert (test_mask m B_ASN1_UTF8STRING = false) as -> by (apply (Hn UTF8); cbn; tauto). done.
Qed.

(** ** Decoding *)

Section decode.
Context (I : Charset) (inform : Z).

(** A leading byte-order mark is rejected in the wide forms. *)
Definition bom (us : list Z) : Prop :=
  (inform = MBSTRING_BMP ∨ inform = MBSTRING_UNIV) ∧ head us = Some 0xfeff.
#[local] Instance bom_dec us : Decision (bom us).
Proof. unfold bom. apply _. Defined.

Lemma text_of_cons u us : text_of I (u :: us) = @cs_enc _ I u ++ text_of I us.
Proof. done. Qed.

Lemma text_ok us : Forall (@cs_has _ I) us → bytes_ok (text_of I us) ∧ lenZ us <= lenZ (text_of I us).
Proof.
  induction 1 as [|u us Hu _ [IH1 IH2]]; [by split; [apply bytes_ok_nil|cbn]|]. rewrite text_of_cons.
  destruct (cs_enc_ok u Hu) as [H1 H2]. rewrite bytes_ok_app, lenZ_app, lenZ_cons. split; [by split|lia].
Qed.

Lemma get_enc u us :
  @cs_has _ I u → Forall (@cs_has _ I) us → @cs_get _ I (text_of I (u :: us)) = (Some u, text_of I us).
Proof.
  intros Hu Hus. rewrite text_of_cons. destruct (text_ok us Hus) as [H1 _], (cs_enc_ok u Hu) as [H2 _].
  apply cs_get_iff; [by apply bytes_ok_app|done].
Qed.

Lemma utf8_len_bound c : 1 <= cbb_get_utf8_len c <= 4.
Proof. unfold cbb_get_utf8_len. repeat case_match; lia. Qed.

Lemma bom_test n us u :
  0 <= n → (n =? 0) && ((inform =? MBSTRING_BMP) || (inform =? MBSTRING_UNIV)) && (u =? 0xfeff) =
  bool_decide (n = 0 ∧ bom (u :: us)).
Proof.
  intros Hn. unfold bom. cbn [head]. apply eq_true_iff_eq.
  rewrite !andb_true_iff, orb_true_iff, !Z.eqb_eq, bool_decide_eq_true. split; [intros [[-> H] ->]; by split_and!|intros (-> & H & [= ->]); by split_and!].
Qed.

Lemma mb_scan_complete fuel us n u mask :
  Forall (@cs_has _ I) us → (length us <= fuel)%nat → (n = 0 → ¬ bom us) →
  fold_left narrow us mask ≠ 0 → 0 <= n → n + lenZ us < 2 ^ 60 → 0 <= u → u + 4 * lenZ us < 2 ^ 62 →
  ∃ u', mb_scan fuel (@cs_get _ I) inform (text_of I us) n u mask =
          Some (n + lenZ us, u', fold_left narrow us mask) ∧ u <= u' <= u + 4 * lenZ us.
Proof.
  change (2 ^ 60) with 1152921504606846976. change (2 ^ 62) with 4611686018427387904.
  intros Hus. revert fuel n u mask. induction Hus as [|c us Hc Hus IH]; intros fuel n u mask Hf Hb Hm Hn Hnl Hu Hul.
  { exists u. rewrite Z.add_0_r. destruct fuel; (split; [done|llia]). }
  destruct fuel as [|fuel]; [cbn in Hf; lia|]. cbn [mb_scan].
  destruct (cs_enc_ok c Hc) as [_ Hcl]. destruct (text_ok us Hus) as [_ Hlt]. pose proof (lenZ_nonneg us).
  unfold CBS_len. rewrite text_of_cons, lenZ_app. destruct (Z.eqb_spec (lenZ (cs_enc c) + lenZ (text_of I us)) 0); [lia|].
  rewrite <-text_of_cons, get_enc by done. rewrite (bom_test n us c) by done.
  rewrite bool_decide_eq_false_2 by naive_solver. cbn [fold_left] in Hm.
  destruct (Z.eqb_spec (narrow mask c) 0) as [Hz|Hnz]; [rewrite Hz, narrow_fold_zero in Hm; done|].
  rewrite lenZ_cons in *. pose proof (utf8_len_bound c).
  rewrite !wrap_small by mlia.
  destruct (IH fuel (n + 1) (u + cbb_get_utf8_len c) (narrow mask c)) as (u' & Hs & Hu');
    [cbn in Hf; lia|intros; lia|done|lia..|].
  exists u'. cbn [fold_left]. rewrite Hs. split; [|lia]. do 3 f_equal. lia.
Qed.

Lemma mb_scan_sound fuel s n u mask n' u' m' :
  bytes_ok s → 0 <= n → n + lenZ s < 2 ^ 60 →
  mb_scan fuel (@cs_get _ I) inform s n u mask = Some (n', u', m') →
  ∃ us, s = text_of I us ∧ Forall (@cs_has _ I) us ∧ n' = n + lenZ us ∧ m' = fold_left narrow us mask ∧
        (n = 0 → ¬ bom us).
Proof.
  change (2 ^ 60) with 1152921504606846976.
  revert s n u mask. induction fuel as [|fuel IH]; intros s n u mask Hok Hn Hl; cbn [mb_scan];
    unfold CBS_len; (destruct (Z.eqb_spec (lenZ s) 0) as [H0|H0];
      [intros [= <- <- <-]; apply Z.eq_le_incl, lenZ_0_nil in H0 as ->; exists []; rewrite Z.add_0_r;
       repeat (split; [done || constructor|]); by intros _ [_ ?]|]); [done|].
  destruct (cs_get s) as [[c|] s'] eqn:Hg; [|done].
  apply cs_get_iff in Hg as [-> Hc]; [|done]. apply bytes_ok_app in Hok as [Hok1 Hok2].
  destruct (cs_enc_ok c Hc) as [_ Hcl]. rewrite lenZ_app in *. pose proof (lenZ_nonneg s').
  destruct (_ && (c =? 0xfeff)) eqn:Hb; [done|].
  destruct (narrow mask c =? 0); [done|]. rewrite (wrap_small 64 (n + 1)) by mlia. intros Hs.
  apply IH in Hs as (us & -> & Hus & -> & -> & _); [|done|lia|lia].
  exists (c :: us). rewrite text_of_cons, lenZ_cons. split_and!; [done|by constructor|lia|done|].
  rewrite (bom_test n us c) in Hb by done. apply bool_decide_eq_false in Hb. naive_solver.
Qed.

End decode.

(** ** Converting *)

Lemma tt_has (I : Charset) t u : @cs_has _ I u → tt_holds t u = true → @cs_has _ (tt_charset t) u.
Proof.
  intros [Hu Hv]%cs_unicode Ht. destruct t; cbn in *; bools; try done; try lia.
  unfold asn1_is_printable in Ht. destruct (Z.ltb_spec 0x7f u); [done|lia].
Qed.

Lemma emits_transcode (I J : Charset) fuel us :
  Forall (@cs_has _ I) us → Forall (@cs_has _ J) us → (length us <= fuel)%nat →
  emits (mb_transcode fuel (@cs_get _ I) (@cs_add _ J) (text_of I us)) (text_of J us).
Proof.
  intros HI. revert fuel. induction HI as [|u us Hu HI IH]; intros fuel HJ Hf.
  { destruct fuel; apply (emits_pure (λ _, tt)). }
  destruct fuel as [|fuel]; [cbn in Hf; lia|]. cbn [mb_transcode].
  apply Forall_cons in HJ as [HuJ HJ]. destruct (cs_enc_ok u Hu) as [_ Hl]. unfold CBS_len.
  rewrite (text_of_cons I), lenZ_app. destruct (text_ok I us HI) as [_ Hlt]. pose proof (lenZ_nonneg us).
  destruct (Z.eqb_spec (lenZ (@cs_enc _ I u) + lenZ (text_of I us)) 0); [lia|].
  rewrite <-text_of_cons. apply (emits_on_copy _ _ u (text_of I us)); [by apply get_enc|].
  rewrite text_of_cons. apply emits_bind; [by apply cs_add_emits|]. intros _. apply IH; [done|cbn in Hf; lia].
Qed.

Lemma finish_run (m : M cbb_st ()) st :
  (m;; CBB_finish true true) st =
  match with_finish m st with
  | (Some (_, data, len), st') => (Some (data, len), st')
  | (None, st') => (None, st')
  end.
Proof.
  unfold with_finish, mbind, M_bind. destruct (m st) as [[a|] st1]; [|done].
  by destruct (CBB_finish true true st1) as [[[data len]|] st2].
Qed.

Lemma mb_convert_spec (I J : Charset) fuel us est :
  reliable_malloc → Forall (@cs_has _ I) us → Forall (@cs_has _ J) us → (length us <= fuel)%nat →
  0 <= est < 2 ^ 62 → lenZ (text_of J us) < INT_MAX →
  ∃ data, mb_convert fuel (@cs_get _ I) (@cs_add _ J) est (text_of I us) = Some (data, lenZ (text_of J us)) ∧
          takeZ (lenZ (text_of J us) + 1) data = text_of J us ++ [0].
Proof.
  intros Hm HI HJ Hf He Hl. unfold mb_convert.
  assert (2 ^ 62 = 4611686018427387904) as H62 by done. assert (2 ^ 61 = 2305843009213693952) as H61 by done.
  rewrite (wrap_small 64 (est + 1)) by mlia.
  destruct (CBB_init_total (est + 1) Hm) as [st Hst]; [lia|]. rewrite Hst. cbn [mbind option_bind].
  assert (yields (mb_transcode fuel (@cs_get _ I) (@cs_add _ J) (text_of I us);; CBB_add_u8 0) tt
            (text_of J us ++ [0])) as Hy.
  { apply yields_unit. apply emits_bind; [by apply emits_transcode|]. intros _. by apply emits_add_u8. }
  destruct (with_finish_spec (est + 1) _ tt _ st ltac:(mlia) Hst Hy) as [_ Htot].
  destruct (Htot Hm) as (data & len & st' & Hw & Htk); [rewrite lenZ_app; change (lenZ [0]) with 1; mlia|].
  assert (((mb_transcode fuel (@cs_get _ I) (@cs_add _ J) (text_of I us);; CBB_add_u8 0);; CBB_finish true true) st
          = (Some (data, len), st')) as Hrun by by rewrite finish_run, Hw.
  rewrite bind_assoc in Hrun. rewrite Hrun.
  pose proof (with_finish_len (est + 1) _ tt _ st _ _ ltac:(mlia) Hst Hy Hw) as Hlen. cbn in Hlen.
  rewrite lenZ_app in Hlen. change (lenZ [0]) with 1 in Hlen. pose proof (lenZ_nonneg (text_of J us)).
  unfold INT_MAX in *. destruct (Z.ltb_spec len 1); [lia|]. destruct (Z.ltb_spec (2 ^ 31 - 1) len); [lia|].
  exists data. rewrite <-Hlen. split; [|done]. do 2 f_equal. lia.
Qed.

Lemma ASN1_STRING_set_fresh str d :
  reliable_malloc → str_data str = None → lenZ d < INT_MAX →
  ∃ block, ASN1_STRING_set str (Some d) (lenZ d) =
    (true, {| str_length := lenZ d; str_type := str_type str; str_data := Some block;
              str_flags := str_flags str |}) ∧ takeZ (lenZ d + 1) block = d ++ [0].
Proof.
  intros Hm Hs Hd. unfold INT_MAX in Hd. change (2 ^ 31 - 1) with 2147483647 in Hd. pose proof (lenZ_nonneg d).
  unfold ASN1_STRING_set. destruct (Z.ltb_spec (lenZ d) 0); [lia|]. rewrite Hs.
  rewrite bool_decide_eq_false_2 by (by intros [? ?]). rewrite orb_true_r. cbn [OPENSSL_realloc].
  assert (size_t (s32 (lenZ d + 1)) = lenZ d + 1) as ->.
  { unfold s32. change (2 ^ 31) with 2147483648. rewrite pow2_32. mlia. }
  destruct (OPENSSL_malloc_reliable (lenZ d + 1) Hm) as [b Hb]; [change (2 ^ 62) with 4611686018427387904; lia|].
  rewrite Hb. apply OPENSSL_malloc_len in Hb; [|lia]. eexists. split; [done|].
  rewrite (takeZ_all d) by lia. replace (write_at (write_at b 0 d) (lenZ d) [0]) with (write_at b 0 (d ++ [0]))
    by (symmetry; apply (write_at_then b 0 d [0]); change (lenZ [0]) with 1; lia).
  rewrite takeZ_write_at; [done|lia|..]; rewrite lenZ_app; change (lenZ [0]) with 1; lia.
Qed.


(** ** The whole function *)

Definition size_ok (minsize maxsize n : Z) : Prop := (0 < minsize → minsize <= n) ∧ (0 < maxsize → n <= maxsize).

(** The input decodes to [us], and [t] is the type to use. *)
Record fits_type (I : Charset) (inform mask minsize maxsize : Z) (in_ : bytes) (us : list Z) (t : text_type) : Prop := {
  ft_text : in_ = text_of I us;
  ft_has : Forall (@cs_has _ I) us;
  ft_bom : ¬ bom inform us;
  ft_size : size_ok minsize maxsize (lenZ us);
  ft_type : chosen_type mask us = Some t;
}.

(** A string of type [t] with the text [us], NUL-terminated. *)
Definition is_text (t : text_type) (us : list Z) (s : ASN1_STRING) : Prop :=
  let text := text_of (tt_charset t) us in
  str_type s = tt_code t ∧ str_length s = lenZ text ∧
  ∃ block, str_data s = Some block ∧ takeZ (lenZ text + 1) block = text ++ [0].

Lemma text_of_len (J : Charset) us : Forall (@cs_has _ J) us → lenZ (text_of J us) <= 4 * lenZ us.
Proof.
  induction 1 as [|u us Hu _ IH]; [done|]. rewrite text_of_cons, lenZ_app, lenZ_cons.
  destruct (cs_enc_ok u Hu) as [_ Hl]. lia.
Qed.

Lemma size_test minsize maxsize n :
  size_ok minsize maxsize n ↔ (0 <? minsize) && (n <? minsize) = false ∧ (0 <? maxsize) && (maxsize <? n) = false.
Proof. unfold size_ok. rewrite !andb_false_iff, !Z.ltb_ge. lia. Qed.

Lemma chosen_holds mask us t : chosen_type mask us = Some t → Forall (λ u, tt_holds t u = true) us.
Proof.
  intros H. apply find_some in H as [_ H]. apply andb_true_iff in H as [_ H]. rewrite forallb_forall in H.
  apply Forall_forall. intros x Hx. by apply H, list_elem_of_In.
Qed.

Section ncopy.
Context (I : Charset) (inform mask minsize maxsize : Z) (in_ : bytes).
Context (Hform : form_charset inform = Some I) (Hmask : mask ≠ 0) (Hok : bytes_ok in_) (Hlen : lenZ in_ < 2 ^ 28).

Lemma ncopy_complete us t :
  reliable_malloc → fits_type I inform mask minsize maxsize in_ us t →
  ∃ s, ASN1_mbstring_ncopy (Some None) in_ (lenZ in_) inform mask minsize maxsize = (tt_code t, Live s) ∧
       is_text t us s.
Proof.
  intros Hm [-> Hus Hbom Hsize Ht]. change (2 ^ 28) with 268435456 in Hlen.
  destruct (text_ok I us Hus) as [_ Hul]. pose proof (lenZ_nonneg us) as Hun.
  unfold ASN1_mbstring_ncopy. destruct (Z.eqb_spec (lenZ (text_of I us)) (-1)); [lia|].
  destruct (Z.eqb_spec mask 0); [done|]. rewrite (mb_decoder_charset _ _ Hform).
  assert (CBS_init (text_of I us) (lenZ (text_of I us)) = text_of I us) as -> by (apply takeZ_all; lia).
  destruct (mb_scan_complete I inform (length (text_of I us)) us 0 0 mask) as (u' & -> & Hu'); try done.
  { unfold lenZ in Hul. lia. }
  { by eapply chosen_nonzero. }
  { change (2 ^ 60) with 1152921504606846976. lia. }
  { change (2 ^ 62) with 4611686018427387904. lia. }
  rewrite Z.add_0_l. apply size_test in Hsize as [-> ->].
  pose proof (mb_output_spec (fold_left narrow us mask) (lenZ us) u') as Hout.
  rewrite <-chosen_narrow, Ht in Hout. destruct Hout as (est & Hest & ->).
  { change (2 ^ 60) with 1152921504606846976. lia. }
  { change (2 ^ 62) with 4611686018427387904. lia. }
  destruct (OPENSSL_malloc_reliable sizeof_ASN1_STRING Hm) as [b Hb]; [done|].
  unfold ASN1_STRING_type_new. rewrite Hb. cbn [mbind option_bind].
  assert (Forall (@cs_has _ (tt_charset t)) us) as HJ.
  { apply chosen_holds in Ht. apply Forall_forall. intros x Hx. rewrite Forall_forall in Ht, Hus.
    apply (tt_has I); [by apply Hus|by apply Ht]. }
  destruct (Z.eqb_spec inform (tt_form t)) as [He|_].
  - rewrite He, tt_form_charset in Hform. injection Hform as <-.
    destruct (ASN1_STRING_set_fresh {| str_length := 0; str_type := tt_code t; str_data := None; str_flags := 0 |}
      (text_of (tt_charset t) us) Hm eq_refl) as (block & -> & Hblk); [unfold INT_MAX; change (2 ^ 31) with 2147483648; lia|].
    eexists. split; [done|]. split; [done|]. split; [done|]. by exists block.
  - pose proof (text_of_len (tt_charset t) us HJ).
    destruct (mb_convert_spec I (tt_charset t) (length (text_of I us)) us est Hm Hus HJ) as (data & -> & Hd);
      [unfold lenZ in Hul; lia|done|unfold INT_MAX; change (2 ^ 31) with 2147483648; lia|].
    eexists. split; [done|]. split; [done|]. split; [done|]. by exists data.
Qed.

Lemma ncopy_fails :
  (∀ us t, ¬ fits_type I inform mask minsize maxsize in_ us t) →
  ASN1_mbstring_ncopy (Some None) in_ (lenZ in_) inform mask minsize maxsize = (-1, Null).
Proof.
  intros Hno. change (2 ^ 28) with 268435456 in Hlen. pose proof (lenZ_nonneg in_).
  unfold ASN1_mbstring_ncopy. destruct (Z.eqb_spec (lenZ in_) (-1)); [lia|].
  destruct (Z.eqb_spec mask 0); [done|]. rewrite (mb_decoder_charset _ _ Hform).
  assert (CBS_init in_ (lenZ in_) = in_) as -> by (apply takeZ_all; lia).
  destruct (mb_scan _ _ _ _ _ _ _) as [[[n' u'] m']|] eqn:Hs; [|done].
  apply mb_scan_sound in Hs as (us & Htext & Hus & -> & -> & Hb);
    [|done|done|change (2 ^ 60) with 1152921504606846976; lia].
  rewrite Z.add_0_l. destruct (_ && _) eqn:Hs1; [done|]. destruct ((0 <? maxsize) && _) eqn:Hs2; [done|].
  destruct (chosen_type mask us) as [t|] eqn:Ht.
  { destruct (Hno us t). split; [done|done|by apply Hb|by apply size_test|done]. }
  rewrite chosen_narrow in Ht. by rewrite mb_output_none.
Qed.
End ncopy.
End mb_facts.

(** * Properties *)

Section properties.
Context {libc : Libc}.

(** C36. [ASN1_mbstring_ncopy] makes a string exactly when the input is a text of
    its character set without a byte order mark, within the length limits, that
    some type of the mask can hold; the string has the first such type in order of
    preference and the same code points in that type's encoding.  Otherwise it
    returns -1 and no string. *)
Theorem mbstring_exact I inform mask minsize maxsize in_ :
  reliable_malloc → form_charset inform = Some I → mask ≠ 0 → bytes_ok in_ → lenZ in_ < 2 ^ 28 →
  (∀ us t, fits_type I inform mask minsize maxsize in_ us t →
     ∃ s, ASN1_mbstring_ncopy (Some None) in_ (lenZ in_) inform mask minsize maxsize = (tt_code t, Live s) ∧
          is_text t us s) ∧
  ((∀ us t, ¬ fits_type I inform mask minsize maxsize in_ us t) →
     ASN1_mbstring_ncopy (Some None) in_ (lenZ in_) inform mask minsize maxsize = (-1, Null)).
Proof.
  intros Hm Hf Hmask Hok Hl. split.
  - intros us t Ht. by apply (ncopy_complete I).
  - by apply (ncopy_fails I).
Qed.
End properties.

Lemma mbstring_exact_witness :
  let in_ := [0xc3; 0xa9] in
  (∀ us t, @fits_type calloc_libc utf8_charset MBSTRING_UTF8 DIRSTRING_TYPE 0 0 in_ us t →
     ∃ s, @ASN1_mbstring_ncopy calloc_libc (Some None) in_ 2 MBSTRING_UTF8 DIRSTRING_TYPE 0 0
            = (tt_code t, Live s) ∧ @is_text calloc_libc t us s) ∧
  ((∀ us t, ¬ @fits_type calloc_libc utf8_charset MBSTRING_UTF8 DIRSTRING_TYPE 0 0 in_ us t) →
     @ASN1_mbstring_ncopy calloc_libc (Some None) in_ 2 MBSTRING_UTF8 DIRSTRING_TYPE 0 0 = (-1, Null)).
Proof.
  intros in_. apply (@mbstring_exact calloc_libc utf8_charset MBSTRING_UTF8 DIRSTRING_TYPE 0 0 in_ calloc_reliable);
    [reflexivity|done|decide_now|decide_now].
Defined.

(** An allocator that serves nothing but blocks of the size of a string object. *)
Program Definition string_only_libc : Libc :=
  {| malloc n := if n =? sizeof_ASN1_STRING + OPENSSL_MALLOC_PREFIX then Some (replicate 32 0) else None |}.
Next Obligation.
Proof.
  cbn beta. intros n p. destruct (Z.eqb_spec n (sizeof_ASN1_STRING + OPENSSL_MALLOC_PREFIX)) as [Hn|Hn].
  - intros [= <-]. by rewrite Hn.
  - intros [=].
Qed.

(** When the conversion runs out of memory after the string object was made,
    [ASN1_mbstring_ncopy] frees that object but leaves [*out] pointing to it. *)
Theorem mbstring_dangling :
  @ASN1_mbstring_ncopy string_only_libc (Some None) [0xc3; 0xa9] 2 MBSTRING_UTF8 DIRSTRING_TYPE 0 0
  = (-1, Dangling).
Proof. vm_compute. reflexivity. Qed.
