(* ===== verification/Schema.v ===== *)
(** Messages written with cbb.c and read back with cbs.c.

    A schema is a program for both sides: [encode] makes the calls that write a
    value of it, [decode] the calls that read one.  The calls are those of
    src/HolyWater-Test/Pods/BoringSSL-GRPC/src/crypto/bytestring/. *)
From S2P Require Import Prelude Mem X690 Cbs DerRead IntRead Cbb CbbSpec CbbBuild CbbAsn1 Unicode.

Inductive schema :=
  | SUnit                              (** nothing *)
  | SPair (a b : schema)               (** one after the other *)
  | SBytes (n : Z)                     (** [n] bytes *)
  | SUint (n : Z)                      (** an [n]-byte big-endian integer *)
  | SPrefixed (len_len : Z) (a : schema)  (** length-prefixed *)
  | SElement (tag : Z) (a : schema)    (** an ASN.1 element *)
  | SInt64 | SUint64 | SBool | SOctetString
  | SUtf8.                             (** one code point *)

Fixpoint value (s : schema) : Type :=
  match s with
  | SUnit => ()
  | SPair a b => value a * value b
  | SBytes _ | SOctetString => bytes
  | SUint _ | SInt64 | SUint64 | SUtf8 => Z
  | SBool => bool
  | SPrefixed _ a | SElement _ a => value a
  end.

Section schema.
Context {libc : Libc}.

Fixpoint encode (s : schema) : value s → M cbb_st () :=
  match s return value s → M cbb_st () with
  | SUnit => λ _, mret tt
  | SPair a b => λ v, encode a v.1;; encode b v.2
  | SBytes _ => λ v, CBB_add_bytes v
  | SUint n => λ v, cbb_add_u v n
  | SPrefixed ll a => λ v, cbb_add_length_prefixed ll;; on_child (encode a v);; CBB_flush
  | SElement tag a => λ v, CBB_add_asn1 tag;; on_child (encode a v);; CBB_flush
  | SInt64 => λ v, CBB_add_asn1_int64 v
  | SUint64 => λ v, CBB_add_asn1_uint64 v
  | SBool => λ v, CBB_add_asn1_bool (if v then 1 else 0)
  | SOctetString => λ v, CBB_add_asn1_octet_string v
  | SUtf8 => λ v, cbb_add_utf8 v
  end.

(** Read the whole of a child. *)
Definition whole {A} (m : M cbs A) (child : cbs) : M cbs A :=
  '(v, rest) ← on_copy m child;
  ensure (CBS_len rest =? 0);;
  mret v.

Fixpoint decode (s : schema) : M cbs (value s) :=
  match s return M cbs (value s) with
  | SUnit => mret tt
  | SPair a b => v ← decode a; w ← decode b; mret (v, w)
  | SBytes n => CBS_get_bytes n
  | SUint n => cbs_get_u n
  | SPrefixed ll a => child ← cbs_get_length_prefixed ll; whole (decode a) child
  | SElement tag a => child ← CBS_get_asn1 tag; whole (decode a) child
  | SInt64 => CBS_get_asn1_int64
  | SUint64 => CBS_get_asn1_uint64
  | SBool => CBS_get_asn1_bool
  | SOctetString => CBS_get_asn1 CBS_ASN1_OCTETSTRING
  | SUtf8 => cbs_get_utf8
  end.

(** The bytes of a value. *)
Fixpoint bytes_of (s : schema) : value s → bytes :=
  match s return value s → bytes with
  | SUnit => λ _, []
  | SPair a b => λ v, bytes_of a v.1 ++ bytes_of b v.2
  | SBytes _ => λ v, v
  | SUint n => λ v, be_bytes (Z.to_nat n) v
  | SPrefixed ll a => λ v, be_bytes (Z.to_nat ll) (lenZ (bytes_of a v)) ++ bytes_of a v
  | SElement tag a => λ v, der_element tag (bytes_of a v)
  | SInt64 | SUint64 => λ v, der_element CBS_ASN1_INTEGER (int_body v)
  | SBool => λ v, der_element CBS_ASN1_BOOLEAN [bool_byte v]
  | SOctetString => λ v, der_element CBS_ASN1_OCTETSTRING v
  | SUtf8 => λ v, utf8 v
  end.

(** The values a schema can carry. *)
Fixpoint carries (s : schema) : value s → Prop :=
  match s return value s → Prop with
  | SUnit => λ _, True
  | SPair a b => λ v, carries a v.1 ∧ carries b v.2
  | SBytes n => λ v, bytes_ok v ∧ lenZ v = n ∧ n < 2 ^ 64
  | SUint n => λ v, 0 <= n <= 8 ∧ 0 <= v < 256 ^ n
  | SPrefixed ll a => λ v, carries a v ∧ 1 <= ll <= 3 ∧ lenZ (bytes_of a v) < 256 ^ ll
  | SElement tag a => λ v, carries a v ∧ fits 32 tag ∧ lenZ (bytes_of a v) <= 0xfffffffe
  | SInt64 => λ v, - 2 ^ 63 <= v < 2 ^ 63
  | SUint64 => λ v, fits 64 v
  | SBool => λ _, True
  | SOctetString => λ v, bytes_ok v ∧ lenZ v <= 0xfffffffe
  | SUtf8 => λ v, 0 <= v ∧ is_valid_code_point v = true
  end.

Lemma length_prefixed_iff ll s c rest :
  bytes_ok s → 1 <= ll <= 3 → lenZ c < 256 ^ ll →
  s = be_bytes (Z.to_nat ll) (lenZ c) ++ c ++ rest → cbs_get_length_prefixed ll s = (Some c, rest).
Proof.
  intros Hok Hll Hc Hs. unfold cbs_get_length_prefixed. pose proof (lenZ_nonneg c).
  assert (cbs_get_u ll s = (Some (lenZ c), c ++ rest)) as Hu.
  { apply cbs_get_u_iff; [done|lia|]. exists (be_bytes (Z.to_nat ll) (lenZ c)).
    rewrite lenZ_be_bytes, be_value_be_bytes, Z2Nat.id by lia. rewrite Z.mod_small by lia. done. }
  mstep Hu. by apply CBS_get_bytes_iff.
Qed.

Lemma bytes_of_ok s v : carries s v → bytes_ok (bytes_of s v).
Proof.
  induction s as [|a IHa b IHb|n|n|ll a IH|tag a IH| | | | |]; cbn [carries bytes_of]; intros Hv.
  - constructor.
  - apply bytes_ok_app. split; [apply IHa|apply IHb]; apply Hv.
  - apply Hv.
  - apply be_bytes_ok.
  - apply bytes_ok_app. split; [apply be_bytes_ok|]. apply IH, Hv.
  - destruct Hv as (Hv & Ht & Hl). apply bytes_ok_app. split; [|by apply IH].
    apply der_header_ok; [done|]. pose proof (lenZ_nonneg (bytes_of a v)). mlia.
  - apply bytes_ok_app. split; [|apply int_body_ok]. apply der_header_ok; [done|]. apply fits_32_int_body.
    change (2 ^ 63) with 9223372036854775808 in *. mlia.
  - apply bytes_ok_app. split; [|apply int_body_ok]. apply der_header_ok; [done|]. apply fits_32_int_body.
    change (2 ^ 63) with 9223372036854775808. mlia.
  - destruct v; (apply bytes_ok_app; split; [by apply der_header_ok|by repeat constructor]).
  - destruct Hv as [Hok Hl]. apply bytes_ok_app. split; [|done]. apply der_header_ok; [done|].
    pose proof (lenZ_nonneg v). mlia.
  - destruct Hv as [H0 Hv]. apply utf8_ok. apply is_valid_code_point_iff in Hv as [H1 _]. lia.
Qed.

(** What is written. *)
Lemma encode_emits s v : carries s v → emits (encode s v) (bytes_of s v).
Proof.
  induction s as [|a IHa b IHb|n|n|ll a IH|tag a IH| | | | |]; cbn [carries bytes_of encode]; intros Hv.
  - apply (emits_pure (λ _, tt)).
  - apply emits_bind; [apply IHa, Hv|intros _; apply IHb, Hv].
  - apply emits_add_bytes. destruct Hv as (_ & Hl & Hn). by rewrite Hl.
  - destruct Hv. by apply emits_add_u.
  - destruct Hv as (Hv & Hll & Hl). apply emits_length_prefixed; [done|done|]. by apply emits_emits_fresh, IH.
  - destruct Hv as (Hv & Ht & Hl). apply emits_asn1; [done|done|]. by apply emits_emits_fresh, IH.
  - by apply emits_CBB_add_asn1_int64.
  - by apply emits_CBB_add_asn1_uint64.
  - destruct v; [apply (emits_CBB_add_asn1_bool 1)|apply (emits_CBB_add_asn1_bool 0)].
  - apply emits_CBB_add_asn1_octet_string, Hv.
  - apply emits_add_utf8; apply Hv.
Qed.

Lemma whole_spec {A} (m : M cbs A) child (v : A) s :
  m child = (Some v, []) → whole m child s = (Some v, s).
Proof. intros Hm. unfold whole. by mstep (on_copy_some m child v [] s Hm). Qed.

(** What is read. *)
Lemma decode_bytes s v rest :
  carries s v → bytes_ok rest → decode s (bytes_of s v ++ rest) = (Some v, rest).
Proof.
  intros Hv Hrest. pose proof (bytes_of_ok s v Hv) as Hok.
  assert (bytes_ok (bytes_of s v ++ rest)) as Hoka by by apply bytes_ok_app.
  revert rest Hrest Hoka. induction s as [|a IHa b IHb|n|n|ll a IH|tag a IH| | | | |]; cbn [carries bytes_of decode] in *; intros rest Hrest Hoka.
  - by destruct v.
  - destruct Hv as [Ha Hb]. rewrite <-app_assoc.
    pose proof (bytes_of_ok a _ Ha) as Hoa. pose proof (bytes_of_ok b _ Hb) as Hob.
    assert (bytes_ok (bytes_of b v.2 ++ rest)) as Hob' by by apply bytes_ok_app.
    mstep (IHa v.1 Ha Hoa (bytes_of b v.2 ++ rest) Hob' ltac:(by apply bytes_ok_app)).
    mstep (IHb v.2 Hb Hob rest Hrest Hob'). by destruct v.
  - apply CBS_get_bytes_iff; [|by split; [|apply Hv]]. assert (lenZ v = n) as Hl by apply Hv. pose proof (lenZ_nonneg v). lia.
  - apply cbs_get_u_iff; [done|apply Hv|]. exists (be_bytes (Z.to_nat n) v).
    rewrite lenZ_be_bytes, be_value_be_bytes, Z2Nat.id by lia. by rewrite Z.mod_small by apply Hv.
  - destruct Hv as (Hv & Hll & Hl). rewrite <-app_assoc in *. pose proof (bytes_of_ok a v Hv) as Hoa.
    mstep (length_prefixed_iff ll _ (bytes_of a v) rest Hoka Hll Hl eq_refl). apply whole_spec.
    specialize (IH v Hv Hoa [] bytes_ok_nil). rewrite app_nil_r in IH. by apply IH.
  - destruct Hv as (Hv & Ht & Hl). pose proof (bytes_of_ok a v Hv) as Hoa. pose proof (lenZ_nonneg (bytes_of a v)).
    assert (CBS_get_asn1 tag (der_element tag (bytes_of a v) ++ rest) = (Some (bytes_of a v), rest)) as Hg.
    { apply CBS_get_asn1_iff; [done|]. split_and!; try done. mlia. }
    mstep Hg. apply whole_spec.
    specialize (IH v Hv Hoa [] bytes_ok_nil). rewrite app_nil_r in IH. by apply IH.
  - by apply get_asn1_int64_iff.
  - by apply get_asn1_uint64_iff.
  - by apply get_asn1_bool_iff.
  - apply CBS_get_asn1_iff; [done|]. split_and!; try done; pose proof (lenZ_nonneg v); mlia.
  - apply get_utf8_complete; [done|apply Hv|apply Hv].
Qed.
End schema.

(** * Properties *)

Section properties.
Context {libc : Libc}.

(** C30. Whatever message the builder calls of a schema write, nested elements and
    length-prefixed children included, the matching reader calls read the same
    values back and stop at its end; and the bytes are the encoding of the message. *)
Theorem schema_round_trip s v n out rest :
  carries s v → fits 64 n → bytes_ok rest → run_builder n (encode s v) = Some out →
  out = bytes_of s v ∧ decode s (out ++ rest) = (Some v, rest).
Proof.
  intros Hv Hn Hrest Hrun. pose proof (run_builder_spec n _ _ Hn (encode_emits s v Hv)) as [Hs _].
  apply Hs in Hrun as ->. split; [done|]. by apply decode_bytes.
Qed.

(** The builder calls of a message succeed as long as memory lasts: nothing
    else makes them fail. *)
Theorem schema_writes s v n :
  reliable_malloc → carries s v → 0 <= n <= 2 ^ 62 → lenZ (bytes_of s v) <= 2 ^ 61 →
  run_builder n (encode s v) = Some (bytes_of s v).
Proof.
  intros Hm Hv Hn Hl. assert (2 ^ 62 < 2 ^ 64) as H by done.
  pose proof (run_builder_spec n _ _ ltac:(unfold fits; lia) (encode_emits s v Hv)) as [_ Ht].
  apply Ht; [done|lia|done].
Qed.
End properties.

(** SEQUENCE { INTEGER -129, [u16-prefixed] { U+20AC, TRUE } }. *)
Definition sample_schema : schema :=
  SElement (0x10 + 2 ^ 29) (SPair SInt64 (SPrefixed 2 (SPair SUtf8 SBool))).
Definition sample_value : value sample_schema := (-129, (0x20ac, true)).

Lemma sample_carries : carries sample_schema sample_value.
Proof. repeat split; vm_compute; congruence. Qed.

Lemma schema_round_trip_witness :
  let out := [0x30; 12; 2; 2; 0xff; 0x7f; 0; 6; 0xe2; 0x82; 0xac; 1; 1; 0xff] in
  out = bytes_of sample_schema sample_value ∧ decode sample_schema (out ++ [9]) = (Some sample_value, [9]).
Proof.
  intros out. apply (@schema_round_trip calloc_libc sample_schema sample_value 0 out [9] sample_carries).
  - decide_now.
  - decide_now.
  - vm_compute. reflexivity.
Defined.

Lemma schema_writes_witness :
  @run_builder calloc_libc _ 0 (@encode calloc_libc sample_schema sample_value)
    = Some (bytes_of sample_schema sample_value).
Proof.
  apply (@schema_writes calloc_libc sample_schema sample_value 0 calloc_reliable sample_carries).
  - decide_now.
  - decide_now.
Defined.
