(* ===== verification/Base64.v ===== *)
(** Base64: src/HolyWater-Test/Pods/BoringSSL-GRPC/src/crypto/base64/base64.c.

    Functions that write to a caller's buffer return the bytes they write there.
    [EVP_EncodeBlock] also writes a terminating NUL, which the streaming encoder
    overwrites; it is left out of the outputs below. *)
From S2P Require Import Prelude ConstTime.

(** * Characters *)

Definition constant_time_lt_args_8 (a b : Z) : Z := u8 (constant_time_msb_w (u64 (a - b))).

Definition constant_time_in_range_8 (a min max : Z) : Z :=
  let a := u8 (a - min) in
  constant_time_lt_args_8 a (u8 (max - min + 1)).

Definition conv_bin2ascii (a : Z) : Z :=
  let a := a .& 0x3f in
  let ret := constant_time_select_8 (constant_time_eq_8 a 62) 43 47 in
  let ret := constant_time_select_8 (constant_time_lt_args_8 a 62) (u8 (a - 52 + 48)) ret in
  let ret := constant_time_select_8 (constant_time_lt_args_8 a 52) (u8 (a - 26 + 97)) ret in
  let ret := constant_time_select_8 (constant_time_lt_args_8 a 26) (u8 (a + 65)) ret in
  ret.

Definition base64_ascii_to_bin (a : Z) : Z :=
  let is_upper := constant_time_in_range_8 a 65 90 in
  let is_lower := constant_time_in_range_8 a 97 122 in
  let is_digit := constant_time_in_range_8 a 48 57 in
  let is_plus := constant_time_eq_8 a 43 in
  let is_slash := constant_time_eq_8 a 47 in
  let is_equals := constant_time_eq_8 a 61 in
  let ret := 0 in
  let ret := u8 (ret .| (is_upper .& (a - 65))) in
  let ret := u8 (ret .| (is_lower .& (a - 97 + 26))) in
  let ret := u8 (ret .| (is_digit .& (a - 48 + 52))) in
  let ret := u8 (ret .| (is_plus .& 62)) in
  let ret := u8 (ret .| (is_slash .& 63)) in
  let is_valid := is_upper .| is_lower .| is_digit .| is_plus .| is_slash .| is_equals in
  u8 (ret .| Z.lnot is_valid).

(** * The context *)

Definition sizeof_data : Z := 48.

Record EVP_ENCODE_CTX := {
  data_used : Z;
  data : bytes;
  eof_seen : bool;
  error_encountered : bool;
}.

Definition zero_ctx : EVP_ENCODE_CTX :=
  {| data_used := 0; data := replicate 48 0; eof_seen := false; error_encountered := false |}.
Definition EVP_EncodeInit (ctx : EVP_ENCODE_CTX) : EVP_ENCODE_CTX := zero_ctx.
Definition EVP_DecodeInit (ctx : EVP_ENCODE_CTX) : EVP_ENCODE_CTX := zero_ctx.

Definition set_data (ctx : EVP_ENCODE_CTX) (used : Z) (d : bytes) : EVP_ENCODE_CTX :=
  {| data_used := used; data := d; eof_seen := eof_seen ctx;
     error_encountered := error_encountered ctx |}.
Definition set_eof (ctx : EVP_ENCODE_CTX) : EVP_ENCODE_CTX :=
  {| data_used := data_used ctx; data := data ctx; eof_seen := true;
     error_encountered := error_encountered ctx |}.
Definition set_error_encountered (ctx : EVP_ENCODE_CTX) : EVP_ENCODE_CTX :=
  {| data_used := data_used ctx; data := data ctx; eof_seen := eof_seen ctx;
     error_encountered := true |}.

(** * Encoding *)

Definition EVP_EncodedLength (len : Z) : option Z :=
  if size_t (len + 2) <? len then None
  else
    let len := (len + 2) / 3 in
    if negb (size_t (len ≪ 2) ≫ 2 =? len) then None
    else
      let len := size_t (len ≪ 2) in
      if size_t (len + 1) <? len then None
      else Some (len + 1).

Definition newline : Z := 10.
Definition equals : Z := 61.

(** [while (remaining)]: three bytes a round. *)
Fixpoint encode_block_loop (fuel : nat) (src : bytes) (remaining : Z) : bytes :=
  match fuel with
  | O => []
  | S fuel =>
      if remaining =? 0 then []
      else if 3 <=? remaining then
        let l := (nthZ src 0 ≪ 16) .| (nthZ src 1 ≪ 8) .| nthZ src 2 in
        [conv_bin2ascii (u8 (l ≫ 18)); conv_bin2ascii (u8 (l ≫ 12));
         conv_bin2ascii (u8 (l ≫ 6)); conv_bin2ascii (u8 l)]
        ++ encode_block_loop fuel (dropZ 3 src) (remaining - 3)
      else
        let l := nthZ src 0 ≪ 16 in
        let l := if remaining =? 2 then l .| (nthZ src 1 ≪ 8) else l in
        [conv_bin2ascii (u8 (l ≫ 18)); conv_bin2ascii (u8 (l ≫ 12));
         if remaining =? 1 then equals else conv_bin2ascii (u8 (l ≫ 6)); equals]
  end.

(** The characters written; their number is the result. *)
Definition EVP_EncodeBlock (src : bytes) (src_len : Z) : bytes :=
  encode_block_loop (Z.to_nat src_len) src src_len.

(** [while (in_len >= sizeof(ctx->data))], with the output and its length so far;
    [None] when [total] would overflow. *)
Fixpoint encode_update_loop (fuel : nat) (input : bytes) (in_len : Z) (out : bytes) (total : Z)
    : bytes * Z * option (bytes * Z) :=
  match fuel with
  | O => (input, in_len, Some (out, total))
  | S fuel =>
      if sizeof_data <=? in_len then
        let encoded := EVP_EncodeBlock input sizeof_data in
        let input := dropZ sizeof_data input in
        let in_len := in_len - sizeof_data in
        let out := out ++ encoded ++ [newline] in
        if size_t (total + lenZ encoded + 1) <? total then (input, in_len, None)
        else encode_update_loop fuel input in_len out (size_t (total + (lenZ encoded + 1)))
      else (input, in_len, Some (out, total))
  end.

(** The context, the output and [*out_len]. *)
Definition EVP_EncodeUpdate (ctx : EVP_ENCODE_CTX) (input : bytes) : EVP_ENCODE_CTX * bytes * Z :=
  let in_len := lenZ input in
  if in_len =? 0 then (ctx, [], 0)
  else if in_len <? sizeof_data - data_used ctx then
    (set_data ctx (data_used ctx + in_len) (write_at (data ctx) (data_used ctx) input), [], 0)
  else
    let '(ctx, input, in_len, out, total) :=
      if negb (data_used ctx =? 0) then
        let todo := sizeof_data - data_used ctx in
        let d := write_at (data ctx) (data_used ctx) (takeZ todo input) in
        let encoded := EVP_EncodeBlock d sizeof_data in
        (set_data ctx 0 d, dropZ todo input, in_len - todo, encoded ++ [newline], lenZ encoded + 1)
      else (ctx, input, in_len, [], 0) in
    match encode_update_loop (length input) input in_len out total with
    | (input, in_len, None) => (ctx, [], 0)
    | (input, in_len, Some (out, total)) =>
        let d := if negb (in_len =? 0) then write_at (data ctx) 0 input else data ctx in
        let ctx := set_data ctx in_len d in
        let total := if INT_MAX <? total then 0 else total in
        (ctx, out, total)
    end.

Definition EVP_EncodeFinal (ctx : EVP_ENCODE_CTX) : EVP_ENCODE_CTX * bytes * Z :=
  if data_used ctx =? 0 then (ctx, [], 0)
  else
    let encoded := EVP_EncodeBlock (data ctx) (data_used ctx) in
    let out := encoded ++ [newline] in
    (set_data ctx 0 (data ctx), out, lenZ out).

(** * Decoding *)

Definition EVP_DecodedLength (len : Z) : option Z :=
  if negb (len mod 4 =? 0) then None else Some (len / 4 * 3).

Definition base64_decode_quad (input : bytes) : option bytes :=
  let a := base64_ascii_to_bin (nthZ input 0) in
  let b := base64_ascii_to_bin (nthZ input 1) in
  let c := base64_ascii_to_bin (nthZ input 2) in
  let d := base64_ascii_to_bin (nthZ input 3) in
  if (a =? 0xff) || (b =? 0xff) || (c =? 0xff) || (d =? 0xff) then None
  else
    let v := u32 (a ≪ 18) .| u32 (b ≪ 12) .| u32 (c ≪ 6) .| d in
    let eq i := Z.b2z (nthZ input i =? equals) in
    let padding_pattern := (eq 0 ≪ 3) .| (eq 1 ≪ 2) .| (eq 2 ≪ 1) .| eq 3 in
    if padding_pattern =? 0 then Some [u8 (v ≫ 16); u8 (v ≫ 8); u8 v]
    else if padding_pattern =? 1 then Some [u8 (v ≫ 16); u8 (v ≫ 8)]
    else if padding_pattern =? 3 then Some [u8 (v ≫ 16)]
    else None.

Definition is_space (c : Z) : bool := (c =? 32) || (c =? 9) || (c =? 13) || (c =? 10).

(** The [for] loop of [EVP_DecodeUpdate]; [false] is [return -1]. *)
Fixpoint decode_update_loop (ctx : EVP_ENCODE_CTX) (out input : bytes) : bool * EVP_ENCODE_CTX * bytes :=
  match input with
  | [] => (true, ctx, out)
  | c :: input =>
      if is_space c then decode_update_loop ctx out input
      else if eof_seen ctx then (false, set_error_encountered ctx, out)
      else
        let ctx := set_data ctx (data_used ctx + 1) (write_at (data ctx) (data_used ctx) [c]) in
        if data_used ctx =? 4 then
          match base64_decode_quad (data ctx) with
          | None => (false, set_error_encountered ctx, out)
          | Some resulting =>
              let ctx := set_data ctx 0 (data ctx) in
              let ctx := if lenZ resulting <? 3 then set_eof ctx else ctx in
              decode_update_loop ctx (out ++ resulting) input
          end
        else decode_update_loop ctx out input
  end.

(** The result, the context, the output and [*out_len]. *)
Definition EVP_DecodeUpdate (ctx : EVP_ENCODE_CTX) (input : bytes)
    : Z * EVP_ENCODE_CTX * bytes * Z :=
  if error_encountered ctx then (-1, ctx, [], 0)
  else
    match decode_update_loop ctx [] input with
    | (false, ctx, out) => (-1, ctx, out, 0)
    | (true, ctx, out) =>
        if INT_MAX <? lenZ out then (-1, set_error_encountered ctx, out, 0)
        else (if eof_seen ctx then 0 else 1, ctx, out, lenZ out)
    end.

Definition EVP_DecodeFinal (ctx : EVP_ENCODE_CTX) : Z :=
  if error_encountered ctx || negb (data_used ctx =? 0) then -1 else 1.

(** The [for] loop of [EVP_DecodeBase64]. *)
Fixpoint decode_base64_loop (fuel : nat) (i in_len : Z) (input out : bytes) : option bytes :=
  match fuel with
  | O => None
  | S fuel =>
      if i <? in_len then
        match base64_decode_quad (dropZ i input) with
        | None => None
        | Some resulting =>
            let out := out ++ resulting in
            if negb (lenZ resulting =? 3) && negb (i =? in_len - 4) then None
            else decode_base64_loop fuel (i + 4) in_len input out
        end
      else Some out
  end.

Definition EVP_DecodeBase64 (max_out : Z) (input : bytes) : option bytes :=
  let in_len := lenZ input in
  if negb (in_len mod 4 =? 0) then None
  else
    match EVP_DecodedLength in_len with
    | None => None
    | Some max_len =>
        if max_out <? max_len then None
        else decode_base64_loop (S (length input)) 0 in_len input []
    end.

Fixpoint trim_front (src : bytes) : bytes :=
  match src with
  | c :: src' => if negb (c =? 32) && negb (c =? 9) then src else trim_front src'
  | [] => []
  end.

Definition trim_back (src : bytes) : bytes :=
  reverse ((fix go l := match l with
            | c :: l' => if is_space c then go l' else l
            | [] => []
            end) (reverse src)).

(** [while (dst_len % 3 != 0)] *)
Definition pad_nuls (out : bytes) : bytes :=
  out ++ replicate (Z.to_nat ((3 - lenZ out mod 3) mod 3)) 0.

Definition EVP_DecodeBlock (src : bytes) : Z * bytes :=
  let src := trim_back (trim_front src) in
  match EVP_DecodedLength (lenZ src) with
  | None => (-1, [])
  | Some dst_len =>
      if INT_MAX <? dst_len then (-1, [])
      else
        match EVP_DecodeBase64 dst_len src with
        | None => (-1, [])
        | Some out => let out := pad_nuls out in (lenZ out, out)
        end
  end.

Example encode_ex : EVP_EncodeBlock [102; 111; 111; 98] 4 = [90; 109; 57; 118; 89; 103; 61; 61].
Proof. vm_compute. done. Qed.
Example decode_ex : EVP_DecodeBlock [32; 90; 109; 57; 118; 89; 103; 61; 61; 10] = (6, [102; 111; 111; 98; 0; 0]).
Proof. vm_compute. done. Qed.

(** * The encoding *)

Definition alphabet : bytes := seqZ 65 26 ++ seqZ 97 26 ++ seqZ 48 10 ++ [43; 47].
Definition b64char (v : Z) : Z := nthZ alphabet v.

Fixpoint b64 (l : bytes) : bytes :=
  match l with
  | x :: y :: z :: l' =>
      [b64char (x / 4); b64char (x mod 4 * 16 + y / 16);
       b64char (y mod 16 * 4 + z / 64); b64char (z mod 64)] ++ b64 l'
  | [x; y] => [b64char (x / 4); b64char (x mod 4 * 16 + y / 16); b64char (y mod 16 * 4); equals]
  | [x] => [b64char (x / 4); b64char (x mod 4 * 16); equals; equals]
  | [] => []
  end.

Lemma list3_ind (P : bytes → Prop) :
  P [] → (∀ x, P [x]) → (∀ x y, P [x; y]) → (∀ x y z l, P l → P (x :: y :: z :: l)) → ∀ l, P l.
Proof.
  intros H0 H1 H2 H3. fix IH 1. intros [|x [|y [|z l]]]; [done|done|done|]. apply H3, IH.
Qed.

Lemma lenZ_b64 l : lenZ (b64 l) = (lenZ l + 2) / 3 * 4.
Proof.
  induction l as [|x|x y|x y z l IH] using list3_ind; [done..|]. cbn [b64].
  rewrite lenZ_app, IH. change (lenZ [_; _; _; _]) with 4. rewrite !lenZ_cons. lia.
Qed.

Lemma conv_bin2ascii_spec w : 0 <= w → conv_bin2ascii (u8 w) = b64char (w mod 64).
Proof.
  intros Hw. assert (fits 8 (u8 w)) as Hf by (apply wrap_fits; lia).
  replace (w mod 64) with (u8 w mod 64) by mlia. generalize (u8 w), Hf. clear.
  intros b Hb. unfold b64char. byte_eq b.
Qed.

(** Three bytes as a 24-bit number. *)
Lemma pack3 x y z : fits 8 x → fits 8 y → fits 8 z →
  (x ≪ 16) .| (y ≪ 8) .| z = x * 65536 + y * 256 + z.
Proof.
  intros Hx Hy Hz. rewrite (Z.shiftl_mul_pow2 y 8) by lia. change (2 ^ 8) with 256.
  rewrite (lor_shiftl_add x (y * 256) 16) by (lia || (change (2 ^ 16) with 65536; mlia)).
  change (2 ^ 16) with (256 * 2 ^ 8). change 256 with (2 ^ 8) at 2.
  rewrite Z.mul_assoc, <-Z.mul_add_distr_r, lor_mul_add by (lia || apply Hz).
  change (2 ^ 8) with 256. lia.
Qed.

Lemma encode_block_loop_spec f src n :
  bytes_ok src → 0 <= n <= lenZ src → n <= Z.of_nat f → encode_block_loop f src n = b64 (takeZ n src).
Proof.
  revert src n. induction f as [|f IH]; intros src n Hok Hn Hf.
  { assert (n = 0) as -> by lia. done. }
  cbn [encode_block_loop]. destruct (Z.eqb_spec n 0) as [->|Hn0]; [done|].
  destruct src as [|x src]; [change (lenZ (@nil Z)) with 0 in Hn; lia|].
  apply bytes_ok_cons in Hok as [Hx Hok]. rewrite lenZ_cons in Hn.
  destruct (Z.leb_spec 3 n).
  - destruct src as [|y [|z src]]; [llia|llia|]. rewrite !lenZ_cons in Hn.
    apply bytes_ok_cons in Hok as [Hy [Hz Hok]%bytes_ok_cons].
    change (nthZ (x :: y :: z :: src) 0) with x. change (nthZ (x :: y :: z :: src) 1) with y.
    change (nthZ (x :: y :: z :: src) 2) with z. rewrite pack3 by done.
    change (dropZ 3 (x :: y :: z :: src)) with src. rewrite IH by (done || lia).
    assert (takeZ n (x :: y :: z :: src) = x :: y :: z :: takeZ (n - 3) src) as ->.
    { unfold takeZ. replace (Z.to_nat n) with (S (S (S (Z.to_nat (n - 3))))) by lia. done. }
    cbn [b64]. rewrite !shiftr_div by lia. rewrite !conv_bin2ascii_spec by mlia.
    change (2 ^ 18) with 262144. change (2 ^ 12) with 4096. change (2 ^ 6) with 64.
    unfold fits in *. change (2 ^ 8) with 256 in *. cbn [app]. list_lia.
  - change (nthZ (x :: src) 0) with x. rewrite (Z.shiftl_mul_pow2 x 16) by lia.
    change (2 ^ 16) with 65536.
    destruct (Z.eqb_spec n 2) as [->|].
    + destruct src as [|y src]; [llia|]. apply bytes_ok_cons in Hok as [Hy _].
      change (nthZ (x :: y :: src) 1) with y. change (takeZ 2 (x :: y :: src)) with [x; y].
      rewrite (Z.shiftl_mul_pow2 y 8) by lia. change (x * 65536) with (x * 2 ^ 16).
      rewrite lor_mul_add by (lia || (change (2 ^ 16) with 65536; change (2 ^ 8) with 256; mlia)).
      change (2 ^ 16) with 65536. change (2 ^ 8) with 256. cbn [b64 Z.eqb Pos.eqb].
      rewrite !shiftr_div by lia. rewrite !conv_bin2ascii_spec by mlia.
      change (2 ^ 18) with 262144. change (2 ^ 12) with 4096. change (2 ^ 6) with 64.
      unfold fits in *. change (2 ^ 8) with 256 in *. list_lia.
    + assert (n = 1) as -> by lia. change (takeZ 1 (x :: src)) with [x]. cbn [b64 Z.eqb Pos.eqb].
      rewrite !shiftr_div by lia. rewrite !conv_bin2ascii_spec by mlia.
      change (2 ^ 18) with 262144. change (2 ^ 12) with 4096.
      unfold fits in *. change (2 ^ 8) with 256 in *. list_lia.
Qed.

Lemma EVP_EncodeBlock_spec src n :
  bytes_ok src → 0 <= n <= lenZ src → EVP_EncodeBlock src n = b64 (takeZ n src).
Proof. intros Hok Hn. apply encode_block_loop_spec; [done|done|lia]. Qed.

(** Only the bytes that are encoded need to be bytes. *)
Lemma EVP_EncodeBlock_prefix src n :
  0 <= n <= lenZ src → EVP_EncodeBlock src n = EVP_EncodeBlock (takeZ n src) n.
Proof.
  unfold EVP_EncodeBlock. intros [Hn0 Hn]. assert (n <= Z.of_nat (Z.to_nat n)) as Hf by lia.
  revert Hf. generalize (Z.to_nat n). intros f.
  revert src n Hn0 Hn. induction f as [|f IH]; intros src n Hn0 Hn Hf; [done|]. cbn [encode_block_loop].
  destruct (Z.eqb_spec n 0) as [->|]; [done|]. destruct (Z.leb_spec 3 n).
  - destruct src as [|x [|y [|z src]]]; try llia. unfold takeZ in *.
    replace (Z.to_nat n) with (S (S (S (Z.to_nat (n - 3))))) by lia. cbn [take].
    change (dropZ 3 (x :: y :: z :: src)) with src.
    change (dropZ 3 (x :: y :: z :: take (Z.to_nat (n - 3)) src)) with (take (Z.to_nat (n - 3)) src).
    rewrite <-IH by (rewrite ?lenZ_cons in Hn; lia). done.
  - assert (n = 1 ∨ n = 2) as [-> | ->] by lia; destruct src as [|x [|y src]]; try llia; done.
Qed.

(** * Decoding quads *)

Lemma b64char_cases v (P : Z → bool) :
  forallb P (seqZ 0 64) = true → 0 <= v < 64 → P v = true.
Proof.
  intros H Hv. rewrite forallb_forall in H. apply H. apply list_elem_of_In, elem_of_seqZ. lia.
Qed.

Lemma bin_b64char v : 0 <= v < 64 → base64_ascii_to_bin (b64char v) = v.
Proof.
  intros Hv. apply Z.eqb_eq.
  exact (b64char_cases v (λ v, base64_ascii_to_bin (b64char v) =? v) eq_refl Hv).
Qed.
Lemma b64char_not_equals v : 0 <= v < 64 → (b64char v =? equals) = false.
Proof.
  intros Hv. apply negb_true_iff.
  exact (b64char_cases v (λ v, negb (b64char v =? equals)) eq_refl Hv).
Qed.
Lemma b64char_not_space v : 0 <= v < 64 → is_space (b64char v) = false.
Proof.
  intros Hv. apply negb_true_iff.
  exact (b64char_cases v (λ v, negb (is_space (b64char v))) eq_refl Hv).
Qed.

(** Four 6-bit digits as a 24-bit number. *)
Lemma pack4 a b c d : 0 <= a < 64 → 0 <= b < 64 → 0 <= c < 64 → 0 <= d < 64 →
  u32 (a ≪ 18) .| u32 (b ≪ 12) .| u32 (c ≪ 6) .| d = a * 262144 + b * 4096 + c * 64 + d.
Proof.
  intros Ha Hb Hc Hd. rewrite !Z.shiftl_mul_pow2 by lia.
  change (2 ^ 18) with 262144. change (2 ^ 12) with 4096. change (2 ^ 6) with 64.
  rewrite !wrap_small by mlia.
  change (a * 262144) with (a * 2 ^ 18). rewrite (lor_mul_add a (b * 4096) 18)
    by (lia || (change (2 ^ 18) with 262144; lia)). change (2 ^ 18) with 262144.
  replace (a * 262144 + b * 4096) with ((a * 64 + b) * 2 ^ 12) by (change (2 ^ 12) with 4096; lia).
  rewrite lor_mul_add by (lia || (change (2 ^ 12) with 4096; lia)). change (2 ^ 12) with 4096.
  replace ((a * 64 + b) * 4096 + c * 64) with ((a * 4096 + b * 64 + c) * 2 ^ 6) by (change (2 ^ 6) with 64; lia).
  rewrite lor_mul_add by (lia || (change (2 ^ 6) with 64; lia)). change (2 ^ 6) with 64. lia.
Qed.

Lemma digit_not_ff v : 0 <= v < 64 → (v =? 0xff) = false.
Proof. intros. apply Z.eqb_neq. lia. Qed.

Lemma decode_quad_3 x y z s : fits 8 x → fits 8 y → fits 8 z →
  base64_decode_quad (b64 [x; y; z] ++ s) = Some [x; y; z].
Proof.
  unfold fits. change (2 ^ 8) with 256. intros Hx Hy Hz. unfold base64_decode_quad. cbn [b64 app].
  set (a := x / 4). set (b := x mod 4 * 16 + y / 16). set (c := y mod 16 * 4 + z / 64). set (d := z mod 64).
  assert (0 <= a < 64 ∧ 0 <= b < 64 ∧ 0 <= c < 64 ∧ 0 <= d < 64) as (Ha & Hb & Hc & Hd) by lia.
  change (nthZ _ 0) with (b64char a). change (nthZ _ 1) with (b64char b).
  change (nthZ _ 2) with (b64char c). change (nthZ _ 3) with (b64char d).
  rewrite !bin_b64char, !digit_not_ff, !b64char_not_equals, pack4 by done.
  cbn [orb Z.b2z]. change ((0 ≪ 3) .| (0 ≪ 2) .| (0 ≪ 1) .| 0 =? 0) with true. cbv iota.
  rewrite !shiftr_div by lia. change (2 ^ 16) with 65536. change (2 ^ 8) with 256.
  unfold wrap. change (2 ^ 8) with 256. f_equal. list_lia.
Qed.

Lemma decode_quad_2 x y s : fits 8 x → fits 8 y →
  base64_decode_quad (b64 [x; y] ++ s) = Some [x; y].
Proof.
  unfold fits. change (2 ^ 8) with 256. intros Hx Hy. unfold base64_decode_quad. cbn [b64 app].
  set (a := x / 4). set (b := x mod 4 * 16 + y / 16). set (c := y mod 16 * 4).
  assert (0 <= a < 64 ∧ 0 <= b < 64 ∧ 0 <= c < 64) as (Ha & Hb & Hc) by lia.
  change (nthZ _ 0) with (b64char a). change (nthZ _ 1) with (b64char b).
  change (nthZ _ 2) with (b64char c). change (nthZ _ 3) with equals.
  change (base64_ascii_to_bin equals) with 0.
  rewrite !bin_b64char, !digit_not_ff, !b64char_not_equals, pack4 by (done || lia).
  rewrite Z.eqb_refl. cbn [orb Z.b2z].
  change ((0 ≪ 3) .| (0 ≪ 2) .| (0 ≪ 1) .| 1 =? 0) with false.
  change ((0 ≪ 3) .| (0 ≪ 2) .| (0 ≪ 1) .| 1 =? 1) with true. cbv iota.
  rewrite !shiftr_div by lia. change (2 ^ 16) with 65536. change (2 ^ 8) with 256.
  unfold wrap. change (2 ^ 8) with 256. f_equal. list_lia.
Qed.

Lemma decode_quad_1 x s : fits 8 x → base64_decode_quad (b64 [x] ++ s) = Some [x].
Proof.
  unfold fits. change (2 ^ 8) with 256. intros Hx. unfold base64_decode_quad. cbn [b64 app].
  set (a := x / 4). set (b := x mod 4 * 16).
  assert (0 <= a < 64 ∧ 0 <= b < 64) as (Ha & Hb) by lia.
  change (nthZ _ 0) with (b64char a). change (nthZ _ 1) with (b64char b).
  change (nthZ _ 2) with equals. change (nthZ _ 3) with equals.
  change (base64_ascii_to_bin equals) with 0.
  rewrite !bin_b64char, !digit_not_ff, !b64char_not_equals, pack4 by (done || lia).
  rewrite !Z.eqb_refl. cbn [orb Z.b2z].
  change ((0 ≪ 3) .| (0 ≪ 2) .| (1 ≪ 1) .| 1 =? 0) with false.
  change ((0 ≪ 3) .| (0 ≪ 2) .| (1 ≪ 1) .| 1 =? 1) with false.
  change ((0 ≪ 3) .| (0 ≪ 2) .| (1 ≪ 1) .| 1 =? 3) with true. cbv iota.
  rewrite !shiftr_div by lia. change (2 ^ 16) with 65536.
  unfold wrap. change (2 ^ 8) with 256. f_equal. list_lia.
Qed.

(** * One-shot decoding *)

Lemma decode_base64_loop_spec l pre out f :
  bytes_ok l → (length l < f)%nat → lenZ pre mod 4 = 0 →
  decode_base64_loop f (lenZ pre) (lenZ (pre ++ b64 l)) (pre ++ b64 l) out = Some (out ++ l).
Proof.
  revert pre out f. induction l as [|x|x y|x y z l IH] using list3_ind;
    intros pre out [|f] Hok Hf Hp; try (cbn in Hf; lia); cbn [decode_base64_loop]; rewrite lenZ_app.
  - destruct (Z.ltb_spec (lenZ pre) (lenZ pre + lenZ (b64 []))); [cbn in *; llia|]. by rewrite app_nil_r.
  - change (lenZ (b64 [x])) with 4. destruct (Z.ltb_spec (lenZ pre) (lenZ pre + 4)); [|lia].
    apply bytes_ok_cons in Hok as [Hx _].
    rewrite dropZ_app, <-(app_nil_r (b64 [x])), decode_quad_1 by done. cbn [negb andb lenZ length].
    change (lenZ [x] =? 3) with false. replace (lenZ pre + 4 - 4) with (lenZ pre) by lia.
    rewrite Z.eqb_refl. cbn [negb andb]. destruct f as [|f]; [cbn in Hf; lia|]. cbn [decode_base64_loop].
    by destruct (Z.ltb_spec (lenZ pre + 4) (lenZ pre + 4)); [lia|].
  - change (lenZ (b64 [x; y])) with 4. destruct (Z.ltb_spec (lenZ pre) (lenZ pre + 4)); [|lia].
    apply bytes_ok_cons in Hok as [Hx [Hy _]%bytes_ok_cons].
    rewrite dropZ_app, <-(app_nil_r (b64 [x; y])), decode_quad_2 by done.
    change (lenZ [x; y] =? 3) with false. replace (lenZ pre + 4 - 4) with (lenZ pre) by lia.
    rewrite Z.eqb_refl. cbn [negb andb]. destruct f as [|f]; [cbn in Hf; lia|]. cbn [decode_base64_loop].
    by destruct (Z.ltb_spec (lenZ pre + 4) (lenZ pre + 4)); [lia|].
  - apply bytes_ok_cons in Hok as [Hx [Hy [Hz Hok]%bytes_ok_cons]%bytes_ok_cons].
    change (b64 (x :: y :: z :: l)) with (b64 [x; y; z] ++ b64 l).
    rewrite lenZ_app. change (lenZ (b64 [x; y; z])) with 4. pose proof (lenZ_nonneg (b64 l)).
    destruct (Z.ltb_spec (lenZ pre) (lenZ pre + (4 + lenZ (b64 l)))); [|lia].
    rewrite dropZ_app, decode_quad_3 by done. change (lenZ [x; y; z] =? 3) with true. cbn [negb andb].
    specialize (IH (pre ++ b64 [x; y; z]) (out ++ [x; y; z]) f Hok).
    rewrite lenZ_app in IH. change (lenZ (b64 [x; y; z])) with 4 in IH.
    rewrite <-!app_assoc in IH. rewrite lenZ_app in IH. change (lenZ (b64 [x; y; z] ++ b64 l)) with (lenZ (b64 [x; y; z] ++ b64 l)) in IH.
    rewrite lenZ_app in IH. change (lenZ (b64 [x; y; z])) with 4 in IH.
    apply IH; [cbn in Hf; lia|lia].
Qed.

Lemma decode_base64_b64 l max_out :
  bytes_ok l → (lenZ l + 2) / 3 * 3 <= max_out → EVP_DecodeBase64 max_out (b64 l) = Some l.
Proof.
  intros Hok Hm. unfold EVP_DecodeBase64, EVP_DecodedLength. rewrite lenZ_b64.
  replace ((lenZ l + 2) / 3 * 4 mod 4) with 0 by lia. cbn [Z.eqb negb].
  replace ((lenZ l + 2) / 3 * 4 / 4 * 3) with ((lenZ l + 2) / 3 * 3) by lia.
  destruct (Z.ltb_spec max_out ((lenZ l + 2) / 3 * 3)); [lia|].
  rewrite <-lenZ_b64. apply (decode_base64_loop_spec l [] []); [done| |done].
  pose proof (lenZ_b64 l). unfold lenZ in *. lia.
Qed.

(** * Streaming encoding *)

(** [k] full lines of text. *)
Fixpoint full_lines (k : nat) (x : bytes) : bytes :=
  match k with
  | O => []
  | S k => (b64 (takeZ sizeof_data x) ++ [newline]) ++ full_lines k (dropZ sizeof_data x)
  end.

Definition num_lines (x : bytes) : nat := Z.to_nat (lenZ x / 48).
Definition last_line (x : bytes) : bytes := dropZ (48 * Z.of_nat (num_lines x)) x.

(** The text of [x]: lines of 64 characters, and a last one for the rest. *)
Definition b64_text (x : bytes) : bytes :=
  full_lines (num_lines x) x ++
  match last_line x with [] => [] | r => b64 r ++ [newline] end.

(** What an encoder context holds back. *)
Definition pending (ctx : EVP_ENCODE_CTX) : bytes := takeZ (data_used ctx) (data ctx).

Record encode_wf (ctx : EVP_ENCODE_CTX) : Prop := {
  wf_data : lenZ (data ctx) = 48;
  wf_used : 0 <= data_used ctx < 48;
  wf_pending : bytes_ok (pending ctx);
}.

(** Feeding [chunks] to the encoder, and keeping what each call reports. *)
Fixpoint encode_stream (ctx : EVP_ENCODE_CTX) (chunks : list bytes) : bytes :=
  match chunks with
  | [] => let '(_, out, out_len) := EVP_EncodeFinal ctx in takeZ out_len out
  | c :: chunks =>
      let '(ctx, out, out_len) := EVP_EncodeUpdate ctx c in
      takeZ out_len out ++ encode_stream ctx chunks
  end.

(** Feeding [chunks] to the decoder; [None] when a call fails. *)
Fixpoint decode_stream (ctx : EVP_ENCODE_CTX) (chunks : list bytes) : option bytes :=
  match chunks with
  | [] => if EVP_DecodeFinal ctx <? 0 then None else Some []
  | c :: chunks =>
      let '(ret, ctx, out, out_len) := EVP_DecodeUpdate ctx c in
      if ret <? 0 then None else app (takeZ out_len out) <$> decode_stream ctx chunks
  end.

Lemma full_lines_add k1 k2 x :
  full_lines (k1 + k2) x = full_lines k1 x ++ full_lines k2 (dropZ (48 * Z.of_nat k1) x).
Proof.
  revert x. induction k1 as [|k1 IH]; intros x; [done|]. cbn [Nat.add full_lines].
  rewrite IH, app_assoc. unfold sizeof_data. rewrite dropZ_dropZ by lia.
  by replace (48 + 48 * Z.of_nat k1) with (48 * Z.of_nat (S k1)) by lia.
Qed.

Lemma full_lines_prefix k x y :
  48 * Z.of_nat k <= lenZ x → full_lines k (x ++ y) = full_lines k x.
Proof.
  revert x. induction k as [|k IH]; intros x Hk; [done|]. cbn [full_lines]. unfold sizeof_data in *.
  rewrite takeZ_app_le, dropZ_app_le by lia. rewrite IH; [done|]. rewrite lenZ_dropZ by lia. lia.
Qed.

Lemma lenZ_full_lines k x : 48 * Z.of_nat k <= lenZ x → lenZ (full_lines k x) = 65 * Z.of_nat k.
Proof.
  revert x. induction k as [|k IH]; intros x Hk; [done|]. cbn [full_lines].
  rewrite !lenZ_app, lenZ_b64, IH; unfold sizeof_data.
  - rewrite lenZ_takeZ by lia. change (lenZ [newline]) with 1. lia.
  - rewrite lenZ_dropZ; lia.
Qed.

Lemma bytes_ok_takeZ n l : bytes_ok l → bytes_ok (takeZ n l).
Proof. apply Forall_take. Qed.
Lemma bytes_ok_dropZ n l : bytes_ok l → bytes_ok (dropZ n l).
Proof. apply Forall_drop. Qed.

Lemma encode_update_loop_spec f x out total :
  bytes_ok x → (num_lines x < f)%nat → 0 <= total → total + 65 * Z.of_nat (num_lines x) < 2 ^ 64 →
  encode_update_loop f x (lenZ x) out total =
  (last_line x, lenZ (last_line x),
   Some (out ++ full_lines (num_lines x) x, total + 65 * Z.of_nat (num_lines x))).
Proof.
  rewrite pow2_64. revert x out total. induction f as [|f IH]; intros x out total Hok Hf Ht Hb; [lia|].
  cbn [encode_update_loop]. unfold sizeof_data, last_line.
  destruct (Z.leb_spec 48 (lenZ x)) as [Hge|Hlt].
  - assert (lenZ (dropZ 48 x) = lenZ x - 48) as Hd by (apply lenZ_dropZ; lia).
    assert (num_lines x = S (num_lines (dropZ 48 x))) as Hn.
    { unfold num_lines. rewrite Hd. rewrite <-Z2Nat.inj_succ by lia. f_equal. lia. }
    rewrite EVP_EncodeBlock_spec by (done || lia).
    assert (lenZ (b64 (takeZ 48 x)) = 64) as Hl by (rewrite lenZ_b64, lenZ_takeZ by lia; done).
    rewrite Hl, !wrap_small by mlia. destruct (Z.ltb_spec (total + 64 + 1) total); [lia|].
    rewrite <-Hd, IH; [|by apply bytes_ok_dropZ|lia|lia|lia].
    unfold last_line. rewrite Hn, dropZ_dropZ by lia. cbn [full_lines]. unfold sizeof_data.
    replace (48 + 48 * Z.of_nat (num_lines (dropZ 48 x)))
      with (48 * Z.of_nat (S (num_lines (dropZ 48 x)))) by lia.
    rewrite <-!app_assoc. do 3 f_equal. lia.
  - assert (num_lines x = O) as -> by (unfold num_lines; pose proof (lenZ_nonneg x); rewrite Z.div_small by lia; done).
    cbn [full_lines Z.of_nat]. rewrite app_nil_r, Z.mul_0_r, Z.add_0_r. done.
Qed.

Lemma lenZ_last_line x : lenZ (last_line x) = lenZ x mod 48.
Proof.
  unfold last_line, num_lines. pose proof (lenZ_nonneg x). rewrite Z2Nat.id by lia.
  rewrite lenZ_dropZ; lia.
Qed.

Lemma pending_fill ctx x :
  encode_wf ctx → data_used ctx + lenZ x <= 48 →
  takeZ (data_used ctx + lenZ x) (write_at (data ctx) (data_used ctx) x) = pending ctx ++ x.
Proof. intros [Hd Hu _] Hl. apply takeZ_write_at; lia. Qed.

Lemma lenZ_pending ctx : encode_wf ctx → lenZ (pending ctx) = data_used ctx.
Proof. intros [Hd Hu _]. apply lenZ_takeZ. lia. Qed.

(** A context in which the first bytes are stored. *)
Lemma encode_wf_store ctx d r :
  lenZ d = 48 → lenZ r < 48 → bytes_ok r → takeZ (lenZ r) d = r →
  encode_wf (set_data ctx (lenZ r) d) ∧ pending (set_data ctx (lenZ r) d) = r.
Proof.
  intros Hd Hr Hok Ht. assert (pending (set_data ctx (lenZ r) d) = r) as Hp by done.
  split; [|done]. split; [done|cbn; llia|by rewrite Hp].
Qed.

Lemma num_lines_small x : lenZ x < 48 → num_lines x = O ∧ last_line x = x.
Proof.
  intros Hx. assert (num_lines x = O) as Hn.
  { unfold num_lines. pose proof (lenZ_nonneg x). by rewrite Z.div_small by lia. }
  split; [done|]. unfold last_line. by rewrite Hn.
Qed.

(** The second half of an update, on a context whose data was used up. *)
Lemma encode_update_rest ctx x out total :
  lenZ (data ctx) = 48 → bytes_ok x → 0 <= total → total + 65 * Z.of_nat (num_lines x) <= INT_MAX →
  total = lenZ out →
  ∃ ctx', (match encode_update_loop (S (length x)) x (lenZ x) out total with
    | (input, in_len, None) => (ctx, [], 0)
    | (input, in_len, Some (out, total)) =>
        let d := if negb (in_len =? 0) then write_at (data ctx) 0 input else data ctx in
        let ctx := set_data ctx in_len d in
        let total := if INT_MAX <? total then 0 else total in
        (ctx, out, total)
    end) = (ctx', out ++ full_lines (num_lines x) x, lenZ (out ++ full_lines (num_lines x) x)) ∧
    encode_wf ctx' ∧ pending ctx' = last_line x.
Proof.
  intros Hd Hok Ht Hmax Hlen. pose proof (lenZ_nonneg x) as Hx0.
  assert (48 * Z.of_nat (num_lines x) <= lenZ x) as Hk by (unfold num_lines; lia).
  rewrite encode_update_loop_spec; [|done| |done|unfold INT_MAX in *; change (2 ^ 31) with 2147483648 in *; lia].
  2:{ unfold num_lines, lenZ. lia. }
  cbv beta iota zeta. destruct (Z.ltb_spec INT_MAX (total + 65 * Z.of_nat (num_lines x))); [lia|].
  eexists. split; [f_equal; rewrite lenZ_app, lenZ_full_lines; lia|].
  pose proof (lenZ_last_line x) as Hr. apply encode_wf_store; [|lia|by apply bytes_ok_dropZ|].
  - destruct (Z.eqb_spec (lenZ (last_line x)) 0); [done|]. cbn [negb]. rewrite lenZ_write_at; lia.
  - destruct (Z.eqb_spec (lenZ (last_line x)) 0) as [H0|]; cbn [negb].
    + rewrite H0. symmetry. apply lenZ_0_nil. lia.
    + rewrite takeZ_write_at by lia. done.
Qed.

Lemma num_lines_le x : (num_lines x <= length x)%nat.
Proof. unfold num_lines, lenZ. lia. Qed.

(** More rounds than there are full lines change nothing. *)
Lemma encode_update_loop_fuel x out total :
  bytes_ok x → 0 <= total → total + 65 * Z.of_nat (num_lines x) < 2 ^ 64 →
  encode_update_loop (length x) x (lenZ x) out total = encode_update_loop (S (length x)) x (lenZ x) out total.
Proof.
  intros Hok Ht Hb. destruct x as [|b x]; [done|].
  rewrite !encode_update_loop_spec; try done; unfold num_lines, lenZ; cbn [length]; lia.
Qed.

(** An update emits the full lines of what is pending and the input. *)
Lemma EVP_EncodeUpdate_spec ctx x :
  encode_wf ctx → bytes_ok x → lenZ x <= 2 ^ 30 →
  let all := pending ctx ++ x in
  ∃ ctx', EVP_EncodeUpdate ctx x = (ctx', full_lines (num_lines all) all, lenZ (full_lines (num_lines all) all)) ∧
          encode_wf ctx' ∧ pending ctx' = last_line all.
Proof.
  change (2 ^ 30) with 1073741824. intros Hwf Hok Hl all. pose proof (lenZ_nonneg x) as Hx0.
  pose proof (lenZ_pending ctx Hwf) as Hlp. pose proof (wf_pending _ Hwf) as Hpok.
  assert (lenZ all = data_used ctx + lenZ x) as Hla by (unfold all; rewrite lenZ_app; lia).
  unfold EVP_EncodeUpdate, sizeof_data. pose proof Hwf as [Hd Hu Hp].
  destruct (Z.eqb_spec (lenZ x) 0) as [H0|Hne].
  { exists ctx. destruct (num_lines_small all) as [-> ->]; [lia|].
    assert (x = []) as -> by (apply lenZ_0_nil; lia). unfold all. rewrite app_nil_r. by split_and!. }
  destruct (Z.ltb_spec (lenZ x) (48 - data_used ctx)) as [Hsmall|Hbig].
  { destruct (num_lines_small all) as [-> ->]; [lia|]. eexists. split; [done|].
    replace (data_used ctx + lenZ x) with (lenZ all) by done. apply encode_wf_store.
    - rewrite lenZ_write_at; lia.
    - lia.
    - by apply bytes_ok_app.
    - rewrite Hla. apply pending_fill; [by split|lia]. }
  assert (∀ y, lenZ y <= 1073741824 → 65 + 65 * Z.of_nat (num_lines y) <= INT_MAX) as Hmax.
  { intros y Hy. unfold num_lines, INT_MAX. change (2 ^ 31) with 2147483648. pose proof (lenZ_nonneg y). lia. }
  pose proof (pow2_64) as H64. assert (INT_MAX < 2 ^ 64) by done.
  destruct (Z.eqb_spec (data_used ctx) 0) as [H0|Hu0]; cbn [negb].
  - assert (all = x) as -> by (unfold all, pending; by rewrite H0).
    rewrite encode_update_loop_fuel; [|done|lia|specialize (Hmax x Hl); lia].
    apply (encode_update_rest ctx x [] 0); [done|done|lia|specialize (Hmax x Hl); lia|done].
  - set (todo := 48 - data_used ctx) in *. set (d := write_at (data ctx) (data_used ctx) (takeZ todo x)).
    assert (lenZ (takeZ todo x) = todo) as Hlt by (apply lenZ_takeZ; lia).
    assert (lenZ d = 48) as Hld by (unfold d; rewrite lenZ_write_at; lia).
    assert (takeZ 48 all = d) as Hta.
    { rewrite <-(takeZ_all d 48) by lia. unfold d, all.
      pose proof (pending_fill ctx (takeZ todo x) Hwf) as Hpf. rewrite Hlt in Hpf.
      replace (data_used ctx + todo) with 48 in Hpf by lia. rewrite Hpf by lia.
      rewrite takeZ_app_ge by lia. by rewrite Hlp. }
    assert (dropZ 48 all = dropZ todo x) as Hda.
    { unfold all, dropZ, lenZ in *. rewrite drop_app_ge by lia. f_equal. lia. }
    assert (bytes_ok d) as Hdok by (rewrite <-Hta; apply bytes_ok_takeZ; by apply bytes_ok_app).
    rewrite EVP_EncodeBlock_spec by (done || lia). rewrite (takeZ_all d 48) by lia.
    assert (lenZ (b64 d) = 64) as Hl64 by (by rewrite lenZ_b64, Hld).
    set (x1 := dropZ todo x) in *. assert (lenZ x - todo = lenZ x1) as -> by (unfold x1; rewrite lenZ_dropZ; lia).
    assert (lenZ x1 <= 1073741824) as Hx1 by (unfold x1; rewrite lenZ_dropZ; lia).
    assert (num_lines all = S (num_lines x1)) as Hn.
    { unfold num_lines. rewrite <-Hda, lenZ_dropZ by lia. rewrite <-Z2Nat.inj_succ by lia. f_equal. lia. }
    assert (full_lines (num_lines all) all = (b64 d ++ [newline]) ++ full_lines (num_lines x1) x1) as ->.
    { rewrite Hn. cbn [full_lines]. unfold sizeof_data. by rewrite Hta, Hda. }
    assert (last_line all = last_line x1) as ->.
    { unfold last_line. rewrite Hn, <-Hda, dropZ_dropZ by lia. f_equal. lia. }
    pose proof (Hmax x1 Hx1). rewrite Hl64, encode_update_loop_fuel; [|by apply bytes_ok_dropZ|lia|lia].
    apply (encode_update_rest (set_data ctx 0 d) x1 (b64 d ++ [newline]) 65).
    + done.
    + by apply bytes_ok_dropZ.
    + lia.
    + lia.
    + rewrite lenZ_app, Hl64. done.
Qed.

Lemma num_lines_app all y :
  num_lines (all ++ y) = (num_lines all + num_lines (last_line all ++ y))%nat ∧
  last_line (all ++ y) = last_line (last_line all ++ y).
Proof.
  pose proof (lenZ_nonneg all). pose proof (lenZ_nonneg y). pose proof (lenZ_last_line all) as Hl.
  assert (48 * Z.of_nat (num_lines all) <= lenZ all) as Hk by (unfold num_lines; lia).
  assert (dropZ (48 * Z.of_nat (num_lines all)) (all ++ y) = last_line all ++ y) as Hd
    by (rewrite dropZ_app_le by done; done).
  assert (num_lines (all ++ y) = (num_lines all + num_lines (last_line all ++ y))%nat) as Hn.
  { unfold num_lines. rewrite !lenZ_app, Hl. lia. }
  split; [done|]. set (n2 := num_lines (last_line all ++ y)) in *.
  change (last_line (last_line all ++ y)) with (dropZ (48 * Z.of_nat n2) (last_line all ++ y)).
  rewrite <-Hd, dropZ_dropZ by lia. unfold last_line at 1. rewrite Hn. f_equal. lia.
Qed.

Lemma b64_text_app all y :
  b64_text (all ++ y) = full_lines (num_lines all) all ++ b64_text (last_line all ++ y).
Proof.
  pose proof (lenZ_nonneg all). destruct (num_lines_app all y) as [Hn Hl]. unfold b64_text.
  assert (48 * Z.of_nat (num_lines all) <= lenZ all) as Hk by (unfold num_lines; lia).
  rewrite Hl, Hn, full_lines_add, full_lines_prefix by done. rewrite dropZ_app_le by done.
  by rewrite <-app_assoc.
Qed.

Lemma encode_wf_zero : encode_wf zero_ctx ∧ pending zero_ctx = [].
Proof. split; [|done]. split; [done|done|constructor]. Qed.

Lemma EVP_EncodeBlock_pending ctx :
  encode_wf ctx → EVP_EncodeBlock (data ctx) (data_used ctx) = b64 (pending ctx).
Proof.
  intros Hwf. pose proof (lenZ_pending ctx Hwf) as Hp. destruct Hwf as [Hd Hu Hok].
  rewrite EVP_EncodeBlock_prefix by lia. fold (pending ctx).
  rewrite EVP_EncodeBlock_spec by (done || lia). by rewrite takeZ_all by lia.
Qed.

Lemma encode_stream_spec ctx chunks :
  encode_wf ctx → Forall bytes_ok chunks → lenZ (concat chunks) <= 2 ^ 30 →
  encode_stream ctx chunks = b64_text (pending ctx ++ concat chunks).
Proof.
  revert ctx. induction chunks as [|c chunks IH]; intros ctx Hwf Hok Hl; cbn [encode_stream concat].
  - rewrite app_nil_r. pose proof (lenZ_pending ctx Hwf) as Hp. pose proof Hwf as [Hd Hu Hpok].
    destruct (num_lines_small (pending ctx)) as [Hn Hll]; [lia|].
    unfold b64_text. rewrite Hn, Hll. cbn [full_lines app]. unfold EVP_EncodeFinal.
    destruct (Z.eqb_spec (data_used ctx) 0) as [H0|H0].
    { assert (pending ctx = []) as -> by (apply lenZ_0_nil; lia). done. }
    destruct (pending ctx) as [|b r] eqn:Hpe; [rewrite lenZ_nil in Hp; lia|]. rewrite <-Hpe in *.
    rewrite EVP_EncodeBlock_pending by done. fold (pending ctx). by rewrite takeZ_all by done.
  - apply Forall_cons in Hok as [Hc Hok]. cbn [concat] in Hl. rewrite lenZ_app in Hl.
    pose proof (lenZ_nonneg c). pose proof (lenZ_nonneg (concat chunks)).
    destruct (EVP_EncodeUpdate_spec ctx c) as (ctx' & -> & Hwf' & Hp'); [done|done|lia|].
    cbv zeta in *. rewrite takeZ_all by done. rewrite IH by (done || lia).
    by rewrite Hp', <-b64_text_app, app_assoc.
Qed.

(** * Streaming decoding *)

Definition decode_fresh (ctx : EVP_ENCODE_CTX) : Prop :=
  data_used ctx = 0 ∧ eof_seen ctx = false ∧ error_encountered ctx = false ∧ lenZ (data ctx) = 48.

Lemma decode_loop_app ctx out a b :
  decode_update_loop ctx out (a ++ b) =
  match decode_update_loop ctx out a with
  | (true, ctx', out') => decode_update_loop ctx' out' b
  | r => r
  end.
Proof.
  revert ctx out. induction a as [|c a IH]; intros ctx out; cbn [app decode_update_loop]; [done|].
  destruct (is_space c); [apply IH|]. destruct (eof_seen ctx); [done|].
  destruct (data_used _ =? 4); [|apply IH]. destruct (base64_decode_quad _); [apply IH|done].
Qed.

Lemma decode_loop_out ctx out a :
  decode_update_loop ctx out a =
  (let '(ok, ctx', out') := decode_update_loop ctx [] a in (ok, ctx', out ++ out')).
Proof.
  revert ctx out. induction a as [|c a IH]; intros ctx out; cbn [decode_update_loop]; [by rewrite app_nil_r|].
  destruct (is_space c); [apply IH|]. destruct (eof_seen ctx); [by rewrite app_nil_r|].
  destruct (data_used _ =? 4); [|apply IH]. destruct (base64_decode_quad _) as [r|]; [|by rewrite app_nil_r].
  rewrite IH, (IH _ ([] ++ r)). destruct (decode_update_loop _ [] a) as [[ok ctx'] out'].
  by rewrite app_assoc.
Qed.

(** One character of a quad. *)
Lemma decode_loop_char used d err out c s :
  is_space c = false →
  let ctx := {| data_used := used; data := d; eof_seen := false; error_encountered := err |} in
  let ctx' := set_data ctx (used + 1) (write_at d used [c]) in
  decode_update_loop ctx out (c :: s) =
  if used + 1 =? 4 then
    match base64_decode_quad (write_at d used [c]) with
    | None => (false, set_error_encountered ctx', out)
    | Some r =>
        let ctx' := set_data ctx' 0 (write_at d used [c]) in
        decode_update_loop (if lenZ r <? 3 then set_eof ctx' else ctx') (out ++ r) s
    end
  else decode_update_loop ctx' out s.
Proof. intros H. cbn [decode_update_loop]. rewrite H. reflexivity. Qed.

(** Four characters of a quad. *)
Lemma decode_loop_quad ctx out q s :
  decode_fresh ctx → lenZ q = 4 → Forall (λ c, is_space c = false) q →
  decode_update_loop ctx out (q ++ s) =
  match base64_decode_quad (q ++ dropZ 4 (data ctx)) with
  | None => (false, set_error_encountered (set_data ctx 4 (q ++ dropZ 4 (data ctx))), out)
  | Some r =>
      let ctx' := set_data ctx 0 (q ++ dropZ 4 (data ctx)) in
      decode_update_loop (if lenZ r <? 3 then set_eof ctx' else ctx') (out ++ r) s
  end.
Proof.
  intros (Hu & He & Herr & Hd) Hq Hsp. destruct q as [|a [|b [|c [|d [|? ?]]]]]; try llia.
  destruct ctx as [used dat eof err]. cbn in Hu, He, Herr, Hd. subst.
  destruct dat as [|x0 [|x1 [|x2 [|x3 dat]]]]; try done.
  rewrite !Forall_cons in Hsp. destruct Hsp as (Ha & Hb & Hc & Hd' & _).
  change ([a; b; c; d] ++ s) with (a :: b :: c :: d :: s).
  rewrite decode_loop_char by done. change (0 + 1 =? 4) with false. cbv iota.
  unfold set_data at 1. cbn [data_used data eof_seen error_encountered].
  rewrite decode_loop_char by done. change (0 + 1 + 1 =? 4) with false. cbv iota.
  unfold set_data at 1. cbn [data_used data eof_seen error_encountered].
  rewrite decode_loop_char by done. change (0 + 1 + 1 + 1 =? 4) with false. cbv iota.
  unfold set_data at 1. cbn [data_used data eof_seen error_encountered].
  rewrite decode_loop_char by done. change (0 + 1 + 1 + 1 + 1 =? 4) with true. cbv iota.
  match goal with |- context [base64_decode_quad ?x] => change x with (a :: b :: c :: d :: dat) end.
  change ([a; b; c; d] ++ dropZ 4 (x0 :: x1 :: x2 :: x3 :: dat)) with (a :: b :: c :: d :: dat).
  by destruct (base64_decode_quad _).
Qed.

Lemma b64_not_space l : bytes_ok l → lenZ l <= 3 → Forall (λ c, is_space c = false) (b64 l).
Proof.
  intros Hok Hl. destruct l as [|x [|y [|z [|? ?]]]]; [constructor|..]; [| | |llia];
    repeat (apply bytes_ok_cons in Hok as [? Hok]); unfold fits in *; change (2 ^ 8) with 256 in *;
    cbn [b64 app]; repeat (apply Forall_cons; split); try (apply b64char_not_space; lia); done || constructor.
Qed.

Lemma decode_loop_full ctx out l s :
  decode_fresh ctx → bytes_ok l → lenZ l mod 3 = 0 →
  ∃ ctx', decode_fresh ctx' ∧
          decode_update_loop ctx out (b64 l ++ s) = decode_update_loop ctx' (out ++ l) s.
Proof.
  revert ctx out. induction l as [|x|x y|x y z l IH] using list3_ind; intros ctx out Hf Hok Hl; try done.
  - exists ctx. rewrite app_nil_r. done.
  - change (x :: y :: z :: l) with ([x; y; z] ++ l) in Hok. apply bytes_ok_app in Hok as [Hok3 Hok].
    change (b64 (x :: y :: z :: l)) with (b64 [x; y; z] ++ b64 l). rewrite <-app_assoc.
    rewrite decode_loop_quad; [|done|done|by apply b64_not_space].
    pose proof Hok3 as [Hx [Hy [Hz _]%bytes_ok_cons]%bytes_ok_cons]%bytes_ok_cons.
    rewrite decode_quad_3 by done. change (lenZ [x; y; z] <? 3) with false. cbv iota zeta.
    destruct (IH (set_data ctx 0 (b64 [x; y; z] ++ dropZ 4 (data ctx))) (out ++ [x; y; z])) as (ctx' & Hf' & ->).
    + destruct Hf as (Hu & He & Herr & Hd). split_and!; [done|done|done|]. cbn [data set_data].
      rewrite lenZ_app, lenZ_dropZ by lia. change (lenZ (b64 [x; y; z])) with 4. lia.
    + done.
    + rewrite !lenZ_cons in Hl. lia.
    + exists ctx'. split; [done|]. by rewrite <-app_assoc.
Qed.

Lemma decode_loop_newline ctx out s : decode_update_loop ctx out (newline :: s) = decode_update_loop ctx out s.
Proof. done. Qed.

Lemma decode_loop_lines k ctx out x s :
  decode_fresh ctx → bytes_ok x → 48 * Z.of_nat k <= lenZ x →
  ∃ ctx', decode_fresh ctx' ∧
          decode_update_loop ctx out (full_lines k x ++ s) =
          decode_update_loop ctx' (out ++ takeZ (48 * Z.of_nat k) x) s.
Proof.
  revert ctx out x. induction k as [|k IH]; intros ctx out x Hf Hok Hk.
  { exists ctx. split; [done|]. change (takeZ _ x) with (@nil Z). by rewrite app_nil_r. }
  cbn [full_lines]. unfold sizeof_data. rewrite <-!app_assoc.
  destruct (decode_loop_full ctx out (takeZ 48 x) ([newline] ++ full_lines k (dropZ 48 x) ++ s)) as (c1 & Hf1 & ->);
    [done|by apply bytes_ok_takeZ|rewrite lenZ_takeZ by lia; done|].
  cbn [app]. rewrite decode_loop_newline.
  destruct (IH c1 (out ++ takeZ 48 x) (dropZ 48 x)) as (c2 & Hf2 & ->);
    [done|by apply bytes_ok_dropZ|rewrite lenZ_dropZ; lia|].
  exists c2. split; [done|]. rewrite <-app_assoc. do 2 f_equal.
  rewrite <-(takeZ_dropZ 48 x) at 3. rewrite takeZ_app_ge by (rewrite lenZ_takeZ; lia).
  rewrite lenZ_takeZ by lia. do 2 f_equal. lia.
Qed.

(** The last line, possibly with padding. *)
Lemma decode_loop_last ctx out l :
  decode_fresh ctx → bytes_ok l →
  ∃ ctx', data_used ctx' = 0 ∧ error_encountered ctx' = false ∧
          decode_update_loop ctx out (b64 l ++ [newline]) = (true, ctx', out ++ l).
Proof.
  revert ctx out. induction l as [|x|x y|x y z l IH] using list3_ind; intros ctx out Hf Hok.
  - exists ctx. destruct Hf as (Hu & He & Herr & Hd). rewrite app_nil_r. by split_and!.
  - rewrite decode_loop_quad; [|done|done|by apply b64_not_space].
    apply bytes_ok_cons in Hok as [Hx _]. rewrite decode_quad_1 by done.
    eexists. split_and!; [..|done]; [done|apply Hf].
  - rewrite decode_loop_quad; [|done|done|by apply b64_not_space].
    apply bytes_ok_cons in Hok as [Hx [Hy _]%bytes_ok_cons]. rewrite decode_quad_2 by done.
    eexists. split_and!; [..|done]; [done|apply Hf].
  - change (x :: y :: z :: l) with ([x; y; z] ++ l) in Hok |- *. apply bytes_ok_app in Hok as [Hok3 Hok].
    change (b64 ([x; y; z] ++ l)) with (b64 [x; y; z] ++ b64 l). rewrite <-app_assoc.
    destruct (decode_loop_full ctx out [x; y; z] (b64 l ++ [newline]) Hf Hok3 eq_refl) as (c1 & Hf1 & ->).
    destruct (IH c1 (out ++ [x; y; z]) Hf1 Hok) as (c2 & Hu & He & ->). exists c2.
    by rewrite <-app_assoc.
Qed.

Lemma decode_loop_text ctx x :
  decode_fresh ctx → bytes_ok x →
  ∃ ctx', data_used ctx' = 0 ∧ error_encountered ctx' = false ∧
          decode_update_loop ctx [] (b64_text x) = (true, ctx', x).
Proof.
  intros Hf Hok. pose proof (lenZ_nonneg x). unfold b64_text.
  assert (48 * Z.of_nat (num_lines x) <= lenZ x) as Hk by (unfold num_lines; lia).
  destruct (decode_loop_lines (num_lines x) ctx [] x
    (match last_line x with [] => [] | r => b64 r ++ [newline] end) Hf Hok Hk) as (c1 & Hf1 & ->).
  assert (takeZ (48 * Z.of_nat (num_lines x)) x ++ last_line x = x) as Hx by apply takeZ_dropZ.
  cbn [app]. destruct (last_line x) as [|b r] eqn:Hl.
  - rewrite app_nil_r in Hx. rewrite Hx. exists c1. destruct Hf1 as (Hu & _ & He & _). done.
  - destruct (decode_loop_last c1 (takeZ (48 * Z.of_nat (num_lines x)) x) (b :: r) Hf1) as (c2 & Hu & He & ->).
    + rewrite <-Hl. by apply bytes_ok_dropZ.
    + exists c2. by rewrite Hx.
Qed.

Lemma decode_loop_no_error ctx a out ctx' out' :
  decode_update_loop ctx out a = (true, ctx', out') → error_encountered ctx' = error_encountered ctx.
Proof.
  revert ctx out. induction a as [|c a IH]; intros ctx out; cbn [decode_update_loop]; [by intros [= <- _]|].
  destruct (is_space c); [apply IH|]. destruct (eof_seen ctx); [done|].
  destruct (data_used _ =? 4); [|by intros ->%IH]. destruct (base64_decode_quad _) as [r|]; [|done].
  intros H%IH. by destruct (lenZ r <? 3).
Qed.

(** However the text is cut, the decoder produces what the loop does. *)
Lemma decode_stream_loop ctx chunks ctx' x :
  error_encountered ctx = false → decode_update_loop ctx [] (concat chunks) = (true, ctx', x) →
  data_used ctx' = 0 → error_encountered ctx' = false → lenZ x <= INT_MAX →
  decode_stream ctx chunks = Some x.
Proof.
  revert ctx x. induction chunks as [|c chunks IH]; intros ctx x He H Hu He' Hl; cbn [concat decode_stream] in *.
  - injection H as -> <-. unfold EVP_DecodeFinal. by rewrite Hu, He'.
  - rewrite decode_loop_app in H. unfold EVP_DecodeUpdate. rewrite He.
    destruct (decode_update_loop ctx [] c) as [[[] c1] o1] eqn:H1; [|done].
    rewrite decode_loop_out in H. destruct (decode_update_loop c1 [] (concat chunks)) as [[ok c2] o2] eqn:H2.
    injection H as -> -> <-. rewrite lenZ_app in Hl. pose proof (lenZ_nonneg o1). pose proof (lenZ_nonneg o2).
    destruct (Z.ltb_spec INT_MAX (lenZ o1)); [lia|].
    assert (((if eof_seen c1 then 0 else 1) <? 0) = false) as -> by (by destruct (eof_seen c1)).
    rewrite takeZ_all by done. rewrite (IH c1 o2); [done| |done|done|done|lia].
    by rewrite (decode_loop_no_error _ _ _ _ _ H1).
Qed.

(** * Properties *)

(** One-shot encoding and decoding: the encoder writes the base64 text of its
    input, the announced length is that text's and a NUL's, and the decoder given
    room for it returns the input. *)
Theorem base64_round_trip l max_out :
  bytes_ok l → lenZ l <= 2 ^ 61 → (lenZ l + 2) / 3 * 3 <= max_out →
  EVP_EncodeBlock l (lenZ l) = b64 l ∧
  EVP_EncodedLength (lenZ l) = Some (lenZ (EVP_EncodeBlock l (lenZ l)) + 1) ∧
  EVP_DecodeBase64 max_out (EVP_EncodeBlock l (lenZ l)) = Some l.
Proof.
  change (2 ^ 61) with 2305843009213693952. intros Hok Hl Hm. pose proof (lenZ_nonneg l).
  rewrite EVP_EncodeBlock_spec, takeZ_all by (done || lia).
  split; [done|]. split; [|by apply decode_base64_b64].
  unfold EVP_EncodedLength. rewrite lenZ_b64, shiftr_div by lia.
  set (n := (lenZ l + 2) / 3). assert (0 <= n <= 2305843009213693952) as Hn by (unfold n; lia).
  rewrite !Z.shiftl_mul_pow2 by lia. change (2 ^ 2) with 4.
  rewrite !wrap_small by mlia. rewrite Z.div_mul by lia.
  destruct (Z.ltb_spec (lenZ l + 2) (lenZ l)); [lia|]. rewrite Z.eqb_refl. cbn [negb].
  destruct (Z.ltb_spec (n * 4 + 1) (n * 4)); [lia|done].
Qed.

Lemma base64_round_trip_witness :
  EVP_EncodeBlock [102; 111; 111; 98] 4 = b64 [102; 111; 111; 98] ∧
  EVP_EncodedLength 4 = Some (lenZ (EVP_EncodeBlock [102; 111; 111; 98] 4) + 1) ∧
  EVP_DecodeBase64 6 (EVP_EncodeBlock [102; 111; 111; 98] 4) = Some [102; 111; 111; 98].
Proof. apply (base64_round_trip [102; 111; 111; 98] 6); decide_now. Defined.

(** The streaming encoder's output does not depend on how its input is cut:
    it is the text of the whole input in lines of 64 characters. *)
Theorem encode_stream_exact chunks :
  Forall bytes_ok chunks → lenZ (concat chunks) <= 2 ^ 30 →
  encode_stream (EVP_EncodeInit zero_ctx) chunks = b64_text (concat chunks).
Proof.
  intros Hok Hl. destruct encode_wf_zero as [Hwf Hp]. unfold EVP_EncodeInit.
  by rewrite encode_stream_spec, Hp.
Qed.

Lemma encode_stream_exact_witness :
  encode_stream (EVP_EncodeInit zero_ctx) [[102; 111]; [111; 98]] = b64_text [102; 111; 111; 98].
Proof. apply (encode_stream_exact [[102; 111]; [111; 98]]); decide_now. Defined.

(** The streaming decoder inverts the streaming encoder, however the input of
    either is cut. *)
Theorem stream_round_trip x chunks texts :
  Forall bytes_ok chunks → concat chunks = x → lenZ x <= 2 ^ 30 →
  concat texts = encode_stream (EVP_EncodeInit zero_ctx) chunks →
  decode_stream (EVP_DecodeInit zero_ctx) texts = Some x.
Proof.
  intros Hok <- Hl Ht. destruct encode_wf_zero as [Hwf Hp]. unfold EVP_EncodeInit, EVP_DecodeInit in *.
  rewrite encode_stream_spec, Hp in Ht by done. cbn [app] in Ht.
  assert (bytes_ok (concat chunks)) as Hokc by (clear -Hok; induction Hok; [constructor|by apply bytes_ok_app]).
  destruct (decode_loop_text zero_ctx (concat chunks)) as (ctx' & Hu & He & Hd); [done|done|].
  rewrite <-Ht in Hd. eapply decode_stream_loop; [done|exact Hd|done|done|].
  unfold INT_MAX. change (2 ^ 31) with 2147483648. change (2 ^ 30) with 1073741824 in Hl. lia.
Qed.

Lemma stream_round_trip_witness :
  decode_stream (EVP_DecodeInit zero_ctx) [[90; 109; 57]; [118; 89; 103; 61; 61; 10]] = Some [102; 111; 111; 98].
Proof.
  apply (stream_round_trip [102; 111; 111; 98] [[102; 111; 111]; [98]]
    [[90; 109; 57]; [118; 89; 103; 61; 61; 10]]); [decide_now|reflexivity|decide_now|vm_compute; reflexivity].
Defined.
