(* ===== verification/Stack.v ===== *)
(** Stacks, the growable arrays of pointers:
    src/HolyWater-Test/Pods/BoringSSL-GRPC/src/crypto/stack/stack.c.

    A pointer is a [Z], NULL being zero.  The comparison function of a stack is a
    function pointer of a type [F]; [call_cmp_func] runs it, as the type-specific
    wrappers of stack.h do.  A stack that may be NULL is an [option].  [sk_reachable stale]
    are the stacks the functions make; [stale] says that one of them may have left the
    sorted flag wrong. *)
From stdpp Require Import sorting.
From S2P Require Import Prelude Mem.

Definition NULL : Z := 0.
Definition kMinSize : Z := 4.
Definition sizeof_ptr : Z := 8.
Definition sizeof_STACK : Z := 40.

(** [struct stack_st]; [data] has [num_alloc] elements. *)
Record STACK {F : Type} := {
  num : Z;
  data : list Z;
  sorted : bool;
  num_alloc : Z;
  comp : option F;
}.
Arguments STACK : clear implicits.

(** [qsort], with what the C standard says of it. *)
Class Qsort := {
  qsort : (Z → Z → Z) → list Z → list Z;
  qsort_perm cmp l : qsort cmp l ≡ₚ l;
  qsort_sorted cmp l :
    (∀ x y, cmp x y < 0 ↔ 0 < cmp y x) →
    (∀ x y z, cmp x y <= 0 → cmp y z <= 0 → cmp x z <= 0) →
    Sorted (λ x y, cmp x y <= 0) (qsort cmp l);
}.

(** Merge sort is one. *)
Definition merge_qsort : Qsort.
Proof.
  refine {| qsort cmp l :=
    @merge_sort _ (λ x y, cmp x y <= 0) (λ x y, decide (cmp x y <= 0)) l |}.
  - intros cmp l. apply merge_sort_Permutation.
  - intros cmp l Ha _. apply Sorted_merge_sort. intros x y. specialize (Ha x y). lia.
Defined.

Section stack.
Context {libc : Libc} {F : Type} `{!EqDecision F} (call_cmp_func : F → Z → Z → Z).

Definition set_items (sk : STACK F) (n : Z) (d : list Z) (s : bool) : STACK F :=
  {| num := n; data := d; sorted := s; num_alloc := num_alloc sk; comp := comp sk |}.

(** The pointers that a fresh block of [n] of them holds. *)
Fixpoint words (n : nat) (block : bytes) : list Z :=
  match n with
  | O => []
  | S n => le_value (takeZ sizeof_ptr block) :: words n (dropZ sizeof_ptr block)
  end.

Definition malloc_ptrs (n : Z) : option (list Z) :=
  block ← OPENSSL_malloc (size_t (sizeof_ptr * n)); Some (words (Z.to_nat n) block).

(** [OPENSSL_realloc] of an array of pointers to [n] elements. *)
Definition realloc_ptrs (old : list Z) (n : Z) : option (list Z) :=
  fresh ← malloc_ptrs n;
  Some (write_at fresh 0 (takeZ (if lenZ old <? n then lenZ old else n) old)).

(** * Construction *)

Definition sk_new (comp : option F) : option (STACK F) :=
  _ ← OPENSSL_malloc sizeof_STACK;
  _ ← malloc_ptrs kMinSize;
  Some {| num := 0; data := replicate (Z.to_nat kMinSize) NULL; sorted := false;
          num_alloc := kMinSize; comp := comp |}.

Definition sk_new_null : option (STACK F) := sk_new None.

Definition sk_dup (sk : option (STACK F)) : option (STACK F) :=
  sk ← sk;
  _ ← OPENSSL_malloc sizeof_STACK;
  d ← malloc_ptrs (num_alloc sk);
  Some {| num := num sk; data := write_at d 0 (takeZ (num sk) (data sk)); sorted := sorted sk;
          num_alloc := num_alloc sk; comp := comp sk |}.

(** * Access *)

Definition sk_num (sk : option (STACK F)) : Z := match sk with None => 0 | Some sk => num sk end.

Definition sk_value (sk : option (STACK F)) (i : Z) : Z :=
  match sk with
  | None => NULL
  | Some sk => if num sk <=? i then NULL else nthZ (data sk) i
  end.

Definition sk_set (sk : option (STACK F)) (i value : Z) : Z * option (STACK F) :=
  match sk with
  | None => (NULL, None)
  | Some s =>
      if num s <=? i then (NULL, sk)
      else (value, Some (set_items s (num s) (write_at (data s) i [value]) (sorted s)))
  end.

Definition sk_zero (sk : option (STACK F)) : option (STACK F) :=
  match sk with
  | None => None
  | Some s =>
      if num s =? 0 then sk
      else Some (set_items s 0 (write_at (data s) 0 (replicate (Z.to_nat (num s)) NULL)) false)
  end.

(** * Insertion and deletion *)

(** The capacity that [sk_insert] asks for. *)
Definition grow_alloc (num_alloc : Z) : option Z :=
  let overflows new := (new <? num_alloc) || negb (size_t (new * sizeof_ptr) / sizeof_ptr =? new) in
  let new_alloc := size_t (num_alloc ≪ 1) in
  let new_alloc := if overflows new_alloc then size_t (num_alloc + 1) else new_alloc in
  if overflows new_alloc then None else Some new_alloc.

Definition sk_insert (sk : option (STACK F)) (p where_ : Z) : Z * option (STACK F) :=
  match sk with
  | None => (0, None)
  | Some s =>
      let grown :=
        if num_alloc s <=? num s + 1 then
          new_alloc ← grow_alloc (num_alloc s);
          d ← realloc_ptrs (data s) new_alloc;
          Some {| num := num s; data := d; sorted := sorted s; num_alloc := new_alloc;
                  comp := comp s |}
        else Some s in
      match grown with
      | None => (0, sk)
      | Some s =>
          let d :=
            if num s <=? where_ then write_at (data s) (num s) [p]
            else
              let d := write_at (data s) (where_ + 1)
                         (takeZ (num s - where_) (dropZ where_ (data s))) in
              write_at d where_ [p] in
          (num s + 1, Some (set_items s (num s + 1) d false))
      end
  end.

Definition sk_push (sk : option (STACK F)) (p : Z) : Z * option (STACK F) :=
  sk_insert sk p (sk_num sk).

Definition sk_delete (sk : option (STACK F)) (where_ : Z) : Z * option (STACK F) :=
  match sk with
  | None => (NULL, None)
  | Some s =>
      if num s <=? where_ then (NULL, sk)
      else
        let ret := nthZ (data s) where_ in
        let d :=
          if negb (where_ =? num s - 1) then
            write_at (data s) where_ (takeZ (num s - where_ - 1) (dropZ (where_ + 1) (data s)))
          else data s in
        (ret, Some (set_items s (num s - 1) d (sorted s)))
  end.

(** [for (i = 0; i < sk->num; i++)]: the first index at which [test] holds. *)
Fixpoint first_index (test : Z → bool) (l : list Z) (i : Z) : option Z :=
  match l with
  | [] => None
  | x :: l => if test x then Some i else first_index test l (i + 1)
  end.

Definition sk_delete_ptr (sk : option (STACK F)) (p : Z) : Z * option (STACK F) :=
  match sk with
  | None => (NULL, None)
  | Some s =>
      match first_index (λ x, x =? p) (takeZ (num s) (data s)) 0 with
      | Some i => sk_delete sk i
      | None => (NULL, sk)
      end
  end.

Definition sk_shift (sk : option (STACK F)) : Z * option (STACK F) :=
  match sk with
  | None => (NULL, None)
  | Some s => if num s =? 0 then (NULL, sk) else sk_delete sk 0
  end.

Definition sk_pop (sk : option (STACK F)) : Z * option (STACK F) :=
  match sk with
  | None => (NULL, None)
  | Some s => if num s =? 0 then (NULL, sk) else sk_delete sk (num s - 1)
  end.

(** * Searching and sorting *)

Definition sk_is_sorted (sk : option (STACK F)) : bool :=
  match sk with None => true | Some s => sorted s end.

(** The binary search on [lo, hi); every round shrinks the interval. *)
Fixpoint binary_search (fuel : nat) (cmp : Z → Z → Z) (d : list Z) (p lo hi : Z) : option Z :=
  match fuel with
  | O => None
  | S fuel =>
      if lo <? hi then
        let mid := lo + (hi - lo - 1) / 2 in
        let r := cmp p (nthZ d mid) in
        if 0 <? r then binary_search fuel cmp d p (mid + 1) hi
        else if r <? 0 then binary_search fuel cmp d p lo mid
        else if hi - lo =? 1 then Some mid
        else binary_search fuel cmp d p lo (mid + 1)
      else None
  end.

(** [*out_index] when found. *)
Definition sk_find (sk : option (STACK F)) (p : Z) : option Z :=
  match sk with
  | None => None
  | Some s =>
      match comp s with
      | None => first_index (λ x, x =? p) (takeZ (num s) (data s)) 0
      | Some f =>
          if p =? NULL then None
          else if negb (sk_is_sorted sk) then
            first_index (λ x, call_cmp_func f p x =? 0) (takeZ (num s) (data s)) 0
          else binary_search (S (Z.to_nat (num s))) (call_cmp_func f) (data s) p 0 (num s)
      end
  end.

Definition sk_sort {Q : Qsort} (sk : option (STACK F)) : option (STACK F) :=
  match sk with
  | None => None
  | Some s =>
      match comp s with
      | None => sk
      | Some f =>
          if sorted s then sk
          else
            let d :=
              if 2 <=? num s then
                write_at (data s) 0 (qsort (call_cmp_func f) (takeZ (num s) (data s)))
              else data s in
            Some (set_items s (num s) d true)
      end
  end.

(** The old comparison function is the result. *)
Definition sk_set_cmp_func (s : STACK F) (f : option F) : option F * STACK F :=
  (comp s,
   {| num := num s; data := data s;
      sorted := if decide (comp s = f) then sorted s else false;
      num_alloc := num_alloc s; comp := f |}).

(** * Elements *)

(** The calls of [free_func] that [sk_pop_free_ex] makes. *)
Definition sk_pop_free_ex (sk : option (STACK F)) : list Z :=
  match sk with
  | None => []
  | Some s => filter (λ x, x ≠ NULL) (takeZ (num s) (data s))
  end.

(** The copying loop: the elements still to copy, those copied.  A failed copy
    frees the copies made; [inr] lists the calls of [free_func]. *)
Fixpoint deep_copy_loop (copy_func : Z → Z) (l copied : list Z) : list Z + list Z :=
  match l with
  | [] => inl copied
  | x :: l =>
      if x =? NULL then deep_copy_loop copy_func l (copied ++ [x])
      else
        let y := copy_func x in
        if y =? NULL then inr (filter (λ x, x ≠ NULL) copied)
        else deep_copy_loop copy_func l (copied ++ [y])
  end.

(** The copy, and the calls of [free_func]. *)
Definition sk_deep_copy (copy_func : Z → Z) (sk : option (STACK F)) : option (STACK F) * list Z :=
  match sk_dup sk with
  | None => (None, [])
  | Some ret =>
      match deep_copy_loop copy_func (takeZ (num ret) (data ret)) [] with
      | inl copied => (Some (set_items ret (num ret) (write_at (data ret) 0 copied) (sorted ret)), [])
      | inr freed => (None, freed)
      end
  end.

End stack.

(** * Well-formed stacks *)

(** The elements, without the unused capacity. *)
Definition items {F} (s : STACK F) : list Z := takeZ (num s) (data s).

Record stack_wf {F} (s : STACK F) : Prop := {
  wf_alloc : kMinSize <= num_alloc s;
  wf_data : lenZ (data s) = num_alloc s;
  wf_num : 0 <= num s <= num_alloc s;
  wf_size : sizeof_ptr * num_alloc s < 2 ^ 64;
}.

Lemma lenZ_items {F} (s : STACK F) : stack_wf s → lenZ (items s) = num s.
Proof. intros [Ha Hd Hn Hs]. apply lenZ_takeZ. lia. Qed.

Definition insert_at (i : Z) (p : Z) (l : list Z) : list Z := takeZ i l ++ p :: dropZ i l.
Definition delete_at (i : Z) (l : list Z) : list Z := takeZ i l ++ dropZ (i + 1) l.

Lemma write_at_front {A} (d x : list A) : lenZ x <= lenZ d → takeZ (lenZ x) (write_at d 0 x) = x.
Proof. intros Hl. rewrite takeZ_write_at; [done|lia|lia|lia]. Qed.

(** * Searching *)

Lemma first_index_shift test l i : first_index test l i = Z.add i <$> first_index test l 0.
Proof.
  revert i. induction l as [|x l IH]; intros i; cbn [first_index]; [done|].
  destruct (test x); [cbn; f_equal; lia|]. rewrite IH, (IH (0 + 1)).
  destruct (first_index test l 0); cbn; [f_equal; lia|done].
Qed.

(** The first index at which the test holds. *)
Lemma first_index_spec test l :
  match first_index test l 0 with
  | Some i => 0 <= i < lenZ l ∧ test (nthZ l i) = true ∧ ∀ j, 0 <= j < i → test (nthZ l j) = false
  | None => ∀ j, 0 <= j < lenZ l → test (nthZ l j) = false
  end.
Proof.
  induction l as [|x l IH]; cbn [first_index]; [intros j; llia|].
  assert (∀ j, 0 < j → nthZ (x :: l) j = nthZ l (j - 1)) as Hn.
  { intros j Hj. unfold nthZ. by replace (Z.to_nat j) with (S (Z.to_nat (j - 1))) by lia. }
  destruct (test x) eqn:Hx.
  { split; [llia|]. split; [done|lia]. }
  rewrite first_index_shift. destruct (first_index test l 0) as [i|]; cbn [fmap option_fmap option_map].
  - destruct IH as (Hi & Ht & Hlt). split; [llia|]. rewrite Hn by lia.
    replace (0 + 1 + i - 1) with i by lia. split; [done|]. intros j Hj.
    destruct (Z.eq_dec j 0) as [->|]; [done|]. rewrite Hn by lia. apply Hlt. lia.
  - intros j Hj. rewrite lenZ_cons in Hj. destruct (Z.eq_dec j 0) as [->|]; [done|]. rewrite Hn by lia. apply IH. lia.
Qed.

Lemma first_index_unique test l i :
  0 <= i < lenZ l → test (nthZ l i) = true → (∀ j, 0 <= j < i → test (nthZ l j) = false) →
  first_index test l 0 = Some i.
Proof.
  intros Hi Ht Hlt. pose proof (first_index_spec test l) as H.
  destruct (first_index test l 0) as [k|].
  - destruct H as (Hk & Htk & Hltk). f_equal. destruct (Z.lt_trichotomy i k) as [|[|]]; [|done|].
    + rewrite Hltk in Ht; [done|lia].
    + rewrite Hlt in Htk; [done|lia].
  - by rewrite H in Ht.
Qed.

Lemma first_index_none test l :
  (∀ j, 0 <= j < lenZ l → test (nthZ l j) = false) → first_index test l 0 = None.
Proof.
  intros Hn. pose proof (first_index_spec test l) as H. destruct (first_index test l 0) as [k|]; [|done].
  destruct H as (Hk & Ht & _). by rewrite Hn in Ht.
Qed.

(** A comparison function as stack.h wants it: a total preorder. *)
Record cmp_order (cmp : Z → Z → Z) : Prop := {
  cmp_anti x y : cmp x y < 0 ↔ 0 < cmp y x;
  cmp_trans x y z : cmp x y <= 0 → cmp y z <= 0 → cmp x z <= 0;
}.

Lemma cmp_mono cmp p x y :
  cmp_order cmp → cmp x y <= 0 → (cmp p x < 0 → cmp p y < 0) ∧ (0 < cmp p y → 0 < cmp p x).
Proof.
  intros [Ha Ht] Hxy. pose proof (Ha p y). pose proof (Ha y p). pose proof (Ha p x).
  pose proof (Ha x p). pose proof (Ht p y x). pose proof (Ht x y p). pose proof (Ht y p x).
  pose proof (Ha y x). split; intros ?.
  - destruct (Z.lt_ge_cases (cmp p y) 0) as [|Hge]; [done|].
    assert (cmp x p <= 0) by (apply Ht with y; lia). lia.
  - destruct (Z.lt_ge_cases 0 (cmp p x)) as [|Hge]; [done|].
    assert (cmp p y <= 0) by (apply Ht with x; lia). lia.
Qed.

(** Sorted as [qsort] leaves it. *)
Definition ascending (cmp : Z → Z → Z) (l : list Z) : Prop :=
  ∀ i j, 0 <= i <= j → j < lenZ l → cmp (nthZ l i) (nthZ l j) <= 0.

(** The loop keeps: what is left of [lo] compares low; what starts at [hi]
    compares high, or [hi - 1] is a match. *)
Lemma binary_search_spec cmp d l p fuel lo hi :
  cmp_order cmp → ascending cmp l → (∀ j, 0 <= j < lenZ l → nthZ d j = nthZ l j) →
  0 <= lo <= hi → hi <= lenZ l → hi - lo < Z.of_nat fuel →
  (∀ j, 0 <= j < lo → 0 < cmp p (nthZ l j)) →
  (∀ j, hi <= j < lenZ l → cmp p (nthZ l j) < 0) ∨ (lo < hi ∧ cmp p (nthZ l (hi - 1)) = 0) →
  binary_search fuel cmp d p lo hi = first_index (λ x, cmp p x =? 0) l 0.
Proof.
  intros Hc Hasc Hd. revert lo hi. induction fuel as [|fuel IH]; intros lo hi Hlo Hhi Hf Hlow Hhigh; [lia|].
  cbn [binary_search]. destruct (Z.ltb_spec lo hi) as [Hlt|Hge].
  2:{ destruct Hhigh as [Hhigh|[? _]]; [|lia]. symmetry. apply first_index_none. intros j Hj. apply Z.eqb_neq.
      destruct (Z.lt_ge_cases j lo); [specialize (Hlow j)|specialize (Hhigh j)]; lia. }
  set (mid := lo + (hi - lo - 1) / 2). assert (lo <= mid < hi) as Hmid by (unfold mid; lia).
  rewrite Hd by lia. destruct (Z.ltb_spec 0 (cmp p (nthZ l mid))) as [Hp|Hnp].
  { assert (∀ j, 0 <= j < mid + 1 → 0 < cmp p (nthZ l j)) as Hlow'.
    { intros j Hj. apply (cmp_mono cmp p (nthZ l j) (nthZ l mid)); [done|apply Hasc; lia|done]. }
    apply IH; [lia..|done|]. destruct Hhigh as [Hhigh|[_ He]]; [by left|right].
    split; [|done]. destruct (Z.eq_dec mid (hi - 1)) as [Heq|]; [rewrite <-Heq in He|]; lia. }
  destruct (Z.ltb_spec (cmp p (nthZ l mid)) 0) as [Hn|Hnn].
  { apply IH; [lia..|done|]. left. intros j Hj.
    apply (cmp_mono cmp p (nthZ l mid) (nthZ l j)); [done|apply Hasc; lia|done]. }
  assert (cmp p (nthZ l mid) = 0) as H0 by lia. destruct (Z.eqb_spec (hi - lo) 1).
  - replace mid with lo in * by lia. symmetry. apply first_index_unique; [lia|lia|].
    intros j Hj. specialize (Hlow j Hj). lia.
  - assert (mid + 1 < hi) by (unfold mid; lia). apply IH; [lia..|done|]. right.
    split; [lia|]. by replace (mid + 1 - 1) with mid by lia.
Qed.

(** * Insertion, deletion *)

Section stack_facts.
Context {libc : Libc} {F : Type}.
Implicit Types s : STACK F.

Lemma lenZ_words n block : lenZ (words n block) = Z.of_nat n.
Proof. revert block. induction n as [|n IH]; intros block; cbn [words]; [done|]. rewrite lenZ_cons, IH. lia. Qed.

Lemma malloc_ptrs_len n d : 0 <= n → malloc_ptrs n = Some d → lenZ d = n.
Proof.
  intros Hn. unfold malloc_ptrs. destruct (OPENSSL_malloc _); [|done]. intros [= <-].
  rewrite lenZ_words. lia.
Qed.

Lemma realloc_ptrs_spec old n d :
  lenZ old <= n → realloc_ptrs old n = Some d → lenZ d = n ∧ takeZ (lenZ old) d = old.
Proof.
  intros Hn. unfold realloc_ptrs. pose proof (lenZ_nonneg old).
  destruct (malloc_ptrs n) as [f|] eqn:Hm; [|done]. apply malloc_ptrs_len in Hm; [|lia]. intros [= <-].
  assert (takeZ (if lenZ old <? n then lenZ old else n) old = old) as ->
    by (apply takeZ_all; destruct (Z.ltb_spec (lenZ old) n); lia).
  split; [rewrite lenZ_write_at; lia|apply write_at_front; lia].
Qed.

Lemma grow_alloc_spec n m :
  kMinSize <= n → sizeof_ptr * n < 2 ^ 64 → grow_alloc n = Some m →
  n + 1 <= m ∧ sizeof_ptr * m < 2 ^ 64.
Proof.
  unfold grow_alloc, kMinSize, sizeof_ptr. cbv beta zeta. rewrite pow2_64. intros Hn Hs.
  assert (∀ x, 0 <= x < 2 ^ 64 → (x <? n) || negb (size_t (x * 8) / 8 =? x) = false → 8 * x < 18446744073709551616)
    as Hno.
  { intros x Hx H. bools. mlia. }
  rewrite Z.shiftl_mul_pow2 by lia. change (2 ^ 1) with 2.
  set (a := size_t (n * 2)). set (b := size_t (n + 1)).
  assert (0 <= a < 2 ^ 64 ∧ 0 <= b < 2 ^ 64) as [Ha Hb] by (split; apply wrap_fits; lia).
  assert (a = n * 2) as Hae by (unfold a; mlia). assert (b = n + 1) as Hbe by (unfold b; mlia).
  destruct ((a <? n) || negb (size_t (a * 8) / 8 =? a)) eqn:E1; cbv iota.
  - destruct ((b <? n) || negb (size_t (b * 8) / 8 =? b)) eqn:E2; [done|].
    intros [= <-]. apply Hno in E2; [lia|done].
  - rewrite E1. intros [= <-]. apply Hno in E1; [lia|done].
Qed.

(** Writing the new element into an array with room for it. *)
Lemma insert_data d n p i l :
  takeZ n d = l → lenZ l = n → n + 1 <= lenZ d → 0 <= i →
  takeZ (n + 1) (if n <=? i then write_at d n [p]
                 else write_at (write_at d (i + 1) (takeZ (n - i) (dropZ i d))) i [p]) = insert_at i p l.
Proof.
  intros Hl Hn Hd Hi. pose proof (lenZ_nonneg l). unfold insert_at.
  destruct (Z.leb_spec n i).
  - rewrite (takeZ_all l), (dropZ_all l) by lia. rewrite takeZ_write_at by (change (lenZ [p]) with 1; lia).
    by rewrite Hl.
  - assert (takeZ (n - i) (dropZ i d) = dropZ i l) as Hdrop.
    { rewrite <-Hl. unfold takeZ, dropZ. rewrite skipn_firstn_comm. f_equal. lia. }
    rewrite Hdrop. assert (lenZ (dropZ i l) = n - i) as Hld by (rewrite lenZ_dropZ; lia).
    replace (i + 1) with (i + lenZ [p]) by done. rewrite write_at_adjacent by (rewrite ?Hld; change (lenZ [p]) with 1; lia).
    rewrite takeZ_write_at; [|lia|rewrite lenZ_app, Hld; change (lenZ [p]) with 1; lia
      |rewrite lenZ_app, Hld; change (lenZ [p]) with 1; lia].
    cbn [app]. f_equal. rewrite <-Hl, takeZ_takeZ; [done|lia].
Qed.

Lemma sk_insert_spec s p i :
  stack_wf s → 0 <= i →
  match sk_insert (Some s) p i with
  | (n, Some s') =>
      (n = num s + 1 ∧ stack_wf s' ∧ items s' = insert_at i p (items s) ∧ sorted s' = false ∧
       comp s' = comp s) ∨ (n = 0 ∧ s' = s)
  | (_, None) => False
  end.
Proof.
  intros Hwf Hi. pose proof Hwf as [Ha Hd Hn Hs]. pose proof (lenZ_items s Hwf) as Hli. unfold sk_insert.
  assert (∀ g, items g = items s → num g = num s → comp g = comp s → kMinSize <= num_alloc g →
    lenZ (data g) = num_alloc g → num g + 1 <= num_alloc g → sizeof_ptr * num_alloc g < 2 ^ 64 →
    let d := if num g <=? i then write_at (data g) (num g) [p]
             else write_at (write_at (data g) (i + 1) (takeZ (num g - i) (dropZ i (data g)))) i [p] in
    let s' := set_items g (num g + 1) d false in
    stack_wf s' ∧ items s' = insert_at i p (items s) ∧ sorted s' = false ∧ comp s' = comp s) as Hdone.
  { intros g Hig Hng Hcg Hag Hdg Hng1 Hsg d s'.
    assert (lenZ d = lenZ (data g)) as Hld.
    { unfold d. destruct (Z.leb_spec (num g) i).
      - apply lenZ_write_at; change (lenZ [p]) with 1; lia.
      - assert (lenZ (takeZ (num g - i) (dropZ i (data g))) = num g - i) as Hlt
          by (rewrite lenZ_takeZ; rewrite ?lenZ_dropZ; lia).
        rewrite lenZ_write_at; rewrite ?lenZ_write_at; rewrite ?Hlt; change (lenZ [p]) with 1; lia. }
    split_and!; [split; cbn; lia| |done|done].
    change (items s') with (takeZ (num g + 1) d). apply insert_data; [exact Hig|lia|lia|done]. }
  destruct (Z.leb_spec (num_alloc s) (num s + 1)) as [Hgrow|Hroom].
  - destruct (grow_alloc (num_alloc s)) as [m|] eqn:Hm; cbn; [|by right].
    apply grow_alloc_spec in Hm as [Hm1 Hm2]; [|done..].
    destruct (realloc_ptrs (data s) m) as [d|] eqn:Hr; cbn; [|by right].
    apply realloc_ptrs_spec in Hr as [Hld Htd]; [|lia]. left. split; [done|].
    apply (Hdone {| num := num s; data := d; sorted := sorted s; num_alloc := m; comp := comp s |}); cbn; try lia; try done.
    unfold items. cbn. rewrite <-(takeZ_takeZ (num s) (lenZ (data s))) by lia. by rewrite Htd.
  - left. split; [done|]. apply Hdone; try done. lia.
Qed.

(** Insertion fails only when memory runs out or the size overflows. *)
Lemma sk_insert_room s p i :
  num s + 1 < num_alloc s → (sk_insert (Some s) p i).1 = num s + 1.
Proof. intros H. unfold sk_insert. by destruct (Z.leb_spec (num_alloc s) (num s + 1)); [lia|]. Qed.

Lemma sk_delete_spec s i :
  stack_wf s → 0 <= i < num s →
  ∃ s', sk_delete (Some s) i = (nthZ (items s) i, Some s') ∧ stack_wf s' ∧ num s' = num s - 1 ∧
        items s' = delete_at i (items s) ∧ sorted s' = sorted s ∧ comp s' = comp s.
Proof.
  intros Hwf Hi. pose proof Hwf as [Ha Hd Hn Hs]. pose proof (lenZ_items s Hwf) as Hli. unfold sk_delete.
  destruct (Z.leb_spec (num s) i); [lia|].
  assert (nthZ (data s) i = nthZ (items s) i) as ->.
  { unfold nthZ, items, takeZ. rewrite <-(take_drop (Z.to_nat (num s)) (data s)) at 1.
    apply app_nth1. rewrite length_take. unfold lenZ in Hd. lia. }
  set (d := if negb (i =? num s - 1) then write_at (data s) i (takeZ (num s - i - 1) (dropZ (i + 1) (data s))) else data s).
  assert (takeZ (num s - i - 1) (dropZ (i + 1) (data s)) = dropZ (i + 1) (items s)) as Hdrop.
  { unfold items, takeZ, dropZ. rewrite skipn_firstn_comm. f_equal. lia. }
  assert (lenZ (dropZ (i + 1) (items s)) = num s - i - 1) as Hld by (rewrite lenZ_dropZ; lia).
  assert (lenZ d = num_alloc s ∧ takeZ (num s - 1) d = delete_at i (items s)) as [Hlen Hit].
  { unfold d, delete_at. destruct (Z.eqb_spec i (num s - 1)) as [->|Hne]; cbn [negb].
    - split; [done|]. rewrite (dropZ_all (items s)), app_nil_r by lia. unfold items.
      rewrite takeZ_takeZ; [done|lia].
    - rewrite Hdrop. split; [rewrite lenZ_write_at; lia|]. rewrite takeZ_write_at by lia.
      f_equal. unfold items. rewrite takeZ_takeZ; [done|lia]. }
  eexists. split; [done|]. split_and!; [split; cbn; lia|done|done|done|done].
Qed.

Lemma sk_delete_out s i : num s <= i → sk_delete (Some s) i = (NULL, Some s).
Proof. intros H. unfold sk_delete. by destruct (Z.leb_spec (num s) i); [|lia]. Qed.

Lemma nthZ_items s j : 0 <= j < num s → nthZ (items s) j = nthZ (data s) j.
Proof.
  intros Hj. unfold nthZ, items, takeZ. rewrite <-(take_drop (Z.to_nat (num s)) (data s)) at 2.
  destruct (Nat.lt_ge_cases (Z.to_nat j) (length (take (Z.to_nat (num s)) (data s)))) as [Hlt|Hge].
  - symmetry. by apply app_nth1.
  - rewrite length_take in Hge. rewrite (drop_ge (data s)), app_nil_r by lia. done.
Qed.

(** * The [sorted] flag *)

Context `{!EqDecision F} (call_cmp_func : F → Z → Z → Z).

Lemma nthZ_delete_at i j l :
  0 <= i < lenZ l → 0 <= j → nthZ (delete_at i l) j = nthZ l (if j <? i then j else j + 1).
Proof.
  intros Hi Hj. unfold nthZ, delete_at, takeZ, dropZ. unfold lenZ in Hi.
  destruct (Z.ltb_spec j i).
  - rewrite app_nth1 by (rewrite length_take; lia). rewrite nth_firstn. by destruct (Nat.ltb_spec (Z.to_nat j) (Z.to_nat i)); [|lia].
  - rewrite app_nth2; rewrite length_take; [|lia]. rewrite nth_skipn. f_equal. lia.
Qed.

Lemma ascending_delete cmp i l : 0 <= i < lenZ l → ascending cmp l → ascending cmp (delete_at i l).
Proof.
  intros Hi Ha j k Hj Hk. assert (lenZ (delete_at i l) = lenZ l - 1) as Hl.
  { unfold delete_at. rewrite lenZ_app, lenZ_takeZ, lenZ_dropZ; lia. }
  rewrite !nthZ_delete_at by lia. apply Ha; destruct (Z.ltb_spec j i), (Z.ltb_spec k i); lia.
Qed.

Lemma ascending_qsort {Q : Qsort} cmp l : cmp_order cmp → ascending cmp (qsort cmp l).
Proof.
  intros [Ha Ht]. pose proof (qsort_sorted cmp l Ha Ht) as Hs.
  apply Sorted_StronglySorted in Hs; [|intros x y z; apply Ht].
  induction Hs as [|x l' Hs IH Hall]; intros i j Hij Hj; [llia|].
  rewrite lenZ_cons in Hj. assert (∀ k, 0 < k → nthZ (x :: l') k = nthZ l' (k - 1)) as Hn.
  { intros k Hk. unfold nthZ. by replace (Z.to_nat k) with (S (Z.to_nat (k - 1))) by lia. }
  destruct (Z.eq_dec i 0) as [->|]; [|rewrite !Hn by lia; apply IH; lia].
  destruct (Z.eq_dec j 0) as [->|]; [specialize (Ha x x); change (nthZ (x :: l') 0) with x; lia|].
  rewrite (Hn j) by lia. rewrite Forall_forall in Hall. apply Hall.
  apply list_elem_of_In, nth_In. unfold lenZ in Hj. lia.
Qed.

Definition sorted_ok s : Prop :=
  sorted s = true → match comp s with Some f => ascending (call_cmp_func f) (items s) | None => True end.

Lemma sk_sort_spec {Q : Qsort} s f :
  stack_wf s → comp s = Some f → cmp_order (call_cmp_func f) → sorted_ok s →
  ∃ s', sk_sort call_cmp_func (Some s) = Some s' ∧ stack_wf s' ∧ items s' ≡ₚ items s ∧
        num s' = num s ∧ sorted s' = true ∧ comp s' = comp s ∧ ascending (call_cmp_func f) (items s').
Proof.
  intros Hwf Hc Ho Hok. pose proof Hwf as [Ha Hd Hn Hs]. pose proof (lenZ_items s Hwf) as Hli.
  unfold sk_sort, sorted_ok in *. rewrite Hc in *. destruct (sorted s) eqn:Hsd.
  { exists s. split_and!; try done. by apply Hok. }
  eexists. split; [done|]. destruct (Z.leb_spec 2 (num s)).
  - fold (items s). assert (lenZ (qsort (call_cmp_func f) (items s)) = num s) as Hq.
    { rewrite <-Hli. unfold lenZ. by rewrite qsort_perm. }
    assert (takeZ (num s) (write_at (data s) 0 (qsort (call_cmp_func f) (items s))) =
            qsort (call_cmp_func f) (items s)) as Hw by (rewrite <-Hq; apply write_at_front; lia).
    split_and!; try done; [split; cbn; rewrite ?lenZ_write_at; lia|unfold items at 1|unfold items at 1]; cbn; rewrite Hw.
    + apply qsort_perm.
    + by apply ascending_qsort.
  - split_and!; try done. intros i j Hij Hj. change (items _) with (items s) in *.
    assert (i = 0 ∧ j = 0) as [-> ->] by lia. destruct Ho as [Han _].
    specialize (Han (nthZ (items s) 0) (nthZ (items s) 0)). lia.
Qed.

(** * The states a stack can be in *)

(** What every operation but [sk_set] keeps. *)
Definition stack_ok s : Prop := stack_wf s ∧ sorted_ok s.

Lemma sk_insert_ok s p i r s' :
  0 <= i → stack_ok s → sk_insert (Some s) p i = (r, Some s') → stack_ok s'.
Proof.
  intros Hi [Hwf Hok] H. pose proof (sk_insert_spec s p i Hwf Hi) as Hs. rewrite H in Hs.
  destruct Hs as [(_ & Hwf' & _ & Hsd & _)|[_ ->]]; [|done]. split; [done|]. unfold sorted_ok. by rewrite Hsd.
Qed.

Lemma sk_delete_ok s i r s' :
  0 <= i → stack_ok s → sk_delete (Some s) i = (r, Some s') → stack_ok s'.
Proof.
  intros Hi [Hwf Hok] H. destruct (Z.lt_ge_cases i (num s)) as [Hlt|Hge].
  - destruct (sk_delete_spec s i Hwf ltac:(lia)) as (s1 & H1 & Hwf1 & _ & Hit & Hsd & Hc).
    rewrite H in H1. injection H1 as -> ->. split; [done|]. unfold sorted_ok in *. rewrite Hsd, Hc, Hit.
    intros Hs. specialize (Hok Hs). destruct (comp s); [|done].
    apply ascending_delete; [rewrite lenZ_items; done|done].
  - rewrite sk_delete_out in H by done. by injection H as _ <-.
Qed.

Lemma sk_delete_ptr_ok s p r s' :
  stack_ok s → sk_delete_ptr (Some s) p = (r, Some s') → stack_ok s'.
Proof.
  intros Hok. cbn [sk_delete_ptr]. pose proof (first_index_spec (λ x, x =? p) (takeZ (num s) (data s))) as Hf.
  destruct (first_index _ _ 0) as [i|]; [|by intros [= _ <-]].
  apply sk_delete_ok; [apply Hf|done].
Qed.

Lemma sk_zero_ok s s' : stack_ok s → sk_zero (Some s) = Some s' → stack_ok s'.
Proof.
  intros [[Ha Hd Hn Hs] Hok]. cbn [sk_zero]. destruct (Z.eqb_spec (num s) 0); [by intros [= <-]|].
  intros [= <-]. split; [|done]. split; cbn; [done|rewrite lenZ_write_at; rewrite ?lenZ_replicate; lia|lia|done].
Qed.

Lemma sk_dup_spec s s' :
  stack_wf s → sk_dup (Some s) = Some s' →
  stack_wf s' ∧ items s' = items s ∧ num s' = num s ∧ sorted s' = sorted s ∧ comp s' = comp s.
Proof.
  intros Hwf. pose proof Hwf as [Ha Hd Hn Hs]. pose proof (lenZ_items s Hwf) as Hli. unfold kMinSize in Ha. cbn.
  destruct (OPENSSL_malloc _); [|done]. cbn.
  destruct (malloc_ptrs (num_alloc s)) as [d|] eqn:Hm; [|done]. apply malloc_ptrs_len in Hm; [|lia].
  intros [= <-]. fold (items s). split_and!; try done.
  - split; cbn; [done|rewrite lenZ_write_at; lia|lia|done].
  - unfold items at 1. cbn. rewrite <-Hli at 1. apply write_at_front. lia.
Qed.

Lemma sk_dup_ok s s' : stack_ok s → sk_dup (Some s) = Some s' → stack_ok s'.
Proof.
  intros [Hwf Hok] H. apply sk_dup_spec in H as (Hwf' & Hi & _ & Hs & Hc); [|done].
  split; [done|]. unfold sorted_ok. by rewrite Hi, Hs, Hc.
Qed.

Lemma sk_set_cmp_func_ok s f : stack_ok s → stack_ok (sk_set_cmp_func s f).2.
Proof.
  intros [[Ha Hd Hn Hs] Hok]. split; [by split|]. unfold sorted_ok, sk_set_cmp_func in *. cbn.
  destruct (decide (comp s = f)) as [<-|]; [done|]. done.
Qed.

Lemma sk_sort_ok {Q : Qsort} s s' :
  (∀ f, cmp_order (call_cmp_func f)) → stack_ok s → sk_sort call_cmp_func (Some s) = Some s' → stack_ok s'.
Proof.
  intros Ho [Hwf Hok] H. destruct (comp s) as [f|] eqn:Hc.
  - destruct (sk_sort_spec s f Hwf Hc (Ho f) Hok) as (s1 & H1 & Hwf1 & _ & _ & _ & Hc1 & Hasc).
    rewrite H in H1. injection H1 as ->. split; [done|]. intros _. by rewrite Hc1, Hc.
  - cbn in H. rewrite Hc in H. by injection H as <-.
Qed.

Lemma sk_new_ok f s : sk_new f = Some s → stack_ok s ∧ items s = [].
Proof.
  unfold sk_new. destruct (OPENSSL_malloc _); [|done]. cbn. destruct (malloc_ptrs _); [|done]. cbn.
  intros [= <-]. split; [|done]. split; [|done]. by split.
Qed.

End stack_facts.

Section stack_reach.
Context {libc : Libc} {F : Type} `{!EqDecision F} (call_cmp_func : F → Z → Z → Z).
Implicit Types s : STACK F.

(** The structure of a stack does not depend on the order of its elements. *)
Lemma stack_ok_wf s : stack_ok (λ _ _ _, 0) s ↔ stack_wf s.
Proof. split; [by intros [? _]|]. intros H. split; [done|]. intros _. destruct (comp s); [|done]. by intros i j _ _. Qed.

Lemma sk_sort_wf {Q : Qsort} s s' :
  (∀ f, cmp_order (call_cmp_func f)) → stack_wf s → sk_sort call_cmp_func (Some s) = Some s' → stack_wf s'.
Proof.
  intros Ho Hwf H. destruct (sorted s) eqn:Hs.
  - unfold sk_sort in H. destruct (comp s); [rewrite Hs in H|]; by injection H as <-.
  - refine (proj1 (sk_sort_ok call_cmp_func s s' Ho _ H)). split; [done|]. unfold sorted_ok. by rewrite Hs.
Qed.

Definition copy_element (copy_func : Z → Z) (x : Z) : Z := if x =? NULL then x else copy_func x.

Lemma deep_copy_loop_spec cp l done_ :
  deep_copy_loop cp l done_ =
  match first_index (λ x, negb (x =? NULL) && (cp x =? NULL)) l 0 with
  | None => inl (done_ ++ map (copy_element cp) l)
  | Some i => inr (filter (λ x, x ≠ NULL)
                     (done_ ++ map (copy_element cp) (takeZ i l)))
  end.
Proof.
  unfold copy_element. revert done_. induction l as [|x l IH]; intros done_; cbn [deep_copy_loop first_index map].
  { by rewrite app_nil_r. }
  assert (∀ i, 0 <= i → takeZ (0 + 1 + i) (x :: l) = x :: takeZ i l) as Ht.
  { intros i Hi. unfold takeZ. by replace (Z.to_nat (0 + 1 + i)) with (S (Z.to_nat i)) by lia. }
  pose proof (first_index_spec (λ x, negb (x =? NULL) && (cp x =? NULL)) l) as Hf.
  destruct (Z.eqb_spec x NULL) as [Hx|Hx]; cbn [negb andb].
  - rewrite IH, (first_index_shift _ l (0 + 1)). destruct (first_index _ l 0) as [i|]; cbn [fmap option_fmap option_map].
    + rewrite (Ht i) by apply Hf. cbn [map]. destruct (Z.eqb_spec x NULL); [|done].
      by rewrite <-app_assoc.
    + by rewrite <-app_assoc.
  - destruct (Z.eqb_spec (cp x) NULL) as [Hc|Hc].
    { rewrite takeZ_0. cbn [map]. by rewrite app_nil_r. }
    rewrite IH, (first_index_shift _ l (0 + 1)). destruct (first_index _ l 0) as [i|]; cbn [fmap option_fmap option_map].
    + rewrite (Ht i) by apply Hf. cbn [map]. destruct (Z.eqb_spec x NULL); [done|].
      by rewrite <-app_assoc.
    + by rewrite <-app_assoc.
Qed.

Lemma sk_deep_copy_spec cp s s' freed :
  stack_wf s → sk_deep_copy cp (Some s) = (Some s', freed) →
  stack_wf s' ∧ items s' = map (copy_element cp) (items s) ∧ sorted s' = sorted s ∧ comp s' = comp s.
Proof.
  intros Hwf. unfold sk_deep_copy. destruct (sk_dup (Some s)) as [r|] eqn:Hd; [|done].
  apply sk_dup_spec in Hd as (Hwf' & Hi & Hn & Hs & Hc); [|done]. fold (items r). rewrite Hi, deep_copy_loop_spec.
  destruct (first_index _ _ 0); [done|]. cbn [app]. intros [= <- _].
  pose proof (lenZ_items s Hwf) as Hl. assert (lenZ (map (copy_element cp) (items s)) = num r) as Hlm by (unfold lenZ in *; rewrite length_map; lia).
  destruct Hwf' as [Ha Hdt Hnr Hsz]. split; [|split; [|done]].
  - split; cbn; [done|rewrite lenZ_write_at; lia|done|done].
  - unfold items at 1. cbn. rewrite <-Hlm. apply write_at_front. lia.
Qed.

Lemma takeZ_write_at_in (l src : list Z) off n :
  0 <= off → off + lenZ src <= n <= lenZ l → takeZ n (write_at l off src) = write_at (takeZ n l) off src.
Proof.
  intros Ho Hn. pose proof (lenZ_nonneg src). unfold write_at. rewrite takeZ_app_ge, lenZ_takeZ, takeZ_takeZ by (rewrite ?lenZ_takeZ; lia).
  f_equal. rewrite takeZ_app_ge by lia. f_equal. unfold takeZ, dropZ, lenZ in *. rewrite skipn_firstn_comm. f_equal. lia.
Qed.

Lemma sk_set_spec s i v r s' :
  0 <= i < num s → stack_wf s → sk_set (Some s) i v = (r, Some s') →
  r = v ∧ stack_wf s' ∧ items s' = write_at (items s) i [v] ∧ sorted s' = sorted s ∧ comp s' = comp s.
Proof.
  intros Hi [Ha Hd Hn Hs]. unfold sk_set. rewrite (proj2 (Z.leb_gt _ _)) by lia. intros [= <- <-].
  split; [done|]. split; [split; cbn; [done|rewrite lenZ_write_at; rewrite ?lenZ_1; lia|done|done]|]. split; [|done].
  unfold items. cbn. apply takeZ_write_at_in; rewrite ?lenZ_1; lia.
Qed.

(** One call of the API on a live stack that writes no element in place. *)
Inductive sk_step {Q : Qsort} (s : STACK F) : STACK F → Prop :=
  | step_insert p i r s' : 0 <= i → sk_insert (Some s) p i = (r, Some s') → sk_step s s'
  | step_push p r s' : sk_push (Some s) p = (r, Some s') → sk_step s s'
  | step_delete i r s' : 0 <= i → sk_delete (Some s) i = (r, Some s') → sk_step s s'
  | step_delete_ptr p r s' : sk_delete_ptr (Some s) p = (r, Some s') → sk_step s s'
  | step_shift r s' : sk_shift (Some s) = (r, Some s') → sk_step s s'
  | step_pop r s' : sk_pop (Some s) = (r, Some s') → sk_step s s'
  | step_zero s' : sk_zero (Some s) = Some s' → sk_step s s'
  | step_sort s' : sk_sort call_cmp_func (Some s) = Some s' → sk_step s s'
  | step_set_cmp_func f : sk_step s (sk_set_cmp_func s f).2
  | step_dup s' : sk_dup (Some s) = Some s' → sk_step s s'
  | step_set_outside i v r s' : num s <= i → sk_set (Some s) i v = (r, Some s') → sk_step s s'.

(** The stacks the API can make.  [stale] tells that an element was written in place, by [sk_set] or by a
    copying function that need not keep the order, while [sorted] was set, and that it is still set. *)
Inductive sk_reachable {Q : Qsort} : bool → STACK F → Prop :=
  | reach_new f s : sk_new f = Some s → sk_reachable false s
  | reach_step stale s s' : sk_reachable stale s → sk_step s s' → sk_reachable (stale && sorted s') s'
  | reach_set stale s i v r s' : sk_reachable stale s → 0 <= i < num s → sk_set (Some s) i v = (r, Some s') → sk_reachable (sorted s') s'
  | reach_deep_copy stale s copy_func s' freed :
      sk_reachable stale s → sk_deep_copy copy_func (Some s) = (Some s', freed) → sk_reachable (sorted s') s'
  | reach_order_copy stale s copy_func s' freed :
      (∀ f x y, call_cmp_func f (copy_element copy_func x) (copy_element copy_func y) = call_cmp_func f x y) →
      sk_reachable stale s → sk_deep_copy copy_func (Some s) = (Some s', freed) → sk_reachable stale s'.

Lemma sk_step_keeps {Q : Qsort} s s' :
  (∀ f, cmp_order (call_cmp_func f)) → sk_step s s' →
  (stack_wf s → stack_wf s') ∧ (stack_ok call_cmp_func s → stack_ok call_cmp_func s').
Proof.
  intros Ho Hst. assert (∀ P : Prop, (stack_wf s → P) → (stack_wf s → P) ∧ (stack_ok call_cmp_func s → P)) as Hboth by (intros P H; split; [done|intros [? _]; auto]).
  destruct Hst as [p i r s' Hi H|p r s' H|i r s' Hi H|p r s' H|r s' H|r s' H|s' H|s' H|f|s' H|i v r s' Hi H]; rewrite <-!stack_ok_wf.
  - split; by eauto using @sk_insert_ok.
  - split; intros Hok; pose proof (wf_num s (proj1 Hok)); (eapply @sk_insert_ok; [|done..]; cbn; lia).
  - split; by eauto using @sk_delete_ok.
  - split; intros Hok; by eapply @sk_delete_ptr_ok.
  - unfold sk_shift in H. split; intros Hok; (destruct (num s =? 0); [by simplify_eq|by eapply @sk_delete_ok]).
  - unfold sk_pop in H. split; intros Hok; pose proof (wf_num s (proj1 Hok)); (destruct (Z.eqb_spec (num s) 0); [by simplify_eq|]; eapply @sk_delete_ok; [|done..]; lia).
  - split; intros Hok; by eapply @sk_zero_ok.
  - rewrite !stack_ok_wf. split; intros Hok; [by eapply sk_sort_wf|by eapply sk_sort_ok].
  - split; intros Hok; by apply @sk_set_cmp_func_ok.
  - split; intros Hok; by eapply @sk_dup_ok.
  - unfold sk_set in H. rewrite (proj2 (Z.leb_le _ _)) in H by done. injection H as _ <-. done.
Qed.

Lemma ascending_copy cp f l :
  (∀ x y, call_cmp_func f (copy_element cp x) (copy_element cp y) = call_cmp_func f x y) →
  ascending (call_cmp_func f) l → ascending (call_cmp_func f) (map (copy_element cp) l).
Proof.
  intros Hc Ha i j Hij Hj. unfold lenZ in Hj. rewrite length_map in Hj.
  assert (∀ k, nthZ (map (copy_element cp) l) k = copy_element cp (nthZ l k)) as E by (intros k; exact (map_nth (copy_element cp) l 0 (Z.to_nat k))).
  rewrite !E, Hc. apply Ha; [done|unfold lenZ; lia].
Qed.

Lemma sk_reachable_ok {Q : Qsort} stale s :
  (∀ f, cmp_order (call_cmp_func f)) → sk_reachable stale s → stack_wf s ∧ (stale = true → sorted s = true) ∧ (stale = false → sorted_ok call_cmp_func s).
Proof.
  intros Ho. induction 1 as [f s H|stale s s' _ (W & T & K) Hst|stale s i v r s' _ (W & _ & _) Hi H|stale s cp s' fr _ (W & _ & _) H|stale s cp s' fr Hcp _ (W & T & K) H].
  - destruct (sk_new_ok call_cmp_func f s H) as [[W K] _]. done.
  - destruct (sk_step_keeps s s' Ho Hst) as [Kw Ko]. split; [auto|]. destruct stale; cbn [andb].
    + split; [done|]. intros E. unfold sorted_ok. by rewrite E.
    + split; [done|]. intros _. apply Ko. by split; [|apply K].
  - apply sk_set_spec in H as (_ & W' & _); [|done|done]. split; [done|]. split; [done|]. intros E. unfold sorted_ok. by rewrite E.
  - apply sk_deep_copy_spec in H as (W' & _); [|done]. split; [done|]. split; [done|]. intros E. unfold sorted_ok. by rewrite E.
  - apply sk_deep_copy_spec in H as (W' & Ei & Es & Ec); [|done]. split; [done|]. split; [by rewrite Es|]. intros E. specialize (K E).
    unfold sorted_ok in *. rewrite Ei, Es, Ec. intros Hs. specialize (K Hs). destruct (comp s) as [f|]; [|done]. by apply ascending_copy.
Qed.

End stack_reach.

(** * Properties *)

Section properties.
Context {libc : Libc} {F : Type}.
Implicit Types s : STACK F.

(** [sk_insert] puts an element in its place, the end when the index is past
    it, clears [sorted] and returns the new size, or fails without a change;
    [sk_delete] undoes it. *)
Theorem sk_insert_delete s p i n s' :
  stack_wf s → 0 <= i <= num s → sk_insert (Some s) p i = (n, Some s') →
  (n = 0 ∧ s' = s) ∨
  (n = num s + 1 ∧ stack_wf s' ∧ items s' = insert_at i p (items s) ∧ sorted s' = false ∧
   ∃ s2, sk_delete (Some s') i = (p, Some s2) ∧ items s2 = items s).
Proof.
  intros Hwf Hi H. pose proof (sk_insert_spec s p i Hwf ltac:(lia)) as Hs. rewrite H in Hs.
  destruct Hs as [(Hn & Hwf' & Hit & Hso & Hco)|]; [right|by left].
  pose proof (lenZ_items s Hwf) as Hl. pose proof (lenZ_items s' Hwf') as Hl'.
  rewrite Hit in Hl'. unfold insert_at in Hl'. rewrite lenZ_app, lenZ_cons, lenZ_takeZ, lenZ_dropZ in Hl' by lia.
  destruct (sk_delete_spec s' i Hwf') as (s2 & Hd & _ & _ & Hi2 & _); [lia|].
  split_and!; [done|done|done|done|]. exists s2.
  assert (lenZ (takeZ i (items s)) = i) as Ht by (apply lenZ_takeZ; lia).
  rewrite Hd, Hi2, Hit. unfold insert_at, delete_at. split.
  - do 2 f_equal. unfold nthZ. rewrite app_nth2; [|unfold lenZ in Ht; lia].
    by replace (Z.to_nat i - length (takeZ i (items s)))%nat with O by (unfold lenZ in Ht; lia).
  - rewrite takeZ_app by lia. replace (takeZ i (items s) ++ p :: dropZ i (items s))
      with ((takeZ i (items s) ++ [p]) ++ dropZ i (items s)) by (by rewrite <-app_assoc).
    rewrite dropZ_app by (rewrite lenZ_app, Ht; change (lenZ [p]) with 1; lia). apply takeZ_dropZ.
Qed.

Context `{!EqDecision F} (call_cmp_func : F → Z → Z → Z).

(** C35. The invariant of a stack, whatever the API does: the array has the allocated size, which does not
    overflow, and the [sorted] flag is only set when the elements ascend under the comparison, unless it is
    stale, which only [sk_set] or a deep copy out of order makes it, and only where it was set. *)
Theorem sk_invariant {Q : Qsort} stale s :
  (∀ f, cmp_order (call_cmp_func f)) → sk_reachable call_cmp_func stale s →
  stack_wf s ∧ (stale = true → sorted s = true) ∧ (stale = false → sorted_ok call_cmp_func s).
Proof. intros Ho Hr. by apply sk_reachable_ok in Hr. Qed.

(** C34. On every stack the API can make, [sk_set] and [sk_deep_copy] included, but those with a comparison
    whose [sorted] flag is stale, [sk_find], by linear or by binary search, returns the index of the first
    element that matches, or none when none does. *)
Theorem sk_find_exact {Q : Qsort} stale s p :
  (∀ f, cmp_order (call_cmp_func f)) → sk_reachable call_cmp_func stale s → (stale = true → comp s = None) →
  sk_find call_cmp_func (Some s) p =
  match comp s with
  | None => first_index (λ x, x =? p) (items s) 0
  | Some f => if p =? NULL then None else first_index (λ x, call_cmp_func f p x =? 0) (items s) 0
  end.
Proof.
  intros Ho Hr Hst. apply sk_reachable_ok in Hr as (Hwf & _ & Hok); [|done]. pose proof (lenZ_items s Hwf) as Hl.
  unfold sk_find, sk_is_sorted, sorted_ok in *. destruct (comp s) as [f|]; [|done].
  destruct (p =? NULL); [done|]. destruct (sorted s); cbn [negb]; [|done].
  pose proof (wf_num s Hwf). destruct stale; [by specialize (Hst eq_refl)|].
  apply binary_search_spec; [apply Ho|by apply Hok| |lia|lia|lia|lia|left; lia].
  intros j Hj. symmetry. apply nthZ_items. lia.
Qed.

(** [sk_sort] permutes the elements into ascending order and sets [sorted]. *)
Theorem sk_sort_exact {Q : Qsort} s f :
  stack_wf s → comp s = Some f → cmp_order (call_cmp_func f) → sorted_ok call_cmp_func s →
  ∃ s', sk_sort call_cmp_func (Some s) = Some s' ∧ stack_wf s' ∧ items s' ≡ₚ items s ∧
        sorted s' = true ∧ ascending (call_cmp_func f) (items s').
Proof.
  intros Hwf Hc Ho Hok. destruct (sk_sort_spec call_cmp_func s f Hwf Hc Ho Hok) as (s' & H).
  exists s'. naive_solver.
Qed.
End properties.

(** The order of the addresses, as a comparison function. *)
Definition cmp_address (_ : unit) (x y : Z) : Z := x - y.

Lemma cmp_address_order f : cmp_order (cmp_address f).
Proof. split; unfold cmp_address; lia. Qed.

(** A stack of [l], made by [sk_new] and [sk_push]. *)
Definition stack_of {libc : Libc} (l : list Z) : option (STACK unit) :=
  foldl (λ s p, (sk_push s p).2) (sk_new (Some tt)) l.

Definition stack_21 : STACK unit :=
  {| num := 2; data := [2; 1; 0; 0]; sorted := false; num_alloc := 4; comp := Some tt |}.

(** Made by two calls of [sk_push] and one of [sk_set]. *)
Lemma stack_21_reachable : @sk_reachable calloc_libc unit _ cmp_address merge_qsort false stack_21.
Proof.
  assert (∃ s0, @sk_new calloc_libc unit (Some tt) = Some s0 ∧
    ∃ s1, @sk_push calloc_libc unit (Some s0) 7 = (1, Some s1) ∧
    ∃ s2, @sk_push calloc_libc unit (Some s1) 1 = (2, Some s2) ∧ 0 <= 0 < num s2 ∧
    sk_set (Some s2) 0 2 = (2, Some stack_21)) as (s0 & H0 & s1 & H1 & s2 & H2 & Hn & H3)
    by (repeat (eexists; split; [vm_compute; reflexivity|]); split; [decide_now|vm_compute; reflexivity]).
  pose proof (reach_new cmp_address (Q := merge_qsort) _ _ H0) as R0.
  pose proof (reach_step _ _ _ _ R0 (step_push _ _ _ _ _ H1)) as R1. pose proof (reach_step _ _ _ _ R1 (step_push _ _ _ _ _ H2)) as R2.
  exact (reach_set _ _ _ _ _ _ _ R2 Hn H3).
Qed.

Lemma stack_21_wf : stack_wf stack_21.
Proof. split; decide_now. Qed.

Lemma sk_invariant_witness : stack_wf stack_21 ∧ (false = true → sorted stack_21 = true) ∧ (false = false → sorted_ok cmp_address stack_21).
Proof.
  apply (@sk_invariant calloc_libc unit _ cmp_address merge_qsort false stack_21);
    [apply cmp_address_order|apply stack_21_reachable].
Defined.

Lemma sk_find_exact_witness : sk_find cmp_address (Some stack_21) 1 = Some 1.
Proof.
  apply (@sk_find_exact calloc_libc unit _ cmp_address merge_qsort false stack_21 1);
    [apply cmp_address_order|apply stack_21_reachable|done].
Defined.

Lemma sk_insert_delete_witness :
  let s' := {| num := 3; data := [2; 7; 1; 0]; sorted := false; num_alloc := 4; comp := Some tt |} in
  (3 = 0 ∧ s' = stack_21) ∨
  (3 = 2 + 1 ∧ stack_wf s' ∧ items s' = insert_at 1 7 (items stack_21) ∧ sorted s' = false ∧
   ∃ s2, sk_delete (Some s') 1 = (7, Some s2) ∧ items s2 = items stack_21).
Proof.
  intros s'. apply (@sk_insert_delete calloc_libc unit stack_21 7 1 3 s' stack_21_wf);
    [decide_now|vm_compute; reflexivity].
Defined.

Lemma sk_sort_exact_witness :
  ∃ s', @sk_sort unit cmp_address merge_qsort (Some stack_21) = Some s' ∧ stack_wf s' ∧
        items s' ≡ₚ [2; 1] ∧ sorted s' = true ∧ ascending (cmp_address tt) (items s').
Proof.
  apply (@sk_sort_exact unit cmp_address merge_qsort stack_21 tt stack_21_wf eq_refl (cmp_address_order tt)).
  intros H. discriminate H.
Defined.

(** [sk_set] leaves [sorted] set: in a sorted stack where it replaced the first
    element by a large one, [sk_find] misses that element. *)
Theorem sk_set_breaks_find :
  ∃ s s' s'', @stack_of calloc_libc [3; 1; 2] = Some s ∧
    @sk_sort unit cmp_address merge_qsort (Some s) = Some s' ∧
    sk_set (Some s') 0 9 = (9, Some s'') ∧
    items s'' = [9; 2; 3] ∧ sk_find cmp_address (Some s'') 9 = None.
Proof. do 3 eexists. split_and!; vm_compute; reflexivity. Qed.
