(* ===== verification/LHash.v ===== *)
(** Chained hash tables:
    src/HolyWater-Test/Pods/BoringSSL-GRPC/src/crypto/lhash/lhash.c.

    The elements are pointers, a [Z] each, NULL being zero.  A chain is the list
    of its items in the order of their [next] fields; an item keeps its own
    address, because [OPENSSL_lh_doall_arg] holds on to the address of an item
    while a callback edits the table.  Hashing and comparing are the caller's. *)
From stdpp Require Import gmap.
From S2P Require Import Prelude Mem.

Definition kMinNumBuckets : Z := 16.
Definition kMaxAverageChainLength : Z := 2.
Definition kMinAverageChainLength : Z := 1.
Definition UINT_MAX : Z := 2 ^ 32 - 1.
Definition sizeof_LHASH : Z := 48.
Definition NULL_data : Z := 0.

(** [struct lhash_item_st] *)
Record LHASH_ITEM := { it_addr : Z; it_data : Z; it_hash : Z }.

(** [struct lhash_st], less its two function pointers. *)
Record LHASH := {
  num_items : Z;
  buckets : list (list LHASH_ITEM);
  num_buckets : Z;
  callback_depth : Z;
}.

Definition lh_items (lh : LHASH) : list LHASH_ITEM := concat (buckets lh).

Section lhash.
Context {libc : Libc} {alloc : AddrAlloc}.
(** [call_hash_func(lh->hash, _)] and [call_cmp_func(lh->comp, _, _)] *)
Context (lh_hash : Z → Z) (lh_comp : Z → Z → Z).

Definition set_buckets (lh : LHASH) (n : Z) (bs : list (list LHASH_ITEM)) : LHASH :=
  {| num_items := num_items lh; buckets := bs; num_buckets := n;
     callback_depth := callback_depth lh |}.
Definition set_num_items (lh : LHASH) (n : Z) : LHASH :=
  {| num_items := n; buckets := buckets lh; num_buckets := num_buckets lh;
     callback_depth := callback_depth lh |}.
Definition set_callback_depth (lh : LHASH) (n : Z) : LHASH :=
  {| num_items := num_items lh; buckets := buckets lh; num_buckets := num_buckets lh;
     callback_depth := n |}.

Definition OPENSSL_lh_new : option LHASH :=
  _ ← OPENSSL_malloc sizeof_LHASH;
  _ ← OPENSSL_malloc (8 * kMinNumBuckets);
  Some {| num_items := 0; buckets := replicate (Z.to_nat kMinNumBuckets) [];
          num_buckets := kMinNumBuckets; callback_depth := 0 |}.

Definition OPENSSL_lh_num_items (lh : LHASH) : Z := num_items lh.

(** The walk along a chain: how many items precede the one [ret] points to. *)
Fixpoint chain_pos (test : Z → bool) (chain : list LHASH_ITEM) : nat :=
  match chain with
  | [] => O
  | cur :: chain => if test (it_data cur) then O else S (chain_pos test chain)
  end.

(** The address of a [next] field is its bucket, the chain there and a position. *)
Definition get_next_ptr (lh : LHASH) (hash : Z) (test : Z → bool) : nat * list LHASH_ITEM * nat :=
  let bucket := Z.to_nat (hash mod num_buckets lh) in
  let chain := default [] (buckets lh !! bucket) in
  (bucket, chain, chain_pos test chain).

Definition get_next_ptr_and_hash (lh : LHASH) (data : Z) : Z * (nat * list LHASH_ITEM * nat) :=
  let hash := lh_hash data in
  (hash, get_next_ptr lh hash (λ cur, lh_comp cur data =? 0)).

(** [cmp_key(key, _)] *)
Definition get_next_ptr_by_key (lh : LHASH) (key_hash : Z) (cmp_key : Z → Z) : nat * list LHASH_ITEM * nat :=
  get_next_ptr lh key_hash (λ cur, cmp_key cur =? 0).

Definition OPENSSL_lh_retrieve (lh : LHASH) (data : Z) : Z :=
  let '(_, (_, chain, pos)) := get_next_ptr_and_hash lh data in
  match chain !! pos with None => NULL_data | Some item => it_data item end.

Definition OPENSSL_lh_retrieve_key (lh : LHASH) (key_hash : Z) (cmp_key : Z → Z) : Z :=
  let '(_, chain, pos) := get_next_ptr_by_key lh key_hash cmp_key in
  match chain !! pos with None => NULL_data | Some item => it_data item end.

(** One item moves to the head of its new chain. *)
Definition rebucket_item (n : Z) (new_buckets : list (list LHASH_ITEM)) (cur : LHASH_ITEM) :
    list (list LHASH_ITEM) :=
  alter (cons cur) (Z.to_nat (it_hash cur mod n)) new_buckets.

Definition lh_rebucket (lh : LHASH) (new_num_buckets : Z) : LHASH :=
  let alloc_size := size_t (8 * new_num_buckets) in
  if negb (alloc_size / 8 =? new_num_buckets) then lh
  else match OPENSSL_malloc alloc_size with
  | None => lh
  | Some _ =>
      let new_buckets :=
        fold_left (λ bs chain, fold_left (rebucket_item new_num_buckets) chain bs) (buckets lh)
          (replicate (Z.to_nat new_num_buckets) []) in
      set_buckets lh new_num_buckets new_buckets
  end.

Definition lh_maybe_resize (lh : LHASH) : LHASH :=
  if 0 <? callback_depth lh then lh
  else
    let avg_chain_length := num_items lh / num_buckets lh in
    if kMaxAverageChainLength <? avg_chain_length then
      let new_num_buckets := size_t (num_buckets lh * 2) in
      if num_buckets lh <? new_num_buckets then lh_rebucket lh new_num_buckets else lh
    else if (avg_chain_length <? kMinAverageChainLength) && (kMinNumBuckets <? num_buckets lh) then
      let new_num_buckets := num_buckets lh / 2 in
      let new_num_buckets :=
        if new_num_buckets <? kMinNumBuckets then kMinNumBuckets else new_num_buckets in
      lh_rebucket lh new_num_buckets
    else lh.

(** The returned flag, [*old_data] and the table. *)
Definition OPENSSL_lh_insert (lh : LHASH) (data : Z) : Z * Z * LHASH :=
  let '(hash, (bucket, chain, pos)) := get_next_ptr_and_hash lh data in
  match chain !! pos with
  | Some item =>
      let item' := {| it_addr := it_addr item; it_data := data; it_hash := it_hash item |} in
      (1, it_data item, set_buckets lh (num_buckets lh) (<[bucket := <[pos := item']> chain]> (buckets lh)))
  | None =>
      match new_addr (map it_addr (lh_items lh)) with
      | None => (0, NULL_data, lh)
      | Some a =>
          let item := {| it_addr := a; it_data := data; it_hash := hash |} in
          let lh := set_buckets lh (num_buckets lh) (<[bucket := chain ++ [item]]> (buckets lh)) in
          (1, NULL_data, lh_maybe_resize (set_num_items lh (size_t (num_items lh + 1))))
      end
  end.

Definition OPENSSL_lh_delete (lh : LHASH) (data : Z) : Z * LHASH :=
  let '(_, (bucket, chain, pos)) := get_next_ptr_and_hash lh data in
  match chain !! pos with
  | None => (NULL_data, lh)
  | Some item =>
      let lh := set_buckets lh (num_buckets lh)
                  (<[bucket := take pos chain ++ drop (S pos) chain]> (buckets lh)) in
      (it_data item, lh_maybe_resize (set_num_items lh (size_t (num_items lh - 1))))
  end.

(** * Iteration

    [func] may edit the table; it also reads and writes a state [E] that [arg]
    points to. *)
Section doall.
Context {E : Type} (func : Z → E * LHASH → E * LHASH).

(** The item at an address and the address in its [next] field; [None] when no
    live item is there. *)
Fixpoint chain_deref (chain : list LHASH_ITEM) (a : Z) : option (LHASH_ITEM * option Z) :=
  match chain with
  | [] => None
  | it :: chain =>
      if it_addr it =? a then Some (it, it_addr <$> head chain) else chain_deref chain a
  end.
Fixpoint deref (bs : list (list LHASH_ITEM)) (a : Z) : option (LHASH_ITEM * option Z) :=
  match bs with
  | [] => None
  | chain :: bs => match chain_deref chain a with Some r => Some r | None => deref bs a end
  end.

(** The inner loop.  [None]: a freed item was read, or the loop outran the fuel
    (a callback can append to the chain forever). *)
Fixpoint doall_chain (fuel : nat) (cur : option Z) (st : E * LHASH) : option (E * LHASH) :=
  match cur, fuel with
  | None, _ => Some st
  | Some _, O => None
  | Some a, S fuel =>
      '(item, next) ← deref (buckets st.2) a;
      doall_chain fuel next (func (it_data item) st)
  end.

(** The outer loop, from bucket [i] on. *)
Fixpoint doall_buckets (fuel n : nat) (i : Z) (st : E * LHASH) : option (E * LHASH) :=
  if i <? num_buckets st.2 then
    match n with
    | O => None
    | S n =>
        st ← doall_chain fuel (chain ← buckets st.2 !! Z.to_nat i; it_addr <$> head chain) st;
        doall_buckets fuel n (i + 1) st
    end
  else Some st.

Definition OPENSSL_lh_doall_arg (fuel : nat) (e : E) (lh : option LHASH) : option (E * option LHASH) :=
  match lh with
  | None => Some (e, None)
  | Some lh =>
      let lh := if callback_depth lh <? UINT_MAX
                then set_callback_depth lh (callback_depth lh + 1) else lh in
      '(e, lh) ← doall_buckets fuel fuel 0 (e, lh);
      let lh := if callback_depth lh <? UINT_MAX
                then set_callback_depth lh (u32 (callback_depth lh - 1)) else lh in
      Some (e, Some (lh_maybe_resize lh))
  end.
End doall.
End lhash.

(** * Well-formed tables and the map they hold *)

Section lhash_facts.
Context {libc : Libc} {alloc : AddrAlloc}.
Context (lh_hash : Z → Z) (lh_comp : Z → Z → Z).
(** Elements are compared by a key, and the hash depends on the key alone. *)
Context {K : Type} `{Countable K} (key : Z → K).
Context (comp_key : ∀ a b, lh_comp a b = 0 ↔ key a = key b).
Context (hash_key : ∀ a b, key a = key b → lh_hash a = lh_hash b).
Context (hash_fits : ∀ a, fits 32 (lh_hash a)).

Definition it_key (it : LHASH_ITEM) : K := key (it_data it).

Record lh_wf (lh : LHASH) : Prop := {
  wf_items : num_items lh = lenZ (lh_items lh);
  wf_buckets : lenZ (buckets lh) = num_buckets lh;
  wf_num_buckets : kMinNumBuckets <= num_buckets lh ∧ 8 * num_buckets lh < 2 ^ 64;
  wf_depth : 0 <= callback_depth lh <= UINT_MAX;
  wf_hash it : it ∈ lh_items lh → it_hash it = lh_hash (it_data it);
  wf_place i chain it : buckets lh !! i = Some chain → it ∈ chain →
    Z.to_nat (it_hash it mod num_buckets lh) = i;
  wf_keys : NoDup (map it_key (lh_items lh));
  wf_addrs : NoDup (map it_addr (lh_items lh));
  wf_addr it : it ∈ lh_items lh → 0 < it_addr it < 2 ^ 64;
}.

Definition items_map (its : list LHASH_ITEM) : gmap K Z :=
  list_to_map (map (λ it, (it_key it, it_data it)) its).
Definition lh_map (lh : LHASH) : gmap K Z := items_map (lh_items lh).

Lemma items_map_perm l1 l2 : NoDup (map it_key l1) → l1 ≡ₚ l2 → items_map l1 = items_map l2.
Proof.
  intros Hn Hp. unfold items_map. apply list_to_map_proper; [|by rewrite Hp].
  rewrite map_map. done.
Qed.
Lemma items_map_cons it l : items_map (it :: l) = <[it_key it := it_data it]> (items_map l).
Proof. done. Qed.
Lemma items_map_notin k l : k ∉ map it_key l → items_map l !! k = None.
Proof. intros Hk. apply not_elem_of_list_to_map_1. by rewrite map_map. Qed.
Lemma items_map_in it l : NoDup (map it_key l) → it ∈ l → items_map l !! it_key it = Some (it_data it).
Proof.
  intros Hn Hi. apply elem_of_list_to_map_1; [by rewrite map_map|].
  apply list_elem_of_fmap. by exists it.
Qed.

(** Replacing one bucket leaves the others. *)
Lemma concat_bucket {A} (bs : list (list A)) b chain :
  bs !! b = Some chain →
  ∃ rest, concat bs ≡ₚ chain ++ rest ∧ ∀ c', concat (<[b := c']> bs) ≡ₚ c' ++ rest.
Proof.
  intros Hb. exists (concat (take b bs) ++ concat (drop (S b) bs)). split; [|intros c'].
  - rewrite <-(take_drop_middle bs b chain Hb) at 1. rewrite concat_app. cbn. by rewrite Permutation_app_swap_app.
  - rewrite insert_take_drop by (by apply lookup_lt_Some in Hb). rewrite concat_app. cbn.
    by rewrite Permutation_app_swap_app.
Qed.

Lemma chain_pos_spec test chain :
  match chain !! chain_pos test chain with
  | Some it => test (it_data it) = true ∧
      chain = take (chain_pos test chain) chain ++ it :: drop (S (chain_pos test chain)) chain
  | None => ∀ it, it ∈ chain → test (it_data it) = false
  end.
Proof.
  destruct (chain !! chain_pos test chain) as [it|] eqn:Hl.
  - split; [|by rewrite take_drop_middle]. revert Hl. induction chain as [|c chain IH]; cbn; [done|].
    destruct (test (it_data c)) eqn:Ht; [by intros [= <-]|done].
  - revert Hl. induction chain as [|c chain IH]; cbn; [intros _ it Hi; by apply elem_of_nil in Hi|].
    destruct (test (it_data c)) eqn:Ht; [done|]. intros Hl it [->|Hi]%elem_of_cons; [done|by apply IH].
Qed.

(** * Moving to new buckets *)

(** Every item sits in the bucket of its hash. *)
Definition placed (n : Z) (bs : list (list LHASH_ITEM)) : Prop :=
  ∀ i chain it, bs !! i = Some chain → it ∈ chain → Z.to_nat (it_hash it mod n) = i.

Lemma bucket_of n h (bs : list (list LHASH_ITEM)) :
  0 < n → lenZ bs = n → ∃ chain, bs !! Z.to_nat (h mod n) = Some chain.
Proof. intros Hn Hl. apply lookup_lt_is_Some_2. unfold lenZ in Hl. lia. Qed.

Lemma alter_insert {A} (f : A → A) i (l : list A) x : l !! i = Some x → alter f i l = <[i := f x]> l.
Proof.
  intros Hx. apply list_eq. intros j. destruct (decide (i = j)) as [->|].
  - rewrite list_lookup_alter_eq, list_lookup_insert_eq, Hx; [done|by apply lookup_lt_Some in Hx].
  - by rewrite list_lookup_alter_ne, list_lookup_insert_ne.
Qed.

Lemma rebucket_item_spec n bs it :
  0 < n → lenZ bs = n → placed n bs →
  lenZ (rebucket_item n bs it) = n ∧ placed n (rebucket_item n bs it) ∧
  concat (rebucket_item n bs it) ≡ₚ it :: concat bs.
Proof.
  intros Hn Hl Hp. destruct (bucket_of n (it_hash it) bs Hn Hl) as [chain Hc]. unfold rebucket_item.
  split; [unfold lenZ in *; by rewrite length_alter|]. split.
  - intros i c x Hi Hx. destruct (decide (Z.to_nat (it_hash it mod n) = i)) as [He|Hne].
    + subst i. rewrite list_lookup_alter_eq, Hc in Hi. cbn in Hi. injection Hi as <-.
      apply elem_of_cons in Hx as [->|Hx]; [done|]. rewrite (Hp _ _ _ Hc Hx). done.
    + rewrite list_lookup_alter_ne in Hi by done. by eapply Hp.
  - rewrite (alter_insert _ _ _ _ Hc). destruct (concat_bucket bs _ _ Hc) as (rest & H1 & H2).
    rewrite H2, H1. done.
Qed.

Lemma rebucket_fold_spec n its bs :
  0 < n → lenZ bs = n → placed n bs →
  let bs' := fold_left (rebucket_item n) its bs in
  lenZ bs' = n ∧ placed n bs' ∧ concat bs' ≡ₚ its ++ concat bs.
Proof.
  intros Hn. revert bs. induction its as [|it its IH]; intros bs Hl Hp; cbn; [done|].
  destruct (rebucket_item_spec n bs it Hn Hl Hp) as (H1 & H2 & H3).
  destruct (IH _ H1 H2) as (H4 & H5 & H6). split_and!; [done..|]. rewrite H6, H3.
  by rewrite Permutation_middle.
Qed.

Lemma fold_left_concat {A B} (f : A → B → A) (l : list (list B)) a :
  fold_left (λ a c, fold_left f c a) l a = fold_left f (concat l) a.
Proof. revert a. induction l as [|c l IH]; intros a; cbn; [done|]. by rewrite fold_left_app, IH. Qed.

Lemma placed_empty n k : placed n (replicate k []).
Proof. intros i c it [-> _]%lookup_replicate Hi. by apply elem_of_nil in Hi. Qed.
Lemma concat_empty {A} k : concat (replicate k (@nil A)) = [].
Proof. by induction k. Qed.

(** A table with the same items in other places. *)
Lemma lh_wf_perm lh n bs :
  lh_wf lh → lenZ bs = n → kMinNumBuckets <= n → 8 * n < 2 ^ 64 → placed n bs →
  concat bs ≡ₚ lh_items lh → lh_wf (set_buckets lh n bs).
Proof.
  intros [Hi Hb Hn Hd Hh Hp Hk Ha Hr] Hl Hn1 Hn2 Hpl Hperm.
  assert (lh_items (set_buckets lh n bs) ≡ₚ lh_items lh) as Hit by done.
  split; cbn; try done.
  - rewrite Hi. unfold lenZ. by rewrite Hit.
  - intros it. rewrite Hit. apply Hh.
  - by rewrite Hit.
  - by rewrite Hit.
  - intros it. rewrite Hit. apply Hr.
Qed.

Lemma lh_rebucket_spec lh n :
  lh_wf lh → kMinNumBuckets <= n < 2 ^ 64 →
  lh_wf (lh_rebucket lh n) ∧ lh_items (lh_rebucket lh n) ≡ₚ lh_items lh.
Proof.
  intros Hwf Hn. unfold lh_rebucket, kMinNumBuckets in *.
  destruct (Z.eqb_spec (size_t (8 * n) / 8) n) as [He|]; cbn [negb]; [|done].
  destruct (OPENSSL_malloc _); [|done]. rewrite fold_left_concat.
  destruct (rebucket_fold_spec n (concat (buckets lh)) (replicate (Z.to_nat n) [])) as (H1 & H2 & H3);
    [lia|rewrite lenZ_replicate; lia|apply placed_empty|].
  rewrite concat_empty, app_nil_r in H3. split; [|done].
  apply lh_wf_perm; [done|done|unfold kMinNumBuckets; lia|mlia|done|done].
Qed.

Lemma lh_maybe_resize_depth lh : callback_depth (lh_maybe_resize lh) = callback_depth lh.
Proof.
  assert (∀ n, callback_depth (lh_rebucket lh n) = callback_depth lh) as Hr.
  { intros n. unfold lh_rebucket. destruct (negb _); [done|]. by destruct (OPENSSL_malloc _). }
  unfold lh_maybe_resize. destruct (_ <? callback_depth lh); [done|].
  destruct (_ <? _); [destruct (_ <? _); [apply Hr|done]|]. destruct (_ && _); [apply Hr|done].
Qed.

Lemma lh_maybe_resize_spec lh :
  lh_wf lh → lh_wf (lh_maybe_resize lh) ∧ lh_items (lh_maybe_resize lh) ≡ₚ lh_items lh.
Proof.
  intros Hwf. unfold lh_maybe_resize. destruct (_ <? callback_depth lh); [done|].
  destruct (wf_num_buckets lh Hwf) as [Hn1 Hn2]. unfold kMinNumBuckets in *. rewrite pow2_64 in Hn2.
  destruct (_ <? _).
  - destruct (Z.ltb_spec (num_buckets lh) (size_t (num_buckets lh * 2))); [|done].
    apply lh_rebucket_spec; [done|]. unfold kMinNumBuckets. mlia.
  - destruct (_ && _); [|done]. apply lh_rebucket_spec; [done|]. unfold kMinNumBuckets. rewrite pow2_64.
    destruct (Z.ltb_spec (num_buckets lh / 2) 16); lia.
Qed.

(** * Finding the place of a key *)

Lemma get_next_ptr_spec lh h k test :
  lh_wf lh → 
  (∀ it, it ∈ lh_items lh → test (it_data it) = true ↔ it_key it = k) →
  (∀ it, it ∈ lh_items lh → it_key it = k → it_hash it = h) →
  let '(b, chain, pos) := get_next_ptr lh h test in
  b = Z.to_nat (h mod num_buckets lh) ∧ buckets lh !! b = Some chain ∧
  match chain !! pos with
  | Some it => it ∈ lh_items lh ∧ it_key it = k ∧ chain = take pos chain ++ it :: drop (S pos) chain
  | None => k ∉ map it_key (lh_items lh)
  end.
Proof.
  intros Hwf Ht Hh. unfold get_next_ptr. destruct (wf_num_buckets lh Hwf) as [Hn _]. unfold kMinNumBuckets in Hn.
  destruct (bucket_of (num_buckets lh) h (buckets lh)) as [chain Hc]; [lia|apply Hwf|].
  rewrite Hc. cbn [from_option id]. split; [done|]. split; [done|].
  destruct (concat_bucket _ _ _ Hc) as (rest & Hperm & _). fold (lh_items lh) in Hperm.
  pose proof (chain_pos_spec test chain) as Hs. destruct (chain !! _) as [it|] eqn:Hl.
  - destruct Hs as [Hit Hsplit].
    assert (it ∈ lh_items lh) as Hin.
    { rewrite Hperm. apply elem_of_app. left. by eapply list_elem_of_lookup_2. }
    split; [done|]. split; [by apply Ht|done].
  - intros (it & Hk & Hin)%list_elem_of_fmap.
    unfold lh_items in Hin. apply list_elem_of_In, in_concat in Hin as (c & Hcin & Hitc).
    apply list_elem_of_In, list_elem_of_lookup_1 in Hcin as [i Hi]. apply list_elem_of_In in Hitc.
    assert (it ∈ lh_items lh) as Hin.
    { destruct (concat_bucket _ _ _ Hi) as (r & Hp & _). unfold lh_items. rewrite Hp. apply elem_of_app. by left. }
    pose proof (wf_place lh Hwf i c it Hi Hitc) as Hpl. rewrite (Hh it Hin (eq_sym Hk)) in Hpl. subst i.
    rewrite Hc in Hi. injection Hi as ->. specialize (Hs it Hitc).
    symmetry in Hk; apply (Ht it Hin) in Hk as Hk'. congruence.
Qed.

Lemma get_next_ptr_and_hash_spec lh d :
  lh_wf lh →
  let '(h, (b, chain, pos)) := get_next_ptr_and_hash lh_hash lh_comp lh d in
  h = lh_hash d ∧ b = Z.to_nat (lh_hash d mod num_buckets lh) ∧ buckets lh !! b = Some chain ∧
  match chain !! pos with
  | Some it => it ∈ lh_items lh ∧ it_key it = key d ∧ chain = take pos chain ++ it :: drop (S pos) chain
  | None => key d ∉ map it_key (lh_items lh)
  end.
Proof.
  intros Hwf. unfold get_next_ptr_and_hash.
  pose proof (get_next_ptr_spec lh (lh_hash d) (key d) (λ cur, lh_comp cur d =? 0) Hwf) as Hs.
  destruct (get_next_ptr _ _ _) as [[b chain] pos]. split; [done|]. apply Hs.
  - intros it _. by rewrite Z.eqb_eq, comp_key.
  - intros it Hin Hk. rewrite (wf_hash lh Hwf it Hin). by apply hash_key.
Qed.

Lemma lh_map_in lh it : lh_wf lh → it ∈ lh_items lh → lh_map lh !! it_key it = Some (it_data it).
Proof. intros Hwf. apply items_map_in, Hwf. Qed.

(** A lookup is a lookup in the map. *)
Lemma retrieve_spec lh d :
  lh_wf lh → OPENSSL_lh_retrieve lh_hash lh_comp lh d = default NULL_data (lh_map lh !! key d).
Proof.
  intros Hwf. unfold OPENSSL_lh_retrieve. pose proof (get_next_ptr_and_hash_spec lh d Hwf) as Hs.
  destruct (get_next_ptr_and_hash _ _ _ _) as [h [[b chain] pos]]. destruct Hs as (_ & _ & _ & Hs).
  destruct (chain !! pos) as [it|].
  - destruct Hs as (Hin & <- & _). by rewrite lh_map_in.
  - unfold lh_map. by rewrite items_map_notin.
Qed.

Lemma retrieve_key_spec lh k h cmp_key :
  lh_wf lh → (∀ d, cmp_key d = 0 ↔ key d = k) → (∀ d, key d = k → lh_hash d = h) →
  OPENSSL_lh_retrieve_key lh h cmp_key = default NULL_data (lh_map lh !! k).
Proof.
  intros Hwf Hc Hh. unfold OPENSSL_lh_retrieve_key, get_next_ptr_by_key.
  pose proof (get_next_ptr_spec lh h k (λ cur, cmp_key cur =? 0) Hwf) as Hs.
  destruct (get_next_ptr _ _ _) as [[b chain] pos]. destruct Hs as (_ & _ & Hs).
  - intros it _. by rewrite Z.eqb_eq, Hc.
  - intros it Hin Hk. rewrite (wf_hash lh Hwf it Hin). by apply Hh.
  - destruct (chain !! pos) as [it|].
    + destruct Hs as (Hin & <- & _). by rewrite lh_map_in.
    + unfold lh_map. by rewrite items_map_notin.
Qed.

(** * Editing one chain *)

Lemma lh_wf_update lh b chain c' rest :
  lh_wf lh → buckets lh !! b = Some chain →
  let bs := <[b := c']> (buckets lh) in
  concat bs ≡ₚ c' ++ rest → lh_items lh ≡ₚ chain ++ rest →
  (∀ it, it ∈ c' → it ∈ chain ∨
    (it_hash it = lh_hash (it_data it) ∧ Z.to_nat (it_hash it mod num_buckets lh) = b ∧ 0 < it_addr it < 2 ^ 64)) →
  NoDup (map it_key (c' ++ rest)) → NoDup (map it_addr (c' ++ rest)) →
  lh_wf (set_num_items (set_buckets lh (num_buckets lh) bs) (lenZ (c' ++ rest))).
Proof.
  intros [Hi Hb Hn Hd Hh Hp Hk Ha Hr] Hc bs Hbs Hlh Hnew Hk' Ha'.
  assert (∀ it, it ∈ concat bs → it ∈ lh_items lh ∨
    (it_hash it = lh_hash (it_data it) ∧ 0 < it_addr it < 2 ^ 64)) as Hcase.
  { intros it. rewrite Hbs, Hlh, !elem_of_app. intros [Hit|?]; [|tauto]. apply Hnew in Hit. tauto. }
  split; cbn; try done.
  - unfold lh_items, lenZ. cbn. by rewrite Hbs.
  - unfold bs, lenZ in *. by rewrite length_insert.
  - intros it Hit. destruct (Hcase it Hit) as [?|[? _]]; [by apply Hh|done].
  - intros i c it Hi' Hit. unfold bs in Hi'. destruct (decide (b = i)) as [<-|Hne].
    + rewrite list_lookup_insert_eq in Hi' by (by eapply lookup_lt_Some). injection Hi' as <-.
      destruct (Hnew it Hit) as [?|(_ & ? & _)]; [by eapply Hp|done].
    + rewrite list_lookup_insert_ne in Hi' by done. by eapply Hp.
  - unfold lh_items. cbn. by rewrite Hbs.
  - unfold lh_items. cbn. by rewrite Hbs.
  - intros it Hit. destruct (Hcase it Hit) as [?|[_ ?]]; [by apply Hr|done].
Qed.

Lemma lh_map_perm lh its : lh_wf lh → lh_items lh ≡ₚ its → lh_map lh = items_map its.
Proof. intros Hwf. apply items_map_perm, Hwf. Qed.

Lemma lh_maybe_resize_map lh :
  lh_wf lh → lh_wf (lh_maybe_resize lh) ∧ lh_map (lh_maybe_resize lh) = lh_map lh.
Proof.
  intros Hwf. destruct (lh_maybe_resize_spec lh Hwf) as [H1 H2]. split; [done|]. by apply lh_map_perm.
Qed.

(** Addresses are words: there are fewer items than the size type counts. *)
Lemma addrs_bound (l : list Z) : NoDup l → (∀ a, a ∈ l → 0 < a < 2 ^ 64) → lenZ l < 2 ^ 64.
Proof.
  intros Hn Hr. assert (l ⊆+ seqZ 1 (2 ^ 64 - 1)) as Hs.
  { apply NoDup_submseteq; [done|]. intros a Ha. apply elem_of_seqZ. specialize (Hr a Ha). lia. }
  apply submseteq_length in Hs. rewrite length_seqZ in Hs. unfold lenZ.
  assert (0 < 2 ^ 64) by (rewrite pow2_64; lia). lia.
Qed.

(** The element that was there is replaced in place. *)
Lemma insert_replace lh b chain pos it d :
  lh_wf lh → buckets lh !! b = Some chain → chain !! pos = Some it → it_key it = key d →
  let it' := {| it_addr := it_addr it; it_data := d; it_hash := it_hash it |} in
  let lh' := set_buckets lh (num_buckets lh) (<[b := <[pos := it']> chain]> (buckets lh)) in
  lh_wf lh' ∧ lh_map lh' = <[key d := d]> (lh_map lh).
Proof.
  intros Hwf Hb Hpos Hkey it' lh'.
  destruct (concat_bucket _ _ _ Hb) as (rest & H1 & H2). fold (lh_items lh) in H1.
  assert (it_key it' = it_key it) as Hk' by by rewrite Hkey.
  assert (chain ≡ₚ it :: delete pos chain) as Hch by by apply delete_Permutation.
  assert (<[pos := it']> chain ≡ₚ it' :: delete pos chain) as Hch'.
  { rewrite insert_take_drop by (by apply lookup_lt_Some in Hpos). rewrite delete_take_drop.
    by rewrite Permutation_middle. }
  remember (delete pos chain) as others eqn:Ho. clear Ho.
  assert (it ∈ lh_items lh) as Hin by (rewrite H1, Hch; left).
  assert (NoDup (map it_key (<[pos := it']> chain ++ rest)) ∧ NoDup (map it_addr (<[pos := it']> chain ++ rest))) as [Hnk Hna].
  { rewrite Hch'. cbn [map app]. rewrite Hk'. change (it_addr it') with (it_addr it).
    split; [pose proof (wf_keys lh Hwf) as Hn|pose proof (wf_addrs lh Hwf) as Hn]; by rewrite H1, Hch in Hn. }
  assert (lenZ (<[pos := it']> chain ++ rest) = num_items lh) as Hlen.
  { rewrite (wf_items lh Hwf). unfold lenZ. rewrite H1, !length_app, length_insert. done. }
  split.
  - pose proof (lh_wf_update lh b chain (<[pos := it']> chain) rest Hwf Hb (H2 _) H1) as Hu. rewrite Hlen in Hu.
    apply Hu; [|done..]. intros x. rewrite Hch'. intros [->|Hx]%elem_of_cons; [right|left; rewrite Hch; by right].
    split; [|split; [by eapply (wf_place lh Hwf b chain it Hb), list_elem_of_lookup_2|exact (wf_addr lh Hwf it Hin)]].
    cbn. rewrite (wf_hash lh Hwf it Hin). by apply hash_key.
  - rewrite (lh_map_perm lh (it :: others ++ rest)) by (done || by rewrite H1, Hch).
    unfold lh_map. rewrite (items_map_perm _ (it' :: others ++ rest)).
    + rewrite !items_map_cons, Hk', Hkey. cbn [it_data it']. by rewrite insert_insert_eq.
    + unfold lh_items. cbn. by rewrite H2.
    + unfold lh_items. cbn. by rewrite H2, Hch'.
Qed.

(** A new element goes to the end of its chain. *)
Lemma insert_append lh b chain d a :
  lh_wf lh → buckets lh !! b = Some chain → b = Z.to_nat (lh_hash d mod num_buckets lh) →
  key d ∉ map it_key (lh_items lh) → new_addr (map it_addr (lh_items lh)) = Some a →
  let it := {| it_addr := a; it_data := d; it_hash := lh_hash d |} in
  let lh' := set_num_items (set_buckets lh (num_buckets lh) (<[b := chain ++ [it]]> (buckets lh)))
               (size_t (num_items lh + 1)) in
  lh_wf lh' ∧ lh_map lh' = <[key d := d]> (lh_map lh).
Proof.
  intros Hwf Hb Hbk Hnin Ha it lh'. apply new_addr_fresh in Ha as [Hfresh Har].
  destruct (concat_bucket _ _ _ Hb) as (rest & H1 & H2). fold (lh_items lh) in H1.
  assert ((chain ++ [it]) ++ rest ≡ₚ it :: lh_items lh) as Hp.
  { rewrite H1, <-app_assoc. cbn. by rewrite Permutation_middle. }
  assert (NoDup (map it_key ((chain ++ [it]) ++ rest))) as Hnk.
  { rewrite Hp. cbn. apply NoDup_cons. split; [done|apply Hwf]. }
  assert (NoDup (map it_addr ((chain ++ [it]) ++ rest))) as Hna.
  { rewrite Hp. cbn. apply NoDup_cons. split; [done|apply Hwf]. }
  assert (lenZ ((chain ++ [it]) ++ rest) = num_items lh + 1) as Hlen.
  { rewrite (wf_items lh Hwf). unfold lenZ. rewrite Hp. cbn [length]. lia. }
  assert (num_items lh + 1 < 2 ^ 64) as Hsmall.
  { rewrite <-Hlen. replace (lenZ _) with (lenZ (map it_addr ((chain ++ [it]) ++ rest)))
      by (unfold lenZ; by rewrite length_map).
    apply addrs_bound; [done|]. intros x. rewrite Hp. cbn [map]. intros [->|Hx]%elem_of_cons; [done|].
    apply list_elem_of_fmap in Hx as (y & -> & Hy). by apply (wf_addr lh Hwf). }
  assert (size_t (num_items lh + 1) = num_items lh + 1) as Hsz.
  { apply wrap_small. rewrite (wf_items lh Hwf) in *. llia. }
  split.
  - pose proof (lh_wf_update lh b chain (chain ++ [it]) rest Hwf Hb (H2 _) H1) as Hu.
    rewrite Hlen, <-Hsz in Hu. apply Hu; [|done..].
    intros x [Hx|Hx]%elem_of_app; [by left|right]. apply list_elem_of_singleton in Hx as ->. done.
  - unfold lh_map. rewrite (items_map_perm _ (it :: lh_items lh)); [done|..];
      unfold lh_items at 1; cbn; by rewrite H2.
Qed.

Lemma insert_spec lh d :
  lh_wf lh →
  let '(r, old, lh') := OPENSSL_lh_insert lh_hash lh_comp lh d in
  lh_wf lh' ∧
  ((r = 1 ∧ lh_map lh' = <[key d := d]> (lh_map lh) ∧ old = default NULL_data (lh_map lh !! key d)) ∨
   (r = 0 ∧ old = NULL_data ∧ lh' = lh ∧ lh_map lh !! key d = None ∧
    new_addr (map it_addr (lh_items lh)) = None)).
Proof.
  intros Hwf. unfold OPENSSL_lh_insert. pose proof (get_next_ptr_and_hash_spec lh d Hwf) as Hs.
  destruct (get_next_ptr_and_hash _ _ _ _) as [h [[b chain] pos]]. destruct Hs as (-> & Hb & Hc & Hs).
  destruct (chain !! pos) as [it|] eqn:Hpos.
  - destruct Hs as (Hin & Hk & _). destruct (insert_replace lh b chain pos it d Hwf Hc Hpos Hk) as [H1 H2].
    split; [done|]. left. rewrite <-Hk at 2. by rewrite lh_map_in.
  - assert (lh_map lh !! key d = None) as Hnone by by apply items_map_notin.
    destruct (new_addr _) as [a|] eqn:Ha; [|split; [done|by right]].
    destruct (insert_append lh b chain d a Hwf Hc Hb Hs Ha) as [H1 H2].
    apply lh_maybe_resize_map in H1 as [H3 H4]. split; [exact H3|]. left.
    split; [done|]. split; [exact (eq_trans H4 H2)|by rewrite Hnone].
Qed.

Lemma delete_spec lh d :
  lh_wf lh →
  let '(r, lh') := OPENSSL_lh_delete lh_hash lh_comp lh d in
  lh_wf lh' ∧ r = default NULL_data (lh_map lh !! key d) ∧ lh_map lh' = delete (key d) (lh_map lh).
Proof.
  intros Hwf. unfold OPENSSL_lh_delete. pose proof (get_next_ptr_and_hash_spec lh d Hwf) as Hs.
  destruct (get_next_ptr_and_hash _ _ _ _) as [h [[b chain] pos]]. destruct Hs as (_ & Hb & Hc & Hs).
  destruct (chain !! pos) as [it|] eqn:Hpos.
  2:{ unfold lh_map. rewrite items_map_notin by done. split_and!; [done|done|].
      rewrite delete_id; [done|]. by apply items_map_notin. }
  destruct Hs as (Hin & Hk & _). destruct (concat_bucket _ _ _ Hc) as (rest & H1 & H2). fold (lh_items lh) in H1.
  rewrite <-delete_take_drop.
  assert (chain ≡ₚ it :: delete pos chain) as Hch by by apply delete_Permutation.
  remember (delete pos chain) as others eqn:Ho. clear Ho.
  assert (lh_items lh ≡ₚ it :: others ++ rest) as Hp by by rewrite H1, Hch.
  assert (NoDup (map it_key (it :: others ++ rest))) as Hnk by (rewrite <-Hp; apply Hwf).
  assert (NoDup (map it_addr (it :: others ++ rest))) as Hna by (rewrite <-Hp; apply Hwf).
  cbn [map] in Hnk, Hna. apply NoDup_cons in Hnk as [Hni Hnk]. apply NoDup_cons in Hna as [_ Hna].
  assert (num_items lh - 1 = lenZ (others ++ rest)) as Hlen.
  { rewrite (wf_items lh Hwf). unfold lenZ. rewrite Hp. cbn [length]. lia. }
  assert (size_t (num_items lh - 1) = num_items lh - 1) as Hsz.
  { apply wrap_small. split; [rewrite Hlen; llia|]. rewrite Hlen.
    replace (lenZ _) with (lenZ (map it_addr (others ++ rest))) by (unfold lenZ; by rewrite length_map).
    apply addrs_bound; [done|]. intros x Hx. apply list_elem_of_fmap in Hx as (y & -> & Hy).
    apply (wf_addr lh Hwf). rewrite Hp. by right. }
  pose proof (lh_wf_update lh b chain (others) rest Hwf Hc (H2 _) H1) as Hu. rewrite <-Hlen, <-Hsz in Hu.
  destruct (lh_maybe_resize_map _ (Hu ltac:(intros x Hx; left; rewrite Hch; by right) Hnk Hna)) as [H3 H4].
  split; [exact H3|]. rewrite <-Hk, (lh_map_in lh it Hwf Hin). split; [done|]. etrans; [exact H4|].
  rewrite (lh_map_perm lh _ Hwf Hp). rewrite items_map_cons, delete_insert_id by by apply items_map_notin.
  unfold lh_map, lh_items. cbn. apply items_map_perm; rewrite H2; done.
Qed.

(** * Iterating with a callback that keeps or deletes the element it is given *)

Lemma chain_deref_app l1 it l2 :
  it_addr it ∉ map it_addr l1 → chain_deref (l1 ++ it :: l2) (it_addr it) = Some (it, it_addr <$> head l2).
Proof.
  induction l1 as [|c l1 IH]; cbn; intros Hn; [by rewrite Z.eqb_refl|].
  apply not_elem_of_cons in Hn as [Hne Hn]. destruct (Z.eqb_spec (it_addr c) (it_addr it)); [done|by apply IH].
Qed.
Lemma chain_deref_none l a : a ∉ map it_addr l → chain_deref l a = None.
Proof.
  induction l as [|c l IH]; cbn; [done|]. intros [Hne Hn]%not_elem_of_cons.
  destruct (Z.eqb_spec (it_addr c) a); [done|by apply IH].
Qed.

Lemma deref_spec bs i l1 it l2 :
  NoDup (map it_addr (concat bs)) → bs !! i = Some (l1 ++ it :: l2) →
  deref bs (it_addr it) = Some (it, it_addr <$> head l2).
Proof.
  revert i. induction bs as [|c bs IH]; intros [|i] Hn Hi; cbn in *; try done.
  - injection Hi as ->. rewrite chain_deref_app; [done|]. rewrite !map_app in Hn. cbn in Hn.
    rewrite <-app_assoc in Hn. apply NoDup_app in Hn as (_ & Hd & _). intros Hin. apply (Hd _ Hin). by left.
  - rewrite map_app in Hn. apply NoDup_app in Hn as (_ & Hd & Hn). rewrite chain_deref_none; [by eapply IH|].
    intros Hin. apply (Hd _ Hin). apply list_elem_of_fmap. exists it. split; [done|].
    destruct (concat_bucket _ _ _ Hi) as (r & Hp & _). rewrite Hp. apply elem_of_app. left. apply elem_of_app. right. by left.
Qed.

Lemma chain_pos_app test l1 it l2 :
  (∀ x, x ∈ l1 → test (it_data x) = false) → test (it_data it) = true →
  chain_pos test (l1 ++ it :: l2) = length l1.
Proof.
  induction l1 as [|c l1 IH]; cbn; intros Hf Ht; [by rewrite Ht|]. rewrite Hf by left.
  f_equal. apply IH; [|done]. intros x Hx. apply Hf. by right.
Qed.

(** While an iteration runs, a deletion only unlinks the item. *)
Lemma delete_unlinks lh i l1 it l2 :
  lh_wf lh → 0 < callback_depth lh → buckets lh !! i = Some (l1 ++ it :: l2) →
  let lh' := (OPENSSL_lh_delete lh_hash lh_comp lh (it_data it)).2 in
  buckets lh' = <[i := l1 ++ l2]> (buckets lh) ∧ num_buckets lh' = num_buckets lh ∧
  callback_depth lh' = callback_depth lh.
Proof.
  intros Hwf Hdepth Hi. assert (it ∈ l1 ++ it :: l2) as Hin by (apply elem_of_app; right; by left).
  assert (it ∈ lh_items lh) as Hil.
  { destruct (concat_bucket _ _ _ Hi) as (r & Hp & _). unfold lh_items. rewrite Hp. apply elem_of_app. by left. }
  pose proof (wf_place lh Hwf _ _ _ Hi Hin) as Hpl. rewrite (wf_hash lh Hwf it Hil) in Hpl.
  unfold OPENSSL_lh_delete, get_next_ptr_and_hash, get_next_ptr. rewrite Hpl, Hi. cbn [from_option id].
  rewrite chain_pos_app.
  - rewrite list_lookup_middle by done. unfold lh_maybe_resize. cbn.
    destruct (Z.ltb_spec 0 (callback_depth lh)); [|lia]. cbn. split; [|done].
    rewrite take_app_length. do 2 f_equal. rewrite (cons_middle it l1 l2), app_assoc, drop_app_length'; [done|].
    rewrite length_app. cbn. lia.
  - intros x Hx. apply Z.eqb_neq. rewrite comp_key. intros Hk. pose proof (wf_keys lh Hwf) as Hn.
    destruct (concat_bucket _ _ _ Hi) as (r & Hp & _). unfold lh_items in Hn. rewrite Hp, !map_app in Hn.
    apply NoDup_app in Hn as (Hn & _). apply NoDup_app in Hn as (_ & Hd & _). cbn in Hd.
    apply (Hd (it_key x)); [by apply list_elem_of_fmap; exists x|]. apply elem_of_cons. by left.
  - apply Z.eqb_eq, comp_key. done.
Qed.

Section keep_or_delete.
Context {E : Type} (drop : Z → E → bool) (upd : Z → E → E).

Definition keep_or_delete (d : Z) (st : E * LHASH) : E * LHASH :=
  (upd d st.1, if drop d st.1 then (OPENSSL_lh_delete lh_hash lh_comp st.2 d).2 else st.2).

(** One visit, on the map. *)
Definition visit (st : E * gmap K Z) (it : LHASH_ITEM) : E * gmap K Z :=
  (upd (it_data it) st.1, if drop (it_data it) st.1 then delete (it_key it) st.2 else st.2).

Lemma doall_chain_spec i rest kept fuel e lh :
  lh_wf lh → 0 < callback_depth lh → buckets lh !! i = Some (kept ++ rest) → (length rest <= fuel)%nat →
  ∃ e' lh', doall_chain keep_or_delete fuel (it_addr <$> head rest) (e, lh) = Some (e', lh') ∧
    lh_wf lh' ∧ callback_depth lh' = callback_depth lh ∧ num_buckets lh' = num_buckets lh ∧
    (∀ j, j ≠ i → buckets lh' !! j = buckets lh !! j) ∧
    (e', lh_map lh') = fold_left visit rest (e, lh_map lh).
Proof.
  revert kept fuel e lh. induction rest as [|it rest IH]; intros kept fuel e lh Hwf Hd Hi Hf; cbn [head fmap option_fmap option_map].
  { exists e, lh. by destruct fuel. }
  destruct fuel as [|fuel]; [cbn in Hf; lia|]. cbn [doall_chain].
  rewrite (deref_spec _ i kept it rest) by (done || apply Hwf). cbn [mbind option_bind fold_left].
  set (st := keep_or_delete (it_data it) (e, lh)).
  assert (lh_wf st.2 ∧ callback_depth st.2 = callback_depth lh ∧ num_buckets st.2 = num_buckets lh ∧
    (∀ j, j ≠ i → buckets st.2 !! j = buckets lh !! j) ∧ (∃ kept', buckets st.2 !! i = Some (kept' ++ rest)) ∧
    (st.1, lh_map st.2) = visit (e, lh_map lh) it) as (H1 & H2 & H3 & H4 & [kept' H5] & H6).
  { unfold st, keep_or_delete, visit. cbn [fst snd]. destruct (drop (it_data it) e).
    - pose proof (delete_spec lh (it_data it) Hwf) as Hs.
      destruct (delete_unlinks lh i kept it rest Hwf Hd Hi) as (Hb & Hnb & Hcd).
      destruct (OPENSSL_lh_delete _ _ _ _) as [r lh1]. destruct Hs as (Hwf1 & _ & Hm). cbn [snd] in *.
      split_and!; try done; [..|by rewrite Hm].
      + intros j Hj. by rewrite Hb, list_lookup_insert_ne.
      + exists kept. rewrite Hb. apply list_lookup_insert_eq. by eapply lookup_lt_Some.
    - split_and!; try done. exists (kept ++ [it]). by rewrite <-app_assoc. }
  destruct st as [e1 lh1]. cbn [fst snd] in *.
  destruct (IH kept' fuel e1 lh1) as (e2 & lh2 & H7 & H8 & H9 & H10 & H11 & H12); [done|lia|done|cbn in Hf; lia|].
  exists e2, lh2. split_and!; [done|done|lia|lia| |by rewrite H12, H6].
  intros j Hj. by rewrite H11, H4.
Qed.

Lemma doall_buckets_spec fuel m n i e lh :
  lh_wf lh → 0 < callback_depth lh → 0 <= i → num_buckets lh = i + Z.of_nat m → (m <= n)%nat →
  (∀ j chain, (Z.to_nat i <= j)%nat → buckets lh !! j = Some chain → (length chain <= fuel)%nat) →
  ∃ e' lh', doall_buckets keep_or_delete fuel n i (e, lh) = Some (e', lh') ∧
    lh_wf lh' ∧ callback_depth lh' = callback_depth lh ∧ num_buckets lh' = num_buckets lh ∧
    (e', lh_map lh') = fold_left visit (concat (list.drop (Z.to_nat i) (buckets lh))) (e, lh_map lh).
Proof.
  revert n i e lh. induction m as [|m IH]; intros n i e lh Hwf Hd Hi Hn Hmn Hf;
    pose proof (wf_buckets lh Hwf) as Hl.
  - exists e, lh. rewrite drop_ge by (unfold lenZ in Hl; lia).
    destruct n; cbn [doall_buckets snd]; (destruct (Z.ltb_spec i (num_buckets lh)); [lia|done]).
  - destruct n as [|n]; [lia|]. cbn [doall_buckets snd]. destruct (Z.ltb_spec i (num_buckets lh)); [|lia].
    destruct (lookup_lt_is_Some_2 (buckets lh) (Z.to_nat i)) as [chain Hc]; [unfold lenZ in Hl; lia|].
    rewrite Hc. cbn [mbind option_bind].
    destruct (doall_chain_spec (Z.to_nat i) chain [] fuel e lh) as (e1 & lh1 & H1 & H2 & H3 & H4 & H5 & H6);
      [done|lia|done|by eapply Hf; [|exact Hc]|]. rewrite H1. cbn [mbind option_bind].
    destruct (IH n (i + 1) e1 lh1) as (e2 & lh2 & H7 & H8 & H9 & H10 & H11); [done|lia|lia|lia|lia| |].
    + intros j c Hij Hj. rewrite H5 in Hj by lia. eapply Hf; [|exact Hj]. lia.
    + exists e2, lh2. split_and!; [done|done|lia|lia|]. rewrite H11, H6, <-fold_left_app.
      rewrite (drop_S _ _ _ Hc). cbn [concat]. do 3 f_equal.
      replace (Z.to_nat (i + 1)) with (S (Z.to_nat i)) by lia.
      apply list_eq. intros j. rewrite !lookup_drop. apply H5. lia.
Qed.

Lemma set_depth_wf lh n : lh_wf lh → 0 <= n <= UINT_MAX → lh_wf (set_callback_depth lh n).
Proof. intros [] Hn. by split. Qed.

(** [OPENSSL_lh_doall_arg] with a callback that may delete the element it is
    given visits every element once, in order, reads no freed item and ends with the
    map from which those elements are gone; the table is resized only then. *)
Theorem doall_arg_spec fuel e lh :
  lh_wf lh → callback_depth lh < UINT_MAX - 1 →
  (length (buckets lh) <= fuel)%nat → (length (lh_items lh) <= fuel)%nat →
  ∃ e' lh', OPENSSL_lh_doall_arg keep_or_delete fuel e (Some lh) = Some (e', Some lh') ∧
    lh_wf lh' ∧ callback_depth lh' = callback_depth lh ∧
    (e', lh_map lh') = fold_left visit (lh_items lh) (e, lh_map lh).
Proof.
  intros Hwf Hd Hf1 Hf2. pose proof (wf_depth lh Hwf) as Hdw. unfold OPENSSL_lh_doall_arg.
  destruct (Z.ltb_spec (callback_depth lh) UINT_MAX); [|lia].
  set (lh0 := set_callback_depth lh (callback_depth lh + 1)).
  pose proof (wf_buckets lh Hwf) as Hbl. pose proof (wf_num_buckets lh Hwf) as Hnb. unfold lenZ in Hbl.
  destruct (doall_buckets_spec fuel (length (buckets lh)) fuel 0 e lh0) as (e1 & lh1 & H2 & H3 & H4 & H5 & H6);
    [by apply set_depth_wf; [done|lia]|cbn; lia|done|cbn; lia|done| |].
  { intros j chain _ Hj. destruct (concat_bucket _ _ _ Hj) as (r & Hp & _).
    fold (lh_items lh0) in Hp. change (lh_items lh0) with (lh_items lh) in Hp.
    rewrite Hp, length_app in Hf2. lia. }
  rewrite H2. cbn [mbind option_bind]. rewrite H4. cbn [callback_depth lh0 set_callback_depth].
  destruct (Z.ltb_spec (callback_depth lh + 1) UINT_MAX); [|lia].
  replace (u32 (callback_depth lh + 1 - 1)) with (callback_depth lh) by (unfold UINT_MAX in *; mlia).
  destruct (lh_maybe_resize_map (set_callback_depth lh1 (callback_depth lh))) as [H7 H8]; [by apply set_depth_wf|].
  eexists e1, _. split; [done|]. split; [done|]. rewrite H8. split; [|exact H6].
  by rewrite lh_maybe_resize_depth.
Qed.
End keep_or_delete.

Lemma new_spec lh : OPENSSL_lh_new = Some lh → lh_wf lh ∧ lh_map lh = ∅ ∧ callback_depth lh = 0.
Proof.
  unfold OPENSSL_lh_new. destruct (OPENSSL_malloc sizeof_LHASH); cbn; [|done].
  destruct (OPENSSL_malloc (8 * kMinNumBuckets)); cbn; [|done]. intros [= <-].
  split; [|done]. split; cbn [num_items buckets num_buckets callback_depth]; unfold UINT_MAX;
    rewrite ?pow2_64, ?pow2_32; try done; unfold lh_items; cbn [buckets]; rewrite ?concat_empty;
    try (by intros it Hit%elem_of_nil); try constructor; try done.
  exact (placed_empty kMinNumBuckets 16).
Qed.

(** C29. A hash table implements a finite map from keys to elements: looking up is a
    lookup, deleting a deletion, inserting an insertion or, when there is no memory
    for a new key, no change; each returns the element that was there, and chains,
    counts and resizing stay consistent. *)
Theorem lh_refines_map lh d :
  lh_wf lh →
  OPENSSL_lh_retrieve lh_hash lh_comp lh d = default NULL_data (lh_map lh !! key d) ∧
  (let '(r, lh') := OPENSSL_lh_delete lh_hash lh_comp lh d in
   lh_wf lh' ∧ r = default NULL_data (lh_map lh !! key d) ∧ lh_map lh' = delete (key d) (lh_map lh)) ∧
  (let '(r, old, lh') := OPENSSL_lh_insert lh_hash lh_comp lh d in
   lh_wf lh' ∧
   ((r = 1 ∧ lh_map lh' = <[key d := d]> (lh_map lh) ∧ old = default NULL_data (lh_map lh !! key d)) ∨
    (r = 0 ∧ old = NULL_data ∧ lh' = lh ∧ lh_map lh !! key d = None ∧
     new_addr (map it_addr (lh_items lh)) = None))).
Proof. intros Hwf. split_and!; [by apply retrieve_spec|by apply delete_spec|by apply insert_spec]. Qed.
End lhash_facts.

(** A table of numbers that are their own keys, hashed modulo 16. *)
Definition hash16 (d : Z) : Z := d mod 16.
Definition comp_sub (a b : Z) : Z := a - b.

Lemma comp_sub_key a b : comp_sub a b = 0 ↔ a = b.
Proof. unfold comp_sub. lia. Qed.
Lemma hash16_key a b : a = b → hash16 a = hash16 b.
Proof. by intros ->. Qed.
Lemma hash16_fits a : fits 32 (hash16 a).
Proof. unfold hash16. mlia. Qed.

Definition empty_table : LHASH :=
  {| num_items := 0; buckets := replicate 16 []; num_buckets := 16; callback_depth := 0 |}.

Lemma empty_table_wf : lh_wf hash16 id empty_table.
Proof. apply (@new_spec calloc_libc hash16 Z _ _ id empty_table). vm_compute. reflexivity. Qed.

Lemma lh_refines_map_witness :
  @OPENSSL_lh_retrieve hash16 comp_sub empty_table 7 = default NULL_data (lh_map id empty_table !! 7) ∧
  (let '(r, lh') := @OPENSSL_lh_delete calloc_libc hash16 comp_sub empty_table 7 in
   lh_wf hash16 id lh' ∧ r = default NULL_data (lh_map id empty_table !! 7) ∧
   lh_map id lh' = delete 7 (lh_map id empty_table)) ∧
  (let '(r, old, lh') := @OPENSSL_lh_insert calloc_libc counting_alloc hash16 comp_sub empty_table 7 in
   lh_wf hash16 id lh' ∧
   ((r = 1 ∧ lh_map id lh' = <[7 := 7]> (lh_map id empty_table) ∧
     old = default NULL_data (lh_map id empty_table !! 7)) ∨
    (r = 0 ∧ old = NULL_data ∧ lh' = empty_table ∧ lh_map id empty_table !! 7 = None ∧
     @new_addr counting_alloc (map it_addr (lh_items empty_table)) = None))).
Proof.
  apply (@lh_refines_map calloc_libc counting_alloc hash16 comp_sub Z _ _ id comp_sub_key hash16_key hash16_fits
    empty_table 7 empty_table_wf).
Defined.

(** With 7 and 8 inserted. *)
Definition table_78 : LHASH :=
  let insert lh d := (@OPENSSL_lh_insert calloc_libc counting_alloc hash16 comp_sub lh d).2 in
  insert (insert empty_table 7) 8.

Lemma insert_wf lh d :
  lh_wf hash16 id lh → lh_wf hash16 id (@OPENSSL_lh_insert calloc_libc counting_alloc hash16 comp_sub lh d).2.
Proof.
  intros Hwf. pose proof (@insert_spec calloc_libc counting_alloc hash16 comp_sub Z _ _ id comp_sub_key hash16_key
    hash16_fits lh d Hwf) as H.
  destruct (OPENSSL_lh_insert _ _ _ _) as [[r old] lh']. apply H.
Qed.

Lemma table_78_wf : lh_wf hash16 id table_78.
Proof. apply insert_wf, insert_wf, empty_table_wf. Qed.

(** Adding the elements up and deleting the even ones. *)
Lemma doall_arg_spec_witness :
  let drop d (_ : Z) := Z.even d in
  ∃ e' lh', @OPENSSL_lh_doall_arg calloc_libc Z (@keep_or_delete calloc_libc hash16 comp_sub Z drop Z.add) 16 0
      (Some table_78) = Some (e', Some lh') ∧
    lh_wf hash16 id lh' ∧ callback_depth lh' = callback_depth table_78 ∧
    (e', lh_map id lh') = fold_left (visit id drop Z.add) (lh_items table_78) (0, lh_map id table_78).
Proof.
  intros drop. apply (@doall_arg_spec calloc_libc hash16 comp_sub Z _ _ id comp_sub_key hash16_key hash16_fits
    Z drop Z.add 16 0 table_78 table_78_wf); decide_now.
Defined.
