(* ===== verification/BioPair.v ===== *)
(** BIO pairs, two connected byte streams:
    src/HolyWater-Test/Pods/BoringSSL-GRPC/src/crypto/bio/pair.c, with the entry
    points of crypto/bio/bio.c and crypto/refcount_lock.c that reach it.

    The two halves point to each other, and reading from one changes the ring
    buffer of the other: the objects live in a heap, a map from addresses to
    [BIO]s.  A [struct bio_bio_st] belongs to one BIO and is stored inside it.
    An operation yields [None] where the code would dereference a pointer that
    does not point to a live object, or abort. *)
From stdpp Require Import gmap.
From S2P Require Import Prelude Mem.

(** [struct bio_bio_st] *)
Record bio_bio_st := {
  peer : option Z;
  closed : bool;
  len : Z;
  offset : Z;
  size : Z;
  buf : option bytes;
  request : Z;
}.

(** [struct bio_st], for a BIO whose method is [methods_biop] and that is alone
    in its chain. *)
Record BIO := {
  init : bool;
  shutdown : Z;
  flags : Z;
  retry_reason : Z;
  references : Z;
  ptr : bio_bio_st;
  num_read : Z;
  num_write : Z;
}.

Abbreviation heap := (gmap Z BIO).

Definition BIO_FLAGS_READ : Z := 0x01.
Definition BIO_FLAGS_WRITE : Z := 0x02.
Definition BIO_FLAGS_IO_SPECIAL : Z := 0x04.
Definition BIO_FLAGS_SHOULD_RETRY : Z := 0x08.
Definition BIO_FLAGS_RWS : Z := BIO_FLAGS_READ .| BIO_FLAGS_WRITE .| BIO_FLAGS_IO_SPECIAL.
Definition kRetryFlags : Z := BIO_FLAGS_RWS .| BIO_FLAGS_SHOULD_RETRY.
Definition sizeof_BIO : Z := 72.
Definition sizeof_bio_bio_st : Z := 56.

(** * Field updates *)

Definition set_ptr (bio : BIO) (b : bio_bio_st) : BIO :=
  {| init := init bio; shutdown := shutdown bio; flags := flags bio;
     retry_reason := retry_reason bio; references := references bio; ptr := b;
     num_read := num_read bio; num_write := num_write bio |}.
Definition set_flags (bio : BIO) (f reason : Z) : BIO :=
  {| init := init bio; shutdown := shutdown bio; flags := f; retry_reason := reason;
     references := references bio; ptr := ptr bio; num_read := num_read bio;
     num_write := num_write bio |}.
Definition set_counts (bio : BIO) (r w : Z) : BIO :=
  {| init := init bio; shutdown := shutdown bio; flags := flags bio;
     retry_reason := retry_reason bio; references := references bio; ptr := ptr bio;
     num_read := r; num_write := w |}.
Definition set_init (bio : BIO) (i : bool) (b : bio_bio_st) : BIO :=
  {| init := i; shutdown := shutdown bio; flags := flags bio;
     retry_reason := retry_reason bio; references := references bio; ptr := b;
     num_read := num_read bio; num_write := num_write bio |}.
Definition set_shutdown (bio : BIO) (n : Z) : BIO :=
  {| init := init bio; shutdown := n; flags := flags bio;
     retry_reason := retry_reason bio; references := references bio; ptr := ptr bio;
     num_read := num_read bio; num_write := num_write bio |}.
Definition set_references (bio : BIO) (n : Z) : BIO :=
  {| init := init bio; shutdown := shutdown bio; flags := flags bio;
     retry_reason := retry_reason bio; references := n; ptr := ptr bio;
     num_read := num_read bio; num_write := num_write bio |}.

Definition set_ring (b : bio_bio_st) (d : bytes) (l o : Z) : bio_bio_st :=
  {| peer := peer b; closed := closed b; len := l; offset := o; size := size b; buf := Some d;
     request := request b |}.
Definition set_request (b : bio_bio_st) (r : Z) : bio_bio_st :=
  {| peer := peer b; closed := closed b; len := len b; offset := offset b; size := size b;
     buf := buf b; request := r |}.
Definition set_closed (b : bio_bio_st) : bio_bio_st :=
  {| peer := peer b; closed := true; len := len b; offset := offset b; size := size b;
     buf := buf b; request := request b |}.
(** [peer = NULL], and the buffer emptied. *)
Definition unpair (b : bio_bio_st) : bio_bio_st :=
  {| peer := None; closed := closed b; len := 0; offset := 0; size := size b; buf := buf b;
     request := request b |}.
Definition pair_with (b : bio_bio_st) (p : Z) : bio_bio_st :=
  {| peer := Some p; closed := false; len := len b; offset := offset b; size := size b;
     buf := buf b; request := 0 |}.

Definition BIO_clear_retry_flags (bio : BIO) : BIO :=
  set_flags bio (Z.ldiff (flags bio) kRetryFlags) 0.
Definition BIO_set_retry_read (bio : BIO) : BIO :=
  set_flags bio (flags bio .| (BIO_FLAGS_READ .| BIO_FLAGS_SHOULD_RETRY)) (retry_reason bio).
Definition BIO_set_retry_write (bio : BIO) : BIO :=
  set_flags bio (flags bio .| (BIO_FLAGS_WRITE .| BIO_FLAGS_SHOULD_RETRY)) (retry_reason bio).

(** * The ring buffer *)

(** The loop of [bio_read] on the peer's ring [d]: bytes land in [out] at
    [pos].  [None] when the fuel runs out. *)
Fixpoint read_loop (fuel : nat) (sz : Z) (d : bytes) (l o : Z) (out : bytes) (pos rest : Z) :
    option (Z * Z * bytes) :=
  match fuel with
  | O => None
  | S fuel =>
      let chunk := if size_t (o + rest) <=? sz then rest else sz - o in
      let out := write_at out pos (takeZ chunk (dropZ o d)) in
      let l := l - chunk in
      let '(o, pos) :=
        if negb (l =? 0) then
          let o := o + chunk in
          (if o =? sz then 0 else o, pos + chunk)
        else (0, pos) in
      let rest := rest - chunk in
      if rest =? 0 then Some (l, o, out) else read_loop fuel sz d l o out pos rest
  end.

(** The loop of [bio_write]: the bytes of [src] that are left go into [d]. *)
Fixpoint write_loop (fuel : nat) (sz : Z) (d : bytes) (l o : Z) (src : bytes) (rest : Z) :
    option (Z * bytes) :=
  match fuel with
  | O => None
  | S fuel =>
      let write_offset := size_t (o + l) in
      let write_offset := if sz <=? write_offset then write_offset - sz else write_offset in
      let chunk := if size_t (write_offset + rest) <=? sz then rest else sz - write_offset in
      let d := write_at d write_offset (takeZ chunk src) in
      let l := l + chunk in
      let rest := rest - chunk in
      if rest =? 0 then Some (l, d) else write_loop fuel sz d l o (dropZ chunk src) rest
  end.

(** One or two iterations. *)
Definition ring_fuel : nat := 2.

(** * The methods *)

(** The returned count, the caller's buffer and the heap. *)
Definition bio_read (bio : Z) (out : option bytes) (size_ : Z) (h : heap) :
    option (Z * option bytes * heap) :=
  this ← h !! bio;
  let this := BIO_clear_retry_flags this in
  let h := <[bio := this]> h in
  if negb (init this) then Some (0, out, h)
  else
    peer_id ← peer (ptr this);
    peer_bio ← h !! peer_id;
    d ← buf (ptr peer_bio);
    let peer_b := set_request (ptr peer_bio) 0 in
    let h := <[peer_id := set_ptr peer_bio peer_b]> h in
    match out with
    | None => Some (0, out, h)
    | Some o =>
        if size_ =? 0 then Some (0, out, h)
        else if len peer_b =? 0 then
          if closed peer_b then Some (0, out, h)
          else
            this ← h !! bio;
            let h := <[bio := BIO_set_retry_read this]> h in
            peer_bio ← h !! peer_id;
            let req := if size_ <=? size peer_b then size_ else size peer_b in
            Some (-1, out, <[peer_id := set_ptr peer_bio (set_request (ptr peer_bio) req)]> h)
        else
          let n := if len peer_b <? size_ then len peer_b else size_ in
          '(l, off, o) ← read_loop ring_fuel (size peer_b) d (len peer_b) (offset peer_b) o 0 n;
          Some (n, Some o, <[peer_id := set_ptr peer_bio (set_ring peer_b d l off)]> h)
    end.

Definition bio_write (bio : Z) (src : option bytes) (num_ : Z) (h : heap) : option (Z * heap) :=
  this ← h !! bio;
  let this := BIO_clear_retry_flags this in
  let h := <[bio := this]> h in
  match src with
  | None => Some (0, h)
  | Some src =>
      if negb (init this) || (num_ =? 0) then Some (0, h)
      else
        _ ← peer (ptr this);
        d ← buf (ptr this);
        let b := set_request (ptr this) 0 in
        let h := <[bio := set_ptr this b]> h in
        if closed b then Some (-1, h)
        else if len b =? size b then
          Some (-1, <[bio := BIO_set_retry_write (set_ptr this b)]> h)
        else
          let num := if size b - len b <? num_ then size b - len b else num_ in
          '(l, d) ← write_loop ring_fuel (size b) d (len b) (offset b) src num;
          Some (num, <[bio := set_ptr this (set_ring b d l (offset b))]> h)
  end.

(** * The entry points *)

Definition BIO_read (bio : option Z) (out : option bytes) (n : Z) (h : heap) :
    option (Z * option bytes * heap) :=
  match bio with
  | None => Some (-2, out, h)
  | Some bio =>
      this ← h !! bio;
      if negb (init this) then Some (-2, out, h)
      else if n <=? 0 then Some (0, out, h)
      else
        '(ret, out, h) ← bio_read bio out n h;
        if 0 <? ret then
          this ← h !! bio;
          Some (ret, out, <[bio := set_counts this (size_t (num_read this + ret)) (num_write this)]> h)
        else Some (ret, out, h)
  end.

Definition BIO_write (bio : option Z) (src : option bytes) (n : Z) (h : heap) : option (Z * heap) :=
  match bio with
  | None => Some (-2, h)
  | Some bio =>
      this ← h !! bio;
      if negb (init this) then Some (-2, h)
      else if n <=? 0 then Some (0, h)
      else
        '(ret, h) ← bio_write bio src n h;
        if 0 <? ret then
          this ← h !! bio;
          Some (ret, <[bio := set_counts this (num_read this) (size_t (num_write this + ret))]> h)
        else Some (ret, h)
  end.

(** * Control *)

Definition BIO_CTRL_EOF : Z := 2.
Definition BIO_CTRL_GET_CLOSE : Z := 8.
Definition BIO_CTRL_SET_CLOSE : Z := 9.
Definition BIO_CTRL_PENDING : Z := 10.
Definition BIO_CTRL_FLUSH : Z := 11.
Definition BIO_CTRL_WPENDING : Z := 13.
Definition BIO_C_GET_WRITE_BUF_SIZE : Z := 137.
Definition BIO_C_GET_WRITE_GUARANTEE : Z := 140.
Definition BIO_C_GET_READ_REQUEST : Z := 141.
Definition BIO_C_SHUTDOWN_WR : Z := 142.
Definition BIO_C_RESET_READ_REQUEST : Z := 147.

Definition bool_to_Z (b : bool) : Z := if b then 1 else 0.
Definition has_peer (b : bio_bio_st) : bool := match peer b with Some _ => true | None => false end.

Definition bio_ctrl (bio cmd num : Z) (other : option Z) (h : heap) : option (Z * heap) :=
  this ← h !! bio;
  let b := ptr this in
  if cmd =? BIO_C_GET_WRITE_BUF_SIZE then Some (size b, h)
  else if cmd =? BIO_C_GET_WRITE_GUARANTEE then
    Some (if negb (has_peer b) || closed b then 0 else size b - len b, h)
  else if cmd =? BIO_C_GET_READ_REQUEST then Some (request b, h)
  else if cmd =? BIO_C_RESET_READ_REQUEST then Some (1, <[bio := set_ptr this (set_request b 0)]> h)
  else if cmd =? BIO_C_SHUTDOWN_WR then Some (1, <[bio := set_ptr this (set_closed b)]> h)
  else if cmd =? BIO_CTRL_GET_CLOSE then Some (shutdown this, h)
  else if cmd =? BIO_CTRL_SET_CLOSE then Some (1, <[bio := set_shutdown this num]> h)
  else if cmd =? BIO_CTRL_PENDING then
    match peer b with
    | Some p => peer_bio ← h !! p; Some (len (ptr peer_bio), h)
    | None => Some (0, h)
    end
  else if cmd =? BIO_CTRL_WPENDING then
    Some (match buf b with Some _ => len b | None => 0 end, h)
  else if cmd =? BIO_CTRL_FLUSH then Some (1, h)
  else if cmd =? BIO_CTRL_EOF then
    match other with
    | Some p =>
        other_bio ← h !! p;
        Some (bool_to_Z ((len (ptr other_bio) =? 0) && closed (ptr other_bio)), h)
    | None => Some (1, h)
    end
  else Some (0, h).

Definition BIO_ctrl (bio : option Z) (cmd larg : Z) (parg : option Z) (h : heap) : option (Z * heap) :=
  match bio with None => Some (0, h) | Some bio => bio_ctrl bio cmd larg parg h end.

Definition BIO_ctrl_get_read_request (bio : option Z) (h : heap) : option (Z * heap) :=
  BIO_ctrl bio BIO_C_GET_READ_REQUEST 0 None h.
Definition BIO_ctrl_get_write_guarantee (bio : option Z) (h : heap) : option (Z * heap) :=
  BIO_ctrl bio BIO_C_GET_WRITE_GUARANTEE 0 None h.
Definition BIO_shutdown_wr (bio : option Z) (h : heap) : option (Z * heap) :=
  BIO_ctrl bio BIO_C_SHUTDOWN_WR 0 None h.
Definition BIO_flush (bio : option Z) (h : heap) : option (Z * heap) := BIO_ctrl bio BIO_CTRL_FLUSH 0 None h.
Definition BIO_eof (bio : option Z) (h : heap) : option (Z * heap) := BIO_ctrl bio BIO_CTRL_EOF 0 None h.
Definition BIO_pending (bio : option Z) (h : heap) : option (Z * heap) :=
  '(r, h) ← BIO_ctrl bio BIO_CTRL_PENDING 0 None h; Some (if r <? 0 then 0 else r, h).
Definition BIO_wpending (bio : option Z) (h : heap) : option (Z * heap) :=
  '(r, h) ← BIO_ctrl bio BIO_CTRL_WPENDING 0 None h; Some (if r <? 0 then 0 else r, h).

(** * Creation and destruction *)

Definition CRYPTO_REFCOUNT_MAX : Z := 0xffffffff.

Definition CRYPTO_refcount_inc (count : Z) : Z :=
  if count <? CRYPTO_REFCOUNT_MAX then count + 1 else count.
Definition CRYPTO_refcount_dec_and_test_zero (count : Z) : option (Z * bool) :=
  if count =? 0 then None
  else
    let count := if count <? CRYPTO_REFCOUNT_MAX then count - 1 else count in
    Some (count, count =? 0).

Definition bio_destroy_pair (bio : Z) (h : heap) : option heap :=
  this ← h !! bio;
  match peer (ptr this) with
  | None => Some h
  | Some peer_id =>
      peer_bio ← h !! peer_id;
      let h := <[peer_id := set_init peer_bio false (unpair (ptr peer_bio))]> h in
      this ← h !! bio;
      Some (<[bio := set_init this false (unpair (ptr this))]> h)
  end.

Definition bio_free (bio : Z) (h : heap) : option heap :=
  this ← h !! bio;
  if has_peer (ptr this) then bio_destroy_pair bio h else Some h.

Definition BIO_up_ref (bio : Z) (h : heap) : option heap :=
  this ← h !! bio;
  Some (<[bio := set_references this (CRYPTO_refcount_inc (references this))]> h).

Definition BIO_free (bio : option Z) (h : heap) : option (Z * heap) :=
  match bio with
  | None => Some (1, h)
  | Some bio =>
      this ← h !! bio;
      '(refs, zero) ← CRYPTO_refcount_dec_and_test_zero (references this);
      let h := <[bio := set_references this refs]> h in
      if negb zero then Some (0, h)
      else
        h ← bio_free bio h;
        Some (1, delete bio h)
  end.

Section create.
Context {libc : Libc} {alloc : AddrAlloc}.

Definition bio_new : option bio_bio_st :=
  _ ← OPENSSL_malloc sizeof_bio_bio_st;
  Some {| peer := None; closed := false; len := 0; offset := 0; size := 17 * 1024; buf := None;
          request := 0 |}.

(** The address of the new BIO, if any. *)
Definition BIO_new (h : heap) : option Z * heap :=
  match OPENSSL_malloc sizeof_BIO with
  | None => (None, h)
  | Some _ =>
      match new_addr (elements (dom h)), bio_new with
      | Some a, Some b =>
          (Some a, <[a := {| init := false; shutdown := 1; flags := 0; retry_reason := 0;
                             references := 1; ptr := b; num_read := 0; num_write := 0 |}]> h)
      | _, _ => (None, h)
      end
  end.

(** [if (b->buf == NULL)]: give [b] its buffer. *)
Definition make_buf (b : bio_bio_st) (writebuf_len : Z) : bool * bio_bio_st :=
  match buf b with
  | Some _ => (true, b)
  | None =>
      let sz := if writebuf_len =? 0 then size b else writebuf_len in
      match OPENSSL_malloc sz with
      | None =>
          (false, {| peer := peer b; closed := closed b; len := len b; offset := offset b; size := sz;
                     buf := None; request := request b |})
      | Some d =>
          (true, {| peer := peer b; closed := closed b; len := 0; offset := 0; size := sz;
                    buf := Some d; request := request b |})
      end
  end.

Definition bio_make_pair (bio1 bio2 writebuf1_len writebuf2_len : Z) (h : heap) : option (Z * heap) :=
  this1 ← h !! bio1;
  this2 ← h !! bio2;
  if has_peer (ptr this1) || has_peer (ptr this2) then Some (0, h)
  else
    let '(ok1, b1) := make_buf (ptr this1) writebuf1_len in
    let h := <[bio1 := set_ptr this1 b1]> h in
    if negb ok1 then Some (0, h)
    else
      this2 ← h !! bio2;
      let '(ok2, b2) := make_buf (ptr this2) writebuf2_len in
      let h := <[bio2 := set_ptr this2 b2]> h in
      if negb ok2 then Some (0, h)
      else
        this1 ← h !! bio1;
        let h := <[bio1 := set_init this1 true (pair_with (ptr this1) bio2)]> h in
        this2 ← h !! bio2;
        Some (1, <[bio2 := set_init this2 true (pair_with (ptr this2) bio1)]> h).

(** The flag, [*bio1_p] and [*bio2_p]. *)
Definition BIO_new_bio_pair (writebuf1_len writebuf2_len : Z) (h : heap) :
    option (Z * option Z * option Z * heap) :=
  let '(bio1, h) := BIO_new h in
  let '(bio2, h) := BIO_new h in
  let undo (h : heap) :=
    '(_, h) ← BIO_free bio1 h;
    '(_, h) ← BIO_free bio2 h;
    Some (0, None, None, h) in
  match bio1, bio2 with
  | Some a1, Some a2 =>
      '(ok, h) ← bio_make_pair a1 a2 writebuf1_len writebuf2_len h;
      if ok =? 0 then undo h else Some (1, bio1, bio2, h)
  | _, _ => undo h
  end.
End create.

(** * The ring as a queue *)

(** The bytes written and not yet read, oldest first. *)
Definition queue (b : bio_bio_st) : bytes :=
  match buf b with
  | None => []
  | Some d => takeZ (len b) (dropZ (offset b) d ++ takeZ (offset b) d)
  end.

Record ring_wf (sz : Z) (d : bytes) (l o : Z) : Prop := {
  ring_len : lenZ d = sz;
  ring_size : 0 < sz < 2 ^ 62;
  ring_l : 0 <= l <= sz;
  ring_o : 0 <= o < sz;
}.

Definition ring (d : bytes) (l o : Z) : bytes := takeZ l (dropZ o d ++ takeZ o d).

Lemma lenZ_ring sz d l o : ring_wf sz d l o → lenZ (ring d l o) = l.
Proof.
  intros [Hd Hs Hl Ho]. unfold ring. apply lenZ_takeZ.
  rewrite lenZ_app, lenZ_dropZ, lenZ_takeZ; lia.
Qed.

(** Reading [c] bytes that do not wrap around. *)
Lemma ring_read_step sz d l o c :
  ring_wf sz d l o → 0 <= c <= l → o + c <= sz →
  let o' := if negb (l - c =? 0) then (if o + c =? sz then 0 else o + c) else 0 in
  takeZ c (dropZ o d) = takeZ c (ring d l o) ∧ ring_wf sz d (l - c) o' ∧
  ring d (l - c) o' = dropZ c (ring d l o).
Proof.
  intros [Hd Hs Hl Ho] Hc Hoc o'.
  destruct (cut_at d o c) as (x & m & y & -> & Hx & Hm); [lia..|]. rewrite !lenZ_app in Hd.
  assert (∀ k, ring (x ++ m ++ y) k o = takeZ k (m ++ y ++ x)) as Hr.
  { intros k. unfold ring. by rewrite dropZ_app, (takeZ_app x), <-app_assoc by lia. }
  assert (dropZ c (ring (x ++ m ++ y) l o) = takeZ (l - c) (y ++ x)) as Hdrop.
  { rewrite Hr. replace l with (lenZ m + (l - c)) at 1 by lia. rewrite takeZ_app_ge by lia.
    rewrite dropZ_app by lia. f_equal. lia. }
  split; [|split].
  - rewrite Hr, takeZ_takeZ, dropZ_app, !(takeZ_app m) by lia. done.
  - split; rewrite ?lenZ_app; [lia|done|lia|]. unfold o'. destruct (Z.eqb_spec (l - c) 0); cbn [negb]; [lia|].
    destruct (Z.eqb_spec (o + c) sz); lia.
  - rewrite Hdrop. unfold o'. destruct (Z.eqb_spec (l - c) 0) as [->|]; cbn [negb]; [done|].
    destruct (Z.eqb_spec (o + c) sz).
    + assert (y = []) as -> by (apply lenZ_0_nil; lia). unfold ring. rewrite dropZ_0, takeZ_0, !app_nil_r.
      rewrite app_nil_l. apply takeZ_app_le. lia.
    + unfold ring. rewrite app_assoc, dropZ_app, (takeZ_app (x ++ m) y) by (rewrite lenZ_app; lia).
      rewrite app_assoc. apply takeZ_app_le. rewrite lenZ_app. lia.
Qed.

(** Writing [s] where it does not wrap around. *)
Lemma ring_write_step sz d l o s :
  ring_wf sz d l o → 0 < lenZ s → l + lenZ s <= sz →
  let w := if sz <=? o + l then o + l - sz else o + l in
  w + lenZ s <= sz →
  ring_wf sz (write_at d w s) (l + lenZ s) o ∧ ring (write_at d w s) (l + lenZ s) o = ring d l o ++ s.
Proof.
  intros [Hd Hs Hl Ho] Hc Hls w Hw.
  split; [split; [rewrite lenZ_write_at; [done|unfold w; destruct (Z.leb_spec sz (o + l)); lia|lia]|lia..]|].
  unfold w in *. clear w. destruct (Z.leb_spec sz (o + l)) as [Hge|Hlt].
  - destruct (cut_at d o 0) as (x & e & y & -> & Hx & He); [lia..|].
    apply Z.eq_le_incl, lenZ_0_nil in He as ->. rewrite app_nil_l in *. rewrite lenZ_app in Hd.
    destruct (cut_at x (o + l - sz) (lenZ s)) as (x1 & x2 & x3 & -> & Hx1 & Hx2); [lia..|].
    rewrite !lenZ_app in Hx, Hd. rewrite <-!app_assoc, (write_at_app x1 x2 (x3 ++ y) s) by lia.
    unfold ring. rewrite (app_assoc x2 x3 y), (app_assoc x1 (x2 ++ x3) y).
    rewrite (app_assoc s x3 y), (app_assoc x1 (s ++ x3) y).
    rewrite !dropZ_app, (takeZ_app (x1 ++ x2 ++ x3)), (takeZ_app (x1 ++ s ++ x3)) by (rewrite !lenZ_app; lia).
    rewrite (app_assoc x1 x2 x3), (app_assoc x1 s x3), (app_assoc y (x1 ++ x2) x3), (app_assoc y (x1 ++ s) x3).
    rewrite (takeZ_app (y ++ x1 ++ s)) by (rewrite !lenZ_app; lia).
    rewrite (app_assoc y x1 x2), <-(app_assoc (y ++ x1) x2 x3), (takeZ_app (y ++ x1)) by (rewrite !lenZ_app; lia).
    by rewrite app_assoc.
  - destruct (cut_at d o l) as (x & q & y & -> & Hx & Hq); [lia..|]. rewrite !lenZ_app in Hd.
    destruct (cut_at y 0 (lenZ s)) as (e & y1 & y2 & -> & He & Hy1); [lia..|].
    apply Z.eq_le_incl, lenZ_0_nil in He as ->. rewrite app_nil_l in *.
    rewrite (app_assoc x q (y1 ++ y2)), (write_at_app (x ++ q) y1 y2 s) by (rewrite ?lenZ_app; lia).
    rewrite <-!app_assoc. unfold ring. rewrite !dropZ_app, !(takeZ_app x) by lia.
    rewrite <-!app_assoc, (app_assoc q s), (takeZ_app (q ++ s)), (takeZ_app q) by (rewrite ?lenZ_app; lia). done.
Qed.

(** Both loops are over after two rounds at most. *)
Lemma read_loop_spec sz d l o out pos n :
  ring_wf sz d l o → 0 < n <= l → 0 <= pos → pos + n <= lenZ out →
  ∃ l' o', read_loop ring_fuel sz d l o out pos n = Some (l', o', write_at out pos (takeZ n (ring d l o))) ∧
    l' = l - n ∧ ring_wf sz d l' o' ∧ ring d l' o' = dropZ n (ring d l o).
Proof.
  intros Hwf Hn Hpos Hout. pose proof Hwf as [Hd Hs Hl Ho]. pose proof (lenZ_ring _ _ _ _ Hwf) as Hrl.
  assert (2 ^ 62 + 2 ^ 62 < 2 ^ 64) as H62 by done.
  unfold ring_fuel. cbn [read_loop].
  replace (size_t (o + n)) with (o + n) by (symmetry; apply wrap_small; unfold fits; lia).
  destruct (Z.leb_spec (o + n) sz) as [Hle|Hgt].
  - destruct (ring_read_step sz d l o n Hwf ltac:(lia) Hle) as (Ht & Hwf' & Hr). rewrite Z.sub_diag, Ht.
    destruct (negb (l - n =? 0)); cbn; eexists _, _; (split; [done|]); (split; [done|]); done.
  - set (c := sz - o). assert (0 < c < n) as Hc by (unfold c; lia).
    destruct (ring_read_step sz d l o c Hwf ltac:(lia) ltac:(unfold c; lia)) as (Ht & Hwf' & Hr).
    destruct (Z.eqb_spec (l - c) 0) as [|Hne]; cbn [negb] in *; [lia|]. rewrite Ht.
    replace (o + c =? sz) with true in * by (symmetry; apply Z.eqb_eq; unfold c; lia).
    destruct (Z.eqb_spec (n - c) 0); [lia|].
    replace (size_t (0 + (n - c))) with (n - c) by (symmetry; apply wrap_small; unfold fits; lia).
    destruct (Z.leb_spec (n - c) sz) as [_|]; [|lia].
    destruct (ring_read_step sz d (l - c) 0 (n - c) Hwf' ltac:(lia) ltac:(lia)) as (Ht2 & Hwf2 & Hr2).
    rewrite Z.sub_diag, Ht2.
    assert (write_at (write_at out pos (takeZ c (ring d l o))) (pos + c) (takeZ (n - c) (ring d (l - c) 0)) =
            write_at out pos (takeZ n (ring d l o))) as Hout2.
    { assert (lenZ (takeZ c (ring d l o)) = c) as Hlc by (apply lenZ_takeZ; lia).
      assert (lenZ (takeZ (n - c) (ring d (l - c) 0)) = n - c) as Hlc2
        by (apply lenZ_takeZ; rewrite (lenZ_ring sz); [lia|done]).
      replace (pos + c) with (pos + lenZ (takeZ c (ring d l o))) by lia. rewrite write_at_then by lia. f_equal.
      rewrite Hr, <-dropZ_takeZ, <-(takeZ_takeZ c n) by lia. apply takeZ_dropZ. }
    rewrite Hout2.
    destruct (negb (l - c - (n - c) =? 0)); cbn; eexists _, _; (split; [done|]); (split; [lia|]);
      (split; [done|]); rewrite Hr2, Hr, dropZ_dropZ by lia; f_equal; lia.
Qed.

Lemma write_loop_spec sz d l o src n :
  ring_wf sz d l o → 0 < n → l + n <= sz → n <= lenZ src →
  ∃ d', write_loop ring_fuel sz d l o src n = Some (l + n, d') ∧
    ring_wf sz d' (l + n) o ∧ ring d' (l + n) o = ring d l o ++ takeZ n src.
Proof.
  intros Hwf Hn Hln Hsrc. pose proof Hwf as [Hd Hs Hl Ho].
  assert (2 ^ 62 + 2 ^ 62 < 2 ^ 64) as H62 by done.
  unfold ring_fuel. cbn [write_loop].
  replace (size_t (o + l)) with (o + l) by (symmetry; apply wrap_small; unfold fits; lia).
  set (w := if sz <=? o + l then o + l - sz else o + l).
  assert (0 <= w < sz) as Hw by (unfold w; destruct (Z.leb_spec sz (o + l)); lia).
  replace (size_t (w + n)) with (w + n) by (symmetry; apply wrap_small; unfold fits; lia).
  destruct (Z.leb_spec (w + n) sz) as [Hle|Hgt].
  - assert (lenZ (takeZ n src) = n) as Hlt by (apply lenZ_takeZ; lia).
    pose proof (ring_write_step sz d l o (takeZ n src) Hwf) as Hst. rewrite Hlt in Hst. fold w in Hst.
    destruct (Hst ltac:(lia) ltac:(lia) ltac:(lia)) as [H1 H2]. rewrite Z.sub_diag. cbn. by eexists.
  - set (c := sz - w). assert (0 < c < n) as Hc by (unfold c; lia).
    assert (lenZ (takeZ c src) = c) as Hlt by (apply lenZ_takeZ; lia).
    pose proof (ring_write_step sz d l o (takeZ c src) Hwf) as Hst. rewrite Hlt in Hst. fold w in Hst.
    destruct (Hst ltac:(lia) ltac:(lia) ltac:(unfold c; lia)) as [H1 H2].
    destruct (Z.eqb_spec (n - c) 0); [lia|].
    assert ((sz <=? o + l) = false) as Hnw.
    { apply Z.leb_gt. unfold c, w in Hc. destruct (Z.leb_spec sz (o + l)); lia. }
    assert (w = o + l) as Hwe by (unfold w; by rewrite Hnw).
    replace (size_t (o + (l + c))) with sz by (symmetry; unfold c; rewrite wrap_small; unfold fits; lia).
    rewrite Z.leb_refl, Z.sub_diag, Z.add_0_l.
    replace (size_t (n - c)) with (n - c) by (symmetry; apply wrap_small; unfold fits; lia).
    destruct (Z.leb_spec (n - c) sz); [|lia]. rewrite Z.sub_diag.
    assert (lenZ (takeZ (n - c) (dropZ c src)) = n - c) as Hlt2.
    { apply lenZ_takeZ. rewrite lenZ_dropZ; lia. }
    pose proof (ring_write_step sz _ (l + c) o (takeZ (n - c) (dropZ c src)) H1) as Hst2. rewrite Hlt2 in Hst2.
    replace (sz <=? o + (l + c)) with true in Hst2 by (symmetry; apply Z.leb_le; unfold c; lia).
    replace (o + (l + c) - sz) with 0 in Hst2 by (unfold c; lia).
    destruct (Hst2 ltac:(lia) ltac:(lia) ltac:(lia)) as [H3 H4].
    replace (l + c + (n - c)) with (l + n) in * by lia. cbn. eexists. split; [done|]. split; [done|].
    rewrite H4, H2, <-app_assoc. f_equal. rewrite <-dropZ_takeZ, <-(takeZ_takeZ c n) by lia. apply takeZ_dropZ.
Qed.

(** * What a pair promises: two bounded pipes *)

Record pipe := { pending : bytes; capacity : Z; shut : bool }.

Definition pipe_write (p : pipe) (data : bytes) : Z * pipe :=
  if shut p then (-1, p)
  else if lenZ (pending p) =? capacity p then (-1, p)
  else
    let n := Z.min (lenZ data) (capacity p - lenZ (pending p)) in
    (n, {| pending := pending p ++ takeZ n data; capacity := capacity p; shut := shut p |}).

(** The result, the bytes delivered and the pipe. *)
Definition pipe_read (p : pipe) (n : Z) : Z * bytes * pipe :=
  if lenZ (pending p) =? 0 then (if shut p then 0 else -1, [], p)
  else
    let k := Z.min n (lenZ (pending p)) in
    (k, takeZ k (pending p),
     {| pending := dropZ k (pending p); capacity := capacity p; shut := shut p |}).

Definition pipe_shut (p : pipe) : pipe :=
  {| pending := pending p; capacity := capacity p; shut := true |}.

Definition pipe_of (b : bio_bio_st) : pipe :=
  {| pending := queue b; capacity := size b; shut := closed b |}.

Definition half_wf (b : bio_bio_st) : Prop :=
  ∃ d, buf b = Some d ∧ ring_wf (size b) d (len b) (offset b).

Record bio_paired (bio : BIO) (other : Z) : Prop := {
  paired_init : init bio = true;
  paired_peer : peer (ptr bio) = Some other;
  paired_ring : half_wf (ptr bio);
}.

(** [x] writes into [p] and [y] writes into [q]. *)
Definition holds (h : heap) (x y : Z) (p q : pipe) : Prop :=
  x ≠ y ∧ ∃ X Y, h !! x = Some X ∧ h !! y = Some Y ∧ bio_paired X y ∧ bio_paired Y x ∧
    pipe_of (ptr X) = p ∧ pipe_of (ptr Y) = q.

Lemma holds_sym h x y p q : holds h x y p q → holds h y x q p.
Proof. intros (Hne & X & Y & ?). split; [done|]. exists Y, X. naive_solver. Qed.

Lemma queue_ring b d : buf b = Some d → queue b = ring d (len b) (offset b).
Proof. intros Hd. unfold queue. by rewrite Hd. Qed.

Lemma lenZ_queue b : half_wf b → lenZ (queue b) = len b.
Proof. intros (d & Hd & Hwf). rewrite (queue_ring _ d) by done. by eapply lenZ_ring. Qed.

Lemma lookup_insert_pair (h : heap) x y X Y :
  x ≠ y → <[x := X]> (<[y := Y]> h) !! x = Some X ∧ <[x := X]> (<[y := Y]> h) !! y = Some Y.
Proof. intros Hne. by rewrite lookup_insert_eq, lookup_insert_ne, lookup_insert_eq. Qed.

(** Writing. *)
Lemma BIO_write_spec h x y p q data :
  holds h x y p q → 0 < lenZ data →
  ∃ h', BIO_write (Some x) (Some data) (lenZ data) h = Some ((pipe_write p data).1, h') ∧
        holds h' x y (pipe_write p data).2 q.
Proof.
  intros (Hne & X & Y & HX & HY & [Hi Hp Hh] & HpY & <- & <-) Hn. pose proof (lenZ_queue _ Hh) as Hq.
  destruct Hh as (d & Hd & Hwf). pose proof Hwf as [Hrl Hrs Hrll Hro].
  unfold BIO_write, pipe_write. rewrite HX. cbn [mbind option_bind]. rewrite Hi. cbn [negb].
  destruct (Z.leb_spec (lenZ data) 0); [lia|]. unfold bio_write. rewrite HX.
  cbn [mbind option_bind init BIO_clear_retry_flags set_flags ptr]. rewrite Hi. cbn [negb orb].
  destruct (Z.eqb_spec (lenZ data) 0) as [|_]; [lia|]. rewrite Hp, Hd.
  cbn [mbind option_bind closed set_request len size offset pipe_of shut pending capacity]. rewrite Hq.
  destruct (closed (ptr X)) eqn:Hcl.
  { eexists. split; [done|]. split; [done|]. eexists _, Y. cbn [fst snd].
    rewrite insert_insert_eq, lookup_insert_eq, lookup_insert_ne by done. split_and!; try done.
    split; [done|done|]. by exists d. }
  destruct (Z.eqb_spec (len (ptr X)) (size (ptr X))) as [|Hnf].
  { eexists. split; [done|]. split; [done|]. eexists _, Y. cbn [fst snd].
    rewrite !insert_insert_eq, lookup_insert_eq, lookup_insert_ne by done. split_and!; try done.
    split; [done|done|]. by exists d. }
  replace (if size (ptr X) - len (ptr X) <? lenZ data then size (ptr X) - len (ptr X) else lenZ data)
    with (Z.min (lenZ data) (size (ptr X) - len (ptr X)))
    by (destruct (Z.ltb_spec (size (ptr X) - len (ptr X)) (lenZ data)); lia).
  set (n := Z.min (lenZ data) (size (ptr X) - len (ptr X))).
  destruct (write_loop_spec (size (ptr X)) d (len (ptr X)) (offset (ptr X)) data n)
    as (d' & Hw & Hwf' & Hr); [done|unfold n; lia..|]. rewrite Hw. cbn [mbind option_bind fst snd].
  destruct (Z.ltb_spec 0 n); [|unfold n in *; lia]. rewrite lookup_insert_eq.
  eexists. split; [done|]. split; [done|]. eexists _, Y.
  rewrite !insert_insert_eq, lookup_insert_eq, lookup_insert_ne by done. split_and!; try done.
  - split; [done|done|]. by exists d'.
  - unfold pipe_of. cbn. f_equal; [|done]. rewrite (queue_ring (ptr X) d) by done. exact Hr.
Qed.

(** Reading. *)
Lemma BIO_read_spec h x y p q out :
  holds h x y p q → 0 < lenZ out →
  ∃ h', BIO_read (Some y) (Some out) (lenZ out) h =
          Some ((pipe_read p (lenZ out)).1.1, Some (write_at out 0 (pipe_read p (lenZ out)).1.2), h') ∧
        holds h' x y (pipe_read p (lenZ out)).2 q.
Proof.
  intros (Hne & X & Y & HX & HY & HpX & [Hi Hp Hh] & <- & <-) Hn.
  pose proof (lenZ_queue _ (paired_ring _ _ HpX)) as Hq.
  destruct HpX as [HiX HpX (d & Hd & Hwf)]. pose proof Hwf as [Hrl Hrs Hrll Hro].
  unfold BIO_read, pipe_read. rewrite HY. cbn [mbind option_bind]. rewrite Hi. cbn [negb].
  destruct (Z.leb_spec (lenZ out) 0); [lia|]. unfold bio_read. rewrite HY.
  cbn [mbind option_bind init BIO_clear_retry_flags set_flags ptr]. rewrite Hi. cbn [negb]. rewrite Hp.
  cbn [mbind option_bind]. rewrite lookup_insert_ne, HX by done. cbn [mbind option_bind]. rewrite Hd.
  cbn [mbind option_bind]. destruct (Z.eqb_spec (lenZ out) 0) as [|_]; [lia|].
  cbn [closed set_request len size offset pipe_of shut pending capacity]. rewrite Hq.
  destruct (Z.eqb_spec (len (ptr X)) 0) as [Hz|Hnz].
  { destruct (closed (ptr X)) eqn:Hcl; cbn [fst snd].
    - rewrite write_at_nil. eexists. split; [done|]. split; [done|].
      eexists _, _. rewrite lookup_insert_eq, lookup_insert_ne, lookup_insert_eq by done.
      split_and!; try done; split; cbn; try done. by exists d.
    - rewrite lookup_insert_ne, lookup_insert_eq by done. cbn [mbind option_bind].
      rewrite lookup_insert_ne, lookup_insert_eq by done. cbn [mbind option_bind].
      rewrite write_at_nil. eexists. split; [done|]. split; [done|].
      eexists _, _. rewrite lookup_insert_eq, lookup_insert_ne, lookup_insert_eq by done.
      split_and!; try done; split; cbn; try done. by exists d. }
  replace (if len (ptr X) <? lenZ out then len (ptr X) else lenZ out)
    with (Z.min (lenZ out) (len (ptr X)))
    by (destruct (Z.ltb_spec (len (ptr X)) (lenZ out)); lia).
  set (k := Z.min (lenZ out) (len (ptr X))).
  destruct (read_loop_spec (size (ptr X)) d (len (ptr X)) (offset (ptr X)) out 0 k)
    as (l' & o' & Hrd & -> & Hwf' & Hr); [done|unfold k; lia..|]. rewrite Hrd. cbn [mbind option_bind fst snd].
  destruct (Z.ltb_spec 0 k); [|unfold k in *; lia]. rewrite lookup_insert_ne, lookup_insert_ne, lookup_insert_eq by done.
  cbn [mbind option_bind]. rewrite (queue_ring (ptr X) d) by done.
  eexists. split; [done|]. split; [done|]. eexists _, _.
  rewrite lookup_insert_ne, !lookup_insert_eq by done. split_and!; try done.
  - split; [done|done|]. by exists d.
  - unfold pipe_of. cbn. f_equal. exact Hr.
Qed.

Lemma BIO_shutdown_spec h x y p q :
  holds h x y p q → ∃ h', BIO_shutdown_wr (Some x) h = Some (1, h') ∧ holds h' x y (pipe_shut p) q.
Proof.
  intros (Hne & X & Y & HX & HY & [Hi Hp Hh] & HpY & <- & <-). unfold BIO_shutdown_wr, BIO_ctrl, bio_ctrl.
  rewrite HX. cbn. eexists. split; [done|]. split; [done|]. eexists _, _.
  rewrite lookup_insert_eq, lookup_insert_ne by done. by split_and!.
Qed.

Lemma BIO_pending_spec h x y p q : holds h x y p q → BIO_pending (Some y) h = Some (lenZ (pending p), h).
Proof.
  intros (Hne & X & Y & HX & HY & HpX & [Hi Hp Hh] & <- & <-).
  pose proof (lenZ_queue _ (paired_ring _ _ HpX)) as Hq. cbn [pending pipe_of]. rewrite Hq.
  destruct HpX as [_ _ (d & Hd & Hwf)]. destruct Hwf as [_ _ Hl _].
  unfold BIO_pending, BIO_ctrl, bio_ctrl. rewrite HY. cbn. rewrite Hp, HX. cbn.
  by destruct (Z.ltb_spec (len (ptr X)) 0); [lia|].
Qed.

(** The guarantee is what the next write accepts. *)
Lemma write_guarantee_spec h x y p q :
  holds h x y p q →
  BIO_ctrl_get_write_guarantee (Some x) h =
    Some (if shut p then 0 else capacity p - lenZ (pending p), h).
Proof.
  intros (Hne & X & Y & HX & HY & [Hi Hp Hh] & HpY & <- & <-). cbn [pending pipe_of].
  rewrite (lenZ_queue _ Hh). unfold BIO_ctrl_get_write_guarantee, BIO_ctrl, bio_ctrl. rewrite HX. cbn.
  unfold has_peer. by rewrite Hp.
Qed.

(** * Creating a pair *)

Section create_facts.
Context {libc : Libc} {alloc : AddrAlloc}.

Definition new_bio : BIO :=
  {| init := false; shutdown := 1; flags := 0; retry_reason := 0; references := 1;
     ptr := {| peer := None; closed := false; len := 0; offset := 0; size := 17 * 1024; buf := None;
               request := 0 |};
     num_read := 0; num_write := 0 |}.

Lemma BIO_new_spec (h : heap) :
  BIO_new h = (None, h) ∨ ∃ a, h !! a = None ∧ BIO_new h = (Some a, <[a := new_bio]> h).
Proof.
  unfold BIO_new, bio_new. destruct (OPENSSL_malloc sizeof_BIO); [|by left].
  destruct (new_addr _) as [a|] eqn:Ha; [|by left].
  destruct (OPENSSL_malloc sizeof_bio_bio_st); cbn; [|by left]. right. exists a. split; [|done].
  apply new_addr_fresh in Ha as [Hf _]. by rewrite elem_of_elements, not_elem_of_dom in Hf.
Qed.

(** Freeing the last reference to a BIO that has no peer. *)
Lemma BIO_free_alone (h : heap) a B :
  h !! a = Some B → references B = 1 → peer (ptr B) = None → BIO_free (Some a) h = Some (1, delete a h).
Proof.
  intros Ha Hr Hp. unfold BIO_free. rewrite Ha. cbn [mbind option_bind]. rewrite Hr. cbn.
  unfold bio_free. rewrite lookup_insert_eq. cbn [mbind option_bind set_references ptr].
  unfold has_peer. rewrite Hp. cbn. by rewrite delete_insert_eq.
Qed.

Lemma make_buf_spec b n :
  buf b = None → 0 <= n < 2 ^ 62 → 0 < size b < 2 ^ 62 →
  let sz := if n =? 0 then size b else n in
  (∃ b', make_buf b n = (false, b') ∧ peer b' = peer b) ∨
  (∃ d, make_buf b n = (true, {| peer := peer b; closed := closed b; len := 0; offset := 0; size := sz;
                                 buf := Some d; request := request b |}) ∧ ring_wf sz d 0 0).
Proof.
  intros Hb Hn Hs sz. unfold make_buf. rewrite Hb.
  assert (0 < sz < 2 ^ 62) as Hsz by (unfold sz; destruct (Z.eqb_spec n 0); lia). fold sz.
  destruct (OPENSSL_malloc sz) as [d|] eqn:Hm; [right|left; by eexists].
  apply OPENSSL_malloc_len in Hm; [|lia]. exists d. split; [done|]. split; lia.
Qed.

(** A fresh pipe with the size asked for, or the default. *)
Definition fresh_pipe (n : Z) : pipe :=
  {| pending := []; capacity := if n =? 0 then 17 * 1024 else n; shut := false |}.

Lemma bio_make_pair_spec (h : heap) x y n1 n2 :
  x ≠ y → h !! x = Some new_bio → h !! y = Some new_bio → 0 <= n1 < 2 ^ 62 → 0 <= n2 < 2 ^ 62 →
  (∃ h', bio_make_pair x y n1 n2 h = Some (1, h') ∧ holds h' x y (fresh_pipe n1) (fresh_pipe n2) ∧
         ∀ i, i ≠ x → i ≠ y → h' !! i = h !! i) ∨
  (∃ X Y, bio_make_pair x y n1 n2 h = Some (0, <[x := X]> (<[y := Y]> h)) ∧
     references X = 1 ∧ references Y = 1 ∧ peer (ptr X) = None ∧ peer (ptr Y) = None).
Proof.
  intros Hne Hx Hy Hn1 Hn2. unfold bio_make_pair. rewrite Hx, Hy. cbn [mbind option_bind has_peer ptr new_bio peer orb].
  assert (0 < 17 * 1024 < 2 ^ 62) as Hdef by done.
  destruct (make_buf_spec (ptr new_bio) n1 eq_refl Hn1 Hdef) as [(b1 & Hm1 & Hp1)|(d1 & Hm1 & Hr1)];
    cbn [ptr new_bio] in Hm1; rewrite Hm1; cbn [negb].
  { right. exists (set_ptr new_bio b1), new_bio. rewrite (insert_id h y) by done. done. }
  rewrite lookup_insert_ne, Hy by done. cbn [mbind option_bind].
  destruct (make_buf_spec (ptr new_bio) n2 eq_refl Hn2 Hdef) as [(b2 & Hm2 & Hp2)|(d2 & Hm2 & Hr2)];
    cbn [ptr new_bio] in Hm2 |- *; rewrite Hm2; cbn [negb].
  { right. eexists _, (set_ptr new_bio b2). rewrite insert_insert_ne by done. done. }
  left. rewrite lookup_insert_ne, lookup_insert_eq by done. cbn [mbind option_bind].
  rewrite lookup_insert_ne, lookup_insert_eq by done. cbn [mbind option_bind]. eexists. split; [done|].
  split; [|intros i Hix Hiy; by rewrite !lookup_insert_ne].
  split; [done|]. eexists _, _. rewrite lookup_insert_ne, lookup_insert_eq, lookup_insert_eq by done.
  split_and!; try done; (split; [done|done|]); cbn; [by exists d1|by exists d2].
Qed.

(** Either two connected BIOs are added to the heap, or nothing changes. *)
Lemma BIO_new_bio_pair_spec (h : heap) n1 n2 :
  0 <= n1 < 2 ^ 62 → 0 <= n2 < 2 ^ 62 →
  (∃ x y h', BIO_new_bio_pair n1 n2 h = Some (1, Some x, Some y, h') ∧ h !! x = None ∧ h !! y = None ∧
     holds h' x y (fresh_pipe n1) (fresh_pipe n2) ∧ ∀ i, i ≠ x → i ≠ y → h' !! i = h !! i) ∨
  BIO_new_bio_pair n1 n2 h = Some (0, None, None, h).
Proof.
  intros Hn1 Hn2. unfold BIO_new_bio_pair.
  destruct (BIO_new_spec h) as [->|(x & Hx & ->)].
  - destruct (BIO_new_spec h) as [->|(y & Hy & ->)]; [by right|right]. cbn [BIO_free mbind option_bind].
    fold (BIO_free (Some y) (<[y := new_bio]> h)).
    rewrite (BIO_free_alone _ y new_bio) by (done || apply lookup_insert_eq). cbn.
    by rewrite delete_insert_id.
  - destruct (BIO_new_spec (<[x := new_bio]> h)) as [->|(y & Hy & ->)].
    { right. rewrite (BIO_free_alone _ x new_bio) by (done || apply lookup_insert_eq). cbn.
      by rewrite delete_insert_id. }
    apply lookup_insert_None in Hy as [Hy Hne].
    destruct (bio_make_pair_spec (<[y := new_bio]> (<[x := new_bio]> h)) x y n1 n2)
      as [(h' & Hmk & Hh & Hrest)|(X & Y & Hmk & HrX & HrY & HpX & HpY)]; [done| |apply lookup_insert_eq|done|done| |].
    { rewrite lookup_insert_ne by done. apply lookup_insert_eq. }
    + left. exists x, y, h'. rewrite Hmk. cbn. split_and!; try done.
      intros i Hix Hiy. rewrite Hrest by done. by rewrite !lookup_insert_ne.
    + right. rewrite Hmk. cbn [mbind option_bind]. cbn [Z.eqb].
      rewrite (BIO_free_alone _ x X) by (done || apply lookup_insert_eq). cbn [mbind option_bind].
      rewrite (BIO_free_alone _ y Y)
        by (done || (rewrite lookup_delete_ne, lookup_insert_ne by done; apply lookup_insert_eq)).
      cbn [mbind option_bind]. do 2 f_equal. apply map_eq. intros i.
      destruct (decide (i = y)) as [->|]; [by rewrite lookup_delete_eq|].
      rewrite lookup_delete_ne by done. destruct (decide (i = x)) as [->|]; [by rewrite lookup_delete_eq|].
      by rewrite lookup_delete_ne, !lookup_insert_ne.
Qed.
End create_facts.

(** * Conversations *)

(** Calls on the two ends; [true] is the first. *)
Inductive pair_op :=
  | PWrite (side : bool) (data : bytes)
  | PRead (side : bool) (n : Z)
  | PShutdown (side : bool).

(** What a call accepted from the caller or delivered to it. *)
Inductive event :=
  | Sent (side : bool) (data : bytes)
  | Received (side : bool) (data : bytes).

Definition valid_op (op : pair_op) : Prop :=
  match op with PWrite _ data => 0 < lenZ data | PRead _ n => 0 < n | PShutdown _ => True end.

Section run.
Context (x y : Z).

Definition run_op (op : pair_op) (h : heap) : option (list event * heap) :=
  let side_id (side : bool) := Some (if side then x else y) in
  match op with
  | PWrite side data =>
      '(r, h) ← BIO_write (side_id side) (Some data) (lenZ data) h;
      Some ([Sent side (takeZ r data)], h)
  | PRead side n =>
      '(r, out, h) ← BIO_read (side_id side) (Some (replicate (Z.to_nat n) 0)) n h;
      Some ([Received side (takeZ r (default [] out))], h)
  | PShutdown side =>
      '(_, h) ← BIO_shutdown_wr (side_id side) h;
      Some ([], h)
  end.

Fixpoint run (ops : list pair_op) (h : heap) : option (list event * heap) :=
  match ops with
  | [] => Some ([], h)
  | op :: ops =>
      '(e1, h) ← run_op op h;
      '(e2, h) ← run ops h;
      Some (e1 ++ e2, h)
  end.
End run.

Definition sent (side : bool) (evs : list event) : bytes :=
  concat (map (λ e, match e with Sent s d => if Bool.eqb s side then d else [] | _ => [] end) evs).
Definition received (side : bool) (evs : list event) : bytes :=
  concat (map (λ e, match e with Received s d => if Bool.eqb s side then d else [] | _ => [] end) evs).

Lemma sent_app side e1 e2 : sent side (e1 ++ e2) = sent side e1 ++ sent side e2.
Proof. unfold sent. by rewrite map_app, concat_app. Qed.
Lemma received_app side e1 e2 : received side (e1 ++ e2) = received side e1 ++ received side e2.
Proof. unfold received. by rewrite map_app, concat_app. Qed.

(** Bytes are neither lost, nor made up, nor reordered, and stay within bounds. *)
Definition conserves (p p' : pipe) (sent received : bytes) : Prop :=
  pending p ++ sent = received ++ pending p' ∧ capacity p' = capacity p ∧
  (lenZ (pending p) <= capacity p → lenZ (pending p') <= capacity p').

Lemma conserves_refl p : conserves p p [] [].
Proof. split; [apply app_nil_r|done]. Qed.

Lemma conserves_trans p1 p2 p3 s1 s2 r1 r2 :
  conserves p1 p2 s1 r1 → conserves p2 p3 s2 r2 → conserves p1 p3 (s1 ++ s2) (r1 ++ r2).
Proof.
  intros (H1 & H2 & H3) (H4 & H5 & H6). split; [|split; [lia|auto]].
  by rewrite app_assoc, H1, <-!app_assoc, H4.
Qed.

Lemma pipe_write_conserves p data :
  conserves p (pipe_write p data).2 (takeZ (pipe_write p data).1 data) [].
Proof.
  unfold pipe_write. destruct (shut p); [apply conserves_refl|].
  destruct (Z.eqb_spec (lenZ (pending p)) (capacity p)); [apply conserves_refl|]. cbn.
  split; [done|]. split; [done|]. cbn. intros Hl. pose proof (lenZ_nonneg data).
  rewrite lenZ_app, lenZ_takeZ; lia.
Qed.

Lemma pipe_read_conserves p n :
  0 <= n → conserves p (pipe_read p n).2 [] (pipe_read p n).1.2.
Proof.
  intros Hn. unfold pipe_read. destruct (Z.eqb_spec (lenZ (pending p)) 0); [destruct (shut p); apply conserves_refl|].
  cbn. split; [rewrite app_nil_r; symmetry; apply takeZ_dropZ|]. split; [done|]. cbn. intros Hl.
  pose proof (lenZ_nonneg (pending p)). rewrite lenZ_dropZ; lia.
Qed.

Lemma pipe_read_result p n :
  0 < n → takeZ (pipe_read p n).1.1 (write_at (replicate (Z.to_nat n) 0) 0 (pipe_read p n).1.2) = (pipe_read p n).1.2.
Proof.
  intros Hn. unfold pipe_read. pose proof (lenZ_nonneg (pending p)).
  destruct (Z.eqb_spec (lenZ (pending p)) 0); [by destruct (shut p)|]. cbn [fst snd].
  set (k := n `min` lenZ (pending p)).
  assert (lenZ (takeZ k (pending p)) = k) as Hk by (apply lenZ_takeZ; unfold k; lia).
  rewrite takeZ_write_at; [done|lia|rewrite Hk, lenZ_replicate; unfold k; lia|lia].
Qed.

Lemma run_op_spec h x y p q op :
  holds h x y p q → valid_op op →
  ∃ evs h' p' q', run_op x y op h = Some (evs, h') ∧ holds h' x y p' q' ∧
    conserves p p' (sent true evs) (received false evs) ∧
    conserves q q' (sent false evs) (received true evs).
Proof.
  intros Hh Hv. destruct op as [[] data|[] n|[]]; cbn [run_op valid_op] in *.
  - destruct (BIO_write_spec h x y p q data Hh Hv) as (h' & -> & Hh'). cbn [mbind option_bind].
    eexists _, h', _, _. split; [done|]. split; [done|]. unfold sent, received. cbn. rewrite app_nil_r.
    split; [apply pipe_write_conserves|apply conserves_refl].
  - destruct (BIO_write_spec h y x q p data (holds_sym _ _ _ _ _ Hh) Hv) as (h' & -> & Hh'%holds_sym). cbn [mbind option_bind].
    eexists _, h', _, _. split; [done|]. split; [done|]. unfold sent, received. cbn. rewrite app_nil_r.
    split; [apply conserves_refl|apply pipe_write_conserves].
  - assert (lenZ (replicate (Z.to_nat n) 0) = n) as Hn by (rewrite lenZ_replicate; lia).
    destruct (BIO_read_spec h y x q p (replicate (Z.to_nat n) 0) (holds_sym _ _ _ _ _ Hh)) as (h' & Hr & Hh'%holds_sym); [lia|].
    rewrite Hn in *. rewrite Hr. cbn [mbind option_bind from_option id]. rewrite pipe_read_result by done.
    eexists _, h', _, _. split; [done|]. split; [done|]. unfold sent, received. cbn. rewrite app_nil_r.
    split; [apply conserves_refl|apply pipe_read_conserves; lia].
  - assert (lenZ (replicate (Z.to_nat n) 0) = n) as Hn by (rewrite lenZ_replicate; lia).
    destruct (BIO_read_spec h x y p q (replicate (Z.to_nat n) 0) Hh) as (h' & Hr & Hh'); [lia|].
    rewrite Hn in *. rewrite Hr. cbn [mbind option_bind from_option id]. rewrite pipe_read_result by done.
    eexists _, h', _, _. split; [done|]. split; [done|]. unfold sent, received. cbn. rewrite app_nil_r.
    split; [apply pipe_read_conserves; lia|apply conserves_refl].
  - destruct (BIO_shutdown_spec h x y p q Hh) as (h' & -> & Hh'). cbn [mbind option_bind].
    eexists _, h', _, _. split; [done|]. split; [done|].
    split; [exact (conserves_refl p)|exact (conserves_refl q)].
  - destruct (BIO_shutdown_spec h y x q p (holds_sym _ _ _ _ _ Hh)) as (h' & -> & Hh'%holds_sym). cbn [mbind option_bind].
    eexists _, h', _, _. split; [done|]. split; [done|].
    split; [exact (conserves_refl p)|exact (conserves_refl q)].
Qed.

Lemma run_spec ops h x y p q :
  holds h x y p q → Forall valid_op ops →
  ∃ evs h' p' q', run x y ops h = Some (evs, h') ∧ holds h' x y p' q' ∧
    conserves p p' (sent true evs) (received false evs) ∧
    conserves q q' (sent false evs) (received true evs).
Proof.
  revert h p q. induction ops as [|op ops IH]; intros h p q Hh Hv; cbn [run].
  { eexists [], h, p, q. split_and!; try done; apply conserves_refl. }
  apply Forall_cons in Hv as [Hop Hv].
  destruct (run_op_spec h x y p q op Hh Hop) as (e1 & h1 & p1 & q1 & -> & Hh1 & Hp1 & Hq1).
  cbn [mbind option_bind]. destruct (IH h1 p1 q1 Hh1 Hv) as (e2 & h2 & p2 & q2 & -> & Hh2 & Hp2 & Hq2).
  cbn [mbind option_bind]. eexists _, h2, p2, q2. split; [done|]. split; [done|]. rewrite !sent_app, !received_app.
  split; by eapply conserves_trans.
Qed.

(** * Properties *)

(** C38. Five calls on a connected pair implement a pipe: a write appends what fits
    (or -1 when full or shut down), a read takes from the front (or -1 when empty,
    0 at the end of the stream), a shutdown ends the stream; the pending count and
    the write guarantee are those of the pipe, and the other direction is untouched. *)
Theorem bio_pair_refines_pipe h x y p q data out :
  holds h x y p q → 0 < lenZ data → 0 < lenZ out →
  (∃ h', BIO_write (Some x) (Some data) (lenZ data) h = Some ((pipe_write p data).1, h') ∧
         holds h' x y (pipe_write p data).2 q) ∧
  (∃ h', BIO_read (Some y) (Some out) (lenZ out) h =
           Some ((pipe_read p (lenZ out)).1.1, Some (write_at out 0 (pipe_read p (lenZ out)).1.2), h') ∧
         holds h' x y (pipe_read p (lenZ out)).2 q) ∧
  (∃ h', BIO_shutdown_wr (Some x) h = Some (1, h') ∧ holds h' x y (pipe_shut p) q) ∧
  BIO_pending (Some y) h = Some (lenZ (pending p), h) ∧
  BIO_ctrl_get_write_guarantee (Some x) h = Some (if shut p then 0 else capacity p - lenZ (pending p), h).
Proof.
  intros Hh Hd Ho. split_and!.
  - by apply BIO_write_spec.
  - by apply BIO_read_spec.
  - by apply BIO_shutdown_spec.
  - by eapply BIO_pending_spec.
  - by eapply write_guarantee_spec.
Qed.

(** C28. A new pair either fails without a change or carries two streams: in every
    sequence of writes, reads and shutdowns each side has received, in order, what
    the other side's writes accepted, but for a rest that fits the buffer. *)
Theorem bio_pair_fifo {libc : Libc} {alloc : AddrAlloc} n1 n2 ops :
  0 <= n1 < 2 ^ 62 → 0 <= n2 < 2 ^ 62 → Forall valid_op ops →
  BIO_new_bio_pair n1 n2 ∅ = Some (0, None, None, ∅) ∨
  ∃ x y h, BIO_new_bio_pair n1 n2 ∅ = Some (1, Some x, Some y, h) ∧
    ∃ evs h' rest1 rest2, run x y ops h = Some (evs, h') ∧
      sent true evs = received false evs ++ rest1 ∧ lenZ rest1 <= capacity (fresh_pipe n1) ∧
      sent false evs = received true evs ++ rest2 ∧ lenZ rest2 <= capacity (fresh_pipe n2).
Proof.
  intros Hn1 Hn2 Hops. destruct (BIO_new_bio_pair_spec ∅ n1 n2 Hn1 Hn2) as [(x & y & h & He & _ & _ & Hh & _)|He];
    [right|by left].
  exists x, y, h. split; [done|]. destruct (run_spec ops h x y _ _ Hh Hops) as (evs & h' & p & q & Hr & _ & Hp & Hq).
  destruct Hp as (Hp1 & Hp2 & Hp3), Hq as (Hq1 & Hq2 & Hq3). exists evs, h', (pending p), (pending q).
  assert (∀ n, 0 <= n → lenZ (pending (fresh_pipe n)) <= capacity (fresh_pipe n)) as H0.
  { intros n Hn. cbn. destruct (n =? 0); [done|]. change (lenZ []) with 0. done. }
  rewrite <-Hp2, <-Hq2. split_and!; [done|done|apply Hp3, H0; lia|done|apply Hq3, H0; lia].
Qed.

Lemma bio_pair_fifo_witness :
  let ops := [PWrite true [1; 2; 3; 4; 5]; PRead false 2; PShutdown true; PRead false 9] in
  @BIO_new_bio_pair calloc_libc counting_alloc 4 4 ∅ = Some (0, None, None, ∅) ∨
  ∃ x y h, @BIO_new_bio_pair calloc_libc counting_alloc 4 4 ∅ = Some (1, Some x, Some y, h) ∧
    ∃ evs h' rest1 rest2, run x y ops h = Some (evs, h') ∧
      sent true evs = received false evs ++ rest1 ∧ lenZ rest1 <= 4 ∧
      sent false evs = received true evs ++ rest2 ∧ lenZ rest2 <= 4.
Proof.
  intros ops. apply (@bio_pair_fifo calloc_libc counting_alloc 4 4 ops); [decide_now|decide_now|].
  repeat constructor.
Defined.

(** Two connected BIOs with empty buffers of four bytes. *)
Definition bio_half (other : Z) : BIO :=
  {| init := true; shutdown := 1; flags := 0; retry_reason := 0; references := 1;
     ptr := {| peer := Some other; closed := false; len := 0; offset := 0; size := 4;
               buf := Some [0; 0; 0; 0]; request := 0 |};
     num_read := 0; num_write := 0 |}.
Definition heap_pair : heap := <[1 := bio_half 2]> (<[2 := bio_half 1]> ∅).

Lemma heap_pair_holds : holds heap_pair 1 2 (fresh_pipe 4) (fresh_pipe 4).
Proof.
  assert (∀ i, bio_paired (bio_half i) i) as Hp.
  { intros i. split; [done|done|]. exists [0; 0; 0; 0]. split; [done|]. repeat split; vm_compute; congruence. }
  split; [done|]. exists (bio_half 2), (bio_half 1). split_and!; try reflexivity; apply Hp.
Qed.

Lemma bio_pair_refines_pipe_witness :
  let p := fresh_pipe 4 in
  (∃ h', BIO_write (Some 1) (Some [7; 8]) 2 heap_pair = Some (2, h') ∧ holds h' 1 2 (pipe_write p [7; 8]).2 p) ∧
  (∃ h', BIO_read (Some 2) (Some [0; 0; 0]) 3 heap_pair = Some (-1, Some [0; 0; 0], h') ∧ holds h' 1 2 p p) ∧
  (∃ h', BIO_shutdown_wr (Some 1) heap_pair = Some (1, h') ∧ holds h' 1 2 (pipe_shut p) p) ∧
  BIO_pending (Some 2) heap_pair = Some (0, heap_pair) ∧
  BIO_ctrl_get_write_guarantee (Some 1) heap_pair = Some (4, heap_pair).
Proof.
  intros p. apply (bio_pair_refines_pipe heap_pair 1 2 p p [7; 8] [0; 0; 0] heap_pair_holds); reflexivity.
Defined.
