(* ===== verification/BufMem.v ===== *)
(** Growable byte buffers:
    src/HolyWater-Test/Pods/BoringSSL-GRPC/src/crypto/buf/buf.c. *)
From S2P Require Import Prelude Mem.

(** [struct buf_mem_st]; [buf_data] points to [buf_max] bytes. *)
Record BUF_MEM := {
  buf_length : Z;
  buf_data : option bytes;
  buf_max : Z;
}.

Definition sizeof_BUF_MEM : Z := 24.

Section buf.
Context {libc : Libc}.

Definition BUF_MEM_new : option BUF_MEM :=
  _ ← OPENSSL_malloc sizeof_BUF_MEM;
  Some {| buf_length := 0; buf_data := None; buf_max := 0 |}.

Definition BUF_MEM_reserve (cap : Z) : M BUF_MEM () :=
  buf ← getS;
  if cap <=? buf_max buf then mret tt
  else
    let n := size_t (cap + 3) in
    _ ← ensure (negb (n <? cap));
    let n := n / 3 in
    let alloc_size := size_t (n * 4) in
    _ ← ensure (alloc_size / 4 =? n);
    new_buf ← liftO (OPENSSL_realloc (buf_data buf) alloc_size);
    putS {| buf_length := buf_length buf; buf_data := Some new_buf; buf_max := alloc_size |}.

(** The memory of a buffer, where it has any. *)
Definition storage (buf : BUF_MEM) : bytes := default [] (buf_data buf).

(** [memset] and [memcpy] on [buf->data]. *)
Definition buf_store (off : Z) (d : bytes) : M BUF_MEM () :=
  modifyS (λ buf, {| buf_length := buf_length buf;
                     buf_data := (λ mem, write_at mem off d) <$> buf_data buf;
                     buf_max := buf_max buf |}).
Definition set_length (n : Z) : M BUF_MEM () :=
  modifyS (λ buf, {| buf_length := n; buf_data := buf_data buf; buf_max := buf_max buf |}).

(** The result is [len]; a failure is 0. *)
Definition BUF_MEM_grow (len : Z) : M BUF_MEM Z :=
  _ ← BUF_MEM_reserve len;
  buf ← getS;
  _ ← (if buf_length buf <? len
       then buf_store (buf_length buf) (replicate (Z.to_nat (len - buf_length buf)) 0)
       else mret tt);
  _ ← set_length len;
  mret len.

Definition BUF_MEM_grow_clean (len : Z) : M BUF_MEM Z := BUF_MEM_grow len.

Definition BUF_MEM_append (d : bytes) : M BUF_MEM () :=
  let len := lenZ d in
  if len =? 0 then mret tt
  else
    buf ← getS;
    let new_len := size_t (buf_length buf + len) in
    _ ← ensure (negb (new_len <? len));
    _ ← BUF_MEM_reserve new_len;
    buf ← getS;
    _ ← buf_store (buf_length buf) d;
    set_length new_len.

Definition BUF_strdup (str : option bytes) : option bytes := OPENSSL_strdup str.
Definition BUF_strnlen (str : bytes) (max_len : Z) : Z := OPENSSL_strnlen str (Z.to_nat max_len).
Definition BUF_strndup (str : bytes) (size : Z) : option bytes := OPENSSL_strndup str size.
Definition BUF_strlcpy (dst src : bytes) (dst_size : Z) : bytes * Z := OPENSSL_strlcpy dst src dst_size.
Definition BUF_strlcat (dst src : bytes) (dst_size : Z) : bytes * Z := OPENSSL_strlcat dst src dst_size.
Definition BUF_memdup (d : bytes) : option bytes := OPENSSL_memdup d.
End buf.

(** * Well-formed buffers and what they hold *)

Record buf_wf (buf : BUF_MEM) : Prop := {
  buf_wf_length : 0 <= buf_length buf <= buf_max buf;
  buf_wf_max : buf_max buf < 2 ^ 64;
  buf_wf_data : lenZ (storage buf) = buf_max buf;
}.

Definition contents (buf : BUF_MEM) : bytes := takeZ (buf_length buf) (storage buf).

Section buf_facts.
Context {libc : Libc}.

(** Whether it works or not, reserving keeps the contents; on success there is room. *)
Lemma reserve_spec cap buf :
  buf_wf buf → fits 64 cap →
  let '(r, buf') := BUF_MEM_reserve cap buf in
  buf_wf buf' ∧ contents buf' = contents buf ∧ buf_length buf' = buf_length buf ∧
  match r with Some _ => cap <= buf_max buf' | None => buf' = buf end.
Proof.
  intros [Hl Hm Hd] Hcap. unfold BUF_MEM_reserve, mbind, M_bind, getS, ensure, liftO, putS, mret, M_ret.
  destruct (Z.leb_spec cap (buf_max buf)); [done|].
  destruct (Z.ltb_spec (size_t (cap + 3)) cap); cbn [negb]; [done|].
  set (n := size_t (cap + 3) / 3). set (a := size_t (n * 4)).
  destruct (Z.eqb_spec (a / 4) n) as [He|]; [|done].
  assert (cap <= a ∧ 0 <= a < 2 ^ 64) as [Hca Ha].
  { assert (size_t (cap + 3) = cap + 3) by mlia. unfold a, n in *. mlia. }
  clearbody a. clear n He.
  destruct (OPENSSL_realloc (buf_data buf) a) as [p|] eqn:Hr; [|done].
  assert (lenZ p = a ∧ takeZ (lenZ (storage buf)) p = storage buf) as [Hp Ht].
  { unfold storage in *. destruct (buf_data buf) as [o|]; cbn in Hd |- *.
    - apply OPENSSL_realloc_spec in Hr; [done|lia].
    - cbn in Hr. apply OPENSSL_malloc_len in Hr; [done|lia]. }
  assert (contents {| buf_length := buf_length buf; buf_data := Some p; buf_max := a |} = contents buf) as Hc.
  { unfold contents at 1, storage at 1. cbn. unfold contents. rewrite <-Ht, takeZ_takeZ; [done|lia]. }
  split; [split; cbn; lia|]. done.
Qed.

Lemma storage_store buf off d : buf_wf buf → 0 < buf_max buf → storage (buf_store off d buf).2 = write_at (storage buf) off d.
Proof.
  intros [_ _ Hd] Hm. unfold storage in *. cbn. destruct (buf_data buf); [done|]. cbn in Hd. llia.
Qed.

(** [BUF_MEM_append] appends the data or, when it fails, leaves the contents. *)
Theorem append_spec d buf :
  buf_wf buf → lenZ d < 2 ^ 64 →
  let '(r, buf') := BUF_MEM_append d buf in
  buf_wf buf' ∧ contents buf' = match r with Some _ => contents buf ++ d | None => contents buf end.
Proof.
  intros Hwf Hd. pose proof Hwf as [Hl Hm Hdt]. unfold BUF_MEM_append.
  destruct (Z.eqb_spec (lenZ d) 0) as [H0|H0].
  { apply Z.eq_le_incl, lenZ_0_nil in H0 as ->. cbn. by rewrite app_nil_r. }
  unfold getS. unfold mbind at 1, M_bind at 1. unfold ensure. unfold mbind at 1, M_bind at 1.
  destruct (Z.ltb_spec (size_t (buf_length buf + lenZ d)) (lenZ d)); cbn [negb]; [done|].
  assert (size_t (buf_length buf + lenZ d) = buf_length buf + lenZ d) as Hsz by llia.
  rewrite Hsz. pose proof (lenZ_nonneg d).
  pose proof (reserve_spec (buf_length buf + lenZ d) buf Hwf ltac:(mlia)) as Hr.
  unfold mbind at 1, M_bind at 1. destruct (BUF_MEM_reserve _ buf) as [[u|] b1]; destruct Hr as (Hwf1 & Hc1 & Hl1 & Hx).
  2:{ by subst. }
  pose proof Hwf1 as [Hl1' Hm1 Hd1]. unfold mbind, M_bind. unfold set_length, modifyS.
  pose proof (storage_store b1 (buf_length b1) d Hwf1 ltac:(lia)) as Hst. cbn in Hst |- *. unfold storage in Hst. cbn in Hst.
  split.
  - split; cbn; [lia|done|]. unfold storage. cbn. rewrite Hst. rewrite lenZ_write_at; [done|lia|].
    fold (storage b1). lia.
  - unfold contents at 1, storage at 1. cbn. rewrite Hst. fold (storage b1).
    rewrite takeZ_write_at by lia. fold (contents b1). by rewrite Hc1.
Qed.

(** [BUF_MEM_grow] pads the contents with zeros or truncates them to the length
    asked for or, when it fails, leaves them. *)
Theorem grow_spec n buf :
  buf_wf buf → fits 64 n →
  let '(r, buf') := BUF_MEM_grow n buf in
  buf_wf buf' ∧
  match r with
  | Some m => m = n ∧ contents buf' =
      takeZ n (contents buf) ++ replicate (Z.to_nat (n - buf_length buf)) 0
  | None => contents buf' = contents buf
  end.
Proof.
  intros Hwf Hn. unfold BUF_MEM_grow. unfold mbind at 1, M_bind at 1.
  pose proof (reserve_spec n buf Hwf Hn) as Hr.
  destruct (BUF_MEM_reserve n buf) as [[u|] b1]; destruct Hr as (Hwf1 & Hc1 & Hl1 & Hx); [|done].
  pose proof Hwf1 as [Hl1' Hm1 Hd1]. unfold getS. unfold mbind at 1, M_bind at 1. unfold mbind at 1, M_bind at 1.
  assert (lenZ (contents buf) = buf_length buf) as Hlc.
  { rewrite <-Hc1, <-Hl1. unfold contents. apply lenZ_takeZ. lia. }
  destruct (Z.ltb_spec (buf_length b1) n) as [Hlt|Hge].
  - set (z := replicate _ 0). assert (lenZ z = n - buf_length b1) as Hz by (unfold z; rewrite lenZ_replicate; lia).
    pose proof (storage_store b1 (buf_length b1) z Hwf1 ltac:(lia)) as Hst. unfold storage in Hst. cbn in Hst |- *.
    split; [split; cbn; [unfold fits in Hn; lia|done|]|split; [done|]].
    + unfold storage. cbn. rewrite Hst. fold (storage b1). rewrite lenZ_write_at; lia.
    + unfold contents at 1, storage at 1. cbn. rewrite Hst. fold (storage b1). rewrite takeZ_write_at by lia.
      fold (contents b1). rewrite Hc1, takeZ_all by lia. unfold z. by rewrite Hl1.
  - cbn. split; [split; cbn; [unfold fits in Hn; lia|done|done]|split; [done|]].
    replace (Z.to_nat (n - buf_length buf)) with O by lia. cbn. rewrite app_nil_r, <-Hc1.
    unfold contents, storage. cbn. rewrite takeZ_takeZ; [done|lia].
Qed.
End buf_facts.

Definition buf_ab : BUF_MEM := {| buf_length := 2; buf_data := Some [97; 98; 0; 0]; buf_max := 4 |}.

Lemma buf_ab_wf : buf_wf buf_ab.
Proof. split; vm_compute; [split; congruence|reflexivity|reflexivity]. Qed.

Lemma append_spec_witness :
  let '(r, buf') := @BUF_MEM_append calloc_libc [99; 100; 101] buf_ab in
  buf_wf buf' ∧ contents buf' = match r with Some _ => [97; 98; 99; 100; 101] | None => [97; 98] end.
Proof. apply (@append_spec calloc_libc [99; 100; 101] buf_ab buf_ab_wf). reflexivity. Defined.

Lemma grow_spec_witness :
  let '(r, buf') := @BUF_MEM_grow calloc_libc 6 buf_ab in
  buf_wf buf' ∧
  match r with
  | Some m => m = 6 ∧ contents buf' = takeZ 6 (contents buf_ab) ++ replicate (Z.to_nat (6 - 2)) 0
  | None => contents buf' = contents buf_ab
  end.
Proof. apply (@grow_spec calloc_libc 6 buf_ab buf_ab_wf). decide_now. Defined.
