(* ===== verification/TimeSupport.v ===== *)
(** Calendar arithmetic:
    src/HolyWater-Test/Pods/BoringSSL-GRPC/src/crypto/asn1/time_support.c.

    [int] is 32 bits wide; a signed overflow is undefined in C and wraps in the
    model.  Division truncates ([Z.quot]).  [OPENSSL_gmtime] is libc's [gmtime_r]
    and is not modelled. *)
From S2P Require Import Prelude.

Definition int (z : Z) : Z := (z + 2 ^ 31) mod 2 ^ 32 - 2 ^ 31.
Definition int_ok (z : Z) : Prop := - 2 ^ 31 <= z < 2 ^ 31.

Definition SECS_PER_DAY : Z := 24 * 60 * 60.

(** [struct tm], the fields that are used. *)
Record tm := {
  tm_sec : Z;
  tm_min : Z;
  tm_hour : Z;
  tm_mday : Z;
  tm_mon : Z;
  tm_year : Z;
}.

Definition date_to_julian (y m d : Z) : Z :=
  let a := Z.quot (m - 14) 12 in
  int (Z.quot (int (1461 * int (y + 4800 + a))) 4 +
       Z.quot (int (367 * (m - 2 - 12 * a))) 12 -
       Z.quot (int (3 * Z.quot (int (y + 4900 + a)) 100)) 4 + d - 32075).

(** [*y], [*m] and [*d] *)
Definition julian_to_date (jd : Z) : Z * Z * Z :=
  let L := jd + 68569 in
  let n := Z.quot (4 * L) 146097 in
  let L := L - Z.quot (146097 * n + 3) 4 in
  let i := Z.quot (4000 * (L + 1)) 1461001 in
  let L := L - Z.quot (1461 * i) 4 + 31 in
  let j := Z.quot (80 * L) 2447 in
  let d := int (L - Z.quot (2447 * j) 80) in
  let L := Z.quot j 11 in
  let m := int (j + 2 - 12 * L) in
  let y := int (100 * (n - 49) + i + L) in
  (y, m, d).

(** [*pday] and [*psec] *)
Definition julian_adj (t : tm) (off_day offset_sec : Z) : option (Z * Z) :=
  let offset_day := int (Z.quot offset_sec SECS_PER_DAY) in
  let offset_hms := int (offset_sec - int (offset_day * SECS_PER_DAY)) in
  let offset_day := int (offset_day + off_day) in
  let offset_hms := int (offset_hms + int (tm_hour t * 3600 + tm_min t * 60 + tm_sec t)) in
  let '(offset_day, offset_hms) :=
    if SECS_PER_DAY <=? offset_hms then (int (offset_day + 1), offset_hms - SECS_PER_DAY)
    else if offset_hms <? 0 then (int (offset_day - 1), offset_hms + SECS_PER_DAY)
    else (offset_day, offset_hms) in
  let time_year := int (tm_year t + 1900) in
  let time_month := int (tm_mon t + 1) in
  let time_jd := date_to_julian time_year time_month (tm_mday t) + offset_day in
  if time_jd <? 0 then None else Some (time_jd, offset_hms).

(** The updated [*tm]; [None] when 0 is returned and [*tm] is left alone. *)
Definition OPENSSL_gmtime_adj (t : tm) (off_day offset_sec : Z) : option tm :=
  '(time_jd, time_sec) ← julian_adj t off_day offset_sec;
  let '(time_year, time_month, time_day) := julian_to_date time_jd in
  if (time_year <? 1900) || (9999 <? time_year) then None
  else Some {| tm_year := time_year - 1900; tm_mon := time_month - 1; tm_mday := time_day;
               tm_hour := Z.quot time_sec 3600; tm_min := Z.rem (Z.quot time_sec 60) 60;
               tm_sec := Z.rem time_sec 60 |}.

(** [*out_days] and [*out_secs] *)
Definition OPENSSL_gmtime_diff (from to : tm) : option (Z * Z) :=
  '(from_jd, from_sec) ← julian_adj from 0 0;
  '(to_jd, to_sec) ← julian_adj to 0 0;
  let diff_day := to_jd - from_jd in
  let diff_sec := to_sec - from_sec in
  let '(diff_day, diff_sec) :=
    if (0 <? diff_day) && (diff_sec <? 0) then (diff_day - 1, diff_sec + SECS_PER_DAY)
    else (diff_day, diff_sec) in
  let '(diff_day, diff_sec) :=
    if (diff_day <? 0) && (0 <? diff_sec) then (diff_day + 1, diff_sec - SECS_PER_DAY)
    else (diff_day, diff_sec) in
  Some (int diff_day, diff_sec).

(** * The Gregorian calendar *)

Definition is_leap (y : Z) : bool := ((y mod 4 =? 0) && negb (y mod 100 =? 0)) || (y mod 400 =? 0).

Definition days_in_month (y m : Z) : Z :=
  if m =? 2 then (if is_leap y then 29 else 28)
  else if (m =? 4) || (m =? 6) || (m =? 9) || (m =? 11) then 30 else 31.

Definition valid_date (y m d : Z) : Prop := 1 <= m <= 12 ∧ 1 <= d <= days_in_month y m.

Definition next_day (y m d : Z) : Z * Z * Z :=
  if d <? days_in_month y m then (y, m, d + 1)
  else if m <? 12 then (y, m + 1, 1)
  else (y + 1, 1, 1).

(** The day number as a formula on unbounded integers. *)
Definition julian (y m d : Z) : Z :=
  let a := if m <=? 2 then -1 else 0 in
  (1461 * (y + 4800 + a)) / 4 + (367 * (m - 2 - 12 * a)) / 12 - (3 * ((y + 4900 + a) / 100)) / 4 + d - 32075.

Lemma int_small z : int_ok z → int z = z.
Proof. unfold int, int_ok. change (2 ^ 31) with 2147483648. change (2 ^ 32) with 4294967296. lia. Qed.

Lemma month_cases (P : Z → Prop) :
  P 1 → P 2 → P 3 → P 4 → P 5 → P 6 → P 7 → P 8 → P 9 → P 10 → P 11 → P 12 →
  ∀ m, 1 <= m <= 12 → P m.
Proof.
  intros. assert (m = 1 ∨ m = 2 ∨ m = 3 ∨ m = 4 ∨ m = 5 ∨ m = 6 ∨ m = 7 ∨ m = 8 ∨ m = 9 ∨ m = 10 ∨ m = 11 ∨ m = 12)
    as Hm by lia. destruct Hm as [->|[->|[->|[->|[->|[->|[->|[->|[->|[->|[->| ->]]]]]]]]]]]; assumption.
Qed.

Lemma days_in_month_bound y m : 28 <= days_in_month y m <= 31.
Proof.
  unfold days_in_month. destruct (m =? 2); [destruct (is_leap y); lia|].
  destruct ((m =? 4) || (m =? 6) || (m =? 9) || (m =? 11)); lia.
Qed.

Lemma quot_div a b : 0 <= a → 0 < b → Z.quot a b = a / b.
Proof. intros. apply Z.quot_div_nonneg; lia. Qed.

Lemma date_to_julian_eq y m d :
  -4713 <= y <= 1000000 → 1 <= m <= 12 → 1 <= d <= 31 → date_to_julian y m d = julian y m d.
Proof.
  intros Hy Hm Hd. unfold date_to_julian, julian.
  assert (Z.quot (m - 14) 12 = if m <=? 2 then -1 else 0) as -> by (revert m Hm; by apply month_cases).
  remember (if m <=? 2 then -1 else 0) as a eqn:Hae.
  assert (-1 <= a <= 0 ∧ 1 <= m - 2 - 12 * a <= 12) as [Ha Hma] by (subst a; destruct (Z.leb_spec m 2); lia).
  clear Hae.
  assert (int_ok 2147483647) as Hmax by done.
  assert (∀ z, -2147483648 <= z <= 2147483647 → int z = z) as Hi by (intros; apply int_small; unfold int_ok; change (2 ^ 31) with 2147483648; lia).
  rewrite (Hi (y + 4800 + a)) by lia. rewrite (Hi (1461 * (y + 4800 + a))) by lia.
  rewrite (Hi (367 * (m - 2 - 12 * a))) by lia. rewrite (Hi (y + 4900 + a)) by lia.
  rewrite (quot_div (y + 4900 + a) 100) by lia.
  assert (0 <= (y + 4900 + a) / 100 <= 10050) by lia.
  rewrite (Hi (3 * ((y + 4900 + a) / 100))) by lia.
  rewrite !(quot_div _ 4), (quot_div _ 12) by lia. apply Hi. lia.
Qed.

(** * The day number counts days *)

Lemma is_leap_cases y :
  is_leap y = true ∧ (y mod 4 = 0 ∧ (y mod 100 ≠ 0 ∨ y mod 400 = 0)) ∨
  is_leap y = false ∧ (y mod 4 ≠ 0 ∨ (y mod 100 = 0 ∧ y mod 400 ≠ 0)).
Proof.
  unfold is_leap. destruct (Z.eqb_spec (y mod 4) 0), (Z.eqb_spec (y mod 100) 0), (Z.eqb_spec (y mod 400) 0); cbn; lia.
Qed.

(** The days before a year that starts in March, and before a month in it. *)
Definition era (Y : Z) : Z := 1461 * Y / 4 - 3 * ((Y + 100) / 100) / 4.
Definition shift (m : Z) : Z := if m <=? 2 then -1 else 0.
Definition month_offset (m : Z) : Z := 367 * (m - 2 - 12 * shift m) / 12.

Lemma julian_era y m d : julian y m d = era (y + 4800 + shift m) + month_offset m + d - 32075.
Proof.
  unfold julian, era, month_offset. fold (shift m).
  replace (y + 4800 + shift m + 100) with (y + 4900 + shift m) by lia. lia.
Qed.

Lemma era_step y : era (y + 4800) = era (y + 4799) + (if is_leap y then 366 else 365).
Proof.
  unfold era. replace (y + 4800 + 100) with (y + 4900) by lia. replace (y + 4799 + 100) with (y + 4899) by lia.
  destruct (is_leap_cases y) as [[-> H]|[-> H]]; lia.
Qed.

Ltac eval_month :=
  repeat match goal with
  | |- context [month_offset ?k] => let v := eval vm_compute in (month_offset k) in change (month_offset k) with v
  | |- context [shift ?k] => let v := eval vm_compute in (shift k) in change (shift k) with v
  end.

(** The end of a month, in a year that is not over. *)
Lemma month_end y m :
  1 <= m <= 12 → m < 12 → julian y (m + 1) 1 = julian y m (days_in_month y m) + 1.
Proof.
  rewrite !julian_era. revert m.
  apply (month_cases (λ m, m < 12 →
    era (y + 4800 + shift (m + 1)) + month_offset (m + 1) + 1 - 32075 =
    era (y + 4800 + shift m) + month_offset m + days_in_month y m - 32075 + 1));
    intros ?; eval_month; unfold days_in_month; cbn [Z.eqb Pos.eqb orb]; try lia.
  replace (y + 4800 + 0) with (y + 4800) by lia. replace (y + 4800 + -1) with (y + 4799) by lia.
  rewrite era_step. destruct (is_leap y); lia.
Qed.

Lemma next_day_spec y m d :
  valid_date y m d →
  let '(y', m', d') := next_day y m d in valid_date y' m' d' ∧ julian y' m' d' = julian y m d + 1.
Proof.
  intros [Hm Hd]. unfold next_day. pose proof (days_in_month_bound y m) as Hb.
  destruct (Z.ltb_spec d (days_in_month y m)).
  { split; [split; [done|lia]|unfold julian; lia]. }
  assert (d = days_in_month y m) as -> by lia. destruct (Z.ltb_spec m 12).
  - split; [split; [lia|pose proof (days_in_month_bound y (m + 1)); lia]|]. by apply month_end.
  - assert (m = 12) as -> by lia. split; [split; [lia|pose proof (days_in_month_bound (y + 1) 1); lia]|].
    rewrite !julian_era. change (days_in_month y 12) with 31. eval_month.
    replace (y + 1 + 4800 + -1) with (y + 4800 + 0) by lia. lia.
Qed.

(** * Back to a date *)

(** A March year, split into centuries. *)
Lemma era_century Y : 0 <= Y → era Y = 146097 * (Y / 100) / 4 + 1461 * (Y mod 100) / 4.
Proof. intros HY. unfold era. lia. Qed.

(** The day of a March year, from 0; the last one only in a leap year. *)
Lemma month_offset_bound y m d :
  valid_date y m d →
  0 <= month_offset m + d - 31 <= 365 ∧
  (month_offset m + d - 31 = 365 → shift m = -1 ∧ is_leap y = true).
Proof.
  intros [Hm Hd]. revert m Hm Hd.
  apply (month_cases (λ m, 1 <= d <= days_in_month y m → 0 <= month_offset m + d - 31 <= 365 ∧
    (month_offset m + d - 31 = 365 → shift m = -1 ∧ is_leap y = true)));
    eval_month; unfold days_in_month; cbn [Z.eqb Pos.eqb orb]; try (intros Hd; lia).
  destruct (is_leap y); intros Hd; lia.
Qed.

(** Month and day from the day of the year, counted from the end of February. *)
Lemma month_of_day y m d :
  valid_date y m d →
  let j := 80 * (month_offset m + d) / 2447 in
  month_offset m + d - 2447 * j / 80 = d ∧ j + 2 - 12 * (j / 11) = m ∧ j / 11 = - shift m.
Proof.
  intros [Hm Hd]. revert m Hm Hd.
  apply (month_cases (λ m, 1 <= d <= days_in_month y m →
    let j := 80 * (month_offset m + d) / 2447 in
    month_offset m + d - 2447 * j / 80 = d ∧ j + 2 - 12 * (j / 11) = m ∧ j / 11 = - shift m));
    eval_month; unfold days_in_month; cbn [Z.eqb Pos.eqb orb]; try (intros Hd; lia).
  destruct (is_leap y); intros Hd; lia.
Qed.

Lemma century_of_day C r t :
  0 <= C → 0 <= r < 100 → 0 <= t <= 365 → (t = 365 → (r = 99 → C mod 4 = 3) ∧ r mod 4 = 3) →
  let L := 146097 * C / 4 + 1461 * r / 4 + t + 36525 in
  4 * L / 146097 = C + 1 ∧ L - (146097 * (C + 1) + 3) / 4 = 1461 * r / 4 + t.
Proof. intros HC Hr Ht H365 L. unfold L. lia. Qed.

Lemma year_of_day r t :
  0 <= r < 100 → 0 <= t <= 365 → (t = 365 → r mod 4 = 3) →
  4000 * (1461 * r / 4 + t + 1) / 1461001 = r.
Proof. intros. lia. Qed.

Lemma julian_to_date_julian y m d :
  valid_date y m d → -4713 <= y <= 100000000 → julian_to_date (julian y m d) = (y, m, d).
Proof.
  intros Hv Hy. pose proof (month_offset_bound y m d Hv) as [Ht H365].
  pose proof (month_of_day y m d Hv) as (Hd & Hm & Hj). destruct Hv as [Hm12 Hdv].
  pose proof (days_in_month_bound y m) as Hdim.
  assert (-1 <= shift m <= 0) as Hs by (unfold shift; destruct (m <=? 2); lia).
  set (Y := y + 4800 + shift m). set (t := month_offset m + d - 31) in *.
  assert (∀ z, -2147483648 <= z <= 2147483647 → int z = z) as Hi
    by (intros; apply int_small; unfold int_ok; change (2 ^ 31) with 2147483648; lia).
  assert (0 <= Y) as HY by (unfold Y; lia).
  assert (t = 365 → (Y mod 100 = 99 → (Y / 100) mod 4 = 3) ∧ (Y mod 100) mod 4 = 3) as Hlast.
  { intros Ht365. destruct (H365 Ht365) as [Hsh Hl]. unfold Y. rewrite Hsh.
    destruct (is_leap_cases y) as [[_ Hc]|[Hc _]]; [lia|congruence]. }
  unfold julian_to_date. rewrite julian_era. fold Y. rewrite era_century by done.
  replace (146097 * (Y / 100) / 4 + 1461 * (Y mod 100) / 4 + month_offset m + d - 32075 + 68569)
    with (146097 * (Y / 100) / 4 + 1461 * (Y mod 100) / 4 + t + 36525) by (unfold t; lia).
  assert (0 <= Y / 100 ∧ 0 <= Y mod 100 < 100) as [HC Hr] by lia.
  destruct (century_of_day (Y / 100) (Y mod 100) t HC Hr Ht Hlast) as [Hn HL].
  set (L := 146097 * (Y / 100) / 4 + 1461 * (Y mod 100) / 4 + t + 36525) in *.
  assert (0 <= L) as HL0 by (unfold L; lia).
  rewrite (quot_div (4 * L)), Hn by lia. rewrite (quot_div (146097 * _ + 3)), HL by lia.
  rewrite (quot_div (4000 * _)), year_of_day by (lia || (intros; apply Hlast; lia)).
  rewrite (quot_div (1461 * _)) by lia.
  replace (1461 * (Y mod 100) / 4 + t - 1461 * (Y mod 100) / 4 + 31) with (month_offset m + d) by (unfold t; lia).
  rewrite (quot_div (80 * _)) by lia. set (j := 80 * (month_offset m + d) / 2447) in *.
  assert (0 <= j) by (unfold j; lia).
  rewrite (quot_div (2447 * j)), (quot_div j), Hd, Hm, Hj by lia.
  assert (100 * (Y / 100 + 1 - 49) + Y mod 100 + - shift m = y) as -> by (unfold Y in *; lia).
  by rewrite !Hi by lia.
Qed.

(** Every day number from 0 on is that of a date. *)
Lemma julian_onto n : ∃ y m d, valid_date y m d ∧ julian y m d = Z.of_nat n ∧ -4713 <= y <= -4713 + Z.of_nat n.
Proof.
  induction n as [|n (y & m & d & Hv & Hj & Hy)].
  - exists (-4713), 11, 24. split_and!; done.
  - pose proof (next_day_spec y m d Hv) as Hn. destruct (next_day y m d) as [[y' m'] d'] eqn:He.
    destruct Hn as [Hv' Hj']. exists y', m', d'. split; [done|]. split; [lia|].
    unfold next_day in He. destruct (_ <? _); [|destruct (_ <? _)]; injection He as <- <- <-; lia.
Qed.

(** * Times *)

Definition time_of_day (t : tm) : Z := tm_hour t * 3600 + tm_min t * 60 + tm_sec t.

(** Seconds since the start of day 0. *)
Definition tm_seconds (t : tm) : Z :=
  julian (tm_year t + 1900) (tm_mon t + 1) (tm_mday t) * SECS_PER_DAY + time_of_day t.

(** A broken-down time; the last second of a day may be a leap second. *)
Definition tm_ok (t : tm) : Prop :=
  valid_date (tm_year t + 1900) (tm_mon t + 1) (tm_mday t) ∧ 0 <= tm_year t + 1900 <= 9999 ∧
  0 <= time_of_day t <= SECS_PER_DAY.

(** One whose fields are in their ranges, without leap seconds. *)
Definition tm_normal (t : tm) : Prop :=
  valid_date (tm_year t + 1900) (tm_mon t + 1) (tm_mday t) ∧ 1900 <= tm_year t + 1900 <= 9999 ∧
  0 <= tm_hour t < 24 ∧ 0 <= tm_min t < 60 ∧ 0 <= tm_sec t < 60.

(** Offsets whose days an [int] can count. *)
Definition offset_ok (off_day offset_sec : Z) : Prop :=
  let days := Z.quot offset_sec SECS_PER_DAY in
  int_ok days ∧ - 2 ^ 31 < days + off_day < 2 ^ 31 - 1.

Lemma int_sub a b : int_ok (a - b) → int (a - int b) = a - b.
Proof. unfold int, int_ok. change (2 ^ 31) with 2147483648. change (2 ^ 32) with 4294967296. lia. Qed.

Lemma quot_rem_day os : ∃ r, os = SECS_PER_DAY * Z.quot os SECS_PER_DAY + r ∧ - SECS_PER_DAY < r < SECS_PER_DAY.
Proof.
  exists (Z.rem os SECS_PER_DAY). split; [apply Z.quot_rem'|].
  pose proof (Z.rem_bound_abs os SECS_PER_DAY ltac:(done)) as Hr. unfold SECS_PER_DAY in *. lia.
Qed.

Lemma julian_adj_spec t od os :
  tm_ok t → offset_ok od os →
  let total := tm_seconds t + od * SECS_PER_DAY + os in
  julian_adj t od os =
    if total / SECS_PER_DAY <? 0 then None else Some (total / SECS_PER_DAY, total mod SECS_PER_DAY).
Proof.
  intros (Hv & Hy & Htod) [Hq Hsum] total. unfold julian_adj. destruct (quot_rem_day os) as (r & Hos & Hr).
  set (q := Z.quot os SECS_PER_DAY) in *. pose proof (days_in_month_bound (tm_year t + 1900) (tm_mon t + 1)) as Hdim.
  assert (∀ z, -2147483648 <= z <= 2147483647 → int z = z) as Hi
    by (intros; apply int_small; unfold int_ok; change (2 ^ 31) with 2147483648; lia).
  unfold int_ok in Hq. change (2 ^ 31) with 2147483648 in *. unfold SECS_PER_DAY, time_of_day in *.
  rewrite (Hi q) by lia.
  rewrite int_sub by (unfold int_ok; change (2 ^ 31) with 2147483648; lia).
  replace (os - q * (24 * 60 * 60)) with r by lia.
  rewrite (Hi (q + od)), (Hi (tm_hour t * 3600 + tm_min t * 60 + tm_sec t)) by lia.
  set (tod := tm_hour t * 3600 + tm_min t * 60 + tm_sec t) in *.
  rewrite (Hi (r + tod)), (Hi (tm_year t + 1900)) by lia. destruct Hv as [Hm Hd]. rewrite (Hi (tm_mon t + 1)) by lia.
  rewrite date_to_julian_eq by lia. set (jd := julian _ _ _) in *.
  assert (total = (jd + q + od) * (24 * 60 * 60) + (r + tod)) as Ht.
  { unfold total, tm_seconds, SECS_PER_DAY, time_of_day. fold jd. fold tod. lia. }
  clearbody total jd q tod. subst total.
  destruct (Z.leb_spec (24 * 60 * 60) (r + tod)).
  - rewrite Hi by lia.
    assert (((jd + q + od) * (24 * 60 * 60) + (r + tod)) / (24 * 60 * 60) = jd + (q + od + 1)) as -> by lia.
    assert (((jd + q + od) * (24 * 60 * 60) + (r + tod)) mod (24 * 60 * 60) = r + tod - 24 * 60 * 60) as -> by lia.
    done.
  - destruct (Z.ltb_spec (r + tod) 0).
    + rewrite Hi by lia.
      assert (((jd + q + od) * (24 * 60 * 60) + (r + tod)) / (24 * 60 * 60) = jd + (q + od - 1)) as -> by lia.
      assert (((jd + q + od) * (24 * 60 * 60) + (r + tod)) mod (24 * 60 * 60) = r + tod + 24 * 60 * 60) as -> by lia.
      done.
    + assert (((jd + q + od) * (24 * 60 * 60) + (r + tod)) / (24 * 60 * 60) = jd + (q + od)) as -> by lia.
      assert (((jd + q + od) * (24 * 60 * 60) + (r + tod)) mod (24 * 60 * 60) = r + tod) as -> by lia.
      done.
Qed.

Lemma era_bounds Y : 0 <= Y → 365 * Y - 1 <= era Y <= 366 * Y.
Proof. unfold era. lia. Qed.

Lemma julian_bounds y m d :
  valid_date y m d → -4713 <= y → 365 * (y + 4799) - 32046 <= julian y m d <= 366 * (y + 4800) - 31679.
Proof.
  intros Hv Hy. pose proof (month_offset_bound y m d Hv) as [Ht _]. rewrite julian_era.
  assert (-1 <= shift m <= 0) as Hs by (unfold shift; destruct (m <=? 2); lia).
  pose proof (era_bounds (y + 4800 + shift m)). lia.
Qed.

(** A day number that counts days of this calendar comes from one date. *)
Lemma julian_to_date_spec jd :
  0 <= jd < 2 ^ 33 →
  ∃ y m d, julian_to_date jd = (y, m, d) ∧ valid_date y m d ∧ julian y m d = jd ∧ -4713 <= y <= 100000000.
Proof.
  change (2 ^ 33) with 8589934592. intros Hjd.
  destruct (julian_onto (Z.to_nat jd)) as (y & m & d & Hv & Hj & Hy).
  rewrite Z2Nat.id in Hj by lia. pose proof (julian_bounds y m d Hv ltac:(lia)) as Hb.
  exists y, m, d. split; [|by split_and!; lia || done]. rewrite <-Hj. apply julian_to_date_julian; [done|lia].
Qed.

Lemma quot_rem_time s :
  0 <= s < SECS_PER_DAY →
  let h := Z.quot s 3600 in let mi := Z.rem (Z.quot s 60) 60 in let se := Z.rem s 60 in
  0 <= h < 24 ∧ 0 <= mi < 60 ∧ 0 <= se < 60 ∧ h * 3600 + mi * 60 + se = s.
Proof.
  unfold SECS_PER_DAY. intros Hs. rewrite !quot_div, !Z.rem_mod_nonneg by lia. lia.
Qed.

Lemma tm_normal_unique t t' :
  tm_normal t → tm_normal t' → tm_seconds t = tm_seconds t' → t = t'.
Proof.
  intros (Hv & Hy & Hh & Hm & Hs) (Hv' & Hy' & Hh' & Hm' & Hs') He.
  unfold tm_seconds, time_of_day, SECS_PER_DAY in He.
  assert (julian (tm_year t + 1900) (tm_mon t + 1) (tm_mday t) =
          julian (tm_year t' + 1900) (tm_mon t' + 1) (tm_mday t')) as Hj by lia.
  pose proof (julian_to_date_julian _ _ _ Hv ltac:(lia)) as H1.
  pose proof (julian_to_date_julian _ _ _ Hv' ltac:(lia)) as H2. rewrite Hj, H2 in H1. injection H1 as H1 H3 H4.
  destruct t, t'; cbn in *. f_equal; lia.
Qed.

(** [OPENSSL_gmtime_adj] succeeds exactly when the moment that many days and
    seconds away lies in the years 1900 to 9999, and gives its normalised broken-down
    form. *)
Theorem gmtime_adj_spec t od os t' :
  tm_ok t → offset_ok od os →
  OPENSSL_gmtime_adj t od os = Some t' ↔
  tm_normal t' ∧ tm_seconds t' = tm_seconds t + od * SECS_PER_DAY + os.
Proof.
  intros Ht Ho. unfold OPENSSL_gmtime_adj. rewrite julian_adj_spec by done. cbv zeta.
  set (total := tm_seconds t + od * SECS_PER_DAY + os).
  assert (total < 2 ^ 33 * SECS_PER_DAY) as Htot.
  { destruct Ht as (Hv & Hy & Htod), Ho as [Hq Hsum]. destruct (quot_rem_day os) as (r & Hos & Hr).
    pose proof (julian_bounds _ _ _ Hv ltac:(lia)). unfold total, tm_seconds, SECS_PER_DAY in *.
    change (2 ^ 33) with 8589934592. change (2 ^ 31) with 2147483648 in *. lia. }
  assert (total = total / SECS_PER_DAY * SECS_PER_DAY + total mod SECS_PER_DAY ∧
          0 <= total mod SECS_PER_DAY < SECS_PER_DAY) as [Hdm Hmod] by (unfold SECS_PER_DAY; lia).
  set (jd := total / SECS_PER_DAY) in *. set (s := total mod SECS_PER_DAY) in *.
  clearbody jd s. clearbody total. subst total.
  destruct (Z.ltb_spec jd 0) as [Hneg|Hpos].
  { cbn. split; [done|]. intros [(Hv & Hy & Hh & Hm & Hs) He].
    pose proof (julian_bounds _ _ _ Hv ltac:(lia)). unfold tm_seconds, time_of_day, SECS_PER_DAY in *. lia. }
  cbn [mbind option_bind]. destruct (julian_to_date_spec jd) as (y & m & d & -> & Hv & Hj & Hyb);
    [unfold SECS_PER_DAY in *; lia|].
  destruct (quot_rem_time s Hmod) as (Hh & Hmi & Hse & Hsum).
  assert ((y <? 1900) || (9999 <? y) = false ↔ 1900 <= y <= 9999) as Hrange by (rewrite orb_false_iff; lia).
  set (t1 := {| tm_year := y - 1900; tm_mon := m - 1; tm_mday := d; tm_hour := Z.quot s 3600;
                tm_min := Z.rem (Z.quot s 60) 60; tm_sec := Z.rem s 60 |}).
  assert (tm_seconds t1 = jd * SECS_PER_DAY + s) as Ht1.
  { unfold tm_seconds, time_of_day. cbn. rewrite !Z.sub_add, Hj. lia. }
  assert (1900 <= y <= 9999 → tm_normal t1) as Hn1.
  { intros Hy. unfold tm_normal. cbn. rewrite !Z.sub_add. by split_and!; try lia; apply Hv. }
  destruct ((y <? 1900) || (9999 <? y)) eqn:Hr.
  - split; [done|]. intros [(Hv' & Hy' & Hh' & Hm' & Hs') He].
    assert (julian (tm_year t' + 1900) (tm_mon t' + 1) (tm_mday t') = jd) as Hj'.
    { unfold tm_seconds, time_of_day, SECS_PER_DAY in *. lia. }
    pose proof (julian_to_date_julian _ _ _ Hv' ltac:(lia)) as H1.
    pose proof (julian_to_date_julian _ _ _ Hv Hyb) as H2. rewrite Hj', <-Hj, H2 in H1.
    injection H1 as -> _ _. apply orb_true_iff in Hr as [Hr|Hr]; bools; lia.
  - assert (1900 <= y <= 9999) as Hy by by apply Hrange. split.
    + intros [= <-]. split; [by apply Hn1|done].
    + intros [Hn He]. f_equal. apply tm_normal_unique; [by apply Hn1|done|]. rewrite He. exact Ht1.
Qed.

(** [OPENSSL_gmtime_diff] always succeeds, its days and seconds add up to the
    distance, the seconds are less than a day and never of the opposite sign. *)
Theorem gmtime_diff_spec from to :
  tm_ok from → tm_ok to →
  ∃ days secs, OPENSSL_gmtime_diff from to = Some (days, secs) ∧
    days * SECS_PER_DAY + secs = tm_seconds to - tm_seconds from ∧
    - SECS_PER_DAY < secs < SECS_PER_DAY ∧ (0 < days → 0 <= secs) ∧ (days < 0 → secs <= 0).
Proof.
  intros Hf Ht. unfold OPENSSL_gmtime_diff.
  assert (offset_ok 0 0) as H0 by done.
  rewrite (julian_adj_spec from 0 0 Hf H0), (julian_adj_spec to 0 0 Ht H0). cbv zeta.
  assert (∀ t, tm_ok t → ∃ jd s, (tm_seconds t + 0 * SECS_PER_DAY + 0) / SECS_PER_DAY = jd ∧
    (tm_seconds t + 0 * SECS_PER_DAY + 0) mod SECS_PER_DAY = s ∧ tm_seconds t = jd * SECS_PER_DAY + s ∧
    0 <= s < SECS_PER_DAY ∧ 0 <= jd <= 6000000) as Hsplit.
  { intros t (Hv & Hy & Htod). pose proof (julian_bounds _ _ _ Hv ltac:(lia)).
    eexists _, _. split; [done|]. split; [done|]. unfold tm_seconds, SECS_PER_DAY in *. lia. }
  destruct (Hsplit from Hf) as (j1 & s1 & -> & -> & E1 & Hs1 & Hj1).
  destruct (Hsplit to Ht) as (j2 & s2 & -> & -> & E2 & Hs2 & Hj2). rewrite E1, E2. clear - Hs1 Hs2 Hj1 Hj2.
  unfold SECS_PER_DAY in *.
  destruct (Z.ltb_spec j1 0); [lia|]. destruct (Z.ltb_spec j2 0); [lia|]. cbn [mbind option_bind].
  assert (∀ z, -2147483648 <= z <= 2147483647 → int z = z) as Hi
    by (intros; apply int_small; unfold int_ok; change (2 ^ 31) with 2147483648; lia).
  destruct (Z.ltb_spec 0 (j2 - j1)), (Z.ltb_spec (s2 - s1) 0); cbn [andb].
  all: try match goal with |- context [?a <? 0] => destruct (Z.ltb_spec a 0) end; cbn [andb].
  all: try match goal with |- context [0 <? ?a] => destruct (Z.ltb_spec 0 a) end; cbn [andb].
  all: eexists _, _; split; [reflexivity|]; rewrite Hi by lia; lia.
Qed.

(** 2024-02-28 23:59:59 and the next second, a day and a second later. *)
Definition tm_feb28 : tm := {| tm_year := 124; tm_mon := 1; tm_mday := 28; tm_hour := 23; tm_min := 59; tm_sec := 59 |}.
Definition tm_mar1 : tm := {| tm_year := 124; tm_mon := 2; tm_mday := 1; tm_hour := 0; tm_min := 0; tm_sec := 0 |}.

Lemma gmtime_adj_spec_witness :
  OPENSSL_gmtime_adj tm_feb28 1 1 = Some tm_mar1 ↔
  tm_normal tm_mar1 ∧ tm_seconds tm_mar1 = tm_seconds tm_feb28 + 1 * SECS_PER_DAY + 1.
Proof.
  apply (gmtime_adj_spec tm_feb28 1 1 tm_mar1); repeat split; vm_compute; congruence.
Defined.

Lemma gmtime_diff_spec_witness :
  ∃ days secs, OPENSSL_gmtime_diff tm_feb28 tm_mar1 = Some (days, secs) ∧
    days * SECS_PER_DAY + secs = tm_seconds tm_mar1 - tm_seconds tm_feb28 ∧
    - SECS_PER_DAY < secs < SECS_PER_DAY ∧ (0 < days → 0 <= secs) ∧ (days < 0 → secs <= 0).
Proof.
  apply (gmtime_diff_spec tm_feb28 tm_mar1); repeat split; vm_compute; congruence.
Defined.
