(* ===== verification/PbWire.v ===== *)
(** The streams and the wire format of nanopb:
    src/HolyWater-Test/Pods/nanopb/pb_decode.c and pb_encode.c, up to single
    values; messages are in PbMessage. *)
From stdpp Require Import strings.
From S2P Require Import Prelude.

Open Scope Z_scope.

(** * Machine integers of this library

    [int64_t], [int32_t], ...: the signed reading of the low [w] bits. *)
Definition sint (w z : Z) : Z := wrap w (z + 2 ^ (w - 1)) - 2 ^ (w - 1).

(** [pb_size_t] is [uint32_t] (PB_FIELD_32BIT). *)
Definition PB_SIZE_MAX : Z := 2 ^ 32 - 1.

(** [pb_wire_type_t]; a value read from the wire is any of 0 .. 7. *)
Definition PB_WT_VARINT : Z := 0.
Definition PB_WT_64BIT : Z := 1.
Definition PB_WT_STRING : Z := 2.
Definition PB_WT_32BIT : Z := 5.

(** * Input streams

    [state] points into a buffer: it is the list of the bytes from there to the
    buffer's end, of which the stream may read [bytes_left].  The callback is
    [buf_read], as [pb_istream_from_buffer] sets it. *)
Record pb_istream := {
  is_state : bytes;
  is_bytes_left : Z;
  is_errmsg : option string;
}.

(** PB_RETURN_ERROR: the first message stays. *)
Definition in_error {A} (msg : string) : M pb_istream A := λ s,
  (None, {| is_state := is_state s; is_bytes_left := is_bytes_left s;
            is_errmsg := Some (default msg (is_errmsg s)) |}).

Definition pb_istream_from_buffer (buf : bytes) (bufsize : Z) : pb_istream :=
  {| is_state := buf; is_bytes_left := bufsize; is_errmsg := None |}.

Definition buf_read (count : Z) : M pb_istream bytes := λ s,
  (Some (takeZ count (is_state s)),
   {| is_state := dropZ count (is_state s); is_bytes_left := is_bytes_left s;
      is_errmsg := is_errmsg s |}).

Definition set_bytes_left (n : Z) : M pb_istream () :=
  modifyS (λ s, {| is_state := is_state s; is_bytes_left := n; is_errmsg := is_errmsg s |}).

(** The result is what is copied to [buf]; a NULL [buf] discards it. *)
Definition pb_read (count : Z) : M pb_istream bytes :=
  if count =? 0 then mret []
  else
    s ← getS;
    if is_bytes_left s <? count then in_error "end-of-stream"
    else
      buf ← buf_read count;
      _ ← set_bytes_left (is_bytes_left s - count);
      mret buf.

Definition pb_readbyte : M pb_istream Z :=
  s ← getS;
  if is_bytes_left s =? 0 then in_error "end-of-stream"
  else
    buf ← buf_read 1;
    _ ← set_bytes_left (is_bytes_left s - 1);
    mret (nthZ buf 0).

(** * Decoding varints *)

(** The [do ... while] loop of the multi-byte case; [bitpos] is a
    [uint_fast8_t], of 8 bits.  Every turn reads a byte, so the number of
    bytes bounds the turns.  The result is [byte], [bitpos] and [result]. *)
Fixpoint varint32_loop (fuel : nat) (bitpos result : Z) : M pb_istream (Z * Z * Z) :=
  match fuel with
  | O => ret0
  | S fuel =>
      byte ← pb_readbyte;
      result ← (if 32 <=? bitpos then
                  let sign_extension := if bitpos <? 63 then 0xff else 0x01 in
                  if negb (byte .& 0x7f =? 0) &&
                     ((result ≫ 31 =? 0) || negb (byte =? sign_extension))
                  then in_error "varint overflow"
                  else mret result
                else mret (result .| u32 ((byte .& 0x7f) ≪ bitpos)));
      let bitpos := u8 (bitpos + 7) in
      if negb (byte .& 0x80 =? 0) then varint32_loop fuel bitpos result
      else mret (byte, bitpos, result)
  end.

Definition varint32_multibyte (byte : Z) : M pb_istream Z :=
  s ← getS;
  '(byte, bitpos, result) ← varint32_loop (S (Z.to_nat (is_bytes_left s))) 7 (byte .& 0x7f);
  if (bitpos =? 35) && negb (byte .& 0x70 =? 0) then in_error "varint overflow"
  else mret result.

(** The flag is [*eof], which is only ever set. *)
Definition pb_decode_varint32_eof (stream : pb_istream) (eof : bool)
    : option Z * pb_istream * bool :=
  match pb_readbyte stream with
  | (None, stream) => (None, stream, if is_bytes_left stream =? 0 then true else eof)
  | (Some byte, stream) =>
      ((if byte .& 0x80 =? 0 then mret byte else varint32_multibyte byte) stream, eof)
  end.

Definition pb_decode_varint32 : M pb_istream Z := λ stream,
  (pb_decode_varint32_eof stream false).1.

(** [bitpos] grows by 7 until it is at least 64: eleven turns at most. *)
Fixpoint varint_loop (fuel : nat) (bitpos result : Z) : M pb_istream Z :=
  match fuel with
  | O => ret0
  | S fuel =>
      if 64 <=? bitpos then in_error "varint overflow"
      else
        byte ← pb_readbyte;
        let result := result .| u64 ((byte .& 0x7f) ≪ bitpos) in
        let bitpos := u8 (bitpos + 7) in
        if negb (byte .& 0x80 =? 0) then varint_loop fuel bitpos result
        else mret result
  end.

Definition pb_decode_varint : M pb_istream Z := varint_loop 11 0 0.

(** * Skipping *)

Fixpoint skip_varint_loop (fuel : nat) : M pb_istream () :=
  match fuel with
  | O => ret0
  | S fuel =>
      buf ← pb_read 1;
      if negb (nthZ buf 0 .& 0x80 =? 0) then skip_varint_loop fuel else mret ()
  end.

Definition pb_skip_varint : M pb_istream () :=
  s ← getS;
  skip_varint_loop (S (Z.to_nat (is_bytes_left s))).

Definition pb_skip_string : M pb_istream () :=
  length ← pb_decode_varint32;
  _ ← pb_read length;
  mret ().

(** The wire type and the tag, [*eof], and the stream; on failure the code
    leaves 0 in both out-parameters. *)
Definition pb_decode_tag (stream : pb_istream) : option (Z * Z) * bool * pb_istream :=
  match pb_decode_varint32_eof stream false with
  | (None, stream, eof) => (None, eof, stream)
  | (Some temp, stream, eof) =>
      if temp =? 0 then (None, true, stream)
      else (Some (temp .& 7, temp ≫ 3), eof, stream)
  end.

Definition pb_skip_field (wire_type : Z) : M pb_istream () :=
  if wire_type =? PB_WT_VARINT then pb_skip_varint
  else if wire_type =? PB_WT_64BIT then _ ← pb_read 8; mret ()
  else if wire_type =? PB_WT_STRING then pb_skip_string
  else if wire_type =? PB_WT_32BIT then _ ← pb_read 4; mret ()
  else in_error "invalid wire_type".

(** The bytes copied to [buf] are the result, their number is [*size]. *)
Fixpoint raw_varint_loop (fuel : nat) (size max_size : Z) : M pb_istream bytes :=
  match fuel with
  | O => ret0
  | S fuel =>
      let size := size + 1 in
      if max_size <? size then ret0
      else
        buf ← pb_read 1;
        if negb (nthZ buf 0 .& 0x80 =? 0) then
          rest ← raw_varint_loop fuel size max_size;
          mret (buf ++ rest)
        else mret buf
  end.

Definition read_raw_value (wire_type max_size : Z) : M pb_istream bytes :=
  if wire_type =? PB_WT_VARINT then raw_varint_loop (S (Z.to_nat max_size)) 0 max_size
  else if wire_type =? PB_WT_64BIT then pb_read 8
  else if wire_type =? PB_WT_32BIT then pb_read 4
  else in_error "invalid wire_type".

(** * Substreams *)

Definition pb_make_string_substream : M pb_istream pb_istream :=
  size ← pb_decode_varint32;
  stream ← getS;
  if is_bytes_left stream <? size then in_error "parent stream too short"
  else
    _ ← set_bytes_left (is_bytes_left stream - size);
    mret {| is_state := is_state stream; is_bytes_left := size; is_errmsg := is_errmsg stream |}.

Definition pb_close_string_substream (substream : pb_istream) : M pb_istream () := λ stream,
  let '(ok, substream) :=
    if negb (is_bytes_left substream =? 0) then pb_read (is_bytes_left substream) substream
    else (Some [], substream) in
  match ok with
  | None => (None, stream)
  | Some _ =>
      (Some (), {| is_state := is_state substream; is_bytes_left := is_bytes_left stream;
                   is_errmsg := is_errmsg substream |})
  end.

(** * Decoding values *)

Definition pb_decode_svarint : M pb_istream Z :=
  value ← pb_decode_varint;
  if negb (value .& 1 =? 0) then mret (sint 64 (u64 (Z.lnot (value ≫ 1))))
  else mret (sint 64 (value ≫ 1)).

Definition pb_decode_fixed32 : M pb_istream Z :=
  bytes ← pb_read 4;
  mret ((nthZ bytes 0 ≪ 0) .| (nthZ bytes 1 ≪ 8) .| (nthZ bytes 2 ≪ 16) .|
        (nthZ bytes 3 ≪ 24)).

Definition pb_decode_fixed64 : M pb_istream Z :=
  bytes ← pb_read 8;
  mret ((nthZ bytes 0 ≪ 0) .| (nthZ bytes 1 ≪ 8) .| (nthZ bytes 2 ≪ 16) .|
        (nthZ bytes 3 ≪ 24) .| (nthZ bytes 4 ≪ 32) .| (nthZ bytes 5 ≪ 40) .|
        (nthZ bytes 6 ≪ 48) .| (nthZ bytes 7 ≪ 56)).

(** * Output streams

    A callback writes a block of bytes to what [state] refers to; a stream
    without one only counts.  The type of [state] is the callback's. *)
Record pb_ostream (St : Type) := {
  os_callback : option (St → bytes → bool * St);
  os_state : St;
  os_max_size : Z;
  os_bytes_written : Z;
  os_errmsg : option string;
}.
Arguments os_callback {St} _. Arguments os_state {St} _. Arguments os_max_size {St} _.
Arguments os_bytes_written {St} _. Arguments os_errmsg {St} _.

(** [void *state] of a stream over a buffer: the buffer and the position in it. *)
Record obuf := { ob_bytes : bytes; ob_pos : Z }.
#[global] Instance obuf_inhabited : Inhabited obuf := populate {| ob_bytes := []; ob_pos := 0 |}.

Definition buf_write (dest : obuf) (buf : bytes) : bool * obuf :=
  (true, {| ob_bytes := write_at (ob_bytes dest) (ob_pos dest) buf;
            ob_pos := ob_pos dest + lenZ buf |}).

Definition pb_ostream_from_buffer (buf : bytes) (bufsize : Z) : pb_ostream obuf :=
  {| os_callback := Some buf_write; os_state := {| ob_bytes := buf; ob_pos := 0 |};
     os_max_size := bufsize; os_bytes_written := 0; os_errmsg := None |}.

Section ostream.
Context {St : Type} `{Inhabited St}.

(** [PB_OSTREAM_SIZING]; the inhabitant of [St] stands for NULL. *)
Definition PB_OSTREAM_SIZING : pb_ostream St :=
  {| os_callback := None; os_state := inhabitant; os_max_size := 0; os_bytes_written := 0;
     os_errmsg := None |}.

Definition out_error {A} (msg : string) : M (pb_ostream St) A := λ s,
  (None, {| os_callback := os_callback s; os_state := os_state s; os_max_size := os_max_size s;
            os_bytes_written := os_bytes_written s;
            os_errmsg := Some (default msg (os_errmsg s)) |}).

Definition set_out_state (st : St) : M (pb_ostream St) () := modifyS (λ s,
  {| os_callback := os_callback s; os_state := st; os_max_size := os_max_size s;
     os_bytes_written := os_bytes_written s; os_errmsg := os_errmsg s |}).

Definition set_bytes_written (n : Z) : M (pb_ostream St) () := modifyS (λ s,
  {| os_callback := os_callback s; os_state := os_state s; os_max_size := os_max_size s;
     os_bytes_written := n; os_errmsg := os_errmsg s |}).

(** [buf] holds [count] bytes, or is NULL where only sizes are counted. *)
Definition pb_write (buf : bytes) (count : Z) : M (pb_ostream St) () :=
  stream ← getS;
  _ ← match os_callback stream with
      | Some callback =>
          if 0 <? count then
            if (size_t (os_bytes_written stream + count) <? os_bytes_written stream) ||
               (os_max_size stream <? size_t (os_bytes_written stream + count))
            then out_error "stream full"
            else
              let '(ok, st) := callback (os_state stream) (takeZ count buf) in
              _ ← set_out_state st;
              if (ok : bool) then mret () else out_error "io error"
          else mret ()
      | None => mret ()
      end;
  set_bytes_written (size_t (os_bytes_written stream + count)).

(** * Encoding values *)

(** [while (value)]: ten groups of seven bits hold 64 bits. *)
Fixpoint varint_groups (fuel : nat) (value : Z) : bytes :=
  match fuel with
  | O => []
  | S fuel =>
      if value =? 0 then []
      else u8 ((value .& 0x7f) .| 0x80) :: varint_groups fuel (value ≫ 7)
  end.

Definition pb_encode_varint (value : Z) : M (pb_ostream St) () :=
  if value <=? 0x7f then pb_write [u8 value] 1
  else
    let buffer := varint_groups 10 value in
    let i := lenZ buffer in
    let buffer := write_at buffer (i - 1) [nthZ buffer (i - 1) .& 0x7f] in
    pb_write buffer i.

(** [value] is an [int64_t]. *)
Definition pb_encode_svarint (value : Z) : M (pb_ostream St) () :=
  let zigzagged :=
    if value <? 0 then u64 (Z.lnot (u64 (u64 value ≪ 1))) else u64 (u64 value ≪ 1) in
  pb_encode_varint zigzagged.

Definition pb_encode_fixed32 (val : Z) : M (pb_ostream St) () :=
  pb_write [val .& 0xff; (val ≫ 8) .& 0xff; (val ≫ 16) .& 0xff; (val ≫ 24) .& 0xff] 4.

Definition pb_encode_fixed64 (val : Z) : M (pb_ostream St) () :=
  pb_write [val .& 0xff; (val ≫ 8) .& 0xff; (val ≫ 16) .& 0xff; (val ≫ 24) .& 0xff;
            (val ≫ 32) .& 0xff; (val ≫ 40) .& 0xff; (val ≫ 48) .& 0xff; (val ≫ 56) .& 0xff] 8.

Definition pb_encode_tag (wiretype field_number : Z) : M (pb_ostream St) () :=
  let tag := u64 (field_number ≪ 3) .| wiretype in
  pb_encode_varint tag.

Definition pb_encode_string (buffer : bytes) (size : Z) : M (pb_ostream St) () :=
  _ ← pb_encode_varint (u64 size);
  pb_write buffer size.

End ostream.

(** * What the wire format means

    A varint is a sequence of bytes of which all but the last have the high
    bit set; the low bits of each are seven bits of the value, least significant
    first. *)

Fixpoint varint_split (l : bytes) : option (bytes * bytes) :=
  match l with
  | [] => None
  | b :: l =>
      if b <? 128 then Some ([b], l)
      else '(v, r) ← varint_split l; Some (b :: v, r)
  end.

Definition is_varint (v : bytes) : Prop := bytes_ok v ∧ varint_split v = Some (v, []).
#[global] Instance is_varint_dec v : Decision (is_varint v).
Proof. unfold is_varint. apply _. Defined.

Fixpoint varint_value (v : bytes) : Z :=
  match v with [] => 0 | b :: v => b mod 128 + 128 * varint_value v end.

(** The shortest varint of [n], which needs at most [fuel + 1] bytes. *)
Fixpoint varint_of_fuel (fuel : nat) (n : Z) : bytes :=
  match fuel with
  | O => [n]
  | S fuel => if n <? 128 then [n] else (n mod 128 + 128) :: varint_of_fuel fuel (n / 128)
  end.
Definition varint_of (n : Z) : bytes := varint_of_fuel 9 n.

(** Little-endian encodings. *)
Fixpoint le_bytes (n : nat) (v : Z) : bytes :=
  match n with O => [] | S n => v mod 256 :: le_bytes n (v / 256) end.

(** [sint32], [sint64]: the sign is moved into the lowest bit. *)
Definition zigzag (z : Z) : Z := if z <? 0 then -2 * z - 1 else 2 * z.

(** * Streams

    A stream that may still read [l], in a buffer that goes on with [t]. *)

Definition istr (l t : bytes) (e : option string) : pb_istream :=
  {| is_state := l ++ t; is_bytes_left := lenZ l; is_errmsg := e |}.

(** The error field after PB_RETURN_ERROR. *)
Definition err (msg : string) (e : option string) : option string := Some (default msg e).

Definition istream_ok (s : pb_istream) : Prop :=
  bytes_ok (is_state s) ∧ 0 <= is_bytes_left s <= lenZ (is_state s).
#[global] Instance istream_ok_dec s : Decision (istream_ok s).
Proof. unfold istream_ok. apply _. Defined.

Lemma istream_istr s :
  istream_ok s →
  s = istr (takeZ (is_bytes_left s) (is_state s)) (dropZ (is_bytes_left s) (is_state s)) (is_errmsg s).
Proof.
  intros [_ Hl]. unfold istr. rewrite takeZ_dropZ, lenZ_takeZ by done. by destruct s.
Qed.

(** * Lemmas on varints *)

Lemma varint_split_app v r l : varint_split l = Some (v, r) → l = v ++ r.
Proof.
  revert v r. induction l as [|b l IH]; intros v r H; [done|]. cbn [varint_split] in H.
  destruct (b <? 128); [by simplify_eq|].
  destruct (varint_split l) as [[v' r']|]; [|done]. cbn in H. simplify_eq.
  cbn [app]. f_equal. by apply IH.
Qed.

Lemma varint_split_more v r l k : varint_split l = Some (v, r) → varint_split (l ++ k) = Some (v, r ++ k).
Proof.
  revert v r. induction l as [|b l IH]; intros v r H; [done|]. cbn [varint_split app] in *.
  destruct (b <? 128); [by simplify_eq|].
  destruct (varint_split l) as [[v' r']|]; [|done]. cbn in H. simplify_eq.
  by rewrite (IH _ _ eq_refl).
Qed.

Lemma varint_split_varint v r l : bytes_ok l → varint_split l = Some (v, r) → is_varint v ∧ bytes_ok r.
Proof.
  revert v r. induction l as [|b l IH]; intros v r Hl H; [done|]. cbn [varint_split] in H.
  apply bytes_ok_cons in Hl as [Hb Hl]. destruct (b <? 128) eqn:Hc.
  - simplify_eq. split; [|done]. split; [|cbn; by rewrite Hc].
    apply bytes_ok_cons. split; [done|apply bytes_ok_nil].
  - destruct (varint_split l) as [[v' r']|]; [|done]. cbn in H. simplify_eq.
    destruct (IH _ _ Hl eq_refl) as [[Hv Hs] Hr]. split; [|done].
    split; [by apply bytes_ok_cons|]. cbn [varint_split]. by rewrite Hc, Hs.
Qed.

Lemma is_varint_cons b v :
  is_varint (b :: v) ↔ fits 8 b ∧ if b <? 128 then v = [] else is_varint v.
Proof.
  unfold is_varint. rewrite bytes_ok_cons. cbn [varint_split]. destruct (b <? 128).
  - split; [intros [[??] ?]; by simplify_eq|]. intros [? ->].
    split; [split; [done|apply bytes_ok_nil]|done].
  - destruct (varint_split v) as [[v' r]|]; cbn; naive_solver.
Qed.

Lemma is_varint_split v r : is_varint v → varint_split (v ++ r) = Some (v, r).
Proof. intros [_ H]. by apply (varint_split_more v []). Qed.

Lemma not_varint_nil : ¬ is_varint [].
Proof. by intros [_ ?]. Qed.

Lemma is_varint_nonempty v : is_varint v → 1 <= lenZ v.
Proof. destruct v; [by intros [_ ?]|]. intros. llia. Qed.

Lemma varint_value_bound v : bytes_ok v → 0 <= varint_value v < 128 ^ lenZ v.
Proof.
  induction v as [|b v IH]; intros Hv; cbn [varint_value]; [by vm_compute|].
  apply bytes_ok_cons in Hv as [Hb Hv]. specialize (IH Hv).
  rewrite lenZ_cons, Z.pow_add_r, Z.pow_1_r by llia. lia.
Qed.

Section shortest.
#[local] Transparent Z.pow.

Lemma varint_of_fuel_spec fuel n :
  0 <= n < 128 ^ (Z.of_nat fuel + 1) →
  is_varint (varint_of_fuel fuel n) ∧ varint_value (varint_of_fuel fuel n) = n ∧
  lenZ (varint_of_fuel fuel n) <= Z.of_nat fuel + 1.
Proof.
  revert n. induction fuel as [|fuel IH]; intros n Hn.
  - change (128 ^ (Z.of_nat 0 + 1)) with 128 in Hn. cbn [varint_of_fuel varint_value].
    rewrite is_varint_cons, (proj2 (Z.ltb_lt n 128)) by lia. split_and!; done || llia.
  - cbn [varint_of_fuel]. rewrite Nat2Z.inj_succ, <-Z.add_1_r, Z.pow_add_r in Hn by lia.
    change (128 ^ 1) with 128 in Hn. destruct (Z.ltb_spec n 128).
    + rewrite is_varint_cons, (proj2 (Z.ltb_lt n 128)) by lia. cbn [varint_value].
      split_and!; done || llia.
    + destruct (IH (n / 128)) as (H1 & H2 & H3); [lia|].
      rewrite is_varint_cons. cbn [varint_value]. rewrite (proj2 (Z.ltb_ge _ 128)) by lia.
      rewrite H2. split_and!; done || llia.
Qed.
End shortest.

Lemma varint_of_spec n :
  fits 64 n → is_varint (varint_of n) ∧ varint_value (varint_of n) = n ∧ lenZ (varint_of n) <= 10.
Proof.
  intros Hn. apply (varint_of_fuel_spec 9).
  change (128 ^ (Z.of_nat 9 + 1)) with 1180591620717411303424. mlia.
Qed.
