(* ===== verification/PbRead.v ===== *)
(** What the readers of nanopb accept: the loops of pb_decode.c against the
    wire format of PbWire, and the class of computations that only move a stream
    forward. *)
From stdpp Require Import strings.
From S2P Require Import Prelude PbWire.

Open Scope Z_scope.

(** * Reading *)

Lemma readbyte_cons b l t e : pb_readbyte (istr (b :: l) t e) = (Some b, istr l t e).
Proof.
  unfold pb_readbyte, getS, mbind, M_bind. cbn [istr is_bytes_left].
  rewrite (proj2 (Z.eqb_neq _ 0)) by llia.
  unfold buf_read, set_bytes_left, modifyS, mret, M_ret, istr.
  cbn [is_state is_bytes_left is_errmsg app]. do 2 f_equal; llia.
Qed.

Lemma readbyte_nil t e :
  pb_readbyte (istr [] t e) = (None, istr [] t (err "end-of-stream" e)).
Proof. done. Qed.

Lemma read_app x l t e n :
  n = lenZ x → pb_read n (istr (x ++ l) t e) = (Some x, istr l t e).
Proof.
  intros ->. unfold pb_read. destruct (Z.eqb_spec (lenZ x) 0) as [H0|H0].
  { apply Z.eq_le_incl, lenZ_0_nil in H0 as ->. done. }
  unfold getS, mbind, M_bind. cbn [istr is_bytes_left].
  rewrite (proj2 (Z.ltb_ge _ _)) by llia.
  unfold buf_read, set_bytes_left, modifyS, mret, M_ret, istr.
  cbn [is_state is_bytes_left is_errmsg]. rewrite <-app_assoc, takeZ_app, dropZ_app by done.
  do 2 f_equal; llia.
Qed.

Lemma read_short n l t e :
  lenZ l < n → pb_read n (istr l t e) = (None, istr l t (err "end-of-stream" e)).
Proof.
  intros Hn. unfold pb_read. rewrite (proj2 (Z.eqb_neq _ 0)) by llia.
  unfold getS, mbind, M_bind. cbn [istr is_bytes_left]. by rewrite (proj2 (Z.ltb_lt _ _)).
Qed.

(** [pb_read] in one equation. *)
Lemma read_eq n l t e :
  0 <= n →
  pb_read n (istr l t e) =
    if n <=? lenZ l then (Some (takeZ n l), istr (dropZ n l) t e)
    else (None, istr l t (err "end-of-stream" e)).
Proof.
  intros Hn. destruct (Z.leb_spec n (lenZ l)); [|by apply read_short].
  rewrite <-(takeZ_dropZ n l) at 1. apply read_app. by rewrite lenZ_takeZ by lia.
Qed.

Lemma bind_error {A B} msg (k : A → M pb_istream B) l t e :
  (in_error msg ≫= k) (istr l t e) = (None, istr l t (err msg e)).
Proof. done. Qed.
Lemma error_istr {A} msg l t e :
  @in_error A msg (istr l t e) = (None, istr l t (err msg e)).
Proof. done. Qed.

(** One more group of bits above the [n] that are there. *)
Lemma or_group w r x n :
  0 <= n <= w → 0 <= r < 2 ^ n → 0 <= x → r .| wrap w (x ≪ n) = wrap w (r + x * 2 ^ n).
Proof.
  intros Hn Hr Hx. unfold wrap. rewrite Z.shiftl_mul_pow2 by lia.
  assert (2 ^ w = 2 ^ (w - n) * 2 ^ n) as Hw by (rewrite <-Z.pow_add_r by lia; f_equal; lia).
  pose proof (Z.pow_pos_nonneg 2 n). pose proof (Z.pow_pos_nonneg 2 (w - n)).
  assert ((x * 2 ^ n) mod 2 ^ w = (x mod 2 ^ (w - n)) * 2 ^ n) as ->.
  { rewrite Hw. apply Z.mul_mod_distr_r; lia. }
  rewrite Z.lor_comm, lor_mul_add by lia.
  pose proof (Z.mod_pos_bound x (2 ^ (w - n))).
  rewrite <-(Z.mod_small (x mod 2 ^ (w - n) * 2 ^ n + r) (2 ^ w)) by nia.
  rewrite Z.add_comm, Hw, <-(Z.mul_mod_distr_r x) by lia.
  by rewrite Z.add_mod_idemp_r by lia.
Qed.

(** A varint within the first [n] bytes, if there is one. *)
Lemma split_take_nil n : varint_split (takeZ n []) = None.
Proof. unfold takeZ. by rewrite take_nil. Qed.

Lemma takeZ_cons {A} n (b : A) l : 0 < n → takeZ n (b :: l) = b :: takeZ (n - 1) l.
Proof.
  intros. unfold takeZ. replace (Z.to_nat n) with (S (Z.to_nat (n - 1))) by lia. done.
Qed.
Lemma dropZ_cons {A} n (b : A) l : 0 < n → dropZ n (b :: l) = dropZ (n - 1) l.
Proof.
  intros. unfold dropZ. replace (Z.to_nat n) with (S (Z.to_nat (n - 1))) by lia. done.
Qed.

(** What is said of a failing run: it read [n] bytes or all there were. *)
Definition ran_out (n : Z) (l : bytes) : string :=
  if lenZ l <? n then "end-of-stream" else "varint overflow".

Lemma varint_loop_eq fuel k r l t e :
  bytes_ok l → (0 < fuel)%nat → k = 11 - Z.of_nat fuel → 0 <= r < 2 ^ (7 * k) → r < 2 ^ 64 →
  0 <= k →
  varint_loop fuel (7 * k) r (istr l t e) =
    match varint_split (takeZ (10 - k) l) with
    | Some (v, _) => (Some (u64 (r + varint_value v * 2 ^ (7 * k))), istr (dropZ (lenZ v) l) t e)
    | None => (None, istr (dropZ (10 - k) l) t (err (ran_out (10 - k) l) e))
    end.
Proof.
  revert k r l. induction fuel as [|fuel IH]; intros k r l Hl Hf Hk Hr Hr' H0; [lia|].
  cbn [varint_loop]. destruct (Z.leb_spec 64 (7 * k)).
  { replace k with 10 by lia. change (takeZ (10 - 10) l) with (@nil Z).
    change (dropZ (10 - 10) l) with l. unfold ran_out. by rewrite (proj2 (Z.ltb_ge _ _)) by llia. }
  destruct l as [|b l].
  { rewrite split_take_nil. unfold dropZ, ran_out. rewrite drop_nil.
    by rewrite (proj2 (Z.ltb_lt _ _)) by llia. }
  apply bytes_ok_cons in Hl as [Hb Hl].
  mstep (readbyte_cons b l t e). rewrite byte_land_80, byte_land_7f by done.
  rewrite or_group by lia.
  rewrite takeZ_cons by lia. cbn [varint_split].
  assert (0 <= (b mod 128) * 2 ^ (7 * k)) by (pose proof (Z.pow_pos_nonneg 2 (7 * k)); nia).
  assert (2 ^ (7 * (k + 1)) = 128 * 2 ^ (7 * k)) as Hp.
  { rewrite Z.mul_add_distr_l, Z.pow_add_r by lia. change (2 ^ (7 * 1)) with 128. lia. }
  pose proof (wrap_fits 64 (r + b mod 128 * 2 ^ (7 * k)) ltac:(lia)) as Hw.
  destruct (Z.ltb_spec b 128).
  { cbn [negb varint_value]. rewrite dropZ_cons by llia. change (lenZ [b] - 1) with 0.
    unfold mret, M_ret. do 3 f_equal. lia. }
  cbn [negb]. rewrite (wrap_small 8) by mlia. replace (7 * k + 7) with (7 * (k + 1)) by lia.
  rewrite IH; [|done|lia|lia| |apply Hw|lia].
  - replace (10 - (k + 1)) with (10 - k - 1) by lia.
    destruct (varint_split (takeZ (10 - k - 1) l)) as [[v r']|] eqn:Hs; cbn [mbind option_bind].
    + rewrite dropZ_cons, lenZ_cons by llia. replace (1 + lenZ v - 1) with (lenZ v) by lia.
      do 2 f_equal. unfold wrap. rewrite Z.add_mod_idemp_l by (change (2 ^ 64) with 18446744073709551616; lia).
      f_equal. cbn [varint_value]. rewrite Hp. lia.
    + rewrite dropZ_cons by lia. unfold ran_out. rewrite lenZ_cons.
      do 3 f_equal. destruct (Z.ltb_spec (lenZ l) (10 - k - 1)), (Z.ltb_spec (1 + lenZ l) (10 - k)); done || lia.
  - rewrite Hp. split; [apply Hw|]. eapply Z.le_lt_trans; [apply Z.mod_le; [|apply Z.pow_pos_nonneg; lia]|]; lia || nia.
Qed.

(** ** Exactness of [pb_decode_varint] *)

Lemma decode_varint_eq l t e :
  bytes_ok l →
  pb_decode_varint (istr l t e) =
    match varint_split (takeZ 10 l) with
    | Some (v, _) => (Some (u64 (varint_value v)), istr (dropZ (lenZ v) l) t e)
    | None => (None, istr (dropZ 10 l) t (err (ran_out 10 l) e))
    end.
Proof.
  intros Hl. unfold pb_decode_varint. change 0 with (7 * 0) at 1.
  rewrite varint_loop_eq by (done || lia || mlia || (change (2 ^ (7 * 0)) with 1; lia)).
  change (2 ^ (7 * 0)) with 1. change (10 - 0) with 10.
  destruct (varint_split _) as [[v r]|]; [|done]. by rewrite Z.add_0_l, Z.mul_1_r.
Qed.

(** ** Exactness of [pb_decode_varint32]

    From the sixth byte on, whose seven bits are all above the 32nd, a byte must be
    empty or continue the sign. *)
Fixpoint ext_ok (k : Z) (negative : bool) (v : bytes) : bool :=
  match v with
  | [] => true
  | b :: v =>
      ((b mod 128 =? 0) || (negative && (b =? if k <? 9 then 0xff else 0x01))) &&
      ext_ok (k + 1) negative v
  end.

Definition varint32_value (v : bytes) : Z := u32 (varint_value v).

Definition varint32_ok (v : bytes) : bool :=
  if lenZ v <=? 5 then varint_value v <? 2 ^ 32
  else ext_ok 5 (2 ^ 31 <=? varint32_value v) (dropZ 5 v).

Lemma bit_31 r : fits 32 r → (r ≫ 31 =? 0) = negb (2 ^ 31 <=? r).
Proof.
  intros Hr. rewrite shiftr_div by lia. change (2 ^ 31) with 2147483648.
  destruct (Z.leb_spec 2147483648 r), (Z.eqb_spec (r / 2147483648) 0); mlia || done.
Qed.

Lemma varint32_loop_ext fuel k r v l t e :
  is_varint v → (length v <= fuel)%nat → 5 <= k → k + lenZ v <= 37 → fits 32 r →
  varint32_loop fuel (7 * k) r (istr (v ++ l) t e) =
    if ext_ok k (2 ^ 31 <=? r) v
    then (Some (List.last v 0, u8 (7 * (k + lenZ v)), r), istr l t e)
    else (None, (varint32_loop fuel (7 * k) r (istr (v ++ l) t e)).2).
Proof.
  revert fuel k. induction v as [|b v IH]; intros fuel k Hv Hf Hk Hk' Hr; [by apply not_varint_nil in Hv|].
  apply is_varint_cons in Hv as [Hb Hv]. destruct fuel as [|fuel]; [cbn in Hf; lia|].
  rewrite lenZ_cons in *. cbn [varint32_loop ext_ok app].
  rewrite (bind_some _ _ _ _ _ (readbyte_cons b (v ++ l) t e)).
  rewrite byte_land_7f, byte_land_80, bit_31 by done.
  rewrite (proj2 (Z.leb_le 32 (7 * k))) by lia.
  assert ((7 * k <? 63) = (k <? 9)) as -> by (destruct (Z.ltb_spec (7 * k) 63), (Z.ltb_spec k 9); lia || done).
  set (sign := if k <? 9 then 255 else 1).
  assert (negb (b mod 128 =? 0) && (negb (2 ^ 31 <=? r) || negb (b =? sign)) =
          negb ((b mod 128 =? 0) || ((2 ^ 31 <=? r) && (b =? sign)))) as ->
    by (by rewrite negb_orb, negb_andb).
  destruct ((b mod 128 =? 0) || _) eqn:Hx; cbn [negb andb]; [|by rewrite bind_error].
  rewrite bind_ret. cbv zeta. replace (7 * k + 7) with (7 * (k + 1)) by lia.
  destruct (Z.ltb_spec b 128).
  - subst v. cbn [negb ext_ok app List.last]. unfold mret, M_ret. by do 4 f_equal.
  - pose proof (is_varint_nonempty v Hv). rewrite (wrap_small 8 (7 * (k + 1))) by mlia.
    cbn [negb]. rewrite IH by (done || lia || (cbn in Hf; lia)).
    destruct (ext_ok _ _ v); [|done]. do 4 f_equal; [|f_equal; lia].
    destruct v; [by destruct Hv|done].
Qed.

Lemma next_group w k r b :
  0 <= k → 0 <= w → 0 <= r < 2 ^ (7 * k) → fits 8 b →
  0 <= wrap w (r + b mod 128 * 2 ^ (7 * k)) < 2 ^ (7 * (k + 1)) ∧
  ∀ x, wrap w (wrap w (r + b mod 128 * 2 ^ (7 * k)) + x * 2 ^ (7 * (k + 1)))
       = wrap w (r + (b mod 128 + 128 * x) * 2 ^ (7 * k)).
Proof.
  intros Hk Hw0 Hr Hb.
  assert (2 ^ (7 * (k + 1)) = 128 * 2 ^ (7 * k)) as Hp.
  { rewrite Z.mul_add_distr_l, Z.pow_add_r by lia. change (2 ^ (7 * 1)) with 128. lia. }
  pose proof (Z.pow_pos_nonneg 2 w ltac:(lia) Hw0). rewrite Hp. split.
  - unfold wrap. pose proof (Z.mod_pos_bound (r + b mod 128 * 2 ^ (7 * k)) (2 ^ w)).
    pose proof (Z.mod_le (r + b mod 128 * 2 ^ (7 * k)) (2 ^ w)). nia.
  - intros x. unfold wrap. rewrite Z.add_mod_idemp_l by lia. f_equal. lia.
Qed.

Lemma varint32_loop_eq fuel k r v l t e :
  is_varint v → (length v <= fuel)%nat → 1 <= k <= 5 → k + lenZ v <= 37 →
  0 <= r < 2 ^ (7 * k) → fits 32 r →
  let r' := u32 (r + varint_value (takeZ (5 - k) v) * 2 ^ (7 * k)) in
  varint32_loop fuel (7 * k) r (istr (v ++ l) t e) =
    if ext_ok 5 (2 ^ 31 <=? r') (dropZ (5 - k) v)
    then (Some (List.last v 0, u8 (7 * (k + lenZ v)), r'), istr l t e)
    else (None, (varint32_loop fuel (7 * k) r (istr (v ++ l) t e)).2).
Proof.
  revert fuel k r. induction v as [|b v IH]; intros fuel k r Hv Hf Hk Hk' Hr Hr'; [by apply not_varint_nil in Hv|].
  destruct (Z.eq_dec k 5) as [->|Hk5].
  { rewrite takeZ_0, dropZ_0. cbn [varint_value]. rewrite Z.mul_0_l, Z.add_0_r, (wrap_small 32) by done.
    by apply varint32_loop_ext. }
  apply is_varint_cons in Hv as [Hb Hv]. destruct fuel as [|fuel]; [cbn in Hf; lia|].
  destruct (next_group 32 k r b ltac:(lia) ltac:(lia) Hr Hb) as [Hn Hx].
  rewrite lenZ_cons, takeZ_cons, dropZ_cons in * by lia. cbn [varint32_loop app varint_value].
  rewrite (bind_some _ _ _ _ _ (readbyte_cons b (v ++ l) t e)).
  rewrite byte_land_7f, byte_land_80 by done.
  rewrite (proj2 (Z.leb_gt 32 (7 * k))) by lia. rewrite bind_ret. cbv zeta.
  rewrite or_group by lia. rewrite (wrap_small 8 (7 * k + 7)) by mlia.
  replace (7 * k + 7) with (7 * (k + 1)) by lia. replace (5 - k - 1) with (5 - (k + 1)) by lia.
  destruct (Z.ltb_spec b 128).
  - subst v. cbn [negb ext_ok app List.last]. unfold takeZ, dropZ. rewrite take_nil, drop_nil.
    cbn [varint_value ext_ok]. unfold mret, M_ret. change (128 * 0) with 0.
    change (1 + lenZ (@nil Z)) with 1.
    rewrite (wrap_small 8 (7 * (k + 1))), Z.add_0_r by mlia. done.
  - cbn [negb]. rewrite <-Hx. rewrite IH; [|done|cbn in Hf; lia|lia|lia|done|by apply wrap_fits].
    destruct (ext_ok _ _ _); [|done]. do 4 f_equal; [|f_equal; lia].
    destruct v; [by destruct Hv|done].
Qed.

Lemma varint32_loop_none fuel bitpos r l t e :
  bytes_ok l → varint_split l = None →
  (varint32_loop fuel bitpos r (istr l t e)).1 = None.
Proof.
  revert bitpos r l. induction fuel as [|fuel IH]; intros bitpos r l Hl Hs; [done|].
  cbn [varint32_loop]. destruct l as [|b l]; [done|].
  apply bytes_ok_cons in Hl as [Hb Hl]. rewrite (bind_some _ _ _ _ _ (readbyte_cons b l t e)).
  rewrite byte_land_80 by done. cbn [varint_split] in Hs. destruct (b <? 128); [done|].
  assert (varint_split l = None) by (destruct (varint_split l) as [[]|]; done).
  cbn [negb]. destruct (32 <=? bitpos); [destruct (_ && _)|]; try done; rewrite bind_ret; by apply IH.
Qed.

Lemma varint_value_app v w : varint_value (v ++ w) = varint_value v + 128 ^ lenZ v * varint_value w.
Proof.
  induction v as [|b v IH]; cbn [app varint_value].
  - change (128 ^ lenZ (@nil Z)) with 1. lia.
  - rewrite IH, lenZ_cons, Z.pow_add_r, Z.pow_1_r by llia. lia.
Qed.

(** The sixth byte and those after it lie above the 32nd bit. *)
Lemma varint32_value_take v : varint32_value v = u32 (varint_value (takeZ 5 v)).
Proof.
  unfold varint32_value, wrap. destruct (Z.le_gt_cases (lenZ v) 5); [by rewrite takeZ_all|].
  rewrite <-(takeZ_dropZ 5 v) at 1. rewrite varint_value_app, lenZ_takeZ by lia.
  change (128 ^ 5) with (8 * 2 ^ 32). change (2 ^ 32) with 4294967296. lia.
Qed.

Lemma is_varint_tail b v : is_varint (b :: v) → 128 <= b → is_varint v.
Proof. intros H Hb. apply is_varint_cons in H as [_ H]. by rewrite (proj2 (Z.ltb_ge _ _)) in H. Qed.

Lemma last_bound v : is_varint v → 0 <= List.last v 0 < 128.
Proof.
  induction v as [|b v IH]; intros Hv; [by apply not_varint_nil in Hv|].
  apply is_varint_cons in Hv as [Hb Hv]. destruct (Z.ltb_spec b 128); [subst; cbn; mlia|].
  specialize (IH Hv). destruct v; [by apply not_varint_nil in Hv|exact IH].
Qed.

Lemma varint_value_last v :
  is_varint v → ∃ x, 0 <= x < 128 ^ (lenZ v - 1) ∧ varint_value v = x + 128 ^ (lenZ v - 1) * List.last v 0.
Proof.
  induction v as [|b v IH]; intros Hv; [by apply not_varint_nil in Hv|].
  apply is_varint_cons in Hv as [Hb Hv]. rewrite lenZ_cons. cbn [varint_value].
  destruct (Z.ltb_spec b 128).
  - subst. exists 0. cbn [List.last varint_value]. change (128 ^ (1 + lenZ (@nil Z) - 1)) with 1. mlia.
  - destruct (IH Hv) as (x & Hx & ->). pose proof (is_varint_nonempty v Hv).
    exists (b mod 128 + 128 * x). replace (1 + lenZ v - 1) with (1 + (lenZ v - 1)) by lia.
    rewrite Z.pow_add_r, Z.pow_1_r by lia. split; [lia|].
    destruct v; [by apply not_varint_nil in Hv|]. cbn [List.last]. lia.
Qed.

(** Bits left over in a fifth and last byte. *)
Lemma fifth_byte v :
  is_varint v → lenZ v = 5 → (List.last v 0 .& 0x70 =? 0) = (varint_value v <? 2 ^ 32).
Proof.
  intros Hv H5. pose proof (last_bound v Hv). destruct (varint_value_last v Hv) as (x & Hx & ->).
  rewrite H5 in *. change (128 ^ (5 - 1)) with 268435456 in *. change (2 ^ 32) with 4294967296.
  set (b := List.last v 0) in *.
  assert (fits 8 b) as Hb by mlia.
  assert ((b .& 112 =? 0) = (b mod 128 <? 16)) as -> by byte_eq b.
  destruct (Z.ltb_spec (b mod 128) 16), (Z.ltb_spec (x + 268435456 * b) 4294967296); lia || done.
Qed.

Lemma decode_varint32_eq v r t e :
  is_varint v → lenZ v <= 37 →
  pb_decode_varint32 (istr (v ++ r) t e) =
    if varint32_ok v then (Some (varint32_value v), istr r t e)
    else (None, (pb_decode_varint32 (istr (v ++ r) t e)).2).
Proof.
  intros Hv H37. destruct v as [|b v]; [by apply not_varint_nil in Hv|].
  pose proof (proj1 (is_varint_cons b v) Hv) as [Hb Hv'].
  unfold pb_decode_varint32, pb_decode_varint32_eof. cbn [app]. rewrite readbyte_cons. cbn [fst].
  rewrite byte_land_80 by done. unfold varint32_ok. destruct (Z.ltb_spec b 128).
  { subst v. rewrite (proj2 (Z.leb_le _ _)) by llia. unfold varint32_value. cbn [varint_value].
    rewrite (proj2 (Z.ltb_lt _ _)) by mlia. unfold mret, M_ret. do 3 f_equal. mlia. }
  unfold varint32_multibyte, getS. rewrite (bind_some _ _ _ (istr (v ++ r) t e) (istr (v ++ r) t e)) by done.
  cbn [is_bytes_left istr]. rewrite byte_land_7f by done. change 7 with (7 * 1) at 1 2.
  rewrite lenZ_cons in *. pose proof (is_varint_nonempty v Hv').
  pose proof (varint32_loop_eq (S (Z.to_nat (lenZ (v ++ r)))) 1 (b mod 128) v r t e Hv') as HL.
  specialize (HL ltac:(unfold lenZ; rewrite length_app; lia) ltac:(lia) ltac:(lia)
    ltac:(change (2 ^ (7 * 1)) with 128; mlia) ltac:(mlia)). cbv zeta in HL.
  assert (u32 (b mod 128 + varint_value (takeZ (5 - 1) v) * 2 ^ (7 * 1)) = varint32_value (b :: v)) as Hval.
  { rewrite varint32_value_take, takeZ_cons by lia. cbn [varint_value]. f_equal.
    change (2 ^ (7 * 1)) with 128. lia. }
  rewrite Hval in HL. destruct (Z.leb_spec (1 + lenZ v) 5).
  - rewrite dropZ_all in HL by lia. cbn [ext_ok] in HL. rewrite (bind_some _ _ _ _ _ HL).
    rewrite (wrap_small 8) by mlia. pose proof (fifth_byte (b :: v)) as H5.
    rewrite lenZ_cons in H5. cbn [List.last] in H5.
    assert (List.last (b :: v) 0 = List.last v 0) as Hl by (destruct v; [by apply not_varint_nil in Hv'|done]).
    destruct (Z.eqb_spec (7 * (1 + lenZ v)) 35) as [H35|H35]; cbn [andb].
    + rewrite <-Hl, fifth_byte by (done || rewrite ?lenZ_cons; lia).
      destruct (varint_value (b :: v) <? 2 ^ 32); cbn [negb]; [done|]. by rewrite error_istr.
    + pose proof (varint_value_bound (b :: v) (proj1 Hv)) as Hbd. rewrite lenZ_cons in Hbd.
      assert (128 ^ (1 + lenZ v) <= 128 ^ 4) by (apply Z.pow_le_mono_r; lia).
      change (128 ^ 4) with 268435456 in *. by rewrite (proj2 (Z.ltb_lt (varint_value (b :: v)) (2 ^ 32))) by mlia.
  - rewrite dropZ_cons by lia. change (5 - 1) with 4 in *.
    destruct (ext_ok _ _ _) eqn:He.
    + rewrite (bind_some _ _ _ _ _ HL). destruct (Z.eqb_spec (u8 (7 * (1 + lenZ v))) 35) as [H35|]; [|done].
      exfalso. mlia.
    + by rewrite (bind_none _ _ _ _ HL).
Qed.

Lemma decode_varint32_none l t e :
  bytes_ok l → varint_split l = None → (pb_decode_varint32 (istr l t e)).1 = None.
Proof.
  intros Hl Hs. unfold pb_decode_varint32, pb_decode_varint32_eof. destruct l as [|b l]; [done|].
  apply bytes_ok_cons in Hl as [Hb Hl]. rewrite readbyte_cons. cbn [fst].
  rewrite byte_land_80 by done. cbn [varint_split] in Hs. destruct (b <? 128); [done|].
  assert (varint_split l = None) by (destruct (varint_split l) as [[]|]; done).
  unfold varint32_multibyte, getS. rewrite (bind_some _ _ _ (istr l t e) (istr l t e)) by done.
  set (n := S (Z.to_nat (is_bytes_left (istr l t e)))).
  assert ((varint32_loop n 7 (b .& 0x7f) (istr l t e)).1 = None) as HN by by apply varint32_loop_none.
  destruct (varint32_loop _ _ _ _) as [[?|] s'] eqn:Hlp; [done|]. by rewrite (bind_none _ _ _ _ Hlp).
Qed.

(** Both varint readers, on any bytes.  [pb_decode_varint] reads the varint that ends within
    ten bytes and returns its value modulo 2^64; without one it fails, behind ten
    bytes or at the end.  [pb_decode_varint32] reads a varint of up to 37 bytes, returns
    its value modulo 2^32, and accepts precisely those of at most five bytes whose value fits
    32 bits and those where every byte from the sixth on is empty or a sign extension. *)
Theorem varint_exact l t e :
  bytes_ok l →
  pb_decode_varint (istr l t e) =
    match varint_split (takeZ 10 l) with
    | Some (v, _) => (Some (u64 (varint_value v)), istr (dropZ (lenZ v) l) t e)
    | None => (None, istr (dropZ 10 l) t (err (ran_out 10 l) e))
    end ∧
  match varint_split l with
  | Some (v, r) =>
      lenZ v <= 37 →
      if varint32_ok v then pb_decode_varint32 (istr l t e) = (Some (varint32_value v), istr r t e)
      else (pb_decode_varint32 (istr l t e)).1 = None
  | None => (pb_decode_varint32 (istr l t e)).1 = None
  end.
Proof.
  intros Hl. split; [by apply decode_varint_eq|].
  destruct (varint_split l) as [[v r]|] eqn:Hs; [|by apply decode_varint32_none].
  intros H37. destruct (varint_split_varint _ _ _ Hl Hs) as [Hv _].
  apply varint_split_app in Hs as ->. rewrite (decode_varint32_eq v r t e Hv H37).
  by destruct (varint32_ok v).
Qed.

Lemma varint_exact_witness :
  pb_decode_varint (istr [0xac; 0x02; 7] [] None) = (Some 300, istr [7] [] None) ∧
  (pb_decode_varint32 (istr [0x80; 0x80; 0x80; 0x80; 0x10] [] None)).1 = None.
Proof.
  split.
  - assert (bytes_ok [0xac; 0x02; 7]) as Hb by decide_now.
    destruct (varint_exact [0xac; 0x02; 7] [] None Hb) as [H _]. vm_compute in H |- *. exact H.
  - assert (bytes_ok [0x80; 0x80; 0x80; 0x80; 0x10]) as Hb by decide_now.
    destruct (varint_exact [0x80; 0x80; 0x80; 0x80; 0x10] [] None Hb) as [_ H].
    vm_compute in H |- *. apply H. discriminate.
Defined.

(** Overflow goes unnoticed when padding follows: 2^32, which is refused in five
    bytes, reads as 0 in six, where the 64-bit reader sees 2^32; and after 37 bytes the bit
    position has wrapped around, so that an empty varint reads as 8. *)
Theorem varint32_overflow_missed :
  (pb_decode_varint32 (istr [0x80; 0x80; 0x80; 0x80; 0x10] [] None)).1 = None ∧
  (pb_decode_varint32 (istr [0x80; 0x80; 0x80; 0x80; 0x90; 0] [] None)).1 = Some 0 ∧
  (pb_decode_varint (istr [0x80; 0x80; 0x80; 0x80; 0x90; 0] [] None)).1 = Some (2 ^ 32) ∧
  (pb_decode_varint32 (istr (replicate 37 0x80 ++ [0x01]) [] None)).1 = Some 8.
Proof. repeat split; vm_compute; reflexivity. Qed.

(** [*eof] is set exactly when there is not a single byte. *)
Lemma varint32_eof_eq l t e eof :
  pb_decode_varint32_eof (istr l t e) eof =
    (pb_decode_varint32 (istr l t e), match l with [] => true | _ => eof end).
Proof.
  unfold pb_decode_varint32, pb_decode_varint32_eof. destruct l as [|b l]; [done|].
  by rewrite readbyte_cons.
Qed.

(** * The other readers *)

(** What a computation that only reads does to the stream: it moves forward, by no
    more than there is, and keeps the first error. *)
Definition moves (s s' : pb_istream) : Prop :=
  ∃ n, 0 <= n <= is_bytes_left s ∧ is_state s' = dropZ n (is_state s) ∧
    is_bytes_left s' = is_bytes_left s - n ∧
    (is_errmsg s = None ∨ is_errmsg s' = is_errmsg s).

Class Reader {A} (m : M pb_istream A) : Prop :=
  reader_moves s : istream_ok s → moves s (m s).2.
#[global] Hint Mode Reader ! ! : typeclass_instances.
#[global] Arguments reader_moves {A} m {_} s _.

Lemma moves_refl s : 0 <= is_bytes_left s → moves s s.
Proof. intros. exists 0. rewrite dropZ_0. split_and!; lia || auto. Qed.

Lemma moves_trans s1 s2 s3 : moves s1 s2 → moves s2 s3 → moves s1 s3.
Proof.
  intros (n & Hn & Hs & Hb & He) (n' & Hn' & Hs' & Hb' & He'). exists (n + n').
  rewrite Hs', Hs, dropZ_dropZ by lia. split_and!; try lia; [done|].
  destruct He as [?|He], He' as [?|He']; auto; rewrite ?He', ?He in *; auto.
Qed.

Lemma moves_left s s' : moves s s' → 0 <= is_bytes_left s' <= is_bytes_left s.
Proof. intros (n & ? & _ & ? & _). lia. Qed.

Lemma moves_ok s s' : istream_ok s → moves s s' → istream_ok s'.
Proof.
  intros [Hok Hl] (n & Hn & Hs & Hb & _). split.
  - rewrite Hs. unfold dropZ. by apply Forall_drop.
  - rewrite Hs, Hb, lenZ_dropZ; lia.
Qed.

Lemma istr_ok l t e : istream_ok (istr l t e) ↔ bytes_ok l ∧ bytes_ok t.
Proof.
  unfold istream_ok, istr. cbn [is_state is_bytes_left]. rewrite bytes_ok_app.
  split; [tauto|]. intros. split; [done|]. llia.
Qed.

(** The position after a move, in a stream whose bytes are known. *)
Lemma moves_istr l t e s :
  moves (istr l t e) s → ∃ l1 l2 e', l = l1 ++ l2 ∧ s = istr l2 t e'.
Proof.
  intros (n & Hn & Hs & Hb & _). exists (takeZ n l), (dropZ n l), (is_errmsg s).
  rewrite takeZ_dropZ. split; [done|]. cbn [istr is_bytes_left is_state] in *.
  destruct s as [st left er]. cbn in *. unfold istr. rewrite lenZ_dropZ by lia.
  rewrite dropZ_app_le in Hs by lia. by subst.
Qed.

(** The same, for any stream in order. *)
Lemma istream_run s (P : pb_istream → Prop) :
  istream_ok s → (∀ l t e, bytes_ok l → bytes_ok t → P (istr l t e)) → P s.
Proof.
  intros Hs H. rewrite (istream_istr s Hs). rewrite (istream_istr s Hs) in Hs.
  apply istr_ok in Hs as [??]. by apply H.
Qed.

#[export] Instance ret_reader {A} (a : A) : Reader (mret a).
Proof. intros s [_ Hs]. apply (moves_refl s), Hs. Qed.
#[export] Instance ret0_reader {A} : Reader (@ret0 pb_istream A).
Proof. intros s [_ Hs]. apply (moves_refl s), Hs. Qed.
#[export] Instance error_reader {A} msg : Reader (@in_error A msg).
Proof.
  intros s [_ Hs]. exists 0. cbn. rewrite dropZ_0. destruct (is_errmsg s); split_and!; lia || auto.
Qed.

Lemma bind_reader_post {A B} (m : M pb_istream A) (k : A → M pb_istream B) :
  Reader m → (∀ s a s', istream_ok s → m s = (Some a, s') → Reader (k a)) → Reader (m ≫= k).
Proof.
  intros Hm Hk s Hs. pose proof (Hm s Hs) as H. unfold mbind, M_bind.
  destruct (m s) as [[a|] s'] eqn:E; [|done]. cbn in H.
  eapply moves_trans; [exact H|]. eapply Hk; [done..|]. by eapply moves_ok.
Qed.

#[export] Instance bind_reader {A B} (m : M pb_istream A) (k : A → M pb_istream B) :
  Reader m → (∀ a, Reader (k a)) → Reader (m ≫= k).
Proof. intros Hm Hk. by apply bind_reader_post. Qed.

#[export] Instance if_reader {A} (b : bool) (m1 m2 : M pb_istream A) :
  Reader m1 → Reader m2 → Reader (if b then m1 else m2).
Proof. by destruct b. Qed.

(** A computation may look at the stream. *)
#[export] Instance getS_reader {A} (k : pb_istream → M pb_istream A) :
  (∀ s, Reader (k s)) → Reader (getS ≫= k) | 0.
Proof. intros Hk s Hs. by apply Hk. Qed.

#[export] Instance pair_reader {A B C} (p : B * C) (k : B → C → M pb_istream A) :
  (∀ b c, Reader (k b c)) → Reader (let '(b, c) := p in k b c).
Proof. by destruct p. Qed.

Lemma pb_read_reader n : 0 <= n → Reader (pb_read n).
Proof.
  intros Hn s Hs. apply (istream_run s); [done|]. intros l t e Hl Ht. rewrite read_eq by done.
  destruct (Z.leb_spec n (lenZ l)).
  - exists n. cbn. rewrite lenZ_dropZ, dropZ_app_le by lia. split_and!; lia || auto.
  - exists 0. cbn. split_and!; llia || auto. destruct e; auto.
Qed.
#[export] Hint Extern 1 (Reader (pb_read _)) => apply pb_read_reader; lia : typeclass_instances.

#[export] Instance pb_readbyte_reader : Reader pb_readbyte.
Proof.
  intros s Hs. apply (istream_run s); [done|]. intros [|b l] t e Hl Ht.
  - rewrite readbyte_nil. exists 0. cbn. split_and!; llia || auto. destruct e; auto.
  - rewrite readbyte_cons. exists 1. cbn. split_and!; llia || auto.
Qed.

#[export] Instance varint32_loop_reader fuel bitpos r : Reader (varint32_loop fuel bitpos r).
Proof. revert bitpos r. induction fuel; intros; cbn [varint32_loop]; apply _. Qed.

#[export] Instance pb_decode_varint32_reader : Reader pb_decode_varint32.
Proof.
  intros s Hs. apply (istream_run s); [done|]. intros [|b l] t e Hl Ht.
  - apply (pb_readbyte_reader (istr [] t e)). by apply istr_ok.
  - unfold pb_decode_varint32, pb_decode_varint32_eof. rewrite readbyte_cons. cbn [fst].
    apply (moves_trans _ (istr l t e)).
    + pose proof (pb_readbyte_reader (istr (b :: l) t e)) as H. rewrite readbyte_cons in H.
      apply H. by apply istr_ok.
    + apply bytes_ok_cons in Hl as [_ Hl].
      assert (Reader (if b .& 128 =? 0 then mret b else varint32_multibyte b)) as Hr.
      { apply if_reader; [apply _|]. unfold varint32_multibyte. apply _. }
      apply Hr. by apply istr_ok.
Qed.

#[export] Instance varint_loop_reader fuel bitpos r : Reader (varint_loop fuel bitpos r).
Proof. revert bitpos r. induction fuel; intros; cbn [varint_loop]; apply _. Qed.
#[export] Instance pb_decode_varint_reader : Reader pb_decode_varint.
Proof. unfold pb_decode_varint. apply _. Qed.
#[export] Instance skip_varint_loop_reader fuel : Reader (skip_varint_loop fuel).
Proof. induction fuel; cbn [skip_varint_loop]; apply _. Qed.

Lemma lor_fits w a b : 0 <= w → fits w a → fits w b → fits w (a .| b).
Proof.
  intros Hw [Ha Ha'] [Hb Hb']. split; [by apply Z.lor_nonneg|].
  destruct (Z.eq_dec (a .| b) 0) as [->|Hne]; [apply Z.pow_pos_nonneg; lia|].
  assert (0 <= a .| b) by by apply Z.lor_nonneg.
  destruct (Z.eq_dec a 0) as [->|]; [by rewrite Z.lor_0_l|].
  destruct (Z.eq_dec b 0) as [->|]; [by rewrite Z.lor_0_r|].
  apply Z.log2_lt_pow2; [lia|]. rewrite Z.log2_lor by done.
  apply Z.max_lub_lt; apply Z.log2_lt_pow2; lia.
Qed.

Lemma varint32_loop_fits fuel bitpos r s b p n s' :
  fits 32 r → varint32_loop fuel bitpos r s = (Some (b, p, n), s') → fits 32 n.
Proof.
  revert bitpos r s. induction fuel as [|fuel IH]; intros bitpos r s Hr H; [done|].
  cbn [varint32_loop] in H. apply bind_inv in H as (byte & s1 & _ & H).
  apply bind_inv in H as (r1 & s2 & Hr1 & H).
  assert (fits 32 r1) as Ha.
  { destruct (32 <=? bitpos); [destruct (_ && _); [done|]|]; apply ret_inv in Hr1 as [<- _]; [done|].
    apply lor_fits; [lia|done|]. by apply wrap_fits. }
  cbv zeta in H. destruct (negb _) in H; [by eapply IH|]. apply ret_inv in H as [? _]. by simplify_eq.
Qed.

Lemma decode_varint32_fits s n s' :
  istream_ok s → pb_decode_varint32 s = (Some n, s') → fits 32 n.
Proof.
  intros Hs. apply (istream_run s); [done|]. intros [|b l] t e Hl Ht H; [done|].
  unfold pb_decode_varint32, pb_decode_varint32_eof in H. rewrite readbyte_cons in H.
  cbn [fst] in H. apply bytes_ok_cons in Hl as [Hb Hl].
  destruct (b .& 128 =? 0); [apply ret_inv in H as [<- _]; eapply fits_mono; [|done]; lia|].
  unfold varint32_multibyte in H. apply bind_inv in H as (s1 & s2 & _ & H).
  apply bind_inv in H as ([[b' p] r] & s3 & Hl' & H).
  destruct (_ && _); [done|]. apply ret_inv in H as [<- _]. eapply varint32_loop_fits; [|done].
  eapply (fits_mono 7); [lia|]. rewrite byte_land_7f by done. change (fits 7) with (λ z, 0 <= z < 128). cbn. lia.
Qed.

#[export] Instance pb_skip_varint_reader : Reader pb_skip_varint.
Proof. unfold pb_skip_varint. apply _. Qed.
#[export] Instance pb_skip_string_reader : Reader pb_skip_string.
Proof.
  unfold pb_skip_string. apply bind_reader_post; [apply _|]. intros s n s' Hs Hn.
  apply decode_varint32_fits in Hn; [|done]. unfold fits in Hn. apply _.
Qed.
#[export] Instance pb_skip_field_reader wt : Reader (pb_skip_field wt).
Proof. unfold pb_skip_field. apply _. Qed.
#[export] Instance raw_varint_loop_reader fuel n m : Reader (raw_varint_loop fuel n m).
Proof. revert n. induction fuel; intros; cbn [raw_varint_loop]; apply _. Qed.
#[export] Instance read_raw_value_reader wt n : Reader (read_raw_value wt n).
Proof. unfold read_raw_value. apply _. Qed.
#[export] Instance pb_decode_svarint_reader : Reader pb_decode_svarint.
Proof. unfold pb_decode_svarint. apply _. Qed.
#[export] Instance pb_decode_fixed32_reader : Reader pb_decode_fixed32.
Proof. unfold pb_decode_fixed32. apply _. Qed.
#[export] Instance pb_decode_fixed64_reader : Reader pb_decode_fixed64.
Proof. unfold pb_decode_fixed64. apply _. Qed.

(** ** Skipping *)

Lemma skip_varint_loop_eq fuel l t e :
  bytes_ok l → (length l < fuel)%nat →
  skip_varint_loop fuel (istr l t e) =
    match varint_split l with
    | Some (_, r) => (Some (), istr r t e)
    | None => (None, istr [] t (err "end-of-stream" e))
    end.
Proof.
  revert l. induction fuel as [|fuel IH]; intros l Hl Hf; [lia|]. cbn [skip_varint_loop].
  destruct l as [|b l]; [done|]. apply bytes_ok_cons in Hl as [Hb Hl].
  rewrite (bind_some _ _ _ _ _ (read_app [b] l t e 1 eq_refl)).
  change (nthZ [b] 0) with b. rewrite byte_land_80 by done. cbn [varint_split].
  destruct (b <? 128); [done|]. cbn [negb]. rewrite IH by (done || (cbn in Hf; lia)).
  by destruct (varint_split l) as [[v r]|].
Qed.

Lemma skip_varint_eq l t e :
  bytes_ok l →
  pb_skip_varint (istr l t e) =
    match varint_split l with
    | Some (_, r) => (Some (), istr r t e)
    | None => (None, istr [] t (err "end-of-stream" e))
    end.
Proof. intros Hl. apply skip_varint_loop_eq; [done|]. cbn [is_bytes_left istr]. unfold lenZ. lia. Qed.

(** ** Values *)

Lemma or_shift a b n : 0 <= n → 0 <= a < 2 ^ n → a .| (b ≪ n) = a + b * 2 ^ n.
Proof. intros. rewrite Z.lor_comm, lor_shiftl_add by done. lia. Qed.

Lemma le_value_bound l : bytes_ok l → 0 <= le_value l < 256 ^ lenZ l.
Proof.
  induction l as [|b l IH]; intros Hl; cbn [le_value]; [by vm_compute|].
  apply bytes_ok_cons in Hl as [Hb Hl]. specialize (IH Hl).
  rewrite lenZ_cons, Z.pow_add_r, Z.pow_1_r by llia. mlia.
Qed.

Lemma length_le_bytes n v : length (le_bytes n v) = n.
Proof. revert v. induction n; intros; cbn; auto. Qed.
Lemma lenZ_le_bytes n v : lenZ (le_bytes n v) = Z.of_nat n.
Proof. unfold lenZ. by rewrite length_le_bytes. Qed.
Lemma le_bytes_ok n v : bytes_ok (le_bytes n v).
Proof.
  revert v. induction n; intros; cbn [le_bytes]; [apply bytes_ok_nil|].
  apply bytes_ok_cons. split; [mlia|done].
Qed.
Lemma le_value_le_bytes n v : le_value (le_bytes n v) = v mod 256 ^ Z.of_nat n.
Proof.
  revert v. induction n as [|n IH]; intros v; cbn [le_bytes le_value].
  - change (256 ^ Z.of_nat 0) with 1. by rewrite Z.mod_1_r.
  - rewrite IH, Nat2Z.inj_succ, Z.pow_succ_r, Z.rem_mul_r by lia. done.
Qed.

Lemma fixed32_value b0 b1 b2 b3 :
  bytes_ok [b0; b1; b2; b3] →
  (b0 ≪ 0) .| (b1 ≪ 8) .| (b2 ≪ 16) .| (b3 ≪ 24) = le_value [b0; b1; b2; b3].
Proof.
  intros H. repeat apply bytes_ok_cons in H as [? H]. rewrite Z.shiftl_0_r. cbn [le_value].
  rewrite (or_shift b0 b1 8) by mlia. change (2 ^ 8) with 256.
  rewrite (or_shift _ b2 16) by mlia. change (2 ^ 16) with 65536.
  rewrite (or_shift _ b3 24) by (change (2 ^ 24) with 16777216; mlia).
  change (2 ^ 24) with 16777216. lia.
Qed.

Lemma fixed64_value b0 b1 b2 b3 b4 b5 b6 b7 :
  bytes_ok [b0; b1; b2; b3; b4; b5; b6; b7] →
  (b0 ≪ 0) .| (b1 ≪ 8) .| (b2 ≪ 16) .| (b3 ≪ 24) .| (b4 ≪ 32) .| (b5 ≪ 40) .| (b6 ≪ 48) .|
  (b7 ≪ 56) = le_value [b0; b1; b2; b3; b4; b5; b6; b7].
Proof.
  intros H. assert (bytes_ok [b0; b1; b2; b3]) as H4 by (apply (Forall_take _ 4) in H; exact H).
  rewrite (fixed32_value _ _ _ _ H4). pose proof (le_value_bound _ H4) as Hb.
  change (256 ^ lenZ [b0; b1; b2; b3]) with 4294967296 in Hb.
  repeat apply bytes_ok_cons in H as [? H].
  change (le_value [b0; b1; b2; b3; b4; b5; b6; b7])
    with (le_value ([b0; b1; b2; b3] ++ [b4; b5; b6; b7])).
  rewrite le_value_app. set (x := le_value [b0; b1; b2; b3]) in *. clearbody x. cbn [le_value].
  change (256 ^ lenZ [b0; b1; b2; b3]) with 4294967296.
  rewrite (or_shift x b4 32) by mlia. change (2 ^ 32) with 4294967296.
  rewrite (or_shift _ b5 40) by (change (2 ^ 40) with 1099511627776; mlia).
  change (2 ^ 40) with 1099511627776.
  rewrite (or_shift _ b6 48) by (change (2 ^ 48) with 281474976710656; mlia).
  change (2 ^ 48) with 281474976710656.
  rewrite (or_shift _ b7 56) by (change (2 ^ 56) with 72057594037927936; mlia).
  change (2 ^ 56) with 72057594037927936. lia.
Qed.

Lemma decode_fixed32_eq x r t e :
  bytes_ok x → lenZ x = 4 → pb_decode_fixed32 (istr (x ++ r) t e) = (Some (le_value x), istr r t e).
Proof.
  intros Hx H4. unfold pb_decode_fixed32. mstep (read_app x r t e 4 (eq_sym H4)).
  unfold lenZ in H4. destruct x as [|b0 [|b1 [|b2 [|b3 [|]]]]]; try (cbn in H4; lia).
  unfold mret, M_ret. do 2 f_equal. by apply fixed32_value.
Qed.

Lemma decode_fixed64_eq x r t e :
  bytes_ok x → lenZ x = 8 → pb_decode_fixed64 (istr (x ++ r) t e) = (Some (le_value x), istr r t e).
Proof.
  intros Hx H8. unfold pb_decode_fixed64. mstep (read_app x r t e 8 (eq_sym H8)).
  unfold lenZ in H8.
  destruct x as [|b0 [|b1 [|b2 [|b3 [|b4 [|b5 [|b6 [|b7 [|]]]]]]]]]; try (cbn in H8; lia).
  unfold mret, M_ret. do 2 f_equal. by apply fixed64_value.
Qed.

Lemma sint_small w z : 1 <= w → - 2 ^ (w - 1) <= z < 2 ^ (w - 1) → sint w z = z.
Proof.
  intros Hw Hz. unfold sint. rewrite wrap_small; [lia|]. unfold fits.
  replace w with (1 + (w - 1)) at 3 by lia. rewrite Z.pow_add_r, Z.pow_1_r by lia. lia.
Qed.

Lemma land_1 v : v .& 1 = v mod 2.
Proof. apply (land_mask v 1). lia. Qed.

Definition int64 (z : Z) : Prop := - 2 ^ 63 <= z < 2 ^ 63.
#[global] Instance int64_dec z : Decision (int64 z).
Proof. unfold int64. apply _. Defined.

Lemma decode_svarint_eq l t e v r z :
  pb_decode_varint (istr l t e) = (Some v, istr r t e) → int64 z → v = zigzag z →
  pb_decode_svarint (istr l t e) = (Some z, istr r t e).
Proof.
  intros H Hz ->. unfold pb_decode_svarint. mstep H. unfold int64 in Hz.
  change (2 ^ 63) with 9223372036854775808 in Hz.
  rewrite land_1, shiftr_div by lia. change (2 ^ 1) with 2. unfold zigzag.
  assert (∀ x, - 2 ^ (64 - 1) <= x < 2 ^ (64 - 1) → sint 64 x = x) as Hs by (intros; by apply sint_small).
  change (2 ^ (64 - 1)) with 9223372036854775808 in Hs.
  destruct (Z.ltb_spec z 0).
  - replace ((-2 * z - 1) mod 2) with 1 by lia. cbn [negb Z.eqb].
    unfold mret, M_ret. do 2 f_equal. unfold sint, wrap, Z.lnot. rewrite Zplus_mod_idemp_l.
    change ((Z.pred (- ((-2 * z - 1) / 2)) + 2 ^ (64 - 1)) mod 2 ^ 64 - 2 ^ (64 - 1))
      with (sint 64 (Z.pred (- ((-2 * z - 1) / 2)))).
    rewrite Hs; lia.
  - replace ((2 * z) mod 2) with 0 by lia. cbn [negb Z.eqb].
    unfold mret, M_ret. do 2 f_equal. rewrite Hs; lia.
Qed.

Lemma zigzag_fits z : int64 z → fits 64 (zigzag z).
Proof.
  unfold int64, zigzag. change (2 ^ 63) with 9223372036854775808. intros.
  destruct (Z.ltb_spec z 0); mlia.
Qed.

(** ** Values on the wire

    The value of each wire type; a string is preceded by its length, a varint of at most
    37 bytes (beyond, the position of a bit no longer fits its variable). *)

Definition string_value (v body : bytes) : Prop :=
  is_varint v ∧ lenZ v <= 37 ∧ varint32_ok v = true ∧ varint32_value v = lenZ body.

Inductive wire_value : Z → bytes → Prop :=
| wire_varint v : is_varint v → wire_value PB_WT_VARINT v
| wire_64bit x : lenZ x = 8 → wire_value PB_WT_64BIT x
| wire_string v body : string_value v body → wire_value PB_WT_STRING (v ++ body)
| wire_32bit x : lenZ x = 4 → wire_value PB_WT_32BIT x.

Lemma decode_varint32_string v body r t e :
  string_value v body →
  pb_decode_varint32 (istr (v ++ body ++ r) t e) = (Some (lenZ body), istr (body ++ r) t e).
Proof. intros (Hv & Hl & Hok & <-). by rewrite decode_varint32_eq, Hok. Qed.

(** What [pb_decode_varint32] accepts, it finds at the front. *)
Lemma decode_varint32_inv l t e n s :
  bytes_ok l → (∀ v r, varint_split l = Some (v, r) → lenZ v <= 37) →
  pb_decode_varint32 (istr l t e) = (Some n, s) →
  ∃ v r, l = v ++ r ∧ is_varint v ∧ lenZ v <= 37 ∧ varint32_ok v = true ∧ n = varint32_value v ∧
    s = istr r t e.
Proof.
  intros Hl H37 H. destruct (varint_split l) as [[v r]|] eqn:Hs.
  - destruct (varint_split_varint _ _ _ Hl Hs) as [Hv _]. specialize (H37 _ _ eq_refl).
    apply varint_split_app in Hs as ->. rewrite decode_varint32_eq in H by done.
    destruct (varint32_ok v) eqn:Hok; simplify_eq. by exists v, r.
  - pose proof (decode_varint32_none l t e Hl Hs) as HN. by rewrite H in HN.
Qed.

Lemma read_discard n x r t e :
  n = lenZ x → (_ ← pb_read n; mret ()) (istr (x ++ r) t e) = (Some (), istr r t e).
Proof. intros Hn. by rewrite (bind_some _ _ _ _ _ (read_app x r t e n Hn)). Qed.

Lemma skip_field_value wt w r t e :
  wire_value wt w → bytes_ok (w ++ r) → pb_skip_field wt (istr (w ++ r) t e) = (Some (), istr r t e).
Proof.
  intros Hw Hok. destruct Hw as [v Hv|x Hx|v body Hs|x Hx].
  - change (pb_skip_field PB_WT_VARINT) with pb_skip_varint.
    by rewrite skip_varint_eq, is_varint_split by done.
  - by apply (read_discard 8).
  - change (pb_skip_field PB_WT_STRING) with pb_skip_string. unfold pb_skip_string.
    rewrite <-app_assoc. mstep (decode_varint32_string v body r t e Hs).
    by apply read_discard.
  - by apply (read_discard 4).
Qed.

Lemma read_inv n l t e x s :
  0 <= n → pb_read n (istr l t e) = (Some x, s) →
  ∃ r, l = x ++ r ∧ lenZ x = n ∧ s = istr r t e.
Proof.
  intros Hn H. rewrite read_eq in H by done. destruct (Z.leb_spec n (lenZ l)); simplify_eq.
  exists (dropZ n l). rewrite takeZ_dropZ, lenZ_takeZ by lia. done.
Qed.

Lemma skip_field_inv wt l t e s :
  bytes_ok l → (∀ v r, wt = PB_WT_STRING → varint_split l = Some (v, r) → lenZ v <= 37) →
  pb_skip_field wt (istr l t e) = (Some (), s) →
  ∃ w r, l = w ++ r ∧ wire_value wt w ∧ s = istr r t e.
Proof.
  intros Hl H37 H. unfold pb_skip_field in H.
  destruct (Z.eqb_spec wt PB_WT_VARINT) as [->|_].
  { rewrite skip_varint_eq in H by done. destruct (varint_split l) as [[v r]|] eqn:Hs; simplify_eq.
    exists v, r. destruct (varint_split_varint _ _ _ Hl Hs). apply varint_split_app in Hs.
    split_and!; [done|by constructor|done]. }
  destruct (Z.eqb_spec wt PB_WT_64BIT) as [->|_].
  { minv. apply read_inv in H0 as (r & -> & Hx & ->); [|lia]. exists a, r.
    split_and!; [done|by constructor|done]. }
  destruct (Z.eqb_spec wt PB_WT_STRING) as [->|_].
  { unfold pb_skip_string in H. minv. apply decode_varint32_inv in H0
      as (v & r & -> & Hv & H37' & Hok & -> & ->); [|done|eauto].
    apply read_inv in H1 as (r' & -> & Hx & ->); [|apply wrap_fits; lia].
    exists (v ++ a0), r'. rewrite app_assoc. split_and!; [done|by constructor|done]. }
  destruct (Z.eqb_spec wt PB_WT_32BIT) as [->|_]; [|done].
  minv. apply read_inv in H0 as (r & -> & Hx & ->); [|lia]. exists a, r.
  split_and!; [done|by constructor|done].
Qed.

(** [pb_skip_field] skips one value of the wire type it is given and nothing else:
    it succeeds exactly when such a value is at the front (a varint of any length, 4 or 8
    bytes, a string with its length), and then the stream is left at its end.
    Otherwise it fails, and the stream has not moved back, beyond its limit, or lost an earlier
    error message. *)
Theorem skip_field_exact wt l t e :
  bytes_ok l → bytes_ok t →
  (∀ v r, wt = PB_WT_STRING → varint_split l = Some (v, r) → lenZ v <= 37) →
  (∀ s, pb_skip_field wt (istr l t e) = (Some (), s) ↔
     ∃ w r, l = w ++ r ∧ wire_value wt w ∧ s = istr r t e) ∧
  moves (istr l t e) (pb_skip_field wt (istr l t e)).2.
Proof.
  intros Hl Ht H37. split; [|apply pb_skip_field_reader; by apply istr_ok].
  intros s. split; [by apply skip_field_inv|].
  intros (w & r & -> & Hw & ->). by apply skip_field_value.
Qed.

Lemma skip_field_exact_witness :
  pb_skip_field PB_WT_STRING (istr [2; 7; 8; 9] [1] None) = (Some (), istr [9] [1] None).
Proof.
  apply (skip_field_exact PB_WT_STRING [2; 7; 8; 9] [1] None); [decide_now..| |].
  - intros v r _ H. vm_compute in H. simplify_eq. done.
  - exists [2; 7; 8], [9]. split_and!; [done| |done].
    apply (wire_string [2] [7; 8]). repeat split; decide_now.
Defined.

(** A tag has 29 bits. *)
Lemma decode_tag_moves s :
  istream_ok s →
  let '(r, _, t) := pb_decode_tag s in
  moves s t ∧ match r with Some (_, wanted) => wanted < 2 ^ 29 | None => True end.
Proof.
  intros Hs. pose proof (reader_moves pb_decode_varint32 s Hs) as Hm.
  pose proof (decode_varint32_fits s) as Hf. unfold pb_decode_varint32 in *. unfold pb_decode_tag.
  destruct (pb_decode_varint32_eof s false) as [[[temp|] t] eof]; cbn [fst snd] in *; [|done].
  destruct (temp =? 0); [done|]. split; [done|]. specialize (Hf temp t Hs eq_refl).
  rewrite shiftr_div by lia. change (2 ^ 3) with 8. change (2 ^ 29) with 536870912. mlia.
Qed.

(** ** Substreams *)

Lemma make_substream_eq v body r t e :
  string_value v body →
  pb_make_string_substream (istr (v ++ body ++ r) t e) =
    (Some (istr body (r ++ t) e),
     {| is_state := body ++ r ++ t; is_bytes_left := lenZ r; is_errmsg := e |}).
Proof.
  intros Hs. unfold pb_make_string_substream. mstep (decode_varint32_string v body r t e Hs).
  unfold getS. rewrite (bind_some _ _ _ (istr (body ++ r) t e) (istr (body ++ r) t e)) by done.
  cbn [istr is_bytes_left]. rewrite (proj2 (Z.ltb_ge _ _)) by llia.
  unfold set_bytes_left, modifyS, mbind, M_bind, mret, M_ret, istr.
  cbn [is_state is_bytes_left is_errmsg]. rewrite <-!app_assoc. do 2 f_equal. llia.
Qed.

Lemma close_substream_eq l t t' e e' n :
  pb_close_string_substream (istr l t e) {| is_state := t'; is_bytes_left := n; is_errmsg := e' |} =
    (Some (), {| is_state := t; is_bytes_left := n; is_errmsg := e |}).
Proof.
  unfold pb_close_string_substream. cbn [istr is_bytes_left].
  destruct (Z.eqb_spec (lenZ l) 0) as [H0|H0]; cbn [negb].
  - apply Z.eq_le_incl, lenZ_0_nil in H0 as ->. done.
  - pose proof (read_app l [] t e (lenZ l) eq_refl) as Hr. rewrite app_nil_r in Hr.
    unfold istr in Hr at 1. unfold istr. by rewrite Hr.
Qed.

(** A string is read through a substream that ends where the string ends.  Whatever
    computation [m] of the class [Reader] runs on it, whether it succeeds and however little it
    reads, after closing the parent stands just behind the string, with its own
    remaining length. *)
Theorem substream_exact {A} (m : M pb_istream A) v body r t e :
  Reader m → string_value v body → bytes_ok (body ++ r ++ t) →
  let '(sub, parent) := pb_make_string_substream (istr (v ++ body ++ r) t e) in
  sub = Some (istr body (r ++ t) e) ∧
  ∃ e', pb_close_string_substream (m (istr body (r ++ t) e)).2 parent = (Some (), istr r t e').
Proof.
  intros Hm Hs Hok. rewrite make_substream_eq by done. split; [done|].
  rewrite bytes_ok_app in Hok.
  pose proof (reader_moves m (istr body (r ++ t) e)) as H. rewrite istr_ok in H. specialize (H Hok).
  apply moves_istr in H as (l1 & l2 & e' & -> & ->). exists e'. by rewrite close_substream_eq.
Qed.

Lemma substream_exact_witness :
  ∃ e', pb_close_string_substream (pb_read 1 (istr [5; 6] [7; 8] None)).2
    {| is_state := [5; 6; 7; 8]; is_bytes_left := 1; is_errmsg := None |} = (Some (), istr [7] [8] e').
Proof.
  assert (Reader (pb_read 1)) as Hr by apply _.
  assert (string_value [2] [5; 6]) as Hs by (repeat split; decide_now).
  assert (bytes_ok ([5; 6] ++ [7] ++ [8])) as Hb by decide_now.
  exact (proj2 (substream_exact (pb_read 1) [2] [5; 6] [7] [8] None Hr Hs Hb)).
Defined.
