(* ===== verification/PbWrite.v ===== *)
(** What the writers of nanopb produce: pb_encode.c on streams that count, that
    fill a buffer, or that call back. *)
From stdpp Require Import strings.
From S2P Require Import Prelude PbWire PbRead.

Open Scope Z_scope.

(** * Sinks

    What a callback promises to [pb_write]: while there is room, the block is
    appended to what was written. *)
Class Sink {St} (cb : St → bytes → bool * St) := {
  sink_view : St → bytes;
  sink_room : St → Z → Prop;
  sink_room_le st n m : sink_room st n → m <= n → sink_room st m;
  sink_write st bs :
    sink_room st (lenZ bs) →
    ∃ st', cb st bs = (true, st') ∧ sink_view st' = sink_view st ++ bs ∧
      ∀ n, sink_room st n → lenZ bs <= n → sink_room st' (n - lenZ bs);
}.

(** A stream over a buffer: what precedes the position has been written. *)
#[export, refine] Instance buf_write_sink : Sink buf_write := {|
  sink_view st := takeZ (ob_pos st) (ob_bytes st);
  sink_room st n := 0 <= ob_pos st ∧ ob_pos st + n <= lenZ (ob_bytes st);
|}.
Proof.
  - intros st n m. cbn. lia.
  - intros st bs [Hp Hn]. eexists. split; [done|]. cbn [ob_pos ob_bytes].
    rewrite takeZ_write_at, lenZ_write_at by lia. split; [done|]. intros n ??. llia.
Defined.

(** A callback that appends to a growing string. *)
Definition append_write (st : bytes) (buf : bytes) : bool * bytes := (true, st ++ buf).
#[export, refine] Instance append_write_sink : Sink append_write := {|
  sink_view st := st;
  sink_room _ _ := True;
|}.
Proof. all: eauto. Defined.

(** * The shortest varint

    [pb_encode_varint] marks every group as continued and then clears the mark
    of the last. *)

Lemma group_byte x : 0 <= x → u8 ((x .& 0x7f) .| 0x80) = x mod 128 + 128.
Proof.
  intros Hx. change 0x7f with (2 ^ 7 - 1). rewrite land_mask by lia. change (2 ^ 7) with 128.
  assert (fits 8 (x mod 128)) as Hb by mlia. set (b := x mod 128) in *.
  assert (b = b mod 128) as -> by lia. clearbody b. byte_eq b.
Qed.

Definition clear_last (l : bytes) : bytes :=
  write_at l (lenZ l - 1) [nthZ l (lenZ l - 1) .& 0x7f].

Lemma clear_last_cons g l : l ≠ [] → clear_last (g :: l) = g :: clear_last l.
Proof.
  intros Hl. assert (1 <= lenZ l) by (destruct l; [done|llia]).
  unfold clear_last. rewrite lenZ_cons. replace (1 + lenZ l - 1) with (1 + (lenZ l - 1)) by lia.
  assert (nthZ (g :: l) (1 + (lenZ l - 1)) = nthZ l (lenZ l - 1)) as ->.
  { unfold nthZ. rewrite Z2Nat.inj_add by lia. done. }
  unfold write_at. rewrite takeZ_cons, dropZ_cons by llia. cbn [app]. f_equal.
  f_equal; [f_equal; lia|]. do 2 f_equal. llia.
Qed.

Lemma clear_last_one n : 0 <= n < 128 → clear_last [n + 128] = [n].
Proof.
  intros Hn. change (clear_last [n + 128]) with [(n + 128) .& 0x7f].
  assert (fits 8 n) as Hb by mlia. assert ((n + 128) .& 0x7f = n mod 128) as -> by byte_eq n.
  f_equal. lia.
Qed.

Lemma groups_varint fuel n :
  0 < n < 128 ^ (Z.of_nat (S fuel)) →
  clear_last (varint_groups (S fuel) n) = varint_of_fuel fuel n.
Proof.
  revert n. induction fuel as [|fuel IH]; intros n Hn.
  - change (128 ^ Z.of_nat 1) with 128 in Hn. cbn [varint_groups varint_of_fuel].
    rewrite (proj2 (Z.eqb_neq n 0)), group_byte, Z.mod_small by lia. apply clear_last_one; lia.
  - rewrite Nat2Z.inj_succ, Z.pow_succ_r in Hn by lia.
    change (varint_groups (S (S fuel)) n) with
      (if n =? 0 then [] else u8 ((n .& 0x7f) .| 0x80) :: varint_groups (S fuel) (n ≫ 7)).
    rewrite (proj2 (Z.eqb_neq n 0)), group_byte, shiftr_div by lia. change (2 ^ 7) with 128.
    cbn [varint_of_fuel]. destruct (Z.ltb_spec n 128).
    + replace (n / 128) with 0 by lia. rewrite Z.mod_small by lia. apply clear_last_one; lia.
    + rewrite clear_last_cons, IH; [done|lia|]. cbn [varint_groups].
      by rewrite (proj2 (Z.eqb_neq _ 0)) by lia.
Qed.

Section writing.
Context {St : Type} {Inh : Inhabited St} {cb : St → bytes → bool * St} {sink : Sink cb}.
Implicit Types s : pb_ostream St.

Definition ostream_ok s : Prop :=
  fits 64 (os_bytes_written s) ∧
  match os_callback s with
  | Some cb' => cb' = cb ∧ fits 64 (os_max_size s) ∧ os_bytes_written s <= os_max_size s ∧
      sink_room (os_state s) (os_max_size s - os_bytes_written s)
  | None => True
  end.

(** [s'] is [s] after the bytes [p] were written. *)
Definition wrote s s' (p : bytes) : Prop :=
  os_callback s' = os_callback s ∧ os_max_size s' = os_max_size s ∧
  match os_callback s with
  | Some _ => os_bytes_written s' = os_bytes_written s + lenZ p ∧
      sink_view (os_state s') = sink_view (os_state s) ++ p ∧
      ∀ n, sink_room (os_state s) n → lenZ p <= n → sink_room (os_state s') (n - lenZ p)
  | None => os_bytes_written s' = size_t (os_bytes_written s + lenZ p) ∧ os_state s' = os_state s
  end ∧ ostream_ok s'.

(** There is room for [n] bytes; always, where they are only counted. *)
Definition has_room s (n : Z) : Prop :=
  match os_callback s with
  | Some _ => os_bytes_written s + n <= os_max_size s
  | None => True
  end.
#[global] Instance has_room_dec s n : Decision (has_room s n).
Proof. unfold has_room. destruct (os_callback s); apply _. Defined.

(** [m] writes [bs]; where there is no room for all of it, it fails after a
    part. *)
Definition emits_at s (m : M (pb_ostream St) ()) (bs : bytes) : Prop :=
  if decide (has_room s (lenZ bs)) then
    ∃ s', m s = (Some (), s') ∧ wrote s s' bs ∧ (os_errmsg s = None → os_errmsg s' = None)
  else
    ∃ s' p, m s = (None, s') ∧ p `prefix_of` bs ∧ wrote s s' p ∧
      (os_errmsg s = None → os_errmsg s' = Some "stream full"%string).

Definition emits (m : M (pb_ostream St) ()) (bs : bytes) : Prop :=
  ∀ s, ostream_ok s → emits_at s m bs.

(** The same for streams whose count of bytes does not overflow. *)
Definition emits64 (m : M (pb_ostream St) ()) (bs : bytes) : Prop :=
  ∀ s, ostream_ok s → os_bytes_written s + lenZ bs < 2 ^ 64 → emits_at s m bs.

Lemma wrote_nil s : ostream_ok s → wrote s s [].
Proof.
  intros Hs. split_and!; try done. pose proof Hs as [Hw _]. change (lenZ (@nil Z)) with 0.
  rewrite Z.add_0_r, wrap_small by done. destruct (os_callback s); rewrite ?app_nil_r; [|done].
  split_and!; [done..|]. intros n ??. by rewrite Z.sub_0_r.
Qed.

Lemma wrote_app s1 s2 s3 p q : wrote s1 s2 p → wrote s2 s3 q → wrote s1 s3 (p ++ q).
Proof.
  intros (Hc & Hm & Hv & _) (Hc' & Hm' & Hv' & Hok).
  split_and!; [congruence|congruence| |done].
  rewrite Hc in Hv'. rewrite lenZ_app. destruct (os_callback s1).
  - destruct Hv as (Hw & Hv & Hr), Hv' as (Hw' & Hv' & Hr').
    rewrite Hw', Hw, Hv', Hv, app_assoc. split_and!; [lia|done|].
    intros n Hn Hl. replace (n - (lenZ p + lenZ q)) with (n - lenZ p - lenZ q) by lia.
    apply Hr'; [apply Hr; [done|llia]|lia].
  - destruct Hv as [Hw Hv], Hv' as [Hw' Hv']. rewrite Hw', Hw, Hv', Hv. split; [mlia|done].
Qed.

Lemma wrote_room s s' p n : wrote s s' p → (has_room s' n ↔ has_room s (lenZ p + n)).
Proof.
  intros (Hc & Hm & Hw' & _). unfold has_room. rewrite Hc, Hm.
  destruct (os_callback s); [|done]. destruct Hw' as [-> _]. lia.
Qed.

(** The count, when it does not overflow. *)
Lemma wrote_count s s' p :
  ostream_ok s → os_bytes_written s + lenZ p < 2 ^ 64 → wrote s s' p →
  os_bytes_written s' = os_bytes_written s + lenZ p.
Proof.
  intros [Hs _] Hl (_ & _ & Hw & _). destruct (os_callback s); destruct Hw as [-> _]; [done|].
  apply wrap_small. llia.
Qed.

Lemma has_room_le s n m : has_room s n → m <= n → has_room s m.
Proof. unfold has_room. destruct (os_callback s); [lia|done]. Qed.

Lemma emits_at_ret s : ostream_ok s → emits_at s (mret ()) [].
Proof.
  intros Hs. unfold emits_at. rewrite decide_True.
  - exists s. split_and!; [done|by apply wrote_nil|done].
  - destruct Hs as [_ Hs]. unfold has_room. destruct (os_callback s); [llia|done].
Qed.

Lemma emits_at_bind s m1 m2 b1 b2 :
  emits_at s m1 b1 →
  (∀ s1, wrote s s1 b1 → emits_at s1 m2 b2) → emits_at s (_ ← m1; m2) (b1 ++ b2).
Proof.
  intros H1 H2. unfold emits_at in *. destruct (decide (has_room s (lenZ b1))) as [Hr|Hr].
  - destruct H1 as (s1 & Hm1 & Hw1 & He1). rewrite (bind_some _ _ _ _ _ Hm1).
    specialize (H2 s1 Hw1). pose proof (wrote_room s s1 b1 (lenZ b2) Hw1) as Hiff. rewrite lenZ_app.
    destruct (decide (has_room s1 (lenZ b2))).
    + destruct H2 as (s2 & Hm2 & Hw2 & He2). rewrite decide_True by tauto.
      exists s2. split_and!; [done|by eapply wrote_app|auto].
    + destruct H2 as (s2 & p & Hm2 & Hp & Hw2 & He2). rewrite decide_False by tauto.
      exists s2, (b1 ++ p). split_and!; [done|by apply prefix_app|by eapply wrote_app|auto].
  - rewrite decide_False.
    + destruct H1 as (s1 & p & Hm1 & Hp & Hw1 & He1). exists s1, p.
      split_and!; [by apply bind_none|by apply prefix_app_r|done|done].
    + intros H. apply Hr. eapply has_room_le; [done|]. llia.
Qed.

Lemma sink_ret : emits (mret ()) [].
Proof. intros s. apply emits_at_ret. Qed.

Lemma sink_bind m1 m2 b1 b2 :
  emits m1 b1 → emits m2 b2 → emits (_ ← m1; m2) (b1 ++ b2).
Proof.
  intros H1 H2 s Hs. apply emits_at_bind; [by apply H1|]. intros s1 Hw. apply H2, Hw.
Qed.

Lemma emits_weaken m bs : emits m bs → emits64 m bs.
Proof. intros H s Hs _. by apply H. Qed.

Lemma emits64_bind m1 m2 b1 b2 :
  emits64 m1 b1 → emits64 m2 b2 → emits64 (_ ← m1; m2) (b1 ++ b2).
Proof.
  intros H1 H2 s Hs Hl. rewrite lenZ_app in Hl. apply emits_at_bind; [apply H1; [done|llia]|].
  intros s1 Hw. apply H2; [apply Hw|]. rewrite (wrote_count s s1 b1) by (done || llia). lia.
Qed.

Definition advanced s (st : St) (n : Z) : pb_ostream St :=
  {| os_callback := os_callback s; os_state := st; os_max_size := os_max_size s;
     os_bytes_written := n; os_errmsg := os_errmsg s |}.

Lemma wrote_counted s bs :
  os_callback s = None →
  wrote s (advanced s (os_state s) (size_t (os_bytes_written s + lenZ bs))) bs.
Proof.
  intros Hc. unfold wrote, ostream_ok, advanced. cbn. rewrite Hc.
  split_and!; done || (apply wrap_fits; lia) || (intros; apply wrap_fits; lia).
Qed.

Lemma wrote_called s st bs :
  ostream_ok s → is_Some (os_callback s) → has_room s (lenZ bs) →
  sink_view st = sink_view (os_state s) ++ bs →
  (∀ n, sink_room (os_state s) n → lenZ bs <= n → sink_room st (n - lenZ bs)) →
  wrote s (advanced s st (size_t (os_bytes_written s + lenZ bs))) bs.
Proof.
  intros [Hw Hs] [cb' Hc] Hr Hv Hroom. unfold wrote, ostream_ok, advanced, has_room in *.
  cbn. rewrite Hc in *. destruct Hs as (-> & Hm & Hle & Hroom0).
  rewrite (wrap_small 64) by llia. do 3 (split; [done|]). split; [llia|].
  split; [done|]. split; [exact Hm|]. split; [lia|].
  replace (os_max_size s - (os_bytes_written s + lenZ bs))
    with (os_max_size s - os_bytes_written s - lenZ bs) by lia.
  apply Hroom; [done|lia].
Qed.

Lemma emits_write bs n : n = lenZ bs → fits 64 n → emits (pb_write bs n) bs.
Proof.
  intros -> Hn s Hs. unfold emits_at, pb_write, getS.
  rewrite (bind_some _ _ _ s s) by done.
  destruct (os_callback s) as [cb'|] eqn:Hc.
  - pose proof Hs as [Hw Hs']. rewrite Hc in Hs'. destruct Hs' as (-> & Hm & Hle & Hroom).
    destruct (decide (has_room s (lenZ bs))) as [Hr|Hr]; pose proof Hr as Hr';
      unfold has_room in Hr'; rewrite Hc in Hr'.
    + destruct (sink_write (os_state s) bs) as (st' & Hst & Hv & Hroom').
      { eapply sink_room_le; [exact Hroom|lia]. }
      rewrite takeZ_all by lia.
      rewrite (proj2 (Z.ltb_ge (size_t _) _)), (proj2 (Z.ltb_ge (os_max_size s) _)) by llia.
      cbn [orb]. destruct (Z.ltb_spec 0 (lenZ bs)).
      * rewrite Hst. eexists. split; [done|]. split; [|done].
        apply (wrote_called s st' bs); done || by eexists.
      * eexists. split; [done|]. split; [|done]. assert (bs = []) as -> by (apply lenZ_0_nil; lia).
        apply (wrote_called s (os_state s) []); [done|by eexists|done|by rewrite app_nil_r|].
        intros n ??. change (lenZ (@nil Z)) with 0. by rewrite Z.sub_0_r.
    + assert (0 < lenZ bs) by llia. rewrite (proj2 (Z.ltb_lt _ _)) by done.
      assert ((size_t (os_bytes_written s + lenZ bs) <? os_bytes_written s)
        || (os_max_size s <? size_t (os_bytes_written s + lenZ bs)) = true) as ->.
      { destruct (Z.ltb_spec (size_t (os_bytes_written s + lenZ bs)) (os_bytes_written s)); [done|].
        apply Z.ltb_lt. mlia. }
      eexists _, []. split; [done|]. split; [apply prefix_nil|]. split; [|by cbn; intros ->].
      pose proof (wrote_nil s Hs) as Hn'. unfold wrote, ostream_ok in *. cbn. done.
  - rewrite decide_True by (unfold has_room; by rewrite Hc). eexists. split; [done|].
    split; [|done]. by apply wrote_counted.
Qed.

(** Sizes alone, without the bytes. *)
Lemma emits_at_count s n bs :
  os_callback s = None → n = lenZ bs → emits_at s (pb_write [] n) bs.
Proof.
  intros Hc ->. unfold emits_at. rewrite decide_True by (unfold has_room; by rewrite Hc).
  unfold pb_write, getS. rewrite (bind_some _ _ _ s s) by done. rewrite Hc.
  eexists. split; [done|]. split; [|done]. by apply wrote_counted.
Qed.

Lemma encode_varint_emits n : fits 64 n → emits (pb_encode_varint n) (varint_of n).
Proof.
  intros Hn. unfold pb_encode_varint. change 0x7f with 127. destruct (Z.leb_spec n 127).
  - rewrite (wrap_small 8) by mlia. unfold varint_of. cbn [varint_of_fuel].
    rewrite (proj2 (Z.ltb_lt n 128)) by lia. apply emits_write; [done|mlia].
  - pose proof (varint_of_spec n Hn) as (_ & _ & Hlen).
    change (write_at _ _ _) with (clear_last (varint_groups 10 n)).
    assert (lenZ (varint_groups 10 n) = lenZ (clear_last (varint_groups 10 n))) as ->.
    { unfold clear_last. rewrite lenZ_write_at; [done| |]; destruct (varint_groups 10 n) eqn:E; try llia.
      all: cbn [varint_groups] in E; by rewrite (proj2 (Z.eqb_neq n 0)) in E by lia. }
    rewrite (groups_varint 9) by (change (128 ^ Z.of_nat 10) with 1180591620717411303424; mlia).
    apply emits_write; [done|]. fold (varint_of n). llia.
Qed.

Lemma encode_svarint_emits z : int64 z → emits (pb_encode_svarint z) (varint_of (zigzag z)).
Proof.
  intros Hz. unfold pb_encode_svarint.
  assert ((if z <? 0 then u64 (Z.lnot (u64 (u64 z ≪ 1))) else u64 (u64 z ≪ 1)) = zigzag z) as ->.
  { unfold int64 in Hz. change (2 ^ 63) with 9223372036854775808 in Hz.
    rewrite Z.shiftl_mul_pow2 by lia. change (2 ^ 1) with 2. unfold zigzag, Z.lnot.
    destruct (Z.ltb_spec z 0); mlia. }
  apply encode_varint_emits. by apply zigzag_fits.
Qed.

Lemma low_byte v : v .& 0xff = v mod 256.
Proof. apply (land_mask v 8). lia. Qed.

Lemma shifted_byte v k n : 0 <= k → 2 ^ k = n → (v ≫ k) .& 0xff = v / n mod 256.
Proof. intros Hk <-. rewrite shiftr_div by done. apply (land_mask _ 8). lia. Qed.

Lemma encode_fixed32_emits v : emits (pb_encode_fixed32 v) (le_bytes 4 v).
Proof.
  assert (le_bytes 4 v = [v .& 0xff; (v ≫ 8) .& 0xff; (v ≫ 16) .& 0xff; (v ≫ 24) .& 0xff]) as ->.
  { rewrite (low_byte v), (shifted_byte v 8 256), (shifted_byte v 16 65536),
      (shifted_byte v 24 16777216) by (lia || reflexivity).
    cbn [le_bytes]. rewrite !Z.div_div by lia. done. }
  apply emits_write; [done|]. vm_compute. done.
Qed.

Lemma encode_fixed64_emits v : emits (pb_encode_fixed64 v) (le_bytes 8 v).
Proof.
  assert (le_bytes 8 v =
    [v .& 0xff; (v ≫ 8) .& 0xff; (v ≫ 16) .& 0xff; (v ≫ 24) .& 0xff;
     (v ≫ 32) .& 0xff; (v ≫ 40) .& 0xff; (v ≫ 48) .& 0xff; (v ≫ 56) .& 0xff]) as ->.
  { rewrite (low_byte v), (shifted_byte v 8 256), (shifted_byte v 16 65536),
      (shifted_byte v 24 16777216), (shifted_byte v 32 4294967296), (shifted_byte v 40 1099511627776),
      (shifted_byte v 48 281474976710656), (shifted_byte v 56 72057594037927936)
      by (lia || reflexivity).
    cbn [le_bytes]. rewrite !Z.div_div by lia. done. }
  apply emits_write; [done|]. vm_compute. done.
Qed.

Definition tag_bytes (wiretype tag : Z) : bytes := varint_of (8 * tag + wiretype).

Lemma encode_tag_emits wt tag :
  0 <= wt < 8 → fits 32 tag → emits (pb_encode_tag wt tag) (tag_bytes wt tag).
Proof.
  intros Hw Ht. unfold pb_encode_tag, tag_bytes.
  assert (u64 (tag ≪ 3) = tag * 2 ^ 3) as ->.
  { rewrite Z.shiftl_mul_pow2 by lia. change (2 ^ 3) with 8. mlia. }
  rewrite lor_mul_add by (change (2 ^ 3) with 8; lia). change (2 ^ 3) with 8.
  replace (tag * 8 + wt) with (8 * tag + wt) by lia. apply encode_varint_emits. mlia.
Qed.

Definition string_bytes (b : bytes) : bytes := varint_of (lenZ b) ++ b.

Lemma encode_string_emits b n :
  n = lenZ b → fits 64 n → emits (pb_encode_string b n) (string_bytes b).
Proof.
  intros -> Hn. unfold pb_encode_string. rewrite (wrap_small 64) by done.
  apply sink_bind; [by apply encode_varint_emits|by apply emits_write].
Qed.
End writing.

(** * Reading back

    The shortest varint as the readers see it. *)

Lemma varint_of_fuel_length fuel n m :
  0 <= n < 128 ^ m → 1 <= m → lenZ (varint_of_fuel fuel n) <= m.
Proof.
  revert n m. induction fuel as [|fuel IH]; intros n m Hn Hm; cbn [varint_of_fuel]; [llia|].
  destruct (Z.ltb_spec n 128); [llia|]. rewrite lenZ_cons.
  destruct (Z.eq_dec m 1) as [->|]; [change (128 ^ 1) with 128 in Hn; lia|].
  specialize (IH (n / 128) (m - 1)). replace m with (1 + (m - 1)) in Hn by lia.
  rewrite Z.pow_add_r, Z.pow_1_r in Hn by lia. lia.
Qed.

Lemma varint_of_32 n :
  fits 32 n → is_varint (varint_of n) ∧ lenZ (varint_of n) <= 5 ∧ varint32_ok (varint_of n) = true ∧
    varint32_value (varint_of n) = n.
Proof.
  intros Hn. destruct (varint_of_spec n) as (Hv & Hval & _); [eapply fits_mono; [|done]; lia|].
  assert (lenZ (varint_of n) <= 5) as H5.
  { apply varint_of_fuel_length; [|lia]. change (128 ^ 5) with 34359738368. mlia. }
  split_and!; [done|done| |].
  - unfold varint32_ok. rewrite (proj2 (Z.leb_le _ _)) by done. rewrite Hval. apply Z.ltb_lt, Hn.
  - unfold varint32_value. by rewrite Hval, wrap_small.
Qed.

Lemma string_value_of b : fits 32 (lenZ b) → string_value (varint_of (lenZ b)) b.
Proof. intros Hb. destruct (varint_of_32 _ Hb) as (?&?&?&?). split_and!; done || lia. Qed.

Lemma decode_varint_of n r t e :
  fits 64 n → bytes_ok r → pb_decode_varint (istr (varint_of n ++ r) t e) = (Some n, istr r t e).
Proof.
  intros Hn Hr. destruct (varint_of_spec n Hn) as (Hv & Hval & Hl).
  rewrite decode_varint_eq by (apply bytes_ok_app; split; [apply Hv|done]).
  rewrite takeZ_app_ge by done. rewrite is_varint_split by done.
  by rewrite Hval, wrap_small, dropZ_app.
Qed.

Lemma low_bits_3 v : v .& 7 = v mod 8.
Proof. apply (land_mask v 3). lia. Qed.

Lemma decode_tag_of wt tag r t e :
  0 <= wt < 8 → 1 <= tag < 2 ^ 29 →
  pb_decode_tag (istr (tag_bytes wt tag ++ r) t e) = (Some (wt, tag), false, istr r t e).
Proof.
  intros Hw Ht. change (2 ^ 29) with 536870912 in Ht. unfold pb_decode_tag, tag_bytes.
  destruct (varint_of_32 (8 * tag + wt)) as (Hv & Hl & Hok & Hval); [mlia|].
  rewrite varint32_eof_eq, decode_varint32_eq, Hok, Hval by (done || lia).
  destruct (varint_of (8 * tag + wt)) as [|b v]; [by apply not_varint_nil in Hv|]. cbn [app].
  rewrite (proj2 (Z.eqb_neq (8 * tag + wt) 0)) by lia.
  rewrite shiftr_div, low_bits_3 by lia. change (2 ^ 3) with 8.
  assert ((8 * tag + wt) mod 8 = wt) as -> by lia. by assert ((8 * tag + wt) / 8 = tag) as -> by lia.
Qed.

(** Values of each kind, as a program writes and reads them field by field. *)

Inductive wire :=
| WVarint (n : Z)
| WSvarint (z : Z)
| WFixed64 (n : Z)
| WFixed32 (n : Z)
| WBytes (b : bytes).
Inductive kind := KVarint | KSvarint | KFixed64 | KFixed32 | KBytes.
#[global] Instance wire_eq_dec : EqDecision wire.
Proof. solve_decision. Defined.

Definition wire_kind (w : wire) : kind :=
  match w with
  | WVarint _ => KVarint | WSvarint _ => KSvarint | WFixed64 _ => KFixed64
  | WFixed32 _ => KFixed32 | WBytes _ => KBytes
  end.
Definition kind_type (k : kind) : Z :=
  match k with
  | KVarint | KSvarint => PB_WT_VARINT | KFixed64 => PB_WT_64BIT
  | KFixed32 => PB_WT_32BIT | KBytes => PB_WT_STRING
  end.
Definition wire_bytes (w : wire) : bytes :=
  match w with
  | WVarint n => varint_of n | WSvarint z => varint_of (zigzag z) | WFixed64 n => le_bytes 8 n
  | WFixed32 n => le_bytes 4 n | WBytes b => string_bytes b
  end.
Definition wire_ok (w : wire) : Prop :=
  match w with
  | WVarint n => fits 64 n | WSvarint z => int64 z | WFixed64 n => fits 64 n
  | WFixed32 n => fits 32 n | WBytes b => bytes_ok b ∧ fits 32 (lenZ b)
  end.
#[global] Instance wire_ok_dec w : Decision (wire_ok w).
Proof. destruct w; cbn; apply _. Defined.

Definition item_ok (it : Z * wire) : Prop := 1 <= it.1 < 2 ^ 29 ∧ wire_ok it.2.
#[global] Instance item_ok_dec it : Decision (item_ok it).
Proof. unfold item_ok. apply _. Defined.
Definition item_bytes (it : Z * wire) : bytes :=
  tag_bytes (kind_type (wire_kind it.2)) it.1 ++ wire_bytes it.2.
Definition items_bytes (its : list (Z * wire)) : bytes := concat (map item_bytes its).

Definition write_wire {St} (w : wire) : M (pb_ostream St) () :=
  match w with
  | WVarint n => pb_encode_varint n
  | WSvarint z => pb_encode_svarint z
  | WFixed64 n => pb_encode_fixed64 n
  | WFixed32 n => pb_encode_fixed32 n
  | WBytes b => pb_encode_string b (lenZ b)
  end.
Definition write_item {St} (it : Z * wire) : M (pb_ostream St) () :=
  _ ← pb_encode_tag (kind_type (wire_kind it.2)) it.1;
  write_wire it.2.
Fixpoint write_items {St} (its : list (Z * wire)) : M (pb_ostream St) () :=
  match its with [] => mret () | it :: its => _ ← write_item it; write_items its end.

(** A string is read through a substream. *)
Definition read_string : M pb_istream bytes :=
  sub ← pb_make_string_substream;
  let '(b, sub') := pb_read (is_bytes_left sub) sub in
  _ ← pb_close_string_substream sub';
  liftO b.
Definition read_wire (k : kind) : M pb_istream wire :=
  match k with
  | KVarint => n ← pb_decode_varint; mret (WVarint n)
  | KSvarint => z ← pb_decode_svarint; mret (WSvarint z)
  | KFixed64 => n ← pb_decode_fixed64; mret (WFixed64 n)
  | KFixed32 => n ← pb_decode_fixed32; mret (WFixed32 n)
  | KBytes => b ← read_string; mret (WBytes b)
  end.
Definition decode_tag : M pb_istream (Z * Z) := λ s,
  let '(r, _, s) := pb_decode_tag s in (r, s).
Definition read_item (k : kind) : M pb_istream (Z * wire) :=
  '(wire_type, tag) ← decode_tag;
  _ ← ensure (wire_type =? kind_type k);
  w ← read_wire k;
  mret (tag, w).
Fixpoint read_items (ks : list kind) : M pb_istream (list (Z * wire)) :=
  match ks with
  | [] => mret []
  | k :: ks => it ← read_item k; its ← read_items ks; mret (it :: its)
  end.
(** Skipping everything, as a decoder does that knows no field. *)
Fixpoint skip_items {A} (its : list A) : M pb_istream () :=
  match its with
  | [] => mret ()
  | _ :: its => '(wire_type, _) ← decode_tag; _ ← pb_skip_field wire_type; skip_items its
  end.

Section write_items.
Context {St : Type} {Inh : Inhabited St} {cb : St → bytes → bool * St} {sink : Sink cb}.

Lemma write_item_emits it : item_ok it → emits (write_item it) (item_bytes it).
Proof.
  destruct it as [tag w]. intros [Ht Hw]. cbn [fst snd] in *. change (2 ^ 29) with 536870912 in Ht.
  unfold write_item, item_bytes. cbn [fst snd]. apply sink_bind.
  - apply encode_tag_emits; [|mlia]. destruct w; cbn; unfold PB_WT_VARINT, PB_WT_64BIT, PB_WT_STRING, PB_WT_32BIT; lia.
  - destruct w; cbn [write_wire wire_bytes wire_ok] in *.
    + by apply encode_varint_emits.
    + by apply encode_svarint_emits.
    + apply encode_fixed64_emits.
    + apply encode_fixed32_emits.
    + apply encode_string_emits; [done|]. destruct Hw. eapply fits_mono; [|done]; lia.
Qed.

Lemma write_items_emits its : Forall item_ok its → emits (write_items its) (items_bytes its).
Proof.
  induction 1 as [|it its Hit _ IH]; [apply sink_ret|].
  apply sink_bind; [by apply write_item_emits|done].
Qed.
End write_items.

Lemma read_string_eq b r t e :
  fits 32 (lenZ b) → read_string (istr (string_bytes b ++ r) t e) = (Some b, istr r t e).
Proof.
  intros Hb. unfold read_string, string_bytes. rewrite <-app_assoc.
  rewrite (bind_some _ _ _ _ _ (make_substream_eq _ b r t e (string_value_of b Hb))).
  cbn [is_bytes_left istr]. pose proof (read_app b [] (r ++ t) e (lenZ b) eq_refl) as Hr.
  rewrite app_nil_r in Hr. change (lenZ (b : list Z)) with (lenZ b). rewrite Hr.
  unfold istr at 1. pose proof (close_substream_eq [] (r ++ t) (b ++ r ++ t) e e (lenZ r)) as Hc.
  by rewrite (bind_some _ _ _ _ _ Hc).
Qed.

Lemma wire_bytes_ok w : wire_ok w → bytes_ok (wire_bytes w).
Proof.
  destruct w; cbn [wire_ok wire_bytes]; intros Hw.
  - by apply varint_of_spec.
  - by apply varint_of_spec, zigzag_fits.
  - apply le_bytes_ok.
  - apply le_bytes_ok.
  - destruct Hw as [Hb Hl]. apply bytes_ok_app. split; [|done]. by apply varint_of_32.
Qed.

Lemma read_wire_eq w r t e :
  wire_ok w → bytes_ok r →
  read_wire (wire_kind w) (istr (wire_bytes w ++ r) t e) = (Some w, istr r t e).
Proof.
  intros Hw Hr. destruct w; cbn [read_wire wire_kind wire_bytes wire_ok] in *.
  - by mstep (decode_varint_of n r t e Hw Hr).
  - pose proof (decode_varint_of _ r t e (zigzag_fits _ Hw) Hr) as Hd.
    by mstep (decode_svarint_eq _ _ _ _ _ _ Hd Hw eq_refl).
  - mstep (decode_fixed64_eq (le_bytes 8 n) r t e (le_bytes_ok _ _) eq_refl).
    rewrite le_value_le_bytes. change (256 ^ Z.of_nat 8) with (2 ^ 64). by rewrite Z.mod_small.
  - mstep (decode_fixed32_eq (le_bytes 4 n) r t e (le_bytes_ok _ _) eq_refl).
    rewrite le_value_le_bytes. change (256 ^ Z.of_nat 4) with (2 ^ 32). by rewrite Z.mod_small.
  - by mstep (read_string_eq b r t e (proj2 Hw)).
Qed.

Lemma wire_value_of w : wire_ok w → wire_value (kind_type (wire_kind w)) (wire_bytes w).
Proof.
  destruct w; cbn [wire_ok wire_bytes wire_kind kind_type]; intros Hw; constructor; try done.
  - by apply varint_of_spec.
  - by apply varint_of_spec, zigzag_fits.
  - apply string_value_of, Hw.
Qed.

Lemma decode_item_tag it r t e :
  item_ok it →
  decode_tag (istr (item_bytes it ++ r) t e) =
    (Some (kind_type (wire_kind it.2), it.1), istr (wire_bytes it.2 ++ r) t e).
Proof.
  intros [Ht Hw]. unfold decode_tag, item_bytes. rewrite <-app_assoc, decode_tag_of; [done| |done].
  destruct it.2; cbn; unfold PB_WT_VARINT, PB_WT_64BIT, PB_WT_STRING, PB_WT_32BIT; lia.
Qed.

Lemma items_bytes_ok its : Forall item_ok its → bytes_ok (items_bytes its).
Proof.
  induction 1 as [|it its Hit _ IH]; [apply bytes_ok_nil|].
  unfold items_bytes. cbn [map concat]. apply bytes_ok_app. split; [|done].
  destruct Hit as [Ht Hw]. change (2 ^ 29) with 536870912 in Ht. unfold item_bytes, tag_bytes.
  apply bytes_ok_app. split; [|by apply wire_bytes_ok]. apply varint_of_spec.
  destruct it.2; cbn; unfold PB_WT_VARINT, PB_WT_64BIT, PB_WT_STRING, PB_WT_32BIT; mlia.
Qed.

Lemma read_items_eq its t e :
  Forall item_ok its →
  read_items (map (λ it, wire_kind it.2) its) (istr (items_bytes its) t e) = (Some its, istr [] t e) ∧
  skip_items its (istr (items_bytes its) t e) = (Some (), istr [] t e).
Proof.
  induction 1 as [|it its Hit Hits [IHr IHs]]; [done|].
  pose proof (items_bytes_ok its Hits) as Hok. pose proof (wire_bytes_ok _ (proj2 Hit)) as Hw.
  unfold items_bytes in *. cbn [map concat read_items skip_items].
  set (r := concat (map item_bytes its)) in *. split.
  - assert (read_item (wire_kind it.2) (istr (item_bytes it ++ r) t e) = (Some it, istr r t e)) as Hi.
    { unfold read_item. mstep (decode_item_tag it r t e Hit). rewrite Z.eqb_refl. mensure.
      mstep (read_wire_eq it.2 r t e (proj2 Hit) Hok). by destruct it. }
    mstep Hi. by mstep IHr.
  - mstep (decode_item_tag it r t e Hit).
    by rewrite (bind_some _ _ _ _ _ (skip_field_value _ (wire_bytes it.2) r t e
      (wire_value_of _ (proj2 Hit)) ltac:(by apply bytes_ok_app))).
Qed.

(** C33. Fields written to a stream over a buffer are read back.  Any list of fields (tags
    from 1 to 2^29 - 1; varints, zigzag varints, fixed numbers, strings) is written when its
    encoding, of tags and values in order and in shortest form, fits [bufsize]; the reader
    then returns the same fields and stands at the end, and skipping unread
    fields gets there too.  When it does not fit, the writer fails with an error, having written
    a beginning of it of at most [bufsize] bytes. *)
Theorem wire_round_trip its buf bufsize :
  Forall item_ok its → fits 64 bufsize → bufsize <= lenZ buf →
  let '(ok, o) := write_items its (pb_ostream_from_buffer buf bufsize) in
  let written := takeZ (ob_pos (os_state o)) (ob_bytes (os_state o)) in
  if lenZ (items_bytes its) <=? bufsize then
    ok = Some () ∧ os_bytes_written o = lenZ (items_bytes its) ∧ written = items_bytes its ∧
    let input := pb_istream_from_buffer written (os_bytes_written o) in
    read_items (map (λ it, wire_kind it.2) its) input = (Some its, istr [] [] None) ∧
    skip_items its input = (Some (), istr [] [] None)
  else
    ok = None ∧ os_errmsg o = Some "stream full"%string ∧ written `prefix_of` items_bytes its ∧
    lenZ written <= bufsize.
Proof.
  intros Hits Hn Hbuf. pose proof (items_bytes_ok its Hits) as Hok.
  set (s := pb_ostream_from_buffer buf bufsize).
  assert (ostream_ok (cb := buf_write) s) as Hs.
  { split; [by vm_compute|]. cbn. split; [done|]. split; [done|]. unfold fits in Hn. lia. }
  pose proof (write_items_emits (cb := buf_write) its Hits s Hs) as H. unfold emits_at in H.
  assert (has_room s (lenZ (items_bytes its)) ↔ lenZ (items_bytes its) <= bufsize) as Hiff
    by (unfold has_room; cbn; lia).
  destruct (Z.leb_spec (lenZ (items_bytes its)) bufsize).
  - rewrite decide_True in H by tauto. destruct H as (s' & -> & (_ & _ & Hv & _) & _).
    cbn in Hv. destruct Hv as (Hwr & -> & _). rewrite Hwr. cbv zeta.
    split_and!; try done.
    + replace (pb_istream_from_buffer _ _) with (istr (items_bytes its) [] None)
        by (unfold istr, pb_istream_from_buffer; by rewrite app_nil_r).
      by apply read_items_eq.
    + replace (pb_istream_from_buffer _ _) with (istr (items_bytes its) [] None)
        by (unfold istr, pb_istream_from_buffer; by rewrite app_nil_r).
      by apply read_items_eq.
  - rewrite decide_False in H by (rewrite Hiff; lia).
    destruct H as (s' & p & -> & Hp & (Hc & Hm & Hv & [_ Hs']) & He). rewrite He by done.
    cbn in Hv. destruct Hv as (Hw & -> & _). split_and!; try done.
    destruct (os_callback s'); [|done]. destruct Hs' as (_ & _ & Hle & _). rewrite Hw, Hm in Hle. done.
Qed.

Lemma wire_round_trip_witness :
  let its := [(1, WVarint 300); (2, WSvarint (-2)); (3, WBytes [1; 2; 3]); (4, WFixed32 7)] in
  let '(ok, o) := write_items its (pb_ostream_from_buffer (replicate 32 0) 32) in
  read_items (map (λ it, wire_kind it.2) its)
    (pb_istream_from_buffer (takeZ 15 (ob_bytes (os_state o))) 15) = (Some its, istr [] [] None).
Proof.
  pose (its := [(1, WVarint 300); (2, WSvarint (-2)); (3, WBytes [1; 2; 3]); (4, WFixed32 7)]).
  assert (Forall item_ok its) as Hi by decide_now. assert (fits 64 32) as Hf by decide_now.
  assert (32 <= lenZ (replicate 32 0)) as Hb by decide_now.
  pose proof (wire_round_trip its (replicate 32 0) 32 Hi Hf Hb) as H.
  subst its. cbv zeta in *. destruct (write_items _ _) as [ok o] eqn:E.
  vm_compute in E. simplify_eq. vm_compute in H. vm_compute. apply H.
Defined.
