(* ===== verification/PbField.v ===== *)
(** The memory and the message descriptors of nanopb: pb.h and pb_common.c of
    src/HolyWater-Test/Pods/nanopb. *)
From stdpp Require Import strings.
From S2P Require Import Prelude PbWire PbRead.

Open Scope Z_scope.

(** * Memory

    Message structures are plain C structures, which the library reads and writes at
    offsets that the descriptors give.  Memory is the list of its bytes, an address is an index;
    NULL is 0.  Pointers are 8 bytes, numbers are little-endian. *)

Definition NULL : Z := 0.
Definition sizeof_ptr : Z := 8.

Definition load (m : bytes) (p n : Z) : bytes := takeZ n (dropZ p m).
Definition load_u8 (m : bytes) (p : Z) : Z := le_value (load m p 1).
(** [*(pb_size_t* )p] *)
Definition load_size (m : bytes) (p : Z) : Z := le_value (load m p 4).
Definition load_ptr (m : bytes) (p : Z) : Z := le_value (load m p sizeof_ptr).
Definition store (m : bytes) (p : Z) (bs : bytes) : bytes := write_at m p bs.
Definition memset (m : bytes) (p c n : Z) : bytes := store m p (replicate (Z.to_nat n) c).

(** * Field descriptors *)

(** [struct pb_field_s]; the [ptr] is an address. *)
Record pb_field := {
  tag : Z;
  type : Z;
  data_offset : Z;
  size_offset : Z;
  data_size : Z;
  array_size : Z;
  ptr : Z;
}.
#[global] Instance pb_field_eq_dec : EqDecision pb_field.
Proof. solve_decision. Defined.

(** Scalar types, repetition rules, allocation. *)
Definition PB_LTYPE_BOOL : Z := 0x00.
Definition PB_LTYPE_VARINT : Z := 0x01.
Definition PB_LTYPE_UVARINT : Z := 0x02.
Definition PB_LTYPE_SVARINT : Z := 0x03.
Definition PB_LTYPE_FIXED32 : Z := 0x04.
Definition PB_LTYPE_FIXED64 : Z := 0x05.
Definition PB_LTYPE_LAST_PACKABLE : Z := 0x05.
Definition PB_LTYPE_BYTES : Z := 0x06.
Definition PB_LTYPE_STRING : Z := 0x07.
Definition PB_LTYPE_SUBMESSAGE : Z := 0x08.
Definition PB_LTYPE_EXTENSION : Z := 0x09.
Definition PB_LTYPE_FIXED_LENGTH_BYTES : Z := 0x0a.
Definition PB_LTYPE (x : Z) : Z := x .& 0x0f.

Definition PB_HTYPE_REQUIRED : Z := 0x00.
Definition PB_HTYPE_OPTIONAL : Z := 0x10.
Definition PB_HTYPE_REPEATED : Z := 0x20.
Definition PB_HTYPE_ONEOF : Z := 0x30.
Definition PB_HTYPE (x : Z) : Z := x .& 0x30.

Definition PB_ATYPE_STATIC : Z := 0x00.
Definition PB_ATYPE_POINTER : Z := 0x80.
Definition PB_ATYPE_CALLBACK : Z := 0x40.
Definition PB_ATYPE (x : Z) : Z := x .& 0xc0.

(** [offsetof(pb_bytes_array_t, bytes)] *)
Definition offsetof_bytes : Z := 4.
Definition PB_BYTES_ARRAY_T_ALLOCSIZE (n : Z) : Z := size_t (n + offsetof_bytes).

Definition PB_LAST_FIELD : pb_field :=
  {| tag := 0; type := 0; data_offset := 0; size_offset := 0; data_size := 0; array_size := 0;
     ptr := 0 |}.

(** A descriptor array ends with PB_LAST_FIELD; [pos] is an index into it. *)
Definition field_at (fields : list pb_field) (pos : nat) : pb_field :=
  default PB_LAST_FIELD (fields !! pos).

(** The arrays that generated code defines, by address. *)
Class Descriptors := fields_at : Z → list pb_field.

(** * Field iterators *)

Record pb_field_iter := {
  start : list pb_field;
  pos_index : nat;
  required_field_index : Z;
  dest_struct : Z;
  pData : Z;
  pSize : Z;
}.
(** [iter->pos] *)
Definition pos (iter : pb_field_iter) : pb_field := field_at (start iter) (pos_index iter).

Definition pb_field_iter_begin (fields : list pb_field) (dest : Z) : pb_field_iter * bool :=
  let first := field_at fields 0 in
  ({| start := fields; pos_index := 0; required_field_index := 0; dest_struct := dest;
      pData := if dest =? NULL then NULL else dest + data_offset first;
      pSize := if dest =? NULL then NULL else dest + data_offset first + size_offset first |},
   negb (tag first =? 0)).

Definition pb_field_iter_next (iter : pb_field_iter) : pb_field_iter * bool :=
  let prev_field := pos iter in
  if tag prev_field =? 0 then (iter, false)
  else
    let next := field_at (start iter) (S (pos_index iter)) in
    if tag next =? 0 then ((pb_field_iter_begin (start iter) (dest_struct iter)).1, false)
    else if (PB_HTYPE (type prev_field) =? PB_HTYPE_ONEOF) &&
            (PB_HTYPE (type next) =? PB_HTYPE_ONEOF) && (data_offset next =? PB_SIZE_MAX) then
      ({| start := start iter; pos_index := S (pos_index iter);
          required_field_index := required_field_index iter; dest_struct := dest_struct iter;
          pData := pData iter; pSize := pSize iter |}, true)
    else
      let prev_size :=
        if (PB_ATYPE (type prev_field) =? PB_ATYPE_STATIC) &&
           (PB_HTYPE (type prev_field) =? PB_HTYPE_REPEATED)
        then size_t (data_size prev_field * array_size prev_field)
        else if PB_ATYPE (type prev_field) =? PB_ATYPE_POINTER then sizeof_ptr
        else data_size prev_field in
      let data := pData iter + prev_size + data_offset next in
      ({| start := start iter; pos_index := S (pos_index iter);
          required_field_index :=
            if PB_HTYPE (type prev_field) =? PB_HTYPE_REQUIRED
            then u32 (required_field_index iter + 1) else required_field_index iter;
          dest_struct := dest_struct iter; pData := data; pSize := data + size_offset next |},
       true).

(** The [do ... while (iter->pos != start)] of the search goes around once. *)
Fixpoint iter_find_loop (fuel : nat) (first : nat) (wanted : pb_field → bool) (iter : pb_field_iter)
    : pb_field_iter * bool :=
  match fuel with
  | O => (iter, false)
  | S fuel =>
      if wanted (pos iter) then (iter, true)
      else
        let iter := (pb_field_iter_next iter).1 in
        if (pos_index iter =? first)%nat then (iter, false)
        else iter_find_loop fuel first wanted iter
  end.

Definition pb_field_iter_find (iter : pb_field_iter) (wanted_tag : Z) : pb_field_iter * bool :=
  iter_find_loop (S (length (start iter))) (pos_index iter)
    (λ f, (tag f =? wanted_tag) && negb (PB_LTYPE (type f) =? PB_LTYPE_EXTENSION)) iter.

(** * Structures in memory *)

(** [pb_callback_t]: the function and, behind it, the argument. *)
Definition callback_function (m : bytes) (callback : Z) : Z := load_ptr m callback.
Definition callback_arg (callback : Z) : Z := callback + 8.

(** [pb_extension_t] and the [pb_extension_type_t] it points to. *)
Definition extension_type (m : bytes) (ext : Z) : Z := load_ptr m ext.
Definition extension_dest (ext : Z) : Z := ext + 8.
Definition extension_next (m : bytes) (ext : Z) : Z := load_ptr m (ext + 16).
Definition extension_found (ext : Z) : Z := ext + 24.
Definition type_decode (m : bytes) (ty : Z) : Z := load_ptr m ty.
Definition type_encode (m : bytes) (ty : Z) : Z := load_ptr m (ty + 8).
Definition type_arg (m : bytes) (ty : Z) : Z := load_ptr m (ty + 16).

(** The field that [extension->type->arg] points to. *)
Definition extension_field {D : Descriptors} (m : bytes) (ext : Z) : pb_field :=
  field_at (fields_at (type_arg m (extension_type m ext))) 0.

(** * Iterators move within their array *)

Lemma iter_begin_start fields dest : start (pb_field_iter_begin fields dest).1 = fields.
Proof. done. Qed.

Lemma iter_next_start iter : start (pb_field_iter_next iter).1 = start iter.
Proof. unfold pb_field_iter_next. by repeat case_match. Qed.

(** What the types of C say of a descriptor. *)
Definition field_ok (f : pb_field) : Prop :=
  fits 32 (tag f) ∧ fits 8 (type f) ∧ fits 32 (data_size f) ∧ fits 32 (array_size f).
#[global] Instance field_ok_dec f : Decision (field_ok f).
Proof. unfold field_ok. apply _. Defined.

Lemma field_at_ok fields i : Forall field_ok fields → field_ok (field_at fields i).
Proof.
  intros H. unfold field_at. destruct (fields !! i) as [f|] eqn:Hf; cbn.
  - by eapply Forall_lookup_1.
  - decide_now.
Qed.

(** * Values in memory *)

Section loads.
Context (mem : bytes) (Hmem : bytes_ok mem).

Lemma load_ok p n : bytes_ok (load mem p n).
Proof. unfold load, takeZ, dropZ. by apply Forall_take, Forall_drop. Qed.

Lemma load_le p n w : 0 <= n → w = 8 * n → fits w (le_value (load mem p n)).
Proof.
  intros Hn ->. unfold fits. pose proof (le_value_bound _ (load_ok p n)) as [H0 H1].
  split; [done|]. eapply Z.lt_le_trans; [exact H1|].
  rewrite Z.pow_mul_r by lia. change (2 ^ 8) with 256. apply Z.pow_le_mono_r; [lia|].
  unfold load, lenZ, takeZ. rewrite length_take. lia.
Qed.
End loads.
