(* ===== verification/PbEncode.v ===== *)
(** Encoding messages: src/HolyWater-Test/Pods/nanopb/pb_encode.c. *)
From stdpp Require Import strings.
From S2P Require Import Prelude PbWire PbRead PbWrite PbField.

Open Scope Z_scope.

Section encode.
Context {D : Descriptors} {St : Type} {Inh : Inhabited St}.
Abbreviation E := (M (pb_ostream St) ()).

(** User functions, by address: a callback gets the field and the address of its
    argument, an extension encoder the extension. *)
Context (callback_encode : Z → pb_field → Z → bytes → E) (type_encoder : Z → Z → bytes → E).

(** The memory, which encoding does not change. *)
Context (mem : bytes).

(** [sizeof(bool)] is 1. *)
Definition safe_read_bool (p : Z) : bool := negb (load_u8 mem p =? 0).

(** * Default values *)

Section default_loop.
Context (check : pb_field → Z → bool).
(** [do ... while (pb_field_iter_next(&iter))]: no more turns than fields. *)
Fixpoint check_fields (fuel : nat) (iter : pb_field_iter) : bool :=
  match fuel with
  | O => true
  | S fuel =>
      if negb (check (pos iter) (pData iter)) then false
      else let '(iter, more) := pb_field_iter_next iter in
           if more then check_fields fuel iter else true
  end.
End default_loop.

(** Messages nest at most [depth] deep. *)
Fixpoint pb_check_proto3_default_value (depth : nat) (field : pb_field) (data : Z) : bool :=
  let size := data + size_offset field in
  let rest :=
    if (PB_ATYPE (type field) =? PB_ATYPE_STATIC) && (PB_LTYPE (type field) =? PB_LTYPE_BYTES) then
      load_size mem data =? 0
    else if (PB_ATYPE (type field) =? PB_ATYPE_STATIC) && (PB_LTYPE (type field) =? PB_LTYPE_STRING)
      then load_u8 mem data =? 0
    else if (PB_ATYPE (type field) =? PB_ATYPE_STATIC) &&
            (PB_LTYPE (type field) =? PB_LTYPE_FIXED_LENGTH_BYTES) then data_size field =? 0
    else if (PB_ATYPE (type field) =? PB_ATYPE_STATIC) &&
            (PB_LTYPE (type field) =? PB_LTYPE_SUBMESSAGE) then
      match depth with
      | O => true
      | S depth =>
          let '(iter, nonempty) := pb_field_iter_begin (fields_at (ptr field)) data in
          if nonempty
          then check_fields (pb_check_proto3_default_value depth) (length (start iter)) iter
          else true
      end
    else if (PB_ATYPE (type field) =? PB_ATYPE_POINTER) &&
            (PB_LTYPE_LAST_PACKABLE <? PB_LTYPE (type field)) then load_ptr mem data =? NULL
    else forallb (λ b, b =? 0) (load mem data (data_size field)) in
  if PB_HTYPE (type field) =? PB_HTYPE_REQUIRED then false
  else if PB_HTYPE (type field) =? PB_HTYPE_REPEATED then
    if negb (size_offset field =? 0) then load_size mem size =? 0
    else if PB_ATYPE (type field) =? PB_ATYPE_STATIC then false
    else rest
  else if PB_HTYPE (type field) =? PB_HTYPE_ONEOF then load_size mem size =? 0
  else if (PB_HTYPE (type field) =? PB_HTYPE_OPTIONAL) && negb (size_offset field =? 0) then
    negb (safe_read_bool size)
  else rest.

(** * Single values *)

(** [value = *(const intN_t* )src] by [data_size]. *)
Definition load_signed (field : pb_field) (src : Z) : option Z :=
  if data_size field =? 1 then Some (sint 8 (le_value (load mem src 1)))
  else if data_size field =? 2 then Some (sint 16 (le_value (load mem src 2)))
  else if data_size field =? 4 then Some (sint 32 (le_value (load mem src 4)))
  else if data_size field =? 8 then Some (sint 64 (le_value (load mem src 8)))
  else None.
Definition load_unsigned (field : pb_field) (src : Z) : option Z :=
  if data_size field =? 1 then Some (le_value (load mem src 1))
  else if data_size field =? 2 then Some (le_value (load mem src 2))
  else if data_size field =? 4 then Some (le_value (load mem src 4))
  else if data_size field =? 8 then Some (le_value (load mem src 8))
  else None.

Definition pb_enc_bool (field : pb_field) (src : Z) : E :=
  pb_encode_varint (if safe_read_bool src then 1 else 0).

Definition pb_enc_varint (field : pb_field) (src : Z) : E :=
  match load_signed field src with
  | Some value => pb_encode_varint (u64 value)
  | None => out_error "invalid data_size"
  end.

Definition pb_enc_uvarint (field : pb_field) (src : Z) : E :=
  match load_unsigned field src with
  | Some value => pb_encode_varint value
  | None => out_error "invalid data_size"
  end.

Definition pb_enc_svarint (field : pb_field) (src : Z) : E :=
  match load_signed field src with
  | Some value => pb_encode_svarint value
  | None => out_error "invalid data_size"
  end.

Definition pb_enc_fixed32 (field : pb_field) (src : Z) : E :=
  pb_encode_fixed32 (le_value (load mem src 4)).
Definition pb_enc_fixed64 (field : pb_field) (src : Z) : E :=
  pb_encode_fixed64 (le_value (load mem src 8)).

Definition pb_enc_bytes (field : pb_field) (src : Z) : E :=
  if src =? NULL then pb_encode_string [] 0
  else
    let size := load_size mem src in
    if (PB_ATYPE (type field) =? PB_ATYPE_STATIC) &&
       (size_t (data_size field - offsetof_bytes) <? size)
    then out_error "bytes size exceeded"
    else pb_encode_string (load mem (src + offsetof_bytes) size) size.

(** [while (size < max_size && *p != '\0')] *)
Fixpoint string_length (l : bytes) (max_size : Z) : Z :=
  match l with
  | [] => 0
  | b :: l => if (0 <? max_size) && negb (b =? 0) then 1 + string_length l (max_size - 1) else 0
  end.

Definition pb_enc_string (field : pb_field) (src : Z) : E :=
  let max_size :=
    if PB_ATYPE (type field) =? PB_ATYPE_POINTER then UINT64_MAX else data_size field in
  let size := if src =? NULL then 0 else string_length (dropZ src mem) max_size in
  pb_encode_string (load mem src size) size.

Definition pb_enc_fixed_length_bytes (field : pb_field) (src : Z) : E :=
  pb_encode_string (load mem src (data_size field)) (data_size field).

(** Another stream in place of the current one; the outcome and that stream. *)
Definition with_ostream {A} (sub : pb_ostream St) (m : M (pb_ostream St) A)
    : M (pb_ostream St) (option A * pb_ostream St) := λ s, (Some (m sub), s).

(** * Submessages *)

Section submessages.
(** [pb_encode], tied below. *)
Context (pb_encode : list pb_field → Z → E).

Definition pb_encode_submessage (fields : list pb_field) (src : Z) : E :=
  '(ok, substream) ← with_ostream PB_OSTREAM_SIZING (pb_encode fields src);
  match ok with
  | None => λ stream,
      (None, {| os_callback := os_callback stream; os_state := os_state stream;
                os_max_size := os_max_size stream; os_bytes_written := os_bytes_written stream;
                os_errmsg := os_errmsg substream |})
  | Some _ =>
      let size := os_bytes_written substream in
      _ ← pb_encode_varint size;
      stream ← getS;
      match os_callback stream with
      | None => pb_write [] size
      | Some _ =>
          if os_max_size stream <? size_t (os_bytes_written stream + size)
          then out_error "stream full"
          else
            '(status, substream) ← with_ostream
              {| os_callback := os_callback stream; os_state := os_state stream;
                 os_max_size := size; os_bytes_written := 0; os_errmsg := None |}
              (pb_encode fields src);
            _ ← putS {| os_callback := os_callback stream; os_state := os_state substream;
                        os_max_size := os_max_size stream;
                        os_bytes_written :=
                          size_t (os_bytes_written stream + os_bytes_written substream);
                        os_errmsg := os_errmsg substream |};
            if negb (os_bytes_written substream =? size) then out_error "submsg size changed"
            else liftO status
      end
  end.

Definition pb_enc_submessage (field : pb_field) (src : Z) : E :=
  if ptr field =? NULL then out_error "invalid field descriptor"
  else pb_encode_submessage (fields_at (ptr field)) src.
End submessages.

(** * Fields *)

Section fields.
(** The encoder of submessages, and how deep default values are searched. *)
Context (enc_submessage : pb_field → Z → E) (depth : nat).

(** A call through NULL or past the table has no result. *)
Definition PB_ENCODERS (ltype : Z) : pb_field → Z → E :=
  if ltype =? PB_LTYPE_BOOL then pb_enc_bool
  else if ltype =? PB_LTYPE_VARINT then pb_enc_varint
  else if ltype =? PB_LTYPE_UVARINT then pb_enc_uvarint
  else if ltype =? PB_LTYPE_SVARINT then pb_enc_svarint
  else if ltype =? PB_LTYPE_FIXED32 then pb_enc_fixed32
  else if ltype =? PB_LTYPE_FIXED64 then pb_enc_fixed64
  else if ltype =? PB_LTYPE_BYTES then pb_enc_bytes
  else if ltype =? PB_LTYPE_STRING then pb_enc_string
  else if ltype =? PB_LTYPE_SUBMESSAGE then enc_submessage
  else if ltype =? PB_LTYPE_FIXED_LENGTH_BYTES then pb_enc_fixed_length_bytes
  else λ _ _, ret0.

Definition pb_encode_tag_for_field (field : pb_field) : E :=
  let ltype := PB_LTYPE (type field) in
  if (ltype =? PB_LTYPE_BOOL) || (ltype =? PB_LTYPE_VARINT) || (ltype =? PB_LTYPE_UVARINT) ||
     (ltype =? PB_LTYPE_SVARINT) then pb_encode_tag PB_WT_VARINT (tag field)
  else if ltype =? PB_LTYPE_FIXED32 then pb_encode_tag PB_WT_32BIT (tag field)
  else if ltype =? PB_LTYPE_FIXED64 then pb_encode_tag PB_WT_64BIT (tag field)
  else if (ltype =? PB_LTYPE_BYTES) || (ltype =? PB_LTYPE_STRING) ||
          (ltype =? PB_LTYPE_SUBMESSAGE) || (ltype =? PB_LTYPE_FIXED_LENGTH_BYTES)
    then pb_encode_tag PB_WT_STRING (tag field)
  else out_error "invalid field type".

(** [for (i = 0; i < count; i++)] over the items from [p] on. *)
Fixpoint encode_items (count : nat) (item : Z → E) (p step : Z) : E :=
  match count with
  | O => mret ()
  | S count => _ ← item p; encode_items count item (p + step) step
  end.

Definition encode_array (field : pb_field) (data count : Z) (func : pb_field → Z → E) : E :=
  if count =? 0 then mret ()
  else if negb (PB_ATYPE (type field) =? PB_ATYPE_POINTER) && (array_size field <? count)
    then out_error "array max size exceeded"
  else if PB_LTYPE (type field) <=? PB_LTYPE_LAST_PACKABLE then
    _ ← pb_encode_tag PB_WT_STRING (tag field);
    size ← (if PB_LTYPE (type field) =? PB_LTYPE_FIXED32 then mret (size_t (4 * count))
            else if PB_LTYPE (type field) =? PB_LTYPE_FIXED64 then mret (size_t (8 * count))
            else
              '(ok, sizestream) ← with_ostream PB_OSTREAM_SIZING
                (encode_items (Z.to_nat count) (func field) data (data_size field));
              match ok with
              | None => ret0
              | Some _ => mret (os_bytes_written sizestream)
              end);
    _ ← pb_encode_varint size;
    stream ← getS;
    match os_callback stream with
    | None => pb_write [] size
    | Some _ => encode_items (Z.to_nat count) (func field) data (data_size field)
    end
  else
    encode_items (Z.to_nat count) (λ p,
      _ ← pb_encode_tag_for_field field;
      if (PB_ATYPE (type field) =? PB_ATYPE_POINTER) &&
         ((PB_LTYPE (type field) =? PB_LTYPE_STRING) || (PB_LTYPE (type field) =? PB_LTYPE_BYTES))
      then func field (load_ptr mem p)
      else func field p) data (data_size field).

(** The has-flag and the count are at [size] or, where there is none, the flag is
    the local [implicit_has]. *)
Definition encode_basic_field (field : pb_field) (data : Z) : E :=
  let func := PB_ENCODERS (PB_LTYPE (type field)) in
  let size := data + size_offset field in
  let implicit_has :=
    if negb (size_offset field =? 0) then false
    else if PB_HTYPE (type field) =? PB_HTYPE_OPTIONAL
      then negb (pb_check_proto3_default_value depth field data)
    else true in
  let is_pointer := PB_ATYPE (type field) =? PB_ATYPE_POINTER in
  let data := if is_pointer then load_ptr mem data else data in
  let implicit_has := if is_pointer then negb (data =? NULL) else implicit_has in
  let explicit := negb (size_offset field =? 0) in
  if PB_HTYPE (type field) =? PB_HTYPE_REQUIRED then
    if data =? NULL then out_error "missing required field"
    else
      _ ← pb_encode_tag_for_field field;
      func field data
  else if PB_HTYPE (type field) =? PB_HTYPE_OPTIONAL then
    if (if explicit then safe_read_bool size else implicit_has) then
      _ ← pb_encode_tag_for_field field;
      func field data
    else mret ()
  else if PB_HTYPE (type field) =? PB_HTYPE_REPEATED then
    encode_array field data (if explicit then load_size mem size else array_size field) func
  else
    if (if explicit then load_size mem size else (if implicit_has then 1 else 0)) =? tag field then
      _ ← pb_encode_tag_for_field field;
      func field data
    else mret ().

(** [PB_RETURN_ERROR] when [m] fails. *)
Definition or_error (msg : string) (m : E) : E := λ s,
  match m s with
  | (Some u, s) => (Some u, s)
  | (None, s) => out_error msg s
  end.

Definition encode_callback_field (field : pb_field) (data : Z) : E :=
  if negb (callback_function mem data =? NULL) then
    or_error "callback error"
      (callback_encode (callback_function mem data) field (callback_arg data) mem)
  else mret ().

Definition encode_field (field : pb_field) (data : Z) : E :=
  if (PB_ATYPE (type field) =? PB_ATYPE_STATIC) || (PB_ATYPE (type field) =? PB_ATYPE_POINTER)
    then encode_basic_field field data
  else if PB_ATYPE (type field) =? PB_ATYPE_CALLBACK then encode_callback_field field data
  else out_error "invalid field type".

Definition default_extension_encoder (extension : Z) : E :=
  let field := extension_field mem extension in
  if PB_ATYPE (type field) =? PB_ATYPE_POINTER
  then encode_field field (extension_dest extension)
  else encode_field field (load_ptr mem (extension_dest extension)).

(** The chain of extensions has no more links than memory has bytes. *)
Fixpoint encode_extensions (fuel : nat) (extension : Z) : E :=
  match fuel with
  | O => ret0
  | S fuel =>
      if extension =? NULL then mret ()
      else
        let encode := type_encode mem (extension_type mem extension) in
        _ ← (if negb (encode =? NULL) then type_encoder encode extension mem
             else default_extension_encoder extension);
        encode_extensions fuel (extension_next mem extension)
  end.

Definition encode_extension_field (field : pb_field) (data : Z) : E :=
  encode_extensions (S (length mem)) (load_ptr mem data).

(** * Messages *)

Fixpoint encode_fields (fuel : nat) (iter : pb_field_iter) : E :=
  match fuel with
  | O => mret ()
  | S fuel =>
      _ ← (if PB_LTYPE (type (pos iter)) =? PB_LTYPE_EXTENSION
           then encode_extension_field (pos iter) (pData iter)
           else encode_field (pos iter) (pData iter));
      let '(iter, more) := pb_field_iter_next iter in
      if more then encode_fields fuel iter else mret ()
  end.

Definition encode_message (fields : list pb_field) (src : Z) : E :=
  let '(iter, nonempty) := pb_field_iter_begin fields src in
  if negb nonempty then mret () else encode_fields (length fields) iter.
End fields.

(** [pb_encode] for messages that nest at most [depth] deep. *)
Fixpoint pb_encode (depth : nat) (fields : list pb_field) (src : Z) : E :=
  match depth with
  | O => ret0
  | S depth => encode_message (pb_enc_submessage (pb_encode depth)) depth fields src
  end.

Definition pb_encode_delimited (depth : nat) (fields : list pb_field) (src : Z) : E :=
  pb_encode_submessage (pb_encode depth) fields src.

Definition pb_encode_nullterminated (depth : nat) (fields : list pb_field) (src : Z) : E :=
  _ ← pb_encode depth fields src;
  pb_write [0] 1.

(** The size, if encoding succeeds. *)
Definition pb_get_encoded_size (depth : nat) (fields : list pb_field) (src : Z) : option Z :=
  match pb_encode depth fields src PB_OSTREAM_SIZING with
  | (Some _, stream) => Some (os_bytes_written stream)
  | (None, _) => None
  end.
End encode.
