(* ===== verification/PbEncodeSpec.v ===== *)
(** What encoding a message writes: the bytes of a structure in memory as a
    function, and the theorem that pb_encode.c writes them, measuring first where it must.
    The function finds the fields, reads the values and knows the default ones by its own
    means; what callbacks and extensions of the user write is given by [UserBytes]. *)
From stdpp Require Import strings.
From S2P Require Import Prelude PbWire PbRead PbWrite PbField PbEncode.

Open Scope Z_scope.

(** * The encoding of a message *)

(** What the user's functions write, as far as it is determined: a callback, by its address, with the field and
    the address of its argument; the encoder of an extension type, by its address, with the extension. *)
Class UserBytes := {
  callback_bytes : Z → pb_field → Z → bytes → option bytes;
  extension_bytes : Z → Z → bytes → option bytes;
}.
#[export] Instance no_user_bytes : UserBytes | 10 :=
  {| callback_bytes := λ _ _ _ _, None; extension_bytes := λ _ _ _, None |}.

Section message_bytes.
Context {D : Descriptors} {U : UserBytes} (mem : bytes).

(** The fields of a structure with their addresses, up to the end of the array: one after the other, each
    behind the one before it by the gap its descriptor gives; the members of a union share a place. *)
Definition extent_of (f : pb_field) : Z :=
  if PB_ATYPE (type f) =? PB_ATYPE_POINTER then 8
  else if (PB_ATYPE (type f) =? PB_ATYPE_STATIC) && (PB_HTYPE (type f) =? PB_HTYPE_REPEATED)
    then size_t (data_size f * array_size f)
  else data_size f.
Definition shares_place (f g : pb_field) : bool :=
  (PB_HTYPE (type f) =? PB_HTYPE_ONEOF) && (PB_HTYPE (type g) =? PB_HTYPE_ONEOF) && (data_offset g =? PB_SIZE_MAX).
Fixpoint fields_after (f : pb_field) (p : Z) (fields : list pb_field) : list (pb_field * Z) :=
  match fields with
  | [] => []
  | g :: fields =>
      if tag g =? 0 then []
      else let q := if shares_place f g then p else p + extent_of f + data_offset g in
           (g, q) :: fields_after g q fields
  end.
Definition message_fields (fields : list pb_field) (src : Z) : list (pb_field * Z) :=
  match fields with
  | [] => []
  | f :: fields =>
      if tag f =? 0 then []
      else let p := if src =? NULL then NULL else src + data_offset f in (f, p) :: fields_after f p fields
  end.

(** Numbers of the widths of C's integer types, and text up to the first zero. *)
Definition number_at (p n : Z) : option Z :=
  if bool_decide (n ∈ [1; 2; 4; 8]) then Some (le_value (load mem p n)) else None.
Definition signed_at (p n : Z) : option Z := sint (8 * n) <$> number_at p n.
Definition is_set (p : Z) : bool := negb (load_u8 mem p =? 0).
Fixpoint text (l : bytes) : bytes :=
  match l with [] => [] | b :: l => if b =? 0 then [] else b :: text l end.

(** ** Absent values

    A field without a has-field, as in proto3, is absent when its value is the default one: the empty string,
    no bytes, the number zero, a message that has nothing to write in any of its fields. *)

Definition all_zero (p n : Z) : bool := bool_decide (load mem p n = replicate (length (load mem p n)) 0).

Section absent.
(** The same for the fields of submessages. *)
Context (absent : pb_field → Z → bool).
Definition is_type (a l : Z) (f : pb_field) : bool := (PB_ATYPE (type f) =? a) && (PB_LTYPE (type f) =? l).
Definition empty_value (f : pb_field) (p : Z) : bool :=
  if is_type PB_ATYPE_STATIC PB_LTYPE_STRING f then bool_decide (text (load mem p 1) = [])
  else if is_type PB_ATYPE_STATIC PB_LTYPE_SUBMESSAGE f then
    forallb (λ '(g, q), absent g q) (message_fields (fields_at (ptr f)) p)
  else if is_type PB_ATYPE_STATIC PB_LTYPE_BYTES f then load_size mem p =? 0
  else if is_type PB_ATYPE_STATIC PB_LTYPE_FIXED_LENGTH_BYTES f then data_size f =? 0
  else if (PB_ATYPE (type f) =? PB_ATYPE_POINTER) && negb (PB_LTYPE (type f) <=? PB_LTYPE_LAST_PACKABLE)
    then load_ptr mem p =? NULL
  else all_zero p (data_size f).
End absent.

(** By the rule of the field: what is required is never absent, a union is when no member is chosen, an array when
    its count is zero, and an optional field when its has-field says so or, if it has none, by its value.
    Below [depth] levels of submessages nothing is looked at. *)
Fixpoint absent (depth : nat) (f : pb_field) (p : Z) : bool :=
  let h := PB_HTYPE (type f) in
  let counted := negb (size_offset f =? 0) in
  let empty := empty_value (match depth with O => λ _ _, true | S depth => absent depth end) f p in
  if h =? PB_HTYPE_REQUIRED then false
  else if h =? PB_HTYPE_ONEOF then load_size mem (p + size_offset f) =? 0
  else if counted && (h =? PB_HTYPE_REPEATED) then load_size mem (p + size_offset f) =? 0
  else if counted && (h =? PB_HTYPE_OPTIONAL) then negb (is_set (p + size_offset f))
  else negb ((h =? PB_HTYPE_REPEATED) && (PB_ATYPE (type f) =? PB_ATYPE_STATIC)) && empty.

(** ** Values *)

(** The wire type of each scalar type. *)
Definition wire_type_of (f : pb_field) : option Z :=
  let l := PB_LTYPE (type f) in
  if l <=? PB_LTYPE_SVARINT then Some PB_WT_VARINT
  else if l =? PB_LTYPE_FIXED32 then Some PB_WT_32BIT
  else if l =? PB_LTYPE_FIXED64 then Some PB_WT_64BIT
  else if (l <=? PB_LTYPE_SUBMESSAGE) || (l =? PB_LTYPE_FIXED_LENGTH_BYTES) then Some PB_WT_STRING
  else None.

(** A string of [n] bytes that are all in memory. *)
Definition memory_string (p n : Z) : option bytes :=
  if lenZ (load mem p n) =? n then Some (string_bytes (load mem p n)) else None.

Section field_bytes.
Context (submessage : list pb_field → Z → option bytes) (depth : nat).

Definition value_bytes (f : pb_field) (p : Z) : option bytes :=
  let l := PB_LTYPE (type f) in
  if l =? PB_LTYPE_BOOL then Some (varint_of (if is_set p then 1 else 0))
  else if l =? PB_LTYPE_VARINT then v ← signed_at p (data_size f); Some (varint_of (u64 v))
  else if l =? PB_LTYPE_UVARINT then v ← number_at p (data_size f); Some (varint_of v)
  else if l =? PB_LTYPE_SVARINT then v ← signed_at p (data_size f); Some (varint_of (zigzag v))
  else if l =? PB_LTYPE_FIXED32 then Some (le_bytes 4 (le_value (load mem p 4)))
  else if l =? PB_LTYPE_FIXED64 then Some (le_bytes 8 (le_value (load mem p 8)))
  else if l =? PB_LTYPE_BYTES then
    if p =? NULL then Some (string_bytes [])
    else if (PB_ATYPE (type f) =? PB_ATYPE_STATIC) &&
            (size_t (data_size f - offsetof_bytes) <? load_size mem p) then None
    else memory_string (p + offsetof_bytes) (load_size mem p)
  else if l =? PB_LTYPE_STRING then
    Some (string_bytes (if p =? NULL then [] else
      text (load mem p (if PB_ATYPE (type f) =? PB_ATYPE_POINTER then UINT64_MAX else data_size f))))
  else if l =? PB_LTYPE_SUBMESSAGE then
    if ptr f =? NULL then None
    else b ← submessage (fields_at (ptr f)) p; Some (string_bytes b)
  else if l =? PB_LTYPE_FIXED_LENGTH_BYTES then memory_string p (data_size f)
  else None.

Definition tagged (f : pb_field) (v : option bytes) : option bytes :=
  wt ← wire_type_of f; b ← v; Some (tag_bytes wt (tag f) ++ b).

Fixpoint items_of (count : nat) (item : Z → option bytes) (p step : Z) : option bytes :=
  match count with
  | O => Some []
  | S count => b ← item p; r ← items_of count item (p + step) step; Some (b ++ r)
  end.

(** A pointer to a string or to bytes is followed once more. *)
Definition is_indirect (f : pb_field) : bool :=
  (PB_ATYPE (type f) =? PB_ATYPE_POINTER) &&
  ((PB_LTYPE (type f) =? PB_LTYPE_STRING) || (PB_LTYPE (type f) =? PB_LTYPE_BYTES)).

Definition array_bytes (f : pb_field) (p count : Z) : option bytes :=
  if count =? 0 then Some []
  else if negb (PB_ATYPE (type f) =? PB_ATYPE_POINTER) && (array_size f <? count) then None
  else if PB_LTYPE (type f) <=? PB_LTYPE_LAST_PACKABLE then
    b ← items_of (Z.to_nat count) (value_bytes f) p (data_size f);
    Some (tag_bytes PB_WT_STRING (tag f) ++ string_bytes b)
  else
    items_of (Z.to_nat count) (λ p,
      tagged f (value_bytes f (if is_indirect f then load_ptr mem p else p))) p (data_size f).

(** A field but for the extensions: a callback that is not set writes nothing, one that is what it has to write. *)
Definition member_bytes (f : pb_field) (a : Z) : option bytes :=
  let is_pointer := PB_ATYPE (type f) =? PB_ATYPE_POINTER in
  let explicit := negb (size_offset f =? 0) in
  let size := a + size_offset f in
  let p := if is_pointer then load_ptr mem a else a in
  if PB_ATYPE (type f) =? PB_ATYPE_CALLBACK then
    if callback_function mem a =? NULL then Some []
    else callback_bytes (callback_function mem a) f (callback_arg a) mem
  else if negb (is_pointer || (PB_ATYPE (type f) =? PB_ATYPE_STATIC)) then None
  else if PB_HTYPE (type f) =? PB_HTYPE_REQUIRED then
    if p =? NULL then None else tagged f (value_bytes f p)
  else if PB_HTYPE (type f) =? PB_HTYPE_OPTIONAL then
    if (if explicit then is_set size
        else if is_pointer then negb (p =? NULL)
        else negb (absent depth f a))
    then tagged f (value_bytes f p) else Some []
  else if PB_HTYPE (type f) =? PB_HTYPE_REPEATED then
    array_bytes f p (if explicit then load_size mem size else array_size f)
  else if negb explicit then None
  else if load_size mem size =? tag f then tagged f (value_bytes f p) else Some [].

(** An extension, by the encoder of its type or else as the field that the type describes; a pointer to it is in
    the extension itself. *)
Definition extension_item (ext : Z) : option bytes :=
  let encode := type_encode mem (extension_type mem ext) in
  let f := extension_field mem ext in
  if encode =? NULL then
    member_bytes f (if PB_ATYPE (type f) =? PB_ATYPE_POINTER then extension_dest ext
                    else load_ptr mem (extension_dest ext))
  else extension_bytes encode ext mem.
(** All of them, in a chain that ends. *)
Fixpoint chain_bytes (fuel : nat) (ext : Z) : option bytes :=
  match fuel with
  | O => None
  | S fuel =>
      if ext =? NULL then Some []
      else b ← extension_item ext; r ← chain_bytes fuel (extension_next mem ext); Some (b ++ r)
  end.

Definition field_bytes (f : pb_field) (a : Z) : option bytes :=
  if PB_LTYPE (type f) =? PB_LTYPE_EXTENSION then chain_bytes (S (length mem)) (load_ptr mem a)
  else member_bytes f a.
End field_bytes.

Fixpoint message_bytes (depth : nat) (fields : list pb_field) (src : Z) : option bytes :=
  match depth with
  | O => None
  | S depth =>
      bs ← mapM (λ '(f, p), field_bytes (message_bytes depth) depth f p) (message_fields fields src);
      Some (concat bs)
  end.
End message_bytes.

(** * Values in memory *)

(** ** What the encoder reads *)

Lemma load_signed_at mem f p : load_signed mem f p = signed_at mem p (data_size f).
Proof.
  unfold load_signed, signed_at, number_at.
  repeat match goal with |- context [data_size f =? ?k] => destruct (Z.eqb_spec (data_size f) k) as [->|]; [done|] end.
  rewrite bool_decide_false; [done|]. rewrite !elem_of_cons, elem_of_nil. tauto.
Qed.
Lemma load_unsigned_at mem f p : load_unsigned mem f p = number_at mem p (data_size f).
Proof.
  unfold load_unsigned, number_at.
  repeat match goal with |- context [data_size f =? ?k] => destruct (Z.eqb_spec (data_size f) k) as [->|]; [done|] end.
  rewrite bool_decide_false; [done|]. rewrite !elem_of_cons, elem_of_nil. tauto.
Qed.

Lemma load_text mem p n : load mem p (string_length (dropZ p mem) n) = text (load mem p n).
Proof.
  unfold load. generalize (dropZ p mem). intros l. revert n. induction l as [|b l IH]; intros n; cbn [string_length].
  { unfold takeZ. by rewrite !take_nil. }
  destruct (Z.ltb_spec 0 n) as [Hn|Hn]; cbn [andb].
  - assert (∀ k, 0 <= k → takeZ (1 + k) (b :: l) = b :: takeZ k l) as Ht by (intros k Hk; unfold takeZ; by replace (Z.to_nat (1 + k)) with (S (Z.to_nat k)) by lia).
    replace n with (1 + (n - 1)) at 2 by lia. rewrite Ht by lia. cbn [text]. destruct (b =? 0); cbn [negb]; [done|].
    assert (∀ l k, 0 <= string_length l k) as H0 by (clear; induction l as [|c l IH]; intros k; cbn; [lia|]; specialize (IH (k - 1)); destruct (_ && _); lia).
    by rewrite Ht, IH.
  - assert (takeZ n (b :: l) = []) as -> by (unfold takeZ; by replace (Z.to_nat n) with O by lia). done.
Qed.

(** The value of a field in the terms of the code. *)
Lemma value_bytes_eq {D : Descriptors} mem submessage f p :
  value_bytes mem submessage f p =
  let l := PB_LTYPE (type f) in
  if l =? PB_LTYPE_BOOL then Some (varint_of (if safe_read_bool mem p then 1 else 0))
  else if l =? PB_LTYPE_VARINT then v ← load_signed mem f p; Some (varint_of (u64 v))
  else if l =? PB_LTYPE_UVARINT then v ← load_unsigned mem f p; Some (varint_of v)
  else if l =? PB_LTYPE_SVARINT then v ← load_signed mem f p; Some (varint_of (zigzag v))
  else if l =? PB_LTYPE_FIXED32 then Some (le_bytes 4 (le_value (load mem p 4)))
  else if l =? PB_LTYPE_FIXED64 then Some (le_bytes 8 (le_value (load mem p 8)))
  else if l =? PB_LTYPE_BYTES then
    if p =? NULL then Some (string_bytes [])
    else if (PB_ATYPE (type f) =? PB_ATYPE_STATIC) &&
            (size_t (data_size f - offsetof_bytes) <? load_size mem p) then None
    else memory_string mem (p + offsetof_bytes) (load_size mem p)
  else if l =? PB_LTYPE_STRING then
    Some (string_bytes (if p =? NULL then [] else
      load mem p (string_length (dropZ p mem)
        (if PB_ATYPE (type f) =? PB_ATYPE_POINTER then UINT64_MAX else data_size f))))
  else if l =? PB_LTYPE_SUBMESSAGE then
    if ptr f =? NULL then None
    else b ← submessage (fields_at (ptr f)) p; Some (string_bytes b)
  else if l =? PB_LTYPE_FIXED_LENGTH_BYTES then memory_string mem p (data_size f)
  else None.
Proof.
  unfold value_bytes. rewrite load_signed_at, load_unsigned_at, load_text. reflexivity.
Qed.

Lemma all_zero_forallb mem p n : all_zero mem p n = forallb (λ b, b =? 0) (load mem p n).
Proof.
  unfold all_zero. induction (load mem p n) as [|b l IH]; [done|]. cbn [length replicate forallb]. rewrite <-IH.
  destruct (Z.eqb_spec b 0) as [->|Hb]; cbn [andb]; [|apply bool_decide_false; congruence].
  apply bool_decide_ext. split; congruence.
Qed.

Lemma string_empty mem p : bool_decide (text (load mem p 1) = []) = (load_u8 mem p =? 0).
Proof.
  unfold load_u8, load. destruct (dropZ p mem) as [|b l]; [done|]. change (takeZ 1 (b :: l)) with [b]. cbn [text le_value].
  rewrite Z.mul_0_r, Z.add_0_r. destruct (b =? 0); [by apply bool_decide_true|by apply bool_decide_false].
Qed.

(** The values of an iteration over a structure: each field and its address. *)
Fixpoint iter_list (fuel : nat) (iter : pb_field_iter) : list (pb_field * Z) :=
  match fuel with
  | O => []
  | S fuel =>
      (pos iter, pData iter) ::
      (let '(iter, more) := pb_field_iter_next iter in if more then iter_list fuel iter else [])
  end.

(** The iterator visits the fields where they are. *)
Lemma iter_list_after fuel iter :
  tag (pos iter) ≠ 0 → (length (start iter) <= fuel + pos_index iter)%nat → (pos_index iter < length (start iter))%nat →
  iter_list fuel iter = (pos iter, pData iter) :: fields_after (pos iter) (pData iter) (drop (S (pos_index iter)) (start iter)).
Proof.
  revert iter. induction fuel as [|fuel IH]; intros iter Ht Hf Hi; [lia|]. cbn [iter_list]. f_equal. unfold pb_field_iter_next.
  rewrite (proj2 (Z.eqb_neq _ _) Ht). cbv zeta. set (i := pos_index iter) in *.
  destruct (start iter !! S i) as [g|] eqn:Hg; cycle 1.
  { rewrite drop_ge by (by apply lookup_ge_None). assert (field_at (start iter) (S i) = PB_LAST_FIELD) as -> by (unfold field_at; by rewrite Hg). done. }
  rewrite (drop_S _ _ _ Hg). cbn [fields_after]. assert (field_at (start iter) (S i) = g) as Eg by (unfold field_at; by rewrite Hg). rewrite Eg.
  destruct (tag g =? 0) eqn:Etag; [done|]. change (_ && _ && _) with (shares_place (pos iter) g).
  assert (∀ it, start it = start iter → pos_index it = S i → iter_list fuel it = (g, pData it) :: fields_after g (pData it) (drop (S (S i)) (start iter))) as Hit.
  { intros it Es Ei. assert (pos it = g) as Ep by (unfold pos; by rewrite Es, Ei, Eg). apply lookup_lt_Some in Hg.
    rewrite IH; rewrite ?Ep, ?Es, ?Ei; [done|by apply Z.eqb_neq in Etag|lia|lia]. }
  destruct (shares_place (pos iter) g); (rewrite Hit by done); cbn [pData]; [done|].
  assert ((if (PB_ATYPE (type (pos iter)) =? PB_ATYPE_STATIC) && (PB_HTYPE (type (pos iter)) =? PB_HTYPE_REPEATED)
           then size_t (data_size (pos iter) * array_size (pos iter))
           else if PB_ATYPE (type (pos iter)) =? PB_ATYPE_POINTER then sizeof_ptr else data_size (pos iter)) = extent_of (pos iter)) as ->; [|done].
  unfold extent_of. destruct (Z.eqb_spec (PB_ATYPE (type (pos iter))) PB_ATYPE_POINTER) as [->|_]; done.
Qed.

Lemma message_fields_iter fields src :
  message_fields fields src =
  let '(iter, nonempty) := pb_field_iter_begin fields src in if nonempty then iter_list (length fields) iter else [].
Proof.
  destruct fields as [|f fields]; [done|]. unfold pb_field_iter_begin, message_fields. change (field_at (f :: fields) 0) with f.
  destruct (Z.eqb_spec (tag f) 0) as [|Ht]; cbn [negb]; [done|]. symmetry. apply iter_list_after; cbn; [done|lia|lia].
Qed.

Lemma check_fields_iter (check : pb_field → Z → bool) fuel iter :
  check_fields check fuel iter = forallb (λ '(g, q), check g q) (iter_list fuel iter).
Proof.
  revert iter. induction fuel as [|fuel IH]; intros iter; [done|]. cbn [check_fields iter_list forallb].
  destruct (check _ _); [|done]. cbn [negb andb]. destruct (pb_field_iter_next iter) as [iter' []]; [apply IH|done].
Qed.

(** The rules of both sides, whatever is in memory. *)
Lemma absent_cases (f : pb_field) (size0 flag bytes0 str0 sub ptr0 zero : bool) :
  let a := PB_ATYPE (type f) in let l := PB_LTYPE (type f) in let h := PB_HTYPE (type f) in
  let rest :=
    if (a =? PB_ATYPE_STATIC) && (l =? PB_LTYPE_BYTES) then bytes0
    else if (a =? PB_ATYPE_STATIC) && (l =? PB_LTYPE_STRING) then str0
    else if (a =? PB_ATYPE_STATIC) && (l =? PB_LTYPE_FIXED_LENGTH_BYTES) then data_size f =? 0
    else if (a =? PB_ATYPE_STATIC) && (l =? PB_LTYPE_SUBMESSAGE) then sub
    else if (a =? PB_ATYPE_POINTER) && negb (l <=? PB_LTYPE_LAST_PACKABLE) then ptr0
    else zero in
  (if h =? PB_HTYPE_REQUIRED then false
   else if h =? PB_HTYPE_REPEATED then
     if negb (size_offset f =? 0) then size0 else if a =? PB_ATYPE_STATIC then false else rest
   else if h =? PB_HTYPE_ONEOF then size0
   else if (h =? PB_HTYPE_OPTIONAL) && negb (size_offset f =? 0) then flag
   else rest) =
  (if h =? PB_HTYPE_REQUIRED then false
   else if h =? PB_HTYPE_ONEOF then size0
   else if negb (size_offset f =? 0) && (h =? PB_HTYPE_REPEATED) then size0
   else if negb (size_offset f =? 0) && (h =? PB_HTYPE_OPTIONAL) then flag
   else negb ((h =? PB_HTYPE_REPEATED) && (a =? PB_ATYPE_STATIC)) &&
     (if (a =? PB_ATYPE_STATIC) && (l =? PB_LTYPE_STRING) then str0
      else if (a =? PB_ATYPE_STATIC) && (l =? PB_LTYPE_SUBMESSAGE) then sub
      else if (a =? PB_ATYPE_STATIC) && (l =? PB_LTYPE_BYTES) then bytes0
      else if (a =? PB_ATYPE_STATIC) && (l =? PB_LTYPE_FIXED_LENGTH_BYTES) then data_size f =? 0
      else if (a =? PB_ATYPE_POINTER) && negb (l <=? PB_LTYPE_LAST_PACKABLE) then ptr0
      else zero)).
Proof.
  intros a l h rest. assert (rest = if (a =? PB_ATYPE_STATIC) && (l =? PB_LTYPE_STRING) then str0
      else if (a =? PB_ATYPE_STATIC) && (l =? PB_LTYPE_SUBMESSAGE) then sub
      else if (a =? PB_ATYPE_STATIC) && (l =? PB_LTYPE_BYTES) then bytes0
      else if (a =? PB_ATYPE_STATIC) && (l =? PB_LTYPE_FIXED_LENGTH_BYTES) then data_size f =? 0
      else if (a =? PB_ATYPE_POINTER) && negb (l <=? PB_LTYPE_LAST_PACKABLE) then ptr0
      else zero) as <-.
  { unfold rest. destruct (a =? PB_ATYPE_STATIC); cbn [andb]; [|done].
    destruct (Z.eqb_spec l PB_LTYPE_BYTES) as [->|_]; [done|]. destruct (Z.eqb_spec l PB_LTYPE_STRING) as [->|_]; [done|].
    destruct (Z.eqb_spec l PB_LTYPE_FIXED_LENGTH_BYTES) as [->|_]; done. }
  clearbody rest a. destruct (Z.eqb_spec h PB_HTYPE_REQUIRED) as [->|_]; [done|].
  destruct (Z.eqb_spec h PB_HTYPE_REPEATED) as [->|_]; [by destruct (size_offset f =? 0), (a =? PB_ATYPE_STATIC)|].
  destruct (h =? PB_HTYPE_ONEOF); [done|]. by destruct (h =? PB_HTYPE_OPTIONAL), (size_offset f =? 0).
Qed.

(** The encoder's test of default values tells exactly the absent ones. *)
Lemma absent_default {D : Descriptors} mem depth f p :
  pb_check_proto3_default_value mem depth f p = absent mem depth f p.
Proof.
  revert f p. induction depth as [|depth IH]; intros f p; cbn [pb_check_proto3_default_value absent];
    unfold empty_value, is_type; change (is_set mem (p + size_offset f)) with (safe_read_bool mem (p + size_offset f)); rewrite all_zero_forallb, string_empty, Z.ltb_antisym, <-absent_cases.
  - assert (forallb (λ '(_, _), true) (message_fields (fields_at (ptr f)) p) = true) as ->; [|done].
    apply forallb_forall. by intros [g q] _.
  - assert ((let '(iter, nonempty) := pb_field_iter_begin (fields_at (ptr f)) p in
        if nonempty then check_fields (pb_check_proto3_default_value mem depth) (length (start iter)) iter else true) =
      forallb (λ '(g, q), absent mem depth g q) (message_fields (fields_at (ptr f)) p)) as ->; [|done].
    rewrite message_fields_iter. pose proof (iter_begin_start (fields_at (ptr f)) p) as Hst.
    destruct (pb_field_iter_begin (fields_at (ptr f)) p) as [iter []]; [|done]. cbn [fst] in Hst. rewrite Hst, check_fields_iter.
    generalize (iter_list (length (fields_at (ptr f))) iter). intros l. induction l as [|[g q] l IHl]; [done|]. cbn. by rewrite IH, IHl.
Qed.

Section values.
Context (mem : bytes) (Hmem : bytes_ok mem).

Lemma sint_range w z : 1 <= w <= 64 → int64 (sint w z).
Proof.
  intros Hw. unfold int64, sint. pose proof (wrap_fits w (z + 2 ^ (w - 1)) ltac:(lia)) as [H0 H1].
  assert (2 ^ (w - 1) <= 2 ^ 63) by (apply Z.pow_le_mono_r; lia).
  assert (2 ^ w = 2 * 2 ^ (w - 1)) as Hp by (rewrite <-Z.pow_succ_r by lia; f_equal; lia). lia.
Qed.

Lemma load_signed_range f p v : load_signed mem f p = Some v → int64 v.
Proof.
  unfold load_signed. repeat (destruct (_ =? _); [intros ?; simplify_eq; apply sint_range; lia|]).
  done.
Qed.

Lemma load_unsigned_fits f p v : load_unsigned mem f p = Some v → fits 64 v.
Proof.
  unfold load_unsigned.
  repeat (destruct (_ =? _);
    [intros ?; simplify_eq; eapply fits_mono; [|apply load_le; [done| |reflexivity]]; lia|]).
  done.
Qed.

Lemma string_length_bound l n : 0 <= string_length l n <= lenZ l.
Proof.
  revert n. induction l as [|b l IH]; intros n; cbn [string_length]; [by llia|].
  specialize (IH (n - 1)). destruct (_ && _); llia.
Qed.
End values.

(** * The encoder writes it *)

Section measuring.
Context {D : Descriptors} {St : Type} {Inh : Inhabited St} {cb : St → bytes → bool * St}
  {sink : Sink cb}.
Abbreviation emits64 := (emits64 (cb := cb)).
Abbreviation emits_at := (emits_at (cb := cb)).

(** An item that fails to have an encoding has no specification. *)
Definition encodes (m : M (pb_ostream St) ()) (o : option bytes) : Prop :=
  ∀ bs, o = Some bs → emits64 m bs.

Lemma with_ostream_bind {A B} (sub : pb_ostream St) (m : M (pb_ostream St) A)
    (k : option A * pb_ostream St → M (pb_ostream St) B) s :
  (with_ostream sub m ≫= k) s = k (m sub) s.
Proof. done. Qed.

(** Measuring: on a sizing stream everything that has an encoding succeeds. *)
Lemma sizing_run (m : M (pb_ostream St) ()) b :
  emits64 m b → lenZ b < 2 ^ 64 →
  ∃ s, m PB_OSTREAM_SIZING = (Some (), s) ∧ os_bytes_written s = lenZ b.
Proof.
  intros Hm Hb. assert (ostream_ok (cb := cb) PB_OSTREAM_SIZING) as Hs by (split; [decide_now|done]).
  specialize (Hm _ Hs Hb). unfold PbWrite.emits_at in Hm. rewrite decide_True in Hm by done.
  destruct Hm as (s & Hrun & Hw & _). exists s. split; [done|].
  by apply (wrote_count _ _ _ Hs Hb) in Hw.
Qed.

(** The length, and the bytes unless they are only counted. *)
Lemma counted_emits (k : pb_ostream St → M (pb_ostream St) ()) size b :
  size = lenZ b →
  (∀ s, ostream_ok (cb := cb) s → is_Some (os_callback s) → os_bytes_written s + lenZ b < 2 ^ 64 →
    emits_at s (k s) b) →
  emits64 (_ ← pb_encode_varint size;
           stream ← getS;
           match os_callback stream with None => pb_write [] size | Some _ => k stream end)
    (string_bytes b).
Proof.
  intros -> Hk s Hs Hl. unfold string_bytes in Hl. rewrite lenZ_app in Hl.
  assert (fits 64 (lenZ b)) by (destruct Hs; llia). apply emits_at_bind.
  - by apply encode_varint_emits.
  - intros s1 Hw. pose proof (wrote_count s s1 (varint_of (lenZ b)) Hs ltac:(llia) Hw) as Hc.
    unfold getS, PbWrite.emits_at, mbind, M_bind. cbv beta iota.
    destruct (os_callback s1) eqn:Hcb; [|by apply emits_at_count].
    apply Hk; [apply Hw|by eexists|lia].
Qed.

Lemma submessage_encodes (enc : list pb_field → Z → M (pb_ostream St) ()) sp fields src :
  encodes (enc fields src) (sp fields src) →
  encodes (pb_encode_submessage enc fields src) (b ← sp fields src; Some (string_bytes b)).
Proof.
  intros Henc bs. destruct (sp fields src) as [b|] eqn:Hb; [|done]. intros [= <-].
  specialize (Henc b eq_refl). intros s Hs Hl.
  assert (lenZ b < 2 ^ 64) as Hb64.
  { unfold string_bytes in Hl. rewrite lenZ_app in Hl. destruct Hs. llia. }
  destruct (sizing_run _ _ Henc Hb64) as (ss & Hrun & Hlen). unfold pb_encode_submessage.
  unfold PbWrite.emits_at. rewrite with_ostream_bind, Hrun. cbv beta iota.
  apply (counted_emits _ _ b Hlen); [|done|done]. clear s Hs Hl. intros s Hs [cb' Hc] Hl.
  rewrite Hlen. pose proof Hs as [Hw Hs']. rewrite Hc in Hs'. destruct Hs' as (-> & Hm & Hle & Hroom).
  rewrite (wrap_small 64) by llia. unfold PbWrite.emits_at.
  assert (has_room s (lenZ b) ↔ os_bytes_written s + lenZ b <= os_max_size s) as Hiff
    by (unfold has_room; by rewrite Hc).
  destruct (Z.ltb_spec (os_max_size s) (os_bytes_written s + lenZ b)).
  { rewrite decide_False by (rewrite Hiff; lia). eexists _, []. split; [done|].
    split; [apply prefix_nil|]. split; [|by cbn; intros ->].
    pose proof (wrote_nil s Hs) as Hn. unfold wrote, ostream_ok in *. cbn. done. }
  rewrite decide_True by tauto. rewrite with_ostream_bind.
  set (sub := {| os_callback := os_callback s |}).
  assert (ostream_ok (cb := cb) sub) as Hsub.
  { split; [decide_now|]. cbn. rewrite Hc. split; [done|]. split; [llia|]. split; [llia|].
    eapply sink_room_le; [exact Hroom|lia]. }
  specialize (Henc sub Hsub ltac:(cbn; lia)). unfold PbWrite.emits_at in Henc.
  rewrite decide_True in Henc by (unfold has_room; cbn; rewrite Hc; lia).
  destruct Henc as (s' & -> & (Hc' & Hm' & Hv' & _) & He). cbn in Hc', Hm', Hv', He. rewrite Hc in Hv'.
  destruct Hv' as (Hw' & Hv' & Hr'). unfold putS. rewrite Hw', Z.eqb_refl. cbn [negb].
  eexists. split; [done|]. split; [|by cbn; intros; apply He].
  pose proof (wrote_called s (os_state s') b Hs ltac:(by eexists) ltac:(tauto) Hv' Hr') as H'.
  unfold wrote, ostream_ok in *. cbn in *. done.
Qed.

End measuring.

(** A callback's failure is reported as one unless there is an error already. *)
Lemma or_error_emits {St} {Inh : Inhabited St} {cb : St → bytes → bool * St} {sink : Sink cb} msg (m : M (pb_ostream St) ()) bs :
  emits64 (cb := cb) m bs → emits64 (cb := cb) (or_error msg m) bs.
Proof.
  intros Hm s Hs Hl. specialize (Hm s Hs Hl). unfold PbWrite.emits_at in *. unfold or_error. destruct (decide _).
  - destruct Hm as (s' & -> & Hw & He). by exists s'.
  - destruct Hm as (s' & p & -> & Hp & Hw & He). unfold out_error. eexists _, p. split; [done|]. split; [done|].
    split; [unfold wrote, ostream_ok in *; cbn; done|]. cbn. intros E. by rewrite (He E).
Qed.

Section encoding.
Context {D : Descriptors} {U : UserBytes} {St : Type} {Inh : Inhabited St} {cb : St → bytes → bool * St}
  {sink : Sink cb}.
Context (callback_encode : Z → pb_field → Z → bytes → M (pb_ostream St) ())
  (type_encoder : Z → Z → bytes → M (pb_ostream St) ()).
Context (mem : bytes) (Hmem : bytes_ok mem).
Abbreviation emits64 := (emits64 (cb := cb)).
Abbreviation emits_at := (emits_at (cb := cb)).
Abbreviation encodes := (encodes (cb := cb)).
(** The user's functions write what is said of them. *)
Context (Hcallback : ∀ fn f arg, encodes (callback_encode fn f arg mem) (callback_bytes fn f arg mem))
  (Hextension : ∀ fn ext, encodes (type_encoder fn ext mem) (extension_bytes fn ext mem)).

Lemma emits64_string b n : n = lenZ b → emits64 (pb_encode_string b n) (string_bytes b).
Proof.
  intros -> s Hs Hl. unfold string_bytes in Hl. rewrite lenZ_app in Hl.
  apply encode_string_emits; [done|  |done]. destruct Hs as [Hs _]. llia.
Qed.

Lemma memory_string_emits p n bs :
  memory_string mem p n = Some bs → emits64 (pb_encode_string (load mem p n) n) bs.
Proof.
  unfold memory_string. destruct (Z.eqb_spec (lenZ (load mem p n)) n) as [H|]; [|done].
  intros [= <-]. by apply emits64_string.
Qed.

Lemma encode_items_encodes count (item : Z → M (pb_ostream St) ()) (sp : Z → option bytes) p step :
  (∀ q, encodes (item q) (sp q)) → encodes (encode_items count item p step) (items_of count sp p step).
Proof.
  intros Hi. revert p. induction count as [|count IH]; intros p bs H; cbn [items_of encode_items] in *.
  - simplify_eq. apply emits_weaken, sink_ret.
  - destruct (sp p) as [b|] eqn:Hb; [|done]. cbn in H.
    destruct (items_of count sp (p + step) step) as [r|] eqn:Hr; [|done]. cbn in H. simplify_eq.
    apply emits64_bind; [by apply Hi|by apply IH].
Qed.

Section fields.
Context (submessage : list pb_field → Z → option bytes) (enc_submessage : pb_field → Z → M (pb_ostream St) ())
  (depth : nat).
Context (Hsub : ∀ f p, ptr f ≠ NULL →
  encodes (enc_submessage f p) (b ← submessage (fields_at (ptr f)) p; Some (string_bytes b))).

Lemma encoders_encode f p :
  encodes (PB_ENCODERS mem enc_submessage (PB_LTYPE (type f)) f p) (value_bytes mem submessage f p).
Proof.
  intros bs. rewrite value_bytes_eq. unfold PB_ENCODERS.
  destruct (_ =? PB_LTYPE_BOOL).
  { intros [= <-]. apply emits_weaken. unfold pb_enc_bool.
    destruct (safe_read_bool mem p); apply encode_varint_emits; decide_now. }
  destruct (_ =? PB_LTYPE_VARINT).
  { destruct (load_signed mem f p) as [v|] eqn:Hv; [|done]. intros [= <-].
    unfold pb_enc_varint. rewrite Hv. apply emits_weaken, encode_varint_emits, wrap_fits. lia. }
  destruct (_ =? PB_LTYPE_UVARINT).
  { destruct (load_unsigned mem f p) as [v|] eqn:Hv; [|done]. intros [= <-].
    unfold pb_enc_uvarint. rewrite Hv. eapply emits_weaken, encode_varint_emits, load_unsigned_fits; done. }
  destruct (_ =? PB_LTYPE_SVARINT).
  { destruct (load_signed mem f p) as [v|] eqn:Hv; [|done]. intros [= <-].
    unfold pb_enc_svarint. rewrite Hv. eapply emits_weaken, encode_svarint_emits, load_signed_range; done. }
  destruct (_ =? PB_LTYPE_FIXED32).
  { intros [= <-]. apply emits_weaken, encode_fixed32_emits. }
  destruct (_ =? PB_LTYPE_FIXED64).
  { intros [= <-]. apply emits_weaken, encode_fixed64_emits. }
  destruct (_ =? PB_LTYPE_BYTES).
  { unfold pb_enc_bytes. destruct (p =? NULL); [intros [= <-]; by apply emits64_string|].
    destruct (_ && _); [done|]. apply memory_string_emits. }
  destruct (_ =? PB_LTYPE_STRING).
  { intros [= <-]. unfold pb_enc_string. destruct (p =? NULL).
    - change (load mem p 0) with (@nil Z). by apply emits64_string.
    - apply emits64_string. unfold load. rewrite lenZ_takeZ; [done|apply string_length_bound]. }
  destruct (_ =? PB_LTYPE_SUBMESSAGE).
  { destruct (Z.eqb_spec (ptr f) NULL); [done|]. by apply Hsub. }
  destruct (_ =? PB_LTYPE_FIXED_LENGTH_BYTES); [apply memory_string_emits|done].
Qed.

Lemma tag_for_field_emits f wt :
  fits 32 (tag f) → fits 8 (type f) → wire_type_of f = Some wt →
  emits (cb := cb) (pb_encode_tag_for_field f) (tag_bytes wt (tag f)).
Proof.
  intros Ht Hty. unfold wire_type_of, pb_encode_tag_for_field.
  assert (0 <= PB_LTYPE (type f)) as H0 by (apply Z.land_nonneg; right; done).
  set (l := PB_LTYPE (type f)) in *. clearbody l.
  unfold PB_LTYPE_SVARINT, PB_LTYPE_FIXED32, PB_LTYPE_FIXED64, PB_LTYPE_SUBMESSAGE,
    PB_LTYPE_FIXED_LENGTH_BYTES, PB_LTYPE_BOOL, PB_LTYPE_VARINT, PB_LTYPE_UVARINT,
    PB_LTYPE_BYTES, PB_LTYPE_STRING.
  repeat match goal with
  | |- context [?a =? ?b] => destruct (Z.eqb_spec a b); try lia
  | |- context [?a <=? ?b] => destruct (Z.leb_spec a b); try lia
  end; intros [= <-]; cbn [orb]; apply encode_tag_emits; done.
Qed.

Lemma tagged_encodes f (m : M (pb_ostream St) ()) v :
  field_ok f → encodes m v → encodes (_ ← pb_encode_tag_for_field f; m) (tagged f v).
Proof.
  intros (Ht & Hty & _) Hm bs H. unfold tagged in H.
  destruct (wire_type_of f) as [wt|] eqn:Hw; [|done]. destruct v as [b|]; [|done]. cbn in H. simplify_eq.
  apply emits64_bind; [by apply emits_weaken, tag_for_field_emits|by apply Hm].
Qed.

Lemma items_of_length (sp : Z → option bytes) k n p step b :
  (∀ q c, sp q = Some c → lenZ c = k) → items_of n sp p step = Some b → lenZ b = Z.of_nat n * k.
Proof.
  intros Hk. revert p b. induction n as [|n IH]; intros p b H; cbn [items_of] in H; [by simplify_eq|].
  destruct (sp p) as [c|] eqn:Hc; [|done]. destruct (items_of n sp _ _) as [r|] eqn:Hr; [|done].
  cbn in H. simplify_eq. apply Hk in Hc. apply IH in Hr. llia.
Qed.

Lemma array_encodes f p count :
  field_ok f → 0 <= count < 2 ^ 32 →
  encodes (encode_array mem f p count (PB_ENCODERS mem enc_submessage (PB_LTYPE (type f))))
    (array_bytes mem submessage f p count).
Proof.
  intros Hf Hcount bs. unfold array_bytes, encode_array. change (2 ^ 32) with 4294967296 in Hcount.
  destruct (count =? 0); [intros [= <-]; apply emits_weaken, sink_ret|].
  destruct (_ && _); [done|]. destruct (_ <=? _) eqn:Hp.
  - destruct (items_of _ _ _ _) as [b|] eqn:Hb; [|done]. intros [= <-].
    assert (emits64 (encode_items (Z.to_nat count)
      (PB_ENCODERS mem enc_submessage (PB_LTYPE (type f)) f) p (data_size f)) b) as Hitems.
    { eapply encode_items_encodes; [|exact Hb]. apply encoders_encode. }
    intros s Hs Hl. unfold string_bytes in Hl. rewrite !lenZ_app in Hl. apply emits_at_bind.
    { apply encode_tag_emits; [done|apply Hf|done]. }
    intros s1 Hw.
    pose proof (wrote_count s s1 (tag_bytes PB_WT_STRING (tag f)) Hs ltac:(llia) Hw) as Hc.
    assert (lenZ b < 2 ^ 64) as Hb64 by (destruct Hs; llia).
    match goal with |- PbWrite.emits_at _ (?m ≫= _) _ => assert (m s1 = (Some (lenZ b), s1)) as Hsize end.
    { destruct (Z.eqb_spec (PB_LTYPE (type f)) PB_LTYPE_FIXED32) as [H4|_].
      { unfold mret, M_ret. do 2 f_equal. apply (items_of_length _ 4) in Hb.
        - rewrite wrap_small; mlia.
        - unfold value_bytes. rewrite H4. cbn. intros q c [= <-]. done. }
      destruct (Z.eqb_spec (PB_LTYPE (type f)) PB_LTYPE_FIXED64) as [H8|_].
      { unfold mret, M_ret. do 2 f_equal. apply (items_of_length _ 8) in Hb.
        - rewrite wrap_small; mlia.
        - unfold value_bytes. rewrite H8. cbn. intros q c [= <-]. done. }
      destruct (sizing_run _ _ Hitems Hb64) as (s' & Hrun & Hlen).
      unfold with_ostream, mbind, M_bind. rewrite Hrun. by rewrite Hlen. }
    unfold PbWrite.emits_at. rewrite (bind_some _ _ _ _ _ Hsize).
    apply (counted_emits (λ _, _) _ b eq_refl); [|apply Hw|unfold string_bytes; llia].
    intros s2 Hs2 _. by apply Hitems.
  - apply encode_items_encodes. intros q. apply tagged_encodes; [done|]. unfold is_indirect.
    destruct (_ && _); apply encoders_encode.
Qed.

Lemma basic_field_encodes f a :
  field_ok f → (PB_ATYPE (type f) =? PB_ATYPE_POINTER) || (PB_ATYPE (type f) =? PB_ATYPE_STATIC) = true →
  PB_ATYPE (type f) ≠ PB_ATYPE_CALLBACK →
  encodes (encode_basic_field mem enc_submessage depth f a) (member_bytes mem submessage depth f a).
Proof.
  intros Hf Ha Hc. unfold member_bytes, encode_basic_field. rewrite absent_default.
  rewrite (proj2 (Z.eqb_neq _ _) Hc), Ha. cbn [negb].
  set (p := if PB_ATYPE (type f) =? PB_ATYPE_POINTER then load_ptr mem a else a).
  assert (∀ b, encodes (if b : bool then _ ← pb_encode_tag_for_field f;
      PB_ENCODERS mem enc_submessage (PB_LTYPE (type f)) f p else mret ())
      (if b then tagged f (value_bytes mem submessage f p) else Some [])) as Hopt.
  { intros [|]; [apply tagged_encodes; [done|apply encoders_encode]|].
    intros bs [= <-]. apply emits_weaken, sink_ret. }
  destruct (PB_HTYPE (type f) =? PB_HTYPE_REQUIRED).
  { destruct (p =? NULL); [done|]. apply (Hopt true). }
  destruct (PB_HTYPE (type f) =? PB_HTYPE_OPTIONAL) eqn:Ho.
  { destruct (size_offset f =? 0); cbn [negb]; [|apply Hopt].
    destruct (PB_ATYPE (type f) =? PB_ATYPE_POINTER); apply Hopt. }
  destruct (PB_HTYPE (type f) =? PB_HTYPE_REPEATED).
  { apply array_encodes; [done|]. destruct (negb _); [|apply Hf].
    apply (load_le mem Hmem _ 4 32); done. }
  destruct (size_offset f =? 0); [done|]. cbn [negb]. apply Hopt.
Qed.

Lemma member_encodes f a :
  field_ok f → encodes (encode_field callback_encode mem enc_submessage depth f a) (member_bytes mem submessage depth f a).
Proof.
  intros Hf. unfold encode_field.
  destruct (Z.eqb_spec (PB_ATYPE (type f)) PB_ATYPE_CALLBACK) as [Hc|Hc].
  { unfold member_bytes. rewrite Hc. cbn [Z.eqb Pos.eqb orb PB_ATYPE_STATIC PB_ATYPE_POINTER PB_ATYPE_CALLBACK].
    unfold encode_callback_field. destruct (callback_function mem a =? NULL); cbn [negb].
    - intros bs [= <-]. apply emits_weaken, sink_ret.
    - intros bs Hb. apply or_error_emits. by apply (Hcallback _ _ _ bs Hb). }
  destruct (_ || _) eqn:Ha.
  - apply basic_field_encodes; [done| |done]. by rewrite orb_comm.
  - intros bs. unfold member_bytes. rewrite (proj2 (Z.eqb_neq _ _) Hc), orb_comm, Ha. done.
Qed.

Lemma extensions_encode fuel ext :
  (∀ a, Forall field_ok (fields_at a)) →
  encodes (encode_extensions callback_encode type_encoder mem enc_submessage depth fuel ext)
    (chain_bytes mem submessage depth fuel ext).
Proof.
  intros Hd. revert ext. induction fuel as [|fuel IH]; intros ext bs; [done|]. cbn [chain_bytes encode_extensions].
  destruct (ext =? NULL); [intros [= <-]; apply emits_weaken, sink_ret|].
  destruct (extension_item mem submessage depth ext) as [b|] eqn:Hb; [|done].
  destruct (chain_bytes mem submessage depth fuel _) as [r|] eqn:Hr; [|done]. intros [= <-].
  apply emits64_bind; [|by apply IH]. unfold extension_item in Hb. destruct (_ =? NULL); cbn [negb]; [|by apply Hextension].
  unfold default_extension_encoder. assert (field_ok (extension_field mem ext)) as Hf by (by apply field_at_ok).
  destruct (_ =? PB_ATYPE_POINTER); by apply member_encodes.
Qed.

Lemma field_encodes f a :
  (∀ a, Forall field_ok (fields_at a)) → field_ok f →
  encodes (if PB_LTYPE (type f) =? PB_LTYPE_EXTENSION
           then encode_extension_field callback_encode type_encoder mem enc_submessage depth f a
           else encode_field callback_encode mem enc_submessage depth f a)
    (field_bytes mem submessage depth f a).
Proof.
  intros Hd Hf. unfold field_bytes, encode_extension_field.
  destruct (PB_LTYPE (type f) =? PB_LTYPE_EXTENSION); [by apply extensions_encode|by apply member_encodes].
Qed.

Lemma fields_encode fuel iter bs :
  (∀ a, Forall field_ok (fields_at a)) → Forall field_ok (start iter) →
  mapM (λ '(f, p), field_bytes mem submessage depth f p) (iter_list fuel iter) = Some bs →
  emits64 (encode_fields callback_encode type_encoder mem enc_submessage depth fuel iter) (concat bs).
Proof.
  intros Hd Hok. revert iter bs Hok. induction fuel as [|fuel IH]; intros iter bs Hok H;
    cbn [iter_list encode_fields] in *.
  { injection H as <-. apply emits_weaken, sink_ret. }
  cbn in H. destruct (field_bytes _ _ _ _ _) as [b|] eqn:Hb; [|done]. cbn in H.
  pose proof (iter_next_start iter) as Hst.
  destruct (pb_field_iter_next iter) as [iter' more]. cbn [fst] in Hst.
  destruct (mapM _ _) as [rest|] eqn:Hr in H; [|done]. injection H as <-. cbn [concat].
  apply emits64_bind; [by eapply field_encodes; [done|apply field_at_ok|]|].
  destruct more; [apply IH; [by rewrite Hst|done]|].
  injection Hr as <-. apply emits_weaken, sink_ret.
Qed.

Lemma message_encodes fields src bs :
  (∀ a, Forall field_ok (fields_at a)) → Forall field_ok fields →
  mapM (λ '(f, p), field_bytes mem submessage depth f p) (message_fields fields src) = Some bs →
  emits64 (encode_message callback_encode type_encoder mem enc_submessage depth fields src) (concat bs).
Proof.
  intros Hd Hok. rewrite message_fields_iter. unfold encode_message.
  pose proof (iter_begin_start fields src) as Hst.
  destruct (pb_field_iter_begin fields src) as [iter []]; cbn [negb fst] in *.
  - intros H. apply fields_encode; [done|by rewrite Hst|done].
  - intros [= <-]. apply emits_weaken, sink_ret.
Qed.
End fields.

(** ** Messages *)

Lemma pb_encode_encodes depth fields src :
  (∀ a, Forall field_ok (fields_at a)) → Forall field_ok fields →
  encodes (pb_encode callback_encode type_encoder mem depth fields src) (message_bytes mem depth fields src).
Proof.
  intros Hd. revert fields src. induction depth as [|depth IH]; intros fields src Hok bs H; [done|].
  cbn [message_bytes pb_encode] in *. destruct (mapM _ _) as [bl|] eqn:Hbl; [|done]. cbn in H. simplify_eq.
  eapply message_encodes; [|done|done|done]. intros f p Hp. unfold pb_enc_submessage.
  rewrite (proj2 (Z.eqb_neq _ _) Hp).
  apply (submessage_encodes _ (message_bytes mem depth)). by apply IH.
Qed.
End encoding.

(** C6. Encoding a message writes its encoding.  For every structure in memory that has one
    (submessages, packed and unpacked arrays, strings, unions, static or allocated fields, callbacks and
    extensions whose functions write what is said of them), [pb_encode] appends exactly those bytes to any
    stream, or fails with "stream full" after a part when they do not fit; the passes that measure
    submessages and packed arrays agree with the passes that write them.  Fields without a has-field are left
    out exactly when their value is the default one.  [pb_encode_delimited] puts the length before it,
    [pb_encode_nullterminated] a zero behind, and [pb_get_encoded_size] returns the length. *)
Theorem pb_encode_exact {D : Descriptors} {U : UserBytes} {St} {Inh : Inhabited St} {cb : St → bytes → bool * St}
    {sink : Sink cb} callback_encode type_encoder mem depth fields src bs :
  bytes_ok mem → (∀ a, Forall field_ok (fields_at a)) → Forall field_ok fields →
  (∀ fn f arg b, callback_bytes fn f arg mem = Some b → emits64 (cb := cb) (callback_encode fn f arg mem) b) →
  (∀ fn ext b, extension_bytes fn ext mem = Some b → emits64 (cb := cb) (type_encoder fn ext mem) b) →
  message_bytes mem depth fields src = Some bs →
  emits64 (cb := cb) (pb_encode callback_encode type_encoder mem depth fields src) bs ∧
  emits64 (cb := cb) (pb_encode_delimited callback_encode type_encoder mem depth fields src)
    (string_bytes bs) ∧
  emits64 (cb := cb) (pb_encode_nullterminated callback_encode type_encoder mem depth fields src)
    (bs ++ [0]) ∧
  (lenZ bs < 2 ^ 64 →
   pb_get_encoded_size callback_encode type_encoder mem depth fields src = Some (lenZ bs)).
Proof.
  intros Hmem Hd Hf Hcb Hext Hbs.
  pose proof (pb_encode_encodes (cb := cb) callback_encode type_encoder mem Hmem Hcb Hext depth fields src Hd Hf)
    as Henc.
  split; [by apply Henc|]. split; [|split].
  - apply (submessage_encodes _ (message_bytes mem depth) fields src Henc). by rewrite Hbs.
  - apply emits64_bind; [by apply Henc|]. apply emits_weaken, emits_write; [done|decide_now].
  - intros Hl. destruct (sizing_run _ _ (Henc _ Hbs) Hl) as (s & Hrun & Hlen).
    unfold pb_get_encoded_size. by rewrite Hrun, Hlen.
Qed.

(** A message with a number at 8 and, in a submessage at 16, a string of at most 7 bytes. *)
Definition field (tag type data_offset data_size ptr : Z) : pb_field :=
  {| tag := tag; type := type; data_offset := data_offset; size_offset := 0; data_size := data_size; array_size := 0; ptr := ptr |}.
Definition example_fields : list pb_field := [field 1 0x01 0 4 0; field 2 0x08 4 8 900].
Definition example_descriptors : Descriptors := λ a, if a =? 900 then [field 3 0x07 0 8 0] else [].
Definition example_memory : bytes :=
  replicate 8 0 ++ [0xff; 0xff; 0xff; 0xff; 0; 0; 0; 0] ++ [104; 105; 0; 0; 0; 0; 0; 0].

(** The same with a callback at 24 with the function 5; at 40 a pointer to the extension
    at 56, whose type at 88 has the encoder 9; and at 48 an empty string without a has-field. *)
Definition mixed_fields : list pb_field :=
  [field 1 0x01 0 4 0; field 2 0x08 4 8 900; field 4 0x50 0 16 0; field 5 0x59 0 8 0; field 6 0x17 0 8 0].
Definition mixed_memory : bytes :=
  replicate 8 0 ++ [0xff; 0xff; 0xff; 0xff; 0; 0; 0; 0] ++ [104; 105; 0; 0; 0; 0; 0; 0] ++
  le_bytes 8 5 ++ le_bytes 8 0 ++ le_bytes 8 56 ++ replicate 8 0 ++
  le_bytes 8 88 ++ replicate 24 0 ++ replicate 8 0 ++ le_bytes 8 9 ++ replicate 8 0.
Definition mixed_bytes : UserBytes :=
  {| callback_bytes := λ fn _ _ _, if fn =? 5 then Some [32; 7] else None;
     extension_bytes := λ fn _ _, if fn =? 9 then Some [40; 1] else None |}.

Lemma pb_encode_exact_witness :
  pb_get_encoded_size (D := example_descriptors) (St := bytes)
    (λ fn _ _ _, if fn =? 5 then pb_write [32; 7] 2 else ret0) (λ fn _ _, if fn =? 9 then pb_write [40; 1] 2 else ret0)
    mixed_memory 2 mixed_fields 8 = Some 21.
Proof.
  assert (bytes_ok mixed_memory) as H1 by decide_now.
  assert (∀ a, Forall field_ok (example_descriptors a)) as H2.
  { intros a. unfold example_descriptors. destruct (a =? 900); [decide_now|constructor]. }
  assert (Forall field_ok mixed_fields) as H3 by decide_now.
  assert (message_bytes (D := example_descriptors) (U := mixed_bytes) mixed_memory 2 mixed_fields 8 =
    Some [8; 255; 255; 255; 255; 255; 255; 255; 255; 255; 1; 18; 4; 26; 2; 104; 105; 32; 7; 40; 1]) as H4
    by (vm_compute; reflexivity).
  refine (proj2 (proj2 (proj2 (pb_encode_exact (D := example_descriptors) (U := mixed_bytes) (cb := append_write)
    (λ fn _ _ _, if fn =? 5 then pb_write [32; 7] 2 else ret0) (λ fn _ _, if fn =? 9 then pb_write [40; 1] 2 else ret0)
    mixed_memory 2 mixed_fields 8 _ H1 H2 H3 _ _ H4))) _).
  - intros fn f arg b. cbn [callback_bytes mixed_bytes]. destruct (fn =? 5); [|done]. intros [= <-]. apply emits_weaken, emits_write; [done|decide_now].
  - intros fn ext b. cbn [extension_bytes mixed_bytes]. destruct (fn =? 9); [|done]. intros [= <-]. apply emits_weaken, emits_write; [done|decide_now].
  - decide_now.
Defined.
