(* ===== verification/PbDecode.v ===== *)
(** Decoding messages: src/HolyWater-Test/Pods/nanopb/pb_decode.c, with
    PB_ENABLE_MALLOC as the application is built. *)
From stdpp Require Import strings.
From S2P Require Import Prelude PbWire PbField.

Open Scope Z_scope.

Definition PB_MAX_REQUIRED_FIELDS : Z := 64.

(** * What a decoder changes

    The stream, the memory, and the local [fixed_count_size] of the message that is
    being decoded, to which [iter.pSize] may point. *)
Record dstate := { ds_stream : pb_istream; ds_mem : bytes; ds_count : Z }.
Abbreviation Dec := (M dstate).

Definition on_stream {A} (m : M pb_istream A) : Dec A := λ s,
  let '(r, stream) := m (ds_stream s) in
  (r, {| ds_stream := stream; ds_mem := ds_mem s; ds_count := ds_count s |}).
Definition get_mem : Dec bytes := λ s, (Some (ds_mem s), s).
Definition put_mem (m : bytes) : Dec () :=
  modifyS (λ s, {| ds_stream := ds_stream s; ds_mem := m; ds_count := ds_count s |}).
Definition store_at (p : Z) (bs : bytes) : Dec () :=
  modifyS (λ s, {| ds_stream := ds_stream s; ds_mem := store (ds_mem s) p bs; ds_count := ds_count s |}).
Definition set_size_at (p n : Z) : Dec () := store_at p (le_bytes 4 (u32 n)).
Definition error {A} (msg : string) : Dec A := on_stream (in_error msg).

(** A call whose failure does not end the caller. *)
Definition attempt {A} (m : Dec A) : Dec bool := λ s,
  let '(r, s) := m s in (Some (match r with Some _ => true | None => false end), s).

(** A call on another stream: the outcome and what became of that stream. *)
Definition with_stream {A} (sub : pb_istream) (m : Dec A) : Dec (option A * pb_istream) := λ s,
  let '(r, s') := m {| ds_stream := sub; ds_mem := ds_mem s; ds_count := ds_count s |} in
  (Some (r, ds_stream s'),
   {| ds_stream := ds_stream s; ds_mem := ds_mem s'; ds_count := ds_count s' |}).

(** [pb_read] into memory. *)
Definition read_into (p n : Z) : Dec () :=
  buf ← on_stream (pb_read n);
  store_at p buf.

(** [iter->pSize]: an address, or [&fixed_count_size]. *)
Inductive size_ptr := SizeAt (p : Z) | SizeLocal.
Definition get_size (p : size_ptr) : Dec Z := λ s,
  (Some (match p with SizeAt p => load_size (ds_mem s) p | SizeLocal => ds_count s end), s).
Definition set_size (p : size_ptr) (n : Z) : Dec () :=
  match p with
  | SizeAt p => set_size_at p n
  | SizeLocal => modifyS (λ s, {| ds_stream := ds_stream s; ds_mem := ds_mem s; ds_count := u32 n |})
  end.

Section decode.
Context {D : Descriptors}.

(** The C library's realloc and free on this memory: the new block, NULL when there is none,
    and the memory. *)
Context (pb_realloc : bytes → Z → Z → Z * bytes) (pb_free : bytes → Z → bytes).

(** User functions, by address: a callback gets the substream, the field and the address of
    its argument; an extension decoder the extension, the tag and the wire type. *)
Context (callback_decode : Z → pb_field → Z → Dec ()) (type_decoder : Z → Z → Z → Z → Dec ()).

(** * Allocation *)

Definition allocate_field (data data_size array_size : Z) : Dec () :=
  if (data_size =? 0) || (array_size =? 0) then error "invalid size"
  else
    let check_limit := 1 ≪ 32 in
    if ((check_limit <=? data_size) || (check_limit <=? array_size)) &&
       (UINT64_MAX / array_size <? data_size) then error "size too large"
    else
      m ← get_mem;
      let '(p, m) := pb_realloc m (load_ptr m data) (size_t (array_size * data_size)) in
      _ ← put_mem m;
      if p =? NULL then error "realloc failed"
      else store_at data (le_bytes 8 p).

(** * Iteration *)

Section for_fields.
Context (visit : pb_field_iter → Dec ()).
(** [do ... while (pb_field_iter_next(&iter))] *)
Fixpoint for_fields_loop (fuel : nat) (iter : pb_field_iter) : Dec () :=
  match fuel with
  | O => mret ()
  | S fuel =>
      _ ← visit iter;
      let '(iter, more) := pb_field_iter_next iter in
      if more then for_fields_loop fuel iter else mret ()
  end.
Definition for_fields (fields : list pb_field) (dest : Z) : Dec () :=
  let '(iter, nonempty) := pb_field_iter_begin fields dest in
  if negb nonempty then mret () else for_fields_loop (length fields) iter.
End for_fields.

(** The iterator that stands for an extension, whose field is in no array. *)
Definition iter_from_extension (m : bytes) (extension : Z) : pb_field_iter :=
  let fields := fields_at (type_arg m (extension_type m extension)) in
  let field := field_at fields 0 in
  {| start := fields; pos_index := 0; required_field_index := 0;
     dest_struct := load_ptr m (extension_dest extension);
     pData := if PB_ATYPE (type field) =? PB_ATYPE_POINTER then extension_dest extension
              else load_ptr m (extension_dest extension);
     pSize := extension_found extension |}.

(** The chain of extensions has no more links than memory has bytes. *)
Fixpoint extensions_loop (fuel : nat) (visit : Z → Dec ()) (extension : Z) : Dec () :=
  match fuel with
  | O => ret0
  | S fuel =>
      if extension =? NULL then mret ()
      else
        _ ← visit extension;
        m ← get_mem;
        extensions_loop fuel visit (extension_next m extension)
  end.
Definition for_extensions (visit : Z → Dec ()) (extension : Z) : Dec () :=
  m ← get_mem;
  extensions_loop (S (length m)) visit extension.

(** * Default values

    Structures nest at most [depth] deep. *)
Fixpoint pb_field_set_to_default (depth : nat) (iter : pb_field_iter) : Dec () :=
  match depth with
  | O => ret0
  | S depth =>
      let field := pos iter in
      let ty := type field in
      if PB_LTYPE ty =? PB_LTYPE_EXTENSION then
        m ← get_mem;
        for_extensions (λ ext,
          _ ← store_at (extension_found ext) [0];
          m ← get_mem;
          pb_field_set_to_default depth (iter_from_extension m ext)) (load_ptr m (pData iter))
      else if PB_ATYPE ty =? PB_ATYPE_STATIC then
        init_data ←
          (if (PB_HTYPE ty =? PB_HTYPE_OPTIONAL) && negb (pSize iter =? pData iter) then
             _ ← store_at (pSize iter) [0]; mret true
           else if (PB_HTYPE ty =? PB_HTYPE_REPEATED) || (PB_HTYPE ty =? PB_HTYPE_ONEOF) then
             _ ← set_size_at (pSize iter) 0; mret false
           else mret true);
        if (init_data : bool) then
          if PB_LTYPE ty =? PB_LTYPE_SUBMESSAGE then
            for_fields (pb_field_set_to_default depth) (fields_at (ptr field)) (pData iter)
          else if negb (ptr field =? NULL) then
            m ← get_mem;
            store_at (pData iter) (load m (ptr field) (data_size field))
          else store_at (pData iter) (replicate (Z.to_nat (data_size field)) 0)
        else mret ()
      else if PB_ATYPE ty =? PB_ATYPE_POINTER then
        _ ← store_at (pData iter) (le_bytes 8 NULL);
        if (PB_HTYPE ty =? PB_HTYPE_REPEATED) || (PB_HTYPE ty =? PB_HTYPE_ONEOF)
        then set_size_at (pSize iter) 0 else mret ()
      else mret ()
  end.

Definition pb_message_set_to_defaults (depth : nat) (fields : list pb_field) (dest : Z) : Dec () :=
  for_fields (pb_field_set_to_default depth) fields dest.

(** * Releasing *)

Section release.
(** [pb_release], tied below. *)
Context (release : list pb_field → Z → Dec ()).

Fixpoint release_items (count : nat) (fields : list pb_field) (item step : Z) : Dec () :=
  match count with
  | O => mret ()
  | S count => _ ← release fields item; release_items count fields (item + step) step
  end.

(** The entries of a repeated string or bytes field: free each and clear it. *)
Fixpoint free_entries (count : nat) (item : Z) : Dec () :=
  match count with
  | O => mret ()
  | S count =>
      m ← get_mem;
      _ ← put_mem (pb_free m (load_ptr m item));
      _ ← store_at item (le_bytes 8 NULL);
      free_entries count (item + sizeof_ptr)
  end.

Definition release_submessages (iter : pb_field_iter) : Dec () :=
  let field := pos iter in
  let ty := type field in
  m ← get_mem;
  let is_static := PB_ATYPE ty =? PB_ATYPE_STATIC in
  let item := if PB_ATYPE ty =? PB_ATYPE_POINTER then load_ptr m (pData iter) else pData iter in
  let count :=
    if PB_HTYPE ty =? PB_HTYPE_REPEATED then
      let count := if is_static && (pSize iter =? pData iter) then array_size field
                   else load_size m (pSize iter) in
      if is_static && (array_size field <? count) then array_size field else count
    else 1 in
  if negb (item =? NULL)
  then release_items (Z.to_nat count) (fields_at (ptr field)) item (data_size field)
  else mret ().

Definition release_pointer (iter : pb_field_iter) : Dec () :=
  let ty := type (pos iter) in
  let repeated := PB_HTYPE ty =? PB_HTYPE_REPEATED in
  m ← get_mem;
  _ ← (if repeated && ((PB_LTYPE ty =? PB_LTYPE_STRING) || (PB_LTYPE ty =? PB_LTYPE_BYTES))
       then free_entries (Z.to_nat (load_size m (pSize iter))) (load_ptr m (pData iter))
       else mret ());
  _ ← (if repeated then set_size_at (pSize iter) 0 else mret ());
  m ← get_mem;
  _ ← put_mem (pb_free m (load_ptr m (pData iter)));
  store_at (pData iter) (le_bytes 8 NULL).

Fixpoint pb_release_single_field (fuel : nat) (iter : pb_field_iter) : Dec () :=
  match fuel with
  | O => ret0
  | S fuel =>
      let field := pos iter in
      let ty := type field in
      m ← get_mem;
      if (PB_HTYPE ty =? PB_HTYPE_ONEOF) && negb (load_size m (pSize iter) =? tag field) then mret ()
      else
        _ ← (if PB_LTYPE ty =? PB_LTYPE_EXTENSION then
               for_extensions (λ ext,
                 m ← get_mem;
                 pb_release_single_field fuel (iter_from_extension m ext)) (load_ptr m (pData iter))
             else if (PB_LTYPE ty =? PB_LTYPE_SUBMESSAGE) && negb (PB_ATYPE ty =? PB_ATYPE_CALLBACK)
               then release_submessages iter
             else mret ());
        if PB_ATYPE ty =? PB_ATYPE_POINTER then release_pointer iter else mret ()
  end.
End release.

Fixpoint pb_release (depth : nat) (fields : list pb_field) (dest : Z) : Dec () :=
  match depth with
  | O => ret0
  | S depth =>
      if dest =? NULL then mret ()
      else for_fields (pb_release_single_field (pb_release depth) (S depth)) fields dest
  end.

(** * Single values *)

(** [clamped = *(intN_t* )dest = (intN_t)svalue] by [data_size]: the [N]-bit value
    that is stored, or nothing for another size. *)
Definition store_clamped (dest size value : Z) (read_back : Z → Z → Z) : Dec Z :=
  if (size =? 8) || (size =? 4) || (size =? 2) || (size =? 1) then
    _ ← store_at dest (le_bytes (Z.to_nat size) value);
    mret (read_back (8 * size) value)
  else error "invalid data_size".

Definition pb_dec_bool (field : pb_field) (dest : Z) : Dec () :=
  value ← on_stream pb_decode_varint32;
  store_at dest [if negb (value =? 0) then 1 else 0].

Definition pb_dec_varint (field : pb_field) (dest : Z) : Dec () :=
  value ← on_stream pb_decode_varint;
  let svalue := if data_size field =? 8 then sint 64 value else sint 32 value in
  clamped ← store_clamped dest (data_size field) svalue sint;
  if negb (clamped =? svalue) then error "integer too large" else mret ().

Definition pb_dec_uvarint (field : pb_field) (dest : Z) : Dec () :=
  value ← on_stream pb_decode_varint;
  clamped ← store_clamped dest (data_size field) value wrap;
  if negb (clamped =? value) then error "integer too large" else mret ().

Definition pb_dec_svarint (field : pb_field) (dest : Z) : Dec () :=
  value ← on_stream pb_decode_svarint;
  clamped ← store_clamped dest (data_size field) value sint;
  if negb (clamped =? value) then error "integer too large" else mret ().

Definition pb_dec_fixed32 (field : pb_field) (dest : Z) : Dec () :=
  value ← on_stream pb_decode_fixed32;
  store_at dest (le_bytes 4 value).
Definition pb_dec_fixed64 (field : pb_field) (dest : Z) : Dec () :=
  value ← on_stream pb_decode_fixed64;
  store_at dest (le_bytes 8 value).

(** Room for [alloc_size] bytes at the field: allocated, or checked against its size.
    The result is where the bytes go. *)
Definition destination (field : pb_field) (dest size alloc_size : Z) (overflow : string) : Dec Z :=
  if PB_ATYPE (type field) =? PB_ATYPE_POINTER then
    stream ← on_stream getS;
    if is_bytes_left stream <? size then error "end-of-stream"
    else
      _ ← allocate_field dest alloc_size 1;
      m ← get_mem;
      mret (load_ptr m dest)
  else if data_size field <? alloc_size then error overflow
  else mret dest.

Definition pb_dec_bytes (field : pb_field) (dest : Z) : Dec () :=
  size ← on_stream pb_decode_varint32;
  if PB_SIZE_MAX <? size then error "bytes overflow"
  else
    let alloc_size := PB_BYTES_ARRAY_T_ALLOCSIZE size in
    if alloc_size <? size then error "size too large"
    else
      bdest ← destination field dest size alloc_size "bytes overflow";
      _ ← set_size_at bdest size;
      read_into (bdest + offsetof_bytes) size.

(** The terminator is written also when reading fails. *)
Definition pb_dec_string (field : pb_field) (dest : Z) : Dec () :=
  size ← on_stream pb_decode_varint32;
  let alloc_size := u32 (size + 1) in
  if alloc_size <? size then error "size too large"
  else
    dest ← destination field dest size alloc_size "string overflow";
    status ← attempt (read_into dest size);
    _ ← store_at (dest + size) [0];
    if (status : bool) then mret () else ret0.

Definition pb_dec_fixed_length_bytes (field : pb_field) (dest : Z) : Dec () :=
  size ← on_stream pb_decode_varint32;
  if PB_SIZE_MAX <? size then error "bytes overflow"
  else if size =? 0 then store_at dest (replicate (Z.to_nat (data_size field)) 0)
  else if negb (size =? data_size field) then error "incorrect fixed length bytes size"
  else read_into dest (data_size field).

(** * Fields *)

Section fields.
(** The decoder of submessages, tied below; messages nest at most [depth] deep. *)
Context (dec_submessage : pb_field → Z → Dec ()) (depth : nat).

(** A call through NULL or past the table has no result. *)
Definition PB_DECODERS (ltype : Z) : pb_field → Z → Dec () :=
  if ltype =? PB_LTYPE_BOOL then pb_dec_bool
  else if ltype =? PB_LTYPE_VARINT then pb_dec_varint
  else if ltype =? PB_LTYPE_UVARINT then pb_dec_uvarint
  else if ltype =? PB_LTYPE_SVARINT then pb_dec_svarint
  else if ltype =? PB_LTYPE_FIXED32 then pb_dec_fixed32
  else if ltype =? PB_LTYPE_FIXED64 then pb_dec_fixed64
  else if ltype =? PB_LTYPE_BYTES then pb_dec_bytes
  else if ltype =? PB_LTYPE_STRING then pb_dec_string
  else if ltype =? PB_LTYPE_SUBMESSAGE then dec_submessage
  else if ltype =? PB_LTYPE_FIXED_LENGTH_BYTES then pb_dec_fixed_length_bytes
  else λ _ _, ret0.

(** [while (substream.bytes_left > 0 && *size < array_size)], on the substream; every
    item takes a byte.  The result is [status]. *)
Fixpoint packed_loop (fuel : nat) (item : Z → Dec ()) (data step : Z) (size : size_ptr) (max : Z)
    : Dec bool :=
  match fuel with
  | O => ret0
  | S fuel =>
      stream ← on_stream getS;
      n ← get_size size;
      if (0 <? is_bytes_left stream) && (n <? max) then
        ok ← attempt (item (data + u32 (step * n)));
        if (ok : bool) then
          n ← get_size size;
          _ ← set_size size (n + 1);
          packed_loop fuel item data step size max
        else mret false
      else mret true
  end.

(** [iter->pSize] is given apart from the iterator; offsets into arrays are 32-bit. *)
Definition decode_static_field (wire_type : Z) (iter : pb_field_iter) (size : size_ptr) : Dec () :=
  let field := pos iter in
  let ty := type field in
  let func := PB_DECODERS (PB_LTYPE ty) in
  if PB_HTYPE ty =? PB_HTYPE_REQUIRED then func field (pData iter)
  else if PB_HTYPE ty =? PB_HTYPE_OPTIONAL then
    _ ← (match size with
         | SizeAt p => if negb (p =? pData iter) then store_at p [1] else mret ()
         | SizeLocal => set_size SizeLocal 1
         end);
    func field (pData iter)
  else if PB_HTYPE ty =? PB_HTYPE_REPEATED then
    if (wire_type =? PB_WT_STRING) && (PB_LTYPE ty <=? PB_LTYPE_LAST_PACKABLE) then
      substream ← on_stream pb_make_string_substream;
      '(status, substream) ← with_stream substream
        (packed_loop (S (Z.to_nat (is_bytes_left substream))) (func field) (pData iter)
           (data_size field) size (array_size field));
      if negb (is_bytes_left substream =? 0) then error "array overflow"
      else
        _ ← on_stream (pb_close_string_substream substream);
        if default false status then mret () else ret0
    else
      n ← get_size size;
      let item := pData iter + u32 (data_size field * n) in
      _ ← set_size size (n + 1);
      if array_size field <=? n then error "array overflow"
      else func field item
  else
    which ← get_size size;
    _ ← (if (PB_LTYPE ty =? PB_LTYPE_SUBMESSAGE) && negb (which =? tag field) then
           _ ← store_at (pData iter) (replicate (Z.to_nat (data_size field)) 0);
           pb_message_set_to_defaults depth (fields_at (ptr field)) (pData iter)
         else mret ());
    _ ← set_size size (tag field);
    func field (pData iter).

Definition initialize_pointer_field (item : Z) (iter : pb_field_iter) : Dec () :=
  let field := pos iter in
  let l := PB_LTYPE (type field) in
  if (l =? PB_LTYPE_STRING) || (l =? PB_LTYPE_BYTES) then store_at item (le_bytes 8 NULL)
  else if l =? PB_LTYPE_SUBMESSAGE then
    _ ← store_at item (replicate (Z.to_nat (data_size field)) 0);
    pb_message_set_to_defaults depth (fields_at (ptr field)) item
  else mret ().

(** [while (substream.bytes_left)], on the substream.  The message about too many entries
    goes to the parent, whose message the closing of the substream replaces. *)
Fixpoint pointer_packed_loop (fuel : nat) (iter : pb_field_iter) (size : size_ptr) (func : pb_field → Z → Dec ())
    (allocated_size : Z) : Dec bool :=
  match fuel with
  | O => ret0
  | S fuel =>
      let field := pos iter in
      stream ← on_stream getS;
      if is_bytes_left stream =? 0 then mret true
      else
        n ← get_size size;
        if n =? PB_SIZE_MAX then mret false
        else
          let remain := (is_bytes_left stream - 1) / data_size field + 1 in
          let grow := allocated_size <? n + 1 in
          let allocated_size :=
            if grow then
              if remain <? PB_SIZE_MAX - allocated_size then allocated_size + remain
              else allocated_size + 1
            else allocated_size in
          ok ← (if grow then attempt (allocate_field (pData iter) (data_size field) allocated_size)
                else mret true);
          if negb ok then mret false
          else
            m ← get_mem;
            let item := load_ptr m (pData iter) + u32 (data_size field * n) in
            if item =? NULL then mret false
            else
              _ ← initialize_pointer_field item iter;
              ok ← attempt (func field item);
              if negb ok then mret false
              else
                n ← get_size size;
                _ ← set_size size (n + 1);
                pointer_packed_loop fuel iter size func allocated_size
  end.

Definition decode_pointer_field (wire_type : Z) (iter : pb_field_iter) (size : size_ptr) : Dec () :=
  let field := pos iter in
  let ty := type field in
  let l := PB_LTYPE ty in
  let func := PB_DECODERS l in
  if (PB_HTYPE ty =? PB_HTYPE_REQUIRED) || (PB_HTYPE ty =? PB_HTYPE_OPTIONAL) ||
     (PB_HTYPE ty =? PB_HTYPE_ONEOF) then
    m ← get_mem;
    _ ← (if (l =? PB_LTYPE_SUBMESSAGE) && negb (load_ptr m (pData iter) =? NULL)
         then pb_release_single_field (pb_release depth) (S depth) iter else mret ());
    _ ← (if PB_HTYPE ty =? PB_HTYPE_ONEOF then set_size size (tag field) else mret ());
    if (l =? PB_LTYPE_STRING) || (l =? PB_LTYPE_BYTES) then func field (pData iter)
    else
      _ ← allocate_field (pData iter) (data_size field) 1;
      m ← get_mem;
      _ ← initialize_pointer_field (load_ptr m (pData iter)) iter;
      m ← get_mem;
      func field (load_ptr m (pData iter))
  else
    if (wire_type =? PB_WT_STRING) && (l <=? PB_LTYPE_LAST_PACKABLE) then
      n ← get_size size;
      substream ← on_stream pb_make_string_substream;
      '(status, substream) ← with_stream substream
        (pointer_packed_loop (S (Z.to_nat (is_bytes_left substream))) iter size func n);
      _ ← on_stream (pb_close_string_substream substream);
      if default false status then mret () else ret0
    else
      n ← get_size size;
      if n =? PB_SIZE_MAX then error "too many array entries"
      else
        _ ← allocate_field (pData iter) (data_size field) (n + 1);
        m ← get_mem;
        let item := load_ptr m (pData iter) + u32 (data_size field * n) in
        _ ← set_size size (n + 1);
        _ ← initialize_pointer_field item iter;
        func field item.

(** The decoder of a callback field is called until its string is used up; nothing makes it read,
    so the calls are counted. *)
Fixpoint callback_loop (calls : nat) (call : Dec ()) : Dec () :=
  match calls with
  | O => ret0
  | S calls =>
      ok ← attempt call;
      if negb ok then ret0
      else
        stream ← on_stream getS;
        if negb (is_bytes_left stream =? 0) then callback_loop calls call else mret ()
  end.

Definition decode_callback_field (calls : nat) (wire_type : Z) (iter : pb_field_iter) : Dec () :=
  m ← get_mem;
  let callback := pData iter in
  let decode := callback_function m callback in
  if (callback =? NULL) || (decode =? NULL) then on_stream (pb_skip_field wire_type)
  else
    let call := callback_decode decode (pos iter) (callback_arg callback) in
    if wire_type =? PB_WT_STRING then
      substream ← on_stream pb_make_string_substream;
      '(ok, substream) ← with_stream substream (callback_loop calls call);
      match ok with
      | None => error "callback failed"
      | Some _ => on_stream (pb_close_string_substream substream)
      end
    else
      buffer ← on_stream (read_raw_value wire_type 10);
      '(ok, _) ← with_stream (pb_istream_from_buffer buffer (lenZ buffer)) call;
      liftO ok.

(** Whether another member of the union was there, which is released. *)
Definition pb_release_union_field (iter : pb_field_iter) : Dec pb_field_iter :=
  m ← get_mem;
  let old_tag := load_size m (pSize iter) in
  let new_tag := tag (pos iter) in
  if old_tag =? 0 then mret iter
  else if old_tag =? new_tag then mret iter
  else
    let '(iter, found) := pb_field_iter_find iter old_tag in
    if negb found then error "invalid union tag"
    else
      _ ← pb_release_single_field (pb_release depth) (S depth) iter;
      let '(iter, found) := pb_field_iter_find iter new_tag in
      if negb found then error "iterator error"
      else
        _ ← (if PB_ATYPE (type (pos iter)) =? PB_ATYPE_POINTER
             then store_at (pData iter) (le_bytes 8 NULL) else mret ());
        mret iter.

Definition decode_field (calls : nat) (wire_type : Z) (iter : pb_field_iter) (size : size_ptr)
    : Dec () :=
  iter ← (if PB_HTYPE (type (pos iter)) =? PB_HTYPE_ONEOF then pb_release_union_field iter
          else mret iter);
  let ty := type (pos iter) in
  if PB_ATYPE ty =? PB_ATYPE_STATIC then decode_static_field wire_type iter size
  else if PB_ATYPE ty =? PB_ATYPE_POINTER then decode_pointer_field wire_type iter size
  else if PB_ATYPE ty =? PB_ATYPE_CALLBACK then decode_callback_field calls wire_type iter
  else error "invalid field type".

(** * Extensions *)

Definition default_extension_decoder (calls : nat) (extension wanted wire_type : Z) : Dec () :=
  m ← get_mem;
  if negb (tag (extension_field m extension) =? wanted) then mret ()
  else
    let iter := iter_from_extension m extension in
    _ ← store_at (extension_found extension) [1];
    decode_field calls wire_type iter (SizeAt (pSize iter)).

Fixpoint decode_extension_loop (fuel calls : nat) (extension before wanted wire_type : Z) : Dec () :=
  match fuel with
  | O => ret0
  | S fuel =>
      stream ← on_stream getS;
      if negb (extension =? NULL) && (before =? is_bytes_left stream) then
        m ← get_mem;
        let decode := type_decode m (extension_type m extension) in
        _ ← (if negb (decode =? NULL) then type_decoder decode extension wanted wire_type
             else default_extension_decoder calls extension wanted wire_type);
        m ← get_mem;
        decode_extension_loop fuel calls (extension_next m extension) before wanted wire_type
      else mret ()
  end.

Definition decode_extension (calls : nat) (wanted wire_type : Z) (iter : pb_field_iter) : Dec () :=
  m ← get_mem;
  stream ← on_stream getS;
  decode_extension_loop (S (length m)) calls (load_ptr m (pData iter)) (is_bytes_left stream)
    wanted wire_type.

Definition find_extension_field (iter : pb_field_iter) : pb_field_iter * bool :=
  iter_find_loop (S (length (start iter))) (pos_index iter)
    (λ f, PB_LTYPE (type f) =? PB_LTYPE_EXTENSION) iter.

(** * Messages *)

(** The locals of [pb_decode_noinit], [fixed_count_size] apart. *)
Record locals := {
  fields_seen : list Z;
  extension_range_start : Z;
  iter : pb_field_iter;
  fixed_count_field : option nat;
}.

(** "wrong size for fixed count field": the last one was not filled. *)
Definition check_fixed_count (fields : list pb_field) (l : locals) : Dec () := λ s,
  match fixed_count_field l with
  | Some i =>
      if negb (ds_count s =? array_size (field_at fields i))
      then error "wrong size for fixed count field" s else (Some (), s)
  | None => (Some (), s)
  end.

Definition set_count (n : Z) : Dec () :=
  modifyS (λ s, {| ds_stream := ds_stream s; ds_mem := ds_mem s; ds_count := n |}).

(** A tag no field has: an extension, or data to skip. *)
Definition decode_unknown (calls : nat) (wire_type wanted : Z) (l : locals) : Dec locals :=
  if extension_range_start l <=? wanted then
    let '(it, found) := find_extension_field (iter l) in
    let range := if found then tag (pos it) else u32 (-1) in
    let l := {| fields_seen := fields_seen l; extension_range_start := range; iter := it;
                fixed_count_field := fixed_count_field l |} in
    if range <=? wanted then
      stream ← on_stream getS;
      let before := is_bytes_left stream in
      _ ← decode_extension calls wanted wire_type it;
      stream ← on_stream getS;
      if negb (before =? is_bytes_left stream) then mret l
      else _ ← on_stream (pb_skip_field wire_type); mret l
    else _ ← on_stream (pb_skip_field wire_type); mret l
  else _ ← on_stream (pb_skip_field wire_type); mret l.

(** A field of the message at [iter l]. *)
Definition decode_known (calls : nat) (wire_type : Z) (l : locals) : Dec locals :=
  let it := iter l in
  let ty := type (pos it) in
  let fixed := (PB_HTYPE ty =? PB_HTYPE_REPEATED) && (pSize it =? pData it) in
  l ← (if fixed && negb (bool_decide (fixed_count_field l = Some (pos_index it))) then
         _ ← check_fixed_count (start it) l;
         _ ← set_count 0;
         mret {| fields_seen := fields_seen l; extension_range_start := extension_range_start l;
                 iter := it; fixed_count_field := Some (pos_index it) |}
       else mret l);
  let index := required_field_index it in
  let seen :=
    if (PB_HTYPE ty =? PB_HTYPE_REQUIRED) && (index <? PB_MAX_REQUIRED_FIELDS) then
      write_at (fields_seen l) (index ≫ 5)
        [nthZ (fields_seen l) (index ≫ 5) .| u32 (1 ≪ (index .& 31))]
    else fields_seen l in
  _ ← decode_field calls wire_type it (if fixed then SizeLocal else SizeAt (pSize it));
  mret {| fields_seen := seen; extension_range_start := extension_range_start l; iter := it;
          fixed_count_field := fixed_count_field l |}.

Definition decode_one (calls : nat) (wire_type wanted : Z) (l : locals) : Dec locals :=
  let '(it, found) := pb_field_iter_find (iter l) wanted in
  let l := {| fields_seen := fields_seen l; extension_range_start := extension_range_start l;
              iter := it; fixed_count_field := fixed_count_field l |} in
  if negb found then decode_unknown calls wire_type wanted l else decode_known calls wire_type l.

(** [while (stream->bytes_left)]; every turn reads a tag. *)
Fixpoint decode_loop (fuel calls : nat) (l : locals) : Dec locals :=
  match fuel with
  | O => ret0
  | S fuel =>
      stream ← on_stream getS;
      if is_bytes_left stream =? 0 then mret l
      else λ s,
        match pb_decode_tag (ds_stream s) with
        | (None, eof, stream) =>
            let s := {| ds_stream := stream; ds_mem := ds_mem s; ds_count := ds_count s |} in
            if (eof : bool) then (Some l, s) else (None, s)
        | (Some (wire_type, wanted), _, stream) =>
            let s := {| ds_stream := stream; ds_mem := ds_mem s; ds_count := ds_count s |} in
            (l ← decode_one calls wire_type wanted l; decode_loop fuel calls l) s
        end
  end.

(** [do ... while (pb_field_iter_next(&iter))]: how many fields are required, as the
    iterator counts them, the last one apart, and the last type; then the iterator is
    at the beginning. *)
Fixpoint seek_end (fuel : nat) (it : pb_field_iter) : Z * Z * pb_field_iter :=
  let '(next, more) := pb_field_iter_next it in
  match fuel, more with
  | S fuel, true => seek_end fuel next
  | _, _ => (required_field_index it, type (pos it), next)
  end.

Definition required_seen (l : locals) : bool :=
  let '(count, last_type, it) := seek_end (length (start (iter l))) (iter l) in
  let count :=
    if (PB_HTYPE last_type =? PB_HTYPE_REQUIRED) && negb (tag (pos it) =? 0)
    then u32 (count + 1) else count in
  let count := if PB_MAX_REQUIRED_FIELDS <? count then PB_MAX_REQUIRED_FIELDS else count in
  let allbits := u32 (-1) in
  if 0 <? count then
    forallb (λ i, nthZ (fields_seen l) i =? allbits) (seqZ 0 (count ≫ 5)) &&
    ((count .& 31 =? 0) || (nthZ (fields_seen l) (count ≫ 5) =? allbits ≫ (32 - (count .& 31))))
  else true.

Definition decode_noinit (calls : nat) (fields : list pb_field) (dest : Z) : Dec () :=
  let l := {| fields_seen := [0; 0]; extension_range_start := 0;
              iter := (pb_field_iter_begin fields dest).1; fixed_count_field := None |} in
  stream ← on_stream getS;
  l ← decode_loop (S (Z.to_nat (is_bytes_left stream))) calls l;
  _ ← check_fixed_count fields l;
  if required_seen l then mret () else error "missing required field".
End fields.

(** [fixed_count_size] belongs to the call. *)
Definition own_count {A} (m : Dec A) : Dec A := λ s,
  let '(r, s') := m {| ds_stream := ds_stream s; ds_mem := ds_mem s; ds_count := 0 |} in
  (r, {| ds_stream := ds_stream s'; ds_mem := ds_mem s'; ds_count := ds_count s |}).

Section messages.
(** How often a callback is called for one string, and how deep structures nest. *)
Context (calls : nat).

Section nested.
(** [pb_decode_noinit], tied below. *)
Context (noinit : list pb_field → Z → Dec ()) (depth : nat).

Definition decode_or_release (fields : list pb_field) (dest : Z) : Dec () :=
  _ ← pb_message_set_to_defaults depth fields dest;
  status ← attempt (noinit fields dest);
  if (status : bool) then mret ()
  else _ ← pb_release depth fields dest; ret0.

Definition pb_dec_submessage (field : pb_field) (dest : Z) : Dec () :=
  substream ← on_stream pb_make_string_substream;
  if ptr field =? NULL then error "invalid field descriptor"
  else
    '(status, substream) ← with_stream substream
      (if PB_HTYPE (type field) =? PB_HTYPE_REPEATED
       then decode_or_release (fields_at (ptr field)) dest
       else noinit (fields_at (ptr field)) dest);
    _ ← on_stream (pb_close_string_substream substream);
    liftO status.
End nested.

Fixpoint pb_decode_noinit (depth : nat) (fields : list pb_field) (dest : Z) : Dec () :=
  match depth with
  | O => ret0
  | S depth =>
      own_count (decode_noinit (pb_dec_submessage (pb_decode_noinit depth) depth) depth calls fields dest)
  end.

Definition pb_decode (depth : nat) (fields : list pb_field) (dest : Z) : Dec () :=
  decode_or_release (pb_decode_noinit depth) depth fields dest.

Definition delimited (decode : Dec ()) : Dec () :=
  substream ← on_stream pb_make_string_substream;
  '(status, substream) ← with_stream substream decode;
  _ ← on_stream (pb_close_string_substream substream);
  liftO status.

Definition pb_decode_delimited_noinit (depth : nat) (fields : list pb_field) (dest : Z) : Dec () :=
  delimited (pb_decode_noinit depth fields dest).
Definition pb_decode_delimited (depth : nat) (fields : list pb_field) (dest : Z) : Dec () :=
  delimited (pb_decode depth fields dest).
Definition pb_decode_nullterminated (depth : nat) (fields : list pb_field) (dest : Z) : Dec () :=
  pb_decode depth fields dest.
End messages.
End decode.
