(* ===== verification/PbLayout.v ===== *)
(** Layouts of messages: where the fields of a descriptor array lie in their structure, when
    they fit it, and that the iterators of pb_common.c visit these places. *)
From stdpp Require Import strings.
From S2P Require Import Prelude PbWire PbRead PbField PbDecode.

Open Scope Z_scope.

(** * Layouts

    Where the fields of an array lie, relative to the structure. *)

Definition extent (f : pb_field) : Z :=
  if PB_HTYPE (type f) =? PB_HTYPE_REPEATED then data_size f * array_size f else data_size f.

(** A union member that shares the place of the one before it. *)
Definition in_union (f g : pb_field) : bool :=
  (PB_HTYPE (type f) =? PB_HTYPE_ONEOF) && (PB_HTYPE (type g) =? PB_HTYPE_ONEOF) &&
  (data_offset g =? PB_SIZE_MAX).

(** Offset of the data and of the size or has-field, and how many required fields precede. *)
Fixpoint place (fields : list pb_field) (i : nat) : Z * Z * Z :=
  match i with
  | O =>
      let f := field_at fields 0 in (data_offset f, data_offset f + size_offset f, 0)
  | S i =>
      let '(data, size, req) := place fields i in
      let f := field_at fields i in
      let g := field_at fields (S i) in
      if in_union f g then (data, size, req)
      else
        let data := data + extent f + data_offset g in
        (data, data + size_offset g,
         if PB_HTYPE (type f) =? PB_HTYPE_REQUIRED then u32 (req + 1) else req)
  end.
Definition data_at (fields : list pb_field) (i : nat) : Z := (place fields i).1.1.
Definition size_at (fields : list pb_field) (i : nat) : Z := (place fields i).1.2.

(** Inside a structure of [n] bytes. *)
Definition inside (n p len : Z) : bool := (0 <=? p) && (p + len <=? n).

(** A static field of one of the types the decoder knows, whose size suits the type. *)
Definition static_field (f : pb_field) : bool :=
  let l := PB_LTYPE (type f) in
  bool_decide (field_ok f) && negb (tag f =? 0) && (PB_ATYPE (type f) =? PB_ATYPE_STATIC) &&
  ((l <=? PB_LTYPE_SUBMESSAGE) || (l =? PB_LTYPE_FIXED_LENGTH_BYTES)) &&
  (if l =? PB_LTYPE_BOOL then 1 <=? data_size f
   else if l =? PB_LTYPE_FIXED32 then 4 <=? data_size f
   else if l =? PB_LTYPE_FIXED64 then 8 <=? data_size f else true) &&
  (extent f <? 2 ^ 32).

(** The has-field or the count has its place.  The count of an array without one is
    where the array is, and is reset all the same: it takes four bytes. *)
Definition size_inside (fields : list pb_field) (n : Z) (i : nat) : bool :=
  let f := field_at fields i in
  let p := size_at fields i in
  if PB_HTYPE (type f) =? PB_HTYPE_REQUIRED then true
  else if PB_HTYPE (type f) =? PB_HTYPE_OPTIONAL then (p =? data_at fields i) || inside n p 1
  else inside n p 4.

(** A message of [n] bytes, with submessages [depth] deep at most; also without
    fields a structure has a byte. *)
Fixpoint wf_message {D : Descriptors} (depth : nat) (fields : list pb_field) (n : Z) : bool :=
  match depth with
  | O => false
  | S depth =>
      (1 <=? n) && forallb (λ i,
        let f := field_at fields i in
        static_field f && inside n (data_at fields i) (extent f) && size_inside fields n i &&
        (if PB_LTYPE (type f) =? PB_LTYPE_SUBMESSAGE
         then wf_message depth (fields_at (ptr f)) (data_size f) else true))
        (seq 0 (length fields))
  end.

(** How many bytes decoding one item may write. *)
Definition touched (f : pb_field) : Z :=
  let l := PB_LTYPE (type f) in
  if l =? PB_LTYPE_BOOL then 1
  else if l =? PB_LTYPE_FIXED32 then 4
  else if l =? PB_LTYPE_FIXED64 then 8
  else data_size f.

Lemma touched_submessage f : PB_LTYPE (type f) = PB_LTYPE_SUBMESSAGE → touched f = data_size f.
Proof. intros H. unfold touched. by rewrite H. Qed.

(** The types that have a decoder. *)
Definition known_type (l : Z) : Prop := l <= PB_LTYPE_SUBMESSAGE ∨ l = PB_LTYPE_FIXED_LENGTH_BYTES.

Lemma static_field_known f : static_field f = true → known_type (PB_LTYPE (type f)).
Proof.
  unfold static_field, known_type. intros H. bools.
  match goal with H : _ || _ = true |- _ => apply orb_true_iff in H as [H|H] end; bools; auto.
Qed.

Lemma static_field_inv f :
  static_field f = true →
  field_ok f ∧ tag f ≠ 0 ∧ PB_ATYPE (type f) = PB_ATYPE_STATIC ∧
  PB_LTYPE (type f) ≠ PB_LTYPE_EXTENSION ∧ touched f <= data_size f ∧ extent f < 2 ^ 32.
Proof.
  intros H. pose proof (static_field_known f H) as Hk. unfold static_field, touched in *. bools.
  match goal with H : bool_decide _ = true |- _ => apply bool_decide_eq_true in H end.
  split_and!; try done.
  { intros He. rewrite He in Hk. by destruct Hk as [Hk|Hk]. }
  destruct (_ =? PB_LTYPE_BOOL); [by bools|]. destruct (_ =? PB_LTYPE_FIXED32); [by bools|].
  destruct (_ =? PB_LTYPE_FIXED64); [by bools|done].
Qed.

Lemma inside_inv n p len : inside n p len = true → 0 <= p ∧ p + len <= n.
Proof. unfold inside. intros. by bools. Qed.

Lemma extent_ge f : field_ok f → PB_HTYPE (type f) ≠ PB_HTYPE_REPEATED → extent f = data_size f.
Proof. intros _ H. unfold extent. by rewrite (proj2 (Z.eqb_neq _ _) H). Qed.

(** * The iterator visits the places *)

Definition iter_at (fields : list pb_field) (dest : Z) (i : nat) : pb_field_iter :=
  let '(data, size, req) := place fields i in
  {| start := fields; pos_index := i; required_field_index := req; dest_struct := dest;
     pData := dest + data; pSize := dest + size |}.

Lemma field_at_end fields i : (length fields <= i)%nat → field_at fields i = PB_LAST_FIELD.
Proof. intros H. unfold field_at. by rewrite lookup_ge_None_2. Qed.

Section iterators.
Context (fields : list pb_field) (dest : Z).
Context (Hdest : dest ≠ NULL)
  (Htags : ∀ i, (i < length fields)%nat → static_field (field_at fields i) = true).

Lemma pos_iter_at i : pos (iter_at fields dest i) = field_at fields i.
Proof. unfold iter_at, pos. by destruct (place fields i) as [[??]?]. Qed.
Lemma index_iter_at i : pos_index (iter_at fields dest i) = i.
Proof. unfold iter_at. by destruct (place fields i) as [[??]?]. Qed.
Lemma start_iter_at i : start (iter_at fields dest i) = fields.
Proof. unfold iter_at. by destruct (place fields i) as [[??]?]. Qed.
Lemma pData_iter_at i : pData (iter_at fields dest i) = dest + data_at fields i.
Proof. unfold iter_at, data_at. by destruct (place fields i) as [[??]?]. Qed.
Lemma pSize_iter_at i : pSize (iter_at fields dest i) = dest + size_at fields i.
Proof. unfold iter_at, size_at. by destruct (place fields i) as [[??]?]. Qed.

Lemma static_field_tag f : static_field f = true → tag f ≠ 0.
Proof. unfold static_field. intros H. bools. done. Qed.

Lemma iter_begin_at :
  pb_field_iter_begin fields dest =
    (iter_at fields dest 0, match fields with [] => false | _ => true end).
Proof.
  unfold pb_field_iter_begin, iter_at. cbn [place]. rewrite (proj2 (Z.eqb_neq _ _) Hdest).
  f_equal; [f_equal; lia|]. destruct fields as [|f fs]; [done|].
  pose proof (static_field_tag _ (Htags 0%nat ltac:(cbn; lia))) as Ht.
  by rewrite (proj2 (Z.eqb_neq _ _) Ht).
Qed.

Lemma extent_prev_size f :
  static_field f = true →
  (if (PB_ATYPE (type f) =? PB_ATYPE_STATIC) && (PB_HTYPE (type f) =? PB_HTYPE_REPEATED)
   then size_t (data_size f * array_size f)
   else if PB_ATYPE (type f) =? PB_ATYPE_POINTER then sizeof_ptr else data_size f) = extent f.
Proof.
  unfold static_field, extent. intros H. bools.
  match goal with H : PB_ATYPE _ = _ |- _ => rewrite H end. cbn [andb Z.eqb PB_ATYPE_STATIC].
  destruct (PB_HTYPE (type f) =? PB_HTYPE_REPEATED); [|done]. apply wrap_small.
  match goal with H : bool_decide _ = true |- _ => apply bool_decide_eq_true in H as (_&_&?&?) end.
  mlia.
Qed.

Lemma iter_next_at i :
  (i < length fields)%nat →
  pb_field_iter_next (iter_at fields dest i) =
    if (S i <? length fields)%nat then (iter_at fields dest (S i), true)
    else (iter_at fields dest 0, false).
Proof.
  intros Hi. unfold pb_field_iter_next. rewrite pos_iter_at, start_iter_at, index_iter_at.
  pose proof (Htags i Hi) as Hs. rewrite (proj2 (Z.eqb_neq _ _) (static_field_tag _ Hs)).
  destruct (Nat.ltb_spec (S i) (length fields)) as [Hlt|Hge].
  - pose proof (Htags _ Hlt) as Hs'. rewrite (proj2 (Z.eqb_neq _ _) (static_field_tag _ Hs')).
    rewrite extent_prev_size by done. unfold iter_at. cbn [place].
    destruct (place fields i) as [[data size] req]. cbn [pData pSize required_field_index dest_struct].
    change (_ && _ && _) with (in_union (field_at fields i) (field_at fields (S i))).
    destruct (in_union _ _); [done|].
    f_equal. f_equal; lia.
  - rewrite (field_at_end fields (S i)) by done. cbn [tag PB_LAST_FIELD Z.eqb].
    assert (dest_struct (iter_at fields dest i) = dest) as ->
      by (unfold iter_at; by destruct (place fields i) as [[??]?]).
    by rewrite iter_begin_at.
Qed.

(** A search ends at a place, too. *)
Lemma iter_find_loop_at fuel first wanted i :
  (i < length fields)%nat → (first < length fields)%nat →
  ∃ j b, iter_find_loop fuel first wanted (iter_at fields dest i) = (iter_at fields dest j, b) ∧
    (j < length fields)%nat ∧ (b = true → wanted (field_at fields j) = true).
Proof.
  intros Hi Hf. revert i Hi. induction fuel as [|fuel IH]; intros i Hi; cbn [iter_find_loop]; [by exists i, false|].
  rewrite pos_iter_at. destruct (wanted (field_at fields i)) eqn:Hw; [by exists i, true|].
  rewrite iter_next_at by done.
  assert (0 < length fields)%nat by lia.
  destruct (Nat.ltb_spec (S i) (length fields)); cbn [fst]; rewrite index_iter_at.
  - destruct (S i =? first)%nat; [by exists (S i), false|]. by apply IH.
  - destruct (0 =? first)%nat; [by exists 0%nat, false|]. by apply IH.
Qed.
End iterators.

(** * Messages in order *)

Section messages.
Context {D : Descriptors}.

Lemma wf_message_inv depth fields n :
  wf_message depth fields n = true →
  1 <= n ∧ (∀ i, (i < length fields)%nat → static_field (field_at fields i) = true) ∧
  ∀ i, (i < length fields)%nat →
    inside n (data_at fields i) (extent (field_at fields i)) = true ∧
    size_inside fields n i = true ∧
    (PB_LTYPE (type (field_at fields i)) = PB_LTYPE_SUBMESSAGE →
     ∃ d, depth = S d ∧
       wf_message d (fields_at (ptr (field_at fields i))) (data_size (field_at fields i)) = true).
Proof.
  destruct depth as [|d]; [done|]. cbn [wf_message]. intros H. apply andb_true_iff in H as [H0 H].
  rewrite forallb_forall in H.
  assert (∀ i, (i < length fields)%nat → In i (seq 0 (length fields))) as Hin
    by (intros i Hi; apply in_seq; lia).
  split; [by apply Z.leb_le|]. split; intros i Hi; specialize (H i (Hin i Hi)); bools; [done|].
  split; [done|]. split; [done|]. intros Hs. exists d. split; [done|]. rewrite Hs in *. done.
Qed.

(** Where submessages are found: deeper by one. *)
Lemma wf_submessage wfd depth fields n i :
  wf_message wfd fields n = true → (wfd <= S depth)%nat → (i < length fields)%nat →
  PB_LTYPE (type (field_at fields i)) = PB_LTYPE_SUBMESSAGE →
  ∃ d, (d <= depth)%nat ∧
    wf_message d (fields_at (ptr (field_at fields i))) (data_size (field_at fields i)) = true.
Proof.
  intros Hwf Hd Hi Hm. destruct (wf_message_inv _ _ _ Hwf) as (_ & _ & Hf).
  destruct (Hf i Hi) as (_ & _ & Hs). destruct (Hs Hm) as (d & -> & Hw). exists d. split; [lia|done].
Qed.

Lemma data_at_positive wfd fields n dest i :
  wf_message wfd fields n = true → 0 < dest → (i < length fields)%nat → 0 < dest + data_at fields i.
Proof.
  intros Hwf Hd Hi. destruct (wf_message_inv _ _ _ Hwf) as (_ & _ & Hf).
  destruct (Hf i Hi) as (Hin & _). apply inside_inv in Hin. lia.
Qed.

(** A descriptor array in a structure at [dest]. *)
Definition valid_place (fields : list pb_field) (i : nat) : Prop :=
  (i < length fields)%nat ∨ (fields = [] ∧ i = 0%nat).

(** ** The iterator of one message *)

Section message.
Context (wfd : nat) (fields : list pb_field) (n dest : Z).
Context (Hwf : wf_message wfd fields n = true) (Hdest : 0 < dest).

Definition at_place (it : pb_field_iter) : Prop := ∃ i, valid_place fields i ∧ it = iter_at fields dest i.

Lemma find_at it wanted_tag :
  at_place it → ∃ j b, pb_field_iter_find it wanted_tag = (iter_at fields dest j, b) ∧ valid_place fields j.
Proof.
  intros (i & Hi & ->). unfold pb_field_iter_find. rewrite start_iter_at, index_iter_at.
  destruct (wf_message_inv _ _ _ Hwf) as (_ & Ht & _). destruct Hi as [Hi|[-> ->]].
  - edestruct (iter_find_loop_at fields dest) as (j & b & Heq & Hj & _);
      [unfold NULL; lia|exact Ht|exact Hi|exact Hi|]. rewrite Heq. exists j, b. by split; [|left].
  - exists 0%nat. cbn [iter_find_loop length]. rewrite pos_iter_at.
    destruct (_ && _); [exists true; by split; [|right]|]. cbn. exists false. by split; [|right].
Qed.

Lemma find_extension_at it :
  at_place it → ∃ j, find_extension_field it = (iter_at fields dest j, false) ∧ valid_place fields j.
Proof.
  intros (i & Hi & ->). unfold find_extension_field. rewrite start_iter_at, index_iter_at.
  destruct (wf_message_inv _ _ _ Hwf) as (_ & Ht & _). destruct Hi as [Hi|[-> ->]].
  - edestruct (iter_find_loop_at fields dest) as (j & b & Heq & Hj & Hb);
      [unfold NULL; lia|exact Ht|exact Hi|exact Hi|]. rewrite Heq. exists j. split; [|by left].
    destruct b; [|done]. exfalso. specialize (Hb eq_refl). apply Z.eqb_eq in Hb.
    by destruct (static_field_inv _ (Ht j Hj)) as (_ & _ & _ & ? & _).
  - exists 0%nat. cbn [iter_find_loop length]. rewrite pos_iter_at. by split; [|right].
Qed.

End message.
End messages.
