(* ===== verification/PbSafety.v ===== *)
(** Decoding is confined to the message structure: for descriptors of static fields whose layout fits,
    and every input, pb_decode.c writes inside the structure only. *)
From stdpp Require Import strings.
From S2P Require Import Prelude PbWire PbRead PbField PbDecode PbLayout.

Open Scope Z_scope.

(** * Computations confined to an interval of memory

    The stream stays within its limit: a parent whose substream was not closed may lag behind
    what it still may read. *)

Definition within (s s' : pb_istream) : Prop :=
  ∃ n n', 0 <= n <= n' ∧ n' <= is_bytes_left s ∧ is_state s' = dropZ n (is_state s) ∧
    is_bytes_left s' = is_bytes_left s - n'.

Lemma within_refl s : 0 <= is_bytes_left s → within s s.
Proof. intros. exists 0, 0. rewrite dropZ_0. split_and!; lia || done. Qed.

Lemma within_trans s1 s2 s3 : within s1 s2 → within s2 s3 → within s1 s3.
Proof.
  intros (n & n' & Hn & Hl & Hs & Hb) (k & k' & Hk & Hl' & Hs' & Hb'). exists (n + k), (n' + k').
  rewrite Hs', Hs, dropZ_dropZ by lia. split_and!; lia || done.
Qed.

Lemma moves_within s s' : moves s s' → within s s'.
Proof. intros (n & Hn & Hs & Hb & _). exists n, n. split_and!; lia || done. Qed.

Lemma within_ok s s' : istream_ok s → within s s' → istream_ok s'.
Proof.
  intros [Hok Hl] (n & n' & Hn & Hl' & Hs & Hb). split.
  - rewrite Hs. unfold dropZ. by apply Forall_drop.
  - rewrite Hs, Hb, lenZ_dropZ; lia.
Qed.

(** The interval from [lo] to [hi] of the memory may have changed. *)
Definition same_outside (lo hi : Z) (m m' : bytes) : Prop :=
  lenZ m' = lenZ m ∧ takeZ lo m' = takeZ lo m ∧ dropZ hi m' = dropZ hi m.

Lemma same_outside_refl lo hi m : same_outside lo hi m m.
Proof. done. Qed.
Lemma same_outside_trans lo hi m1 m2 m3 :
  same_outside lo hi m1 m2 → same_outside lo hi m2 m3 → same_outside lo hi m1 m3.
Proof. unfold same_outside. intuition congruence. Qed.

Lemma dropZ_write_at {A} (l : list A) off src n :
  0 <= off → off + lenZ src <= n → n <= lenZ l → dropZ n (write_at l off src) = dropZ n l.
Proof.
  intros Ho Hn Hl. pose proof (lenZ_nonneg src). unfold write_at.
  rewrite app_assoc. replace n with ((off + lenZ src) + (n - (off + lenZ src))) at 1 by lia.
  rewrite <-dropZ_dropZ by lia. rewrite (dropZ_app _ _ (off + lenZ src)) by (rewrite lenZ_app, lenZ_takeZ; lia).
  rewrite dropZ_dropZ by lia. f_equal. lia.
Qed.

Lemma store_outside lo hi m p bs :
  0 <= lo → lo <= p → p + lenZ bs <= hi → hi <= lenZ m → same_outside lo hi m (store m p bs).
Proof.
  intros. pose proof (lenZ_nonneg bs). unfold store. split_and!.
  - apply lenZ_write_at; lia.
  - apply takeZ_write_at_lo; lia.
  - apply dropZ_write_at; lia.
Qed.

Definition dstate_ok (s : dstate) : Prop := istream_ok (ds_stream s) ∧ bytes_ok (ds_mem s) ∧ 0 <= ds_count s.
#[global] Instance dstate_ok_dec s : Decision (dstate_ok s).
Proof. unfold dstate_ok. apply _. Defined.

(** What a decoder may do to the state. *)
Definition changes (lo hi : Z) (s s' : dstate) : Prop :=
  within (ds_stream s) (ds_stream s') ∧ same_outside lo hi (ds_mem s) (ds_mem s') ∧ dstate_ok s'.

Class Confined (lo hi : Z) {A} (m : Dec A) : Prop :=
  confined s : dstate_ok s → 0 <= lo → hi <= lenZ (ds_mem s) → changes lo hi s (m s).2.
#[global] Hint Mode Confined ! ! ! ! : typeclass_instances.

Section confined.
Context {lo hi : Z}.

Lemma changes_refl s : dstate_ok s → changes lo hi s s.
Proof.
  intros Hs. split; [|split]; [|apply same_outside_refl|done].
  apply within_refl. apply Hs.
Qed.
Lemma changes_trans s1 s2 s3 : changes lo hi s1 s2 → changes lo hi s2 s3 → changes lo hi s1 s3.
Proof.
  intros (H1 & H2 & _) (H3 & H4 & H5).
  split; [by eapply within_trans|]. split; [by eapply same_outside_trans|done].
Qed.

#[export] Instance ret_confined {A} (a : A) : Confined lo hi (mret a).
Proof. intros s Hs _ _. by apply (changes_refl s). Qed.
#[export] Instance ret0_confined {A} : Confined lo hi (@ret0 dstate A).
Proof. intros s Hs _ _. by apply (changes_refl s). Qed.
#[export] Instance liftO_confined {A} (o : option A) : Confined lo hi (liftO o).
Proof. intros s Hs _ _. by apply (changes_refl s). Qed.
#[export] Instance get_mem_confined : Confined lo hi get_mem.
Proof. intros s Hs _ _. by apply (changes_refl s). Qed.
#[export] Instance get_size_confined p : Confined lo hi (get_size p).
Proof. intros s Hs _ _. by apply (changes_refl s). Qed.

Lemma bind_confined_post {A B} (m : Dec A) (k : A → Dec B) :
  Confined lo hi m → (∀ s a s', dstate_ok s → 0 <= lo → hi <= lenZ (ds_mem s) → m s = (Some a, s') → Confined lo hi (k a)) →
  Confined lo hi (m ≫= k).
Proof.
  intros Hm Hk s Hs Hlo Hhi. pose proof (Hm s Hs Hlo Hhi) as H. unfold mbind, M_bind.
  destruct (m s) as [[a|] s'] eqn:E; [|done]. cbn in H.
  eapply changes_trans; [exact H|]. destruct H as (_ & (Hl & _) & Hok).
  apply (Hk s a s' Hs Hlo Hhi E); [done|done|by rewrite Hl].
Qed.
#[export] Instance bind_confined {A B} (m : Dec A) (k : A → Dec B) :
  Confined lo hi m → (∀ a, Confined lo hi (k a)) → Confined lo hi (m ≫= k).
Proof. intros Hm Hk. apply bind_confined_post; [done|]. intros. apply Hk. Qed.
#[export] Instance if_confined {A} (b : bool) (m1 m2 : Dec A) :
  Confined lo hi m1 → Confined lo hi m2 → Confined lo hi (if b then m1 else m2).
Proof. by destruct b. Qed.
#[export] Instance pair_confined {A B C} (p : B * C) (k : B → C → Dec A) :
  (∀ b c, Confined lo hi (k b c)) → Confined lo hi (let '(b, c) := p in k b c).
Proof. by destruct p. Qed.

#[export] Instance on_stream_confined {A} (m : M pb_istream A) :
  Reader m → Confined lo hi (on_stream m).
Proof.
  intros Hm s (Hs & Hmem & Hc) _ _. pose proof (reader_moves m (ds_stream s) Hs) as H.
  unfold on_stream. destruct (m (ds_stream s)) as [r stream]. cbn in H.
  split; [by apply moves_within|]. split; [done|]. split; [by eapply moves_ok|done].
Qed.
#[export] Instance get_stream_confined : Confined lo hi (on_stream getS).
Proof. intros s Hs _ _. by destruct s; apply (changes_refl). Qed.
#[export] Instance error_confined {A} msg : Confined lo hi (@error A msg).
Proof. unfold error. apply _. Qed.
#[export] Instance attempt_confined {A} (m : Dec A) : Confined lo hi m → Confined lo hi (attempt m).
Proof.
  intros Hm s Hs Hlo Hhi. pose proof (Hm s Hs Hlo Hhi) as H. unfold attempt. by destruct (m s).
Qed.

(** The same with what is known of the result. *)
Definition Yields {A} (P : A → Prop) (m : Dec A) : Prop :=
  Confined lo hi m ∧
  ∀ s a s', dstate_ok s → 0 <= lo → hi <= lenZ (ds_mem s) → m s = (Some a, s') → P a.

Lemma result_ret {A} (P : A → Prop) a : P a → Yields P (mret a).
Proof. intros H. split; [apply _|]. by intros ? ? ? _ _ _ [= <- <-]. Qed.
Lemma yields_fails {A} (P : A → Prop) m : Confined lo hi m → (∀ s, (m s).1 = None) → Yields P m.
Proof. intros Hc Hn. split; [done|]. intros s a s' _ _ _ E. specialize (Hn s). by rewrite E in Hn. Qed.
Lemma yields_any {A} (m : Dec A) : Confined lo hi m → Yields (λ _, True) m.
Proof. intros H. split; [done|]. intros. exact I. Qed.
Lemma result_bind {A B} (Q : A → Prop) (P : B → Prop) (m : Dec A) (k : A → Dec B) :
  Yields Q m → (∀ a, Q a → Yields P (k a)) → Yields P (m ≫= k).
Proof.
  intros [Hm Hq] Hk. split.
  - apply bind_confined_post; [done|]. intros s a s' Hs H1 H2 E.
    exact (proj1 (Hk a (Hq s a s' Hs H1 H2 E))).
  - intros s b s'' Hs H1 H2 E. apply bind_inv in E as (a & s' & E1 & E2).
    pose proof (Hm s Hs H1 H2) as Hc. rewrite E1 in Hc. destruct Hc as (_ & (Hl & _) & Hok).
    cbn in Hl, Hok.
    apply (proj2 (Hk a (Hq s a s' Hs H1 H2 E1)) s' b s'' Hok H1); [by rewrite Hl|exact E2].
Qed.
Lemma yields_if {A} (P : A → Prop) (b : bool) m1 m2 :
  Yields P m1 → Yields P m2 → Yields P (if b then m1 else m2).
Proof. by destruct b. Qed.

Lemma store_confined p bs :
  lo <= p → p + lenZ bs <= hi → bytes_ok bs → Confined lo hi (store_at p bs).
Proof.
  intros Hp Hl Hbs s (Hs & Hmem & Hc) Hlo Hhi. split; [|split].
  - apply within_refl, Hs.
  - by apply store_outside.
  - split; [done|]. split; [|done]. cbn. unfold store, write_at.
    apply bytes_ok_app. split; [unfold takeZ; by apply Forall_take|].
    apply bytes_ok_app. split; [done|]. unfold dropZ. by apply Forall_drop.
Qed.

Lemma le_bytes_confined p n v : lo <= p → p + Z.of_nat n <= hi → Confined lo hi (store_at p (le_bytes n v)).
Proof. intros. apply store_confined; [done|by rewrite lenZ_le_bytes|apply le_bytes_ok]. Qed.
End confined.

(** * Decoders of single values *)

Section values.
Context {D : Descriptors} (pb_realloc : bytes → Z → Z → Z * bytes).
Context (lo hi : Z).

Lemma on_stream_inv {A} (m : M pb_istream A) s a s' :
  on_stream m s = (Some a, s') → ∃ t, m (ds_stream s) = (Some a, t).
Proof. unfold on_stream. destruct (m (ds_stream s)) as [r t]. intros. simplify_eq. by exists t. Qed.

(** The 32-bit values that a decoder gets. *)
Lemma varint32_confined {A} (k : Z → Dec A) :
  (∀ n, fits 32 n → Confined lo hi (k n)) → Confined lo hi (on_stream pb_decode_varint32 ≫= k).
Proof.
  intros Hk. apply bind_confined_post; [apply _|]. intros s n s' (Hs & _) _ _ H.
  apply on_stream_inv in H as [t H]. apply Hk. by eapply decode_varint32_fits.
Qed.

Lemma read_post n s x t :
  0 <= n → istream_ok s → pb_read n s = (Some x, t) → lenZ x = n ∧ bytes_ok x.
Proof.
  intros Hn Hs. apply (istream_run s); [done|]. intros l r e Hl Hr H.
  apply read_inv in H as (r' & -> & Hx & _); [|done]. apply bytes_ok_app in Hl as [??]. done.
Qed.

Lemma read_into_confined p n : 0 <= n → lo <= p → p + n <= hi → Confined lo hi (read_into p n).
Proof.
  intros Hn Hp Hl. unfold read_into. apply bind_confined_post; [apply _|].
  intros s x s' (Hs & _) _ _ H. apply on_stream_inv in H as [t H].
  apply read_post in H as [Hx Hok]; [|done|done]. apply store_confined; [done|lia|done].
Qed.

Lemma store_clamped_confined p n v read_back :
  lo <= p → p + n <= hi → Confined lo hi (store_clamped p n v read_back).
Proof.
  intros Hp Hl. unfold store_clamped.
  destruct (Z.eqb_spec n 8), (Z.eqb_spec n 4), (Z.eqb_spec n 2), (Z.eqb_spec n 1); try lia;
    subst; cbn [orb]; try apply _;
    (apply bind_confined; [apply le_bytes_confined; lia|apply _]).
Qed.

Lemma zeros_confined p n : 0 <= n → lo <= p → p + n <= hi → Confined lo hi (store_at p (replicate (Z.to_nat n) 0)).
Proof.
  intros. apply store_confined; [done|rewrite lenZ_replicate; lia|].
  apply Forall_replicate. decide_now.
Qed.

Lemma bind_ret_confined {A B} (a : A) (k : A → Dec B) :
  Confined lo hi (k a) → Confined lo hi (mret a ≫= k).
Proof. done. Qed.

Lemma bind_then_confined {A B} (m : Dec ()) (a : A) (k : A → Dec B) :
  Confined lo hi (_ ← m; k a) → Confined lo hi ((_ ← m; mret a) ≫= k).
Proof. intros H s Hs H1 H2. rewrite bind_assoc. by apply H. Qed.

Lemma destination_confined {B} f p size alloc msg (k : Z → Dec B) :
  PB_ATYPE (type f) = PB_ATYPE_STATIC →
  (alloc <= data_size f → Confined lo hi (k p)) →
  Confined lo hi (destination pb_realloc f p size alloc msg ≫= k).
Proof.
  intros Ha Hk. unfold destination. rewrite Ha. cbn [Z.eqb PB_ATYPE_STATIC PB_ATYPE_POINTER].
  destruct (Z.ltb_spec (data_size f) alloc); [|by apply Hk].
  apply bind_confined_post; [apply _|]. by intros.
Qed.

Lemma dec_bytes_confined f p :
  PB_ATYPE (type f) = PB_ATYPE_STATIC → lo <= p → p + data_size f <= hi →
  Confined lo hi (pb_dec_bytes pb_realloc f p).
Proof.
  intros Ha Hp Hl. unfold pb_dec_bytes. apply varint32_confined. intros n Hn.
  apply if_confined; [apply _|]. unfold PB_BYTES_ARRAY_T_ALLOCSIZE, offsetof_bytes.
  rewrite (wrap_small 64) by mlia. apply if_confined; [apply _|].
  apply destination_confined; [done|]. intros Hle.
  apply bind_confined; [apply le_bytes_confined; lia || mlia|]. intros _.
  apply read_into_confined; mlia.
Qed.

Lemma dec_string_confined f p :
  PB_ATYPE (type f) = PB_ATYPE_STATIC → lo <= p → p + data_size f <= hi →
  Confined lo hi (pb_dec_string pb_realloc f p).
Proof.
  intros Ha Hp Hl. unfold pb_dec_string. apply varint32_confined. intros n Hn. cbv zeta.
  destruct (Z.ltb_spec (u32 (n + 1)) n); [apply _|].
  assert (u32 (n + 1) = n + 1) as -> by mlia.
  apply destination_confined; [done|]. intros Hle.
  apply bind_confined; [apply attempt_confined, read_into_confined; mlia|]. intros ok.
  apply bind_confined; [|intros; apply _].
  apply store_confined; [mlia|change (lenZ [0]) with 1; lia|decide_now].
Qed.

Lemma dec_fixed_length_bytes_confined f p :
  0 <= data_size f → lo <= p → p + data_size f <= hi → Confined lo hi (pb_dec_fixed_length_bytes f p).
Proof.
  intros H0 Hp Hl. unfold pb_dec_fixed_length_bytes. apply varint32_confined. intros n Hn.
  apply if_confined; [apply _|]. apply if_confined; [by apply zeros_confined|].
  apply if_confined; [apply _|by apply read_into_confined].
Qed.

Context (dec_submessage : pb_field → Z → Dec ()).

Lemma decoders_confined f p :
  field_ok f → PB_ATYPE (type f) = PB_ATYPE_STATIC → lo <= p → p + touched f <= hi →
  (PB_LTYPE (type f) = PB_LTYPE_SUBMESSAGE → Confined lo hi (dec_submessage f p)) →
  Confined lo hi (PB_DECODERS pb_realloc dec_submessage (PB_LTYPE (type f)) f p).
Proof.
  intros (_ & _ & [Hd _] & _) Ha Hp Hl Hsub. unfold PB_DECODERS, touched in *.
  destruct (_ =? PB_LTYPE_BOOL) eqn:E0.
  { apply bind_confined; [apply _|]. intros v. apply store_confined; [done| |by destruct (negb _); decide_now].
    by destruct (negb _); change (lenZ _) with 1. }
  destruct (_ =? PB_LTYPE_VARINT) eqn:E1.
  { bools. rewrite E1 in Hl. cbn in Hl. apply bind_confined; [apply _|]. intros v.
    apply bind_confined; [by apply store_clamped_confined|apply _]. }
  destruct (_ =? PB_LTYPE_UVARINT) eqn:E2.
  { bools. rewrite E2 in Hl. cbn in Hl. apply bind_confined; [apply _|]. intros v.
    apply bind_confined; [by apply store_clamped_confined|apply _]. }
  destruct (_ =? PB_LTYPE_SVARINT) eqn:E3.
  { bools. rewrite E3 in Hl. cbn in Hl. apply bind_confined; [apply _|]. intros v.
    apply bind_confined; [by apply store_clamped_confined|apply _]. }
  destruct (_ =? PB_LTYPE_FIXED32) eqn:E4.
  { apply bind_confined; [apply _|]. intros v. apply le_bytes_confined; lia. }
  destruct (_ =? PB_LTYPE_FIXED64) eqn:E5.
  { apply bind_confined; [apply _|]. intros v. apply le_bytes_confined; lia. }
  destruct (_ =? PB_LTYPE_BYTES); [by apply dec_bytes_confined|].
  destruct (_ =? PB_LTYPE_STRING); [by apply dec_string_confined|].
  destruct (Z.eqb_spec (PB_LTYPE (type f)) PB_LTYPE_SUBMESSAGE); [by apply Hsub|].
  destruct (_ =? PB_LTYPE_FIXED_LENGTH_BYTES); [by apply dec_fixed_length_bytes_confined|].
  intros s Hs _ _. by apply (changes_refl s).
Qed.
End values.

(** * Substreams *)

Section substreams.
Context {lo hi : Z}.

Lemma make_substream_within s :
  istream_ok s → within s (pb_make_string_substream s).2 ∧
  ∀ sub t, pb_make_string_substream s = (Some sub, t) →
    istream_ok sub ∧ istream_ok t ∧ ∀ sub', within sub sub' →
      within s {| is_state := is_state sub'; is_bytes_left := is_bytes_left t;
                  is_errmsg := is_errmsg sub' |}.
Proof.
  intros Hs. unfold pb_make_string_substream, mbind, M_bind.
  pose proof (reader_moves pb_decode_varint32 s Hs) as Hm.
  destruct (pb_decode_varint32 s) as [[size|] t] eqn:E; cbn [snd] in Hm; [|split; [by apply moves_within|done]].
  apply decode_varint32_fits in E; [|done]. pose proof (moves_ok _ _ Hs Hm) as Ht.
  destruct Hm as (n & Hn & Hst & Hl & _). unfold getS. destruct (Z.ltb_spec (is_bytes_left t) size).
  { split; [|done]. exists n, n. cbn. split_and!; lia || done. }
  unfold set_bytes_left, modifyS, mret, M_ret. split.
  { exists n, (n + size). cbn. split_and!; mlia || done. }
  intros sub t' [= <- <-]. destruct Ht as [Hok Hlt]. split.
  { split; [done|]. cbn. mlia. }
  split; [split; [done|]; cbn; mlia|].
  intros sub' (k & k' & Hk & Hk' & Hst' & Hl'). cbn in *. exists (n + k), (n + size). cbn.
  rewrite Hst', Hst, dropZ_dropZ by lia. split_and!; mlia || done.
Qed.

Lemma make_substream_confined : Confined lo hi (on_stream pb_make_string_substream).
Proof.
  intros s (Hs & Hmem & Hc) _ _. destruct (make_substream_within (ds_stream s) Hs) as [H _].
  unfold on_stream. destruct (pb_make_string_substream (ds_stream s)) as [r t]. cbn in H.
  split; [done|]. split; [done|]. split; [by eapply within_ok|done].
Qed.

(** A decoder on a substream, after which the parent is moved behind it. *)
Lemma substream_confined {A B} (m : pb_istream → Dec A) (bad : pb_istream → bool) msg
    (r : option A → Dec B) :
  (∀ sub, Confined lo hi (m sub)) → (∀ st, Confined lo hi (r st)) →
  Confined lo hi
    (sub ← on_stream pb_make_string_substream;
     '(st, sub') ← with_stream sub (m sub);
     if bad sub' then error msg
     else _ ← on_stream (pb_close_string_substream sub'); r st).
Proof.
  intros Hm Hr s (Hs & Hmem & Hc) Hlo Hhi.
  destruct (make_substream_within (ds_stream s) Hs) as [Hw Hsub].
  unfold mbind, M_bind. unfold on_stream at 1.
  destruct (pb_make_string_substream (ds_stream s)) as [[sub|] t]; cbn [snd] in Hw;
    [|split; [done|]; split; [done|]; split; [by eapply within_ok|done]].
  destruct (Hsub sub t eq_refl) as (Hsok & Htok & Hclose). clear Hsub.
  unfold with_stream. cbn [ds_stream ds_mem ds_count].
  set (s1 := {| ds_stream := sub; ds_mem := ds_mem s; ds_count := ds_count s |}).
  pose proof (Hm sub s1 ltac:(done) Hlo Hhi) as H1. destruct (m sub s1) as [st s2]. cbn [snd] in H1.
  destruct H1 as (Hw2 & Hmem2 & Hs2 & Hok2 & Hc2). cbn in Hw2, Hmem2.
  destruct (bad (ds_stream s2)).
  { split; [done|]. split; [done|]. split; [exact Htok|done]. }
  unfold on_stream, pb_close_string_substream. cbn [ds_stream ds_mem ds_count].
  assert (∃ o sub', (if negb (is_bytes_left (ds_stream s2) =? 0)
    then pb_read (is_bytes_left (ds_stream s2)) (ds_stream s2) else (Some [], ds_stream s2)) = (o, sub') ∧
    within sub sub' ∧ istream_ok sub') as (o & sub' & -> & Hw' & Hok').
  { destruct (negb _); [|by eexists _, _].
    pose proof (pb_read_reader (is_bytes_left (ds_stream s2)) (proj1 (proj2 Hs2)) _ Hs2) as Hmv.
    destruct (pb_read _ _) as [o sub']. cbn in Hmv. eexists _, _. split; [done|]. split.
    - eapply within_trans; [exact Hw2|by apply moves_within].
    - by eapply moves_ok. }
  destruct o as [x|]; [|split; [done|]; split; [done|]; split; [exact Htok|done]].
  set (s3 := {| ds_stream := {| is_state := is_state sub' |} |}).
  assert (changes lo hi s s3) as H3.
  { specialize (Hclose sub' Hw'). split; [done|]. split; [done|].
    split; [exact (within_ok _ _ Hs Hclose)|done]. }
  eapply changes_trans; [exact H3|]. destruct H3 as (_ & (Hl & _) & Hok3).
  apply Hr; [done|done|by rewrite Hl].
Qed.
End substreams.

(** * Default values *)

Section structures.
Context {D : Descriptors} (pb_realloc : bytes → Z → Z → Z * bytes) (pb_free : bytes → Z → bytes).
Context (callback_decode : Z → pb_field → Z → Dec ()) (type_decoder : Z → Z → Z → Z → Dec ()).
Context (lo hi : Z) (Hlo : 0 < lo).

Lemma for_fields_confined visit fields dest :
  dest ≠ NULL → (∀ i, (i < length fields)%nat → static_field (field_at fields i) = true) →
  (∀ i, (i < length fields)%nat → Confined lo hi (visit (iter_at fields dest i))) →
  Confined lo hi (for_fields visit fields dest).
Proof.
  intros Hd Ht Hv. unfold for_fields. rewrite iter_begin_at by done.
  destruct fields as [|f fs]; cbn [negb]; [apply _|].
  set (fields := f :: fs) in *. assert (0 < length fields)%nat as H0 by (cbn; lia).
  revert H0. generalize 0%nat as i. generalize (length fields) at 2 as fuel.
  induction fuel as [|fuel IH]; intros i Hi; cbn [for_fields_loop]; [apply _|].
  apply bind_confined; [by apply Hv|]. intros _. rewrite iter_next_at by done.
  destruct (Nat.ltb_spec (S i) (length fields)); [by apply IH|apply _].
Qed.

(** Where a field's data, and its has-field or count, are. *)
Lemma wf_places depth fields n dest i :
  wf_message depth fields n = true → lo <= dest → dest + n <= hi → (i < length fields)%nat →
  let f := field_at fields i in
  lo <= dest + data_at fields i ∧ dest + data_at fields i + extent f <= hi ∧
  (PB_HTYPE (type f) ≠ PB_HTYPE_REQUIRED →
   (PB_HTYPE (type f) = PB_HTYPE_OPTIONAL ∧ size_at fields i = data_at fields i) ∨
   (lo <= dest + size_at fields i ∧
    dest + size_at fields i + (if PB_HTYPE (type f) =? PB_HTYPE_OPTIONAL then 1 else 4) <= hi)).
Proof.
  intros Hwf Hl Hh Hi f. destruct (wf_message_inv _ _ _ Hwf) as (Hn & Ht & Hf).
  destruct (Hf i Hi) as (Hd & Hs & _). apply inside_inv in Hd. fold f in Hd.
  split; [lia|]. split; [lia|]. intros Hr. unfold size_inside in Hs. fold f in Hs.
  rewrite (proj2 (Z.eqb_neq _ _) Hr) in Hs.
  destruct (Z.eqb_spec (PB_HTYPE (type f)) PB_HTYPE_OPTIONAL).
  - apply orb_true_iff in Hs as [Hs|Hs]; [left; by bools|right]. apply inside_inv in Hs. lia.
  - right. apply inside_inv in Hs. lia.
Qed.

Lemma set_default_confined depth wfd fields n dest i :
  (∀ wfd fields n dest, wf_message wfd fields n = true → lo <= dest → dest + n <= hi →
     Confined lo hi (for_fields (pb_field_set_to_default depth) fields dest)) →
  wf_message wfd fields n = true → lo <= dest → dest + n <= hi → (i < length fields)%nat →
  Confined lo hi (pb_field_set_to_default (S depth) (iter_at fields dest i)).
Proof.
  intros IH Hwf Hl Hh Hi. pose proof (wf_places _ _ _ _ _ Hwf Hl Hh Hi) as (Hp & He & Hs). cbv zeta in *.
  destruct (wf_message_inv _ _ _ Hwf) as (Hn & Ht & Hf).
  destruct (static_field_inv _ (Ht i Hi)) as (Hok & _ & Ha & Hx & _).
  destruct (Hf i Hi) as (_ & _ & Hsub). cbn [pb_field_set_to_default].
  rewrite pos_iter_at, pData_iter_at, pSize_iter_at. set (f := field_at fields i) in *.
  rewrite (proj2 (Z.eqb_neq _ _) Hx), Ha. cbn [Z.eqb PB_ATYPE_STATIC].
  assert (PB_HTYPE (type f) ≠ PB_HTYPE_REPEATED → Confined lo hi
    (if PB_LTYPE (type f) =? PB_LTYPE_SUBMESSAGE
     then for_fields (pb_field_set_to_default depth) (fields_at (ptr f)) (dest + data_at fields i)
     else if negb (ptr f =? NULL)
     then m ← get_mem; store_at (dest + data_at fields i) (load m (ptr f) (data_size f))
     else store_at (dest + data_at fields i) (replicate (Z.to_nat (data_size f)) 0))) as Hinit.
  { intros Hr. rewrite extent_ge in He by done. destruct Hok as (_ & _ & [Hd _] & _).
    destruct (Z.eqb_spec (PB_LTYPE (type f)) PB_LTYPE_SUBMESSAGE) as [Hm|_].
    { destruct (Hsub Hm) as (d & -> & Hw). by eapply IH. }
    destruct (negb _); [|by apply zeros_confined].
    apply bind_confined_post; [apply _|]. intros s m s' (_ & Hmem & _) _ _ [= <- <-].
    apply store_confined; [done| |by apply load_ok].
    unfold load, takeZ, lenZ. rewrite length_take. lia. }
  destruct (Z.eqb_spec (PB_HTYPE (type f)) PB_HTYPE_REQUIRED) as [Hreq|Hreq].
  { rewrite Hreq. cbn. apply bind_ret_confined. rewrite Hreq in Hinit. by apply Hinit. }
  specialize (Hs Hreq).
  destruct (Z.eqb_spec (PB_HTYPE (type f)) PB_HTYPE_OPTIONAL) as [Ho|Ho].
  { rewrite Ho in *. cbn [andb orb].
    destruct (Z.eqb_spec (dest + size_at fields i) (dest + data_at fields i)) as [|Hne]; cbn [negb andb orb Z.eqb PB_HTYPE_OPTIONAL PB_HTYPE_REPEATED PB_HTYPE_ONEOF].
    - apply bind_ret_confined. by apply Hinit.
    - destruct Hs as [[_ Heq]|[Hs1 Hs2]]; [lia|]. apply bind_then_confined, bind_confined.
      + apply store_confined; [done|exact Hs2|decide_now].
      + intros _. by apply Hinit. }
  destruct Hs as [[Hs _]|[Hs1 Hs2]]; [done|]. cbn [andb].
  destruct (_ || _) eqn:E.
  - apply bind_then_confined, bind_confined; [by apply le_bytes_confined|apply _].
  - apply bind_ret_confined, Hinit. by bools.
Qed.

Lemma defaults_confined depth wfd fields n dest :
  wf_message wfd fields n = true → lo <= dest → dest + n <= hi →
  Confined lo hi (pb_message_set_to_defaults depth fields dest).
Proof.
  unfold pb_message_set_to_defaults. revert wfd fields n dest.
  induction depth as [|depth IH]; intros wfd fields n dest Hwf Hl Hh;
    (apply for_fields_confined; [unfold NULL; lia|by eapply wf_message_inv|]); intros i Hi.
  - apply ret0_confined.
  - by eapply set_default_confined.
Qed.

(** * Releasing static fields does nothing *)

Class Idle {A} (m : Dec A) : Prop := idle s : (m s).2 = s.

Lemma bind_idle {A B} (m : Dec A) (k : A → Dec B) : Idle m → (∀ a, Idle (k a)) → Idle (m ≫= k).
Proof.
  intros Hm Hk s. pose proof (Hm s) as H. unfold mbind, M_bind. destruct (m s) as [[a|] s']; cbn in H; subst; [apply Hk|done].
Qed.
Lemma idle_confined {A} (m : Dec A) : Idle m → Confined lo hi m.
Proof. intros Hm s Hs _ _. rewrite idle. by apply changes_refl. Qed.

Lemma for_fields_idle visit fields dest :
  dest ≠ NULL → (∀ i, (i < length fields)%nat → static_field (field_at fields i) = true) →
  (∀ i, (i < length fields)%nat → Idle (visit (iter_at fields dest i))) →
  Idle (for_fields visit fields dest).
Proof.
  intros Hd Ht Hv. unfold for_fields. rewrite iter_begin_at by done.
  destruct fields as [|f fs]; cbn [negb]; [done|].
  set (fields := f :: fs) in *. assert (0 < length fields)%nat as H0 by (cbn; lia).
  revert H0. generalize 0%nat as i. generalize (length fields) at 2 as fuel.
  induction fuel as [|fuel IH]; intros i Hi; cbn [for_fields_loop]; [done|].
  apply bind_idle; [by apply Hv|]. intros _. rewrite iter_next_at by done.
  destruct (Nat.ltb_spec (S i) (length fields)); [by apply IH|done].
Qed.

Lemma release_single_idle depth fuel wfd fields n dest i :
  (∀ wfd fields n dest, wf_message wfd fields n = true → Idle (pb_release pb_free depth fields dest)) →
  wf_message wfd fields n = true → (i < length fields)%nat →
  Idle (pb_release_single_field pb_free (pb_release pb_free depth) (S fuel) (iter_at fields dest i)).
Proof.
  intros IH Hwf Hi. destruct (wf_message_inv _ _ _ Hwf) as (Hn & Ht & Hf).
  destruct (static_field_inv _ (Ht i Hi)) as (_ & _ & Ha & Hx & _).
  destruct (Hf i Hi) as (_ & _ & Hsub). cbn [pb_release_single_field]. rewrite pos_iter_at.
  set (f := field_at fields i) in *. rewrite (proj2 (Z.eqb_neq _ _) Hx), Ha.
  cbn [Z.eqb PB_ATYPE_STATIC PB_ATYPE_POINTER PB_ATYPE_CALLBACK negb andb].
  apply bind_idle; [done|]. intros m. destruct (_ && _); [done|].
  apply bind_idle; [|done]. rewrite andb_true_r.
  destruct (Z.eqb_spec (PB_LTYPE (type f)) PB_LTYPE_SUBMESSAGE) as [Hm|]; [|done].
  destruct (Hsub Hm) as (d & -> & Hw). unfold release_submessages. rewrite pos_iter_at.
  apply bind_idle; [done|]. intros m'. cbv zeta. destruct (negb _); [|done].
  match goal with |- Idle (release_items _ _ _ ?p _) => generalize p end.
  match goal with |- context [release_items _ ?c _ _ _] => generalize c end.
  intros c. induction c as [|c IHc]; intros p; [done|].
  apply bind_idle; [by eapply IH|]. intros _. apply IHc.
Qed.

Lemma release_idle depth wfd fields n dest :
  wf_message wfd fields n = true → Idle (pb_release pb_free depth fields dest).
Proof.
  revert wfd fields n dest. induction depth as [|depth IH]; intros wfd fields n dest Hwf; [done|].
  cbn [pb_release]. destruct (Z.eqb_spec dest NULL); [done|].
  apply for_fields_idle; [done|by eapply wf_message_inv|]. intros i Hi. by eapply release_single_idle.
Qed.

(** * Fields *)

Section fields.
Context (dec_submessage : pb_field → Z → Dec ()) (depth calls : nat).

(** A submessage whose structure is in order. *)
Definition sub_ok (f : pb_field) : Prop :=
  PB_LTYPE (type f) = PB_LTYPE_SUBMESSAGE →
  ∃ d, wf_message d (fields_at (ptr f)) (data_size f) = true.

Context (Hdec : ∀ f p, PB_LTYPE (type f) = PB_LTYPE_SUBMESSAGE → sub_ok f →
  lo <= p → p + data_size f <= hi → Confined lo hi (dec_submessage f p)).

(** A static field with its data at [a]. *)
Definition fits_field (f : pb_field) (a : Z) : Prop :=
  field_ok f ∧ PB_ATYPE (type f) = PB_ATYPE_STATIC ∧ sub_ok f ∧ lo <= a ∧
  if PB_HTYPE (type f) =? PB_HTYPE_REPEATED
  then touched f <= data_size f ∧ data_size f * array_size f < 2 ^ 32 ∧
    a + data_size f * array_size f <= hi
  else a + touched f <= hi.

(** A place for the has-field or the count. *)
Definition fits_size (f : pb_field) (a : Z) (size : size_ptr) : Prop :=
  match size with
  | SizeLocal => True
  | SizeAt p =>
      PB_HTYPE (type f) = PB_HTYPE_REQUIRED ∨
      (PB_HTYPE (type f) = PB_HTYPE_OPTIONAL ∧ p = a) ∨
      (lo <= p ∧ p + (if PB_HTYPE (type f) =? PB_HTYPE_OPTIONAL then 1 else 4) <= hi)
  end.

Lemma item_confined f p :
  field_ok f → PB_ATYPE (type f) = PB_ATYPE_STATIC → sub_ok f → lo <= p → p + touched f <= hi →
  Confined lo hi (PB_DECODERS pb_realloc dec_submessage (PB_LTYPE (type f)) f p).
Proof.
  intros Hok Ha Hs Hp Hl. apply decoders_confined; try done. intros Hm. apply Hdec; try done.
  by rewrite <-touched_submessage.
Qed.

Lemma set_local_confined n : Confined lo hi (set_size SizeLocal n).
Proof.
  intros s (Hs & Hm & Hc) _ _. split; [apply within_refl, Hs|]. split; [done|].
  split; [done|]. split; [done|]. apply (wrap_fits 32). lia.
Qed.

Lemma set_size_confined p n :
  match p with SizeAt p => lo <= p ∧ p + 4 <= hi | SizeLocal => True end → Confined lo hi (set_size p n).
Proof. destruct p as [p|]; [intros [??]; by apply le_bytes_confined|intros _; apply set_local_confined]. Qed.

Lemma get_size_post {B} p (k : Z → Dec B) :
  (∀ n, 0 <= n → Confined lo hi (k n)) → Confined lo hi (get_size p ≫= k).
Proof.
  intros Hk. apply bind_confined_post; [apply _|]. intros s n s' (_ & Hm & Hc) _ _ [= <- <-].
  apply Hk. destruct p; [|done]. by apply (load_le _ Hm _ 4 32).
Qed.

(** The items of an array. *)
Lemma array_item f a n :
  fits_field f a → PB_HTYPE (type f) = PB_HTYPE_REPEATED → 0 <= n < array_size f →
  lo <= a + u32 (data_size f * n) ∧ a + u32 (data_size f * n) + touched f <= hi.
Proof.
  intros ((_ & _ & [Hd _] & _) & _ & _ & Ha & H) Hr Hn. rewrite Hr in H. cbn in H.
  destruct H as (Ht & H32 & Hh). change (2 ^ 32) with 4294967296 in H32.
  assert (0 <= data_size f * n <= data_size f * (array_size f - 1)) by nia.
  rewrite wrap_small by mlia. lia.
Qed.

Lemma packed_loop_confined fuel f a size :
  fits_field f a → PB_HTYPE (type f) = PB_HTYPE_REPEATED → fits_size f a size →
  Confined lo hi (packed_loop fuel (PB_DECODERS pb_realloc dec_submessage (PB_LTYPE (type f)) f) a
    (data_size f) size (array_size f)).
Proof.
  intros Hf Hr Hs. assert (∀ n, Confined lo hi (set_size size n)) as Hset.
  { intros n. apply set_size_confined. destruct size; [|done].
    unfold fits_size in Hs. rewrite Hr in Hs. cbn in Hs. naive_solver. }
  induction fuel as [|fuel IH]; cbn [packed_loop]; [apply _|].
  apply bind_confined; [apply _|]. intros stream. apply get_size_post. intros n Hn.
  destruct (_ && _) eqn:E; [|apply _]. bools. destruct (array_item f a n Hf Hr) as [H1 H2]; [lia|].
  apply bind_confined.
  - apply attempt_confined. destruct Hf as (?&?&?&_). by apply item_confined.
  - intros ok. apply if_confined; [|apply _]. apply bind_confined; [apply _|]. intros n'.
    apply bind_confined; [apply Hset|]. intros _. apply IH.
Qed.

Lemma decode_static_confined wt it size :
  fits_field (pos it) (pData it) → fits_size (pos it) (pData it) size →
  Confined lo hi (decode_static_field pb_realloc dec_submessage depth wt it size).
Proof.
  intros Hf Hs. unfold decode_static_field. pose proof Hf as (Hok & Ha & Hsub & Hp & He).
  set (f := pos it) in *. set (a := pData it) in *.
  destruct (Z.eqb_spec (PB_HTYPE (type f)) PB_HTYPE_REQUIRED) as [Hq|Hq].
  { rewrite Hq in He. by apply item_confined. }
  destruct (Z.eqb_spec (PB_HTYPE (type f)) PB_HTYPE_OPTIONAL) as [Ho|Ho].
  { rewrite Ho in He. cbn in He. apply bind_confined; [|intros _; by apply item_confined].
    destruct size as [p|]; [|apply set_local_confined]. unfold fits_size in Hs.
    destruct (Z.eqb_spec p a); cbn [negb]; [apply _|]. rewrite Ho in Hs. cbn in Hs.
    apply store_confined; [naive_solver| |decide_now]. change (lenZ [1]) with 1. naive_solver. }
  assert (∀ n, Confined lo hi (set_size size n)) as Hset.
  { intros n. apply set_size_confined. destruct size; [|done]. unfold fits_size in Hs.
    rewrite (proj2 (Z.eqb_neq _ _) Ho) in Hs. naive_solver. }
  destruct (Z.eqb_spec (PB_HTYPE (type f)) PB_HTYPE_REPEATED) as [Hr|Hr].
  - destruct (_ && _).
    + apply (substream_confined (λ sub, packed_loop (S (Z.to_nat (is_bytes_left sub)))
        (PB_DECODERS pb_realloc dec_submessage (PB_LTYPE (type f)) f) a (data_size f) size (array_size f))
        (λ sub, negb (is_bytes_left sub =? 0)) _ (λ st, if default false st then mret () else ret0)).
      * intros sub. by apply packed_loop_confined.
      * intros st. apply _.
    + apply get_size_post. intros n Hn. apply bind_confined; [apply Hset|]. intros _.
      destruct (Z.leb_spec (array_size f) n); [apply _|].
      destruct (array_item f a n Hf Hr) as [H1 H2]; [lia|]. by apply item_confined.
  - apply bind_confined; [apply _|]. intros which. apply bind_confined.
    + destruct (Z.eqb_spec (PB_LTYPE (type f)) PB_LTYPE_SUBMESSAGE) as [Hm|]; cbn [andb]; [|apply _].
      apply if_confined; [|apply _]. rewrite touched_submessage in He by done.
      destruct Hok as (_ & _ & [Hd _] & _). apply bind_confined; [by apply zeros_confined|]. intros _.
      destruct (Hsub Hm) as [d Hw]. by eapply defaults_confined.
    + intros _. apply bind_confined; [apply Hset|]. intros _. by apply item_confined.
Qed.

(** ** The fields of one message *)

Section message.
Context (wfd : nat) (fields : list pb_field) (n dest : Z).
Context (Hwf : wf_message wfd fields n = true) (Hl : lo <= dest) (Hh : dest + n <= hi).

Lemma dest_positive : 0 < dest.
Proof. lia. Qed.

Lemma place_fits i :
  valid_place fields i →
  fits_field (field_at fields i) (dest + data_at fields i) ∧
  fits_size (field_at fields i) (dest + data_at fields i) (SizeAt (dest + size_at fields i)).
Proof.
  intros [Hi|[-> ->]].
  - destruct (wf_places _ _ _ _ _ Hwf Hl Hh Hi) as (Hp & He & Hs).
    destruct (wf_message_inv _ _ _ Hwf) as (_ & Ht & Hf).
    destruct (static_field_inv _ (Ht i Hi)) as (Hok & _ & Ha & _ & Htd & H32).
    destruct (Hf i Hi) as (_ & _ & Hsub). set (f := field_at fields i) in *.
    assert (sub_ok f) as Hso.
    { intros Hm. destruct (Hsub Hm) as (d & _ & Hw). by exists d. }
    split.
    + split; [done|]. split; [done|]. split; [done|]. split; [done|].
      unfold extent in *. destruct (PB_HTYPE (type f) =? PB_HTYPE_REPEATED); lia.
    + unfold fits_size. destruct (Z.eqb_spec (PB_HTYPE (type f)) PB_HTYPE_REQUIRED) as [|Hq]; [by left|].
      destruct (Hs Hq) as [[Ho ->]|?]; [by right; left|by right; right].
  - destruct (wf_message_inv _ _ _ Hwf) as (Hn & _ & _).
    change (field_at [] 0) with PB_LAST_FIELD. change (data_at [] 0) with 0. rewrite Z.add_0_r. split.
    + split; [decide_now|]. split; [done|]. split; [by intros ?|]. split; [done|].
      change (dest + 1 <= hi). lia.
    + by left.
Qed.

Lemma place_static i : valid_place fields i → PB_ATYPE (type (field_at fields i)) = PB_ATYPE_STATIC.
Proof. intros Hi. by apply place_fits in Hi as [(_ & ? & _) _]. Qed.

Lemma union_yields it :
  (at_place fields dest) it → PB_HTYPE (type (pos it)) = PB_HTYPE_ONEOF →
  Yields (lo := lo) (hi := hi) (at_place fields dest) (pb_release_union_field pb_free depth it).
Proof.
  intros Hit Ho. assert (fields ≠ []) as Hne.
  { intros Hnil. destruct Hit as (i & [Hi|[_ ->]] & Heq); [rewrite Hnil in Hi; cbn in Hi; lia|].
    by rewrite Heq, pos_iter_at, Hnil in Ho. }
  unfold pb_release_union_field. eapply result_bind; [apply yields_any, _|]. intros m _. cbv zeta.
  apply yields_if; [by apply result_ret|]. apply yields_if; [by apply result_ret|].
  destruct (find_at _ _ _ _ Hwf dest_positive it (load_size m (pSize it)) Hit) as (j & b & -> & Hj).
  destruct b; cbn [negb]; [|by apply yields_fails; [apply _|]].
  assert (at_place fields dest (iter_at fields dest j)) as Hj' by by exists j.
  destruct (find_at _ _ _ _ Hwf dest_positive _ (tag (pos it)) Hj') as (j2 & b2 & -> & Hj2).
  eapply result_bind.
  - apply yields_any, idle_confined. destruct Hj as [Hj|[? _]]; [|done].
    eapply release_single_idle; [|exact Hwf|done]. intros. by eapply release_idle.
  - intros _ _. destruct b2; cbn [negb]; [|by apply yields_fails; [apply _|]].
    rewrite pos_iter_at, place_static by done. cbn [Z.eqb PB_ATYPE_STATIC PB_ATYPE_POINTER].
    eapply result_bind; [apply yields_any, _|]. intros _ _. apply result_ret. by exists j2.
Qed.

Lemma field_confined wt it size :
  (at_place fields dest) it →
  match size with SizeAt p => p = pSize it | SizeLocal => PB_HTYPE (type (pos it)) = PB_HTYPE_REPEATED end →
  Confined lo hi (decode_field pb_realloc pb_free callback_decode dec_submessage depth calls wt it size).
Proof.
  intros Hit Hsize. unfold decode_field.
  assert (∀ it', at_place fields dest it' → fits_size (pos it') (pData it') size → Confined lo hi
    (if PB_ATYPE (type (pos it')) =? PB_ATYPE_STATIC
     then decode_static_field pb_realloc dec_submessage depth wt it' size
     else if PB_ATYPE (type (pos it')) =? PB_ATYPE_POINTER
     then decode_pointer_field pb_realloc pb_free dec_submessage depth wt it' size
     else if PB_ATYPE (type (pos it')) =? PB_ATYPE_CALLBACK
     then decode_callback_field callback_decode calls wt it' else error "invalid field type")) as Hst.
  { intros it' (j & Hj & ->) Hs. rewrite pos_iter_at, pData_iter_at in *. rewrite place_static by done.
    cbn [Z.eqb PB_ATYPE_STATIC]. apply decode_static_confined.
    - rewrite pos_iter_at, pData_iter_at. by apply place_fits.
    - by rewrite pos_iter_at, pData_iter_at. }
  destruct (Z.eqb_spec (PB_HTYPE (type (pos it))) PB_HTYPE_ONEOF) as [Ho|Ho].
  - destruct size as [p|]; [|by rewrite Ho in Hsize]. subst p.
    assert (lo <= pSize it ∧ pSize it + 4 <= hi) as Hp.
    { destruct Hit as (i & Hi & ->). rewrite pos_iter_at in Ho. rewrite pSize_iter_at.
      destruct (proj2 (place_fits i Hi)) as [Hp|[[Hp _]|Hp]]; rewrite Ho in Hp; done. }
    pose proof (union_yields it Hit Ho) as Hu.
    refine (proj1 (result_bind (at_place fields dest) (λ _, True) _ _ Hu (λ it' Hit', yields_any _ (Hst it' Hit' _)))).
    right. right. destruct (_ =? _); lia.
  - apply bind_ret_confined. apply Hst; [done|]. destruct Hit as (i & Hi & ->).
    rewrite pos_iter_at, pData_iter_at. destruct size as [p|]; [|done]. subst p.
    rewrite pSize_iter_at. by apply place_fits.
Qed.

Definition locals_ok (l : locals) : Prop := (at_place fields dest) (iter l).

Lemma unknown_yields wt wanted l :
  locals_ok l → wanted < 2 ^ 29 →
  Yields (lo := lo) (hi := hi) locals_ok
    (decode_unknown pb_realloc pb_free callback_decode type_decoder dec_submessage depth calls wt wanted l).
Proof.
  intros Hl' Hw. change (2 ^ 29) with 536870912 in Hw. unfold decode_unknown.
  assert (∀ l, locals_ok l → Yields (lo := lo) (hi := hi) locals_ok
    (_ ← on_stream (pb_skip_field wt); mret l)) as Hskip.
  { intros l1 H1. eapply result_bind; [apply yields_any, _|]. intros _ _. by apply result_ret. }
  apply yields_if; [|by apply Hskip].
  destruct (find_extension_at _ _ _ _ Hwf dest_positive (iter l) Hl') as (j & -> & Hj). cbv zeta.
  assert ((u32 (-1) <=? wanted) = false) as -> by (apply Z.leb_gt; mlia).
  apply Hskip. by exists j.
Qed.

Lemma check_fixed_confined fs l : Confined lo hi (check_fixed_count fs l).
Proof.
  intros s Hs H1 H2. unfold check_fixed_count.
  destruct (fixed_count_field l) as [i|]; [|by apply (changes_refl s)].
  destruct (negb _); [by apply error_confined|by apply (changes_refl s)].
Qed.

Lemma set_count_confined n0 : 0 <= n0 → Confined lo hi (set_count n0).
Proof.
  intros Hn s (Hs & Hm & Hc) _ _. split; [apply within_refl, Hs|]. by split.
Qed.

Lemma known_yields wt l :
  locals_ok l →
  Yields (lo := lo) (hi := hi) locals_ok
    (decode_known pb_realloc pb_free callback_decode dec_submessage depth calls wt l).
Proof.
  intros Hit. unfold decode_known. cbv zeta.
  set (fixed := (PB_HTYPE (type (pos (iter l))) =? PB_HTYPE_REPEATED) && (pSize (iter l) =? pData (iter l))).
  eapply (result_bind (λ l', True)).
  - apply yields_any. apply if_confined; [|apply _].
    apply bind_confined; [apply check_fixed_confined|]. intros _.
    apply bind_confined; [by apply set_count_confined|apply _].
  - intros l' _. eapply result_bind.
    + apply yields_any, field_confined; [done|]. destruct fixed eqn:E; [|done].
      subst fixed. by bools.
    + intros _ _. apply result_ret. exact Hit.
Qed.

Lemma one_yields wt wanted l :
  locals_ok l → wanted < 2 ^ 29 →
  Yields (lo := lo) (hi := hi) locals_ok
    (decode_one pb_realloc pb_free callback_decode type_decoder dec_submessage depth calls wt wanted l).
Proof.
  intros Hl' Hw. unfold decode_one. destruct (find_at _ _ _ _ Hwf dest_positive (iter l) wanted Hl') as (j & b & -> & Hj).
  cbv zeta. apply yields_if; [apply unknown_yields|apply known_yields]; try done; by exists j.
Qed.

Lemma loop_yields fuel l :
  locals_ok l →
  Yields (lo := lo) (hi := hi) locals_ok
    (decode_loop pb_realloc pb_free callback_decode type_decoder dec_submessage depth fuel calls l).
Proof.
  revert l. induction fuel as [|fuel IH]; intros l Hl'; cbn [decode_loop].
  { apply yields_fails; [apply _|done]. }
  eapply result_bind; [apply yields_any, _|]. intros stream _.
  apply yields_if; [by apply result_ret|].
  assert (∀ wt wanted, wanted < 2 ^ 29 → Yields (lo := lo) (hi := hi) locals_ok
    (l ← decode_one pb_realloc pb_free callback_decode type_decoder dec_submessage depth calls wt wanted l;
     decode_loop pb_realloc pb_free callback_decode type_decoder dec_submessage depth fuel calls l)) as Hk.
  { intros wt wanted Hw. eapply result_bind; [by apply one_yields|]. intros l' H'. by apply IH. }
  assert (∀ s, dstate_ok s → ∀ t, moves (ds_stream s) t →
    changes lo hi s {| ds_stream := t; ds_mem := ds_mem s; ds_count := ds_count s |}) as Hch.
  { intros s (Hs & Hm & Hc) t Ht. split; [by apply moves_within|]. split; [done|].
    split; [exact (moves_ok _ _ Hs Ht)|done]. }
  split.
  - intros s Hs H1 H2. pose proof (decode_tag_moves (ds_stream s) (proj1 Hs)) as Ht.
    destruct (pb_decode_tag (ds_stream s)) as [[[[wt wanted]|] eof] t]; destruct Ht as [Ht Hw];
      specialize (Hch s Hs t Ht).
    + eapply changes_trans; [exact Hch|]. by apply (proj1 (Hk wt wanted Hw) _ (proj2 (proj2 Hch))).
    + by destruct eof.
  - intros s l' s' Hs H1 H2. pose proof (decode_tag_moves (ds_stream s) (proj1 Hs)) as Ht.
    destruct (pb_decode_tag (ds_stream s)) as [[[[wt wanted]|] eof] t]; destruct Ht as [Ht Hw];
      specialize (Hch s Hs t Ht).
    + intros E. by apply (proj2 (Hk wt wanted Hw) _ _ _ (proj2 (proj2 Hch)) H1 H2 E).
    + destruct eof; [by intros [= <- <-]|done].
Qed.

Lemma decode_noinit_confined :
  Confined lo hi (decode_noinit pb_realloc pb_free callback_decode type_decoder dec_submessage depth
    calls fields dest).
Proof.
  unfold decode_noinit. apply bind_confined; [apply _|]. intros stream.
  refine (proj1 (result_bind locals_ok (λ _, True) _ _ (loop_yields _ _ _) (λ l _, yields_any _ _))).
  - unfold locals_ok. cbn [iter]. destruct (wf_message_inv _ _ _ Hwf) as (_ & Ht & _).
    rewrite iter_begin_at by (done || (unfold NULL; lia)). exists 0%nat. split; [|done].
    destruct fields; [by right|left; cbn; lia].
  - apply bind_confined; [apply check_fixed_confined|]. intros _. apply _.
Qed.
End message.
End fields.

(** * Messages *)

Lemma own_count_confined {A} (m : Dec A) : Confined lo hi m → Confined lo hi (own_count m).
Proof.
  intros Hm s (Hs & Hmem & Hc) H1 H2. unfold own_count.
  set (s0 := {| ds_stream := ds_stream s; ds_mem := ds_mem s; ds_count := 0 |}).
  pose proof (Hm s0 ltac:(done) H1 H2) as H. destruct (m s0) as [r s']. cbn in H.
  destruct H as (Hw & Ho & Hs' & Hm' & _). by split.
Qed.

Lemma delimited_confined (m : Dec ()) : Confined lo hi m → Confined lo hi (delimited m).
Proof.
  intros Hm. exact (substream_confined (λ _, m) (λ _, false) "" liftO (λ _, Hm) (λ _, _)).
Qed.

Section nested.
Context (noinit : list pb_field → Z → Dec ()) (depth : nat).
Context (Hnoinit : ∀ wfd fields n dest, wf_message wfd fields n = true → lo <= dest → dest + n <= hi →
  Confined lo hi (noinit fields dest)).

Lemma decode_or_release_confined wfd fields n dest :
  wf_message wfd fields n = true → lo <= dest → dest + n <= hi →
  Confined lo hi (decode_or_release pb_free noinit depth fields dest).
Proof.
  intros Hwf Hl Hh. unfold decode_or_release.
  apply bind_confined; [by eapply defaults_confined|]. intros _.
  apply bind_confined; [apply attempt_confined; by eapply Hnoinit|]. intros ok.
  apply if_confined; [apply _|]. apply bind_confined; [|intros; apply _].
  apply idle_confined. by eapply release_idle.
Qed.

Lemma dec_submessage_confined f p :
  PB_LTYPE (type f) = PB_LTYPE_SUBMESSAGE → sub_ok f → lo <= p → p + data_size f <= hi →
  Confined lo hi (pb_dec_submessage pb_free noinit depth f p).
Proof.
  intros Hm Hs Hp Hh. destruct (Hs Hm) as [d Hwf]. unfold pb_dec_submessage.
  destruct (ptr f =? NULL).
  { apply bind_confined; [apply make_substream_confined|]. intros _. apply _. }
  apply (substream_confined (λ _, if PB_HTYPE (type f) =? PB_HTYPE_REPEATED
    then decode_or_release pb_free noinit depth (fields_at (ptr f)) p
    else noinit (fields_at (ptr f)) p) (λ _, false) "" liftO); [|intros; apply _].
  intros _. apply if_confined; [by eapply decode_or_release_confined|by eapply Hnoinit].
Qed.
End nested.

Lemma noinit_confined calls depth wfd fields n dest :
  wf_message wfd fields n = true → lo <= dest → dest + n <= hi →
  Confined lo hi (pb_decode_noinit pb_realloc pb_free callback_decode type_decoder calls depth fields dest).
Proof.
  revert wfd fields n dest. induction depth as [|depth IH]; intros wfd fields n dest Hwf Hl Hh;
    cbn [pb_decode_noinit]; [apply ret0_confined|].
  apply own_count_confined. eapply decode_noinit_confined; [|exact Hwf|done|done].
  intros f p Hm Hs Hp Hp'. by apply dec_submessage_confined.
Qed.
End structures.

(** C3. Decoding is memory safe on static messages.  Let the layout of a message and its
    submessages fit [n] bytes (every field, has-field and count inside).  Whatever
    the bytes of the input are and whatever was in memory, all ways of decoding into the
    structure at [dest] change no byte of memory outside it, also when they fail, and the stream
    never moves beyond its limit. *)
Theorem decode_safe {D : Descriptors} pb_realloc pb_free callback_decode type_decoder calls depth
    wfd fields n dest :
  wf_message wfd fields n = true → 0 < dest →
  let confined m := Confined dest (dest + n) (m pb_realloc pb_free callback_decode type_decoder calls
    depth fields dest : Dec ()) in
  confined (@pb_decode D) ∧ confined (@pb_decode_noinit D) ∧ confined (@pb_decode_delimited D) ∧
  confined (@pb_decode_delimited_noinit D) ∧ confined (@pb_decode_nullterminated D).
Proof.
  intros Hwf Hd confined. subst confined. cbv beta.
  assert (Confined dest (dest + n) (pb_decode_noinit pb_realloc pb_free callback_decode type_decoder
    calls depth fields dest)) as H1 by (eapply noinit_confined; [done|exact Hwf|lia|lia]).
  assert (Confined dest (dest + n) (pb_decode pb_realloc pb_free callback_decode type_decoder
    calls depth fields dest)) as H2.
  { eapply (decode_or_release_confined pb_realloc pb_free callback_decode type_decoder);
      [done| |exact Hwf|lia|lia].
    intros wfd' fields' n' dest' Hwf' Hl' Hh'. by eapply noinit_confined. }
  split_and!; try done; by apply delimited_confined.
Qed.

(** A message of 20 bytes: a number, an optional string of 4 bytes with its has-field, a counted
    array of two numbers. *)
Definition safety_fields : list pb_field :=
  [{| tag := 1; type := 0x01; data_offset := 0; size_offset := 0; data_size := 4; array_size := 0;
      ptr := 0 |};
   {| tag := 2; type := 0x17; data_offset := 1; size_offset := -1; data_size := 4; array_size := 0;
      ptr := 0 |};
   {| tag := 3; type := 0x24; data_offset := 4; size_offset := -4; data_size := 4; array_size := 2;
      ptr := 0 |}].

Lemma decode_safe_witness :
  let s := {| ds_stream := pb_istream_from_buffer [8; 1; 18; 2; 104; 105; 26; 12; 1; 0; 0; 0] 12;
              ds_mem := replicate 40 7; ds_count := 0 |} in
  dropZ 29 (ds_mem (pb_decode (D := λ _, []) (λ m _ _, (0, m)) (λ m _, m) (λ _ _ _, ret0)
    (λ _ _ _ _, ret0) 0 2 safety_fields 8 s).2) = replicate 11 7.
Proof.
  intros s.
  assert (wf_message (D := λ _, []) 1 safety_fields 21 = true) as H1 by (vm_compute; reflexivity).
  assert (0 < 8) as H2 by reflexivity. assert (dstate_ok s) as H3 by decide_now.
  assert (0 <= 8) as H4 by decide_now. assert (8 + 21 <= lenZ (ds_mem s)) as H5 by decide_now.
  destruct (proj1 (decode_safe (D := λ _, []) (λ m _ _, (0, m)) (λ m _, m) (λ _ _ _, ret0)
    (λ _ _ _ _, ret0) 0 2 1 safety_fields 21 8 H1 H2) s H3 H4 H5) as (_ & (_ & _ & H) & _).
  exact H.
Defined.

(** The count of an array without a count is reset all the same: decoding an empty input into
    a structure that is one byte, an array of one bool, clears the three bytes
    behind it. *)
Theorem fixed_count_default_overruns :
  let f := {| tag := 1; type := 0x20; data_offset := 0; size_offset := 0; data_size := 1;
              array_size := 1; ptr := 0 |} in
  let s := {| ds_stream := pb_istream_from_buffer [] 0; ds_mem := replicate 16 7; ds_count := 0 |} in
  let '(r, s') := pb_decode (D := λ _, []) (λ m _ _, (0, m)) (λ m _, m) (λ _ _ _, ret0)
    (λ _ _ _ _, ret0) 0 1 [f] 8 s in
  r = Some () ∧ takeZ 4 (dropZ 8 (ds_mem s')) = [0; 0; 0; 0] ∧ extent f = 1.
Proof. vm_compute. done. Qed.
