(* ===== verification/PbTotal.v ===== *)
(** The decoder of pb_decode.c always returns, and says why when it fails: on static messages every
    failure sets one of the code's error messages, so that it is never
    the model that has run out of turns or of depth. *)
From stdpp Require Import strings.
From S2P Require Import Prelude PbWire PbRead PbField PbDecode PbLayout PbSafety.

Open Scope Z_scope.

(** * Computations that report their failures

    From stream [s] to [s']: nothing is read twice, [k] bytes at least are read on
    success, an error message stays one, and a failure leaves one. *)

Class HasStream (S : Type) := stream_of : S → pb_istream.
#[export] Instance istream_has_stream : HasStream pb_istream := λ s, s.
#[export] Instance dstate_has_stream : HasStream dstate := ds_stream.

Definition reported {A} (k : Z) (r : option A) (s s' : pb_istream) : Prop :=
  within s s' ∧
  match r with Some _ => is_bytes_left s' + k <= is_bytes_left s | None => is_errmsg s' ≠ None end ∧
  (is_errmsg s ≠ None → is_errmsg s' ≠ None).

Class Loud {S} `{HasStream S} (k : Z) {A} (m : M S A) : Prop :=
  loud s : istream_ok (stream_of s) → reported k (m s).1 (stream_of s) (stream_of (m s).2).
#[global] Hint Mode Loud ! ! ! ! ! : typeclass_instances.

(** What is known of the results, from any state. *)
Definition Returns {S A} (P : A → Prop) (m : M S A) : Prop := ∀ s a s', m s = (Some a, s') → P a.

Lemma reported_refl {A} (a : A) s : istream_ok s → reported 0 (Some a) s s.
Proof. intros [_ H]. split; [apply within_refl; lia|]. split; [lia|done]. Qed.

Lemma reported_ok {A} k (r : option A) s s' : istream_ok s → reported k r s s' → istream_ok s'.
Proof. intros Hs [H _]. by eapply within_ok. Qed.

Lemma reported_none {A B} j k s s' : reported j (@None A) s s' → reported k (@None B) s s'.
Proof. done. Qed.

Lemma reported_trans {A B} j k (a : A) (r : option B) s1 s2 s3 :
  reported j (Some a) s1 s2 → reported k r s2 s3 → reported (j + k) r s1 s3.
Proof.
  intros (H1 & L1 & E1) (H2 & L2 & E2). split; [by eapply within_trans|].
  split; [destruct r; [lia|done]|auto].
Qed.

Section loud.
Context {S : Type} `{HasStream S}.

#[export] Instance ret_loud {A} (a : A) : Loud 0 (mret a : M S A).
Proof. intros s Hs. by apply reported_refl. Qed.

Lemma loud_bind_post {A B} j k (Q : A → Prop) (m : M S A) (f : A → M S B) :
  Loud j m → Returns Q m → (∀ a, Q a → Loud k (f a)) → Loud (j + k) (m ≫= f).
Proof.
  intros Hm HQ Hf s Hs. specialize (Hm s Hs). unfold mbind, M_bind.
  destruct (m s) as [[a|] s'] eqn:E; cbn [fst snd] in *; [|done].
  eapply reported_trans; [exact Hm|]. apply Hf; [by eapply HQ|by eapply reported_ok].
Qed.
Lemma returns_any {A} (m : M S A) : Returns (λ _, True) m.
Proof. by intros ? ? ? ?. Qed.

#[export] Instance bind_loud {A B} (m : M S A) (f : A → M S B) :
  Loud 0 m → (∀ a, Loud 0 (f a)) → Loud 0 (m ≫= f).
Proof.
  intros Hm Hf. apply (loud_bind_post 0 0 (λ _, True)); [done|apply returns_any|].
  intros a _. apply Hf.
Qed.
(** The first step eats. *)
Lemma eats_bind {A B} (m : M S A) (f : A → M S B) : Loud 1 m → (∀ a, Loud 0 (f a)) → Loud 1 (m ≫= f).
Proof.
  intros Hm Hf. apply (loud_bind_post 1 0 (λ _, True)); [done|apply returns_any|].
  intros a _. apply Hf.
Qed.
Lemma then_eats {A B} (m : M S A) (f : A → M S B) : Loud 0 m → (∀ a, Loud 1 (f a)) → Loud 1 (m ≫= f).
Proof.
  intros Hm Hf. apply (loud_bind_post 0 1 (λ _, True)); [done|apply returns_any|].
  intros a _. apply Hf.
Qed.
Lemma loud_weaken {A} j (m : M S A) : 0 <= j → Loud j m → Loud 0 m.
Proof.
  intros Hj Hm s Hs. destruct (Hm s Hs) as (H1 & L1 & E1). split; [done|]. split; [|done].
  destruct ((m s).1); [lia|done].
Qed.
Lemma loud_if {A} k (b : bool) (m1 m2 : M S A) : Loud k m1 → Loud k m2 → Loud k (if b then m1 else m2).
Proof. by destruct b. Qed.
#[export] Instance if_loud {A} (b : bool) (m1 m2 : M S A) :
  Loud 0 m1 → Loud 0 m2 → Loud 0 (if b then m1 else m2).
Proof. by destruct b. Qed.
Lemma ret_bind_loud {A B} k (a : A) (f : A → M S B) : Loud k (f a) → Loud k (mret a ≫= f).
Proof. done. Qed.
End loud.

(** * Readers *)

(** A reader of the class [Reader] keeps the stream in order; what is left is its failures. *)
Lemma reader_loud {A} k (m : M pb_istream A) :
  Reader m →
  (∀ s, istream_ok s → (m s).1 = None → is_errmsg (m s).2 ≠ None) →
  (∀ s a s', istream_ok s → m s = (Some a, s') → is_bytes_left s' + k <= is_bytes_left s) →
  Loud k m.
Proof.
  intros Hr Hn Hk s Hs. pose proof (reader_moves m s Hs) as Hm. specialize (Hn s Hs).
  specialize (Hk s). unfold stream_of, istream_has_stream. destruct (m s) as [r s']. cbn [fst snd] in *.
  split; [by apply moves_within|]. split; [destruct r as [a|]; [exact (Hk a s' Hs eq_refl)|auto]|].
  destruct Hm as (n & _ & _ & _ & [->| ->]); done.
Qed.

#[export] Instance in_error_loud {A} k msg : Loud k (@in_error A msg).
Proof.
  unfold stream_of, istream_has_stream. intros s [_ Hs]. split; [exact (within_refl s (proj1 Hs))|].
  by split; [|intros ?].
Qed.

#[export] Instance getS_loud : Loud 0 (getS : M pb_istream pb_istream).
Proof. intros s Hs. by apply reported_refl. Qed.

Lemma read_loud n : 0 <= n → Loud n (pb_read n).
Proof.
  intros Hn. apply reader_loud; [by apply pb_read_reader|..]; intros s.
  - intros Hs. apply (istream_run s); [done|]. intros l t e _ _. rewrite read_eq by done.
    by destruct (n <=? lenZ l).
  - intros a s' Hs. apply (istream_run s); [done|]. intros l t e _ _. rewrite read_eq by done.
    destruct (Z.leb_spec n (lenZ l)); [|done]. intros [= <- <-]. cbn. rewrite lenZ_dropZ by lia. lia.
Qed.
#[export] Hint Extern 1 (Loud 0 (pb_read _)) =>
  (eapply loud_weaken; [|apply read_loud]; lia) : typeclass_instances.

#[export] Instance readbyte_loud : Loud 1 pb_readbyte.
Proof.
  apply reader_loud; [apply _|..]; intros s.
  - intros Hs. apply (istream_run s); [done|]. intros [|b l] t e _ _; [done|]. by rewrite readbyte_cons.
  - intros a s' Hs. apply (istream_run s); [done|]. intros [|b l] t e _ _; [done|].
    rewrite readbyte_cons. intros [= <- <-]. cbn. rewrite lenZ_cons. lia.
Qed.

#[export] Instance decode_varint_loud : Loud 1 pb_decode_varint.
Proof.
  apply reader_loud; [apply _|..]; intros s.
  - intros Hs. apply (istream_run s); [done|]. intros l t e Hl _. rewrite decode_varint_eq by done.
    by destruct (varint_split _) as [[v r]|].
  - intros a s' Hs. apply (istream_run s); [done|]. intros l t e Hl _. rewrite decode_varint_eq by done.
    destruct (varint_split _) as [[v r]|] eqn:E; [|done]. intros [= <- <-]. cbn.
    apply varint_split_app in E as E'. apply varint_split_varint in E as [Hv _];
      [|unfold takeZ; by apply Forall_take].
    pose proof (is_varint_nonempty v Hv). pose proof (lenZ_nonneg r).
    assert (lenZ (takeZ 10 l) <= lenZ l) by (unfold takeZ, lenZ; rewrite length_take; lia).
    rewrite E', lenZ_app in *. rewrite lenZ_dropZ; lia.
Qed.

(** Loops with fuel for the bytes that are left. *)
Definition LoudBelow {S} `{HasStream S} (n k : Z) {A} (m : M S A) : Prop :=
  ∀ s, istream_ok (stream_of s) → is_bytes_left (stream_of s) < n →
    reported k (m s).1 (stream_of s) (stream_of (m s).2).

Section below.
Context {S : Type} `{HasStream S}.

Lemma loud_below {A} n k (m : M S A) : Loud k m → LoudBelow n k m.
Proof. intros Hm s Hs _. by apply Hm. Qed.
Lemma below_none {A} n k (m : M S A) : n <= 0 → LoudBelow n k m.
Proof. intros Hn s [_ Hs] Hl. lia. Qed.
Lemma below_bind {A B} n (m : M S A) (f : A → M S B) :
  Loud 1 m → (∀ a, LoudBelow n 0 (f a)) → LoudBelow (n + 1) 0 (m ≫= f).
Proof.
  intros Hm Hf s Hs Hl. specialize (Hm s Hs). unfold mbind, M_bind.
  destruct (m s) as [[a|] s'] eqn:E; cbn [fst snd] in *; [|done].
  pose proof (reported_ok _ _ _ _ Hs Hm). destruct Hm as (H1 & L1 & E1).
  eapply (reported_trans 0 0 a); [|apply Hf; [done|lia]]. split; [done|]. split; [lia|done].
Qed.
Lemma below_bind0 {A B} n (m : M S A) (f : A → M S B) :
  Loud 0 m → (∀ a, LoudBelow n 0 (f a)) → LoudBelow n 0 (m ≫= f).
Proof.
  intros Hm Hf s Hs Hl. specialize (Hm s Hs). unfold mbind, M_bind.
  destruct (m s) as [[a|] s'] eqn:E; cbn [fst snd] in *; [|done].
  pose proof (reported_ok _ _ _ _ Hs Hm). eapply (reported_trans 0 0); [exact Hm|].
  apply Hf; [done|]. destruct Hm as (H1 & L1 & E1). lia.
Qed.
Lemma below_then {A B} n (m : M S A) (f : A → M S B) :
  LoudBelow n 0 m → (∀ a, Loud 0 (f a)) → LoudBelow n 0 (m ≫= f).
Proof.
  intros Hm Hf s Hs Hl. specialize (Hm s Hs Hl). unfold mbind, M_bind.
  destruct (m s) as [[a|] s'] eqn:E; cbn [fst snd] in *; [|done].
  eapply (reported_trans 0 0); [exact Hm|]. by eapply Hf, reported_ok.
Qed.
Lemma below_if {A} n k (b : bool) (m1 m2 : M S A) :
  LoudBelow n k m1 → LoudBelow n k m2 → LoudBelow n k (if b then m1 else m2).
Proof. by destruct b. Qed.
End below.

(** A loop that is given the bytes left as its fuel. *)
Lemma below_left {A} k (f : nat → M pb_istream A) :
  (∀ n, LoudBelow (Z.of_nat n) k (f n)) → Loud k (s ← getS; f (S (Z.to_nat (is_bytes_left s)))).
Proof. intros Hf s Hs. apply Hf; [done|]. unfold stream_of, istream_has_stream. destruct Hs. lia. Qed.

Lemma varint32_loop_loud fuel bitpos r : LoudBelow (Z.of_nat fuel) 0 (varint32_loop fuel bitpos r).
Proof.
  revert bitpos r. induction fuel as [|fuel IH]; intros bitpos r; [by apply below_none|].
  cbn [varint32_loop]. replace (Z.of_nat (S fuel)) with (Z.of_nat fuel + 1) by lia.
  apply below_bind; [apply _|]. intros b. apply below_bind0; [apply _|]. intros r'.
  apply below_if; [apply IH|apply loud_below, _].
Qed.

#[export] Instance varint32_multibyte_loud b : Loud 0 (varint32_multibyte b).
Proof.
  unfold varint32_multibyte. apply (below_left 0 (λ n, '(byte, bitpos, result) ← varint32_loop n 7 (b .& 0x7f);
    if (bitpos =? 35) && negb (byte .& 0x70 =? 0) then in_error "varint overflow" else mret result)).
  intros n. apply below_then; [apply varint32_loop_loud|]. intros [[b' p] r]. apply _.
Qed.

#[export] Instance decode_varint32_loud : Loud 1 pb_decode_varint32.
Proof.
  intros s Hs. pose proof (eats_bind pb_readbyte
    (λ b, if b .& 0x80 =? 0 then mret b else varint32_multibyte b) _ _ s Hs) as H.
  unfold mbind, M_bind in H. unfold pb_decode_varint32, pb_decode_varint32_eof.
  by destruct (pb_readbyte s) as [[b|] s'].
Qed.

Lemma skip_varint_loop_loud fuel : LoudBelow (Z.of_nat fuel) 0 (skip_varint_loop fuel).
Proof.
  induction fuel as [|fuel IH]; [by apply below_none|]. cbn [skip_varint_loop].
  replace (Z.of_nat (S fuel)) with (Z.of_nat fuel + 1) by lia.
  apply below_bind; [by apply read_loud|]. intros buf. apply below_if; [apply IH|apply loud_below, _].
Qed.

#[export] Instance skip_varint_loud : Loud 0 pb_skip_varint.
Proof. apply (below_left 0 skip_varint_loop), skip_varint_loop_loud. Qed.

(** Computations that use a 32-bit value they have read. *)
Lemma varint32_then {A} k (f : Z → M pb_istream A) :
  (∀ n, fits 32 n → Loud k (f n)) → Loud (1 + k) (pb_decode_varint32 ≫= f).
Proof.
  intros Hf s Hs. pose proof (decode_varint32_loud s Hs) as H. pose proof (decode_varint32_fits s) as Hn.
  unfold mbind, M_bind. destruct (pb_decode_varint32 s) as [[n|] s'] eqn:E; cbn [fst snd] in *; [|done].
  eapply reported_trans; [exact H|]. apply Hf; [by eapply Hn|by eapply reported_ok].
Qed.

#[export] Instance skip_field_loud wt : Loud 0 (pb_skip_field wt).
Proof.
  unfold pb_skip_field, pb_skip_string. repeat apply if_loud; try apply _.
  apply (loud_weaken 1); [done|]. apply (varint32_then 0). intros n [Hn _]. apply _.
Qed.

#[export] Instance decode_svarint_loud : Loud 1 pb_decode_svarint.
Proof. unfold pb_decode_svarint. apply eats_bind; apply _. Qed.
#[export] Instance decode_fixed32_loud : Loud 1 pb_decode_fixed32.
Proof.
  apply eats_bind; [|apply _]. intros s Hs. destruct (read_loud 4 ltac:(lia) s Hs) as (H1 & L1 & H2).
  split; [done|]. split; [|done]. destruct ((pb_read 4 s).1); [lia|done].
Qed.
#[export] Instance decode_fixed64_loud : Loud 1 pb_decode_fixed64.
Proof.
  apply eats_bind; [|apply _]. intros s Hs. destruct (read_loud 8 ltac:(lia) s Hs) as (H1 & L1 & H2).
  split; [done|]. split; [|done]. destruct ((pb_read 8 s).1); [lia|done].
Qed.

(** * Decoders *)

#[export] Instance on_stream_loud {A} k (m : M pb_istream A) : Loud k m → Loud k (on_stream m).
Proof.
  intros Hm s Hs. specialize (Hm (ds_stream s) Hs). unfold on_stream.
  by destruct (m (ds_stream s)) as [r t].
Qed.
#[export] Instance error_loud {A} k msg : Loud k (@error A msg).
Proof. unfold error. apply _. Qed.
#[export] Instance get_mem_loud : Loud 0 get_mem.
Proof. intros s Hs. by apply reported_refl. Qed.
#[export] Instance get_size_loud p : Loud 0 (get_size p).
Proof. intros s Hs. by apply reported_refl. Qed.
#[export] Instance store_at_loud p bs : Loud 0 (store_at p bs).
Proof. intros s Hs. by apply reported_refl. Qed.
#[export] Instance set_size_loud p n : Loud 0 (set_size p n).
Proof. intros s Hs. destruct p; by apply reported_refl. Qed.
#[export] Instance set_count_loud n : Loud 0 (set_count n).
Proof. intros s Hs. by apply reported_refl. Qed.
#[export] Instance read_into_loud p n : 0 <= n → Loud 0 (read_into p n).
Proof. intros Hn. unfold read_into. apply _. Qed.

(** A failure that is put off. *)
Lemma attempt_then_loud {A} (m : Dec A) (n : Dec ()) :
  Loud 0 m → Loud 0 n →
  Loud 0 (ok ← attempt m; _ ← n; if (ok : bool) then mret () else ret0).
Proof.
  intros Hm Hn s Hs. specialize (Hm s Hs). unfold attempt, mbind, M_bind.
  destruct (m s) as [r s1] eqn:E1. cbn [fst snd] in Hm. pose proof (reported_ok _ _ _ _ Hs Hm) as Hs1.
  specialize (Hn s1 Hs1). destruct Hm as (H1 & L1 & E).
  destruct (n s1) as [[[]|] s2]; cbn [fst snd] in Hn; destruct Hn as (H2 & L2 & E').
  - destruct r as [a|]; cbn [fst snd mret M_ret ret0] in *; (split; [by eapply within_trans|]; split);
      auto; lia.
  - split; [by eapply within_trans|]. split; [|auto]. by destruct r; auto.
Qed.

Lemma dec32_then {A} (f : Z → Dec A) :
  (∀ n, fits 32 n → Loud 0 (f n)) → Loud 1 (on_stream pb_decode_varint32 ≫= f).
Proof.
  intros Hf s Hs. pose proof (on_stream_loud 1 _ decode_varint32_loud s Hs) as H.
  pose proof (decode_varint32_fits (ds_stream s)) as Hn. unfold mbind, M_bind, on_stream in *.
  destruct (pb_decode_varint32 (ds_stream s)) as [[n|] t] eqn:E; cbn [fst snd] in *; [|done].
  eapply (reported_trans 1 0); [exact H|]. apply Hf; [by eapply Hn|by eapply reported_ok].
Qed.

Section values.
Context {D : Descriptors} (pb_realloc : bytes → Z → Z → Z * bytes).

#[local] Instance store_clamped_loud p n v rb : Loud 0 (store_clamped p n v rb).
Proof. unfold store_clamped. apply _. Qed.

Lemma destination_loud {B} f p size alloc msg (k : Z → Dec B) :
  PB_ATYPE (type f) = PB_ATYPE_STATIC → (∀ p, Loud 0 (k p)) →
  Loud 0 (destination pb_realloc f p size alloc msg ≫= k).
Proof.
  intros Ha Hk. unfold destination. rewrite Ha. cbn [Z.eqb PB_ATYPE_STATIC PB_ATYPE_POINTER]. apply _.
Qed.

Lemma dec_bytes_loud f p : PB_ATYPE (type f) = PB_ATYPE_STATIC → Loud 1 (pb_dec_bytes pb_realloc f p).
Proof.
  intros Ha. unfold pb_dec_bytes. apply dec32_then. intros n [Hn _]. repeat apply if_loud; try apply _.
  apply destination_loud; [done|]. intros q. unfold set_size_at. apply _.
Qed.

Lemma dec_string_loud f p : PB_ATYPE (type f) = PB_ATYPE_STATIC → Loud 1 (pb_dec_string pb_realloc f p).
Proof.
  intros Ha. unfold pb_dec_string. apply dec32_then. intros n [Hn _]. apply if_loud; [apply _|].
  apply destination_loud; [done|]. intros q. apply attempt_then_loud; apply _.
Qed.

Lemma dec_fixed_length_bytes_loud f p : 0 <= data_size f → Loud 1 (pb_dec_fixed_length_bytes f p).
Proof.
  intros Hd. unfold pb_dec_fixed_length_bytes. apply dec32_then. intros n Hn.
  repeat apply if_loud; apply _.
Qed.

Context (dec_submessage : pb_field → Z → Dec ()).

Lemma decoders_loud f p :
  field_ok f → PB_ATYPE (type f) = PB_ATYPE_STATIC → known_type (PB_LTYPE (type f)) →
  (PB_LTYPE (type f) = PB_LTYPE_SUBMESSAGE → Loud 1 (dec_submessage f p)) →
  Loud 1 (PB_DECODERS pb_realloc dec_submessage (PB_LTYPE (type f)) f p).
Proof.
  intros (_ & Hty & [Hd _] & _) Ha Hk Hsub. unfold PB_DECODERS.
  destruct (Z.eqb_spec (PB_LTYPE (type f)) PB_LTYPE_BOOL); [apply eats_bind; apply _|].
  destruct (Z.eqb_spec (PB_LTYPE (type f)) PB_LTYPE_VARINT); [apply eats_bind; apply _|].
  destruct (Z.eqb_spec (PB_LTYPE (type f)) PB_LTYPE_UVARINT); [apply eats_bind; apply _|].
  destruct (Z.eqb_spec (PB_LTYPE (type f)) PB_LTYPE_SVARINT); [apply eats_bind; apply _|].
  destruct (Z.eqb_spec (PB_LTYPE (type f)) PB_LTYPE_FIXED32); [apply eats_bind; apply _|].
  destruct (Z.eqb_spec (PB_LTYPE (type f)) PB_LTYPE_FIXED64); [apply eats_bind; apply _|].
  destruct (Z.eqb_spec (PB_LTYPE (type f)) PB_LTYPE_BYTES); [by apply dec_bytes_loud|].
  destruct (Z.eqb_spec (PB_LTYPE (type f)) PB_LTYPE_STRING); [by apply dec_string_loud|].
  destruct (Z.eqb_spec (PB_LTYPE (type f)) PB_LTYPE_SUBMESSAGE); [by apply Hsub|].
  destruct (Z.eqb_spec (PB_LTYPE (type f)) PB_LTYPE_FIXED_LENGTH_BYTES);
    [by apply dec_fixed_length_bytes_loud|].
  exfalso. assert (0 <= PB_LTYPE (type f)) by (unfold PB_LTYPE; apply Z.land_nonneg; right; lia).
  unfold known_type, PB_LTYPE_BOOL, PB_LTYPE_VARINT, PB_LTYPE_UVARINT, PB_LTYPE_SVARINT,
    PB_LTYPE_FIXED32, PB_LTYPE_FIXED64, PB_LTYPE_BYTES, PB_LTYPE_STRING, PB_LTYPE_SUBMESSAGE in *. lia.
Qed.
End values.

(** * Substreams *)

Lemma make_substream_loud s :
  istream_ok s → reported 1 (pb_make_string_substream s).1 s (pb_make_string_substream s).2 ∧
  ∀ sub, (pb_make_string_substream s).1 = Some sub →
    is_errmsg sub = is_errmsg (pb_make_string_substream s).2.
Proof.
  intros Hs. pose proof (make_substream_within s Hs) as [Hw _].
  pose proof (decode_varint32_loud s Hs) as H. pose proof (decode_varint32_fits s) as Hn.
  unfold pb_make_string_substream, mbind, M_bind in *. unfold stream_of, istream_has_stream in *.
  destruct (pb_decode_varint32 s) as [[n|] t]; cbn [fst snd] in *; [|split; [exact H|done]].
  specialize (Hn n t Hs eq_refl). destruct H as (_ & L & E). unfold getS in *.
  destruct (is_bytes_left t <? n); cbn [fst snd] in *.
  - split; [|done]. split; [done|]. cbn. by split.
  - unfold set_bytes_left, modifyS in *. cbn [fst snd mret M_ret] in *. split; [|by intros sub [= <-]].
    split; [done|]. split; [|exact E]. cbn. destruct Hn. lia.
Qed.

(** Closing a substream does not fail, and keeps its message. *)
Lemma close_reads s :
  istream_ok s → ∃ x s', (if negb (is_bytes_left s =? 0) then pb_read (is_bytes_left s) s else (Some [], s))
    = (Some x, s') ∧ within s s' ∧ is_errmsg s' = is_errmsg s.
Proof.
  intros Hs. destruct (negb _).
  - apply (istream_run s); [done|]. intros l t e Hl Ht.
    pose proof (pb_read_reader (lenZ l) (lenZ_nonneg l) (istr l t e) (proj2 (istr_ok l t e) (conj Hl Ht))) as Hm.
    assert (pb_read (lenZ l) (istr l t e) = (Some l, istr [] t e)) as Hr.
    { rewrite read_eq by apply lenZ_nonneg. rewrite Z.leb_refl, takeZ_all by done.
      unfold dropZ, lenZ. by rewrite Nat2Z.id, drop_all. }
    rewrite Hr in Hm. cbn [istr is_bytes_left] in *. rewrite Hr. eexists _, _. split; [done|].
    split; [by apply moves_within|done].
  - eexists _, _. split; [done|]. split; [apply within_refl, Hs|done].
Qed.

(** After a decoder [m] on a substream the parent goes on behind it, with its message; [m] may
    also return what stands for a failure ([good]). *)
Lemma substream_loud {A B} (m : pb_istream → Dec A) (bad : pb_istream → bool) msg
    (good : option A → bool) (r : option A → Dec B) :
  (∀ s, istream_ok (ds_stream s) →
     let '(st, s') := m (ds_stream s) s in
     within (ds_stream s) (ds_stream s') ∧
     (is_errmsg (ds_stream s) ≠ None ∨ good st = false → is_errmsg (ds_stream s') ≠ None)) →
  (∀ st, if good st then Loud 0 (r st) else r st = ret0) →
  Loud 1
    (sub ← on_stream pb_make_string_substream;
     '(st, sub') ← with_stream sub (m sub);
     if bad sub' then error msg
     else _ ← on_stream (pb_close_string_substream sub'); r st).
Proof.
  intros Hm Hr s Hs.
  destruct (make_substream_loud (ds_stream s) Hs) as [Hmk He].
  destruct (make_substream_within (ds_stream s) Hs) as [_ Hsub].
  unfold mbind, M_bind. unfold stream_of, dstate_has_stream in *.
  destruct (on_stream pb_make_string_substream s) as [o s0] eqn:E0. unfold on_stream in E0.
  destruct (pb_make_string_substream (ds_stream s)) as [o' t]; cbn [fst snd] in *.
  injection E0 as -> <-. destruct o as [sub|]; [|exact (reported_none _ _ _ _ Hmk)].
  destruct (Hsub sub t eq_refl) as (Hsok & Htok & Hclose). specialize (He sub eq_refl).
  unfold with_stream. cbn [ds_stream ds_mem ds_count].
  set (s1 := {| ds_stream := sub; ds_mem := ds_mem s; ds_count := ds_count s |}).
  specialize (Hm s1 Hsok). cbn [ds_stream s1] in Hm. destruct (m sub s1) as [st s2].
  destruct Hm as [Hw Hem]. pose proof (within_ok _ _ Hsok Hw) as Hs2.
  destruct Hmk as (Hwt & Lt & Et). rewrite <-He in Et. destruct (bad (ds_stream s2)).
  { split; [exact Hwt|]. by split. }
  unfold on_stream, pb_close_string_substream. cbn [ds_stream ds_mem ds_count].
  destruct (close_reads (ds_stream s2) Hs2) as (x & sub' & -> & Hw' & He').
  specialize (Hclose sub' (within_trans _ _ _ Hw Hw')). specialize (Hr st).
  set (s3 := {| ds_stream := {| is_state := is_state sub' |} |}).
  assert (is_errmsg (ds_stream s) ≠ None ∨ good st = false → is_errmsg (ds_stream s3) ≠ None) as H3.
  { cbn. rewrite He'. intros [?|?]; apply Hem; auto. }
  destruct (good st) eqn:Hg.
  - apply (reported_trans 1 0 () _ _ (ds_stream s3)); [|apply Hr, (within_ok _ _ Hs Hclose)].
    split; [done|]. split; [cbn; lia|]. auto.
  - rewrite Hr. split; [done|]. split; [|intros _]; apply H3; auto.
Qed.

(** * Defaults and release *)

Section structures.
Context {D : Descriptors} (pb_realloc : bytes → Z → Z → Z * bytes) (pb_free : bytes → Z → bytes).
Context (callback_decode : Z → pb_field → Z → Dec ()) (type_decoder : Z → Z → Z → Z → Dec ()).

Lemma for_fields_loud visit fields dest :
  dest ≠ NULL → (∀ i, (i < length fields)%nat → static_field (field_at fields i) = true) →
  (∀ i, (i < length fields)%nat → Loud 0 (visit (iter_at fields dest i))) →
  Loud 0 (for_fields visit fields dest).
Proof.
  intros Hd Ht Hv. unfold for_fields. rewrite iter_begin_at by done.
  destruct fields as [|f fs]; cbn [negb]; [apply _|].
  set (fields := f :: fs) in *. assert (0 < length fields)%nat as H0 by (cbn; lia).
  revert H0. generalize 0%nat as i. generalize (length fields) at 2 as fuel.
  induction fuel as [|fuel IH]; intros i Hi; cbn [for_fields_loop]; [apply _|].
  apply bind_loud; [by apply Hv|]. intros _. rewrite iter_next_at by done.
  destruct (Nat.ltb_spec (S i) (length fields)); [by apply IH|apply _].
Qed.

Lemma defaults_loud wfd depth fields n dest :
  wf_message wfd fields n = true → (wfd <= depth)%nat → 0 < dest →
  Loud 0 (pb_message_set_to_defaults depth fields dest).
Proof.
  unfold pb_message_set_to_defaults. revert wfd fields n dest.
  induction depth as [|depth IH]; intros wfd fields n dest Hwf Hle Hd.
  { by assert (wfd = 0%nat) as -> by lia. }
  destruct (wf_message_inv _ _ _ Hwf) as (_ & Ht & _).
  apply for_fields_loud; [unfold NULL; lia|done|]. intros i Hi. cbn [pb_field_set_to_default].
  rewrite pos_iter_at, pData_iter_at, pSize_iter_at.
  destruct (static_field_inv _ (Ht i Hi)) as (_ & _ & Ha & Hx & _).
  rewrite (proj2 (Z.eqb_neq _ _) Hx), Ha. cbn [Z.eqb PB_ATYPE_STATIC].
  apply bind_loud; [unfold set_size_at; apply _|]. intros b. apply if_loud; [|apply _].
  destruct (Z.eqb_spec (PB_LTYPE (type (field_at fields i))) PB_LTYPE_SUBMESSAGE) as [Hm|]; [|apply _].
  destruct (wf_submessage _ depth _ _ _ Hwf Hle Hi Hm) as (d & Hd' & Hw).
  eapply IH; [exact Hw|done|by eapply data_at_positive].
Qed.

Lemma release_single_loud wfd depth fuel fields n dest i :
  (∀ wfd fields n dest, wf_message wfd fields n = true → (wfd <= depth)%nat →
     Loud 0 (pb_release pb_free depth fields dest)) →
  wf_message wfd fields n = true → (wfd <= S depth)%nat → (i < length fields)%nat →
  Loud 0 (pb_release_single_field pb_free (pb_release pb_free depth) (S fuel) (iter_at fields dest i)).
Proof.
  intros IH Hwf Hle Hi. destruct (wf_message_inv _ _ _ Hwf) as (_ & Ht & _).
  destruct (static_field_inv _ (Ht i Hi)) as (_ & _ & Ha & Hx & _).
  cbn [pb_release_single_field]. rewrite pos_iter_at. rewrite (proj2 (Z.eqb_neq _ _) Hx), Ha.
  cbn [Z.eqb PB_ATYPE_STATIC PB_ATYPE_POINTER PB_ATYPE_CALLBACK negb andb].
  apply bind_loud; [apply _|]. intros m. apply if_loud; [apply _|].
  apply bind_loud; [|apply _]. rewrite andb_true_r.
  destruct (Z.eqb_spec (PB_LTYPE (type (field_at fields i))) PB_LTYPE_SUBMESSAGE) as [Hm|]; [|apply _].
  destruct (wf_submessage _ depth _ _ _ Hwf Hle Hi Hm) as (d & Hd' & Hw).
  unfold release_submessages. rewrite pos_iter_at. apply bind_loud; [apply _|]. intros m'. cbv zeta.
  apply if_loud; [|apply _].
  match goal with |- Loud 0 (release_items _ _ _ ?p _) => generalize p end.
  match goal with |- context [release_items _ ?c _ _ _] => generalize c end.
  intros c. induction c as [|c IHc]; intros p; cbn [release_items]; [apply _|].
  apply bind_loud; [by eapply IH|]. intros _. apply IHc.
Qed.

Lemma release_loud wfd depth fields n dest :
  wf_message wfd fields n = true → (wfd <= depth)%nat → Loud 0 (pb_release pb_free depth fields dest).
Proof.
  revert wfd fields n dest. induction depth as [|depth IH]; intros wfd fields n dest Hwf Hle.
  { by assert (wfd = 0%nat) as -> by lia. }
  cbn [pb_release]. destruct (Z.eqb_spec dest NULL) as [|Hne]; [apply _|].
  apply for_fields_loud; [done|by eapply wf_message_inv|]. intros i Hi. by eapply release_single_loud.
Qed.

(** * Fields *)

Section fields.
Context (dec_submessage : pb_field → Z → Dec ()) (depth calls : nat).

(** A submessage of at most [depth] levels. *)
Definition shallow (f : pb_field) : Prop :=
  PB_LTYPE (type f) = PB_LTYPE_SUBMESSAGE →
  ∃ d, (d <= depth)%nat ∧ wf_message d (fields_at (ptr f)) (data_size f) = true.

Context (Hdec : ∀ f p, PB_LTYPE (type f) = PB_LTYPE_SUBMESSAGE → shallow f → 0 < p →
  Loud 1 (dec_submessage f p)).

Lemma item_loud f p :
  field_ok f → PB_ATYPE (type f) = PB_ATYPE_STATIC → known_type (PB_LTYPE (type f)) → shallow f → 0 < p →
  Loud 1 (PB_DECODERS pb_realloc dec_submessage (PB_LTYPE (type f)) f p).
Proof. intros. apply decoders_loud; try done. intros Hm. by apply Hdec. Qed.

(** The loop over a packed array ends, and ends well or with a message. *)
Lemma packed_loop_loud fuel (item : Z → Dec ()) a step size max s :
  (∀ p, 0 <= p → Loud 1 (item (a + p))) → istream_ok (ds_stream s) →
  is_bytes_left (ds_stream s) < Z.of_nat fuel →
  let '(st, s') := packed_loop fuel item a step size max s in
  within (ds_stream s) (ds_stream s') ∧
  (is_errmsg (ds_stream s) ≠ None ∨ default false st = false → is_errmsg (ds_stream s') ≠ None).
Proof.
  intros Hi. revert s. induction fuel as [|fuel IH]; intros s Hs Hl; [destruct Hs; lia|].
  cbn [packed_loop]. unfold mbind, M_bind, on_stream, getS, get_size, attempt, mret, M_ret.
  cbn [ds_stream ds_mem ds_count].
  match goal with |- context [if ?b then _ else _] => destruct b end;
    [|split; [apply within_refl, Hs|]; cbn; naive_solver].
  match goal with |- context [item (a + u32 ?q)] =>
    pose proof (proj1 (wrap_fits 32 q ltac:(lia))) as Hp; revert Hp; generalize (u32 q) end.
  intros p Hp.
  match goal with |- context [item (a + p) ?s1] => pose proof (Hi p Hp s1 Hs) as H; destruct (item (a + p) s1) as [r s2] end.
  unfold stream_of, dstate_has_stream in H. cbn [fst snd ds_stream] in H.
  pose proof (reported_ok _ _ _ _ Hs H) as Hs2.
  destruct H as (Hw & L & E). destruct r as [[]|]; [|split; [done|auto]]. cbv beta iota.
  assert (∀ n, ∃ s3, set_size size n s2 = (Some (), s3) ∧ ds_stream s3 = ds_stream s2) as Hset.
  { intros n. destruct size; by eexists. }
  match goal with |- context [set_size size ?n ?s1] => change s1 with s2; destruct (Hset n) as (s3 & -> & Hs3) end.
  specialize (IH s3). rewrite Hs3 in IH. specialize (IH Hs2 ltac:(lia)).
  destruct (packed_loop _ _ _ _ _ _ s3) as [st s4]. destruct IH as [Hw4 E4].
  split; [by eapply within_trans|]. naive_solver.
Qed.


(** A static field of a message, at an iterator. *)
Definition sound_field (f : pb_field) : Prop :=
  field_ok f ∧ PB_ATYPE (type f) = PB_ATYPE_STATIC ∧ known_type (PB_LTYPE (type f)) ∧ shallow f.

Lemma decode_static_loud wt it size :
  sound_field (pos it) → 0 < pData it →
  Loud 0 (decode_static_field pb_realloc dec_submessage depth wt it size).
Proof.
  intros (Hok & Ha & Hk & Hsh) Hp. unfold decode_static_field. set (f := pos it) in *.
  assert (∀ p, 0 < p → Loud 1 (PB_DECODERS pb_realloc dec_submessage (PB_LTYPE (type f)) f p)) as Hitem
    by (intros; by apply item_loud).
  assert (∀ p, 0 < p → Loud 0 (PB_DECODERS pb_realloc dec_submessage (PB_LTYPE (type f)) f p)) as Hitem0
    by (intros; by apply (loud_weaken 1); [|apply Hitem]).
  apply if_loud; [by apply Hitem0|]. apply if_loud.
  { apply bind_loud; [destruct size; apply _|]. intros _. by apply Hitem0. }
  apply if_loud; [apply if_loud|].
  - apply (loud_weaken 1); [done|].
    apply (substream_loud (λ sub, packed_loop (S (Z.to_nat (is_bytes_left sub)))
      (PB_DECODERS pb_realloc dec_submessage (PB_LTYPE (type f)) f) (pData it) (data_size f) size (array_size f))
      (λ sub, negb (is_bytes_left sub =? 0)) _ (default false) (λ st, if default false st then mret () else ret0)).
    + intros s Hs. apply packed_loop_loud; [|done|destruct Hs; lia]. intros p Hp'. apply Hitem. lia.
    + intros st. destruct (default false st); [apply _|done].
  - apply bind_loud; [apply _|]. intros n. cbv zeta. apply bind_loud; [apply _|]. intros _.
    apply if_loud; [apply _|]. apply Hitem0. pose proof (wrap_fits 32 (data_size f * n)) as H. destruct H; lia.
  - apply bind_loud; [apply _|]. intros which. apply bind_loud.
    + destruct (Z.eqb_spec (PB_LTYPE (type f)) PB_LTYPE_SUBMESSAGE) as [Hm|]; cbn [andb]; [|apply _].
      apply if_loud; [|apply _]. apply bind_loud; [apply _|]. intros _.
      destruct (Hsh Hm) as (d & Hd & Hw). by eapply defaults_loud.
    + intros _. apply bind_loud; [apply _|]. intros _. by apply Hitem0.
Qed.

(** ** The fields of one message *)

Section message.
Context (wfd : nat) (fields : list pb_field) (n dest : Z).
Context (Hwf : wf_message wfd fields n = true) (Hwfd : (wfd <= S depth)%nat) (Hdest : 0 < dest).

Lemma place_sound i : valid_place fields i →
  sound_field (field_at fields i) ∧ 0 < dest + data_at fields i.
Proof.
  intros [Hi|[-> ->]].
  - destruct (wf_message_inv _ _ _ Hwf) as (_ & Ht & _). specialize (Ht i Hi).
    destruct (static_field_inv _ Ht) as (Hok & _ & Ha & _). split; [|by eapply data_at_positive].
    split; [done|]. split; [done|]. split; [by apply static_field_known|].
    intros Hm. by eapply wf_submessage.
  - change (data_at [] 0) with 0. split; [|lia]. split; [decide_now|]. split; [done|].
    split; [by left|]. done.
Qed.

Lemma union_loud it :
  at_place fields dest it → PB_HTYPE (type (pos it)) = PB_HTYPE_ONEOF →
  Loud 0 (pb_release_union_field pb_free depth it) ∧
  Returns (at_place fields dest) (pb_release_union_field pb_free depth it).
Proof.
  intros Hit Ho. assert (fields ≠ []) as Hne.
  { intros Hnil. destruct Hit as (i & [Hi|[_ ->]] & Heq); [rewrite Hnil in Hi; cbn in Hi; lia|].
    by rewrite Heq, pos_iter_at, Hnil in Ho. }
  unfold pb_release_union_field. split.
  - apply bind_loud; [apply _|]. intros m. cbv zeta. apply if_loud; [apply _|]. apply if_loud; [apply _|].
    destruct (find_at _ _ _ _ Hwf Hdest it (load_size m (pSize it)) Hit) as (j & b & -> & Hj).
    destruct b; cbn [negb]; [|apply _].
    destruct (find_at _ _ _ _ Hwf Hdest (iter_at fields dest j) (tag (pos it))) as (j2 & b2 & -> & Hj2);
      [by exists j|].
    apply bind_loud; [|intros _; apply _]. destruct Hj as [Hj|[? _]]; [|done].
    eapply release_single_loud; [|exact Hwf|done|done]. intros. by eapply release_loud.
  - intros s a s' E. apply bind_inv in E as (m & s1 & _ & E). cbv zeta in E.
    destruct (_ =? 0); [by apply ret_inv in E as [<- _]|].
    destruct (_ =? _); [by apply ret_inv in E as [<- _]|].
    destruct (find_at _ _ _ _ Hwf Hdest it (load_size m (pSize it)) Hit) as (j & b & Hf & Hj).
    rewrite Hf in E. destruct b; cbn [negb] in E; [|done].
    destruct (find_at _ _ _ _ Hwf Hdest (iter_at fields dest j) (tag (pos it))) as (j2 & b2 & Hf2 & Hj2);
      [by exists j|]. rewrite Hf2 in E.
    apply bind_inv in E as ([] & s2 & _ & E). destruct b2; cbn [negb] in E; [|done].
    apply bind_inv in E as ([] & s3 & _ & E). apply ret_inv in E as [<- _]. by exists j2.
Qed.

Lemma field_loud wt it size :
  at_place fields dest it →
  Loud 0 (decode_field pb_realloc pb_free callback_decode dec_submessage depth calls wt it size).
Proof.
  intros Hit. unfold decode_field.
  assert (∀ it', at_place fields dest it' → Loud 0
    (if PB_ATYPE (type (pos it')) =? PB_ATYPE_STATIC
     then decode_static_field pb_realloc dec_submessage depth wt it' size
     else if PB_ATYPE (type (pos it')) =? PB_ATYPE_POINTER
     then decode_pointer_field pb_realloc pb_free dec_submessage depth wt it' size
     else if PB_ATYPE (type (pos it')) =? PB_ATYPE_CALLBACK
     then decode_callback_field callback_decode calls wt it' else error "invalid field type")) as Hst.
  { intros it' (j & Hj & ->). pose proof (place_sound j Hj) as [Hs Hp].
    pose proof Hs as (_ & Ha & _). rewrite pos_iter_at, Ha. cbn [Z.eqb PB_ATYPE_STATIC].
    apply decode_static_loud; by rewrite ?pos_iter_at, ?pData_iter_at. }
  destruct (Z.eqb_spec (PB_HTYPE (type (pos it))) PB_HTYPE_ONEOF) as [Ho|Ho].
  - destruct (union_loud it Hit Ho) as [Hl Hr]. by apply (loud_bind_post 0 0 (at_place fields dest)).
  - apply ret_bind_loud. by apply Hst.
Qed.

Definition locals_at (l : locals) : Prop := at_place fields dest (iter l).

Lemma check_fixed_loud fs l : Loud 0 (check_fixed_count fs l).
Proof.
  intros s Hs. unfold check_fixed_count. destruct (fixed_count_field l); [|by apply reported_refl].
  destruct (negb _); [by apply error_loud|by apply reported_refl].
Qed.

Lemma unknown_loud wt wanted l :
  locals_at l → wanted < 2 ^ 29 →
  let m := decode_unknown pb_realloc pb_free callback_decode type_decoder dec_submessage depth calls
    wt wanted l in
  Loud 0 m ∧ Returns locals_at m.
Proof.
  intros Hl Hw. change (2 ^ 29) with 536870912 in Hw. cbv zeta. unfold decode_unknown.
  assert (∀ l, locals_at l → Loud 0 (_ ← on_stream (pb_skip_field wt); mret l) ∧
    Returns locals_at (_ ← on_stream (pb_skip_field wt); mret l)) as Hskip.
  { intros l1 H1. split; [apply _|]. intros s a s' E. apply bind_inv in E as ([] & s1 & _ & E).
    by apply ret_inv in E as [<- _]. }
  destruct (_ <=? wanted); [|by apply Hskip].
  destruct (find_extension_at _ _ _ _ Hwf Hdest (iter l) Hl) as (j & -> & Hj). cbv zeta.
  assert ((u32 (-1) <=? wanted) = false) as -> by (apply Z.leb_gt; mlia).
  apply Hskip. by exists j.
Qed.

Lemma known_loud wt l :
  locals_at l →
  let m := decode_known pb_realloc pb_free callback_decode dec_submessage depth calls wt l in
  Loud 0 m ∧ Returns locals_at m.
Proof.
  intros Hit. cbv zeta. unfold decode_known. split.
  - apply bind_loud.
    + apply if_loud; [|apply _]. apply bind_loud; [apply check_fixed_loud|]. intros _. apply _.
    + intros l'. cbv zeta. apply bind_loud; [by apply field_loud|]. intros _. apply _.
  - intros s a s' E. cbv zeta in E. apply bind_inv in E as (l' & s1 & _ & E).
    apply bind_inv in E as ([] & s2 & _ & E). by apply ret_inv in E as [<- _].
Qed.

Lemma one_loud wt wanted l :
  locals_at l → wanted < 2 ^ 29 →
  let m := decode_one pb_realloc pb_free callback_decode type_decoder dec_submessage depth calls
    wt wanted l in
  Loud 0 m ∧ Returns locals_at m.
Proof.
  intros Hl Hw. cbv zeta. unfold decode_one.
  destruct (find_at _ _ _ _ Hwf Hdest (iter l) wanted Hl) as (j & b & -> & Hj). cbv zeta.
  destruct (negb b); [apply unknown_loud|apply known_loud]; try done; by exists j.
Qed.

Lemma decode_tag_loud s :
  istream_ok s →
  let '(r, eof, t) := pb_decode_tag s in
  within s t ∧ (is_errmsg s ≠ None → is_errmsg t ≠ None) ∧
  match r with
  | Some (_, wanted) => is_bytes_left t + 1 <= is_bytes_left s ∧ wanted < 2 ^ 29
  | None => eof = false → is_errmsg t ≠ None
  end.
Proof.
  intros Hs. pose proof (decode_varint32_loud s Hs) as Hv. pose proof (decode_tag_moves s Hs) as Ht.
  unfold pb_decode_varint32 in Hv. unfold pb_decode_tag in *. unfold stream_of, istream_has_stream in Hv.
  destruct (pb_decode_varint32_eof s false) as [[[temp|] t] eof]; cbn [fst snd] in *;
    destruct Hv as (Hw & L & E); [|split; [done|]; by split].
  destruct (temp =? 0); [split; [done|]; by split|]. split; [done|]. split; [done|]. split; [done|apply Ht].
Qed.

(** One turn of the loop. *)
Lemma decode_loop_eq fuel l s :
  decode_loop pb_realloc pb_free callback_decode type_decoder dec_submessage depth (S fuel) calls l s =
    if is_bytes_left (ds_stream s) =? 0 then (Some l, s)
    else
      match pb_decode_tag (ds_stream s) with
      | (r, eof, t) =>
          let s1 := {| ds_stream := t; ds_mem := ds_mem s; ds_count := ds_count s |} in
          match r with
          | None => if (eof : bool) then (Some l, s1) else (None, s1)
          | Some (wt, wanted) =>
              (l ← decode_one pb_realloc pb_free callback_decode type_decoder dec_submessage depth
                     calls wt wanted l;
               decode_loop pb_realloc pb_free callback_decode type_decoder dec_submessage depth fuel
                 calls l) s1
          end
      end.
Proof.
  destruct s as [st m c]. cbn [decode_loop]. unfold mbind at 1, M_bind at 1, on_stream at 1, getS.
  cbn [ds_stream ds_mem ds_count]. destruct (_ =? 0); [done|]. cbn [ds_stream ds_mem ds_count].
  by destruct (pb_decode_tag st) as [[[[wt wanted]|] eof] t].
Qed.

Lemma loop_loud fuel l :
  locals_at l →
  LoudBelow (Z.of_nat fuel) 0
    (decode_loop pb_realloc pb_free callback_decode type_decoder dec_submessage depth fuel calls l).
Proof.
  revert l. induction fuel as [|fuel IH]; intros l Hl s Hs Hb; [by apply (below_none 0 0 ret0)|].
  rewrite decode_loop_eq.
  destruct (Z.eqb_spec (is_bytes_left (ds_stream s)) 0); [by apply reported_refl|].
  pose proof (decode_tag_loud (ds_stream s) Hs) as Ht.
  destruct (pb_decode_tag (ds_stream s)) as [[[[wt wanted]|] eof] t]; destruct Ht as (Hw & E & Ht).
  - destruct Ht as [Ht Hwt]. destruct (one_loud wt wanted l Hl Hwt) as [H1 HR].
    set (s1 := {| ds_stream := t; ds_mem := ds_mem s; ds_count := ds_count s |}).
    pose proof (within_ok _ _ Hs Hw) as Hs1. specialize (H1 s1 Hs1).
    specialize (HR s1). unfold mbind, M_bind in *.
    destruct (decode_one _ _ _ _ _ _ _ _ _ _ s1) as [[l'|] s2]; cbn [fst snd] in *.
    + apply (reported_trans 0 0 l' _ _ (stream_of s2)).
      * destruct H1 as (Hw2 & L2 & E2). split; [by eapply within_trans|].
        unfold stream_of, dstate_has_stream in *. cbn [s1 ds_stream] in *. split; [lia|auto].
      * pose proof (reported_ok _ _ _ _ Hs1 H1). apply IH; [by eapply HR|done|].
        destruct H1 as (_ & L2 & _). unfold stream_of, dstate_has_stream in *. cbn [s1 ds_stream] in *. lia.
    + destruct H1 as (Hw2 & L2 & E2). split; [by eapply within_trans|]. split; [done|auto].
  - destruct eof.
    + split; [done|]. split; [|done]. destruct Hw as (k & k' & Hk & _ & _ & Hb').
      unfold stream_of, dstate_has_stream in *. cbn [ds_stream fst snd] in *. lia.
    + split; [done|]. split; [|done]. by apply Ht.
Qed.

Lemma decode_noinit_loud :
  Loud 0 (decode_noinit pb_realloc pb_free callback_decode type_decoder dec_submessage depth
    calls fields dest).
Proof.
  unfold decode_noinit. set (l := {| fields_seen := [0; 0] |}).
  assert (locals_at l) as Hl.
  { unfold locals_at. cbn [iter l]. destruct (wf_message_inv _ _ _ Hwf) as (_ & Ht & _).
    rewrite iter_begin_at by (done || (unfold NULL; lia)). exists 0%nat. split; [|done].
    destruct fields; [by right|left; cbn; lia]. }
  intros s Hs. unfold mbind at 1 3, M_bind at 1 3. unfold on_stream, getS.
  cbn [ds_stream ds_mem ds_count].
  set (s0 := {| ds_stream := ds_stream s; ds_mem := ds_mem s; ds_count := ds_count s |}).
  assert (∀ fuel, LoudBelow (Z.of_nat fuel) 0
    (l ← decode_loop pb_realloc pb_free callback_decode type_decoder dec_submessage depth fuel calls l;
     _ ← check_fixed_count fields l;
     if required_seen l then mret () else error "missing required field")) as H.
  { intros fuel. apply below_then; [by apply loop_loud|]. intros l'.
    apply bind_loud; [apply check_fixed_loud|]. intros _. apply _. }
  apply (H _ s0 Hs). unfold stream_of, dstate_has_stream. cbn. destruct Hs. lia.
Qed.
End message.
End fields.

(** * Messages *)

Lemma own_count_loud {A} k (m : Dec A) : Loud k m → Loud k (own_count m).
Proof.
  intros Hm s Hs. specialize (Hm {| ds_stream := ds_stream s; ds_mem := ds_mem s; ds_count := 0 |} Hs).
  unfold own_count. by destruct (m _) as [r s'].
Qed.

Lemma delimited_loud (m : Dec ()) : Loud 0 m → Loud 1 (delimited m).
Proof.
  intros Hm. apply (substream_loud (λ _, m) (λ _, false) "" (λ st, match st with Some _ => true | None => false end)
    (λ st, liftO st)).
  - intros s Hs. specialize (Hm s Hs). unfold stream_of, dstate_has_stream in Hm.
    destruct (m s) as [[u|] s']; destruct Hm as (Hw & L & E); split; auto; naive_solver.
  - intros [u|]; [|done]. intros s Hs. by apply (reported_refl u).
Qed.

Section nested.
Context (noinit : list pb_field → Z → Dec ()) (depth : nat).
Context (Hnoinit : ∀ wfd fields n dest, wf_message wfd fields n = true → (wfd <= depth)%nat → 0 < dest →
  Loud 0 (noinit fields dest)).

Lemma decode_or_release_loud wfd fields n dest :
  wf_message wfd fields n = true → (wfd <= depth)%nat → 0 < dest →
  Loud 0 (decode_or_release pb_free noinit depth fields dest).
Proof.
  intros Hwf Hle Hd. unfold decode_or_release. apply bind_loud; [by eapply defaults_loud|]. intros _.
  intros s Hs. pose proof (Hnoinit _ _ _ _ Hwf Hle Hd s Hs) as H. unfold attempt, mbind, M_bind.
  destruct (noinit fields dest s) as [[[]|] s']; cbn [fst snd] in *; [done|].
  pose proof (release_idle pb_realloc pb_free callback_decode type_decoder depth _ _ _ dest Hwf s') as Hi.
  destruct (pb_release pb_free depth fields dest s') as [[[]|] s'']; cbn in Hi; subst; done.
Qed.

Lemma dec_submessage_loud f p :
  PB_LTYPE (type f) = PB_LTYPE_SUBMESSAGE → shallow depth f → 0 < p →
  Loud 1 (pb_dec_submessage pb_free noinit depth f p).
Proof.
  intros Hm Hs Hp. destruct (Hs Hm) as (d & Hd & Hwf). unfold pb_dec_submessage.
  destruct (ptr f =? NULL).
  { apply (eats_bind (on_stream pb_make_string_substream)); [|intros; apply _].
    intros s Hst. pose proof (proj1 (make_substream_loud (ds_stream s) Hst)) as H. unfold on_stream.
    by destruct (pb_make_string_substream (ds_stream s)). }
  assert (Loud 0 (if PB_HTYPE (type f) =? PB_HTYPE_REPEATED
    then decode_or_release pb_free noinit depth (fields_at (ptr f)) p
    else noinit (fields_at (ptr f)) p)) as Hl.
  { apply if_loud; [by eapply decode_or_release_loud|by eapply Hnoinit]. }
  exact (delimited_loud _ Hl).
Qed.
End nested.

Lemma noinit_loud calls depth wfd fields n dest :
  wf_message wfd fields n = true → (wfd <= depth)%nat → 0 < dest →
  Loud 0 (pb_decode_noinit pb_realloc pb_free callback_decode type_decoder calls depth fields dest).
Proof.
  revert wfd fields n dest. induction depth as [|depth IH]; intros wfd fields n dest Hwf Hle Hd.
  { by assert (wfd = 0%nat) as -> by lia. }
  cbn [pb_decode_noinit]. apply own_count_loud. eapply decode_noinit_loud; [|exact Hwf|done|done].
  intros f p Hm Hs Hp. by apply dec_submessage_loud.
Qed.
End structures.

(** C4. Decoding a static message ends, and says why when it fails.  Let the layout of the message
    be in order, its submessages [wfd] deep, and let at least that depth be allowed.  Then,
    on any input and from any memory, a call that fails leaves one of the code's error messages
    in the stream, as no loop or recursion that runs out of fuel would; and whatever the outcome
    the stream has only moved forward, with nothing left to read that was not there
    before. *)
Theorem decode_total {D : Descriptors} pb_realloc pb_free callback_decode type_decoder calls depth
    wfd fields n dest s :
  wf_message wfd fields n = true → (wfd <= depth)%nat → 0 < dest → istream_ok (ds_stream s) →
  let total (m : Dec ()) :=
    let '(r, s') := m s in
    (r = None → is_errmsg (ds_stream s') ≠ None) ∧ within (ds_stream s) (ds_stream s') in
  total (pb_decode pb_realloc pb_free callback_decode type_decoder calls depth fields dest) ∧
  total (pb_decode_noinit pb_realloc pb_free callback_decode type_decoder calls depth fields dest) ∧
  total (pb_decode_delimited pb_realloc pb_free callback_decode type_decoder calls depth fields dest) ∧
  total (pb_decode_delimited_noinit pb_realloc pb_free callback_decode type_decoder calls depth fields dest).
Proof.
  intros Hwf Hle Hd Hs total.
  assert (∀ k (m : Dec ()), Loud k m → total m) as Htot.
  { intros k m Hm. subst total. cbv beta. specialize (Hm s Hs). unfold stream_of, dstate_has_stream in Hm.
    destruct (m s) as [r s']. destruct Hm as (Hw & L & _). split; [|done]. intros ->. exact L. }
  pose proof (noinit_loud pb_realloc pb_free callback_decode type_decoder calls depth _ _ _ _ Hwf Hle Hd) as H1.
  assert (Loud 0 (pb_decode pb_realloc pb_free callback_decode type_decoder calls depth fields dest)) as H2.
  { eapply (decode_or_release_loud pb_realloc pb_free callback_decode type_decoder); [|exact Hwf|done|done].
    intros wfd' fields' n' dest' Hwf' Hl' Hd'. by eapply noinit_loud. }
  split_and!; eapply Htot; try done; by apply delimited_loud.
Qed.

Lemma decode_total_witness :
  let s := {| ds_stream := pb_istream_from_buffer [8; 1; 26; 9; 1; 0; 0; 0] 8;
              ds_mem := replicate 40 7; ds_count := 0 |} in
  let '(r, s') := pb_decode (D := λ _, []) (λ m _ _, (0, m)) (λ m _, m) (λ _ _ _, ret0)
    (λ _ _ _ _, ret0) 0 1 safety_fields 8 s in
  (r = None → is_errmsg (ds_stream s') ≠ None) ∧ within (ds_stream s) (ds_stream s').
Proof.
  assert (wf_message (D := λ _, []) 1 safety_fields 21 = true) as H1 by (vm_compute; reflexivity).
  assert (istream_ok (pb_istream_from_buffer [8; 1; 26; 9; 1; 0; 0; 0] 8)) as H2 by decide_now.
  assert (1 <= 1)%nat as H3 by lia. assert (0 < 8) as H4 by lia.
  exact (proj1 (decode_total (D := λ _, []) (λ m _ _, (0, m)) (λ m _, m) (λ _ _ _, ret0)
    (λ _ _ _ _, ret0) 0 1 1 safety_fields 21 8
    {| ds_stream := pb_istream_from_buffer [8; 1; 26; 9; 1; 0; 0; 0] 8;
       ds_mem := replicate 40 7; ds_count := 0 |} H1 H3 H4 H2)).
Defined.
