(* ===== verification/PbMemory.v ===== *)
(** Memory regions: which bytes two memories share, and what loads and stores do to
    them. *)
From S2P Require Import Prelude PbWire PbRead PbField PbEncode PbSafety.

Open Scope Z_scope.

(** * Regions that two memories share *)

Definition same_on (lo hi : Z) (m m' : bytes) : Prop :=
  ∀ x, lo <= x < hi → m !! Z.to_nat x = m' !! Z.to_nat x.

Lemma same_on_refl lo hi m : same_on lo hi m m.
Proof. done. Qed.
Lemma same_on_sym lo hi m m' : same_on lo hi m m' → same_on lo hi m' m.
Proof. intros H x Hx. by rewrite H. Qed.
Lemma same_on_trans lo hi m1 m2 m3 : same_on lo hi m1 m2 → same_on lo hi m2 m3 → same_on lo hi m1 m3.
Proof. intros H1 H2 x Hx. by rewrite H1, H2. Qed.
Lemma same_on_mono lo hi lo' hi' m m' :
  same_on lo' hi' m m' → lo' <= lo → hi <= hi' → same_on lo hi m m'.
Proof. intros H H1 H2 x Hx. apply H. lia. Qed.

(** Intervals given by start and length; an empty one is apart from any. *)
Definition apart (a la b lb : Z) : bool :=
  (la <=? 0) || (lb <=? 0) || (a + la <=? b) || (b + lb <=? a).

Lemma same_outside_on lo len p n m m' :
  same_outside lo (lo + len) m m' → 0 <= lo → 0 <= len → 0 <= p → apart lo len p n = true →
  same_on p (p + n) m m'.
Proof.
  intros (_ & Ht & Hd) Hlo Hlen Hp Ha x Hx. unfold apart in Ha.
  assert (x < lo ∨ lo + len <= x ∨ len = 0) as [H|[H|H]].
  { repeat rewrite orb_true_iff in Ha. destruct Ha as [[[?|?]|?]|?]; bools; lia. }
  - unfold takeZ in Ht. rewrite <-(lookup_take_lt m (Z.to_nat lo)), <-(lookup_take_lt m' (Z.to_nat lo)) by lia.
    by rewrite Ht.
  - unfold dropZ in Hd. replace (Z.to_nat x) with (Z.to_nat (lo + len) + (Z.to_nat x - Z.to_nat (lo + len)))%nat by lia.
    by rewrite <-!lookup_drop, Hd.
  - subst len. rewrite Z.add_0_r in Hd. f_equal. rewrite <-(takeZ_dropZ lo m), <-(takeZ_dropZ lo m').
    by rewrite Ht, Hd.
Qed.

Lemma load_same p n m m' : 0 <= p → same_on p (p + n) m m' → load m p n = load m' p n.
Proof.
  intros Hp H. unfold load, takeZ, dropZ. apply list_eq. intros i.
  destruct (decide (i < Z.to_nat n)%nat) as [Hi|Hi].
  - rewrite !lookup_take_lt, !lookup_drop by done. specialize (H (p + Z.of_nat i) ltac:(lia)).
    by rewrite Z2Nat.inj_add, Nat2Z.id in H by lia.
  - by rewrite !lookup_take_ge by lia.
Qed.

Lemma load_take p n k m : 0 <= k <= n → load m p k = takeZ k (load m p n).
Proof. intros Hk. unfold load. by rewrite takeZ_takeZ by lia. Qed.

Lemma load_drop p n k m : 0 <= p → 0 <= k → 0 <= n → load m (p + k) n = dropZ k (load m p (k + n)).
Proof.
  intros Hp Hk Hn. unfold load. rewrite dropZ_takeZ, dropZ_dropZ by lia. f_equal. lia.
Qed.

Lemma lenZ_load m p n : 0 <= p → 0 <= n → p + n <= lenZ m → lenZ (load m p n) = n.
Proof. intros. unfold load. rewrite lenZ_takeZ; [done|]. rewrite lenZ_dropZ; lia. Qed.

(** * Stores *)

Lemma store_length m p bs : 0 <= p → p + lenZ bs <= lenZ m → lenZ (store m p bs) = lenZ m.
Proof. apply lenZ_write_at. Qed.

Lemma load_store m p bs n : 0 <= p → p + lenZ bs <= lenZ m → n = lenZ bs → load (store m p bs) p n = bs.
Proof.
  intros Hp Hl ->. unfold load, store, write_at. rewrite dropZ_app by (rewrite lenZ_takeZ; llia).
  by apply takeZ_app.
Qed.

Lemma store_same m p bs a n :
  0 <= p → p + lenZ bs <= lenZ m → 0 <= a → apart p (lenZ bs) a n = true →
  same_on a (a + n) m (store m p bs).
Proof.
  intros Hp Hl Ha Hap. apply (same_outside_on p (lenZ bs)); [|done|apply (lenZ_nonneg bs)|done|exact Hap].
  apply store_outside; lia.
Qed.

Lemma bytes_ok_store m p bs : bytes_ok m → bytes_ok bs → bytes_ok (store m p bs).
Proof.
  intros Hm Hb. unfold store, write_at, takeZ, dropZ. rewrite !bytes_ok_app. split_and!; [|done|].
  - by apply Forall_take.
  - by apply Forall_drop.
Qed.

(** * Numbers *)

Lemma load_u8_store m p b bs : 0 <= p → p + lenZ (b :: bs) <= lenZ m → load_u8 (store m p (b :: bs)) p = b.
Proof.
  intros Hp Hl. unfold load_u8. rewrite (load_take p (lenZ (b :: bs)) 1) by llia.
  rewrite load_store by done. rewrite takeZ_cons by lia. cbn [le_value takeZ]. change (takeZ (1 - 1) bs) with (@nil Z). cbn. lia.
Qed.

Lemma le_value_small n v : 0 <= v < 256 ^ Z.of_nat n → le_value (le_bytes n v) = v.
Proof. intros Hv. by rewrite le_value_le_bytes, Z.mod_small. Qed.

Lemma load_size_store m p v : 0 <= p → p + 4 <= lenZ m → fits 32 v → load_size (store m p (le_bytes 4 v)) p = v.
Proof.
  intros Hp Hl Hv. unfold load_size. rewrite load_store by (rewrite ?lenZ_le_bytes; done || lia).
  apply le_value_small. change (256 ^ Z.of_nat 4) with (2 ^ 32). exact Hv.
Qed.

(** Storing a number of [n] bytes and loading it, with or without a sign. *)
Lemma sint_mod w z : 0 < w → sint w (z mod 2 ^ w) = sint w z.
Proof. intros Hw. unfold sint, wrap. rewrite Z.add_mod_idemp_l; [done|]. pose proof (Z.pow_pos_nonneg 2 w). lia. Qed.

Lemma pow_256 n : 256 ^ Z.of_nat n = 2 ^ (8 * Z.of_nat n).
Proof. rewrite Z.pow_mul_r by lia. done. Qed.

Lemma le_bytes_le_value x : bytes_ok x → le_bytes (length x) (le_value x) = x.
Proof.
  induction x as [|b x IH]; [done|]. intros H. apply bytes_ok_cons in H as [Hb Hx].
  cbn [length le_bytes le_value]. f_equal; [mlia|].
  replace ((b + 256 * le_value x) / 256) with (le_value x) by mlia. by apply IH.
Qed.

(** * Strings

    A string ends at its first zero byte or with its buffer. *)

Definition c_string (buffer : bytes) : bytes := takeZ (string_length buffer (lenZ buffer)) buffer.

Lemma string_length_take l n : 0 <= n → string_length (takeZ n l) (lenZ (takeZ n l)) = string_length l n.
Proof.
  revert n. induction l as [|b l IH]; intros n Hn.
  - unfold takeZ. by rewrite take_nil.
  - destruct (Z.eq_dec n 0) as [->|]; [done|]. rewrite takeZ_cons by lia.
    cbn [string_length]. rewrite lenZ_cons. pose proof (lenZ_nonneg (takeZ (n - 1) l)).
    rewrite (proj2 (Z.ltb_lt 0 n)), (proj2 (Z.ltb_lt 0 (1 + _))) by lia.
    destruct (negb _); [|done]. cbn [andb]. f_equal.
    replace (1 + lenZ (takeZ (n - 1) l) - 1) with (lenZ (takeZ (n - 1) l)) by lia. apply IH. lia.
Qed.

Lemma string_length_le l n : 0 <= n → string_length l n <= n.
Proof.
  revert n. induction l as [|b l IH]; intros n Hn; cbn [string_length]; [lia|].
  destruct (Z.ltb_spec 0 n); cbn [andb]; [|lia]. specialize (IH (n - 1) ltac:(lia)). destruct (negb _); lia.
Qed.

Lemma string_length_nonneg l n : 0 <= string_length l n.
Proof. revert n. induction l as [|b l IH]; intros n; cbn [string_length]; [lia|]. specialize (IH (n - 1)). destruct (_ && _); lia. Qed.

Lemma load_string m p n :
  0 <= n → load m p (string_length (dropZ p m) n) = c_string (load m p n).
Proof.
  intros Hn. unfold c_string, load at 2. rewrite string_length_take by done.
  apply load_take. pose proof (string_length_le (dropZ p m) n Hn).
  pose proof (string_length_nonneg (dropZ p m) n). lia.
Qed.

(** A string in a longer buffer. *)
Lemma string_length_app x r n :
  Forall (λ b, b ≠ 0) x → lenZ x < n → string_length (x ++ 0 :: r) n = lenZ x.
Proof.
  revert n. induction x as [|b x IH]; intros n Hx Hn; cbn [app string_length].
  - cbn. by rewrite andb_false_r.
  - apply Forall_cons in Hx as [Hb Hx]. rewrite lenZ_cons in *. pose proof (lenZ_nonneg x).
    rewrite (proj2 (Z.ltb_lt 0 n)), (proj2 (Z.eqb_neq _ _) Hb) by lia. cbn [negb andb].
    rewrite IH by (done || lia). lia.
Qed.

Lemma c_string_nonzero l : Forall (λ b, b ≠ 0) (c_string l).
Proof.
  unfold c_string. generalize (lenZ l) as n. induction l as [|b l IH]; intros n; cbn [string_length].
  - unfold takeZ. by rewrite take_nil.
  - destruct (0 <? n); cbn [andb]; [|by rewrite takeZ_0].
    destruct (Z.eqb_spec b 0); cbn [negb]; [by rewrite takeZ_0|].
    pose proof (string_length_nonneg l (n - 1)). rewrite takeZ_cons by lia. constructor; [done|].
    replace (1 + string_length l (n - 1) - 1) with (string_length l (n - 1)) by lia. apply IH.
Qed.

Lemma lenZ_c_string l : lenZ (c_string l) = string_length l (lenZ l).
Proof.
  unfold c_string. apply lenZ_takeZ. pose proof (string_length_le l (lenZ l) (lenZ_nonneg l)).
  pose proof (string_length_nonneg l (lenZ l)). lia.
Qed.

Lemma c_string_app x r : Forall (λ b, b ≠ 0) x → c_string (x ++ 0 :: r) = x.
Proof.
  intros Hx. unfold c_string. rewrite string_length_app; [by apply takeZ_app|done|].
  rewrite lenZ_app, lenZ_cons. pose proof (lenZ_nonneg r). lia.
Qed.
