(* ===== verification/PbPlain.v ===== *)
(** Plain messages: static fields whose values an encoding determines, at places of their own.  What
    their encoding reads, and the state their defaults leave. *)
From stdpp Require Import strings.
From S2P Require Import Prelude PbWire PbRead PbWrite PbField PbEncode PbEncodeSpec PbDecode PbLayout PbSafety PbMemory.

Open Scope Z_scope.

(** * Plain messages *)

(** Is there a has-field? *)
Definition explicit (f : pb_field) : bool := negb (size_offset f =? 0).

(** The bytes of the has-field or the count. *)
Definition cell_len (f : pb_field) : Z :=
  if PB_HTYPE (type f) =? PB_HTYPE_REPEATED then 4
  else if (PB_HTYPE (type f) =? PB_HTYPE_OPTIONAL) && explicit f then 1 else 0.

(** Required, optional (with a has-field, or with 0 standing for absent, as in proto3) or an array
    with a count; not a union, nor an array without a count. *)
Definition plain_field (f : pb_field) : bool :=
  let l := PB_LTYPE (type f) in
  let h := PB_HTYPE (type f) in
  static_field f && (tag f <? 2 ^ 29) &&
  ((h =? PB_HTYPE_REQUIRED) || (h =? PB_HTYPE_OPTIONAL) || ((h =? PB_HTYPE_REPEATED) && explicit f)) &&
  (if l =? PB_LTYPE_BOOL then data_size f =? 1
   else if l =? PB_LTYPE_FIXED32 then data_size f =? 4
   else if l =? PB_LTYPE_FIXED64 then data_size f =? 8
   else if l =? PB_LTYPE_BYTES then 4 <=? data_size f
   else if l =? PB_LTYPE_STRING then 1 <=? data_size f
   else if l =? PB_LTYPE_SUBMESSAGE then negb (ptr f =? NULL)
   else true) &&
  (if (h =? PB_HTYPE_OPTIONAL) && negb (explicit f) && negb (l =? PB_LTYPE_SUBMESSAGE)
   then ptr f =? NULL else true).

(** No field's data or count lies in another's. *)
Definition places_apart (fields : list pb_field) : bool :=
  let data i := (data_at fields i, extent (field_at fields i)) in
  let cell i := (size_at fields i, cell_len (field_at fields i)) in
  let off (s t : Z * Z) := apart s.1 s.2 t.1 t.2 in
  let ids := seq 0 (length fields) in
  forallb (λ i, forallb (λ j,
    off (data i) (cell j) &&
    (if (i =? j)%nat then true else off (data i) (data j) && off (cell i) (cell j))) ids) ids.

Fixpoint plain_message {D : Descriptors} (depth : nat) (fields : list pb_field) : bool :=
  match depth with
  | O => false
  | S depth =>
      forallb (λ i, plain_field (field_at fields i) &&
        (if PB_LTYPE (type (field_at fields i)) =? PB_LTYPE_SUBMESSAGE
         then plain_message depth (fields_at (ptr (field_at fields i))) else true))
        (seq 0 (length fields)) &&
      bool_decide (NoDup (map tag fields)) && places_apart fields && (lenZ fields <? 2 ^ 32)
  end.

Record plain_facts (f : pb_field) : Prop := {
  pf_static : static_field f = true;
  pf_tag : 0 < tag f < 2 ^ 29;
  pf_rule : PB_HTYPE (type f) = PB_HTYPE_REQUIRED ∨ PB_HTYPE (type f) = PB_HTYPE_OPTIONAL ∨
    (PB_HTYPE (type f) = PB_HTYPE_REPEATED ∧ explicit f = true);
  pf_bool : PB_LTYPE (type f) = PB_LTYPE_BOOL → data_size f = 1;
  pf_fixed32 : PB_LTYPE (type f) = PB_LTYPE_FIXED32 → data_size f = 4;
  pf_fixed64 : PB_LTYPE (type f) = PB_LTYPE_FIXED64 → data_size f = 8;
  pf_bytes : PB_LTYPE (type f) = PB_LTYPE_BYTES → 4 <= data_size f;
  pf_string : PB_LTYPE (type f) = PB_LTYPE_STRING → 1 <= data_size f;
  pf_sub : PB_LTYPE (type f) = PB_LTYPE_SUBMESSAGE → ptr f ≠ NULL;
  pf_ptr : PB_HTYPE (type f) = PB_HTYPE_OPTIONAL → explicit f = false →
    PB_LTYPE (type f) ≠ PB_LTYPE_SUBMESSAGE → ptr f = NULL;
}.

Lemma plain_field_facts f : plain_field f = true → plain_facts f.
Proof.
  unfold plain_field. intros H. bools.
  destruct (static_field_inv f) as ((Ht & _) & Hz & _); [done|].
  match goal with H : (if _ =? PB_LTYPE_BOOL then _ else _) = true |- _ => rename H into Hs end.
  match goal with H : (if _ && _ then _ else _) = true |- _ => rename H into Hp end.
  match goal with H : _ || _ = true |- _ => rename H into Hr end.
  split; try done; try (intros Hl; rewrite Hl in Hs; cbn in Hs; by bools).
  - destruct Ht. lia.
  - rewrite !orb_true_iff in Hr. destruct Hr as [[Hr|Hr]|Hr]; bools; auto.
  - intros Ho He Hl. rewrite Ho, He, (proj2 (Z.eqb_neq _ _) Hl) in Hp. cbn in Hp. by bools.
Qed.

Lemma seq_In i n : (i < n)%nat → In i (seq 0 n).
Proof. intros. apply in_seq. lia. Qed.

Section plain.
Context {D : Descriptors}.

Lemma plain_inv depth fields :
  plain_message depth fields = true →
  (∀ i, (i < length fields)%nat → plain_facts (field_at fields i)) ∧
  (∀ i, (i < length fields)%nat → PB_LTYPE (type (field_at fields i)) = PB_LTYPE_SUBMESSAGE →
    ∃ d, depth = S d ∧ plain_message d (fields_at (ptr (field_at fields i))) = true) ∧
  NoDup (map tag fields) ∧ places_apart fields = true ∧ lenZ fields < 2 ^ 32.
Proof.
  destruct depth as [|d]; [done|]. cbn [plain_message]. intros H. bools.
  match goal with H : forallb _ _ = true |- _ => rename H into Hf end.
  match goal with H : bool_decide _ = true |- _ => apply bool_decide_eq_true in H end.
  rewrite forallb_forall in Hf. split_and!; try done.
  - intros i Hi. specialize (Hf i (seq_In _ _ Hi)). bools. by apply plain_field_facts.
  - intros i Hi Hm. specialize (Hf i (seq_In _ _ Hi)). bools. exists d. split; [done|].
    by rewrite Hm in *.
Qed.

Lemma places_apart_inv fields i j :
  places_apart fields = true → (i < length fields)%nat → (j < length fields)%nat →
  apart (data_at fields i) (extent (field_at fields i)) (size_at fields j) (cell_len (field_at fields j)) = true ∧
  (i ≠ j →
   apart (data_at fields i) (extent (field_at fields i)) (data_at fields j) (extent (field_at fields j)) = true ∧
   apart (size_at fields i) (cell_len (field_at fields i)) (size_at fields j) (cell_len (field_at fields j)) = true).
Proof.
  intros H Hi Hj. unfold places_apart in H. rewrite forallb_forall in H.
  specialize (H i (seq_In _ _ Hi)). rewrite forallb_forall in H. specialize (H j (seq_In _ _ Hj)).
  cbn [fst snd] in H. bools. split; [done|]. intros Hne. rewrite (proj2 (Nat.eqb_neq _ _) Hne) in *. by bools.
Qed.
End plain.

Lemma apart_sym a la b lb : apart a la b lb = apart b lb a la.
Proof. unfold apart. destruct (la <=? 0), (lb <=? 0), (a + la <=? b), (b + lb <=? a); done. Qed.

Lemma apart_shift d a la b lb : apart (d + a) la (d + b) lb = apart a la b lb.
Proof.
  assert (∀ x y, (d + x <=? d + y) = (x <=? y)) as H
    by (intros x y; destruct (Z.leb_spec (d + x) (d + y)), (Z.leb_spec x y); lia || done).
  unfold apart. by rewrite <-!Z.add_assoc, !H.
Qed.

(** Fields that are no union have their count or has-field next to them. *)
Lemma size_at_eq fields i :
  (∀ j, (j < length fields)%nat → PB_HTYPE (type (field_at fields j)) ≠ PB_HTYPE_ONEOF) →
  (i < length fields)%nat →
  size_at fields i = data_at fields i + size_offset (field_at fields i).
Proof.
  intros Hu Hi. unfold size_at, data_at. destruct i as [|i]; cbn [place]; [done|].
  destruct (place fields i) as [[data size] req].
  unfold in_union. rewrite (proj2 (Z.eqb_neq _ _) (Hu i ltac:(lia))). done.
Qed.

(** * The encoding of a message, place by place *)

Section places.
Context {D : Descriptors}.

Lemma iter_list_at fields dest fuel i :
  dest ≠ NULL → (∀ j, (j < length fields)%nat → static_field (field_at fields j) = true) →
  (i + fuel = length fields)%nat →
  iter_list fuel (iter_at fields dest i) =
    map (λ j, (field_at fields j, dest + data_at fields j)) (seq i fuel).
Proof.
  intros Hd Ht. revert i. induction fuel as [|fuel IH]; intros i Hi; [done|].
  cbn [iter_list seq map]. rewrite pos_iter_at, pData_iter_at, iter_next_at by (done || lia).
  f_equal. destruct (Nat.ltb_spec (S i) (length fields)); [by apply IH; lia|].
  by replace fuel with 0%nat by lia.
Qed.

Lemma message_fields_eq wfd fields n src :
  wf_message wfd fields n = true → src ≠ NULL →
  message_fields fields src = map (λ j, (field_at fields j, src + data_at fields j)) (seq 0 (length fields)).
Proof.
  intros Hwf Hs. destruct (wf_message_inv _ _ _ Hwf) as (_ & Ht & _). rewrite message_fields_iter.
  rewrite iter_begin_at by done. destruct fields as [|f fs]; [done|]. by apply iter_list_at.
Qed.

Lemma check_fields_at check fields dest fuel i :
  dest ≠ NULL → (∀ j, (j < length fields)%nat → static_field (field_at fields j) = true) →
  (i + fuel = length fields)%nat →
  check_fields check fuel (iter_at fields dest i) =
    forallb (λ j, check (field_at fields j) (dest + data_at fields j)) (seq i fuel).
Proof.
  intros Hd Ht. revert i. induction fuel as [|fuel IH]; intros i Hi; [done|].
  cbn [check_fields seq forallb]. rewrite pos_iter_at, pData_iter_at, iter_next_at by (done || lia).
  destruct (check _ _); [|done]. cbn [negb andb].
  destruct (Nat.ltb_spec (S i) (length fields)); [by apply IH; lia|].
  by replace fuel with 0%nat by lia.
Qed.

Context (mem : bytes).

(** Is every value of a message its default? *)
Definition message_default (depth : nat) (fields : list pb_field) (p : Z) : bool :=
  match depth with
  | O => true
  | S depth =>
      let '(iter, nonempty) := pb_field_iter_begin fields p in
      if nonempty then check_fields (pb_check_proto3_default_value mem depth) (length (start iter)) iter
      else true
  end.

(** Is the value of a field, apart from has-field and count? *)
Definition value_default (depth : nat) (f : pb_field) (p : Z) : bool :=
  let l := PB_LTYPE (type f) in
  if l =? PB_LTYPE_BYTES then load_size mem p =? 0
  else if l =? PB_LTYPE_STRING then load_u8 mem p =? 0
  else if l =? PB_LTYPE_FIXED_LENGTH_BYTES then data_size f =? 0
  else if l =? PB_LTYPE_SUBMESSAGE then message_default depth (fields_at (ptr f)) p
  else forallb (λ b, b =? 0) (load mem p (data_size f)).

Lemma check_eq depth f p :
  plain_facts f →
  pb_check_proto3_default_value mem depth f p =
    if PB_HTYPE (type f) =? PB_HTYPE_REQUIRED then false
    else if PB_HTYPE (type f) =? PB_HTYPE_REPEATED then load_size mem (p + size_offset f) =? 0
    else if explicit f then negb (safe_read_bool mem (p + size_offset f))
    else value_default depth f p.
Proof.
  intros [Hs _ Hr]. destruct (static_field_inv f Hs) as (_ & _ & Ha & _).
  assert (∀ depth, (if (PB_ATYPE (type f) =? PB_ATYPE_STATIC) && (PB_LTYPE (type f) =? PB_LTYPE_BYTES) then
      load_size mem p =? 0
    else if (PB_ATYPE (type f) =? PB_ATYPE_STATIC) && (PB_LTYPE (type f) =? PB_LTYPE_STRING)
      then load_u8 mem p =? 0
    else if (PB_ATYPE (type f) =? PB_ATYPE_STATIC) &&
            (PB_LTYPE (type f) =? PB_LTYPE_FIXED_LENGTH_BYTES) then data_size f =? 0
    else if (PB_ATYPE (type f) =? PB_ATYPE_STATIC) &&
            (PB_LTYPE (type f) =? PB_LTYPE_SUBMESSAGE) then message_default depth (fields_at (ptr f)) p
    else if (PB_ATYPE (type f) =? PB_ATYPE_POINTER) &&
            (PB_LTYPE_LAST_PACKABLE <? PB_LTYPE (type f)) then load_ptr mem p =? NULL
    else forallb (λ b, b =? 0) (load mem p (data_size f))) = value_default depth f p) as Hv.
  { intros d. rewrite Ha. cbn [Z.eqb PB_ATYPE_STATIC PB_ATYPE_POINTER andb]. reflexivity. }
  unfold explicit in *. destruct depth as [|depth]; cbn [pb_check_proto3_default_value].
  - specialize (Hv 0%nat). cbn [message_default] in Hv. rewrite Hv.
    destruct Hr as [->|[->|[-> He]]]; cbn [Z.eqb PB_HTYPE_REQUIRED PB_HTYPE_OPTIONAL PB_HTYPE_REPEATED PB_HTYPE_ONEOF andb]; [done| |by rewrite He].
    by destruct (negb _).
  - specialize (Hv (S depth)). cbn [message_default] in Hv. rewrite Hv.
    destruct Hr as [->|[->|[-> He]]]; cbn [Z.eqb PB_HTYPE_REQUIRED PB_HTYPE_OPTIONAL PB_HTYPE_REPEATED PB_HTYPE_ONEOF andb]; [done| |by rewrite He].
    by destruct (negb _).
Qed.
End places.

(** * The encoding depends on the structure only

    Two memories that agree on a structure have the same encoding of it. *)

Section agreement.
Context {D : Descriptors}.

Lemma load_part_same p n k l m m' :
  0 <= p → 0 <= k → k + l <= n → same_on p (p + n) m m' → load m (p + k) l = load m' (p + k) l.
Proof. intros Hp Hk Hl Hs. apply load_same; [lia|]. eapply same_on_mono; [exact Hs|lia..]. Qed.

Lemma load_head_same p n l m m' :
  0 <= p → l <= n → same_on p (p + n) m m' → load m p l = load m' p l.
Proof. intros Hp Hl Hs. apply load_same; [lia|]. eapply same_on_mono; [exact Hs|lia..]. Qed.

(** The widths that the number types load are those they have. *)
Lemma load_signed_same f p m m' :
  0 <= p → same_on p (p + data_size f) m m' → load_signed m f p = load_signed m' f p.
Proof.
  intros Hp Hs. unfold load_signed.
  repeat match goal with |- context [data_size f =? ?k] => destruct (Z.eqb_spec (data_size f) k) as [Hk|];
    [rewrite Hk in Hs; by rewrite (load_same p _ m m')|] end. done.
Qed.
Lemma load_unsigned_same f p m m' :
  0 <= p → same_on p (p + data_size f) m m' → load_unsigned m f p = load_unsigned m' f p.
Proof.
  intros Hp Hs. unfold load_unsigned.
  repeat match goal with |- context [data_size f =? ?k] => destruct (Z.eqb_spec (data_size f) k) as [Hk|];
    [rewrite Hk in Hs; by rewrite (load_same p _ m m')|] end. done.
Qed.

Section value.
Context (m m' : bytes) (sub sub' : list pb_field → Z → option bytes) (depth : nat).

Lemma value_same f p :
  plain_facts f → 0 < p → same_on p (p + data_size f) m m' →
  (PB_LTYPE (type f) = PB_LTYPE_SUBMESSAGE →
   sub (fields_at (ptr f)) p = sub' (fields_at (ptr f)) p ∧
   message_default m depth (fields_at (ptr f)) p = message_default m' depth (fields_at (ptr f)) p) →
  value_bytes m sub f p = value_bytes m' sub' f p ∧
  value_default m depth f p = value_default m' depth f p.
Proof.
  intros Hf Hp Hs Hsub. destruct (static_field_inv f (pf_static f Hf)) as ((_ & _ & [Hd H32] & _) & _ & Ha & _ & Ht & _).
  assert (∀ l, l <= data_size f → load m p l = load m' p l) as Hh
    by (intros l Hl; apply (load_head_same p (data_size f)); done || lia).
  rewrite !value_bytes_eq. unfold value_default, touched in *. rewrite Ha.
  destruct (Z.eqb_spec (PB_LTYPE (type f)) PB_LTYPE_BOOL) as [->|_].
  { unfold safe_read_bool, load_u8. rewrite (Hh 1) by done. rewrite (Hh (data_size f)) by done. done. }
  destruct (Z.eqb_spec (PB_LTYPE (type f)) PB_LTYPE_VARINT) as [->|_].
  { rewrite (load_signed_same f p m m'), (Hh (data_size f)) by (done || lia). done. }
  destruct (Z.eqb_spec (PB_LTYPE (type f)) PB_LTYPE_UVARINT) as [->|_].
  { rewrite (load_unsigned_same f p m m'), (Hh (data_size f)) by (done || lia). done. }
  destruct (Z.eqb_spec (PB_LTYPE (type f)) PB_LTYPE_SVARINT) as [->|_].
  { rewrite (load_signed_same f p m m'), (Hh (data_size f)) by (done || lia). done. }
  destruct (Z.eqb_spec (PB_LTYPE (type f)) PB_LTYPE_FIXED32) as [->|_].
  { rewrite (Hh 4), (Hh (data_size f)) by done. done. }
  destruct (Z.eqb_spec (PB_LTYPE (type f)) PB_LTYPE_FIXED64) as [->|_].
  { rewrite (Hh 8), (Hh (data_size f)) by done. done. }
  destruct (Z.eqb_spec (PB_LTYPE (type f)) PB_LTYPE_BYTES) as [Hl|_].
  { pose proof (pf_bytes f Hf Hl) as H4. unfold load_size. rewrite (Hh 4) by done. split; [|done].
    destruct (p =? NULL); [done|]. cbn [Z.eqb PB_ATYPE_STATIC andb].
    destruct (Z.ltb_spec (size_t (data_size f - offsetof_bytes)) (le_value (load m' p 4))) as [|Hle]; [done|].
    unfold memory_string, offsetof_bytes in *. rewrite wrap_small in Hle by mlia.
    rewrite (load_part_same p (data_size f) 4 _ m m') by (done || lia). done. }
  destruct (Z.eqb_spec (PB_LTYPE (type f)) PB_LTYPE_STRING) as [Hl|_].
  { pose proof (pf_string f Hf Hl). unfold load_u8. rewrite (Hh 1) by lia. split; [|done].
    destruct (p =? NULL); [done|]. cbn [Z.eqb PB_ATYPE_STATIC PB_ATYPE_POINTER].
    rewrite !load_string, (Hh (data_size f)) by lia. done. }
  destruct (Z.eqb_spec (PB_LTYPE (type f)) PB_LTYPE_SUBMESSAGE) as [Hl|_].
  { destruct (Hsub Hl) as [-> ->]. rewrite Hl. done. }
  unfold memory_string. rewrite (Hh (data_size f)) by done. done.
Qed.

Lemma items_same (item item' : Z → option bytes) count p step :
  (∀ k, 0 <= k < Z.of_nat count → item (p + k * step) = item' (p + k * step)) →
  items_of count item p step = items_of count item' p step.
Proof.
  revert p. induction count as [|count IH]; intros p H; [done|]. cbn [items_of].
  pose proof (H 0 ltac:(lia)) as H0. rewrite Z.mul_0_l, Z.add_0_r in H0. rewrite H0.
  destruct (item' p) as [b|]; [|done]. cbn [mbind option_bind]. rewrite IH; [done|].
  intros k Hk. replace (p + step + k * step) with (p + (k + 1) * step) by lia. apply H. lia.
Qed.

(** What is read of a field at [p]: its data, and its has-field or count. *)
Lemma field_same f p :
  plain_facts f → 0 < p → (0 < cell_len f → 0 <= p + size_offset f) →
  same_on p (p + extent f) m m' →
  same_on (p + size_offset f) (p + size_offset f + cell_len f) m m' →
  (PB_LTYPE (type f) = PB_LTYPE_SUBMESSAGE → ∀ q, 0 < q → same_on q (q + data_size f) m m' →
   sub (fields_at (ptr f)) q = sub' (fields_at (ptr f)) q ∧
   message_default m depth (fields_at (ptr f)) q = message_default m' depth (fields_at (ptr f)) q) →
  field_bytes m sub depth f p = field_bytes m' sub' depth f p ∧
  pb_check_proto3_default_value m depth f p = pb_check_proto3_default_value m' depth f p.
Proof.
  intros Hf Hp Hc Hd Hcell Hsub.
  destruct (static_field_inv f (pf_static f Hf)) as ((_ & _ & [H0 _] & [Ha0 _]) & _ & Ha & Hx & _ & H32).
  assert (∀ q, 0 < q → same_on q (q + data_size f) m m' →
    value_bytes m sub f q = value_bytes m' sub' f q ∧
    value_default m depth f q = value_default m' depth f q) as Hval
    by (intros q Hq Hs; apply value_same; auto).
  rewrite !check_eq by done. unfold field_bytes, member_bytes.
  rewrite (proj2 (Z.eqb_neq _ _) Hx), Ha, <-!absent_default. change (is_set m) with (safe_read_bool m). change (is_set m') with (safe_read_bool m'). cbn [Z.eqb PB_ATYPE_STATIC PB_ATYPE_POINTER PB_ATYPE_CALLBACK orb negb].
  unfold extent, cell_len, explicit in *.
  destruct (pf_rule f Hf) as [Hr|[Hr|[Hr He]]]; rewrite Hr in *;
    cbn [Z.eqb Pos.eqb PB_HTYPE_REQUIRED PB_HTYPE_OPTIONAL PB_HTYPE_REPEATED andb] in *.
  - destruct (Hval p) as [-> _]; done.
  - destruct (Hval p) as [-> Hdef]; [done..|].
    destruct (size_offset f =? 0) eqn:E; cbn [negb] in *.
    + rewrite !check_eq by done. unfold explicit. rewrite Hr, E.
      cbn [Z.eqb PB_HTYPE_REQUIRED PB_HTYPE_OPTIONAL PB_HTYPE_REPEATED negb]. by rewrite Hdef.
    + unfold safe_read_bool, load_u8. by rewrite (load_same _ 1 m m') by auto with lia.
  - unfold explicit in He. rewrite He. unfold load_size. rewrite (load_same _ 4 m m') by auto with lia.
    split; [|done]. set (n := le_value _). unfold array_bytes.
    destruct (n =? 0); [done|]. rewrite Ha. cbn [Z.eqb PB_ATYPE_STATIC PB_ATYPE_POINTER negb andb].
    destruct (Z.ltb_spec (array_size f) n); [done|].
    assert (∀ k, 0 <= k < Z.of_nat (Z.to_nat n) →
      value_bytes m sub f (p + k * data_size f) = value_bytes m' sub' f (p + k * data_size f)) as Hk.
    { intros k Hk. assert (0 <= k * data_size f ∧ k * data_size f + data_size f <= data_size f * array_size f) by nia.
      apply Hval; [lia|]. eapply same_on_mono; [exact Hd|lia..]. }
    unfold is_indirect. rewrite Ha. cbn [Z.eqb PB_ATYPE_STATIC PB_ATYPE_POINTER negb andb].
    destruct (_ <=? PB_LTYPE_LAST_PACKABLE).
    + by rewrite (items_same _ (value_bytes m' sub' f)).
    + apply items_same. intros k Hk'. by rewrite Hk.
Qed.
End value.

Lemma forallb_ext_in {A} (f g : A → bool) l : (∀ x, In x l → f x = g x) → forallb f l = forallb g l.
Proof.
  induction l as [|x l IH]; intros H; [done|]. cbn. rewrite (H x) by (by left).
  rewrite IH; [done|]. intros y Hy. apply H. by right.
Qed.
Lemma mapM_ext_in {A B} (f g : A → option B) l : (∀ x, In x l → f x = g x) → mapM f l = mapM g l.
Proof.
  induction l as [|x l IH]; intros H; [done|]. cbn. rewrite (H x) by (by left).
  rewrite IH; [done|]. intros y Hy. apply H. by right.
Qed.

Lemma mapM_map {A B C} (f : B → option C) (g : A → B) l : mapM f (map g l) = mapM (λ x, f (g x)) l.
Proof. induction l as [|x l IH]; [done|]. cbn. by rewrite IH. Qed.

Lemma message_bytes_eq wfd fields n m depth src :
  wf_message wfd fields n = true → src ≠ NULL →
  message_bytes m (S depth) fields src =
    bs ← mapM (λ i, field_bytes m (message_bytes m depth) depth (field_at fields i) (src + data_at fields i))
           (seq 0 (length fields));
    Some (concat bs).
Proof.
  intros Hwf Hs. cbn [message_bytes]. rewrite (message_fields_eq _ _ _ _ Hwf Hs). by rewrite mapM_map.
Qed.

Lemma message_default_eq wfd fields n m depth p :
  wf_message wfd fields n = true → p ≠ NULL →
  message_default m (S depth) fields p =
    forallb (λ i, pb_check_proto3_default_value m depth (field_at fields i) (p + data_at fields i))
      (seq 0 (length fields)).
Proof.
  intros Hwf Hp. destruct (wf_message_inv _ _ _ Hwf) as (_ & Ht & _). cbn [message_default].
  rewrite iter_begin_at by done. rewrite start_iter_at. destruct fields as [|f fs]; [done|].
  by apply check_fields_at.
Qed.

(** Where a plain field is in its structure. *)
Record placed (fields : list pb_field) (n p : Z) (i : nat) : Prop := {
  pl_facts : plain_facts (field_at fields i);
  pl_size : size_at fields i = data_at fields i + size_offset (field_at fields i);
  pl_data : p <= p + data_at fields i ∧
    p + data_at fields i + extent (field_at fields i) <= p + n;
  pl_cell : 0 < cell_len (field_at fields i) →
    p <= p + size_at fields i ∧ p + size_at fields i + cell_len (field_at fields i) <= p + n;
}.

Lemma plain_places wfd pd fields n p i :
  wf_message wfd fields n = true → plain_message pd fields = true → (i < length fields)%nat →
  placed fields n p i.
Proof.
  intros Hwf Hpl Hi. destruct (plain_inv _ _ Hpl) as (Hf & _). pose proof (Hf i Hi) as Hfi.
  assert (size_at fields i = data_at fields i + size_offset (field_at fields i)) as Hsz.
  { apply size_at_eq; [|done]. intros j Hj Ho. destruct (pf_rule _ (Hf j Hj)) as [H|[H|[H _]]]; by rewrite Ho in H. }
  destruct (wf_message_inv _ _ _ Hwf) as (_ & _ & Hw). destruct (Hw i Hi) as (Hd & Hs & _).
  apply inside_inv in Hd. split; [done|done|lia|]. intros Hc.
  unfold size_inside, cell_len, explicit in *.
  destruct (pf_rule _ Hfi) as [Hr|[Hr|[Hr _]]]; rewrite Hr in *;
    cbn [Z.eqb Pos.eqb PB_HTYPE_REQUIRED PB_HTYPE_OPTIONAL PB_HTYPE_REPEATED andb] in *; [lia| |].
  - destruct (Z.eqb_spec (size_offset (field_at fields i)) 0) as [|Hne]; cbn [negb] in *; [lia|].
    destruct (Z.eqb_spec (size_at fields i) (data_at fields i)); [lia|]. apply inside_inv in Hs. lia.
  - apply inside_inv in Hs. lia.
Qed.

Lemma message_same depth wfd pd fields n p m m' :
  wf_message wfd fields n = true → plain_message pd fields = true → 0 < p → same_on p (p + n) m m' →
  message_bytes m depth fields p = message_bytes m' depth fields p ∧
  message_default m depth fields p = message_default m' depth fields p.
Proof.
  revert wfd pd fields n p. induction depth as [|depth IH]; intros wfd pd fields n p Hwf Hpl Hp Hs; [done|].
  assert (∀ i, In i (seq 0 (length fields)) →
    field_bytes m (message_bytes m depth) depth (field_at fields i) (p + data_at fields i) =
    field_bytes m' (message_bytes m' depth) depth (field_at fields i) (p + data_at fields i) ∧
    pb_check_proto3_default_value m depth (field_at fields i) (p + data_at fields i) =
    pb_check_proto3_default_value m' depth (field_at fields i) (p + data_at fields i)) as Hi.
  { intros i Hi. apply in_seq in Hi. destruct (plain_places _ _ _ _ p i Hwf Hpl) as [Hf Hz Hd Hc]; [lia|].
    apply field_same; [done|lia| | | |].
    - intros H0. specialize (Hc H0). lia.
    - eapply same_on_mono; [exact Hs|lia..].
    - rewrite <-Z.add_assoc, <-Hz. destruct (Z.leb_spec (cell_len (field_at fields i)) 0); [intros x Hx; lia|].
      eapply same_on_mono; [exact Hs|lia..].
    - intros Hm q Hq Hsq. destruct (wf_message_inv _ _ _ Hwf) as (_ & _ & Hw).
      destruct (Hw i ltac:(lia)) as (_ & _ & Hsub). destruct (Hsub Hm) as (d & -> & Hwd).
      destruct (plain_inv _ _ Hpl) as (_ & Hps & _). destruct (Hps i ltac:(lia) Hm) as (d' & -> & Hpd).
      exact (IH d d' _ _ q Hwd Hpd Hq Hsq). }
  rewrite (message_bytes_eq _ _ _ m _ _ Hwf), (message_bytes_eq _ _ _ m' _ _ Hwf) by (unfold NULL; lia).
  rewrite (message_default_eq _ _ _ m _ _ Hwf), (message_default_eq _ _ _ m' _ _ Hwf) by (unfold NULL; lia).
  split.
  - by rewrite (mapM_ext_in _ _ _ (λ i H, proj1 (Hi i H))).
  - exact (forallb_ext_in _ _ _ (λ i H, proj2 (Hi i H))).
Qed.
End agreement.
