(* ===== verification/PbFresh.v ===== *)
(** The state in which a message is decoded into: what pb_message_set_to_defaults leaves, and that
    a value that was not encoded because it is a default is one afterwards. *)
From stdpp Require Import strings.
From S2P Require Import Prelude PbWire PbRead PbWrite PbField PbEncode PbEncodeSpec PbDecode PbLayout PbSafety PbTotal PbMemory PbPlain.

Open Scope Z_scope.

Definition is_sub (f : pb_field) : bool := PB_LTYPE (type f) =? PB_LTYPE_SUBMESSAGE.

(** * Fresh messages *)

Section fresh.
Context {D : Descriptors}.

Section field.
Context (sub : list pb_field → Z → Prop) (m : bytes).
(** Absent, zero where that stands for absent, empty; a submessage is fresh in turn. *)
Definition fresh_field (f : pb_field) (p : Z) : Prop :=
  (PB_HTYPE (type f) = PB_HTYPE_OPTIONAL → explicit f = true → load_u8 m (p + size_offset f) = 0) ∧
  (PB_HTYPE (type f) = PB_HTYPE_OPTIONAL → explicit f = false → is_sub f = false →
   Forall (λ b, b = 0) (load m p (data_size f))) ∧
  (PB_HTYPE (type f) = PB_HTYPE_REPEATED → load_size m (p + size_offset f) = 0) ∧
  (PB_HTYPE (type f) ≠ PB_HTYPE_REPEATED → is_sub f = true → sub (fields_at (ptr f)) p).
End field.

Fixpoint fresh (depth : nat) (m : bytes) (fields : list pb_field) (p : Z) : Prop :=
  match depth with
  | O => True
  | S depth => ∀ i, (i < length fields)%nat →
      fresh_field (fresh depth m) m (field_at fields i) (p + data_at fields i)
  end.

(** Freshness, too, depends on the structure only. *)
Lemma fresh_field_same sub sub' m m' f p :
  plain_facts f → 0 < p → (0 < cell_len f → 0 <= p + size_offset f) →
  same_on p (p + extent f) m m' →
  same_on (p + size_offset f) (p + size_offset f + cell_len f) m m' →
  (is_sub f = true → same_on p (p + data_size f) m m' →
   sub (fields_at (ptr f)) p → sub' (fields_at (ptr f)) p) →
  fresh_field sub m f p → fresh_field sub' m' f p.
Proof.
  intros Hf Hp Hc Hd Hcell Hsub (F1 & F2 & F3 & F4).
  unfold fresh_field, extent, cell_len in *. split_and!.
  - intros Ho He. rewrite Ho, He in *. cbn [Z.eqb Pos.eqb PB_HTYPE_OPTIONAL PB_HTYPE_REPEATED andb] in *.
    rewrite <-F1 by done. unfold load_u8. by rewrite (load_same _ 1 m m') by auto with lia.
  - intros Ho He Hs. rewrite Ho in *. cbn [Z.eqb Pos.eqb PB_HTYPE_OPTIONAL PB_HTYPE_REPEATED] in *.
    rewrite <-(load_same p _ m m') by (done || lia). by apply F2.
  - intros Hr. rewrite Hr in *. cbn [Z.eqb Pos.eqb PB_HTYPE_REPEATED] in *.
    rewrite <-F3 by done. unfold load_size. by rewrite (load_same _ 4 m m') by auto with lia.
  - intros Hr Hs. rewrite (proj2 (Z.eqb_neq _ _) Hr) in Hd. auto.
Qed.

Lemma fresh_same depth wfd pd fields n p m m' :
  wf_message wfd fields n = true → plain_message pd fields = true → 0 < p → same_on p (p + n) m m' →
  fresh depth m fields p → fresh depth m' fields p.
Proof.
  revert wfd pd fields n p. induction depth as [|depth IH]; intros wfd pd fields n p Hwf Hpl Hp Hs; [done|].
  intros Hfr i Hi. destruct (plain_places _ _ _ _ p i Hwf Hpl Hi) as [Hf Hz Hd Hc].
  eapply fresh_field_same; [done|lia| | | | |exact (Hfr i Hi)].
  - intros H0. specialize (Hc H0). lia.
  - eapply same_on_mono; [exact Hs|lia..].
  - rewrite <-Z.add_assoc, <-Hz. destruct (Z.leb_spec (cell_len (field_at fields i)) 0); [intros x Hx; lia|].
    eapply same_on_mono; [exact Hs|lia..].
  - intros Hm Hsq. apply Z.eqb_eq in Hm. destruct (wf_message_inv _ _ _ Hwf) as (_ & _ & Hw).
    destruct (Hw i Hi) as (_ & _ & Hsub). destruct (Hsub Hm) as (d & -> & Hwd).
    destruct (plain_inv _ _ Hpl) as (_ & Hps & _). destruct (Hps i Hi Hm) as (d' & -> & Hpd).
    apply (IH d d' _ (data_size (field_at fields i)) _ Hwd Hpd); [lia|done].
Qed.

(** * A default stays a default *)

Lemma zeros_value l : Forall (λ b, b = 0) l → le_value l = 0.
Proof. induction 1 as [|b l -> H IH]; [done|]. cbn. lia. Qed.

Lemma forall_take (P : Z → Prop) n (l : bytes) : Forall P l → Forall P (takeZ n l).
Proof. apply Forall_take. Qed.

Lemma fresh_default_value (sub : list pb_field → Z → Prop) m m' depth f a p :
  plain_facts f → is_sub f = false →
  Forall (λ b, b = 0) (load m' p (data_size f)) →
  value_default m depth f a = true → value_default m' depth f p = true.
Proof.
  intros Hf Hs Hz. unfold value_default, is_sub in *.
  destruct (Z.eqb_spec (PB_LTYPE (type f)) PB_LTYPE_BYTES) as [Hl|].
  { intros _. apply Z.eqb_eq. pose proof (pf_bytes f Hf Hl). unfold load_size.
    rewrite (load_take p (data_size f) 4) by lia. by apply zeros_value, forall_take. }
  destruct (Z.eqb_spec (PB_LTYPE (type f)) PB_LTYPE_STRING) as [Hl|].
  { intros _. apply Z.eqb_eq. pose proof (pf_string f Hf Hl). unfold load_u8.
    rewrite (load_take p (data_size f) 1) by lia. by apply zeros_value, forall_take. }
  destruct (_ =? PB_LTYPE_FIXED_LENGTH_BYTES); [done|]. rewrite Hs. intros _.
  apply forallb_forall. intros b Hb. rewrite Forall_forall in Hz.
  rewrite (Hz b); [done|]. by apply list_elem_of_In.
Qed.

Lemma fresh_check sub m m' depth f a p :
  plain_facts f → fresh_field sub m' f p →
  (is_sub f = true → sub (fields_at (ptr f)) p → message_default m depth (fields_at (ptr f)) a = true →
   message_default m' depth (fields_at (ptr f)) p = true) →
  pb_check_proto3_default_value m depth f a = true → pb_check_proto3_default_value m' depth f p = true.
Proof.
  intros Hf (F1 & F2 & F3 & F4) Hsub. rewrite !check_eq by done.
  destruct (Z.eqb_spec (PB_HTYPE (type f)) PB_HTYPE_REQUIRED) as [Hq|Hq]; [done|].
  destruct (Z.eqb_spec (PB_HTYPE (type f)) PB_HTYPE_REPEATED) as [Hr|Hr]; [by rewrite F3|].
  assert (PB_HTYPE (type f) = PB_HTYPE_OPTIONAL) as Ho by (destruct (pf_rule f Hf) as [?|[?|[? _]]]; done).
  destruct (explicit f) eqn:He; [unfold safe_read_bool; by rewrite F1|].
  destruct (is_sub f) eqn:Hs; [|by apply (fresh_default_value sub); auto].
  unfold value_default. unfold is_sub in Hs. apply Z.eqb_eq in Hs. rewrite Hs.
  cbn [Z.eqb Pos.eqb PB_LTYPE_SUBMESSAGE PB_LTYPE_BYTES PB_LTYPE_STRING PB_LTYPE_FIXED_LENGTH_BYTES].
  apply Hsub; [done|]. by apply F4.
Qed.

Lemma fresh_default depth wfd pd fields n m m' a p :
  wf_message wfd fields n = true → plain_message pd fields = true → 0 < a → 0 < p →
  fresh depth m' fields p → message_default m depth fields a = true → message_default m' depth fields p = true.
Proof.
  revert wfd pd fields n a p. induction depth as [|depth IH]; intros wfd pd fields n a p Hwf Hpl Ha Hp Hfr; [done|].
  rewrite (message_default_eq _ _ _ m _ _ Hwf), (message_default_eq _ _ _ m' _ _ Hwf)
    by (unfold NULL; lia).
  rewrite !forallb_forall. intros Hdef i Hin. pose proof Hin as Hi. apply in_seq in Hi.
  destruct (plain_places _ _ _ _ a i Hwf Hpl) as [Hf _ Hd _]; [lia|].
  eapply fresh_check; [done|apply (Hfr i); lia| |by apply Hdef].
  intros Hm Hsf Hsd. apply Z.eqb_eq in Hm. destruct (wf_message_inv _ _ _ Hwf) as (_ & _ & Hw).
  destruct (Hw i ltac:(lia)) as (_ & _ & Hsub). destruct (Hsub Hm) as (d & -> & Hwd).
  destruct (plain_inv _ _ Hpl) as (_ & Hps & _). destruct (Hps i ltac:(lia) Hm) as (d' & -> & Hpd).
  apply (IH d d' _ _ (a + data_at fields i) _ Hwd Hpd); [lia|lia|exact Hsf|exact Hsd].
Qed.

(** * What is not encoded *)

Lemma tag_bytes_nonempty wt t : fits 32 t → 0 <= wt < 8 → tag_bytes wt t ≠ [].
Proof.
  intros Ht Hw H. destruct (varint_of_spec (8 * t + wt)) as (Hv & _); [mlia|].
  unfold tag_bytes in H. rewrite H in Hv. by apply not_varint_nil in Hv.
Qed.

Lemma wire_type_range f wt : wire_type_of f = Some wt → 0 <= wt < 8.
Proof.
  unfold wire_type_of. cbv zeta. intros H.
  assert (wt = 0 ∨ wt = 1 ∨ wt = 2 ∨ wt = 5) by (repeat case_match; simplify_eq; auto). lia.
Qed.

Lemma tagged_inv f v b :
  tagged f v = Some b → ∃ wt x, wire_type_of f = Some wt ∧ v = Some x ∧ b = tag_bytes wt (tag f) ++ x ∧ 0 <= wt < 8.
Proof.
  unfold tagged. destruct (wire_type_of f) as [wt|] eqn:Hw; [|done]. destruct v as [x|]; [|done].
  intros H. cbn in H. simplify_eq. exists wt, x. split_and!; try done; by eapply wire_type_range.
Qed.

(** The encoding of a plain field. *)
Lemma field_bytes_eq m sub depth f p :
  plain_facts f →
  field_bytes m sub depth f p =
    if PB_HTYPE (type f) =? PB_HTYPE_REQUIRED then
      if p =? NULL then None else tagged f (value_bytes m sub f p)
    else if PB_HTYPE (type f) =? PB_HTYPE_REPEATED then
      array_bytes m sub f p (load_size m (p + size_offset f))
    else if (if explicit f then safe_read_bool m (p + size_offset f) else negb (value_default m depth f p))
      then tagged f (value_bytes m sub f p) else Some [].
Proof.
  intros Hf. destruct (static_field_inv f (pf_static f Hf)) as (_ & _ & Ha & Hx & _).
  unfold field_bytes, member_bytes. rewrite (proj2 (Z.eqb_neq _ _) Hx), Ha, <-absent_default. change (is_set m) with (safe_read_bool m).
  cbn [Z.eqb Pos.eqb PB_ATYPE_STATIC PB_ATYPE_POINTER PB_ATYPE_CALLBACK orb negb].
  rewrite check_eq by done. unfold explicit.
  destruct (pf_rule f Hf) as [Hr|[Hr|[Hr He]]]; rewrite Hr;
    cbn [Z.eqb Pos.eqb PB_HTYPE_REQUIRED PB_HTYPE_OPTIONAL PB_HTYPE_REPEATED]; [done| |].
  - by destruct (negb _).
  - unfold explicit in He. by rewrite He.
Qed.

Lemma tagged_nonempty f v b : field_ok f → tagged f v = Some b → b ≠ [].
Proof.
  intros (Ht & _) H. apply tagged_inv in H as (wt & x & _ & _ & -> & Hw). intros E.
  apply app_eq_nil in E as [E _]. by apply (tag_bytes_nonempty wt (tag f)).
Qed.

Lemma array_bytes_empty m sub f p n :
  field_ok f → PB_ATYPE (type f) = PB_ATYPE_STATIC → 0 <= n →
  array_bytes m sub f p n = Some [] → n = 0.
Proof.
  intros Hok Ha Hn. unfold array_bytes. destruct (Z.eqb_spec n 0) as [|Hne]; [done|].
  rewrite Ha. cbn [Z.eqb PB_ATYPE_STATIC PB_ATYPE_POINTER negb andb].
  destruct (array_size f <? n); [done|]. intros H. exfalso. destruct (_ <=? PB_LTYPE_LAST_PACKABLE).
  - destruct (items_of _ _ _ _) as [b|]; [|done]. cbn in H. injection H as H.
    apply app_eq_nil in H as [H _]. by apply (tag_bytes_nonempty PB_WT_STRING (tag f)) in H; [|apply Hok|].
  - destruct (Z.to_nat n) as [|k] eqn:Hk; [lia|]. cbn [items_of] in H.
    destruct (tagged f _) as [b|] eqn:Ht; [|done]. cbn in H. destruct (items_of _ _ _ _) as [r|]; [|done].
    cbn in H. injection H as H. apply app_eq_nil in H as [-> _]. by apply tagged_nonempty in Ht.
Qed.

Lemma absent_field m m' sub sub' (subf : list pb_field → Z → Prop) depth f a p :
  plain_facts f → bytes_ok m → fresh_field subf m' f p →
  (is_sub f = true → subf (fields_at (ptr f)) p → message_default m depth (fields_at (ptr f)) a = true →
   message_default m' depth (fields_at (ptr f)) p = true) →
  field_bytes m sub depth f a = Some [] →
  field_bytes m' sub' depth f p = Some [] ∧
  pb_check_proto3_default_value m' depth f p = pb_check_proto3_default_value m depth f a.
Proof.
  intros Hf Hm Hfr Hsub Hb.
  destruct (static_field_inv f (pf_static f Hf)) as (Hok & _ & Ha & _).
  assert (pb_check_proto3_default_value m depth f a = true) as Hc.
  { rewrite field_bytes_eq in Hb by done. rewrite check_eq by done.
    destruct (PB_HTYPE (type f) =? PB_HTYPE_REQUIRED).
    { destruct (a =? NULL); [done|]. by apply tagged_nonempty in Hb. }
    destruct (PB_HTYPE (type f) =? PB_HTYPE_REPEATED).
    { apply array_bytes_empty in Hb; [by rewrite Hb|done|done|]. by apply (load_le m Hm _ 4 32). }
    destruct (if explicit f then _ else _) eqn:E; [by apply tagged_nonempty in Hb|].
    destruct (explicit f); [by rewrite E|]. by apply negb_false_iff in E. }
  rewrite Hc. pose proof (fresh_check subf m m' depth f a p Hf Hfr Hsub Hc) as Hc'. split; [|done].
  rewrite field_bytes_eq by done. rewrite check_eq in Hc' by done. destruct Hfr as (_ & _ & F3 & _).
  destruct (PB_HTYPE (type f) =? PB_HTYPE_REQUIRED); [done|].
  destruct (Z.eqb_spec (PB_HTYPE (type f)) PB_HTYPE_REPEATED) as [Hr|]; [by rewrite F3|].
  destruct (explicit f); [apply negb_true_iff in Hc' as ->|rewrite Hc']; done.
Qed.
End fresh.

(** * Default values *)

Definition with_mem (s : dstate) (m : bytes) : dstate :=
  {| ds_stream := ds_stream s; ds_mem := m; ds_count := ds_count s |}.

Lemma store_run p bs s : store_at p bs s = (Some (), with_mem s (store (ds_mem s) p bs)).
Proof. done. Qed.

(** Of a structure's memory, only the field's own bytes have changed. *)
Definition spares (f : pb_field) (p : Z) (m m' : bytes) : Prop :=
  lenZ m' = lenZ m ∧
  ∀ a len, 0 <= a → apart p (extent f) a len = true →
    apart (p + size_offset f) (cell_len f) a len = true → same_on a (a + len) m m'.

Lemma spares_refl f p m : spares f p m m.
Proof. by split. Qed.
Lemma spares_trans f p m1 m2 m3 : spares f p m1 m2 → spares f p m2 m3 → spares f p m1 m3.
Proof.
  intros [L1 S1] [L2 S2]. split; [congruence|]. intros a len Ha Hd Hc.
  eapply same_on_trans; [by apply S1|by apply S2].
Qed.

Section spares.
Context (f : pb_field) (p : Z).

Lemma spares_data m m' :
  0 <= p → 0 <= extent f → same_outside p (p + extent f) m m' → spares f p m m'.
Proof. intros Hp He H. split; [apply H|]. intros a len Ha Hd _. by eapply same_outside_on. Qed.

Lemma spares_store_cell m bs :
  0 <= p + size_offset f → p + size_offset f + lenZ bs <= lenZ m → lenZ bs = cell_len f →
  spares f p m (store m (p + size_offset f) bs).
Proof.
  intros Hp Hl Hc. split; [by apply store_length|]. intros a len Ha _ Hap.
  apply store_same; [done|done|done|by rewrite Hc].
Qed.
End spares.

Section messages.
Context {D : Descriptors}.

Section message.
Context (wfd pd : nat) (fields : list pb_field) (n dest : Z).
Context (Hwf : wf_message wfd fields n = true) (Hpl : plain_message pd fields = true) (Hdest : 0 < dest).

(** Another field is spared. *)
Lemma spares_other i j m m' :
  (i < length fields)%nat → (j < length fields)%nat → i ≠ j →
  spares (field_at fields i) (dest + data_at fields i) m m' →
  let q := dest + data_at fields j in
  let f := field_at fields j in
  same_on q (q + extent f) m m' ∧
  same_on (q + size_offset f) (q + size_offset f + cell_len f) m m'.
Proof.
  intros Hi Hj Hne [_ Hs]. cbv zeta.
  destruct (plain_places _ _ _ _ dest i Hwf Hpl Hi) as [Hfi Hzi Hdi Hci].
  destruct (plain_places _ _ _ _ dest j Hwf Hpl Hj) as [Hfj Hzj Hdj Hcj].
  destruct (plain_inv _ _ Hpl) as (_ & _ & _ & Hap & _).
  destruct (places_apart_inv fields i j Hap Hi Hj) as [H1 H2]. destruct (H2 Hne) as [H3 H4].
  destruct (places_apart_inv fields j i Hap Hj Hi) as [H5 _].
  assert (∀ k, size_at fields k = data_at fields k + size_offset (field_at fields k) →
    dest + data_at fields k + size_offset (field_at fields k) = dest + size_at fields k) as Hz by (intros; lia).
  rewrite (Hz j Hzj). rewrite (Hz i Hzi) in Hs. split.
  - apply Hs; [lia|by rewrite apart_shift|]. by rewrite apart_sym, apart_shift.
  - destruct (Z.leb_spec (cell_len (field_at fields j)) 0) as [|Hpos]; [intros x Hx; lia|].
    specialize (Hcj Hpos). apply Hs; [lia|by rewrite apart_shift..].
Qed.

(** What the rest of the message is after a field has changed. *)
Lemma fresh_other depth i j m m' :
  (i < length fields)%nat → (j < length fields)%nat → i ≠ j →
  spares (field_at fields i) (dest + data_at fields i) m m' →
  fresh_field (fresh depth m) m (field_at fields j) (dest + data_at fields j) →
  fresh_field (fresh depth m') m' (field_at fields j) (dest + data_at fields j).
Proof.
  intros Hi Hj Hne Hs. destruct (spares_other i j m m' Hi Hj Hne Hs) as [H1 H2].
  destruct (plain_places _ _ _ _ dest j Hwf Hpl Hj) as [Hf Hz Hd Hc].
  apply fresh_field_same; [done|lia| |done|done|].
  - intros H0. specialize (Hc H0). lia.
  - intros Hm Hsq. apply Z.eqb_eq in Hm. destruct (wf_message_inv _ _ _ Hwf) as (_ & _ & Hw).
    destruct (Hw j Hj) as (_ & _ & Hsub). destruct (Hsub Hm) as (d & _ & Hwd).
    destruct (plain_inv _ _ Hpl) as (_ & Hps & _). destruct (Hps j Hj Hm) as (d' & _ & Hpd).
    apply (fresh_same depth d d' _ (data_size (field_at fields j)) _ _ _ Hwd Hpd); [lia|done].
Qed.

Lemma bytes_other depth i j m m' :
  (i < length fields)%nat → (j < length fields)%nat → i ≠ j →
  spares (field_at fields i) (dest + data_at fields i) m m' →
  let f := field_at fields j in
  let q := dest + data_at fields j in
  field_bytes m (message_bytes m depth) depth f q = field_bytes m' (message_bytes m' depth) depth f q ∧
  pb_check_proto3_default_value m depth f q = pb_check_proto3_default_value m' depth f q.
Proof.
  intros Hi Hj Hne Hs. destruct (spares_other i j m m' Hi Hj Hne Hs) as [H1 H2]. cbv zeta.
  destruct (plain_places _ _ _ _ dest j Hwf Hpl Hj) as [Hf Hz Hd Hc].
  apply field_same; [done|lia| |done|done|].
  - intros H0. specialize (Hc H0). lia.
  - intros Hm q Hq Hsq. destruct (wf_message_inv _ _ _ Hwf) as (_ & _ & Hw).
    destruct (Hw j Hj) as (_ & _ & Hsub). destruct (Hsub Hm) as (d & _ & Hwd).
    destruct (plain_inv _ _ Hpl) as (_ & Hps & _). destruct (Hps j Hj Hm) as (d' & _ & Hpd).
    exact (message_same depth d d' _ _ q m m' Hwd Hpd Hq Hsq).
Qed.
End message.

(** * Setting to defaults *)

Lemma for_fields_run (P : nat → dstate → Prop) visit fields dest s :
  dest ≠ NULL → (∀ i, (i < length fields)%nat → static_field (field_at fields i) = true) →
  (∀ i s, (i < length fields)%nat → P i s →
    ∃ s', visit (iter_at fields dest i) s = (Some (), s') ∧ P (S i) s') →
  P 0%nat s → ∃ s', for_fields visit fields dest s = (Some (), s') ∧ P (length fields) s'.
Proof.
  intros Hd Ht Hv HP. unfold for_fields. rewrite iter_begin_at by done.
  destruct fields as [|f fs]; cbn [negb]; [by eexists|].
  set (fields := f :: fs) in *.
  assert (∀ fuel i s, (i + fuel = length fields)%nat → (0 < fuel)%nat → P i s →
    ∃ s', for_fields_loop visit fuel (iter_at fields dest i) s = (Some (), s') ∧ P (length fields) s') as Hloop.
  { induction fuel as [|fuel IH]; intros i s1 Hi H0 H1; [lia|]. cbn [for_fields_loop].
    destruct (Hv i s1 ltac:(lia) H1) as (s2 & E & H2). rewrite (bind_some _ _ _ _ _ E).
    rewrite iter_next_at by (done || lia). destruct (Nat.ltb_spec (S i) (length fields)) as [Hlt|Hge].
    - by apply (IH (S i)); [lia..|].
    - eexists. split; [done|]. by replace (length fields) with (S i) by lia. }
  apply (Hloop _ 0%nat s); [done|cbn; lia|done].
Qed.

(** The state of a decoder but for memory. *)
Definition same_but_mem (s s' : dstate) : Prop := ds_stream s' = ds_stream s ∧ ds_count s' = ds_count s.

Lemma same_but_mem_trans s1 s2 s3 : same_but_mem s1 s2 → same_but_mem s2 s3 → same_but_mem s1 s3.
Proof. intros [??] [??]. split; congruence. Qed.

Definition defaults_hold (depth : nat) : Prop :=
  ∀ wfd pd fields n dest s,
  wf_message wfd fields n = true → plain_message pd fields = true → (wfd <= depth)%nat → 0 < dest →
  dstate_ok s → dest + n <= lenZ (ds_mem s) →
  ∃ s', for_fields (pb_field_set_to_default depth) fields dest s = (Some (), s') ∧
    same_but_mem s s' ∧ fresh depth (ds_mem s') fields dest.

Lemma store_data_spec f p s bs :
  dstate_ok s → 0 < p → 0 <= data_size f → p + data_size f <= lenZ (ds_mem s) →
  bytes_ok bs → lenZ bs <= data_size f →
  let s' := with_mem s (store (ds_mem s) p bs) in
  dstate_ok s' ∧ same_outside p (p + data_size f) (ds_mem s) (ds_mem s').
Proof.
  intros (Hs & Hm & Hc) Hp Hd Hl Hb Hlb. cbn. split; [|by apply store_outside; lia].
  split; [done|]. split; [by apply bytes_ok_store|done].
Qed.

(** The data of a field that is not an array. *)
Lemma init_data_run depth wfd fields n dest i s :
  defaults_hold depth → wf_message wfd fields n = true → (wfd <= S depth)%nat → 0 < dest →
  (i < length fields)%nat →
  (∃ pd, plain_message pd fields = true) →
  dstate_ok s → dest + n <= lenZ (ds_mem s) →
  let f := field_at fields i in
  let p := dest + data_at fields i in
  PB_HTYPE (type f) ≠ PB_HTYPE_REPEATED →
  ∃ s',
    (if PB_LTYPE (type f) =? PB_LTYPE_SUBMESSAGE
     then for_fields (pb_field_set_to_default depth) (fields_at (ptr f)) p
     else if negb (ptr f =? NULL)
     then m ← get_mem; store_at p (load m (ptr f) (data_size f))
     else store_at p (replicate (Z.to_nat (data_size f)) 0)) s = (Some (), s') ∧
    same_but_mem s s' ∧ dstate_ok s' ∧ same_outside p (p + extent f) (ds_mem s) (ds_mem s') ∧
    (is_sub f = true → fresh depth (ds_mem s') (fields_at (ptr f)) p) ∧
    (is_sub f = false → ptr f = NULL → Forall (λ b, b = 0) (load (ds_mem s') p (data_size f))).
Proof.
  intros IH Hwf Hle Hdest Hi [pd Hpl] Hs Hl f p Hr.
  destruct (plain_places _ _ _ _ dest i Hwf Hpl Hi) as [Hf Hz Hd Hc].
  destruct (static_field_inv _ (pf_static _ Hf)) as (Hok & _ & _ & _ & _ & H32).
  pose proof Hok as (_ & _ & [H0 _] & _). fold f in Hf, Hok, H0, H32, Hd.
  assert (extent f = data_size f) as He by by apply extent_ge. rewrite He in *.
  assert (0 < p) as Hp by (unfold p; lia).
  unfold is_sub. destruct (Z.eqb_spec (PB_LTYPE (type f)) PB_LTYPE_SUBMESSAGE) as [Hm|Hm].
  - destruct (wf_message_inv _ _ _ Hwf) as (_ & _ & Hw). destruct (Hw i Hi) as (_ & _ & Hsub).
    destruct (Hsub Hm) as (d & -> & Hwd). destruct (plain_inv _ _ Hpl) as (_ & Hps & _).
    destruct (Hps i Hi Hm) as (d' & -> & Hpd).
    destruct (IH d d' _ (data_size f) p s Hwd Hpd) as (s' & E & Hsame & Hfr); [lia|done|done|lia|].
    exists s'. split; [done|]. split; [done|].
    pose proof (defaults_confined (λ m _ _, (0, m)) (λ m _, m) (λ _ _ _, ret0) (λ _ _ _ _, ret0)
      p (p + data_size f) Hp depth d _ _ p Hwd (Z.le_refl _) (Z.le_refl _) s Hs) as Hcf.
    unfold pb_message_set_to_defaults in Hcf. rewrite E in Hcf.
    destruct Hcf as (_ & Ho & Hs'); [lia|lia|]. split_and!; done.
  - destruct (negb (ptr f =? NULL)) eqn:Hptr.
    + eexists. split; [done|]. split; [done|].
      destruct (store_data_spec f p s (load (ds_mem s) (ptr f) (data_size f)) Hs Hp H0) as [H1 H2];
        [lia|by apply load_ok; apply Hs| |].
      { unfold load, takeZ, lenZ. rewrite length_take. lia. }
      split_and!; try done. intros _ Hnull. by rewrite Hnull in Hptr.
    + eexists. split; [done|]. split; [done|].
      assert (lenZ (replicate (Z.to_nat (data_size f)) 0) = data_size f) as Hlen
        by (rewrite lenZ_replicate; lia).
      destruct (store_data_spec f p s (replicate (Z.to_nat (data_size f)) 0) Hs Hp H0) as [H1 H2];
        [lia|apply Forall_replicate; decide_now|lia|].
      split_and!; try done. intros _ _. cbn. rewrite load_store by lia. by apply Forall_replicate.
Qed.

Lemma set_default_run depth wfd pd fields n dest i s :
  defaults_hold depth → wf_message wfd fields n = true → plain_message pd fields = true →
  (wfd <= S depth)%nat → 0 < dest → (i < length fields)%nat →
  dstate_ok s → dest + n <= lenZ (ds_mem s) →
  let f := field_at fields i in
  let p := dest + data_at fields i in
  ∃ s', pb_field_set_to_default (S depth) (iter_at fields dest i) s = (Some (), s') ∧
    same_but_mem s s' ∧ dstate_ok s' ∧ spares f p (ds_mem s) (ds_mem s') ∧
    fresh_field (fresh depth (ds_mem s')) (ds_mem s') f p.
Proof.
  intros IH Hwf Hpl Hle Hdest Hi Hs Hl f p.
  pose proof (plain_places _ _ _ _ dest i Hwf Hpl Hi) as [Hf Hz Hd Hc]. fold f in Hf, Hz, Hd, Hc.
  destruct (static_field_inv _ (pf_static _ Hf)) as (Hok & _ & Ha & Hx & _).
  destruct (plain_inv _ _ Hpl) as (_ & _ & _ & Hap & _).
  destruct (places_apart_inv fields i i Hap Hi Hi) as [Hown _]. fold f in Hown.
  assert (0 <= extent f) as He0.
  { unfold extent. destruct Hok as (_ & _ & [? _] & [? _]). destruct (_ =? _); nia. }
  assert (dest + size_at fields i = p + size_offset f) as Hcell by (unfold p; lia).
  assert (0 < p) as Hp by (unfold p; lia).
  assert (p + extent f <= dest + n) as Hpe by (unfold p; lia).
  cbn [pb_field_set_to_default]. rewrite pos_iter_at, pData_iter_at, pSize_iter_at.
  fold f. fold p. rewrite Hcell in *. rewrite (proj2 (Z.eqb_neq _ _) Hx), Ha. cbn [Z.eqb PB_ATYPE_STATIC].
  pose proof (λ s Hs Hl, init_data_run depth wfd fields n dest i s IH Hwf Hle Hdest Hi (ex_intro _ pd Hpl) Hs Hl)
    as Hinit. cbv zeta in Hinit. fold f p in Hinit.
  destruct (pf_rule f Hf) as [Hr|[Hr|[Hr He]]]; rewrite Hr in *;
    cbn [Z.eqb Pos.eqb PB_HTYPE_REQUIRED PB_HTYPE_OPTIONAL PB_HTYPE_REPEATED PB_HTYPE_ONEOF andb orb] in *.
  - destruct (Hinit s Hs Hl ltac:(done)) as (s' & E & Hsame & Hok' & Ho & Hsub & Hzero).
    rewrite bind_ret. exists s'. split; [exact E|]. split_and!; [done|done|by apply spares_data; [lia|lia|]|].
    split; [by rewrite Hr|]. split; [by rewrite Hr|]. split; [by rewrite Hr|]. done.
  - unfold cell_len in Hc. rewrite Hr in Hc. cbn [Z.eqb Pos.eqb PB_HTYPE_OPTIONAL PB_HTYPE_REPEATED andb] in Hc.
    destruct (explicit f) eqn:He; unfold explicit in He.
    + apply negb_true_iff, Z.eqb_neq in He. specialize (Hc ltac:(lia)).
      rewrite (proj2 (Z.eqb_neq (p + size_offset f) p)) by lia. cbn [negb].
      rewrite bind_assoc, (bind_some _ _ _ _ _ (store_run _ _ _)), bind_ret. cbv iota.
      set (s1 := with_mem s _).
      assert (cell_len f = 1) as Hcl.
      { unfold cell_len, explicit. rewrite Hr. cbn. by rewrite (proj2 (Z.eqb_neq _ _) He). }
      assert (spares f p (ds_mem s) (ds_mem s1)) as Hsp1.
      { apply spares_store_cell; [lia|change (lenZ [0]) with 1; lia|by rewrite Hcl]. }
      assert (dstate_ok s1) as Hs1.
      { destruct Hs as (?&?&?). split; [done|]. split; [apply bytes_ok_store; [done|decide_now]|done]. }
      destruct (Hinit s1 Hs1) as (s' & E & Hsame & Hok' & Ho & Hsub & Hzero);
        [rewrite (proj1 Hsp1); lia|done|].
      exists s'. split; [exact E|].
      split; [done|]. split; [done|]. split; [eapply spares_trans; [exact Hsp1|by apply spares_data; [lia|lia|]]|].
      split; [|split; [|split; [by rewrite Hr|done]]].
      * intros _ _. unfold load_u8.
        rewrite <-(load_same _ 1 (ds_mem s1)); [by apply load_u8_store; [lia|change (lenZ [0]) with 1; lia]|lia|].
        apply (same_outside_on p (extent f)); [done|lia|done|lia|]. rewrite <-Hcell. unfold p. rewrite apart_shift, <-Hcl. exact Hown.
      * intros _ Hn. unfold explicit in Hn. by rewrite (proj2 (Z.eqb_neq _ _) He) in Hn.
    + apply negb_false_iff, Z.eqb_eq in He. rewrite He, Z.add_0_r, Z.eqb_refl. cbn [negb].
      destruct (Hinit s Hs Hl ltac:(done)) as (s' & E & Hsame & Hok' & Ho & Hsub & Hzero).
      rewrite bind_ret. exists s'. split; [exact E|]. split_and!; [done|done|by apply spares_data; [lia|lia|]|].
      split; [unfold explicit; by rewrite He|]. split; [|split; [by rewrite Hr|done]].
      intros _ He' Hns. apply Hzero; [done|]. apply (pf_ptr f Hf); [done|done|].
      unfold is_sub in Hns. by apply Z.eqb_neq.
  - unfold cell_len in Hc. rewrite Hr in Hc. cbn [Z.eqb Pos.eqb PB_HTYPE_REPEATED andb] in Hc. specialize (Hc ltac:(lia)).
    unfold set_size_at.
    rewrite bind_assoc, (bind_some _ _ _ _ _ (store_run _ _ _)), bind_ret. cbv iota.
    eexists. split; [done|]. split; [done|]. split; [|split].
    + destruct Hs as (?&?&?). split; [done|]. split; [apply bytes_ok_store; [done|apply le_bytes_ok]|done].
    + apply spares_store_cell; [lia|rewrite lenZ_le_bytes; lia|]. rewrite lenZ_le_bytes. unfold cell_len. by rewrite Hr.
    + split; [by rewrite Hr|]. split; [by rewrite Hr|]. split; [|by rewrite Hr].
      intros _. cbn [with_mem ds_mem]. by apply load_size_store; [lia|lia|].
Qed.

Lemma defaults_run depth : defaults_hold depth.
Proof.
  induction depth as [|depth IH]; intros wfd pd fields n dest s Hwf Hpl Hle Hd Hs Hl.
  { by assert (wfd = 0%nat) as -> by lia. }
  destruct (wf_message_inv _ _ _ Hwf) as (_ & Ht & _).
  destruct (for_fields_run (λ i s', same_but_mem s s' ∧ dstate_ok s' ∧ lenZ (ds_mem s') = lenZ (ds_mem s) ∧
    ∀ j, (j < i)%nat → (j < length fields)%nat →
      fresh_field (fresh depth (ds_mem s')) (ds_mem s') (field_at fields j) (dest + data_at fields j))
    (pb_field_set_to_default (S depth)) fields dest s) as (s' & E & Hsame & _ & _ & Hfr).
  - unfold NULL. lia.
  - done.
  - intros i s1 Hi (Hsame & Hs1 & Hlen & Hfr).
    destruct (set_default_run depth wfd pd fields n dest i s1) as (s2 & E & Hsame2 & Hs2 & Hsp & Hf2); try done; [lia|].
    exists s2. split; [done|]. split; [by eapply same_but_mem_trans|]. split; [done|].
    split; [destruct Hsp; congruence|]. intros j Hj Hjl. destruct (decide (j = i)) as [->|Hne]; [done|].
    apply (fresh_other wfd pd fields n dest Hwf Hpl Hd depth i j (ds_mem s1)); try done.
    apply Hfr; [lia|done].
  - split_and!; try done. intros j Hj. lia.
  - exists s'. split; [done|]. split; [done|]. intros j Hj. by apply Hfr.
Qed.
End messages.
