(* ===== verification/PbValues.v ===== *)
(** Single values through the encoder and back: what a decoder stores has the encoding it was read
    from. *)
From stdpp Require Import strings.
From S2P Require Import Prelude PbWire PbRead PbWrite PbField PbEncode PbEncodeSpec PbDecode PbLayout PbSafety PbMemory PbPlain PbFresh.

Open Scope Z_scope.

(** * Runs *)

Definition set_stream (s : dstate) (st : pb_istream) : dstate :=
  {| ds_stream := st; ds_mem := ds_mem s; ds_count := ds_count s |}.

Lemma on_stream_run {A} (m : M pb_istream A) s a st :
  m (ds_stream s) = (Some a, st) → on_stream m s = (Some a, set_stream s st).
Proof. unfold on_stream. by intros ->. Qed.

Lemma read_into_run p n x rest t e s :
  ds_stream s = istr (x ++ rest) t e → n = lenZ x →
  read_into p n s = (Some (), with_mem (set_stream s (istr rest t e)) (store (ds_mem s) p x)).
Proof.
  intros Hs ->. unfold read_into.
  assert (pb_read (lenZ x) (ds_stream s) = (Some x, istr rest t e)) as H by (rewrite Hs; by apply read_app).
  by rewrite (bind_some _ _ _ _ _ (on_stream_run _ _ _ _ H)).
Qed.

Lemma decode_varint32_of n rest t e :
  fits 32 n → pb_decode_varint32 (istr (varint_of n ++ rest) t e) = (Some n, istr rest t e).
Proof.
  intros Hn. destruct (varint_of_32 n Hn) as (Hv & H5 & Hok & Hval).
  by rewrite decode_varint32_eq, Hok, Hval by (done || lia).
Qed.

(** * Numbers *)

Lemma load_signed_spec m f p v :
  load_signed m f p = Some v ↔
  (data_size f = 1 ∨ data_size f = 2 ∨ data_size f = 4 ∨ data_size f = 8) ∧
  v = sint (8 * data_size f) (le_value (load m p (data_size f))).
Proof.
  unfold load_signed.
  destruct (Z.eqb_spec (data_size f) 1) as [->|]; [naive_solver|].
  destruct (Z.eqb_spec (data_size f) 2) as [->|]; [naive_solver|].
  destruct (Z.eqb_spec (data_size f) 4) as [->|]; [naive_solver|].
  destruct (Z.eqb_spec (data_size f) 8) as [->|]; [naive_solver|]. naive_solver.
Qed.

Lemma load_unsigned_spec m f p v :
  load_unsigned m f p = Some v ↔
  (data_size f = 1 ∨ data_size f = 2 ∨ data_size f = 4 ∨ data_size f = 8) ∧
  v = le_value (load m p (data_size f)).
Proof.
  unfold load_unsigned.
  destruct (Z.eqb_spec (data_size f) 1) as [->|]; [naive_solver|].
  destruct (Z.eqb_spec (data_size f) 2) as [->|]; [naive_solver|].
  destruct (Z.eqb_spec (data_size f) 4) as [->|]; [naive_solver|].
  destruct (Z.eqb_spec (data_size f) 8) as [->|]; [naive_solver|]. naive_solver.
Qed.

Lemma zeros_iff l : bytes_ok l → forallb (λ b, b =? 0) l = (le_value l =? 0).
Proof.
  induction l as [|b l IH]; [done|]. intros H. apply bytes_ok_cons in H as [Hb Hl].
  cbn [forallb le_value]. rewrite IH by done. pose proof (le_value_bound l Hl) as [H0 _].
  destruct (Z.eqb_spec b 0), (Z.eqb_spec (le_value l) 0), (Z.eqb_spec (b + 256 * le_value l) 0); mlia || done.
Qed.

Lemma sint_zero w x : 1 <= w → fits w x → (sint w x =? 0) = (x =? 0).
Proof.
  intros Hw [H0 H1]. unfold sint, wrap.
  assert (2 ^ w = 2 * 2 ^ (w - 1)) as Hp by (rewrite <-Z.pow_succ_r by lia; f_equal; lia).
  pose proof (Z.pow_pos_nonneg 2 (w - 1)) as Hpos.
  destruct (Z.ltb_spec x (2 ^ (w - 1))).
  - rewrite Z.mod_small by lia. destruct (Z.eqb_spec x 0), (Z.eqb_spec (x + 2 ^ (w - 1) - 2 ^ (w - 1)) 0); lia || done.
  - assert ((x + 2 ^ (w - 1)) mod 2 ^ w = x + 2 ^ (w - 1) - 2 ^ w) as ->.
    { symmetry. apply Z.mod_unique with 1; lia. }
    destruct (Z.eqb_spec x 0), (Z.eqb_spec (x + 2 ^ (w - 1) - 2 ^ w - 2 ^ (w - 1)) 0); lia || done.
Qed.

(** A number of [k] bytes, stored and loaded again. *)
Lemma number_again m p k v :
  0 <= p → 1 <= k → p + k <= lenZ m →
  let m' := store m p (le_bytes (Z.to_nat k) v) in
  load m' p k = le_bytes (Z.to_nat k) v ∧
  le_value (load m' p k) = v mod 2 ^ (8 * k) ∧ sint (8 * k) (le_value (load m' p k)) = sint (8 * k) v.
Proof.
  intros Hp Hk Hl m'.
  assert (load m' p k = le_bytes (Z.to_nat k) v) as H by (apply load_store; rewrite ?lenZ_le_bytes; lia).
  assert (le_value (load m' p k) = v mod 2 ^ (8 * k)) as H'.
  { rewrite H, le_value_le_bytes, pow_256. by rewrite Z2Nat.id by lia. }
  split; [done|]. split; [done|]. rewrite H'. apply sint_mod. lia.
Qed.

Lemma sint_fixed w x : 1 <= w → sint w (sint w x) = sint w x.
Proof.
  intros Hw. apply sint_small; [done|]. unfold sint. pose proof (wrap_fits w (x + 2 ^ (w - 1)) ltac:(lia)) as [H0 H1].
  assert (2 ^ w = 2 * 2 ^ (w - 1)) as Hp by (rewrite <-Z.pow_succ_r by lia; f_equal; lia). lia.
Qed.

(** Also through a wider type. *)
Lemma sint_wider w w' x : 1 <= w <= w' → sint w' (sint w x) = sint w x.
Proof.
  intros Hw. apply sint_small; [lia|]. unfold sint. pose proof (wrap_fits w (x + 2 ^ (w - 1)) ltac:(lia)) as [H0 H1].
  assert (2 ^ w = 2 * 2 ^ (w - 1)) as Hp by (rewrite <-Z.pow_succ_r by lia; f_equal; lia).
  pose proof (Z.pow_le_mono_r 2 (w - 1) (w' - 1)). lia.
Qed.

Lemma sint_wrap64 w x : 1 <= w <= 64 → sint 64 (u64 (sint w x)) = sint w x.
Proof. intros Hw. unfold wrap. rewrite sint_mod by lia. by apply sint_wider. Qed.

Lemma sint32_wrap64 w x : 1 <= w <= 32 → sint 32 (u64 (sint w x)) = sint w x.
Proof.
  intros Hw. rewrite <-(sint_wider w 32 x) at 2 by done. unfold wrap.
  rewrite <-(sint_mod 32 (_ mod _)), <-(sint_mod 32 (sint w x)) by lia. f_equal.
  change (2 ^ 64) with 18446744073709551616. change (2 ^ 32) with 4294967296. lia.
Qed.

(** The common end of the number decoders. *)
Lemma clamped_run f p s value read_back msg :
  (data_size f = 1 ∨ data_size f = 2 ∨ data_size f = 4 ∨ data_size f = 8) →
  read_back (8 * data_size f) value = value →
  (clamped ← store_clamped p (data_size f) value read_back;
   if negb (clamped =? value) then error msg else mret ()) s =
  (Some (), with_mem s (store (ds_mem s) p (le_bytes (Z.to_nat (data_size f)) value))).
Proof.
  intros Hd Hr. unfold store_clamped.
  assert ((data_size f =? 8) || (data_size f =? 4) || (data_size f =? 2) || (data_size f =? 1) = true) as ->.
  { destruct Hd as [->|[->|[->| ->]]]; done. }
  rewrite bind_assoc, (bind_some _ _ _ _ _ (store_run _ _ _)), bind_ret, Hr, Z.eqb_refl. done.
Qed.

(** * Strings *)

(** A string without a zero in its buffer has no room for the terminator. *)
Definition terminated (m : bytes) (f : pb_field) (p : Z) : bool :=
  lenZ (c_string (load m p (data_size f))) <? data_size f.

Lemma load_split m p n k : 0 <= p → 0 <= k <= n → load m p n = load m p k ++ load m (p + k) (n - k).
Proof.
  intros Hp Hk. rewrite (load_drop p (n - k) k m) by lia. replace (k + (n - k)) with n by lia.
  rewrite (load_take p n k m) by lia. by rewrite takeZ_dropZ.
Qed.

Lemma string_default m p n :
  1 <= n → (load_u8 m p =? 0) = match c_string (load m p n) with [] => true | _ => false end.
Proof.
  intros Hn. unfold load_u8. rewrite (load_take p n 1) by lia. destruct (load m p n) as [|b l]; [done|].
  rewrite takeZ_cons by lia. change (takeZ (1 - 1) l) with (@nil Z). unfold c_string.
  rewrite lenZ_cons. cbn [string_length le_value].
  rewrite (proj2 (Z.ltb_lt 0 (1 + lenZ l))) by llia. cbn [andb]. rewrite Z.mul_0_r, Z.add_0_r.
  destruct (Z.eqb_spec b 0); cbn [negb]; [by rewrite takeZ_0|].
  rewrite takeZ_cons; [done|]. pose proof (string_length_nonneg l (1 + lenZ l - 1)). lia.
Qed.

(** A string and its terminator at the front of the buffer. *)
Lemma c_string_stored m p x n :
  0 <= p → lenZ x < n → p + n <= lenZ m → Forall (λ b, b ≠ 0) x →
  c_string (load (store (store m p x) (p + lenZ x) [0]) p n) = x.
Proof.
  intros Hp Hx Hl Hz. pose proof (lenZ_nonneg x). unfold store.
  rewrite write_at_then by (change (lenZ [0]) with 1; lia).
  assert (lenZ (x ++ [0]) = lenZ x + 1) as Hlen by (rewrite lenZ_app; done).
  rewrite (load_split _ p n (lenZ x + 1)) by lia.
  change (write_at m p (x ++ [0])) with (store m p (x ++ [0])).
  rewrite load_store, <-app_assoc by lia. by apply c_string_app.
Qed.

(** * Every kind of value *)

(** Follow the tests on a type that is known. *)
Ltac typed := cbn [Z.eqb Pos.eqb PB_LTYPE_BOOL PB_LTYPE_VARINT PB_LTYPE_UVARINT PB_LTYPE_SVARINT
  PB_LTYPE_FIXED32 PB_LTYPE_FIXED64 PB_LTYPE_BYTES PB_LTYPE_STRING PB_LTYPE_SUBMESSAGE
  PB_LTYPE_FIXED_LENGTH_BYTES mbind option_bind].
Ltac typed_in H := cbn [Z.eqb Pos.eqb PB_LTYPE_BOOL PB_LTYPE_VARINT PB_LTYPE_UVARINT PB_LTYPE_SVARINT
  PB_LTYPE_FIXED32 PB_LTYPE_FIXED64 PB_LTYPE_BYTES PB_LTYPE_STRING PB_LTYPE_SUBMESSAGE
  PB_LTYPE_FIXED_LENGTH_BYTES mbind option_bind] in H.

Section values.
Context {D : Descriptors} (pb_realloc : bytes → Z → Z → Z * bytes).
Context (m : bytes) (Hm : bytes_ok m).
Context (dec_submessage : pb_field → Z → Dec ()) (depth : nat).

(** Decoding at [p] the encoding [v] of the value at [a] reads just this and
    stores a value with the same encoding, a default if and only if the other was. *)
Definition restores (dec : pb_field → Z → Dec ()) (f : pb_field) (a p : Z) (v : bytes) (s : dstate) : Prop :=
  ∀ rest t e, ds_stream s = istr (v ++ rest) t e →
  ∃ s', dec f p s = (Some (), s') ∧ ds_stream s' = istr rest t e ∧
    value_bytes (ds_mem s') (message_bytes (ds_mem s') depth) f p = Some v ∧
    value_default (ds_mem s') depth f p = value_default m depth f a.

Section value.
Context (f : pb_field) (a p : Z) (s : dstate).
Context (Hf : plain_facts f) (Ha : 0 < a) (Hp : 0 < p) (Hs : dstate_ok s)
  (Hl : p + data_size f <= lenZ (ds_mem s)).

Lemma size_ok : fits 32 (data_size f).
Proof. by destruct (static_field_inv f (pf_static f Hf)) as ((_ & _ & ? & _) & _). Qed.

Lemma static_ok : PB_ATYPE (type f) = PB_ATYPE_STATIC.
Proof. by destruct (static_field_inv f (pf_static f Hf)) as (_ & _ & ? & _). Qed.

(** The number types: what is stored counts, not how it is loaded. *)
Lemma number_default m' :
  bytes_ok m' → 1 <= data_size f →
  sint (8 * data_size f) (le_value (load m' p (data_size f))) =
    sint (8 * data_size f) (le_value (load m a (data_size f))) →
  forallb (λ b, b =? 0) (load m' p (data_size f)) = forallb (λ b, b =? 0) (load m a (data_size f)).
Proof.
  intros Hm' Hd E. rewrite !zeros_iff by by apply load_ok.
  rewrite <-(sint_zero (8 * data_size f) (le_value (load m' p _))), E, sint_zero; [done|lia| |lia|];
    apply load_le; done || lia.
Qed.

Lemma number_ok z : bytes_ok (store (ds_mem s) p (le_bytes (Z.to_nat (data_size f)) z)).
Proof. apply bytes_ok_store; [apply Hs|apply le_bytes_ok]. Qed.

Lemma number_default_value m' :
  PB_LTYPE (type f) = PB_LTYPE_VARINT ∨ PB_LTYPE (type f) = PB_LTYPE_UVARINT ∨
    PB_LTYPE (type f) = PB_LTYPE_SVARINT →
  bytes_ok m' → 1 <= data_size f →
  sint (8 * data_size f) (le_value (load m' p (data_size f))) =
    sint (8 * data_size f) (le_value (load m a (data_size f))) →
  value_default m' depth f p = value_default m depth f a.
Proof.
  intros Hlt Hm' Hd E. unfold value_default. destruct Hlt as [->|[->| ->]]; by apply number_default.
Qed.

Lemma signed_again z :
  load_signed m f a = Some z →
  let m' := store (ds_mem s) p (le_bytes (Z.to_nat (data_size f)) z) in
  sint (8 * data_size f) z = z ∧ 1 <= data_size f <= 8 ∧ load_signed m' f p = Some z ∧
  sint (8 * data_size f) (le_value (load m' p (data_size f))) =
    sint (8 * data_size f) (le_value (load m a (data_size f))).
Proof.
  intros Hz. apply load_signed_spec in Hz as [Hd Hz]. cbv zeta.
  assert (1 <= data_size f <= 8) as Hd' by lia.
  assert (sint (8 * data_size f) z = z) as Hfix by (rewrite Hz; apply sint_fixed; lia).
  destruct (number_again (ds_mem s) p (data_size f) z) as (H1 & H2 & H3); [lia|lia|done|]. cbv zeta in *.
  split; [done|]. split; [done|]. split; [|by rewrite H3, Hfix].
  apply load_signed_spec. split; [done|]. by rewrite H3, Hfix.
Qed.

Context (v : bytes) (Hlen : lenZ v < 2 ^ 32) (Hv : value_bytes m (message_bytes m depth) f a = Some v).

Lemma rest_ok rest t e : ds_stream s = istr (v ++ rest) t e → bytes_ok rest.
Proof.
  intros E. destruct Hs as [Hst _]. rewrite E in Hst. apply istr_ok in Hst as [H _].
  by apply bytes_ok_app in H as [_ ?].
Qed.

Lemma bool_restored : PB_LTYPE (type f) = PB_LTYPE_BOOL → restores pb_dec_bool f a p v s.
Proof.
  intros Hlt rest t e E. pose proof (pf_bool f Hf Hlt) as H1. rewrite value_bytes_eq in Hv. rewrite Hlt in Hv.
  typed_in Hv. injection Hv as <-. unfold pb_dec_bool. set (n := if safe_read_bool m a then 1 else 0) in *.
  assert (fits 32 n) as Hn by (unfold n; destruct (safe_read_bool m a); decide_now).
  rewrite (bind_some _ _ _ _ _ (on_stream_run _ s n (istr rest t e)
    ltac:(rewrite E; by apply decode_varint32_of))).
  rewrite store_run. eexists. split; [done|]. split; [done|]. cbn [with_mem set_stream ds_mem ds_stream].
  rewrite value_bytes_eq. unfold value_default. rewrite Hlt. typed.
  rewrite H1 in *. unfold safe_read_bool. rewrite load_u8_store by llia.
  rewrite load_store by llia.
  rewrite (zeros_iff (load m a 1)) by by apply load_ok. unfold n, safe_read_bool, load_u8.
  by destruct (le_value (load m a 1) =? 0).
Qed.

Lemma varint_restored : PB_LTYPE (type f) = PB_LTYPE_VARINT → restores pb_dec_varint f a p v s.
Proof.
  intros Hlt rest t e E. pose proof (rest_ok _ _ _ E) as Hr. rewrite value_bytes_eq in Hv. rewrite Hlt in Hv. typed_in Hv.
  destruct (load_signed m f a) as [z|] eqn:Hz; [|done]. typed_in Hv. injection Hv as <-.
  destruct (signed_again z Hz) as (Hfix & Hd' & Hload & Hdef). pose proof Hz as Hz'.
  apply load_signed_spec in Hz' as [Hd Hz']. unfold pb_dec_varint.
  rewrite (bind_some _ _ _ _ _ (on_stream_run _ s (u64 z) (istr rest t e)
    ltac:(rewrite E; apply decode_varint_of; [by apply wrap_fits|done]))).
  assert ((if data_size f =? 8 then sint 64 (u64 z) else sint 32 (u64 z)) = z) as ->.
  { rewrite Hz'. destruct (Z.eqb_spec (data_size f) 8) as [->|]; [by apply sint_wrap64|].
    apply sint32_wrap64. lia. }
  rewrite clamped_run by done. eexists. split; [done|]. split; [done|]. cbn [with_mem set_stream ds_mem].
  split; [rewrite value_bytes_eq, Hlt; typed; by rewrite Hload|].
  apply number_default_value; [auto|apply number_ok|lia|done].
Qed.

Lemma svarint_restored : PB_LTYPE (type f) = PB_LTYPE_SVARINT → restores pb_dec_svarint f a p v s.
Proof.
  intros Hlt rest t e E. pose proof (rest_ok _ _ _ E) as Hr. rewrite value_bytes_eq in Hv. rewrite Hlt in Hv. typed_in Hv.
  destruct (load_signed m f a) as [z|] eqn:Hz; [|done]. typed_in Hv. injection Hv as <-.
  destruct (signed_again z Hz) as (Hfix & Hd' & Hload & Hdef). pose proof (load_signed_range m f a z Hz) as H64.
  pose proof Hz as Hz'. apply load_signed_spec in Hz' as [Hd _]. unfold pb_dec_svarint.
  rewrite (bind_some _ _ _ _ _ (on_stream_run _ s z (istr rest t e)
    ltac:(rewrite E; eapply decode_svarint_eq; [apply decode_varint_of; [by apply zigzag_fits|done]|done|done]))).
  rewrite clamped_run by done. eexists. split; [done|]. split; [done|]. cbn [with_mem set_stream ds_mem].
  split; [rewrite value_bytes_eq, Hlt; typed; by rewrite Hload|].
  apply number_default_value; [auto|apply number_ok|lia|done].
Qed.

Lemma uvarint_restored : PB_LTYPE (type f) = PB_LTYPE_UVARINT → restores pb_dec_uvarint f a p v s.
Proof.
  intros Hlt rest t e E. pose proof (rest_ok _ _ _ E) as Hr. rewrite value_bytes_eq in Hv. rewrite Hlt in Hv. typed_in Hv.
  destruct (load_unsigned m f a) as [z|] eqn:Hz; [|done]. typed_in Hv. injection Hv as <-.
  pose proof (load_unsigned_fits m Hm f a z Hz) as H64. apply load_unsigned_spec in Hz as [Hd Hz].
  assert (fits (8 * data_size f) z) as Hfit by (rewrite Hz; apply load_le; done || lia).
  destruct (number_again (ds_mem s) p (data_size f) z) as (H1 & H2 & H3); [lia|lia|done|]. cbv zeta in *.
  unfold pb_dec_uvarint.
  rewrite (bind_some _ _ _ _ _ (on_stream_run _ s z (istr rest t e)
    ltac:(rewrite E; by apply decode_varint_of))).
  rewrite clamped_run by (done || by apply wrap_small). eexists. split; [done|]. split; [done|].
  cbn [with_mem set_stream ds_mem].
  assert (z mod 2 ^ (8 * data_size f) = z) as Hmod by (by apply (wrap_small (8 * data_size f))).
  split.
  - rewrite value_bytes_eq, Hlt. typed. rewrite (proj2 (load_unsigned_spec _ f p z)); [done|].
    split; [done|]. by rewrite H2, Hmod.
  - apply number_default_value; [auto|apply number_ok|lia|]. by rewrite H2, Hmod, Hz.
Qed.

Lemma fixed32_restored : PB_LTYPE (type f) = PB_LTYPE_FIXED32 → restores pb_dec_fixed32 f a p v s.
Proof.
  intros Hlt rest t e E. pose proof (pf_fixed32 f Hf Hlt) as H4. rewrite value_bytes_eq in Hv. rewrite Hlt in Hv.
  typed_in Hv. apply (inj Some) in Hv; subst v. set (z := le_value (load m a 4)) in *.
  assert (fits 32 z) as Hz by (by apply load_le).
  assert (le_value (le_bytes 4 z) = z) as Hval.
  { apply le_value_small. change (256 ^ Z.of_nat 4) with (2 ^ 32). exact Hz. }
  assert (pb_decode_fixed32 (istr (le_bytes 4 z ++ rest) t e) = (Some z, istr rest t e)) as Hrun.
  { rewrite decode_fixed32_eq by (apply le_bytes_ok || by rewrite lenZ_le_bytes). by rewrite Hval. }
  rewrite <-E in Hrun. unfold pb_dec_fixed32. rewrite (bind_some _ _ _ _ _ (on_stream_run _ s z _ Hrun)).
  rewrite store_run. eexists. split; [done|]. split; [done|]. cbn [with_mem set_stream ds_mem ds_stream].
  assert (load (store (ds_mem s) p (le_bytes 4 z)) p 4 = le_bytes 4 z) as Hload
    by (apply load_store; rewrite ?lenZ_le_bytes; lia).
  rewrite value_bytes_eq. unfold value_default. rewrite Hlt. typed.
  rewrite H4, Hload, Hval. split; [done|].
  rewrite !zeros_iff by (apply le_bytes_ok || by apply load_ok). by rewrite Hval.
Qed.

Lemma fixed64_restored : PB_LTYPE (type f) = PB_LTYPE_FIXED64 → restores pb_dec_fixed64 f a p v s.
Proof.
  intros Hlt rest t e E. pose proof (pf_fixed64 f Hf Hlt) as H8. rewrite value_bytes_eq in Hv. rewrite Hlt in Hv.
  typed_in Hv. apply (inj Some) in Hv; subst v. set (z := le_value (load m a 8)) in *.
  assert (fits 64 z) as Hz by (by apply load_le).
  assert (le_value (le_bytes 8 z) = z) as Hval.
  { apply le_value_small. change (256 ^ Z.of_nat 8) with (2 ^ 64). exact Hz. }
  assert (pb_decode_fixed64 (istr (le_bytes 8 z ++ rest) t e) = (Some z, istr rest t e)) as Hrun.
  { rewrite decode_fixed64_eq by (apply le_bytes_ok || by rewrite lenZ_le_bytes). by rewrite Hval. }
  rewrite <-E in Hrun. unfold pb_dec_fixed64. rewrite (bind_some _ _ _ _ _ (on_stream_run _ s z _ Hrun)).
  rewrite store_run. eexists. split; [done|]. split; [done|]. cbn [with_mem set_stream ds_mem ds_stream].
  assert (load (store (ds_mem s) p (le_bytes 8 z)) p 8 = le_bytes 8 z) as Hload
    by (apply load_store; rewrite ?lenZ_le_bytes; lia).
  rewrite value_bytes_eq. unfold value_default. rewrite Hlt. typed.
  rewrite H8, Hload, Hval. split; [done|].
  rewrite !zeros_iff by (apply le_bytes_ok || by apply load_ok). by rewrite Hval.
Qed.

(** The length of a string whose encoding is short enough. *)
Lemma string_len x : v = string_bytes x → fits 32 (lenZ x).
Proof.
  clear Hv. intros ->. unfold string_bytes in Hlen. rewrite lenZ_app in Hlen.
  pose proof (lenZ_nonneg x). pose proof (lenZ_nonneg (varint_of (lenZ x))). split; lia.
Qed.

Lemma size_run x rest t e :
  v = string_bytes x → ds_stream s = istr (v ++ rest) t e →
  on_stream pb_decode_varint32 s = (Some (lenZ x), set_stream s (istr (x ++ rest) t e)).
Proof.
  intros Hx E. pose proof (string_len x Hx). apply on_stream_run. rewrite E, Hx. unfold string_bytes.
  rewrite <-app_assoc. by apply decode_varint32_of.
Qed.

Lemma destination_run msg size alloc s1 :
  alloc <= data_size f → destination pb_realloc f p size alloc msg s1 = (Some p, s1).
Proof.
  intros Hal. unfold destination. rewrite static_ok. typed. cbn [PB_ATYPE_STATIC PB_ATYPE_POINTER Z.eqb].
  by rewrite (proj2 (Z.ltb_ge _ _) Hal).
Qed.

Lemma bytes_restored : PB_LTYPE (type f) = PB_LTYPE_BYTES → restores (pb_dec_bytes pb_realloc) f a p v s.
Proof.
  intros Hlt rest t e E. pose proof (pf_bytes f Hf Hlt) as H4. pose proof size_ok as Hds.
  rewrite value_bytes_eq in Hv. rewrite Hlt in Hv. typed_in Hv.
  rewrite (proj2 (Z.eqb_neq a NULL)) in Hv by (unfold NULL; lia). rewrite static_ok in Hv. cbn [Z.eqb PB_ATYPE_STATIC andb] in Hv.
  set (size := load_size m a) in *.
  destruct (Z.ltb_spec (size_t (data_size f - offsetof_bytes)) size) as [|Hle]; [done|].
  unfold offsetof_bytes in Hle. rewrite wrap_small in Hle by mlia.
  unfold memory_string in Hv. destruct (Z.eqb_spec (lenZ (load m (a + offsetof_bytes) size)) size) as [Hx|]; [|done].
  apply (inj Some) in Hv. set (x := load m (a + offsetof_bytes) size) in *. symmetry in Hv.
  pose proof (string_len x Hv) as [Hn0 Hn1]. pose proof (size_run x rest t e Hv E) as Hsz.
  unfold pb_dec_bytes. rewrite (bind_some _ _ _ _ _ Hsz). rewrite Hx in *.
  rewrite (proj2 (Z.ltb_ge PB_SIZE_MAX size)) by (unfold PB_SIZE_MAX; lia). cbv zeta.
  unfold PB_BYTES_ARRAY_T_ALLOCSIZE, offsetof_bytes. rewrite (wrap_small 64 (size + 4)) by mlia.
  rewrite (proj2 (Z.ltb_ge (size + 4) size)) by lia.
  rewrite (bind_some _ _ _ _ _ (destination_run _ size (size + 4) _ ltac:(lia))).
  unfold set_size_at. rewrite (bind_some _ _ _ _ _ (store_run _ _ _)).
  rewrite (read_into_run (p + 4) size x rest t e) by done. eexists. split; [done|]. split; [done|].
  cbn [with_mem set_stream ds_mem ds_stream]. rewrite (wrap_small 32 size) by done.
  set (m1 := store (ds_mem s) p (le_bytes 4 size)).
  assert (lenZ m1 = lenZ (ds_mem s)) as Hm1 by (apply store_length; rewrite ?lenZ_le_bytes; lia).
  assert (load_size (store m1 (p + 4) x) p = size) as Hsize.
  { unfold load_size. rewrite <-(load_same p 4 m1); [apply load_size_store; done || lia|lia|].
    apply store_same; [lia|lia|lia|]. unfold apart. destruct (Z.leb_spec (p + 4) (p + 4)); [|lia]. by rewrite !orb_true_r. }
  rewrite value_bytes_eq. unfold value_default. rewrite Hlt. typed. rewrite Hsize.
  rewrite (proj2 (Z.eqb_neq p NULL)) by (unfold NULL; lia). rewrite static_ok.
  split; [|done]. cbn [Z.eqb PB_ATYPE_STATIC andb]. unfold offsetof_bytes. rewrite wrap_small by mlia.
  rewrite (proj2 (Z.ltb_ge (data_size f - 4) size)) by lia.
  unfold memory_string. rewrite load_store by lia. by rewrite Hx, Z.eqb_refl, Hv.
Qed.

Lemma string_restored :
  PB_LTYPE (type f) = PB_LTYPE_STRING → terminated m f a = true → restores (pb_dec_string pb_realloc) f a p v s.
Proof.
  intros Hlt Hterm rest t e E. pose proof (pf_string f Hf Hlt) as H1. pose proof size_ok as Hds.
  unfold terminated in Hterm. apply Z.ltb_lt in Hterm.
  rewrite value_bytes_eq in Hv. rewrite Hlt in Hv. typed_in Hv.
  rewrite (proj2 (Z.eqb_neq a NULL)) in Hv by (unfold NULL; lia). rewrite static_ok in Hv.
  cbn [Z.eqb PB_ATYPE_STATIC PB_ATYPE_POINTER] in Hv. rewrite load_string in Hv by lia.
  apply (inj Some) in Hv. set (x := c_string (load m a (data_size f))) in *. symmetry in Hv.
  assert (Forall (λ b, b ≠ 0) x) as Hnz by apply c_string_nonzero.
  pose proof (string_len x Hv) as [Hn0 Hn1]. unfold pb_dec_string.
  rewrite (bind_some _ _ _ _ _ (size_run x rest t e Hv E)). cbv zeta.
  rewrite (wrap_small 32 (lenZ x + 1)) by mlia. rewrite (proj2 (Z.ltb_ge (lenZ x + 1) (lenZ x))) by lia.
  rewrite (bind_some _ _ _ _ _ (destination_run _ (lenZ x) (lenZ x + 1) _ ltac:(lia))).
  unfold attempt. unfold mbind at 1, M_bind at 1.
  rewrite (read_into_run p (lenZ x) x rest t e) by done.
  rewrite (bind_some _ _ _ _ _ (store_run _ _ _)). eexists. split; [done|]. split; [done|].
  cbn [with_mem set_stream ds_mem ds_stream].
  pose proof (c_string_stored (ds_mem s) p x (data_size f) ltac:(lia) Hterm Hl Hnz) as Hcs.
  rewrite value_bytes_eq. unfold value_default. rewrite Hlt. typed.
  rewrite (proj2 (Z.eqb_neq p NULL)) by (unfold NULL; lia). rewrite static_ok.
  cbn [Z.eqb PB_ATYPE_STATIC PB_ATYPE_POINTER]. rewrite load_string by lia. rewrite Hcs, Hv. split; [done|].
  by rewrite !(string_default _ _ (data_size f)), Hcs by done.
Qed.

Lemma fixed_length_restored :
  PB_LTYPE (type f) = PB_LTYPE_FIXED_LENGTH_BYTES → restores pb_dec_fixed_length_bytes f a p v s.
Proof.
  intros Hlt rest t e E. pose proof size_ok as [Hd0 Hd1]. rewrite value_bytes_eq in Hv. rewrite Hlt in Hv. typed_in Hv.
  unfold memory_string in Hv. destruct (Z.eqb_spec (lenZ (load m a (data_size f))) (data_size f)) as [Hx|]; [|done].
  apply (inj Some) in Hv. set (x := load m a (data_size f)) in *. symmetry in Hv.
  unfold pb_dec_fixed_length_bytes. rewrite (bind_some _ _ _ _ _ (size_run x rest t e Hv E)).
  rewrite (proj2 (Z.ltb_ge PB_SIZE_MAX (lenZ x))) by (unfold PB_SIZE_MAX; lia). rewrite Hx.
  assert (∀ m', load m' p (data_size f) = x →
    value_bytes m' (message_bytes m' depth) f p = Some v ∧ value_default m' depth f p = value_default m depth f a) as Hdone.
  { intros m' Hm'. rewrite value_bytes_eq. unfold value_default. rewrite Hlt. typed. unfold memory_string.
    by rewrite Hm', Hx, Z.eqb_refl, Hv. }
  destruct (Z.eqb_spec (data_size f) 0) as [Hz|Hz].
  - rewrite store_run. eexists. split; [done|]. rewrite Hz in *. apply Z.eq_le_incl, lenZ_0_nil in Hx.
    split; [cbn; by rewrite Hx|]. apply Hdone. rewrite Hx. unfold load. by rewrite takeZ_0.
  - rewrite Z.eqb_refl. cbn [negb].
    rewrite (read_into_run p (data_size f) x rest t e) by done. eexists. split; [done|]. split; [done|].
    cbn [with_mem set_stream ds_mem ds_stream]. apply Hdone. apply load_store; lia.
Qed.

Lemma value_restored :
  (PB_LTYPE (type f) = PB_LTYPE_STRING → terminated m f a = true) →
  (is_sub f = true → restores dec_submessage f a p v s) →
  restores (PB_DECODERS pb_realloc dec_submessage (PB_LTYPE (type f))) f a p v s.
Proof.
  intros Hstr Hsub. unfold is_sub in Hsub. unfold PB_DECODERS.
  destruct (Z.eqb_spec (PB_LTYPE (type f)) PB_LTYPE_BOOL); [by apply bool_restored|].
  destruct (Z.eqb_spec (PB_LTYPE (type f)) PB_LTYPE_VARINT); [by apply varint_restored|].
  destruct (Z.eqb_spec (PB_LTYPE (type f)) PB_LTYPE_UVARINT); [by apply uvarint_restored|].
  destruct (Z.eqb_spec (PB_LTYPE (type f)) PB_LTYPE_SVARINT); [by apply svarint_restored|].
  destruct (Z.eqb_spec (PB_LTYPE (type f)) PB_LTYPE_FIXED32); [by apply fixed32_restored|].
  destruct (Z.eqb_spec (PB_LTYPE (type f)) PB_LTYPE_FIXED64); [by apply fixed64_restored|].
  destruct (Z.eqb_spec (PB_LTYPE (type f)) PB_LTYPE_BYTES); [by apply bytes_restored|].
  destruct (Z.eqb_spec (PB_LTYPE (type f)) PB_LTYPE_STRING); [by apply string_restored; auto|].
  destruct (Z.eqb_spec (PB_LTYPE (type f)) PB_LTYPE_SUBMESSAGE); [by apply Hsub|].
  destruct (Z.eqb_spec (PB_LTYPE (type f)) PB_LTYPE_FIXED_LENGTH_BYTES); [by apply fixed_length_restored|].
  exfalso. rewrite value_bytes_eq in Hv. cbv zeta in Hv.
  repeat match goal with H : PB_LTYPE (type f) ≠ _ |- _ => rewrite (proj2 (Z.eqb_neq _ _) H) in Hv; clear H end.
  discriminate Hv.
Qed.
End value.
End values.
