(* ===== verification/PbTurns.v ===== *)
(** The turns of the decoding loop: finding a field by its tag, marking required fields as seen, and
    one turn per encoded item. *)
From stdpp Require Import strings.
From S2P Require Import Prelude PbWire PbRead PbWrite PbField PbEncode PbEncodeSpec PbDecode PbLayout PbSafety PbTotal PbMemory PbPlain PbFresh PbValues.

Open Scope Z_scope.

(** * Which required fields were seen *)

(** The first [r] of at most 64 bits. *)
Definition seen_words (r : Z) : list Z := [Z.ones (Z.min r 32); Z.ones (Z.max 0 (r - 32))].

Definition mark_seen (seen : list Z) (index : Z) : list Z :=
  write_at seen (index ≫ 5) [nthZ seen (index ≫ 5) .| u32 (1 ≪ (index .& 31))].

Definition all_seen (seen : list Z) (count : Z) : bool :=
  let allbits := u32 (-1) in
  forallb (λ i, nthZ seen i =? allbits) (seqZ 0 (count ≫ 5)) &&
  ((count .& 31 =? 0) || (nthZ seen (count ≫ 5) =? allbits ≫ (32 - (count .& 31)))).

(** A finite check stands for all counts. *)
Lemma for_counts (P : Z → bool) n : forallb P (seqZ 0 n) = true → ∀ r, 0 <= r < n → P r = true.
Proof.
  intros H r Hr. rewrite forallb_forall in H. apply H, list_elem_of_In, elem_of_seqZ. lia.
Qed.

Lemma mark_seen_check :
  forallb (λ r, bool_decide (mark_seen (seen_words r) r = seen_words (r + 1))) (seqZ 0 64) = true.
Proof. vm_compute. reflexivity. Qed.
Lemma all_seen_check : forallb (λ r, all_seen (seen_words r) r) (seqZ 0 65) = true.
Proof. vm_compute. reflexivity. Qed.

Lemma mark_seen_step r : 0 <= r < 64 → mark_seen (seen_words r) r = seen_words (r + 1).
Proof. intros Hr. pose proof (for_counts _ _ mark_seen_check r Hr) as H. by apply bool_decide_eq_true in H. Qed.

Lemma all_seen_words r : 0 <= r <= 64 → all_seen (seen_words r) r = true.
Proof. intros Hr. apply (for_counts _ _ all_seen_check r). lia. Qed.

(** How many required fields are before place [i]. *)
Definition required_before (fields : list pb_field) (i : nat) : Z := (place fields i).2.

Definition seen_before (fields : list pb_field) (i : nat) : list Z :=
  seen_words (Z.min 64 (required_before fields i)).

Section required.
Context (fields : list pb_field).
Context (Hplain : ∀ i, (i < length fields)%nat → plain_facts (field_at fields i)) (Hlen : lenZ fields < 2 ^ 32).

Lemma no_union i : (i < length fields)%nat → in_union (field_at fields i) (field_at fields (S i)) = false.
Proof.
  intros Hi. unfold in_union. by destruct (pf_rule _ (Hplain i Hi)) as [->|[->|[-> _]]].
Qed.

Lemma required_before_bound i : (i <= length fields)%nat → 0 <= required_before fields i <= Z.of_nat i.
Proof.
  induction i as [|i IH]; intros Hi; [done|]. specialize (IH ltac:(lia)).
  unfold required_before in *. cbn [place]. destruct (place fields i) as [[data size] req]. rewrite no_union by lia.
  cbn [snd] in *. destruct (_ =? _); [|lia]. rewrite wrap_small; [lia|]. unfold lenZ in Hlen. split; lia.
Qed.

Lemma required_before_S i :
  (i < length fields)%nat →
  required_before fields (S i) =
    if PB_HTYPE (type (field_at fields i)) =? PB_HTYPE_REQUIRED
    then required_before fields i + 1 else required_before fields i.
Proof.
  intros Hi. pose proof (required_before_bound i ltac:(lia)) as Hb. unfold required_before in *. cbn [place].
  destruct (place fields i) as [[data size] req]. rewrite no_union by done. cbn [snd] in *.
  destruct (_ =? _); [|done]. apply wrap_small. unfold lenZ in Hlen. split; lia.
Qed.

(** What decoding the field at [i] marks. *)
Lemma seen_before_S i :
  (i < length fields)%nat →
  (if (PB_HTYPE (type (field_at fields i)) =? PB_HTYPE_REQUIRED) &&
      (required_before fields i <? PB_MAX_REQUIRED_FIELDS)
   then mark_seen (seen_before fields i) (required_before fields i) else seen_before fields i) =
  seen_before fields (S i).
Proof.
  intros Hi. pose proof (required_before_bound i ltac:(lia)) as Hb. unfold seen_before.
  rewrite required_before_S by done. unfold PB_MAX_REQUIRED_FIELDS.
  destruct (_ =? PB_HTYPE_REQUIRED); [|done]. cbn [andb]. destruct (Z.ltb_spec (required_before fields i) 64).
  - rewrite !Z.min_r by lia. apply mark_seen_step. lia.
  - by rewrite !Z.min_l by lia.
Qed.

Context (dest : Z) (Hdest : dest ≠ NULL).

Lemma plain_static i : (i < length fields)%nat → static_field (field_at fields i) = true.
Proof. intros Hi. by apply pf_static, Hplain. Qed.

Lemma seek_end_at fuel i :
  (i < length fields)%nat → (length fields <= i + fuel)%nat →
  ∃ k, (S k = length fields)%nat ∧
    seek_end fuel (iter_at fields dest i) =
      (required_before fields k, type (field_at fields k), iter_at fields dest 0).
Proof.
  revert i. induction fuel as [|fuel IH]; intros i Hi Hf; [lia|]. cbn [seek_end].
  rewrite iter_next_at by (done || apply plain_static).
  destruct (Nat.ltb_spec (S i) (length fields)) as [Hlt|Hge]; [by apply IH; lia|].
  exists i. split; [lia|]. rewrite pos_iter_at. unfold iter_at, required_before.
  by destruct (place fields i) as [[data size] req].
Qed.

(** All of them, in the end. *)
Lemma required_seen_at l i :
  valid_place fields i → iter l = iter_at fields dest i → fields_seen l = seen_before fields (length fields) →
  required_seen l = true.
Proof.
  intros Hi Hit Hseen. unfold required_seen. rewrite Hit, start_iter_at, Hseen.
  destruct Hi as [Hi|[-> ->]]; [|done].
  destruct (seek_end_at (length fields) i Hi ltac:(lia)) as (k & Hk & ->). rewrite pos_iter_at, <-Hk.
  destruct (static_field_inv _ (plain_static 0 ltac:(lia))) as (_ & Ht & _).
  rewrite (proj2 (Z.eqb_neq _ _) Ht), andb_true_r.
  pose proof (required_before_bound (S k) ltac:(lia)) as Hb. pose proof (required_before_S k ltac:(lia)) as Hs.
  assert ((if PB_HTYPE (type (field_at fields k)) =? PB_HTYPE_REQUIRED
           then u32 (required_before fields k + 1) else required_before fields k) = required_before fields (S k)) as ->.
  { rewrite Hs. destruct (_ =? _); [|done]. apply wrap_small. unfold lenZ in Hlen. split; lia. }
  unfold seen_before, PB_MAX_REQUIRED_FIELDS.
  assert ((if 64 <? required_before fields (S k) then 64 else required_before fields (S k)) =
    Z.min 64 (required_before fields (S k))) as -> by (destruct (Z.ltb_spec 64 (required_before fields (S k))); lia).
  destruct (0 <? _); [|done]. apply all_seen_words. lia.
Qed.

(** * Finding a field *)

Context (Htags : NoDup (map tag fields)).

Definition wanted_tag (t : Z) (f : pb_field) : bool :=
  (tag f =? t) && negb (PB_LTYPE (type f) =? PB_LTYPE_EXTENSION).

Lemma wanted_iff i j :
  (i < length fields)%nat → (j < length fields)%nat →
  wanted_tag (tag (field_at fields j)) (field_at fields i) = (i =? j)%nat.
Proof.
  intros Hi Hj. unfold wanted_tag. destruct (Nat.eqb_spec i j) as [->|Hne].
  - destruct (static_field_inv _ (plain_static j Hj)) as (_ & _ & _ & Hx & _).
    by rewrite Z.eqb_refl, (proj2 (Z.eqb_neq _ _) Hx).
  - destruct (Z.eqb_spec (tag (field_at fields i)) (tag (field_at fields j))) as [E|]; [|done].
    destruct Hne. unfold field_at in E.
    destruct (lookup_lt_is_Some_2 fields i Hi) as [f Hf]. destruct (lookup_lt_is_Some_2 fields j Hj) as [g Hg].
    rewrite Hf, Hg in E. cbn in E. apply (NoDup_lookup (map tag fields) i j (tag f)); [done| |].
    + rewrite list_lookup_fmap, Hf. done.
    + rewrite list_lookup_fmap, Hg, E. done.
Qed.

Section walk.
Context (first j : nat) (Hj : (j < length fields)%nat).
Let search fuel i := iter_find_loop fuel first (wanted_tag (tag (field_at fields j))) (iter_at fields dest i).

Lemma search_step fuel i :
  (i < length fields)%nat → i ≠ j →
  search (S fuel) i =
    let next := if (S i <? length fields)%nat then S i else 0%nat in
    if (next =? first)%nat then (iter_at fields dest next, false) else search fuel next.
Proof.
  intros Hi Hne. unfold search. cbn [iter_find_loop]. rewrite pos_iter_at, wanted_iff by done.
  rewrite (proj2 (Nat.eqb_neq _ _) Hne), iter_next_at by (done || apply plain_static).
  destruct (S i <? length fields)%nat; cbn [fst]; by rewrite index_iter_at.
Qed.

(** Forward to [j], when the search began before or beyond it. *)
Lemma search_forward d fuel i :
  (i + d = j)%nat → (d < fuel)%nat → (first <= i ∨ j < first)%nat → search fuel i = (iter_at fields dest j, true).
Proof.
  revert fuel i. induction d as [|d IH]; intros fuel i Hd Hf Hfirst; (destruct fuel as [|fuel]; [lia|]).
  - assert (i = j) as -> by lia. unfold search. cbn [iter_find_loop].
    by rewrite pos_iter_at, wanted_iff, Nat.eqb_refl by done.
  - rewrite search_step by lia. rewrite (proj2 (Nat.ltb_lt _ _)) by lia. cbv zeta.
    rewrite (proj2 (Nat.eqb_neq _ _)) by lia. apply IH; lia.
Qed.

(** From behind [j], by way of the end. *)
Lemma search_around d fuel i :
  (i + S d = length fields)%nat → (j < first <= i)%nat → (S d + j < fuel)%nat →
  search fuel i = (iter_at fields dest j, true).
Proof.
  revert fuel i. induction d as [|d IH]; intros fuel i Hd Hf Hfuel; (destruct fuel as [|fuel]; [lia|]);
    rewrite search_step by lia; cbv zeta.
  - rewrite (proj2 (Nat.ltb_ge _ _)), (proj2 (Nat.eqb_neq _ _)) by lia. apply (search_forward j); lia.
  - rewrite (proj2 (Nat.ltb_lt _ _)), (proj2 (Nat.eqb_neq _ _)) by lia. apply IH; lia.
Qed.
End walk.

Lemma find_exact i j :
  (i < length fields)%nat → (j < length fields)%nat →
  pb_field_iter_find (iter_at fields dest i) (tag (field_at fields j)) = (iter_at fields dest j, true).
Proof.
  intros Hi Hj. unfold pb_field_iter_find. rewrite start_iter_at, index_iter_at.
  destruct (Nat.le_gt_cases i j).
  - apply (search_forward i j Hj (j - i)); lia.
  - apply (search_around i j Hj (length fields - S i)); lia.
Qed.
End required.

(** * Turns of the loop *)

Section turns.
Context {D : Descriptors} (pb_realloc : bytes → Z → Z → Z * bytes) (pb_free : bytes → Z → bytes).
Context (callback_decode : Z → pb_field → Z → Dec ()) (type_decoder : Z → Z → Z → Z → Dec ()).
Context (dec_submessage : pb_field → Z → Dec ()) (depth calls : nat).

Let loop := decode_loop pb_realloc pb_free callback_decode type_decoder dec_submessage depth.
Let one := decode_one pb_realloc pb_free callback_decode type_decoder dec_submessage depth calls.
Let static := decode_static_field pb_realloc dec_submessage depth.

(** The loop gets from one state to another, with fuel for what is left. *)
Definition loops (l : locals) (s : dstate) (l' : locals) (s' : dstate) : Prop :=
  ∀ fuel, is_bytes_left (ds_stream s) < Z.of_nat fuel →
  ∃ fuel', is_bytes_left (ds_stream s') < Z.of_nat fuel' ∧ loop fuel calls l s = loop fuel' calls l' s'.

Lemma loops_refl l s : loops l s l s.
Proof. intros fuel Hf. by exists fuel. Qed.
Lemma loops_trans l1 s1 l2 s2 l3 s3 : loops l1 s1 l2 s2 → loops l2 s2 l3 s3 → loops l1 s1 l3 s3.
Proof.
  intros H1 H2 fuel Hf. destruct (H1 fuel Hf) as (f2 & Hf2 & ->). by apply H2.
Qed.

Lemma loops_turn wt t x tl e l s l' s' :
  0 <= wt < 8 → 0 < t < 2 ^ 29 → ds_stream s = istr (tag_bytes wt t ++ x) tl e →
  one wt t l (set_stream s (istr x tl e)) = (Some l', s') → is_bytes_left (ds_stream s') <= lenZ x →
  loops l s l' s'.
Proof.
  intros Hw Ht Hs Hone Hl fuel Hf. rewrite Hs in Hf. cbn [istr is_bytes_left] in Hf.
  assert (0 < lenZ (tag_bytes wt t)) as Htag.
  { assert (fits 32 t) by (split; change (2 ^ 29) with 536870912 in *; mlia).
    pose proof (tag_bytes_nonempty wt t) as Hne. destruct (tag_bytes wt t); [by destruct Hne|llia]. }
  rewrite lenZ_app in Hf. pose proof (lenZ_nonneg x). destruct fuel as [|fuel]; [lia|].
  exists fuel. split; [lia|]. unfold loop. rewrite decode_loop_eq, Hs. cbn [istr is_bytes_left].
  rewrite lenZ_app, (proj2 (Z.eqb_neq _ _)) by lia.
  fold (istr (tag_bytes wt t ++ x) tl e). rewrite decode_tag_of by lia.
  exact (bind_some _ _ _ _ _ Hone).
Qed.

Lemma loops_end l s l' s' t e :
  loops l s l' s' → 0 <= is_bytes_left (ds_stream s) → ds_stream s' = istr [] t e →
  loop (S (Z.to_nat (is_bytes_left (ds_stream s)))) calls l s = (Some l', s').
Proof.
  intros H H0 Hs'. destruct (H (S (Z.to_nat (is_bytes_left (ds_stream s)))) ltac:(lia)) as (fuel & Hf & ->).
  rewrite Hs' in Hf. destruct fuel as [|fuel]; [done|]. unfold loop. by rewrite decode_loop_eq, Hs'.
Qed.

(** ** A turn of a plain message *)

Section message.
Context (wfd pd : nat) (fields : list pb_field) (n dest : Z).
Context (Hwf : wf_message wfd fields n = true) (Hpl : plain_message pd fields = true) (Hdest : 0 < dest).

(** The locals at place [j], with the fields before [i] seen. *)
Definition locals_seen (i j : nat) : locals :=
  {| fields_seen := seen_before fields i; extension_range_start := 0; iter := iter_at fields dest j;
     fixed_count_field := None |}.

(** The turn of the field at [k]: its fields before were seen, or itself too when it is an array. *)
Lemma one_static wt seen i k s s' :
  valid_place fields i → (k < length fields)%nat →
  static wt (iter_at fields dest k) (SizeAt (dest + size_at fields k)) s = (Some (), s') →
  one wt (tag (field_at fields k))
    {| fields_seen := seen; extension_range_start := 0; iter := iter_at fields dest i; fixed_count_field := None |} s =
  (Some {| fields_seen :=
             if (PB_HTYPE (type (field_at fields k)) =? PB_HTYPE_REQUIRED) &&
                (required_before fields k <? PB_MAX_REQUIRED_FIELDS)
             then mark_seen seen (required_before fields k) else seen;
           extension_range_start := 0; iter := iter_at fields dest k; fixed_count_field := None |}, s').
Proof.
  intros Hi Hk Hrun. destruct Hi as [Hi|[-> ->]]; [|cbn in Hk; lia].
  destruct (plain_inv _ _ Hpl) as (Hf & _ & Htags & _). pose proof (Hf k Hk) as Hfk.
  unfold one, decode_one. cbn [iter]. rewrite (find_exact fields Hf dest) by (done || (unfold NULL; lia)).
  cbn [negb fields_seen extension_range_start fixed_count_field]. unfold decode_known.
  cbn [iter fields_seen extension_range_start fixed_count_field]. rewrite pos_iter_at.
  assert ((PB_HTYPE (type (field_at fields k)) =? PB_HTYPE_REPEATED) &&
    (pSize (iter_at fields dest k) =? pData (iter_at fields dest k)) = false) as Hfixed.
  { rewrite pSize_iter_at, pData_iter_at.
    destruct (pf_rule _ Hfk) as [->|[->|[-> He]]]; [done..|].
    destruct (plain_places _ _ _ _ dest k Hwf Hpl Hk) as [_ Hz _ _]. apply Z.eqb_neq.
    unfold explicit in He. apply negb_true_iff, Z.eqb_neq in He. lia. }
  rewrite Hfixed. cbn [andb]. rewrite bind_ret, pSize_iter_at. cbn [fields_seen extension_range_start fixed_count_field].
  unfold decode_field. rewrite pos_iter_at.
  assert ((PB_HTYPE (type (field_at fields k)) =? PB_HTYPE_ONEOF) = false) as Ho.
  { destruct (pf_rule _ Hfk) as [->|[->|[-> _]]]; done. }
  rewrite Ho, !bind_assoc, bind_ret. rewrite pos_iter_at.
  destruct (static_field_inv _ (pf_static _ Hfk)) as (_ & _ & Ha & _). rewrite Ha.
  cbn [Z.eqb PB_ATYPE_STATIC]. rewrite (bind_some _ _ _ _ _ Hrun).
  assert (required_field_index (iter_at fields dest k) = required_before fields k) as ->.
  { unfold iter_at, required_before. by destruct (place fields k) as [[??]?]. }
  done.
Qed.

(** The first turn of a field. *)
Lemma turn_first wt i k x t e s s' :
  0 <= wt < 8 → valid_place fields i → (k < length fields)%nat →
  ds_stream s = istr (tag_bytes wt (tag (field_at fields k)) ++ x) t e →
  static wt (iter_at fields dest k) (SizeAt (dest + size_at fields k)) (set_stream s (istr x t e)) = (Some (), s') →
  is_bytes_left (ds_stream s') <= lenZ x →
  loops (locals_seen k i) s (locals_seen (S k) k) s'.
Proof.
  intros Hw Hi Hk Hs Hrun Hl. destruct (plain_inv _ _ Hpl) as (Hf & _ & _ & _ & Hlen).
  apply (loops_turn wt (tag (field_at fields k)) x t e); [done|by apply pf_tag, Hf|done| |done].
  pose proof (one_static wt (seen_before fields k) i k _ s' Hi Hk Hrun) as H. unfold locals_seen.
  rewrite <-(seen_before_S fields Hf Hlen k Hk). exact H.
Qed.

(** The further turns of an array. *)
Lemma turn_again wt k x t e s s' :
  0 <= wt < 8 → (k < length fields)%nat → PB_HTYPE (type (field_at fields k)) = PB_HTYPE_REPEATED →
  ds_stream s = istr (tag_bytes wt (tag (field_at fields k)) ++ x) t e →
  static wt (iter_at fields dest k) (SizeAt (dest + size_at fields k)) (set_stream s (istr x t e)) = (Some (), s') →
  is_bytes_left (ds_stream s') <= lenZ x →
  loops (locals_seen (S k) k) s (locals_seen (S k) k) s'.
Proof.
  intros Hw Hk Hr Hs Hrun Hl. destruct (plain_inv _ _ Hpl) as (Hf & _).
  apply (loops_turn wt (tag (field_at fields k)) x t e); [done|by apply pf_tag, Hf|done| |done].
  pose proof (one_static wt (seen_before fields (S k)) k k _ s' ltac:(by left) Hk Hrun) as H. rewrite Hr in H.
  exact H.
Qed.
End message.
End turns.
