(* ===== verification/PbFields.v ===== *)
(** Single fields through the encoder and back: singular fields, packed arrays, and the items of
    unpacked arrays. *)
From stdpp Require Import strings.
From S2P Require Import Prelude PbWire PbRead PbWrite PbField PbEncode PbEncodeSpec PbDecode PbLayout PbSafety PbTotal PbMemory PbPlain PbFresh PbValues.

Open Scope Z_scope.

(** * Arrays as lists of encodings *)

Section arrays.
Context {D : Descriptors}.

(** The items at [p] and [step] apart encode to [vs], from the first up to [j]. *)
Definition items_at (item : Z → option bytes) (p step : Z) (vs : list bytes) (j : nat) : Prop :=
  ∀ i v, (i < j)%nat → vs !! i = Some v → item (p + Z.of_nat i * step) = Some v.

Lemma items_at_S item p step v vs n :
  items_at item p step (v :: vs) (S n) ↔ item p = Some v ∧ items_at item (p + step) step vs n.
Proof.
  split.
  - intros H. split; [specialize (H 0%nat v); by rewrite Z.add_0_r in H; apply H; [lia|]|].
    intros i w Hi Hw. specialize (H (S i) w ltac:(lia) Hw).
    replace (p + step + Z.of_nat i * step) with (p + Z.of_nat (S i) * step) by lia. done.
  - intros [H0 H] [|i] w Hi Hw; [cbn in Hw; rewrite Z.add_0_r; congruence|].
    replace (p + Z.of_nat (S i) * step) with (p + step + Z.of_nat i * step) by lia. apply H; [lia|done].
Qed.

Lemma items_of_iff item g (h : bytes → bytes) p step n b :
  (∀ q, item q = v ← g q; Some (h v)) →
  items_of n item p step = Some b ↔
  ∃ vs, length vs = n ∧ items_at g p step vs n ∧ b = concat (map h vs).
Proof.
  intros Hi. revert p b. induction n as [|n IH]; intros p b; cbn [items_of].
  { split; [intros [= <-]; by exists []|]. intros (vs & Hn & _ & ->). by destruct vs. }
  rewrite Hi. split.
  - destruct (g p) as [v|] eqn:Hv; [|done]. cbn [mbind option_bind].
    destruct (items_of n item (p + step) step) as [r|] eqn:Hr; [|done]. intros [= <-].
    apply IH in Hr as (vs & Hn & Hat & ->). exists (v :: vs). split; [cbn; lia|]. split; [|done].
    by apply items_at_S.
  - intros (vs & Hn & Hat & ->). destruct vs as [|v vs]; [done|]. apply items_at_S in Hat as [-> Hat].
    cbn [mbind option_bind length concat map] in *.
    by rewrite (proj2 (IH _ _) (ex_intro _ vs (conj (eq_add_S _ _ Hn) (conj Hat eq_refl)))).
Qed.

(** The bytes of an array. *)
Definition tagged_items (f : pb_field) (vs : list bytes) : bytes :=
  concat (map (λ v, tag_bytes PB_WT_STRING (tag f) ++ v) vs).
Definition array_wire (f : pb_field) (vs : list bytes) : bytes :=
  if PB_LTYPE (type f) <=? PB_LTYPE_LAST_PACKABLE
  then tag_bytes PB_WT_STRING (tag f) ++ string_bytes (concat vs) else tagged_items f vs.

Lemma unpackable_wire_type f :
  plain_facts f → PB_LTYPE_LAST_PACKABLE < PB_LTYPE (type f) → wire_type_of f = Some PB_WT_STRING.
Proof.
  intros Hf Hl. pose proof (static_field_known f (pf_static f Hf)) as Hk. unfold wire_type_of. cbv zeta.
  unfold known_type, PB_LTYPE_LAST_PACKABLE, PB_LTYPE_SVARINT, PB_LTYPE_FIXED32, PB_LTYPE_FIXED64 in *.
  rewrite (proj2 (Z.leb_gt _ _)), !(proj2 (Z.eqb_neq _ _)) by lia.
  assert ((PB_LTYPE (type f) <=? PB_LTYPE_SUBMESSAGE) || (PB_LTYPE (type f) =? PB_LTYPE_FIXED_LENGTH_BYTES) = true) as ->;
    [|done]. apply orb_true_iff. destruct Hk; [left; by apply Z.leb_le|right; by apply Z.eqb_eq].
Qed.

Lemma array_bytes_iff m sub f p count b :
  plain_facts f → 0 < count →
  array_bytes m sub f p count = Some b ↔
  count <= array_size f ∧
  ∃ vs, lenZ vs = count ∧ items_at (value_bytes m sub f) p (data_size f) vs (length vs) ∧ b = array_wire f vs.
Proof.
  intros Hf Hc. destruct (static_field_inv f (pf_static f Hf)) as (_ & _ & Ha & _).
  unfold array_bytes, array_wire, is_indirect. rewrite Ha, (proj2 (Z.eqb_neq count 0)) by lia.
  cbn [Z.eqb PB_ATYPE_STATIC PB_ATYPE_POINTER negb andb].
  destruct (Z.ltb_spec (array_size f) count); [split; [done|lia]|].
  assert (∀ item h b', (∀ q, item q = v ← value_bytes m sub f q; Some (h v)) →
    items_of (Z.to_nat count) item p (data_size f) = Some b' ↔
    ∃ vs, lenZ vs = count ∧ items_at (value_bytes m sub f) p (data_size f) vs (length vs) ∧
      b' = concat (map h vs)) as Hitems.
  { intros item h b' Hi. rewrite (items_of_iff item _ h) by done.
    split; intros (vs & Hn & Hat & E); exists vs; (split; [unfold lenZ in *; lia|]); split; try done.
    - by rewrite Hn. - by replace (Z.to_nat count) with (length vs) by (unfold lenZ in *; lia). }
  destruct (Z.leb_spec (PB_LTYPE (type f)) PB_LTYPE_LAST_PACKABLE) as [_|Hl].
  - assert (∀ q, value_bytes m sub f q = v ← value_bytes m sub f q; Some (id v)) as Hself
      by (intros q; by destruct (value_bytes m sub f q)).
    pose proof (λ b', Hitems _ id b' Hself) as Hall. setoid_rewrite map_id in Hall. split.
    + destruct (items_of _ _ _ _) as [x|]; [|done]. intros [= <-]. split; [done|].
      destruct (proj1 (Hall x) eq_refl) as (vs & Hn & Hat & ->). by exists vs.
    + intros (_ & vs & Hn & Hat & ->). by rewrite (proj2 (Hall (concat vs)) (ex_intro _ vs (conj Hn (conj Hat eq_refl)))).
  - unfold tagged. rewrite (unpackable_wire_type f Hf Hl).
    rewrite (Hitems _ (λ v, tag_bytes PB_WT_STRING (tag f) ++ v)) by done. naive_solver.
Qed.
End arrays.

(** * Substreams *)

(** The stream behind the announcement of a string, before the substream is closed. *)
Definition parent (b rest t : bytes) (e : option string) : pb_istream :=
  {| is_state := b ++ rest ++ t; is_bytes_left := lenZ rest; is_errmsg := e |}.

Lemma make_run b rest t e s :
  fits 32 (lenZ b) → ds_stream s = istr (string_bytes b ++ rest) t e →
  on_stream pb_make_string_substream s = (Some (istr b (rest ++ t) e), set_stream s (parent b rest t e)).
Proof.
  intros Hb E. apply on_stream_run. rewrite E. unfold string_bytes. rewrite <-app_assoc.
  by apply make_substream_eq, string_value_of.
Qed.

Lemma with_stream_run {A} (m : Dec A) sub s r s' :
  m (set_stream s sub) = (r, s') →
  with_stream sub m s =
    (Some (r, ds_stream s'), {| ds_stream := ds_stream s; ds_mem := ds_mem s'; ds_count := ds_count s' |}).
Proof. unfold with_stream, set_stream. by intros ->. Qed.

Lemma close_run b rest t e s :
  ds_stream s = parent b rest t e →
  on_stream (pb_close_string_substream (istr [] (rest ++ t) e)) s = (Some (), set_stream s (istr rest t e)).
Proof. intros E. apply on_stream_run. rewrite E. apply close_substream_eq. Qed.

(** * What can be decoded again

    A string without a terminator in its buffer cannot; of what is not encoded nothing is
    asked. *)

Definition item_decodable (m : bytes) (sub : list pb_field → Z → bool) {D : Descriptors} (f : pb_field) (a : Z)
    : bool :=
  if PB_LTYPE (type f) =? PB_LTYPE_STRING then terminated m f a
  else if is_sub f then sub (fields_at (ptr f)) a else true.

Definition field_decodable (m : bytes) (sub : list pb_field → Z → bool) {D : Descriptors} (depth : nat)
    (f : pb_field) (a : Z) : bool :=
  pb_check_proto3_default_value m depth f a ||
  (if PB_HTYPE (type f) =? PB_HTYPE_REPEATED then
     forallb (λ i, item_decodable m sub f (a + Z.of_nat i * data_size f))
       (seq 0 (Z.to_nat (load_size m (a + size_offset f))))
   else item_decodable m sub f a).

Lemma apart_part a la b lb a' la' :
  apart a la b lb = true → a <= a' → a' + la' <= a + la → apart a' la' b lb = true.
Proof. unfold apart. rewrite !orb_true_iff, !Z.leb_le. lia. Qed.

(** * One field *)

Section field.
Context {D : Descriptors} (pb_realloc : bytes → Z → Z → Z * bytes).
Context (m : bytes) (Hm : bytes_ok m).
Context (dec_submessage : pb_field → Z → Dec ()) (depth : nat) (decodable : list pb_field → Z → bool).
Context (Hconf : ∀ lo hi f p, 0 < lo → PB_LTYPE (type f) = PB_LTYPE_SUBMESSAGE → sub_ok f →
  lo <= p → p + data_size f <= hi → Confined lo hi (dec_submessage f p)).
Context (f : pb_field) (a p : Z) (Hf : plain_facts f) (Ha : 0 < a) (Hp : 0 < p).
Context (Hsub : is_sub f = true → ∃ d d',
  wf_message d (fields_at (ptr f)) (data_size f) = true ∧ plain_message d' (fields_at (ptr f)) = true).
(** Submessages: whatever is where an item of an array goes, fresh otherwise. *)
Context (Hrestores : is_sub f = true → ∀ b q v s,
  decodable (fields_at (ptr f)) b = true → 0 < b → 0 < q →
  value_bytes m (message_bytes m depth) f b = Some v → lenZ v < 2 ^ 32 →
  dstate_ok s → q + data_size f <= lenZ (ds_mem s) →
  (PB_HTYPE (type f) ≠ PB_HTYPE_REPEATED → fresh depth (ds_mem s) (fields_at (ptr f)) q) →
  restores m depth dec_submessage f b q v s).
Context (Hcell : 0 < cell_len f → 0 <= p + size_offset f).
Context (Hown : apart p (extent f) (p + size_offset f) (cell_len f) = true).

Let value m' := value_bytes m' (message_bytes m' depth) f.
Let func := PB_DECODERS pb_realloc dec_submessage (PB_LTYPE (type f)) f.

(** The structure is in memory. *)
Definition room (s : dstate) : Prop :=
  dstate_ok s ∧ p + extent f <= lenZ (ds_mem s) ∧
  (0 < cell_len f → p + size_offset f + cell_len f <= lenZ (ds_mem s)).

Lemma room_spares s s' : room s → dstate_ok s' → spares f p (ds_mem s) (ds_mem s') → room s'.
Proof. intros (_ & H1 & H2) Hs' [Hl _]. unfold room. by rewrite Hl. Qed.

Lemma room_stream s st : room s → istream_ok st → room (set_stream s st).
Proof. intros ((_ & Hs) & Hr) Hst. by split. Qed.

Lemma size_fits : fits 32 (data_size f).
Proof. by destruct (static_field_inv f (pf_static f Hf)) as ((_ & _ & H & _) & _). Qed.

Lemma value_kept m1 m2 q :
  0 < q → same_on q (q + data_size f) m1 m2 →
  value m1 q = value m2 q ∧ value_default m1 depth f q = value_default m2 depth f q.
Proof.
  intros Hq Hs. apply value_same; [done|done|done|]. intros Hl.
  destruct (Hsub (proj2 (Z.eqb_eq _ _) Hl)) as (d & d' & Hwf & Hpl). by eapply message_same.
Qed.

Lemma item_run b q v rest t e s :
  0 < b → p <= q → q + data_size f <= p + extent f → room s →
  item_decodable m decodable f b = true → value m b = Some v → lenZ v < 2 ^ 32 →
  (is_sub f = true → PB_HTYPE (type f) ≠ PB_HTYPE_REPEATED → fresh depth (ds_mem s) (fields_at (ptr f)) q) →
  ds_stream s = istr (v ++ rest) t e →
  ∃ s', func q s = (Some (), s') ∧ ds_stream s' = istr rest t e ∧ dstate_ok s' ∧
    same_outside q (q + data_size f) (ds_mem s) (ds_mem s') ∧
    value (ds_mem s') q = Some v ∧ value_default (ds_mem s') depth f q = value_default m depth f b.
Proof.
  intros Hb Hq Hqe (Hs & Hl & _) Hdec Hv Hlen Hfresh E.
  destruct (static_field_inv f (pf_static f Hf)) as (Hok & _ & Hat & _ & Ht & _).
  destruct (value_restored pb_realloc m Hm dec_submessage depth f b q s Hf Hb ltac:(lia) Hs ltac:(lia) v Hlen Hv)
    with rest t e as (s' & Hrun & Hst & Hval & Hdef).
  - intros Hlt. unfold item_decodable in Hdec. by rewrite Hlt in Hdec.
  - intros Hm'. apply (Hrestores Hm' b q v s); try done; [|lia|lia|auto].
    unfold item_decodable in Hdec. rewrite Hm' in Hdec. unfold is_sub in Hm'. apply Z.eqb_eq in Hm'.
    by rewrite Hm' in Hdec.
  - done.
  - exists s'. split; [done|].
    pose proof (item_confined pb_realloc q (q + data_size f) dec_submessage
      (λ f' p', Hconf q (q + data_size f) f' p' ltac:(lia)) f q Hok Hat) as Hc.
    assert (sub_ok f) as Hsok.
    { intros Hlt. destruct (Hsub (proj2 (Z.eqb_eq _ _) Hlt)) as (d & _ & Hwf & _). by exists d. }
    destruct (Hc Hsok ltac:(lia) ltac:(lia) s Hs ltac:(lia) ltac:(lia)) as (_ & Ho & Hs').
    fold func in Hrun. unfold func in Hrun. rewrite Hrun in Ho, Hs'. by split_and!.
Qed.

(** The field at [p] encodes as the one at [a] does. *)
Definition restored (m' : bytes) : Prop :=
  field_bytes m' (message_bytes m' depth) depth f p = field_bytes m (message_bytes m depth) depth f a ∧
  pb_check_proto3_default_value m' depth f p = pb_check_proto3_default_value m depth f a.

(** Only the field has changed, and the stream is at [rest]. *)
Definition decoded (s : dstate) (rest t : bytes) (e : option string) (s' : dstate) : Prop :=
  ds_stream s' = istr rest t e ∧ dstate_ok s' ∧ spares f p (ds_mem s) (ds_mem s').

Lemma extent_singular : PB_HTYPE (type f) ≠ PB_HTYPE_REPEATED → extent f = data_size f.
Proof. intros Hr. unfold extent. by rewrite (proj2 (Z.eqb_neq _ _) Hr). Qed.

Lemma singular_restored m' v :
  PB_HTYPE (type f) ≠ PB_HTYPE_REPEATED →
  (PB_HTYPE (type f) = PB_HTYPE_OPTIONAL → explicit f = true →
   safe_read_bool m' (p + size_offset f) = safe_read_bool m (a + size_offset f)) →
  value m a = Some v → value m' p = Some v → value_default m' depth f p = value_default m depth f a →
  restored m'.
Proof.
  intros Hr Hflag Hv Hv' Hd. unfold restored. rewrite !field_bytes_eq, !check_eq by done.
  rewrite !(proj2 (Z.eqb_neq _ _) Hr), (proj2 (Z.eqb_neq p NULL)), (proj2 (Z.eqb_neq a NULL)) by (unfold NULL; lia).
  unfold value in Hv, Hv'. rewrite Hv, Hv', Hd.
  destruct (Z.eqb_spec (PB_HTYPE (type f)) PB_HTYPE_REQUIRED) as [Hq|Hq]; [done|].
  assert (PB_HTYPE (type f) = PB_HTYPE_OPTIONAL) as Ho by (destruct (pf_rule f Hf) as [?|[?|[? _]]]; done).
  destruct (explicit f) eqn:He; [|done]. by rewrite Hflag.
Qed.

(** A field that is present is its tag and a value. *)
Lemma singular_bytes b :
  PB_HTYPE (type f) ≠ PB_HTYPE_REPEATED →
  field_bytes m (message_bytes m depth) depth f a = Some b → b ≠ [] →
  (∃ w v, 0 <= w < 8 ∧ b = tag_bytes w (tag f) ++ v ∧ value m a = Some v) ∧
  pb_check_proto3_default_value m depth f a = false ∧
  (PB_HTYPE (type f) = PB_HTYPE_OPTIONAL → explicit f = true → safe_read_bool m (a + size_offset f) = true).
Proof.
  intros Hr Hb Hne. rewrite field_bytes_eq in Hb by done. rewrite check_eq by done.
  rewrite (proj2 (Z.eqb_neq _ _) Hr) in *. rewrite (proj2 (Z.eqb_neq a NULL)) in Hb by (unfold NULL; lia).
  assert (tagged f (value m a) = Some b → ∃ w v, 0 <= w < 8 ∧ b = tag_bytes w (tag f) ++ v ∧ value m a = Some v) as Htag.
  { intros Ht. apply tagged_inv in Ht as (w & v & _ & Hv & -> & Hw). by exists w, v. }
  destruct (Z.eqb_spec (PB_HTYPE (type f)) PB_HTYPE_REQUIRED) as [Hq|Hq].
  { split; [by apply Htag|]. split; [done|]. by rewrite Hq. }
  destruct (explicit f).
  - destruct (safe_read_bool m (a + size_offset f)); [|by destruct Hne; injection Hb]. split; [by apply Htag|done].
  - destruct (value_default m depth f a); [by destruct Hne; injection Hb|]. by split; [apply Htag|].
Qed.

Lemma flag_run s :
  room s → fresh_field (fresh depth (ds_mem s)) (ds_mem s) f p →
  PB_HTYPE (type f) = PB_HTYPE_OPTIONAL → explicit f = true →
  let s1 := with_mem s (store (ds_mem s) (p + size_offset f) [1]) in
  room s1 ∧ spares f p (ds_mem s) (ds_mem s1) ∧
  (is_sub f = true → fresh depth (ds_mem s1) (fields_at (ptr f)) p) ∧
  ∀ m', same_outside p (p + data_size f) (ds_mem s1) m' → safe_read_bool m' (p + size_offset f) = true.
Proof.
  intros Hroom (_ & _ & _ & F4) Ho He s1. pose proof Hroom as (Hs & Hl & Hlc).
  assert (PB_HTYPE (type f) ≠ PB_HTYPE_REPEATED) as Hr by by rewrite Ho.
  pose proof size_fits as [Hd0 _]. rewrite (extent_singular Hr) in *.
  assert (cell_len f = 1) as Hc by (unfold cell_len; rewrite Ho, He; done). rewrite Hc in *.
  specialize (Hcell ltac:(lia)). specialize (Hlc ltac:(lia)).
  assert (spares f p (ds_mem s) (ds_mem s1)) as Hsp
    by (apply spares_store_cell; [lia|change (lenZ [1]) with 1; lia|by rewrite Hc]).
  assert (room s1) as Hroom1.
  { apply (room_spares s); [done| |done]. destruct Hs as (?&?&?). split; [done|].
    split; [apply bytes_ok_store; [done|decide_now]|done]. }
  split; [done|]. split; [done|]. split.
  - intros Hm'. destruct (Hsub Hm') as (d & d' & Hwf & Hpl).
    apply (fresh_same depth d d' _ _ _ (ds_mem s) _ Hwf Hpl Hp); [|by apply F4].
    apply store_same; [lia|change (lenZ [1]) with 1; lia|lia|]. change (lenZ [1]) with 1. by rewrite apart_sym.
  - assert (load_u8 (ds_mem s1) (p + size_offset f) = 1) as Hone
      by (apply load_u8_store; [lia|change (lenZ [1]) with 1; lia]).
    intros m' Ho'. unfold safe_read_bool, load_u8 in *.
    rewrite <-(load_same _ 1 (ds_mem s1)); [by rewrite Hone|lia|by eapply same_outside_on; [exact Ho'|lia..|]].
Qed.

Lemma singular_run b :
  PB_HTYPE (type f) ≠ PB_HTYPE_REPEATED →
  field_bytes m (message_bytes m depth) depth f a = Some b → b ≠ [] → lenZ b < 2 ^ 32 →
  field_decodable m decodable depth f a = true →
  ∃ w v, 0 <= w < 8 ∧ b = tag_bytes w (tag f) ++ v ∧
  ∀ wt it rest t e s, pos it = f → pData it = p → room s →
    fresh_field (fresh depth (ds_mem s)) (ds_mem s) f p → ds_stream s = istr (v ++ rest) t e →
    ∃ s', decode_static_field pb_realloc dec_submessage depth wt it (SizeAt (p + size_offset f)) s = (Some (), s') ∧
      decoded s rest t e s' ∧ restored (ds_mem s').
Proof.
  intros Hr Hb Hne Hlen Hdec. destruct (singular_bytes b Hr Hb Hne) as ((w & v & Hw & -> & Hv) & Hc & Hflag).
  exists w, v. split; [done|]. split; [done|]. intros wt it rest t e s Hpos Hdata Hroom Hfresh E.
  unfold field_decodable in Hdec. rewrite Hc, (proj2 (Z.eqb_neq _ _) Hr) in Hdec. cbn [orb] in Hdec.
  assert (lenZ v < 2 ^ 32) as Hlv by (rewrite lenZ_app in Hlen; pose proof (lenZ_nonneg (tag_bytes w (tag f))); lia).
  unfold decode_static_field. rewrite Hpos, Hdata. fold func.
  pose proof size_fits as [Hd0 _]. pose proof (extent_singular Hr) as He.
  assert (∀ s1, room s1 → spares f p (ds_mem s) (ds_mem s1) → ds_stream s1 = istr (v ++ rest) t e →
    (is_sub f = true → fresh depth (ds_mem s1) (fields_at (ptr f)) p) →
    (PB_HTYPE (type f) = PB_HTYPE_OPTIONAL → explicit f = true →
     ∀ m', same_outside p (p + data_size f) (ds_mem s1) m' → safe_read_bool m' (p + size_offset f) = true) →
    ∃ s', func p s1 = (Some (), s') ∧ decoded s rest t e s' ∧ restored (ds_mem s')) as Hend.
  { intros s1 Hroom1 Hsp E1 Hf1 Hflag1.
    destruct (item_run a p v rest t e s1) as (s' & Hrun & Hst & Hs' & Ho & Hval & Hdef); try done; [lia|auto|].
    exists s'. split; [done|]. split.
    - split; [done|]. split; [done|]. eapply spares_trans; [exact Hsp|]. apply spares_data; [lia|lia|by rewrite He].
    - apply (singular_restored _ v); try done. intros H1 H2. rewrite Hflag by done. by apply Hflag1. }
  pose proof Hfresh as (_ & _ & _ & F4).
  destruct (Z.eqb_spec (PB_HTYPE (type f)) PB_HTYPE_REQUIRED) as [Hq|Hq].
  { apply Hend; auto using spares_refl. by rewrite Hq. }
  assert (PB_HTYPE (type f) = PB_HTYPE_OPTIONAL) as Ho by (destruct (pf_rule f Hf) as [?|[?|[? _]]]; done).
  rewrite Ho. cbn [Z.eqb Pos.eqb PB_HTYPE_OPTIONAL]. destruct (explicit f) eqn:Hex.
  - pose proof Hex as Hex'. unfold explicit in Hex'. apply negb_true_iff, Z.eqb_neq in Hex'.
    rewrite (proj2 (Z.eqb_neq (p + size_offset f) p)) by lia. cbn [negb].
    rewrite (bind_some _ _ _ _ _ (store_run _ _ _)).
    destruct (flag_run s Hroom Hfresh Ho Hex) as (H1 & H2 & H3 & H4). apply Hend; auto.
  - pose proof Hex as Hex'. unfold explicit in Hex'. apply negb_false_iff, Z.eqb_eq in Hex'.
    rewrite Hex', Z.add_0_r, Z.eqb_refl. cbn [negb]. rewrite bind_ret.
    apply Hend; auto using spares_refl. done.
Qed.

(** ** Arrays *)

Section array.
Context (Hr : PB_HTYPE (type f) = PB_HTYPE_REPEATED) (vs : list bytes).
Context (Hroom : lenZ vs <= array_size f) (Hsrc : items_at (value m) a (data_size f) vs (length vs)).
Context (Hshort : ∀ j v, vs !! j = Some v → lenZ v < 2 ^ 32).
Context (Hdec : ∀ j, (j < length vs)%nat → item_decodable m decodable f (a + Z.of_nat j * data_size f) = true).

Let step := data_size f.
Let cell := p + size_offset f.
Let item_place (j : nat) := p + Z.of_nat j * step.
Let items m' j := items_at (value m') p step vs j.

(** The first [j] items are there and counted. *)
Definition holds (m' : bytes) (j : nat) : Prop := load_size m' cell = Z.of_nat j ∧ items m' j.

Lemma array_extent : extent f = step * array_size f ∧ extent f < 2 ^ 32 ∧ cell_len f = 4 ∧ 0 <= step.
Proof.
  destruct (static_field_inv f (pf_static f Hf)) as (_ & _ & _ & _ & _ & H32). pose proof size_fits as [H0 _].
  unfold extent, cell_len in *. by rewrite Hr in *.
Qed.

Lemma place_bounds j :
  (j < length vs)%nat →
  p <= item_place j ∧ item_place j + step <= p + extent f ∧ p + u32 (step * Z.of_nat j) = item_place j ∧
  0 < a + Z.of_nat j * step.
Proof.
  intros Hj. destruct array_extent as (He & H32 & _ & H0). unfold lenZ in Hroom. unfold item_place.
  assert (0 <= Z.of_nat j * step ∧ Z.of_nat j * step + step <= step * array_size f) as [H1 H2] by nia.
  split; [lia|]. split; [lia|]. split; [|lia]. rewrite wrap_small; [lia|]. split; [lia|]. rewrite He in H32. nia.
Qed.

Lemma items_kept m1 m2 j :
  (j <= length vs)%nat → items m1 j →
  (∀ i, (i < j)%nat → same_on (item_place i) (item_place i + step) m1 m2) → items m2 j.
Proof.
  intros Hj Hi Hs i v Hij Hv. rewrite <-(Hi i v Hij Hv). symmetry. apply value_kept; [|by apply Hs].
  pose proof (place_bounds i ltac:(lia)). unfold item_place in *. lia.
Qed.

Lemma count_stored s n :
  room s → fits 32 n →
  let s' := with_mem s (store (ds_mem s) cell (le_bytes 4 (u32 n))) in
  set_size (SizeAt cell) n s = (Some (), s') ∧ room s' ∧ spares f p (ds_mem s) (ds_mem s') ∧
  load_size (ds_mem s') cell = n ∧
  ∀ j, (j <= length vs)%nat → items (ds_mem s) j → items (ds_mem s') j.
Proof.
  intros Hs Hn s'. pose proof Hs as ((?&?&?) & Hl & Hlc). destruct array_extent as (He & H32 & Hc & Hstep).
  rewrite Hc in Hlc. pose proof (Hcell ltac:(lia)) as Hc0. specialize (Hlc ltac:(lia)).
  pose proof Hown as Hap. fold cell in Hc0, Hlc, Hap.
  assert (spares f p (ds_mem s) (ds_mem s')) as Hsp
    by (apply spares_store_cell; fold cell; rewrite ?lenZ_le_bytes; done || lia).
  split; [done|]. split.
  { apply (room_spares s); [done| |done]. split; [done|]. split; [apply bytes_ok_store; [done|apply le_bytes_ok]|done]. }
  split; [done|]. split; [rewrite <-(wrap_small 32 n) by done; by apply load_size_store; [lia|lia|apply wrap_fits]|].
  intros j Hj Hi. apply (items_kept (ds_mem s)); [done|done|]. intros i Hij.
  destruct (place_bounds i ltac:(lia)) as (Hlo & Hhi & _).
  apply store_same; [lia|rewrite lenZ_le_bytes; lia|lia|]. rewrite lenZ_le_bytes, apart_sym. rewrite Hc in Hap. by eapply apart_part.
Qed.

Lemma item_stored s j v rest t e :
  room s → items (ds_mem s) j → vs !! j = Some v → ds_stream s = istr (v ++ rest) t e →
  ∃ s', func (item_place j) s = (Some (), s') ∧ decoded s rest t e s' ∧
    items (ds_mem s') (S j) ∧ load_size (ds_mem s') cell = load_size (ds_mem s) cell.
Proof.
  intros Hs Hi Hv E. pose proof (lookup_lt_Some _ _ _ Hv) as Hj.
  destruct (place_bounds j Hj) as (H1 & H2 & _ & H3). destruct array_extent as (He & H32 & Hc & H0).
  destruct (item_run (a + Z.of_nat j * step) (item_place j) v rest t e s) as (s' & Hrun & Hst & Hs' & Ho & Hval & _);
    [lia|lia|fold step; lia|done|by apply Hdec|by apply Hsrc|by eapply Hshort|by rewrite Hr|done|].
  fold step in Ho. pose proof Hs as (_ & Hl & Hlc). rewrite Hc in Hlc.
  pose proof (Hcell ltac:(lia)) as Hc0. specialize (Hlc ltac:(lia)).
  pose proof Hown as Hap. fold cell in Hc0, Hlc, Hap.
  exists s'. split; [done|]. split; [|split].
  - split; [done|]. split; [done|]. apply spares_data; [lia|lia|]. destruct Ho as (Hlen & Ht & Hd).
    split; [done|]. split.
    + rewrite <-(takeZ_takeZ p (item_place j) (ds_mem s)), <-(takeZ_takeZ p (item_place j) (ds_mem s')) by lia. by rewrite Ht.
    + assert (∀ x : bytes, dropZ (p + extent f) x =
        dropZ (p + extent f - (item_place j + step)) (dropZ (item_place j + step) x)) as Hcut
        by (intros x; rewrite dropZ_dropZ by lia; f_equal; lia).
      by rewrite !Hcut, Hd.
  - intros i w Hij Hw. destruct (decide (i = j)) as [->|Hne]; [rewrite Hv in Hw; by injection Hw as <-|].
    apply (items_kept (ds_mem s) _ j); [lia|done| |lia|done]. intros k Hk.
    destruct (place_bounds k ltac:(lia)) as (H4 & _). eapply same_outside_on; [exact Ho|lia..|].
    unfold apart. apply orb_true_iff. right. apply Z.leb_le. unfold item_place. nia.
  - unfold load_size. rewrite (load_same cell 4 (ds_mem s') (ds_mem s)); [done|lia|]. apply same_on_sym.
    eapply same_outside_on; [exact Ho|lia..|]. rewrite Hc in Hap. by eapply apart_part.
Qed.

Lemma array_restored m' :
  vs ≠ [] → load_size m (a + size_offset f) = lenZ vs → holds m' (length vs) → restored m'.
Proof.
  intros Hne Hcount [Hc Hi]. fold (lenZ vs) in Hc.
  assert (0 < lenZ vs) as Hpos by (destruct vs; [done|llia]).
  unfold restored. rewrite !field_bytes_eq, !check_eq by done. rewrite Hr. fold cell. rewrite Hc, Hcount.
  cbn [Z.eqb Pos.eqb PB_HTYPE_REQUIRED PB_HTYPE_REPEATED]. split; [|done].
  assert (∀ m0 q, items_at (value m0) q (data_size f) vs (length vs) →
    array_bytes m0 (message_bytes m0 depth) f q (lenZ vs) = Some (array_wire f vs)) as Hall.
  { intros m0 q H. apply array_bytes_iff; [done|done|]. split; [done|]. by exists vs. }
  by rewrite !Hall.
Qed.

(** One item of an unpacked array. *)
Lemma unpacked_run j v wt it rest t e s :
  PB_LTYPE_LAST_PACKABLE < PB_LTYPE (type f) → pos it = f → pData it = p →
  room s → holds (ds_mem s) j → vs !! j = Some v → ds_stream s = istr (v ++ rest) t e →
  ∃ s', decode_static_field pb_realloc dec_submessage depth wt it (SizeAt cell) s = (Some (), s') ∧
    decoded s rest t e s' ∧ holds (ds_mem s') (S j).
Proof.
  intros Hl Hpos Hdata Hs [Hc Hi] Hv E. pose proof (lookup_lt_Some _ _ _ Hv) as Hj.
  destruct (static_field_inv f (pf_static f Hf)) as ((_ & _ & _ & Ha32) & _).
  unfold decode_static_field. rewrite Hpos, Hdata, Hr. fold func.
  cbn [Z.eqb Pos.eqb PB_HTYPE_REQUIRED PB_HTYPE_OPTIONAL PB_HTYPE_REPEATED].
  rewrite (proj2 (Z.leb_gt _ _) Hl), andb_false_r.
  rewrite (bind_some (get_size (SizeAt cell)) _ s (load_size (ds_mem s) cell) s) by done.
  rewrite Hc. cbv zeta. unfold lenZ in Hroom.
  destruct (count_stored s (Z.of_nat j + 1) Hs) as (Hset & Hs1 & Hsp & Hc1 & Hi1); [destruct Ha32; split; lia|].
  rewrite (bind_some _ _ _ _ _ Hset). rewrite (proj2 (Z.leb_gt (array_size f) (Z.of_nat j))) by lia.
  fold step. destruct (place_bounds j Hj) as (_ & _ & -> & _).
  destruct (item_stored _ j v rest t e Hs1 (Hi1 j ltac:(lia) Hi) Hv E) as (s' & Hrun & (Hst & Hs' & Hsp') & Hi' & Hc').
  exists s'. split; [done|]. split.
  - split; [done|]. split; [done|]. by eapply spares_trans.
  - split; [|done]. rewrite Hc', Hc1. lia.
Qed.

(** ** Packed *)

Section packed.
Context (Hpack : PB_LTYPE (type f) <= PB_LTYPE_LAST_PACKABLE).

Lemma packed_nonempty j v : vs !! j = Some v → 0 < lenZ v.
Proof.
  intros Hv. pose proof (Hsrc j v (lookup_lt_Some _ _ _ Hv) Hv) as H. unfold value in H. rewrite value_bytes_eq in H. cbv zeta in H.
  assert (∀ z, fits 64 z → 0 < lenZ (varint_of z)) as Hz.
  { intros z Hz. destruct (varint_of_spec z Hz) as (Hv' & _). pose proof (is_varint_nonempty _ Hv').
    destruct (varint_of z); [done|llia]. }
  unfold PB_LTYPE_LAST_PACKABLE in Hpack.
  repeat match type of H with context [PB_LTYPE (type f) =? ?k] =>
    destruct (Z.eqb_spec (PB_LTYPE (type f)) k) as [Hk|_]; [first [by rewrite Hk in Hpack|clear Hk]|] end; try done.
  - injection H as <-. apply Hz. by destruct (safe_read_bool _ _); decide_now.
  - destruct (load_signed _ _ _); [|done]. injection H as <-. by apply Hz, wrap_fits.
  - destruct (load_unsigned m f _) as [z|] eqn:E; [|done]. injection H as <-. apply Hz.
    by eapply load_unsigned_fits.
  - destruct (load_signed m f _) as [z|] eqn:E; [|done]. injection H as <-. apply Hz.
    eapply zigzag_fits, load_signed_range, E.
  - apply (inj Some) in H as <-. by rewrite lenZ_le_bytes.
  - apply (inj Some) in H as <-. by rewrite lenZ_le_bytes.
Qed.

Lemma packed_run fuel j s t e :
  lenZ (concat (drop j vs)) < Z.of_nat fuel → (j <= length vs)%nat →
  room s → holds (ds_mem s) j → ds_stream s = istr (concat (drop j vs)) t e →
  ∃ s', packed_loop fuel func p step (SizeAt cell) (array_size f) s = (Some true, s') ∧
    decoded s [] t e s' ∧ holds (ds_mem s') (length vs).
Proof.
  revert j s. induction fuel as [|fuel IH]; intros j s Hfuel Hj Hs [Hc Hi] E;
    [pose proof (lenZ_nonneg (concat (drop j vs))); lia|].
  cbn [packed_loop]. rewrite (bind_some _ _ s (ds_stream s) s) by (by destruct s).
  rewrite (bind_some (get_size (SizeAt cell)) _ s (load_size (ds_mem s) cell) s) by done.
  rewrite E, Hc. cbn [istr is_bytes_left].
  destruct (vs !! j) as [v|] eqn:Hv.
  - pose proof (lookup_lt_Some _ _ _ Hv) as Hlt. rewrite (drop_S _ _ _ Hv) in *. cbn [concat] in *.
    pose proof (packed_nonempty j v Hv) as Hpos. pose proof (lenZ_nonneg (concat (drop (S j) vs))) as Hrest.
    rewrite lenZ_app in *.
    rewrite (proj2 (Z.ltb_lt 0 _)), (proj2 (Z.ltb_lt (Z.of_nat j) _)) by (unfold lenZ in *; lia). cbn [andb].
    destruct (place_bounds j Hlt) as (_ & _ & -> & _).
    destruct (item_stored s j v (concat (drop (S j) vs)) t e Hs Hi Hv E)
      as (s1 & Hrun & (Hst & Hs1 & Hsp) & Hi1 & Hc1).
    assert (attempt (func (item_place j)) s = (Some true, s1)) as Hatt by (unfold attempt; by rewrite Hrun).
    rewrite (bind_some _ _ _ _ _ Hatt). cbv iota.
    rewrite (bind_some (get_size (SizeAt cell)) _ s1 (load_size (ds_mem s1) cell) s1) by done. rewrite Hc1, Hc.
    assert (room s1) as Hroom1 by by eapply room_spares.
    destruct (static_field_inv f (pf_static f Hf)) as ((_ & _ & _ & Ha32) & _).
    destruct (count_stored s1 (Z.of_nat j + 1) Hroom1) as (Hset & Hs2 & Hsp2 & Hc2 & Hi2);
      [unfold lenZ in *; destruct Ha32; split; lia|].
    rewrite (bind_some _ _ _ _ _ Hset).
    destruct (IH (S j) _ ltac:(lia) ltac:(lia) Hs2) as (s' & Hloop & (Hst' & Hs' & Hsp') & Hh);
      [split; [rewrite Hc2; lia|by apply Hi2]|done|].
    exists s'. split; [done|]. split; [|done]. split; [done|]. split; [done|].
    eapply spares_trans; [exact Hsp|]. by eapply spares_trans.
  - apply lookup_ge_None_1 in Hv. rewrite drop_ge in * by lia. cbn [concat] in *.
    change (0 <? lenZ []) with false. cbn [andb].
    exists s. split; [done|]. split; [split; [done|]; split; [apply Hs|apply spares_refl]|].
    replace (length vs) with j by lia. by split.
Qed.

Lemma packed_field_run it rest t e s :
  pos it = f → pData it = p → vs ≠ [] → lenZ (string_bytes (concat vs)) < 2 ^ 32 →
  load_size m (a + size_offset f) = lenZ vs →
  room s → fresh_field (fresh depth (ds_mem s)) (ds_mem s) f p →
  ds_stream s = istr (string_bytes (concat vs) ++ rest) t e →
  ∃ s', decode_static_field pb_realloc dec_submessage depth PB_WT_STRING it (SizeAt cell) s = (Some (), s') ∧
    decoded s rest t e s' ∧ restored (ds_mem s').
Proof.
  intros Hpos Hdata Hne Hlen Hcount Hs (_ & _ & F3 & _) E. set (b := concat vs) in *.
  assert (fits 32 (lenZ b)) as Hb.
  { unfold string_bytes in Hlen. rewrite lenZ_app in Hlen. pose proof (lenZ_nonneg b).
    pose proof (lenZ_nonneg (varint_of (lenZ b))). split; lia. }
  assert (bytes_ok b ∧ bytes_ok (rest ++ t)) as Hok.
  { destruct Hs as ((Hst & _) & _). rewrite E in Hst. unfold string_bytes in Hst. apply istr_ok in Hst.
    rewrite !bytes_ok_app in *. tauto. }
  unfold decode_static_field. rewrite Hpos, Hdata, Hr. fold func.
  cbn [Z.eqb Pos.eqb PB_HTYPE_REQUIRED PB_HTYPE_OPTIONAL PB_HTYPE_REPEATED PB_WT_STRING].
  rewrite (proj2 (Z.leb_le _ _) Hpack). cbn [andb].
  rewrite (bind_some _ _ _ _ _ (make_run b rest t e s Hb E)).
  destruct (packed_run (S (Z.to_nat (is_bytes_left (istr b (rest ++ t) e)))) 0
    (set_stream s (istr b (rest ++ t) e)) (rest ++ t) e) as (s' & Hrun & (Hst & Hs' & Hsp) & Hh).
  - rewrite drop_0. unfold b. cbn [istr is_bytes_left]. pose proof (lenZ_nonneg (concat vs)). lia.
  - lia.
  - apply room_stream; [done|]. by apply istr_ok.
  - split; [by apply F3|]. intros i v Hi. lia.
  - by rewrite drop_0.
  - rewrite (bind_some _ _ _ _ _ (with_stream_run _ (istr b (rest ++ t) e)
      (set_stream s (parent b rest t e)) _ s' Hrun)).
    rewrite Hst. cbn [istr is_bytes_left]. change (negb (lenZ [] =? 0)) with false. cbv iota.
    rewrite (bind_some _ _ _ () _ (close_run b rest t e
      {| ds_stream := parent b rest t e; ds_mem := ds_mem s'; ds_count := ds_count s' |} eq_refl)).
    eexists. split; [done|]. cbn [set_stream ds_stream ds_mem]. split.
    + split; [done|]. split; [|done]. destruct Hs' as (_ & Hm' & Hc'). split; [|done].
      rewrite bytes_ok_app in Hok. apply istr_ok. tauto.
    + by apply array_restored.
Qed.
End packed.
End array.
End field.
