(* ===== verification/PbRoundTrip.v ===== *)
(** Messages through the encoder and back: decoding the encoding of a plain message yields a
    message with the same encoding. *)
From stdpp Require Import strings.
From S2P Require Import Prelude PbWire PbRead PbWrite PbField PbEncode PbEncodeSpec PbDecode PbLayout PbSafety PbTotal PbMemory PbPlain PbFresh PbValues PbTurns PbFields.

Open Scope Z_scope.

(** Every string that the encoding contains ends in its buffer. *)
Fixpoint decodable {D : Descriptors} (m : bytes) (depth : nat) (fields : list pb_field) (p : Z) : bool :=
  match depth with
  | O => true
  | S depth =>
      forallb (λ i, field_decodable m (decodable m depth) depth (field_at fields i) (p + data_at fields i))
        (seq 0 (length fields))
  end.

Lemma lenZ_concat_lookup (xs : list bytes) j x : xs !! j = Some x → lenZ x <= lenZ (concat xs).
Proof.
  intros Hx. rewrite <-(take_drop_middle xs j x Hx), concat_app. cbn [concat]. rewrite !lenZ_app.
  pose proof (lenZ_nonneg (concat (take j xs))). pose proof (lenZ_nonneg (concat (drop (S j) xs))). lia.
Qed.

(** An item is no longer than its array. *)
Lemma array_wire_short f vs j v : vs !! j = Some v → lenZ v <= lenZ (array_wire f vs).
Proof.
  intros Hv. unfold array_wire, tagged_items. destruct (_ <=? _).
  - pose proof (lenZ_concat_lookup vs j v Hv). unfold string_bytes. rewrite !lenZ_app.
    pose proof (lenZ_nonneg (tag_bytes PB_WT_STRING (tag f))). pose proof (lenZ_nonneg (varint_of (lenZ (concat vs)))). lia.
  - pose proof (lenZ_concat_lookup (map (λ v, tag_bytes PB_WT_STRING (tag f) ++ v) vs) j
      (tag_bytes PB_WT_STRING (tag f) ++ v)) as H. rewrite lenZ_app in H.
    pose proof (lenZ_nonneg (tag_bytes PB_WT_STRING (tag f))). apply Z.le_trans with (2 := H
      ltac:(rewrite list_lookup_fmap, Hv; done)). lia.
Qed.

Section round_trip.
Context {D : Descriptors} (pb_realloc : bytes → Z → Z → Z * bytes) (pb_free : bytes → Z → bytes).
Context (callback_decode : Z → pb_field → Z → Dec ()) (type_decoder : Z → Z → Z → Z → Dec ()).
Context (calls : nat) (m : bytes) (Hm : bytes_ok m).

Let noinit := pb_decode_noinit pb_realloc pb_free callback_decode type_decoder calls.

(** What is to be shown of each depth. *)
Definition noinit_restores (depth : nat) : Prop :=
  ∀ wfd pd fields n src dest s bs t e,
  wf_message wfd fields n = true → plain_message pd fields = true → (wfd <= depth)%nat →
  0 < src → 0 < dest → dstate_ok s → dest + n <= lenZ (ds_mem s) →
  decodable m depth fields src = true → message_bytes m depth fields src = Some bs → lenZ bs < 2 ^ 32 →
  ds_stream s = istr bs t e → fresh depth (ds_mem s) fields dest →
  ∃ s', noinit depth fields dest s = (Some (), s') ∧ ds_stream s' = istr [] t e ∧
    message_bytes (ds_mem s') depth fields dest = Some bs ∧
    message_default (ds_mem s') depth fields dest = message_default m depth fields src.

(** * Submessages *)

Section submessage.
Context (depth : nat) (IH : noinit_restores depth).
Let dec_submessage := pb_dec_submessage pb_free (noinit depth) depth.

Lemma submessage_confined lo hi f p :
  0 < lo → PB_LTYPE (type f) = PB_LTYPE_SUBMESSAGE → sub_ok f → lo <= p → p + data_size f <= hi →
  Confined lo hi (dec_submessage f p).
Proof.
  intros Hlo Hl Hs Hp Hh.
  apply (dec_submessage_confined pb_realloc pb_free callback_decode type_decoder lo hi Hlo); try done.
  intros. by eapply noinit_confined.
Qed.

(** With defaults set first. *)
Lemma or_release_restores wfd pd fields n src dest s bs t e :
  wf_message wfd fields n = true → plain_message pd fields = true → (wfd <= depth)%nat →
  0 < src → 0 < dest → dstate_ok s → dest + n <= lenZ (ds_mem s) →
  decodable m depth fields src = true → message_bytes m depth fields src = Some bs → lenZ bs < 2 ^ 32 →
  ds_stream s = istr bs t e →
  ∃ s', decode_or_release pb_free (noinit depth) depth fields dest s = (Some (), s') ∧ ds_stream s' = istr [] t e ∧
    message_bytes (ds_mem s') depth fields dest = Some bs ∧
    message_default (ds_mem s') depth fields dest = message_default m depth fields src.
Proof.
  intros Hwf Hpl Hle Hsrc Hdest Hs Hl Hdec Hb Hlen E.
  destruct (defaults_run depth wfd pd fields n dest s) as (s1 & Hdef & [Hst _] & Hfresh); try done.
  pose proof (defaults_confined pb_realloc pb_free callback_decode type_decoder
    dest (dest + n) Hdest depth wfd fields n dest Hwf ltac:(lia) ltac:(lia) s Hs ltac:(lia) Hl) as Hc.
  unfold pb_message_set_to_defaults in Hc. rewrite Hdef in Hc. destruct Hc as (_ & [Hlen1 _] & Hs1).
  cbn [snd] in *.
  destruct (IH wfd pd fields n src dest s1 bs t e) as (s' & Hrun & H); try done; [lia|by rewrite Hst|].
  exists s'. split; [|done]. unfold decode_or_release, pb_message_set_to_defaults. rewrite (bind_some _ _ _ _ _ Hdef).
  assert (attempt (noinit depth fields dest) s1 = (Some true, s')) as Hatt by (unfold attempt; by rewrite Hrun).
  by rewrite (bind_some _ _ _ _ _ Hatt).
Qed.

Lemma submessage_restores f b q v s :
  plain_facts f → is_sub f = true →
  (∃ d d', (d <= depth)%nat ∧ wf_message d (fields_at (ptr f)) (data_size f) = true ∧
    plain_message d' (fields_at (ptr f)) = true) →
  decodable m depth (fields_at (ptr f)) b = true → 0 < b → 0 < q →
  value_bytes m (message_bytes m depth) f b = Some v → lenZ v < 2 ^ 32 →
  dstate_ok s → q + data_size f <= lenZ (ds_mem s) →
  (PB_HTYPE (type f) ≠ PB_HTYPE_REPEATED → fresh depth (ds_mem s) (fields_at (ptr f)) q) →
  restores m depth dec_submessage f b q v s.
Proof.
  intros Hf Hm' (d & d' & Hd & Hwf & Hpl) Hdec Hb Hq Hv Hlen Hs Hl Hfresh rest t e E.
  unfold is_sub in Hm'. apply Z.eqb_eq in Hm'. pose proof (pf_sub f Hf Hm') as Hptr.
  assert (∀ m', value_bytes m' (message_bytes m' depth) f = λ x,
    b ← message_bytes m' depth (fields_at (ptr f)) x; Some (string_bytes b)) as Hval.
  { intros m'. unfold value_bytes. rewrite Hm', (proj2 (Z.eqb_neq _ _) Hptr). done. }
  assert (∀ m' x, value_default m' depth f x = message_default m' depth (fields_at (ptr f)) x) as Hdefault.
  { intros m' x. unfold value_default. by rewrite Hm'. }
  rewrite Hval in Hv. destruct (message_bytes m depth (fields_at (ptr f)) b) as [bs|] eqn:Hbs; [|done].
  apply (inj Some) in Hv as <-.
  assert (fits 32 (lenZ bs)) as Hlb.
  { unfold string_bytes in Hlen. rewrite lenZ_app in Hlen. pose proof (lenZ_nonneg bs).
    pose proof (lenZ_nonneg (varint_of (lenZ bs))). split; lia. }
  assert (dstate_ok (set_stream s (istr bs (rest ++ t) e))) as Hsub.
  { destruct Hs as [Hst Hs]. split; [|done]. rewrite E in Hst. apply istr_ok in Hst. apply istr_ok.
    unfold string_bytes in Hst. rewrite !bytes_ok_app in *. tauto. }
  assert (∃ s', (if PB_HTYPE (type f) =? PB_HTYPE_REPEATED
     then decode_or_release pb_free (noinit depth) depth (fields_at (ptr f)) q
     else noinit depth (fields_at (ptr f)) q) (set_stream s (istr bs (rest ++ t) e)) = (Some (), s') ∧
    ds_stream s' = istr [] (rest ++ t) e ∧ message_bytes (ds_mem s') depth (fields_at (ptr f)) q = Some bs ∧
    message_default (ds_mem s') depth (fields_at (ptr f)) q = message_default m depth (fields_at (ptr f)) b)
    as (s' & Hrun & Hst & Hbs' & Hdef').
  { destruct (Z.eqb_spec (PB_HTYPE (type f)) PB_HTYPE_REPEATED) as [|Hr].
    - eapply or_release_restores; try done. apply Hlb.
    - eapply IH; try done; [apply Hlb|]. by apply Hfresh. }
  unfold dec_submessage, pb_dec_submessage. rewrite (bind_some _ _ _ _ _ (make_run bs rest t e s Hlb E)).
  rewrite (proj2 (Z.eqb_neq _ _) Hptr).
  rewrite (bind_some _ _ _ _ _ (with_stream_run _ (istr bs (rest ++ t) e)
    (set_stream s (parent bs rest t e)) _ s' Hrun)).
  rewrite Hst. rewrite (bind_some _ _ _ () _ (close_run bs rest t e
    {| ds_stream := parent bs rest t e; ds_mem := ds_mem s'; ds_count := ds_count s' |} eq_refl)).
  eexists. split; [done|]. split; [done|]. cbn [set_stream ds_mem]. rewrite Hval, !Hdefault, Hbs'. done.
Qed.

(** * The fields of one message *)

Section message.
Context (wfd pd : nat) (fields : list pb_field) (n src dest : Z).
Context (Hwf : wf_message wfd fields n = true) (Hpl : plain_message pd fields = true) (Hdepth : (wfd <= S depth)%nat).
Context (Hsrc : 0 < src) (Hdest : 0 < dest).
Context (Hdec : decodable m (S depth) fields src = true).

Let steps := loops pb_realloc pb_free callback_decode type_decoder dec_submessage depth calls.
Let static := decode_static_field pb_realloc dec_submessage depth.
Let seen := locals_seen fields dest.

Section field.
Context (k : nat) (Hk : (k < length fields)%nat).
Let f := field_at fields k.
Let a := src + data_at fields k.
Let p := dest + data_at fields k.

Lemma field_facts :
  plain_facts f ∧ 0 < a ∧ 0 < p ∧ (0 < cell_len f → 0 <= p + size_offset f) ∧
  apart p (extent f) (p + size_offset f) (cell_len f) = true ∧
  dest + size_at fields k = p + size_offset f ∧ field_decodable m (decodable m depth) depth f a = true.
Proof.
  destruct (plain_places _ _ _ _ dest k Hwf Hpl Hk) as [Hf Hz Hd Hc].
  destruct (plain_inv _ _ Hpl) as (_ & _ & _ & Hap & _).
  destruct (places_apart_inv fields k k Hap Hk Hk) as [Hown _].
  assert (dest + size_at fields k = p + size_offset f) as Hsize by (unfold p, f; lia).
  unfold f, a, p in *. split; [done|]. split; [lia|]. split; [lia|]. split.
  { intros H0. specialize (Hc H0). lia. }
  split; [by rewrite <-Hsize, apart_shift|]. split; [done|].
  cbn [decodable] in Hdec. rewrite forallb_forall in Hdec. by apply Hdec, seq_In.
Qed.

Lemma field_submessage :
  is_sub f = true → ∃ d d', (d <= depth)%nat ∧ wf_message d (fields_at (ptr f)) (data_size f) = true ∧
    plain_message d' (fields_at (ptr f)) = true.
Proof.
  intros Hm'. apply Z.eqb_eq in Hm'. destruct (wf_submessage wfd depth fields n k Hwf Hdepth Hk Hm') as (d & Hd & Hwd).
  destruct (plain_inv _ _ Hpl) as (_ & Hps & _). destruct (Hps k Hk Hm') as (d' & _ & Hpd).
  by exists d, d'.
Qed.

Lemma field_wf :
  is_sub f = true → ∃ d d', wf_message d (fields_at (ptr f)) (data_size f) = true ∧
    plain_message d' (fields_at (ptr f)) = true.
Proof. intros Hm'. destruct (field_submessage Hm') as (d & d' & _ & H). by exists d, d'. Qed.

Lemma field_restores :
  is_sub f = true → ∀ b q v s,
  decodable m depth (fields_at (ptr f)) b = true → 0 < b → 0 < q →
  value_bytes m (message_bytes m depth) f b = Some v → lenZ v < 2 ^ 32 →
  dstate_ok s → q + data_size f <= lenZ (ds_mem s) →
  (PB_HTYPE (type f) ≠ PB_HTYPE_REPEATED → fresh depth (ds_mem s) (fields_at (ptr f)) q) →
  restores m depth dec_submessage f b q v s.
Proof. intros Hm' b q v s. intros. apply submessage_restores; try done; [apply field_facts|by apply field_submessage]. Qed.

(** The iterator at the field. *)
Let it := iter_at fields dest k.
Lemma iter_field : pos it = f ∧ pData it = p ∧ dest + size_at fields k = p + size_offset f.
Proof. split; [apply pos_iter_at|]. split; [apply pData_iter_at|]. apply field_facts. Qed.

(** A field that was not an array. *)
Lemma singular_turn i b rest t e s :
  PB_HTYPE (type f) ≠ PB_HTYPE_REPEATED → valid_place fields i →
  field_bytes m (message_bytes m depth) depth f a = Some b → b ≠ [] → lenZ b < 2 ^ 32 →
  room f p s → fresh_field (fresh depth (ds_mem s)) (ds_mem s) f p → ds_stream s = istr (b ++ rest) t e →
  ∃ s', steps (seen k i) s (seen (S k) k) s' ∧ decoded f p s rest t e s' ∧ restored m depth f a p (ds_mem s').
Proof.
  intros Hr Hi Hb Hne Hlen Hroom Hfresh E. destruct field_facts as (Hf & Ha & Hp & Hcell & Hown & Hsize & Hd).
  destruct iter_field as (Hpos & Hdata & _).
  destruct (singular_run pb_realloc m Hm dec_submessage depth (decodable m depth) submessage_confined f a p Hf Ha Hp
    field_wf field_restores Hcell Hown b Hr Hb Hne Hlen Hd) as (w & v & Hw & -> & Hrun).
  rewrite <-app_assoc in E.
  assert (istream_ok (istr (v ++ rest) t e)) as Hok.
  { destruct Hroom as ((Hst & _) & _). rewrite E in Hst. apply istr_ok in Hst. apply istr_ok.
    rewrite !bytes_ok_app in *. tauto. }
  destruct (Hrun w it rest t e (set_stream s (istr (v ++ rest) t e)) Hpos Hdata (room_stream _ _ _ _ Hroom Hok)
    Hfresh eq_refl) as (s' & Hs' & Hd' & Hres).
  exists s'. split; [|done]. rewrite <-Hsize in Hs'.
  apply (turn_first _ _ _ _ _ _ _ wfd pd fields n dest Hwf Hpl Hdest w i k (v ++ rest) t e s s'); try done.
  destruct Hd' as (-> & _). cbn [istr is_bytes_left]. rewrite lenZ_app. pose proof (lenZ_nonneg v). lia.
Qed.

(** ** Arrays *)

Section array.
Context (Hr : PB_HTYPE (type f) = PB_HTYPE_REPEATED).

(** An array that is not empty. *)
Definition array_source (vs : list bytes) : Prop :=
  vs ≠ [] ∧ load_size m (a + size_offset f) = lenZ vs ∧ lenZ vs <= array_size f ∧
  items_at (value_bytes m (message_bytes m depth) f) a (data_size f) vs (length vs) ∧
  (∀ j v, vs !! j = Some v → lenZ v < 2 ^ 32) ∧
  (∀ j, (j < length vs)%nat → item_decodable m (decodable m depth) f (a + Z.of_nat j * data_size f) = true).

Lemma array_source_of b :
  field_bytes m (message_bytes m depth) depth f a = Some b → b ≠ [] → lenZ b < 2 ^ 32 →
  ∃ vs, array_source vs ∧ b = array_wire f vs.
Proof.
  intros Hb Hne Hlen. destruct field_facts as (Hf & Ha & _ & _ & _ & _ & Hd).
  rewrite field_bytes_eq, Hr in Hb by done. cbn [Z.eqb Pos.eqb PB_HTYPE_REQUIRED PB_HTYPE_REPEATED] in Hb.
  assert (0 <= load_size m (a + size_offset f)) as H0 by by apply (load_le m Hm _ 4 32).
  destruct (Z.eq_dec (load_size m (a + size_offset f)) 0) as [Hz|Hz].
  { rewrite Hz in Hb. destruct Hne. by injection Hb. }
  apply array_bytes_iff in Hb as (Hle & vs & Hn & Hat & ->); [|done|lia]. exists vs. split; [|done].
  split; [by intros ->|]. split; [done|]. split; [lia|]. split; [done|]. split.
  - intros j v Hv. pose proof (array_wire_short f vs j v Hv). lia.
  - intros j Hj. unfold field_decodable in Hd. rewrite check_eq, Hr, (proj2 (Z.eqb_neq _ _) Hz) in Hd by done.
    cbn [Z.eqb Pos.eqb PB_HTYPE_REQUIRED PB_HTYPE_REPEATED orb] in Hd. rewrite forallb_forall in Hd.
    apply Hd, seq_In. unfold lenZ in Hn. lia.
Qed.

Lemma packed_turn vs i rest t e s :
  array_source vs → PB_LTYPE (type f) <= PB_LTYPE_LAST_PACKABLE → valid_place fields i →
  lenZ (array_wire f vs) < 2 ^ 32 →
  room f p s → fresh_field (fresh depth (ds_mem s)) (ds_mem s) f p →
  ds_stream s = istr (array_wire f vs ++ rest) t e →
  ∃ s', steps (seen k i) s (seen (S k) k) s' ∧ decoded f p s rest t e s' ∧ restored m depth f a p (ds_mem s').
Proof.
  intros (Hne & Hcount & Hle & Hat & Hshort & Hd) Hpack Hi Hlen Hroom Hfresh E.
  destruct field_facts as (Hf & Ha & Hp & Hcell & Hown & Hsize & _). destruct iter_field as (Hpos & Hdata & _).
  unfold array_wire in *. rewrite (proj2 (Z.leb_le _ _) Hpack) in *. rewrite <-app_assoc in E.
  assert (istream_ok (istr (string_bytes (concat vs) ++ rest) t e)) as Hok.
  { destruct Hroom as ((Hst & _) & _). rewrite E in Hst. apply istr_ok in Hst. apply istr_ok.
    rewrite !bytes_ok_app in *. tauto. }
  rewrite lenZ_app in Hlen. pose proof (lenZ_nonneg (tag_bytes PB_WT_STRING (tag f))) as H0.
  destruct (packed_field_run pb_realloc m Hm dec_submessage depth (decodable m depth) submessage_confined f a p Hf Ha Hp
    field_wf field_restores Hcell Hown Hr vs Hle Hat Hshort Hd Hpack it rest t e
    (set_stream s (istr (string_bytes (concat vs) ++ rest) t e)))
    as (s' & Hs' & Hd' & Hres); try done; [lia|by apply room_stream|].
  exists s'. split; [|done]. rewrite <-Hsize in Hs'.
  apply (turn_first _ _ _ _ _ _ _ wfd pd fields n dest Hwf Hpl Hdest PB_WT_STRING i k
    (string_bytes (concat vs) ++ rest) t e s s'); try done.
  destruct Hd' as (-> & _). cbn [istr is_bytes_left]. rewrite lenZ_app.
  pose proof (lenZ_nonneg (string_bytes (concat vs))). lia.
Qed.

(** One item: the first turn of an array or a further one. *)
Lemma unpacked_turn vs j v c i rest t e s :
  array_source vs → PB_LTYPE_LAST_PACKABLE < PB_LTYPE (type f) →
  (c = k ∧ valid_place fields i ∨ c = S k ∧ i = k) →
  vs !! j = Some v → room f p s → holds depth f p vs (ds_mem s) j →
  ds_stream s = istr ((tag_bytes PB_WT_STRING (tag f) ++ v) ++ rest) t e →
  ∃ s', steps (seen c i) s (seen (S k) k) s' ∧ decoded f p s rest t e s' ∧ holds depth f p vs (ds_mem s') (S j).
Proof.
  intros (Hne & Hcount & Hle & Hat & Hshort & Hd) Hl Hturn Hv Hroom Hh E.
  destruct field_facts as (Hf & Ha & Hp & Hcell & Hown & Hsize & _). destruct iter_field as (Hpos & Hdata & _).
  rewrite <-app_assoc in E.
  assert (istream_ok (istr (v ++ rest) t e)) as Hok.
  { destruct Hroom as ((Hst & _) & _). rewrite E in Hst. apply istr_ok in Hst. apply istr_ok.
    rewrite !bytes_ok_app in *. tauto. }
  destruct (unpacked_run pb_realloc m Hm dec_submessage depth (decodable m depth) submessage_confined f a p Hf Ha Hp
    field_wf field_restores Hcell Hown Hr vs Hle Hat Hshort Hd j v PB_WT_STRING it rest t e
    (set_stream s (istr (v ++ rest) t e)))
    as (s' & Hs' & Hd' & Hres); try done; [by apply room_stream|].
  exists s'. split; [|done]. rewrite <-Hsize in Hs'.
  assert (is_bytes_left (ds_stream s') <= lenZ (v ++ rest)) as Hleft.
  { destruct Hd' as (-> & _). cbn [istr is_bytes_left]. rewrite lenZ_app. pose proof (lenZ_nonneg v). lia. }
  destruct Hturn as [[-> Hi]|[-> ->]].
  - by apply (turn_first _ _ _ _ _ _ _ wfd pd fields n dest Hwf Hpl Hdest PB_WT_STRING i k (v ++ rest) t e s s').
  - by apply (turn_again _ _ _ _ _ _ _ wfd pd fields n dest Hwf Hpl Hdest PB_WT_STRING k (v ++ rest) t e s s').
Qed.

Lemma unpacked_turns vs j c i rest t e s :
  array_source vs → PB_LTYPE_LAST_PACKABLE < PB_LTYPE (type f) →
  (c = k ∧ valid_place fields i ∨ c = S k ∧ i = k) → (j < length vs)%nat →
  room f p s → holds depth f p vs (ds_mem s) j →
  ds_stream s = istr (tagged_items f (drop j vs) ++ rest) t e →
  ∃ s', steps (seen c i) s (seen (S k) k) s' ∧ decoded f p s rest t e s' ∧
    holds depth f p vs (ds_mem s') (length vs).
Proof.
  intros Hvs Hl. remember (length vs - S j)%nat as d eqn:Hd. revert j c i s Hd.
  induction d as [|d IHd]; intros j c i s Hd Hturn Hj Hroom Hh E;
    destruct (lookup_lt_is_Some_2 vs j Hj) as [v Hv]; rewrite (drop_S _ _ _ Hv) in E;
    unfold tagged_items in E; cbn [map concat] in E; rewrite <-(app_assoc _ _ rest) in E;
    destruct (unpacked_turn vs j v c i _ t e s Hvs Hl Hturn Hv Hroom Hh E) as (s1 & Hst & Hd1 & Hh1).
  - rewrite drop_ge in Hd1 by lia. exists s1. split; [done|]. split; [done|]. by replace (length vs) with (S j) by lia.
  - pose proof Hd1 as (Hs1 & Hok1 & Hsp1).
    destruct (IHd (S j) (S k) k s1 ltac:(lia) ltac:(by right) ltac:(lia)) as (s' & Hst' & (Hs' & Hok' & Hsp') & Hh');
      [by eapply room_spares|done|done|].
    exists s'. split; [by eapply loops_trans|]. split; [|done]. split; [done|]. split; [done|]. by eapply spares_trans.
Qed.
End array.

(** A field that is there. *)
Lemma field_turn i b rest t e s :
  valid_place fields i → field_bytes m (message_bytes m depth) depth f a = Some b → b ≠ [] → lenZ b < 2 ^ 32 →
  room f p s → fresh_field (fresh depth (ds_mem s)) (ds_mem s) f p → ds_stream s = istr (b ++ rest) t e →
  ∃ s', steps (seen k i) s (seen (S k) k) s' ∧ decoded f p s rest t e s' ∧ restored m depth f a p (ds_mem s').
Proof.
  intros Hi Hb Hne Hlen Hroom Hfresh E.
  destruct (Z.eq_dec (PB_HTYPE (type f)) PB_HTYPE_REPEATED) as [Hr|Hr]; [|by eapply singular_turn].
  destruct (array_source_of Hr b Hb Hne Hlen) as (vs & Hvs & ->).
  destruct (Z.le_gt_cases (PB_LTYPE (type f)) PB_LTYPE_LAST_PACKABLE) as [Hl|Hl]; [by apply (packed_turn Hr vs)|].
  pose proof Hvs as (Hvne & Hcount & Hle & Hat & Hshort & Hd). destruct Hfresh as (_ & _ & F3 & _).
  destruct (unpacked_turns Hr vs 0 k i rest t e s) as (s' & Hst & Hd' & Hh); try done; [by left|by destruct vs; [|cbn; lia]| | |].
  - split; [by apply F3|]. intros j v Hj. lia.
  - unfold array_wire in E. by rewrite (proj2 (Z.leb_gt _ _) Hl) in E.
  - exists s'. split; [done|]. split; [done|]. destruct field_facts as (Hf & _).
    by apply (array_restored pb_realloc m dec_submessage depth (decodable m depth) f a p Hf field_restores Hr vs).
Qed.
End field.

(** ** All fields *)

Context (bss : list bytes).
Context (Hbss : mapM (λ i, field_bytes m (message_bytes m depth) depth (field_at fields i) (src + data_at fields i))
  (seq 0 (length fields)) = Some bss) (Hlen : lenZ (concat bss) < 2 ^ 32).

(** The fields before [k] have been decoded, the others are as the defaults left them. *)
Definition reached (t : bytes) (e : option string) (k : nat) (s : dstate) : Prop :=
  ds_stream s = istr (concat (drop k bss)) t e ∧ dstate_ok s ∧ dest + n <= lenZ (ds_mem s) ∧
  (∀ j, (j < k)%nat → (j < length fields)%nat →
    restored m depth (field_at fields j) (src + data_at fields j) (dest + data_at fields j) (ds_mem s)) ∧
  (∀ j, (k <= j < length fields)%nat →
    fresh_field (fresh depth (ds_mem s)) (ds_mem s) (field_at fields j) (dest + data_at fields j)).

Lemma bss_lookup k :
  (k < length fields)%nat →
  ∃ b, bss !! k = Some b ∧
    field_bytes m (message_bytes m depth) depth (field_at fields k) (src + data_at fields k) = Some b.
Proof.
  intros Hk. apply mapM_Some_1 in Hbss. destruct (Forall2_lookup_l _ _ _ k k Hbss) as (b & Hb & E); [|by exists b].
  by apply lookup_seq_lt.
Qed.

Lemma room_at k s :
  (k < length fields)%nat → dstate_ok s → dest + n <= lenZ (ds_mem s) →
  room (field_at fields k) (dest + data_at fields k) s.
Proof.
  intros Hk Hs Hl. destruct (plain_places _ _ _ _ dest k Hwf Hpl Hk) as [_ Hz Hd Hc].
  split; [done|]. split; [lia|]. intros H0. specialize (Hc H0). lia.
Qed.

(** A field that is absent stays so. *)
Lemma field_absent k s :
  (k < length fields)%nat →
  field_bytes m (message_bytes m depth) depth (field_at fields k) (src + data_at fields k) = Some [] →
  fresh_field (fresh depth (ds_mem s)) (ds_mem s) (field_at fields k) (dest + data_at fields k) →
  restored m depth (field_at fields k) (src + data_at fields k) (dest + data_at fields k) (ds_mem s) ∧
  seen_before fields (S k) = seen_before fields k.
Proof.
  intros Hk Hb Hfresh. destruct (field_facts k Hk) as (Hf & Ha & Hp & _). split.
  - unfold restored. rewrite Hb.
    apply (absent_field m (ds_mem s) (message_bytes m depth) (message_bytes (ds_mem s) depth) (fresh depth (ds_mem s))
      depth _ (src + data_at fields k)); try done.
    intros Hm'. destruct (field_wf k Hk Hm') as (d & d' & Hwd & Hpd). by apply (fresh_default depth d d' _ _ _ _ _ _ Hwd Hpd).
  - destruct (plain_inv _ _ Hpl) as (Hfs & _ & _ & _ & H32).
    rewrite <-(seen_before_S fields Hfs H32 k Hk).
    destruct (Z.eqb_spec (PB_HTYPE (type (field_at fields k))) PB_HTYPE_REQUIRED) as [Hq|]; [|done].
    rewrite field_bytes_eq, Hq in Hb by done. cbn [Z.eqb PB_HTYPE_REQUIRED] in Hb.
    destruct (src + data_at fields k =? NULL); [done|].
    destruct (static_field_inv _ (pf_static _ Hf)) as (Hok & _). by apply tagged_nonempty in Hb.
Qed.

Lemma reached_S i k t e s :
  valid_place fields i → (k < length fields)%nat → reached t e k s →
  ∃ i' s', valid_place fields i' ∧ steps (seen k i) s (seen (S k) i') s' ∧ reached t e (S k) s'.
Proof.
  intros Hi Hk (E & Hs & Hl & Hdone & Hfresh). destruct (bss_lookup k Hk) as (b & Hb & Hfb).
  rewrite (drop_S _ _ _ Hb) in E. cbn [concat] in E. pose proof (Hfresh k ltac:(lia)) as Hfk.
  destruct (decide (b = [])) as [->|Hne].
  - destruct (field_absent k s Hk Hfb Hfk) as [Hres Hseen]. exists i, s. split; [done|]. split.
    + unfold seen, locals_seen. rewrite Hseen. apply loops_refl.
    + split; [done|]. split; [done|]. split; [done|]. split; [|intros j Hj; apply Hfresh; lia].
      intros j Hj Hjl. destruct (decide (j = k)) as [->|]; [done|apply Hdone; [lia|done]].
  - pose proof (lenZ_concat_lookup bss k b Hb) as Hlb.
    destruct (field_turn k Hk i b (concat (drop (S k) bss)) t e s Hi Hfb Hne ltac:(lia) (room_at k s Hk Hs Hl) Hfk E)
      as (s' & Hst & (Hs' & Hok' & Hsp) & Hres).
    exists k, s'. split; [by left|]. split; [done|]. split; [done|]. split; [done|].
    split; [rewrite (proj1 Hsp); done|]. split.
    + intros j Hj Hjl. destruct (decide (j = k)) as [->|Hne']; [done|].
      destruct (bytes_other wfd pd fields n dest Hwf Hpl Hdest depth k j (ds_mem s) (ds_mem s') Hk Hjl
        (not_eq_sym Hne') Hsp) as [H1 H2].
      destruct (Hdone j ltac:(lia) Hjl) as [H3 H4]. split; [exact (eq_trans (eq_sym H1) H3)|exact (eq_trans (eq_sym H2) H4)].
    + intros j Hj. apply (fresh_other wfd pd fields n dest Hwf Hpl Hdest depth k j (ds_mem s)); [done|lia|lia|done|].
      apply Hfresh. lia.
Qed.

Lemma reached_all t e s :
  reached t e 0 s →
  ∃ i s', valid_place fields i ∧ steps (seen 0 0) s (seen (length fields) i) s' ∧ reached t e (length fields) s'.
Proof.
  intros Hs. assert (∀ k, (k <= length fields)%nat →
    ∃ i s', valid_place fields i ∧ steps (seen 0 0) s (seen k i) s' ∧ reached t e k s') as H; [|by apply H].
  induction k as [|k IHk]; intros Hk.
  - exists 0%nat, s. split; [unfold valid_place; destruct fields; [by right|left; cbn; lia]|].
    split; [apply loops_refl|done].
  - destruct (IHk ltac:(lia)) as (i & s1 & Hi & Hst & Hr).
    destruct (reached_S i k t e s1 Hi ltac:(lia) Hr) as (i' & s' & Hi' & Hst' & Hr').
    exists i', s'. split; [done|]. split; [by eapply loops_trans|done].
Qed.
End message.

(** ** One level deeper *)

Lemma noinit_restores_S : noinit_restores (S depth).
Proof.
  intros wfd pd fields n src dest s bs t e Hwf Hpl Hle Hsrc Hdest Hs Hl Hdec Hb Hlen E Hfresh.
  assert (src ≠ NULL ∧ dest ≠ NULL) as [Hs0 Hd0] by (unfold NULL; lia).
  pose proof Hb as Hbss. rewrite (message_bytes_eq wfd fields n m depth src Hwf Hs0) in Hbss.
  destruct (mapM _ _) as [bss|] eqn:HM; [|done]. cbn [mbind option_bind] in Hbss. apply (inj Some) in Hbss as <-.
  set (s0 := {| ds_stream := ds_stream s; ds_mem := ds_mem s; ds_count := 0 |}).
  assert (reached fields n src dest bss t e 0 s0) as Hstart.
  { destruct Hs as (Hst & Hmem & _). split; [done|]. split; [done|]. split; [done|].
    split; [lia|]. intros j Hj. apply Hfresh. lia. }
  destruct (reached_all wfd pd fields n src dest Hwf Hpl Hle Hsrc Hdest Hdec bss HM Hlen t e s0 Hstart)
    as (i & s1 & Hi & Hsteps & (E1 & Hs1 & Hl1 & Hres & _)).
  destruct (wf_message_inv _ _ _ Hwf) as (_ & Ht & _).
  destruct (plain_inv _ _ Hpl) as (Hfs & _ & _ & _ & H32).
  assert (drop (length fields) bss = []) as Hend.
  { apply drop_ge. pose proof (Forall2_length _ _ _ (mapM_Some_1 _ _ _ HM)) as HL. rewrite length_seq in HL. lia. }
  rewrite Hend in E1. cbn [concat] in E1.
  assert (noinit (S depth) fields dest s = (Some (), {| ds_stream := ds_stream s1; ds_mem := ds_mem s1; ds_count := ds_count s |}))
    as Hrun.
  { unfold noinit. cbn [pb_decode_noinit]. unfold own_count. fold s0. unfold decode_noinit.
    rewrite iter_begin_at by done. cbn [fst].
    rewrite (bind_some _ _ s0 (ds_stream s0) s0) by done.
    pose proof (loops_end _ _ _ _ _ _ _ _ _ _ _ t e Hsteps ltac:(apply Hs) E1) as Hloop.
    change (locals_seen fields dest 0 0) with {| fields_seen := [0; 0]; extension_range_start := 0;
      iter := iter_at fields dest 0; fixed_count_field := None |} in Hloop.
    rewrite (bind_some _ _ _ _ _ Hloop). rewrite (bind_some _ _ s1 () s1) by done.
    by rewrite (required_seen_at fields Hfs H32 dest Hd0 (locals_seen fields dest (length fields) i) i Hi eq_refl eq_refl). }
  eexists. split; [exact Hrun|]. split; [done|]. cbn [ds_mem].
  assert (∀ j, In j (seq 0 (length fields)) →
    restored m depth (field_at fields j) (src + data_at fields j) (dest + data_at fields j) (ds_mem s1)) as Hall.
  { intros j Hj. apply in_seq in Hj. apply Hres; lia. }
  split.
  - rewrite (message_bytes_eq wfd fields n (ds_mem s1) depth dest Hwf Hd0).
    rewrite (mapM_ext_in _ _ _ (λ j Hj, proj1 (Hall j Hj))), HM. done.
  - rewrite (message_default_eq wfd fields n (ds_mem s1) depth dest Hwf Hd0),
      (message_default_eq wfd fields n m depth src Hwf Hs0).
    exact (forallb_ext_in _ _ _ (λ j Hj, proj2 (Hall j Hj))).
Qed.
End submessage.

Lemma noinit_restores_all depth : noinit_restores depth.
Proof.
  induction depth as [|depth IH]; [|by apply noinit_restores_S].
  by intros wfd pd fields n src dest s bs t e _ _ _ _ _ _ _ _ Hb.
Qed.
End round_trip.

(** C5. A message that is encoded and decoded again is the same as far as its encoding tells.
    For every plain message (required and optional fields and arrays with a count, of every type,
    submessages in turn) whose strings end in their buffers and whose encoding [bs] is
    shorter than 2^32 bytes: [pb_encode] writes [bs], and decoding [bs] into any structure
    of the right size, whatever was there, succeeds, uses up the input, changes nothing
    outside the structure, and leaves a message for which [pb_encode] writes [bs] again. *)
Theorem message_round_trip {D : Descriptors} {St} {Inh : Inhabited St} {cb : St → bytes → bool * St}
    {sink : Sink cb} pb_realloc pb_free callback_decode type_decoder calls callback_encode type_encoder
    m wfd depth fields n src dest bs s t e :
  (∀ a, Forall field_ok (fields_at a)) → Forall field_ok fields →
  wf_message wfd fields n = true → plain_message wfd fields = true → (wfd <= depth)%nat →
  0 < src → 0 < dest → bytes_ok m → dstate_ok s → dest + n <= lenZ (ds_mem s) →
  decodable m depth fields src = true → message_bytes m depth fields src = Some bs → lenZ bs < 2 ^ 32 →
  ds_stream s = istr bs t e →
  ∃ s', pb_decode pb_realloc pb_free callback_decode type_decoder calls depth fields dest s = (Some (), s') ∧
    ds_stream s' = istr [] t e ∧ same_outside dest (dest + n) (ds_mem s) (ds_mem s') ∧
    emits64 (cb := cb) (pb_encode callback_encode type_encoder m depth fields src) bs ∧
    emits64 (cb := cb) (pb_encode callback_encode type_encoder (ds_mem s') depth fields dest) bs.
Proof.
  intros Hd Hf Hwf Hpl Hle Hsrc Hdest Hm Hs Hl Hdec Hb Hlen E.
  destruct (or_release_restores pb_realloc pb_free callback_decode type_decoder calls m depth
    (noinit_restores_all _ _ _ _ _ _ Hm depth) wfd wfd fields n src dest s bs t e) as (s' & Hrun & E' & Hb' & _); try done.
  pose proof (decode_or_release_confined pb_realloc pb_free callback_decode type_decoder dest (dest + n) Hdest
    (pb_decode_noinit pb_realloc pb_free callback_decode type_decoder calls depth) depth
    (λ wfd fields n p, noinit_confined _ _ _ _ _ _ Hdest calls depth wfd fields n p)
    wfd fields n dest Hwf ltac:(lia) ltac:(lia) s Hs ltac:(lia) Hl) as Hc.
  exists s'. unfold pb_decode. rewrite Hrun in *. destruct Hc as (_ & Ho & _ & Hm' & _).
  split; [done|]. split; [done|]. split; [done|].
  split; by apply pb_encode_encodes.
Qed.

(** A number and a submessage with a string, decoded over other data. *)
Lemma message_round_trip_witness :
  let s := {| ds_stream := istr [8; 255; 255; 255; 255; 255; 255; 255; 255; 255; 1; 18; 4; 26; 2; 104; 105] [] None;
              ds_mem := replicate 40 7; ds_count := 0 |} in
  takeZ 16 (dropZ 20 (ds_mem (pb_decode (D := example_descriptors) (λ m _ _, (0, m)) (λ m _, m) (λ _ _ _, ret0)
    (λ _ _ _ _, ret0) 0 2 example_fields 20 s).2)) =
    [255; 255; 255; 255; 7; 7; 7; 7; 104; 105; 0; 0; 0; 0; 0; 0] ∧
  ∃ s', (pb_decode (D := example_descriptors) (λ m _ _, (0, m)) (λ m _, m) (λ _ _ _, ret0)
    (λ _ _ _ _, ret0) 0 2 example_fields 20 s) = (Some (), s') ∧ ds_stream s' = istr [] [] None.
Proof.
  intros s. split; [vm_compute; reflexivity|].
  assert (∀ a, Forall field_ok (example_descriptors a)) as H1.
  { intros a. unfold example_descriptors. destruct (a =? 900); [decide_now|constructor]. }
  assert (Forall field_ok example_fields) as H2 by decide_now.
  destruct (message_round_trip (D := example_descriptors) (cb := append_write) (λ m _ _, (0, m)) (λ m _, m)
    (λ _ _ _, ret0) (λ _ _ _ _, ret0) 0 (λ _ _ _ _, ret0) (λ _ _ _, ret0) example_memory 2 2 example_fields 16 8 20
    [8; 255; 255; 255; 255; 255; 255; 255; 255; 255; 1; 18; 4; 26; 2; 104; 105] s [] None H1 H2
    ltac:(vm_compute; reflexivity) ltac:(vm_compute; reflexivity) ltac:(lia) ltac:(lia) ltac:(lia)
    ltac:(decide_now) ltac:(decide_now) ltac:(decide_now) ltac:(vm_compute; reflexivity) ltac:(vm_compute; reflexivity)
    ltac:(decide_now) eq_refl) as (s' & H & H' & _).
  exists s'. split; [exact H|exact H'].
Defined.
