(* ===== verification/Md32.v ===== *)
(** Hash functions that work on blocks: the collector of partial blocks in
    src/HolyWater-Test/Pods/BoringSSL-GRPC/src/crypto/fipsmodule/digest/md32_common.h, and the
    hash of a padded message that collecting computes, however the message is cut. *)
From S2P Require Import Prelude.

Open Scope Z_scope.

(** * The context

    [struct sha_state_st], [struct sha256_state_st] and [struct sha512_state_st]: the chaining
    words, the number of bits so far in two words, the partial block, its length, and where it
    is kept the length of the digest. *)
Record md_ctx := {
  h : list Z;
  Nl : Z;
  Nh : Z;
  data : bytes;
  num : Z;
  md_len : Z;
}.

(** [crypto_md32_block_func]: the state, blocks at [data], their number. *)
Definition block_func : Type := list Z → bytes → Z → list Z.

Definition set_block (c : md_ctx) (h' : list Z) (data' : bytes) (num' : Z) : md_ctx :=
  {| h := h'; Nl := Nl c; Nh := Nh c; data := data'; num := num'; md_len := md_len c |}.

(** The part of the update that takes whole blocks from [input] and keeps the rest. *)
Definition md32_blocks (f : block_func) (block_size : Z) (c : md_ctx) (input : bytes) : md_ctx :=
  let n := lenZ input / block_size in
  let '(h', input) :=
    if 0 <? n then (f (h c) input n, dropZ (n * block_size) input) else (h c, input) in
  if negb (lenZ input =? 0) then set_block c h' (write_at (data c) 0 input) (u32 (lenZ input))
  else set_block c h' (data c) (num c).

Definition crypto_md32_update (f : block_func) (block_size : Z) (c : md_ctx) (input : bytes) : md_ctx :=
  let len := lenZ input in
  if len =? 0 then c
  else
    let l := u32 (Nl c + u32 (u32 len ≪ 3)) in
    let hi := if l <? Nl c then u32 (Nh c + 1) else Nh c in
    let hi := u32 (hi + u32 (len ≫ 29)) in
    let c := {| h := h c; Nl := l; Nh := hi; data := data c; num := num c; md_len := md_len c |} in
    let n := num c in
    if negb (n =? 0) then
      if (block_size <=? len) || (block_size <=? size_t (len + n)) then
        let block := write_at (data c) n (takeZ (block_size - n) input) in
        let c := set_block c (f (h c) block 1) (replicate (Z.to_nat block_size) 0) 0 in
        md32_blocks f block_size c (dropZ (block_size - n) input)
      else set_block c (h c) (write_at (data c) n input) (u32 (n + u32 len))
    else md32_blocks f block_size c input.

Definition CRYPTO_store_u32_be (v : Z) : bytes := be_bytes 4 v.
Definition CRYPTO_store_u32_le (v : Z) : bytes := reverse (be_bytes 4 v).

Definition zero_from (block : bytes) (n m : Z) : bytes := write_at block n (replicate (Z.to_nat m) 0).

Definition crypto_md32_final (f : block_func) (block_size : Z) (c : md_ctx) (is_big_endian : bool) : md_ctx :=
  let block := write_at (data c) (num c) [0x80] in
  let n := num c + 1 in
  let '(h', block, n) :=
    if block_size - 8 <? n then
      let block := zero_from block n (block_size - n) in (f (h c) block 1, block, 0)
    else (h c, block, n) in
  let block := zero_from block n (block_size - 8 - n) in
  let block :=
    if is_big_endian then
      write_at (write_at block (block_size - 8) (CRYPTO_store_u32_be (Nh c))) (block_size - 4)
        (CRYPTO_store_u32_be (Nl c))
    else
      write_at (write_at block (block_size - 8) (CRYPTO_store_u32_le (Nl c))) (block_size - 4)
        (CRYPTO_store_u32_le (Nh c)) in
  set_block c (f h' block 1) (replicate (Z.to_nat block_size) 0) 0.

(** * The hash of a message

    The chaining value after the whole blocks of a message, and what is left. *)

Section hash.
Context (block_size : Z) (Hbs : 0 < block_size).

Definition num_blocks (msg : bytes) : nat := Z.to_nat (lenZ msg / block_size).
Definition rest (msg : bytes) : bytes := dropZ (lenZ msg / block_size * block_size) msg.

(** A one bit, zeros, and the length in bits fill the last block. *)
Definition padding (len_size : Z) (len_bytes : bytes) (len : Z) : bytes :=
  0x80 :: replicate (Z.to_nat ((block_size - len_size - 1 - len) mod block_size)) 0 ++ len_bytes.

Lemma rest_short msg : lenZ msg < block_size → rest msg = msg.
Proof.
  intros Hl. unfold rest. rewrite Z.div_small; [by rewrite dropZ_0|]. pose proof (lenZ_nonneg msg). lia.
Qed.

Lemma whole_block (x y : bytes) :
  lenZ x = block_size → lenZ (x ++ y) / block_size = 1 + lenZ y / block_size.
Proof.
  intros Hx. rewrite lenZ_app, Hx. replace (block_size + lenZ y) with (lenZ y + 1 * block_size) by lia.
  rewrite Z.div_add by lia. lia.
Qed.

Lemma blocks_nonneg (y : bytes) : 0 <= lenZ y / block_size.
Proof. pose proof (lenZ_nonneg y). apply Z.div_pos; lia. Qed.

Lemma rest_block x y : lenZ x = block_size → rest (x ++ y) = rest y.
Proof.
  intros Hx. unfold rest. rewrite whole_block by done. pose proof (blocks_nonneg y).
  rewrite Z.mul_add_distr_r, Z.mul_1_l. rewrite <-dropZ_dropZ by nia. by rewrite dropZ_app by done.
Qed.

(** A message is a list of blocks and a rest. *)
Lemma block_ind (P : bytes → Prop) :
  (∀ msg, lenZ msg < block_size → P msg) → (∀ x y, lenZ x = block_size → P y → P (x ++ y)) → ∀ msg, P msg.
Proof.
  intros H0 HS msg. remember (length msg) as n eqn:Hn. revert msg Hn.
  induction n as [n IH] using lt_wf_ind. intros msg Hn.
  destruct (Z.lt_ge_cases (lenZ msg) block_size) as [Hlt|Hge]; [by apply H0|].
  rewrite <-(takeZ_dropZ block_size msg). apply HS; [apply lenZ_takeZ; lia|].
  apply (IH (length (dropZ block_size msg))); [|done].
  pose proof (lenZ_dropZ block_size msg). unfold lenZ in *. lia.
Qed.

Lemma rest_length msg : lenZ (rest msg) = lenZ msg mod block_size.
Proof.
  unfold rest. pose proof (blocks_nonneg msg). pose proof (Z.mul_div_le (lenZ msg) block_size Hbs).
  rewrite lenZ_dropZ, Z.mod_eq by lia. lia.
Qed.

Lemma rest_app x y : rest (x ++ y) = rest (rest x ++ y).
Proof.
  induction x as [x Hx|b x Hb IH] using block_ind; [by rewrite (rest_short x)|].
  by rewrite <-app_assoc, (rest_block b (x ++ y)), (rest_block b x) by done.
Qed.

Lemma padding_blocks len_size len_bytes msg :
  0 <= len_size < block_size → lenZ len_bytes = len_size →
  rest (msg ++ padding len_size len_bytes (lenZ msg)) = [].
Proof.
  intros Hs Hl. apply lenZ_0_nil. rewrite rest_length, lenZ_app. unfold padding.
  rewrite lenZ_cons, lenZ_app, lenZ_replicate, Hl. pose proof (lenZ_nonneg msg).
  pose proof (Z.mod_pos_bound (block_size - len_size - 1 - lenZ msg) block_size Hbs).
  rewrite Z2Nat.id by lia.
  pose proof (Z.div_mod (block_size - len_size - 1 - lenZ msg) block_size ltac:(lia)) as Hd.
  set (q := (block_size - len_size - 1 - lenZ msg) / block_size) in *.
  set (m := (block_size - len_size - 1 - lenZ msg) mod block_size) in *.
  replace (lenZ msg + (1 + (m + len_size))) with ((1 - q) * block_size) by lia.
  by rewrite Z.mod_mul by lia.
Qed.
(** ** Chaining *)

Context (compress : list Z → bytes → list Z).

Fixpoint fold_blocks (n : nat) (s : list Z) (msg : bytes) : list Z :=
  match n with
  | O => s
  | S n => fold_blocks n (compress s (takeZ block_size msg)) (dropZ block_size msg)
  end.
Definition chain (s : list Z) (msg : bytes) : list Z := fold_blocks (num_blocks msg) s msg.

(** A block function runs the compression function on its blocks in order. *)
Class BlockFunc (f : block_func) : Prop :=
  block_func_spec s data n : 1 <= n → n * block_size <= lenZ data → n < 2 ^ 64 →
    f s data n = fold_blocks (Z.to_nat n) s data.

Lemma chain_short s msg : lenZ msg < block_size → chain s msg = s.
Proof.
  intros Hl. unfold chain, num_blocks. rewrite Z.div_small; [done|]. pose proof (lenZ_nonneg msg). lia.
Qed.

Lemma chain_block s x y : lenZ x = block_size → chain s (x ++ y) = chain (compress s x) y.
Proof.
  intros Hx. unfold chain, num_blocks. rewrite whole_block by done. pose proof (blocks_nonneg y).
  assert (Z.to_nat (1 + lenZ y / block_size) = S (Z.to_nat (lenZ y / block_size))) as -> by lia.
  cbn [fold_blocks]. by rewrite takeZ_app, dropZ_app by done.
Qed.

Lemma chain_app s x y : chain s (x ++ y) = chain (chain s x) (rest x ++ y).
Proof.
  revert s. induction x as [x Hx|b x Hb IH] using block_ind; intros s.
  - by rewrite (chain_short s x), rest_short.
  - rewrite <-app_assoc, (chain_block s b (x ++ y)), (chain_block s b x), rest_block by done. apply IH.
Qed.
End hash.

(** Compression functions that agree on the states that occur. *)
Lemma chain_ext block_size (c1 c2 : list Z → bytes → list Z) (P : list Z → Prop) :
  0 < block_size →
  (∀ s b, P s → bytes_ok b → lenZ b = block_size → c1 s b = c2 s b ∧ P (c1 s b)) →
  ∀ msg s, P s → bytes_ok msg →
  chain block_size c1 s msg = chain block_size c2 s msg ∧ P (chain block_size c1 s msg).
Proof.
  intros Hbs Hc msg. induction msg as [msg Hm|b msg Hb IH] using (block_ind block_size Hbs); intros s Hs Hok.
  - by rewrite !chain_short.
  - apply bytes_ok_app in Hok as [Hok1 Hok2]. rewrite !chain_block by done.
    destruct (Hc s b Hs Hok1 Hb) as [<- HP]. by apply IH.
Qed.

(** * Collecting blocks *)

Section collect.
Context (block_size : Z) (Hbs : 0 < block_size < 2 ^ 31) (compress : list Z → bytes → list Z).
Context (f : block_func) {Hf : BlockFunc block_size compress f} (iv : list Z).

(** The context has seen [msg]. *)
Definition absorbed (c : md_ctx) (msg : bytes) : Prop :=
  h c = chain block_size compress iv msg ∧ num c = lenZ (rest block_size msg) ∧
  takeZ (num c) (data c) = rest block_size msg ∧ lenZ (data c) = block_size.

Lemma rest_lt msg : 0 <= lenZ (rest block_size msg) < block_size.
Proof. rewrite rest_length by lia. apply Z.mod_pos_bound. lia. Qed.

Lemma one_block s b : lenZ b = block_size → f s b 1 = compress s b.
Proof.
  intros Hb. rewrite (block_func_spec block_size compress) by lia.
  change (Z.to_nat 1) with 1%nat. cbn [fold_blocks]. by rewrite takeZ_all by lia.
Qed.

Lemma many_blocks s input :
  lenZ input < 2 ^ 64 →
  (if 0 <? lenZ input / block_size
   then (f s input (lenZ input / block_size), dropZ (lenZ input / block_size * block_size) input)
   else (s, input)) = (chain block_size compress s input, rest block_size input).
Proof.
  intros H64. destruct (Z.ltb_spec 0 (lenZ input / block_size)) as [Hlt|Hge].
  - pose proof (Z.mul_div_le (lenZ input) block_size ltac:(lia)).
    rewrite (block_func_spec block_size compress); [done|lia|lia|nia].
  - pose proof (blocks_nonneg block_size ltac:(lia) input). pose proof (lenZ_nonneg input).
    assert (lenZ input < block_size).
    { destruct (Z.lt_ge_cases (lenZ input) block_size) as [|H1]; [done|].
      pose proof (Z.div_le_lower_bound (lenZ input) block_size 1 ltac:(lia) ltac:(lia)). lia. }
    by rewrite chain_short, rest_short by lia.
Qed.

Lemma kept (data x : bytes) :
  lenZ data = block_size → lenZ x <= block_size →
  takeZ (lenZ x) (write_at data 0 x) = x ∧ lenZ (write_at data 0 x) = block_size.
Proof.
  intros Hd Hx. pose proof (lenZ_nonneg x). rewrite lenZ_write_at by lia. split; [|done].
  unfold write_at. rewrite takeZ_0. cbn [app]. by apply takeZ_app.
Qed.

Lemma md32_blocks_spec c input :
  lenZ (data c) = block_size → num c = 0 → lenZ input < 2 ^ 64 →
  let c' := md32_blocks f block_size c input in
  h c' = chain block_size compress (h c) input ∧ num c' = lenZ (rest block_size input) ∧
  takeZ (num c') (data c') = rest block_size input ∧ lenZ (data c') = block_size.
Proof.
  intros Hd Hn H64. unfold md32_blocks. rewrite many_blocks by done. pose proof (rest_lt input) as Hr.
  destruct (Z.eqb_spec (lenZ (rest block_size input)) 0) as [H0|H0]; cbn [negb set_block h num data].
  - rewrite Hn, H0, takeZ_0. apply Z.eq_le_incl, lenZ_0_nil in H0 as ->. done.
  - rewrite wrap_small by (split; mlia). destruct (kept (data c) (rest block_size input) Hd ltac:(lia)) as [H1 H2].
    done.
Qed.

Lemma fill c msg x :
  absorbed c msg → num c + lenZ x <= block_size →
  takeZ (num c + lenZ x) (write_at (data c) (num c) x) = rest block_size msg ++ x ∧
  lenZ (write_at (data c) (num c) x) = block_size.
Proof.
  intros (_ & Hn & Ht & Hd) Hx. pose proof (rest_lt msg). pose proof (lenZ_nonneg x).
  rewrite lenZ_write_at by lia. split; [|done].
  unfold write_at. rewrite Ht, app_assoc. apply takeZ_app. rewrite lenZ_app. lia.
Qed.

Lemma update_absorbed c msg input :
  absorbed c msg → lenZ input < 2 ^ 64 → absorbed (crypto_md32_update f block_size c input) (msg ++ input).
Proof.
  intros Hc Hl. pose proof Hc as (Hh & Hn & Ht & Hd). unfold crypto_md32_update. pose proof (rest_lt msg) as Hr.
  pose proof (lenZ_nonneg input) as H0.
  destruct (Z.eqb_spec (lenZ input) 0) as [Hz|Hz].
  { apply Z.eq_le_incl, lenZ_0_nil in Hz as ->. by rewrite app_nil_r. }
  set (c1 := {| h := h c |}). assert (absorbed c1 msg) as Hc1 by done.
  change (num c1) with (num c). unfold absorbed. rewrite chain_app, rest_app by lia.
  destruct (Z.eqb_spec (num c) 0) as [Hn0|Hn0]; cbn [negb].
  - rewrite Hn in Hn0. pose proof (lenZ_0_nil _ (Z.eq_le_incl _ _ Hn0)) as ->. rewrite <-Hh.
    apply (md32_blocks_spec c1); [done|by rewrite <-Hn0|done].
  - assert ((block_size <=? lenZ input) || (block_size <=? size_t (lenZ input + num c)) =
      (block_size <=? num c + lenZ input)) as ->.
    { destruct (Z.leb_spec block_size (lenZ input)); cbn [orb].
      - symmetry. apply Z.leb_le. lia.
      - rewrite wrap_small by (split; mlia). by rewrite Z.add_comm. }
    destruct (Z.leb_spec block_size (num c + lenZ input)) as [Hfull|Hshort].
    + set (x := takeZ (block_size - num c) input).
      assert (lenZ x = block_size - num c) as Hx by (apply lenZ_takeZ; lia).
      destruct (fill c1 msg x Hc1) as [H1 H2]; [change (num c1) with (num c); lia|].
      change (num c1) with (num c) in *. change (data c1) with (data c) in *. change (h c1) with (h c).
      rewrite takeZ_all in H1 by lia.
      assert (lenZ (rest block_size msg ++ x) = block_size) as Hb by (rewrite lenZ_app; lia).
      assert (rest block_size msg ++ input = (rest block_size msg ++ x) ++ dropZ (block_size - num c) input) as ->
        by (unfold x; by rewrite <-app_assoc, takeZ_dropZ).
      rewrite (one_block (h c)), H1, Hh by done.
      rewrite (chain_block block_size ltac:(lia) compress), (rest_block block_size ltac:(lia)) by done.
      apply (md32_blocks_spec (set_block c1 _ _ _)); [|done|rewrite lenZ_dropZ; lia].
      cbn [set_block data]. rewrite lenZ_replicate. lia.
    + destruct (fill c1 msg input Hc1) as [H1 H2]; [change (num c1) with (num c); lia|].
      change (num c1) with (num c) in *. change (data c1) with (data c) in *.
      cbn [set_block h num data]. rewrite (wrap_small 32 (lenZ input)) by (split; mlia).
      rewrite wrap_small by (split; mlia). rewrite chain_short, rest_short by (rewrite ?lenZ_app; lia).
      rewrite lenZ_app. split; [done|]. split; [lia|done].
Qed.
End collect.

(** * Counting bits *)

(** The two counters hold the number of bits, as far as they can. *)
Definition counted (w : Z) (c : md_ctx) (msg : bytes) : Prop :=
  fits w (Nl c) ∧ fits w (Nh c) ∧ Nh c * 2 ^ w + Nl c = (8 * lenZ msg) mod 2 ^ (2 * w).

(** Adding to a number of two digits in base [B]. *)
Lemma carry_step B lo hi a b :
  0 <= lo < B → 0 <= hi < B → 0 <= b < B →
  ((if (lo + b) mod B <? lo then (hi + 1) mod B else hi) + a) mod B * B + (lo + b) mod B =
    (hi * B + lo + (B * a + b)) mod (B * B).
Proof.
  intros Hlo Hhi Hb. assert (B ≠ 0) as HB0 by lia.
  assert (∀ hi', (hi' + a) mod B * B + (lo + b) mod B = ((hi' + a) * B + (lo + b) mod B) mod (B * B)) as Hdigits.
  { intros hi'. pose proof (Z.mod_pos_bound (lo + b) B ltac:(lia)) as H1.
    pose proof (Z.mod_pos_bound (hi' + a) B ltac:(lia)) as H2. pose proof (Z.div_mod (hi' + a) B HB0) as H3.
    set (x := (lo + b) mod B) in *. set (y := (hi' + a) mod B) in *. set (q := (hi' + a) / B) in *.
    clearbody x y q. apply Z.mod_unique with q; [left; clear -H1 H2; nia|rewrite H3; ring]. }
  destruct (Z.lt_ge_cases (lo + b) B) as [Hc|Hc].
  - rewrite (proj2 (Z.ltb_ge _ _)), Hdigits; rewrite (Z.mod_small (lo + b)) by lia; [f_equal; ring|lia].
  - assert ((lo + b) mod B = lo + b - B) as E by (symmetry; apply Z.mod_unique with 1; lia).
    rewrite (proj2 (Z.ltb_lt _ _)) by (rewrite E; lia). rewrite (Z.add_mod_idemp_l _ _ _ HB0), Hdigits, E.
    f_equal. ring.
Qed.

Lemma count_step w lo hi len total :
  3 <= w → 0 <= len → fits w lo → fits w hi → hi * 2 ^ w + lo = total mod 2 ^ (2 * w) →
  let l := wrap w (lo + wrap w (wrap w len ≪ 3)) in
  let hi' := wrap w ((if l <? lo then wrap w (hi + 1) else hi) + wrap w (len ≫ (w - 3))) in
  fits w l ∧ fits w hi' ∧ hi' * 2 ^ w + l = (total + 8 * len) mod 2 ^ (2 * w).
Proof.
  intros Hw Hlen Hlo Hhi E l hi'. split; [apply wrap_fits; lia|]. split; [apply wrap_fits; lia|].
  unfold fits in *.
  assert (2 ^ w = 8 * 2 ^ (w - 3)) as HB by (rewrite <-(Z.pow_add_r 2 3) by lia; f_equal; lia).
  assert (2 ^ (2 * w) = 2 ^ w * 2 ^ w) as HBB by (rewrite <-Z.pow_add_r by lia; f_equal; lia).
  rewrite HBB in *. subst l hi'. unfold wrap in *. rewrite !Z.shiftl_mul_pow2, shiftr_div by lia. change (2 ^ 3) with 8.
  pose proof (Z.pow_pos_nonneg 2 (w - 3) ltac:(lia) ltac:(lia)) as HC. set (C := 2 ^ (w - 3)) in *. set (B := 2 ^ w) in *.
  assert (B ≠ 0) as HB0 by (clear -HB HC; lia). assert (B * B ≠ 0) as HBB0 by (clear -HB0; nia).
  rewrite (Z.mul_mod_idemp_l len 8 B HB0).
  pose proof (Z.div_mod len C) as Hdiv. pose proof (Z.mod_pos_bound len C) as Hr.
  set (a := len / C) in *. set (r := len mod C) in *.
  specialize (Hdiv ltac:(clear -HC; lia)). specialize (Hr ltac:(clear -HC; lia)). clearbody a r.
  assert ((len * 8) mod B = 8 * r) as ->
    by (symmetry; apply Z.mod_unique with a; [left; clear -HB Hr; lia|rewrite HB, Hdiv; ring]).
  rewrite <-(Z.add_mod_idemp_l total _ _ HBB0), <-E. rewrite (Z.add_mod_idemp_r _ a B HB0).
  assert (8 * len = B * a + 8 * r) as -> by (rewrite HB, Hdiv; ring).
  apply carry_step; clear -Hlo Hhi Hr HB HC; lia.
Qed.

Lemma blocks_counts f bs c input : Nl (md32_blocks f bs c input) = Nl c ∧ Nh (md32_blocks f bs c input) = Nh c.
Proof. unfold md32_blocks. destruct (if 0 <? _ then _ else _). by destruct (negb _). Qed.

Lemma update_counted f bs c msg input :
  counted 32 c msg → lenZ input < 2 ^ 64 → counted 32 (crypto_md32_update f bs c input) (msg ++ input).
Proof.
  intros (Hlo & Hhi & E) Hl. unfold crypto_md32_update. pose proof (lenZ_nonneg input) as H0.
  destruct (Z.eqb_spec (lenZ input) 0) as [Hz|Hz].
  { apply Z.eq_le_incl, lenZ_0_nil in Hz as ->. by rewrite app_nil_r. }
  pose proof (count_step 32 (Nl c) (Nh c) (lenZ input) (8 * lenZ msg) ltac:(lia) H0 Hlo Hhi E) as Hstep.
  unfold counted. rewrite lenZ_app, Z.mul_add_distr_l. cbv zeta in *. set (c1 := {| h := h c |}).
  destruct (negb (num c1 =? 0)); [destruct (_ || _)|];
    rewrite ?(proj1 (blocks_counts _ _ _ _)), ?(proj2 (blocks_counts _ _ _ _)); exact Hstep.
Qed.

(** * The last blocks *)

Lemma extend (b : bytes) n x a :
  takeZ n b = a → lenZ a = n → n + lenZ x <= lenZ b →
  takeZ (n + lenZ x) (write_at b n x) = a ++ x ∧ lenZ (write_at b n x) = lenZ b.
Proof.
  intros Ht Ha Hl. pose proof (lenZ_nonneg x). pose proof (lenZ_nonneg a).
  rewrite lenZ_write_at by lia. split; [|done]. unfold write_at. rewrite Ht, app_assoc. apply takeZ_app.
  rewrite lenZ_app. lia.
Qed.

Section final.
Context (block_size : Z) (Hbs : 0 < block_size < 2 ^ 31) (compress : list Z → bytes → list Z).
Context (f : block_func) {Hf : BlockFunc block_size compress f} (iv : list Z).
Context (len_size : Z) (Hlen : 0 <= len_size < block_size) (len_bytes : bytes) (Hl : lenZ len_bytes = len_size).

(** The padding in one block or two. *)
Definition final_blocks (s : list Z) (p : bytes) : list Z :=
  let n := lenZ p + 1 in
  let zeros k := replicate (Z.to_nat k) 0 in
  if block_size - len_size <? n then
    compress (compress s (p ++ [0x80] ++ zeros (block_size - n))) (zeros (block_size - len_size) ++ len_bytes)
  else compress s (p ++ [0x80] ++ zeros (block_size - len_size - n) ++ len_bytes).

Lemma final_chain msg :
  final_blocks (chain block_size compress iv msg) (rest block_size msg) =
    chain block_size compress iv (msg ++ padding block_size len_size len_bytes (lenZ msg)).
Proof.
  rewrite chain_app by lia. pose proof (rest_lt block_size Hbs msg) as Hr.
  unfold final_blocks, padding. set (p := rest block_size msg) in *.
  assert ((block_size - len_size - 1 - lenZ msg) mod block_size = (block_size - len_size - 1 - lenZ p) mod block_size) as ->.
  { unfold p. rewrite rest_length by lia. by rewrite Zminus_mod_idemp_r. }
  set (s := chain block_size compress iv msg).
  assert (∀ s b, lenZ b = block_size → chain block_size compress s b = compress s b) as Hone.
  { intros s' b Hb. rewrite <-(app_nil_r b) at 1. rewrite chain_block by (done || lia).
    apply chain_short. rewrite lenZ_nil. lia. }
  destruct (Z.ltb_spec (block_size - len_size) (lenZ p + 1)) as [Hlt|Hge].
  - assert ((block_size - len_size - 1 - lenZ p) mod block_size =
      (block_size - (lenZ p + 1)) + (block_size - len_size)) as ->.
    { symmetry. apply Z.mod_unique with (-1); lia. }
    rewrite Z2Nat.inj_add, replicate_add by lia.
    replace (p ++ 0x80 :: (replicate (Z.to_nat (block_size - (lenZ p + 1))) 0 ++
        replicate (Z.to_nat (block_size - len_size)) 0) ++ len_bytes) with
      ((p ++ [0x80] ++ replicate (Z.to_nat (block_size - (lenZ p + 1))) 0) ++
        replicate (Z.to_nat (block_size - len_size)) 0 ++ len_bytes) by by rewrite <-!app_assoc.
    rewrite chain_block; [|lia|].
    + rewrite Hone; [done|]. rewrite lenZ_app, lenZ_replicate. lia.
    + rewrite !lenZ_app, lenZ_replicate. change (lenZ [128]) with 1. lia.
  - rewrite (Z.mod_small (block_size - len_size - 1 - lenZ p)) by lia.
    rewrite Hone; [|rewrite lenZ_app, lenZ_cons, lenZ_app, lenZ_replicate; lia].
    do 3 f_equal. cbn [app]. do 3 f_equal. lia.
Qed.
End final.

(** The length in bits at the end of a message of [n] bytes. *)
Definition length_field (is_big_endian : bool) (len_size : nat) (n : Z) : bytes :=
  let b := be_bytes len_size (8 * n) in if is_big_endian then b else reverse b.

Lemma counters_bytes w k c msg :
  w = 8 * Z.of_nat k → counted w c msg → be_bytes k (Nh c) ++ be_bytes k (Nl c) = be_bytes (k + k) (8 * lenZ msg).
Proof.
  intros Hw (Hlo & Hhi & E). rewrite <-(be_bytes_be_value (be_bytes k (Nh c) ++ be_bytes k (Nl c)) (k + k)).
  - apply be_bytes_eq. rewrite be_value_app, !be_value_be_bytes, lenZ_be_bytes.
    assert (∀ i, 256 ^ Z.of_nat i = 2 ^ (8 * Z.of_nat i)) as Hp by (intros i; by rewrite Z.pow_mul_r by lia).
    rewrite !Hp. rewrite <-Hw. replace (8 * Z.of_nat (k + k)) with (2 * w) by lia.
    rewrite (Z.mod_small (Nh c)), (Z.mod_small (Nl c)) by done. rewrite E.
    apply Z.mod_mod. pose proof (Z.pow_pos_nonneg 2 (2 * w)). lia.
  - apply bytes_ok_app. split; apply be_bytes_ok.
  - by rewrite length_app, !length_be_bytes.
Qed.

Section md32.
Context (block_size : Z) (Hbs : 8 < block_size < 2 ^ 31) (compress : list Z → bytes → list Z).
Context (f : block_func) {Hf : BlockFunc block_size compress f} (iv : list Z).

Lemma zero_from_length b n m : 0 <= n → 0 <= m → n + m <= lenZ b → lenZ (zero_from b n m) = lenZ b.
Proof. intros Hn Hm Hl. unfold zero_from. apply lenZ_write_at; rewrite ?lenZ_replicate; lia. Qed.

Lemma zero_extend b n m a :
  takeZ n b = a → lenZ a = n → 0 <= m → n + m <= lenZ b →
  takeZ (n + m) (zero_from b n m) = a ++ replicate (Z.to_nat m) 0.
Proof.
  intros Ht Ha Hm Hl. pose proof (extend b n (replicate (Z.to_nat m) 0) a Ht Ha) as H.
  rewrite lenZ_replicate, Z2Nat.id in H by done. by apply H.
Qed.

(** Two halves of the length field go to the end of a block. *)
Lemma write_field (b a x y : bytes) :
  takeZ (block_size - 8) b = a → lenZ a = block_size - 8 → lenZ b = block_size → lenZ x = 4 → lenZ y = 4 →
  write_at (write_at b (block_size - 8) x) (block_size - 4) y = a ++ x ++ y.
Proof.
  intros Ht Ha Hb Hx Hy. destruct (extend b (block_size - 8) x a Ht Ha ltac:(lia)) as [H1 H2].
  rewrite Hx in H1. replace (block_size - 8 + 4) with (block_size - 4) in H1 by lia.
  destruct (extend (write_at b (block_size - 8) x) (block_size - 4) y (a ++ x) H1) as [H3 H4];
    [rewrite lenZ_app; lia|lia|].
  rewrite takeZ_all in H3 by lia. by rewrite H3, app_assoc.
Qed.

Lemma md32_final_spec c msg be :
  absorbed block_size compress iv c msg → counted 32 c msg →
  h (crypto_md32_final f block_size c be) =
    chain block_size compress iv (msg ++ padding block_size 8 (length_field be 8 (lenZ msg)) (lenZ msg)).
Proof.
  intros Hc Hcount. assert (0 < block_size < 2 ^ 31) as Hb0 by lia. pose proof Hc as (Hh & Hn & Ht & Hd). pose proof (rest_lt block_size ltac:(lia) msg) as Hr.
  assert (lenZ (length_field be 8 (lenZ msg)) = 8) as Hlf.
  { unfold length_field. destruct be; unfold lenZ; by rewrite ?length_reverse, length_be_bytes. }
  rewrite <-(final_chain block_size ltac:(lia) compress iv 8 ltac:(lia)) by done.
  set (p := rest block_size msg) in *. unfold final_blocks, crypto_md32_final. rewrite Hn, Hh.
  destruct (extend (data c) (lenZ p) [0x80] p ltac:(by rewrite <-Hn) eq_refl ltac:(change (lenZ [0x80]) with 1; lia))
    as [H1 H2].
  change (lenZ [0x80]) with 1 in H1. set (b1 := write_at (data c) (lenZ p) [0x80]) in *. rewrite Hd in H2.
  assert (lenZ (p ++ [0x80]) = lenZ p + 1) as Hp1 by (rewrite lenZ_app; done).
  assert (∀ s b a, takeZ (block_size - 8) b = a → lenZ a = block_size - 8 → lenZ b = block_size →
    f s (if be then write_at (write_at b (block_size - 8) (CRYPTO_store_u32_be (Nh c))) (block_size - 4)
                      (CRYPTO_store_u32_be (Nl c))
         else write_at (write_at b (block_size - 8) (CRYPTO_store_u32_le (Nl c))) (block_size - 4)
                (CRYPTO_store_u32_le (Nh c))) 1 = compress s (a ++ length_field be 8 (lenZ msg))) as Hend.
  { intros s b a Hb Ha Hlb. unfold length_field, CRYPTO_store_u32_be, CRYPTO_store_u32_le.
    pose proof (counters_bytes 32 4 c msg eq_refl Hcount) as Hcb. cbn [Nat.add] in Hcb. rewrite <-Hcb.
    assert (∀ z, lenZ (reverse (be_bytes 4 z)) = 4) as Hrev
      by (intros z; unfold lenZ; by rewrite length_reverse, length_be_bytes).
    destruct be; rewrite (write_field b a) by (rewrite ?lenZ_be_bytes; done).
    - apply (one_block block_size compress f s). rewrite !lenZ_app, !lenZ_be_bytes. lia.
    - rewrite reverse_app. apply (one_block block_size compress f s). rewrite !lenZ_app, !Hrev. lia. }
  destruct (Z.ltb_spec (block_size - 8) (lenZ p + 1)) as [Hlt|Hge]; cbn [set_block h].
  - set (b2 := zero_from b1 (lenZ p + 1) (block_size - (lenZ p + 1))).
    assert (lenZ b2 = block_size) as Hb2 by (unfold b2; rewrite zero_from_length; lia).
    pose proof (zero_extend b1 (lenZ p + 1) (block_size - (lenZ p + 1)) _ H1 Hp1 ltac:(lia) ltac:(lia)) as H3.
    fold b2 in H3. rewrite takeZ_all in H3 by lia. rewrite <-app_assoc in H3.
    rewrite (Hend _ _ (replicate (Z.to_nat (block_size - 8)) 0)).
    + rewrite (one_block block_size compress) by done. by rewrite H3.
    + rewrite Z.sub_0_r. rewrite <-(app_nil_l (replicate _ 0)).
      rewrite <-(zero_extend b2 0 (block_size - 8) []); [by rewrite Z.add_0_l|by rewrite takeZ_0|done|lia|lia].
    + rewrite lenZ_replicate. lia.
    + rewrite zero_from_length; lia.
  - rewrite (Hend _ _ ((p ++ [0x80]) ++ replicate (Z.to_nat (block_size - 8 - (lenZ p + 1))) 0)).
    + by rewrite <-!app_assoc.
    + rewrite <-(zero_extend b1 _ _ _ H1) by lia. f_equal. lia.
    + rewrite lenZ_app, lenZ_replicate. lia.
    + rewrite zero_from_length; lia.
Qed.
End md32.

(** * Digests *)

(** [CRYPTO_store_u32_be] or [CRYPTO_store_u64_be] of the first [n] words of [h]. *)
Definition store_words (word_size n : nat) (h : list Z) : bytes :=
  concat (map (λ i, be_bytes word_size (h !!! i)) (seq 0 n)).

(** A hash of padded blocks: the first [md_len] bytes of the last chaining value. *)
Definition md_hash (block_size len_size : Z) (len_field : Z → bytes) (store : Z → bytes) (compress : list Z → bytes → list Z)
    (iv : list Z) (md_len : Z) (msg : bytes) : bytes :=
  takeZ md_len (concat (map store
    (chain block_size compress iv (msg ++ padding block_size len_size (len_field (lenZ msg)) (lenZ msg))))).

Lemma store_words_take k n (h : list Z) :
  (n <= length h)%nat → store_words k n h = takeZ (Z.of_nat (n * k)) (concat (map (be_bytes k) h)).
Proof.
  unfold store_words, takeZ. rewrite Nat2Z.id. revert h.
  induction n as [|n IH]; intros [|x h] Hn; cbn [length] in Hn; [done|done|lia|].
  cbn [seq map concat Nat.mul]. rewrite <-seq_shift, map_map, take_app, length_be_bytes.
  rewrite take_ge by (rewrite length_be_bytes; lia). f_equal.
  replace (k + n * k - k)%nat with (n * k)%nat by lia. rewrite <-IH by lia. done.
Qed.

Lemma padding_ok block_size len_size len_bytes n : bytes_ok len_bytes → bytes_ok (padding block_size len_size len_bytes n).
Proof.
  intros Hl. unfold padding. apply Forall_cons. split; [mlia|]. apply bytes_ok_app. split; [|done].
  apply Forall_replicate. mlia.
Qed.

Lemma length_field_ok be k n : bytes_ok (length_field be k n).
Proof.
  unfold length_field. pose proof (be_bytes_ok k (8 * n)) as H. destruct be; [done|].
  unfold bytes_ok. by rewrite Forall_reverse.
Qed.

(** A context in use: it has counted and absorbed [msg]. *)
Definition in_use (block_size w : Z) (compress : list Z → bytes → list Z) (iv : list Z) (mdl : Z) (c : md_ctx) (msg : bytes) : Prop :=
  absorbed block_size compress iv c msg ∧ counted w c msg ∧ md_len c = mdl ∧ bytes_ok msg.

Lemma fresh_in_use block_size w compress iv mdl d :
  0 < block_size → 0 <= w → lenZ d = block_size →
  in_use block_size w compress iv mdl {| h := iv; Nl := 0; Nh := 0; data := d; num := 0; md_len := mdl |} [].
Proof.
  intros Hbs Hw Hd. pose proof (Z.pow_pos_nonneg 2 w ltac:(lia) Hw).
  split; [|split; [|split; [done|constructor]]].
  - unfold absorbed. rewrite chain_short, rest_short by (rewrite ?lenZ_nil; lia). by rewrite takeZ_0.
  - unfold counted, fits. cbn [Nl Nh]. change (8 * lenZ []) with 0. rewrite Z.mod_0_l; [repeat split; lia|]. pose proof (Z.pow_pos_nonneg 2 (2 * w)). lia.
Qed.

Lemma update_in_use block_size compress f iv mdl c msg input :
  0 < block_size < 2 ^ 31 → BlockFunc block_size compress f → bytes_ok input → lenZ input < 2 ^ 64 →
  in_use block_size 32 compress iv mdl c msg →
  in_use block_size 32 compress iv mdl (crypto_md32_update f block_size c input) (msg ++ input).
Proof.
  intros Hbs Hf Hi Hl (Ha & Hc & Hm & Hok). split; [|split; [|split]].
  - by apply update_absorbed.
  - by apply update_counted.
  - unfold crypto_md32_update, md32_blocks. cbv zeta. repeat (case_match; try done).
  - by apply bytes_ok_app.
Qed.

(** A digest has its length and is made of bytes. *)
Lemma md_hash_spec block_size len_size len_field k compress iv mdl msg n :
  length (chain block_size compress iv (msg ++ padding block_size len_size (len_field (lenZ msg)) (lenZ msg))) = n →
  0 <= mdl <= Z.of_nat (n * k) →
  ∀ rev : bool,
  let store v := if rev then reverse (be_bytes k v) else be_bytes k v in
  let d := md_hash block_size len_size len_field store compress iv mdl msg in
  bytes_ok d ∧ lenZ d = mdl.
Proof.
  intros Hn Hm rev. cbv zeta. unfold md_hash. set (s := chain _ _ _ _) in *. clearbody s.
  set (store := λ v, if rev then reverse (be_bytes k v) else be_bytes k v).
  assert (∀ v, length (store v) = k ∧ bytes_ok (store v)) as Hst.
  { intros v. unfold store, bytes_ok. pose proof (be_bytes_ok k v).
    destruct rev; rewrite ?length_reverse, ?Forall_reverse, length_be_bytes; by split. }
  assert (bytes_ok (concat (map store s)) ∧ length (concat (map store s)) = (length s * k)%nat) as [Hok Hl].
  { clear Hn. induction s as [|v s [IH1 IH2]]; [by split; [constructor|]|]. cbn [map concat length]. split.
    - apply bytes_ok_app. split; [apply Hst|done].
    - rewrite length_app, (proj1 (Hst v)), IH2. lia. }
  split; [by apply Forall_take|]. apply lenZ_takeZ. unfold lenZ. rewrite Hl, Hn. lia.
Qed.
