(* ===== verification/Rounds.v ===== *)
(** The idioms of unrolled hash functions: registers whose names rotate from round to round instead of
    their values, and a message schedule of which a ring keeps the last sixteen words. *)
From S2P Require Import Prelude.

Open Scope Z_scope.

(** * Rotations, from crypto/internal.h *)

Definition CRYPTO_rotl_u32 (value shift : Z) : Z := u32 (value ≪ shift) .| (value ≫ ((- shift) .& 31)).
Definition CRYPTO_rotr_u32 (value shift : Z) : Z := (value ≫ shift) .| u32 (value ≪ ((- shift) .& 31)).
Definition CRYPTO_rotr_u64 (value shift : Z) : Z := (value ≫ shift) .| u64 (value ≪ ((- shift) .& 63)).

(** The last [n] bits to the front. *)
Definition rotr (w n x : Z) : Z := x mod 2 ^ n * 2 ^ (w - n) + x / 2 ^ n.

Lemma rotr_eq w n x :
  0 < n < w → fits w x → (x ≫ n) .| wrap w (x ≪ (w - n)) = rotr w n x.
Proof.
  intros Hn [H0 H1]. unfold rotr, wrap. rewrite Z.lor_comm, Z.shiftl_mul_pow2, shiftr_div by lia.
  assert (2 ^ w = 2 ^ n * 2 ^ (w - n)) as Hw by (rewrite <-Z.pow_add_r by lia; f_equal; lia).
  pose proof (Z.pow_pos_nonneg 2 n ltac:(lia) ltac:(lia)). pose proof (Z.pow_pos_nonneg 2 (w - n) ltac:(lia) ltac:(lia)).
  assert ((x * 2 ^ (w - n)) mod 2 ^ w = x mod 2 ^ n * 2 ^ (w - n)) as ->
    by (rewrite Hw; apply Z.mul_mod_distr_r; lia).
  rewrite lor_mul_add; [done|lia|]. split; [by apply Z.div_pos; lia|].
  apply Z.div_lt_upper_bound; lia.
Qed.

Lemma rotr_u32_eq n x : 0 < n < 32 → fits 32 x → CRYPTO_rotr_u32 x n = rotr 32 n x.
Proof.
  intros Hn Hx. unfold CRYPTO_rotr_u32. rewrite <-rotr_eq by done. do 3 f_equal.
  change 31 with (2 ^ 5 - 1). rewrite land_mask by lia. change (2 ^ 5) with 32. lia.
Qed.
Lemma rotr_u64_eq n x : 0 < n < 64 → fits 64 x → CRYPTO_rotr_u64 x n = rotr 64 n x.
Proof.
  intros Hn Hx. unfold CRYPTO_rotr_u64. rewrite <-rotr_eq by done. do 3 f_equal.
  change 63 with (2 ^ 6 - 1). rewrite land_mask by lia. change (2 ^ 6) with 64. lia.
Qed.
Lemma rotl_u32_eq n x : 0 < n < 32 → fits 32 x → CRYPTO_rotl_u32 x n = rotr 32 (32 - n) x.
Proof.
  intros Hn Hx. unfold CRYPTO_rotl_u32. rewrite <-rotr_eq by (done || lia). rewrite Z.lor_comm.
  assert ((- n) .& 31 = 32 - n) as -> by (change 31 with (2 ^ 5 - 1); rewrite land_mask by lia; change (2 ^ 5) with 32; lia).
  by replace (32 - (32 - n)) with n by lia.
Qed.

Lemma rotr_fits w n x : 0 < n < w → fits w x → fits w (rotr w n x).
Proof.
  intros Hn [H0 H1]. unfold rotr.
  assert (2 ^ w = 2 ^ n * 2 ^ (w - n)) as Hw by (rewrite <-Z.pow_add_r by lia; f_equal; lia).
  pose proof (Z.pow_pos_nonneg 2 n ltac:(lia) ltac:(lia)) as Ha. pose proof (Z.pow_pos_nonneg 2 (w - n) ltac:(lia) ltac:(lia)) as Hb.
  pose proof (Z.mod_pos_bound x (2 ^ n) Ha) as Hm. pose proof (Z.div_pos x (2 ^ n) H0 Ha) as Hd.
  assert (x / 2 ^ n < 2 ^ (w - n)) as Hd' by (apply Z.div_lt_upper_bound; lia).
  unfold fits. rewrite Hw. set (q := x / 2 ^ n) in *. set (r := x mod 2 ^ n) in *. clearbody q r. nia.
Qed.

(** * Registers *)

(** In round [i] of [n] registers the name in place [j] of the macro's arguments. *)
Definition arg (n i j : nat) : nat := Z.to_nat ((Z.of_nat j - Z.of_nat i) mod Z.of_nat n).

Lemma arg_lt n i j : (0 < n)%nat → (arg n i j < n)%nat.
Proof. intros Hn. unfold arg. pose proof (Z.mod_pos_bound (Z.of_nat j - Z.of_nat i) (Z.of_nat n)). lia. Qed.

Lemma arg_S n i j : arg n (S i) (S j) = arg n i j.
Proof. unfold arg. do 2 f_equal. lia. Qed.
Lemma arg_wrap n i j : S j = n → arg n (S i) 0 = arg n i j.
Proof.
  intros <-. unfold arg. f_equal.
  replace (Z.of_nat j - Z.of_nat i) with (Z.of_nat 0 - Z.of_nat (S i) + 1 * Z.of_nat (S j)) by lia.
  by rewrite Z.mod_add by lia.
Qed.
Lemma arg_0 n j : (j < n)%nat → arg n 0 j = j.
Proof. intros Hj. unfold arg. rewrite Z.mod_small; lia. Qed.

Lemma arg_multiple n k j : (j < n)%nat → arg n (k * n) j = j.
Proof.
  intros Hj. unfold arg.
  replace (Z.of_nat j - Z.of_nat (k * n)) with (Z.of_nat j + - Z.of_nat k * Z.of_nat n) by lia.
  rewrite Z.mod_add, Z.mod_small by lia. apply Nat2Z.id.
Qed.

Lemma arg_inj n i j k : (j < n)%nat → (k < n)%nat → arg n i j = arg n i k → j = k.
Proof.
  intros Hj Hk. unfold arg. set (a := Z.of_nat j - Z.of_nat i). set (b := Z.of_nat k - Z.of_nat i).
  pose proof (Z.mod_pos_bound a (Z.of_nat n) ltac:(lia)). pose proof (Z.mod_pos_bound b (Z.of_nat n) ltac:(lia)).
  intros E. apply Z2Nat.inj in E; [|lia|lia].
  pose proof (Z.div_mod a (Z.of_nat n) ltac:(lia)). pose proof (Z.div_mod b (Z.of_nat n) ltac:(lia)).
  assert (a / Z.of_nat n = b / Z.of_nat n) by nia. subst a b. lia.
Qed.

(** In round [i] the registers hold the values [v], the first under the name of the first argument. *)
Definition turned (n i : nat) (r v : list Z) : Prop :=
  length r = n ∧ ∀ j, (j < length v)%nat → r !!! arg n i j = v !!! j.

Lemma turned_start n v : length v = n → turned n 0 v v.
Proof. intros <-. split; [done|]. intros j Hj. by rewrite arg_0. Qed.

Lemma set_reg n i j k (r : list Z) (x : Z) :
  length r = n → (j < n)%nat → (k < n)%nat →
  (<[arg n i j := x]> r) !!! arg n i k = if (j =? k)%nat then x else r !!! arg n i k.
Proof.
  intros Hr Hj Hk. destruct (Nat.eqb_spec j k) as [->|Hne].
  - apply list_lookup_total_insert_eq. rewrite Hr. apply arg_lt. lia.
  - apply list_lookup_total_insert_ne. intros E. by apply arg_inj in E.
Qed.

(** * The message schedule *)

(** [X[(i) & 0x0f]] *)
Definition ring_index (i : nat) : nat := Z.to_nat (Z.of_nat i .& 0x0f).

Lemma ring_index_mod i : ring_index i = (i mod 16)%nat.
Proof.
  unfold ring_index. change 0x0f with (2 ^ 4 - 1). rewrite land_mask by lia. change (2 ^ 4) with (Z.of_nat 16).
  rewrite <-Nat2Z.inj_mod. apply Nat2Z.id.
Qed.

Section schedule.
(** A word from those before it. *)
Context (next : list Z → nat → Z).

Fixpoint words (n : nat) : list Z :=
  match n with O => [] | S n => let ws := words n in ws ++ [next ws n] end.

Lemma length_words n : length (words n) = n.
Proof. induction n as [|n IH]; [done|]. cbn [words]. rewrite length_app, IH. cbn [length]. lia. Qed.

Lemma words_lookup n t : (t < n)%nat → words n !!! t = next (words t) t.
Proof.
  induction n as [|n IH]; intros Ht; [lia|]. cbn [words]. destruct (decide (t = n)) as [->|Hne].
  - rewrite lookup_total_app_r by (rewrite length_words; lia). by rewrite length_words, Nat.sub_diag.
  - rewrite lookup_total_app_l by (rewrite length_words; lia). apply IH. lia.
Qed.

Lemma words_prefix n k t : (t < n)%nat → (t < k)%nat → words n !!! t = words k !!! t.
Proof. intros Hn Hk. by rewrite !words_lookup. Qed.

Definition in_ring (X : list Z) (i : nat) : Prop :=
  length X = 16%nat ∧ ∀ t, (t < i <= t + 16)%nat → X !!! (t mod 16)%nat = words i !!! t.

Lemma ring_start X : length X = 16%nat → in_ring X 0.
Proof. intros HX. split; [done|lia]. Qed.

Lemma ring_lookup X i k d :
  in_ring X i → (16 <= i)%nat → (0 < d <= 16)%nat → (k + d = 16)%nat →
  X !!! ring_index (i + k) = words i !!! (i - d)%nat.
Proof.
  intros [_ H] Hi Hd Hk. rewrite ring_index_mod, <-H by lia. f_equal.
  replace (i + k)%nat with (i - d + 1 * 16)%nat by lia. by rewrite Nat.Div0.mod_add.
Qed.

Lemma ring_set X i x :
  in_ring X i → x = next (words i) i → in_ring (<[ring_index i := x]> X) (S i).
Proof.
  intros [Hl H] ->. split; [by rewrite length_insert|]. intros t Ht. rewrite ring_index_mod.
  destruct (decide (t = i)) as [->|Hne].
  - rewrite words_lookup by lia. apply list_lookup_total_insert_eq. rewrite Hl. by apply Nat.mod_upper_bound.
  - rewrite list_lookup_total_insert_ne.
    + rewrite H by lia. apply words_prefix; lia.
    + intros E. pose proof (Nat.div_mod_eq i 16). pose proof (Nat.div_mod_eq t 16). lia.
Qed.
End schedule.
