(* ===== verification/MdRound.v ===== *)
(** What MD4 and MD5 share: four registers whose names rotate, little-endian words, and the way from
    the code's block function to a digest. *)
From S2P Require Import Prelude Md32 Rounds.

Open Scope Z_scope.

(** [CRYPTO_load_u32_le] of the [i]-th word at [data]. *)
Definition load_word_le (data : bytes) (i : nat) : Z :=
  be_value (reverse (takeZ 4 (dropZ (4 * Z.of_nat i) data))).

Definition md_ok (v : list Z) : Prop := length v = 4%nat ∧ Forall (fits 32) v.

Lemma load_word_le_take data t : (t < 16)%nat → load_word_le (takeZ 64 data) t = load_word_le data t.
Proof.
  intros Ht. unfold load_word_le, takeZ, dropZ. do 2 f_equal. rewrite skipn_firstn_comm, take_take. f_equal. lia.
Qed.

(** A step gives the first register a new value. *)
Lemma step_turned i r (a b c d x : Z) :
  turned 4 i r [a; b; c; d] → turned 4 (S i) (<[arg 4 i 0 := x]> r) [d; x; b; c].
Proof.
  intros [Hr Ht]. split; [by rewrite length_insert|]. intros j Hj. cbn [length] in Hj. destruct j as [|j].
  - rewrite (arg_wrap 4 i 3), (set_reg 4) by (done || lia). exact (Ht 3%nat ltac:(cbn; lia)).
  - rewrite arg_S, (set_reg 4) by (done || lia). assert (j < 4)%nat as Hj' by lia.
    do 3 (destruct j as [|j]; [cbn [Nat.eqb]; first [done|exact (Ht _ Hj')]|]). lia.
Qed.

(** The value a register gets, read and written several times. *)
Lemma set_again i (r : list Z) (x y : Z) :
  length r = 4%nat →
  (<[arg 4 i 0 := x]> r) !!! arg 4 i 0 = x ∧ <[arg 4 i 0 := y]> (<[arg 4 i 0 := x]> r) = <[arg 4 i 0 := y]> r ∧
  ∀ k, (0 < k < 4)%nat → (<[arg 4 i 0 := x]> r) !!! arg 4 i k = r !!! arg 4 i k.
Proof.
  intros Hr. split; [by rewrite (set_reg 4) by (done || lia)|]. split; [apply list_insert_insert_eq|].
  intros k Hk. rewrite (set_reg 4) by (done || lia). by rewrite (proj2 (Nat.eqb_neq 0 k)) by lia.
Qed.

Section steps.
(** The value of step [i] on the words [X]. *)
Context (value : list Z → list Z → nat → Z) (Hvalue : ∀ X v i, fits 32 (value X v i)).

Definition spec_step (X v : list Z) (i : nat) : list Z :=
  match v with [a; b; c; d] => [d; value X v i; b; c] | _ => v end.

(** [n] steps on the sixteen words of a block, then the addition of the state. *)
Definition spec_compress (n : nat) (hs : list Z) (block : bytes) : list Z :=
  let X := map (load_word_le block) (seq 0 16) in
  zip_with (λ x y, u32 (x + y)) hs (fold_left (spec_step X) (seq 0 n) hs).

Lemma spec_step_ok X v i : md_ok v → md_ok (spec_step X v i).
Proof.
  intros [Hl Hv]. do 5 (destruct v as [|? v]; try done). cbn [spec_step]. split; [done|].
  repeat match goal with H : Forall _ (_ :: _) |- _ => apply Forall_cons in H as [??] end.
  by repeat (apply Forall_cons; split).
Qed.

(** The code's step writes the value to the register in the first place. *)
Definition step_ok (X : list Z) (step : list Z → nat → list Z) (lo n : nat) : Prop :=
  ∀ i r a b c d, (lo <= i < lo + n)%nat → turned 4 i r [a; b; c; d] → md_ok [a; b; c; d] →
    step r i = <[arg 4 i 0 := value X [a; b; c; d] i]> r.

Lemma steps_turned X step n lo r v :
  step_ok X step lo n → turned 4 lo r v → md_ok v →
  turned 4 (lo + n) (fold_left step (seq lo n) r) (fold_left (spec_step X) (seq lo n) v) ∧
  md_ok (fold_left (spec_step X) (seq lo n) v).
Proof.
  revert lo r v. induction n as [|n IH]; intros lo r v Hs Ht Hv.
  - by rewrite Nat.add_0_r.
  - cbn [seq fold_left]. rewrite Nat.add_succ_r, <-Nat.add_succ_l. apply IH.
    + intros i r' a b c d Hi Hr Hok. apply (Hs i r' a b c d); [lia|done..].
    + pose proof Hv as [Hl _]. do 5 (destruct v as [|? v]; try done). rewrite (Hs lo r _ _ _ _ ltac:(lia) Ht Hv).
      exact (step_turned lo r _ _ _ _ _ Ht).
    + by apply spec_step_ok.
Qed.

Lemma spec_compress_ok n s block : md_ok s → md_ok (spec_compress n s block).
Proof.
  intros Hs. unfold spec_compress. set (X := map _ _).
  assert (∀ k lo v, md_ok v → md_ok (fold_left (spec_step X) (seq lo k) v)) as Hfold.
  { induction k as [|k IH]; intros lo v Hv; [done|]. cbn [seq fold_left]. by apply IH, spec_step_ok. }
  destruct (Hfold n 0%nat s Hs) as [Hv _]. destruct Hs as [Hs _]. split.
  - by rewrite length_zip_with, Hs, Hv.
  - generalize (fold_left (spec_step X) (seq 0 n) s) as v'. clear Hs Hv Hfold.
    induction s as [|x s IH]; intros [|y v']; cbn [zip_with]; try by constructor.
    constructor; [apply wrap_fits; lia|apply IH].
Qed.

(** ** From a block to a digest *)

Context (n : nat) (turn : list Z → bytes → list Z) (f : block_func) {Hf : BlockFunc 64 turn f}.
Context (Hturn : ∀ s block, md_ok s → turn s block = spec_compress n s block) (iv : list Z) (Hiv : md_ok iv).

(** RFC 1320 and RFC 1321: sixteen bytes, all in little-endian order. *)
Definition md_digest : bytes → bytes :=
  md_hash 64 8 (length_field false 8) CRYPTO_store_u32_le (spec_compress n) iv 16.

Definition md_seen : md_ctx → bytes → Prop := in_use 64 32 turn iv 0.

Lemma md_update_seen c msg input :
  md_seen c msg → bytes_ok input → lenZ input < 2 ^ 64 → md_seen (crypto_md32_update f 64 c input) (msg ++ input).
Proof. intros. by apply update_in_use. Qed.

Lemma md_chunks chunks c msg :
  md_seen c msg → Forall (λ x, bytes_ok x ∧ lenZ x < 2 ^ 64) chunks →
  md_seen (fold_left (crypto_md32_update f 64) chunks c) (msg ++ concat chunks).
Proof.
  intros Hc H. revert c msg Hc. induction H as [|x chunks [Hx Hl] _ IH]; intros c msg Hc; cbn [fold_left concat].
  - by rewrite app_nil_r.
  - rewrite app_assoc. by apply IH, md_update_seen.
Qed.

Lemma md_chain s msg :
  md_ok s → bytes_ok msg → chain 64 turn s msg = chain 64 (spec_compress n) s msg ∧ md_ok (chain 64 turn s msg).
Proof.
  intros Hs Hm. apply (chain_ext 64 turn (spec_compress n) md_ok); [done| |done..].
  intros s' b Hs' _ _. rewrite Hturn by done. split; [done|]. by apply spec_compress_ok.
Qed.

Lemma md_digest_spec msg : bytes_ok msg → bytes_ok (md_digest msg) ∧ lenZ (md_digest msg) = 16.
Proof.
  intros Hok. destruct (md_chain iv (msg ++ padding 64 8 (length_field false 8 (lenZ msg)) (lenZ msg)) Hiv) as [E [Hl _]].
  { apply bytes_ok_app. split; [done|]. apply padding_ok, length_field_ok. }
  rewrite E in Hl. refine (md_hash_spec 64 8 (length_field false 8) 4 _ _ 16 msg 4 Hl _ true). lia.
Qed.

Lemma md_final_seen c msg :
  md_seen c msg →
  let c' := crypto_md32_final f 64 c false in
  CRYPTO_store_u32_le (h c' !!! 0%nat) ++ CRYPTO_store_u32_le (h c' !!! 1%nat) ++
    CRYPTO_store_u32_le (h c' !!! 2%nat) ++ CRYPTO_store_u32_le (h c' !!! 3%nat) = md_digest msg.
Proof.
  intros (Ha & Hc & _ & Hok). cbv zeta. rewrite (md32_final_spec 64 ltac:(lia) turn f iv c msg false Ha Hc).
  unfold md_digest, md_hash. set (p := padding _ _ _ _).
  destruct (md_chain iv (msg ++ p) Hiv) as [E [Hl _]].
  { apply bytes_ok_app. split; [done|]. apply padding_ok, length_field_ok. }
  rewrite <-E. set (s := chain 64 turn iv (msg ++ p)) in *. clearbody s.
  do 5 (destruct s as [|? s]; try done).
Qed.
End steps.
