(* ===== verification/Md4.v ===== *)
(** MD4: src/HolyWater-Test/Pods/BoringSSL-GRPC/src/crypto/fipsmodule/md4/md4.c, in the variant written
    in C, against RFC 1320. *)
From S2P Require Import Prelude ConstTime Md32 Rounds MdRound.

Open Scope Z_scope.

(** * The code *)

Definition MD4_CBLOCK : Z := 64.
Definition MD4_DIGEST_LENGTH : Z := 16.

(** [MD4_CTX] has no field [md_len]; it is 0 here. *)
Definition MD4_Init : md_ctx :=
  {| h := [0x67452301; 0xefcdab89; 0x98badcfe; 0x10325476];
     Nl := 0; Nh := 0; data := replicate 64 0; num := 0; md_len := 0 |}.

Definition F (b c d : Z) : Z := ((c .^ d) .& b) .^ d.
Definition G (b c d : Z) : Z := (b .& c) .| (b .& d) .| (c .& d).
Definition H (b c d : Z) : Z := b .^ c .^ d.

(** The registers A to D are [r]; [k] is the index of a word. *)
Definition R0 (X r : list Z) (i k : nat) (s t : Z) : list Z :=
  let a := arg 4 i 0 in let b := arg 4 i 1 in let c := arg 4 i 2 in let d := arg 4 i 3 in
  let r := <[a := u32 (r !!! a + (X !!! k + t + F (r !!! b) (r !!! c) (r !!! d)))]> r in
  <[a := CRYPTO_rotl_u32 (r !!! a) s]> r.
Definition R1 (X r : list Z) (i k : nat) (s t : Z) : list Z :=
  let a := arg 4 i 0 in let b := arg 4 i 1 in let c := arg 4 i 2 in let d := arg 4 i 3 in
  let r := <[a := u32 (r !!! a + (X !!! k + t + G (r !!! b) (r !!! c) (r !!! d)))]> r in
  <[a := CRYPTO_rotl_u32 (r !!! a) s]> r.
Definition R2 (X r : list Z) (i k : nat) (s t : Z) : list Z :=
  let a := arg 4 i 0 in let b := arg 4 i 1 in let c := arg 4 i 2 in let d := arg 4 i 3 in
  let r := <[a := u32 (r !!! a + (X !!! k + t + H (r !!! b) (r !!! c) (r !!! d)))]> r in
  <[a := CRYPTO_rotl_u32 (r !!! a) s]> r.

(** The arguments [k], [s] and [t] of the calls, in order. *)
Definition md4_round0 : list (nat * Z * Z) := [
    (0%nat, 3, 0); (1%nat, 7, 0); (2%nat, 11, 0); (3%nat, 19, 0);
    (4%nat, 3, 0); (5%nat, 7, 0); (6%nat, 11, 0); (7%nat, 19, 0);
    (8%nat, 3, 0); (9%nat, 7, 0); (10%nat, 11, 0); (11%nat, 19, 0);
    (12%nat, 3, 0); (13%nat, 7, 0); (14%nat, 11, 0); (15%nat, 19, 0)].
Definition md4_round1 : list (nat * Z * Z) := [
    (0%nat, 3, 0x5a827999); (4%nat, 5, 0x5a827999); (8%nat, 9, 0x5a827999); (12%nat, 13, 0x5a827999);
    (1%nat, 3, 0x5a827999); (5%nat, 5, 0x5a827999); (9%nat, 9, 0x5a827999); (13%nat, 13, 0x5a827999);
    (2%nat, 3, 0x5a827999); (6%nat, 5, 0x5a827999); (10%nat, 9, 0x5a827999); (14%nat, 13, 0x5a827999);
    (3%nat, 3, 0x5a827999); (7%nat, 5, 0x5a827999); (11%nat, 9, 0x5a827999); (15%nat, 13, 0x5a827999)].
Definition md4_round2 : list (nat * Z * Z) := [
    (0%nat, 3, 0x6ed9eba1); (8%nat, 9, 0x6ed9eba1); (4%nat, 11, 0x6ed9eba1); (12%nat, 15, 0x6ed9eba1);
    (2%nat, 3, 0x6ed9eba1); (10%nat, 9, 0x6ed9eba1); (6%nat, 11, 0x6ed9eba1); (14%nat, 15, 0x6ed9eba1);
    (1%nat, 3, 0x6ed9eba1); (9%nat, 9, 0x6ed9eba1); (5%nat, 11, 0x6ed9eba1); (13%nat, 15, 0x6ed9eba1);
    (3%nat, 3, 0x6ed9eba1); (11%nat, 9, 0x6ed9eba1); (7%nat, 11, 0x6ed9eba1); (15%nat, 15, 0x6ed9eba1)].

Definition md4_call (R : list Z → list Z → nat → nat → Z → Z → list Z) (X : list Z) (args : list (nat * Z * Z)) (lo : nat)
    (r : list Z) (i : nat) : list Z :=
  let '(k, s, t) := nth (i - lo) args (0%nat, 0, 0) in R X r i k s t.

(** One turn of the loop; the code loads the words while it does the first calls. *)
Definition md4_turn (state : list Z) (data : bytes) : list Z :=
  let r := map (λ j, state !!! j) (seq 0 4) in
  let X := map (load_word_le data) (seq 0 16) in
  let r := fold_left (md4_call R0 X md4_round0 0) (seq 0 16) r in
  let r := fold_left (md4_call R1 X md4_round1 16) (seq 16 16) r in
  let r := fold_left (md4_call R2 X md4_round2 32) (seq 32 16) r in
  map (λ j, u32 (state !!! j + r !!! j)) (seq 0 4).

Fixpoint md4_loop (num : nat) (state : list Z) (data : bytes) : list Z :=
  match num with
  | O => state
  | S num => md4_loop num (md4_turn state data) (dropZ 64 data)
  end.
Definition md4_block_data_order : block_func := λ state data num, md4_loop (Z.to_nat num) state data.

Definition MD4_Transform (c : md_ctx) (data' : bytes) : md_ctx :=
  set_block c (md4_block_data_order (h c) data' 1) (data c) (num c).
Definition MD4_Update (c : md_ctx) (input : bytes) : md_ctx :=
  crypto_md32_update md4_block_data_order MD4_CBLOCK c input.
Definition MD4_Final (c : md_ctx) : md_ctx * bytes :=
  let c := crypto_md32_final md4_block_data_order MD4_CBLOCK c false in
  (c, CRYPTO_store_u32_le (h c !!! 0%nat) ++ CRYPTO_store_u32_le (h c !!! 1%nat) ++
      CRYPTO_store_u32_le (h c !!! 2%nat) ++ CRYPTO_store_u32_le (h c !!! 3%nat)).
Definition MD4 (data : bytes) : bytes := (MD4_Final (MD4_Update MD4_Init data)).2.

(** * RFC 1320 *)

Definition rfc_f (i : nat) (x y z : Z) : Z :=
  if (i <? 16)%nat then (x .& y) .| (u32 (Z.lnot x) .& z)
  else if (i <? 32)%nat then (x .& y) .| (x .& z) .| (y .& z)
  else x .^ y .^ z.
(** The square roots of 2 and 3. *)
Definition rfc_T (i : nat) : Z :=
  if (i <? 16)%nat then 0 else if (i <? 32)%nat then Z.sqrt (2 * 2 ^ 60) else Z.sqrt (3 * 2 ^ 60).
(** The words by rows, by columns, and in the order of the reversed bits. *)
Definition rfc_k (i : nat) : nat :=
  (if i <? 16 then i else if i <? 32 then 4 * (i mod 4) + i mod 16 / 4
   else nth (i mod 16) [0; 8; 4; 12; 2; 10; 6; 14; 1; 9; 5; 13; 3; 11; 7; 15] 0)%nat.
Definition rfc_s (i : nat) : Z :=
  nth (i mod 4) (if (i <? 16)%nat then [3; 7; 11; 19] else if (i <? 32)%nat then [3; 5; 9; 13] else [3; 9; 11; 15]) 0.

(** [a = (a + F(b,c,d) + X[k] + T) <<< s] *)
Definition rfc_value (X v : list Z) (i : nat) : Z :=
  match v with
  | [a; b; c; d] => rotr 32 (32 - rfc_s i) (u32 (a + rfc_f i b c d + X !!! rfc_k i + rfc_T i))
  | _ => 0
  end.

Definition md4_iv : list Z := [0x67452301; 0xefcdab89; 0x98badcfe; 0x10325476].
Definition rfc_md4 : bytes → bytes := md_digest rfc_value 48 md4_iv.

Example md4_abc :
  MD4 [97; 98; 99] = [0xa4; 0x48; 0x01; 0x7a; 0xaf; 0x21; 0xd8; 0x52; 0x5f; 0xc1; 0x0a; 0xe8; 0x7a; 0xa6; 0x72; 0x9d] ∧
  rfc_md4 [97; 98; 99] = MD4 [97; 98; 99].
Proof. split; vm_compute; reflexivity. Qed.

(** * The code computes it *)

Lemma md4_args (args : list (nat * Z * Z)) lo i :
  (args, lo) ∈ [(md4_round0, 0%nat); (md4_round1, 16%nat); (md4_round2, 32%nat)] →
  (lo <= i < lo + 16)%nat → nth (i - lo) args (0%nat, 0, 0) = (rfc_k i, rfc_s i, rfc_T i).
Proof.
  intros Hin Hi.
  assert (forallb (λ '(args, lo), forallb (λ i, bool_decide (nth (i - lo) args (0%nat, 0, 0) = (rfc_k i, rfc_s i, rfc_T i)))
    (seq lo 16)) [(md4_round0, 0%nat); (md4_round1, 16%nat); (md4_round2, 32%nat)] = true) as Hall
    by (vm_compute; reflexivity).
  rewrite forallb_forall in Hall. apply list_elem_of_In, Hall in Hin. cbv beta in Hin.
  rewrite forallb_forall in Hin. eapply bool_decide_eq_true_1, Hin, in_seq. lia.
Qed.

Lemma md4_rfc_s_range i : 0 < rfc_s i < 32.
Proof.
  unfold rfc_s. pose proof (Nat.mod_upper_bound i 4 ltac:(lia)) as Hm. set (m := (i mod 4)%nat) in *. clearbody m.
  destruct (i <? 16)%nat, (i <? 32)%nat; do 4 (destruct m as [|m]; [cbn; lia|]); lia.
Qed.

Lemma md4_rfc_value_fits X v i : fits 32 (rfc_value X v i).
Proof.
  unfold rfc_value. pose proof (md4_rfc_s_range i).
  do 5 (destruct v as [|? v]; try (split; [done|decide_now])). apply rotr_fits; [lia|]. apply wrap_fits. lia.
Qed.

(** All the macros have this form. *)
Lemma md4_body (f : Z → Z → Z → Z) X r i k s t a b c d :
  turned 4 i r [a; b; c; d] → (i < 48)%nat → (k, s, t) = (rfc_k i, rfc_s i, rfc_T i) → f b c d = rfc_f i b c d →
  (let a := arg 4 i 0 in let b := arg 4 i 1 in let c := arg 4 i 2 in let d := arg 4 i 3 in
   let r := <[a := u32 (r !!! a + (X !!! k + t + f (r !!! b) (r !!! c) (r !!! d)))]> r in
   <[a := CRYPTO_rotl_u32 (r !!! a) s]> r) = <[arg 4 i 0 := rfc_value X [a; b; c; d] i]> r.
Proof.
  intros [Hr Ht] Hi [= -> -> ->] Hf. cbv zeta.
  assert (r !!! arg 4 i 0 = a) as -> by exact (Ht 0%nat ltac:(cbn; lia)).
  assert (r !!! arg 4 i 1 = b) as -> by exact (Ht 1%nat ltac:(cbn; lia)).
  assert (r !!! arg 4 i 2 = c) as -> by exact (Ht 2%nat ltac:(cbn; lia)).
  assert (r !!! arg 4 i 3 = d) as -> by exact (Ht 3%nat ltac:(cbn; lia)).
  set (x := u32 (a + _)). destruct (set_again i r x (CRYPTO_rotl_u32 x (rfc_s i)) Hr) as (-> & -> & _).
  f_equal. unfold rfc_value. rewrite rotl_u32_eq by first [apply md4_rfc_s_range|apply wrap_fits; lia].
  rewrite <-Hf. f_equal. unfold x. f_equal. ring.
Qed.

Lemma md4_F_rfc b c d : fits 32 d → F b c d = (b .& c) .| (u32 (Z.lnot b) .& d).
Proof.
  intros Hd. apply fits_testbit in Hd as [_ Hd]; [|lia]. apply Z.bits_inj'. intros n Hn. unfold F.
  rewrite !Z.lxor_spec, Z.lor_spec, !Z.land_spec, Z.lxor_spec, testbit_wrap, Z.lnot_spec by lia.
  destruct (Z.ltb_spec n 32); [|rewrite Hd by done]; by destruct (Z.testbit b n), (Z.testbit c n), (Z.testbit d n).
Qed.
Lemma md4_calls_ok X :
  step_ok rfc_value X (md4_call R0 X md4_round0 0) 0 16 ∧ step_ok rfc_value X (md4_call R1 X md4_round1 16) 16 16 ∧
  step_ok rfc_value X (md4_call R2 X md4_round2 32) 32 16.
Proof.
  split; [|split]; intros i r a b c d Hi Ht [_ Hv]; unfold md4_call;
    repeat match goal with H : Forall _ (_ :: _) |- _ => apply Forall_cons in H as [??] end;
    rewrite md4_args by (set_solver || lia);
    [apply (md4_body F)|apply (md4_body G)|apply (md4_body H)]; try (done || lia); unfold rfc_f;
    destruct (Nat.ltb_spec i 16); try lia; destruct (Nat.ltb_spec i 32); try lia.
  - by apply md4_F_rfc.
  - done.
  - done.
Qed.

Lemma md4_rounds X v :
  fold_left (spec_step rfc_value X) (seq 32 16) (fold_left (spec_step rfc_value X) (seq 16 16)
    (fold_left (spec_step rfc_value X) (seq 0 16) v)) = fold_left (spec_step rfc_value X) (seq 0 48) v.
Proof. by rewrite <-!fold_left_app. Qed.

Lemma md4_turn_spec s block : md_ok s → md4_turn s block = spec_compress rfc_value 48 s block.
Proof.
  intros Hs. unfold md4_turn, spec_compress. set (X := map (load_word_le block) (seq 0 16)). cbv zeta.
  assert (turned 4 0 (map (λ j, s !!! j) (seq 0 4)) s) as H0.
  { destruct Hs as [Hl _]. do 5 (destruct s as [|? s]; try done). by apply turned_start. }
  destruct (md4_calls_ok X) as (C0 & C1 & C2).
  destruct (steps_turned rfc_value md4_rfc_value_fits X _ 16 0 _ _ C0 H0 Hs) as [H1 Hs1].
  destruct (steps_turned rfc_value md4_rfc_value_fits X _ 16 16 _ _ C1 H1 Hs1) as [H2 Hs2].
  destruct (steps_turned rfc_value md4_rfc_value_fits X _ 16 32 _ _ C2 H2 Hs2) as [H4 [Hl _]].
  rewrite md4_rounds in H4, Hl. change (32 + 16)%nat with 48%nat in H4. destruct H4 as [_ Ht].
  set (r := fold_left (md4_call R2 X md4_round2 32) _ _) in *. set (v := fold_left _ (seq 0 48) s) in *. clearbody r v.
  destruct Hs as [Hs _]. do 5 (destruct s as [|? s]; try done). do 5 (destruct v as [|? v]; try done).
  cbn [map seq zip_with].
  change (r !!! 0%nat) with (r !!! arg 4 48 0). change (r !!! 1%nat) with (r !!! arg 4 48 1).
  change (r !!! 2%nat) with (r !!! arg 4 48 2). change (r !!! 3%nat) with (r !!! arg 4 48 3).
  by rewrite !Ht by (cbn; lia).
Qed.

Lemma md4_turn_take s block : md4_turn s block = md4_turn s (takeZ 64 block).
Proof.
  unfold md4_turn. replace (map (load_word_le (takeZ 64 block)) (seq 0 16)) with (map (load_word_le block) (seq 0 16)); [done|].
  apply map_ext_in. intros t Ht. apply in_seq in Ht. symmetry. apply load_word_le_take. lia.
Qed.

#[export] Instance md4_blocks : BlockFunc 64 md4_turn md4_block_data_order.
Proof.
  intros s data n _ _ _. unfold md4_block_data_order. generalize (Z.to_nat n) as k. intros k. revert s data.
  induction k as [|k IH]; intros s data; [done|]. cbn [md4_loop fold_blocks]. by rewrite (md4_turn_take s data), IH.
Qed.

Lemma md4_iv_ok : md_ok md4_iv.
Proof. apply (bool_decide_unpack (length md4_iv = 4%nat ∧ Forall (fits 32) md4_iv)). vm_compute. exact Logic.I. Qed.

Definition md4_seen : md_ctx → bytes → Prop := md_seen md4_turn md4_iv.

Lemma md4_init_seen : md4_seen MD4_Init [].
Proof. by apply fresh_in_use. Qed.
Lemma md4_final c msg : md4_seen c msg → (MD4_Final c).2 = rfc_md4 msg.
Proof. apply (md_final_seen rfc_value md4_rfc_value_fits 48 md4_turn _ md4_turn_spec md4_iv md4_iv_ok). Qed.

Lemma md4_hash_spec msg : bytes_ok msg → bytes_ok (rfc_md4 msg) ∧ lenZ (rfc_md4 msg) = 16.
Proof. apply (md_digest_spec rfc_value md4_rfc_value_fits 48 md4_turn md4_turn_spec md4_iv md4_iv_ok). Qed.

(** MD4 of a message given in pieces of any sizes is the digest RFC 1320 defines for the whole
    message. *)
Theorem md4_stream chunks :
  Forall (λ x, bytes_ok x ∧ lenZ x < 2 ^ 64) chunks →
  (MD4_Final (fold_left MD4_Update chunks MD4_Init)).2 = rfc_md4 (concat chunks).
Proof. intros H. apply md4_final. by apply (md_chunks md4_turn _ md4_iv _ _ [] md4_init_seen). Qed.

Lemma md4_stream_witness :
  (MD4_Final (fold_left MD4_Update [[97]; [98; 99]; []] MD4_Init)).2 = rfc_md4 (concat [[97]; [98; 99]; []]).
Proof. apply (md4_stream [[97]; [98; 99]; []]). apply (bool_decide_unpack _). vm_compute. exact Logic.I. Defined.
