(* ===== verification/Md5.v ===== *)
(** MD5: src/HolyWater-Test/Pods/BoringSSL-GRPC/src/crypto/fipsmodule/md5/md5.c, in the variant written
    in C, against RFC 1321. *)
From S2P Require Import Prelude ConstTime Md32 Rounds MdRound.

Open Scope Z_scope.

(** * The code *)

Definition MD5_CBLOCK : Z := 64.
Definition MD5_DIGEST_LENGTH : Z := 16.

(** [MD5_CTX] has no field [md_len]; it is 0 here. *)
Definition MD5_Init : md_ctx :=
  {| h := [0x67452301; 0xefcdab89; 0x98badcfe; 0x10325476];
     Nl := 0; Nh := 0; data := replicate 64 0; num := 0; md_len := 0 |}.

Definition F (b c d : Z) : Z := ((c .^ d) .& b) .^ d.
Definition G (b c d : Z) : Z := ((b .^ c) .& d) .^ c.
Definition H (b c d : Z) : Z := b .^ c .^ d.
Definition I (b c d : Z) : Z := (u32 (Z.lnot d) .| b) .^ c.

(** The registers A to D are [r]; [k] is the index of a word. *)
Definition R0 (X r : list Z) (i k : nat) (s t : Z) : list Z :=
  let a := arg 4 i 0 in let b := arg 4 i 1 in let c := arg 4 i 2 in let d := arg 4 i 3 in
  let r := <[a := u32 (r !!! a + (X !!! k + t + F (r !!! b) (r !!! c) (r !!! d)))]> r in
  let r := <[a := CRYPTO_rotl_u32 (r !!! a) s]> r in
  <[a := u32 (r !!! a + r !!! b)]> r.
Definition R1 (X r : list Z) (i k : nat) (s t : Z) : list Z :=
  let a := arg 4 i 0 in let b := arg 4 i 1 in let c := arg 4 i 2 in let d := arg 4 i 3 in
  let r := <[a := u32 (r !!! a + (X !!! k + t + G (r !!! b) (r !!! c) (r !!! d)))]> r in
  let r := <[a := CRYPTO_rotl_u32 (r !!! a) s]> r in
  <[a := u32 (r !!! a + r !!! b)]> r.
Definition R2 (X r : list Z) (i k : nat) (s t : Z) : list Z :=
  let a := arg 4 i 0 in let b := arg 4 i 1 in let c := arg 4 i 2 in let d := arg 4 i 3 in
  let r := <[a := u32 (r !!! a + (X !!! k + t + H (r !!! b) (r !!! c) (r !!! d)))]> r in
  let r := <[a := CRYPTO_rotl_u32 (r !!! a) s]> r in
  <[a := u32 (r !!! a + r !!! b)]> r.
Definition R3 (X r : list Z) (i k : nat) (s t : Z) : list Z :=
  let a := arg 4 i 0 in let b := arg 4 i 1 in let c := arg 4 i 2 in let d := arg 4 i 3 in
  let r := <[a := u32 (r !!! a + (X !!! k + t + I (r !!! b) (r !!! c) (r !!! d)))]> r in
  let r := <[a := CRYPTO_rotl_u32 (r !!! a) s]> r in
  <[a := u32 (r !!! a + r !!! b)]> r.

(** The arguments [k], [s] and [t] of the calls, in order. *)
Definition md5_round0 : list (nat * Z * Z) := [
    (0%nat, 7, 0xd76aa478); (1%nat, 12, 0xe8c7b756); (2%nat, 17, 0x242070db); (3%nat, 22, 0xc1bdceee);
    (4%nat, 7, 0xf57c0faf); (5%nat, 12, 0x4787c62a); (6%nat, 17, 0xa8304613); (7%nat, 22, 0xfd469501);
    (8%nat, 7, 0x698098d8); (9%nat, 12, 0x8b44f7af); (10%nat, 17, 0xffff5bb1); (11%nat, 22, 0x895cd7be);
    (12%nat, 7, 0x6b901122); (13%nat, 12, 0xfd987193); (14%nat, 17, 0xa679438e); (15%nat, 22, 0x49b40821)].
Definition md5_round1 : list (nat * Z * Z) := [
    (1%nat, 5, 0xf61e2562); (6%nat, 9, 0xc040b340); (11%nat, 14, 0x265e5a51); (0%nat, 20, 0xe9b6c7aa);
    (5%nat, 5, 0xd62f105d); (10%nat, 9, 0x02441453); (15%nat, 14, 0xd8a1e681); (4%nat, 20, 0xe7d3fbc8);
    (9%nat, 5, 0x21e1cde6); (14%nat, 9, 0xc33707d6); (3%nat, 14, 0xf4d50d87); (8%nat, 20, 0x455a14ed);
    (13%nat, 5, 0xa9e3e905); (2%nat, 9, 0xfcefa3f8); (7%nat, 14, 0x676f02d9); (12%nat, 20, 0x8d2a4c8a)].
Definition md5_round2 : list (nat * Z * Z) := [
    (5%nat, 4, 0xfffa3942); (8%nat, 11, 0x8771f681); (11%nat, 16, 0x6d9d6122); (14%nat, 23, 0xfde5380c);
    (1%nat, 4, 0xa4beea44); (4%nat, 11, 0x4bdecfa9); (7%nat, 16, 0xf6bb4b60); (10%nat, 23, 0xbebfbc70);
    (13%nat, 4, 0x289b7ec6); (0%nat, 11, 0xeaa127fa); (3%nat, 16, 0xd4ef3085); (6%nat, 23, 0x04881d05);
    (9%nat, 4, 0xd9d4d039); (12%nat, 11, 0xe6db99e5); (15%nat, 16, 0x1fa27cf8); (2%nat, 23, 0xc4ac5665)].
Definition md5_round3 : list (nat * Z * Z) := [
    (0%nat, 6, 0xf4292244); (7%nat, 10, 0x432aff97); (14%nat, 15, 0xab9423a7); (5%nat, 21, 0xfc93a039);
    (12%nat, 6, 0x655b59c3); (3%nat, 10, 0x8f0ccc92); (10%nat, 15, 0xffeff47d); (1%nat, 21, 0x85845dd1);
    (8%nat, 6, 0x6fa87e4f); (15%nat, 10, 0xfe2ce6e0); (6%nat, 15, 0xa3014314); (13%nat, 21, 0x4e0811a1);
    (4%nat, 6, 0xf7537e82); (11%nat, 10, 0xbd3af235); (2%nat, 15, 0x2ad7d2bb); (9%nat, 21, 0xeb86d391)].

Definition md5_call (R : list Z → list Z → nat → nat → Z → Z → list Z) (X : list Z) (args : list (nat * Z * Z)) (lo : nat)
    (r : list Z) (i : nat) : list Z :=
  let '(k, s, t) := nth (i - lo) args (0%nat, 0, 0) in R X r i k s t.

(** One turn of the loop; the code loads the words while it does the first calls. *)
Definition md5_turn (state : list Z) (data : bytes) : list Z :=
  let r := map (λ j, state !!! j) (seq 0 4) in
  let X := map (load_word_le data) (seq 0 16) in
  let r := fold_left (md5_call R0 X md5_round0 0) (seq 0 16) r in
  let r := fold_left (md5_call R1 X md5_round1 16) (seq 16 16) r in
  let r := fold_left (md5_call R2 X md5_round2 32) (seq 32 16) r in
  let r := fold_left (md5_call R3 X md5_round3 48) (seq 48 16) r in
  map (λ j, u32 (state !!! j + r !!! j)) (seq 0 4).

Fixpoint md5_loop (num : nat) (state : list Z) (data : bytes) : list Z :=
  match num with
  | O => state
  | S num => md5_loop num (md5_turn state data) (dropZ 64 data)
  end.
Definition md5_block_data_order : block_func := λ state data num, md5_loop (Z.to_nat num) state data.

Definition MD5_Transform (c : md_ctx) (data' : bytes) : md_ctx :=
  set_block c (md5_block_data_order (h c) data' 1) (data c) (num c).
Definition MD5_Update (c : md_ctx) (input : bytes) : md_ctx :=
  crypto_md32_update md5_block_data_order MD5_CBLOCK c input.
Definition MD5_Final (c : md_ctx) : md_ctx * bytes :=
  let c := crypto_md32_final md5_block_data_order MD5_CBLOCK c false in
  (c, CRYPTO_store_u32_le (h c !!! 0%nat) ++ CRYPTO_store_u32_le (h c !!! 1%nat) ++
      CRYPTO_store_u32_le (h c !!! 2%nat) ++ CRYPTO_store_u32_le (h c !!! 3%nat)).
Definition MD5 (data : bytes) : bytes := (MD5_Final (MD5_Update MD5_Init data)).2.

(** * RFC 1321 *)

(** Sine and cosine of 1 in fixed point, with [one] for 1, from their power series. *)
Definition one : Z := 2 ^ 96.
Fixpoint series (fuel : nat) (k term : Z) : Z :=
  match fuel with
  | O => 0
  | S fuel => term - series fuel (k + 2) (term / ((k + 1) * (k + 2)))
  end.

(** The sines of the next [n] angles, by the addition theorems. *)
Fixpoint sines (sin1 cos1 : Z) (n : nat) (s c : Z) : list Z :=
  match n with
  | O => []
  | S n =>
      let s' := (s * cos1 + c * sin1) / one in
      let c' := (c * cos1 - s * sin1) / one in
      s' :: sines sin1 cos1 n s' c'
  end.

(** The integer parts of [4294967296 * abs(sin(i))] for [i] from 1 to 64. *)
Definition rfc_table : list Z :=
  map (λ s, Z.abs s * 2 ^ 32 / one) (sines (series 20 1 one) (series 20 0 one) 64 0 one).
Definition rfc_T (i : nat) : Z := nth i rfc_table 0.

Definition rfc_f (i : nat) (x y z : Z) : Z :=
  if (i <? 16)%nat then (x .& y) .| (u32 (Z.lnot x) .& z)
  else if (i <? 32)%nat then (x .& z) .| (y .& u32 (Z.lnot z))
  else if (i <? 48)%nat then x .^ y .^ z
  else y .^ (x .| u32 (Z.lnot z)).
Definition rfc_k (i : nat) : nat :=
  (if (i <? 16)%nat then i else if (i <? 32)%nat then (5 * i + 1) mod 16
   else if (i <? 48)%nat then (3 * i + 5) mod 16 else (7 * i) mod 16)%nat.
Definition rfc_s (i : nat) : Z :=
  nth (i mod 4) (nth (i / 16) [[7; 12; 17; 22]; [5; 9; 14; 20]; [4; 11; 16; 23]; [6; 10; 15; 21]] []) 0.

(** [a = b + ((a + F(b,c,d) + X[k] + T[i]) <<< s)] *)
Definition rfc_value (X v : list Z) (i : nat) : Z :=
  match v with
  | [a; b; c; d] => u32 (b + rotr 32 (32 - rfc_s i) (u32 (a + rfc_f i b c d + X !!! rfc_k i + rfc_T i)))
  | _ => 0
  end.

Definition md5_iv : list Z := [0x67452301; 0xefcdab89; 0x98badcfe; 0x10325476].
Definition rfc_md5 : bytes → bytes := md_digest rfc_value 64 md5_iv.

Example md5_abc :
  MD5 [97; 98; 99] = [0x90; 0x01; 0x50; 0x98; 0x3c; 0xd2; 0x4f; 0xb0; 0xd6; 0x96; 0x3f; 0x7d; 0x28; 0xe1; 0x7f; 0x72] ∧
  rfc_md5 [97; 98; 99] = MD5 [97; 98; 99].
Proof. split; vm_compute; reflexivity. Qed.

(** * The code computes it *)

Lemma md5_table : map snd (md5_round0 ++ md5_round1 ++ md5_round2 ++ md5_round3) = rfc_table.
Proof. vm_compute. reflexivity. Qed.

Lemma md5_orders :
  map fst (md5_round0 ++ md5_round1 ++ md5_round2 ++ md5_round3) = map (λ i, (rfc_k i, rfc_s i)) (seq 0 64).
Proof. vm_compute. reflexivity. Qed.

Lemma md5_all_args i :
  (i < 64)%nat →
  nth i (md5_round0 ++ md5_round1 ++ md5_round2 ++ md5_round3) (0%nat, 0, 0) = (rfc_k i, rfc_s i, rfc_T i).
Proof.
  intros Hi. set (l := md5_round0 ++ _). unfold rfc_T. rewrite <-md5_table. fold l.
  pose proof md5_orders as E. fold l in E. apply (f_equal (λ x, nth i x (0%nat, 0))) in E.
  rewrite (map_nth fst l (0%nat, 0, 0) i : nth i (map fst l) (0%nat, 0) = _) in E.
  rewrite (map_nth snd l (0%nat, 0, 0) i : nth i (map snd l) 0 = _).
  rewrite (nth_indep _ _ (rfc_k 0, rfc_s 0)), (map_nth (λ i, (rfc_k i, rfc_s i))), seq_nth in E
    by (done || by rewrite length_map, length_seq).
  cbn [Nat.add] in E. destruct (nth i l (0%nat, 0, 0)) as [[k s] t]. cbn [fst snd] in *. by injection E as -> ->.
Qed.

Lemma md5_args (args : list (nat * Z * Z)) lo i :
  (args, lo) ∈ [(md5_round0, 0%nat); (md5_round1, 16%nat); (md5_round2, 32%nat); (md5_round3, 48%nat)] →
  (lo <= i < lo + 16)%nat → nth (i - lo) args (0%nat, 0, 0) = (rfc_k i, rfc_s i, rfc_T i).
Proof.
  intros Hin Hi. rewrite <-md5_all_args.
  - repeat (apply elem_of_cons in Hin as [[= -> ->]|Hin]; [rewrite ?app_nth2 by (cbn [length md5_round0 md5_round1 md5_round2]; lia);
      rewrite ?app_nth1 by (cbn; lia); f_equal; cbn [length md5_round0 md5_round1 md5_round2]; lia|]).
    by apply elem_of_nil in Hin.
  - set_unfold. naive_solver lia.
Qed.

Lemma md5_rfc_s_range i : (i < 64)%nat → 0 < rfc_s i < 32.
Proof.
  intros Hi. unfold rfc_s. pose proof (Nat.mod_upper_bound i 4 ltac:(lia)) as Hm. set (m := (i mod 4)%nat) in *. clearbody m.
  assert (i / 16 < 4)%nat as Hq by (apply Nat.Div0.div_lt_upper_bound; lia). set (q := (i / 16)%nat) in *. clearbody q.
  do 4 (destruct q as [|q]; [do 4 (destruct m as [|m]; [cbn; lia|]); lia|]). lia.
Qed.

Lemma md5_rfc_value_fits X v i : fits 32 (rfc_value X v i).
Proof.
  unfold rfc_value. do 5 (destruct v as [|? v]; try (split; [done|decide_now])). apply wrap_fits. lia.
Qed.

(** All the macros have this form. *)
Lemma md5_macro (f : Z → Z → Z → Z) (X r : list Z) i k s t a b c d :
  turned 4 i r [a; b; c; d] → 0 < s < 32 →
  (let a := arg 4 i 0 in let b := arg 4 i 1 in let c := arg 4 i 2 in let d := arg 4 i 3 in
   let r := <[a := u32 (r !!! a + (X !!! k + t + f (r !!! b) (r !!! c) (r !!! d)))]> r in
   let r := <[a := CRYPTO_rotl_u32 (r !!! a) s]> r in
   <[a := u32 (r !!! a + r !!! b)]> r) =
  <[arg 4 i 0 := u32 (b + rotr 32 (32 - s) (u32 (a + f b c d + X !!! k + t)))]> r.
Proof.
  intros [Hr Ht] Hs. cbv zeta.
  assert (r !!! arg 4 i 0 = a) as -> by exact (Ht 0%nat ltac:(cbn; lia)).
  assert (r !!! arg 4 i 1 = b) as E1 by exact (Ht 1%nat ltac:(cbn; lia)). rewrite E1.
  assert (r !!! arg 4 i 2 = c) as -> by exact (Ht 2%nat ltac:(cbn; lia)).
  assert (r !!! arg 4 i 3 = d) as -> by exact (Ht 3%nat ltac:(cbn; lia)).
  replace (a + f b c d + X !!! k + t) with (a + (X !!! k + t + f b c d)) by ring.
  set (x := u32 (a + _)). destruct (set_again i r x (CRYPTO_rotl_u32 x s) Hr) as (-> & -> & _).
  destruct (set_again i r (CRYPTO_rotl_u32 x s) (u32 (CRYPTO_rotl_u32 x s + b)) Hr) as (-> & H2 & H1).
  rewrite (H1 1%nat), E1, H2 by lia. rewrite rotl_u32_eq by first [done|apply wrap_fits; lia].
  by rewrite Z.add_comm.
Qed.

Lemma rfc_value_eq (f : Z → Z → Z → Z) (X : list Z) a b c d i :
  f b c d = rfc_f i b c d →
  u32 (b + rotr 32 (32 - rfc_s i) (u32 (a + f b c d + X !!! rfc_k i + rfc_T i))) = rfc_value X [a; b; c; d] i.
Proof. by intros ->. Qed.

Lemma md5_F_rfc b c d : fits 32 d → F b c d = (b .& c) .| (u32 (Z.lnot b) .& d).
Proof.
  intros Hd. apply fits_testbit in Hd as [_ Hd]; [|lia]. apply Z.bits_inj'. intros n Hn. unfold F.
  rewrite !Z.lxor_spec, Z.lor_spec, !Z.land_spec, Z.lxor_spec, testbit_wrap, Z.lnot_spec by lia.
  destruct (Z.ltb_spec n 32); [|rewrite Hd by done]; by destruct (Z.testbit b n), (Z.testbit c n), (Z.testbit d n).
Qed.
Lemma md5_G_rfc b c d : fits 32 c → G b c d = (b .& d) .| (c .& u32 (Z.lnot d)).
Proof.
  intros Hc. apply fits_testbit in Hc as [_ Hc]; [|lia]. apply Z.bits_inj'. intros n Hn. unfold G.
  rewrite !Z.lxor_spec, Z.lor_spec, !Z.land_spec, Z.lxor_spec, testbit_wrap, Z.lnot_spec by lia.
  destruct (Z.ltb_spec n 32); [|rewrite Hc by done]; by destruct (Z.testbit b n), (Z.testbit c n), (Z.testbit d n).
Qed.
Lemma md5_I_rfc b c d : I b c d = c .^ (b .| u32 (Z.lnot d)).
Proof. unfold I. by rewrite Z.lxor_comm, (Z.lor_comm b). Qed.

(** A call of a macro whose function is that of the RFC in these rounds. *)
Lemma md5_step_ok R (f : Z → Z → Z → Z) args lo X :
  (∀ (X r : list Z) i k s t a b c d, turned 4 i r [a; b; c; d] → 0 < s < 32 →
     R X r i k s t = <[arg 4 i 0 := u32 (b + rotr 32 (32 - s) (u32 (a + f b c d + X !!! k + t)))]> r) →
  (args, lo) ∈ [(md5_round0, 0%nat); (md5_round1, 16%nat); (md5_round2, 32%nat); (md5_round3, 48%nat)] → (lo <= 48)%nat →
  (∀ i b c d, (lo <= i < lo + 16)%nat → fits 32 c → fits 32 d → f b c d = rfc_f i b c d) →
  step_ok rfc_value X (md5_call R X args lo) lo 16.
Proof.
  intros HR Hargs Hlo Hf i r a b c d Hi Ht [_ Hv]. unfold md5_call. rewrite (md5_args args lo i Hargs Hi).
  repeat match goal with H : Forall _ (_ :: _) |- _ => apply Forall_cons in H as [??] end.
  rewrite (HR X r i _ _ _ a b c d Ht) by (apply md5_rfc_s_range; lia). by rewrite (rfc_value_eq f) by auto.
Qed.

Lemma md5_calls_ok X :
  step_ok rfc_value X (md5_call R0 X md5_round0 0) 0 16 ∧ step_ok rfc_value X (md5_call R1 X md5_round1 16) 16 16 ∧
  step_ok rfc_value X (md5_call R2 X md5_round2 32) 32 16 ∧ step_ok rfc_value X (md5_call R3 X md5_round3 48) 48 16.
Proof.
  split; [|split; [|split]]; [apply (md5_step_ok R0 F)|apply (md5_step_ok R1 G)|apply (md5_step_ok R2 H)|apply (md5_step_ok R3 I)];
    try (intros; by apply md5_macro); try set_solver; try lia; intros i b c d Hi Hc Hd; unfold rfc_f;
    destruct (Nat.ltb_spec i 16); try lia; destruct (Nat.ltb_spec i 32); try lia; destruct (Nat.ltb_spec i 48); try lia.
  - by apply md5_F_rfc.
  - by apply md5_G_rfc.
  - done.
  - apply md5_I_rfc.
Qed.

Lemma md5_rounds X v :
  fold_left (spec_step rfc_value X) (seq 48 16) (fold_left (spec_step rfc_value X) (seq 32 16)
    (fold_left (spec_step rfc_value X) (seq 16 16) (fold_left (spec_step rfc_value X) (seq 0 16) v))) =
  fold_left (spec_step rfc_value X) (seq 0 64) v.
Proof. by rewrite <-!fold_left_app. Qed.

Lemma md5_turn_spec s block : md_ok s → md5_turn s block = spec_compress rfc_value 64 s block.
Proof.
  intros Hs. unfold md5_turn, spec_compress. set (X := map (load_word_le block) (seq 0 16)). cbv zeta.
  assert (turned 4 0 (map (λ j, s !!! j) (seq 0 4)) s) as H0.
  { destruct Hs as [Hl _]. do 5 (destruct s as [|? s]; try done). by apply turned_start. }
  destruct (md5_calls_ok X) as (C0 & C1 & C2 & C3).
  destruct (steps_turned rfc_value md5_rfc_value_fits X _ 16 0 _ _ C0 H0 Hs) as [H1 Hs1].
  destruct (steps_turned rfc_value md5_rfc_value_fits X _ 16 16 _ _ C1 H1 Hs1) as [H2 Hs2].
  destruct (steps_turned rfc_value md5_rfc_value_fits X _ 16 32 _ _ C2 H2 Hs2) as [H3 Hs3].
  destruct (steps_turned rfc_value md5_rfc_value_fits X _ 16 48 _ _ C3 H3 Hs3) as [H4 [Hl _]].
  rewrite md5_rounds in H4, Hl. change (48 + 16)%nat with 64%nat in H4. destruct H4 as [_ Ht].
  set (r := fold_left (md5_call R3 X md5_round3 48) _ _) in *. set (v := fold_left _ (seq 0 64) s) in *. clearbody r v.
  destruct Hs as [Hs _]. do 5 (destruct s as [|? s]; try done). do 5 (destruct v as [|? v]; try done).
  cbn [map seq zip_with].
  change (r !!! 0%nat) with (r !!! arg 4 64 0). change (r !!! 1%nat) with (r !!! arg 4 64 1).
  change (r !!! 2%nat) with (r !!! arg 4 64 2). change (r !!! 3%nat) with (r !!! arg 4 64 3).
  by rewrite !Ht by (cbn; lia).
Qed.

Lemma md5_turn_take s block : md5_turn s block = md5_turn s (takeZ 64 block).
Proof.
  unfold md5_turn. replace (map (load_word_le (takeZ 64 block)) (seq 0 16)) with (map (load_word_le block) (seq 0 16)); [done|].
  apply map_ext_in. intros t Ht. apply in_seq in Ht. symmetry. apply load_word_le_take. lia.
Qed.

#[export] Instance md5_blocks : BlockFunc 64 md5_turn md5_block_data_order.
Proof.
  intros s data n _ _ _. unfold md5_block_data_order. generalize (Z.to_nat n) as k. intros k. revert s data.
  induction k as [|k IH]; intros s data; [done|]. cbn [md5_loop fold_blocks]. by rewrite (md5_turn_take s data), IH.
Qed.

Lemma md5_iv_ok : md_ok md5_iv.
Proof. apply (bool_decide_unpack (length md5_iv = 4%nat ∧ Forall (fits 32) md5_iv)). vm_compute. exact Logic.I. Qed.

Definition md5_seen : md_ctx → bytes → Prop := md_seen md5_turn md5_iv.

Lemma md5_init_seen : md5_seen MD5_Init [].
Proof. by apply fresh_in_use. Qed.
Lemma md5_final c msg : md5_seen c msg → (MD5_Final c).2 = rfc_md5 msg.
Proof. apply (md_final_seen rfc_value md5_rfc_value_fits 64 md5_turn _ md5_turn_spec md5_iv md5_iv_ok). Qed.

Lemma md5_hash_spec msg : bytes_ok msg → bytes_ok (rfc_md5 msg) ∧ lenZ (rfc_md5 msg) = 16.
Proof. apply (md_digest_spec rfc_value md5_rfc_value_fits 64 md5_turn md5_turn_spec md5_iv md5_iv_ok). Qed.

(** C15. MD5 of a message given in pieces of any sizes is the digest RFC 1321 defines for the whole
    message, with the table of sines computed from its description. *)
Theorem md5_stream chunks :
  Forall (λ x, bytes_ok x ∧ lenZ x < 2 ^ 64) chunks →
  (MD5_Final (fold_left MD5_Update chunks MD5_Init)).2 = rfc_md5 (concat chunks).
Proof. intros H. apply md5_final. by apply (md_chunks md5_turn _ md5_iv _ _ [] md5_init_seen). Qed.

Lemma md5_stream_witness :
  (MD5_Final (fold_left MD5_Update [[97]; [98; 99]; []] MD5_Init)).2 = rfc_md5 (concat [[97]; [98; 99]; []]).
Proof. apply (md5_stream [[97]; [98; 99]; []]). apply (bool_decide_unpack _). vm_compute. exact Logic.I. Defined.
