(* ===== verification/Sha2.v ===== *)
(** The SHA-2 family: src/HolyWater-Test/Pods/BoringSSL-GRPC/src/crypto/fipsmodule/sha/sha256.c and
    sha512.c, in the variants written in C, against FIPS 180-4. *)
From S2P Require Import Prelude Md32 Rounds.

Open Scope Z_scope.

(** * The block functions

    Both files have the same macros, for words of [w] bits. *)

(** [CRYPTO_load_u32_be] or [CRYPTO_load_u64_be] of the [i]-th word at [data]. *)
Definition load_word (w : Z) (data : bytes) (i : nat) : Z :=
  be_value (takeZ (w / 8) (dropZ (w / 8 * Z.of_nat i) data)).

Section words.
Context (w : Z) (Hw : w = 32 ∨ w = 64).

Lemma load_word_fits (block : bytes) t : bytes_ok block → fits w (load_word w block t).
Proof.
  intros Hb. unfold load_word.
  assert (bytes_ok (takeZ (w / 8) (dropZ (w / 8 * Z.of_nat t) block))) as Hd
    by (unfold takeZ, dropZ; by apply Forall_take, Forall_drop).
  pose proof (be_value_bound _ Hd) as [H0 H1]. split; [done|]. eapply Z.lt_le_trans; [exact H1|].
  assert (lenZ (takeZ (w / 8) (dropZ (w / 8 * Z.of_nat t) block)) <= w / 8) as Hl
    by (unfold lenZ, takeZ; rewrite length_take; destruct Hw as [->| ->]; lia).
  transitivity (256 ^ (w / 8)); [by apply Z.pow_le_mono_r|]. destruct Hw as [->| ->]; decide_now.
Qed.

Lemma load_word_take (block : bytes) t : (t < 16)%nat → load_word w (takeZ (2 * w) block) t = load_word w block t.
Proof.
  intros Ht. unfold load_word. f_equal. unfold takeZ, dropZ. rewrite skipn_firstn_comm, take_take. f_equal.
  destruct Hw as [->| ->]; [change (32 / 8) with 4|change (64 / 8) with 8]; lia.
Qed.

End words.

(** A chaining value. *)
Definition state_ok (w : Z) (v : list Z) : Prop := length v = 8%nat ∧ Forall (fits w) v.

Section rounds.
Context (w : Z) (Sigma0 Sigma1 sigma0 sigma1 : Z → Z) (K : list Z) (num_rounds : nat).

Definition Ch (x y z : Z) : Z := (x .& y) .^ (wrap w (Z.lnot x) .& z).
Definition Maj (x y z : Z) : Z := (x .& y) .^ (x .& z) .^ (y .& z).

(** The registers a to h are [r]; their names rotate. *)
Definition ROUND_00_15 (i : nat) (T1 : Z) (r : list Z) : list Z :=
  let a := arg 8 i 0 in let b := arg 8 i 1 in let c := arg 8 i 2 in let d := arg 8 i 3 in
  let e := arg 8 i 4 in let f := arg 8 i 5 in let g := arg 8 i 6 in let h := arg 8 i 7 in
  let T1 := wrap w (T1 + (r !!! h + Sigma1 (r !!! e) + Ch (r !!! e) (r !!! f) (r !!! g) + K !!! i)) in
  let r := <[h := wrap w (Sigma0 (r !!! a) + Maj (r !!! a) (r !!! b) (r !!! c))]> r in
  let r := <[d := wrap w (r !!! d + T1)]> r in
  <[h := wrap w (r !!! h + T1)]> r.

Definition first_round (data : bytes) (rX : list Z * list Z) (i : nat) : list Z * list Z :=
  let '(r, X) := rX in
  let x := load_word w data i in (ROUND_00_15 i x r, <[i := x]> X).

Definition ROUND_16_63 (rX : list Z * list Z) (i : nat) : list Z * list Z :=
  let '(r, X) := rX in
  let s0 := sigma0 (X !!! ring_index (i + 1)) in
  let s1 := sigma1 (X !!! ring_index (i + 14)) in
  let T1 := wrap w (X !!! ring_index i + (s0 + s1 + X !!! ring_index (i + 9))) in
  (ROUND_00_15 i T1 r, <[ring_index i := T1]> X).

(** One turn of [while (num--)]. *)
Definition block_turn (state : list Z) (data : bytes) : list Z :=
  let r := map (λ j, state !!! j) (seq 0 8) in
  let rX := fold_left (first_round data) (seq 0 16) (r, replicate 16 0) in
  let rX := fold_left ROUND_16_63 (seq 16 (num_rounds - 16)) rX in
  map (λ j, wrap w (state !!! j + rX.1 !!! j)) (seq 0 8).

Fixpoint block_loop (num : nat) (state : list Z) (data : bytes) : list Z :=
  match num with
  | O => state
  | S num => block_loop num (block_turn state data) (dropZ (2 * w) data)
  end.
Definition block_data_order (state : list Z) (data : bytes) (num : Z) : list Z :=
  block_loop (Z.to_nat num) state data.

(** * FIPS 180-4, sections 6.2 and 6.4 *)

Context (FSigma0 FSigma1 fsigma0 fsigma1 : Z → Z).

Definition fips_word (block : bytes) (ws : list Z) (t : nat) : Z :=
  if (t <? 16)%nat then load_word w block t
  else wrap w (fsigma1 (ws !!! (t - 2)%nat) + ws !!! (t - 7)%nat + fsigma0 (ws !!! (t - 15)%nat) + ws !!! (t - 16)%nat).

Definition fips_round (ws v : list Z) (t : nat) : list Z :=
  match v with
  | [a; b; c; d; e; f; g; h] =>
      let T1 := wrap w (h + FSigma1 e + Ch e f g + K !!! t + ws !!! t) in
      let T2 := wrap w (FSigma0 a + Maj a b c) in
      [wrap w (T1 + T2); a; b; c; wrap w (d + T1); e; f; g]
  | _ => v
  end.

Definition fips_compress (hs : list Z) (block : bytes) : list Z :=
  let ws := words (fips_word block) num_rounds in
  zip_with (λ x y, wrap w (x + y)) hs (fold_left (fips_round ws) (seq 0 num_rounds) hs).

(** ** The block function computes it *)

Context (Hw : w = 32 ∨ w = 64) (Hrounds : (16 <= num_rounds)%nat) (Hmod : (num_rounds = 8 * (num_rounds / 8))%nat).
Context (HS0 : ∀ x, fits w x → Sigma0 x = FSigma0 x) (HS1 : ∀ x, fits w x → Sigma1 x = FSigma1 x).
Context (Hs0 : ∀ x, fits w x → sigma0 x = fsigma0 x) (Hs1 : ∀ x, fits w x → sigma1 x = fsigma1 x).

Lemma wrap_add a b : wrap w (wrap w a + wrap w b) = wrap w (a + b).
Proof. unfold wrap. symmetry. apply Z.add_mod. destruct Hw as [->| ->]; done. Qed.
Lemma wrap_add_r a b : wrap w (a + wrap w b) = wrap w (a + b).
Proof. unfold wrap. apply Z.add_mod_idemp_r. destruct Hw as [->| ->]; done. Qed.
Lemma word_wrap z : fits w (wrap w z).
Proof. apply wrap_fits. destruct Hw; lia. Qed.

Lemma fips_words_fit block n t : bytes_ok block → (t < n)%nat → fits w (words (fips_word block) n !!! t).
Proof.
  intros Hb Ht. rewrite words_lookup by done. unfold fips_word.
  destruct (t <? 16)%nat; [by apply load_word_fits|apply word_wrap].
Qed.

Lemma fips_round_ok ws v t : state_ok w v → state_ok w (fips_round ws v t).
Proof.
  intros [Hl Hv]. do 9 (destruct v as [|? v]; try done). cbn [fips_round]. split; [done|].
  repeat match goal with H : Forall _ (_ :: _) |- _ => apply Forall_cons in H as [??] end.
  repeat (apply Forall_cons; split); try done; apply word_wrap.
Qed.

(** What the round leaves under the names it was given. *)
Lemma round_regs i r T (a b c d e f g h : Z) :
  turned 8 i r [a; b; c; d; e; f; g; h] →
  let r' := ROUND_00_15 i T r in
  let T1 := wrap w (h + Sigma1 e + Ch e f g + K !!! i + T) in
  let T2 := wrap w (Sigma0 a + Maj a b c) in
  length r' = 8%nat ∧
  ∀ k, (k < 8)%nat → r' !!! arg 8 i k = [a; b; c; wrap w (d + T1); e; f; g; wrap w (T1 + T2)] !!! k.
Proof.
  intros [Hr Ht]. unfold ROUND_00_15. cbv zeta.
  assert (r !!! arg 8 i 0 = a) as -> by exact (Ht 0%nat ltac:(cbn; lia)).
  assert (r !!! arg 8 i 1 = b) as -> by exact (Ht 1%nat ltac:(cbn; lia)).
  assert (r !!! arg 8 i 2 = c) as -> by exact (Ht 2%nat ltac:(cbn; lia)).
  assert (r !!! arg 8 i 4 = e) as -> by exact (Ht 4%nat ltac:(cbn; lia)).
  assert (r !!! arg 8 i 5 = f) as -> by exact (Ht 5%nat ltac:(cbn; lia)).
  assert (r !!! arg 8 i 6 = g) as -> by exact (Ht 6%nat ltac:(cbn; lia)).
  assert (r !!! arg 8 i 7 = h) as -> by exact (Ht 7%nat ltac:(cbn; lia)).
  assert (r !!! arg 8 i 3 = d) as H3 by exact (Ht 3%nat ltac:(cbn; lia)).
  split; [by rewrite !length_insert|]. intros k Hk.
  rewrite !(set_reg 8) by (rewrite ?length_insert; done || lia). cbn [Nat.eqb]. rewrite H3.
  replace (T + (h + Sigma1 e + Ch e f g + K !!! i)) with (h + Sigma1 e + Ch e f g + K !!! i + T) by ring.
  do 8 (destruct k as [|k]; [cbn [Nat.eqb]; first [exact (Ht _ Hk)|done|idtac]|]); [|lia].
  cbn [Nat.eqb]. change (?l !!! 7%nat) with (wrap w (wrap w (h + Sigma1 e + Ch e f g + K !!! i + T) +
    wrap w (Sigma0 a + Maj a b c))). by rewrite Z.add_comm.
Qed.

Lemma round_turned i r v ws :
  state_ok w v → turned 8 i r v → turned 8 (S i) (ROUND_00_15 i (ws !!! i) r) (fips_round ws v i).
Proof.
  intros [Hl Hv] Ht. do 9 (destruct v as [|? v]; try done).
  destruct (round_regs i r (ws !!! i) _ _ _ _ _ _ _ _ Ht) as [Hr Hk].
  repeat match goal with H : Forall _ (_ :: _) |- _ => apply Forall_cons in H as [??] end.
  rewrite HS0, HS1 in Hk by done. split; [done|]. intros [|j] Hj.
  - rewrite (arg_wrap 8 i 7), Hk by (done || lia). done.
  - rewrite arg_S, Hk by (cbn in Hj; lia). cbn in Hj. do 7 (destruct j as [|j]; [done|]). lia.
Qed.
Section block.
Context (block : bytes) (Hblock : bytes_ok block).
Let ws := words (fips_word block) num_rounds.

(** The state of the code before round [i] and that of the standard. *)
Definition in_step (i : nat) (rX : list Z * list Z) (v : list Z) : Prop :=
  turned 8 i rX.1 v ∧ in_ring (fips_word block) rX.2 i ∧ state_ok w v.

Lemma schedule_word i : (i < num_rounds)%nat → ws !!! i = fips_word block (words (fips_word block) i) i.
Proof. apply words_lookup. Qed.

Lemma later_word ws' t : (16 <= t)%nat →
  fips_word block ws' t =
    wrap w (fsigma1 (ws' !!! (t - 2)%nat) + ws' !!! (t - 7)%nat + fsigma0 (ws' !!! (t - 15)%nat) + ws' !!! (t - 16)%nat).
Proof. intros Ht. unfold fips_word. by rewrite (proj2 (Nat.ltb_ge t 16) Ht). Qed.

Lemma first_round_step i rX v :
  (i < 16)%nat → in_step i rX v → in_step (S i) (first_round block rX i) (fips_round ws v i).
Proof.
  intros Hi (Ht & HX & Hv). destruct rX as [r X]. unfold in_step, first_round. cbn [fst snd] in *.
  assert (load_word w block i = fips_word block (words (fips_word block) i) i) as E
    by (unfold fips_word; by rewrite (proj2 (Nat.ltb_lt i 16) Hi)).
  split; [|split; [|by apply fips_round_ok]].
  - rewrite E, <-schedule_word by lia. by apply round_turned.
  - pose proof (ring_set _ X i _ HX E) as H. by rewrite ring_index_mod, Nat.mod_small in H by done.
Qed.

Lemma later_round_step i rX v :
  (16 <= i < num_rounds)%nat → in_step i rX v → in_step (S i) (ROUND_16_63 rX i) (fips_round ws v i).
Proof.
  intros Hi (Ht & HX & Hv). destruct rX as [r X]. unfold in_step, ROUND_16_63. cbn [fst snd] in *. cbv zeta.
  assert (∀ d, (0 < d <= 16)%nat → fits w (words (fips_word block) i !!! (i - d)%nat)) as Hfit
    by (intros d Hd; apply fips_words_fit; [done|lia]).
  rewrite (ring_lookup _ X i 1 15), (ring_lookup _ X i 14 2), (ring_lookup _ X i 9 7) by (done || lia).
  pose proof (ring_lookup _ X i 0 16 HX ltac:(lia) ltac:(lia) ltac:(lia)) as E0. rewrite Nat.add_0_r in E0. rewrite E0.
  rewrite Hs0, Hs1 by (apply Hfit; lia). set (T1 := wrap w _).
  assert (T1 = fips_word block (words (fips_word block) i) i) as E.
  { rewrite later_word by lia. unfold T1. f_equal. ring. }
  split; [|split; [|by apply fips_round_ok]].
  - rewrite E, <-schedule_word by lia. by apply round_turned.
  - by apply ring_set.
Qed.

Lemma rounds_steps (step : list Z * list Z → nat → list Z * list Z) lo n rX v :
  (∀ i rX v, (lo <= i < lo + n)%nat → in_step i rX v → in_step (S i) (step rX i) (fips_round ws v i)) →
  in_step lo rX v →
  in_step (lo + n) (fold_left step (seq lo n) rX) (fold_left (fips_round ws) (seq lo n) v).
Proof.
  revert lo rX v. induction n as [|n IH]; intros lo rX v Hstep Hv.
  - by rewrite Nat.add_0_r.
  - cbn [seq fold_left]. rewrite Nat.add_succ_r, <-Nat.add_succ_l. apply IH.
    + intros i rX' v' Hi. apply Hstep. lia.
    + apply Hstep; [lia|done].
Qed.

Lemma turned_state : ∀ s : list Z, length s = 8%nat → map (λ j, s !!! j) (seq 0 8) = s.
Proof. intros s Hs. by do 9 (destruct s as [|? s]; try done). Qed.

Lemma block_turn_spec s : state_ok w s → block_turn s block = fips_compress s block.
Proof.
  intros Hs. unfold block_turn, fips_compress. fold ws. rewrite turned_state by apply Hs.
  assert (in_step 0 (s, replicate 16 0) s) as H0.
  { split; [by apply turned_start, Hs|]. split; [by apply ring_start|done]. }
  apply (rounds_steps (first_round block) 0 16) in H0; [|intros i rX v Hi; apply first_round_step; lia].
  apply (rounds_steps ROUND_16_63 16 (num_rounds - 16)) in H0; [|intros i rX v Hi; apply later_round_step; lia].
  change (0 + 16)%nat with 16%nat in H0. rewrite <-fold_left_app, <-seq_app in H0.
  assert (16 + (num_rounds - 16) = num_rounds)%nat as En by lia. rewrite En in H0.
  cbv zeta. set (rX := fold_left ROUND_16_63 _ _) in *. set (v := fold_left _ (seq 0 num_rounds) s) in *.
  destruct H0 as ([Hr Ht] & _ & Hl & _). clearbody rX v.
  assert (∀ j, (j < 8)%nat → rX.1 !!! j = v !!! j) as E.
  { intros j Hj. rewrite <-Ht by lia. f_equal. rewrite Hmod, Nat.mul_comm. symmetry. by apply arg_multiple. }
  destruct Hs as [Hs _]. do 9 (destruct s as [|? s]; try done). do 9 (destruct v as [|? v]; try done).
  cbn [map seq zip_with]. by rewrite !E by lia.
Qed.

Lemma compress_ok s : state_ok w s → state_ok w (fips_compress s block).
Proof.
  intros Hs. unfold fips_compress. fold ws.
  assert (∀ n lo v, state_ok w v → state_ok w (fold_left (fips_round ws) (seq lo n) v)) as Hfold.
  { induction n as [|n IH]; intros lo v Hv; [done|]. cbn [seq fold_left]. by apply IH, fips_round_ok. }
  destruct (Hfold num_rounds 0%nat s Hs) as [Hv _]. destruct Hs as [Hs _]. split.
  - by rewrite length_zip_with, Hs, Hv.
  - generalize (fold_left (fips_round ws) (seq 0 num_rounds) s) as v'. clear Hs Hv Hfold.
    induction s as [|x s IH]; intros [|y v']; cbn [zip_with]; try by constructor.
    constructor; [apply word_wrap|apply IH].
Qed.
End block.

(** ** Many blocks *)

Lemma block_turn_take s block : block_turn s block = block_turn s (takeZ (2 * w) block).
Proof.
  assert (∀ n lo rX, (lo + n <= 16)%nat →
    fold_left (first_round block) (seq lo n) rX = fold_left (first_round (takeZ (2 * w) block)) (seq lo n) rX) as E.
  { induction n as [|n IH]; intros lo rX Hl; [done|]. cbn [seq fold_left]. rewrite IH by lia. f_equal.
    unfold first_round. destruct rX. by rewrite load_word_take by lia. }
  unfold block_turn. by rewrite E.
Qed.

#[local] Instance block_data_order_blocks : BlockFunc (2 * w) block_turn block_data_order.
Proof.
  intros s data n _ _ _. unfold block_data_order. generalize (Z.to_nat n) as k. intros k. revert s data.
  induction k as [|k IH]; intros s data; [done|]. cbn [block_loop fold_blocks].
  by rewrite (block_turn_take s data), IH.
Qed.

Lemma chain_fips s msg :
  state_ok w s → bytes_ok msg →
  chain (2 * w) block_turn s msg = chain (2 * w) fips_compress s msg ∧ state_ok w (chain (2 * w) block_turn s msg).
Proof.
  intros Hs Hm. apply (chain_ext (2 * w) block_turn fips_compress (state_ok w)); [destruct Hw; lia| |done..].
  intros s' b Hs' Hb _. rewrite block_turn_spec by done. split; [done|]. by apply compress_ok.
Qed.
End rounds.
