(* ===== verification/Sha1.v ===== *)
(** SHA-1: src/HolyWater-Test/Pods/BoringSSL-GRPC/src/crypto/fipsmodule/sha/sha1.c, in the variant
    written in C, against FIPS 180-4. *)
From S2P Require Import Prelude ConstTime Md32 Rounds Sha2.

Open Scope Z_scope.

(** * The code *)

Definition SHA_CBLOCK : Z := 64.
Definition SHA_DIGEST_LENGTH : Z := 20.

(** [SHA_CTX] has no field [md_len]; it is 0 here. *)
Definition SHA1_Init : md_ctx :=
  {| h := [0x67452301; 0xefcdab89; 0x98badcfe; 0x10325476; 0xc3d2e1f0];
     Nl := 0; Nh := 0; data := replicate 64 0; num := 0; md_len := 0 |}.

(** The new word, which goes to [a] and to [X(ix)]. *)
Definition Xupdate (X : list Z) (ix ia ib ic id : nat) : Z * list Z :=
  let a := X !!! ia .^ X !!! ib .^ X !!! ic .^ X !!! id in
  let a := CRYPTO_rotl_u32 a 1 in (a, <[ix := a]> X).

Definition K_00_19 : Z := 0x5a827999.
Definition K_20_39 : Z := 0x6ed9eba1.
Definition K_40_59 : Z := 0x8f1bbcdc.
Definition K_60_79 : Z := 0xca62c1d6.

Definition F_00_19 (b c d : Z) : Z := ((c .^ d) .& b) .^ d.
Definition F_20_39 (b c d : Z) : Z := b .^ c .^ d.
Definition F_40_59 (b c d : Z) : Z := (b .& c) .| ((b .| c) .& d).
Definition F_60_79 (b c d : Z) : Z := F_20_39 b c d.

(** The registers A to E and T are [r]; their names rotate. *)
Definition BODY_00_15 (X r : list Z) (i : nat) : list Z :=
  let a := arg 6 i 0 in let b := arg 6 i 1 in let c := arg 6 i 2 in
  let d := arg 6 i 3 in let e := arg 6 i 4 in let f := arg 6 i 5 in
  let r := <[f := u32 (X !!! i + r !!! e + K_00_19 + CRYPTO_rotl_u32 (r !!! a) 5 +
                       F_00_19 (r !!! b) (r !!! c) (r !!! d))]> r in
  <[b := CRYPTO_rotl_u32 (r !!! b) 30]> r.

Definition BODY_16_19 (rX : list Z * list Z) (i : nat) : list Z * list Z :=
  let '(r, X) := rX in
  let a := arg 6 i 0 in let b := arg 6 i 1 in let c := arg 6 i 2 in
  let d := arg 6 i 3 in let e := arg 6 i 4 in let f := arg 6 i 5 in
  let '(x, X) := Xupdate X (ring_index i) (ring_index i) (ring_index (i + 2)) (ring_index (i + 8)) (ring_index (i + 13)) in
  let r := <[f := x]> r in
  let r := <[f := u32 (r !!! f + (r !!! e + K_00_19 + CRYPTO_rotl_u32 (r !!! a) 5 +
                       F_00_19 (r !!! b) (r !!! c) (r !!! d)))]> r in
  (<[b := CRYPTO_rotl_u32 (r !!! b) 30]> r, X).

Definition BODY_20_31 (rX : list Z * list Z) (i : nat) : list Z * list Z :=
  let '(r, X) := rX in
  let a := arg 6 i 0 in let b := arg 6 i 1 in let c := arg 6 i 2 in
  let d := arg 6 i 3 in let e := arg 6 i 4 in let f := arg 6 i 5 in
  let '(x, X) := Xupdate X (ring_index i) (ring_index i) (ring_index (i + 2)) (ring_index (i + 8)) (ring_index (i + 13)) in
  let r := <[f := x]> r in
  let r := <[f := u32 (r !!! f + (r !!! e + K_20_39 + CRYPTO_rotl_u32 (r !!! a) 5 +
                       F_20_39 (r !!! b) (r !!! c) (r !!! d)))]> r in
  (<[b := CRYPTO_rotl_u32 (r !!! b) 30]> r, X).

(** It differs from the last only in giving [X(xa)] once. *)
Definition BODY_32_39 : list Z * list Z → nat → list Z * list Z := BODY_20_31.

Definition BODY_40_59 (rX : list Z * list Z) (i : nat) : list Z * list Z :=
  let '(r, X) := rX in
  let a := arg 6 i 0 in let b := arg 6 i 1 in let c := arg 6 i 2 in
  let d := arg 6 i 3 in let e := arg 6 i 4 in let f := arg 6 i 5 in
  let '(x, X) := Xupdate X (ring_index i) (ring_index i) (ring_index (i + 2)) (ring_index (i + 8)) (ring_index (i + 13)) in
  let r := <[f := x]> r in
  let r := <[f := u32 (r !!! f + (r !!! e + K_40_59 + CRYPTO_rotl_u32 (r !!! a) 5 +
                       F_40_59 (r !!! b) (r !!! c) (r !!! d)))]> r in
  (<[b := CRYPTO_rotl_u32 (r !!! b) 30]> r, X).

Definition BODY_60_79 (rX : list Z * list Z) (i : nat) : list Z * list Z :=
  let '(r, X) := rX in
  let a := arg 6 i 0 in let b := arg 6 i 1 in let c := arg 6 i 2 in
  let d := arg 6 i 3 in let e := arg 6 i 4 in let f := arg 6 i 5 in
  let '(x, X) := Xupdate X (ring_index i) (ring_index i) (ring_index (i + 2)) (ring_index (i + 8)) (ring_index (i + 13)) in
  let r := <[f := x]> r in
  let r := <[f := u32 (X !!! ring_index i + r !!! e + K_60_79 + CRYPTO_rotl_u32 (r !!! a) 5 +
                       F_60_79 (r !!! b) (r !!! c) (r !!! d))]> r in
  (<[b := CRYPTO_rotl_u32 (r !!! b) 30]> r, X).

(** One turn of the loop. The code loads a word just before the round that precedes the one that uses
    it; [T] is written before it is read. *)
Definition sha1_turn (state : list Z) (data : bytes) : list Z :=
  let r := map (λ j, state !!! j) (seq 0 5) ++ [0] in
  let X := map (load_word 32 data) (seq 0 16) in
  let r := fold_left (BODY_00_15 X) (seq 0 16) r in
  let rX := fold_left BODY_16_19 (seq 16 4) (r, X) in
  let rX := fold_left BODY_20_31 (seq 20 12) rX in
  let rX := fold_left BODY_32_39 (seq 32 8) rX in
  let rX := fold_left BODY_40_59 (seq 40 20) rX in
  let r := (fold_left BODY_60_79 (seq 60 20) rX).1 in
  let A := r !!! 0%nat in let B := r !!! 1%nat in let C := r !!! 2%nat in
  let E := r !!! 4%nat in let T := r !!! 5%nat in
  [(state !!! 0%nat + E) .& 0xffffffff; (state !!! 1%nat + T) .& 0xffffffff; (state !!! 2%nat + A) .& 0xffffffff;
   (state !!! 3%nat + B) .& 0xffffffff; (state !!! 4%nat + C) .& 0xffffffff].

Fixpoint sha1_loop (num : nat) (state : list Z) (data : bytes) : list Z :=
  match num with
  | O => state
  | S num => sha1_loop num (sha1_turn state data) (dropZ 64 data)
  end.

(** The body comes before the test of [--num]. *)
Definition sha1_block_data_order : block_func := λ state data num,
  sha1_loop (S (Z.to_nat (size_t (num - 1)))) state data.

Definition SHA1_Transform (c : md_ctx) (data' : bytes) : md_ctx :=
  set_block c (sha1_block_data_order (h c) data' 1) (data c) (num c).

Definition SHA1_Update (c : md_ctx) (input : bytes) : md_ctx :=
  crypto_md32_update sha1_block_data_order SHA_CBLOCK c input.

Definition SHA1_Final (c : md_ctx) : md_ctx * bytes :=
  let c := crypto_md32_final sha1_block_data_order SHA_CBLOCK c true in
  (c, CRYPTO_store_u32_be (h c !!! 0%nat) ++ CRYPTO_store_u32_be (h c !!! 1%nat) ++ CRYPTO_store_u32_be (h c !!! 2%nat) ++
      CRYPTO_store_u32_be (h c !!! 3%nat) ++ CRYPTO_store_u32_be (h c !!! 4%nat)).

Definition SHA1 (data : bytes) : bytes := (SHA1_Final (SHA1_Update SHA1_Init data)).2.

(** * FIPS 180-4, section 6.1 *)

Definition ROTL (n x : Z) : Z := rotr 32 (32 - n) x.

(** The 30 bits after the point of the square roots of 2, 3, 5 and 10. *)
Definition sha1_K (t : nat) : Z :=
  Z.sqrt ((if (t <? 20)%nat then 2 else if (t <? 40)%nat then 3 else if (t <? 60)%nat then 5 else 10) * 2 ^ 60).
Definition sha1_f (t : nat) (x y z : Z) : Z :=
  if (t <? 20)%nat then Ch 32 x y z else if (t <? 40)%nat then x .^ y .^ z
  else if (t <? 60)%nat then Maj x y z else x .^ y .^ z.

Definition sha1_word (block : bytes) (ws : list Z) (t : nat) : Z :=
  if (t <? 16)%nat then load_word 32 block t
  else ROTL 1 (ws !!! (t - 3)%nat .^ ws !!! (t - 8)%nat .^ ws !!! (t - 14)%nat .^ ws !!! (t - 16)%nat).

Definition sha1_round (ws v : list Z) (t : nat) : list Z :=
  match v with
  | [a; b; c; d; e] => [u32 (ROTL 5 a + sha1_f t b c d + e + sha1_K t + ws !!! t); a; ROTL 30 b; c; d]
  | _ => v
  end.

Definition sha1_compress (hs : list Z) (block : bytes) : list Z :=
  let ws := words (sha1_word block) 80 in
  zip_with (λ x y, u32 (x + y)) hs (fold_left (sha1_round ws) (seq 0 80) hs).

Definition sha1_iv : list Z := [0x67452301; 0xefcdab89; 0x98badcfe; 0x10325476; 0xc3d2e1f0].
Definition fips_sha1 : bytes → bytes := md_hash 64 8 (length_field true 8) (be_bytes 4) sha1_compress sha1_iv 20.

Example sha1_abc :
  SHA1 [97; 98; 99] = [0xa9; 0x99; 0x3e; 0x36; 0x47; 0x06; 0x81; 0x6a; 0xba; 0x3e; 0x25; 0x71; 0x78; 0x50; 0xc2; 0x6c;
                       0x9c; 0xd0; 0xd8; 0x9d] ∧ fips_sha1 [97; 98; 99] = SHA1 [97; 98; 99].
Proof. split; vm_compute; reflexivity. Qed.

(** * The code computes it *)

(** ** The functions of a round *)

Lemma F_00_19_Ch b c d : fits 32 d → F_00_19 b c d = Ch 32 b c d.
Proof.
  intros Hd. apply fits_testbit in Hd as [_ Hd]; [|lia]. apply Z.bits_inj'. intros n Hn. unfold F_00_19, Ch.
  rewrite !Z.lxor_spec, !Z.land_spec, Z.lxor_spec, testbit_wrap, Z.lnot_spec by lia.
  destruct (Z.ltb_spec n 32); [|rewrite Hd by done]; by destruct (Z.testbit b n), (Z.testbit c n), (Z.testbit d n).
Qed.

Lemma F_40_59_Maj b c d : F_40_59 b c d = Maj b c d.
Proof.
  apply Z.bits_inj'. intros n Hn. unfold F_40_59, Maj.
  rewrite !Z.lxor_spec, Z.lor_spec, !Z.land_spec, Z.lor_spec.
  by destruct (Z.testbit b n), (Z.testbit c n), (Z.testbit d n).
Qed.

Definition sha1_ok (v : list Z) : Prop := length v = 5%nat ∧ Forall (fits 32) v.

Lemma u32_fits x : fits 32 (u32 x).
Proof. apply wrap_fits. lia. Qed.
Lemma ROTL_fits n x : 0 < n < 32 → fits 32 x → fits 32 (ROTL n x).
Proof. intros Hn Hx. apply rotr_fits; [lia|done]. Qed.

Lemma sha1_round_ok ws v t : sha1_ok v → sha1_ok (sha1_round ws v t).
Proof.
  intros [Hl Hv]. do 6 (destruct v as [|? v]; try done). cbn [sha1_round]. split; [done|].
  repeat match goal with H : Forall _ (_ :: _) |- _ => apply Forall_cons in H as [??] end.
  repeat (apply Forall_cons; split); try done; [apply u32_fits|apply ROTL_fits; [lia|done]].
Qed.

Lemma sha1_words_fit block n t : bytes_ok block → (t < n)%nat → fits 32 (words (sha1_word block) n !!! t).
Proof.
  intros Hb Ht. revert n Ht. induction t as [t IH] using lt_wf_ind. intros n Ht.
  rewrite words_lookup by done. unfold sha1_word at 1. destruct (Nat.ltb_spec t 16).
  - by apply load_word_fits; [left|].
  - apply ROTL_fits; [lia|]. repeat apply fits_lxor; try lia; apply IH; lia.
Qed.

(** ** A round *)

(** Every body ends by setting [f] and turning [b]. *)
Lemma body_turned i r (a b c d e x : Z) :
  turned 6 i r [a; b; c; d; e] → fits 32 b →
  let r' := <[arg 6 i 5 := x]> r in
  turned 6 (S i) (<[arg 6 i 1 := CRYPTO_rotl_u32 (r' !!! arg 6 i 1) 30]> r') [x; a; ROTL 30 b; c; d].
Proof.
  intros [Hr Ht] Hb. cbv zeta. split; [by rewrite !length_insert|]. intros j Hj. cbn [length] in Hj.
  assert (r !!! arg 6 i 1 = b) as Eb by exact (Ht 1%nat ltac:(cbn; lia)).
  destruct j as [|j].
  - rewrite (arg_wrap 6 i 5), !(set_reg 6) by (rewrite ?length_insert; done || lia). done.
  - rewrite arg_S, !(set_reg 6) by (rewrite ?length_insert; done || lia). cbn [Nat.eqb]. rewrite Eb, rotl_u32_eq by (done || lia).
    assert (j < 5)%nat as Hj' by lia.
    do 4 (destruct j as [|j]; [cbn [Nat.eqb]; first [done|exact (Ht _ Hj')]|]). lia.
Qed.

(** The arguments of a body, before and after [f] is set. *)
Lemma body_args i r v k (x : Z) :
  turned 6 i r v → length v = 5%nat → (k < 5)%nat →
  r !!! arg 6 i k = v !!! k ∧ (<[arg 6 i 5 := x]> r) !!! arg 6 i k = v !!! k.
Proof.
  intros [Hr Ht] Hv Hk. rewrite set_reg by (done || lia).
  rewrite (proj2 (Nat.eqb_neq 5 k)) by lia. rewrite Ht by lia. done.
Qed.

Section block.
Context (block : bytes) (Hblock : bytes_ok block).
Let ws := words (sha1_word block) 80.

Lemma sha1_schedule i : (i < 80)%nat → ws !!! i = sha1_word block (words (sha1_word block) i) i.
Proof. apply words_lookup. Qed.

Lemma xupdate_ring X i :
  in_ring (sha1_word block) X i → (16 <= i < 80)%nat →
  let '(x, X') := Xupdate X (ring_index i) (ring_index i) (ring_index (i + 2)) (ring_index (i + 8)) (ring_index (i + 13)) in
  x = ws !!! i ∧ in_ring (sha1_word block) X' (S i) ∧ X' !!! ring_index i = x.
Proof.
  intros HX Hi. unfold Xupdate. cbv zeta.
  rewrite (ring_lookup _ X i 2 14), (ring_lookup _ X i 8 8), (ring_lookup _ X i 13 3) by (done || lia).
  pose proof (ring_lookup _ X i 0 16 HX ltac:(lia) ltac:(lia) ltac:(lia)) as E0. rewrite Nat.add_0_r in E0. rewrite E0.
  assert (∀ d, (0 < d <= 16)%nat → fits 32 (words (sha1_word block) i !!! (i - d)%nat)) as Hfit
    by (intros d Hd; apply sha1_words_fit; [done|lia]).
  rewrite rotl_u32_eq; [|lia|repeat apply fits_lxor; try lia; apply Hfit; lia].
  set (x := rotr _ _ _).
  assert (x = sha1_word block (words (sha1_word block) i) i) as E.
  { unfold sha1_word at 1. rewrite (proj2 (Nat.ltb_ge i 16)) by lia. unfold x, ROTL. f_equal.
    rewrite (Z.lxor_comm _ (words (sha1_word block) i !!! (i - 3)%nat)).
    set (w16 := words _ _ !!! (i - 16)%nat). set (w14 := words _ _ !!! (i - 14)%nat).
    set (w8 := words _ _ !!! (i - 8)%nat). set (w3 := words _ _ !!! (i - 3)%nat).
    apply Z.bits_inj'. intros n Hn. rewrite !Z.lxor_spec.
    by destruct (Z.testbit w3 n), (Z.testbit w8 n), (Z.testbit w14 n), (Z.testbit w16 n). }
  split; [by rewrite sha1_schedule by lia|]. split; [by apply ring_set|].
  apply list_lookup_total_insert_eq. rewrite (proj1 HX), ring_index_mod. by apply Nat.mod_upper_bound.
Qed.

(** ** The states before a round *)

Definition in_step (i : nat) (rX : list Z * list Z) (v : list Z) : Prop :=
  turned 6 i rX.1 v ∧ in_ring (sha1_word block) rX.2 i ∧ sha1_ok v.

(** A body sets [f] to the value of the standard and turns [b]. *)
Lemma body_step i r v x :
  turned 6 i r v → sha1_ok v →
  (∀ a b c d e, v = [a; b; c; d; e] → Forall (fits 32) v →
     x = u32 (ROTL 5 a + sha1_f i b c d + e + sha1_K i + ws !!! i)) →
  let r' := <[arg 6 i 5 := x]> r in
  turned 6 (S i) (<[arg 6 i 1 := CRYPTO_rotl_u32 (r' !!! arg 6 i 1) 30]> r') (sha1_round ws v i).
Proof.
  intros Ht [Hl Hv] Hx. cbv zeta. do 6 (destruct v as [|? v]; try done). cbn [sha1_round].
  rewrite <-(Hx _ _ _ _ _ eq_refl Hv). apply (body_turned i r _ _ _ _ _ x Ht).
  by apply Forall_cons in Hv as [_ [? _]%Forall_cons].
Qed.

(** The new value of [f], with its arguments read from the registers. *)
Lemma body_value (F : Z → Z → Z → Z) (K x : Z) i r v (g : nat → Z) :
  sha1_ok v → (∀ k, (k < 5)%nat → g k = v !!! k) →
  (∀ b c d, fits 32 d → F b c d = sha1_f i b c d) → K = sha1_K i → x = ws !!! i →
  turned 6 i r v →
  let y := u32 (x + (g 4%nat + K + CRYPTO_rotl_u32 (g 0%nat) 5 + F (g 1%nat) (g 2%nat) (g 3%nat))) in
  let r' := <[arg 6 i 5 := y]> r in
  turned 6 (S i) (<[arg 6 i 1 := CRYPTO_rotl_u32 (r' !!! arg 6 i 1) 30]> r') (sha1_round ws v i).
Proof.
  intros Hv Hg HF HK Hx Ht. cbv zeta. rewrite !Hg by lia. apply (body_step i r v _ Ht Hv).
  intros a b c d e -> Hf. change ([a; b; c; d; e] !!! 0%nat) with a. change ([a; b; c; d; e] !!! 1%nat) with b.
  change ([a; b; c; d; e] !!! 2%nat) with c. change ([a; b; c; d; e] !!! 3%nat) with d.
  change ([a; b; c; d; e] !!! 4%nat) with e.
  repeat match goal with H : Forall _ (_ :: _) |- _ => apply Forall_cons in H as [??] end.
  rewrite HF, rotl_u32_eq, Hx, HK by (done || lia). unfold ROTL.
  generalize (ws !!! i) (sha1_K i) (sha1_f i b c d). intros. apply (f_equal (wrap 32)). ring.
Qed.

Lemma sha1_constants :
  (∀ i, (i < 20)%nat → sha1_K i = K_00_19) ∧ (∀ i, (20 <= i < 40)%nat → sha1_K i = K_20_39) ∧
  (∀ i, (40 <= i < 60)%nat → sha1_K i = K_40_59) ∧ (∀ i, (60 <= i)%nat → sha1_K i = K_60_79).
Proof.
  unfold sha1_K. repeat split; intros i Hi;
    destruct (Nat.ltb_spec i 20); try lia; destruct (Nat.ltb_spec i 40); try lia; destruct (Nat.ltb_spec i 60); try lia;
    vm_compute; reflexivity.
Qed.

Lemma sha1_functions i b c d :
  ((i < 20)%nat → sha1_f i b c d = Ch 32 b c d) ∧ ((20 <= i < 40)%nat → sha1_f i b c d = F_20_39 b c d) ∧
  ((40 <= i < 60)%nat → sha1_f i b c d = Maj b c d) ∧ ((60 <= i)%nat → sha1_f i b c d = F_60_79 b c d).
Proof.
  unfold sha1_f. repeat split; intros Hi;
    destruct (Nat.ltb_spec i 20); try lia; destruct (Nat.ltb_spec i 40); try lia; destruct (Nat.ltb_spec i 60); try lia;
    reflexivity.
Qed.

Lemma first_body X r v i :
  (i < 16)%nat → X = map (load_word 32 block) (seq 0 16) → turned 6 i r v → sha1_ok v →
  turned 6 (S i) (BODY_00_15 X r i) (sha1_round ws v i).
Proof.
  intros Hi -> Ht Hv. unfold BODY_00_15. cbv zeta.
  assert (map (load_word 32 block) (seq 0 16) !!! i = ws !!! i) as EX.
  { rewrite sha1_schedule by lia. unfold sha1_word at 1. rewrite (proj2 (Nat.ltb_lt i 16) Hi).
    apply list_lookup_total_correct. by rewrite list_lookup_fmap, lookup_seq_lt. }
  rewrite <-!Z.add_assoc. rewrite (Z.add_assoc (r !!! arg 6 i 4) K_00_19), (Z.add_assoc (r !!! arg 6 i 4 + K_00_19)).
  apply (body_value F_00_19 K_00_19 _ i r v (λ k, r !!! arg 6 i k)); [done| | | |done..].
  - intros k Hk. by apply (body_args i r v k 0 Ht (proj1 Hv)).
  - intros b c d Hd. rewrite F_00_19_Ch by done. symmetry. apply sha1_functions. lia.
  - symmetry. apply sha1_constants. lia.
Qed.

Lemma later_body (body : list Z * list Z → nat → list Z * list Z) (F : Z → Z → Z → Z) (K : Z) i rX v :
  (∀ r X, length r = 6%nat → length X = 16%nat → body (r, X) i =
    let '(x, X') := Xupdate X (ring_index i) (ring_index i) (ring_index (i + 2)) (ring_index (i + 8)) (ring_index (i + 13)) in
    let r := <[arg 6 i 5 := x]> r in
    let r := <[arg 6 i 5 := u32 (x + (r !!! arg 6 i 4 + K + CRYPTO_rotl_u32 (r !!! arg 6 i 0) 5 +
                 F (r !!! arg 6 i 1) (r !!! arg 6 i 2) (r !!! arg 6 i 3)))]> r in
    (<[arg 6 i 1 := CRYPTO_rotl_u32 (r !!! arg 6 i 1) 30]> r, X')) →
  (∀ b c d, fits 32 d → F b c d = sha1_f i b c d) → K = sha1_K i → (16 <= i < 80)%nat →
  in_step i rX v → in_step (S i) (body rX i) (sha1_round ws v i).
Proof.
  intros Hbody HF HK Hi (Ht & HX & Hv). destruct rX as [r X]. cbn [fst snd] in *.
  rewrite Hbody by (apply Ht || apply HX). pose proof (xupdate_ring X i HX Hi) as Hu.
  destruct (Xupdate _ _ _ _ _ _) as [x X']. destruct Hu as (Ex & HX' & _).
  cbv zeta. split; [|split; [done|by apply sha1_round_ok]]. cbn [fst]. rewrite list_insert_insert_eq.
  apply (body_value F K x i r v (λ k, (<[arg 6 i 5 := x]> r) !!! arg 6 i k)); try done.
  intros k Hk. by apply (body_args i r v k x Ht (proj1 Hv)).
Qed.

(** The four kinds of later rounds. *)
Lemma body_form (K : Z) (F : Z → Z → Z → Z) i r X :
  length r = 6%nat →
  (let '(x, X) := Xupdate X (ring_index i) (ring_index i) (ring_index (i + 2)) (ring_index (i + 8)) (ring_index (i + 13)) in
   let r := <[arg 6 i 5 := x]> r in
   let r := <[arg 6 i 5 := u32 (r !!! arg 6 i 5 + (r !!! arg 6 i 4 + K + CRYPTO_rotl_u32 (r !!! arg 6 i 0) 5 +
                 F (r !!! arg 6 i 1) (r !!! arg 6 i 2) (r !!! arg 6 i 3)))]> r in
   (<[arg 6 i 1 := CRYPTO_rotl_u32 (r !!! arg 6 i 1) 30]> r, X)) =
  (let '(x, X') := Xupdate X (ring_index i) (ring_index i) (ring_index (i + 2)) (ring_index (i + 8)) (ring_index (i + 13)) in
   let r := <[arg 6 i 5 := x]> r in
   let r := <[arg 6 i 5 := u32 (x + (r !!! arg 6 i 4 + K + CRYPTO_rotl_u32 (r !!! arg 6 i 0) 5 +
                 F (r !!! arg 6 i 1) (r !!! arg 6 i 2) (r !!! arg 6 i 3)))]> r in
   (<[arg 6 i 1 := CRYPTO_rotl_u32 (r !!! arg 6 i 1) 30]> r, X')).
Proof.
  intros Hr. unfold Xupdate. cbv zeta. set (x := CRYPTO_rotl_u32 _ 1). clearbody x.
  assert ((<[arg 6 i 5 := x]> r) !!! arg 6 i 5 = x) as E by (rewrite (set_reg 6) by (done || lia); done).
  by rewrite E.
Qed.

Lemma body_16_19 i rX v : (16 <= i < 20)%nat → in_step i rX v → in_step (S i) (BODY_16_19 rX i) (sha1_round ws v i).
Proof.
  intros Hi. apply (later_body BODY_16_19 F_00_19 K_00_19); [| |symmetry; apply sha1_constants; lia|lia].
  - intros r X Hr _. by apply (body_form K_00_19 F_00_19).
  - intros b c d Hd. rewrite F_00_19_Ch by done. symmetry. apply sha1_functions. lia.
Qed.
Lemma body_20_39 i rX v : (20 <= i < 40)%nat → in_step i rX v → in_step (S i) (BODY_20_31 rX i) (sha1_round ws v i).
Proof.
  intros Hi. apply (later_body BODY_20_31 F_20_39 K_20_39); [| |symmetry; apply sha1_constants; lia|lia].
  - intros r X Hr _. by apply (body_form K_20_39 F_20_39).
  - intros b c d _. symmetry. apply (proj1 (proj2 (sha1_functions i b c d))). lia.
Qed.
Lemma body_40_59 i rX v : (40 <= i < 60)%nat → in_step i rX v → in_step (S i) (BODY_40_59 rX i) (sha1_round ws v i).
Proof.
  intros Hi. apply (later_body BODY_40_59 F_40_59 K_40_59); [| |symmetry; apply sha1_constants; lia|lia].
  - intros r X Hr _. by apply (body_form K_40_59 F_40_59).
  - intros b c d _. rewrite F_40_59_Maj. symmetry. apply sha1_functions. lia.
Qed.
Lemma body_60_79 i rX v : (60 <= i < 80)%nat → in_step i rX v → in_step (S i) (BODY_60_79 rX i) (sha1_round ws v i).
Proof.
  intros Hi. apply (later_body BODY_60_79 F_60_79 K_60_79); [| |symmetry; apply sha1_constants; lia|lia].
  - intros r X _ HX. unfold BODY_60_79, Xupdate. cbv zeta. set (x := CRYPTO_rotl_u32 _ 1). clearbody x.
    assert ((<[ring_index i := x]> X) !!! ring_index i = x) as ->
      by (apply list_lookup_total_insert_eq; rewrite HX, ring_index_mod; by apply Nat.mod_upper_bound).
    by rewrite !Z.add_assoc.
  - intros b c d _. symmetry. apply (proj2 (proj2 (proj2 (sha1_functions i b c d)))). lia.
Qed.

(** ** A block *)

Lemma in_steps (body : list Z * list Z → nat → list Z * list Z) lo n rX v :
  (∀ i rX v, (lo <= i < lo + n)%nat → in_step i rX v → in_step (S i) (body rX i) (sha1_round ws v i)) →
  in_step lo rX v →
  in_step (lo + n) (fold_left body (seq lo n) rX) (fold_left (sha1_round ws) (seq lo n) v).
Proof.
  revert lo rX v. induction n as [|n IH]; intros lo rX v Hstep Hv.
  - by rewrite Nat.add_0_r.
  - cbn [seq fold_left]. rewrite Nat.add_succ_r, <-Nat.add_succ_l. apply IH.
    + intros i rX' v' Hi. apply Hstep. lia.
    + apply Hstep; [lia|done].
Qed.

Lemma first_bodies X n lo r v :
  (lo + n <= 16)%nat → X = map (load_word 32 block) (seq 0 16) → turned 6 lo r v → sha1_ok v →
  turned 6 (lo + n) (fold_left (BODY_00_15 X) (seq lo n) r) (fold_left (sha1_round ws) (seq lo n) v) ∧
  sha1_ok (fold_left (sha1_round ws) (seq lo n) v).
Proof.
  revert lo r v. induction n as [|n IH]; intros lo r v Hn HX Ht Hv.
  - by rewrite Nat.add_0_r.
  - cbn [seq fold_left]. rewrite Nat.add_succ_r, <-Nat.add_succ_l.
    apply IH; [lia|done|apply first_body; [lia|done..]|by apply sha1_round_ok].
Qed.

Lemma loaded_ring : in_ring (sha1_word block) (map (load_word 32 block) (seq 0 16)) 16.
Proof.
  split; [by rewrite length_map, length_seq|]. intros t Ht. rewrite Nat.mod_small by lia.
  rewrite words_lookup by lia. unfold sha1_word at 1. rewrite (proj2 (Nat.ltb_lt t 16)) by lia.
  apply list_lookup_total_correct. rewrite list_lookup_fmap, lookup_seq_lt by lia. done.
Qed.

Lemma all_rounds v :
  fold_left (sha1_round ws) (seq 60 20) (fold_left (sha1_round ws) (seq 40 20) (fold_left (sha1_round ws) (seq 32 8)
    (fold_left (sha1_round ws) (seq 20 12) (fold_left (sha1_round ws) (seq 16 4) (fold_left (sha1_round ws) (seq 0 16) v))))) =
  fold_left (sha1_round ws) (seq 0 80) v.
Proof. by rewrite <-!fold_left_app. Qed.

Lemma sha1_turn_spec s : sha1_ok s → sha1_turn s block = sha1_compress s block.
Proof.
  intros Hs. unfold sha1_turn. cbv zeta.
  assert (turned 6 0 (map (λ j, s !!! j) (seq 0 5) ++ [0]) s) as H0.
  { split; [done|]. intros j Hj. destruct Hs as [Hl _]. rewrite arg_0 by lia.
    do 6 (destruct s as [|? s]; try done). do 5 (destruct j as [|j]; [done|]). cbn in Hj. lia. }
  destruct (first_bodies _ 16 0 _ _ ltac:(lia) eq_refl H0 Hs) as [H1 Hok].
  assert (in_step 16 (fold_left (BODY_00_15 (map (load_word 32 block) (seq 0 16))) (seq 0 16)
      (map (λ j, s !!! j) (seq 0 5) ++ [0]), map (load_word 32 block) (seq 0 16))
    (fold_left (sha1_round ws) (seq 0 16) s)) as H2 by (split; [exact H1|split; [exact loaded_ring|exact Hok]]).
  apply (in_steps BODY_16_19 16 4) in H2; [|intros; apply body_16_19; [lia|done]].
  apply (in_steps BODY_20_31 20 12) in H2; [|intros; apply body_20_39; [lia|done]].
  apply (in_steps BODY_32_39 32 8) in H2; [|intros; apply body_20_39; [lia|done]].
  apply (in_steps BODY_40_59 40 20) in H2; [|intros; apply body_40_59; [lia|done]].
  apply (in_steps BODY_60_79 60 20) in H2; [|intros; apply body_60_79; [lia|done]].
  rewrite all_rounds in H2. change (60 + 20)%nat with 80%nat in H2. unfold sha1_compress. fold ws.
  set (rX := fold_left BODY_60_79 _ _) in *. set (v := fold_left (sha1_round ws) (seq 0 80) s) in *.
  destruct H2 as ([Hr Ht] & _ & Hl & _). clearbody rX v.
  assert (∀ x, x .& 0xffffffff = u32 x) as Hmask.
  { intros x. change 0xffffffff with (2 ^ 32 - 1). by rewrite land_mask. }
  destruct Hs as [Hs _]. do 6 (destruct s as [|? s]; try done). do 6 (destruct v as [|? v]; try done). rewrite !Hmask.
  change (rX.1 !!! 4%nat) with (rX.1 !!! arg 6 80 0). change (rX.1 !!! 5%nat) with (rX.1 !!! arg 6 80 1).
  change (rX.1 !!! 0%nat) with (rX.1 !!! arg 6 80 2). change (rX.1 !!! 1%nat) with (rX.1 !!! arg 6 80 3).
  change (rX.1 !!! 2%nat) with (rX.1 !!! arg 6 80 4). rewrite !Ht by (cbn; lia). done.
Qed.
End block.

Lemma sha1_turn_take s block : sha1_turn s block = sha1_turn s (takeZ 64 block).
Proof.
  unfold sha1_turn. replace (map (load_word 32 (takeZ 64 block)) (seq 0 16)) with (map (load_word 32 block) (seq 0 16)); [done|].
  apply map_ext_in. intros t Ht. apply in_seq in Ht. symmetry. apply (load_word_take 32); lia.
Qed.

#[local] Instance sha1_blocks : BlockFunc 64 sha1_turn sha1_block_data_order.
Proof.
  intros s data n Hn Hl H64. unfold sha1_block_data_order. rewrite wrap_small by (split; mlia).
  replace (S (Z.to_nat (n - 1))) with (Z.to_nat n) by lia. generalize (Z.to_nat n) as k. clear.
  intros k. revert s data. induction k as [|k IH]; intros s data; [done|]. cbn [sha1_loop fold_blocks].
  by rewrite (sha1_turn_take s data), IH.
Qed.

Lemma sha1_compress_ok s block : sha1_ok s → sha1_ok (sha1_compress s block).
Proof.
  intros Hs. unfold sha1_compress. set (ws := words _ 80).
  assert (∀ n lo v, sha1_ok v → sha1_ok (fold_left (sha1_round ws) (seq lo n) v)) as Hfold.
  { induction n as [|n IH]; intros lo v Hv; [done|]. cbn [seq fold_left]. by apply IH, sha1_round_ok. }
  destruct (Hfold 80%nat 0%nat s Hs) as [Hv _]. destruct Hs as [Hs _]. split.
  - by rewrite length_zip_with, Hs, Hv.
  - generalize (fold_left (sha1_round ws) (seq 0 80) s) as v'. clear Hs Hv Hfold.
    induction s as [|x s IH]; intros [|y v']; cbn [zip_with]; try by constructor.
    constructor; [apply u32_fits|apply IH].
Qed.

Lemma sha1_chain s msg :
  sha1_ok s → bytes_ok msg →
  chain 64 sha1_turn s msg = chain 64 sha1_compress s msg ∧ sha1_ok (chain 64 sha1_turn s msg).
Proof.
  intros Hs Hm. apply (chain_ext 64 sha1_turn sha1_compress sha1_ok); [done| |done..].
  intros s' b Hs' Hb _. rewrite sha1_turn_spec by done. split; [done|]. by apply sha1_compress_ok.
Qed.

Definition sha1_seen : md_ctx → bytes → Prop := in_use 64 32 sha1_turn sha1_iv 0.

Lemma sha1_init_seen : sha1_seen SHA1_Init [].
Proof. by apply fresh_in_use. Qed.

Lemma sha1_update_seen c msg input :
  sha1_seen c msg → bytes_ok input → lenZ input < 2 ^ 64 → sha1_seen (SHA1_Update c input) (msg ++ input).
Proof. intros. by apply update_in_use; [|apply sha1_blocks|..]. Qed.

Lemma sha1_iv_ok : sha1_ok sha1_iv.
Proof. apply (bool_decide_unpack (length sha1_iv = 5%nat ∧ Forall (fits 32) sha1_iv)). vm_compute. exact I. Qed.

Lemma sha1_final_seen c msg : sha1_seen c msg → (SHA1_Final c).2 = fips_sha1 msg.
Proof.
  intros (Ha & Hc & _ & Hok). unfold SHA1_Final, SHA_CBLOCK. cbv zeta. cbn [snd].
  rewrite (md32_final_spec 64 ltac:(lia) sha1_turn _ sha1_iv c msg true Ha Hc).
  unfold fips_sha1, md_hash. set (p := padding _ _ _ _).
  destruct (sha1_chain sha1_iv (msg ++ p) sha1_iv_ok) as [E [Hl _]].
  { apply bytes_ok_app. split; [done|]. apply padding_ok, length_field_ok. }
  rewrite E in *. change 20 with (Z.of_nat (5 * 4)). rewrite <-store_words_take by (rewrite Hl; lia). done.
Qed.

Lemma sha1_hash_spec msg : bytes_ok msg → bytes_ok (fips_sha1 msg) ∧ lenZ (fips_sha1 msg) = 20.
Proof.
  intros Hok.
  destruct (sha1_chain sha1_iv (msg ++ padding 64 8 (length_field true 8 (lenZ msg)) (lenZ msg)) sha1_iv_ok) as [E [Hl _]].
  { apply bytes_ok_app. split; [done|]. apply padding_ok, length_field_ok. }
  rewrite E in Hl. refine (md_hash_spec 64 8 (length_field true 8) 4 _ _ 20 msg 5 Hl _ false). lia.
Qed.

Lemma sha1_chunks chunks c msg :
  sha1_seen c msg → Forall (λ x, bytes_ok x ∧ lenZ x < 2 ^ 64) chunks →
  sha1_seen (fold_left SHA1_Update chunks c) (msg ++ concat chunks).
Proof.
  intros Hc H. revert c msg Hc. induction H as [|x chunks [Hx Hl] _ IH]; intros c msg Hc; cbn [fold_left concat].
  - by rewrite app_nil_r.
  - rewrite app_assoc. by apply IH, sha1_update_seen.
Qed.

(** C14. SHA-1 of a message given in pieces of any sizes is the digest of FIPS 180-4 of the whole
    message: the unrolled rounds, with their simplified functions and a ring of sixteen words, compute
    the compression function of the standard. *)
Theorem sha1_stream chunks :
  Forall (λ x, bytes_ok x ∧ lenZ x < 2 ^ 64) chunks →
  (SHA1_Final (fold_left SHA1_Update chunks SHA1_Init)).2 = fips_sha1 (concat chunks).
Proof. intros H. apply sha1_final_seen. by apply (sha1_chunks _ _ [] sha1_init_seen). Qed.

Lemma sha1_stream_witness :
  (SHA1_Final (fold_left SHA1_Update [[97]; [98; 99]; []] SHA1_Init)).2 = fips_sha1 (concat [[97]; [98; 99]; []]).
Proof. apply (sha1_stream [[97]; [98; 99]; []]). apply (bool_decide_unpack _). vm_compute. exact I. Defined.
