(* ===== verification/FipsConst.v ===== *)
(** The constants of FIPS 180-4 as the standard describes them: bits of the fractional parts of the
    square and cube roots of the first prime numbers. *)
From S2P Require Import Prelude.

Open Scope Z_scope.

Definition is_prime (n : Z) : bool := forallb (λ d, negb (n mod d =? 0)) (seqZ 2 (Z.sqrt n - 1)).

(** The first [k] prime numbers; [bound] is above the [k]-th. *)
Definition first_primes (k : nat) (bound : Z) : list Z :=
  take k (filter (λ n, is_prime n = true) (seqZ 2 (bound - 2))).

(** The largest [r] below [2 ^ bits] with [r ^ 3 <= n]. *)
Fixpoint cube_root (bits : nat) (n : Z) : Z :=
  match bits with
  | O => 0
  | S bits =>
      let r := 2 * cube_root bits (n / 8) in
      if (r + 1) * (r + 1) * (r + 1) <=? n then r + 1 else r
  end.

Lemma cube_root_spec bits n :
  0 <= n < 8 ^ Z.of_nat bits →
  let r := cube_root bits n in 0 <= r ∧ r * r * r <= n < (r + 1) * (r + 1) * (r + 1).
Proof.
  revert n. induction bits as [|bits IH]; intros n Hn.
  - change (8 ^ Z.of_nat 0) with 1 in Hn. cbn. lia.
  - cbn [cube_root]. cbv zeta.
    assert (0 <= n / 8 < 8 ^ Z.of_nat bits) as Hd.
    { split; [apply Z.div_pos; lia|]. apply Z.div_lt_upper_bound; [lia|].
      rewrite Nat2Z.inj_succ, Z.pow_succ_r in Hn by lia. lia. }
    destruct (IH _ Hd) as (H0 & Hlo & Hhi). set (r := cube_root bits (n / 8)) in *. clearbody r.
    pose proof (Z.mul_div_le n 8 ltac:(lia)). pose proof (Z.mul_succ_div_gt n 8 ltac:(lia)).
    destruct (Z.leb_spec ((2 * r + 1) * (2 * r + 1) * (2 * r + 1)) n); nia.
Qed.

(** The first [b] bits of the fractional part of the cube root and of the square root of [p]; the
    roots are below [2 ^ 8]. *)
Definition frac_cbrt (b : nat) (p : Z) : Z :=
  cube_root (b + 8) (p * 2 ^ (3 * Z.of_nat b)) mod 2 ^ Z.of_nat b.
Definition frac_sqrt (b : nat) (p : Z) : Z := Z.sqrt (p * 2 ^ (2 * Z.of_nat b)) mod 2 ^ Z.of_nat b.

Lemma frac_cbrt_spec b p :
  0 <= p < 2 ^ 24 →
  ∃ r, r * r * r <= p * 2 ^ (3 * Z.of_nat b) < (r + 1) * (r + 1) * (r + 1) ∧ frac_cbrt b p = r mod 2 ^ Z.of_nat b.
Proof.
  intros Hp. eexists. split; [|done]. apply cube_root_spec. pose proof (Z.pow_pos_nonneg 2 (3 * Z.of_nat b)).
  split; [lia|]. change 8 with (2 ^ 3) at 1. rewrite <-Z.pow_mul_r by lia.
  replace (3 * Z.of_nat (b + 8)) with (24 + 3 * Z.of_nat b) by lia. rewrite Z.pow_add_r by lia.
  apply Z.mul_lt_mono_pos_r; lia.
Qed.
