(* ===== verification/Sha256.v ===== *)
(** SHA-224 and SHA-256:
    src/HolyWater-Test/Pods/BoringSSL-GRPC/src/crypto/fipsmodule/sha/sha256.c, against FIPS 180-4. *)
From S2P Require Import Prelude Md32 Rounds Sha2 FipsConst.

Open Scope Z_scope.

(** * The code *)

Definition SHA256_CBLOCK : Z := 64.
Definition SHA224_DIGEST_LENGTH : Z := 28.
Definition SHA256_DIGEST_LENGTH : Z := 32.

Definition SHA224_Init : md_ctx :=
  {| h := [0xc1059ed8; 0x367cd507; 0x3070dd17; 0xf70e5939; 0xffc00b31; 0x68581511; 0x64f98fa7; 0xbefa4fa4];
     Nl := 0; Nh := 0; data := replicate 64 0; num := 0; md_len := SHA224_DIGEST_LENGTH |}.

Definition SHA256_Init : md_ctx :=
  {| h := [0x6a09e667; 0xbb67ae85; 0x3c6ef372; 0xa54ff53a; 0x510e527f; 0x9b05688c; 0x1f83d9ab; 0x5be0cd19];
     Nl := 0; Nh := 0; data := replicate 64 0; num := 0; md_len := SHA256_DIGEST_LENGTH |}.

(** In decimal; the comments repeat the rows in hexadecimal, as the code has them. *)
Definition K256 : list Z := [
    (* 0x428a2f98 0x71374491 0xb5c0fbcf 0xe9b5dba5 *)
    1116352408; 1899447441; 3049323471; 3921009573;
    (* 0x3956c25b 0x59f111f1 0x923f82a4 0xab1c5ed5 *)
    961987163; 1508970993; 2453635748; 2870763221;
    (* 0xd807aa98 0x12835b01 0x243185be 0x550c7dc3 *)
    3624381080; 310598401; 607225278; 1426881987;
    (* 0x72be5d74 0x80deb1fe 0x9bdc06a7 0xc19bf174 *)
    1925078388; 2162078206; 2614888103; 3248222580;
    (* 0xe49b69c1 0xefbe4786 0x0fc19dc6 0x240ca1cc *)
    3835390401; 4022224774; 264347078; 604807628;
    (* 0x2de92c6f 0x4a7484aa 0x5cb0a9dc 0x76f988da *)
    770255983; 1249150122; 1555081692; 1996064986;
    (* 0x983e5152 0xa831c66d 0xb00327c8 0xbf597fc7 *)
    2554220882; 2821834349; 2952996808; 3210313671;
    (* 0xc6e00bf3 0xd5a79147 0x06ca6351 0x14292967 *)
    3336571891; 3584528711; 113926993; 338241895;
    (* 0x27b70a85 0x2e1b2138 0x4d2c6dfc 0x53380d13 *)
    666307205; 773529912; 1294757372; 1396182291;
    (* 0x650a7354 0x766a0abb 0x81c2c92e 0x92722c85 *)
    1695183700; 1986661051; 2177026350; 2456956037;
    (* 0xa2bfe8a1 0xa81a664b 0xc24b8b70 0xc76c51a3 *)
    2730485921; 2820302411; 3259730800; 3345764771;
    (* 0xd192e819 0xd6990624 0xf40e3585 0x106aa070 *)
    3516065817; 3600352804; 4094571909; 275423344;
    (* 0x19a4c116 0x1e376c08 0x2748774c 0x34b0bcb5 *)
    430227734; 506948616; 659060556; 883997877;
    (* 0x391c0cb3 0x4ed8aa4a 0x5b9cca4f 0x682e6ff3 *)
    958139571; 1322822218; 1537002063; 1747873779;
    (* 0x748f82ee 0x78a5636f 0x84c87814 0x8cc70208 *)
    1955562222; 2024104815; 2227730452; 2361852424;
    (* 0x90befffa 0xa4506ceb 0xbef9a3f7 0xc67178f2 *)
    2428436474; 2756734187; 3204031479; 3329325298].

Definition Sigma0 (x : Z) : Z := CRYPTO_rotr_u32 x 2 .^ CRYPTO_rotr_u32 x 13 .^ CRYPTO_rotr_u32 x 22.
Definition Sigma1 (x : Z) : Z := CRYPTO_rotr_u32 x 6 .^ CRYPTO_rotr_u32 x 11 .^ CRYPTO_rotr_u32 x 25.
Definition sigma0 (x : Z) : Z := CRYPTO_rotr_u32 x 7 .^ CRYPTO_rotr_u32 x 18 .^ (x ≫ 3).
Definition sigma1 (x : Z) : Z := CRYPTO_rotr_u32 x 17 .^ CRYPTO_rotr_u32 x 19 .^ (x ≫ 10).

Definition sha256_block_data_order : block_func :=
  block_data_order 32 Sigma0 Sigma1 sigma0 sigma1 K256 64.

Definition SHA256_Transform (c : md_ctx) (data' : bytes) : md_ctx :=
  set_block c (sha256_block_data_order (h c) data' 1) (data c) (num c).
Definition SHA256_TransformBlocks (state : list Z) (data : bytes) (num_blocks : Z) : list Z :=
  sha256_block_data_order state data num_blocks.

Definition SHA256_Update (c : md_ctx) (input : bytes) : md_ctx :=
  crypto_md32_update sha256_block_data_order SHA256_CBLOCK c input.
Definition SHA224_Update (c : md_ctx) (input : bytes) : md_ctx := SHA256_Update c input.

(** The bytes written to [out], [None] when the function fails. *)
Definition sha256_final_impl (c : md_ctx) : md_ctx * option bytes :=
  let c := crypto_md32_final sha256_block_data_order SHA256_CBLOCK c true in
  if SHA256_DIGEST_LENGTH <? md_len c then (c, None)
  else
    let out_words := md_len c / 4 in
    (c, Some (store_words 4 (Z.to_nat out_words) (h c))).

Definition SHA256_Final (c : md_ctx) : md_ctx * option bytes := sha256_final_impl c.
Definition SHA224_Final (c : md_ctx) : md_ctx * option bytes := sha256_final_impl c.

Definition SHA224 (data : bytes) : option bytes := (SHA224_Final (SHA224_Update SHA224_Init data)).2.
Definition SHA256 (data : bytes) : option bytes := (SHA256_Final (SHA256_Update SHA256_Init data)).2.

(** * FIPS 180-4 *)

Definition fips_K : list Z := map (frac_cbrt 32) (first_primes 64 400).
Definition fips_Sigma0 (x : Z) : Z := rotr 32 2 x .^ rotr 32 13 x .^ rotr 32 22 x.
Definition fips_Sigma1 (x : Z) : Z := rotr 32 6 x .^ rotr 32 11 x .^ rotr 32 25 x.
Definition fips_sigma0 (x : Z) : Z := rotr 32 7 x .^ rotr 32 18 x .^ (x ≫ 3).
Definition fips_sigma1 (x : Z) : Z := rotr 32 17 x .^ rotr 32 19 x .^ (x ≫ 10).

Definition sha256_compress : list Z → bytes → list Z :=
  fips_compress 32 fips_K 64 fips_Sigma0 fips_Sigma1 fips_sigma0 fips_sigma1.

(** The initial values: bits of the square roots of the first eight primes, and the second 32 bits
    of those of the next eight. *)
Definition fips_iv256 : list Z := map (frac_sqrt 32) (first_primes 8 20).
Definition fips_iv224 : list Z := map (λ p, frac_sqrt 64 p mod 2 ^ 32) (drop 8 (first_primes 16 60)).

Definition fips_sha256 : bytes → bytes :=
  md_hash 64 8 (length_field true 8) (be_bytes 4) sha256_compress fips_iv256 32.
Definition fips_sha224 : bytes → bytes :=
  md_hash 64 8 (length_field true 8) (be_bytes 4) sha256_compress fips_iv224 28.

(** * The code computes it *)

Lemma K256_fips : K256 = fips_K.
Proof. vm_compute. reflexivity. Qed.
Lemma iv256_fips : h SHA256_Init = fips_iv256.
Proof. vm_compute. reflexivity. Qed.
Lemma iv224_fips : h SHA224_Init = fips_iv224.
Proof. vm_compute. reflexivity. Qed.

Lemma sha256_Sigma0_fips x : fits 32 x → Sigma0 x = fips_Sigma0 x.
Proof. intros Hx. unfold Sigma0, fips_Sigma0. by rewrite !rotr_u32_eq by (done || lia). Qed.
Lemma sha256_Sigma1_fips x : fits 32 x → Sigma1 x = fips_Sigma1 x.
Proof. intros Hx. unfold Sigma1, fips_Sigma1. by rewrite !rotr_u32_eq by (done || lia). Qed.
Lemma sha256_sigma0_fips x : fits 32 x → sigma0 x = fips_sigma0 x.
Proof. intros Hx. unfold sigma0, fips_sigma0. by rewrite !rotr_u32_eq by (done || lia). Qed.
Lemma sha256_sigma1_fips x : fits 32 x → sigma1 x = fips_sigma1 x.
Proof. intros Hx. unfold sigma1, fips_sigma1. by rewrite !rotr_u32_eq by (done || lia). Qed.

Definition sha256_turn : list Z → bytes → list Z := block_turn 32 Sigma0 Sigma1 sigma0 sigma1 K256 64.

#[local] Instance sha256_blocks : BlockFunc 64 sha256_turn sha256_block_data_order.
Proof.
  apply (block_data_order_blocks 32); first [lia|done].
Qed.

Lemma sha256_chain s msg :
  state_ok 32 s → bytes_ok msg →
  chain 64 sha256_turn s msg = chain 64 sha256_compress s msg ∧ state_ok 32 (chain 64 sha256_turn s msg).
Proof.
  unfold sha256_compress. rewrite <-K256_fips.
  apply (chain_fips 32); first [lia|apply sha256_Sigma0_fips|apply sha256_Sigma1_fips|apply sha256_sigma0_fips|apply sha256_sigma1_fips|done].
Qed.

(** A context between the calls, for either of the two initial values. *)
Definition sha256_seen (iv : list Z) (mdl : Z) : md_ctx → bytes → Prop := in_use 64 32 sha256_turn iv mdl.

Lemma sha256_update_seen iv mdl c msg input :
  sha256_seen iv mdl c msg → bytes_ok input → lenZ input < 2 ^ 64 →
  sha256_seen iv mdl (SHA256_Update c input) (msg ++ input).
Proof. intros. by apply update_in_use; [|apply sha256_blocks|..]. Qed.

Lemma sha256_final_seen iv mdl c msg :
  sha256_seen iv mdl c msg → state_ok 32 iv → 0 <= mdl <= 32 → (4 | mdl) →
  (sha256_final_impl c).2 = Some (md_hash 64 8 (length_field true 8) (be_bytes 4) sha256_compress iv mdl msg).
Proof.
  intros (Ha & Hc & Hm & Hok) Hiv Hmdl [k Hk]. unfold sha256_final_impl. cbv zeta.
  assert (md_len (crypto_md32_final sha256_block_data_order SHA256_CBLOCK c true) = mdl) as Em
    by (unfold crypto_md32_final; by destruct (if _ <? _ then _ else _) as [[??]?]).
  rewrite Em. change SHA256_DIGEST_LENGTH with 32. rewrite (proj2 (Z.ltb_ge 32 mdl)) by lia. cbn [snd].
  unfold SHA256_CBLOCK. rewrite (md32_final_spec 64 ltac:(lia) sha256_turn _ iv c msg true Ha Hc).
  unfold md_hash. set (p := padding _ _ _ _).
  destruct (sha256_chain iv (msg ++ p) Hiv) as [E [Hl _]].
  { apply bytes_ok_app. split; [done|]. apply padding_ok, length_field_ok. }
  rewrite store_words_take; rewrite ?E in *; [|rewrite Hl, Hk, Z.div_mul; lia].
  do 2 f_equal. rewrite Hk, Z.div_mul; lia.
Qed.

(** Digests have their lengths. *)
Lemma sha256_hash_spec iv mdl msg :
  state_ok 32 iv → 0 <= mdl <= 32 → bytes_ok msg →
  let d := md_hash 64 8 (length_field true 8) (be_bytes 4) sha256_compress iv mdl msg in bytes_ok d ∧ lenZ d = mdl.
Proof.
  intros Hiv Hm Hok.
  destruct (sha256_chain iv (msg ++ padding 64 8 (length_field true 8 (lenZ msg)) (lenZ msg)) Hiv) as [E [Hl _]].
  { apply bytes_ok_app. split; [done|]. apply padding_ok, length_field_ok. }
  rewrite E in Hl. exact (md_hash_spec 64 8 (length_field true 8) 4 _ _ mdl msg 8 Hl Hm false).
Qed.

Lemma sha256_chunks iv mdl chunks c msg :
  sha256_seen iv mdl c msg → Forall (λ x, bytes_ok x ∧ lenZ x < 2 ^ 64) chunks →
  sha256_seen iv mdl (fold_left SHA256_Update chunks c) (msg ++ concat chunks).
Proof.
  intros Hc H. revert c msg Hc. induction H as [|x chunks [Hx Hl] _ IH]; intros c msg Hc; cbn [fold_left concat].
  - by rewrite app_nil_r.
  - rewrite app_assoc. by apply IH, sha256_update_seen.
Qed.

Lemma sha256_init_seen : sha256_seen fips_iv256 32 SHA256_Init [].
Proof. rewrite <-iv256_fips. by apply fresh_in_use. Qed.
Lemma sha224_init_seen : sha256_seen fips_iv224 28 SHA224_Init [].
Proof. rewrite <-iv224_fips. by apply fresh_in_use. Qed.

Lemma iv256_ok : state_ok 32 fips_iv256 ∧ state_ok 32 fips_iv224.
Proof. rewrite <-iv256_fips, <-iv224_fips. by split; split; [|apply (bool_decide_unpack _); vm_compute| |apply (bool_decide_unpack _); vm_compute]. Qed.

(** C12. The message may be given to [SHA256_Update] and [SHA224_Update] in pieces of any sizes, empty
    ones included: [SHA256_Final] and [SHA224_Final] write the digest FIPS 180-4 defines for the whole
    message, with the constants computed from the primes. *)
Theorem sha256_stream chunks :
  Forall (λ x, bytes_ok x ∧ lenZ x < 2 ^ 64) chunks →
  (SHA256_Final (fold_left SHA256_Update chunks SHA256_Init)).2 = Some (fips_sha256 (concat chunks)) ∧
  (SHA224_Final (fold_left SHA224_Update chunks SHA224_Init)).2 = Some (fips_sha224 (concat chunks)).
Proof.
  intros H. split.
  - eapply (sha256_final_seen fips_iv256 32); [|apply iv256_ok|lia|by exists 8].
    by apply (sha256_chunks _ _ _ _ [] sha256_init_seen).
  - eapply (sha256_final_seen fips_iv224 28); [|apply iv256_ok|lia|by exists 7].
    by apply (sha256_chunks _ _ _ _ [] sha224_init_seen).
Qed.

(** The message [abc] in two pieces, and a message whose padding takes a second block. *)
Lemma sha256_stream_witness :
  (SHA256_Final (fold_left SHA256_Update [[97]; []; [98; 99]] SHA256_Init)).2 =
    Some [0xba; 0x78; 0x16; 0xbf; 0x8f; 0x01; 0xcf; 0xea; 0x41; 0x41; 0x40; 0xde; 0x5d; 0xae; 0x22; 0x23;
          0xb0; 0x03; 0x61; 0xa3; 0x96; 0x17; 0x7a; 0x9c; 0xb4; 0x10; 0xff; 0x61; 0xf2; 0x00; 0x15; 0xad] ∧
  (SHA256_Final (fold_left SHA256_Update [replicate 60 0] SHA256_Init)).2 = Some (fips_sha256 (concat [replicate 60 0])).
Proof.
  split; [vm_compute; reflexivity|].
  refine (proj1 (sha256_stream [replicate 60 0] _)). apply (bool_decide_unpack _). vm_compute. exact I.
Defined.
