(* ===== verification/Sha512.v ===== *)
(** SHA-384, SHA-512 and SHA-512/256:
    src/HolyWater-Test/Pods/BoringSSL-GRPC/src/crypto/fipsmodule/sha/sha512.c, which has a collector of
    its own with 64-bit counters, against FIPS 180-4. *)
From S2P Require Import Prelude Md32 Rounds Sha2 FipsConst.

Open Scope Z_scope.

(** * The code

    The field [p] of [SHA512_CTX] is [data] here; the initialisers leave it as it was. *)

Definition SHA512_CBLOCK : Z := 128.
Definition SHA384_DIGEST_LENGTH : Z := 48.
Definition SHA512_DIGEST_LENGTH : Z := 64.
Definition SHA512_256_DIGEST_LENGTH : Z := 32.

Definition SHA384_Init (sha : md_ctx) : md_ctx :=
  {| h := [0xcbbb9d5dc1059ed8; 0x629a292a367cd507; 0x9159015a3070dd17; 0x152fecd8f70e5939;
          0x67332667ffc00b31; 0x8eb44a8768581511; 0xdb0c2e0d64f98fa7; 0x47b5481dbefa4fa4];
     Nl := 0; Nh := 0; data := data sha; num := 0; md_len := SHA384_DIGEST_LENGTH |}.

Definition SHA512_Init (sha : md_ctx) : md_ctx :=
  {| h := [0x6a09e667f3bcc908; 0xbb67ae8584caa73b; 0x3c6ef372fe94f82b; 0xa54ff53a5f1d36f1;
          0x510e527fade682d1; 0x9b05688c2b3e6c1f; 0x1f83d9abfb41bd6b; 0x5be0cd19137e2179];
     Nl := 0; Nh := 0; data := data sha; num := 0; md_len := SHA512_DIGEST_LENGTH |}.

Definition SHA512_256_Init (sha : md_ctx) : md_ctx :=
  {| h := [0x22312194fc2bf72c; 0x9f555fa3c84c64c2; 0x2393b86b6f53b151; 0x963877195940eabd;
          0x96283ee2a88effe3; 0xbe5e1e2553863992; 0x2b0199fc2c85b8aa; 0x0eb72ddc81c52ca2];
     Nl := 0; Nh := 0; data := data sha; num := 0; md_len := SHA512_256_DIGEST_LENGTH |}.

Definition K512 : list Z := [
    0x428a2f98d728ae22; 0x7137449123ef65cd; 0xb5c0fbcfec4d3b2f; 0xe9b5dba58189dbbc;
    0x3956c25bf348b538; 0x59f111f1b605d019; 0x923f82a4af194f9b; 0xab1c5ed5da6d8118;
    0xd807aa98a3030242; 0x12835b0145706fbe; 0x243185be4ee4b28c; 0x550c7dc3d5ffb4e2;
    0x72be5d74f27b896f; 0x80deb1fe3b1696b1; 0x9bdc06a725c71235; 0xc19bf174cf692694;
    0xe49b69c19ef14ad2; 0xefbe4786384f25e3; 0x0fc19dc68b8cd5b5; 0x240ca1cc77ac9c65;
    0x2de92c6f592b0275; 0x4a7484aa6ea6e483; 0x5cb0a9dcbd41fbd4; 0x76f988da831153b5;
    0x983e5152ee66dfab; 0xa831c66d2db43210; 0xb00327c898fb213f; 0xbf597fc7beef0ee4;
    0xc6e00bf33da88fc2; 0xd5a79147930aa725; 0x06ca6351e003826f; 0x142929670a0e6e70;
    0x27b70a8546d22ffc; 0x2e1b21385c26c926; 0x4d2c6dfc5ac42aed; 0x53380d139d95b3df;
    0x650a73548baf63de; 0x766a0abb3c77b2a8; 0x81c2c92e47edaee6; 0x92722c851482353b;
    0xa2bfe8a14cf10364; 0xa81a664bbc423001; 0xc24b8b70d0f89791; 0xc76c51a30654be30;
    0xd192e819d6ef5218; 0xd69906245565a910; 0xf40e35855771202a; 0x106aa07032bbd1b8;
    0x19a4c116b8d2d0c8; 0x1e376c085141ab53; 0x2748774cdf8eeb99; 0x34b0bcb5e19b48a8;
    0x391c0cb3c5c95a63; 0x4ed8aa4ae3418acb; 0x5b9cca4f7763e373; 0x682e6ff3d6b2b8a3;
    0x748f82ee5defb2fc; 0x78a5636f43172f60; 0x84c87814a1f0ab72; 0x8cc702081a6439ec;
    0x90befffa23631e28; 0xa4506cebde82bde9; 0xbef9a3f7b2c67915; 0xc67178f2e372532b;
    0xca273eceea26619c; 0xd186b8c721c0c207; 0xeada7dd6cde0eb1e; 0xf57d4f7fee6ed178;
    0x06f067aa72176fba; 0x0a637dc5a2c898a6; 0x113f9804bef90dae; 0x1b710b35131c471b;
    0x28db77f523047d84; 0x32caab7b40c72493; 0x3c9ebe0a15c9bebc; 0x431d67c49c100d4c;
    0x4cc5d4becb3e42b6; 0x597f299cfc657e2a; 0x5fcb6fab3ad6faec; 0x6c44198c4a475817].

Definition Sigma0 (x : Z) : Z := CRYPTO_rotr_u64 x 28 .^ CRYPTO_rotr_u64 x 34 .^ CRYPTO_rotr_u64 x 39.
Definition Sigma1 (x : Z) : Z := CRYPTO_rotr_u64 x 14 .^ CRYPTO_rotr_u64 x 18 .^ CRYPTO_rotr_u64 x 41.
Definition sigma0 (x : Z) : Z := CRYPTO_rotr_u64 x 1 .^ CRYPTO_rotr_u64 x 8 .^ (x ≫ 7).
Definition sigma1 (x : Z) : Z := CRYPTO_rotr_u64 x 19 .^ CRYPTO_rotr_u64 x 61 .^ (x ≫ 6).

Definition sha512_block_data_order : block_func :=
  block_data_order 64 Sigma0 Sigma1 sigma0 sigma1 K512 80.

Definition SHA512_Transform (c : md_ctx) (block : bytes) : md_ctx :=
  set_block c (sha512_block_data_order (h c) block 1) (data c) (num c).

(** The part of the update after the partial block. *)
Definition sha512_blocks (c : md_ctx) (data' : bytes) : md_ctx :=
  let len := lenZ data' in
  let '(h', rest') :=
    if SHA512_CBLOCK <=? len then
      (sha512_block_data_order (h c) data' (len / SHA512_CBLOCK), dropZ (len - len mod SHA512_CBLOCK) data')
    else (h c, data') in
  let len := lenZ rest' in
  if negb (len =? 0) then set_block c h' (write_at (data c) 0 rest') len
  else set_block c h' (data c) (num c).

Definition SHA512_Update (c : md_ctx) (in_data : bytes) : md_ctx :=
  let len := lenZ in_data in
  if len =? 0 then c
  else
    let l := u64 (Nl c + u64 (u64 len ≪ 3)) .& 0xffffffffffffffff in
    let hi := if l <? Nl c then u64 (Nh c + 1) else Nh c in
    let hi := u64 (hi + (u64 len ≫ 61)) in
    let c := {| h := h c; Nl := l; Nh := hi; data := data c; num := num c; md_len := md_len c |} in
    if negb (num c =? 0) then
      let n := SHA512_CBLOCK - num c in
      if len <? n then set_block c (h c) (write_at (data c) (num c) in_data) (u32 (num c + u32 len))
      else
        let p := write_at (data c) (num c) (takeZ n in_data) in
        let c := set_block c (sha512_block_data_order (h c) p 1) p 0 in
        sha512_blocks c (dropZ n in_data)
    else sha512_blocks c in_data.
Definition SHA384_Update (sha : md_ctx) (data : bytes) : md_ctx := SHA512_Update sha data.
Definition SHA512_256_Update (sha : md_ctx) (data : bytes) : md_ctx := SHA512_Update sha data.

Definition CRYPTO_store_u64_be (v : Z) : bytes := be_bytes 8 v.

(** [out] may be NULL. *)
Definition sha512_final_impl (out_null : bool) (sha : md_ctx) : md_ctx * option bytes :=
  let p := write_at (data sha) (num sha) [0x80] in
  let n := num sha + 1 in
  let '(h', p, n) :=
    if SHA512_CBLOCK - 16 <? n then
      let p := zero_from p n (SHA512_CBLOCK - n) in (sha512_block_data_order (h sha) p 1, p, 0)
    else (h sha, p, n) in
  let p := zero_from p n (SHA512_CBLOCK - 16 - n) in
  let p := write_at p (SHA512_CBLOCK - 16) (CRYPTO_store_u64_be (Nh sha)) in
  let p := write_at p (SHA512_CBLOCK - 8) (CRYPTO_store_u64_be (Nl sha)) in
  let sha := set_block sha (sha512_block_data_order h' p 1) p (num sha) in
  if out_null then (sha, None)
  else
    let out_words := md_len sha / 8 in
    (sha, Some (store_words 8 (Z.to_nat out_words) (h sha))).

Definition SHA512_Final (out_null : bool) (sha : md_ctx) : md_ctx * option bytes := sha512_final_impl out_null sha.
Definition SHA384_Final (out_null : bool) (sha : md_ctx) : md_ctx * option bytes := sha512_final_impl out_null sha.
Definition SHA512_256_Final (out_null : bool) (sha : md_ctx) : md_ctx * option bytes := sha512_final_impl out_null sha.

(** [ctx] is the contents of the local variable before it is initialised. *)
Definition SHA384 (ctx : md_ctx) (data : bytes) : option bytes :=
  (SHA384_Final false (SHA384_Update (SHA384_Init ctx) data)).2.
Definition SHA512 (ctx : md_ctx) (data : bytes) : option bytes :=
  (SHA512_Final false (SHA512_Update (SHA512_Init ctx) data)).2.
Definition SHA512_256 (ctx : md_ctx) (data : bytes) : option bytes :=
  (SHA512_256_Final false (SHA512_256_Update (SHA512_256_Init ctx) data)).2.

(** * FIPS 180-4 *)

Definition fips_K : list Z := map (frac_cbrt 64) (first_primes 80 420).
Definition fips_Sigma0 (x : Z) : Z := rotr 64 28 x .^ rotr 64 34 x .^ rotr 64 39 x.
Definition fips_Sigma1 (x : Z) : Z := rotr 64 14 x .^ rotr 64 18 x .^ rotr 64 41 x.
Definition fips_sigma0 (x : Z) : Z := rotr 64 1 x .^ rotr 64 8 x .^ (x ≫ 7).
Definition fips_sigma1 (x : Z) : Z := rotr 64 19 x .^ rotr 64 61 x .^ (x ≫ 6).

Definition sha512_compress : list Z → bytes → list Z :=
  fips_compress 64 fips_K 80 fips_Sigma0 fips_Sigma1 fips_sigma0 fips_sigma1.

Definition sha512_hash (iv : list Z) (md_len : Z) : bytes → bytes :=
  md_hash 128 16 (length_field true 16) (be_bytes 8) sha512_compress iv md_len.

Definition fips_iv512 : list Z := map (frac_sqrt 64) (first_primes 8 20).
Definition fips_iv384 : list Z := map (frac_sqrt 64) (drop 8 (first_primes 16 60)).
Definition fips_sha512 : bytes → bytes := sha512_hash fips_iv512 64.
Definition fips_sha384 : bytes → bytes := sha512_hash fips_iv384 48.

(** SHA-512/t: the initial value is the hash of the function's name [SHA-512/256] from a modified one. *)
Definition fips_iv512_256 : list Z :=
  chain 128 sha512_compress (map (λ x, x .^ 0xa5a5a5a5a5a5a5a5) fips_iv512)
    (let name := [0x53; 0x48; 0x41; 0x2d; 0x35; 0x31; 0x32; 0x2f; 0x32; 0x35; 0x36] in
     name ++ padding 128 16 (length_field true 16 (lenZ name)) (lenZ name)).
Definition fips_sha512_256 : bytes → bytes := sha512_hash fips_iv512_256 32.

(** * The code computes it *)

Lemma K512_fips : K512 = fips_K.
Proof. vm_compute. reflexivity. Qed.
Lemma iv512_fips sha : h (SHA512_Init sha) = fips_iv512.
Proof. vm_compute. reflexivity. Qed.
Lemma iv384_fips sha : h (SHA384_Init sha) = fips_iv384.
Proof. vm_compute. reflexivity. Qed.
Lemma iv512_256_fips sha : h (SHA512_256_Init sha) = fips_iv512_256.
Proof. unfold fips_iv512_256, sha512_compress. rewrite <-K512_fips, <-(iv512_fips sha). vm_compute. reflexivity. Qed.

Lemma sha512_Sigma0_fips x : fits 64 x → Sigma0 x = fips_Sigma0 x.
Proof. intros Hx. unfold Sigma0, fips_Sigma0. by rewrite !rotr_u64_eq by (done || lia). Qed.
Lemma sha512_Sigma1_fips x : fits 64 x → Sigma1 x = fips_Sigma1 x.
Proof. intros Hx. unfold Sigma1, fips_Sigma1. by rewrite !rotr_u64_eq by (done || lia). Qed.
Lemma sha512_sigma0_fips x : fits 64 x → sigma0 x = fips_sigma0 x.
Proof. intros Hx. unfold sigma0, fips_sigma0. by rewrite !rotr_u64_eq by (done || lia). Qed.
Lemma sha512_sigma1_fips x : fits 64 x → sigma1 x = fips_sigma1 x.
Proof. intros Hx. unfold sigma1, fips_sigma1. by rewrite !rotr_u64_eq by (done || lia). Qed.

Definition sha512_turn : list Z → bytes → list Z := block_turn 64 Sigma0 Sigma1 sigma0 sigma1 K512 80.

#[local] Instance sha512_blocks_ok : BlockFunc 128 sha512_turn sha512_block_data_order.
Proof.
  apply (block_data_order_blocks 64); first [lia|done].
Qed.

Lemma sha512_chain s msg :
  state_ok 64 s → bytes_ok msg →
  chain 128 sha512_turn s msg = chain 128 sha512_compress s msg ∧ state_ok 64 (chain 128 sha512_turn s msg).
Proof.
  unfold sha512_compress. rewrite <-K512_fips.
  apply (chain_fips 64); first [lia|apply sha512_Sigma0_fips|apply sha512_Sigma1_fips|apply sha512_sigma0_fips|apply sha512_sigma1_fips|done].
Qed.

(** ** Collecting, as in md32_common.h *)

Lemma sha512_blocks_md32 c input :
  lenZ (data c) = 128 → num c = 0 → lenZ input < 2 ^ 64 →
  sha512_blocks c input = md32_blocks sha512_block_data_order 128 c input.
Proof.
  intros Hd Hn Hl. unfold sha512_blocks, md32_blocks. change SHA512_CBLOCK with 128. pose proof (lenZ_nonneg input) as H0.
  pose proof (Z.div_mod (lenZ input) 128 ltac:(lia)) as Hdiv. pose proof (Z.mod_pos_bound (lenZ input) 128 ltac:(lia)).
  assert ((0 <? lenZ input / 128) = (128 <=? lenZ input)) as -> by (apply Bool.eq_iff_eq_true; rewrite Z.ltb_lt, Z.leb_le; lia).
  replace (lenZ input - lenZ input mod 128) with (lenZ input / 128 * 128) by lia.
  destruct (Z.leb_spec 128 (lenZ input)) as [Hge|Hlt].
  - assert (lenZ (dropZ (lenZ input / 128 * 128) input) = lenZ input mod 128) as -> by (rewrite lenZ_dropZ; lia).
    destruct (negb _); [|done]. by rewrite wrap_small by (split; mlia).
  - destruct (negb _); [|done]. by rewrite wrap_small by (split; mlia).
Qed.

Definition sha512_seen (iv : list Z) (mdl : Z) : md_ctx → bytes → Prop := in_use 128 64 sha512_turn iv mdl.

Lemma sha512_absorbed iv c msg input :
  absorbed 128 sha512_turn iv c msg → lenZ input < 2 ^ 64 →
  absorbed 128 sha512_turn iv (SHA512_Update c input) (msg ++ input).
Proof.
  intros Hc Hl. pose proof Hc as (Hh & Hn & Ht & Hd). unfold SHA512_Update.
  pose proof (rest_lt 128 ltac:(lia) msg) as Hr. pose proof (lenZ_nonneg input) as H0.
  destruct (Z.eqb_spec (lenZ input) 0) as [Hz|Hz].
  { apply Z.eq_le_incl, lenZ_0_nil in Hz as ->. by rewrite app_nil_r. }
  cbv zeta. set (c1 := {| h := h c |}). assert (absorbed 128 sha512_turn iv c1 msg) as Hc1 by done.
  change (num c1) with (num c). change SHA512_CBLOCK with 128. unfold absorbed. rewrite chain_app, rest_app by lia.
  destruct (Z.eqb_spec (num c) 0) as [Hn0|Hn0]; cbn [negb].
  - rewrite sha512_blocks_md32 by done.
    pose proof (lenZ_0_nil _ (Z.eq_le_incl _ _ (eq_trans (eq_sym Hn) Hn0))) as Hnil. rewrite Hnil, <-Hh.
    by apply (md32_blocks_spec 128 ltac:(lia) sha512_turn sha512_block_data_order c1).
  - destruct (Z.ltb_spec (lenZ input) (128 - num c)) as [Hshort|Hfull].
    + destruct (fill 128 ltac:(lia) sha512_turn iv c1 msg input Hc1) as [H1 H2]; [change (num c1) with (num c); lia|].
      change (num c1) with (num c) in *. change (data c1) with (data c) in *.
      cbn [set_block h num data]. rewrite (wrap_small 32 (lenZ input)) by (split; mlia).
      rewrite wrap_small by (split; mlia). rewrite chain_short, rest_short by (rewrite ?lenZ_app; lia).
      rewrite lenZ_app. split; [done|]. split; [lia|done].
    + set (x := takeZ (128 - num c) input).
      assert (lenZ x = 128 - num c) as Hx by (apply lenZ_takeZ; lia).
      destruct (fill 128 ltac:(lia) sha512_turn iv c1 msg x Hc1) as [H1 H2]; [change (num c1) with (num c); lia|].
      change (num c1) with (num c) in *. change (data c1) with (data c) in *. change (h c1) with (h c).
      rewrite takeZ_all in H1 by lia.
      assert (lenZ (rest 128 msg ++ x) = 128) as Hb by (rewrite lenZ_app; lia).
      assert (rest 128 msg ++ input = (rest 128 msg ++ x) ++ dropZ (128 - num c) input) as ->
        by (unfold x; by rewrite <-app_assoc, takeZ_dropZ).
      rewrite sha512_blocks_md32; [|cbn [set_block data]; lia|done|rewrite lenZ_dropZ; lia].
      rewrite (one_block 128 sha512_turn _ (h c)), H1, Hh by done.
      rewrite (chain_block 128 ltac:(lia) sha512_turn), (rest_block 128 ltac:(lia)) by done.
      apply (md32_blocks_spec 128 ltac:(lia) sha512_turn sha512_block_data_order (set_block c1 _ _ _)); [|done|rewrite lenZ_dropZ; lia].
      cbn [set_block data]. lia.
Qed.

Lemma sha512_blocks_counts c input : let c' := sha512_blocks c input in Nl c' = Nl c ∧ Nh c' = Nh c ∧ md_len c' = md_len c.
Proof. cbv zeta. unfold sha512_blocks. cbv zeta. destruct (if SHA512_CBLOCK <=? _ then _ else _). by destruct (negb _). Qed.

Lemma sha512_counted c msg input :
  counted 64 c msg → lenZ input < 2 ^ 64 →
  counted 64 (SHA512_Update c input) (msg ++ input) ∧ md_len (SHA512_Update c input) = md_len c.
Proof.
  intros (Hlo & Hhi & E) Hl. unfold SHA512_Update. pose proof (lenZ_nonneg input) as H0.
  destruct (Z.eqb_spec (lenZ input) 0) as [Hz|Hz].
  { apply Z.eq_le_incl, lenZ_0_nil in Hz as ->. by rewrite app_nil_r. }
  pose proof (count_step 64 (Nl c) (Nh c) (lenZ input) (8 * lenZ msg) ltac:(lia) H0 Hlo Hhi E) as Hstep.
  unfold counted. rewrite lenZ_app, Z.mul_add_distr_l. cbv zeta in *.
  assert (∀ x, wrap 64 x .& 0xffffffffffffffff = wrap 64 x) as Hmask.
  { intros x. change 0xffffffffffffffff with (2 ^ 64 - 1). rewrite land_mask by lia. apply Z.mod_mod. rewrite pow2_64. lia. }
  rewrite Hmask. rewrite (wrap_small 64 (lenZ input ≫ (64 - 3))) in Hstep.
  2:{ rewrite shiftr_div by lia. change (2 ^ (64 - 3)) with 2305843009213693952. split; mlia. }
  change (64 - 3) with 61 in Hstep. rewrite (wrap_small 64 (lenZ input)) in Hstep |- * by (split; mlia).
  set (c1 := {| h := h c |}).
  destruct (negb (num c1 =? 0)); [destruct (lenZ input <? _)|];
    try (destruct (sha512_blocks_counts c1 input) as (-> & -> & ->));
    try (match goal with |- context [sha512_blocks ?c ?i] => destruct (sha512_blocks_counts c i) as (-> & -> & ->) end);
    split; first [exact Hstep|done].
Qed.

Lemma sha512_update_seen iv mdl c msg input :
  sha512_seen iv mdl c msg → bytes_ok input → lenZ input < 2 ^ 64 →
  sha512_seen iv mdl (SHA512_Update c input) (msg ++ input).
Proof.
  intros (Ha & Hc & Hm & Hok) Hi Hl. destruct (sha512_counted c msg input Hc Hl) as [Hc' Hm'].
  split; [by apply sha512_absorbed|]. split; [done|]. split; [congruence|]. by apply bytes_ok_app.
Qed.

(** ** The last blocks *)

Lemma sha512_field (b a : bytes) c msg :
  takeZ 112 b = a → lenZ a = 112 → lenZ b = 128 → counted 64 c msg →
  write_at (write_at b 112 (CRYPTO_store_u64_be (Nh c))) 120 (CRYPTO_store_u64_be (Nl c)) =
    a ++ length_field true 16 (lenZ msg).
Proof.
  intros Ht Ha Hb Hc. unfold CRYPTO_store_u64_be, length_field.
  change (be_bytes 16 (8 * lenZ msg)) with (be_bytes (8 + 8) (8 * lenZ msg)).
  rewrite <-(counters_bytes 64 8 c msg eq_refl Hc).
  destruct (extend b 112 (be_bytes 8 (Nh c)) a Ht Ha) as [H1 H2]; [rewrite lenZ_be_bytes; lia|].
  rewrite lenZ_be_bytes in H1. change (112 + Z.of_nat 8) with 120 in H1.
  destruct (extend (write_at b 112 (be_bytes 8 (Nh c))) 120 (be_bytes 8 (Nl c)) _ H1) as [H3 H4];
    [rewrite lenZ_app, lenZ_be_bytes; lia|rewrite lenZ_be_bytes; lia|].
  rewrite lenZ_be_bytes, takeZ_all in H3 by lia. by rewrite H3, <-app_assoc.
Qed.

Lemma sha512_final_chain iv c msg :
  absorbed 128 sha512_turn iv c msg → counted 64 c msg →
  h (sha512_final_impl false c).1 =
    chain 128 sha512_turn iv (msg ++ padding 128 16 (length_field true 16 (lenZ msg)) (lenZ msg)).
Proof.
  intros Hc Hcount. pose proof Hc as (Hh & Hn & Ht & Hd). pose proof (rest_lt 128 ltac:(lia) msg) as Hr.
  assert (lenZ (length_field true 16 (lenZ msg)) = 16) as Hlf by apply lenZ_be_bytes.
  rewrite <-(final_chain 128 ltac:(lia) sha512_turn iv 16 ltac:(lia)) by done.
  set (p := rest 128 msg) in *. unfold final_blocks, sha512_final_impl. rewrite Hn, Hh. change SHA512_CBLOCK with 128.
  destruct (extend (data c) (lenZ p) [0x80] p ltac:(by rewrite <-Hn) eq_refl ltac:(change (lenZ [0x80]) with 1; lia))
    as [H1 H2].
  change (lenZ [0x80]) with 1 in H1. set (b1 := write_at (data c) (lenZ p) [0x80]) in *. rewrite Hd in H2.
  assert (lenZ (p ++ [0x80]) = lenZ p + 1) as Hp1 by (rewrite lenZ_app; done). cbv zeta.
  change (128 - 16) with 112. change (128 - 8) with 120.
  assert (∀ s b a, takeZ 112 b = a → lenZ a = 112 → lenZ b = 128 →
    sha512_block_data_order s (write_at (write_at b 112 (CRYPTO_store_u64_be (Nh c))) 120 (CRYPTO_store_u64_be (Nl c))) 1 =
      sha512_turn s (a ++ length_field true 16 (lenZ msg))) as Hend.
  { intros s b a Hb Ha Hlb. rewrite (sha512_field b a c msg) by done.
    apply (one_block 128 sha512_turn sha512_block_data_order s). rewrite lenZ_app. lia. }
  destruct (Z.ltb_spec 112 (lenZ p + 1)) as [Hlt|Hge]; cbn [set_block h Nh Nl fst].
  - set (b2 := zero_from b1 (lenZ p + 1) (128 - (lenZ p + 1))).
    assert (lenZ b2 = 128) as Hb2 by (unfold b2; rewrite zero_from_length; lia).
    pose proof (zero_extend b1 (lenZ p + 1) (128 - (lenZ p + 1)) _ H1 Hp1 ltac:(lia) ltac:(lia)) as H3.
    fold b2 in H3. rewrite takeZ_all in H3 by lia. rewrite <-app_assoc in H3.
    rewrite (Hend _ _ (replicate (Z.to_nat 112) 0)).
    + rewrite (one_block 128 sha512_turn sha512_block_data_order _ b2 Hb2). by rewrite H3.
    + pose proof (zero_extend b2 0 112 [] (takeZ_0 _) eq_refl ltac:(lia) ltac:(lia)) as H4. exact H4.
    + rewrite lenZ_replicate. lia.
    + rewrite zero_from_length; lia.
  - rewrite (Hend _ _ ((p ++ [0x80]) ++ replicate (Z.to_nat (112 - (lenZ p + 1))) 0)).
    + by rewrite <-!app_assoc.
    + rewrite <-(zero_extend b1 _ _ _ H1) by lia. f_equal. lia.
    + rewrite lenZ_app, lenZ_replicate. lia.
    + rewrite zero_from_length; lia.
Qed.

Lemma sha512_final_out iv mdl c msg :
  sha512_seen iv mdl c msg → state_ok 64 iv → 0 <= mdl <= 64 → (8 | mdl) →
  (sha512_final_impl false c).2 = Some (sha512_hash iv mdl msg).
Proof.
  intros (Ha & Hc & Hm & Hok) Hiv Hmdl [k Hk]. pose proof (sha512_final_chain iv c msg Ha Hc) as E0.
  assert ((sha512_final_impl false c).2 =
    Some (store_words 8 (Z.to_nat (mdl / 8)) (h (sha512_final_impl false c).1))) as ->.
  { rewrite <-Hm. unfold sha512_final_impl. cbv zeta. by destruct (if _ <? _ then _ else _) as [[??]?]. }
  rewrite E0. unfold sha512_hash, md_hash. set (p := padding _ _ _ _).
  destruct (sha512_chain iv (msg ++ p) Hiv) as [E [Hl _]].
  { apply bytes_ok_app. split; [done|]. apply padding_ok, length_field_ok. }
  rewrite store_words_take; rewrite ?E in *; [|rewrite Hl, Hk, Z.div_mul; lia].
  do 2 f_equal. rewrite Hk, Z.div_mul; lia.
Qed.

(** Digests have their lengths. *)
Lemma sha512_hash_spec iv mdl msg :
  state_ok 64 iv → 0 <= mdl <= 64 → bytes_ok msg →
  bytes_ok (sha512_hash iv mdl msg) ∧ lenZ (sha512_hash iv mdl msg) = mdl.
Proof.
  intros Hiv Hm Hok.
  destruct (sha512_chain iv (msg ++ padding 128 16 (length_field true 16 (lenZ msg)) (lenZ msg)) Hiv) as [E [Hl _]].
  { apply bytes_ok_app. split; [done|]. apply padding_ok, length_field_ok. }
  rewrite E in Hl. exact (md_hash_spec 128 16 (length_field true 16) 8 _ _ mdl msg 8 Hl Hm false).
Qed.

Lemma sha512_chunks iv mdl chunks c msg :
  sha512_seen iv mdl c msg → Forall (λ x, bytes_ok x ∧ lenZ x < 2 ^ 64) chunks →
  sha512_seen iv mdl (fold_left SHA512_Update chunks c) (msg ++ concat chunks).
Proof.
  intros Hc H. revert c msg Hc. induction H as [|x chunks [Hx Hl] _ IH]; intros c msg Hc; cbn [fold_left concat].
  - by rewrite app_nil_r.
  - rewrite app_assoc. by apply IH, sha512_update_seen.
Qed.

Lemma sha512_init_seen ctx : lenZ (data ctx) = 128 → sha512_seen fips_iv512 64 (SHA512_Init ctx) [].
Proof. intros Hd. rewrite <-(iv512_fips ctx). by apply fresh_in_use. Qed.
Lemma sha384_init_seen ctx : lenZ (data ctx) = 128 → sha512_seen fips_iv384 48 (SHA384_Init ctx) [].
Proof. intros Hd. rewrite <-(iv384_fips ctx). by apply fresh_in_use. Qed.
Lemma sha512_256_init_seen ctx : lenZ (data ctx) = 128 → sha512_seen fips_iv512_256 32 (SHA512_256_Init ctx) [].
Proof. intros Hd. rewrite <-(iv512_256_fips ctx). by apply fresh_in_use. Qed.

Lemma init_words_ok (s : list Z) : bool_decide (length s = 8%nat ∧ Forall (fits 64) s) = true → state_ok 64 s.
Proof. apply bool_decide_eq_true. Qed.
(** Any context will do to name the initial values. *)
Definition some_ctx : md_ctx := {| h := []; Nl := 0; Nh := 0; data := []; num := 0; md_len := 0 |}.
Lemma iv512_ok : state_ok 64 fips_iv512.
Proof. rewrite <-(iv512_fips some_ctx). apply init_words_ok. vm_compute. reflexivity. Qed.
Lemma iv384_ok : state_ok 64 fips_iv384.
Proof. rewrite <-(iv384_fips some_ctx). apply init_words_ok. vm_compute. reflexivity. Qed.
Lemma iv512_256_ok : state_ok 64 fips_iv512_256.
Proof. rewrite <-(iv512_256_fips some_ctx). apply init_words_ok. vm_compute. reflexivity. Qed.

(** C13. SHA-512, SHA-384 and SHA-512/256 of a message given in pieces of any sizes are the digests of
    FIPS 180-4 of the whole message, whatever the context held before it was initialised; with a NULL
    output the last call fails. *)
Theorem sha512_stream ctx chunks :
  lenZ (data ctx) = 128 → Forall (λ x, bytes_ok x ∧ lenZ x < 2 ^ 64) chunks →
  let run init update final := (final (fold_left update chunks (init ctx))).2 in
  run SHA512_Init SHA512_Update (SHA512_Final false) = Some (fips_sha512 (concat chunks)) ∧
  run SHA384_Init SHA384_Update (SHA384_Final false) = Some (fips_sha384 (concat chunks)) ∧
  run SHA512_256_Init SHA512_256_Update (SHA512_256_Final false) = Some (fips_sha512_256 (concat chunks)) ∧
  run SHA512_Init SHA512_Update (SHA512_Final true) = None.
Proof.
  intros Hd H. cbv zeta. split; [|split; [|split]].
  - eapply (sha512_final_out fips_iv512 64); [|apply iv512_ok|lia|by exists 8].
    by apply (sha512_chunks _ _ _ _ [] (sha512_init_seen ctx Hd)).
  - eapply (sha512_final_out fips_iv384 48); [|apply iv384_ok|lia|by exists 6].
    by apply (sha512_chunks _ _ _ _ [] (sha384_init_seen ctx Hd)).
  - eapply (sha512_final_out fips_iv512_256 32); [|apply iv512_256_ok|lia|by exists 4].
    by apply (sha512_chunks _ _ _ _ [] (sha512_256_init_seen ctx Hd)).
  - unfold SHA512_Final, sha512_final_impl. cbv zeta. by destruct (if _ <? _ then _ else _) as [[??]?].
Qed.

(** A context full of ones, the message [abc] in two pieces, and one whose padding takes a second
    block. *)
Lemma sha512_stream_witness :
  let ctx := {| h := []; Nl := 1; Nh := 1; data := replicate 128 255; num := 77; md_len := 5 |} in
  takeZ 8 (default [] (SHA512 ctx [97; 98; 99])) = [0xdd; 0xaf; 0x35; 0xa1; 0x93; 0x61; 0x7a; 0xba] ∧
  (SHA512_Final false (fold_left SHA512_Update [replicate 100 1; replicate 20 2] (SHA512_Init ctx))).2 =
    Some (fips_sha512 (concat [replicate 100 1; replicate 20 2])).
Proof.
  split; [vm_compute; reflexivity|]. refine (proj1 (sha512_stream _ _ _ _)); [reflexivity|].
  apply (bool_decide_unpack _). vm_compute. exact I.
Defined.
