(* ===== verification/SipHash.v ===== *)
(** SipHash-2-4: src/HolyWater-Test/Pods/BoringSSL-GRPC/src/crypto/siphash/siphash.c,
    on a little-endian machine.  The definition it is shown to agree with is that of the paper by Aumasson and
    Bernstein, in terms of its own: half rounds, rotations by arithmetic, constants from their ASCII text. *)
From Stdlib Require Ascii String.
From S2P Require Import Prelude ConstTime Rounds.
Import String.StringSyntax.

(** [CRYPTO_rotl_u64] of crypto/internal.h. *)
Definition CRYPTO_rotl_u64 (value shift : Z) : Z :=
  u64 (value ≪ shift) .| (value ≫ ((- shift) .& 63)).

(** [uint64_t v[4]] *)
Definition sip_state : Type := Z * Z * Z * Z.

Definition siphash_round (v : sip_state) : sip_state :=
  let '(v0, v1, v2, v3) := v in
  let v0 := u64 (v0 + v1) in
  let v2 := u64 (v2 + v3) in
  let v1 := CRYPTO_rotl_u64 v1 13 in
  let v3 := CRYPTO_rotl_u64 v3 16 in
  let v1 := v1 .^ v0 in
  let v3 := v3 .^ v2 in
  let v0 := CRYPTO_rotl_u64 v0 32 in
  let v2 := u64 (v2 + v1) in
  let v0 := u64 (v0 + v3) in
  let v1 := CRYPTO_rotl_u64 v1 17 in
  let v3 := CRYPTO_rotl_u64 v3 21 in
  let v1 := v1 .^ v2 in
  let v3 := v3 .^ v0 in
  let v2 := CRYPTO_rotl_u64 v2 32 in
  (v0, v1, v2, v3).

(** The two rounds a word goes through. *)
Definition sip_word (v : sip_state) (m : Z) : sip_state :=
  let '(v0, v1, v2, v3) := v in
  let '(v0, v1, v2, v3) := siphash_round (siphash_round (v0, v1, v2, v3 .^ m)) in
  (v0 .^ m, v1, v2, v3).

(** [while (input_len >= sizeof(uint64_t))]: the state and the bytes left. *)
Fixpoint sip_loop (fuel : nat) (v : sip_state) (input : bytes) : sip_state * bytes :=
  match fuel with
  | O => (v, input)
  | S fuel =>
      if 8 <=? lenZ input then
        sip_loop fuel (sip_word v (le_value (takeZ 8 input))) (dropZ 8 input)
      else (v, input)
  end.

Definition SIPHASH_24 (key : Z * Z) (input : bytes) : Z :=
  let v := (key.1 .^ 0x736f6d6570736575, key.2 .^ 0x646f72616e646f6d,
            key.1 .^ 0x6c7967656e657261, key.2 .^ 0x7465646279746573) in
  let '(v, rest) := sip_loop (length input) v input in
  let last_block := write_at (replicate 8 0) 0 rest in
  let last_block := write_at last_block 7 [lenZ input .& 0xff] in
  let '(v0, v1, v2, v3) := sip_word v (le_value last_block) in
  let v := (v0, v1, v2 .^ 0xff, v3) in
  let '(v0, v1, v2, v3) :=
    siphash_round (siphash_round (siphash_round (siphash_round v))) in
  v0 .^ v1 .^ v2 .^ v3.

(** * SipHash-2-4 *)

(** Half of a round, on the registers in the order given, with two rotation counts; [<<< 32] swaps the halves. *)
Definition half_round (s t : Z) (v : sip_state) : sip_state :=
  let '(a, b, c, d) := v in
  let a := (a + b) mod 2 ^ 64 in
  let c := (c + d) mod 2 ^ 64 in
  (rotr 64 32 a, rotr 64 (64 - s) b .^ a, c, rotr 64 (64 - t) d .^ c).
Definition sip_round (v : sip_state) : sip_state :=
  let '(v0, v1, v2, v3) := half_round 13 16 v in
  let '(v2, v1, v0, v3) := half_round 17 21 (v2, v1, v0, v3) in
  (v0, v1, v2, v3).
Definition sip_compress (v : sip_state) (m : Z) : sip_state :=
  let '(v0, v1, v2, v3) := v in
  let '(v0, v1, v2, v3) := Nat.iter 2 sip_round (v0, v1, v2, v3 .^ m) in
  (v0 .^ m, v1, v2, v3).

(** The bytes of the text the state starts from, "somepseudorandomlygeneratedbytes", a word for each register. *)
Definition sip_text (i : nat) : Z :=
  be_value (take 8 (drop (8 * i) (map (λ c, Z.of_nat (Ascii.nat_of_ascii c)) (String.list_ascii_of_string "somepseudorandomlygeneratedbytes")))).
Definition sip_start (key : Z * Z) : sip_state :=
  (key.1 .^ sip_text 0, key.2 .^ sip_text 1, key.1 .^ sip_text 2, key.2 .^ sip_text 3).
Definition sip_finish (v : sip_state) : Z :=
  let '(v0, v1, v2, v3) := v in
  let '(v0, v1, v2, v3) := Nat.iter 4 sip_round (v0, v1, v2 .^ 255, v3) in
  v0 .^ v1 .^ v2 .^ v3.

(** * The padded message *)

(** The message, zeros up to one byte short of a multiple of eight, and the
    length modulo 256. *)
Definition sip_pad (input : bytes) : bytes :=
  input ++ replicate (Z.to_nat (7 - lenZ input mod 8)) 0 ++ [lenZ input mod 256].

(** Its words. *)
Fixpoint sip_words (n : nat) (l : bytes) : list Z :=
  match n with
  | O => []
  | S n => le_value (takeZ 8 l) :: sip_words n (dropZ 8 l)
  end.

Lemma lenZ_sip_pad input : lenZ (sip_pad input) = 8 * (lenZ input / 8 + 1).
Proof. unfold sip_pad. rewrite !lenZ_app, lenZ_replicate. change (lenZ [_]) with 1. lia. Qed.

Lemma sip_words_S n l : sip_words (S n) l = le_value (takeZ 8 l) :: sip_words n (dropZ 8 l).
Proof. done. Qed.

(** The loop consumes the whole words of the message, whatever follows it. *)
Lemma sip_loop_spec fuel v input tail :
  lenZ input <= Z.of_nat fuel →
  ∃ rest, sip_loop fuel v input =
    (fold_left sip_word (sip_words (Z.to_nat (lenZ input / 8)) (input ++ tail)) v, rest) ∧
    lenZ rest = lenZ input mod 8 ∧ dropZ (8 * (lenZ input / 8)) (input ++ tail) = rest ++ tail.
Proof.
  revert v input. induction fuel as [|fuel IH]; intros v input Hf; pose proof (lenZ_nonneg input) as Hn.
  { assert (input = []) as -> by (apply lenZ_0_nil; lia). by exists []. }
  cbn [sip_loop]. destruct (Z.leb_spec 8 (lenZ input)) as [Hge|Hlt].
  - assert (lenZ (dropZ 8 input) = lenZ input - 8) as Hd by (rewrite lenZ_dropZ; lia).
    destruct (IH (sip_word v (le_value (takeZ 8 input))) (dropZ 8 input)) as (rest & Hl & Hr & Hdr); [lia|].
    exists rest. rewrite Hl, Hd in *. replace (Z.to_nat (lenZ input / 8)) with (S (Z.to_nat ((lenZ input - 8) / 8))) by lia.
    rewrite sip_words_S, takeZ_app_le, dropZ_app_le by lia. split; [done|]. split; [lia|].
    rewrite <-Hdr, <-(dropZ_app_le input tail 8), dropZ_dropZ by lia. f_equal. lia.
  - exists input. replace (lenZ input / 8) with 0 by lia. cbn [Z.to_nat sip_words fold_left].
    split; [done|]. split; [lia|]. by rewrite dropZ_0.
Qed.

Definition sip_init (key : Z * Z) : sip_state :=
  (key.1 .^ 0x736f6d6570736575, key.2 .^ 0x646f72616e646f6d,
   key.1 .^ 0x6c7967656e657261, key.2 .^ 0x7465646279746573).

Definition sip_final (v : sip_state) : Z :=
  let '(v0, v1, v2, v3) := v in
  let '(v0, v1, v2, v3) :=
    siphash_round (siphash_round (siphash_round (siphash_round (v0, v1, v2 .^ 0xff, v3)))) in
  v0 .^ v1 .^ v2 .^ v3.

(** SipHash-2-4 of a message, as its authors define it: on the padded words. *)
Definition siphash_spec (key : Z * Z) (input : bytes) : Z :=
  sip_finish (fold_left sip_compress (sip_words (Z.to_nat (lenZ input / 8 + 1)) (sip_pad input)) (sip_start key)).

(** * The rounds *)

Definition sip_ok (v : sip_state) : Prop :=
  let '(v0, v1, v2, v3) := v in fits 64 v0 ∧ fits 64 v1 ∧ fits 64 v2 ∧ fits 64 v3.

Lemma rotl_u64_eq n x : 0 < n < 64 → fits 64 x → CRYPTO_rotl_u64 x n = rotr 64 (64 - n) x.
Proof.
  intros Hn Hx. unfold CRYPTO_rotl_u64. rewrite <-rotr_eq by (done || lia). rewrite Z.lor_comm.
  assert ((- n) .& 63 = 64 - n) as -> by (change 63 with (2 ^ 6 - 1); rewrite land_mask by lia; change (2 ^ 6) with 64; lia).
  by replace (64 - (64 - n)) with n by lia.
Qed.

Lemma sip_round_eq v : sip_ok v → siphash_round v = sip_round v ∧ sip_ok (sip_round v).
Proof.
  destruct v as [[[v0 v1] v2] v3]. intros (H0 & H1 & H2 & H3).
  assert (∀ x y, fits 64 ((x + y) mod 2 ^ 64)) as Hadd by (intros x y; by apply wrap_fits).
  assert (∀ n x, 0 < n < 64 → fits 64 x → fits 64 (rotr 64 n x)) as Hrot by (intros; by apply rotr_fits).
  unfold siphash_round, sip_round, half_round, u64, wrap. cbv zeta.
  rewrite (rotl_u64_eq 13 v1), (rotl_u64_eq 16 v3), (rotl_u64_eq 32 ((v0 + v1) mod 2 ^ 64)) by (done || lia).
  set (a := (v0 + v1) mod 2 ^ 64). set (c := (v2 + v3) mod 2 ^ 64). change (64 - 32) with 32.
  assert (fits 64 (rotr 64 (64 - 13) v1 .^ a) ∧ fits 64 (rotr 64 (64 - 16) v3 .^ c)) as [Hb Hd] by (split; apply fits_lxor; [lia|by apply Hrot|apply Hadd|lia|by apply Hrot|apply Hadd]).
  set (b := rotr 64 (64 - 13) v1 .^ a) in *. set (d := rotr 64 (64 - 16) v3 .^ c) in *. clearbody b d.
  rewrite (rotl_u64_eq 17 b), (rotl_u64_eq 21 d), (rotl_u64_eq 32 ((c + b) mod 2 ^ 64)) by (done || lia). split; [done|].
  split; [apply Hadd|]. split; [apply fits_lxor; [lia|by apply Hrot|apply Hadd]|]. split; [by apply Hrot|apply fits_lxor; [lia|by apply Hrot|apply Hadd]].
Qed.

Lemma iter_2 {A} (f : A → A) x : Nat.iter 2 f x = f (f x).
Proof. reflexivity. Qed.
Lemma iter_4 {A} (f : A → A) x : Nat.iter 4 f x = f (f (f (f x))).
Proof. reflexivity. Qed.

Lemma sip_rounds_eq n v : sip_ok v → Nat.iter n siphash_round v = Nat.iter n sip_round v ∧ sip_ok (Nat.iter n sip_round v).
Proof.
  intros H. induction n as [|n [IH1 IH2]]; [done|]. cbn [Nat.iter nat_rect]. fold (Nat.iter n siphash_round v) (Nat.iter n sip_round v).
  rewrite IH1. by apply sip_round_eq.
Qed.

Lemma sip_word_eq v m : sip_ok v → fits 64 m → sip_word v m = sip_compress v m ∧ sip_ok (sip_compress v m).
Proof.
  destruct v as [[[v0 v1] v2] v3]. intros (H0 & H1 & H2 & H3) Hm. unfold sip_word, sip_compress.
  destruct (sip_rounds_eq 2 (v0, v1, v2, v3 .^ m)) as [E O]; [by split_and!; try apply fits_lxor|].
  rewrite <-(iter_2 siphash_round), E.
  destruct (Nat.iter 2 sip_round _) as [[[w0 w1] w2] w3]. destruct O as (O0 & O1 & O2 & O3). split; [done|]. by split_and!; try apply fits_lxor.
Qed.

Lemma sip_finish_eq v :
  sip_ok v →
  (let '(v0, v1, v2, v3) := v in
   let v := (v0, v1, v2 .^ 0xff, v3) in
   let '(v0, v1, v2, v3) := siphash_round (siphash_round (siphash_round (siphash_round v))) in v0 .^ v1 .^ v2 .^ v3) = sip_finish v.
Proof.
  destruct v as [[[v0 v1] v2] v3]. intros (H0 & H1 & H2 & H3). cbv zeta. unfold sip_finish.
  assert (sip_ok (v0, v1, v2 .^ 255, v3)) as Hok by (split_and!; try apply fits_lxor; done).
  destruct (sip_rounds_eq 4 _ Hok) as [E _].
  rewrite <-(iter_4 siphash_round), E. by destruct (Nat.iter 4 _ _) as [[[w0 w1] w2] w3].
Qed.

Lemma sip_fold_eq ws v : sip_ok v → Forall (fits 64) ws → fold_left sip_word ws v = fold_left sip_compress ws v ∧ sip_ok (fold_left sip_compress ws v).
Proof.
  intros Hv Hws. revert v Hv. induction Hws as [|w ws Hw _ IH]; intros v Hv; [done|]. cbn [fold_left].
  destruct (sip_word_eq v w Hv Hw) as [-> O]. by apply IH.
Qed.

Lemma le_value_fits l : bytes_ok l → lenZ l <= 8 → fits 64 (le_value l).
Proof.
  intros Hok Hl. pose proof (be_value_bound (reverse l)) as B. rewrite <-(le_value_reverse (reverse l)), reverse_involutive in B.
  specialize (B ltac:(by apply Forall_reverse)). unfold lenZ in *. rewrite length_reverse in B. unfold fits.
  assert (256 ^ Z.of_nat (length l) <= 256 ^ 8) by (apply Z.pow_le_mono_r; lia). change (256 ^ 8) with (2 ^ 64) in *. lia.
Qed.

Lemma sip_words_fit n l : bytes_ok l → Forall (fits 64) (sip_words n l).
Proof.
  revert l. induction n as [|n IH]; intros l Hl; cbn [sip_words]; constructor.
  - apply le_value_fits; [by apply Forall_take|]. unfold lenZ, takeZ. rewrite length_take. lia.
  - by apply IH, Forall_drop.
Qed.

Lemma last_block_spec rest n :
  lenZ rest < 8 →
  write_at (write_at (replicate 8 0) 0 rest) 7 [n] = rest ++ replicate (Z.to_nat (7 - lenZ rest)) 0 ++ [n].
Proof.
  intros Hr. pose proof (lenZ_nonneg rest).
  assert (write_at (replicate 8 0) 0 rest = rest ++ replicate (Z.to_nat (7 - lenZ rest)) 0 ++ [0]) as ->.
  { unfold write_at. rewrite takeZ_0, app_nil_l, Z.add_0_l. f_equal. unfold dropZ. rewrite drop_replicate.
    replace (8 - Z.to_nat (lenZ rest))%nat with (Z.to_nat (7 - lenZ rest) + 1)%nat by lia.
    by rewrite replicate_add. }
  rewrite app_assoc, <-(app_nil_r [0]), (write_at_app (rest ++ _) [0] [] [n]) by (rewrite ?lenZ_app, ?lenZ_replicate; lia || done).
  by rewrite app_nil_r, <-app_assoc.
Qed.

Lemma sip_words_app n k l tail :
  lenZ l = 8 * Z.of_nat n → sip_words (n + k) (l ++ tail) = sip_words n (l ++ tail) ++ sip_words k tail.
Proof.
  revert l. induction n as [|n IH]; intros l Hl; cbn [sip_words Nat.add app].
  - assert (l = []) as -> by (apply lenZ_0_nil; lia). done.
  - rewrite dropZ_app_le by lia. rewrite IH; [done|]. rewrite lenZ_dropZ; lia.
Qed.

Lemma sip_start_eq key :
  fits 64 key.1 → fits 64 key.2 →
  (key.1 .^ 0x736f6d6570736575, key.2 .^ 0x646f72616e646f6d, key.1 .^ 0x6c7967656e657261, key.2 .^ 0x7465646279746573) = sip_start key ∧
  sip_ok (sip_start key).
Proof.
  intros H1 H2. assert (sip_text 0 = 0x736f6d6570736575 ∧ sip_text 1 = 0x646f72616e646f6d ∧ sip_text 2 = 0x6c7967656e657261 ∧ sip_text 3 = 0x7465646279746573)
    as (E0 & E1 & E2 & E3) by (split_and!; vm_compute; reflexivity).
  unfold sip_start. rewrite E0, E1, E2, E3. split; [done|]. split_and!; apply fits_lxor; done || decide_now.
Qed.

(** C39. [SIPHASH_24] is SipHash-2-4 as its authors define it: two rounds for every little-endian word of the
    padded message and four at the end, a round being two half rounds, whatever the length of the input. *)
Theorem SIPHASH_24_eq key input :
  fits 64 key.1 → fits 64 key.2 → bytes_ok input → SIPHASH_24 key input = siphash_spec key input.
Proof.
  intros H1 H2 Hok. destruct (sip_start_eq key H1 H2) as [Es Os]. unfold SIPHASH_24, siphash_spec. rewrite Es. pose proof (lenZ_nonneg input).
  set (pad := replicate (Z.to_nat (7 - lenZ input mod 8)) 0 ++ [lenZ input mod 256]).
  destruct (sip_loop_spec (length input) (sip_start key) input pad) as (rest & -> & Hr & Hd); [unfold lenZ; lia|].
  cbv beta iota. rewrite last_block_spec by lia. rewrite Hr.
  replace (lenZ input .& 255) with (lenZ input mod 256) by (symmetry; apply (land_mask (lenZ input) 8); lia).
  fold pad. change (sip_pad input) with (input ++ pad).
  assert (sip_words (Z.to_nat (lenZ input / 8 + 1)) (input ++ pad) =
          sip_words (Z.to_nat (lenZ input / 8)) (input ++ pad) ++ [le_value (rest ++ pad)]) as E.
  { assert (lenZ (rest ++ pad) = 8) as Hl8.
    { unfold pad. rewrite !lenZ_app, lenZ_replicate, Hr. change (lenZ [_]) with 1. lia. }
    rewrite <-(takeZ_dropZ (8 * (lenZ input / 8)) (input ++ pad)), Hd.
    replace (Z.to_nat (lenZ input / 8 + 1)) with (Z.to_nat (lenZ input / 8) + 1)%nat by lia.
    assert (lenZ (takeZ (8 * (lenZ input / 8)) (input ++ pad)) = 8 * (lenZ input / 8)) as Ht.
    { apply lenZ_takeZ. rewrite lenZ_app. pose proof (lenZ_nonneg pad). lia. }
    rewrite (sip_words_app _ 1) by lia. cbn [sip_words]. by rewrite (takeZ_all (rest ++ pad)) by lia. }
  assert (bytes_ok (input ++ pad)) as Hokp.
  { apply bytes_ok_app. split; [done|]. apply bytes_ok_app. split; [by apply Forall_replicate|]. constructor; [mlia|done]. }
  pose proof (sip_words_fit (Z.to_nat (lenZ input / 8 + 1)) _ Hokp) as F. rewrite E in F. destruct (sip_fold_eq _ _ Os F) as [Ef Of].
  rewrite E. rewrite !fold_left_app in *. cbn [fold_left] in *. rewrite Ef.
  exact (sip_finish_eq _ Of).
Qed.

Lemma SIPHASH_24_eq_witness : SIPHASH_24 (0x0706050403020100, 0x0f0e0d0c0b0a0908) (seqZ 0 15) = siphash_spec (0x0706050403020100, 0x0f0e0d0c0b0a0908) (seqZ 0 15).
Proof. apply SIPHASH_24_eq; decide_now. Defined.

(** The first vectors of the reference implementation. *)
Example siphash_vectors :
  let key := (0x0706050403020100, 0x0f0e0d0c0b0a0908) in
  SIPHASH_24 key [] = 0x726fdb47dd0e0e31 ∧
  SIPHASH_24 key (seqZ 0 15) = 0xa129ca6149be45e5.
Proof. split; vm_compute; reflexivity. Qed.
