(* ===== verification/Evp.v ===== *)
(** Message digests behind one interface:
    src/HolyWater-Test/Pods/BoringSSL-GRPC/src/crypto/fipsmodule/digest/digest.c and digests.c.

    A pointer to an [EVP_MD] is one of the nine method tables; [md_data] points to one or two contexts
    of hash functions, which are the bytes of a block from [OPENSSL_malloc] seen as the structs. *)
From S2P Require Import Prelude Mem Md32 Rounds MdRound Sha2 Md4 Md5 Sha1 Sha256 Sha512.

Open Scope Z_scope.

(** * The structs in memory *)

Definition le_word (n : Z) (b : bytes) (off : Z) : Z := be_value (reverse (takeZ n (dropZ off b))).

(** [nh] words of [w] bytes, two counters of [w] bytes, a block, and [num]; [md_len] when there is one. *)
Definition view_ctx (w nh block : Z) (has_md_len : bool) (b : bytes) : md_ctx :=
  let off := w * (nh + 2) in
  {| h := map (λ j, le_word w b (w * Z.of_nat j)) (seq 0 (Z.to_nat nh));
     Nl := le_word w b (w * nh);
     Nh := le_word w b (w * (nh + 1));
     data := takeZ block (dropZ off b);
     num := le_word 4 b (off + block);
     md_len := if has_md_len then le_word 4 b (off + block + 4) else 0 |}.

Definition sizeof_MD4_CTX : Z := 92.
Definition sizeof_MD5_CTX : Z := 92.
Definition sizeof_SHA_CTX : Z := 96.
Definition sizeof_SHA256_CTX : Z := 112.
Definition sizeof_SHA512_CTX : Z := 216.

(** * Method tables *)

(** [struct env_md_st]; [view] is how the hash function sees [ctx_size] bytes of memory. *)
Record EVP_MD := {
  type : Z;
  md_size : Z;
  flags : Z;
  init : list md_ctx → list md_ctx;
  update : list md_ctx → bytes → list md_ctx;
  final : list md_ctx → bytes → list md_ctx * bytes;
  block_size : Z;
  ctx_size : Z;
  view : bytes → list md_ctx;
}.

(** The methods are static: a pointer to one is its name. *)
Inductive md_method :=
  EVP_md4 | EVP_md5 | EVP_sha1 | EVP_sha224 | EVP_sha256 | EVP_sha384 | EVP_sha512 | EVP_sha512_256 | EVP_md5_sha1.
#[global] Instance md_method_eq_dec : EqDecision md_method.
Proof. solve_decision. Defined.

(** A method on [ctx->md_data] that is one context. *)
Definition on_one {A} (f : md_ctx → A) (d : A) (c : list md_ctx) : A :=
  match c with [c] => f c | _ => d end.

(** Writing a digest to [out]; nothing is written when the hash function fails. *)
Definition put (out : bytes) (r : option bytes) : bytes :=
  match r with Some b => write_at out 0 b | None => out end.

Definition md4_init (c : list md_ctx) : list md_ctx := on_one (λ _, [MD4_Init]) c c.
Definition md4_update (c : list md_ctx) (data : bytes) : list md_ctx := on_one (λ x, [MD4_Update x data]) c c.
Definition md4_final (c : list md_ctx) (out : bytes) : list md_ctx * bytes :=
  on_one (λ x, let '(x, md) := MD4_Final x in ([x], put out (Some md))) (c, out) c.
Definition EVP_md4_method : EVP_MD := {|
  type := 257; md_size := MD4_DIGEST_LENGTH; flags := 0; init := md4_init; update := md4_update; final := md4_final;
  block_size := 64; ctx_size := sizeof_MD4_CTX; view b := [view_ctx 4 4 64 false b] |}.

Definition md5_init (c : list md_ctx) : list md_ctx := on_one (λ _, [MD5_Init]) c c.
Definition md5_update (c : list md_ctx) (data : bytes) : list md_ctx := on_one (λ x, [MD5_Update x data]) c c.
Definition md5_final (c : list md_ctx) (out : bytes) : list md_ctx * bytes :=
  on_one (λ x, let '(x, md) := MD5_Final x in ([x], put out (Some md))) (c, out) c.
Definition EVP_md5_method : EVP_MD := {|
  type := 4; md_size := MD5_DIGEST_LENGTH; flags := 0; init := md5_init; update := md5_update; final := md5_final;
  block_size := 64; ctx_size := sizeof_MD5_CTX; view b := [view_ctx 4 4 64 false b] |}.

Definition sha1_init (c : list md_ctx) : list md_ctx := on_one (λ _, [SHA1_Init]) c c.
Definition sha1_update (c : list md_ctx) (data : bytes) : list md_ctx := on_one (λ x, [SHA1_Update x data]) c c.
Definition sha1_final (c : list md_ctx) (md : bytes) : list md_ctx * bytes :=
  on_one (λ x, let '(x, d) := SHA1_Final x in ([x], put md (Some d))) (c, md) c.
Definition EVP_sha1_method : EVP_MD := {|
  type := 64; md_size := SHA_DIGEST_LENGTH; flags := 0; init := sha1_init; update := sha1_update; final := sha1_final;
  block_size := 64; ctx_size := sizeof_SHA_CTX; view b := [view_ctx 4 5 64 false b] |}.

Definition sha224_init (c : list md_ctx) : list md_ctx := on_one (λ _, [SHA224_Init]) c c.
Definition sha224_update (c : list md_ctx) (data : bytes) : list md_ctx := on_one (λ x, [SHA224_Update x data]) c c.
Definition sha224_final (c : list md_ctx) (md : bytes) : list md_ctx * bytes :=
  on_one (λ x, let '(x, d) := SHA224_Final x in ([x], put md d)) (c, md) c.
Definition EVP_sha224_method : EVP_MD := {|
  type := 675; md_size := SHA224_DIGEST_LENGTH; flags := 0; init := sha224_init; update := sha224_update; final := sha224_final;
  block_size := 64; ctx_size := sizeof_SHA256_CTX; view b := [view_ctx 4 8 64 true b] |}.

Definition sha256_init (c : list md_ctx) : list md_ctx := on_one (λ _, [SHA256_Init]) c c.
Definition sha256_update (c : list md_ctx) (data : bytes) : list md_ctx := on_one (λ x, [SHA256_Update x data]) c c.
Definition sha256_final (c : list md_ctx) (md : bytes) : list md_ctx * bytes :=
  on_one (λ x, let '(x, d) := SHA256_Final x in ([x], put md d)) (c, md) c.
Definition EVP_sha256_method : EVP_MD := {|
  type := 672; md_size := SHA256_DIGEST_LENGTH; flags := 0; init := sha256_init; update := sha256_update; final := sha256_final;
  block_size := 64; ctx_size := sizeof_SHA256_CTX; view b := [view_ctx 4 8 64 true b] |}.

Definition sha384_init (c : list md_ctx) : list md_ctx := on_one (λ x, [SHA384_Init x]) c c.
Definition sha384_update (c : list md_ctx) (data : bytes) : list md_ctx := on_one (λ x, [SHA384_Update x data]) c c.
Definition sha384_final (c : list md_ctx) (md : bytes) : list md_ctx * bytes :=
  on_one (λ x, let '(x, d) := SHA384_Final false x in ([x], put md d)) (c, md) c.
Definition EVP_sha384_method : EVP_MD := {|
  type := 673; md_size := SHA384_DIGEST_LENGTH; flags := 0; init := sha384_init; update := sha384_update; final := sha384_final;
  block_size := 128; ctx_size := sizeof_SHA512_CTX; view b := [view_ctx 8 8 128 true b] |}.

Definition sha512_init (c : list md_ctx) : list md_ctx := on_one (λ x, [SHA512_Init x]) c c.
Definition sha512_update (c : list md_ctx) (data : bytes) : list md_ctx := on_one (λ x, [SHA512_Update x data]) c c.
Definition sha512_final (c : list md_ctx) (md : bytes) : list md_ctx * bytes :=
  on_one (λ x, let '(x, d) := SHA512_Final false x in ([x], put md d)) (c, md) c.
Definition EVP_sha512_method : EVP_MD := {|
  type := 674; md_size := SHA512_DIGEST_LENGTH; flags := 0; init := sha512_init; update := sha512_update; final := sha512_final;
  block_size := 128; ctx_size := sizeof_SHA512_CTX; view b := [view_ctx 8 8 128 true b] |}.

Definition sha512_256_init (c : list md_ctx) : list md_ctx := on_one (λ x, [SHA512_256_Init x]) c c.
Definition sha512_256_update (c : list md_ctx) (data : bytes) : list md_ctx := on_one (λ x, [SHA512_256_Update x data]) c c.
Definition sha512_256_final (c : list md_ctx) (md : bytes) : list md_ctx * bytes :=
  on_one (λ x, let '(x, d) := SHA512_256_Final false x in ([x], put md d)) (c, md) c.
Definition EVP_sha512_256_method : EVP_MD := {|
  type := 962; md_size := SHA512_256_DIGEST_LENGTH; flags := 0; init := sha512_256_init; update := sha512_256_update;
  final := sha512_256_final; block_size := 128; ctx_size := sizeof_SHA512_CTX; view b := [view_ctx 8 8 128 true b] |}.

(** [MD5_SHA1_CTX]: two contexts. *)
Definition md5_sha1_init (c : list md_ctx) : list md_ctx :=
  match c with [_; _] => [MD5_Init; SHA1_Init] | _ => c end.
Definition md5_sha1_update (c : list md_ctx) (data : bytes) : list md_ctx :=
  match c with [md5; sha1] => [MD5_Update md5 data; SHA1_Update sha1 data] | _ => c end.
Definition md5_sha1_final (c : list md_ctx) (out : bytes) : list md_ctx * bytes :=
  match c with
  | [md5; sha1] =>
      let '(md5, d1) := MD5_Final md5 in
      let out := put out (Some d1) in
      let '(sha1, d2) := SHA1_Final sha1 in
      ([md5; sha1], write_at out MD5_DIGEST_LENGTH d2)
  | _ => (c, out)
  end.
Definition EVP_md5_sha1_method : EVP_MD := {|
  type := 114; md_size := MD5_DIGEST_LENGTH + SHA_DIGEST_LENGTH; flags := 0;
  init := md5_sha1_init; update := md5_sha1_update; final := md5_sha1_final;
  block_size := 64; ctx_size := sizeof_MD5_CTX + sizeof_SHA_CTX;
  view b := [view_ctx 4 4 64 false b; view_ctx 4 5 64 false (dropZ sizeof_MD5_CTX b)] |}.

(** What the pointer points to. *)
Definition method (m : md_method) : EVP_MD :=
  match m with
  | EVP_md4 => EVP_md4_method | EVP_md5 => EVP_md5_method | EVP_sha1 => EVP_sha1_method
  | EVP_sha224 => EVP_sha224_method | EVP_sha256 => EVP_sha256_method | EVP_sha384 => EVP_sha384_method
  | EVP_sha512 => EVP_sha512_method | EVP_sha512_256 => EVP_sha512_256_method | EVP_md5_sha1 => EVP_md5_sha1_method
  end.

Definition EVP_MAX_MD_SIZE : Z := 64.
Definition EVP_MAX_MD_BLOCK_SIZE : Z := 128.

Definition EVP_MD_type (md : md_method) : Z := type (method md).
Definition EVP_MD_nid (md : md_method) : Z := EVP_MD_type md.
Definition EVP_MD_flags (md : md_method) : Z := flags (method md).
Definition EVP_MD_size (md : md_method) : Z := md_size (method md).
Definition EVP_MD_block_size (md : md_method) : Z := block_size (method md).
Definition EVP_MD_meth_get_flags (md : md_method) : Z := EVP_MD_flags md.
Definition EVP_add_digest (digest : md_method) : bool := true.

(** * Contexts *)

(** [PC] is [EVP_PKEY_CTX], which the layers above hang on a context with the operations to copy it. *)
Record evp_md_pctx_ops {PC : Type} := { dup : PC → option PC }.
Arguments evp_md_pctx_ops : clear implicits.

Record EVP_MD_CTX {PC : Type} := {
  digest : option md_method;
  md_data : option (list md_ctx);
  pctx : option PC;
  pctx_ops : option (evp_md_pctx_ops PC);
}.
Arguments EVP_MD_CTX : clear implicits.

Section evp.
Context {libc : Libc} {PC : Type}.
Local Abbreviation ctx := (EVP_MD_CTX PC).

Definition EVP_MD_CTX_init : ctx := {| digest := None; md_data := None; pctx := None; pctx_ops := None |}.

(** The context is on the heap; [None] is NULL. *)
Definition sizeof_EVP_MD_CTX : Z := 32.
Definition EVP_MD_CTX_new : option ctx := _ ← OPENSSL_malloc sizeof_EVP_MD_CTX; Some EVP_MD_CTX_init.
Definition EVP_MD_CTX_create : option ctx := EVP_MD_CTX_new.

Definition EVP_MD_CTX_cleanup (_ : ctx) : ctx := EVP_MD_CTX_init.
Definition EVP_MD_CTX_reset (c : ctx) : ctx := let c := EVP_MD_CTX_cleanup c in EVP_MD_CTX_init.

(** The context and the value returned. *)
Definition EVP_MD_CTX_copy_ex (out : ctx) (inn : option ctx) : ctx * bool :=
  match inn with
  | None => (out, false)
  | Some inn =>
      if bool_decide (digest inn = None) && match pctx inn with None => true | _ => false end then (out, false)
      else
        match match pctx inn with
              | None => Some None
              | Some p => match pctx_ops inn with Some ops => p ← dup ops p; Some (Some p) | None => None end
              end with
        | None => (out, false)
        | Some pctx' =>
            match digest inn with
            | None => ({| digest := None; md_data := None; pctx := pctx'; pctx_ops := pctx_ops inn |}, true)
            | Some d =>
                let tmp_buf :=
                  if bool_decide (digest out = digest inn) then md_data out
                  else view (method d) <$> OPENSSL_malloc (ctx_size (method d)) in
                match tmp_buf with
                | None => (out, false)
                | Some _ =>
                    ({| digest := Some d; md_data := md_data inn; pctx := pctx'; pctx_ops := pctx_ops inn |}, true)
                end
            end
        end
  end.

(** Not supported. *)
Definition EVP_DigestFinalXOF (c : ctx) (out : bytes) (len : Z) : bool := false.

Definition EVP_MD_CTX_move (out inn : ctx) : ctx * ctx := (inn, EVP_MD_CTX_init).
Definition EVP_MD_CTX_copy (out : ctx) (inn : option ctx) : ctx * bool := EVP_MD_CTX_copy_ex EVP_MD_CTX_init inn.

Definition EVP_DigestInit_ex (c : ctx) (type : md_method) : ctx * bool :=
  let start c :=
    ({| digest := digest c; md_data := init (method type) <$> md_data c; pctx := pctx c; pctx_ops := pctx_ops c |}, true) in
  if bool_decide (digest c = Some type) then start c
  else
    match OPENSSL_malloc (ctx_size (method type)) with
    | None => (c, false)
    | Some b =>
        start {| digest := Some type; md_data := Some (view (method type) b); pctx := pctx c; pctx_ops := pctx_ops c |}
    end.
Definition EVP_DigestInit (c : ctx) (type : md_method) : ctx * bool := EVP_DigestInit_ex EVP_MD_CTX_init type.

(** A context without a digest is a NULL dereference here and below; it is left as it is. *)
Definition EVP_DigestUpdate (c : ctx) (data : bytes) : ctx :=
  match digest c, md_data c with
  | Some d, Some s =>
      {| digest := digest c; md_data := Some (update (method d) s data); pctx := pctx c; pctx_ops := pctx_ops c |}
  | _, _ => c
  end.

(** The context, [md_out] and the size. *)
Definition EVP_DigestFinal_ex (c : ctx) (md_out : bytes) : ctx * bytes * Z :=
  match digest c, md_data c with
  | Some d, Some s =>
      let '(_, md_out) := final (method d) s md_out in
      ({| digest := digest c; md_data := Some (view (method d) (replicate (Z.to_nat (ctx_size (method d))) 0));
          pctx := pctx c; pctx_ops := pctx_ops c |}, md_out, md_size (method d))
  | _, _ => (c, md_out, 0)
  end.
Definition EVP_DigestFinal (c : ctx) (md : bytes) : ctx * bytes * Z :=
  let '(c, md, size) := EVP_DigestFinal_ex c md in (EVP_MD_CTX_cleanup c, md, size).

Definition EVP_Digest (data out_md : bytes) (type : md_method) : bytes * Z * bool :=
  let '(c, ok) := EVP_DigestInit_ex EVP_MD_CTX_init type in
  if ok then
    let c := EVP_DigestUpdate c data in
    let '(c, out_md, out_size) := EVP_DigestFinal_ex c out_md in
    (out_md, out_size, true)
  else (out_md, 0, false).

Definition EVP_MD_CTX_md (c : option ctx) : option md_method := match c with None => None | Some c => digest c end.
(** [None] is a NULL dereference. *)
Definition EVP_MD_CTX_size (c : option ctx) : option Z := EVP_MD_size <$> EVP_MD_CTX_md c.
Definition EVP_MD_CTX_block_size (c : option ctx) : option Z := EVP_MD_block_size <$> EVP_MD_CTX_md c.
Definition EVP_MD_CTX_type (c : option ctx) : option Z := EVP_MD_type <$> EVP_MD_CTX_md c.
End evp.

(** * What a method promises

    [seen c msg]: the contexts have been given [msg] since they were initialised.  [shaped c]: memory
    of the right size. *)

Class DigestOk (m : EVP_MD) (H : bytes → bytes) := {
  shaped : list md_ctx → Prop;
  seen : list md_ctx → bytes → Prop;
  view_shaped b : lenZ b = ctx_size m → shaped (view m b);
  init_seen c : shaped c → seen (init m c) [];
  seen_shaped c msg : seen c msg → shaped c;
  seen_ok c msg : seen c msg → bytes_ok msg;
  update_seen c msg x : seen c msg → bytes_ok x → lenZ x < 2 ^ 64 → seen (update m c x) (msg ++ x);
  final_spec c msg out : seen c msg → md_size m <= lenZ out → (final m c out).2 = write_at out 0 (H msg);
  hash_spec msg : bytes_ok msg → bytes_ok (H msg) ∧ lenZ (H msg) = md_size m;
  sizes : 0 < md_size m <= EVP_MAX_MD_SIZE ∧ md_size m <= block_size m <= EVP_MAX_MD_BLOCK_SIZE ∧
    0 <= ctx_size m < 2 ^ 32;
}.

(** A method with one context, from the functions on it. *)
Definition one_context (m : EVP_MD) (H : bytes → bytes) (Init : md_ctx → md_ctx) (Update : md_ctx → bytes → md_ctx)
    (Final : md_ctx → md_ctx * option bytes) (see : md_ctx → bytes → Prop) (block : Z)
  (Hview : ∀ b, lenZ b = ctx_size m → ∃ c, view m b = [c] ∧ lenZ (data c) = block)
  (Hinit : ∀ c, init m [c] = [Init c]) (Hupdate : ∀ c x, update m [c] x = [Update c x])
  (Hfinal : ∀ c out, (final m [c] out).2 = put out (Final c).2)
  (HI : ∀ c, lenZ (data c) = block → see (Init c) []) (HS : ∀ c msg, see c msg → lenZ (data c) = block ∧ bytes_ok msg)
  (HU : ∀ c msg x, see c msg → bytes_ok x → lenZ x < 2 ^ 64 → see (Update c x) (msg ++ x))
  (HF : ∀ c msg, see c msg → (Final c).2 = Some (H msg))
  (HH : ∀ msg, bytes_ok msg → bytes_ok (H msg) ∧ lenZ (H msg) = md_size m)
  (Hsizes : 0 < md_size m <= EVP_MAX_MD_SIZE ∧ md_size m <= block_size m <= EVP_MAX_MD_BLOCK_SIZE ∧
    0 <= ctx_size m < 2 ^ 32) : DigestOk m H.
Proof.
  refine {| shaped cs := ∃ c, cs = [c] ∧ lenZ (data c) = block; seen cs msg := ∃ c, cs = [c] ∧ see c msg |};
    try done.
  - intros cs (c & -> & Hc). exists (Init c). auto.
  - intros cs msg (c & -> & Hc). exists c. split; [done|]. apply (HS _ _ Hc).
  - intros cs msg (c & -> & Hc). apply (HS _ _ Hc).
  - intros cs msg x (c & -> & Hc) Hx Hl. exists (Update c x). auto.
  - intros cs msg out (c & -> & Hc) Hout. by rewrite Hfinal, (HF c msg Hc).
Defined.

Lemma view_ctx_data w nh block ml b :
  0 <= w * (nh + 2) → 0 <= block → w * (nh + 2) + block <= lenZ b → lenZ (data (view_ctx w nh block ml b)) = block.
Proof. intros H1 H2 H3. cbn [view_ctx data]. apply lenZ_takeZ. rewrite lenZ_dropZ; lia. Qed.

Lemma in_use_shape block_size w compress iv mdl c msg :
  in_use block_size w compress iv mdl c msg → lenZ (data c) = block_size ∧ bytes_ok msg.
Proof. by intros ((_ & _ & _ & Hd) & _ & _ & Hok). Qed.

(** ** The methods keep the promise *)

Ltac one_context_tac :=
  lazymatch goal with
  | |- ∀ b, lenZ b = _ → ∃ c, _ =>
      intros b Hb; eexists; split; [reflexivity|]; apply view_ctx_data; cbn in *;
      unfold sizeof_MD4_CTX, sizeof_MD5_CTX, sizeof_SHA_CTX, sizeof_SHA256_CTX, sizeof_SHA512_CTX in *; lia
  | |- ∀ c, init _ _ = _ => reflexivity
  | |- ∀ c x, update _ _ _ = _ => reflexivity
  | |- ∀ c msg, _ → lenZ (data c) = _ ∧ _ => intros c msg; apply in_use_shape
  | |- _ ∧ _ => repeat split; vm_compute; first [reflexivity|discriminate]
  | |- _ => idtac
  end.

#[export] Instance md4_ok : DigestOk EVP_md4_method rfc_md4.
Proof.
  apply (one_context EVP_md4_method rfc_md4 (λ _, MD4_Init) MD4_Update (λ c, prod_map id Some (MD4_Final c)) md4_seen 64);
    one_context_tac.
  - intros c out. unfold EVP_md4_method, final, md4_final, on_one. by destruct (MD4_Final c).
  - intros c _. apply md4_init_seen.
  - intros c msg x. apply md_update_seen. apply _.
  - intros c msg Hc. cbn. f_equal. by apply Md4.md4_final.
  - apply md4_hash_spec.
Defined.

#[export] Instance md5_ok : DigestOk EVP_md5_method rfc_md5.
Proof.
  apply (one_context EVP_md5_method rfc_md5 (λ _, MD5_Init) MD5_Update (λ c, prod_map id Some (MD5_Final c)) md5_seen 64);
    one_context_tac.
  - intros c out. unfold EVP_md5_method, final, md5_final, on_one. by destruct (MD5_Final c).
  - intros c _. apply md5_init_seen.
  - intros c msg x. apply md_update_seen. apply _.
  - intros c msg Hc. cbn. f_equal. by apply Md5.md5_final.
  - apply md5_hash_spec.
Defined.

#[export] Instance sha1_ok : DigestOk EVP_sha1_method fips_sha1.
Proof.
  apply (one_context EVP_sha1_method fips_sha1 (λ _, SHA1_Init) SHA1_Update (λ c, prod_map id Some (SHA1_Final c)) sha1_seen 64);
    one_context_tac.
  - intros c out. unfold EVP_sha1_method, final, sha1_final, on_one. by destruct (SHA1_Final c).
  - intros c _. apply sha1_init_seen.
  - apply sha1_update_seen.
  - intros c msg Hc. cbn. f_equal. by apply sha1_final_seen.
  - apply sha1_hash_spec.
Defined.

#[export] Instance sha224_ok : DigestOk EVP_sha224_method fips_sha224.
Proof.
  apply (one_context EVP_sha224_method fips_sha224 (λ _, SHA224_Init) SHA224_Update SHA224_Final (sha256_seen fips_iv224 28) 64);
    one_context_tac.
  - intros c out. unfold EVP_sha224_method, final, sha224_final, on_one. by destruct (SHA224_Final c).
  - intros c _. apply sha224_init_seen.
  - apply sha256_update_seen.
  - intros c msg Hc. apply (sha256_final_seen _ _ _ _ Hc); [apply iv256_ok|lia|by exists 7].
  - intros msg. apply (sha256_hash_spec fips_iv224 28); [apply iv256_ok|lia].
Defined.

#[export] Instance sha256_ok : DigestOk EVP_sha256_method fips_sha256.
Proof.
  apply (one_context EVP_sha256_method fips_sha256 (λ _, SHA256_Init) SHA256_Update SHA256_Final (sha256_seen fips_iv256 32) 64);
    one_context_tac.
  - intros c out. unfold EVP_sha256_method, final, sha256_final, on_one. by destruct (SHA256_Final c).
  - intros c _. apply sha256_init_seen.
  - apply sha256_update_seen.
  - intros c msg Hc. apply (sha256_final_seen _ _ _ _ Hc); [apply iv256_ok|lia|by exists 8].
  - intros msg. apply (sha256_hash_spec fips_iv256 32); [apply iv256_ok|lia].
Defined.

#[export] Instance sha384_ok : DigestOk EVP_sha384_method fips_sha384.
Proof.
  apply (one_context EVP_sha384_method fips_sha384 SHA384_Init SHA384_Update (SHA384_Final false) (sha512_seen fips_iv384 48) 128);
    one_context_tac.
  - intros c out. unfold EVP_sha384_method, final, sha384_final, on_one. by destruct (SHA384_Final false c).
  - apply sha384_init_seen.
  - apply sha512_update_seen.
  - intros c msg Hc. apply (sha512_final_out _ _ _ _ Hc); [apply iv384_ok|lia|by exists 6].
  - intros msg. apply (sha512_hash_spec fips_iv384 48); [apply iv384_ok|lia].
Defined.

#[export] Instance sha512_ok : DigestOk EVP_sha512_method fips_sha512.
Proof.
  apply (one_context EVP_sha512_method fips_sha512 SHA512_Init SHA512_Update (SHA512_Final false) (sha512_seen fips_iv512 64) 128);
    one_context_tac.
  - intros c out. unfold EVP_sha512_method, final, sha512_final, on_one. by destruct (SHA512_Final false c).
  - apply sha512_init_seen.
  - apply sha512_update_seen.
  - intros c msg Hc. apply (sha512_final_out _ _ _ _ Hc); [apply iv512_ok|lia|by exists 8].
  - intros msg. apply (sha512_hash_spec fips_iv512 64); [apply iv512_ok|lia].
Defined.

#[export] Instance sha512_256_ok : DigestOk EVP_sha512_256_method fips_sha512_256.
Proof.
  apply (one_context EVP_sha512_256_method fips_sha512_256 SHA512_256_Init SHA512_256_Update (SHA512_256_Final false) (sha512_seen fips_iv512_256 32) 128);
    one_context_tac.
  - intros c out. unfold EVP_sha512_256_method, final, sha512_256_final, on_one. by destruct (SHA512_256_Final false c).
  - apply sha512_256_init_seen.
  - apply sha512_update_seen.
  - intros c msg Hc. apply (sha512_final_out _ _ _ _ Hc); [apply iv512_256_ok|lia|by exists 4].
  - intros msg. apply (sha512_hash_spec fips_iv512_256 32); [apply iv512_256_ok|lia].
Defined.

(** MD5 and SHA-1 of the same message, one after the other. *)
Definition rfc_md5_sha1 (msg : bytes) : bytes := rfc_md5 msg ++ fips_sha1 msg.

#[export] Instance md5_sha1_ok : DigestOk EVP_md5_sha1_method rfc_md5_sha1.
Proof.
  refine {|
    shaped cs := ∃ c1 c2, cs = [c1; c2]; seen cs msg := ∃ c1 c2, cs = [c1; c2] ∧ md5_seen c1 msg ∧ sha1_seen c2 msg |}.
  - intros b _. by do 2 eexists.
  - intros cs (c1 & c2 & ->). exists MD5_Init, SHA1_Init. split; [done|]. split; [apply md5_init_seen|apply sha1_init_seen].
  - intros cs msg (c1 & c2 & -> & _). by exists c1, c2.
  - intros cs msg (c1 & c2 & _ & H1 & _). by destruct (in_use_shape _ _ _ _ _ _ _ H1).
  - intros cs msg x (c1 & c2 & -> & H1 & H2) Hx Hl. exists (MD5_Update c1 x), (SHA1_Update c2 x).
    split; [done|]. split; [by apply md_update_seen; [apply _|..]|by apply sha1_update_seen].
  - intros cs msg out (c1 & c2 & -> & H1 & H2) Hout. cbn [EVP_md5_sha1_method final md5_sha1_final].
    pose proof (Md5.md5_final c1 msg H1) as E1. pose proof (sha1_final_seen c2 msg H2) as E2.
    destruct (MD5_Final c1) as [c1' d1], (SHA1_Final c2) as [c2' d2]. cbn [snd] in *. subst d1 d2. cbn [put].
    apply in_use_shape in H1 as [_ Hok]. destruct (md5_hash_spec msg Hok) as [_ L1]. destruct (sha1_hash_spec msg Hok) as [_ L2].
    unfold rfc_md5_sha1, write_at, MD5_DIGEST_LENGTH. rewrite !takeZ_0. cbn [app].
    cbn in Hout. unfold MD5_DIGEST_LENGTH, SHA_DIGEST_LENGTH in Hout.
    rewrite takeZ_app by done. rewrite <-app_assoc. do 2 f_equal. rewrite !Z.add_0_l, lenZ_app, L1, L2.
    rewrite <-(dropZ_dropZ 20 16), dropZ_app, dropZ_dropZ by (done || lia). done.
  - intros msg Hok. destruct (md5_hash_spec msg Hok) as [O1 L1]. destruct (sha1_hash_spec msg Hok) as [O2 L2].
    unfold rfc_md5_sha1. split; [by apply bytes_ok_app|]. by rewrite lenZ_app, L1, L2.
  - cbn. unfold EVP_MAX_MD_SIZE, EVP_MAX_MD_BLOCK_SIZE, MD5_DIGEST_LENGTH, SHA_DIGEST_LENGTH, sizeof_MD5_CTX, sizeof_SHA_CTX. lia.
Defined.

(** The hash function of each method. *)
Definition hash_of (m : md_method) : bytes → bytes :=
  match m with
  | EVP_md4 => rfc_md4 | EVP_md5 => rfc_md5 | EVP_sha1 => fips_sha1 | EVP_sha224 => fips_sha224 | EVP_sha256 => fips_sha256
  | EVP_sha384 => fips_sha384 | EVP_sha512 => fips_sha512 | EVP_sha512_256 => fips_sha512_256
  | EVP_md5_sha1 => rfc_md5_sha1
  end.
#[export] Instance method_ok m : DigestOk (method m) (hash_of m).
Proof. destruct m; apply _. Defined.

(** * Contexts in use *)

Section contexts.
Context {libc : Libc} {PC : Type}.
Local Abbreviation ctx := (EVP_MD_CTX PC).

(** A context with a digest has memory for it. *)
Definition ctx_wf (c : ctx) : Prop :=
  match digest c with
  | Some m => ∃ s, md_data c = Some s ∧ shaped (m := method m) s
  | None => True
  end.

(** [msg] has been hashed with [m]. *)
Definition hashing (c : ctx) (m : md_method) (msg : bytes) : Prop :=
  digest c = Some m ∧ pctx c = None ∧ ∃ s, md_data c = Some s ∧ seen (m := method m) s msg.

Lemma hashing_wf c m msg : hashing c m msg → ctx_wf c.
Proof.
  intros (Hd & _ & s & Hs & Hseen). unfold ctx_wf. rewrite Hd. exists s. split; [done|]. by eapply seen_shaped.
Qed.
Lemma hashing_ok c m msg : hashing c m msg → bytes_ok msg.
Proof. intros (_ & _ & s & _ & Hseen). by eapply seen_ok. Qed.
Lemma init_wf : ctx_wf EVP_MD_CTX_init.
Proof. done. Qed.

Lemma digest_sizes m :
  0 < EVP_MD_size m <= 64 ∧ EVP_MD_size m <= EVP_MD_block_size m <= 128 ∧ 0 <= ctx_size (method m) < 2 ^ 32.
Proof. apply (sizes (m := method m)). Qed.

Lemma hash_length m msg : bytes_ok msg → bytes_ok (hash_of m msg) ∧ lenZ (hash_of m msg) = EVP_MD_size m.
Proof. apply (hash_spec (m := method m)). Qed.

(** The initialisation either leaves the context alone or starts a message. *)
Lemma digest_init c m c' ok :
  ctx_wf c → pctx c = None → EVP_DigestInit_ex c m = (c', ok) →
  (ok = false ∧ c' = c ∧ digest c ≠ Some m ∧ OPENSSL_malloc (ctx_size (method m)) = None) ∨ (ok = true ∧ hashing c' m []).
Proof.
  intros Hc Hp. unfold EVP_DigestInit_ex. cbv zeta. destruct (bool_decide_reflect (digest c = Some m)) as [Hd|Hd].
  - intros [= <- <-]. right. unfold ctx_wf in Hc. rewrite Hd in Hc. destruct Hc as (s & Hs & Hsh).
    split; [done|]. split; [done|]. split; [done|]. cbn [md_data]. rewrite Hs.
    exists (init (method m) s). split; [done|]. by apply init_seen.
  - destruct (OPENSSL_malloc (ctx_size (method m))) as [b|] eqn:Hm; intros [= <- <-]; [|by left].
    right. split; [done|]. split; [done|]. split; [done|]. exists (init (method m) (view (method m) b)). split; [done|].
    apply init_seen, view_shaped. apply OPENSSL_malloc_len in Hm; [done|]. apply digest_sizes.
Qed.

Lemma digest_update c m msg x :
  hashing c m msg → bytes_ok x → lenZ x < 2 ^ 64 → hashing (EVP_DigestUpdate c x) m (msg ++ x).
Proof.
  intros (Hd & Hp & s & Hs & Hseen) Hx Hl. unfold EVP_DigestUpdate. rewrite Hd, Hs.
  split; [done|]. split; [done|]. exists (update (method m) s x). split; [done|]. by apply update_seen.
Qed.

Lemma digest_final c m msg out :
  hashing c m msg → EVP_MD_size m <= lenZ out →
  ∃ c', EVP_DigestFinal_ex c out = (c', write_at out 0 (hash_of m msg), EVP_MD_size m) ∧
    digest c' = Some m ∧ pctx c' = None ∧ ctx_wf c'.
Proof.
  intros (Hd & Hp & s & Hs & Hseen) Hout. unfold EVP_DigestFinal_ex. rewrite Hd, Hs.
  pose proof (final_spec s msg out Hseen Hout) as E. destruct (final (method m) s out) as [s' o]. cbn [snd] in E. subst o.
  eexists. split; [done|]. split; [done|]. split; [done|]. unfold ctx_wf. cbn [digest md_data]. eexists. split; [done|].
  apply view_shaped. rewrite lenZ_replicate. pose proof (digest_sizes m). lia.
Qed.

Lemma digest_copy out inn m msg out' ok :
  ctx_wf out → hashing inn m msg → EVP_MD_CTX_copy_ex out (Some inn) = (out', ok) →
  (ok = false ∧ out' = out ∧ digest out ≠ Some m ∧ OPENSSL_malloc (ctx_size (method m)) = None) ∨
  (ok = true ∧ hashing out' m msg).
Proof.
  intros Hout Hin. pose proof Hin as (Hd & Hp & s & Hs & Hseen). unfold EVP_MD_CTX_copy_ex. rewrite Hp, Hd.
  rewrite bool_decide_eq_false_2 by done. cbn [andb].
  destruct (bool_decide_reflect (digest out = Some m)) as [Ho|Ho].
  - unfold ctx_wf in Hout. rewrite Ho in Hout. destruct Hout as (s' & -> & _). intros [= <- <-]. right.
    split; [done|]. split; [done|]. split; [done|]. exists s. auto.
  - destruct (OPENSSL_malloc (ctx_size (method m))) as [b|] eqn:Hm; cbn [fmap option_fmap option_map]; intros [= <- <-]; [|by left].
    right. split; [done|]. split; [done|]. split; [done|]. exists s. auto.
Qed.

(** Whatever the method, [EVP_Digest] writes the digest of the data at the start of the output and
    returns its size, unless there is no memory for the context; then it leaves the output alone and
    fails. *)
Theorem evp_digest_spec data out m :
  bytes_ok data → lenZ data < 2 ^ 64 → EVP_MD_size m <= lenZ out →
  EVP_Digest (PC := PC) data out m =
    match OPENSSL_malloc (ctx_size (method m)) with
    | Some _ => (write_at out 0 (hash_of m data), EVP_MD_size m, true)
    | None => (out, 0, false)
    end.
Proof.
  intros Hok Hl Hout. unfold EVP_Digest. destruct (EVP_DigestInit_ex EVP_MD_CTX_init m) as [c ok] eqn:E.
  destruct (digest_init _ _ _ _ init_wf eq_refl E) as [(-> & _ & _ & ->)|[-> Hc]]; [done|].
  apply (digest_update _ _ _ data) in Hc; [|done..]. destruct (digest_final _ _ _ out Hc Hout) as (c' & -> & _).
  unfold EVP_DigestInit_ex in E. cbn [EVP_MD_CTX_init digest] in E. rewrite bool_decide_eq_false_2 in E by done.
  destruct (OPENSSL_malloc _); [done|discriminate].
Qed.
End contexts.

(** SHA-256 of the empty message into a larger buffer. *)
Lemma evp_digest_spec_witness :
  EVP_Digest (libc := calloc_libc) (PC := unit) [] (replicate 40 7) EVP_sha256 =
    match OPENSSL_malloc (libc := calloc_libc) (ctx_size (method EVP_sha256)) with
    | Some _ => (write_at (replicate 40 7) 0 (hash_of EVP_sha256 []), EVP_MD_size EVP_sha256, true)
    | None => (replicate 40 7, 0, false)
    end.
Proof. apply (evp_digest_spec (libc := calloc_libc) (PC := unit) [] (replicate 40 7) EVP_sha256); [constructor|done|done]. Defined.
