(* ===== verification/Hmac.v ===== *)
(** HMAC: src/HolyWater-Test/Pods/BoringSSL-GRPC/src/crypto/fipsmodule/hmac/hmac.c, against RFC 2104. *)
From S2P Require Import Prelude ConstTime Mem Md32 Evp.

Open Scope Z_scope.

(** * The code *)

(** [struct hmac_ctx_st]; the field [md] is [h_md], and [md_ctx] is [m_ctx]. *)
Record HMAC_CTX {PC : Type} := {
  h_md : option md_method;
  m_ctx : EVP_MD_CTX PC;
  i_ctx : EVP_MD_CTX PC;
  o_ctx : EVP_MD_CTX PC;
}.
Arguments HMAC_CTX : clear implicits.

Section hmac.
Context {libc : Libc} {PC : Type}.
Local Abbreviation hctx := (HMAC_CTX PC).

Definition set_m (c : hctx) (x : EVP_MD_CTX PC) : hctx := {| h_md := h_md c; m_ctx := x; i_ctx := i_ctx c; o_ctx := o_ctx c |}.
Definition set_i (c : hctx) (x : EVP_MD_CTX PC) : hctx := {| h_md := h_md c; m_ctx := m_ctx c; i_ctx := x; o_ctx := o_ctx c |}.
Definition set_o (c : hctx) (x : EVP_MD_CTX PC) : hctx := {| h_md := h_md c; m_ctx := m_ctx c; i_ctx := i_ctx c; o_ctx := x |}.
Definition set_md (c : hctx) (x : option md_method) : hctx := {| h_md := x; m_ctx := m_ctx c; i_ctx := i_ctx c; o_ctx := o_ctx c |}.

Definition HMAC_CTX_init : hctx :=
  {| h_md := None; m_ctx := EVP_MD_CTX_init; i_ctx := EVP_MD_CTX_init; o_ctx := EVP_MD_CTX_init |}.
Definition sizeof_HMAC_CTX : Z := 104.
Definition HMAC_CTX_new : option hctx := _ ← OPENSSL_malloc sizeof_HMAC_CTX; Some HMAC_CTX_init.
(** All fields are zero afterwards. *)
Definition HMAC_CTX_cleanup (_ : hctx) : hctx := HMAC_CTX_init.
Definition HMAC_CTX_reset (c : hctx) : hctx := let c := HMAC_CTX_cleanup c in HMAC_CTX_init.

(** The key in a block of 128 bytes, zeros after it; its first contents do not matter. *)
Definition hmac_key_block (c : hctx) (md : md_method) (key : bytes) : hctx * option bytes :=
  let key_block := replicate (Z.to_nat EVP_MAX_MD_BLOCK_SIZE) 0 in
  let key_len := lenZ key in
  let pad_zeros kb len :=
    if negb (len =? EVP_MAX_MD_BLOCK_SIZE) then zero_from kb len (EVP_MAX_MD_BLOCK_SIZE - len) else kb in
  if EVP_MD_block_size md <? key_len then
    let '(m, ok) := EVP_DigestInit_ex (m_ctx c) md in
    if negb ok then (set_m c m, None)
    else
      let m := EVP_DigestUpdate m key in
      let '(m, key_block, key_block_len) := EVP_DigestFinal_ex m key_block in
      (set_m c m, Some (pad_zeros key_block key_block_len))
  else (c, Some (pad_zeros (write_at key_block 0 key) (u32 key_len))).

(** One of the two keyed contexts. *)
Definition hmac_pad (x : EVP_MD_CTX PC) (md : md_method) (b : Z) (key_block : bytes) : EVP_MD_CTX PC * bool :=
  let pad := map (λ k, b .^ k) key_block in
  let '(x, ok) := EVP_DigestInit_ex x md in
  if ok then (EVP_DigestUpdate x (takeZ (EVP_MD_block_size md) pad), true) else (x, false).

(** A method that is NULL in the arguments and the context is a NULL dereference; it counts as a
    failure here. *)
Definition HMAC_Init_ex (c : hctx) (key : option bytes) (md : option md_method) : hctx * bool :=
  let md := match md with None => h_md c | Some _ => md end in
  let finish c :=
    let '(m, ok) := EVP_MD_CTX_copy_ex (m_ctx c) (Some (i_ctx c)) in (set_m c m, ok) in
  if negb (bool_decide (md = h_md c)) || bool_decide (is_Some key) then
    match md with
    | None => (c, false)
    | Some m =>
        let '(c, key_block) := hmac_key_block c m (default [] key) in
        match key_block with
        | None => (c, false)
        | Some key_block =>
            let '(i, ok) := hmac_pad (i_ctx c) m 0x36 key_block in
            let c := set_i c i in
            if negb ok then (c, false)
            else
              let '(o, ok) := hmac_pad (o_ctx c) m 0x5c key_block in
              let c := set_o c o in
              if negb ok then (c, false) else finish (set_md c (Some m))
        end
    end
  else finish c.

Definition HMAC_Update (c : hctx) (data : bytes) : hctx := set_m c (EVP_DigestUpdate (m_ctx c) data).

(** The context, [out], and the size when the function succeeds. *)
Definition HMAC_Final (c : hctx) (out : bytes) : hctx * bytes * option Z :=
  let '(m, buf, i) := EVP_DigestFinal_ex (m_ctx c) (replicate (Z.to_nat EVP_MAX_MD_SIZE) 0) in
  let '(m, ok) := EVP_MD_CTX_copy_ex m (Some (o_ctx c)) in
  if negb ok then (set_m c m, out, None)
  else
    let m := EVP_DigestUpdate m (takeZ i buf) in
    let '(m, out, out_len) := EVP_DigestFinal_ex m out in
    (set_m c m, out, Some out_len).

Definition HMAC_size (c : hctx) : option Z := EVP_MD_size <$> h_md c.

Definition HMAC_CTX_copy_ex (dest src : hctx) : hctx * bool :=
  let '(i, ok) := EVP_MD_CTX_copy_ex (i_ctx dest) (Some (i_ctx src)) in
  let dest := set_i dest i in
  if negb ok then (dest, false)
  else
    let '(o, ok) := EVP_MD_CTX_copy_ex (o_ctx dest) (Some (o_ctx src)) in
    let dest := set_o dest o in
    if negb ok then (dest, false)
    else
      let '(m, ok) := EVP_MD_CTX_copy_ex (m_ctx dest) (Some (m_ctx src)) in
      let dest := set_m dest m in
      if negb ok then (dest, false) else (set_md dest (h_md src), true).
Definition HMAC_CTX_copy (dest src : hctx) : hctx * bool := HMAC_CTX_copy_ex HMAC_CTX_init src.

Definition HMAC_Init (c : hctx) (key : option bytes) (md : option md_method) : hctx * bool :=
  let c := if bool_decide (is_Some key) && bool_decide (is_Some md) then HMAC_CTX_init else c in
  HMAC_Init_ex c key md.

(** [out] and its length; [None] is NULL. *)
Definition HMAC (evp_md : md_method) (key : option bytes) (data out : bytes) : option (bytes * Z) :=
  let '(c, ok) := HMAC_Init_ex HMAC_CTX_init key (Some evp_md) in
  if negb ok then None
  else
    let c := HMAC_Update c data in
    let '(c, out, out_len) := HMAC_Final c out in
    match out_len with Some n => Some (out, n) | None => None end.
End hmac.

(** * RFC 2104 *)

Definition hmac_key (hash : bytes → bytes) (block : Z) (key : bytes) : bytes :=
  let key := if block <? lenZ key then hash key else key in
  key ++ replicate (Z.to_nat (block - lenZ key)) 0.
Definition xor_pad (b : Z) (key : bytes) : bytes := map (λ k, b .^ k) key.

(** [H(K XOR opad, H(K XOR ipad, text))] *)
Definition rfc2104 (hash : bytes → bytes) (block : Z) (key text : bytes) : bytes :=
  let k := hmac_key hash block key in hash (xor_pad 0x5c k ++ hash (xor_pad 0x36 k ++ text)).

Definition hmac_of (m : md_method) : bytes → bytes → bytes := rfc2104 (hash_of m) (EVP_MD_block_size m).

(** * The code computes it *)

Section correctness.
Context {libc : Libc} {PC : Type}.
Local Abbreviation hctx := (HMAC_CTX PC).
Context (m : md_method).

(** The last step of a method ends the storage of contexts, none of which is of a public-key operation. *)
Definition plain (x : EVP_MD_CTX PC) : Prop := ctx_wf x ∧ pctx x = None.
Definition hmac_wf (c : hctx) : Prop := plain (m_ctx c) ∧ plain (i_ctx c) ∧ plain (o_ctx c).

(** A key is set: the two contexts have hashed its pads. *)
Definition keyed (c : hctx) (key : bytes) : Prop :=
  h_md c = Some m ∧ plain (m_ctx c) ∧
  hashing (i_ctx c) m (xor_pad 0x36 (hmac_key (hash_of m) (EVP_MD_block_size m) key)) ∧
  hashing (o_ctx c) m (xor_pad 0x5c (hmac_key (hash_of m) (EVP_MD_block_size m) key)).

(** And [text] has been given since. *)
Definition macing (c : hctx) (key text : bytes) : Prop :=
  keyed c key ∧ hashing (m_ctx c) m (xor_pad 0x36 (hmac_key (hash_of m) (EVP_MD_block_size m) key) ++ text).

Lemma hashing_plain x msg : hashing x m msg → plain x.
Proof. intros Hx. split; [by eapply hashing_wf|]. by destruct Hx as (_ & ? & _). Qed.

Lemma xor_pad_ok b key : fits 8 b → bytes_ok key → bytes_ok (xor_pad b key).
Proof. intros Hb Hk. unfold xor_pad. apply Forall_map. eapply Forall_impl; [exact Hk|]. intros x Hx. by apply fits_lxor. Qed.

Lemma hmac_key_ok key :
  bytes_ok key → bytes_ok (hmac_key (hash_of m) (EVP_MD_block_size m) key) ∧
    lenZ (hmac_key (hash_of m) (EVP_MD_block_size m) key) = EVP_MD_block_size m.
Proof.
  intros Hk. unfold hmac_key. cbv zeta. pose proof (digest_sizes m) as (H1 & H2 & _). pose proof (lenZ_nonneg key).
  set (k := if _ <? _ then _ else _). assert (bytes_ok k ∧ 0 <= lenZ k <= EVP_MD_block_size m) as [Hok Hl].
  { unfold k. destruct (Z.ltb_spec (EVP_MD_block_size m) (lenZ key)); [|split; [done|lia]].
    destruct (hash_length m key Hk) as [? ->]. split; [done|lia]. }
  split.
  - apply bytes_ok_app. split; [done|]. by apply Forall_replicate.
  - rewrite lenZ_app, lenZ_replicate. lia.
Qed.

(** The block of the key begins with the key of the RFC. *)
Lemma key_block_spec (c c' : hctx) key kb :
  hmac_wf c → bytes_ok key → lenZ key < 2 ^ 64 → hmac_key_block c m key = (c', kb) →
  hmac_wf c' ∧ h_md c' = h_md c ∧ i_ctx c' = i_ctx c ∧ o_ctx c' = o_ctx c ∧
  match kb with
  | Some kb => kb = hmac_key (hash_of m) (EVP_MD_block_size m) key ++
                 replicate (Z.to_nat (EVP_MAX_MD_BLOCK_SIZE - EVP_MD_block_size m)) 0
  | None => OPENSSL_malloc (ctx_size (method m)) = None
  end.
Proof.
  intros ((Hm & Hp) & Hi & Ho) Hk Hl. unfold hmac_key_block, hmac_key. cbv zeta. change EVP_MAX_MD_BLOCK_SIZE with 128.
  pose proof (digest_sizes m) as (H1 & H2 & _). pose proof (lenZ_nonneg key).
  assert (∀ k : bytes, 0 <= lenZ k <= EVP_MD_block_size m →
    (if negb (lenZ k =? 128) then zero_from (write_at (replicate (Z.to_nat 128) 0) 0 k) (lenZ k) (128 - lenZ k)
     else write_at (replicate (Z.to_nat 128) 0) 0 k) =
    (k ++ replicate (Z.to_nat (EVP_MD_block_size m - lenZ k)) 0) ++ replicate (Z.to_nat (128 - EVP_MD_block_size m)) 0) as Hpad.
  { intros k Hlk. rewrite <-app_assoc, <-replicate_add.
    replace (Z.to_nat (EVP_MD_block_size m - lenZ k) + Z.to_nat (128 - EVP_MD_block_size m))%nat with (Z.to_nat (128 - lenZ k)) by lia.
    unfold zero_from, write_at at 2 3. rewrite takeZ_0, Z.add_0_l. cbn [app].
    destruct (Z.eqb_spec (lenZ k) 128) as [E|E]; cbn [negb].
    - rewrite E, Z.sub_diag. by rewrite dropZ_all by (rewrite lenZ_replicate; lia).
    - unfold write_at. rewrite takeZ_app by done. rewrite lenZ_replicate, dropZ_all; [by rewrite app_nil_r|].
      rewrite lenZ_app, lenZ_dropZ, !lenZ_replicate by (rewrite lenZ_replicate; lia). lia. }
  destruct (Z.ltb_spec (EVP_MD_block_size m) (lenZ key)) as [Hlong|Hshort].
  - destruct (EVP_DigestInit_ex (m_ctx c) m) as [x ok] eqn:E.
    destruct (digest_init _ _ _ _ Hm Hp E) as [(-> & -> & _ & Hmal)|[-> Hx]]; cbn [negb].
    + intros [= <- <-]. done.
    + apply (digest_update _ _ _ key) in Hx; [|done..]. cbn [app] in Hx.
      destruct (digest_final _ _ _ (replicate (Z.to_nat 128) 0) Hx) as (x' & -> & _ & Hp' & Hwf); [rewrite lenZ_replicate; lia|].
      intros [= <- <-]. split; [done|]. do 3 (split; [done|]).
      destruct (hash_length m key Hk) as [_ Hhl]. rewrite <-Hhl. apply Hpad. lia.
  - intros [= <- <-]. split; [done|]. do 3 (split; [done|]). rewrite wrap_small by (split; mlia). apply Hpad. lia.
Qed.

Lemma pad_spec x x' b kb ok key :
  plain x → fits 8 b → bytes_ok key →
  kb = hmac_key (hash_of m) (EVP_MD_block_size m) key ++ replicate (Z.to_nat (EVP_MAX_MD_BLOCK_SIZE - EVP_MD_block_size m)) 0 →
  hmac_pad x m b kb = (x', ok) →
  (ok = false ∧ plain x' ∧ OPENSSL_malloc (ctx_size (method m)) = None) ∨
  (ok = true ∧ hashing x' m (xor_pad b (hmac_key (hash_of m) (EVP_MD_block_size m) key))).
Proof.
  intros [Hx Hp] Hb Hk -> E. unfold hmac_pad in E. cbv zeta in E.
  destruct (EVP_DigestInit_ex x m) as [y oky] eqn:Ey. destruct (hmac_key_ok key Hk) as [Hok Hlk].
  destruct (digest_init _ _ _ _ Hx Hp Ey) as [(-> & -> & _ & Hmal)|[-> Hy]]; injection E as <- <-; [by left|].
  right. split; [done|]. rewrite map_app, takeZ_app by (unfold lenZ in *; by rewrite length_map).
  apply (digest_update _ _ _ _ Hy); [by apply xor_pad_ok|].
  pose proof (digest_sizes m). unfold lenZ, xor_pad in *. rewrite length_map. mlia.
Qed.

(** Starting a text under a key that is set. *)
Lemma rewind_spec (c c' : hctx) key ok :
  keyed c key →
  (let '(x, ok) := EVP_MD_CTX_copy_ex (m_ctx c) (Some (i_ctx c)) in (set_m c x, ok)) = (c', ok) →
  (ok = false ∧ hmac_wf c' ∧ digest (m_ctx c) ≠ Some m ∧ OPENSSL_malloc (ctx_size (method m)) = None) ∨
  (ok = true ∧ macing c' key []).
Proof.
  intros (Hmd & [Hm Hp] & Hi & Ho) E. destruct (EVP_MD_CTX_copy_ex (m_ctx c) (Some (i_ctx c))) as [x okx] eqn:Ex.
  injection E as <- <-. destruct (digest_copy _ _ _ _ _ _ Hm Hi Ex) as [(-> & -> & Hd & Hmal)|[-> Hx]].
  - left. split; [done|]. split; [|done]. split; [done|]. split; by eapply hashing_plain.
  - right. split; [done|]. unfold macing. rewrite app_nil_r. split; [|done].
    split; [done|]. split; [by eapply hashing_plain|done].
Qed.

(** Setting a key. *)
Lemma init_spec (c c' : hctx) (key : option bytes) ok :
  hmac_wf c → is_Some key ∨ h_md c ≠ Some m → bytes_ok (default [] key) → lenZ (default [] key) < 2 ^ 64 →
  HMAC_Init_ex c key (Some m) = (c', ok) →
  (ok = false ∧ OPENSSL_malloc (ctx_size (method m)) = None) ∨ (ok = true ∧ macing c' (default [] key) []).
Proof.
  intros Hwf Hkey Hk Hl. unfold HMAC_Init_ex. cbv zeta.
  assert (negb (bool_decide (Some m = h_md c)) || bool_decide (is_Some key) = true) as ->.
  { destruct Hkey as [Hs|Hne]; [by rewrite (bool_decide_eq_true_2 (is_Some key)), orb_true_r|].
    by rewrite bool_decide_eq_false_2 by congruence. }
  destruct (hmac_key_block c m (default [] key)) as [c1 kb] eqn:E1.
  destruct (key_block_spec c c1 _ kb Hwf Hk Hl E1) as (Hwf1 & _ & Ei & Eo & Hkb).
  destruct kb as [kb|]; [|intros [= <- <-]; by left].
  destruct Hwf1 as (Hm1 & Hi1 & Ho1).
  destruct (hmac_pad (i_ctx c1) m 0x36 kb) as [i oki] eqn:E2.
  destruct (pad_spec _ _ 0x36 kb _ _ Hi1 ltac:(decide_now) Hk Hkb E2) as [(-> & _ & Hmal)|[-> Hi]]; cbn [negb];
    [intros [= <- <-]; by left|].
  destruct (hmac_pad (o_ctx (set_i c1 i)) m 0x5c kb) as [o oko] eqn:E3.
  destruct (pad_spec _ _ 0x5c kb _ _ Ho1 ltac:(decide_now) Hk Hkb E3) as [(-> & _ & Hmal)|[-> Ho]]; cbn [negb];
    [intros [= <- <-]; by left|].
  intros E. destruct (rewind_spec (set_md (set_o (set_i c1 i) o) (Some m)) c' (default [] key) ok) as [(-> & _ & _ & Hmal)|[-> Hc]].
  - done.
  - exact E.
  - by left.
  - by right.
Qed.

Lemma macing_update (c : hctx) key text x :
  macing c key text → bytes_ok x → lenZ x < 2 ^ 64 → macing (HMAC_Update c x) key (text ++ x).
Proof.
  intros [(Hmd & Hm & Hi & Ho) Hx] Hok Hl. apply (digest_update _ _ _ x) in Hx; [|done..]. rewrite <-app_assoc in Hx.
  split; [|done]. split; [done|]. split; [by eapply hashing_plain|done].
Qed.

Lemma macing_updates (c : hctx) key text chunks :
  macing c key text → Forall (λ x, bytes_ok x ∧ lenZ x < 2 ^ 64) chunks →
  macing (fold_left HMAC_Update chunks c) key (text ++ concat chunks).
Proof.
  intros Hc H. revert c text Hc. induction H as [|x chunks [Hx Hl] _ IH]; intros c text Hc; cbn [fold_left concat].
  - by rewrite app_nil_r.
  - rewrite app_assoc. by apply IH, macing_update.
Qed.

(** The tag; the key stays set. *)
Lemma final_spec (c : hctx) key text out :
  macing c key text → EVP_MD_size m <= lenZ out →
  ∃ c', HMAC_Final c out = (c', write_at out 0 (hmac_of m key text), Some (EVP_MD_size m)) ∧
    keyed c' key ∧ digest (m_ctx c') = Some m.
Proof.
  intros [(Hmd & Hm & Hi & Ho) Hx] Hout. unfold HMAC_Final. pose proof (digest_sizes m) as (Hs & _).
  pose proof (hashing_ok _ _ _ Hx) as Hok. destruct (hash_length m _ Hok) as [Hho Hhl].
  destruct (digest_final _ _ _ (replicate (Z.to_nat EVP_MAX_MD_SIZE) 0) Hx) as (x1 & -> & Hd1 & Hp1 & Hwf1).
  { rewrite lenZ_replicate. change EVP_MAX_MD_SIZE with 64. lia. }
  destruct (EVP_MD_CTX_copy_ex x1 (Some (o_ctx c))) as [x2 ok2] eqn:E2.
  destruct (digest_copy _ _ _ _ _ _ Hwf1 Ho E2) as [(_ & _ & Hne & _)|[-> Hx2]]; [done|]. cbn [negb].
  assert (takeZ (EVP_MD_size m) (write_at (replicate (Z.to_nat EVP_MAX_MD_SIZE) 0) 0
    (hash_of m (xor_pad 0x36 (hmac_key (hash_of m) (EVP_MD_block_size m) key) ++ text))) =
    hash_of m (xor_pad 0x36 (hmac_key (hash_of m) (EVP_MD_block_size m) key) ++ text)) as ->
    by (unfold write_at; rewrite takeZ_0; cbn [app]; apply takeZ_app; by rewrite Hhl).
  apply (digest_update _ _ _ (hash_of m (xor_pad 0x36 (hmac_key (hash_of m) (EVP_MD_block_size m) key) ++ text))) in Hx2;
    [|done|rewrite Hhl; mlia].
  destruct (digest_final _ _ _ out Hx2 Hout) as (x3 & -> & Hd3 & Hp3 & Hwf3).
  eexists. split; [reflexivity|]. split; [|done]. split; [done|]. split; [by split|done].
Qed.

(** A context whose message context is already of the method needs no memory to start again. *)
Lemma restart_spec (c : hctx) key :
  keyed c key → digest (m_ctx c) = Some m → ∃ c', HMAC_Init_ex c None None = (c', true) ∧ macing c' key [].
Proof.
  intros Hc Hd. unfold HMAC_Init_ex. cbv zeta. rewrite (bool_decide_eq_true_2 (h_md c = h_md c)) by done.
  rewrite bool_decide_eq_false_2 by by intros [? ?]. cbn [negb orb].
  destruct (EVP_MD_CTX_copy_ex (m_ctx c) (Some (i_ctx c))) as [x okx] eqn:E.
  destruct (rewind_spec c (set_m c x) key okx Hc) as [(_ & _ & Hne & _)|[-> Hm]]; [by rewrite E|done|].
  by eexists.
Qed.
End correctness.

Section mac.
Context {libc : Libc} {PC : Type}.

Lemma fresh_wf : hmac_wf (PC := PC) HMAC_CTX_init.
Proof. by repeat split. Qed.

Lemma fresh_no_md m : h_md (PC := PC) HMAC_CTX_init ≠ Some m.
Proof. done. Qed.

(** The one-shot function. *)
Lemma HMAC_spec m (key : option bytes) data out :
  bytes_ok (default [] key) → lenZ (default [] key) < 2 ^ 64 → bytes_ok data → lenZ data < 2 ^ 64 →
  EVP_MD_size m <= lenZ out →
  HMAC (PC := PC) m key data out = Some (write_at out 0 (hmac_of m (default [] key) data), EVP_MD_size m) ∨
  HMAC (PC := PC) m key data out = None ∧ OPENSSL_malloc (ctx_size (method m)) = None.
Proof.
  intros Hk Hkl Hd Hdl Hout. unfold HMAC.
  destruct (HMAC_Init_ex HMAC_CTX_init key (Some m)) as [c ok] eqn:E.
  destruct (init_spec m _ _ _ _ fresh_wf (or_intror (fresh_no_md m)) Hk Hkl E) as [[-> Hmal]|[-> Hc]]; cbn [negb]; [by right|].
  apply (macing_update m _ _ _ data) in Hc; [|done..]. destruct (final_spec m _ _ _ out Hc Hout) as (c' & -> & _). by left.
Qed.

(** C7. HMAC over any of the nine digests is RFC 2104. A context given a key of any length answers,
    after the text in pieces of any sizes, with the tag of the whole text; then, restarted without a
    key, it answers for the next text with the same key and needs no memory to do so. Only the first
    step can fail, and only for want of memory. *)
Theorem hmac_rfc2104 m (key : bytes) chunks chunks' out (c : HMAC_CTX PC) ok :
  bytes_ok key → lenZ key < 2 ^ 64 →
  Forall (λ x, bytes_ok x ∧ lenZ x < 2 ^ 64) chunks → Forall (λ x, bytes_ok x ∧ lenZ x < 2 ^ 64) chunks' →
  EVP_MD_size m <= lenZ out →
  HMAC_Init_ex HMAC_CTX_init (Some key) (Some m) = (c, ok) →
  (ok = false → OPENSSL_malloc (ctx_size (method m)) = None) ∧
  (ok = true → ∃ c1 c2 c3,
     HMAC_Final (fold_left HMAC_Update chunks c) out =
       (c1, write_at out 0 (hmac_of m key (concat chunks)), Some (EVP_MD_size m)) ∧
     HMAC_Init_ex c1 None None = (c2, true) ∧
     HMAC_Final (fold_left HMAC_Update chunks' c2) out =
       (c3, write_at out 0 (hmac_of m key (concat chunks')), Some (EVP_MD_size m))).
Proof.
  intros Hk Hkl Hch Hch' Hout E.
  destruct (init_spec m _ _ (Some key) _ fresh_wf (or_introl (mk_is_Some _ _ eq_refl)) Hk Hkl E) as [[-> Hmal]|[-> Hc]]; [by split|].
  split; [done|]. intros _. apply (macing_updates m _ _ _ chunks) in Hc; [|done].
  destruct (final_spec m _ _ _ out Hc Hout) as (c1 & E1 & Hk1 & Hd1).
  destruct (restart_spec m c1 key Hk1 Hd1) as (c2 & E2 & Hc2).
  apply (macing_updates m _ _ _ chunks') in Hc2; [|done].
  destruct (final_spec m _ _ _ out Hc2 Hout) as (c3 & E3 & _). by exists c1, c2, c3.
Qed.
End mac.

(** A key longer than a block. *)
Lemma hmac_rfc2104_witness :
  let c := HMAC_Init_ex (libc := calloc_libc) (PC := unit) HMAC_CTX_init (Some (replicate 70 0xaa)) (Some EVP_sha1) in
  c.2 = true ∧ ∃ c1 c2 c3,
    HMAC_Final (libc := calloc_libc) (fold_left HMAC_Update [[1; 2]; [3]] c.1) (replicate 20 0) =
      (c1, write_at (replicate 20 0) 0 (hmac_of EVP_sha1 (replicate 70 0xaa) (concat [[1; 2]; [3]])), Some 20) ∧
    HMAC_Init_ex (libc := calloc_libc) c1 None None = (c2, true) ∧
    HMAC_Final (libc := calloc_libc) (fold_left HMAC_Update [] c2) (replicate 20 0) =
      (c3, write_at (replicate 20 0) 0 (hmac_of EVP_sha1 (replicate 70 0xaa) (concat [])), Some 20).
Proof.
  assert ((HMAC_Init_ex (libc := calloc_libc) (PC := unit) HMAC_CTX_init (Some (replicate 70 0xaa)) (Some EVP_sha1)).2 = true)
    as Hok by (vm_compute; reflexivity).
  cbv zeta. split; [exact Hok|].
  refine (proj2 (hmac_rfc2104 (libc := calloc_libc) (PC := unit) EVP_sha1 (replicate 70 0xaa) [[1; 2]; [3]] [] (replicate 20 0)
    _ _ _ _ _ _ _ (surjective_pairing _)) Hok);
    [apply (bool_decide_unpack _); vm_compute; exact Logic.I | vm_compute; reflexivity
    |apply (bool_decide_unpack _); vm_compute; exact Logic.I | constructor | vm_compute; discriminate].
Defined.

(** The first test of RFC 2202. *)
Example hmac_md5_rfc2202 :
  fst <$> HMAC (libc := calloc_libc) (PC := unit) EVP_md5 (Some (replicate 16 0x0b)) [0x48; 0x69; 0x20; 0x54; 0x68; 0x65; 0x72; 0x65]
    (replicate 16 0) =
  Some [0x92; 0x94; 0x72; 0x7a; 0x36; 0x38; 0xbb; 0x1c; 0x13; 0xf4; 0x8e; 0xf8; 0x15; 0x8b; 0xfc; 0x9d].
Proof. vm_compute. reflexivity. Qed.
