(* ===== verification/Hkdf.v ===== *)
(** HKDF: src/HolyWater-Test/Pods/BoringSSL-GRPC/src/crypto/hkdf/hkdf.c, against RFC 5869. *)
From S2P Require Import Prelude ConstTime Mem Md32 Evp Hmac.

Open Scope Z_scope.

(** * The code *)

Section hkdf.
Context {libc : Libc} {PC : Type}.
Local Abbreviation hctx := (HMAC_CTX PC).

(** The key and its length; [None] is the error. *)
Definition HKDF_extract (out_key : bytes) (digest : md_method) (secret : bytes) (salt : option bytes) : option (bytes * Z) :=
  HMAC (PC := PC) digest salt secret out_key.

(** The local variables of the loop. *)
Record hkdf_state := { hmac : hctx; previous : bytes; out_key : bytes; done' : Z }.

Definition hkdf_turn (digest_len : Z) (info : bytes) (out_len i : Z) (s : hkdf_state) : option hkdf_state :=
  let ctr := u8 (i + 1) in
  c ← (if negb (i =? 0) then
         let '(c, ok) := HMAC_Init_ex (hmac s) None None in
         if ok then Some (HMAC_Update c (takeZ digest_len (previous s))) else None
       else Some (hmac s));
  let c := HMAC_Update c info in
  let c := HMAC_Update c [ctr] in
  let '(c, prev, n) := HMAC_Final c (previous s) in
  _ ← n;
  let todo := if out_len <? size_t (done' s + digest_len) then size_t (out_len - done' s) else digest_len in
  Some {| hmac := c; previous := prev; out_key := write_at (out_key s) (done' s) (takeZ todo prev);
          done' := size_t (done' s + todo) |}.

Fixpoint hkdf_loop (num : nat) (i digest_len : Z) (info : bytes) (out_len : Z) (s : hkdf_state) : option hkdf_state :=
  match num with
  | O => Some s
  | S num => s ← hkdf_turn digest_len info out_len i s; hkdf_loop num (i + 1) digest_len info out_len s
  end.

(** The output of [out_len] bytes; [None] is the error. *)
Definition HKDF_expand (out : bytes) (digest : md_method) (prk info : bytes) : option bytes :=
  let out_len := lenZ out in
  let digest_len := EVP_MD_size digest in
  let n := size_t (out_len + digest_len - 1) / digest_len in
  if (size_t (out_len + digest_len) <? out_len) || (255 <? n) then None
  else
    let '(c, ok) := HMAC_Init_ex HMAC_CTX_init (Some prk) (Some digest) in
    if negb ok then None
    else
      s ← hkdf_loop (Z.to_nat n) 0 digest_len info out_len
            {| hmac := c; previous := replicate (Z.to_nat EVP_MAX_MD_SIZE) 0; out_key := out; done' := 0 |};
      Some (out_key s).

Definition HKDF (out : bytes) (digest : md_method) (secret : bytes) (salt : option bytes) (info : bytes) : option bytes :=
  p ← HKDF_extract (replicate (Z.to_nat EVP_MAX_MD_SIZE) 0) digest secret salt;
  HKDF_expand out digest (takeZ p.2 p.1) info.
End hkdf.

(** * RFC 5869 *)

(** [T(0)] is empty and [T(i+1)] the tag of [T(i)], [info] and the byte [i+1]. *)
Fixpoint hkdf_T (m : md_method) (prk info : bytes) (i : nat) : bytes :=
  match i with
  | O => []
  | S i => hmac_of m prk (hkdf_T m prk info i ++ info ++ [Z.of_nat (S i)])
  end.
Definition hkdf_Ts (m : md_method) (prk info : bytes) (n : nat) : bytes := concat (map (hkdf_T m prk info) (seq 1 n)).

(** The first [len] bytes of [T(1)], [T(2)] and so on. *)
Definition rfc5869_expand (m : md_method) (prk info : bytes) (len : Z) : bytes :=
  takeZ len (hkdf_Ts m prk info (Z.to_nat ((len + EVP_MD_size m - 1) / EVP_MD_size m))).
(** Without a salt the key is [HashLen] zeros. *)
Definition rfc5869_extract (m : md_method) (salt : option bytes) (secret : bytes) : bytes :=
  hmac_of m (default (replicate (Z.to_nat (EVP_MD_size m)) 0) salt) secret.

(** * The code computes it *)

Section correctness.
Context {libc : Libc} {PC : Type} (m : md_method) (prk info : bytes).
Context (Hprk : bytes_ok prk) (Hprkl : lenZ prk < 2 ^ 64) (Hinfo : bytes_ok info) (Hinfol : lenZ info < 2 ^ 64).
Let dl := EVP_MD_size m.
Let T := hkdf_T m prk info.

Lemma hmac_of_spec text : bytes_ok text → bytes_ok (hmac_of m prk text) ∧ lenZ (hmac_of m prk text) = dl.
Proof.
  intros Ht. unfold hmac_of, rfc2104. cbv zeta. apply hash_length. destruct (hmac_key_ok m prk Hprk) as [Hk _].
  apply bytes_ok_app. split; [by apply xor_pad_ok; [decide_now|]|]. apply hash_length, bytes_ok_app.
  split; [by apply xor_pad_ok; [decide_now|]|done].
Qed.

Lemma T_spec i : (i <= 255)%nat → bytes_ok (T i) ∧ lenZ (T i) <= dl ∧ (i ≠ 0%nat → lenZ (T i) = dl).
Proof.
  pose proof (digest_sizes m) as (Hs & _). induction i as [|i IH]; intros Hi.
  { change (T 0) with (@nil Z). rewrite lenZ_nil. fold dl in Hs. split; [by constructor|lia]. }
  destruct (hmac_of_spec (T i ++ info ++ [Z.of_nat (S i)])) as [Hok Hl].
  - apply bytes_ok_app. split; [apply IH; lia|]. apply bytes_ok_app. split; [done|].
    apply Forall_singleton. split; mlia.
  - unfold T in *. cbn [hkdf_T]. rewrite Hl. split; [done|]. lia.
Qed.

Lemma Ts_S n : hkdf_Ts m prk info (S n) = hkdf_Ts m prk info n ++ T (S n).
Proof. unfold hkdf_Ts. rewrite seq_S, map_app, concat_app. cbn [map concat]. by rewrite app_nil_r. Qed.

Lemma Ts_length n : (n <= 255)%nat → lenZ (hkdf_Ts m prk info n) = Z.of_nat n * dl.
Proof.
  induction n as [|n IH]; intros Hn; [done|]. rewrite Ts_S, lenZ_app, IH by lia.
  destruct (T_spec (S n) Hn) as (_ & _ & H). rewrite H by done. lia.
Qed.

(** Before turn [i] of the loop. *)
Definition turn_inv (out0 : bytes) (i : nat) (s : hkdf_state (PC := PC)) : Prop :=
  keyed m (hmac s) prk ∧ digest (m_ctx (hmac s)) = Some m ∧ (i = 0%nat → macing m (hmac s) prk []) ∧
  lenZ (previous s) = 64 ∧ (i ≠ 0%nat → takeZ dl (previous s) = T i) ∧
  done' s = Z.min (Z.of_nat i * dl) (lenZ out0) ∧
  out_key s = takeZ (done' s) (hkdf_Ts m prk info i) ++ dropZ (done' s) out0.

Lemma turn_spec out0 i s :
  lenZ out0 <= 255 * dl → (i < 255)%nat → Z.of_nat i * dl < lenZ out0 → turn_inv out0 i s →
  ∃ s', hkdf_turn dl info (lenZ out0) (Z.of_nat i) s = Some s' ∧ turn_inv out0 (S i) s'.
Proof.
  intros Hout Hi Hlt (Hk & Hd & H0 & Hpl & Hp & Hdone & Ho). pose proof (digest_sizes m) as (Hs & _). fold dl in Hs.
  unfold hkdf_turn. cbv zeta.
  destruct (T_spec i ltac:(lia)) as (HTok & HTl & HTn).
  assert (∃ c, (if negb (Z.of_nat i =? 0) then
      let '(c, ok) := HMAC_Init_ex (hmac s) None None in
      if ok then Some (HMAC_Update c (takeZ dl (previous s))) else None else Some (hmac s)) = Some c ∧ macing m c prk (T i)) as (c & -> & Hc).
  { destruct (Z.eqb_spec (Z.of_nat i) 0) as [Hz|Hz]; cbn [negb].
    - exists (hmac s). split; [done|]. replace i with 0%nat by lia. apply H0. lia.
    - destruct (restart_spec m (hmac s) prk Hk Hd) as (c & -> & Hc). eexists. split; [done|]. rewrite Hp by lia.
      apply (macing_update m _ _ _ (T i)) in Hc; [done|done|mlia]. }
  cbn [mbind option_bind]. apply (macing_update m _ _ _ info) in Hc; [|done..].
  assert (u8 (Z.of_nat i + 1) = Z.of_nat (S i)) as -> by (rewrite wrap_small by (split; mlia); lia).
  apply (macing_update m _ _ _ [Z.of_nat (S i)]) in Hc; [|apply Forall_singleton; split; mlia|by rewrite lenZ_cons, lenZ_nil].
  destruct (final_spec m _ _ _ (previous s) Hc ltac:(fold dl; lia)) as (c' & -> & Hk' & Hd'). cbn [mbind option_bind].
  rewrite <-app_assoc. change (hmac_of m prk (T i ++ info ++ [Z.of_nat (S i)])) with (T (S i)).
  destruct (T_spec (S i) ltac:(lia)) as (_ & _ & HTS). specialize (HTS ltac:(lia)).
  assert (done' s = Z.of_nat i * dl) as Hdn by lia. rewrite Hdn.
  rewrite (wrap_small 64 (Z.of_nat i * dl + dl)) by (split; mlia).
  rewrite (wrap_small 64 (lenZ out0 - Z.of_nat i * dl)) by (split; mlia).
  set (todo := if _ <? _ then _ else _).
  assert (Z.of_nat i * dl + todo = Z.min (Z.of_nat (S i) * dl) (lenZ out0) ∧ 0 < todo <= dl) as [Htodo Htr]
    by (unfold todo; destruct (Z.ltb_spec (lenZ out0) (Z.of_nat i * dl + dl)); lia).
  rewrite (wrap_small 64 (Z.of_nat i * dl + todo)) by (split; mlia).
  eexists. split; [reflexivity|]. unfold turn_inv. cbn [hmac previous out_key done'].
  split; [done|]. split; [done|]. split; [done|].
  assert (takeZ dl (write_at (previous s) 0 (T (S i))) = T (S i)) as HT
    by (unfold write_at; rewrite takeZ_0; cbn [app]; by apply takeZ_app).
  split; [rewrite lenZ_write_at; rewrite ?HTS; lia|]. split; [done|]. split; [done|].
  rewrite Ho, Hdn. rewrite <-(takeZ_takeZ todo dl) by lia. rewrite HT.
  pose proof (Ts_length i ltac:(lia)) as HTs. rewrite (takeZ_all (hkdf_Ts m prk info i)) by lia. rewrite Ts_S.
  unfold write_at. rewrite takeZ_app by lia. rewrite takeZ_app_ge by lia. rewrite HTs.
  replace (Z.of_nat i * dl + todo - Z.of_nat i * dl) with todo by lia. rewrite <-app_assoc. do 2 f_equal.
  rewrite lenZ_takeZ by lia.
  rewrite <-!(dropZ_dropZ todo (Z.of_nat i * dl)) by lia. by rewrite dropZ_app.
Qed.

Lemma loop_spec out0 n : ∀ i s,
  lenZ out0 <= 255 * dl → (n = 0%nat ∨ Z.of_nat (i + n - 1) * dl < lenZ out0) → turn_inv out0 i s →
  ∃ s', hkdf_loop n (Z.of_nat i) dl info (lenZ out0) s = Some s' ∧ turn_inv out0 (i + n) s'.
Proof.
  pose proof (digest_sizes m) as (Hs & _). fold dl in Hs.
  induction n as [|n IH]; intros i s Hout Hn Hinv; cbn [hkdf_loop].
  - exists s. by rewrite Nat.add_0_r.
  - assert (Z.of_nat i * dl < lenZ out0 ∧ (i < 255)%nat) as [Hi Hi'] by (split; nia).
    destruct (turn_spec out0 i s Hout Hi' Hi Hinv) as (s' & -> & Hinv'). cbn [mbind option_bind].
    replace (Z.of_nat i + 1) with (Z.of_nat (S i)) by lia.
    assert (n = 0%nat ∨ Z.of_nat (S i + n - 1) * dl < lenZ out0) as Hn'.
    { destruct n as [|n]; [by left|right]. destruct Hn as [?|Hn]; [done|].
      by replace (S i + S n - 1)%nat with (i + S (S n) - 1)%nat by lia. }
    destruct (IH (S i) s' Hout Hn' Hinv') as (s'' & -> & Hinv''). exists s''. split; [done|].
    rewrite Nat.add_succ_r. exact Hinv''.
Qed.

Lemma expand_spec (out : bytes) :
  lenZ out < 2 ^ 64 →
  HKDF_expand (PC := PC) out m prk info =
    if 255 * EVP_MD_size m <? lenZ out then None
    else match OPENSSL_malloc (ctx_size (method m)) with
         | Some _ => Some (rfc5869_expand m prk info (lenZ out))
         | None => HKDF_expand (PC := PC) out m prk info
         end.
Proof.
  intros Hout. pose proof (digest_sizes m) as (Hs & _). fold dl in Hs |- *. pose proof (lenZ_nonneg out) as H0.
  assert ((size_t (lenZ out + dl) <? lenZ out) || (255 <? size_t (lenZ out + dl - 1) / dl) = (255 * dl <? lenZ out)) as E.
  { apply Bool.eq_iff_eq_true. rewrite orb_true_iff, !Z.ltb_lt.
    destruct (Z.lt_ge_cases (lenZ out + dl) (2 ^ 64)) as [Hsmall|Hbig].
    - rewrite !wrap_small by (split; mlia).
      pose proof (Z.div_mod (lenZ out + dl - 1) dl ltac:(lia)). pose proof (Z.mod_pos_bound (lenZ out + dl - 1) dl ltac:(lia)).
      set (q := (lenZ out + dl - 1) / dl) in *. set (r := (lenZ out + dl - 1) mod dl) in *. clearbody q r. split; [intros [?|?]|]; nia.
    - assert (size_t (lenZ out + dl) = lenZ out + dl - 2 ^ 64) as -> by (symmetry; apply Z.mod_unique with 1; mlia).
      split; [intros _; mlia|]. intros _. left. mlia. }
  unfold HKDF_expand. fold dl. cbv zeta. rewrite E. destruct (Z.ltb_spec (255 * dl) (lenZ out)) as [Hbig|Hle]; [done|].
  destruct (OPENSSL_malloc (ctx_size (method m))) as [b|] eqn:Hmal; [|done].
  destruct (HMAC_Init_ex HMAC_CTX_init (Some prk) (Some m)) as [c ok] eqn:Ei.
  destruct (init_spec m _ _ (Some prk) _ fresh_wf (or_introl (mk_is_Some _ _ eq_refl)) Hprk Hprkl Ei) as [[_ Hno]|[-> Hc]];
    [congruence|]. cbn [negb].
  set (n := Z.to_nat (size_t (lenZ out + dl - 1) / dl)).
  assert (n = Z.to_nat ((lenZ out + dl - 1) / dl)) as En by (unfold n; rewrite wrap_small by (split; mlia); done).
  pose proof (Z.div_mod (lenZ out + dl - 1) dl ltac:(lia)) as Hdm.
  pose proof (Z.mod_pos_bound (lenZ out + dl - 1) dl ltac:(lia)) as Hmb.
  assert (0 <= (lenZ out + dl - 1) / dl) as Hq by (apply Z.div_pos; lia).
  unfold rfc5869_expand. fold dl. rewrite <-En. set (q := (lenZ out + dl - 1) / dl) in *.
  set (r := (lenZ out + dl - 1) mod dl) in *. clearbody q r.
  destruct (loop_spec out n 0 {| hmac := c; previous := replicate (Z.to_nat EVP_MAX_MD_SIZE) 0; out_key := out; done' := 0 |}) as (s & Es & Hinv).
  - lia.
  - destruct (decide (n = 0%nat)); [by left|right]. rewrite En in *. rewrite Nat2Z.inj_sub by lia. cbn [Nat.add]. nia.
  - unfold turn_inv. cbn [hmac previous out_key done']. pose proof Hc as [Hk Hx].
    split; [done|]. split; [by destruct Hx as (? & _)|]. split; [done|]. split; [done|]. split; [done|].
    split; [lia|]. rewrite takeZ_0. unfold dropZ. done.
  - change (Z.of_nat 0) with 0 in Es. rewrite Es. cbn [mbind option_bind]. cbn [Nat.add] in Hinv.
    destruct Hinv as (_ & _ & _ & _ & _ & Hd & ->). rewrite Hd. f_equal.
    replace ((Z.of_nat n * dl) `min` lenZ out) with (lenZ out) by (rewrite En; nia).
    by rewrite dropZ_all, app_nil_r by lia.
Qed.
End correctness.

Lemma extract_spec {libc : Libc} {PC : Type} m secret salt out :
  bytes_ok (default [] salt) → lenZ (default [] salt) < 2 ^ 64 → bytes_ok secret → lenZ secret < 2 ^ 64 →
  EVP_MD_size m <= lenZ out →
  HKDF_extract (PC := PC) out m secret salt = Some (write_at out 0 (rfc5869_extract m salt secret), EVP_MD_size m) ∨
  HKDF_extract (PC := PC) out m secret salt = None ∧ OPENSSL_malloc (ctx_size (method m)) = None.
Proof.
  intros Hs Hsl Hk Hkl Hout. unfold HKDF_extract, rfc5869_extract.
  assert (hmac_of m (default (replicate (Z.to_nat (EVP_MD_size m)) 0) salt) secret = hmac_of m (default [] salt) secret) as ->.
  { destruct salt as [salt|]; [done|]. cbn [default from_option]. unfold hmac_of, rfc2104. cbv zeta.
    pose proof (digest_sizes m) as (H1 & H2 & _).
    assert (hmac_key (hash_of m) (EVP_MD_block_size m) (replicate (Z.to_nat (EVP_MD_size m)) 0) =
      hmac_key (hash_of m) (EVP_MD_block_size m) []) as ->; [|done].
    unfold hmac_key. cbv zeta. change (lenZ (@nil Z)) with 0.
    rewrite !lenZ_replicate, (proj2 (Z.ltb_ge _ (Z.of_nat _))), (proj2 (Z.ltb_ge _ 0)) by lia.
    rewrite lenZ_replicate, <-replicate_add. cbn [app]. change (lenZ (@nil Z)) with 0. f_equal. lia. }
  by apply HMAC_spec.
Qed.

(** C8. HKDF is RFC 5869: from a secret and an optional salt it derives as many bytes as asked for, at
    most 255 digests, whatever the lengths of the key, the salt and the info; longer outputs are
    refused, and nothing else is, as long as there is memory for a context. *)
Theorem hkdf_rfc5869 {libc : Libc} {PC : Type} m secret salt info (out : bytes) :
  bytes_ok (default [] salt) → lenZ (default [] salt) < 2 ^ 64 → bytes_ok secret → lenZ secret < 2 ^ 64 →
  bytes_ok info → lenZ info < 2 ^ 64 → lenZ out < 2 ^ 64 →
  is_Some (OPENSSL_malloc (ctx_size (method m))) →
  HKDF (PC := PC) out m secret salt info =
    if 255 * EVP_MD_size m <? lenZ out then None
    else Some (rfc5869_expand m (rfc5869_extract m salt secret) info (lenZ out)).
Proof.
  intros Hs Hsl Hk Hkl Hi Hil Hout [b Hb]. unfold HKDF. pose proof (digest_sizes m) as (Hsz & _).
  destruct (extract_spec (PC := PC) m secret salt (replicate (Z.to_nat EVP_MAX_MD_SIZE) 0) Hs Hsl Hk Hkl) as [->|[_ Hno]];
    [rewrite lenZ_replicate; change EVP_MAX_MD_SIZE with 64; lia| |congruence].
  cbn [mbind option_bind fst snd].
  assert (bytes_ok (rfc5869_extract m salt secret) ∧ lenZ (rfc5869_extract m salt secret) = EVP_MD_size m) as [Hpok Hpl].
  { unfold rfc5869_extract. apply hmac_of_spec; [|done]. destruct salt; [done|]. by apply Forall_replicate. }
  assert (takeZ (EVP_MD_size m) (write_at (replicate (Z.to_nat EVP_MAX_MD_SIZE) 0) 0 (rfc5869_extract m salt secret)) =
    rfc5869_extract m salt secret) as -> by (unfold write_at; rewrite takeZ_0; cbn [app]; by apply takeZ_app).
  rewrite expand_spec by (done || rewrite Hpl; mlia). by rewrite Hb.
Qed.

(** The first test case of RFC 5869. *)
Example hkdf_test_case :
  HKDF (libc := calloc_libc) (PC := unit) (replicate 42 0) EVP_sha256 (replicate 22 0x0b) (Some (seqZ 0 13)) (seqZ 0xf0 10) =
  Some [0x3c; 0xb2; 0x5f; 0x25; 0xfa; 0xac; 0xd5; 0x7a; 0x90; 0x43; 0x4f; 0x64; 0xd0; 0x36; 0x2f; 0x2a; 0x2d; 0x2d; 0x0a; 0x90; 0xcf
        ; 0x1a; 0x5a; 0x4c; 0x5d; 0xb0; 0x2d; 0x56; 0xec; 0xc4; 0xc5; 0xbf; 0x34; 0x00; 0x72; 0x08; 0xd5; 0xb8; 0x87; 0x18; 0x58; 0x65].
Proof. vm_compute. reflexivity. Qed.

Lemma hkdf_rfc5869_witness :
  HKDF (libc := calloc_libc) (PC := unit) (replicate 42 0) EVP_sha256 (replicate 22 0x0b) (Some (seqZ 0 13)) (seqZ 0xf0 10) =
    Some (rfc5869_expand EVP_sha256 (rfc5869_extract EVP_sha256 (Some (seqZ 0 13)) (replicate 22 0x0b)) (seqZ 0xf0 10) 42) ∧
  HKDF (libc := calloc_libc) (PC := unit) (replicate (Z.to_nat 4081) 0) EVP_md5 [] None [] = None.
Proof.
  split; refine (hkdf_rfc5869 (libc := calloc_libc) (PC := unit) _ _ _ _ _ _ _ _ _ _ _ _ _);
    first [apply (bool_decide_unpack _); vm_compute; exact Logic.I|vm_compute; eexists; reflexivity].
Defined.
