(* ===== verification/RsaPad.v ===== *)
(** The paddings of RSA: src/HolyWater-Test/Pods/BoringSSL-GRPC/src/crypto/fipsmodule/rsa/padding.c:
    PKCS #1 types 1 and 2, and the mask generation function MGF1 of OAEP and PSS.

    [None] is the error return; what [to] holds then is not described. *)
From S2P Require Import Prelude ConstTime Mem Md32 Evp.

Open Scope Z_scope.

(** The random generator: bytes of the length asked for. *)
Class Rand := {
  rng : Type;
  RAND_bytes : rng → Z → bytes * rng;
  RAND_bytes_spec r n : 0 <= n → bytes_ok (RAND_bytes r n).1 ∧ lenZ (RAND_bytes r n).1 = n;
}.

(** * The code *)

Definition RSA_PKCS1_PADDING_SIZE : Z := 11.

Definition RSA_padding_add_PKCS1_type_1 (to from : bytes) : option bytes :=
  let to_len := lenZ to in let from_len := lenZ from in
  if to_len <? RSA_PKCS1_PADDING_SIZE then None
  else if to_len - RSA_PKCS1_PADDING_SIZE <? from_len then None
  else
    let to := write_at to 0 [0] in
    let to := write_at to 1 [1] in
    let to := write_at to 2 (replicate (Z.to_nat (to_len - 3 - from_len)) 0xff) in
    let to := write_at to (to_len - from_len - 1) [0] in
    Some (write_at to (to_len - from_len) from).

(** The scan for the zero: the index where it stops, [None] at a byte that is neither. *)
Fixpoint type_1_scan (from : bytes) (pad : Z) : option Z :=
  match from with
  | [] => Some pad
  | b :: from => if b =? 0 then Some pad else if negb (b =? 0xff) then None else type_1_scan from (pad + 1)
  end.

(** The bytes written to [out]. *)
Definition RSA_padding_check_PKCS1_type_1 (max_out : Z) (from : bytes) : option bytes :=
  let from_len := lenZ from in
  if from_len <? 2 then None
  else if negb (from !!! 0%nat =? 0) || negb (from !!! 1%nat =? 1) then None
  else
    pad ← type_1_scan (dropZ 2 from) 2;
    if pad =? from_len then None
    else if pad <? 2 + 8 then None
    else
      let pad := pad + 1 in
      if max_out <? from_len - pad then None else Some (dropZ pad from).

Section type2.
Context {rand : Rand}.

(** [while (out[i] == 0)]; [fuel] bounds the draws. *)
Fixpoint rand_retry (fuel : nat) (r : rng) (b : Z) : option (Z * rng) :=
  if b =? 0 then
    match fuel with
    | O => None
    | S fuel => let '(d, r) := RAND_bytes r 1 in rand_retry fuel r (d !!! 0%nat)
    end
  else Some (b, r).

Fixpoint rand_nonzero_loop (fuel : nat) (r : rng) (out : bytes) : option (bytes * rng) :=
  match out with
  | [] => Some ([], r)
  | b :: out =>
      br ← rand_retry fuel r b;
      or ← rand_nonzero_loop fuel br.2 out;
      Some (br.1 :: or.1, or.2)
  end.
Definition rand_nonzero (fuel : nat) (r : rng) (len : Z) : option (bytes * rng) :=
  let '(out, r) := RAND_bytes r len in rand_nonzero_loop fuel r out.

Definition RSA_padding_add_PKCS1_type_2 (fuel : nat) (r : rng) (to from : bytes) : option (bytes * rng) :=
  let to_len := lenZ to in let from_len := lenZ from in
  if to_len <? RSA_PKCS1_PADDING_SIZE then None
  else if to_len - RSA_PKCS1_PADDING_SIZE <? from_len then None
  else
    let to := write_at to 0 [0] in
    let to := write_at to 1 [2] in
    let padding_len := to_len - 3 - from_len in
    pr ← rand_nonzero fuel r padding_len;
    let to := write_at to 2 pr.1 in
    let to := write_at to (2 + padding_len) [0] in
    Some (write_at to (to_len - from_len) from, pr.2).
End type2.

(** One turn of the loop over [i]. *)
Definition type_2_turn (from : bytes) (s : Z * Z) (i : nat) : Z * Z :=
  let '(zero_index, looking_for_index) := s in
  let equals0 := constant_time_is_zero_w (from !!! i) in
  (constant_time_select_w (looking_for_index .& equals0) (Z.of_nat i) zero_index,
   constant_time_select_w equals0 0 looking_for_index).

Definition RSA_padding_check_PKCS1_type_2 (max_out : Z) (from : bytes) : option bytes :=
  let from_len := lenZ from in
  if from_len =? 0 then None
  else if from_len <? RSA_PKCS1_PADDING_SIZE then None
  else
    let first_byte_is_zero := constant_time_eq_w (from !!! 0%nat) 0 in
    let second_byte_is_two := constant_time_eq_w (from !!! 1%nat) 2 in
    let '(zero_index, looking_for_index) :=
      fold_left (type_2_turn from) (seq 2 (length from - 2)) (0, CONSTTIME_TRUE_W) in
    let valid_index := first_byte_is_zero in
    let valid_index := valid_index .& second_byte_is_two in
    let valid_index := valid_index .& not_w looking_for_index in
    let valid_index := valid_index .& constant_time_ge_w zero_index (2 + 8) in
    let zero_index := u64 (zero_index + 1) in
    if valid_index =? 0 then None
    else
      let msg_len := size_t (from_len - zero_index) in
      if max_out <? msg_len then None else Some (takeZ msg_len (dropZ zero_index from)).

Definition RSA_padding_add_none (to from : bytes) : option bytes :=
  if lenZ to <? lenZ from then None
  else if lenZ from <? lenZ to then None
  else Some (write_at to 0 from).

(** * RFC 8017 *)

(** EM = 00 || BT || PS || 00 || M with at least eight bytes of PS, which contain no zero. *)
Definition pkcs1_block (bt : Z) (ps_ok : Z → Prop) (from msg : bytes) : Prop :=
  ∃ ps, from = [0; bt] ++ ps ++ [0] ++ msg ∧ 8 <= lenZ ps ∧ Forall ps_ok ps.

(** * Type 1 *)

(** The block under construction: writing after its first [n] bytes. *)
Lemma write_next (to done x : bytes) :
  takeZ (lenZ done) to = done → lenZ done + lenZ x <= lenZ to →
  takeZ (lenZ (done ++ x)) (write_at to (lenZ done) x) = done ++ x ∧ lenZ (write_at to (lenZ done) x) = lenZ to.
Proof. intros Ht Hl. rewrite lenZ_app. by apply extend. Qed.

(** The five writes of a block of type [b] with the string [ps]. *)
Lemma pkcs1_writes (to from ps : bytes) b :
  lenZ ps = lenZ to - 3 - lenZ from →
  let t := write_at (write_at (write_at to 0 [0]) 1 [b]) 2 ps in
  write_at (write_at t (lenZ to - lenZ from - 1) [0]) (lenZ to - lenZ from) from = [0; b] ++ ps ++ [0] ++ from.
Proof.
  intros Lps t. pose proof (lenZ_nonneg from). pose proof (lenZ_nonneg ps). unfold t. clear t.
  destruct (write_next to [] [0] (takeZ_0 _)) as [T1 L1]; [rewrite lenZ_1, lenZ_nil; lia|].
  change ([] ++ [0]) with [0] in T1. change (lenZ (@nil Z)) with 0 in *. set (t1 := write_at to 0 [0]) in *.
  destruct (write_next t1 [0] [b] T1) as [T2 L2]; [rewrite !lenZ_1; lia|].
  change (lenZ [0]) with 1 in *. change ([0] ++ [b]) with [0; b] in *. set (t2 := write_at t1 1 [b]) in *.
  assert (lenZ [0; b] = 2) as E2 by done.
  destruct (write_next t2 [0; b] ps T2) as [T3 L3]; [lia|]. rewrite E2 in T3, L3. set (t3 := write_at t2 2 ps) in *.
  assert (lenZ ([0; b] ++ ps) = lenZ to - lenZ from - 1) as E4 by (rewrite lenZ_app; lia).
  destruct (write_next t3 ([0; b] ++ ps) [0] T3) as [T4 L4]; [rewrite lenZ_1; lia|]. rewrite E4 in T4, L4.
  set (t4 := write_at t3 (lenZ to - lenZ from - 1) [0]) in *.
  assert (lenZ (([0; b] ++ ps) ++ [0]) = lenZ to - lenZ from) as E5 by (rewrite lenZ_app, E4, lenZ_1; lia).
  destruct (write_next t4 (([0; b] ++ ps) ++ [0]) from T4) as [T5 L5]; [lia|]. rewrite E5 in T5, L5.
  rewrite takeZ_all in T5 by (rewrite L5, lenZ_app, E5; lia). rewrite T5. by rewrite <-!app_assoc.
Qed.

Lemma add_type_1 (to from : bytes) :
  lenZ from <= lenZ to - 11 →
  RSA_padding_add_PKCS1_type_1 to from =
    Some ([0; 1] ++ replicate (Z.to_nat (lenZ to - 3 - lenZ from)) 0xff ++ [0] ++ from).
Proof.
  intros Hl. pose proof (lenZ_nonneg from). unfold RSA_padding_add_PKCS1_type_1, RSA_PKCS1_PADDING_SIZE.
  rewrite (proj2 (Z.ltb_ge _ _)), (proj2 (Z.ltb_ge _ _)) by lia. cbv zeta. f_equal.
  apply pkcs1_writes. rewrite lenZ_replicate; lia.
Qed.

Lemma type_1_scan_spec from pad :
  match type_1_scan from pad with
  | Some p => ∃ n rest, from = replicate n 0xff ++ rest ∧ p = pad + Z.of_nat n ∧ (rest = [] ∨ ∃ m, rest = 0 :: m)
  | None => ∃ n b rest, from = replicate n 0xff ++ b :: rest ∧ b ≠ 0 ∧ b ≠ 0xff
  end.
Proof.
  revert pad. induction from as [|b from IH]; intros pad; cbn [type_1_scan].
  - exists 0%nat, []. split; [done|]. split; [lia|by left].
  - destruct (Z.eqb_spec b 0) as [->|H0].
    { exists 0%nat, (0 :: from). split; [done|]. split; [lia|right; by exists from]. }
    destruct (Z.eqb_spec b 0xff) as [->|Hf]; cbn [negb].
    + specialize (IH (pad + 1)). destruct (type_1_scan from (pad + 1)) as [p|].
      * destruct IH as (n & rest & -> & -> & Hr). exists (S n), rest. split; [done|]. split; [lia|done].
      * destruct IH as (n & b & rest & -> & Hb). by exists (S n), b, rest.
    + by exists 0%nat, b, from.
Qed.

Lemma type_1_scan_zero n m pad : type_1_scan (replicate n 0xff ++ 0 :: m) pad = Some (pad + Z.of_nat n).
Proof.
  revert pad. induction n as [|n IH]; intros pad; cbn [replicate app type_1_scan]; [f_equal; lia|].
  change (0xff =? 0) with false. change (negb (0xff =? 0xff)) with false. cbn match. rewrite IH. f_equal. lia.
Qed.

Lemma Forall_replicate_eq {A} (l : list A) x : Forall (λ y, y = x) l → l = replicate (length l) x.
Proof. induction 1 as [|y l -> _ IH]; [done|]. cbn [length replicate]. by rewrite <-IH. Qed.

(** The message starts after the header, the string and the zero. *)
Lemma pkcs1_split bt ps (msg : bytes) :
  let from := [0; bt] ++ ps ++ [0] ++ msg in
  lenZ from = lenZ ps + 3 + lenZ msg ∧ dropZ 2 from = ps ++ [0] ++ msg ∧ dropZ (lenZ ps + 3) from = msg ∧
  from !!! 0%nat = 0 ∧ from !!! 1%nat = bt.
Proof.
  intros from. assert (lenZ [0; bt] = 2) as E2 by done. split_and!; [..|done|done].
  - unfold from. rewrite !lenZ_app, lenZ_1. lia.
  - done.
  - unfold from. rewrite (app_assoc ps), app_assoc. apply dropZ_app. rewrite !lenZ_app, lenZ_1. lia.
Qed.

Lemma header_split (from : bytes) a b :
  2 <= lenZ from → from !!! 0%nat = a → from !!! 1%nat = b → from = [a; b] ++ dropZ 2 from.
Proof.
  intros Hl <- <-. destruct from as [|x [|y from]]; [done..|reflexivity].
Qed.

Theorem check_type_1_exact max_out from msg :
  RSA_padding_check_PKCS1_type_1 max_out from = Some msg ↔
  pkcs1_block 1 (λ b, b = 0xff) from msg ∧ lenZ msg <= max_out.
Proof.
  unfold RSA_padding_check_PKCS1_type_1. cbv zeta. split.
  - destruct (Z.ltb_spec (lenZ from) 2) as [|Hl]; [done|].
    destruct (Z.eqb_spec (from !!! 0%nat) 0) as [H0|]; [|done]. destruct (Z.eqb_spec (from !!! 1%nat) 1) as [H1|]; [|done].
    cbn [negb orb]. pose proof (header_split from 0 1 Hl H0 H1) as Hf. pose proof (type_1_scan_spec (dropZ 2 from) 2) as Hs.
    destruct (type_1_scan (dropZ 2 from) 2) as [p|]; [|done]. cbn [mbind option_bind].
    destruct Hs as (n & rest & Hd & -> & Hr). rewrite Hd in Hf.
    destruct (Z.eqb_spec (2 + Z.of_nat n) (lenZ from)) as [|Hne]; [done|].
    destruct Hr as [->|[m ->]].
    { destruct Hne. rewrite app_nil_r in Hf. rewrite Hf at 1. rewrite (lenZ_app [0; 1]), lenZ_replicate. change (lenZ [0; 1]) with 2. lia. }
    destruct (Z.ltb_spec (2 + Z.of_nat n) (2 + 8)) as [|Hn]; [done|].
    change (0 :: m) with ([0] ++ m) in Hf. destruct (pkcs1_split 1 (replicate n 0xff) m) as (Hlen & _ & Hmsg & _). rewrite <-Hf in *.
    rewrite lenZ_replicate in *.
    destruct (Z.ltb_spec max_out (lenZ from - (2 + Z.of_nat n + 1))) as [|Hm]; [done|]. intros [= <-].
    replace (2 + Z.of_nat n + 1) with (Z.of_nat n + 3) by lia. rewrite Hmsg. split; [|lia].
    exists (replicate n 0xff). split; [done|]. rewrite lenZ_replicate. split; [lia|]. by apply Forall_replicate.
  - intros ((ps & Hf & H8 & Hps) & Hm). destruct (pkcs1_split 1 ps msg) as (Hlen & Hd & Hmsg & H0 & H1).
    rewrite <-Hf in *. pose proof (lenZ_nonneg msg).
    rewrite (proj2 (Z.ltb_ge _ _)), H0, H1, Hd by lia. cbn [Z.eqb negb orb].
    apply Forall_replicate_eq in Hps. rewrite Hps. change ([0] ++ msg) with (0 :: msg). rewrite type_1_scan_zero.
    change (Z.of_nat (length ps)) with (lenZ ps). cbn [mbind option_bind].
    rewrite (proj2 (Z.eqb_neq _ _)), (proj2 (Z.ltb_ge _ _)), (proj2 (Z.ltb_ge _ _)) by lia.
    f_equal. replace (2 + lenZ ps + 1) with (lenZ ps + 3) by lia. done.
Qed.

(** A block of type 1 is read back. *)
Lemma type_1_round_trip to from max_out :
  lenZ from <= lenZ to - 11 → lenZ from <= max_out →
  ∃ em, RSA_padding_add_PKCS1_type_1 to from = Some em ∧ lenZ em = lenZ to ∧
    RSA_padding_check_PKCS1_type_1 max_out em = Some from.
Proof.
  intros Hl Hm. pose proof (lenZ_nonneg from). rewrite add_type_1 by done. eexists. split; [reflexivity|].
  set (ps := replicate _ _). assert (lenZ ps = lenZ to - 3 - lenZ from) as Lps by (unfold ps; rewrite lenZ_replicate; lia).
  split; [destruct (pkcs1_split 1 ps from) as (-> & _); lia|]. apply check_type_1_exact. split; [|done].
  exists ps. split; [done|]. split; [lia|]. by apply Forall_replicate.
Qed.

(** * Type 2 *)

Section type2_spec.
Context {rand : Rand}.

Lemma rand_nonzero_loop_spec fuel r out res :
  bytes_ok out → rand_nonzero_loop fuel r out = Some res →
  lenZ res.1 = lenZ out ∧ bytes_ok res.1 ∧ Forall (λ b, b ≠ 0) res.1.
Proof.
  assert (∀ fuel r b br, fits 8 b → rand_retry fuel r b = Some br → fits 8 br.1 ∧ br.1 ≠ 0) as Hretry.
  { clear. intros fuel. induction fuel as [|fuel IH]; intros r b br Hb; cbn [rand_retry].
    - destruct (Z.eqb_spec b 0); [done|]. by intros [= <-].
    - destruct (Z.eqb_spec b 0); [|by intros [= <-]]. destruct (RAND_bytes_spec r 1) as [Hok Hl]; [lia|].
      destruct (RAND_bytes r 1) as [d r']. cbn in Hok, Hl. destruct d as [|x d]; [done|].
      apply bytes_ok_cons in Hok as [Hx _]. by apply IH. }
  intros Hok. revert r res. induction Hok as [|b out Hb _ IH]; intros r res; cbn [rand_nonzero_loop].
  { intros [= <-]. split; [done|]. split; constructor. }
  destruct (rand_retry fuel r b) as [br|] eqn:E1; [|done]. cbn [mbind option_bind].
  destruct (rand_nonzero_loop fuel br.2 out) as [o|] eqn:E2; [|done]. intros [= <-]. cbn [fst].
  destruct (Hretry _ _ _ _ Hb E1), (IH _ _ E2) as (Hl & H1 & H2). rewrite !lenZ_cons, Hl. split; [done|].
  split; by constructor.
Qed.

(** Enough draws end the loops, when the generator does not return zero for ever. *)
Definition drawn (r : rng) (n : nat) : Z :=
  (RAND_bytes (Nat.iter n (λ r, (RAND_bytes r 1).2) r) 1).1 !!! 0%nat.

Lemma rand_retry_ends r b n : drawn r n ≠ 0 → ∀ fuel, (n < fuel)%nat → is_Some (rand_retry fuel r b).
Proof.
  revert r b. induction n as [|n IH]; intros r b Hn [|fuel] Hf; try lia; cbn [rand_retry];
    (destruct (Z.eqb_spec b 0); [|by eexists]); unfold drawn in Hn.
  - cbn in Hn. destruct (RAND_bytes r 1) as [d r']. cbn in Hn.
    destruct fuel; cbn [rand_retry]; (destruct (Z.eqb_spec (d !!! 0%nat) 0); [done|by eexists]).
  - rewrite Nat.iter_succ_r in Hn. destruct (RAND_bytes r 1) as [d r'] eqn:E. cbn in Hn. apply IH; [done|lia].
Qed.

Lemma rand_nonzero_ends r len bound :
  0 <= len → (∀ r, ∃ n, (n < bound)%nat ∧ drawn r n ≠ 0) → is_Some (rand_nonzero bound r len).
Proof.
  intros Hlen Hfair. unfold rand_nonzero. destruct (RAND_bytes r len) as [out r']. clear r. revert r'.
  induction out as [|b out IH]; intros r; cbn [rand_nonzero_loop]; [by eexists|].
  destruct (Hfair r) as (n & Hn & Hd). destruct (rand_retry_ends r b n Hd bound Hn) as [br ->]. cbn [mbind option_bind].
  destruct (IH br.2) as [o ->]. by eexists.
Qed.

Lemma add_type_2 fuel r to from res :
  lenZ from <= lenZ to - 11 → RSA_padding_add_PKCS1_type_2 fuel r to from = Some res →
  lenZ res.1 = lenZ to ∧ ∃ ps, res.1 = [0; 2] ++ ps ++ [0] ++ from ∧ 8 <= lenZ ps ∧ bytes_ok ps ∧ Forall (λ b, b ≠ 0) ps.
Proof.
  intros Hl. pose proof (lenZ_nonneg from). unfold RSA_padding_add_PKCS1_type_2, RSA_PKCS1_PADDING_SIZE.
  rewrite (proj2 (Z.ltb_ge _ _)), (proj2 (Z.ltb_ge _ _)) by lia. cbv zeta.
  destruct (rand_nonzero fuel r (lenZ to - 3 - lenZ from)) as [[ps r']|] eqn:E; [|done]. cbn [mbind option_bind fst snd].
  intros [= <-]. cbn [fst]. unfold rand_nonzero in E.
  destruct (RAND_bytes_spec r (lenZ to - 3 - lenZ from)) as [Hok Hlen]; [lia|].
  destruct (RAND_bytes r (lenZ to - 3 - lenZ from)) as [out r1]. cbn [fst] in Hok, Hlen.
  destruct (rand_nonzero_loop_spec _ _ _ _ Hok E) as (Hps & H1 & H2). cbn [fst] in *.
  replace (2 + (lenZ to - 3 - lenZ from)) with (lenZ to - lenZ from - 1) by lia.
  rewrite (pkcs1_writes to from ps 2) by lia. split; [destruct (pkcs1_split 2 ps from) as (-> & _); lia|].
  exists ps. split; [done|]. split; [lia|done].
Qed.
End type2_spec.

(** One turn, in terms of truth values. *)
Lemma type_2_turn_spec from z l i :
  fits 64 (from !!! i) → fits 64 z → fits 64 (Z.of_nat i) →
  type_2_turn from (z, mask_of l) i =
    (if l && (from !!! i =? 0) then Z.of_nat i else z, mask_of (l && negb (from !!! i =? 0))).
Proof.
  intros Hb Hz Hi. unfold type_2_turn. rewrite is_zero_w_spec by done.
  assert (mask_of l .& mask_of (from !!! i =? 0) = mask_of (l && (from !!! i =? 0))) as ->
    by (destruct l, (from !!! i =? 0); reflexivity).
  rewrite !select_w_spec by (done || apply mask_of_fits || decide_now). f_equal.
  destruct l, (from !!! i =? 0); reflexivity.
Qed.

(** The index of the first zero. *)
Fixpoint zero_at (l : bytes) (i : Z) : option Z :=
  match l with
  | [] => None
  | b :: l => if b =? 0 then Some i else zero_at l (i + 1)
  end.

Lemma type_2_loop from a z b :
  bytes_ok from → lenZ from < 2 ^ 64 → fits 64 z →
  fold_left (type_2_turn from) (seq a (length from - a)) (z, mask_of b) =
    (if b then default z (zero_at (drop a from) (Z.of_nat a)) else z,
     mask_of (b && bool_decide (zero_at (drop a from) (Z.of_nat a) = None))).
Proof.
  intros Hok Hl. remember (length from - a)%nat as n eqn:Hn. revert a z b Hn.
  induction n as [|n IH]; intros a z b Hn Hz.
  { rewrite drop_ge by lia. cbn. by destruct b. }
  assert (Z.of_nat a < lenZ from) as Ha by (unfold lenZ; lia).
  destruct (lookup_lt_is_Some_2 from a) as [x Hx]; [lia|]. rewrite (drop_S _ _ _ Hx). cbn [seq fold_left zero_at].
  rewrite type_2_turn_spec, (list_lookup_total_correct _ _ _ Hx); [|..].
  - assert (fits 64 (Z.of_nat a)) by (split; lia). rewrite IH; [|lia|by destruct (b && _)].
    replace (Z.of_nat (S a)) with (Z.of_nat a + 1) by lia.
    destruct b, (x =? 0); cbn [andb negb]; try done.
  - apply (fits_mono 8); [lia|]. rewrite (list_lookup_total_correct _ _ _ Hx). by apply (Forall_lookup_1 _ _ _ _ Hok Hx).
  - done.
  - split; lia.
Qed.

Lemma zero_at_spec l i :
  match zero_at l i with
  | Some k => ∃ ps m, l = ps ++ [0] ++ m ∧ k = i + lenZ ps ∧ Forall (λ b, b ≠ 0) ps
  | None => Forall (λ b, b ≠ 0) l
  end.
Proof.
  revert i. induction l as [|b l IH]; intros i; cbn [zero_at]; [constructor|].
  destruct (Z.eqb_spec b 0) as [->|Hb].
  - exists [], l. split; [done|]. split; [by rewrite lenZ_nil, Z.add_0_r|constructor].
  - specialize (IH (i + 1)). destruct (zero_at l (i + 1)) as [k|]; [|by constructor].
    destruct IH as (ps & m & -> & -> & Hps). exists (b :: ps), m. split; [done|]. rewrite lenZ_cons.
    split; [lia|by constructor].
Qed.

Lemma zero_at_app ps m i : Forall (λ b, b ≠ 0) ps → zero_at (ps ++ [0] ++ m) i = Some (i + lenZ ps).
Proof.
  intros Hps. revert i. induction Hps as [|b ps Hb _ IH]; intros i.
  - change (lenZ (@nil Z)) with 0. by rewrite Z.add_0_r.
  - cbn [app zero_at]. rewrite (proj2 (Z.eqb_neq _ _) Hb). rewrite lenZ_cons. change (0 :: m) with ([0] ++ m). rewrite IH. f_equal. lia.
Qed.

(** A block of type 2, as the code finds it. *)
Lemma pkcs1_block_2 from msg :
  2 <= lenZ from →
  pkcs1_block 2 (λ b, b ≠ 0) from msg ↔
  from !!! 0%nat = 0 ∧ from !!! 1%nat = 2 ∧
  ∃ k, zero_at (dropZ 2 from) 2 = Some k ∧ 10 <= k < lenZ from ∧ msg = dropZ (k + 1) from.
Proof.
  intros Hl. split.
  - intros (ps & Hf & H8 & Hps). destruct (pkcs1_split 2 ps msg) as (Hlen & Hd & Hmsg & H0 & H1).
    rewrite <-Hf in *. pose proof (lenZ_nonneg msg). split; [done|]. split; [done|]. exists (2 + lenZ ps).
    rewrite Hd, zero_at_app by done. split; [done|]. split; [lia|].
    replace (2 + lenZ ps + 1) with (lenZ ps + 3) by lia. done.
  - intros (H0 & H1 & k & Hk & H10 & ->). pose proof (zero_at_spec (dropZ 2 from) 2) as Hz. rewrite Hk in Hz.
    destruct Hz as (ps & m & Hd & -> & Hps). pose proof (header_split from 0 2 Hl H0 H1) as Hf. rewrite Hd in Hf.
    destruct (pkcs1_split 2 ps m) as (_ & _ & Hmsg & _). rewrite <-Hf in Hmsg.
    replace (2 + lenZ ps + 1) with (lenZ ps + 3) by lia. rewrite Hmsg. exists ps. split; [done|]. split; [lia|done].
Qed.

Lemma mask_land a b : mask_of a .& mask_of b = mask_of (a && b).
Proof. by destruct a, b. Qed.
Lemma mask_eqb_0 b : (mask_of b =? 0) = negb b.
Proof. by destruct b. Qed.
Lemma byte_fits_64 from i : bytes_ok from → Z.of_nat i < lenZ from → fits 64 (from !!! i).
Proof.
  intros Hok Hi. destruct (lookup_lt_is_Some_2 from i) as [x Hx]; [unfold lenZ in *; lia|].
  rewrite (list_lookup_total_correct _ _ _ Hx). apply (fits_mono 8); [lia|]. apply (Forall_lookup_1 _ _ _ _ Hok Hx).
Qed.

Theorem check_type_2_exact max_out from msg :
  bytes_ok from → lenZ from < 2 ^ 64 →
  RSA_padding_check_PKCS1_type_2 max_out from = Some msg ↔
  pkcs1_block 2 (λ b, b ≠ 0) from msg ∧ lenZ msg <= max_out.
Proof.
  intros Hok Hfl. unfold RSA_padding_check_PKCS1_type_2, RSA_PKCS1_PADDING_SIZE. cbv zeta.
  destruct (Z.ltb_spec (lenZ from) 11) as [H11|H11].
  { transitivity False; [destruct (lenZ from =? 0); split; done|]. split; [done|].
    intros [(ps & -> & H8 & _) _]. destruct (pkcs1_split 2 ps msg) as (Hlen & _). pose proof (lenZ_nonneg msg). lia. }
  rewrite (proj2 (Z.eqb_neq _ _)), pkcs1_block_2 by lia. change CONSTTIME_TRUE_W with (mask_of true).
  rewrite (type_2_loop from 2 0 true Hok Hfl) by decide_now. cbn [andb]. change (drop 2 from) with (dropZ 2 from).
  change (Z.of_nat 2) with 2.
  rewrite (eq_w_spec (from !!! 0%nat)), (eq_w_spec (from !!! 1%nat)) by (first [apply byte_fits_64; [done|lia]|decide_now]).
  rewrite not_mask. destruct (zero_at (dropZ 2 from) 2) as [k|] eqn:Ek; cbn [from_option id].
  - assert (2 <= k < lenZ from) as Hk.
    { pose proof (zero_at_spec (dropZ 2 from) 2) as Hz. rewrite Ek in Hz. destruct Hz as (ps & m & Hd & -> & Hps).
      pose proof (lenZ_nonneg ps). pose proof (lenZ_nonneg m). apply (f_equal lenZ) in Hd.
      rewrite !lenZ_app, lenZ_1, lenZ_dropZ in Hd by lia. lia. }
    rewrite ge_w_spec by (split; lia || decide_now). rewrite !mask_land, mask_eqb_0.
    replace (bool_decide (Some k = None)) with false by done. cbn [negb]. rewrite andb_true_r.
    rewrite (wrap_small 64 (k + 1)) by (split; lia). rewrite (wrap_small 64 (lenZ from - _)) by (split; lia).
    rewrite takeZ_all by (rewrite lenZ_dropZ; lia). change (2 + 8) with 10.
    destruct (Z.eqb_spec (from !!! 0%nat) 0); [|by split; [done|intros [(? & _) _]]].
    destruct (Z.eqb_spec (from !!! 1%nat) 2); [|by split; [done|intros [(_ & ? & _) _]]].
    destruct (Z.leb_spec 10 k); cbn [andb negb]; [|split; [done|intros [(_ & _ & ? & [= <-] & ? & _) _]; lia]].
    destruct (Z.ltb_spec max_out (lenZ from - (k + 1))).
    + split; [done|]. intros [(_ & _ & ? & [= <-] & _ & ->) Hm]. rewrite lenZ_dropZ in Hm; lia.
    + split.
      * intros [= <-]. rewrite lenZ_dropZ by lia. split; [|lia]. do 2 (split; [done|]). exists k. split; [done|]. split; [lia|done].
      * by intros [(_ & _ & ? & [= <-] & _ & ->) Hm].
  - rewrite ge_w_spec, !mask_land, mask_eqb_0 by decide_now.
    replace (bool_decide _) with true by done. cbn [negb]. rewrite !andb_false_r. cbn [negb].
    split; [done|]. by intros [(_ & _ & ? & ? & _) _].
Qed.

(** * Properties *)

(** C10. The two readers of PKCS #1 v1.5 blocks, one a plain scan and one free of branches on the
    secret, accept exactly the blocks 00 || BT || PS || 00 || M with at least eight bytes of PS — all
    0xff for type 1, all non-zero for type 2 — and return M, when it fits into the output. *)
Theorem pkcs1_check_exact max_out from msg :
  bytes_ok from → lenZ from < 2 ^ 64 →
  (RSA_padding_check_PKCS1_type_1 max_out from = Some msg ↔
    pkcs1_block 1 (λ b, b = 0xff) from msg ∧ lenZ msg <= max_out) ∧
  (RSA_padding_check_PKCS1_type_2 max_out from = Some msg ↔
    pkcs1_block 2 (λ b, b ≠ 0) from msg ∧ lenZ msg <= max_out).
Proof. intros Hok Hl. split; [apply check_type_1_exact|by apply check_type_2_exact]. Qed.

Lemma pkcs1_check_exact_witness :
  let from := [0; 2; 1; 2; 3; 4; 5; 6; 7; 8; 0; 9] in
  RSA_padding_check_PKCS1_type_2 5 from = Some [9] ↔ pkcs1_block 2 (λ b, b ≠ 0) from [9] ∧ lenZ [9] <= 5.
Proof. intros from. refine (proj2 (pkcs1_check_exact 5 from [9] _ _)); decide_now. Defined.

(** What the encryption padding produces is read back: with a generator that is not stuck at zero
    the padding ends, fills the whole block, and the reader returns the message.  So does the
    signature padding, without a generator. *)
Theorem pkcs1_round_trip {rand : Rand} r to from max_out bound :
  bytes_ok from → lenZ to < 2 ^ 64 → lenZ from <= lenZ to - 11 → lenZ from <= max_out →
  (∀ r, ∃ n, (n < bound)%nat ∧ drawn r n ≠ 0) →
  (∃ em, RSA_padding_add_PKCS1_type_1 to from = Some em ∧ lenZ em = lenZ to ∧
    RSA_padding_check_PKCS1_type_1 max_out em = Some from) ∧
  ∃ em r', RSA_padding_add_PKCS1_type_2 bound r to from = Some (em, r') ∧ lenZ em = lenZ to ∧
    RSA_padding_check_PKCS1_type_2 max_out em = Some from.
Proof.
  intros Hok Ht Hl Hm Hfair. split; [by apply type_1_round_trip|]. pose proof (lenZ_nonneg from).
  destruct (RSA_padding_add_PKCS1_type_2 bound r to from) as [[em r']|] eqn:E.
  - exists em, r'. split; [done|]. destruct (add_type_2 _ _ _ _ _ Hl E) as (Hlem & ps & Hem & H8 & Hps & Hnz). cbn [fst] in *.
    split; [done|]. apply check_type_2_exact; [|lia|split; [by exists ps|done]].
    rewrite Hem, !bytes_ok_app. split; [decide_now|]. split; [done|]. split; [decide_now|done].
  - exfalso. revert E. unfold RSA_padding_add_PKCS1_type_2, RSA_PKCS1_PADDING_SIZE.
    rewrite (proj2 (Z.ltb_ge _ _)), (proj2 (Z.ltb_ge _ _)) by lia. cbv zeta.
    destruct (rand_nonzero_ends r (lenZ to - 3 - lenZ from) bound ltac:(lia) Hfair) as [x ->]. done.
Qed.

(** A generator that counts. *)
Definition counting_rand : Rand.
Proof.
  refine {| rng := Z; RAND_bytes r n := (map (λ i, (r + i) mod 256) (seqZ 0 n), r + n) |}.
  intros r n Hn. cbn [fst]. split; [|unfold lenZ; rewrite length_map, length_seqZ; lia].
  apply Forall_map, Forall_true. intros i. apply Z.mod_pos_bound. lia.
Defined.

Lemma counting_fair (r : rng (Rand := counting_rand)) : ∃ n, (n < 2)%nat ∧ drawn (rand := counting_rand) r n ≠ 0.
Proof.
  assert (∀ r : Z, (RAND_bytes (Rand := counting_rand) r 1).1 !!! 0%nat = r mod 256) as Hd.
  { intros x. change ((x + (Z.of_nat 0 + 0)) mod 256 = x mod 256). f_equal. lia. }
  destruct (Z.eq_dec (r mod 256) 0) as [H|H]; [exists 1%nat|exists 0%nat]; (split; [lia|]); unfold drawn; rewrite Hd; [|done].
  change ((r + 1) mod 256 ≠ 0). rewrite <-Z.add_mod_idemp_l, H by lia. done.
Qed.

Lemma pkcs1_round_trip_witness :
  (∃ em, RSA_padding_add_PKCS1_type_1 (replicate 13 0) [7; 0] = Some em ∧ lenZ em = 13 ∧
    RSA_padding_check_PKCS1_type_1 2 em = Some [7; 0]) ∧
  ∃ em r', RSA_padding_add_PKCS1_type_2 (rand := counting_rand) 2 254 (replicate 13 0) [7; 0] = Some (em, r') ∧ lenZ em = 13 ∧
    RSA_padding_check_PKCS1_type_2 2 em = Some [7; 0].
Proof.
  refine (pkcs1_round_trip (rand := counting_rand) 254 (replicate 13 0) [7; 0] 2 2 _ _ _ _ counting_fair); decide_now.
Defined.
