(* ===== verification/Oaep.v ===== *)
(** RSA-OAEP: the mask generation function MGF1 and the OAEP padding of
    src/HolyWater-Test/Pods/BoringSSL-GRPC/src/crypto/fipsmodule/rsa/padding.c, against RFC 8017.

    Buffers are passed whole; [None] is the error return, after which the contents of [to] are not
    described. *)
From S2P Require Import Prelude ConstTime Mem Md32 Evp RsaPad.

Open Scope Z_scope.

(** * The code *)

(** [for (i = 0; i < len; i++) p[off + i] ^= mask[i]]. *)
Definition xor_bytes (a b : bytes) : bytes := zip_with Z.lxor a b.
Definition xor_at (p : bytes) (off : Z) (mask : bytes) : bytes :=
  write_at p off (xor_bytes (takeZ (lenZ mask) (dropZ off p)) mask).

Section oaep.
Context {libc : Libc} {PC : Type}.
Local Abbreviation ctx := (EVP_MD_CTX PC).

(** [out] has moved by [pos]; the fuel is the number of bytes to write, and every turn writes one. *)
Fixpoint mgf1_loop (fuel : nat) (c : ctx) (i : Z) (out : bytes) (pos len : Z) (seed : bytes) (md : md_method) : option bytes :=
  if 0 <? len then
    match fuel with
    | O => None
    | S fuel =>
        let md_len := EVP_MD_size md in
        let counter := [u8 (i ≫ 24); u8 (i ≫ 16); u8 (i ≫ 8); u8 i] in
        let '(c, ok) := EVP_DigestInit_ex c md in
        if negb ok then None
        else
          let c := EVP_DigestUpdate c seed in
          let c := EVP_DigestUpdate c counter in
          if md_len <=? len then
            let '(c, o, _) := EVP_DigestFinal_ex c (dropZ pos out) in
            mgf1_loop fuel c (u32 (i + 1)) (write_at out pos o) (pos + md_len) (len - md_len) seed md
          else
            let '(c, dig, _) := EVP_DigestFinal_ex c (replicate (Z.to_nat EVP_MAX_MD_SIZE) 0) in
            mgf1_loop fuel c (u32 (i + 1)) (write_at out pos (takeZ len dig)) pos 0 seed md
    end
  else Some out.
Definition PKCS1_MGF1 (out : bytes) (len : Z) (seed : bytes) (md : md_method) : option bytes :=
  mgf1_loop (Z.to_nat len) EVP_MD_CTX_init 0 out 0 len seed md.

Definition RSA_padding_add_PKCS1_OAEP_mgf1 {rand : Rand} (r : rng) (to from param : bytes) (md mgf1md : option md_method) :
    option (bytes * rng) :=
  let md := default EVP_sha1 md in
  let mgf1md := default md mgf1md in
  let to_len := lenZ to in let from_len := lenZ from in
  let mdlen := EVP_MD_size md in
  if to_len <? 2 * mdlen + 2 then None
  else
    let emlen := to_len - 1 in
    if size_t (emlen - 2 * mdlen - 1) <? from_len then None
    else if emlen <? 2 * mdlen + 1 then None
    else
      let to := write_at to 0 [0] in
      let seed := 1 in
      let db := mdlen + 1 in
      let '(o, _, ok) := EVP_Digest (PC := PC) param (dropZ db to) md in
      if negb ok then None
      else
        let to := write_at to db o in
        let to := write_at to (db + mdlen) (replicate (Z.to_nat (emlen - from_len - 2 * mdlen - 1)) 0) in
        let to := write_at to (db + (emlen - from_len - mdlen - 1)) [1] in
        let to := write_at to (db + (emlen - from_len - mdlen)) from in
        let '(s, r) := RAND_bytes r mdlen in
        let to := write_at to seed s in
        dbmask ← OPENSSL_malloc (emlen - mdlen);
        dbmask ← PKCS1_MGF1 dbmask (emlen - mdlen) (takeZ mdlen (dropZ seed to)) mgf1md;
        let to := xor_at to db dbmask in
        seedmask ← PKCS1_MGF1 (replicate (Z.to_nat EVP_MAX_MD_SIZE) 0) mdlen (takeZ (emlen - mdlen) (dropZ db to)) mgf1md;
        Some (xor_at to seed (takeZ mdlen seedmask), r).

(** One turn of the loop over [db]. *)
Definition oaep_turn (db : bytes) (s : Z * Z * Z) (i : nat) : Z * Z * Z :=
  let '(one_index, looking_for_one_byte, bad) := s in
  let equals1 := constant_time_eq_w (db !!! i) 1 in
  let equals0 := constant_time_eq_w (db !!! i) 0 in
  let one_index := constant_time_select_w (looking_for_one_byte .& equals1) (Z.of_nat i) one_index in
  let looking_for_one_byte := constant_time_select_w equals1 0 looking_for_one_byte in
  (one_index, looking_for_one_byte, bad .| (looking_for_one_byte .& not_w equals0)).

Definition RSA_padding_check_PKCS1_OAEP_mgf1 (max_out : Z) (from param : bytes) (md mgf1md : option md_method) : option bytes :=
  let md := default EVP_sha1 md in
  let mgf1md := default md mgf1md in
  let from_len := lenZ from in
  let mdlen := EVP_MD_size md in
  if from_len <? 1 + 2 * mdlen + 1 then None
  else
    let dblen := from_len - mdlen - 1 in
    db ← OPENSSL_malloc dblen;
    let maskedseed := takeZ mdlen (dropZ 1 from) in
    let maskeddb := dropZ (1 + mdlen) from in
    seed ← PKCS1_MGF1 (replicate (Z.to_nat EVP_MAX_MD_SIZE) 0) mdlen maskeddb mgf1md;
    let seed := xor_at seed 0 maskedseed in
    db ← PKCS1_MGF1 db dblen (takeZ mdlen seed) mgf1md;
    let db := xor_at db 0 maskeddb in
    let '(phash, _, ok) := EVP_Digest (PC := PC) param (replicate (Z.to_nat EVP_MAX_MD_SIZE) 0) md in
    if negb ok then None
    else
      let bad := not_w (constant_time_is_zero_w (u64 (CRYPTO_memcmp (takeZ mdlen db) (takeZ mdlen phash)))) in
      let bad := bad .| not_w (constant_time_is_zero_w (from !!! 0%nat)) in
      let '(one_index, looking_for_one_byte, bad) :=
        fold_left (oaep_turn db) (seq (Z.to_nat mdlen) (Z.to_nat (dblen - mdlen))) (0, CONSTTIME_TRUE_W, bad) in
      let bad := bad .| looking_for_one_byte in
      if negb (bad =? 0) then None
      else
        let one_index := size_t (one_index + 1) in
        let mlen := size_t (dblen - one_index) in
        if max_out <? mlen then None else Some (takeZ mlen (dropZ one_index db)).
End oaep.

(** * RFC 8017 *)

(** T = Hash(seed || C(0)) || Hash(seed || C(1)) || ..., where C(i) is [i] in four bytes. *)
Definition mgf1_block (m : md_method) (seed : bytes) (i : nat) : bytes := hash_of m (seed ++ be_bytes 4 (Z.of_nat i)).
Definition rfc8017_mgf1 (m : md_method) (seed : bytes) (len : Z) : bytes :=
  takeZ len (concat (map (mgf1_block m seed) (seq 0 (Z.to_nat ((len + EVP_MD_size m - 1) / EVP_MD_size m))))).

(** The data block lHash || PS || 01 || M of an encoding of [k] bytes, and the encoding
    00 || maskedSeed || maskedDB. *)
Definition oaep_db (m : md_method) (label msg : bytes) (k : Z) : bytes :=
  hash_of m label ++ replicate (Z.to_nat (k - lenZ msg - 2 * EVP_MD_size m - 2)) 0 ++ [1] ++ msg.
Definition rfc8017_oaep (m mgf : md_method) (label msg seed : bytes) (k : Z) : bytes :=
  let maskedDB := xor_bytes (oaep_db m label msg k) (rfc8017_mgf1 mgf seed (k - EVP_MD_size m - 1)) in
  [0] ++ xor_bytes seed (rfc8017_mgf1 mgf maskedDB (EVP_MD_size m)) ++ maskedDB.

(** * MGF1 *)

(** The blocks from [i] on. *)
Definition mgf1_from (m : md_method) (seed : bytes) (i : nat) (len : Z) : bytes :=
  takeZ len (concat (map (mgf1_block m seed) (seq i (Z.to_nat ((len + EVP_MD_size m - 1) / EVP_MD_size m))))).

Section mgf1.
Context (m : md_method) (seed : bytes).
Context (Hseed : bytes_ok seed).
Let dl := EVP_MD_size m.

Lemma mgf1_block_spec i : bytes_ok (mgf1_block m seed i) ∧ lenZ (mgf1_block m seed i) = dl.
Proof using Hseed. apply hash_length, bytes_ok_app. split; [exact Hseed|apply be_bytes_ok]. Qed.

Lemma mgf1_from_0 i len : len <= 0 → mgf1_from m seed i len = [].
Proof using. intros Hl. unfold mgf1_from, takeZ. by replace (Z.to_nat len) with 0%nat by lia. Qed.

Lemma mgf1_from_short i len : 0 < len < dl → mgf1_from m seed i len = takeZ len (mgf1_block m seed i).
Proof using.
  intros Hl. unfold mgf1_from. fold dl. rewrite <-(Z.div_unique_pos (len + dl - 1) dl 1 (len - 1)) by lia.
  change (Z.to_nat 1) with 1%nat. cbn [seq map concat]. by rewrite app_nil_r.
Qed.

Lemma mgf1_from_long i len :
  dl <= len → mgf1_from m seed i len = mgf1_block m seed i ++ mgf1_from m seed (S i) (len - dl).
Proof using Hseed.
  pose proof (digest_sizes m) as (Hs & _). fold dl in Hs. intros Hl. unfold mgf1_from. fold dl.
  assert ((len + dl - 1) / dl = 1 + (len - dl + dl - 1) / dl) as ->.
  { rewrite <-(Z.div_add_l 1 dl) by lia. f_equal. lia. }
  assert (0 <= (len - dl + dl - 1) / dl) by (apply Z.div_pos; lia).
  rewrite Z2Nat.inj_add by lia. change (Z.to_nat 1) with 1%nat. cbn [Nat.add seq map concat].
  destruct (mgf1_block_spec i) as [_ Hbl]. by rewrite takeZ_app_ge, Hbl by lia.
Qed.

Lemma mgf1_from_spec len : 0 <= len → ∀ i, bytes_ok (mgf1_from m seed i len) ∧ lenZ (mgf1_from m seed i len) = len.
Proof using Hseed.
  pose proof (digest_sizes m) as (Hs & _). fold dl in Hs. revert len. apply (Zlt_0_ind (λ len, ∀ i, bytes_ok (mgf1_from m seed i len) ∧ lenZ (mgf1_from m seed i len) = len)).
  intros len IH Hlen i. destruct (mgf1_block_spec i) as [Hbok Hbl]. destruct (Z.eq_dec len 0) as [->|].
  { rewrite mgf1_from_0 by lia. split; [constructor|done]. }
  destruct (Z.lt_ge_cases len dl).
  - rewrite mgf1_from_short by lia. split; [by apply Forall_take|]. rewrite lenZ_takeZ; lia.
  - rewrite mgf1_from_long by lia. destruct (IH (len - dl) ltac:(lia) (S i)) as [H1 H2].
    rewrite bytes_ok_app, lenZ_app, H2. split; [done|lia].
Qed.

Lemma takeZ_write_at_0 (p x : bytes) len : len <= lenZ x → takeZ len (write_at p 0 x) = takeZ len x.
Proof. intros Hl. unfold write_at. rewrite takeZ_0. cbn [app]. by apply takeZ_app_le. Qed.

Context {libc : Libc} {PC : Type} (Hsl : lenZ seed < 2 ^ 64).

(** The loop completes the mask, unless there is no memory for the context. *)
Lemma mgf1_loop_spec (len : Z) :
  is_Some (OPENSSL_malloc (ctx_size (method m))) →
  0 <= len → ∀ (i : nat) (c : EVP_MD_CTX PC) done todo rest fuel,
  ctx_wf c → pctx c = None → len = lenZ todo → (Z.to_nat len <= fuel)%nat → Z.of_nat i + len < 2 ^ 32 →
  mgf1_loop fuel c (Z.of_nat i) (done ++ todo ++ rest) (lenZ done) len seed m = Some (done ++ mgf1_from m seed i len ++ rest).
Proof using Hseed Hsl.
  pose proof (digest_sizes m) as (Hs & _). fold dl in Hs. intros [b Hb]. intros Hlen0. pattern len. revert len Hlen0. apply Zlt_0_ind.
  intros len IH Hlen i c done todo rest fuel Hc Hp Htodo Hfuel Hi.
  destruct fuel as [|fuel]; cbn [mgf1_loop].
  all: destruct (Z.ltb_spec 0 len) as [Hpos|]; [|rewrite mgf1_from_0 by lia; destruct todo; [done|rewrite lenZ_cons in Htodo; pose proof (lenZ_nonneg todo); lia]].
  { exfalso. lia. }
  destruct (EVP_DigestInit_ex c m) as [c1 ok] eqn:E1.
  destruct (digest_init _ _ _ _ Hc Hp E1) as [(-> & _ & _ & ?)|[-> Hc1]]; [congruence|]. cbn [negb].
  apply (digest_update _ _ _ seed) in Hc1; [|done..].
  set (counter := [_; _; _; _]).
  assert (counter = be_bytes 4 (Z.of_nat i)) as Hctr.
  { unfold counter, u8, wrap. rewrite !shiftr_div by lia. cbn [be_bytes app]. rewrite !Z.div_div by lia. done. }
  rewrite Hctr. apply (digest_update _ _ _ (be_bytes 4 (Z.of_nat i))) in Hc1; [|apply be_bytes_ok|by rewrite lenZ_be_bytes].
  cbn [app] in Hc1.
  destruct (mgf1_block_spec i) as [Hbok Hbl]. fold dl.
  destruct (Z.leb_spec dl len) as [Hle|Hgt].
  - destruct (digest_final _ _ _ (dropZ (lenZ done) (done ++ todo ++ rest)) Hc1) as (c2 & -> & Hd2 & Hp2 & Hw2).
    { rewrite dropZ_app by done. rewrite lenZ_app. pose proof (lenZ_nonneg rest). fold dl. lia. }
    rewrite dropZ_app by done. change (hash_of m (seed ++ be_bytes 4 (Z.of_nat i))) with (mgf1_block m seed i).
    assert (takeZ dl todo ++ dropZ dl todo = todo) as Hsplit by apply takeZ_dropZ.
    assert (lenZ (takeZ dl todo) = dl ∧ lenZ (dropZ dl todo) = len - dl) as [Ht1 Ht2]
      by (rewrite lenZ_takeZ, lenZ_dropZ; lia).
    assert (write_at (todo ++ rest) 0 (mgf1_block m seed i) = mgf1_block m seed i ++ dropZ dl todo ++ rest) as ->.
    { rewrite <-Hsplit at 1. rewrite <-app_assoc. apply (write_at_app [] (takeZ dl todo)); [done|lia]. }
    assert (write_at (done ++ todo ++ rest) (lenZ done) (mgf1_block m seed i ++ dropZ dl todo ++ rest) =
      (done ++ mgf1_block m seed i) ++ dropZ dl todo ++ rest) as ->.
    { rewrite <-(app_nil_r (todo ++ rest)), (write_at_app done (todo ++ rest) []); [|done|].
      - by rewrite app_nil_r, <-!app_assoc.
      - rewrite !lenZ_app. lia. }
    assert (lenZ done + dl = lenZ (done ++ mgf1_block m seed i)) as ->. { by rewrite lenZ_app, Hbl. }
    replace (u32 (Z.of_nat i + 1)) with (Z.of_nat (S i)) by (rewrite wrap_small by (split; lia); lia).
    rewrite IH; [|lia|done|done|lia|lia|lia]. rewrite (mgf1_from_long i len) by exact Hle. by rewrite <-!app_assoc.
  - destruct (digest_final _ _ _ (replicate (Z.to_nat EVP_MAX_MD_SIZE) 0) Hc1) as (c2 & -> & Hd2 & Hp2 & Hw2).
    { rewrite lenZ_replicate. unfold EVP_MAX_MD_SIZE. lia. }
    change (hash_of m (seed ++ be_bytes 4 (Z.of_nat i))) with (mgf1_block m seed i).
    rewrite (takeZ_write_at_0 _ _ len) by lia.
    rewrite (write_at_app done todo rest) by (rewrite ?lenZ_takeZ; lia).
    destruct fuel; cbn [mgf1_loop]; change (0 <? 0) with false; cbn match; by rewrite mgf1_from_short by lia.
Qed.

Lemma PKCS1_MGF1_spec out len :
  is_Some (OPENSSL_malloc (ctx_size (method m))) → 0 <= len <= lenZ out → len < 2 ^ 32 →
  PKCS1_MGF1 (PC := PC) out len seed m = Some (rfc8017_mgf1 m seed len ++ dropZ len out).
Proof using Hseed Hsl.
  intros Hb Hlen Hl. unfold PKCS1_MGF1.
  pose proof (mgf1_loop_spec len Hb ltac:(lia) 0 EVP_MD_CTX_init [] (takeZ len out) (dropZ len out) (Z.to_nat len)
    init_wf eq_refl ltac:(rewrite lenZ_takeZ; lia) ltac:(lia) ltac:(lia)) as E.
  cbn [app] in E. rewrite takeZ_dropZ in E. exact E.
Qed.
End mgf1.

Lemma mgf1_spec m seed len :
  bytes_ok seed → 0 <= len → bytes_ok (rfc8017_mgf1 m seed len) ∧ lenZ (rfc8017_mgf1 m seed len) = len.
Proof. intros Hs Hl. by apply (mgf1_from_spec m seed Hs len Hl 0). Qed.

(** * Lists *)

Lemma xor_length a b : lenZ a = lenZ b → lenZ (xor_bytes a b) = lenZ a.
Proof. unfold lenZ, xor_bytes. intros H. rewrite length_zip_with. lia. Qed.

Lemma xor_ok a b : bytes_ok a → bytes_ok b → bytes_ok (xor_bytes a b).
Proof.
  intros Ha. revert b. induction Ha as [|x a Hx _ IH]; intros b Hb; [constructor|].
  destruct Hb as [|y b Hy Hb]; [constructor|]. constructor; [by apply fits_lxor|by apply IH].
Qed.

Lemma xor_twice a b : lenZ a <= lenZ b → xor_bytes (xor_bytes a b) b = a.
Proof.
  unfold lenZ. revert b. induction a as [|x a IH]; intros [|y b] Hl; cbn in *; try (done || lia).
  unfold xor_bytes in *. cbn. rewrite IH by lia. by rewrite Z.lxor_assoc, Z.lxor_nilpotent, Z.lxor_0_r.
Qed.

Lemma xor_comm a b : xor_bytes a b = xor_bytes b a.
Proof. unfold xor_bytes. revert b. induction a as [|x a IH]; intros [|y b]; cbn; [done..|]. by rewrite IH, Z.lxor_comm. Qed.

Lemma xor_at_app (a b c mask : bytes) off :
  lenZ a = off → lenZ b = lenZ mask → xor_at (a ++ b ++ c) off mask = a ++ xor_bytes b mask ++ c.
Proof.
  intros Ha Hb. unfold xor_at. rewrite (dropZ_app a) by done. rewrite takeZ_app by done.
  apply write_at_app; [done|]. by rewrite xor_length.
Qed.

Lemma cut_list {A} (l : list A) n : 0 <= n <= lenZ l → ∃ x y, l = x ++ y ∧ lenZ x = n ∧ lenZ y = lenZ l - n.
Proof.
  intros Hn. exists (takeZ n l), (dropZ n l). rewrite takeZ_dropZ, lenZ_takeZ, lenZ_dropZ by done. done.
Qed.

Lemma write_at_start {A} (b c x : list A) : lenZ b = lenZ x → write_at (b ++ c) 0 x = x ++ c.
Proof. by apply (write_at_app []). Qed.
Lemma write_at_app_all {A} (a b x : list A) off : lenZ a = off → lenZ b = lenZ x → write_at (a ++ b) off x = a ++ x.
Proof. intros Ha Hb. rewrite <-(app_nil_r b), write_at_app by done. by rewrite app_nil_r. Qed.

(** * The scan for the one *)

(** The index of the first byte that is not zero, when it is one. *)
Fixpoint one_at (l : bytes) (i : Z) : option Z :=
  match l with
  | [] => None
  | b :: l => if b =? 1 then Some i else if b =? 0 then one_at l (i + 1) else None
  end.

Lemma one_at_spec l i k :
  one_at l i = Some k ↔ i <= k ∧ ∃ msg, l = replicate (Z.to_nat (k - i)) 0 ++ [1] ++ msg.
Proof.
  revert i. induction l as [|b l IH]; intros i; cbn [one_at].
  { split; [done|]. intros (_ & msg & H). by destruct (replicate _ _). }
  destruct (Z.eqb_spec b 1) as [->|H1]; [|destruct (Z.eqb_spec b 0) as [->|H0]].
  - split.
    + intros [= <-]. split; [lia|]. exists l. by rewrite Z.sub_diag.
    + intros (Hk & msg & H). destruct (Z.to_nat (k - i)) eqn:E; [f_equal; lia|discriminate].
  - rewrite IH. split.
    + intros (Hk & msg & ->). split; [lia|]. exists msg. by replace (Z.to_nat (k - i)) with (S (Z.to_nat (k - (i + 1)))) by lia.
    + intros (Hk & msg & H). destruct (Z.to_nat (k - i)) as [|n] eqn:E; [discriminate|]. injection H as ->.
      split; [lia|]. exists msg. do 2 f_equal. lia.
  - split; [done|]. intros (_ & msg & H). destruct (replicate _ _) as [|z l'] eqn:E; [by injection H|].
    destruct (Z.to_nat (k - i)); [done|]. injection E as <- _. by injection H.
Qed.

Lemma mask_lor a b : mask_of a .| mask_of b = mask_of (a || b).
Proof. by destruct a, b. Qed.

Lemma oaep_turn_spec db z lk bad i :
  fits 64 (db !!! i) → fits 64 z → fits 64 (Z.of_nat i) →
  oaep_turn db (z, mask_of lk, mask_of bad) i =
    (if lk && (db !!! i =? 1) then Z.of_nat i else z, mask_of (lk && negb (db !!! i =? 1)),
     mask_of (bad || (lk && negb (db !!! i =? 1) && negb (db !!! i =? 0)))).
Proof.
  intros Hb Hz Hi. unfold oaep_turn. rewrite !eq_w_spec by (done || decide_now).
  rewrite not_mask, mask_land, !select_w_spec by (done || apply mask_of_fits || decide_now).
  assert ((if db !!! i =? 1 then 0 else mask_of lk) = mask_of (lk && negb (db !!! i =? 1))) as ->
    by (destruct (db !!! i =? 1), lk; reflexivity).
  by rewrite mask_land, mask_lor.
Qed.

(** What the loop leaves: the index of the one unless something was bad. *)
Lemma oaep_loop db a z bad (lk : bool) :
  bytes_ok db → lenZ db < 2 ^ 64 → fits 64 z →
  ∃ z' lk' bad', fold_left (oaep_turn db) (seq a (length db - a)) (z, mask_of lk, mask_of bad) = (z', mask_of lk', mask_of bad') ∧
    if lk then match one_at (drop a db) (Z.of_nat a) with
               | Some k => z' = k ∧ bad' || lk' = bad
               | None => bad' || lk' = true
               end
    else z' = z ∧ bad' || lk' = bad.
Proof.
  intros Hok Hl. remember (length db - a)%nat as n eqn:Hn. revert a z bad lk Hn.
  induction n as [|n IH]; intros a z bad lk Hn Hz.
  { rewrite drop_ge by lia. exists z, lk, bad. split; [done|]. destruct lk; cbn; [apply orb_true_r|by rewrite orb_false_r]. }
  assert (Z.of_nat a < lenZ db) as Ha by (unfold lenZ; lia).
  destruct (lookup_lt_is_Some_2 db a) as [x Hx]; [lia|]. rewrite (drop_S _ _ _ Hx). cbn [seq fold_left one_at].
  rewrite oaep_turn_spec by (done || (apply byte_fits_64; done) || (split; lia)).
  rewrite (list_lookup_total_correct _ _ _ Hx).
  assert (fits 64 (Z.of_nat a)) as Hfa by (split; lia).
  destruct (IH (S a) (if lk && (x =? 1) then Z.of_nat a else z) (bad || (lk && negb (x =? 1) && negb (x =? 0)))
    (lk && negb (x =? 1)) ltac:(lia) ltac:(by destruct (lk && _))) as (z' & lk' & bad' & E & H).
  exists z', lk', bad'. split; [exact E|]. clear E. replace (Z.of_nat a + 1) with (Z.of_nat (S a)) by lia.
  destruct lk; cbn [andb] in H; [|by rewrite orb_false_r in H].
  destruct (x =? 1); cbn [negb andb] in H; [by rewrite orb_false_r in H|]. destruct (x =? 0); cbn [negb] in H.
  - by rewrite orb_false_r in H.
  - rewrite orb_true_r in H. destruct (one_at _ _); naive_solver.
Qed.

(** * Encoding *)

Section oaep_spec.
Context {libc : Libc} {PC : Type} (md mgf1md : option md_method) (param : bytes).
Context (Hparam : bytes_ok param) (Hparaml : lenZ param < 2 ^ 64).
Let m := default EVP_sha1 md.
Let mgf := default m mgf1md.
Context (Hm : is_Some (OPENSSL_malloc (ctx_size (method m)))) (Hmgf : is_Some (OPENSSL_malloc (ctx_size (method mgf)))).
Let dl := EVP_MD_size m.

Lemma oaep_db_spec msg k :
  bytes_ok msg → lenZ msg <= k - 2 * dl - 2 → bytes_ok (oaep_db m param msg k) ∧ lenZ (oaep_db m param msg k) = k - dl - 1.
Proof using Hparam.
  intros Hmsg Hl. destruct (hash_length m param Hparam) as [H1 H2]. fold dl in H2. unfold oaep_db. fold dl.
  rewrite !bytes_ok_app, !lenZ_app, lenZ_replicate, H2, lenZ_1. split; [|lia].
  split; [done|]. split; [by apply Forall_replicate|]. split; [|done]. by apply Forall_singleton.
Qed.

(** The message and its padding before masking. *)
Lemma oaep_plain (to from s : bytes) :
  lenZ from <= lenZ to - 2 * dl - 2 → lenZ s = dl →
  let t := write_at to 0 [0] in
  let t := write_at t (dl + 1) (write_at (dropZ (dl + 1) t) 0 (hash_of m param)) in
  let t := write_at t (dl + 1 + dl) (replicate (Z.to_nat (lenZ to - 1 - lenZ from - 2 * dl - 1)) 0) in
  let t := write_at t (dl + 1 + (lenZ to - 1 - lenZ from - dl - 1)) [1] in
  let t := write_at t (dl + 1 + (lenZ to - 1 - lenZ from - dl)) from in
  write_at t 1 s = [0] ++ s ++ oaep_db m param from (lenZ to).
Proof using Hparam.
  intros Hl Hs. pose proof (digest_sizes m) as (Hsz & _). fold dl in Hsz. pose proof (lenZ_nonneg from).
  destruct (hash_length m param Hparam) as [_ Hh]. fold dl in Hh.
  remember (lenZ to) as k eqn:Hk. cbv zeta.
  destruct (cut_list to 1 ltac:(lia)) as (t0 & t1 & -> & L0 & Lt1).
  destruct (cut_list t1 dl ltac:(lia)) as (ss & t2 & -> & Ls & Lt2).
  destruct (cut_list t2 dl ltac:(lia)) as (hh & t3 & -> & Lh & Lt3).
  destruct (cut_list t3 (k - lenZ from - 2 * dl - 2) ltac:(lia)) as (zz & t4 & -> & Lz & Lt4).
  destruct (cut_list t4 1 ltac:(lia)) as (oo & ff & -> & Lo & Lf).
  set (h := hash_of m param) in *. set (zs := replicate _ 0).
  assert (lenZ zs = k - lenZ from - 2 * dl - 2) as Lzs by (unfold zs; rewrite lenZ_replicate; lia).
  rewrite write_at_start by (rewrite lenZ_1; lia). rewrite (app_assoc [0] ss).
  assert (lenZ ([0] ++ ss) = dl + 1) as L1 by (rewrite lenZ_app, lenZ_1; lia).
  rewrite dropZ_app by done. rewrite write_at_start by lia.
  rewrite write_at_app_all by (rewrite ?lenZ_app, ?lenZ_1; lia).
  rewrite (app_assoc _ h). rewrite (write_at_app (([0] ++ ss) ++ h) zz) by (rewrite ?lenZ_app, ?lenZ_1; lia).
  rewrite (app_assoc _ zs). rewrite (write_at_app ((([0] ++ ss) ++ h) ++ zs) oo) by (rewrite ?lenZ_app, ?lenZ_1; lia).
  rewrite (app_assoc _ [1]). rewrite write_at_app_all by (rewrite ?lenZ_app, ?lenZ_1; lia).
  rewrite <-!(app_assoc [0]), <-!(app_assoc ss). rewrite write_at_app by (rewrite ?lenZ_1; lia).
  unfold oaep_db. fold dl h. replace (Z.to_nat (k - lenZ from - 2 * dl - 2)) with (Z.to_nat (k - 1 - lenZ from - 2 * dl - 1)) by lia.
  fold zs. by rewrite <-!app_assoc.
Qed.

Lemma add_oaep {rand : Rand} r (to from : bytes) :
  lenZ to < 2 ^ 32 → lenZ from <= lenZ to - 2 * dl - 2 → bytes_ok from → is_Some (OPENSSL_malloc (lenZ to - 1 - dl)) →
  RSA_padding_add_PKCS1_OAEP_mgf1 (PC := PC) r to from param md mgf1md =
    Some (rfc8017_oaep m mgf param from (RAND_bytes r dl).1 (lenZ to), (RAND_bytes r dl).2).
Proof using Hparam Hparaml Hm Hmgf.
  intros Hk Hl Hfrom [buf Hbuf]. pose proof (digest_sizes m) as (Hsz & _). fold dl in Hsz. pose proof (lenZ_nonneg from).
  unfold RSA_padding_add_PKCS1_OAEP_mgf1. fold m. fold mgf. fold dl. cbv zeta.
  rewrite (proj2 (Z.ltb_ge _ _)) by lia. rewrite (wrap_small 64) by (split; mlia).
  rewrite (proj2 (Z.ltb_ge _ _)), (proj2 (Z.ltb_ge _ _)) by lia.
  rewrite evp_digest_spec; [|done|done|].
  2:{ rewrite lenZ_dropZ; rewrite lenZ_write_at; rewrite ?lenZ_1; fold dl; lia. }
  destruct Hm as [b ->]. cbn [negb].
  destruct (RAND_bytes_spec r dl) as [Hsok Hsl]; [lia|]. destruct (RAND_bytes r dl) as [s r']. cbn [fst snd] in *.
  pose proof (oaep_plain to from s Hl Hsl) as E. cbv zeta in E. rewrite E. clear E.
  destruct (oaep_db_spec from (lenZ to) Hfrom Hl) as [Hdok Hdl].
  set (db := oaep_db m param from (lenZ to)) in *.
  rewrite Hbuf. cbn [mbind option_bind]. apply OPENSSL_malloc_len in Hbuf; [|lia].
  rewrite (dropZ_app [0]), (takeZ_app s) by done.
  rewrite PKCS1_MGF1_spec by (done || mlia). rewrite dropZ_all, app_nil_r by lia. cbn [mbind option_bind].
  destruct (mgf1_spec mgf s (lenZ to - 1 - dl) Hsok) as [Hmok Hml]; [lia|].
  rewrite <-(app_nil_r db), (app_assoc [0]), xor_at_app by (rewrite ?lenZ_app, ?lenZ_1; lia). rewrite app_nil_r.
  set (mdb := xor_bytes db _).
  assert (lenZ mdb = lenZ to - 1 - dl ∧ bytes_ok mdb) as [Lmdb Hmdb] by (split; [unfold mdb; rewrite xor_length; lia|by apply xor_ok]).
  rewrite (dropZ_app ([0] ++ s)) by (rewrite lenZ_app, lenZ_1; lia). rewrite (takeZ_all mdb) by lia.
  rewrite PKCS1_MGF1_spec; [|done|mlia|done|rewrite lenZ_replicate; unfold EVP_MAX_MD_SIZE; lia|mlia]. cbn [mbind option_bind].
  destruct (mgf1_spec mgf mdb dl Hmdb) as [Hmok' Hml']; [lia|]. rewrite takeZ_app by done.
  rewrite <-app_assoc, xor_at_app by (done || lia). unfold rfc8017_oaep. fold db.
  replace (lenZ to - EVP_MD_size m - 1) with (lenZ to - 1 - dl) by (unfold dl; lia). done.
Qed.

(** * Decoding *)

Lemma memcmp_fits a b : bytes_ok a → bytes_ok b → fits 8 (CRYPTO_memcmp a b).
Proof.
  unfold CRYPTO_memcmp. intros Ha. assert (fits 8 0) as H0 by decide_now. revert H0. generalize 0. revert b.
  induction Ha as [|x a Hx _ IH]; intros b z Hz Hb; [done|]. destruct Hb as [|y b Hy Hb]; [done|].
  cbn [zip zip_with fold_left]. apply IH; [|done]. apply fits_lor; [done|done|]. by apply fits_lxor.
Qed.


(** A data block, as the code finds it. *)
Lemma oaep_db_iff db k msg :
  lenZ db = k - dl - 1 → 2 * dl + 2 <= k →
  (lenZ msg <= k - 2 * dl - 2 ∧ db = oaep_db m param msg k) ↔
  takeZ dl db = hash_of m param ∧ ∃ j, one_at (dropZ dl db) dl = Some j ∧ j < lenZ db ∧ msg = dropZ (j + 1) db.
Proof using Hparam.
  intros Hl Hk. pose proof (digest_sizes m) as (Hsz & _). fold dl in Hsz. pose proof (lenZ_nonneg msg).
  destruct (hash_length m param Hparam) as [_ Hh]. fold dl in Hh. set (h := hash_of m param) in *. split.
  - intros [Hm1 ->]. unfold oaep_db. fold dl h. set (n := Z.to_nat _). rewrite takeZ_app, dropZ_app by done. split; [done|].
    exists (dl + Z.of_nat n). rewrite !lenZ_app, lenZ_replicate, lenZ_1, Hh. split; [|split; [lia|]].
    + apply one_at_spec. split; [lia|]. exists msg. do 2 f_equal. lia.
    + rewrite (app_assoc _ [1]), app_assoc. symmetry. apply dropZ_app. rewrite !lenZ_app, lenZ_replicate, lenZ_1, Hh. lia.
  - intros (Hd & j & Hj & Hjl & ->). apply one_at_spec in Hj as (Hdj & msg & Hj).
    assert (db = h ++ replicate (Z.to_nat (j - dl)) 0 ++ [1] ++ msg) as E by (rewrite <-Hd, <-Hj; symmetry; apply takeZ_dropZ).
    assert (dropZ (j + 1) db = msg) as ->.
    { rewrite E, (app_assoc _ [1]), app_assoc. apply dropZ_app. rewrite !lenZ_app, lenZ_replicate, lenZ_1, Hh. lia. }
    rewrite E in Hl. rewrite !lenZ_app, lenZ_replicate, lenZ_1, Hh in Hl. split; [lia|]. rewrite E. unfold oaep_db. fold dl h.
    do 3 f_equal. lia.
Qed.

(** [from] is an encoding of [msg]. *)
Definition oaep_encodes (from msg : bytes) : Prop :=
  bytes_ok msg ∧ lenZ msg <= lenZ from - 2 * dl - 2 ∧
  ∃ seed, bytes_ok seed ∧ lenZ seed = dl ∧ from = rfc8017_oaep m mgf param msg seed (lenZ from).

Lemma app_inj {A} (a b c d : list A) : a ++ b = c ++ d → lenZ a = lenZ c → a = c ∧ b = d.
Proof. intros H Hl. apply app_inj_1; [unfold lenZ in Hl; lia|done]. Qed.

Lemma oaep_unmask y ms mdb msg :
  let from := [y] ++ ms ++ mdb in
  let seed := xor_bytes (rfc8017_mgf1 mgf mdb dl) ms in
  let db := xor_bytes (rfc8017_mgf1 mgf seed (lenZ mdb)) mdb in
  bytes_ok ms → bytes_ok mdb → lenZ ms = dl → dl + 1 <= lenZ mdb →
  oaep_encodes from msg ↔ y = 0 ∧ lenZ msg <= lenZ from - 2 * dl - 2 ∧ db = oaep_db m param msg (lenZ from).
Proof using Hparam.
  intros from seed db Hms Hmdb Lms Lmdb. pose proof (digest_sizes m) as (Hsz & _). fold dl in Hsz.
  assert (lenZ from = 1 + dl + lenZ mdb) as Lf by (unfold from; rewrite !lenZ_app, lenZ_1; lia).
  destruct (mgf1_spec mgf mdb dl Hmdb ltac:(lia)) as [Hgo Hgl].
  assert (bytes_ok seed ∧ lenZ seed = dl) as [Hso Lseed] by (split; [by apply xor_ok|unfold seed; rewrite xor_length; lia]).
  destruct (mgf1_spec mgf seed (lenZ mdb) Hso ltac:(lia)) as [Hgo2 Hgl2].
  unfold oaep_encodes, rfc8017_oaep. fold dl. replace (lenZ from - dl - 1) with (lenZ mdb) by lia. split.
  - intros (Hmsg & Hl & seed' & Hs' & Ls' & E). destruct (oaep_db_spec msg (lenZ from) Hmsg Hl) as [Hdo Ldb].
    destruct (mgf1_spec mgf seed' (lenZ mdb) Hs' ltac:(lia)) as [Hgo' Hgl'].
    set (mdb' := xor_bytes (oaep_db m param msg (lenZ from)) _) in *. unfold from in E at 1.
    assert (lenZ mdb' = lenZ mdb) as Lm' by (unfold mdb'; rewrite xor_length; lia).
    apply app_inj in E as [E0 E]; [|done].
    assert (bytes_ok mdb') as Hm' by by apply xor_ok.
    destruct (mgf1_spec mgf mdb' dl Hm' ltac:(lia)) as [_ Lg'].
    apply app_inj in E as [E1 E2]; [|rewrite xor_length; lia]. injection E0 as ->. split; [done|]. split; [done|].
    assert (seed = seed') as Es by (unfold seed; rewrite E2, xor_comm, E1; apply xor_twice; lia).
    unfold db. rewrite Es, xor_comm, E2 at 1. apply xor_twice. lia.
  - intros (-> & Hl & E). split; [|split; [done|]].
    { assert (bytes_ok db) as Hdo by by apply xor_ok. rewrite E in Hdo. unfold oaep_db in Hdo. rewrite !bytes_ok_app in Hdo. apply Hdo. }
    exists seed. split; [done|]. split; [done|]. rewrite <-E.
    replace (xor_bytes db (rfc8017_mgf1 mgf seed (lenZ mdb))) with mdb
      by (unfold db; rewrite (xor_comm _ mdb); symmetry; apply xor_twice; lia).
    unfold from at 1. do 2 f_equal. unfold seed. rewrite (xor_comm _ ms). symmetry. apply xor_twice. lia.
Qed.

Lemma check_oaep max_out from msg :
  bytes_ok from → lenZ from < 2 ^ 32 → is_Some (OPENSSL_malloc (lenZ from - dl - 1)) →
  RSA_padding_check_PKCS1_OAEP_mgf1 (PC := PC) max_out from param md mgf1md = Some msg ↔
  oaep_encodes from msg ∧ lenZ msg <= max_out.
Proof using Hparam Hparaml Hm Hmgf.
  intros Hok Hl [buf Hbuf]. pose proof (digest_sizes m) as (Hsz & _). fold dl in Hsz.
  unfold RSA_padding_check_PKCS1_OAEP_mgf1. fold m. fold mgf. fold dl. cbv zeta.
  destruct (Z.ltb_spec (lenZ from) (1 + 2 * dl + 1)) as [Hs|Hs].
  { split; [done|]. intros [(_ & Hml & _) _]. pose proof (lenZ_nonneg msg). lia. }
  rewrite Hbuf. cbn [mbind option_bind]. apply OPENSSL_malloc_len in Hbuf; [|lia].
  destruct (cut_list from 1 ltac:(lia)) as (y0 & f1 & Ef & Ly & Lf1). destruct y0 as [|y [|? ?]]; [done| |rewrite !lenZ_cons in Ly; pose proof (lenZ_nonneg l); lia].
  destruct (cut_list f1 dl ltac:(lia)) as (ms & mdb & -> & Lms & Lmdb).
  assert (fits 8 y ∧ bytes_ok ms ∧ bytes_ok mdb) as (Hy & Hms & Hmdb).
  { rewrite Ef in Hok. apply bytes_ok_cons in Hok as [? Hok]. by apply bytes_ok_app in Hok. }
  assert (dropZ 1 from = ms ++ mdb ∧ dropZ (1 + dl) from = mdb ∧ from !!! 0%nat = y) as (-> & -> & ->).
  { rewrite Ef. split_and!; [done| |done]. rewrite app_assoc. apply dropZ_app. rewrite lenZ_app, lenZ_1. lia. }
  rewrite takeZ_app by done.
  pose proof (oaep_unmask y ms mdb msg) as Hun. cbv zeta in Hun. rewrite <-Ef in Hun. rewrite Hun by (done || lia). clear Hun.
  destruct (mgf1_spec mgf mdb dl Hmdb ltac:(lia)) as [Hgo Hgl].
  rewrite PKCS1_MGF1_spec; [|done|mlia|done|rewrite lenZ_replicate; unfold EVP_MAX_MD_SIZE; lia|mlia]. cbn [mbind option_bind].
  rewrite <-(app_nil_l (_ ++ dropZ dl _)), xor_at_app by (done || lia). cbn [app].
  set (seed := xor_bytes _ ms) in *. rewrite takeZ_app by (unfold seed; rewrite xor_length; lia).
  assert (bytes_ok seed ∧ lenZ seed = dl) as [Hso Lseed] by (split; [by apply xor_ok|unfold seed; rewrite xor_length; lia]).
  destruct (mgf1_spec mgf seed (lenZ mdb) Hso ltac:(lia)) as [Hgo2 Hgl2].
  replace (lenZ from - dl - 1) with (lenZ mdb) in * by lia.
  rewrite PKCS1_MGF1_spec by (done || mlia). rewrite dropZ_all by lia. cbn [mbind option_bind].
  rewrite <-(app_nil_l (_ ++ [])), xor_at_app by (done || lia). cbn [app]. rewrite app_nil_r.
  set (db := xor_bytes _ mdb) in *.
  assert (bytes_ok db ∧ lenZ db = lenZ mdb) as [Hdo Ldb] by (split; [by apply xor_ok|unfold db; rewrite xor_length; lia]).
  clearbody db seed. rewrite oaep_db_iff by lia.
  rewrite evp_digest_spec; [|done|done|rewrite lenZ_replicate; unfold EVP_MAX_MD_SIZE; lia].
  destruct Hm as [b ->]. cbn [negb].
  destruct (hash_length m param Hparam) as [Hho Hh]. fold dl in Hh.
  rewrite takeZ_write_at_0, (takeZ_all (hash_of m param)) by lia.
  assert (fits 8 (CRYPTO_memcmp (takeZ dl db) (hash_of m param))) as Hcf by (apply memcmp_fits; [by apply Forall_take|done]).
  rewrite (wrap_small 64 (CRYPTO_memcmp _ _)) by (by apply (fits_mono 8); [lia|]).
  rewrite !is_zero_w_spec by (apply (fits_mono 8); [lia|done]). rewrite !not_mask, mask_lor. change CONSTTIME_TRUE_W with (mask_of true).
  assert (negb (CRYPTO_memcmp (takeZ dl db) (hash_of m param) =? 0) = negb (bool_decide (takeZ dl db = hash_of m param))) as ->.
  { f_equal. apply eq_true_iff_eq. rewrite Z.eqb_eq, bool_decide_eq_true. apply CRYPTO_memcmp_exact; [by apply Forall_take|done|].
    apply Nat2Z.inj. fold (lenZ (takeZ dl db)). fold (lenZ (hash_of m param)). rewrite lenZ_takeZ; lia. }
  set (bad0 := negb (bool_decide (takeZ dl db = hash_of m param)) || negb (y =? 0)).
  replace (Z.to_nat (lenZ mdb - dl)) with (length db - Z.to_nat dl)%nat by (unfold lenZ in *; lia).
  destruct (oaep_loop db (Z.to_nat dl) 0 bad0 true Hdo ltac:(lia) ltac:(decide_now)) as (z & lk & bad & -> & H).
  rewrite mask_lor, mask_eqb_0, negb_involutive. change (drop (Z.to_nat dl) db) with (dropZ dl db) in H.
  rewrite Z2Nat.id in H by lia. destruct (one_at (dropZ dl db) dl) as [j|] eqn:Ej.
  - destruct H as [-> ->]. apply one_at_spec in Ej as (Hj & mm & Em). apply (f_equal lenZ) in Em.
    rewrite !lenZ_app, lenZ_replicate, lenZ_1, lenZ_dropZ in Em by lia. pose proof (lenZ_nonneg mm).
    rewrite (wrap_small 64 (j + 1)) by (split; lia). rewrite (wrap_small 64 (lenZ mdb - _)) by (split; lia).
    rewrite takeZ_all by (rewrite lenZ_dropZ; lia). unfold bad0.
    destruct (bool_decide_reflect (takeZ dl db = hash_of m param)); [|by split; [done|intros [(_ & ? & _) _]]].
    destruct (Z.eqb_spec y 0); [|by split; [done|intros [(? & _) _]]]. cbn [negb orb].
    destruct (Z.ltb_spec max_out (lenZ mdb - (j + 1))) as [Hmx|Hmx].
    + split; [done|]. intros [(_ & _ & ? & [= <-] & _ & ->) Hm']. rewrite lenZ_dropZ in Hm'; lia.
    + split.
      * intros [= <-]. rewrite lenZ_dropZ by lia. split; [|lia]. do 2 (split; [done|]). exists j. split; [done|]. split; [lia|done].
      * by intros [(_ & _ & ? & [= <-] & _ & ->) Hm'].
  - rewrite H. split; [done|]. by intros [(_ & _ & ? & ? & _) _].
Qed.
End oaep_spec.

Lemma oaep_encoding_length m mgf param msg seed k :
  bytes_ok param → bytes_ok msg → bytes_ok seed → lenZ seed = EVP_MD_size m → lenZ msg <= k - 2 * EVP_MD_size m - 2 →
  bytes_ok (rfc8017_oaep m mgf param msg seed k) ∧ lenZ (rfc8017_oaep m mgf param msg seed k) = k.
Proof.
  intros Hp Hm Hs Hsl Hl. pose proof (digest_sizes m) as (Hsz & _). pose proof (lenZ_nonneg msg).
  destruct (oaep_db_spec (Some m) param Hp msg k Hm Hl) as [Hdo Hdl]. cbn [from_option id] in Hdo, Hdl.
  destruct (mgf1_spec mgf seed (k - EVP_MD_size m - 1) Hs ltac:(lia)) as [Hgo Hgl]. unfold rfc8017_oaep.
  set (mdb := xor_bytes (oaep_db m param msg k) _). assert (bytes_ok mdb) as Hmo by by apply xor_ok.
  assert (lenZ mdb = k - EVP_MD_size m - 1) as Hml by (unfold mdb; rewrite xor_length; lia).
  destruct (mgf1_spec mgf mdb (EVP_MD_size m) Hmo ltac:(lia)) as [Hgo' Hgl'].
  rewrite !bytes_ok_app, !lenZ_app, lenZ_1, xor_length by lia. split; [|lia].
  split; [decide_now|]. split; [by apply xor_ok|done].
Qed.

(** * Properties *)

(** C9. The OAEP reader, whose scan does not branch on the secret, accepts exactly the encodings of RFC
    8017 under the label and the two hash functions, and returns their message when it fits. *)
Theorem oaep_check_exact {libc : Libc} {PC : Type} max_out from param md mgf1md msg :
  let m := default EVP_sha1 md in
  let mgf := default m mgf1md in
  bytes_ok from → lenZ from < 2 ^ 32 → bytes_ok param → lenZ param < 2 ^ 64 →
  is_Some (OPENSSL_malloc (ctx_size (method m))) → is_Some (OPENSSL_malloc (ctx_size (method mgf))) →
  is_Some (OPENSSL_malloc (lenZ from - EVP_MD_size m - 1)) →
  RSA_padding_check_PKCS1_OAEP_mgf1 (PC := PC) max_out from param md mgf1md = Some msg ↔
  (bytes_ok msg ∧ lenZ msg <= lenZ from - 2 * EVP_MD_size m - 2 ∧
   ∃ seed, bytes_ok seed ∧ lenZ seed = EVP_MD_size m ∧ from = rfc8017_oaep m mgf param msg seed (lenZ from)) ∧
  lenZ msg <= max_out.
Proof. intros m mgf Hok Hl Hp Hpl Hm Hmgf Hbuf. by apply (check_oaep md mgf1md param Hp Hpl Hm Hmgf). Qed.

Lemma oaep_check_exact_witness :
  let from := replicate 42 0 in
  RSA_padding_check_PKCS1_OAEP_mgf1 (libc := calloc_libc) (PC := unit) 10 from [] None (Some EVP_md5) = Some [] ↔
  (bytes_ok [] ∧ lenZ (@nil Z) <= 42 - 2 * EVP_MD_size EVP_sha1 - 2 ∧
   ∃ seed, bytes_ok seed ∧ lenZ seed = EVP_MD_size EVP_sha1 ∧ from = rfc8017_oaep EVP_sha1 EVP_md5 [] [] seed 42) ∧
  lenZ (@nil Z) <= 10.
Proof.
  intros from. refine (oaep_check_exact (libc := calloc_libc) (PC := unit) 10 from [] None (Some EVP_md5) [] _ _ _ _ _ _ _);
    first [decide_now|vm_compute; eexists; reflexivity].
Defined.

(** C11. OAEP round trip: a message at most two digests and two bytes shorter than the block is encoded
    with the seed drawn from the generator, and the reader recovers it under the same label. *)
Theorem oaep_round_trip {libc : Libc} {PC : Type} {rand : Rand} r to from param md mgf1md :
  let m := default EVP_sha1 md in
  let mgf := default m mgf1md in
  bytes_ok from → lenZ to < 2 ^ 32 → lenZ from <= lenZ to - 2 * EVP_MD_size m - 2 → bytes_ok param → lenZ param < 2 ^ 64 →
  is_Some (OPENSSL_malloc (ctx_size (method m))) → is_Some (OPENSSL_malloc (ctx_size (method mgf))) →
  is_Some (OPENSSL_malloc (lenZ to - EVP_MD_size m - 1)) →
  ∃ em r', RSA_padding_add_PKCS1_OAEP_mgf1 (PC := PC) r to from param md mgf1md = Some (em, r') ∧ lenZ em = lenZ to ∧
    RSA_padding_check_PKCS1_OAEP_mgf1 (PC := PC) (lenZ from) em param md mgf1md = Some from.
Proof.
  intros m mgf Hok Hl Hfl Hp Hpl Hm Hmgf Hbuf. pose proof (digest_sizes m) as (Hsz & _). pose proof (lenZ_nonneg from).
  rewrite (add_oaep md mgf1md param Hp Hpl Hm Hmgf) by (first [done|fold m; replace (lenZ to - 1 - EVP_MD_size m) with (lenZ to - EVP_MD_size m - 1) by lia; done]).
  fold m. fold mgf. destruct (RAND_bytes_spec r (EVP_MD_size m) ltac:(lia)) as [Hso Hsl].
  destruct (RAND_bytes r (EVP_MD_size m)) as [seed r']. cbn [fst snd] in *. eexists _, r'. split; [reflexivity|].
  destruct (oaep_encoding_length m mgf param from seed (lenZ to) Hp Hok Hso Hsl Hfl) as [Heo Hel]. split; [done|].
  apply (check_oaep md mgf1md param Hp Hpl Hm Hmgf); fold m; rewrite ?Hel; [done|done|done|].
  split; [|lia]. unfold oaep_encodes. fold m. fold mgf. rewrite Hel. split; [done|]. split; [done|]. by exists seed.
Qed.

Lemma oaep_round_trip_witness :
  ∃ em r', RSA_padding_add_PKCS1_OAEP_mgf1 (libc := calloc_libc) (PC := unit) (rand := counting_rand) 5 (replicate 40 0) [1; 2; 3] [9]
      (Some EVP_md5) (Some EVP_sha256) = Some (em, r') ∧ lenZ em = 40 ∧
    RSA_padding_check_PKCS1_OAEP_mgf1 (libc := calloc_libc) (PC := unit) 3 em [9] (Some EVP_md5) (Some EVP_sha256) = Some [1; 2; 3].
Proof.
  refine (oaep_round_trip (libc := calloc_libc) (PC := unit) (rand := counting_rand) 5 (replicate 40 0) [1; 2; 3] [9]
    (Some EVP_md5) (Some EVP_sha256) _ _ _ _ _ _ _ _);
    first [decide_now|vm_compute; eexists; reflexivity].
Defined.
