(* ===== verification/Bn.v ===== *)
(** Big numbers:
    src/HolyWater-Test/Pods/BoringSSL-GRPC/src/crypto/fipsmodule/bn/bn.c, cmp.c and the word loops of
    generic.c, for 64-bit words.

    A [BIGNUM] is a record; functions with several operands, which may be the same object, work on a
    store of BIGNUMs, so that a write to the result is seen by the operand it coincides with. *)
From stdpp Require Import gmap.
From S2P Require Import Prelude Mem ConstTime.

Open Scope Z_scope.

(** * Data *)

Definition BN_BITS2 : Z := 64.
Definition BN_BYTES : Z := 8.
Definition BN_MASK2 : Z := 0xffffffffffffffff.
Definition BN_FLG_MALLOCED : Z := 1.
Definition BN_FLG_STATIC_DATA : Z := 2.

(** [d] is the whole array: [dmax] words, of which [width] are in use. *)
Record BIGNUM := { d : list Z; width : Z; dmax : Z; neg : bool; flags : Z }.
#[global] Instance BIGNUM_inhabited : Inhabited BIGNUM :=
  populate {| d := []; width := 0; dmax := 0; neg := false; flags := 0 |}.

Definition set_d (l : list Z) (b : BIGNUM) : BIGNUM :=
  {| d := l; width := width b; dmax := dmax b; neg := neg b; flags := flags b |}.
Definition set_width (w : Z) (b : BIGNUM) : BIGNUM :=
  {| d := d b; width := w; dmax := dmax b; neg := neg b; flags := flags b |}.
Definition set_neg (n : bool) (b : BIGNUM) : BIGNUM :=
  {| d := d b; width := width b; dmax := dmax b; neg := n; flags := flags b |}.

(** The words a block of memory holds. *)
Definition as_words (b : bytes) : list Z :=
  map (λ j, le_value (takeZ 8 (dropZ (8 * Z.of_nat j) b))) (seq 0 (Z.to_nat (lenZ b / 8))).

Definition word (b : BIGNUM) (i : Z) : Z := nthZ (d b) i.

(** [{ BIGNUM *x, ... }]: the objects that pointers name. *)
Abbreviation var := nat (only parsing).
Abbreviation bns := (gmap nat BIGNUM) (only parsing).
Definition upd (x : var) (f : BIGNUM → BIGNUM) (s : bns) : bns := <[x := f (s !!! x)]> s.
Definition put_word (x : var) (i w : Z) : bns → bns := upd x (λ b, set_d (<[Z.to_nat i := w]> (d b)) b).

(** * Loops over words *)

(** [for (; n; n--, i++) { r[i] = ...a[i], b[i], acc...; acc = ...; }], in place. *)
Fixpoint words_loop {A} (step : A → Z → Z → Z * A) (r a b : var) (n : nat) (i : Z) (acc : A) (s : bns) : A * bns :=
  match n with
  | O => (acc, s)
  | S n =>
      let '(w, acc) := step acc (word (s !!! a) i) (word (s !!! b) i) in
      words_loop step r a b n (i + 1) acc (put_word r i w s)
  end.

(** [ll += (BN_ULLONG)a[0] + b[0]; r[0] = (BN_ULONG)ll; ll >>= BN_BITS2]; the code unrolls it four times. *)
Definition add_step (ll a b : Z) : Z * Z :=
  let ll := wrap 128 (ll + wrap 128 (a + b)) in (u64 ll, ll ≫ BN_BITS2).
Definition bn_add_words (r a b : var) (n : Z) (s : bns) : Z * bns :=
  let '(ll, s) := words_loop add_step r a b (Z.to_nat n) 0 0 s in (u64 ll, s).

Definition sub_step (c t1 t2 : Z) : Z * Z :=
  (u64 (t1 - t2 - c), if negb (t1 =? t2) then (if t1 <? t2 then 1 else 0) else c).
Definition bn_sub_words (r a b : var) (n : Z) (s : bns) : Z * bns :=
  words_loop sub_step r a b (Z.to_nat n) 0 0 s.

Definition bn_select_words (r : var) (mask : Z) (a b : var) (num : Z) (s : bns) : bns :=
  (words_loop (λ _ x y, (constant_time_select_w mask x y, tt)) r a b (Z.to_nat num) 0 tt s).2.

(** * bn.c *)

Definition BN_init : BIGNUM := {| d := []; width := 0; dmax := 0; neg := false; flags := 0 |}.

(** [mask |= d[i]] from [num] to the width. *)
Definition bn_fits_in_words (bn : BIGNUM) (num : Z) : bool :=
  fold_left Z.lor (takeZ (width bn - num) (dropZ num (d bn))) 0 =? 0.
Definition BN_is_zero (bn : BIGNUM) : bool := bn_fits_in_words bn 0.

Fixpoint minimal_loop (d : list Z) (ret : nat) : nat :=
  match ret with
  | O => O
  | S n => if nthZ d (Z.of_nat n) =? 0 then minimal_loop d n else ret
  end.
Definition bn_minimal_width (bn : BIGNUM) : Z := Z.of_nat (minimal_loop (d bn) (Z.to_nat (width bn))).
Definition bn_set_minimal_width (bn : BIGNUM) : BIGNUM :=
  let bn := set_width (bn_minimal_width bn) bn in
  if width bn =? 0 then set_neg false bn else bn.

(** One halving of [BN_num_bits_word]. *)
Definition num_bits_step (k : Z) (bits l : Z) : Z * Z :=
  let x := l ≫ k in
  let mask := u64 (0 - x) in
  let mask := u64 (0 - (mask ≫ (BN_BITS2 - 1))) in
  (u32 (bits + (k .& mask)), l .^ ((x .^ l) .& mask)).
Definition BN_num_bits_word (l : Z) : Z :=
  let bits := if l =? 0 then 0 else 1 in
  let '(bits, l) := num_bits_step 32 bits l in
  let '(bits, l) := num_bits_step 16 bits l in
  let '(bits, l) := num_bits_step 8 bits l in
  let '(bits, l) := num_bits_step 4 bits l in
  let '(bits, l) := num_bits_step 2 bits l in
  let '(bits, _) := num_bits_step 1 bits l in
  bits.
Definition BN_num_bits (bn : BIGNUM) : Z :=
  let width := bn_minimal_width bn in
  if width =? 0 then 0 else u32 ((width - 1) * BN_BITS2 + BN_num_bits_word (word bn (width - 1))).
Definition BN_num_bytes (bn : BIGNUM) : Z := u32 (BN_num_bits bn + 7) / 8.

Definition BN_zero (bn : BIGNUM) : BIGNUM := set_neg false (set_width 0 bn).
Definition BN_clear (bn : BIGNUM) : BIGNUM :=
  set_neg false (set_width 0 (set_d (replicate (length (d bn)) 0) bn)).
Definition BN_value_one : BIGNUM := {| d := [1]; width := 1; dmax := 1; neg := false; flags := BN_FLG_STATIC_DATA |}.
Definition BN_is_negative (bn : BIGNUM) : bool := neg bn.
Definition BN_set_negative (bn : BIGNUM) (sign : bool) : BIGNUM := set_neg (sign && negb (BN_is_zero bn)) bn.
Definition bn_set_static_words (bn : BIGNUM) (words : list Z) : BIGNUM :=
  {| d := words; width := lenZ words; dmax := lenZ words; neg := false; flags := flags bn .| BN_FLG_STATIC_DATA |}.

Definition bn_copy_words (num : Z) (bn : BIGNUM) : option (list Z) :=
  if neg bn then None
  else
    let w := width bn in
    if num <? w then
      if bn_fits_in_words bn num then Some (takeZ num (d bn)) else None
    else Some (takeZ w (d bn) ++ replicate (Z.to_nat (num - w)) 0).

Section bn.
Context {libc : Libc}.

Definition sizeof_BIGNUM : Z := 24.
Definition BN_new : option BIGNUM :=
  _ ← OPENSSL_malloc sizeof_BIGNUM;
  Some {| d := []; width := 0; dmax := 0; neg := false; flags := BN_FLG_MALLOCED |}.

(** Nothing changes when it fails. *)
Definition bn_wexpand (bn : BIGNUM) (words : Z) : option BIGNUM :=
  if words <=? dmax bn then Some bn
  else if INT_MAX / (4 * BN_BITS2) <? words then None
  else if negb (flags bn .& BN_FLG_STATIC_DATA =? 0) then None
  else
    a ← OPENSSL_malloc (size_t (8 * words));
    Some {| d := write_at (as_words a) 0 (takeZ (width bn) (d bn)); width := width bn; dmax := words;
            neg := neg bn; flags := flags bn |}.

Definition bn_expand (bn : BIGNUM) (bits : Z) : option BIGNUM :=
  if size_t (bits + BN_BITS2 - 1) <? bits then None
  else bn_wexpand bn (size_t (bits + BN_BITS2 - 1) / BN_BITS2).

(** [if (!bn_wexpand(x, words)) return 0;] *)
Definition wexpand (x : var) (words : Z) : M bns () := λ s,
  match bn_wexpand (s !!! x) words with Some b => (Some (), <[x := b]> s) | None => (None, s) end.

Definition bn_resize_words (bn : BIGNUM) (words : Z) : option BIGNUM :=
  if width bn <=? words then
    bn ← bn_wexpand bn words;
    Some (set_width words (set_d (write_at (d bn) (width bn) (replicate (Z.to_nat (words - width bn)) 0)) bn))
  else if negb (bn_fits_in_words bn words) then None
  else Some (set_width words bn).

Definition bn_set_words (bn : BIGNUM) (words : list Z) : option BIGNUM :=
  bn ← bn_wexpand bn (lenZ words);
  Some (set_neg false (set_width (lenZ words) (set_d (write_at (d bn) 0 words) bn))).

Definition BN_set_word (bn : BIGNUM) (value : Z) : option BIGNUM :=
  if value =? 0 then Some (BN_zero bn)
  else
    bn ← bn_wexpand bn 1;
    let bn := set_neg false bn in
    let bn := set_d (<[0%nat := value]> (d bn)) bn in
    Some (set_width 1 bn).
Definition BN_set_u64 (bn : BIGNUM) (value : Z) : option BIGNUM := BN_set_word bn value.
Definition BN_one (bn : BIGNUM) : option BIGNUM := BN_set_word bn 1.

Definition BN_copy (dest src : var) : M bns () :=
  if decide (src = dest) then mret ()
  else
    s ← getS;
    wexpand dest (width (s !!! src));;
    s ← getS;
    let src := s !!! src in
    modifyS (upd dest (λ b, set_d (write_at (d b) 0 (takeZ (width src) (d src))) b));;
    modifyS (upd dest (λ b, set_neg (neg src) (set_width (width src) b))).

(** A new object at a name that is not in use. *)
Definition BN_dup (copy src : var) : M bns () :=
  b ← liftO BN_new;
  modifyS <[copy := b]>;;
  BN_copy copy src.
End bn.

(** * Values *)

Definition words_value (l : list Z) : Z := foldr (λ w v, w + 2 ^ 64 * v) 0 l.
Definition words (b : BIGNUM) : list Z := takeZ (width b) (d b).
Definition mag (b : BIGNUM) : Z := words_value (words b).
(** The integer a [BIGNUM] stands for. *)
Definition bn_value (b : BIGNUM) : Z := if neg b then - mag b else mag b.

Definition BN_MAX_WORDS : Z := INT_MAX / (4 * BN_BITS2).

(** The words in use are words, and they are within the array. *)
Record bn_wf (b : BIGNUM) : Prop := {
  wf_width : 0 <= width b <= dmax b;
  wf_dmax : lenZ (d b) = dmax b;
  wf_max : dmax b <= BN_MAX_WORDS;
  wf_words : Forall (fits 64) (words b);
}.
(** Zero is not negative. *)
Definition bn_canonical (b : BIGNUM) : Prop := neg b = true → mag b ≠ 0.
Definition bn_ok (b : BIGNUM) : Prop := bn_wf b ∧ bn_canonical b.

Lemma pow_64_S n : 0 <= n → 2 ^ (64 * (1 + n)) = 2 ^ 64 * 2 ^ (64 * n).
Proof. intros. rewrite <-Z.pow_add_r by lia. f_equal. lia. Qed.

Lemma words_value_app l k : words_value (l ++ k) = words_value l + 2 ^ (64 * lenZ l) * words_value k.
Proof.
  unfold words_value. induction l as [|w l IH]; cbn [app foldr].
  - change (2 ^ (64 * lenZ (@nil Z))) with 1. lia.
  - rewrite IH, lenZ_cons, pow_64_S by apply lenZ_nonneg. ring.
Qed.

Lemma words_value_bound l : Forall (fits 64) l → 0 <= words_value l < 2 ^ (64 * lenZ l).
Proof.
  induction 1 as [|w l Hw _ IH]; cbn [words_value foldr]; [change (2 ^ (64 * lenZ (@nil Z))) with 1; lia|].
  fold (words_value l). rewrite lenZ_cons, pow_64_S by apply lenZ_nonneg. unfold fits in Hw. nia.
Qed.

Lemma words_value_zeros n : words_value (replicate n 0) = 0.
Proof. induction n as [|n IH]; [done|]. cbn [replicate words_value foldr]. fold (words_value (replicate n 0)). rewrite IH. lia. Qed.

Lemma words_value_0 l : Forall (fits 64) l → words_value l = 0 ↔ Forall (λ w, w = 0) l.
Proof.
  intros Hl. split.
  - induction Hl as [|w l Hw Hl IH]; [constructor|]. cbn [words_value foldr]. fold (words_value l). intros H.
    pose proof (words_value_bound l Hl) as Hb. unfold fits in Hw. rewrite pow2_64 in *. constructor; [lia|]. apply IH. lia.
  - intros H. clear Hl. induction H as [|w l -> _ IH]; [done|]. cbn [words_value foldr]. fold (words_value l). rewrite IH. lia.
Qed.

Lemma pow_64_pos n : 0 <= n → 0 < 2 ^ (64 * n).
Proof. intros. apply Z.pow_pos_nonneg; lia. Qed.

(** The order of numbers of the same width is that of their top words, then that of the rest. *)
Lemma words_value_inj l k : Forall (fits 64) l → Forall (fits 64) k → length l = length k → words_value l = words_value k → l = k.
Proof.
  intros Hl. revert k. induction Hl as [|w l Hw _ IH]; intros k Hk Hlen; destruct Hk as [|x k Hx Hk]; try done.
  cbn [words_value foldr]. fold (words_value l) (words_value k). intros E. unfold fits in *. rewrite pow2_64 in *.
  assert (words_value l = words_value k) as E' by lia. rewrite (IH k Hk ltac:(by injection Hlen) E'). f_equal. lia.
Qed.

(** * The store *)

(** [s'] is [s] with [r] set to [b]. *)
Definition sets (r : var) (b : BIGNUM) (s s' : bns) : Prop := ∀ y, s' !!! y = if decide (y = r) then b else s !!! y.

Lemma sets_refl r s : sets r (s !!! r) s s.
Proof. intros y. by destruct (decide (y = r)) as [->|]. Qed.
Lemma sets_at r b s s' : sets r b s s' → s' !!! r = b.
Proof. intros H. rewrite (H r). by rewrite decide_True. Qed.
Lemma sets_ne r b s s' y : sets r b s s' → y ≠ r → s' !!! y = s !!! y.
Proof. intros H Hy. rewrite (H y). by rewrite decide_False. Qed.
Lemma sets_trans r b b' s s' s'' : sets r b s s' → sets r b' s' s'' → sets r b' s s''.
Proof. intros H H' y. rewrite (H' y), (H y). by destruct (decide (y = r)). Qed.
Lemma sets_upd r f s : sets r (f (s !!! r)) s (upd r f s).
Proof.
  intros y. unfold upd. destruct (decide (y = r)) as [->|Hy]; [by rewrite lookup_total_insert_eq|by rewrite lookup_total_insert_ne].
Qed.
Lemma sets_insert r b s : sets r b s (<[r := b]> s).
Proof. apply (sets_upd r (λ _, b)). Qed.
Lemma sets_cong r b b' s s' : b = b' → sets r b s s' → sets r b' s s'.
Proof. by intros ->. Qed.

(** * The loop over words computes, in place, a function of the words it started with *)

Fixpoint map_acc {A} (step : A → Z → Z → Z * A) (xs ys : list Z) (acc : A) : A * list Z :=
  match xs, ys with
  | x :: xs, y :: ys =>
      let '(w, acc) := step acc x y in
      let '(acc, ws) := map_acc step xs ys acc in (acc, w :: ws)
  | _, _ => (acc, [])
  end.

Lemma insert_write_at (l : list Z) i w : 0 <= i < lenZ l → <[Z.to_nat i := w]> l = write_at l i [w].
Proof.
  intros Hi. unfold lenZ in Hi. rewrite insert_take_drop by lia. unfold write_at, takeZ, dropZ. do 3 f_equal. unfold lenZ. cbn. lia.
Qed.

Lemma take_drop_nth (l : list Z) i n :
  0 <= i → i < lenZ l → takeZ (Z.of_nat (S n)) (dropZ i l) = nthZ l i :: takeZ (Z.of_nat n) (dropZ (i + 1) l).
Proof.
  intros Hi Hl. unfold takeZ, dropZ, nthZ. rewrite !Nat2Z.id, Z2Nat.inj_add by lia. change (Z.to_nat 1) with 1%nat.
  destruct (lookup_lt_is_Some_2 l (Z.to_nat i)) as [x Hx]; [unfold lenZ in Hl; lia|].
  rewrite (drop_S _ _ _ Hx), (nth_lookup_Some _ _ _ _ Hx), Nat.add_1_r. done.
Qed.

Lemma words_loop_spec {A} (step : A → Z → Z → Z * A) r a b n i acc s :
  0 <= i → i + Z.of_nat n <= lenZ (d (s !!! r)) → i + Z.of_nat n <= lenZ (d (s !!! a)) → i + Z.of_nat n <= lenZ (d (s !!! b)) →
  let res := map_acc step (takeZ (Z.of_nat n) (dropZ i (d (s !!! a)))) (takeZ (Z.of_nat n) (dropZ i (d (s !!! b)))) acc in
  ∃ s', words_loop step r a b n i acc s = (res.1, s') ∧ lenZ res.2 = Z.of_nat n ∧
    sets r (set_d (write_at (d (s !!! r)) i res.2) (s !!! r)) s s'.
Proof.
  revert i acc s. induction n as [|n IH]; intros i acc s Hi Hr Ha Hb.
  { exists s. split; [done|]. split; [done|]. intros y. cbn [map_acc takeZ take snd]. change (map_acc step _ _ acc) with (acc, @nil Z). cbn [snd]. rewrite write_at_nil. revert y.
    eapply sets_cong; [|apply sets_refl]. by destruct (s !!! r). }
  rewrite !take_drop_nth by lia. cbn [map_acc words_loop]. unfold word.
  destruct (step acc (nthZ (d (s !!! a)) i) (nthZ (d (s !!! b)) i)) as [w acc'].
  set (s1 := put_word r i w s). pose proof (sets_upd r (λ b, set_d (<[Z.to_nat i := w]> (d b)) b) s) as Hs1.
  fold (put_word r i w s) in Hs1. fold s1 in Hs1.
  assert (∀ y, lenZ (d (s1 !!! y)) = lenZ (d (s !!! y)) ∧ dropZ (i + 1) (d (s1 !!! y)) = dropZ (i + 1) (d (s !!! y))) as Hd.
  { intros y. rewrite (Hs1 y). destruct (decide (y = r)) as [->|]; [|done]. cbn [set_d d].
    unfold lenZ. rewrite length_insert. split; [done|]. unfold dropZ. rewrite drop_insert_lt by lia. done. }
  destruct (IH (i + 1) acc' s1) as (s' & E & Hl & Hs); [lia|rewrite (proj1 (Hd _)); lia..|].
  rewrite !(proj2 (Hd _)) in *.
  destruct (map_acc step _ _ acc') as [acc'' ws] eqn:Em. cbn [fst snd] in *. exists s'. split; [exact E|].
  split; [rewrite lenZ_cons; lia|]. eapply sets_trans; [exact Hs1|]. eapply sets_cong; [|exact Hs].
  rewrite (sets_at _ _ _ _ Hs1). unfold set_d. cbn [d width dmax neg flags]. f_equal.
  rewrite insert_write_at by lia. change (w :: ws) with ([w] ++ ws). apply (write_at_then _ i [w]); [lia|]. rewrite lenZ_cons, lenZ_nil. lia.
Qed.

(** A step that combines digits linearly, the carry [acc] counting [σ] times, combines numbers so. *)
Lemma map_acc_linear (step : Z → Z → Z → Z * Z) (P : Z → Prop) ρ σ τ :
  (∀ acc x y, P acc → fits 64 x → fits 64 y →
    fits 64 (step acc x y).1 ∧ P (step acc x y).2 ∧ (step acc x y).1 + σ * (2 ^ 64 * (step acc x y).2) = ρ * x + τ * y + σ * acc) →
  ∀ xs ys acc, P acc → Forall (fits 64) xs → Forall (fits 64) ys → length xs = length ys →
  let res := map_acc step xs ys acc in
  P res.1 ∧ Forall (fits 64) res.2 ∧ lenZ res.2 = lenZ xs ∧
  words_value res.2 + σ * (2 ^ (64 * lenZ xs) * res.1) = ρ * words_value xs + τ * words_value ys + σ * acc.
Proof.
  intros Hstep xs. induction xs as [|x xs IH]; intros [|y ys] acc Hacc Hx Hy Hlen; try done.
  { split; [done|]. split; [constructor|]. split; [done|]. change (2 ^ (64 * lenZ (@nil Z))) with 1. cbn. lia. }
  inversion Hx as [|?? Hx1 Hx2]; subst. inversion Hy as [|?? Hy1 Hy2]; subst.
  destruct (Hstep acc x y Hacc Hx1 Hy1) as (H1 & H2 & H3). cbn [map_acc].
  destruct (step acc x y) as [w acc'] eqn:Es. cbn [fst snd] in *.
  specialize (IH ys acc' H2 Hx2 Hy2 ltac:(by injection Hlen)). cbv zeta in IH.
  destruct (map_acc step xs ys acc') as [acc'' ws] eqn:Em. cbn [fst snd] in *. destruct IH as (I1 & I2 & I3 & I4).
  split; [done|]. split; [by constructor|]. rewrite !lenZ_cons, I3. split; [done|].
  cbn [words_value foldr]. fold (words_value ws) (words_value xs) (words_value ys).
  rewrite pow_64_S by apply lenZ_nonneg. nia.
Qed.
Lemma map_acc_sum (step : Z → Z → Z → Z * Z) (P : Z → Prop) σ τ :
  (∀ acc x y, P acc → fits 64 x → fits 64 y →
    fits 64 (step acc x y).1 ∧ P (step acc x y).2 ∧ (step acc x y).1 + σ * (2 ^ 64 * (step acc x y).2) = x + τ * y + σ * acc) →
  ∀ xs ys acc, P acc → Forall (fits 64) xs → Forall (fits 64) ys → length xs = length ys →
  let res := map_acc step xs ys acc in
  P res.1 ∧ Forall (fits 64) res.2 ∧ lenZ res.2 = lenZ xs ∧
  words_value res.2 + σ * (2 ^ (64 * lenZ xs) * res.1) = words_value xs + τ * words_value ys + σ * acc.
Proof.
  intros H xs ys acc Ha Hx Hy L. rewrite <-(Z.mul_1_l (words_value xs)). apply (map_acc_linear step P 1 σ τ); try done.
  intros. rewrite Z.mul_1_l. auto.
Qed.

Lemma bool_range (c : Z) : 0 <= c <= 1 ↔ c = 0 ∨ c = 1.
Proof. lia. Qed.

Lemma add_step_spec acc x y :
  0 <= acc <= 1 → fits 64 x → fits 64 y →
  fits 64 (add_step acc x y).1 ∧ 0 <= (add_step acc x y).2 <= 1 ∧
  (add_step acc x y).1 + 1 * (2 ^ 64 * (add_step acc x y).2) = x + 1 * y + 1 * acc.
Proof.
  intros Ha Hx Hy. unfold add_step, BN_BITS2. cbn [fst snd].
  assert (2 ^ 128 = 340282366920938463463374607431768211456) as E by reflexivity.
  split; [apply wrap_fits; lia|]. rewrite shiftr_div by lia. unfold fits, wrap in *. rewrite ?pow2_64, ?E in *. lia.
Qed.

Lemma sub_step_spec acc x y :
  0 <= acc <= 1 → fits 64 x → fits 64 y →
  fits 64 (sub_step acc x y).1 ∧ 0 <= (sub_step acc x y).2 <= 1 ∧
  (sub_step acc x y).1 + (-1) * (2 ^ 64 * (sub_step acc x y).2) = x + (-1) * y + (-1) * acc.
Proof.
  intros Ha Hx Hy. unfold sub_step. cbn [fst snd]. split; [apply wrap_fits; lia|].
  unfold fits, wrap in *. rewrite pow2_64 in *.
  destruct (Z.eqb_spec x y); cbn [negb]; [lia|]. destruct (Z.ltb_spec x y); lia.
Qed.

(** * Growing the array *)

Lemma length_as_words b : lenZ (as_words b) = lenZ b / 8.
Proof. unfold as_words, lenZ at 1. rewrite length_map, length_seq. pose proof (lenZ_nonneg b). rewrite Z2Nat.id; [done|]. apply Z.div_pos; lia. Qed.

Lemma mag_bound b : bn_wf b → 0 <= mag b < 2 ^ (64 * width b).
Proof.
  intros [Hw Hd _ Hf]. pose proof (words_value_bound _ Hf) as H. unfold mag. unfold words in H at 3.
  by rewrite lenZ_takeZ in H by lia.
Qed.

Section wexpand_facts.
Context {libc : Libc}.

(** There are, or can be, [n] words. *)
Definition can_hold (b : BIGNUM) (n : Z) : Prop :=
  n <= dmax b ∨ (n <= BN_MAX_WORDS ∧ flags b .& BN_FLG_STATIC_DATA = 0 ∧ is_Some (OPENSSL_malloc (8 * n))).

Lemma bn_wexpand_spec b n :
  bn_wf b → 0 <= n →
  match bn_wexpand b n with
  | Some b' => can_hold b n ∧ bn_wf b' ∧ width b' = width b ∧ neg b' = neg b ∧ words b' = words b ∧ n <= dmax b' ∧ flags b' = flags b
  | None => ¬ can_hold b n
  end.
Proof.
  intros Hwf Hn. pose proof Hwf as [Hw Hd Hm Hf]. unfold bn_wexpand, can_hold.
  destruct (Z.leb_spec n (dmax b)) as [Hle|Hgt]; [split; [by left|done]|]. change (INT_MAX / (4 * BN_BITS2)) with BN_MAX_WORDS.
  assert (BN_MAX_WORDS = 8388607) as EM by reflexivity.
  destruct (Z.ltb_spec BN_MAX_WORDS n); [lia|].
  destruct (Z.eqb_spec (flags b .& BN_FLG_STATIC_DATA) 0) as [Hs|Hs]; cbn [negb]; [|naive_solver lia].
  rewrite (wrap_small 64 (8 * n)) by (split; mlia).
  destruct (OPENSSL_malloc (8 * n)) as [a|] eqn:Ha; cbn [mbind option_bind]; [|intros [?|(_ & _ & [? ?])]; [lia|done]].
  apply OPENSSL_malloc_len in Ha as La; [|lia].
  assert (lenZ (as_words a) = n) as Lw by (rewrite length_as_words, La, Z.mul_comm, Z.div_mul; lia).
  assert (lenZ (takeZ (width b) (d b)) = width b) as Lt by (rewrite lenZ_takeZ; lia).
  assert (words {| d := write_at (as_words a) 0 (takeZ (width b) (d b)); width := width b; dmax := n; neg := neg b; flags := flags b |} = words b) as E.
  { unfold words. cbn [d width]. rewrite takeZ_write_at by lia. by rewrite takeZ_0. }
  split; [right; eauto|]. split; [|split; [done|split; [done|split; [exact E|done]]]].
  split; cbn [width dmax]; [lia| |lia|by rewrite E]. cbn [d]. rewrite lenZ_write_at; lia.
Qed.

Lemma wexpand_spec x n s :
  bn_wf (s !!! x) → 0 <= n →
  match wexpand x n s with
  | (Some _, s') => can_hold (s !!! x) n ∧ ∃ b', sets x b' s s' ∧
      bn_wf b' ∧ width b' = width (s !!! x) ∧ neg b' = neg (s !!! x) ∧ words b' = words (s !!! x) ∧ n <= dmax b' ∧ flags b' = flags (s !!! x)
  | (None, s') => s' = s ∧ ¬ can_hold (s !!! x) n
  end.
Proof.
  intros Hwf Hn. pose proof (bn_wexpand_spec _ n Hwf Hn) as H. unfold wexpand. destruct (bn_wexpand _ _) as [b'|]; [|done].
  destruct H as [Hc H]. split; [exact Hc|]. exists b'. split; [apply sets_insert|done].
Qed.
(** Room for the result leaves the operands as they were, also when one of them is the result. *)
Lemma make_room r n s :
  (∀ x, bn_wf (s !!! x)) → 0 <= n →
  match wexpand r n s with
  | (Some _, s') => ∃ b1, sets r b1 s s' ∧ bn_wf b1 ∧ n <= dmax b1 ∧ neg b1 = neg (s !!! r) ∧ width b1 = width (s !!! r) ∧ can_hold (s !!! r) n ∧
      ∀ x, takeZ (width (s !!! x)) (d (s' !!! x)) = words (s !!! x) ∧ width (s !!! x) <= lenZ (d (s' !!! x))
  | (None, s') => s' = s ∧ ¬ can_hold (s !!! r) n
  end.
Proof.
  intros Hwf Hn. pose proof (wexpand_spec r n s (Hwf r) Hn) as H. destruct (wexpand r n s) as [[|] s']; [|done].
  destruct H as (Hc & b1 & S & W & Hw & Hneg & Hwo & Hd & _). exists b1. do 6 (split; [done|]). intros x. rewrite (S x).
  destruct (decide (x = r)) as [->|]; [|by destruct (Hwf x) as [? -> _ _]; split; [|lia]].
  rewrite <-Hw. split; [exact Hwo|]. destruct W as [? -> _ _]. lia.
Qed.
End wexpand_facts.

(** * Width, bits *)

Lemma fold_lor_0 l z : Forall (fits 64) l → 0 <= z → fold_left Z.lor l z = 0 ↔ z = 0 ∧ Forall (λ w, w = 0) l.
Proof.
  intros Hl. revert z. induction Hl as [|w l Hw _ IH]; intros z Hz; cbn [fold_left]; [naive_solver|].
  unfold fits in Hw. rewrite IH by (apply Z.lor_nonneg; lia). rewrite Z.lor_eq_0_iff, Forall_cons. naive_solver.
Qed.

Lemma words_split b n : bn_wf b → 0 <= n <= width b → words b = takeZ n (d b) ++ takeZ (width b - n) (dropZ n (d b)).
Proof.
  intros [Hw Hd _ _] Hn. unfold words. rewrite <-(takeZ_dropZ n (takeZ (width b) (d b))) at 1.
  rewrite takeZ_takeZ, dropZ_takeZ by lia. done.
Qed.

Lemma fits_in_words_spec b n : bn_wf b → 0 <= n → bn_fits_in_words b n = (mag b <? 2 ^ (64 * n)).
Proof.
  intros Hwf Hn. pose proof (mag_bound b Hwf) as Hb. unfold bn_fits_in_words. apply eq_true_iff_eq. rewrite Z.eqb_eq, Z.ltb_lt.
  destruct (Z.le_gt_cases (width b) n) as [Hle|Hgt].
  { unfold takeZ. replace (Z.to_nat (width b - n)) with 0%nat by lia. cbn [take fold_left]. split; [|done]. intros _.
    eapply Z.lt_le_trans; [apply Hb|]. apply Z.pow_le_mono_r; lia. }
  pose proof Hwf as [Hw Hd _ Hf]. pose proof (words_split b n Hwf ltac:(lia)) as Es. rewrite Es in Hf. apply Forall_app in Hf as [Hf1 Hf2].
  rewrite fold_lor_0 by done. unfold mag. rewrite Es, words_value_app, lenZ_takeZ by lia.
  rewrite <-words_value_0 by done. pose proof (words_value_bound _ Hf1) as B1. rewrite lenZ_takeZ in B1 by lia.
  pose proof (words_value_bound _ Hf2) as B2. pose proof (pow_64_pos n Hn). split; [|nia]. intros [_ E]. rewrite E. lia.
Qed.

Lemma is_zero_spec b : bn_wf b → BN_is_zero b = (mag b =? 0).
Proof.
  intros Hwf. pose proof (mag_bound b Hwf). unfold BN_is_zero. rewrite fits_in_words_spec by done. change (2 ^ (64 * 0)) with 1.
  destruct (Z.ltb_spec (mag b) 1), (Z.eqb_spec (mag b) 0); lia.
Qed.

Lemma minimal_loop_spec l n :
  (n <= length l)%nat →
  (minimal_loop l n <= n)%nat ∧ words_value (take (minimal_loop l n) l) = words_value (take n l) ∧
  (minimal_loop l n ≠ 0%nat → nthZ l (Z.of_nat (minimal_loop l n) - 1) ≠ 0).
Proof.
  induction n as [|n IH]; intros Hn; cbn [minimal_loop]; [done|].
  destruct (Z.eqb_spec (nthZ l (Z.of_nat n)) 0) as [H0|H0].
  - destruct IH as (H1 & H2 & H3); [lia|]. split; [lia|]. split; [|done]. rewrite H2.
    unfold nthZ in H0. rewrite Nat2Z.id in H0. destruct (lookup_lt_is_Some_2 l n) as [x Hx]; [lia|].
    rewrite (nth_lookup_Some _ _ _ _ Hx) in H0. subst x. rewrite (take_S_r _ _ _ Hx), words_value_app. cbn. lia.
  - split; [done|]. split; [done|]. intros _. by replace (Z.of_nat (S n) - 1) with (Z.of_nat n) by lia.
Qed.

Lemma minimal_width_spec b :
  bn_wf b → 0 <= bn_minimal_width b <= width b ∧ words_value (takeZ (bn_minimal_width b) (d b)) = mag b ∧
    (bn_minimal_width b = 0 ↔ mag b = 0) ∧ (bn_minimal_width b ≠ 0 → word b (bn_minimal_width b - 1) ≠ 0).
Proof.
  intros Hwf. pose proof Hwf as [Hw Hd _ Hf]. unfold bn_minimal_width.
  destruct (minimal_loop_spec (d b) (Z.to_nat (width b))) as (H1 & H2 & H3); [unfold lenZ in Hd; lia|].
  set (m := minimal_loop _ _) in *. split; [lia|]. unfold takeZ at 1. rewrite Nat2Z.id, H2. split; [done|]. split; [|intros Hne; apply H3; lia].
  change (words_value (take (Z.to_nat (width b)) (d b))) with (mag b) in H2. split.
  - intros E. replace m with 0%nat in H2 by lia. by rewrite <-H2.
  - intros E. destruct m as [|m']; [done|exfalso]. rewrite E in H2. apply words_value_0 in H2.
    + destruct H3; [done|]. unfold nthZ. replace (Z.to_nat (Z.of_nat (S m') - 1)) with m' by lia.
      destruct (lookup_lt_is_Some_2 (d b) m') as [x Hx]; [unfold lenZ in Hd; lia|]. rewrite (nth_lookup_Some _ _ _ _ Hx).
      apply (Forall_lookup_1 _ _ m' x H2). rewrite lookup_take_lt by lia. done.
    + eapply Forall_take in Hf. unfold words, takeZ in Hf. rewrite take_take in Hf.
      replace (S m' `min` Z.to_nat (width b))%nat with (S m') in Hf by lia. exact Hf.
Qed.

(** ** Counting bits *)

(** The number of bits of a number; none for zero. *)
Definition bit_length (v : Z) : Z := if v =? 0 then 0 else Z.log2 v + 1.

Lemma all_ones_or_zero x : 0 <= x < 2 ^ 63 → u64 (0 - (u64 (0 - x) ≫ 63)) = if x =? 0 then 0 else 2 ^ 64 - 1.
Proof.
  intros Hx. assert (2 ^ 63 = 9223372036854775808) as E by reflexivity.
  rewrite shiftr_div by lia. unfold wrap. rewrite E, pow2_64 in *. destruct (Z.eqb_spec x 0); lia.
Qed.

Lemma num_bits_step_spec k bits l :
  0 < k <= 32 → 0 <= l < 2 ^ (2 * k) → 0 <= bits < 2 ^ 31 →
  num_bits_step k bits l = if l <? 2 ^ k then (bits, l) else (bits + k, l / 2 ^ k).
Proof.
  intros Hk Hl Hb. assert (2 ^ 31 = 2147483648) as E31 by reflexivity. rewrite E31 in Hb.
  replace (2 * k) with (k + k) in Hl by lia. rewrite Z.pow_add_r in Hl by lia.
  assert (0 < 2 ^ k) as Hp by (apply Z.pow_pos_nonneg; lia). assert (2 ^ k <= 2 ^ 32) as Hp' by (apply Z.pow_le_mono_r; lia).
  rewrite pow2_32 in Hp'.
  assert (0 <= l / 2 ^ k < 2 ^ k) as Hq by (split; [apply Z.div_pos; lia|apply Z.div_lt_upper_bound; lia]).
  unfold num_bits_step, BN_BITS2. change (64 - 1) with 63. rewrite (shiftr_div l) by lia.
  assert (2 ^ 63 = 9223372036854775808) as E63 by reflexivity.
  rewrite all_ones_or_zero by lia.
  destruct (Z.ltb_spec l (2 ^ k)) as [Hlt|Hge].
  - rewrite Z.div_small by lia. cbn [Z.eqb]. rewrite !Z.land_0_r, Z.lxor_0_r, Z.add_0_r. rewrite wrap_small by (split; mlia). done.
  - assert (0 < l / 2 ^ k) by (apply Z.div_str_pos; lia). rewrite (proj2 (Z.eqb_neq _ _)) by lia.
    assert (fits 64 k ∧ fits 64 (l / 2 ^ k) ∧ fits 64 l) as (F1 & F2 & F3) by (repeat split; rewrite ?pow2_64; nia).
    rewrite !land_mask, !(Z.mod_small _ (2 ^ 64)) by (lia || exact F1 || (apply fits_lxor; lia || done)).
    rewrite wrap_small by (split; mlia). f_equal.
    by rewrite (Z.lxor_comm (l / 2 ^ k)), <-Z.lxor_assoc, Z.lxor_nilpotent, Z.lxor_0_l.
Qed.

Lemma num_bits_step_log k bits l bits' l' :
  0 < k <= 32 → 0 <= l < 2 ^ (2 * k) → 0 <= bits <= 100 → num_bits_step k bits l = (bits', l') →
  0 <= l' < 2 ^ k ∧ (l' = 0 ↔ l = 0) ∧ bits' + Z.log2 l' = bits + Z.log2 l ∧ 0 <= bits' <= bits + k.
Proof.
  intros Hk Hl Hb. rewrite num_bits_step_spec by (try done; assert (2 ^ 31 = 2147483648) as -> by reflexivity; lia).
  assert (0 < 2 ^ k) as Hp by (apply Z.pow_pos_nonneg; lia).
  replace (2 * k) with (k + k) in Hl by lia. rewrite Z.pow_add_r in Hl by lia.
  destruct (Z.ltb_spec l (2 ^ k)); intros [= <- <-]; [lia|].
  assert (0 < l / 2 ^ k) by (apply Z.div_str_pos; lia).
  split; [split; [lia|apply Z.div_lt_upper_bound; lia]|]. split; [lia|].
  rewrite <-shiftr_div, Z.log2_shiftr by lia. split; [|lia].
  assert (k <= Z.log2 l) by (apply Z.log2_le_pow2; lia). lia.
Qed.

Lemma num_bits_word_spec l : fits 64 l → BN_num_bits_word l = bit_length l.
Proof.
  intros Hl. unfold BN_num_bits_word, bit_length. set (b0 := if l =? 0 then 0 else 1).
  destruct (num_bits_step 32 b0 l) as [b1 l1] eqn:E1. apply num_bits_step_log in E1 as (L1 & Z1 & S1 & B1);
    [|lia|change (2 ^ (2 * 32)) with (2 ^ 64); exact Hl|unfold b0; destruct (l =? 0); lia].
  assert (0 <= b0 <= 1) as Hb0 by (unfold b0; destruct (l =? 0); lia).
  destruct (num_bits_step 16 b1 l1) as [b2 l2] eqn:E2. apply num_bits_step_log in E2 as (L2 & Z2 & S2 & B2); [|lia|done|lia].
  destruct (num_bits_step 8 b2 l2) as [b3 l3] eqn:E3. apply num_bits_step_log in E3 as (L3 & Z3 & S3 & B3); [|lia|done|lia].
  destruct (num_bits_step 4 b3 l3) as [b4 l4] eqn:E4. apply num_bits_step_log in E4 as (L4 & Z4 & S4 & B4); [|lia|done|lia].
  destruct (num_bits_step 2 b4 l4) as [b5 l5] eqn:E5. apply num_bits_step_log in E5 as (L5 & Z5 & S5 & B5); [|lia|done|lia].
  destruct (num_bits_step 1 b5 l5) as [b6 l6] eqn:E6. apply num_bits_step_log in E6 as (L6 & Z6 & S6 & B6); [|lia|done|lia].
  change (2 ^ 1) with 2 in L6. assert (Z.log2 l6 = 0) as E0 by (assert (l6 = 0 ∨ l6 = 1) as [->| ->] by lia; done).
  unfold b0 in *. destruct (Z.eqb_spec l 0) as [->|]; [change (Z.log2 0) with 0 in *|]; lia.
Qed.

(** * The remaining functions *)

Lemma words_set_width b n : words (set_width n b) = takeZ n (d b).
Proof. done. Qed.

Lemma wf_narrow b n : bn_wf b → 0 <= n <= width b → bn_wf (set_width n b).
Proof.
  intros [Hw Hd Hm Hf] Hn. split; cbn [set_width width dmax d]; [lia|done|done|].
  rewrite words_set_width, <-(takeZ_takeZ n (width b)) by lia. by apply Forall_take.
Qed.

(** The last of the first [m] words. *)
Lemma take_snoc b m : bn_wf b → 0 < m <= width b → takeZ m (d b) = takeZ (m - 1) (d b) ++ [word b (m - 1)].
Proof.
  intros [W D M F] Hm. unfold takeZ, word, nthZ. destruct (lookup_lt_is_Some_2 (d b) (Z.to_nat (m - 1))) as [x Hx]; [unfold lenZ in D; lia|].
  rewrite (nth_lookup_Some _ _ _ _ Hx), <-(take_S_r _ _ _ Hx). f_equal. lia.
Qed.

Lemma prefix_words b m : bn_wf b → 0 <= m <= width b → Forall (fits 64) (takeZ m (d b)) ∧ lenZ (takeZ m (d b)) = m.
Proof. intros Hwf Hm. pose proof Hwf as [W D M F]. split; [apply (wf_narrow b m Hwf Hm)|rewrite lenZ_takeZ; lia]. Qed.

(** The magnitude by its top word. *)
Lemma top_word b (m := bn_minimal_width b) :
  bn_wf b → m ≠ 0 →
  let lo := words_value (takeZ (m - 1) (d b)) in
  0 <= lo < 2 ^ (64 * (m - 1)) ∧ 0 < word b (m - 1) < 2 ^ 64 ∧ mag b = lo + 2 ^ (64 * (m - 1)) * word b (m - 1).
Proof.
  intros Hwf Em lo. destruct (minimal_width_spec b Hwf) as (Hr & Hv & H0 & Htop). fold m in Hr, Hv, H0, Htop. specialize (Htop Em).
  destruct (prefix_words b m Hwf ltac:(lia)) as [Hfm _]. destruct (prefix_words b (m - 1) Hwf ltac:(lia)) as [Hfr Hlr].
  rewrite (take_snoc b m Hwf) in Hv, Hfm by lia. apply Forall_app in Hfm as [_ Hft]. apply Forall_cons in Hft as [Hft _].
  rewrite words_value_app, Hlr in Hv. cbn [words_value foldr] in Hv. fold lo in Hv.
  pose proof (words_value_bound _ Hfr) as Hbr. rewrite Hlr in Hbr. unfold fits in Hft. split; [done|]. split; lia.
Qed.

Lemma num_bits_spec b : bn_wf b → BN_num_bits b = bit_length (mag b).
Proof.
  intros Hwf. pose proof Hwf as [Hw Hd Hm Hf]. destruct (minimal_width_spec b Hwf) as (Hr & _ & H0 & _).
  pose proof (top_word b Hwf) as Ht. unfold BN_num_bits, bit_length. set (m := bn_minimal_width b) in *. unfold BN_BITS2.
  destruct (Z.eqb_spec m 0) as [Em|Em]; [by rewrite (proj2 (Z.eqb_eq _ _)) by tauto|].
  rewrite (proj2 (Z.eqb_neq (mag b) 0)) by tauto. destruct (Ht Em) as (Hlo & Htop & Hv).
  set (t := word b (m - 1)) in *. set (r := words_value (takeZ (m - 1) (d b))) in *.
  rewrite num_bits_word_spec by (split; lia). unfold bit_length. rewrite (proj2 (Z.eqb_neq t 0)) by lia.
  destruct (Z.log2_spec t) as [Hl1 Hl2]; [lia|]. pose proof (Z.log2_nonneg t).
  assert (Z.log2 (mag b) = 64 * (m - 1) + Z.log2 t) as ->.
  { apply Z.log2_unique; [lia|]. rewrite Hv.
    replace (Z.succ (64 * (m - 1) + Z.log2 t)) with (64 * (m - 1) + Z.succ (Z.log2 t)) by lia.
    rewrite !Z.pow_add_r by lia. nia. }
  assert (Z.log2 t < 64) by (apply Z.log2_lt_pow2; lia).
  assert (BN_MAX_WORDS = 8388607) as EM by reflexivity. rewrite wrap_small by (split; mlia). lia.
Qed.

Lemma set_minimal_width_spec b :
  bn_wf b → let b' := bn_set_minimal_width b in
  bn_wf b' ∧ bn_canonical b' ∧ mag b' = mag b ∧ bn_value b' = bn_value b ∧ width b' = bn_minimal_width b ∧
  (mag b ≠ 0 → neg b' = neg b).
Proof.
  intros Hwf b'. destruct (minimal_width_spec b Hwf) as (Hr & Hv & H0 & _). unfold b', bn_set_minimal_width.
  set (m := bn_minimal_width b) in *. cbn [set_width width].
  pose proof (wf_narrow b m Hwf Hr) as Hn. assert (mag (set_width m b) = mag b) as Em by done.
  destruct (Z.eqb_spec m 0) as [E|E].
  - assert (mag b = 0) as Z0 by tauto. split; [destruct Hn; by split|]. split; [done|]. split; [done|].
    split; [unfold bn_value; cbn [set_neg neg]; change (mag (set_neg false (set_width m b))) with (mag (set_width m b)); rewrite Em, Z0; by destruct (neg b)|].
    split; [done|]. by intros ?.
  - split; [done|]. split; [intros _; rewrite Em; tauto|]. split; [done|]. split; [unfold bn_value; by rewrite Em|done].
Qed.

Lemma write_words b ws n :
  bn_wf b → lenZ ws = n → n <= dmax b → Forall (fits 64) ws →
  let b' := set_width n (set_d (write_at (d b) 0 ws) b) in bn_wf b' ∧ words b' = ws.
Proof.
  intros [Hw Hd Hm Hf] Hl Hn Hws b'. pose proof (lenZ_nonneg ws).
  assert (words b' = ws) as E by (unfold words, b'; cbn [d width set_width set_d]; rewrite takeZ_write_at by lia; by rewrite takeZ_0).
  split; [|exact E]. split; [unfold b'; cbn; lia| |exact Hm|by rewrite E]. unfold b'. cbn [d dmax set_width set_d]. rewrite lenZ_write_at; lia.
Qed.

Lemma set_neg_wf n b : bn_wf b → bn_wf (set_neg n b).
Proof. intros [Hw Hd Hm Hf]. by split. Qed.

Lemma zero_wf b : bn_wf b → bn_wf (BN_zero b) ∧ mag (BN_zero b) = 0.
Proof.
  intros H. pose proof H as [W D M F]. split; [|done]. split; [cbn; lia|done|done|constructor].
Qed.

Lemma tail_zero r q p : 0 <= r → 0 <= q → 0 < p → r + p * q < p → q = 0.
Proof. nia. Qed.

Section bn_facts.
Context {libc : Libc}.

Lemma set_word_spec b w :
  bn_wf b → fits 64 w →
  match BN_set_word b w with
  | Some b' => bn_ok b' ∧ bn_value b' = w ∧ neg b' = false
  | None => ¬ can_hold b 1
  end.
Proof.
  intros Hwf Hw. unfold BN_set_word. destruct (Z.eqb_spec w 0) as [->|H0].
  { assert (bn_wf (BN_zero b)) as Hz.
    { apply set_neg_wf, wf_narrow; [done|]. destruct Hwf. lia. }
    split; [split; [done|done]|]. done. }
  pose proof (bn_wexpand_spec b 1 Hwf ltac:(lia)) as He. destruct (bn_wexpand b 1) as [b1|]; [|done].
  cbn [mbind option_bind]. destruct He as (_ & Hwf1 & _ & _ & _ & Hd1 & _).
  destruct (write_words b1 [w] 1 Hwf1 eq_refl Hd1 ltac:(by constructor)) as [W1 W2].
  assert (<[0%nat := w]> (d b1) = write_at (d b1) 0 [w]) as E.
  { change 0%nat with (Z.to_nat 0). apply insert_write_at. destruct Hwf1. lia. }
  cbn [set_neg d]. rewrite E.
  assert (bn_wf (set_width 1 (set_d (write_at (d b1) 0 [w]) (set_neg false b1)))) as Hwf2 by (destruct W1; by split).
  assert (mag (set_width 1 (set_d (write_at (d b1) 0 [w]) (set_neg false b1))) = w) as Em.
  { change (mag (set_width 1 (set_d (write_at (d b1) 0 [w]) b1)) = w). unfold mag. rewrite W2. cbn. lia. }
  split; [split; [done|done]|]. split; [|done]. unfold bn_value. cbn [set_width set_d set_neg neg]. exact Em.
Qed.

Lemma set_words_spec b ws :
  bn_wf b → Forall (fits 64) ws →
  match bn_set_words b ws with
  | Some b' => bn_ok b' ∧ bn_value b' = words_value ws ∧ width b' = lenZ ws
  | None => ¬ can_hold b (lenZ ws)
  end.
Proof.
  intros Hwf Hws. unfold bn_set_words. pose proof (bn_wexpand_spec b (lenZ ws) Hwf (lenZ_nonneg _)) as He.
  destruct (bn_wexpand b (lenZ ws)) as [b1|]; [|done]. cbn [mbind option_bind]. destruct He as (_ & Hwf1 & _ & _ & _ & Hd1 & _).
  destruct (write_words b1 ws (lenZ ws) Hwf1 eq_refl Hd1 Hws) as [W1 W2].
  split; [split; [by apply set_neg_wf|done]|]. split; [|done]. unfold bn_value. cbn [set_neg neg].
  change (mag (set_width (lenZ ws) (set_d (write_at (d b1) 0 ws) b1)) = words_value ws). unfold mag. by rewrite W2.
Qed.

(** The width changes and the value does not, or the value does not fit. *)
Lemma resize_words_spec b n :
  bn_wf b → 0 <= n →
  match bn_resize_words b n with
  | Some b' => bn_wf b' ∧ width b' = n ∧ mag b' = mag b ∧ neg b' = neg b
  | None => 2 ^ (64 * n) <= mag b ∨ ¬ can_hold b n
  end.
Proof.
  intros Hwf Hn. unfold bn_resize_words. destruct (Z.leb_spec (width b) n) as [Hle|Hgt].
  - pose proof (bn_wexpand_spec b n Hwf Hn) as He. destruct (bn_wexpand b n) as [b1|]; [|by right]. cbn [mbind option_bind].
    destruct He as (_ & Hwf1 & Hw1 & Hn1 & Hwo & Hd1 & _). pose proof Hwf1 as [W D Mx F].
    set (b' := set_width _ _). assert (words b' = words b ++ replicate (Z.to_nat (n - width b)) 0) as E.
    { unfold words at 1, b'. cbn [d width set_width set_d]. rewrite takeZ_write_at by (rewrite ?lenZ_replicate; lia).
      rewrite <-Hwo. unfold words. by rewrite Hw1. }
    split; [|split; [done|split; [|done]]].
    + split; [cbn; lia| |exact Mx|].
      * unfold b'. cbn [d dmax set_width set_d]. rewrite lenZ_write_at; rewrite ?lenZ_replicate; lia.
      * rewrite E. apply Forall_app. split; [apply Hwf|]. apply Forall_replicate. split; lia.
    + unfold mag. rewrite E, words_value_app, words_value_zeros. lia.
  - rewrite fits_in_words_spec by done. destruct (Z.ltb_spec (mag b) (2 ^ (64 * n))) as [Hlt|]; cbn [negb]; [|by left].
    split; [apply wf_narrow; [done|lia]|]. split; [done|]. split; [|done].
    pose proof (words_split b n Hwf ltac:(lia)) as Es. pose proof Hwf as [W D Mx F]. unfold mag in *. rewrite words_set_width.
    rewrite Es in Hlt |- *. rewrite Es in F. apply Forall_app in F as [F1 F2].
    rewrite words_value_app, lenZ_takeZ in * by lia. rewrite (tail_zero _ _ _ (proj1 (words_value_bound _ F1)) (proj1 (words_value_bound _ F2)) (pow_64_pos n Hn)); [lia|lia].
Qed.

Lemma copy_words_spec n b :
  bn_wf b → 0 <= n →
  match bn_copy_words n b with
  | Some out => lenZ out = n ∧ Forall (fits 64) out ∧ words_value out = bn_value b ∧ neg b = false
  | None => neg b = true ∨ 2 ^ (64 * n) <= bn_value b
  end.
Proof.
  intros Hwf Hn. unfold bn_copy_words, bn_value. destruct (neg b); [by left|]. pose proof Hwf as [W D Mx F].
  destruct (Z.ltb_spec n (width b)) as [Hlt|Hge].
  - rewrite fits_in_words_spec by done. destruct (Z.ltb_spec (mag b) (2 ^ (64 * n))) as [Hm|]; [|by right].
    split; [rewrite lenZ_takeZ; lia|]. pose proof (wf_narrow b n Hwf ltac:(lia)) as [_ _ _ F'].
    split; [exact F'|]. split; [|done]. pose proof (words_split b n Hwf ltac:(lia)) as Es. unfold mag in *.
    rewrite Es in Hm |- *. rewrite Es in F. apply Forall_app in F as [F1 F2].
    rewrite words_value_app, lenZ_takeZ in * by lia. rewrite (tail_zero _ _ _ (proj1 (words_value_bound _ F1)) (proj1 (words_value_bound _ F2)) (pow_64_pos n Hn)); [lia|lia].
  - rewrite lenZ_app, lenZ_takeZ, lenZ_replicate by lia. split; [lia|]. rewrite words_value_app, words_value_zeros.
    split; [|split; [unfold mag, words; lia|done]]. apply Forall_app. split; [done|]. apply Forall_replicate. split; lia.
Qed.

Lemma copy_wf_spec dest src s :
  bn_wf (s !!! dest) → bn_wf (s !!! src) →
  match BN_copy dest src s with
  | (Some _, s') => ∃ b', sets dest b' s s' ∧ bn_wf b' ∧ words b' = words (s !!! src) ∧ neg b' = neg (s !!! src) ∧ width b' = width (s !!! src)
  | (None, s') => s' = s ∧ ¬ can_hold (s !!! dest) (width (s !!! src))
  end.
Proof.
  intros Hd Hs. unfold BN_copy. destruct (decide (src = dest)) as [->|Hne].
  { exists (s !!! dest). split; [apply sets_refl|]. done. }
  unfold mbind, M_bind, getS, modifyS. cbn beta iota.
  pose proof (wexpand_spec dest (width (s !!! src)) s Hd ltac:(destruct Hs; lia)) as He.
  destruct (wexpand dest (width (s !!! src)) s) as [[|] s1]; [|done]. destruct He as (_ & b1 & S1 & Hwf1 & _ & _ & _ & Hd1 & _).
  rewrite (sets_ne _ _ _ _ _ S1 Hne).
  set (f1 := λ b, set_d (write_at (d b) 0 (takeZ (width (s !!! src)) (d (s !!! src)))) b).
  set (f2 := λ b, set_neg (neg (s !!! src)) (set_width (width (s !!! src)) b)).
  exists (f2 (f1 b1)). split.
  { pose proof (sets_upd dest f1 s1) as S2. rewrite (sets_at _ _ _ _ S1) in S2.
    pose proof (sets_upd dest f2 (upd dest f1 s1)) as S3. rewrite (sets_at _ _ _ _ S2) in S3.
    eapply sets_trans; [exact S1|]. eapply sets_trans; [exact S2|exact S3]. }
  pose proof Hs as [W D Mx F].
  destruct (write_words b1 (words (s !!! src)) (width (s !!! src)) Hwf1) as [W1 W2];
    [unfold words; rewrite lenZ_takeZ; lia|done|done|].
  assert (words (f2 (f1 b1)) = words (s !!! src)) as E by exact W2.
  split; [by apply set_neg_wf|]. done.
Qed.

Lemma copy_spec dest src s :
  bn_wf (s !!! dest) → bn_ok (s !!! src) →
  match BN_copy dest src s with
  | (Some _, s') => ∃ b', sets dest b' s s' ∧ bn_ok b' ∧ words b' = words (s !!! src) ∧ neg b' = neg (s !!! src)
  | (None, s') => s' = s ∧ ¬ can_hold (s !!! dest) (width (s !!! src))
  end.
Proof.
  intros Hd [Hs Hc]. pose proof (copy_wf_spec dest src s Hd Hs) as H. destruct (BN_copy dest src s) as [[|] s']; [|done].
  destruct H as (b' & S & W & E & N & _). exists b'. split; [done|]. split; [|done]. split; [done|]. unfold bn_canonical, mag. rewrite E, N. exact Hc.
Qed.
End bn_facts.

(** A number from its words. *)
Definition bn_of (n : bool) (l : list Z) : BIGNUM := {| d := l; width := lenZ l; dmax := lenZ l; neg := n; flags := BN_FLG_MALLOCED |}.


Lemma bn_of_ok n l :
  Forall (fits 64) l → lenZ l <= BN_MAX_WORDS → (n = true → words_value l ≠ 0) → bn_ok (bn_of n l).
Proof.
  intros Hl Hm Hn. pose proof (lenZ_nonneg l). assert (words (bn_of n l) = l) as E by (unfold words, bn_of; cbn; by apply takeZ_all).
  split; [|unfold bn_canonical, mag; by rewrite E]. split; cbn [bn_of width dmax d]; [lia|done|done|by rewrite E].
Qed.

(** * Words and values *)

Lemma words_value_cons w l : words_value (w :: l) = w + 2 ^ 64 * words_value l.
Proof. done. Qed.

(** Dropping words divides. *)
Lemma words_value_drop l k :
  Forall (fits 64) l → 0 <= k <= lenZ l → words_value (dropZ k l) = words_value l / 2 ^ (64 * k).
Proof.
  intros Hl Hk. rewrite <-(takeZ_dropZ k l) at 2. rewrite words_value_app, lenZ_takeZ by lia.
  pose proof (words_value_bound (takeZ k l) ltac:(by apply Forall_take)) as B. rewrite lenZ_takeZ in B by lia.
  rewrite Z.mul_comm, Z.div_add by (pose proof (pow_64_pos k); lia). rewrite Z.div_small by done. done.
Qed.

Lemma takeZ_snoc (l : list Z) m : 0 < m <= lenZ l → takeZ m l = takeZ (m - 1) l ++ [nthZ l (m - 1)].
Proof.
  intros Hm. unfold takeZ, nthZ. destruct (lookup_lt_is_Some_2 l (Z.to_nat (m - 1))) as [x Hx]; [unfold lenZ in Hm; lia|].
  rewrite (nth_lookup_Some _ _ _ _ Hx), <-(take_S_r _ _ _ Hx). f_equal. lia.
Qed.

Lemma words_front b ws R n :
  bn_wf b → lenZ ws = n → lenZ (ws ++ R) = dmax b → Forall (fits 64) ws →
  let b' := set_width n (set_d (ws ++ R) b) in bn_wf b' ∧ words b' = ws.
Proof.
  intros [W D M F] L LR Hws b'. pose proof (lenZ_nonneg ws). pose proof (lenZ_nonneg R). rewrite lenZ_app in LR.
  assert (words b' = ws) as E by (unfold words, b'; cbn [d width set_width set_d]; by apply takeZ_app).
  split; [|exact E]. split; [unfold b'; cbn; lia| |exact M|by rewrite E]. unfold b'. cbn [d dmax set_width set_d]. rewrite lenZ_app. lia.
Qed.

Lemma lenZ_bn_words b : bn_wf b → lenZ (words b) = width b.
Proof. intros [W D _ _]. unfold words. rewrite lenZ_takeZ; lia. Qed.

Lemma words_testbit l m :
  Forall (fits 64) l → 0 <= m → Z.testbit (words_value l) m = Z.testbit (nthZ l (m / 64)) (m mod 64).
Proof.
  intros Hl. revert m. induction Hl as [|w l Hw Hl IH]; intros m Hm.
  { unfold nthZ. rewrite nth_lookup, lookup_nil. cbn [default]. change (words_value []) with 0. by rewrite !Z.bits_0. }
  rewrite words_value_cons, Z.add_comm, Z.mul_comm. destruct (Z.ltb_spec m 64).
  - rewrite <-(Z.mod_pow2_bits_low _ 64), Z.add_comm, Z.mod_add by (done || lia). rewrite Z.mod_pow2_bits_low, Z.div_small, Z.mod_small by lia. done.
  - replace m with ((m - 64) + 64) at 1 by lia. rewrite <-Z.div_pow2_bits, Z.add_comm, Z.div_add by (done || lia).
    unfold fits in Hw. rewrite Z.div_small by done. rewrite Z.add_0_l, IH by lia.
    replace (m / 64) with (1 + (m - 64) / 64) by lia. replace ((m - 64) mod 64) with (m mod 64) by lia.
    unfold nthZ. rewrite (Z2Nat.inj_add 1) by lia. done.
Qed.

Lemma word_testbit b i j :
  bn_wf b → 0 <= i < width b → 0 <= j < 64 → Z.testbit (word b i) j = Z.testbit (mag b) (64 * i + j).
Proof.
  intros [W D M F] Hi Hj. unfold mag. rewrite words_testbit by (done || lia).
  replace ((64 * i + j) / 64) with i by lia. replace ((64 * i + j) mod 64) with j by lia. f_equal.
  unfold word, words, nthZ, takeZ. rewrite !nth_lookup, lookup_take_lt by lia. done.
Qed.

(** * Concrete stores *)

Lemma store_wf (s : bns) : map_Forall (λ _ b, bn_wf b) s → ∀ x, bn_wf (s !!! x).
Proof.
  intros H x. rewrite lookup_total_alt. destruct (s !! x) as [b|] eqn:E; [by apply (H x b)|].
  split; [done|done|by vm_compute|constructor].
Qed.

Lemma calloc_room b n : flags b .& BN_FLG_STATIC_DATA = 0 → 0 <= n <= BN_MAX_WORDS → can_hold (libc := calloc_libc) b n.
Proof.
  intros Hf Hn. assert (BN_MAX_WORDS = 8388607) as EM by reflexivity. right. split; [lia|]. split; [done|].
  unfold OPENSSL_malloc, OPENSSL_MALLOC_PREFIX. rewrite (wrap_small 64) by (split; mlia).
  rewrite (proj2 (Z.ltb_ge _ _)) by lia. unfold malloc. cbn [calloc_libc]. rewrite (proj2 (Z.leb_le _ _)) by lia. by eexists.
Qed.
