(* ===== verification/BnCmp.v ===== *)
(** Comparing big numbers:
    src/HolyWater-Test/Pods/BoringSSL-GRPC/src/crypto/fipsmodule/bn/cmp.c. *)
From stdpp Require Import gmap.
From S2P Require Import Prelude Mem ConstTime Bn.

Open Scope Z_scope.

(** * The code *)

Definition cmp_turn (ret : Z) (ab : Z * Z) : Z :=
  let eq := constant_time_eq_w ab.1 ab.2 in
  let lt := constant_time_lt_w ab.1 ab.2 in
  constant_time_select_int eq ret (constant_time_select_int lt (-1) 1).
Definition bn_cmp_words_consttime (a b : list Z) : Z :=
  let ret := fold_left cmp_turn (zip a b) 0 in
  if lenZ a <? lenZ b then
    let mask := fold_left Z.lor (dropZ (lenZ a) b) 0 in
    constant_time_select_int (constant_time_is_zero_w mask) ret (-1)
  else if lenZ b <? lenZ a then
    let mask := fold_left Z.lor (dropZ (lenZ b) a) 0 in
    constant_time_select_int (constant_time_is_zero_w mask) ret 1
  else ret.

Definition BN_ucmp (a b : BIGNUM) : Z := bn_cmp_words_consttime (words a) (words b).
Definition BN_cmp (a b : option BIGNUM) : Z :=
  match a, b with
  | Some a, Some b =>
      if negb (eqb (neg a) (neg b)) then (if neg a then -1 else 1)
      else let ret := BN_ucmp a b in if neg a then - ret else ret
  | Some _, None => -1
  | None, Some _ => 1
  | None, None => 0
  end.
Definition bn_less_than_words (a b : list Z) : bool := bn_cmp_words_consttime a b <? 0.

Definition BN_abs_is_word (bn : BIGNUM) (w : Z) : bool :=
  if width bn =? 0 then w =? 0
  else fold_left Z.lor (takeZ (width bn - 1) (dropZ 1 (d bn))) (word bn 0 .^ w) =? 0.
Definition BN_cmp_word (a : BIGNUM) (b : Z) : Z :=
  BN_cmp (Some a) (Some {| d := [b]; width := if 0 <? b then 1 else 0; dmax := 1; neg := false; flags := BN_FLG_STATIC_DATA |}).
Definition BN_is_one (bn : BIGNUM) : bool := negb (neg bn) && BN_abs_is_word bn 1.
Definition BN_is_word (bn : BIGNUM) (w : Z) : bool := BN_abs_is_word bn w && ((w =? 0) || negb (neg bn)).
Definition BN_is_odd (bn : BIGNUM) : bool := (0 <? width bn) && (word bn 0 .& 1 =? 1).
Definition BN_is_pow2 (bn : BIGNUM) : bool :=
  let width := bn_minimal_width bn in
  if (width =? 0) || neg bn then false
  else if negb (forallb (λ w, w =? 0) (takeZ (width - 1) (d bn))) then false
  else 0 =? (word bn (width - 1) .& u64 (word bn (width - 1) - 1)).

Definition BN_equal_consttime (a b : BIGNUM) : bool :=
  let mask := fold_left Z.lor (takeZ (width b - width a) (dropZ (width a) (d b))) 0 in
  let mask := fold_left Z.lor (takeZ (width a - width b) (dropZ (width b) (d a))) mask in
  let mask := fold_left (λ mask ab, mask .| (ab.1 .^ ab.2)) (zip (words a) (words b)) mask in
  (mask .| (Z.b2z (neg a) .^ Z.b2z (neg b))) =? 0.

(** * What they compute *)

(** The sign of a comparison. *)
Definition cmp_sign (x y : Z) : Z := if x <? y then -1 else if x =? y then 0 else 1.

Lemma select_int_spec c a b :
  - 2 ^ 31 <= a < 2 ^ 31 → - 2 ^ 31 <= b < 2 ^ 31 → constant_time_select_int (mask_of c) a b = if c then a else b.
Proof.
  intros Ha Hb. unfold constant_time_select_int. rewrite select_w_spec by (apply wrap_fits; lia).
  destruct c; by apply to_int_u64.
Qed.

Lemma cmp_words_common xs ys ret :
  - 1 <= ret <= 1 → Forall (fits 64) xs → Forall (fits 64) ys → length xs = length ys →
  fold_left cmp_turn (zip xs ys) ret = if words_value xs =? words_value ys then ret else cmp_sign (words_value xs) (words_value ys).
Proof.
  intros Hr Hx. revert ys ret Hr. induction Hx as [|x xs Hx Hxs IH]; intros ys ret Hr Hy Hlen; destruct Hy as [|y ys Hy Hys]; try done.
  cbn [zip zip_with fold_left words_value foldr]. fold (words_value xs) (words_value ys). fold (zip xs ys).
  assert (2 ^ 31 = 2147483648) as E31 by reflexivity.
  unfold cmp_turn at 2. cbn [fst snd]. rewrite eq_w_spec, lt_w_spec, !select_int_spec by (done || (rewrite E31; lia) || (rewrite select_int_spec; rewrite E31; destruct (x <? y); lia)).
  rewrite IH; [|destruct (x =? y), (x <? y); lia|done|by injection Hlen].
  unfold cmp_sign, fits in *. rewrite pow2_64 in *.
  destruct (Z.eqb_spec (words_value xs) (words_value ys)) as [->|Hne].
  - destruct (Z.eqb_spec x y) as [->|]; [by rewrite Z.eqb_refl|].
    rewrite (proj2 (Z.eqb_neq _ _)) by lia. destruct (Z.ltb_spec x y); destruct (Z.ltb_spec (x + 18446744073709551616 * words_value ys) (y + 18446744073709551616 * words_value ys)); lia.
  - rewrite (proj2 (Z.eqb_neq _ _)) by lia.
    destruct (Z.ltb_spec (words_value xs) (words_value ys)), (Z.ltb_spec (x + 18446744073709551616 * words_value xs) (y + 18446744073709551616 * words_value ys)); lia.
Qed.

Lemma cmp_sign_range x y : -1 <= cmp_sign x y <= 1.
Proof. unfold cmp_sign. destruct (x <? y), (x =? y); lia. Qed.
Lemma cmp_sign_opp x y : cmp_sign y x = - cmp_sign x y.
Proof. unfold cmp_sign. destruct (Z.ltb_spec x y), (Z.eqb_spec x y), (Z.ltb_spec y x), (Z.eqb_spec y x); lia. Qed.

Lemma zip_take {A B} (l : list A) (k : list B) : zip l k = zip l (take (length l) k).
Proof. revert k. induction l as [|x l IH]; intros [|y k]; cbn; [done..|]. by rewrite <-IH. Qed.
Lemma zip_take_r {A B} (l : list A) (k : list B) : zip l k = zip (take (length k) l) k.
Proof. revert k. induction l as [|x l IH]; intros [|y k]; cbn; [done..|]. by rewrite <-IH. Qed.

(** Splitting off the words beyond the length of the other operand. *)
Lemma excess l k :
  Forall (fits 64) l → Forall (fits 64) k → lenZ k <= lenZ l →
  let hi := fold_left Z.lor (dropZ (lenZ k) l) 0 in
  fits 64 hi ∧ Forall (fits 64) (take (length k) l) ∧ length (take (length k) l) = length k ∧
  (hi = 0 → words_value (take (length k) l) = words_value l) ∧ (hi ≠ 0 → words_value k < words_value l).
Proof.
  intros Hl Hk Hlen hi. assert (l = take (length k) l ++ dropZ (lenZ k) l) as El.
  { unfold dropZ, lenZ. rewrite Nat2Z.id. by rewrite take_drop. }
  pose proof Hl as Hl'. rewrite El in Hl'. apply Forall_app in Hl' as [H1 H2].
  assert (length (take (length k) l) = length k) as Hlk by (rewrite length_take; unfold lenZ in Hlen; lia).
  assert (fits 64 hi) as Hf.
  { unfold hi. assert (fits 64 0) as F0 by decide_now. revert F0. generalize 0. clear -H2.
    induction H2 as [|w l' Hw _ IH]; intros z Hz; [done|]. apply IH, fits_lor; [lia|done|done]. }
  split; [done|]. split; [done|]. split; [done|].
  pose proof (fold_lor_0 _ 0 H2 ltac:(lia)) as H0. fold hi in H0. rewrite <-words_value_0 in H0 by done.
  pose proof (words_value_app (take (length k) l) (dropZ (lenZ k) l)) as Ev. rewrite <-El in Ev.
  unfold lenZ at 1 in Ev. rewrite Hlk in Ev. fold (lenZ k) in Ev.
  pose proof (words_value_bound _ H1) as B1. pose proof (words_value_bound _ H2) as B2. pose proof (words_value_bound _ Hk) as Bk.
  pose proof (pow_64_pos (lenZ k) (lenZ_nonneg k)). split.
  - intros E. apply H0 in E as [_ E]. rewrite E in Ev. lia.
  - intros E. assert (words_value (dropZ (lenZ k) l) ≠ 0) by tauto. nia.
Qed.

Lemma cmp_words_spec a b :
  Forall (fits 64) a → Forall (fits 64) b → bn_cmp_words_consttime a b = cmp_sign (words_value a) (words_value b).
Proof.
  intros Ha Hb. assert (2 ^ 31 = 2147483648) as E31 by reflexivity.
  assert (∀ xs ys, Forall (fits 64) xs → Forall (fits 64) ys → length xs = length ys →
    fold_left cmp_turn (zip xs ys) 0 = cmp_sign (words_value xs) (words_value ys)) as Hc.
  { intros xs ys Hx Hy Hl. rewrite cmp_words_common by (done || lia). unfold cmp_sign.
    destruct (Z.eqb_spec (words_value xs) (words_value ys)) as [->|]; [by rewrite Z.ltb_irrefl|done]. }
  unfold bn_cmp_words_consttime. destruct (Z.ltb_spec (lenZ a) (lenZ b)) as [Hlt|Hge]; [|destruct (Z.ltb_spec (lenZ b) (lenZ a)) as [Hgt|Heq]].
  - destruct (excess b a Hb Ha ltac:(lia)) as (Hf & H1 & H2 & H3 & H4). rewrite zip_take, Hc by done.
    rewrite is_zero_w_spec by done. pose proof (cmp_sign_range (words_value a) (words_value (take (length a) b))).
    rewrite select_int_spec by (rewrite E31; lia). destruct (Z.eqb_spec (fold_left Z.lor (dropZ (lenZ a) b) 0) 0) as [E|E].
    + by rewrite H3.
    + specialize (H4 E). unfold cmp_sign. by rewrite (proj2 (Z.ltb_lt _ _)) by lia.
  - destruct (excess a b Ha Hb ltac:(lia)) as (Hf & H1 & H2 & H3 & H4). rewrite zip_take_r, Hc by done.
    rewrite is_zero_w_spec by done. pose proof (cmp_sign_range (words_value (take (length b) a)) (words_value b)).
    rewrite select_int_spec by (rewrite E31; lia). destruct (Z.eqb_spec (fold_left Z.lor (dropZ (lenZ b) a) 0) 0) as [E|E].
    + by rewrite H3.
    + specialize (H4 E). unfold cmp_sign. rewrite (proj2 (Z.ltb_ge _ _)), (proj2 (Z.eqb_neq _ _)) by lia. done.
  - apply Hc; [done|done|unfold lenZ in *; lia].
Qed.

Lemma ucmp_spec a b : bn_wf a → bn_wf b → BN_ucmp a b = cmp_sign (mag a) (mag b).
Proof. intros Ha Hb. apply cmp_words_spec; [apply Ha|apply Hb]. Qed.

Lemma cmp_spec a b : bn_ok a → bn_ok b → BN_cmp (Some a) (Some b) = cmp_sign (bn_value a) (bn_value b).
Proof.
  intros [Ha Ca] [Hb Cb]. unfold BN_cmp, bn_canonical in *. rewrite ucmp_spec by done. unfold bn_value.
  pose proof (mag_bound a Ha). pose proof (mag_bound b Hb).
  destruct (neg a), (neg b); cbn [eqb negb]; unfold cmp_sign.
  - destruct (Z.ltb_spec (mag a) (mag b)), (Z.eqb_spec (mag a) (mag b)), (Z.ltb_spec (- mag a) (- mag b)), (Z.eqb_spec (- mag a) (- mag b)); lia.
  - specialize (Ca eq_refl). rewrite (proj2 (Z.ltb_lt _ _)) by lia. done.
  - specialize (Cb eq_refl). rewrite (proj2 (Z.ltb_ge _ _)), (proj2 (Z.eqb_neq _ _)) by lia. done.
  - done.
Qed.

Lemma first_word b : bn_wf b → 0 < width b → words b = word b 0 :: takeZ (width b - 1) (dropZ 1 (d b)).
Proof.
  intros [W D M F] Hw. unfold words, word. pose proof (take_drop_nth (d b) 0 (Z.to_nat (width b - 1)) ltac:(lia) ltac:(lia)) as E.
  rewrite dropZ_0 in E. replace (Z.of_nat (S (Z.to_nat (width b - 1)))) with (width b) in E by lia.
  rewrite Z2Nat.id in E by lia. exact E.
Qed.

Lemma abs_is_word_spec b w : bn_wf b → fits 64 w → BN_abs_is_word b w = (mag b =? w).
Proof.
  intros Hwf Hw. pose proof (mag_bound b Hwf) as Hb. unfold BN_abs_is_word. destruct (Z.eqb_spec (width b) 0) as [E|E].
  { rewrite E in Hb. change (2 ^ (64 * 0)) with 1 in Hb. replace (mag b) with 0 by lia. by rewrite Z.eqb_sym. }
  pose proof Hwf as [W D M F]. unfold mag. rewrite (first_word b Hwf) in F |- * by lia. apply Forall_cons in F as [F1 F2].
  pose proof (words_value_bound _ F2) as B2. apply eq_true_iff_eq. rewrite !Z.eqb_eq.
  rewrite fold_lor_0 by (done || (apply Z.lxor_nonneg; unfold fits in *; lia)). rewrite Z.lxor_eq_0_iff, <-words_value_0 by done.
  cbn [words_value foldr]. fold (words_value (takeZ (width b - 1) (dropZ 1 (d b)))).
  unfold fits in *. rewrite pow2_64 in *. lia.
Qed.

Lemma is_odd_spec b : bn_wf b → BN_is_odd b = Z.odd (mag b).
Proof.
  intros Hwf. unfold BN_is_odd. pose proof Hwf as [W D M F]. destruct (Z.ltb_spec 0 (width b)) as [Hw|Hw]; cbn [andb].
  - unfold mag. rewrite (first_word b Hwf) by lia. cbn [words_value foldr].
    change (word b 0 .& 1) with (word b 0 .& (2 ^ 1 - 1)). rewrite land_mask by lia. change (2 ^ 1) with 2.
    rewrite Z.odd_add, Z.odd_mul. change (Z.odd (2 ^ 64)) with false. cbn [andb]. rewrite xorb_false_r, Zodd_mod. done.
  - pose proof (mag_bound b Hwf) as Hb. replace (width b) with 0 in Hb by lia. change (2 ^ (64 * 0)) with 1 in Hb.
    by replace (mag b) with 0 by lia.
Qed.

Lemma is_word_spec b w : bn_ok b → fits 64 w → BN_is_word b w = (bn_value b =? w).
Proof.
  intros [Hwf Hc] Hw. unfold BN_is_word, bn_value, bn_canonical in *. rewrite abs_is_word_spec by done.
  pose proof (mag_bound b Hwf) as Hb. unfold fits in Hw. destruct (neg b).
  - specialize (Hc eq_refl). rewrite orb_false_r. destruct (Z.eqb_spec (mag b) w), (Z.eqb_spec w 0), (Z.eqb_spec (- mag b) w); cbn; lia.
  - by rewrite orb_true_r, andb_true_r.
Qed.

Lemma cmp_word_spec b w : bn_ok b → fits 64 w → BN_cmp_word b w = cmp_sign (bn_value b) w.
Proof.
  intros Hb Hw. unfold BN_cmp_word. set (c := {| d := [w] |}).
  assert (words c = if 0 <? w then [w] else []) as Ec by (unfold words, c; cbn [d width]; by destruct (0 <? w)).
  assert (mag c = w) as Em by (unfold mag; rewrite Ec; unfold fits in Hw; destruct (Z.ltb_spec 0 w); cbn; lia).
  rewrite cmp_spec; [change (bn_value c) with (mag c); by rewrite Em|done|]. split; [|done]. split.
  - unfold c. cbn [width dmax]. by destruct (0 <? w).
  - done.
  - done.
  - rewrite Ec. destruct (0 <? w); [constructor; [done|]|]; constructor.
Qed.

Lemma fold_xor_0 (xs ys : list Z) z :
  Forall (fits 64) xs → Forall (fits 64) ys → length xs = length ys → 0 <= z →
  0 <= fold_left (λ mask ab, mask .| (ab.1 .^ ab.2)) (zip xs ys) z ∧
  (fold_left (λ mask ab, mask .| (ab.1 .^ ab.2)) (zip xs ys) z = 0 ↔ z = 0 ∧ xs = ys).
Proof.
  intros Hx. revert ys z. induction Hx as [|x xs Hx _ IH]; intros ys z Hy Hl Hz; destruct Hy as [|y ys Hy Hys]; try done.
  { cbn. naive_solver. }
  cbn [zip zip_with fold_left fst snd]. assert (0 <= x .^ y) by (apply Z.lxor_nonneg; unfold fits in *; lia).
  destruct (IH ys (z .| (x .^ y)) Hys ltac:(by injection Hl) ltac:(by apply Z.lor_nonneg)) as [H1 H2].
  split; [exact H1|]. unfold zip in H2. rewrite H2, Z.lor_eq_0_iff, Z.lxor_eq_0_iff. naive_solver.
Qed.

Lemma fold_lor_nonneg l z : Forall (fits 64) l → 0 <= z → 0 <= fold_left Z.lor l z.
Proof.
  intros Hl. revert z. induction Hl as [|w l Hw _ IH]; intros z Hz; [done|]. apply IH, Z.lor_nonneg. unfold fits in Hw. lia.
Qed.

(** The words beyond those of the other operand, as the loop finds them. *)
Lemma beyond a n : bn_wf a → 0 <= n → takeZ (width a - n) (dropZ n (d a)) = dropZ n (words a).
Proof.
  intros [W D M F] Hn. unfold words. destruct (Z.le_gt_cases n (width a)).
  - by rewrite dropZ_takeZ by lia.
  - rewrite (dropZ_all (takeZ _ _)) by (rewrite lenZ_takeZ; lia). unfold takeZ. by replace (Z.to_nat (width a - n)) with 0%nat by lia.
Qed.

Lemma equal_spec a b : bn_ok a → bn_ok b → BN_equal_consttime a b = (bn_value a =? bn_value b).
Proof.
  intros [Ha Ca] [Hb Cb]. pose proof Ha as [Wa Da Ma Fa]. pose proof Hb as [Wb Db Mb Fb].
  pose proof (mag_bound a Ha) as Ba. pose proof (mag_bound b Hb) as Bb.
  assert (lenZ (words a) = width a ∧ lenZ (words b) = width b) as [La Lb] by (unfold words; rewrite !lenZ_takeZ; lia).
  unfold BN_equal_consttime. rewrite !beyond by (done || lia). rewrite <-La, <-Lb.
  assert (Forall (fits 64) (dropZ (lenZ (words a)) (words b)) ∧ Forall (fits 64) (dropZ (lenZ (words b)) (words a))) as [G1 G2]
    by (split; by apply Forall_drop).
  set (m1 := fold_left Z.lor (dropZ (lenZ (words a)) (words b)) 0).
  set (m2 := fold_left Z.lor (dropZ (lenZ (words b)) (words a)) m1).
  assert (0 <= m1) as N1 by by apply fold_lor_nonneg. assert (0 <= m2) as N2 by by apply fold_lor_nonneg.
  assert (m2 = 0 ↔ m1 = 0 ∧ Forall (λ w, w = 0) (dropZ (lenZ (words b)) (words a))) as Z2 by by apply fold_lor_0.
  set (m3 := fold_left _ (zip (words a) (words b)) m2).
  assert (0 <= m3 ∧ (m3 = 0 ↔ m2 = 0 ∧ take (length (words b)) (words a) = take (length (words a)) (words b))) as [N3 Z3].
  { unfold m3. rewrite zip_take, zip_take_r.
    replace (take (length (take (length (words a)) (words b))) (words a)) with (take (length (words b)) (words a)).
    - apply fold_xor_0; [by apply Forall_take..| |done]. rewrite !length_take. lia.
    - rewrite length_take. destruct (Nat.le_ge_cases (length (words a)) (length (words b))).
      + rewrite !take_ge by lia. done.
      + f_equal. lia. }
  assert (m3 = 0 ↔ mag a = mag b) as Z4.
  { rewrite Z3. unfold mag. destruct (Z.le_ge_cases (lenZ (words a)) (lenZ (words b))) as [Hle|Hge].
    - destruct (excess _ _ Fb Fa Hle) as (_ & H1 & H2 & H3 & H4). fold m1 in H3, H4.
      rewrite Z2, (dropZ_all (words a)), take_ge by (unfold lenZ in *; lia). split.
      + intros [[E _] ->]. by rewrite H3.
      + intros E. destruct (Z.eq_dec m1 0) as [E1|E1]; [|specialize (H4 E1); lia]. split; [split; [done|constructor]|].
        apply words_value_inj; [done|done|done|]. by rewrite H3.
    - destruct (excess _ _ Fa Fb ltac:(lia)) as (_ & H1 & H2 & H3 & H4).
      assert (m1 = 0) as E1 by (unfold m1; rewrite dropZ_all by lia; done). unfold m2 in *. rewrite E1 in *.
      rewrite take_ge with (l := words b) by (unfold lenZ in *; lia). split.
      + intros [E <-]. by rewrite H3.
      + intros E. destruct (Z.eq_dec (fold_left Z.lor (dropZ (lenZ (words b)) (words a)) 0) 0) as [E2|E2]; [|specialize (H4 E2); lia].
        split; [done|]. apply words_value_inj; [done|done|done|]. by rewrite H3. }
  apply eq_true_iff_eq. rewrite !Z.eqb_eq. unfold bn_value, bn_canonical in *.
  rewrite Z.lor_eq_0_iff, Z4. destruct (neg a), (neg b); cbn [Z.b2z]; naive_solver lia.
Qed.

Lemma land_pred_0 x : 0 < x → x .& (x - 1) = 0 ↔ x = 2 ^ Z.log2 x.
Proof.
  intros Hx. destruct (Z.log2_spec x Hx) as [H1 H2]. pose proof (Z.log2_nonneg x). split.
  - intros E. destruct (Z.eq_dec x (2 ^ Z.log2 x)) as [|Hne]; [done|exfalso].
    assert (Z.log2 (x - 1) = Z.log2 x) as El by (apply Z.log2_unique; lia).
    assert (Z.testbit (x .& (x - 1)) (Z.log2 x) = true) as Hb.
    { rewrite Z.land_spec, Z.bit_log2 by lia. rewrite <-El, Z.bit_log2; [done|]. assert (0 < 2 ^ Z.log2 x) by (apply Z.pow_pos_nonneg; lia). lia. }
    rewrite E, Z.bits_0 in Hb. done.
  - set (k := Z.log2 x) in *. clearbody k. intros ->. rewrite land_mask by done. apply Z.mod_same. lia.
Qed.

Lemma is_pow2_spec b :
  bn_ok b → BN_is_pow2 b = true ↔ ∃ k, 0 <= k ∧ bn_value b = 2 ^ k.
Proof.
  intros [Hwf Hc]. pose proof Hwf as [W D M F]. destruct (minimal_width_spec b Hwf) as (Hr & Hv & H0 & Htop).
  unfold BN_is_pow2, bn_value, bn_canonical in *. set (m := bn_minimal_width b) in *. pose proof (mag_bound b Hwf) as Hb.
  destruct (Z.eqb_spec m 0) as [Em|Em]; cbn [orb].
  { split; [done|]. intros (k & Hk & E). pose proof (Z.pow_pos_nonneg 2 k ltac:(lia) Hk). destruct (neg b); lia. }
  destruct (neg b).
  { split; [done|]. intros (k & Hk & E). pose proof (Z.pow_pos_nonneg 2 k ltac:(lia) Hk). lia. }
  destruct (top_word b Hwf Em) as (B1 & Ft & Hv'). fold m in B1, Ft, Hv'.
  destruct (prefix_words b (m - 1) Hwf ltac:(lia)) as [F1 _].
  set (lo := takeZ (m - 1) (d b)) in *. set (t := word b (m - 1)) in *. symmetry in Hv'. clear Hv Htop. rename Hv' into Hv.
  pose proof (pow_64_pos (m - 1) ltac:(lia)) as HP.
  assert (forallb (λ w, w =? 0) lo = true ↔ words_value lo = 0) as Hlo.
  { rewrite words_value_0 by done. rewrite forallb_forall, Forall_forall. setoid_rewrite list_elem_of_In. setoid_rewrite Z.eqb_eq. done. }
  rewrite (wrap_small 64 (t - 1)) by (split; lia). destruct (forallb (λ w, w =? 0) lo); cbn [negb].
  - assert (words_value lo = 0) as E0 by tauto. rewrite E0 in Hv. rewrite Z.eqb_eq.
    split.
    + intros E. apply eq_sym, land_pred_0 in E; [|lia]. exists (64 * (m - 1) + Z.log2 t). pose proof (Z.log2_nonneg t).
      split; [lia|]. rewrite Z.pow_add_r by lia. rewrite <-E. lia.
    + intros (k & Hk & E). symmetry. apply land_pred_0; [lia|].
      assert (64 * (m - 1) <= k) as Hkm.
      { destruct (Z.le_gt_cases (64 * (m - 1)) k); [done|]. assert (2 ^ k < 2 ^ (64 * (m - 1))) by (apply Z.pow_lt_mono_r; lia). nia. }
      replace k with (64 * (m - 1) + (k - 64 * (m - 1))) in E by lia. rewrite Z.pow_add_r in E by lia.
      assert (t = 2 ^ (k - 64 * (m - 1))) as -> by nia. by rewrite Z.log2_pow2 by lia.
  - split; [done|]. intros (k & Hk & E). exfalso. assert (words_value lo ≠ 0) as Hne by (intros E0; apply Hlo in E0; done).
    destruct (Z.le_gt_cases (64 * (m - 1)) k) as [Hle|Hgt].
    + replace k with (64 * (m - 1) + (k - 64 * (m - 1))) in E by lia. rewrite Z.pow_add_r in E by lia.
      set (q := 2 ^ (k - 64 * (m - 1))) in *. set (P := 2 ^ (64 * (m - 1))) in *.
      assert (words_value lo = P * (q - t)) as H by (rewrite Z.mul_sub_distr_l; lia). clear -H B1 HP Hne. destruct (Z.le_gt_cases (q - t) 0); nia.
    + assert (2 ^ k < 2 ^ (64 * (m - 1))) by (apply Z.pow_lt_mono_r; lia). nia.
Qed.

Lemma less_than_words_spec a b :
  bn_wf a → bn_wf b → bn_less_than_words (words a) (words b) = (mag a <? mag b).
Proof.
  intros Ha Hb. unfold bn_less_than_words. change (bn_cmp_words_consttime _ _) with (BN_ucmp a b). rewrite ucmp_spec by done.
  unfold cmp_sign. destruct (mag a <? mag b), (mag a =? mag b); done.
Qed.

Lemma is_one_spec a : bn_ok a → BN_is_one a = (bn_value a =? 1).
Proof.
  intros [Wa _]. unfold BN_is_one. rewrite abs_is_word_spec by (done || decide_now). unfold bn_value. pose proof (mag_bound a Wa).
  destruct (neg a); cbn [negb andb]; [|done]. symmetry. apply Z.eqb_neq. lia.
Qed.

(** * Properties *)

(** C26. The comparisons of big numbers, which take no branch on their words, are those of the integers:
    of the signed values, also when the operands have different widths and leading zero words, and
    with a single word; a missing number is above every other in [BN_cmp]. *)
Theorem bn_comparisons a b w :
  bn_ok a → bn_ok b → fits 64 w →
  BN_cmp (Some a) (Some b) = cmp_sign (bn_value a) (bn_value b) ∧ BN_ucmp a b = cmp_sign (Z.abs (bn_value a)) (Z.abs (bn_value b)) ∧
  BN_equal_consttime a b = (bn_value a =? bn_value b) ∧ BN_cmp_word a w = cmp_sign (bn_value a) w ∧
  BN_is_word a w = (bn_value a =? w) ∧ BN_is_zero a = (bn_value a =? 0) ∧ BN_is_odd a = Z.odd (bn_value a) ∧
  (BN_is_pow2 a = true ↔ ∃ k, 0 <= k ∧ bn_value a = 2 ^ k) ∧ BN_num_bits a = bit_length (Z.abs (bn_value a)) ∧
  BN_is_one a = (bn_value a =? 1) ∧ BN_abs_is_word a w = (Z.abs (bn_value a) =? w) ∧ BN_is_negative a = (bn_value a <? 0) ∧
  bn_less_than_words (words a) (words b) = (Z.abs (bn_value a) <? Z.abs (bn_value b)) ∧
  BN_cmp (Some a) None = -1 ∧ BN_cmp None (Some b) = 1 ∧ BN_cmp None None = 0.
Proof.
  intros Ha Hb Hw. pose proof Ha as [Wa Ca]. pose proof Hb as [Wb _].
  assert (∀ x, bn_wf x → Z.abs (bn_value x) = mag x) as Habs.
  { intros x Hx. pose proof (mag_bound x Hx). unfold bn_value. destruct (neg x); lia. }
  pose proof (mag_bound a Wa) as Ba.
  rewrite !Habs, cmp_spec, ucmp_spec, equal_spec, cmp_word_spec, is_word_spec, is_zero_spec, is_odd_spec, num_bits_spec, is_one_spec, abs_is_word_spec, less_than_words_spec by done.
  do 5 (split; [done|]). split; [|split; [|split; [by apply is_pow2_spec|do 3 (split; [done|]); split; [|done]]]].
  - unfold bn_value. destruct (neg a); [|done]. destruct (Z.eqb_spec (mag a) 0), (Z.eqb_spec (- mag a) 0); lia.
  - unfold bn_value. destruct (neg a); [|done]. by rewrite Z.odd_opp.
  - unfold BN_is_negative, bn_value. unfold bn_canonical in Ca. destruct (neg a).
    + symmetry. apply Z.ltb_lt. specialize (Ca eq_refl). lia.
    + symmetry. apply Z.ltb_ge. lia.
Qed.

(** A negative number with a leading zero word against a longer one, and the number -1, which is not one. *)
Lemma bn_comparisons_witness :
  let a := bn_of true [5; 0] in let b := bn_of true [3; 0; 1] in
  (BN_cmp (Some a) (Some b) = cmp_sign (-5) (- (3 + 2 ^ 128)) ∧ BN_equal_consttime a b = false ∧ BN_cmp_word a 4 = -1) ∧
  BN_is_one (bn_of true [1]) = false ∧ BN_abs_is_word (bn_of true [1]) 1 = true.
Proof.
  intros a b.
  assert (bn_ok a ∧ bn_ok b ∧ bn_ok (bn_of true [1])) as (Ha & Hb & H1) by (split_and!; apply bn_of_ok; decide_now). split.
  - destruct (bn_comparisons a b 4 Ha Hb ltac:(decide_now)) as (-> & _ & -> & -> & _). split_and!; vm_compute; reflexivity.
  - destruct (bn_comparisons (bn_of true [1]) b 1 H1 Hb ltac:(decide_now)) as (_ & _ & _ & _ & _ & _ & _ & _ & _ & -> & -> & _). split; vm_compute; reflexivity.
Defined.
