(* ===== verification/BnAdd.v ===== *)
(** Adding and subtracting big numbers:
    src/HolyWater-Test/Pods/BoringSSL-GRPC/src/crypto/fipsmodule/bn/add.c.

    The result may be one of the operands. *)
From stdpp Require Import gmap.
From S2P Require Import Prelude Mem ConstTime Bn BnCmp.

Open Scope Z_scope.

(** * The code *)

(** [tmp = carry + a->d[i]; carry = tmp < a->d[i]; r->d[i] = tmp]. *)
Definition carry_step (carry a _ : Z) : Z * Z :=
  let tmp := u64 (carry + a) in (tmp, if tmp <? a then 1 else 0).
(** [tmp = a->d[i]; r->d[i] = a->d[i] - borrow; borrow = tmp < r->d[i]]. *)
Definition borrow_step (borrow a _ : Z) : Z * Z :=
  let w := u64 (a - borrow) in (w, if a <? w then 1 else 0).

Section add.
Context {libc : Libc}.

Definition bn_uadd_consttime (r a b : var) : M bns () :=
  s ← getS;
  let '(a, b) := if width (s !!! a) <? width (s !!! b) then (b, a) else (a, b) in
  let max := width (s !!! a) in
  let min := width (s !!! b) in
  wexpand r (max + 1);;
  modifyS (upd r (set_width (max + 1)));;
  s ← getS;
  let '(carry, s) := bn_add_words r a b min s in
  let '(carry, s) := words_loop carry_step r a a (Z.to_nat (max - min)) min carry s in
  putS s;;
  modifyS (put_word r max carry).
Definition BN_uadd (r a b : var) : M bns () :=
  bn_uadd_consttime r a b;;
  modifyS (upd r bn_set_minimal_width).

Definition bn_usub_consttime (r a b : var) : M bns () :=
  s ← getS;
  let aw := width (s !!! a) in
  let b_width := width (s !!! b) in
  ensure (negb ((aw <? b_width) && negb (bn_fits_in_words (s !!! b) aw)));;
  let b_width := if aw <? b_width then aw else b_width in
  wexpand r aw;;
  s ← getS;
  let '(borrow, s) := bn_sub_words r a b b_width s in
  let '(borrow, s) := words_loop borrow_step r a a (Z.to_nat (aw - b_width)) b_width borrow s in
  putS s;;
  ensure (borrow =? 0);;
  modifyS (upd r (λ x, set_neg false (set_width (width (s !!! a)) x))).
Definition BN_usub (r a b : var) : M bns () :=
  bn_usub_consttime r a b;;
  modifyS (upd r bn_set_minimal_width).

(** The difference of the magnitudes and its sign. *)
Definition sub_signed (r a b : var) : M bns () :=
  s ← getS;
  if BN_ucmp (s !!! a) (s !!! b) <? 0 then
    BN_usub r b a;;
    modifyS (upd r (set_neg true))
  else
    BN_usub r a b;;
    modifyS (upd r (set_neg false)).

Definition BN_add (r a b : var) : M bns () :=
  s ← getS;
  let a_neg := neg (s !!! a) in
  if xorb a_neg (neg (s !!! b)) then
    let '(a, b) := if a_neg then (b, a) else (a, b) in
    sub_signed r a b
  else
    λ s, let '(ret, s) := BN_uadd r a b s in (ret, upd r (set_neg a_neg) s).

Definition BN_sub (r a b : var) : M bns () :=
  s ← getS;
  let '(add, neg', a, b) :=
    if neg (s !!! a) then
      if neg (s !!! b) then (false, false, b, a) else (true, true, a, b)
    else if neg (s !!! b) then (true, false, a, b) else (false, false, a, b) in
  if (add : bool) then
    BN_uadd r a b;;
    modifyS (upd r (set_neg neg'))
  else sub_signed r a b.

(** [for (i = 0; w != 0 && i < a->width; i++)] over the words, with the carry it leaves. *)
Fixpoint add_word_loop (ws : list Z) (w : Z) : list Z * Z :=
  match ws with
  | [] => ([], w)
  | x :: ws' =>
      if w =? 0 then (ws, 0)
      else
        let l := u64 (x + w) in
        let '(r, c) := add_word_loop ws' (if l <? w then 1 else 0) in (l :: r, c)
  end.
(** [for (;;)] with the index where it breaks; [None] would be a read beyond the number. *)
Fixpoint sub_word_loop (ws : list Z) (w i : Z) : option (list Z * Z) :=
  match ws with
  | [] => None
  | x :: ws =>
      if w <=? x then Some (x - w :: ws, i)
      else r ← sub_word_loop ws 1 (i + 1); Some (u64 (x - w) :: r.1, r.2)
  end.
Definition put_words (ws : list Z) (b : BIGNUM) : BIGNUM := set_d (write_at (d b) 0 ws) b.

(** The two functions call each other at most once; [depth] counts the calls. *)
Fixpoint BN_add_word_at (depth : nat) (w : Z) : M BIGNUM () := λ a,
  match depth with
  | O => (None, a)
  | S depth =>
      if w =? 0 then (Some (), a)
      else if BN_is_zero a then
        match BN_set_word a w with Some a => (Some (), a) | None => (None, a) end
      else if neg a then
        let '(i, a) := BN_sub_word_at depth w (set_neg false a) in
        (i, if negb (BN_is_zero a) then set_neg (negb (neg a)) a else a)
      else
        let '(ws, c) := add_word_loop (words a) w in
        let a := put_words ws a in
        if c =? 0 then (Some (), a)
        else
          match bn_wexpand a (width a + 1) with
          | None => (None, a)
          | Some a =>
              let a := set_width (width a + 1) a in
              (Some (), set_d (<[Z.to_nat (width a - 1) := c]> (d a)) a)
          end
  end
with BN_sub_word_at (depth : nat) (w : Z) : M BIGNUM () := λ a,
  match depth with
  | O => (None, a)
  | S depth =>
      if w =? 0 then (Some (), a)
      else if BN_is_zero a then
        match BN_set_word a w with Some a => (Some (), BN_set_negative a true) | None => (None, a) end
      else if neg a then
        let '(i, a) := BN_add_word_at depth w (set_neg false a) in (i, set_neg true a)
      else if (bn_minimal_width a =? 1) && (word a 0 <? w) then
        (Some (), set_neg true (set_d (<[0%nat := w - word a 0]> (d a)) a))
      else
        match sub_word_loop (words a) w 0 with
        | None => (None, a)
        | Some (ws, i) =>
            let a := put_words ws a in
            (Some (), if (word a i =? 0) && (i =? width a - 1) then set_width (width a - 1) a else a)
        end
  end.
Definition BN_add_word : Z → M BIGNUM () := BN_add_word_at 2.
Definition BN_sub_word : Z → M BIGNUM () := BN_sub_word_at 2.
End add.

(** * Specifications *)

Lemma carry_step_spec acc x y :
  0 <= acc <= 1 → fits 64 x → fits 64 y →
  fits 64 (carry_step acc x y).1 ∧ 0 <= (carry_step acc x y).2 <= 1 ∧
  (carry_step acc x y).1 + 1 * (2 ^ 64 * (carry_step acc x y).2) = x + 0 * y + 1 * acc.
Proof.
  intros Ha Hx Hy. unfold carry_step. cbn [fst snd]. split; [apply wrap_fits; lia|].
  unfold fits, wrap in *. rewrite pow2_64 in *. destruct (Z.ltb_spec ((acc + x) mod 18446744073709551616) x); lia.
Qed.

Lemma borrow_step_spec acc x y :
  0 <= acc <= 1 → fits 64 x → fits 64 y →
  fits 64 (borrow_step acc x y).1 ∧ 0 <= (borrow_step acc x y).2 <= 1 ∧
  (borrow_step acc x y).1 + (-1) * (2 ^ 64 * (borrow_step acc x y).2) = x + 0 * y + (-1) * acc.
Proof.
  intros Ha Hx Hy. unfold borrow_step. cbn [fst snd]. split; [apply wrap_fits; lia|].
  unfold fits, wrap in *. rewrite pow2_64 in *. destruct (Z.ltb_spec x ((x - acc) mod 18446744073709551616)); lia.
Qed.

(** Two loops in a row: over the words that both operands have, and over the rest of the longer one. *)
Lemma two_loops (step1 step2 : Z → Z → Z → Z * Z) σ τ
  (H1 : ∀ acc x y, 0 <= acc <= 1 → fits 64 x → fits 64 y →
    fits 64 (step1 acc x y).1 ∧ 0 <= (step1 acc x y).2 <= 1 ∧ (step1 acc x y).1 + σ * (2 ^ 64 * (step1 acc x y).2) = x + τ * y + σ * acc)
  (H2 : ∀ acc x y, 0 <= acc <= 1 → fits 64 x → fits 64 y →
    fits 64 (step2 acc x y).1 ∧ 0 <= (step2 acc x y).2 <= 1 ∧ (step2 acc x y).1 + σ * (2 ^ 64 * (step2 acc x y).2) = x + 0 * y + σ * acc)
  (r a b : var) (n m : Z) (s : bns) :
  0 <= n <= m → m <= lenZ (d (s !!! r)) → m <= lenZ (d (s !!! a)) → n <= lenZ (d (s !!! b)) →
  Forall (fits 64) (takeZ m (d (s !!! a))) → Forall (fits 64) (takeZ n (d (s !!! b))) →
  ∃ c s1 c' s2 ws,
    words_loop step1 r a b (Z.to_nat n) 0 0 s = (c, s1) ∧ 0 <= c <= 1 ∧
    words_loop step2 r a a (Z.to_nat (m - n)) n c s1 = (c', s2) ∧ 0 <= c' <= 1 ∧
    sets r (set_d (write_at (d (s !!! r)) 0 ws) (s !!! r)) s s2 ∧ lenZ ws = m ∧ Forall (fits 64) ws ∧
    words_value ws + σ * (2 ^ (64 * m) * c') = words_value (takeZ m (d (s !!! a))) + τ * words_value (takeZ n (d (s !!! b))).
Proof.
  intros Hn Hr Ha Hb Fa Fb.
  destruct (words_loop_spec step1 r a b (Z.to_nat n) 0 0 s) as (s1 & E1 & L1 & S1); [lia..|].
  rewrite Z2Nat.id, !dropZ_0 in * by lia.
  assert (Forall (fits 64) (takeZ n (d (s !!! a)))) as Fan by (rewrite <-(takeZ_takeZ n m) by lia; by apply Forall_take).
  destruct (map_acc_sum step1 (λ c, 0 <= c <= 1) σ τ H1 (takeZ n (d (s !!! a))) (takeZ n (d (s !!! b))) 0 (conj (Z.le_refl 0) Z.le_0_1) Fan Fb) as (C1 & W1 & _ & V1).
  { apply Nat2Z.inj. fold (lenZ (takeZ n (d (s !!! a)))) (lenZ (takeZ n (d (s !!! b)))). rewrite !lenZ_takeZ; lia. }
  destruct (map_acc step1 _ _ 0) as [c ws1]. cbn [fst snd] in *. rewrite lenZ_takeZ in V1 by lia.
  assert (∀ y, lenZ (d (s1 !!! y)) = lenZ (d (s !!! y)) ∧ dropZ n (d (s1 !!! y)) = dropZ n (d (s !!! y))) as Hd.
  { intros y. rewrite (S1 y). destruct (decide (y = r)) as [->|]; [|done]. cbn [set_d d]. rewrite lenZ_write_at by lia. split; [done|].
    unfold write_at. rewrite takeZ_0. cbn [app]. rewrite dropZ_app by done. f_equal. lia. }
  destruct (words_loop_spec step2 r a a (Z.to_nat (m - n)) n c s1) as (s2 & E2 & L2 & S2); [lia|rewrite (proj1 (Hd _)); lia..|].
  rewrite Z2Nat.id, !(proj2 (Hd _)) in * by lia.
  assert (Forall (fits 64) (takeZ (m - n) (dropZ n (d (s !!! a))))) as Fa2 by (rewrite <-dropZ_takeZ by lia; by apply Forall_drop).
  destruct (map_acc_sum step2 (λ c, 0 <= c <= 1) σ 0 H2 _ _ c C1 Fa2 Fa2 eq_refl) as (C2 & W2 & _ & V2).
  destruct (map_acc step2 _ _ c) as [c' ws2]. cbn [fst snd] in *. rewrite lenZ_takeZ in V2 by (rewrite lenZ_dropZ; lia).
  exists c, s1, c', s2, (ws1 ++ ws2). split; [done|]. split; [done|]. split; [exact E2|]. split; [done|]. split.
  - eapply sets_trans; [exact S1|]. eapply sets_cong; [|exact S2]. rewrite (sets_at _ _ _ _ S1). unfold set_d. cbn [d width dmax neg flags]. f_equal.
    by rewrite <-(write_at_then _ 0 ws1 ws2), Z.add_0_l, L1 by lia.
  - rewrite lenZ_app. split; [lia|]. split; [by apply Forall_app|].
    rewrite words_value_app, L1. assert (takeZ m (d (s !!! a)) = takeZ n (d (s !!! a)) ++ takeZ (m - n) (dropZ n (d (s !!! a)))) as ->.
    { rewrite <-(takeZ_dropZ n (takeZ m (d (s !!! a)))) at 1. by rewrite takeZ_takeZ, dropZ_takeZ by lia. }
    rewrite words_value_app, lenZ_takeZ by lia. replace (64 * m) with (64 * n + 64 * (m - n)) by lia. rewrite Z.pow_add_r by lia. nia.
Qed.

Section add_facts.
Context {libc : Libc}.

Lemma uadd_consttime_spec r a b s :
  (∀ x, bn_wf (s !!! x)) →
  let n := Z.max (width (s !!! a)) (width (s !!! b)) + 1 in
  match bn_uadd_consttime r a b s with
  | (Some _, s') => ∃ b', sets r b' s s' ∧ bn_wf b' ∧ mag b' = mag (s !!! a) + mag (s !!! b) ∧ width b' = n ∧ neg b' = neg (s !!! r)
  | (None, s') => s' = s ∧ ¬ can_hold (s !!! r) n
  end.
Proof.
  intros Hwf n. unfold bn_uadd_consttime, mbind, M_bind, getS, putS, modifyS. cbn beta iota.
  assert (∃ a' b', (if width (s !!! a) <? width (s !!! b) then (b, a) else (a, b)) = (a', b') ∧
    width (s !!! b') <= width (s !!! a') ∧ n = width (s !!! a') + 1 ∧ mag (s !!! a) + mag (s !!! b) = mag (s !!! a') + mag (s !!! b')) as (a' & b' & -> & Hle & -> & ->).
  { unfold n. destruct (Z.ltb_spec (width (s !!! a)) (width (s !!! b))); [exists b, a|exists a, b]; (split; [done|lia]). }
  clear a b. rename a' into a. rename b' into b. set (m := width (s !!! a)) in *.
  pose proof (Hwf a) as [[Wa _] _ _ Fa]. pose proof (Hwf b) as [[Wb _] _ _ Fb]. fold m in Wa.
  pose proof (make_room r (m + 1) s Hwf ltac:(lia)) as Hroom. destruct (wexpand r (m + 1) s) as [[|] s1]; [|done].
  destruct Hroom as (b1 & S1 & W1 & Hd1 & Hn1 & Hw1 & _ & Hops).
  set (s2 := upd r (set_width (m + 1)) s1). pose proof (sets_upd r (set_width (m + 1)) s1) as S2. fold s2 in S2.
  rewrite (sets_at _ _ _ _ S1) in S2.
  assert (∀ x, d (s2 !!! x) = d (s1 !!! x)) as Hd2.
  { intros x. rewrite (S2 x). destruct (decide (x = r)) as [->|]; [|done]. by rewrite (sets_at _ _ _ _ S1). }
  pose proof W1 as [_ D1 M1 _]. pose proof (Hops a) as [Oa La]. pose proof (Hops b) as [Ob Lb]. fold m in Oa, La.
  destruct (two_loops add_step carry_step 1 1 add_step_spec carry_step_spec r a b (width (s !!! b)) m s2)
    as (c & s3 & c' & s4 & ws & E1 & C1 & E2 & C2 & S4 & L4 & F4 & V4); rewrite ?Hd2.
  { lia. } { rewrite (sets_at _ _ _ _ S1). lia. } { exact La. } { exact Lb. } { rewrite Oa. exact Fa. } { rewrite Ob. exact Fb. }
  rewrite !Hd2, Oa, Ob in V4. unfold bn_add_words. rewrite E1.
  rewrite (wrap_small 64 c) by (split; mlia). rewrite E2. cbn beta iota.
  pose proof (sets_upd r (λ b, set_d (<[Z.to_nat m := c']> (d b)) b) s4) as S5. fold (put_word r m c' s4) in S5.
  rewrite (sets_at _ _ _ _ S4), (sets_at _ _ _ _ S2) in S5. cbn [set_d set_width d width dmax neg flags] in S5.
  rewrite insert_write_at in S5 by (rewrite lenZ_write_at; lia).
  assert (write_at (write_at (d b1) 0 ws) m [c'] = write_at (d b1) 0 (ws ++ [c'])) as Ew.
  { rewrite <-(write_at_then _ 0 ws [c']), Z.add_0_l, L4 by (rewrite ?lenZ_1; lia). done. }
  rewrite Ew in S5.
  destruct (write_words b1 (ws ++ [c']) (m + 1) W1) as [W5 V5]; [rewrite lenZ_app, lenZ_1; lia|lia| |].
  { apply Forall_app. split; [done|]. constructor; [split; mlia|constructor]. }
  eexists. split; [eapply sets_trans; [exact S1|]; eapply sets_trans; [exact S2|]; eapply sets_trans; [exact S4|exact S5]|].
  split; [exact W5|]. split; [|done]. unfold mag at 1. etransitivity; [apply (f_equal words_value V5)|].
  rewrite words_value_app, L4. cbn [words_value foldr]. change (words_value (words (s !!! a))) with (mag (s !!! a)) in V4.
  change (words_value (words (s !!! b))) with (mag (s !!! b)) in V4. lia.
Qed.

Lemma uadd_spec r a b s :
  (∀ x, bn_wf (s !!! x)) →
  let n := Z.max (width (s !!! a)) (width (s !!! b)) + 1 in
  match BN_uadd r a b s with
  | (Some _, s') => ∃ b', sets r b' s s' ∧ bn_ok b' ∧ mag b' = mag (s !!! a) + mag (s !!! b)
  | (None, s') => s' = s ∧ ¬ can_hold (s !!! r) n
  end.
Proof.
  intros Hwf n. unfold BN_uadd, mbind, M_bind, modifyS. pose proof (uadd_consttime_spec r a b s Hwf) as H. cbv zeta in H. fold n in H.
  destruct (bn_uadd_consttime r a b s) as [[|] s1]; [|done]. destruct H as (b1 & S1 & W1 & V1 & _).
  pose proof (sets_upd r bn_set_minimal_width s1) as S2. rewrite (sets_at _ _ _ _ S1) in S2.
  exists (bn_set_minimal_width b1). split; [eapply sets_trans; [exact S1|exact S2]|].
  destruct (set_minimal_width_spec b1 W1) as (W2 & C2 & V2 & _). by rewrite V2.
Qed.

(** The words below [n] of a number that fits into [n] words. *)
Lemma fits_prefix b n :
  bn_wf b → 0 <= n → mag b < 2 ^ (64 * n) → words_value (takeZ (Z.min n (width b)) (words b)) = mag b.
Proof.
  intros Hwf Hn Hlt. pose proof Hwf as [W D M F]. unfold mag in *. destruct (Z.le_gt_cases (width b) n).
  - rewrite Z.min_r by lia. rewrite takeZ_all; [done|]. unfold words. rewrite lenZ_takeZ; lia.
  - rewrite Z.min_l by lia. pose proof (words_split b n Hwf ltac:(lia)) as Es.
    rewrite Es in Hlt |- *. rewrite Es in F. apply Forall_app in F as [F1 F2].
    rewrite takeZ_app by (rewrite lenZ_takeZ; lia). rewrite words_value_app, lenZ_takeZ in * by lia.
    rewrite (tail_zero _ _ _ (proj1 (words_value_bound _ F1)) (proj1 (words_value_bound _ F2)) (pow_64_pos n Hn)); [lia|lia].
Qed.

Lemma usub_consttime_spec r a b s :
  (∀ x, bn_wf (s !!! x)) →
  match bn_usub_consttime r a b s with
  | (Some _, s') => mag (s !!! b) <= mag (s !!! a) ∧
      ∃ b', sets r b' s s' ∧ bn_wf b' ∧ mag b' = mag (s !!! a) - mag (s !!! b) ∧ width b' = width (s !!! a) ∧ neg b' = false
  | (None, _) => mag (s !!! a) < mag (s !!! b) ∨ ¬ can_hold (s !!! r) (width (s !!! a))
  end.
Proof.
  intros Hwf. unfold bn_usub_consttime, mbind, M_bind, getS, putS, modifyS, ensure. cbn beta iota.
  pose proof (Hwf a) as [[Wa _] _ _ Fa]. pose proof (Hwf b) as [[Wb _] _ _ Fb]. set (m := width (s !!! a)) in *.
  pose proof (mag_bound _ (Hwf a)) as Ba. fold m in Ba. rewrite (fits_in_words_spec _ _ (Hwf b) Wa).
  pose proof (mag_bound _ (Hwf b)) as Bb.
  destruct ((m <? width (s !!! b)) && negb (mag (s !!! b) <? 2 ^ (64 * m))) eqn:Ebig; cbn [negb].
  { left. apply andb_true_iff in Ebig as [_ E]. apply negb_true_iff, Z.ltb_ge in E. lia. }
  assert (mag (s !!! b) < 2 ^ (64 * m)) as Hb.
  { apply andb_false_iff in Ebig as [E|E].
    - apply Z.ltb_ge in E. eapply Z.lt_le_trans; [apply Bb|]. apply Z.pow_le_mono_r; lia.
    - by apply negb_false_iff, Z.ltb_lt in E. }
  replace (if m <? width (s !!! b) then m else width (s !!! b)) with (Z.min m (width (s !!! b)))
    by (destruct (Z.ltb_spec m (width (s !!! b))); lia).
  set (n := Z.min m (width (s !!! b))).
  pose proof (make_room r m s Hwf ltac:(lia)) as Hroom. destruct (wexpand r m s) as [[|] s1]; [|right; apply Hroom].
  destruct Hroom as (b1 & S1 & W1 & Hd1 & Hn1 & Hw1 & _ & Hops). pose proof W1 as [_ D1 M1 _].
  pose proof (Hops a) as [Oa La]. pose proof (Hops b) as [Ob Lb]. fold m in Oa, La.
  assert (takeZ n (d (s1 !!! b)) = takeZ n (words (s !!! b))) as On by (rewrite <-Ob, takeZ_takeZ by lia; done).
  destruct (two_loops sub_step borrow_step (-1) (-1) sub_step_spec borrow_step_spec r a b n m s1)
    as (c & s3 & c' & s4 & ws & E1 & C1 & E2 & C2 & S4 & L4 & F4 & V4).
  { lia. } { rewrite (sets_at _ _ _ _ S1). lia. } { exact La. } { lia. } { rewrite Oa. exact Fa. }
  { rewrite On. by apply Forall_take. }
  pose proof (fits_prefix _ m (Hwf b) Wa Hb) as Hp. fold n in Hp. rewrite On, Oa, Hp in V4. change (words_value (words (s !!! a))) with (mag (s !!! a)) in V4.
  unfold bn_sub_words. rewrite E1, E2. cbn beta iota. rewrite (sets_at _ _ _ _ S1) in S4.
  pose proof (words_value_bound _ F4) as B4. rewrite L4 in B4.
  destruct (Z.eqb_spec c' 0) as [->|Hc]; [|left; assert (c' = 1) as -> by lia; lia].
  split; [lia|]. pose proof (sets_upd r (λ x, set_neg false (set_width (width (s4 !!! a)) x)) s4) as S5.
  assert (width (s4 !!! a) = m) as Ew.
  { rewrite (S4 a). destruct (decide (a = r)) as [->|]; [done|]. by rewrite (sets_ne _ _ _ _ _ S1). }
  rewrite Ew in S5 |- *. rewrite (sets_at _ _ _ _ S4) in S5. destruct (write_words b1 ws m W1 L4 Hd1 F4) as [W5 V5].
  eexists. split; [eapply sets_trans; [exact S1|]; eapply sets_trans; [exact S4|exact S5]|].
  split; [apply set_neg_wf; exact W5|]. split; [|done].
  unfold mag at 1. etransitivity; [apply (f_equal words_value V5)|]. lia.
Qed.

Lemma usub_spec r a b s :
  (∀ x, bn_wf (s !!! x)) →
  match BN_usub r a b s with
  | (Some _, s') => mag (s !!! b) <= mag (s !!! a) ∧
      ∃ b', sets r b' s s' ∧ bn_wf b' ∧ mag b' = mag (s !!! a) - mag (s !!! b) ∧ neg b' = false
  | (None, _) => mag (s !!! a) < mag (s !!! b) ∨ ¬ can_hold (s !!! r) (width (s !!! a))
  end.
Proof.
  intros Hwf. unfold BN_usub, mbind, M_bind, modifyS. pose proof (usub_consttime_spec r a b s Hwf) as H.
  destruct (bn_usub_consttime r a b s) as [[|] s1]; [|done]. destruct H as (Hle & b1 & S1 & W1 & V1 & _ & N1).
  split; [done|].
  pose proof (sets_upd r bn_set_minimal_width s1) as S2. rewrite (sets_at _ _ _ _ S1) in S2.
  exists (bn_set_minimal_width b1). split; [eapply sets_trans; [exact S1|exact S2]|].
  destruct (set_minimal_width_spec b1 W1) as (W2 & C2 & V2 & _). rewrite V2. split; [done|]. split; [done|].
  unfold bn_set_minimal_width. by destruct (width _ =? 0).
Qed.

Lemma sub_signed_spec r a b s :
  (∀ x, bn_wf (s !!! x)) →
  match sub_signed r a b s with
  | (Some _, s') => ∃ b', sets r b' s s' ∧ bn_ok b' ∧ bn_value b' = mag (s !!! a) - mag (s !!! b)
  | (None, _) => ¬ can_hold (s !!! r) (width (s !!! a)) ∨ ¬ can_hold (s !!! r) (width (s !!! b))
  end.
Proof.
  intros Hwf. unfold sub_signed, mbind, M_bind, getS, modifyS. cbn beta iota. rewrite ucmp_spec by apply Hwf.
  unfold cmp_sign. destruct (Z.ltb_spec (mag (s !!! a)) (mag (s !!! b))) as [Hlt|Hge].
  - change (-1 <? 0) with true. cbn beta iota. pose proof (usub_spec r b a s Hwf) as H.
    destruct (BN_usub r b a s) as [[|] s1]; [|destruct H as [H|H]; [lia|right; exact H]]. destruct H as (_ & b1 & S1 & W1 & V1 & N1).
    pose proof (sets_upd r (set_neg true) s1) as S2. rewrite (sets_at _ _ _ _ S1) in S2.
    exists (set_neg true b1). split; [eapply sets_trans; [exact S1|exact S2]|].
    assert (mag (set_neg true b1) = mag b1) as E by done.
    split; [split; [by apply set_neg_wf|intros _; rewrite E, V1; lia]|]. unfold bn_value. cbn [set_neg neg]. rewrite E, V1. lia.
  - replace ((if mag (s !!! a) =? mag (s !!! b) then 0 else 1) <? 0) with false by (by destruct (_ =? _)). cbn beta iota.
    pose proof (usub_spec r a b s Hwf) as H.
    destruct (BN_usub r a b s) as [[|] s1]; [|destruct H as [H|H]; [lia|left; exact H]]. destruct H as (_ & b1 & S1 & W1 & V1 & N1).
    pose proof (sets_upd r (set_neg false) s1) as S2. rewrite (sets_at _ _ _ _ S1) in S2.
    exists (set_neg false b1). split; [eapply sets_trans; [exact S1|exact S2]|].
    split; [split; [by apply set_neg_wf|done]|]. unfold bn_value. cbn [set_neg neg]. exact V1.
Qed.

(** Room for every result of an addition or subtraction. *)
Definition roomy (r a b : var) (s : bns) : Prop :=
  ∀ n, 0 <= n <= Z.max (width (s !!! a)) (width (s !!! b)) + 1 → can_hold (s !!! r) n.

Lemma uadd_signed r a b n s :
  (∀ x, bn_wf (s !!! x)) → (n = true → 0 < mag (s !!! a) + mag (s !!! b)) →
  match BN_uadd r a b s with
  | (Some _, s') => ∃ b', sets r b' s (upd r (set_neg n) s') ∧ bn_ok b' ∧
      bn_value b' = (if n then - (mag (s !!! a) + mag (s !!! b)) else mag (s !!! a) + mag (s !!! b))
  | (None, _) => ¬ roomy r a b s
  end.
Proof.
  intros Hwf Hn. pose proof (uadd_spec r a b s Hwf) as H. cbv zeta in H. destruct (BN_uadd r a b s) as [[|] s1].
  - destruct H as (b1 & S1 & [W1 _] & V1).
    pose proof (sets_upd r (set_neg n) s1) as S2. rewrite (sets_at _ _ _ _ S1) in S2.
    exists (set_neg n b1). split; [eapply sets_trans; [exact S1|exact S2]|].
    split; [split; [by apply set_neg_wf|intros E; change (mag (set_neg n b1)) with (mag b1); cbn [set_neg neg] in E; specialize (Hn E); lia]|].
    unfold bn_value. cbn [set_neg neg]. change (mag (set_neg n b1)) with (mag b1). by rewrite V1.
  - destruct H as [_ H]. intros Hr. apply H, Hr. destruct (Hwf a) as [[? _] _ _ _]. lia.
Qed.

Lemma sub_signed_room r a b s :
  (∀ x, bn_wf (s !!! x)) → ¬ can_hold (s !!! r) (width (s !!! a)) ∨ ¬ can_hold (s !!! r) (width (s !!! b)) → ¬ roomy r a b s.
Proof.
  intros Hwf H Hr. destruct (Hwf a) as [[? _] _ _ _], (Hwf b) as [[? _] _ _ _]. destruct H as [H|H]; apply H, Hr; lia.
Qed.

Lemma roomy_comm r a b s : roomy r a b s → roomy r b a s.
Proof. unfold roomy. by rewrite Z.max_comm. Qed.

Lemma add_spec r a b s :
  (∀ x, bn_wf (s !!! x)) → bn_canonical (s !!! a) → bn_canonical (s !!! b) →
  match BN_add r a b s with
  | (Some _, s') => ∃ b', sets r b' s s' ∧ bn_ok b' ∧ bn_value b' = bn_value (s !!! a) + bn_value (s !!! b)
  | (None, _) => ¬ roomy r a b s
  end.
Proof.
  intros Hwf Ca Cb. unfold BN_add, bn_canonical in *. unfold mbind at 1, M_bind at 1, getS at 1. cbn beta iota.
  pose proof (mag_bound _ (Hwf a)) as Ba. pose proof (mag_bound _ (Hwf b)) as Bb.
  unfold bn_value at 2 3. destruct (neg (s !!! a)) eqn:Na, (neg (s !!! b)) eqn:Nb; cbn [xorb].
  - pose proof (uadd_signed r a b true s Hwf) as H. specialize (Ca eq_refl). destruct (BN_uadd r a b s) as [[|] s1]; [|apply H; lia].
    destruct H as (b' & S' & O' & V'); [lia|]. exists b'. split; [done|]. split; [done|lia].
  - pose proof (sub_signed_spec r b a s Hwf) as H. destruct (sub_signed r b a s) as [[|] s1];
      [|intros Hr; apply (sub_signed_room r b a s Hwf H), roomy_comm, Hr].
    destruct H as (b' & S' & O' & V'). exists b'. split; [done|]. split; [done|lia].
  - pose proof (sub_signed_spec r a b s Hwf) as H. destruct (sub_signed r a b s) as [[|] s1]; [|by apply sub_signed_room].
    destruct H as (b' & S' & O' & V'). exists b'. split; [done|]. split; [done|lia].
  - pose proof (uadd_signed r a b false s Hwf ltac:(done)) as H. destruct (BN_uadd r a b s) as [[|] s1]; done.
Qed.

Lemma sub_spec r a b s :
  (∀ x, bn_wf (s !!! x)) → bn_canonical (s !!! a) → bn_canonical (s !!! b) →
  match BN_sub r a b s with
  | (Some _, s') => ∃ b', sets r b' s s' ∧ bn_ok b' ∧ bn_value b' = bn_value (s !!! a) - bn_value (s !!! b)
  | (None, _) => ¬ roomy r a b s
  end.
Proof.
  intros Hwf Ca Cb. unfold BN_sub, bn_canonical in *. unfold mbind at 1, M_bind at 1, getS at 1. cbn beta iota.
  pose proof (mag_bound _ (Hwf a)) as Ba. pose proof (mag_bound _ (Hwf b)) as Bb.
  unfold bn_value at 2 3. destruct (neg (s !!! a)) eqn:Na, (neg (s !!! b)) eqn:Nb.
  - pose proof (sub_signed_spec r b a s Hwf) as H. destruct (sub_signed r b a s) as [[|] s1];
      [|intros Hr; apply (sub_signed_room r b a s Hwf H), roomy_comm, Hr].
    destruct H as (b' & S' & O' & V'). exists b'. split; [done|]. split; [done|lia].
  - pose proof (uadd_signed r a b true s Hwf) as H. specialize (Ca eq_refl). unfold mbind, M_bind, modifyS.
    destruct (BN_uadd r a b s) as [[|] s1]; [|apply H; lia].
    destruct H as (b' & S' & O' & V'); [lia|]. exists b'. split; [done|]. split; [done|lia].
  - pose proof (uadd_signed r a b false s Hwf ltac:(done)) as H. unfold mbind, M_bind, modifyS.
    destruct (BN_uadd r a b s) as [[|] s1]; [|done].
    destruct H as (b' & S' & O' & V'). exists b'. split; [done|]. split; [done|lia].
  - pose proof (sub_signed_spec r a b s Hwf) as H. destruct (sub_signed r a b s) as [[|] s1]; [|by apply sub_signed_room].
    done.
Qed.

(** ** Single words *)

Lemma add_word_loop_spec ws w :
  Forall (fits 64) ws → fits 64 w →
  let res := add_word_loop ws w in
  lenZ res.1 = lenZ ws ∧ Forall (fits 64) res.1 ∧ fits 64 res.2 ∧
  words_value res.1 + 2 ^ (64 * lenZ ws) * res.2 = words_value ws + w.
Proof.
  intros Hws. revert w. induction Hws as [|x ws Hx Hws IH]; intros w Hw; cbn [add_word_loop].
  { split; [done|]. split; [constructor|]. split; [done|]. change (2 ^ (64 * lenZ (@nil Z))) with 1. cbn. lia. }
  destruct (Z.eqb_spec w 0) as [->|Hw0]; cbn [fst snd].
  { split; [done|]. split; [by constructor|]. split; [done|]. lia. }
  set (l := u64 (x + w)). assert (fits 64 l) as Hl by (apply wrap_fits; lia).
  specialize (IH (if l <? w then 1 else 0) ltac:(destruct (l <? w); split; mlia)). cbv zeta in IH.
  destruct (add_word_loop ws (if l <? w then 1 else 0)) as [r c]. cbn [fst snd] in *. destruct IH as (I1 & I2 & I3 & I4).
  rewrite !lenZ_cons, I1. split; [done|]. split; [by constructor|]. split; [done|].
  cbn [words_value foldr]. fold (words_value ws) (words_value r). rewrite pow_64_S by apply lenZ_nonneg.
  assert (x + w = l + 2 ^ 64 * (if l <? w then 1 else 0)) as E.
  { unfold l, fits, wrap in *. rewrite pow2_64 in *. destruct (Z.ltb_spec ((x + w) mod 18446744073709551616) w); lia. }
  nia.
Qed.

Lemma sub_word_loop_spec ws w i :
  Forall (fits 64) ws → fits 64 w → w <= words_value ws → 0 < lenZ ws →
  ∃ r j, sub_word_loop ws w i = Some (r, j) ∧ i <= j < i + lenZ ws ∧ lenZ r = lenZ ws ∧ Forall (fits 64) r ∧
    words_value r = words_value ws - w.
Proof.
  intros Hws. revert w i. induction Hws as [|x ws Hx Hws IH]; intros w i Hw Hle Hlen; [done|]. cbn [sub_word_loop].
  cbn [words_value foldr] in *. fold (words_value ws) in *. rewrite lenZ_cons. pose proof (lenZ_nonneg ws).
  unfold fits in Hx, Hw. destruct (Z.leb_spec w x) as [Hwx|Hwx].
  - exists (x - w :: ws), i. split; [done|]. split; [lia|]. split; [by rewrite lenZ_cons|]. split; [constructor; [split; lia|done]|].
    cbn [words_value foldr]. fold (words_value ws). lia.
  - assert (1 <= words_value ws) as H1 by (rewrite pow2_64 in *; lia).
    assert (0 < lenZ ws) as H2 by (destruct ws; [cbn in H1; lia|rewrite lenZ_cons; pose proof (lenZ_nonneg ws); lia]).
    destruct (IH 1 (i + 1) ltac:(split; mlia) H1 H2) as (r & j & -> & Hj & Lr & Fr & Vr). cbn [mbind option_bind fst snd].
    eexists _, j. split; [done|]. split; [lia|]. rewrite lenZ_cons, Lr. split; [done|].
    split; [constructor; [apply wrap_fits; lia|done]|]. cbn [words_value foldr]. fold (words_value r). rewrite Vr.
    unfold wrap. rewrite pow2_64 in *. lia.
Qed.

Lemma put_words_spec b ws :
  bn_wf b → lenZ ws = width b → Forall (fits 64) ws →
  let b' := put_words ws b in bn_wf b' ∧ words b' = ws ∧ width b' = width b ∧ neg b' = neg b ∧ flags b' = flags b ∧ dmax b' = dmax b.
Proof.
  intros W L F. destruct (write_words b ws (width b) W L ltac:(destruct W; lia) F) as [W' E'].
  assert (set_width (width b) (set_d (write_at (d b) 0 ws) b) = put_words ws b) as E by done. rewrite E in *. done.
Qed.

Lemma sub_word_nonneg depth w a :
  bn_wf a → neg a = false → mag a ≠ 0 → fits 64 w → w ≠ 0 →
  ∃ a', BN_sub_word_at (S depth) w a = (Some (), a') ∧ bn_ok a' ∧ bn_value a' = mag a - w.
Proof.
  intros Hwf Hn Hm Hw Hw0. cbn [BN_sub_word_at]. rewrite (proj2 (Z.eqb_neq w 0)), is_zero_spec, (proj2 (Z.eqb_neq (mag a) 0)), Hn by done.
  pose proof Hwf as [Wa D M F]. destruct (minimal_width_spec a Hwf) as (Hr & Hv & H0 & _). pose proof (top_word a Hwf ltac:(tauto)) as (Tlo & Ttop & Tv).
  assert (0 < width a) as Hwp.
  { destruct (Z.le_gt_cases (width a) 0); [|lia]. destruct Hm. apply H0. lia. }
  pose proof (first_word a Hwf Hwp) as Ef.
  destruct ((bn_minimal_width a =? 1) && (word a 0 <? w)) eqn:E.
  - apply andb_true_iff in E as [E1 E2]. apply Z.eqb_eq in E1. apply Z.ltb_lt in E2.
    assert (mag a = word a 0) as Em.
    { rewrite E1 in Tlo, Tv. change (2 ^ (64 * (1 - 1))) with 1 in *. change (1 - 1) with 0 in *. lia. }
    rewrite Ef in F. apply Forall_cons in F as [F1 F2]. unfold fits in F1, Hw.
    change 0%nat with (Z.to_nat 0). rewrite insert_write_at by lia.
    assert (mag (set_d (write_at (d a) 0 [w - word a 0]) a) = w - mag a ∧ bn_wf (set_d (write_at (d a) 0 [w - word a 0]) a)) as [Hmag Hwf'].
    { pose proof (put_words_spec a ((w - word a 0) :: takeZ (width a - 1) (dropZ 1 (d a))) Hwf) as P.
      assert (write_at (d a) 0 [w - word a 0] = write_at (d a) 0 ((w - word a 0) :: takeZ (width a - 1) (dropZ 1 (d a)))) as Ew.
      { unfold write_at. rewrite !takeZ_0. cbn [app]. f_equal. rewrite lenZ_1, lenZ_cons, lenZ_takeZ by (rewrite lenZ_dropZ; lia).
        change (0 + 1) with 1. rewrite <-(takeZ_dropZ (width a - 1) (dropZ 1 (d a))) at 1. f_equal. rewrite dropZ_dropZ by lia. f_equal; lia. }
      rewrite Ew. destruct P as (P1 & P2 & _).
      - rewrite lenZ_cons, lenZ_takeZ by (rewrite lenZ_dropZ; lia). lia.
      - constructor; [split; lia|done].
      - split; [|exact P1]. unfold mag at 1. unfold put_words in P2. rewrite P2. cbn [words_value foldr].
        unfold mag in Em |- *. rewrite Ef in Em |- *. cbn [words_value foldr] in Em |- *. lia. }
    eexists. split; [done|]. split; [split; [by apply set_neg_wf|]|].
    + intros _. change (mag (set_d (write_at (d a) 0 [w - word a 0]) a) ≠ 0). lia.
    + unfold bn_value. cbn [set_neg neg]. change (- mag (set_d (write_at (d a) 0 [w - word a 0]) a) = mag a - w). lia.
  - assert (lenZ (words a) = width a) as Lw by (unfold words; rewrite lenZ_takeZ; lia).
    assert (w <= mag a) as Hle.
    { apply andb_false_iff in E as [E|E].
      - apply Z.eqb_neq in E. assert (2 <= bn_minimal_width a) as H2 by (destruct (Z.eq_dec (bn_minimal_width a) 0); [tauto|lia]).
        assert (2 ^ 64 <= 2 ^ (64 * (bn_minimal_width a - 1))) by (apply Z.pow_le_mono_r; lia). unfold fits in Hw. nia.
      - apply Z.ltb_ge in E. unfold mag. rewrite Ef in F |- *. apply Forall_cons in F as [F1 F2].
        cbn [words_value foldr]. pose proof (words_value_bound _ F2) as B2. fold (words_value (takeZ (width a - 1) (dropZ 1 (d a)))). lia. }
    destruct (sub_word_loop_spec (words a) w 0 F Hw Hle ltac:(lia)) as (r & j & -> & Hj & Lr & Fr & Vr).
    destruct (put_words_spec a r Hwf ltac:(lia) Fr) as (P1 & P2 & P3 & P4 & _).
    eexists. split; [done|]. rewrite P3.
    assert (bn_value (put_words r a) = mag a - w) as Ev by (unfold bn_value; rewrite P4, Hn; unfold mag; by rewrite P2).
    destruct ((word (put_words r a) j =? 0) && (j =? width a - 1)) eqn:E2.
    + apply andb_true_iff in E2 as [E3 E4]. apply Z.eqb_eq in E3, E4. subst j.
      split; [split; [apply wf_narrow; [done|lia]|unfold bn_canonical; cbn [set_width neg]; by rewrite P4, Hn]|].
      rewrite <-Ev. unfold bn_value. cbn [set_width neg]. rewrite P4, Hn. unfold mag. rewrite words_set_width.
      unfold words. rewrite P3. rewrite (take_snoc _ (width a) P1), words_value_app, E3 by lia. cbn [words_value foldr]. lia.
    + split; [split; [done|intros ?; congruence]|done].
Qed.

Lemma add_word_nonneg depth w a :
  bn_wf a → neg a = false → mag a ≠ 0 → fits 64 w → w ≠ 0 →
  match BN_add_word_at (S depth) w a with
  | (Some _, a') => bn_ok a' ∧ neg a' = false ∧ bn_value a' = mag a + w
  | (None, _) => ¬ can_hold a (width a + 1)
  end.
Proof.
  intros Hwf Hn Hm Hw Hw0. cbn [BN_add_word_at]. rewrite (proj2 (Z.eqb_neq w 0)), is_zero_spec, (proj2 (Z.eqb_neq (mag a) 0)), Hn by done.
  pose proof Hwf as [Wa D M F]. assert (lenZ (words a) = width a) as Lw by (unfold words; rewrite lenZ_takeZ; lia).
  destruct (add_word_loop_spec (words a) w F Hw) as (L1 & F1 & C1 & V1). destruct (add_word_loop (words a) w) as [ws c]. cbn [fst snd] in *.
  destruct (put_words_spec a ws Hwf ltac:(lia) F1) as (P1 & P2 & P3 & P4 & P5 & P6). rewrite Lw in V1. fold (mag a) in V1.
  destruct (Z.eqb_spec c 0) as [->|Hc].
  - split; [split; [done|intros ?; congruence]|]. split; [congruence|]. unfold bn_value. rewrite P4, Hn. unfold mag at 1. rewrite P2. lia.
  - rewrite P3. pose proof (bn_wexpand_spec _ (width a + 1) P1 ltac:(lia)) as He. destruct (bn_wexpand _ _) as [a1|].
    + destruct He as (_ & W1 & Hw1 & Hn1 & Hwo & Hd1 & _). pose proof W1 as [Wb Db Mb Fb].
      cbn [set_width width d]. replace (width a1 + 1 - 1) with (width a1) by lia. rewrite insert_write_at by lia.
      rewrite Hw1, P3.
      assert (write_at (d a1) (width a) [c] = write_at (d a1) 0 (ws ++ [c])) as Ew.
      { assert (takeZ (width a) (d a1) = ws) as Et by (rewrite <-P2, <-Hwo; unfold words; by rewrite Hw1, P3).
        unfold write_at. rewrite takeZ_0, Et, lenZ_app, L1, Lw. cbn [app]. by rewrite <-app_assoc. }
      rewrite Ew. destruct (write_words a1 (ws ++ [c]) (width a + 1) W1) as [W2 E2]; [rewrite lenZ_app, lenZ_1; lia|lia|by apply Forall_app; repeat constructor; try apply C1|].
      assert (neg a1 = false) as Hna by congruence.
      split; [split; [exact W2|intros E; change (neg a1 = true) in E; congruence]|]. split; [exact Hna|].
      unfold bn_value. change (neg (set_d (write_at (d a1) 0 (ws ++ [c])) (set_width (width a + 1) a1))) with (neg a1). rewrite Hna.
      unfold mag at 1. etransitivity; [apply (f_equal words_value E2)|]. rewrite words_value_app, L1, Lw. cbn [words_value foldr]. lia.
    + intros Hc'. apply He. unfold can_hold in *. by rewrite P6, P5.
Qed.

Lemma add_at_neg depth w a :
  w ≠ 0 → BN_is_zero a = false → neg a = true →
  BN_add_word_at (S depth) w a =
    let '(i, a) := BN_sub_word_at depth w (set_neg false a) in (i, if negb (BN_is_zero a) then set_neg (negb (neg a)) a else a).
Proof. intros Hw Hz Hn. cbn [BN_add_word_at]. rewrite (proj2 (Z.eqb_neq w 0)), Hz, Hn by done. reflexivity. Qed.

Lemma sub_at_neg depth w a :
  w ≠ 0 → BN_is_zero a = false → neg a = true →
  BN_sub_word_at (S depth) w a = let '(i, a) := BN_add_word_at depth w (set_neg false a) in (i, set_neg true a).
Proof. intros Hw Hz Hn. cbn [BN_sub_word_at]. rewrite (proj2 (Z.eqb_neq w 0)), Hz, Hn by done. reflexivity. Qed.

Lemma add_word_spec w a :
  bn_ok a → fits 64 w →
  match BN_add_word w a with
  | (Some _, a') => bn_ok a' ∧ bn_value a' = bn_value a + w
  | (None, _) => ¬ (can_hold a 1 ∧ can_hold a (width a + 1))
  end.
Proof.
  intros [Hwf Hc] Hw. unfold BN_add_word. destruct (Z.eq_dec w 0) as [->|Hw0]; [split; [done|lia]|].
  destruct (Z.eq_dec (mag a) 0) as [Hm|Hm].
  { cbn [BN_add_word_at]. rewrite (proj2 (Z.eqb_neq w 0)), is_zero_spec, Hm by done. cbn [Z.eqb].
    pose proof (set_word_spec a w Hwf Hw) as H. destruct (BN_set_word a w) as [a'|]; [|intros [? _]; done].
    destruct H as (H1 & H2 & _). split; [done|]. rewrite H2. unfold bn_value. rewrite Hm. destruct (neg a); lia. }
  destruct (neg a) eqn:Hn.
  - rewrite add_at_neg by (done || (rewrite is_zero_spec by done; by apply Z.eqb_neq)).
    destruct (sub_word_nonneg 0 w (set_neg false a) (set_neg_wf _ _ Hwf) eq_refl Hm Hw Hw0) as (a' & -> & [W' C'] & V').
    change (mag (set_neg false a)) with (mag a) in V'. rewrite is_zero_spec by done.
    unfold bn_value in V' |- *. rewrite Hn. destruct (Z.eqb_spec (mag a') 0) as [E|E]; cbn [negb].
    + split; [done|]. destruct (neg a'); lia.
    + split; [split; [by apply set_neg_wf|by intros _]|]. cbn [set_neg neg]. change (mag (set_neg (negb (neg a')) a')) with (mag a').
      destruct (neg a'); cbn [negb]; lia.
  - pose proof (add_word_nonneg 1 w a Hwf Hn Hm Hw Hw0) as H. destruct (BN_add_word_at 2 w a) as [[|] a']; [|intros [_ ?]; done].
    destruct H as (H1 & _ & H2). split; [done|]. unfold bn_value at 2. by rewrite Hn.
Qed.

Lemma sub_word_spec w a :
  bn_ok a → fits 64 w →
  match BN_sub_word w a with
  | (Some _, a') => bn_ok a' ∧ bn_value a' = bn_value a - w
  | (None, _) => ¬ (can_hold a 1 ∧ can_hold a (width a + 1))
  end.
Proof.
  intros [Hwf Hc] Hw. unfold BN_sub_word. destruct (Z.eq_dec w 0) as [->|Hw0]; [split; [done|lia]|].
  destruct (Z.eq_dec (mag a) 0) as [Hm|Hm].
  { cbn [BN_sub_word_at]. rewrite (proj2 (Z.eqb_neq w 0)), is_zero_spec, Hm by done. cbn [Z.eqb].
    pose proof (set_word_spec a w Hwf Hw) as H. destruct (BN_set_word a w) as [a'|]; [|intros [? _]; done].
    destruct H as ([W1 C1] & H2 & H3). unfold bn_value in H2. rewrite H3 in H2. unfold BN_set_negative. rewrite is_zero_spec, H2 by done.
    rewrite (proj2 (Z.eqb_neq w 0)) by done. cbn [negb andb]. change (mag a') with (mag (set_neg true a')) in H2.
    split; [split; [by apply set_neg_wf|intros _; lia]|]. unfold bn_value. cbn [set_neg neg]. rewrite Hm, H2. destruct (neg a); lia. }
  destruct (neg a) eqn:Hn.
  - rewrite sub_at_neg by (done || (rewrite is_zero_spec by done; by apply Z.eqb_neq)).
    pose proof (add_word_nonneg 0 w (set_neg false a) (set_neg_wf _ _ Hwf) eq_refl Hm Hw Hw0) as H.
    destruct (BN_add_word_at 1 w (set_neg false a)) as [[|] a']; [|intros [_ ?]; done].
    destruct H as ([W1 C1] & N1 & V1). unfold bn_value in V1. rewrite N1 in V1. change (mag (set_neg false a)) with (mag a) in V1.
    pose proof (mag_bound a Hwf). unfold fits in Hw. change (mag a') with (mag (set_neg true a')) in V1.
    split; [split; [by apply set_neg_wf|intros _; lia]|]. unfold bn_value. cbn [set_neg neg]. rewrite Hn. lia.
  - destruct (sub_word_nonneg 1 w a Hwf Hn Hm Hw Hw0) as (a' & -> & H1 & H2). split; [done|]. unfold bn_value at 2. by rewrite Hn.
Qed.
End add_facts.

(** * Properties *)

(** C21. Addition and subtraction of signed big numbers: with room in the result they succeed, the result
    is the sum or the difference, normalised and with no negative zero, and no other number changes —
    also when the result is one of the operands or both are the same number, since every word is read
    before the result's word is written over it. *)
Theorem bn_add_sub {libc : Libc} r a b s :
  (∀ x, bn_wf (s !!! x)) → bn_canonical (s !!! a) → bn_canonical (s !!! b) → roomy r a b s →
  (∃ c s', BN_add r a b s = (Some (), s') ∧ sets r c s s' ∧ bn_ok c ∧ bn_value c = bn_value (s !!! a) + bn_value (s !!! b)) ∧
  (∃ c s', BN_sub r a b s = (Some (), s') ∧ sets r c s s' ∧ bn_ok c ∧ bn_value c = bn_value (s !!! a) - bn_value (s !!! b)).
Proof.
  intros Hwf Ca Cb Hr. pose proof (add_spec r a b s Hwf Ca Cb) as Ha. pose proof (sub_spec r a b s Hwf Ca Cb) as Hs. split.
  - destruct (BN_add r a b s) as [[[]|] s']; [|done]. destruct Ha as (c & H). by exists c, s'.
  - destruct (BN_sub r a b s) as [[[]|] s']; [|done]. destruct Hs as (c & H). by exists c, s'.
Qed.

(** [a -= a + 2^64] in place, over numbers of different widths. *)
Lemma bn_add_sub_witness :
  let s : bns := {[ 0%nat := bn_of true [5; 0]; 1%nat := bn_of false [0; 1; 0] ]} in
  (∃ c s', BN_add (libc := calloc_libc) 0 0 1 s = (Some (), s') ∧ sets 0 c s s' ∧ bn_ok c ∧ bn_value c = -5 + 2 ^ 64) ∧
  (∃ c s', BN_sub (libc := calloc_libc) 0 0 1 s = (Some (), s') ∧ sets 0 c s s' ∧ bn_ok c ∧ bn_value c = -5 - 2 ^ 64).
Proof.
  intros s.
  assert (bn_ok (bn_of true [5; 0]) ∧ bn_ok (bn_of false [0; 1; 0])) as [[W0 C0] [W1 C1]] by (split; apply bn_of_ok; decide_now).
  refine (bn_add_sub (libc := calloc_libc) 0 0 1 s _ C0 C1 _).
  - apply store_wf. apply map_Forall_insert_2; [exact W0|]. apply map_Forall_singleton. exact W1.
  - intros n Hn. apply calloc_room; [reflexivity|]. change (0 <= n <= 4) in Hn. assert (BN_MAX_WORDS = 8388607) as -> by reflexivity. lia.
Defined.
