(* ===== verification/BnShift.v ===== *)
(** Shifts and bits of big numbers:
    src/HolyWater-Test/Pods/BoringSSL-GRPC/src/crypto/fipsmodule/bn/shift.c. *)
From stdpp Require Import gmap.
From S2P Require Import Prelude Mem ConstTime Bn.

Open Scope Z_scope.

(** * The code *)

(** [for (i = a->width - 1; i >= 0; i--) body], from [i] down. *)
Fixpoint down_loop (body : Z → bns → bns) (i : nat) (s : bns) : bns :=
  match i with O => s | S i => down_loop body i (body (Z.of_nat i) s) end.
(** [t[nw + i] = f[i]]. *)
Definition lshift_move (r a : var) (nw i : Z) (s : bns) : bns := put_word r (nw + i) (word (s !!! a) i) s.
(** [l = f[i]; t[nw + i + 1] |= l >> rb; t[nw + i] = l << lb]. *)
Definition lshift_bits (r a : var) (nw lb rb i : Z) (s : bns) : bns :=
  let l := word (s !!! a) i in
  let s := put_word r (nw + i + 1) (word (s !!! r) (nw + i + 1) .| (l ≫ rb)) s in
  put_word r (nw + i) (u64 (l ≪ lb)) s.

(** [r[i - k] = ...a[i], a[i + 1]...], for [n] indices from [i]. *)
Fixpoint pairs_loop (f : Z → Z → Z) (r a : var) (k : Z) (n : nat) (i : Z) (s : bns) : bns :=
  match n with
  | O => s
  | S n => pairs_loop f r a k n (i + 1) (put_word r (i - k) (f (word (s !!! a) i) (word (s !!! a) (i + 1))) s)
  end.

(** [memset(r + off, 0, n * sizeof(BN_ULONG))] and [memmove(r, a + off, n * sizeof(BN_ULONG))]. *)
Definition zero_words (r : var) (off n : Z) : bns → bns :=
  upd r (λ b, set_d (write_at (d b) off (replicate (Z.to_nat n) 0)) b).
Definition move_words (r a : var) (off n : Z) (s : bns) : bns :=
  upd r (λ b, set_d (write_at (d b) 0 (takeZ n (dropZ off (d (s !!! a))))) b) s.

Definition bn_rshift_words (r a : var) (shift num : Z) (s : bns) : bns :=
  let shift_bits := shift mod BN_BITS2 in
  let shift_words := shift / BN_BITS2 in
  if num <=? shift_words then zero_words r 0 num s
  else
    let s :=
      if shift_bits =? 0 then move_words r a shift_words (num - shift_words) s
      else
        let s := pairs_loop (λ x y, (x ≫ shift_bits) .| u64 (y ≪ (BN_BITS2 - shift_bits))) r a shift_words
                   (Z.to_nat (num - 1 - shift_words)) shift_words s in
        put_word r (num - 1 - shift_words) (word (s !!! a) (num - 1) ≫ shift_bits) s in
    zero_words r (num - shift_words) shift_words s.

Definition bn_rshift1_words (r a : var) (num : Z) (s : bns) : bns :=
  if num =? 0 then s
  else
    let s := pairs_loop (λ x y, (x ≫ 1) .| u64 (y ≪ (BN_BITS2 - 1))) r a 0 (Z.to_nat (num - 1)) 0 s in
    put_word r (num - 1) (word (s !!! a) (num - 1) ≫ 1) s.

Definition lshift1_step (c t _ : Z) : Z * Z := (u64 (t ≪ 1) .| c, t ≫ (BN_BITS2 - 1)).

Section shift.
Context {libc : Libc}.

Definition BN_lshift (r a : var) (n : Z) : M bns () :=
  ensure (0 <=? n);;
  s ← getS;
  modifyS (upd r (set_neg (neg (s !!! a))));;
  let nw := n / BN_BITS2 in
  wexpand r (width (s !!! a) + nw + 1);;
  let lb := n mod BN_BITS2 in
  let rb := BN_BITS2 - lb in
  modifyS (put_word r (width (s !!! a) + nw) 0);;
  modifyS (down_loop (if lb =? 0 then lshift_move r a nw else lshift_bits r a nw lb rb) (Z.to_nat (width (s !!! a))));;
  modifyS (zero_words r 0 nw);;
  modifyS (λ s', upd r (set_width (width (s' !!! a) + nw + 1)) s');;
  modifyS (upd r bn_set_minimal_width).

Definition BN_lshift1 (r a : var) : M bns () :=
  s ← getS;
  (if decide (r = a) then wexpand r (width (s !!! a) + 1)
   else
     modifyS (upd r (set_neg (neg (s !!! a))));;
     wexpand r (width (s !!! a) + 1);;
     modifyS (upd r (set_width (width (s !!! a)))));;
  s ← getS;
  let '(c, s) := words_loop lshift1_step r a a (Z.to_nat (width (s !!! a))) 0 0 s in
  putS s;;
  if negb (c =? 0) then
    modifyS (put_word r (width (s !!! a)) 1);;
    modifyS (upd r (λ b, set_width (width b + 1) b))
  else mret ().

Definition BN_rshift (r a : var) (n : Z) : M bns () :=
  ensure (0 <=? n);;
  s ← getS;
  let w := width (s !!! a) in
  wexpand r w;;
  modifyS (bn_rshift_words r a n w);;
  modifyS (λ s, upd r (set_neg (neg (s !!! a))) s);;
  modifyS (λ s, upd r (set_width (width (s !!! a))) s);;
  modifyS (upd r bn_set_minimal_width).

Definition BN_rshift1 (r a : var) : M bns () :=
  s ← getS;
  let w := width (s !!! a) in
  wexpand r w;;
  modifyS (bn_rshift1_words r a w);;
  modifyS (λ s, upd r (set_width (width (s !!! a))) s);;
  modifyS (λ s, upd r (set_neg (neg (s !!! a))) s);;
  modifyS (upd r bn_set_minimal_width).

(** [for (i = 0; (max_bits >> i) != 0; i++)]; 32 turns exhaust the 32 bits of [max_bits]. *)
Fixpoint secret_loop (fuel : nat) (i : Z) (max_bits : Z) (r tmp : var) (n : Z) (s : bns) : bns :=
  match fuel with
  | O => s
  | S fuel =>
      if max_bits ≫ i =? 0 then s
      else
        let mask := u64 (0 - ((n ≫ i) .& 1)) in
        let s := bn_rshift_words tmp r (u32 (1 ≪ i)) (width (s !!! r)) s in
        let s := bn_select_words r mask tmp r (width (s !!! r)) s in
        secret_loop fuel (i + 1) max_bits r tmp n s
  end.
(** [tmp] is the number the context hands out. *)
Definition bn_rshift_secret_shift (r a : var) (n : Z) (tmp : var) : M bns () :=
  BN_copy r a;;
  s ← getS;
  wexpand tmp (width (s !!! r));;
  s ← getS;
  putS (secret_loop 32 0 (u32 (BN_BITS2 * width (s !!! r))) r tmp n s).
End shift.

(** * Right shifts *)

Fixpoint map_pairs (f : Z → Z → Z) (l : list Z) : list Z :=
  match l with
  | x :: (y :: _) as t => f x y :: map_pairs f t
  | _ => []
  end.

(** What a write leaves of the other words. *)
Lemma put_word_spec r i w s :
  0 <= i < lenZ (d (s !!! r)) →
  sets r (set_d (write_at (d (s !!! r)) i [w]) (s !!! r)) s (put_word r i w s) ∧
  ∀ y, lenZ (d (put_word r i w s !!! y)) = lenZ (d (s !!! y)) ∧
    (∀ j, i < j → dropZ j (d (put_word r i w s !!! y)) = dropZ j (d (s !!! y))) ∧
    (∀ j, 0 <= j <= i → takeZ j (d (put_word r i w s !!! y)) = takeZ j (d (s !!! y))).
Proof.
  intros Hi. pose proof (sets_upd r (λ b, set_d (<[Z.to_nat i := w]> (d b)) b) s) as S. fold (put_word r i w s) in S. cbn beta in S.
  rewrite insert_write_at in S by done. split; [exact S|]. intros y. rewrite (S y). destruct (decide (y = r)) as [->|]; [|done].
  cbn [set_d d]. rewrite lenZ_write_at by (rewrite ?lenZ_1; lia). split; [done|]. split; intros j Hj.
  - rewrite <-insert_write_at by done. unfold dropZ. apply drop_insert_lt. lia.
  - apply takeZ_write_at_lo; rewrite ?lenZ_1; lia.
Qed.

Lemma take_drop_pair (l : list Z) i n :
  0 <= i → i + 1 < lenZ l → (0 < n)%nat →
  takeZ (Z.of_nat (S n)) (dropZ i l) = nthZ l i :: takeZ (Z.of_nat n) (dropZ (i + 1) l) ∧
  ∃ t, takeZ (Z.of_nat n) (dropZ (i + 1) l) = nthZ l (i + 1) :: t.
Proof.
  intros Hi Hl Hn. split; [apply take_drop_nth; lia|]. destruct n as [|n]; [lia|]. eexists. apply take_drop_nth; lia.
Qed.

Lemma pairs_loop_spec f r a k n i s :
  0 <= k <= i → i + Z.of_nat n < lenZ (d (s !!! a)) → i - k + Z.of_nat n <= lenZ (d (s !!! r)) →
  let ws := map_pairs f (takeZ (Z.of_nat (S n)) (dropZ i (d (s !!! a)))) in
  lenZ ws = Z.of_nat n ∧
  sets r (set_d (write_at (d (s !!! r)) (i - k) ws) (s !!! r)) s (pairs_loop f r a k n i s).
Proof.
  revert i s. induction n as [|n IH]; intros i s Hi Ha Hr ws; cbn [pairs_loop].
  { assert (ws = []) as -> by (unfold ws; rewrite take_drop_nth by lia; done). split; [done|]. rewrite write_at_nil.
    eapply sets_cong; [|apply sets_refl]. by destruct (s !!! r). }
  set (w := f (word (s !!! a) i) (word (s !!! a) (i + 1))).
  destruct (put_word_spec r (i - k) w s ltac:(lia)) as [S1 H1]. set (s1 := put_word r (i - k) w s) in *.
  destruct (IH (i + 1) s1) as [L2 S2]; [lia|rewrite (proj1 (H1 a)); lia|rewrite (proj1 (H1 r)); lia|].
  rewrite (proj1 (proj2 (H1 a))) in L2, S2 by lia.
  destruct (take_drop_pair (d (s !!! a)) i (S n)) as [E1 [t E2]]; [lia..|].
  set (ws' := map_pairs f (takeZ (Z.of_nat (S n)) (dropZ (i + 1) (d (s !!! a))))) in *.
  assert (ws = w :: ws') as ->.
  { unfold ws, ws'. rewrite E1, E2. reflexivity. }
  split; [rewrite lenZ_cons; lia|]. eapply sets_trans; [exact S1|]. eapply sets_cong; [|exact S2].
  rewrite (sets_at _ _ _ _ S1). unfold set_d. cbn [d width dmax neg flags]. f_equal.
  replace (i + 1 - k) with (i - k + lenZ [w]) by (rewrite lenZ_1; lia).
  change (w :: ws') with ([w] ++ ws'). apply write_at_then; [lia|]. rewrite lenZ_1. lia.
Qed.

(** Shifting a number of words by less than a word. *)
Lemma rshift_value b l z :
  0 < b < 64 → Forall (fits 64) (l ++ [z]) →
  let ws := map_pairs (λ x y, (x ≫ b) .| u64 (y ≪ (64 - b))) (l ++ [z]) ++ [z ≫ b] in
  Forall (fits 64) ws ∧ lenZ ws = lenZ l + 1 ∧ words_value ws = words_value (l ++ [z]) / 2 ^ b.
Proof.
  intros Hb Hf. assert (2 ^ 64 = 2 ^ b * 2 ^ (64 - b)) as E64 by (rewrite <-Z.pow_add_r by lia; f_equal; lia).
  pose proof (Z.pow_pos_nonneg 2 b ltac:(lia) ltac:(lia)) as Pb. pose proof (Z.pow_pos_nonneg 2 (64 - b) ltac:(lia) ltac:(lia)) as Pc.
  assert (∀ x, fits 64 x → fits 64 (x ≫ b)) as Hsh.
  { intros x [H1 H2]. rewrite shiftr_div by lia. split; [apply Z.div_pos; lia|]. apply Z.div_lt_upper_bound; nia. }
  induction l as [|x l IH].
  { apply Forall_cons in Hf as [Hz _]. cbn [map_pairs app]. split; [constructor; [auto|constructor]|]. split; [done|].
    rewrite !words_value_cons, shiftr_div by lia. change (words_value []) with 0. by rewrite !Z.mul_0_r, !Z.add_0_r. }
  rewrite <-app_comm_cons in Hf |- *. apply Forall_cons in Hf as [Hx Hf]. destruct (IH Hf) as (I1 & I2 & I3). clear IH.
  assert (∃ y t, l ++ [z] = y :: t) as (y & t & Eyt) by (destruct l; cbn; eauto). rewrite Eyt in *.
  apply Forall_cons in Hf as [Hy Ht]. cbn zeta in *. set (f := λ x y, _) in *.
  change (map_pairs f (x :: y :: t)) with (f x y :: map_pairs f (y :: t)). rewrite <-app_comm_cons.
  assert (f x y = (y mod 2 ^ b) * 2 ^ (64 - b) + x / 2 ^ b) as Ef.
  { unfold f, wrap. rewrite Z.lor_comm, Z.shiftl_mul_pow2, shiftr_div by lia.
    rewrite E64, Zmult_mod_distr_r. apply lor_mul_add; [lia|]. unfold fits in Hx. split; [apply Z.div_pos; lia|].
    apply Z.div_lt_upper_bound; lia. }
  split; [|split].
  - constructor; [|done]. rewrite Ef. unfold fits in *. pose proof (Z.mod_pos_bound y (2 ^ b) ltac:(lia)).
    pose proof (Z.div_pos x (2 ^ b) ltac:(lia) ltac:(lia)). assert (x / 2 ^ b < 2 ^ (64 - b)) by (apply Z.div_lt_upper_bound; lia). nia.
  - rewrite !lenZ_cons. lia.
  - rewrite words_value_cons, I3, Ef, (words_value_cons x). set (V := words_value (y :: t)).
    assert (y mod 2 ^ b = V mod 2 ^ b) as ->.
    { unfold V. rewrite words_value_cons. replace (y + 2 ^ 64 * words_value t) with (y + 2 ^ (64 - b) * words_value t * 2 ^ b) by (rewrite E64; ring). by rewrite Z.mod_add by lia. }
    replace (x + 2 ^ 64 * V) with (x + 2 ^ (64 - b) * V * 2 ^ b) by (rewrite E64; ring). rewrite Z.div_add, E64 by lia. pose proof (Z.div_mod V (2 ^ b) ltac:(lia)). nia.
Qed.

Lemma pow_64_split b k : 0 <= b → 0 <= k → 2 ^ (64 * k + b) = 2 ^ (64 * k) * 2 ^ b.
Proof. intros. apply Z.pow_add_r; lia. Qed.

Lemma nthZ_write_hi (l src : list Z) i : lenZ src <= i → nthZ (write_at l 0 src) i = nthZ l i.
Proof.
  intros Hi. pose proof (lenZ_nonneg src). unfold write_at, nthZ. rewrite takeZ_0, Z.add_0_l. unfold lenZ in *. cbn [app].
  rewrite app_nth2 by lia. unfold dropZ. rewrite nth_skipn. f_equal. lia.
Qed.

(** Writes at the start of [r], one after the other. *)
Lemma sets_then r s s1 s2 ws v :
  sets r (set_d (write_at (d (s !!! r)) 0 ws) (s !!! r)) s s1 →
  sets r (set_d (write_at (d (s1 !!! r)) (lenZ ws) v) (s1 !!! r)) s1 s2 →
  lenZ ws + lenZ v <= lenZ (d (s !!! r)) →
  sets r (set_d (write_at (d (s !!! r)) 0 (ws ++ v)) (s !!! r)) s s2.
Proof.
  intros S1 S2 Hl. eapply sets_trans; [exact S1|]. eapply sets_cong; [|exact S2].
  rewrite (sets_at _ _ _ _ S1). unfold set_d. cbn [d width dmax neg flags]. f_equal.
  rewrite <-(Z.add_0_l (lenZ ws)). apply write_at_then; lia.
Qed.

(** The two-word loop of [bn_rshift_words] and [bn_rshift1_words], and the top word after it. *)
Lemma rshift_bits r a b k num s :
  0 < b < 64 → 0 <= k < num → num <= lenZ (d (s !!! r)) → num <= lenZ (d (s !!! a)) → Forall (fits 64) (takeZ num (d (s !!! a))) →
  let s1 := pairs_loop (λ x y, (x ≫ b) .| u64 (y ≪ (64 - b))) r a k (Z.to_nat (num - 1 - k)) k s in
  let s2 := put_word r (num - 1 - k) (word (s1 !!! a) (num - 1) ≫ b) s1 in
  ∃ ws, sets r (set_d (write_at (d (s !!! r)) 0 ws) (s !!! r)) s s2 ∧ lenZ ws = num - k ∧ Forall (fits 64) ws ∧
    words_value ws = words_value (dropZ k (takeZ num (d (s !!! a)))) / 2 ^ b.
Proof.
  intros Hb Hk Hr Ha Hf s1 s2. set (z := word (s !!! a) (num - 1)).
  assert (dropZ k (takeZ num (d (s !!! a))) = dropZ k (takeZ (num - 1) (d (s !!! a))) ++ [z]) as E.
  { rewrite takeZ_snoc by lia. apply dropZ_app_le. rewrite lenZ_takeZ; lia. }
  destruct (pairs_loop_spec (λ x y, (x ≫ b) .| u64 (y ≪ (64 - b))) r a k (Z.to_nat (num - 1 - k)) k s) as [L1 S1]; [lia..|].
  fold s1 in S1. rewrite Z.sub_diag in S1. replace (Z.of_nat (S (Z.to_nat (num - 1 - k)))) with (num - k) in L1, S1 by lia.
  rewrite <-(dropZ_takeZ k num) in L1, S1 by lia. rewrite E in *. set (ws := map_pairs _ _) in *.
  assert (word (s1 !!! a) (num - 1) = z) as Ez.
  { rewrite (S1 a). destruct (decide (a = r)) as [->|]; [|done]. unfold word. cbn [set_d d]. apply nthZ_write_hi. lia. }
  destruct (rshift_value b (dropZ k (takeZ (num - 1) (d (s !!! a)))) z Hb) as (F & L & V).
  { rewrite <-E. by apply Forall_drop. }
  exists (ws ++ [z ≫ b]). split; [|split; [|split; [exact F|exact V]]].
  - eapply sets_then; [exact S1| |rewrite lenZ_1; lia]. unfold s2. rewrite Ez.
    rewrite <-(insert_write_at _ (lenZ ws)) by (rewrite (sets_at _ _ _ _ S1); cbn [set_d d]; rewrite lenZ_write_at; lia).
    replace (num - 1 - k) with (lenZ ws) by lia. apply sets_upd.
  - rewrite lenZ_app, lenZ_1. lia.
Qed.

Lemma rshift_words_spec r a n num s :
  0 <= n → 0 <= num <= lenZ (d (s !!! r)) → num <= lenZ (d (s !!! a)) → Forall (fits 64) (takeZ num (d (s !!! a))) →
  ∃ ws, sets r (set_d (write_at (d (s !!! r)) 0 ws) (s !!! r)) s (bn_rshift_words r a n num s) ∧
    lenZ ws = num ∧ Forall (fits 64) ws ∧ words_value ws = words_value (takeZ num (d (s !!! a))) / 2 ^ n.
Proof.
  intros Hn Hr Ha Hf. unfold bn_rshift_words, BN_BITS2. set (A := takeZ num (d (s !!! a))) in *.
  assert (lenZ A = num) as LA by (unfold A; rewrite lenZ_takeZ; lia).
  assert (n = 64 * (n / 64) + n mod 64) as En by (apply Z.div_mod; lia).
  set (b := n mod 64) in *. set (k := n / 64) in *. assert (0 <= b < 64) as Hb by (apply Z.mod_pos_bound; lia).
  assert (0 <= k) as Hk by (apply Z.div_pos; lia).
  assert (∀ m, 0 <= m → Forall (fits 64) (replicate (Z.to_nat m) 0) ∧ lenZ (replicate (Z.to_nat m) (0 : Z)) = m) as Hz.
  { intros m Hm. rewrite lenZ_replicate. split; [apply Forall_replicate; split; mlia|lia]. }
  destruct (Z.leb_spec num k) as [Hnk|Hnk].
  { exists (replicate (Z.to_nat num) 0). split; [apply sets_upd|]. destruct (Hz num); [lia|]. do 2 (split; [done|]).
    rewrite words_value_zeros, Z.div_small; [done|]. pose proof (words_value_bound A Hf) as B. rewrite LA in B.
    split; [lia|]. eapply Z.lt_le_trans; [apply B|]. apply Z.pow_le_mono_r; lia. }
  assert (words_value A / 2 ^ n = words_value (dropZ k A) / 2 ^ b) as ->.
  { rewrite words_value_drop, Z.div_div, <-pow_64_split, <-En by (done || lia || apply pow_64_pos || apply Z.pow_pos_nonneg; lia). done. }
  assert (lenZ (dropZ k A) = num - k) as LD by (rewrite lenZ_dropZ; lia).
  assert (Forall (fits 64) (dropZ k A)) as FD by (by apply Forall_drop).
  assert (dropZ k A = takeZ (num - k) (dropZ k (d (s !!! a)))) as ED by (apply dropZ_takeZ; lia).
  set (s1 := if b =? 0 then _ else _).
  assert (∃ ws, sets r (set_d (write_at (d (s !!! r)) 0 ws) (s !!! r)) s s1 ∧ lenZ ws = num - k ∧ Forall (fits 64) ws ∧
    words_value ws = words_value (dropZ k A) / 2 ^ b) as (ws & S1 & L1 & F1 & V1).
  { unfold s1. destruct (Z.eqb_spec b 0) as [->|Hb0].
    - exists (dropZ k A). split; [rewrite ED; apply sets_upd|]. by rewrite Z.div_1_r.
    - apply rshift_bits; [lia..|exact Hf]. }
  destruct (Hz k Hk) as [Fz Lz].
  exists (ws ++ replicate (Z.to_nat k) 0). split; [|split; [|split; [by apply Forall_app|]]].
  - eapply sets_then; [exact S1| |lia]. rewrite L1. apply sets_upd.
  - rewrite lenZ_app. lia.
  - by rewrite words_value_app, words_value_zeros, Z.mul_0_r, Z.add_0_r.
Qed.

Lemma rshift1_words_spec r a num s :
  0 <= num <= lenZ (d (s !!! r)) → num <= lenZ (d (s !!! a)) → Forall (fits 64) (takeZ num (d (s !!! a))) →
  ∃ ws, sets r (set_d (write_at (d (s !!! r)) 0 ws) (s !!! r)) s (bn_rshift1_words r a num s) ∧
    lenZ ws = num ∧ Forall (fits 64) ws ∧ words_value ws = words_value (takeZ num (d (s !!! a))) / 2 ^ 1.
Proof.
  intros Hr Ha Hf. unfold bn_rshift1_words, BN_BITS2. destruct (Z.eqb_spec num 0) as [->|Hn].
  { exists []. rewrite takeZ_0, write_at_nil. split; [eapply sets_cong; [|apply sets_refl]; by destruct (s !!! r)|]. done. }
  destruct (rshift_bits r a 1 0 num s) as (ws & S & L & F & V); [lia..|exact Hf|].
  rewrite Z.sub_0_r in S, L. rewrite dropZ_0 in V. by exists ws.
Qed.

(** * Left shifts *)

Lemma put_word_mid r i w s P x R :
  d (s !!! r) = P ++ x :: R → lenZ P = i → sets r (set_d (P ++ w :: R) (s !!! r)) s (put_word r i w s).
Proof.
  intros E L. pose proof (sets_upd r (λ b, set_d (<[Z.to_nat i := w]> (d b)) b) s) as S. fold (put_word r i w s) in S.
  eapply sets_cong; [|exact S]. cbn beta. rewrite E. f_equal. unfold lenZ in L.
  rewrite insert_app_r_alt by lia. by replace (Z.to_nat i - length P)%nat with 0%nat by lia.
Qed.
Lemma word_mid b i P x R : d b = P ++ x :: R → lenZ P = i → word b i = x.
Proof.
  intros E L. unfold word, nthZ. rewrite E. unfold lenZ in L. rewrite app_nth2 by lia. by replace (Z.to_nat i - length P)%nat with 0%nat by lia.
Qed.

(** One turn writes the shifted word below the words shifted so far, whose lowest takes its high bits. *)
Definition shifts_word (r a : var) (nw lb : Z) (body : Z → bns → bns) : Prop :=
  ∀ i s P p h t R, 0 <= i → d (s !!! r) = P ++ p :: h :: t ++ R → lenZ P = nw + i →
  fits 64 (word (s !!! a) i) → fits 64 h → h mod 2 ^ lb = 0 →
  ∃ l' h', fits 64 l' ∧ fits 64 h' ∧ l' + 2 ^ 64 * h' = 2 ^ lb * word (s !!! a) i + 2 ^ 64 * h ∧
    sets r (set_d (P ++ l' :: h' :: t ++ R) (s !!! r)) s (body i s).

Lemma lshift_move_word r a nw : 0 <= nw → shifts_word r a nw 0 (lshift_move r a nw).
Proof.
  intros Hn i s P p h t R Hi E L Hl Hh _. exists (word (s !!! a) i), h. do 2 (split; [done|]).
  change (2 ^ 0) with 1. split; [lia|]. by eapply put_word_mid.
Qed.

Lemma lshift_bits_word r a nw lb : 0 <= nw → 0 < lb < 64 → shifts_word r a nw lb (lshift_bits r a nw lb (64 - lb)).
Proof.
  intros Hn Hb i s P p h t R Hi E L Hl Hh Hm. unfold lshift_bits. set (l := word (s !!! a) i) in *.
  assert (2 ^ 64 = 2 ^ lb * 2 ^ (64 - lb)) as E64 by (rewrite <-Z.pow_add_r by lia; f_equal; lia).
  pose proof (Z.pow_pos_nonneg 2 lb ltac:(lia) ltac:(lia)) as Pb. pose proof (Z.pow_pos_nonneg 2 (64 - lb) ltac:(lia) ltac:(lia)) as Pc.
  rewrite (word_mid (s !!! r) (nw + i + 1) (P ++ [p]) h (t ++ R)) by (rewrite ?lenZ_app, ?lenZ_1, <-?app_assoc; done || lia).
  assert (h .| (l ≫ (64 - lb)) = h + l / 2 ^ (64 - lb)) as ->.
  { rewrite shiftr_div by lia. pose proof (Z.div_mod h (2 ^ lb) ltac:(lia)) as Eh. rewrite Hm, Z.add_0_r, Z.mul_comm in Eh.
    rewrite Eh at 1. rewrite lor_mul_add; [lia|lia|]. unfold fits in Hl. split; [apply Z.div_pos; lia|apply Z.div_lt_upper_bound; lia]. }
  set (h' := h + _). pose proof (put_word_mid r (nw + i + 1) h' s (P ++ [p]) h (t ++ R)) as S1.
  rewrite <-app_assoc in S1. specialize (S1 E ltac:(rewrite lenZ_app, lenZ_1; lia)). set (s1 := put_word r _ h' s) in *.
  pose proof (put_word_mid r (nw + i) (u64 (l ≪ lb)) s1 P p (h' :: t ++ R)) as S2.
  rewrite (sets_at _ _ _ _ S1) in S2. cbn [set_d d] in S2. rewrite <-app_assoc in S2. specialize (S2 eq_refl L).
  assert (u64 (l ≪ lb) = (l mod 2 ^ (64 - lb)) * 2 ^ lb) as Em.
  { unfold wrap. rewrite Z.shiftl_mul_pow2, E64, (Z.mul_comm (2 ^ lb)) by lia. apply Zmult_mod_distr_r. }
  exists (u64 (l ≪ lb)), h'. split; [apply wrap_fits; lia|]. unfold fits in *.
  pose proof (Z.div_mod l (2 ^ (64 - lb)) ltac:(lia)) as El.
  assert (0 <= l / 2 ^ (64 - lb) < 2 ^ lb) as Hq by (split; [apply Z.div_pos; lia|apply Z.div_lt_upper_bound; lia]).
  split; [|split; [rewrite Em; unfold h'; nia|eapply sets_trans; [exact S1|exact S2]]].
  assert (h <= 2 ^ 64 - 2 ^ lb); [|unfold h'; lia]. pose proof (Z.div_mod h (2 ^ lb) ltac:(lia)) as Eh. rewrite Hm in Eh.
  assert (h / 2 ^ lb < 2 ^ (64 - lb)) by (apply Z.div_lt_upper_bound; lia). nia.
Qed.

Lemma down_loop_spec r a nw lb body i s P A h t R V :
  shifts_word r a nw lb body → 0 <= nw → 0 <= lb <= 64 →
  d (s !!! r) = P ++ h :: t ++ R → lenZ P = nw + Z.of_nat i →
  takeZ (Z.of_nat i) (d (s !!! a)) = A → lenZ A = Z.of_nat i → Forall (fits 64) A → Forall (fits 64) (h :: t) → words_value (h :: t) = 2 ^ lb * V →
  ∃ ws, sets r (set_d (takeZ nw P ++ ws ++ R) (s !!! r)) s (down_loop body i s) ∧
    lenZ ws = Z.of_nat i + lenZ (h :: t) ∧ Forall (fits 64) ws ∧ words_value ws = 2 ^ lb * (words_value A + 2 ^ (64 * Z.of_nat i) * V).
Proof.
  intros Hb Hn Hlb. revert s P A h t V. induction i as [|i IH]; intros s P A h t V E LP EA LA FA Fh Vh.
  { exists (h :: t). cbn [down_loop]. rewrite takeZ_all by lia. split; [eapply sets_cong; [|apply sets_refl]|].
    - rewrite <-app_comm_cons, <-E. by destruct (s !!! r).
    - assert (A = []) as -> by (apply lenZ_0_nil; lia). split; [lia|]. split; [done|].
      rewrite Vh. change (2 ^ (64 * Z.of_nat 0)) with 1. change (words_value []) with 0. lia. }
  assert (∃ P' p, P = P' ++ [p] ∧ lenZ P' = nw + Z.of_nat i) as (P' & p & -> & LP').
  { destruct P as [|p P' _] using rev_ind; [change (lenZ (@nil Z)) with 0 in LP; lia|]. exists P', p. split; [done|].
    rewrite lenZ_app, lenZ_1 in LP. lia. }
  set (l := word (s !!! a) (Z.of_nat i)).
  assert (takeZ (Z.of_nat i) (d (s !!! a)) ++ [l] = A) as <-.
  { rewrite <-EA. rewrite (takeZ_snoc _ (Z.of_nat (S i))); [by replace (Z.of_nat (S i) - 1) with (Z.of_nat i) by lia|].
    split; [lia|]. rewrite <-EA in LA. unfold takeZ, lenZ in *. rewrite length_take in LA. lia. }
  apply Forall_app in FA as [FA Fl]. apply Forall_cons in Fl as [Fl _]. apply Forall_cons in Fh as Fh'. destruct Fh' as [Fh1 Fh2].
  rewrite <-app_assoc in E. cbn [app] in E.
  assert (2 ^ 64 = 2 ^ lb * 2 ^ (64 - lb)) as E64 by (rewrite <-Z.pow_add_r by lia; f_equal; lia).
  pose proof (Z.pow_pos_nonneg 2 lb ltac:(lia) ltac:(lia)) as Pb.
  destruct (Hb (Z.of_nat i) s P' p h t R) as (l' & h' & Fl' & Fh' & Ev & S1); [lia|exact E|exact LP'|exact Fl|exact Fh1| |].
  { rewrite words_value_cons, E64 in Vh. replace h with ((V - 2 ^ (64 - lb) * words_value t) * 2 ^ lb) by lia. by rewrite Z.mod_mul by lia. }
  fold l in Ev. set (s1 := body (Z.of_nat i) s) in *.
  assert (takeZ (Z.of_nat i) (d (s1 !!! a)) = takeZ (Z.of_nat i) (d (s !!! a))) as EA1.
  { rewrite (S1 a). destruct (decide (a = r)) as [->|]; [|done]. cbn [set_d d]. rewrite E. by rewrite !takeZ_app_le by lia. }
  destruct (IH s1 P' (takeZ (Z.of_nat i) (d (s !!! a))) l' (h' :: t) (l + 2 ^ 64 * V)) as (ws & S2 & L2 & F2 & V2).
  { by rewrite (sets_at _ _ _ _ S1). } { done. } { exact EA1. } { rewrite lenZ_app, lenZ_1 in LA. lia. } { exact FA. }
  { constructor; [done|]. by constructor. } { rewrite !words_value_cons in *. lia. }
  exists ws. split; [|split; [rewrite L2, !lenZ_cons; lia|split; [done|]]].
  - cbn [down_loop]. eapply sets_trans; [exact S1|]. eapply sets_cong; [|exact S2]. rewrite (sets_at _ _ _ _ S1).
    by rewrite takeZ_app_le by lia.
  - rewrite V2, words_value_app, words_value_cons. rewrite lenZ_app, lenZ_1 in LA. replace (lenZ (takeZ (Z.of_nat i) (d (s !!! a)))) with (Z.of_nat i) by lia.
    replace (Z.of_nat (S i)) with (1 + Z.of_nat i) by lia. rewrite pow_64_S by lia. change (words_value []) with 0. lia.
Qed.

(** * The shift by a secret amount *)

Lemma select_words_spec (r a b : var) (c : bool) n (s : bns) :
  0 <= n → n <= lenZ (d (s !!! r)) → n <= lenZ (d (s !!! a)) → n <= lenZ (d (s !!! b)) →
  Forall (fits 64) (takeZ n (d (s !!! a))) → Forall (fits 64) (takeZ n (d (s !!! b))) →
  sets r (set_d (write_at (d (s !!! r)) 0 (takeZ n (d (s !!! if c then a else b)))) (s !!! r)) s
    (bn_select_words r (mask_of c) a b n s).
Proof.
  intros Hn Hr Ha Hb Fa Fb. unfold bn_select_words.
  destruct (words_loop_spec (λ _ x y, (constant_time_select_w (mask_of c) x y, tt)) r a b (Z.to_nat n) 0 tt s) as (s' & E & L & S); [lia..|].
  rewrite E. cbn [snd]. eapply sets_cong; [|exact S]. do 2 f_equal. rewrite Z2Nat.id, !dropZ_0 by lia.
  set (xs := takeZ n (d (s !!! a))) in *. set (ys := takeZ n (d (s !!! b))) in *.
  assert (length xs = length ys) as EL.
  { unfold xs, ys, takeZ, lenZ in *. rewrite !length_take. lia. }
  transitivity (if c then xs else ys); [|by destruct c].
  clearbody xs ys. clear -Fa Fb EL. revert ys Fb EL. induction Fa as [|x xs Hx _ IH]; intros ys Fb EL; destruct Fb as [|y ys Hy Fb]; try done.
  { by destruct c. }
  cbn [map_acc]. specialize (IH ys Fb ltac:(by injection EL)). destruct (map_acc _ xs ys tt) as [u ws]. cbn [snd] in *. rewrite IH.
  rewrite select_w_spec by done. by destruct c.
Qed.

Lemma bit_length_spec v i : 0 <= v → 0 <= i → (v ≫ i =? 0) = (bit_length v <=? i).
Proof.
  intros Hv Hi. rewrite shiftr_div by lia. unfold bit_length. pose proof (Z.pow_pos_nonneg 2 i ltac:(lia) Hi).
  destruct (Z.eqb_spec v 0) as [->|Hn]; [rewrite Z.div_0_l by lia; symmetry; by apply Z.leb_le|].
  pose proof (Z.log2_lt_pow2 v i ltac:(lia)) as Hl.
  destruct (Z.eqb_spec (v / 2 ^ i) 0) as [E|E]; symmetry.
  - apply Z.div_small_iff in E; [|lia]. apply Z.leb_le. lia.
  - apply Z.leb_gt. assert (¬ Z.log2 v < i); [|lia]. intros H'. apply E. apply Z.div_small. split; [done|]. by apply Hl.
Qed.

Lemma mod_pow2_bit n i : 0 <= i → n mod 2 ^ (i + 1) = n mod 2 ^ i + (if Z.testbit n i then 2 ^ i else 0).
Proof.
  intros Hi. rewrite Z.pow_add_r by lia. change (2 ^ 1) with 2. pose proof (Z.pow_pos_nonneg 2 i ltac:(lia) Hi).
  rewrite Z.rem_mul_r by lia. pose proof (Z.testbit_spec' n i Hi) as Hb. rewrite <-Hb. destruct (Z.testbit n i); cbn [Z.b2z]; lia.
Qed.

Lemma mod_pow2_mono n i j : 0 <= i <= j → n mod 2 ^ i <= n mod 2 ^ j.
Proof.
  intros H. pose proof (Z.pow_pos_nonneg 2 i ltac:(lia) ltac:(lia)). pose proof (Z.pow_pos_nonneg 2 j ltac:(lia) ltac:(lia)).
  assert (2 ^ j = 2 ^ i * 2 ^ (j - i)) as E by (rewrite <-Z.pow_add_r by lia; f_equal; lia).
  pose proof (Z.pow_pos_nonneg 2 (j - i) ltac:(lia) ltac:(lia)). rewrite E, Z.rem_mul_r by lia.
  pose proof (Z.mod_pos_bound (n / 2 ^ i) (2 ^ (j - i)) ltac:(lia)). nia.
Qed.

Lemma write_front_twice (l x y : list Z) : lenZ x = lenZ y → lenZ x <= lenZ l → write_at (write_at l 0 x) 0 y = write_at l 0 y.
Proof.
  intros E L. destruct (cut_at l 0 (lenZ x)) as (a & b & c & -> & La & Lb); [lia|apply lenZ_nonneg|lia|].
  apply Z.eq_le_incl, lenZ_0_nil in La as ->.
  rewrite (write_at_app [] b c x 0), (write_at_app [] b c y 0) by (done || lia). by apply (write_at_app [] x c y 0).
Qed.

(** The words of [r] after the loop: shifted by the bits of [n] from the [i]-th to those of [max_bits]. *)
Lemma secret_loop_spec fuel i mb r tmp n (s : bns) :
  let w := width (s !!! r) in let L := bit_length mb in
  tmp ≠ r → 0 <= n → 0 <= mb < 2 ^ 32 → 0 <= i <= L → L <= i + Z.of_nat fuel →
  0 <= w <= lenZ (d (s !!! r)) → w <= lenZ (d (s !!! tmp)) → Forall (fits 64) (takeZ w (d (s !!! r))) →
  let s' := secret_loop fuel i mb r tmp n s in
  ∃ ws, s' !!! r = set_d (write_at (d (s !!! r)) 0 ws) (s !!! r) ∧ (∀ y, y ≠ r → y ≠ tmp → s' !!! y = s !!! y) ∧
    lenZ ws = w ∧ Forall (fits 64) ws ∧ words_value ws = words_value (takeZ w (d (s !!! r))) / 2 ^ (n mod 2 ^ L - n mod 2 ^ i).
Proof.
  intros w L Hne Hn Hmb. revert i s w. induction fuel as [|fuel IH]; intros i s w Hi HL Hr Ht Hf s'; unfold s'; cbn [secret_loop].
  all: assert (L <= i → ∃ ws, s !!! r = set_d (write_at (d (s !!! r)) 0 ws) (s !!! r) ∧ (∀ y, y ≠ r → y ≠ tmp → s !!! y = s !!! y) ∧
    lenZ ws = w ∧ Forall (fits 64) ws ∧ words_value ws = words_value (takeZ w (d (s !!! r))) / 2 ^ (n mod 2 ^ L - n mod 2 ^ i)) as Hdone.
  1, 3: intros HLi; assert (i = L) as -> by lia; exists (takeZ w (d (s !!! r))); rewrite Z.sub_diag; change (2 ^ 0) with 1; rewrite Z.div_1_r;
    split; [|split; [done|split; [apply lenZ_takeZ; lia|done]]]; unfold write_at; rewrite takeZ_0, lenZ_takeZ, takeZ_dropZ by lia; by destruct (s !!! r).
  { apply Hdone. lia. }
  rewrite bit_length_spec by lia. fold L. destruct (Z.leb_spec L i) as [HLi|HLi]; [by apply Hdone|]. clear Hdone.
  assert (L <= 32) as HL32.
  { unfold L, bit_length. destruct (Z.eqb_spec mb 0) as [|Hnz]; [lia|]. pose proof (Z.log2_lt_pow2 mb 32 ltac:(lia)). lia. }
  assert (u32 (1 ≪ i) = 2 ^ i) as ->.
  { rewrite Z.shiftl_1_l. apply wrap_small. split; [apply Z.pow_nonneg; lia|]. apply Z.pow_lt_mono_r; lia. }
  assert (u64 (0 - ((n ≫ i) .& 1)) = mask_of (Z.testbit n i)) as ->.
  { pose proof (Z.testbit_spec' n i ltac:(lia)) as Hb. rewrite shiftr_div by lia. change 1 with (2 ^ 1 - 1).
    rewrite land_mask by lia. change (2 ^ 1) with 2. rewrite <-Hb. by destruct (Z.testbit n i). }
  set (c := Z.testbit n i). fold w.
  destruct (rshift_words_spec tmp r (2 ^ i) w s) as (ws1 & S1 & L1 & F1 & V1); [apply Z.pow_nonneg; lia|lia|lia|exact Hf|].
  set (s1 := bn_rshift_words tmp r (2 ^ i) w s) in *.
  assert (s1 !!! r = s !!! r) as Er by (by apply (sets_ne _ _ _ _ _ S1)).
  assert (takeZ w (d (s1 !!! tmp)) = ws1 ∧ lenZ (d (s1 !!! tmp)) = lenZ (d (s !!! tmp))) as [Et Lt].
  { rewrite (sets_at _ _ _ _ S1). cbn [set_d d]. rewrite takeZ_write_at, takeZ_0, lenZ_write_at by lia. done. }
  rewrite Er. pose proof (select_words_spec r tmp r c w s1) as S2. rewrite Er, Et, Lt in S2.
  specialize (S2 ltac:(lia) ltac:(lia) ltac:(lia) ltac:(lia) F1 Hf). fold w. set (s2 := bn_select_words r (mask_of c) tmp r w s1) in *.
  set (ws2 := takeZ w (d (s1 !!! (if c then tmp else r)))) in *.
  assert (lenZ ws2 = w ∧ Forall (fits 64) ws2 ∧ words_value ws2 = words_value (takeZ w (d (s !!! r))) / 2 ^ (if c then 2 ^ i else 0)) as (L2 & F2 & V2).
  { unfold ws2. destruct c; [by rewrite Et|]. rewrite Er, lenZ_takeZ by lia. change (2 ^ 0) with 1. by rewrite Z.div_1_r. }
  assert (lenZ (write_at (d (s !!! r)) 0 ws2) = lenZ (d (s !!! r))) as Lw by (clear -L2 Hr; apply lenZ_write_at; lia).
  assert (takeZ w (write_at (d (s !!! r)) 0 ws2) = ws2) as Ew by (clear -L2 Hr; rewrite takeZ_write_at, takeZ_0 by lia; done).
  assert (write_front : ∀ ws, lenZ ws = w → write_at (write_at (d (s !!! r)) 0 ws2) 0 ws = write_at (d (s !!! r)) 0 ws)
    by (clear -L2 Hr; intros; apply write_front_twice; lia).
  specialize (IH (i + 1) s2). cbv zeta in IH. rewrite (sets_at _ _ _ _ S2), (sets_ne _ _ _ _ _ S2 Hne), Lt in IH.
  cbn [set_d d width] in IH. fold w in IH. rewrite Lw, Ew in IH.
  destruct IH as (ws & S3 & O3 & L3 & F3 & V3); [clear -Hi HLi; lia|clear -HL; lia|exact Hr|exact Ht|exact F2|].
  exists ws. split; [rewrite S3, write_front by done; reflexivity|].
  split; [intros y Hy Hy'; rewrite O3 by done; by rewrite (sets_ne _ _ _ _ _ S2 Hy), (sets_ne _ _ _ _ _ S1 Hy')|].
  split; [done|]. split; [done|]. rewrite V3, V2. pose proof (mod_pow2_mono n (i + 1) L ltac:(lia)) as Hmono.
  rewrite mod_pow2_bit in Hmono |- * by lia. fold c in Hmono |- *. set (x := if c then 2 ^ i else 0) in *.
  assert (0 <= x) by (unfold x; destruct c; [apply Z.pow_nonneg; lia|lia]).
  clearbody x. set (u := n mod 2 ^ L) in *. set (v := n mod 2 ^ i) in *. clearbody u v.
  pose proof (Z.pow_pos_nonneg 2 x ltac:(lia) ltac:(lia)) as P1. pose proof (Z.pow_pos_nonneg 2 (u - (v + x)) ltac:(lia) ltac:(lia)) as P2.
  rewrite Z.div_div, <-Z.pow_add_r by lia. do 2 f_equal. lia.
Qed.

Section shift_facts.
Context {libc : Libc}.

(** What the three stores after a right shift leave: the words, the sign and the minimal width. *)
Lemma shifted_words r a (s s1 : bns) ws :
  (∀ x, bn_wf (s !!! x)) → bn_wf (s1 !!! r) → 
  lenZ ws = width (s !!! a) → lenZ ws <= dmax (s1 !!! r) → Forall (fits 64) ws →
  let b := bn_set_minimal_width (set_neg (neg (s !!! a)) (set_width (width (s !!! a)) (set_d (write_at (d (s1 !!! r)) 0 ws) (s1 !!! r)))) in
  bn_ok b ∧ bn_value b = if neg (s !!! a) then - words_value ws else words_value ws.
Proof.
  intros Hs Hr L Hd F b. destruct (write_words (s1 !!! r) ws (width (s !!! a)) Hr L ltac:(lia) F) as [W V].
  destruct (set_minimal_width_spec _ (set_neg_wf (neg (s !!! a)) _ W)) as (W2 & C2 & _ & V2 & _). split; [by split|].
  unfold b. rewrite V2. unfold bn_value. cbn [set_neg neg]. set (b0 := set_width _ _) in *.
  change (mag (set_neg (neg (s !!! a)) b0)) with (words_value (words b0)). by rewrite V.
Qed.

(** The ends of [BN_rshift] and [BN_rshift1], in a store where [r] has only new words. *)
Lemma shift_tail r a (s s1 : bns) l :
  sets r (set_d l (s !!! r)) s s1 →
  let b := bn_set_minimal_width (set_neg (neg (s !!! a)) (set_width (width (s !!! a)) (set_d l (s !!! r)))) in
  let s2 := upd r (set_neg (neg (s1 !!! a))) s1 in
  let s2' := upd r (set_width (width (s1 !!! a))) s1 in
  sets r b s (upd r bn_set_minimal_width (upd r (set_width (width (s2 !!! a))) s2)) ∧
  sets r b s (upd r bn_set_minimal_width (upd r (set_neg (neg (s2' !!! a))) s2')).
Proof.
  intros S1 b s2 s2'. pose proof (sets_upd r (set_neg (neg (s1 !!! a))) s1) as S2. fold s2 in S2.
  pose proof (sets_upd r (set_width (width (s1 !!! a))) s1) as S2'. fold s2' in S2'.
  assert (neg (s1 !!! a) = neg (s !!! a) ∧ width (s1 !!! a) = width (s !!! a)) as [N1 W1].
  { rewrite (S1 a). by destruct (decide (a = r)) as [->|]. }
  assert (width (s2 !!! a) = width (s !!! a) ∧ neg (s2' !!! a) = neg (s !!! a)) as [N2 W2].
  { rewrite (S2 a), (S2' a). destruct (decide (a = r)) as [->|]; [|done]. by rewrite (sets_at _ _ _ _ S1). }
  rewrite N1, W1, N2, W2 in *. rewrite (sets_at _ _ _ _ S1) in S2, S2'. split.
  - pose proof (sets_upd r (set_width (width (s !!! a))) s2) as S3. rewrite (sets_at _ _ _ _ S2) in S3.
    pose proof (sets_upd r bn_set_minimal_width (upd r (set_width (width (s !!! a))) s2)) as S4. rewrite (sets_at _ _ _ _ S3) in S4.
    eapply sets_trans; [exact S1|]. eapply sets_trans; [exact S2|]. eapply sets_trans; [exact S3|exact S4].
  - pose proof (sets_upd r (set_neg (neg (s !!! a))) s2') as S3. rewrite (sets_at _ _ _ _ S2') in S3.
    pose proof (sets_upd r bn_set_minimal_width (upd r (set_neg (neg (s !!! a))) s2')) as S4. rewrite (sets_at _ _ _ _ S3) in S4.
    eapply sets_trans; [exact S1|]. eapply sets_trans; [exact S2'|]. eapply sets_trans; [exact S3|exact S4].
Qed.

(** Right shifts divide, rounding towards zero. *)
Lemma shifted_value b v n : 0 <= v → 0 <= n → (if neg b then - (v / 2 ^ n) else v / 2 ^ n) = Z.quot (if neg b then - v else v) (2 ^ n).
Proof.
  intros Hv Hn. pose proof (Z.pow_pos_nonneg 2 n ltac:(lia) Hn). destruct (neg b).
  - rewrite Z.quot_opp_l, Z.quot_div_nonneg by lia. done.
  - by rewrite Z.quot_div_nonneg by lia.
Qed.

(** Room, then words [f] of the operand's words, then the tail. *)
Lemma rshift_with r a n s s1 b1 (f : bns → bns) :
  (∀ x, bn_wf (s !!! x)) → 0 <= n → sets r b1 s s1 → bn_wf b1 → neg b1 = neg (s !!! r) → width b1 = width (s !!! r) →
  width (s !!! a) <= dmax b1 →
  (∃ ws, sets r (set_d (write_at (d (s1 !!! r)) 0 ws) (s1 !!! r)) s1 (f s1) ∧ lenZ ws = width (s !!! a) ∧ Forall (fits 64) ws ∧
    words_value ws = mag (s !!! a) / 2 ^ n) →
  let s2 := f s1 in
  let s3 := upd r (set_neg (neg (s2 !!! a))) s2 in
  let s3' := upd r (set_width (width (s2 !!! a))) s2 in
  ∃ b', bn_ok b' ∧ bn_value b' = Z.quot (bn_value (s !!! a)) (2 ^ n) ∧
    sets r b' s (upd r bn_set_minimal_width (upd r (set_width (width (s3 !!! a))) s3)) ∧
    sets r b' s (upd r bn_set_minimal_width (upd r (set_neg (neg (s3' !!! a))) s3')).
Proof.
  intros Hwf Hn S1 W1 N1 E1 D1 (ws & S2 & L2 & F2 & V2) s2 s3 s3'. destruct (shift_tail r a s1 s2 _ S2) as [T T'].
  assert (neg (s1 !!! a) = neg (s !!! a) ∧ width (s1 !!! a) = width (s !!! a)) as [Na Wa].
  { rewrite (S1 a). by destruct (decide (a = r)) as [->|]. }
  rewrite Na, Wa in T, T'.
  destruct (shifted_words r a s s1 ws Hwf) as [K V]; [by rewrite (sets_at _ _ _ _ S1)|done|rewrite (sets_at _ _ _ _ S1); lia|done|].
  eexists. split; [exact K|]. split; [|split; [eapply sets_trans; [exact S1|exact T]|eapply sets_trans; [exact S1|exact T']]].
  rewrite V, V2. apply shifted_value; [apply (mag_bound _ (Hwf a))|done].
Qed.

Lemma rshift_spec r a n s :
  (∀ x, bn_wf (s !!! x)) →
  match BN_rshift r a n s with
  | (Some _, s') => 0 <= n ∧ ∃ b', sets r b' s s' ∧ bn_ok b' ∧ bn_value b' = Z.quot (bn_value (s !!! a)) (2 ^ n)
  | (None, s') => s' = s ∧ (n < 0 ∨ ¬ can_hold (s !!! r) (width (s !!! a)))
  end.
Proof.
  intros Hwf. unfold BN_rshift, mbind, M_bind, getS, modifyS, ensure. cbn beta iota.
  destruct (Z.leb_spec 0 n) as [Hn|Hn]; [|split; [done|by left]]. cbn beta iota. pose proof (Hwf a) as [[Wa _] _ _ Fa].
  pose proof (make_room r (width (s !!! a)) s Hwf Wa) as Hroom.
  destruct (wexpand r (width (s !!! a)) s) as [[|] s1]; [|split; [apply Hroom|right; apply Hroom]]. split; [done|].
  destruct Hroom as (b1 & S1 & W1 & Hd1 & N1 & E1 & _ & Hops). destruct (Hops a) as [Oa La]. pose proof W1 as [_ D1 _ _].
  destruct (rshift_with r a n s s1 b1 (bn_rshift_words r a n (width (s !!! a))) Hwf Hn S1 W1 N1 E1 Hd1) as (b' & K & V & T & _); [|by exists b'].
  destruct (rshift_words_spec r a n (width (s !!! a)) s1) as (ws & S2 & L2 & F2 & V2); rewrite ?Oa, ?(sets_at _ _ _ _ S1); [lia..|exact Fa|].
  exists ws. rewrite (sets_at _ _ _ _ S1), Oa in *. done.
Qed.

Lemma rshift1_spec r a s :
  (∀ x, bn_wf (s !!! x)) →
  match BN_rshift1 r a s with
  | (Some _, s') => ∃ b', sets r b' s s' ∧ bn_ok b' ∧ bn_value b' = Z.quot (bn_value (s !!! a)) 2
  | (None, s') => s' = s ∧ ¬ can_hold (s !!! r) (width (s !!! a))
  end.
Proof.
  intros Hwf. unfold BN_rshift1, mbind, M_bind, getS, modifyS. cbn beta iota. pose proof (Hwf a) as [[Wa _] _ _ Fa].
  pose proof (make_room r (width (s !!! a)) s Hwf Wa) as Hroom.
  destruct (wexpand r (width (s !!! a)) s) as [[|] s1]; [|done].
  destruct Hroom as (b1 & S1 & W1 & Hd1 & N1 & E1 & _ & Hops). destruct (Hops a) as [Oa La]. pose proof W1 as [_ D1 _ _].
  destruct (rshift_with r a 1 s s1 b1 (bn_rshift1_words r a (width (s !!! a))) Hwf ltac:(lia) S1 W1 N1 E1 Hd1) as (b' & K & V & _ & T); [|by exists b'].
  destruct (rshift1_words_spec r a (width (s !!! a)) s1) as (ws & S2 & L2 & F2 & V2); rewrite ?Oa, ?(sets_at _ _ _ _ S1); [lia..|exact Fa|].
  exists ws. rewrite (sets_at _ _ _ _ S1), Oa in *. done.
Qed.

Lemma neg_all_wf r n (s : bns) : (∀ x, bn_wf (s !!! x)) → ∀ x, bn_wf (upd r (set_neg n) s !!! x).
Proof. intros H x. rewrite (sets_upd r (set_neg n) s x). destruct (decide (x = r)) as [->|]; [by apply set_neg_wf|done]. Qed.

(** The words of a left shift, before the width is set: zeros, the shifted words and what the array had there. *)
Lemma lshift_words r a n (s : bns) :
  let w := width (s !!! a) in let nw := n / BN_BITS2 in let lb := n mod BN_BITS2 in
  0 <= n → 0 <= w → w + nw + 1 <= lenZ (d (s !!! r)) → w <= lenZ (d (s !!! a)) → Forall (fits 64) (takeZ w (d (s !!! a))) →
  let s1 := put_word r (w + nw) 0 s in
  let s2 := down_loop (if lb =? 0 then lshift_move r a nw else lshift_bits r a nw lb (BN_BITS2 - lb)) (Z.to_nat w) s1 in
  ∃ ws R, sets r (set_d (ws ++ R) (s !!! r)) s (zero_words r 0 nw s2) ∧ lenZ ws = w + nw + 1 ∧ lenZ (ws ++ R) = lenZ (d (s !!! r)) ∧
    Forall (fits 64) ws ∧ words_value ws = words_value (takeZ w (d (s !!! a))) * 2 ^ n.
Proof.
  intros w nw lb Hn Hw Hr Ha Fa s1 s2. unfold BN_BITS2 in *.
  assert (n = 64 * nw + lb) as En by (apply Z.div_mod; lia).
  assert (0 <= lb < 64) as Hb by (apply Z.mod_pos_bound; lia). assert (0 <= nw) as Hk by (apply Z.div_pos; lia).
  destruct (cut_at (d (s !!! r)) (w + nw) 1) as (P & X & R & E & LP & LX); [lia..|].
  assert (∃ x, X = [x]) as [x ->].
  { destruct X as [|x [|? ?]]; [done|by exists x|]. rewrite !lenZ_cons in LX. pose proof (lenZ_nonneg l). lia. }
  pose proof (put_word_mid r (w + nw) 0 s P x R E LP) as S1. fold s1 in S1.
  assert (takeZ w (d (s1 !!! a)) = takeZ w (d (s !!! a))) as EA.
  { rewrite (S1 a). destruct (decide (a = r)) as [->|]; [|done]. cbn [set_d d]. rewrite E. by rewrite !takeZ_app_le by lia. }
  assert (lenZ (takeZ w (d (s !!! a))) = w) as LA by (rewrite lenZ_takeZ; lia).
  destruct (down_loop_spec r a nw lb (if lb =? 0 then lshift_move r a nw else lshift_bits r a nw lb (64 - lb)) (Z.to_nat w) s1 P
    (takeZ w (d (s !!! a))) 0 [] R 0) as (ws & S2 & L2 & F2 & V2).
  { destruct (Z.eqb_spec lb 0) as [->|]; [by apply lshift_move_word|apply lshift_bits_word; lia]. }
  { done. } { lia. } { by rewrite (sets_at _ _ _ _ S1). } { rewrite Z2Nat.id by lia. lia. } { rewrite Z2Nat.id by lia. exact EA. }
  { lia. } { exact Fa. } { repeat constructor; mlia. } { rewrite words_value_cons. change (words_value []) with 0. lia. }
  fold s2 in S2. rewrite (sets_at _ _ _ _ S1) in S2. rewrite lenZ_1, Z2Nat.id in L2 by lia.
  assert (lenZ (takeZ nw P) = nw) as LT by (rewrite lenZ_takeZ; lia).
  set (zs := replicate (Z.to_nat nw) 0). assert (lenZ zs = nw) as Lz by (unfold zs; rewrite lenZ_replicate; lia).
  exists (zs ++ ws), R. split; [|split; [rewrite lenZ_app; lia|split; [|split]]].
  - pose proof (sets_upd r (λ b, set_d (write_at (d b) 0 zs) b) s2) as S3. change (upd r _ s2) with (zero_words r 0 nw s2) in S3.
    rewrite (sets_at _ _ _ _ S2) in S3. cbn [set_d d] in S3.
    pose proof (write_at_app [] (takeZ nw P) (ws ++ R) zs 0 eq_refl ltac:(rewrite LT; done)) as Ew. cbn [app] in Ew.
    unfold set_d at 1 in S3. cbn [d] in S3. rewrite Ew, app_assoc in S3.
    eapply sets_trans; [exact S1|]. eapply sets_trans; [exact S2|exact S3].
  - rewrite E, !lenZ_app, lenZ_1. lia.
  - apply Forall_app. split; [|done]. apply Forall_replicate. split; mlia.
  - unfold zs. rewrite words_value_app, words_value_zeros. fold zs. rewrite Lz, V2, En, pow_64_split by lia. lia.
Qed.

(** A left shift multiplies. *)
Lemma lshift_spec r a n s :
  (∀ x, bn_wf (s !!! x)) →
  match BN_lshift r a n s with
  | (Some _, s') => 0 <= n ∧ ∃ b', sets r b' s s' ∧ bn_ok b' ∧ bn_value b' = bn_value (s !!! a) * 2 ^ n
  | (None, s') => n < 0 ∧ s' = s ∨ s' = upd r (set_neg (neg (s !!! a))) s ∧ ¬ can_hold (s !!! r) (width (s !!! a) + n / 64 + 1)
  end.
Proof.
  intros Hwf. unfold BN_lshift, mbind, M_bind, getS, modifyS, ensure. cbn beta iota.
  destruct (Z.leb_spec 0 n) as [Hn|Hn]; [|by left]. cbn beta iota. set (s0 := upd r _ s).
  pose proof (sets_upd r (set_neg (neg (s !!! a))) s) as S0. fold s0 in S0.
  pose proof (neg_all_wf r (neg (s !!! a)) s Hwf) as Hwf0. fold s0 in Hwf0. 
  assert (width (s0 !!! a) = width (s !!! a) ∧ words (s0 !!! a) = words (s !!! a) ∧ neg (s0 !!! a) = neg (s !!! a)) as (W0 & O0 & N0).
  { rewrite (S0 a). by destruct (decide (a = r)) as [->|]. }
  pose proof (Hwf0 a) as [[Wa _] _ _ Fa]. rewrite W0 in Wa. assert (0 <= n / 64) as Hk by (apply Z.div_pos; lia).
  change (n / BN_BITS2) with (n / 64). set (w := width (s !!! a)) in *.
  pose proof (make_room r (w + n / 64 + 1) s0 Hwf0 ltac:(lia)) as Hroom.
  assert (can_hold (s0 !!! r) (w + n / 64 + 1) ↔ can_hold (s !!! r) (w + n / 64 + 1)) as Hcan by (by rewrite (sets_at _ _ _ _ S0)).
  destruct (wexpand r (w + n / 64 + 1) s0) as [[|] s1]; [|right; destruct Hroom as [-> ?]; split; [done|tauto]]. split; [done|].
  destruct Hroom as (b1 & S1 & B1 & D1 & N1 & E1 & _ & Hops). destruct (Hops a) as [Oa La]. rewrite W0 in *. pose proof B1 as [_ L1 _ _].
  assert (width (s1 !!! a) = w) as Ws1.
  { rewrite (S1 a). destruct (decide (a = r)) as [->|]; [by rewrite E1|done]. }
  destruct (lshift_words r a n s1) as (ws & R & S2 & L2 & LR & F2 & V2); rewrite ?Ws1, ?Oa, ?(sets_at _ _ _ _ S1);
    [lia|lia|change BN_BITS2 with 64; lia|exact La|exact Fa|].
  cbv zeta in S2. rewrite Ws1, Oa, ?(sets_at _ _ _ _ S1) in *. change (n / BN_BITS2) with (n / 64) in *.
  set (s2 := zero_words r 0 (n / 64) _) in *.
  assert (width (s2 !!! a) = w) as ->.
  { rewrite (S2 a). destruct (decide (a = r)) as [->|]; [|done]. rewrite <-Ws1. by rewrite (sets_at _ _ _ _ S1). }
  pose proof (sets_upd r (set_width (w + n / 64 + 1)) s2) as S3. rewrite (sets_at _ _ _ _ S2) in S3.
  pose proof (sets_upd r bn_set_minimal_width (upd r (set_width (w + n / 64 + 1)) s2)) as S4. rewrite (sets_at _ _ _ _ S3) in S4.
  destruct (words_front b1 ws R (w + n / 64 + 1) B1 L2 ltac:(lia) F2) as [B2 O2].
  destruct (set_minimal_width_spec _ B2) as (B3 & C3 & _ & V3 & _).
  eexists. split; [eapply sets_trans; [exact S0|]; eapply sets_trans; [exact S1|]; eapply sets_trans; [exact S2|]; eapply sets_trans; [exact S3|exact S4]|].
  split; [by split|]. rewrite V3. unfold bn_value, mag. rewrite O2, V2, O0. cbn [set_width set_d neg]. rewrite N1, (sets_at _ _ _ _ S0).
  cbn [set_neg neg]. destruct (neg (s !!! a)); lia.
Qed.

Lemma lshift1_step_spec c x y :
  0 <= c <= 1 → fits 64 x → fits 64 y →
  fits 64 (lshift1_step c x y).1 ∧ 0 <= (lshift1_step c x y).2 <= 1 ∧
  (lshift1_step c x y).1 + 1 * (2 ^ 64 * (lshift1_step c x y).2) = 2 * x + 0 * y + 1 * c.
Proof.
  intros Hc Hx _. unfold lshift1_step, BN_BITS2, wrap. change (64 - 1) with 63. cbn [fst snd].
  rewrite (Z.shiftl_mul_pow2 x 1), shiftr_div by lia. unfold fits in *. change (2 ^ 1) with 2.
  assert (2 ^ 63 = 9223372036854775808) as E63 by reflexivity. rewrite pow2_64 in *. rewrite E63.
  assert ((x * 2) mod 18446744073709551616 = x mod 9223372036854775808 * 2 ^ 1) as -> by (change (2 ^ 1) with 2; lia).
  rewrite lor_mul_add by (change (2 ^ 1) with 2; lia). change (2 ^ 1) with 2. lia.
Qed.

(** Room for the operand's words and one more, [r] having the width and the sign of the operand. *)
Lemma lshift1_room r a s :
  (∀ x, bn_wf (s !!! x)) → let w := width (s !!! a) in
  match (if decide (r = a) then wexpand r (w + 1)
         else modifyS (upd r (set_neg (neg (s !!! a))));; wexpand r (w + 1);; modifyS (upd r (set_width w))) s with
  | (Some _, s') => ∃ b1, sets r b1 s s' ∧ lenZ (d b1) = dmax b1 ∧ w + 1 <= dmax b1 <= BN_MAX_WORDS ∧ width b1 = w ∧ neg b1 = neg (s !!! a) ∧
      takeZ w (d (s' !!! a)) = words (s !!! a) ∧ w <= lenZ (d (s' !!! a)) ∧ width (s' !!! a) = w
  | (None, _) => ¬ can_hold (s !!! r) (w + 1)
  end.
Proof.
  intros Hwf w. pose proof (Hwf a) as [[Wa _] _ _ _]. fold w in Wa. destruct (decide (r = a)) as [->|Hne].
  - pose proof (make_room a (w + 1) s Hwf ltac:(lia)) as Hroom. destruct (wexpand a (w + 1) s) as [[|] s1]; [|apply Hroom].
    destruct Hroom as (b1 & S1 & [_ D1 M1 _] & Hd1 & N1 & E1 & _ & Hops). destruct (Hops a) as [Oa La]. exists b1.
    rewrite (sets_at _ _ _ _ S1) in *. do 2 (split; [done|]). split; [lia|]. done.
  - unfold mbind, M_bind, modifyS. cbn beta iota. set (s0 := upd r _ s). pose proof (sets_upd r (set_neg (neg (s !!! a))) s) as S0. fold s0 in S0.
    pose proof (neg_all_wf r (neg (s !!! a)) s Hwf) as Hwf0. fold s0 in Hwf0.
    pose proof (make_room r (w + 1) s0 Hwf0 ltac:(lia)) as Hroom.
    assert (can_hold (s0 !!! r) (w + 1) ↔ can_hold (s !!! r) (w + 1)) as Hcan by (by rewrite (sets_at _ _ _ _ S0)).
    destruct (wexpand r (w + 1) s0) as [[|] s1]; [|tauto].
    destruct Hroom as (b1 & S1 & [_ D1 M1 _] & Hd1 & N1 & E1 & _ & Hops). destruct (Hops a) as [Oa La].
    assert (a ≠ r) as Hne' by (intros ->; done). rewrite (sets_ne _ _ _ _ _ S0 Hne'), (sets_at _ _ _ _ S0) in *.
    pose proof (sets_upd r (set_width w) s1) as S2. rewrite (sets_at _ _ _ _ S1) in S2. rewrite (sets_ne _ _ _ _ _ S1 Hne'), (sets_ne _ _ _ _ _ S0 Hne') in *.
    exists (set_width w b1). split; [eapply sets_trans; [exact S0|]; eapply sets_trans; [exact S1|exact S2]|].
    rewrite (sets_ne _ _ _ _ _ S2 Hne'), (sets_ne _ _ _ _ _ S1 Hne'), (sets_ne _ _ _ _ _ S0 Hne').
    do 2 (split; [done || cbn; lia|]). done.
Qed.

Lemma lshift1_spec r a s :
  (∀ x, bn_wf (s !!! x)) →
  match BN_lshift1 r a s with
  | (Some _, s') => ∃ b', sets r b' s s' ∧ bn_wf b' ∧ (bn_canonical (s !!! a) → bn_canonical b') ∧ bn_value b' = bn_value (s !!! a) * 2
  | (None, _) => ¬ can_hold (s !!! r) (width (s !!! a) + 1)
  end.
Proof.
  intros Hwf. unfold BN_lshift1. unfold getS, mbind at 1, M_bind at 1. cbn beta iota.
  pose proof (lshift1_room r a s Hwf) as H. cbv zeta in H. pose proof (Hwf a) as [[Wa0 _] _ _ Fa].
  set (m := if decide (r = a) then _ else _) in *. set (w := width (s !!! a)) in *.
  unfold mbind, M_bind, putS, modifyS in |- *. destruct (m s) as [[|] s1]; [|exact H]. cbn beta iota.
  destruct H as (b1 & S1 & D1 & M1 & W1 & N1 & Oa & La & Wa). rewrite Wa.
  destruct (words_loop_spec lshift1_step r a a (Z.to_nat w) 0 0 s1) as (s2 & E2 & L2 & S2); rewrite ?(sets_at _ _ _ _ S1); [lia..|].
  rewrite Z2Nat.id, !dropZ_0, Oa, (sets_at _ _ _ _ S1) in * by lia.
  destruct (map_acc_linear lshift1_step (λ c, 0 <= c <= 1) 2 1 0 lshift1_step_spec (words (s !!! a)) (words (s !!! a)) 0 (conj (Z.le_refl 0) Z.le_0_1) Fa Fa eq_refl)
    as (C & F & _ & V). fold (mag (s !!! a)) in V.
  destruct (map_acc lshift1_step (words (s !!! a)) (words (s !!! a)) 0) as [c ws]. cbn [fst snd] in *. rewrite E2.
  assert (lenZ (words (s !!! a)) = w) as Lw by (rewrite <-Oa, lenZ_takeZ; lia). rewrite Lw in V.
  assert (width (s2 !!! a) = w) as Wa2.
  { rewrite (S2 a). destruct (decide (a = r)) as [->|]; [|done]. done. }
  assert (∀ b' ws' n', d b' = write_at (d b1) 0 ws' → width b' = n' → dmax b' = dmax b1 → neg b' = neg b1 → lenZ ws' = n' → n' <= w + 1 → 
    Forall (fits 64) ws' → words_value ws' = 2 * mag (s !!! a) →
    bn_wf b' ∧ (bn_canonical (s !!! a) → bn_canonical b') ∧ bn_value b' = bn_value (s !!! a) * 2) as Hend.
  { intros b' ws' n' Hd Hw Hx Hn HL Hn' HF HV. pose proof (lenZ_nonneg ws').
    assert (words b' = ws') as Eo by (unfold words; rewrite Hd, takeZ_write_at by lia; by rewrite takeZ_0).
    split; [split; [lia|rewrite Hd, lenZ_write_at; lia|lia|by rewrite Eo]|].
    unfold bn_canonical, bn_value, mag. rewrite Eo, HV, Hn, N1. fold (mag (s !!! a)).
    split; [intros Hc Hneg; specialize (Hc Hneg); lia|]. destruct (neg (s !!! a)); unfold mag; lia. }
  destruct (Z.eqb_spec c 0) as [->|Hc]; cbn [negb].
  { eexists. split; [eapply sets_trans; [exact S1|exact S2]|]. apply (Hend _ ws w); try done; lia. }
  rewrite Wa2. assert (c = 1) as -> by lia.
  pose proof (sets_upd r (λ b, set_d (<[Z.to_nat w := 1]> (d b)) b) s2) as S3. fold (put_word r w 1 s2) in S3.
  rewrite (sets_at _ _ _ _ S2) in S3. pose proof (sets_upd r (λ b, set_width (width b + 1) b) (put_word r w 1 s2)) as S4.
  rewrite (sets_at _ _ _ _ S3) in S4.
  eexists. split; [eapply sets_trans; [exact S1|]; eapply sets_trans; [exact S2|]; eapply sets_trans; [exact S3|exact S4]|].
  apply (Hend _ (ws ++ [1]) (w + 1)); try done.
  - cbn [set_d set_width d]. rewrite insert_write_at by (rewrite lenZ_write_at; lia).
    rewrite <-L2, <-(Z.add_0_l (lenZ ws)) at 1. apply write_at_then; rewrite ?lenZ_1; lia.
  - cbn. lia.
  - rewrite lenZ_app, lenZ_1. lia.
  - apply Forall_app. split; [done|]. constructor; [split; mlia|constructor].
  - rewrite words_value_app, words_value_cons, L2. change (words_value []) with 0. lia.
Qed.

(** The secret shift shifts by the low bits of [n], as many as the width in bits has; the sign stays,
    also on zero. *)
Lemma rshift_secret_spec r a n tmp s :
  (∀ x, bn_wf (s !!! x)) → bn_canonical (s !!! a) → tmp ≠ r → tmp ≠ a → 0 <= n →
  match bn_rshift_secret_shift r a n tmp s with
  | (Some _, s') => (∀ y, y ≠ r → y ≠ tmp → s' !!! y = s !!! y) ∧ bn_wf (s' !!! r) ∧ neg (s' !!! r) = neg (s !!! a) ∧
      width (s' !!! r) = width (s !!! a) ∧ mag (s' !!! r) = mag (s !!! a) / 2 ^ (n mod 2 ^ bit_length (64 * width (s !!! a)))
  | (None, _) => ¬ can_hold (s !!! r) (width (s !!! a)) ∨ ¬ can_hold (s !!! tmp) (width (s !!! a))
  end.
Proof.
  intros Hwf Hc Hr Ha Hn. unfold bn_rshift_secret_shift, mbind, M_bind, getS, putS. cbn beta iota.
  pose proof (copy_spec r a s (Hwf r) (conj (Hwf a) Hc)) as H. destruct (BN_copy r a s) as [[|] s1]; [|left; apply H].
  destruct H as (b1 & S1 & [W1 _] & O1 & N1). rewrite (sets_at _ _ _ _ S1).
  assert (width b1 = width (s !!! a)) as Ew by (rewrite <-(lenZ_bn_words _ W1), <-(lenZ_bn_words _ (Hwf a)); by rewrite O1).
  pose proof W1 as [Wd1 D1 M1 _]. rewrite Ew.
  assert (s1 !!! tmp = s !!! tmp) as Et by (by apply (sets_ne _ _ _ _ _ S1)).
  pose proof (wexpand_spec tmp (width (s !!! a)) s1) as He. rewrite Et in He. specialize (He (Hwf tmp) ltac:(lia)).
  destruct (wexpand tmp _ s1) as [[|] s2]; [|right; apply He]. destruct He as (_ & b2 & S2 & W2 & _ & _ & _ & D2 & _).
  assert (s2 !!! r = b1) as Er by (rewrite (sets_ne _ _ _ _ _ S2) by done; apply (sets_at _ _ _ _ S1)).
  rewrite Er, Ew. unfold BN_BITS2. assert (BN_MAX_WORDS = 8388607) as EM by reflexivity.
  rewrite (wrap_small 32 (64 * _)) by (split; mlia).
  assert (bit_length (64 * width (s !!! a)) <= 32 ∧ 0 <= bit_length (64 * width (s !!! a))) as HL.
  { unfold bit_length. destruct (Z.eqb_spec (64 * width (s !!! a)) 0) as [|Hnz]; [lia|].
    assert (Z.log2 (64 * width (s !!! a)) < 32) by (apply Z.log2_lt_pow2; [|rewrite pow2_32]; lia).
    pose proof (Z.log2_nonneg (64 * width (s !!! a))). lia. }
  destruct (secret_loop_spec 32 0 (64 * width (s !!! a)) r tmp n s2 Hr Hn) as (ws & E & O & L & F & V); rewrite ?Er.
  { rewrite pow2_32. lia. } { lia. } { lia. } { lia. }
  { rewrite (sets_at _ _ _ _ S2). destruct W2 as [? -> ? ?]. lia. } { apply W1. }
  rewrite Er in E, L, V. set (s3 := secret_loop _ _ _ _ _ _ _) in *.
  destruct (write_words b1 ws (width b1) W1 L ltac:(lia) F) as [W3 O3].
  assert (set_width (width b1) (set_d (write_at (d b1) 0 ws) b1) = s3 !!! r) as E3 by (by rewrite E).
  rewrite E3 in W3, O3. split; [|split; [done|split; [by rewrite E|split; [by rewrite E|]]]].
  - intros y Hy Hy'. rewrite O by done. by rewrite (sets_ne _ _ _ _ _ S2 Hy'), (sets_ne _ _ _ _ _ S1 Hy).
  - unfold mag at 1. rewrite O3, V. change (takeZ (width b1) (d b1)) with (words b1). rewrite O1. change (n mod 2 ^ 0) with (n mod 1). by rewrite Z.mod_1_r, Z.sub_0_r.
Qed.
End shift_facts.

(** * Properties *)

(** C22. Shifts of signed big numbers: with room in the result, a left shift multiplies by the power of
    two and a right shift divides by it rounding towards zero, whatever the two numbers' arrays hold
    beyond their widths and also when they are the same number; the result is normalised and has no
    negative zero, no other number changes, and shifting back gives the value shifted. *)
Theorem bn_shifts {libc : Libc} r a n s :
  (∀ x, bn_wf (s !!! x)) → 0 <= n → (∀ k, 0 <= k <= width (s !!! a) + n / 64 + 1 → can_hold (s !!! r) k) →
  (∃ c s', BN_rshift r a n s = (Some (), s') ∧ sets r c s s' ∧ bn_ok c ∧ bn_value c = Z.quot (bn_value (s !!! a)) (2 ^ n)) ∧
  (∃ c s', BN_lshift r a n s = (Some (), s') ∧ sets r c s s' ∧ bn_ok c ∧ bn_value c = bn_value (s !!! a) * 2 ^ n ∧
    ∃ c' s'', BN_rshift r r n s' = (Some (), s'') ∧ sets r c' s s'' ∧ bn_ok c' ∧ bn_value c' = bn_value (s !!! a)).
Proof.
  intros Hwf Hn Hroom. pose proof (Hwf a) as [[Wa _] _ _ _]. assert (0 <= n / 64) by (apply Z.div_pos; lia). split.
  - pose proof (rshift_spec r a n s Hwf) as H1. destruct (BN_rshift r a n s) as [[[]|] s1].
    + destruct H1 as [_ (c & H1)]. by exists c, s1.
    + destruct H1 as [_ [?|H1]]; [lia|]. destruct H1. apply Hroom. lia.
  - pose proof (lshift_spec r a n s Hwf) as H1. destruct (BN_lshift r a n s) as [[[]|] s1].
    2: { destruct H1 as [[? _]|[_ H1]]; [lia|]. destruct H1. apply Hroom. lia. }
    destruct H1 as [_ (c & S1 & [Wc Cc] & V1)]. exists c, s1. do 2 (split; [done|]). split; [done|]. split; [done|].
    assert (∀ x, bn_wf (s1 !!! x)) as Hwf1 by (intros x; rewrite (S1 x); destruct (decide (x = r)); done).
    pose proof (rshift_spec r r n s1 Hwf1) as H2. rewrite (sets_at _ _ _ _ S1) in H2. destruct (BN_rshift r r n s1) as [[[]|] s2].
    + destruct H2 as [_ (c' & S2 & K2 & V2)]. exists c', s2. split; [done|]. split; [by eapply sets_trans|]. split; [done|].
      rewrite V2, V1. apply Z.quot_mul. apply Z.pow_nonzero; lia.
    + destruct H2 as [_ [?|H2]]; [lia|]. destruct H2. left. apply Wc.
Qed.

Lemma bn_shifts_witness :
  let s : bns := {[ 0%nat := bn_of true [5; 2 ^ 63; 0]; 1%nat := bn_of false [] ]} in
  (∃ c s', BN_rshift (libc := calloc_libc) 1 0 65 s = (Some (), s') ∧ sets 1 c s s' ∧ bn_ok c ∧
    bn_value c = Z.quot (bn_value (s !!! 0%nat)) (2 ^ 65)) ∧
  (∃ c s', BN_lshift (libc := calloc_libc) 1 0 65 s = (Some (), s') ∧ sets 1 c s s' ∧ bn_ok c ∧ bn_value c = bn_value (s !!! 0%nat) * 2 ^ 65 ∧
    ∃ c' s'', BN_rshift (libc := calloc_libc) 1 1 65 s' = (Some (), s'') ∧ sets 1 c' s s'' ∧ bn_ok c' ∧ bn_value c' = bn_value (s !!! 0%nat)).
Proof.
  intros s.
  assert (bn_ok (bn_of true [5; 2 ^ 63; 0]) ∧ bn_ok (bn_of false [])) as [[W0 C0] [W1 C1]] by (split; apply bn_of_ok; decide_now).
  refine (bn_shifts (libc := calloc_libc) 1 0 65 s _ _ _).
  - apply store_wf. apply map_Forall_insert_2; [exact W0|]. apply map_Forall_singleton. exact W1.
  - lia.
  - intros k Hk. apply calloc_room; [reflexivity|]. change (0 <= k <= 5) in Hk. assert (BN_MAX_WORDS = 8388607) as -> by reflexivity. lia.
Defined.

(** The shift by a secret amount agrees with the ordinary right shift on a number that is not negative,
    for amounts below the power of two above the number's width in bits; no other number changes, and
    neither does the width. *)
Theorem secret_shift_divides {libc : Libc} r a n tmp s :
  (∀ x, bn_wf (s !!! x)) → neg (s !!! a) = false → tmp ≠ r → tmp ≠ a →
  0 <= n < 2 ^ bit_length (64 * width (s !!! a)) →
  can_hold (s !!! r) (width (s !!! a)) → can_hold (s !!! tmp) (width (s !!! a)) →
  ∃ s', bn_rshift_secret_shift r a n tmp s = (Some (), s') ∧ (∀ y, y ≠ r → y ≠ tmp → s' !!! y = s !!! y) ∧ bn_ok (s' !!! r) ∧
    width (s' !!! r) = width (s !!! a) ∧ bn_value (s' !!! r) = Z.quot (bn_value (s !!! a)) (2 ^ n).
Proof.
  intros Hwf Hneg Hr Ha Hn R1 R2. pose proof (rshift_secret_spec r a n tmp s Hwf) as H. unfold bn_canonical in H. rewrite Hneg in H.
  specialize (H ltac:(done) Hr Ha (proj1 Hn)). destruct (bn_rshift_secret_shift r a n tmp s) as [[[]|] s'].
  - destruct H as (O & W & N & Ew & V). exists s'. do 2 (split; [done|]). split; [split; [done|unfold bn_canonical; by rewrite N]|]. split; [done|].
    unfold bn_value. rewrite N, Hneg, V, Z.mod_small by done. pose proof (mag_bound _ (Hwf a)). rewrite Z.quot_div_nonneg; [done|lia|].
    apply Z.pow_pos_nonneg; lia.
  - by destruct H.
Qed.

Lemma secret_shift_divides_witness :
  let s : bns := {[ 0%nat := bn_of false [0; 1]; 1%nat := bn_of false []; 2%nat := bn_of false [] ]} in
  ∃ s', bn_rshift_secret_shift (libc := calloc_libc) 1 0 61 2 s = (Some (), s') ∧ (∀ y, y ≠ 1%nat → y ≠ 2%nat → s' !!! y = s !!! y) ∧
    bn_ok (s' !!! 1%nat) ∧ width (s' !!! 1%nat) = 2 ∧ bn_value (s' !!! 1%nat) = 8.
Proof.
  intros s. assert (bn_ok (bn_of false [0; 1]) ∧ bn_ok (bn_of false [])) as [[W0 C0] [W1 C1]] by (split; apply bn_of_ok; decide_now).
  refine (secret_shift_divides (libc := calloc_libc) 1 0 61 2 s _ eq_refl _ _ _ _ _); try done.
  - apply store_wf. apply map_Forall_insert_2; [exact W0|]. apply map_Forall_insert_2; [exact W1|]. apply map_Forall_singleton. exact W1.
  - apply calloc_room; [reflexivity|]. change (0 <= 2 <= BN_MAX_WORDS). assert (BN_MAX_WORDS = 8388607) as -> by reflexivity. lia.
  - apply calloc_room; [reflexivity|]. change (0 <= 2 <= BN_MAX_WORDS). assert (BN_MAX_WORDS = 8388607) as -> by reflexivity. lia.
Defined.

(** Larger amounts are reduced: one word shifted right by 128 bits, which is zero, stays as it is. *)
Lemma secret_shift_wraps :
  let s : bns := {[ 0%nat := bn_of false [1]; 1%nat := bn_of false [7] ]} in
  let s1 := (bn_rshift_secret_shift (libc := calloc_libc) 0 0 128 1 s).2 in
  let s2 := (BN_rshift (libc := calloc_libc) 0 0 128 s).2 in
  bn_value (s1 !!! 0%nat) = 1 ∧ bn_value (s2 !!! 0%nat) = 0.
Proof. split; vm_compute; reflexivity. Qed.
