(* ===== verification/BnBits.v ===== *)
(** Bits of big numbers:
    src/HolyWater-Test/Pods/BoringSSL-GRPC/src/crypto/fipsmodule/bn/shift.c, from [BN_set_bit] on. *)
From stdpp Require Import gmap.
From S2P Require Import Prelude Mem ConstTime Bn.

Open Scope Z_scope.

(** * The code *)

Section bits.
Context {libc : Libc}.

Definition BN_set_bit (a : BIGNUM) (n : Z) : option BIGNUM :=
  if n <? 0 then None
  else
    let i := n / BN_BITS2 in
    let j := n mod BN_BITS2 in
    a ← (if width a <=? i then
           a ← bn_wexpand a (i + 1);
           Some (set_width (i + 1) (set_d (write_at (d a) (width a) (replicate (Z.to_nat (i + 1 - width a)) 0)) a))
         else Some a);
    Some (set_d (<[Z.to_nat i := word a i .| (1 ≪ j)]> (d a)) a).
End bits.

Definition BN_clear_bit (a : BIGNUM) (n : Z) : option BIGNUM :=
  if n <? 0 then None
  else
    let i := n / BN_BITS2 in
    let j := n mod BN_BITS2 in
    if width a <=? i then None
    else Some (bn_set_minimal_width (set_d (<[Z.to_nat i := word a i .& not_w (1 ≪ j)]> (d a)) a)).

Definition bn_is_bit_set_words (a : list Z) (num bit : Z) : bool :=
  let i := bit / BN_BITS2 in
  let j := bit mod BN_BITS2 in
  if num <=? i then false else negb ((nthZ a i ≫ j) .& 1 =? 0).
Definition BN_is_bit_set (a : BIGNUM) (n : Z) : bool :=
  if n <? 0 then false else bn_is_bit_set_words (d a) (width a) n.

Definition BN_mask_bits (a : BIGNUM) (n : Z) : option BIGNUM :=
  if n <? 0 then None
  else
    let w := n / BN_BITS2 in
    let b := n mod BN_BITS2 in
    if width a <=? w then Some a
    else
      let a :=
        if b =? 0 then set_width w a
        else set_d (<[Z.to_nat w := word a w .& not_w (u64 (BN_MASK2 ≪ b))]> (d a)) (set_width (w + 1) a) in
      Some (bn_set_minimal_width a).

(** One halving of [bn_count_low_zero_bits_word]. *)
Definition low_zero_step (k : Z) (bits l : Z) : Z * Z :=
  let mask := constant_time_is_zero_w (u64 (l ≪ (BN_BITS2 - k))) in
  (bits + (k .& mask), constant_time_select_w mask (l ≫ k) l).
Definition bn_count_low_zero_bits_word (l : Z) : Z :=
  let '(bits, l) := low_zero_step 32 0 l in
  let '(bits, l) := low_zero_step 16 bits l in
  let '(bits, l) := low_zero_step 8 bits l in
  let '(bits, l) := low_zero_step 4 bits l in
  let '(bits, l) := low_zero_step 2 bits l in
  let '(bits, _) := low_zero_step 1 bits l in
  bits.
Definition low_zero_turn (s : Z * Z * Z) (w : Z) : Z * Z * Z :=
  let '(i, ret, saw_nonzero) := s in
  let nonzero := not_w (constant_time_is_zero_w w) in
  let first_nonzero := not_w saw_nonzero .& nonzero in
  let saw_nonzero := saw_nonzero .| nonzero in
  let bits := bn_count_low_zero_bits_word w in
  (i + 1, to_int (u64 ret .| (first_nonzero .& (i * BN_BITS2 + bits))), saw_nonzero).
Definition BN_count_low_zero_bits (bn : BIGNUM) : Z :=
  (fold_left low_zero_turn (words bn) (0, 0, 0)).1.2.


(** * The bits of a number *)

(** Writing a word changes the bits of that word. *)
Lemma update_word b i x (b' := set_d (<[Z.to_nat i := x]> (d b)) b) :
  bn_wf b → 0 <= i < width b → fits 64 x →
  bn_wf b' ∧ ∀ m, 0 <= m → Z.testbit (mag b') m = if m / 64 =? i then Z.testbit x (m mod 64) else Z.testbit (mag b) m.
Proof.
  intros [W D M F] Hi Hx. assert (words b' = <[Z.to_nat i := x]> (words b)) as E.
  { unfold words, b', takeZ. cbn [set_d d width]. apply take_insert_lt. lia. }
  assert (Forall (fits 64) (words b')) as F' by (rewrite E; by apply Forall_insert).
  split; [split; [done| |done|done]|].
  - unfold b'. cbn [set_d d dmax]. unfold lenZ in *. by rewrite length_insert.
  - intros m Hm. unfold mag. rewrite !words_testbit by (done || lia). rewrite E. unfold nthZ. rewrite !nth_lookup.
    destruct (Z.eqb_spec (m / 64) i) as [<-|Hne].
    + rewrite list_lookup_insert_eq; [done|]. unfold words, takeZ. rewrite length_take. unfold lenZ in D. lia.
    + rewrite list_lookup_insert_ne; [done|]. assert (0 <= m / 64) by (apply Z.div_pos; lia). lia.
Qed.

Lemma bit_index m n : 0 <= m → 0 <= n → (n =? m) = (m / 64 =? n / 64) && (n mod 64 =? m mod 64).
Proof. intros. destruct (Z.eqb_spec n m), (Z.eqb_spec (m / 64) (n / 64)), (Z.eqb_spec (n mod 64) (m mod 64)); cbn [andb]; lia. Qed.

Lemma not_w_testbit x j : 0 <= j < 64 → Z.testbit (not_w x) j = negb (Z.testbit x j).
Proof. intros. unfold not_w. rewrite testbit_wrap, Z.lnot_spec by lia. by rewrite (proj2 (Z.ltb_lt j 64)) by lia. Qed.

Lemma one_shift j : 0 <= j < 64 → fits 64 (1 ≪ j) ∧ ∀ m, Z.testbit (1 ≪ j) m = (j =? m).
Proof.
  intros. rewrite Z.shiftl_1_l. split; [split; [apply Z.pow_nonneg; lia|apply Z.pow_lt_mono_r; lia]|].
  intros. apply Z.pow2_bits_eqb. lia.
Qed.

Lemma is_bit_set_spec b n : bn_wf b → BN_is_bit_set b n = (0 <=? n) && Z.testbit (mag b) n.
Proof.
  intros Hwf. unfold BN_is_bit_set, bn_is_bit_set_words, BN_BITS2. rewrite (Z.leb_antisym n 0). destruct (Z.ltb_spec n 0); [done|]. cbn [negb andb].
  pose proof Hwf as [W D M F]. destruct (Z.leb_spec (width b) (n / 64)).
  - unfold mag. rewrite words_testbit by (done || lia). unfold nthZ, words, takeZ. rewrite nth_lookup, lookup_take_ge by lia. by rewrite Z.bits_0.
  - fold (word b (n / 64)). assert (n = 64 * (n / 64) + n mod 64) as E by (apply Z.div_mod; lia). rewrite E at 3.
    rewrite <-word_testbit by (done || lia). rewrite shiftr_div by lia. change 1 with (2 ^ 1 - 1). rewrite land_mask by lia. change (2 ^ 1) with 2.
    rewrite Z.testbit_eqb by lia. destruct (Z.eqb_spec ((word b (n / 64) / 2 ^ (n mod 64)) mod 2) 0), (Z.eqb_spec ((word b (n / 64) / 2 ^ (n mod 64)) mod 2) 1); try done; lia.
Qed.

Lemma word_fits b i : bn_wf b → 0 <= i < width b → fits 64 (word b i).
Proof.
  intros [W D M F] Hi. unfold word, nthZ. rewrite nth_lookup. unfold words, takeZ in F.
  destruct (lookup_lt_is_Some_2 (d b) (Z.to_nat i)) as [w Hw]; [unfold lenZ in D; lia|]. rewrite Hw. cbn [default].
  apply (Forall_lookup_1 _ _ (Z.to_nat i) _ F). rewrite lookup_take_lt by lia. done.
Qed.

Section bits_facts.
Context {libc : Libc}.

Lemma setbit_nonzero v n : 0 <= n → Z.setbit v n ≠ 0.
Proof. intros Hn E. pose proof (Z.setbit_eq v n Hn) as H. by rewrite E, Z.bits_0 in H. Qed.

Lemma set_bit_spec a n :
  bn_wf a →
  match BN_set_bit a n with
  | Some b => 0 <= n ∧ bn_ok b ∧ mag b = Z.setbit (mag a) n ∧ neg b = neg a
  | None => n < 0 ∨ ¬ can_hold a (n / 64 + 1)
  end.
Proof.
  intros Hwf. unfold BN_set_bit, BN_BITS2. destruct (Z.ltb_spec n 0) as [|Hn]; [by left|].
  assert (0 <= n / 64) as Hi by (apply Z.div_pos; lia). set (i := n / 64) in *.
  set (room := if width a <=? i then _ else _).
  assert (match room with Some a' => bn_wf a' ∧ i < width a' ∧ mag a' = mag a ∧ neg a' = neg a | None => ¬ can_hold a (i + 1) end) as H.
  { unfold room. destruct (Z.leb_spec (width a) i) as [Hle|]; [|done]. pose proof (resize_words_spec a (i + 1) Hwf ltac:(lia)) as H.
    unfold bn_resize_words in H. rewrite (proj2 (Z.leb_le _ _)) in H by lia. destruct (bn_wexpand a (i + 1)) as [b|]; cbn [mbind option_bind] in *.
    - destruct H as (? & Ew & ? & ?). split; [done|]. rewrite Ew. split; [lia|done].
    - destruct H as [H|H]; [|done]. pose proof (mag_bound a Hwf) as [_ B]. assert (2 ^ (64 * width a) <= 2 ^ (64 * (i + 1))) by (apply Z.pow_le_mono_r; lia). lia. }
  destruct room as [a'|]; cbn [mbind option_bind]; [|by right]. destruct H as (W & Hlt & Em & En). split; [done|].
  destruct (one_shift (n mod 64)) as [F1 T1]; [apply Z.mod_pos_bound; lia|].
  assert (fits 64 (word a' i)) as Fw by (apply word_fits; [done|lia]).
  destruct (update_word a' i (word a' i .| (1 ≪ (n mod 64))) W ltac:(lia)) as [W' T]; [apply fits_lor; [lia|done|done]|].
  set (b := set_d _ a') in *.
  assert (mag b = Z.setbit (mag a) n) as Hm.
  { apply Z.bits_inj'. intros m Hm. rewrite T, Z.setbit_eqb, (bit_index m n) by done. fold i. rewrite <-Em. destruct (Z.eqb_spec (m / 64) i) as [E|E]; [|done].
    rewrite Z.lor_spec, T1, word_testbit by (done || lia). cbn [andb]. rewrite orb_comm. do 2 f_equal. lia. }
  split; [split; [done|]|done]. intros _. rewrite Hm. by apply setbit_nonzero.
Qed.

Lemma clear_bit_spec a n :
  bn_wf a →
  match BN_clear_bit a n with
  | Some b => 0 <= n < 64 * width a ∧ bn_ok b ∧ mag b = Z.clearbit (mag a) n ∧ (mag b ≠ 0 → neg b = neg a)
  | None => n < 0 ∨ 64 * width a <= n
  end.
Proof.
  intros Hwf. unfold BN_clear_bit, BN_BITS2. destruct (Z.ltb_spec n 0) as [|Hn]; [by left|].
  assert (0 <= n / 64) as Hi by (apply Z.div_pos; lia). destruct (Z.leb_spec (width a) (n / 64)) as [|Hlt]; [right; lia|].
  split; [lia|]. set (i := n / 64) in *. destruct (one_shift (n mod 64)) as [F1 T1]; [apply Z.mod_pos_bound; lia|].
  pose proof (word_fits a i Hwf ltac:(lia)) as Fw.
  destruct (update_word a i (word a i .& not_w (1 ≪ (n mod 64))) Hwf ltac:(lia)) as [W' T].
  { apply fits_land; [lia|done|]. apply wrap_fits. lia. }
  set (b := set_d _ a) in *. destruct (set_minimal_width_spec b W') as (W2 & C2 & M2 & _ & _ & N2).
  split; [by split|]. rewrite M2. split; [|exact N2]. apply Z.bits_inj'. intros m Hm. rewrite T, Z.clearbit_eqb, (bit_index m n) by done. fold i.
  destruct (Z.eqb_spec (m / 64) i) as [E|E]; [|by rewrite andb_true_r].
  rewrite Z.land_spec, not_w_testbit, T1, word_testbit by (done || lia). cbn [andb]. do 2 f_equal. lia.
Qed.

Lemma narrow_mag a i : bn_wf a → 0 <= i <= width a → mag (set_width i a) = mag a mod 2 ^ (64 * i).
Proof.
  intros Hwf Hi. unfold mag. rewrite words_set_width, (words_split a i Hwf) by lia. destruct (prefix_words a i Hwf ltac:(lia)) as [F L].
  rewrite words_value_app, L, Z.mul_comm, Z.mod_add by (pose proof (pow_64_pos i); lia). pose proof (words_value_bound _ F) as B.
  rewrite L in B. by rewrite Z.mod_small.
Qed.

Lemma high_mask b j : 0 <= b < 64 → 0 <= j < 64 → Z.testbit (not_w (u64 (BN_MASK2 ≪ b))) j = (j <? b).
Proof.
  intros Hb Hj. rewrite not_w_testbit, testbit_wrap, Z.shiftl_spec by lia. rewrite (proj2 (Z.ltb_lt j 64)) by lia. cbn [andb].
  change BN_MASK2 with (Z.ones 64). destruct (Z.ltb_spec j b); [by rewrite Z.testbit_neg_r by lia|]. by rewrite Z.ones_spec_low by lia.
Qed.

Lemma mask_bits_spec a n :
  bn_ok a →
  match BN_mask_bits a n with
  | Some b => 0 <= n ∧ bn_ok b ∧ mag b = mag a mod 2 ^ n ∧ (mag b ≠ 0 → neg b = neg a)
  | None => n < 0
  end.
Proof.
  intros [Hwf Hc]. unfold BN_mask_bits, BN_BITS2. destruct (Z.ltb_spec n 0) as [|Hn]; [done|].
  assert (0 <= n / 64) as Hi by (apply Z.div_pos; lia). destruct (Z.leb_spec (width a) (n / 64)) as [Hle|Hlt]; (split; [done|]).
  { split; [done|]. split; [|done]. pose proof (mag_bound a Hwf) as [? B]. rewrite Z.mod_small; [done|]. split; [done|].
    eapply Z.lt_le_trans; [exact B|]. apply Z.pow_le_mono_r; lia. }
  set (i := n / 64) in *. set (a' := if n mod 64 =? 0 then _ else _).
  assert (bn_wf a' ∧ mag a' = mag a mod 2 ^ n ∧ neg a' = neg a) as (W & M & N).
  { unfold a'. destruct (Z.eqb_spec (n mod 64) 0) as [E|E].
    - split; [apply wf_narrow; [done|lia]|]. split; [|done]. replace (2 ^ n) with (2 ^ (64 * i)) by (f_equal; lia). apply narrow_mag; [done|lia].
    - pose proof (wf_narrow a (i + 1) Hwf ltac:(lia)) as W1.
      destruct (update_word (set_width (i + 1) a) i (word a i .& not_w (u64 (BN_MASK2 ≪ (n mod 64)))) W1) as [W' T].
      { cbn [set_width width]. lia. } { apply fits_land; [lia|apply word_fits; [done|lia]|]. apply wrap_fits. lia. }
      split; [exact W'|]. split; [|done]. apply Z.bits_inj'. intros m Hm. cbn [set_width d] in T |- *. rewrite T, Z.testbit_mod_pow2 by done.
      rewrite narrow_mag, Z.testbit_mod_pow2 by (done || lia). destruct (Z.eqb_spec (m / 64) i) as [Em|Em].
      + rewrite Z.land_spec, high_mask, word_testbit, andb_comm by (done || lia). f_equal; [destruct (Z.ltb_spec (m mod 64) (n mod 64)), (Z.ltb_spec m n); lia|f_equal; lia].
      + f_equal. destruct (Z.ltb_spec m (64 * (i + 1))), (Z.ltb_spec m n); lia. }
  destruct (set_minimal_width_spec a' W) as (W2 & C2 & M2 & _ & _ & N2). split; [by split|]. rewrite M2, <-N. split; [exact M|exact N2].
Qed.
End bits_facts.

(** * The lowest bit *)

(** [r] is the index of the lowest bit of [v]. *)
Definition lowest_bit (v r : Z) : Prop := 0 <= r ∧ Z.testbit v r = true ∧ ∀ j, 0 <= j < r → Z.testbit v j = false.

Lemma lowest_bit_mul v r k : 0 <= k → lowest_bit v r → lowest_bit (v * 2 ^ k) (k + r).
Proof.
  intros Hk (H0 & H1 & H2). split; [lia|]. split; [by rewrite Z.mul_pow2_bits_add|]. intros j Hj. rewrite Z.mul_pow2_bits by done.
  destruct (Z.ltb_spec j k); [by apply Z.testbit_neg_r; lia|]. apply H2. lia.
Qed.

Lemma low_zero_step_spec k bits l :
  0 < k <= 32 → fits 64 l → l mod 2 ^ (k + k) ≠ 0 →
  ∃ δ l', low_zero_step k bits l = (bits + δ, l') ∧ 0 <= δ <= k ∧ l = l' * 2 ^ δ ∧ fits 64 l' ∧ l' mod 2 ^ k ≠ 0.
Proof.
  intros Hk Hl Hn. unfold low_zero_step, BN_BITS2.
  pose proof (Z.pow_pos_nonneg 2 k ltac:(lia) ltac:(lia)) as P1. pose proof (Z.pow_pos_nonneg 2 (64 - k) ltac:(lia) ltac:(lia)) as P2.
  assert (2 ^ 64 = 2 ^ k * 2 ^ (64 - k)) as E64 by (rewrite <-Z.pow_add_r by lia; f_equal; lia).
  assert (u64 (l ≪ (64 - k)) = l mod 2 ^ k * 2 ^ (64 - k)) as Em.
  { unfold wrap. rewrite Z.shiftl_mul_pow2, E64 by lia. apply Zmult_mod_distr_r. }
  rewrite is_zero_w_spec by (apply wrap_fits; lia). rewrite Em.
  assert (fits 64 (l ≫ k)) as Fs.
  { rewrite shiftr_div by lia. unfold fits in *. split; [apply Z.div_pos; lia|]. apply Z.div_lt_upper_bound; nia. }
  rewrite select_w_spec by done. rewrite Z.pow_add_r, Z.rem_mul_r in Hn by lia. rewrite shiftr_div in * by lia.
  destruct (Z.eqb_spec (l mod 2 ^ k * 2 ^ (64 - k)) 0) as [E|E].
  - assert (l mod 2 ^ k = 0) as E0 by nia. exists k, (l / 2 ^ k). unfold mask_of. rewrite Z.land_comm, land_all_ones by (split; mlia).
    split; [done|]. split; [lia|]. split; [|split; [done|nia]]. pose proof (Z.div_mod l (2 ^ k) ltac:(lia)). lia.
  - exists 0, l. change (mask_of false) with 0. rewrite Z.land_0_r. split; [done|]. split; [lia|]. change (2 ^ 0) with 1. split; [lia|]. split; [done|nia].
Qed.

Lemma low_zero_word_spec l :
  fits 64 l → 0 <= bn_count_low_zero_bits_word l < 64 ∧ (l ≠ 0 → lowest_bit l (bn_count_low_zero_bits_word l)).
Proof.
  intros Hl. destruct (Z.eq_dec l 0) as [->|Hn]; [vm_compute bn_count_low_zero_bits_word; split; [lia|done]|]. unfold bn_count_low_zero_bits_word.
  destruct (low_zero_step_spec 32 0 l) as (d1 & l1 & -> & B1 & E1 & F1 & N1); [lia|done|by rewrite Z.mod_small|].
  destruct (low_zero_step_spec 16 (0 + d1) l1) as (d2 & l2 & -> & B2 & E2 & F2 & N2); [lia|done|done|].
  destruct (low_zero_step_spec 8 (0 + d1 + d2) l2) as (d3 & l3 & -> & B3 & E3 & F3 & N3); [lia|done|done|].
  destruct (low_zero_step_spec 4 (0 + d1 + d2 + d3) l3) as (d4 & l4 & -> & B4 & E4 & F4 & N4); [lia|done|done|].
  destruct (low_zero_step_spec 2 (0 + d1 + d2 + d3 + d4) l4) as (d5 & l5 & -> & B5 & E5 & F5 & N5); [lia|done|done|].
  destruct (low_zero_step_spec 1 (0 + d1 + d2 + d3 + d4 + d5) l5) as (d6 & l6 & -> & B6 & E6 & F6 & N6); [lia|done|done|].
  split; [lia|]. intros _.
  assert (lowest_bit l6 0) as L6.
  { split; [lia|]. split; [|intros; lia]. rewrite Z.bit0_odd, Zodd_mod. change (2 ^ 1) with 2 in N6. apply Z.eqb_eq. lia. }
  replace (0 + d1 + d2 + d3 + d4 + d5 + d6) with (d1 + (d2 + (d3 + (d4 + (d5 + (d6 + 0)))))) by lia.
  rewrite E1, E2, E3, E4, E5, E6. do 6 (apply lowest_bit_mul; [lia|]). exact L6.
Qed.

Lemma testbit_cat v w k j : 0 <= k → 0 <= v < 2 ^ k → 0 <= j → Z.testbit (v + 2 ^ k * w) j = if j <? k then Z.testbit v j else Z.testbit w (j - k).
Proof.
  intros Hk Hv Hj. destruct (Z.ltb_spec j k).
  - rewrite <-(Z.mod_pow2_bits_low _ k), Z.mul_comm, Z.mod_add by lia. by rewrite Z.mod_small.
  - replace j with ((j - k) + k) at 1 by lia. rewrite <-Z.div_pow2_bits, Z.mul_comm, Z.div_add by lia. by rewrite Z.div_small, Z.add_0_l.
Qed.

(** The state of the loop after the words [p]. *)
Lemma low_zero_turns ws p ret :
  let v := words_value p in
  Forall (fits 64) p → Forall (fits 64) ws → 64 * (lenZ p + lenZ ws) < 2 ^ 31 →
  (if v =? 0 then ret = 0 else lowest_bit v ret ∧ ret < 64 * lenZ p) →
  let r := (fold_left low_zero_turn ws (lenZ p, ret, mask_of (negb (v =? 0)))).1.2 in
  let V := words_value (p ++ ws) in
  if V =? 0 then r = 0 else lowest_bit V r ∧ r < 64 * lenZ (p ++ ws).
Proof.
  revert p ret. induction ws as [|w ws IH]; intros p ret v Fp Fw Hlen Hret r V; unfold r, V.
  { rewrite app_nil_r. fold v. exact Hret. }
  apply Forall_cons in Fw as [Hw Fw]. rewrite lenZ_cons in Hlen. pose proof (lenZ_nonneg p) as L0. pose proof (lenZ_nonneg ws) as L1.
  assert (2 ^ 31 = 2147483648) as E31 by reflexivity. pose proof (words_value_bound p Fp) as Bv. fold v in Bv.
  destruct (low_zero_word_spec w Hw) as [Bb Hb]. set (bits := bn_count_low_zero_bits_word w) in *.
  assert (words_value (p ++ [w]) = v + 2 ^ (64 * lenZ p) * w) as Ev by (rewrite words_value_app, words_value_cons; change (words_value []) with 0; fold v; lia).
  pose proof (pow_64_pos (lenZ p) L0) as P0. unfold fits in Hw.
  assert ((words_value (p ++ [w]) =? 0) = (v =? 0) && (w =? 0)) as Ez.
  { rewrite Ev. destruct (Z.eqb_spec v 0), (Z.eqb_spec w 0); cbn [andb]; (apply Z.eqb_eq || apply Z.eqb_neq); nia. }
  specialize (IH (p ++ [w]) (if v =? 0 then if w =? 0 then 0 else lenZ p * 64 + bits else ret)). cbv zeta in IH.
  rewrite <-app_assoc, lenZ_app, lenZ_1, Ez in IH. cbn [app] in IH. cbn [fold_left].
  assert (low_zero_turn (lenZ p, ret, mask_of (negb (v =? 0))) w =
    (lenZ p + 1, if v =? 0 then if w =? 0 then 0 else lenZ p * 64 + bits else ret, mask_of (negb ((v =? 0) && (w =? 0))))) as ->.
  { unfold low_zero_turn, BN_BITS2. rewrite is_zero_w_spec, !not_mask by done. fold bits. destruct (Z.eqb_spec v 0) as [Hv|Hv].
    - rewrite Hret. destruct (Z.eqb_spec w 0); cbn [negb andb]; f_equal; f_equal.
      change (u64 0) with 0. change (mask_of true) with CONSTTIME_TRUE_W.
      rewrite Z.lor_0_l, !land_all_ones by (split; rewrite ?pow2_64; unfold CONSTTIME_TRUE_W; lia).
      pose proof (to_int_u64 (lenZ p * 64 + bits) ltac:(lia)) as Ht. rewrite wrap_small in Ht by (split; rewrite ?pow2_64; lia). exact Ht.
    - destruct Hret as [(R0 & _) R1]. cbn [negb andb]. change (mask_of false) with 0. rewrite !Z.land_0_l, Z.lor_0_r.
      rewrite to_int_u64 by lia. f_equal. unfold mask_of. by destruct (Z.eqb_spec w 0). }
  apply IH.
  - apply Forall_app. split; [done|]. constructor; [exact Hw|constructor].
  - done.
  - lia.
  - destruct (Z.eqb_spec v 0) as [Hv|Hv]; cbn [andb].
    + destruct (Z.eqb_spec w 0) as [|Hwn]; [done|]. split; [|lia]. rewrite Ev, Hv, Z.add_0_l, Z.mul_comm.
      replace (lenZ p * 64 + bits) with (64 * lenZ p + bits) by lia. apply lowest_bit_mul; [lia|by apply Hb].
    + destruct Hret as [(R0 & R1 & R2) R3]. split; [|lia]. rewrite Ev. split; [done|]. split.
      * rewrite testbit_cat by (done || lia). by rewrite (proj2 (Z.ltb_lt _ _)) by lia.
      * intros j Hj. rewrite testbit_cat by (done || lia). rewrite (proj2 (Z.ltb_lt j _)) by lia. by apply R2.
Qed.

Lemma count_low_zero_bits_spec b :
  bn_wf b → if mag b =? 0 then BN_count_low_zero_bits b = 0 else lowest_bit (mag b) (BN_count_low_zero_bits b).
Proof.
  intros Hwf. pose proof Hwf as [W D M F]. assert (BN_MAX_WORDS = 8388607) as EM by reflexivity. assert (2 ^ 31 = 2147483648) as E31 by reflexivity.
  pose proof (low_zero_turns (words b) [] 0 ltac:(constructor) F) as H. cbv zeta in H. rewrite (lenZ_bn_words b Hwf) in H. change (lenZ (@nil Z)) with 0 in H.
  specialize (H ltac:(lia) eq_refl). cbn [app] in H. fold (mag b) in H. change (mask_of (negb (words_value [] =? 0))) with 0 in H.
  fold (BN_count_low_zero_bits b) in H. destruct (Z.eqb_spec (mag b) 0); [done|apply H].
Qed.

(** * Properties *)

(** C25. The bits of a big number: setting a bit grows the array as far as it must and sets that bit of the
    magnitude; clearing succeeds on the bits of the words in use, clears that bit, and fails beyond them;
    masking keeps the magnitude modulo the power of two; the sign stays unless the result is zero; testing
    reads the magnitude's bit; and the count of low zero bits is the index of its lowest bit. *)
Theorem bn_bits {libc : Libc} a n :
  bn_ok a → 0 <= n → can_hold a (n / 64 + 1) →
  (∃ b, BN_set_bit a n = Some b ∧ bn_ok b ∧ mag b = Z.setbit (mag a) n ∧ neg b = neg a) ∧
  (if n <? 64 * width a
   then ∃ b, BN_clear_bit a n = Some b ∧ bn_ok b ∧ mag b = Z.clearbit (mag a) n ∧ (mag b ≠ 0 → neg b = neg a)
   else BN_clear_bit a n = None) ∧
  (∃ b, BN_mask_bits a n = Some b ∧ bn_ok b ∧ mag b = mag a mod 2 ^ n ∧ (mag b ≠ 0 → neg b = neg a)) ∧
  (∀ m, BN_is_bit_set a m = (0 <=? m) && Z.testbit (mag a) m) ∧
  (if mag a =? 0 then BN_count_low_zero_bits a = 0 else lowest_bit (mag a) (BN_count_low_zero_bits a)).
Proof.
  intros [Hwf Hc] Hn Hroom. split; [|split; [|split; [|split]]].
  - pose proof (set_bit_spec a n Hwf) as H. destruct (BN_set_bit a n) as [b|]; [exists b; tauto|destruct H; [lia|done]].
  - pose proof (clear_bit_spec a n Hwf) as H. destruct (Z.ltb_spec n (64 * width a)), (BN_clear_bit a n) as [b|]; try done.
    + exists b. tauto.
    + lia.
    + lia.
  - pose proof (mask_bits_spec a n (conj Hwf Hc)) as H. destruct (BN_mask_bits a n) as [b|]; [exists b; tauto|lia].
  - intros m. by apply is_bit_set_spec.
  - by apply count_low_zero_bits_spec.
Qed.

Lemma bn_bits_witness :
  let a := bn_of true [0; 2 ^ 63] in
  (∃ b, BN_set_bit (libc := calloc_libc) a 130 = Some b ∧ bn_ok b ∧ mag b = Z.setbit (mag a) 130 ∧ neg b = true) ∧
  BN_clear_bit a 130 = None ∧
  (∃ b, BN_mask_bits a 130 = Some b ∧ bn_ok b ∧ mag b = mag a mod 2 ^ 130 ∧ (mag b ≠ 0 → neg b = true)) ∧
  (∀ m, BN_is_bit_set a m = (0 <=? m) && Z.testbit (mag a) m) ∧
  lowest_bit (2 ^ 127) (BN_count_low_zero_bits a).
Proof.
  refine (bn_bits (libc := calloc_libc) (bn_of true [0; 2 ^ 63]) 130 _ _ _).
  - apply bn_of_ok; decide_now.
  - lia.
  - apply calloc_room; [reflexivity|]. change (0 <= 3 <= BN_MAX_WORDS). assert (BN_MAX_WORDS = 8388607) as -> by reflexivity. lia.
Defined.

(** Clearing a bit above the width fails, although the bit is clear. *)
Lemma clear_bit_beyond_width : let a := bn_of false [1] in BN_clear_bit a 64 = None ∧ BN_is_bit_set a 64 = false.
Proof. split; reflexivity. Qed.
