(* ===== verification/BnBytes.v ===== *)
(** Big numbers and byte strings:
    src/HolyWater-Test/Pods/BoringSSL-GRPC/src/crypto/fipsmodule/bn/bytes.c.  The words of a number
    in memory are the little-endian bytes [word_bytes] gives. *)
From stdpp Require Import gmap.
From S2P Require Import Prelude Mem ConstTime Bn.

Open Scope Z_scope.

(** * The code *)

(** [(const uint8_t * )d] *)
Definition word_bytes (l : list Z) : bytes := l ≫= λ w, reverse (be_bytes 8 w).

(** [word = (word << 8) | *(in++); if (m-- == 0) { ret->d[--num_words] = word; word = 0; m = BN_BYTES - 1; }] *)
Definition bin_step (s : Z * Z * Z * list Z) (b : Z) : Z * Z * Z * list Z :=
  let '(word, m, num_words, d) := s in
  let word := u64 (word ≪ 8) .| b in
  if m =? 0 then (0, BN_BYTES - 1, num_words - 1, <[Z.to_nat (num_words - 1) := word]> d)
  else (word, m - 1, num_words, d).

(** [for (i = len; i < num_bytes; i++) mask |= bytes[i]; return mask == 0] *)
Definition fits_in_bytes (b : bytes) (num_bytes len : Z) : bool :=
  fold_left (λ mask i, u8 (mask .| nthZ b i)) (seqZ len (num_bytes - len)) 0 =? 0.

Section bytes.
Context {libc : Libc}.

(** [ret == NULL] asks for a new number. *)
Definition BN_bin2bn (inp : bytes) (ret : option BIGNUM) : option BIGNUM :=
  ret ← (match ret with Some ret => Some ret | None => BN_new end);
  let len := lenZ inp in
  if len =? 0 then Some (set_width 0 ret)
  else
    let num_words := (len - 1) / BN_BYTES + 1 in
    let m := (len - 1) mod BN_BYTES in
    ret ← bn_wexpand ret num_words;
    let ret := set_neg false (set_width num_words ret) in
    Some (set_d (fold_left bin_step inp (0, m, num_words, d ret)).2 ret).

Definition BN_le2bn (inp : bytes) (ret : option BIGNUM) : option BIGNUM :=
  ret ← (match ret with Some ret => Some ret | None => BN_new end);
  let len := lenZ inp in
  if len =? 0 then Some (set_neg false (set_width 0 ret))
  else
    let num_words := (len - 1) / BN_BYTES + 1 in
    ret ← bn_wexpand ret num_words;
    let ret := set_width num_words ret in
    let l := <[Z.to_nat (num_words - 1) := 0]> (d ret) in
    Some (set_d (as_words (write_at (word_bytes l) 0 inp)) ret).
End bytes.

(** [while (i--) { l = in->d[i / BN_BYTES]; *(out++) = (unsigned char)(l >> (8 * (i % BN_BYTES))) & 0xff; }] *)
Fixpoint bn2bin_loop (b : BIGNUM) (i : nat) : bytes :=
  match i with
  | O => []
  | S i =>
      let l := word b (Z.of_nat i / BN_BYTES) in
      (u8 (l ≫ (8 * (Z.of_nat i mod BN_BYTES))) .& 0xff) :: bn2bin_loop b i
  end.
(** The bytes written to [out]; the code returns their number. *)
Definition BN_bn2bin (inp : BIGNUM) : bytes := bn2bin_loop inp (Z.to_nat (BN_num_bytes inp)).

(** The common beginning of the padded encoders: the number of bytes to write. *)
Definition padded_bytes (len : Z) (inp : BIGNUM) : option Z :=
  let num_bytes := u64 (width inp * BN_BYTES) in
  if len <? num_bytes then
    if negb (fits_in_bytes (word_bytes (d inp)) num_bytes len) then None else Some len
  else Some num_bytes.

(** The buffer [out] after the call. *)
Definition BN_bn2le_padded (out : bytes) (len : Z) (inp : BIGNUM) : option bytes :=
  num_bytes ← padded_bytes len inp;
  let out := write_at out 0 (takeZ num_bytes (word_bytes (d inp))) in
  Some (write_at out num_bytes (replicate (Z.to_nat (len - num_bytes)) 0)).

Definition BN_bn2bin_padded (out : bytes) (len : Z) (inp : BIGNUM) : option bytes :=
  num_bytes ← padded_bytes len inp;
  let out := fold_left (λ out i, <[Z.to_nat (len - i - 1) := nthZ (word_bytes (d inp)) i]> out) (seqZ 0 num_bytes) out in
  Some (write_at out 0 (replicate (Z.to_nat (len - num_bytes)) 0)).

Definition BN_get_word (bn : BIGNUM) : Z :=
  let w := bn_minimal_width bn in
  if w =? 0 then 0 else if w =? 1 then word bn 0 else BN_MASK2.

Definition BN_get_u64 (bn : BIGNUM) : option Z :=
  let w := bn_minimal_width bn in
  if w =? 0 then Some 0 else if w =? 1 then Some (word bn 0) else None.

(** * Words and bytes *)

Lemma pow_256_8 n : 0 <= n → 256 ^ (8 * n) = 2 ^ (64 * n).
Proof. intros. change 256 with (2 ^ 8). rewrite <-Z.pow_mul_r by lia. f_equal. lia. Qed.

Lemma word_bytes_cons w l : word_bytes (w :: l) = reverse (be_bytes 8 w) ++ word_bytes l.
Proof. done. Qed.

Lemma le_word_bytes l : Forall (fits 64) l → le_value (word_bytes l) = words_value l.
Proof.
  induction 1 as [|w l Hw _ IH]; [done|]. rewrite word_bytes_cons, le_value_app, le_value_reverse, be_value_be_bytes, IH, words_value_cons.
  unfold lenZ. rewrite length_reverse, length_be_bytes. change (256 ^ Z.of_nat 8) with (2 ^ 64). by rewrite Z.mod_small.
Qed.

Lemma word_bytes_ok l : bytes_ok (word_bytes l).
Proof.
  induction l as [|w l IH]; [constructor|]. rewrite word_bytes_cons. apply bytes_ok_app. split; [|done].
  unfold bytes_ok. rewrite Forall_reverse. apply be_bytes_ok.
Qed.
Lemma lenZ_word_bytes l : lenZ (word_bytes l) = 8 * lenZ l.
Proof.
  induction l as [|w l IH]; [done|]. rewrite word_bytes_cons, lenZ_app, lenZ_cons, IH. unfold lenZ at 1. rewrite length_reverse, length_be_bytes. lia.
Qed.
Lemma word_bytes_app l k : word_bytes (l ++ k) = word_bytes l ++ word_bytes k.
Proof. unfold word_bytes. apply bind_app. Qed.

Lemma bin_steps inp word m k l :
  bytes_ok inp → 0 <= m <= 7 → lenZ inp = 8 * (k - 1) + m + 1 → 0 <= k <= lenZ l → 0 <= word < 256 ^ (7 - m) →
  ∃ ws, (fold_left bin_step inp (word, m, k, l)).2 = ws ++ dropZ k l ∧ lenZ ws = k ∧ Forall (fits 64) ws ∧
    words_value ws = word * 256 ^ lenZ inp + be_value inp.
Proof.
  intros Hi. revert word m k l. induction Hi as [|b inp Hb Hi IH]; intros word m k l Hm HL Hk Hw.
  { change (lenZ (@nil Z)) with 0 in HL. assert (k = 0) as -> by lia. assert (m = 7) as -> by lia. change (256 ^ (7 - 7)) with 1 in Hw.
    exists []. cbn [fold_left]. rewrite dropZ_0. split; [done|]. split; [done|]. split; [constructor|]. change (words_value []) with 0.
    change (be_value []) with 0. lia. }
  rewrite lenZ_cons in HL. pose proof (lenZ_nonneg inp). cbn [fold_left]. unfold bin_step at 2.
  assert (256 ^ (7 - m) * 256 = 256 ^ (8 - m)) as E8 by (rewrite Z.mul_comm, <-Z.pow_succ_r by lia; f_equal; lia).
  unfold fits in Hb. change (2 ^ 8) with 256 in Hb.
  assert (256 ^ (8 - m) <= 2 ^ 64) as Hle by (change (2 ^ 64) with (256 ^ 8); apply Z.pow_le_mono_r; lia).
  assert (u64 (word ≪ 8) .| b = word * 256 + b) as ->.
  { rewrite Z.shiftl_mul_pow2 by lia. change (2 ^ 8) with 256. rewrite wrap_small by (split; lia). change 256 with (2 ^ 8).
    rewrite lor_mul_add; [done|lia|]. change (2 ^ 8) with 256. lia. }
  rewrite lenZ_cons, be_value_cons, Z.pow_add_r, Z.pow_1_r by lia. destruct (Z.eqb_spec m 0) as [->|Hm0].
  - change BN_BYTES with 8. change (8 - 0) with 8 in *. change (256 ^ 8) with (2 ^ 64) in *.
    destruct (IH 0 (8 - 1) (k - 1) (<[Z.to_nat (k - 1) := word * 256 + b]> l)) as (ws & E & L & F & V); [lia|lia| |change (256 ^ (7 - (8 - 1))) with 1; lia|].
    { unfold lenZ in *. rewrite length_insert. lia. }
    exists (ws ++ [word * 256 + b]). rewrite E. split; [|split; [rewrite lenZ_app, lenZ_1; lia|split]].
    + rewrite <-app_assoc. f_equal. rewrite insert_write_at by lia. unfold write_at. rewrite dropZ_app by (rewrite lenZ_takeZ; lia).
      rewrite lenZ_1. cbn [app]. do 2 f_equal. lia.
    + apply Forall_app. split; [done|]. constructor; [split; lia|constructor].
    + rewrite words_value_app, words_value_cons, V, L, <-pow_256_8 by lia. change (words_value []) with 0.
      replace (lenZ inp) with (8 * (k - 1)) by lia. lia.
  - destruct (IH (word * 256 + b) (m - 1) k l) as (ws & E & L & F & V); [lia|lia|lia| |].
    { replace (7 - (m - 1)) with (8 - m) by lia. lia. }
    exists ws. split; [exact E|]. split; [done|]. split; [done|]. rewrite V. lia.
Qed.

(** The words of a number from the bytes of its memory. *)
Lemma as_words_cons x y : lenZ x = 8 → as_words (x ++ y) = le_value x :: as_words y.
Proof.
  intros L. pose proof (lenZ_nonneg y). unfold as_words. rewrite lenZ_app, L. replace ((8 + lenZ y) / 8) with (1 + lenZ y / 8) by lia.
  rewrite Z2Nat.inj_add by lia. change (Z.to_nat 1 + Z.to_nat (lenZ y / 8))%nat with (S (Z.to_nat (lenZ y / 8))). cbn [seq map]. f_equal.
  - change (8 * Z.of_nat 0) with 0. rewrite dropZ_0. by rewrite takeZ_app.
  - rewrite <-seq_shift, map_map. apply map_ext. intros j. do 2 f_equal.
    replace (8 * Z.of_nat (S j)) with (lenZ x + 8 * Z.of_nat j) by lia. rewrite <-dropZ_dropZ by lia. by rewrite (dropZ_app x y).
Qed.

Lemma as_words_spec x y n :
  bytes_ok x → lenZ x = 8 * Z.of_nat n →
  ∃ ws, as_words (x ++ y) = ws ++ as_words y ∧ lenZ ws = Z.of_nat n ∧ Forall (fits 64) ws ∧ words_value ws = le_value x.
Proof.
  revert x. induction n as [|n IH]; intros x Hx L.
  { assert (x = []) as -> by (apply lenZ_0_nil; lia). exists []. split; [done|]. split; [done|]. split; [constructor|done]. }
  rewrite <-(takeZ_dropZ 8 x) in Hx |- *. apply bytes_ok_app in Hx as [H1 H2]. rewrite <-app_assoc.
  assert (lenZ (takeZ 8 x) = 8) as L1 by (rewrite lenZ_takeZ; lia).
  rewrite as_words_cons by done. destruct (IH (dropZ 8 x) H2) as (ws & -> & L2 & F & V); [rewrite lenZ_dropZ; lia|].
  exists (le_value (takeZ 8 x) :: ws). split; [done|]. split; [rewrite lenZ_cons; lia|].
  rewrite words_value_cons, le_value_app, V, L1. split; [|done]. constructor; [|done].
  rewrite <-(reverse_involutive (takeZ 8 x)), le_value_reverse. pose proof (be_value_bound (reverse (takeZ 8 x))) as B.
  unfold lenZ at 1 in B. rewrite length_reverse in B. fold (lenZ (takeZ 8 x)) in B. rewrite L1 in B. change (256 ^ 8) with (2 ^ 64) in B.
  apply B. unfold bytes_ok. by rewrite Forall_reverse.
Qed.

Lemma lenZ_as_words b : lenZ b mod 8 = 0 → 8 * lenZ (as_words b) = lenZ b.
Proof. intros. rewrite length_as_words. lia. Qed.

Section bytes_facts.
Context {libc : Libc}.

Lemma bin2bn_spec inp r :
  bytes_ok inp → bn_wf r →
  match BN_bin2bn inp (Some r) with
  | Some b => bn_wf b ∧ width b = (lenZ inp + 7) / 8 ∧ mag b = be_value inp ∧ neg b = (if lenZ inp =? 0 then neg r else false)
  | None => 0 < lenZ inp ∧ ¬ can_hold r ((lenZ inp + 7) / 8)
  end.
Proof.
  intros Hi Hwf. unfold BN_bin2bn. cbn [mbind option_bind]. pose proof (lenZ_nonneg inp) as L0. destruct (Z.eqb_spec (lenZ inp) 0) as [E|E].
  { assert (inp = []) as -> by (apply lenZ_0_nil; lia). split; [apply wf_narrow; [done|destruct Hwf; lia]|]. by rewrite E. }
  change BN_BYTES with 8. replace ((lenZ inp - 1) / 8 + 1) with ((lenZ inp + 7) / 8) by lia. set (n := (lenZ inp + 7) / 8).
  pose proof (bn_wexpand_spec r n Hwf ltac:(lia)) as He. destruct (bn_wexpand r n) as [r1|]; cbn [mbind option_bind]; [|split; [lia|done]].
  destruct He as (_ & W1 & _ & _ & _ & D1 & _). pose proof W1 as [_ LD _ _].
  destruct (bin_steps inp 0 ((lenZ inp - 1) mod 8) n (d r1)) as (ws & Ed & L & F & V); [done|lia|lia|lia|split; [lia|apply Z.pow_pos_nonneg; lia]|].
  change (d (set_neg false (set_width n r1))) with (d r1). rewrite Ed.
  destruct (words_front r1 ws (dropZ n (d r1)) n W1 L) as [W2 O2]; [rewrite lenZ_app, lenZ_dropZ; lia|done|].
  change (set_d ?x (set_neg false (set_width n r1))) with (set_neg false (set_width n (set_d x r1))).
  split; [by apply set_neg_wf|]. split; [done|]. split; [|done].
  change (words_value (words (set_width n (set_d (ws ++ dropZ n (d r1)) r1))) = be_value inp). rewrite O2, V. lia.
Qed.

Lemma le2bn_spec inp r :
  bytes_ok inp → bn_wf r →
  match BN_le2bn inp (Some r) with
  | Some b => bn_wf b ∧ width b = (lenZ inp + 7) / 8 ∧ mag b = le_value inp ∧ neg b = (if lenZ inp =? 0 then false else neg r)
  | None => 0 < lenZ inp ∧ ¬ can_hold r ((lenZ inp + 7) / 8)
  end.
Proof.
  intros Hi Hwf. unfold BN_le2bn. cbn [mbind option_bind]. pose proof (lenZ_nonneg inp) as L0. destruct (Z.eqb_spec (lenZ inp) 0) as [E|E].
  { assert (inp = []) as -> by (apply lenZ_0_nil; lia). split; [apply set_neg_wf, wf_narrow; [done|destruct Hwf; lia]|]. by rewrite E. }
  change BN_BYTES with 8. replace ((lenZ inp - 1) / 8 + 1) with ((lenZ inp + 7) / 8) by lia. set (n := (lenZ inp + 7) / 8).
  pose proof (bn_wexpand_spec r n Hwf ltac:(lia)) as He. destruct (bn_wexpand r n) as [r1|]; cbn [mbind option_bind]; [|split; [lia|done]].
  destruct He as (_ & W1 & _ & N1 & _ & D1 & _). pose proof W1 as [_ LD _ _]. cbn [set_width d].
  assert (0 < n ∧ 8 * (n - 1) < lenZ inp <= 8 * n) as Hn by (unfold n; lia). clearbody n.
  destruct (cut_at (d r1) (n - 1) 1) as (p & q & t & Ep & Lp & Lq); [lia..|].
  assert (∃ x, q = [x]) as [x ->].
  { destruct q as [|x [|? ?]]; [done|by exists x|]. rewrite !lenZ_cons in Lq. pose proof (lenZ_nonneg l). lia. }
  assert (<[Z.to_nat (n - 1) := 0]> (d r1) = p ++ 0 :: t) as ->.
  { rewrite Ep. unfold lenZ in Lp. rewrite insert_app_r_alt by lia. by replace (Z.to_nat (n - 1) - length p)%nat with 0%nat by lia. }
  rewrite word_bytes_app, word_bytes_cons. change (reverse (be_bytes 8 0)) with (replicate 8 (0 : Z)).
  set (z := replicate (Z.to_nat (8 * n - lenZ inp)) (0 : Z)).
  assert (write_at (word_bytes p ++ replicate 8 0 ++ word_bytes t) 0 inp = (inp ++ z) ++ word_bytes t) as ->.
  { unfold write_at. rewrite takeZ_0. cbn [app]. rewrite Z.add_0_l, app_assoc. rewrite dropZ_app_le by (rewrite lenZ_app, lenZ_word_bytes, lenZ_replicate; lia).
    rewrite app_assoc. do 2 f_equal. pose proof (lenZ_word_bytes p) as Lw. unfold dropZ. rewrite drop_app_ge by (unfold lenZ in *; lia).
    rewrite drop_replicate. unfold z. f_equal. unfold lenZ in *. lia. }
  assert (lenZ (inp ++ z) = 8 * n) as Lz by (unfold z; rewrite lenZ_app, lenZ_replicate; lia).
  destruct (as_words_spec (inp ++ z) (word_bytes t) (Z.to_nat n)) as (ws & -> & Lw & F & V).
  { apply bytes_ok_app. split; [done|]. apply Forall_replicate. split; lia. } { lia. }
  pose proof (lenZ_as_words (word_bytes t)) as Lt. rewrite lenZ_word_bytes in Lt. specialize (Lt ltac:(lia)).
  destruct (words_front r1 ws (as_words (word_bytes t)) n W1 ltac:(lia)) as [W2 O2]; [|done|].
  { rewrite lenZ_app. rewrite Ep, !lenZ_app, lenZ_1 in LD. lia. }
  change (set_d ?x (set_width n r1)) with (set_width n (set_d x r1)).
  split; [done|]. split; [done|]. split; [|by cbn].
  unfold mag. rewrite O2, V, le_value_app. pose proof (le_value_replicate (Z.to_nat (8 * n - lenZ inp)) 0) as Hz. fold z in Hz. lia.
Qed.
End bytes_facts.

(** * Encoding *)

Lemma mag_byte b i :
  bn_wf b → 0 <= i < 8 * width b →
  u8 (word b (i / BN_BYTES) ≫ (8 * (i mod BN_BYTES))) .& 0xff = mag b / 256 ^ i mod 256.
Proof.
  intros Hwf Hi. change BN_BYTES with 8. change 0xff with (2 ^ 8 - 1). rewrite land_mask by lia. unfold wrap. rewrite Z.mod_mod by (change (2 ^ 8) with 256; lia).
  assert (256 ^ i = 2 ^ (8 * i)) as -> by (rewrite Z.pow_mul_r by lia; done). change 256 with (2 ^ 8).
  apply Z.bits_inj'. intros j Hj. rewrite !Z.testbit_mod_pow2, Z.shiftr_spec, Z.div_pow2_bits by lia.
  destruct (Z.ltb_spec j 8); cbn [andb]; [|done]. rewrite word_testbit by (done || lia). f_equal. lia.
Qed.

Lemma bn2bin_loop_spec b i : bn_wf b → Z.of_nat i <= 8 * width b → bn2bin_loop b i = be_bytes i (mag b).
Proof.
  intros Hwf. induction i as [|i IH]; intros Hi; [done|]. cbn [bn2bin_loop]. rewrite be_bytes_S, IH by lia. f_equal. apply mag_byte; [done|lia].
Qed.

Lemma bit_length_bound v n : 0 <= n → 0 <= v < 2 ^ n → 0 <= bit_length v <= n.
Proof.
  intros Hn Hv. unfold bit_length. destruct (Z.eqb_spec v 0); [lia|]. pose proof (Z.log2_nonneg v).
  assert (Z.log2 v < n) by (apply Z.log2_lt_pow2; lia). lia.
Qed.
Lemma bit_length_lt v : 0 <= v → v < 2 ^ bit_length v.
Proof.
  intros Hv. unfold bit_length. destruct (Z.eqb_spec v 0) as [->|]; [done|]. pose proof (Z.log2_spec v ltac:(lia)) as H.
  rewrite Z.add_1_r. apply H.
Qed.

Lemma num_bytes_spec b : bn_wf b → BN_num_bytes b = (bit_length (mag b) + 7) / 8 ∧ 0 <= BN_num_bytes b <= 8 * width b ∧ mag b < 256 ^ BN_num_bytes b.
Proof.
  intros Hwf. pose proof Hwf as [W D M F]. pose proof (mag_bound b Hwf) as B. assert (BN_MAX_WORDS = 8388607) as EM by reflexivity.
  pose proof (bit_length_bound (mag b) (64 * width b) ltac:(lia) B) as Hb. pose proof (bit_length_lt (mag b) (proj1 B)) as Hl.
  assert (BN_num_bytes b = (bit_length (mag b) + 7) / 8) as E.
  { unfold BN_num_bytes. rewrite num_bits_spec by done. rewrite wrap_small by (split; rewrite ?pow2_32; lia). done. }
  rewrite E. split; [done|]. split; [split; [apply Z.div_pos; lia|lia]|].
  eapply Z.lt_le_trans; [exact Hl|]. change 256 with (2 ^ 8). rewrite <-Z.pow_mul_r by (try (apply Z.div_pos); lia). apply Z.pow_le_mono_r; lia.
Qed.

Lemma bn2bin_spec b : bn_wf b → BN_bn2bin b = be_bytes (Z.to_nat (BN_num_bytes b)) (mag b).
Proof. intros Hwf. destruct (num_bytes_spec b Hwf) as (_ & H & _). apply bn2bin_loop_spec; [done|lia]. Qed.

Lemma fold_bytes_zero l z :
  bytes_ok l → fits 8 z → fold_left (λ mask x, u8 (mask .| x)) l z = 0 ↔ z = 0 ∧ le_value l = 0.
Proof.
  intros Hl. revert z. induction Hl as [|x l Hx Hl IH]; intros z Hz; cbn [fold_left le_value]; [naive_solver|].
  rewrite (wrap_small 8) by (by apply fits_lor). rewrite IH by (by apply fits_lor). rewrite Z.lor_eq_0_iff.
  assert (0 <= le_value l).
  { rewrite <-(reverse_involutive l), le_value_reverse. apply be_value_bound. unfold bytes_ok. by rewrite Forall_reverse. }
  unfold fits in Hx. lia.
Qed.

Lemma fold_nth {A} (f : A → Z → A) l i n z :
  0 <= i → i + Z.of_nat n <= lenZ l → fold_left (λ a j, f a (nthZ l j)) (seqZ i (Z.of_nat n)) z = fold_left f (takeZ (Z.of_nat n) (dropZ i l)) z.
Proof.
  revert i z. induction n as [|n IH]; intros i z Hi Hl; [done|]. rewrite take_drop_nth by lia. rewrite seqZ_cons by lia. cbn [fold_left].
  replace (Z.pred (Z.of_nat (S n))) with (Z.of_nat n) by lia. replace (Z.succ i) with (i + 1) by lia. apply IH; lia.
Qed.

Lemma le_value_range l : bytes_ok l → 0 <= le_value l < 256 ^ lenZ l.
Proof.
  intros Hl. rewrite <-(reverse_involutive l) at 1 2. rewrite le_value_reverse. pose proof (be_value_bound (reverse l)) as B.
  unfold lenZ in B. rewrite length_reverse in B. apply B. unfold bytes_ok. by rewrite Forall_reverse.
Qed.

Lemma padded_bytes_spec b len :
  bn_wf b → 0 <= len →
  match padded_bytes len b with
  | Some n => mag b < 256 ^ len ∧ 0 <= n <= len ∧ lenZ (takeZ n (word_bytes (d b))) = n ∧ le_value (takeZ n (word_bytes (d b))) = mag b
  | None => 256 ^ len <= mag b
  end.
Proof.
  intros Hwf Hlen. pose proof Hwf as [W D M F]. assert (BN_MAX_WORDS = 8388607) as EM by reflexivity. unfold padded_bytes. change BN_BYTES with 8.
  rewrite wrap_small by (split; rewrite ?pow2_64; lia). set (wb := word_bytes (d b)).
  assert (lenZ wb = 8 * dmax b) as Lw by (unfold wb; rewrite lenZ_word_bytes; lia).
  assert (le_value (takeZ (width b * 8) wb) = mag b) as Em.
  { unfold mag. rewrite <-le_word_bytes by done. f_equal. unfold wb. rewrite <-(takeZ_dropZ (width b) (d b)), word_bytes_app.
    apply takeZ_app. rewrite lenZ_word_bytes, (lenZ_bn_words b Hwf). lia. }
  assert (∀ n, bytes_ok (takeZ n wb)) as Hok by (intros n; apply Forall_take, word_bytes_ok).
  assert (0 < 256 ^ len) as P by (apply Z.pow_pos_nonneg; lia).
  destruct (Z.ltb_spec len (width b * 8)) as [Hlt|Hge].
  - assert (takeZ (width b * 8) wb = takeZ len wb ++ takeZ (width b * 8 - len) (dropZ len wb)) as Es.
    { rewrite <-(takeZ_dropZ len (takeZ (width b * 8) wb)) at 1. by rewrite takeZ_takeZ, dropZ_takeZ by lia. }
    rewrite Es, le_value_app, lenZ_takeZ in Em by lia. pose proof (le_value_range _ (Hok len)) as B1. rewrite lenZ_takeZ in B1 by lia.
    unfold fits_in_bytes. pose proof (fold_nth (λ mask x, u8 (mask .| x)) wb len (Z.to_nat (width b * 8 - len)) 0) as Ef.
    rewrite Z2Nat.id in Ef by lia. rewrite Ef by lia.
    assert (bytes_ok (takeZ (width b * 8 - len) (dropZ len wb))) as Hr by (apply Forall_take, Forall_drop, word_bytes_ok).
    pose proof (le_value_range _ Hr) as B2. pose proof (fold_bytes_zero _ 0 Hr ltac:(split; lia)) as Hz.
    destruct (Z.eqb_spec (fold_left (λ mask x, u8 (mask .| x)) (takeZ (width b * 8 - len) (dropZ len wb)) 0) 0) as [E|E]; cbn [negb].
    + apply Hz in E as [_ E]. rewrite E in Em. rewrite lenZ_takeZ by lia. split; [lia|]. split; [lia|]. split; [done|lia].
    + assert (le_value (takeZ (width b * 8 - len) (dropZ len wb)) ≠ 0) by tauto. nia.
  - rewrite lenZ_takeZ by lia. split; [|split; [lia|done]]. pose proof (le_value_range _ (Hok (width b * 8))) as B1. rewrite Em, lenZ_takeZ in B1 by lia.
    eapply Z.lt_le_trans; [apply B1|]. apply Z.pow_le_mono_r; lia.
Qed.

(** A buffer filled with the bytes of a value. *)
Lemma padded_le b n len :
  bytes_ok b → lenZ b = n → 0 <= n <= len →
  b ++ replicate (Z.to_nat (len - n)) 0 = reverse (be_bytes (Z.to_nat len) (le_value b)).
Proof.
  intros Hb L Hn. set (x := b ++ _). assert (bytes_ok x) as Hx by (apply bytes_ok_app; split; [done|apply Forall_replicate; split; lia]).
  assert (le_value x = le_value b) as <-.
  { unfold x. rewrite le_value_app. pose proof (le_value_replicate (Z.to_nat (len - n)) 0). lia. }
  rewrite <-(reverse_involutive x) at 2. rewrite le_value_reverse, be_bytes_be_value, reverse_involutive; [done|unfold bytes_ok; by rewrite Forall_reverse|].
  rewrite length_reverse. unfold x. rewrite length_app, length_replicate. unfold lenZ in L. lia.
Qed.

Lemma bn2le_padded_spec out len b :
  bn_wf b → 0 <= len <= lenZ out →
  BN_bn2le_padded out len b = if mag b <? 256 ^ len then Some (reverse (be_bytes (Z.to_nat len) (mag b)) ++ dropZ len out) else None.
Proof.
  intros Hwf Hlen. unfold BN_bn2le_padded. pose proof (padded_bytes_spec b len Hwf ltac:(lia)) as H. destruct (padded_bytes len b) as [n|]; cbn [mbind option_bind].
  - destruct H as (Hm & Hn & Ln & E). rewrite (proj2 (Z.ltb_lt _ _)) by done. f_equal. rewrite <-E. set (x := takeZ n _) in *.
    assert (bytes_ok x) as Hx by (apply Forall_take, word_bytes_ok). rewrite <-(padded_le x n len Hx Ln Hn). set (z := replicate _ 0).
    assert (lenZ z = len - n) as Lz by (unfold z; rewrite lenZ_replicate; lia).
    transitivity (write_at out 0 (x ++ z)); [rewrite <-(write_at_then out 0 x z) by lia; by rewrite Ln|].
    unfold write_at. rewrite takeZ_0, lenZ_app. cbn [app]. do 2 f_equal. lia.
  - by rewrite (proj2 (Z.ltb_ge _ _)).
Qed.

(** [out[len - i - 1] = bytes[i]]. *)
Lemma fill_reverse (l : bytes) n len out :
  Z.of_nat n <= lenZ l → Z.of_nat n <= len <= lenZ out →
  fold_left (λ out i, <[Z.to_nat (len - i - 1) := nthZ l i]> out) (seqZ 0 (Z.of_nat n)) out =
  takeZ (len - Z.of_nat n) out ++ reverse (takeZ (Z.of_nat n) l) ++ dropZ len out.
Proof.
  induction n as [|n IH]; intros Hl Hn.
  { change (seqZ 0 (Z.of_nat 0)) with (@nil Z). cbn [fold_left]. rewrite Z.sub_0_r, takeZ_0. cbn. by rewrite takeZ_dropZ. }
  assert (seqZ 0 (Z.of_nat (S n)) = seqZ 0 (Z.of_nat n) ++ [Z.of_nat n]) as ->.
  { rewrite Nat2Z.inj_succ. unfold seqZ. rewrite Z2Nat.inj_succ, seq_S, fmap_app, Nat2Z.id by lia. cbn. do 2 f_equal. lia. }
  rewrite fold_left_app, IH by lia. cbn [fold_left]. set (x := nthZ l (Z.of_nat n)).
  assert (takeZ (Z.of_nat (S n)) l = takeZ (Z.of_nat n) l ++ [x]) as ->.
  { rewrite (takeZ_snoc l) by lia. by replace (Z.of_nat (S n) - 1) with (Z.of_nat n) by lia. }
  rewrite reverse_app. change (reverse [x]) with [x].
  rewrite (takeZ_snoc out (len - Z.of_nat n)) by lia. replace (len - Z.of_nat (S n)) with (len - Z.of_nat n - 1) by lia.
  rewrite <-!app_assoc. pose proof (lenZ_takeZ (len - Z.of_nat n - 1) out ltac:(lia)) as L. unfold lenZ in L.
  rewrite insert_app_r_alt by lia. f_equal. by replace (Z.to_nat (len - Z.of_nat n - 1) - _)%nat with 0%nat by lia.
Qed.

Lemma bn2bin_padded_spec out len b :
  bn_wf b → 0 <= len <= lenZ out →
  BN_bn2bin_padded out len b = if mag b <? 256 ^ len then Some (be_bytes (Z.to_nat len) (mag b) ++ dropZ len out) else None.
Proof.
  intros Hwf Hlen. unfold BN_bn2bin_padded. pose proof (padded_bytes_spec b len Hwf ltac:(lia)) as H. destruct (padded_bytes len b) as [n|]; cbn [mbind option_bind].
  - destruct H as (Hm & Hn & Ln & E). rewrite (proj2 (Z.ltb_lt _ _)) by done. f_equal. set (wb := word_bytes (d b)) in *.
    assert (n <= lenZ wb) as Hwb by (unfold takeZ, lenZ in *; rewrite length_take in Ln; lia).
    pose proof (fill_reverse wb (Z.to_nat n) len out) as Ef. rewrite Z2Nat.id in Ef by lia. rewrite Ef by lia.
    assert (bytes_ok (takeZ n wb)) as Hx by (apply Forall_take, word_bytes_ok).
    pose proof (padded_le (takeZ n wb) n len Hx Ln Hn) as Ep. rewrite E in Ep. apply (f_equal reverse) in Ep. rewrite reverse_involutive, reverse_app, reverse_replicate in Ep.
    rewrite <-Ep, <-app_assoc. apply (write_at_app [] (takeZ (len - n) out) _ (replicate (Z.to_nat (len - n)) 0)); [done|].
    rewrite lenZ_takeZ, lenZ_replicate; lia.
  - by rewrite (proj2 (Z.ltb_ge _ _)).
Qed.

(** The widths that [BN_get_word] and [BN_get_u64] tell apart. *)
Lemma one_word b (m := bn_minimal_width b) :
  bn_wf b → m = 0 ∧ mag b = 0 ∨ m = 1 ∧ word b 0 = mag b ∧ mag b < 2 ^ 64 ∨ m ≠ 0 ∧ m ≠ 1 ∧ 2 ^ 64 <= mag b.
Proof.
  intros Hwf. destruct (minimal_width_spec b Hwf) as (Hr & Hv & H0 & _). pose proof (top_word b Hwf) as Ht. cbv zeta in Ht.
  fold m in Hr, Hv, H0, Ht. destruct (Z.eq_dec m 0) as [E|E]; [left; tauto|]. right. destruct (Ht E) as (B & T & V). destruct (Z.eq_dec m 1) as [E1|E1].
  - left. rewrite E1 in *. change (1 - 1) with 0 in *. change (2 ^ (64 * 0)) with 1 in *. lia.
  - right. do 2 (split; [done|]). assert (2 ^ 64 <= 2 ^ (64 * (m - 1))) by (apply Z.pow_le_mono_r; lia). nia.
Qed.

Lemma get_word_spec b : bn_wf b → BN_get_word b = if mag b <? 2 ^ 64 then mag b else BN_MASK2.
Proof.
  intros Hwf. unfold BN_get_word. destruct (one_word b Hwf) as [[-> ->]|[(-> & -> & H)|(H0 & H1 & H)]]; [done|by rewrite (proj2 (Z.ltb_lt _ _))|].
  by rewrite (proj2 (Z.eqb_neq _ _) H0), (proj2 (Z.eqb_neq _ _) H1), (proj2 (Z.ltb_ge _ _)).
Qed.

Lemma get_u64_spec b : bn_wf b → BN_get_u64 b = if mag b <? 2 ^ 64 then Some (mag b) else None.
Proof.
  intros Hwf. unfold BN_get_u64. destruct (one_word b Hwf) as [[-> ->]|[(-> & -> & H)|(H0 & H1 & H)]]; [done|by rewrite (proj2 (Z.ltb_lt _ _))|].
  by rewrite (proj2 (Z.eqb_neq _ _) H0), (proj2 (Z.eqb_neq _ _) H1), (proj2 (Z.ltb_ge _ _)).
Qed.

(** Reading bytes where there is room for them. *)
Lemma bin2bn_reads {libc : Libc} inp r :
  bytes_ok inp → bn_wf r → can_hold r ((lenZ inp + 7) / 8) →
  ∃ c, BN_bin2bn inp (Some r) = Some c ∧ bn_wf c ∧ (inp ≠ [] → bn_ok c) ∧ mag c = be_value inp ∧ bn_value c = be_value inp.
Proof.
  intros Hi Hr Hroom. pose proof (bin2bn_spec inp r Hi Hr) as H. destruct (BN_bin2bn inp (Some r)) as [c|]; [|by destruct H as [_ []]].
  destruct H as (W & _ & M & N). exists c. split; [done|]. split; [done|]. destruct inp as [|x inp].
  - split; [done|]. split; [done|]. unfold bn_value. rewrite M. by destruct (neg c).
  - rewrite (proj2 (Z.eqb_neq _ _)) in N by (rewrite lenZ_cons; pose proof (lenZ_nonneg inp); lia).
    split; [intros _; split; [done|unfold bn_canonical; by rewrite N]|]. split; [done|]. unfold bn_value. by rewrite N.
Qed.

(** * Properties *)

(** C23. Big-endian bytes and back.  With room for it, reading [inp] into a number gives the value of [inp], and
    writing that number into a buffer of the same length gives [inp] again.  Any number, written as bytes
    and read into another one, comes back as its absolute value: the bytes carry no sign.  What was read is
    in canonical form, but for the empty string, which leaves the sign of the number it is read into. *)
Theorem bn_bytes_round_trip {libc : Libc} inp r b out :
  bytes_ok inp → bn_wf r → can_hold r ((lenZ inp + 7) / 8) → lenZ inp <= lenZ out →
  bn_wf b → can_hold r ((BN_num_bytes b + 7) / 8) →
  (∃ c, BN_bin2bn inp (Some r) = Some c ∧ bn_wf c ∧ (inp ≠ [] → bn_ok c) ∧ bn_value c = be_value inp ∧
    BN_bn2bin_padded out (lenZ inp) c = Some (inp ++ dropZ (lenZ inp) out)) ∧
  (∃ c, BN_bin2bn (BN_bn2bin b) (Some r) = Some c ∧ bn_wf c ∧ (bn_value b ≠ 0 → bn_ok c) ∧ bn_value c = Z.abs (bn_value b)).
Proof.
  intros Hi Hr Hroom Hout Hb Hroom2. pose proof (lenZ_nonneg inp) as L0. split.
  - destruct (bin2bn_reads inp r Hi Hr Hroom) as (c & E & W & Hok & M & V). exists c. split; [done|]. split; [done|]. split; [done|]. split; [done|].
    rewrite bn2bin_padded_spec by (done || lia). rewrite M. pose proof (be_value_bound inp Hi) as B.
    rewrite (proj2 (Z.ltb_lt _ _)) by lia. by rewrite be_bytes_be_value by (done || unfold lenZ; lia).
  - destruct (num_bytes_spec b Hb) as (_ & Hnb & Hlt). pose proof (bn2bin_spec b Hb) as E. pose proof (mag_bound b Hb).
    assert (lenZ (BN_bn2bin b) = BN_num_bytes b) as L by (rewrite E, lenZ_be_bytes; lia).
    assert (be_value (BN_bn2bin b) = mag b) as V by (rewrite E, be_value_be_bytes, Z2Nat.id by lia; apply Z.mod_small; lia).
    destruct (bin2bn_reads (BN_bn2bin b) r) as (c & Ec & W & Hok & M & Vc); [rewrite E; apply be_bytes_ok|done|by rewrite L|].
    rewrite V in Vc. exists c. split; [done|]. split; [done|].
    assert (Z.abs (bn_value b) = mag b) as Eb by (unfold bn_value; destruct (neg b); lia). rewrite Eb. split; [|done].
    intros Hn. apply Hok. intros En. rewrite En in V. cbn in V. lia.
Qed.

(** A negative number, whose bytes are those of its absolute value. *)
Lemma bn_bytes_round_trip_witness :
  let r := bn_of true [7] in let b := bn_of true [0; 258] in
  (∃ c, BN_bin2bn (libc := calloc_libc) [0; 1; 2; 3; 4; 5; 6; 7; 8] (Some r) = Some c ∧ bn_wf c ∧ ([0; 1; 2; 3; 4; 5; 6; 7; 8] ≠ [] → bn_ok c) ∧
    bn_value c = 0x0102030405060708 ∧ BN_bn2bin_padded (replicate 10 9) 9 c = Some [0; 1; 2; 3; 4; 5; 6; 7; 8; 9]) ∧
  (∃ c, BN_bin2bn (libc := calloc_libc) (BN_bn2bin b) (Some r) = Some c ∧ bn_wf c ∧ (bn_value b ≠ 0 → bn_ok c) ∧ bn_value c = 258 * 2 ^ 64).
Proof.
  assert (bn_ok (bn_of true [7]) ∧ bn_ok (bn_of true [0; 258])) as [[W0 C0] [W1 C1]] by (split; apply bn_of_ok; decide_now).
  assert (BN_MAX_WORDS = 8388607) as EM by reflexivity.
  refine (bn_bytes_round_trip (libc := calloc_libc) [0; 1; 2; 3; 4; 5; 6; 7; 8] (bn_of true [7]) (bn_of true [0; 258]) (replicate 10 9) _ W0 _ _ W1 _).
  - decide_now.
  - apply calloc_room; [reflexivity|]. change (0 <= 2 <= BN_MAX_WORDS). lia.
  - decide_now.
  - apply calloc_room; [reflexivity|]. change (0 <= 2 <= BN_MAX_WORDS). lia.
Defined.

(** C24. The encoders and the word accessors, on every number whose representation is sound: the shortest
    big-endian encoding has as many bytes as the magnitude needs; the padded encoders fill exactly the
    given length in their byte order and fail if and only if the magnitude does not fit; the word
    accessors give the magnitude if it fits a word, and else all ones or a failure. *)
Theorem bn_encoders b out len :
  bn_wf b → 0 <= len <= lenZ out →
  BN_bn2bin b = be_bytes (Z.to_nat ((bit_length (mag b) + 7) / 8)) (mag b) ∧
  BN_bn2bin_padded out len b = (if mag b <? 256 ^ len then Some (be_bytes (Z.to_nat len) (mag b) ++ dropZ len out) else None) ∧
  BN_bn2le_padded out len b = (if mag b <? 256 ^ len then Some (reverse (be_bytes (Z.to_nat len) (mag b)) ++ dropZ len out) else None) ∧
  BN_get_word b = (if mag b <? 2 ^ 64 then mag b else BN_MASK2) ∧
  BN_get_u64 b = (if mag b <? 2 ^ 64 then Some (mag b) else None).
Proof.
  intros Hwf Hlen. split; [|split; [by apply bn2bin_padded_spec|split; [by apply bn2le_padded_spec|split; [by apply get_word_spec|by apply get_u64_spec]]]].
  rewrite bn2bin_spec by done. by destruct (num_bytes_spec b Hwf) as [-> _].
Qed.

Lemma bn_encoders_witness :
  let b := bn_of false [258; 3; 0] in let out := replicate 10 9 in
  BN_bn2bin b = be_bytes (Z.to_nat ((bit_length (mag b) + 7) / 8)) (mag b) ∧
  BN_bn2bin_padded out 9 b = Some [3; 0; 0; 0; 0; 0; 0; 1; 2; 9] ∧
  BN_bn2le_padded out 9 b = Some [2; 1; 0; 0; 0; 0; 0; 0; 3; 9] ∧
  BN_get_word b = BN_MASK2 ∧
  BN_get_u64 b = None.
Proof.
  refine (bn_encoders (bn_of false [258; 3; 0]) (replicate 10 9) 9 _ _); [|decide_now].
  apply bn_of_ok; decide_now.
Defined.

(** No bytes leave the sign of the number they are read into, so that it becomes a negative zero. *)
Lemma bin2bn_empty_negative_zero :
  BN_bin2bn (libc := calloc_libc) [] (Some (bn_of true [7])) = Some (set_width 0 (bn_of true [7])) ∧
  BN_is_negative (set_width 0 (bn_of true [7])) = true ∧ BN_is_zero (set_width 0 (bn_of true [7])) = true.
Proof. repeat split; reflexivity. Qed.

(** The little-endian reader keeps the sign of the number it reads into. *)
Lemma le2bn_keeps_sign :
  option_map bn_value (BN_le2bn (libc := calloc_libc) [5] (Some (bn_of true [7]))) = Some (-5).
Proof. vm_compute. reflexivity. Qed.
