(* ===== verification/BnWords.v ===== *)
(** The multiplication of arrays of words:
    src/HolyWater-Test/Pods/BoringSSL-GRPC/src/crypto/fipsmodule/bn/generic.c and the loops of mul.c over
    them.  The application is built with OPENSSL_NO_ASM and 128-bit integers, so these are the
    functions it runs.  A function that writes an array returns the words it writes; the loops read
    index [i] of every operand before they write index [i], so a result may be in place of an operand
    that starts at the same word. *)
From S2P Require Import Prelude ConstTime Bn BnAdd.

Open Scope Z_scope.

(** * The code *)

Definition add_words (a b : list Z) : Z * list Z := let '(ll, r) := map_acc add_step a b 0 in (u64 ll, r).
Definition sub_words (a b : list Z) : Z * list Z := map_acc sub_step a b 0.
Definition select_words (mask : Z) (a b : list Z) : list Z := zip_with (constant_time_select_w mask) a b.

(** [#define Lw(t) ((BN_ULONG)(t))] and [#define Hw(t) ((BN_ULONG)((t) >> BN_BITS2))] *)
Definition Lw (t : Z) : Z := u64 t.
Definition Hw (t : Z) : Z := u64 (t ≫ BN_BITS2).

(** The macros [mul_add] and [mul], the latter on [ap[i]]; [c] is the carry. *)
Definition mul_add (w c r a : Z) : Z * Z := let t := wrap 128 (wrap 128 (wrap 128 (w * a) + r) + c) in (Lw t, Hw t).
Definition mul (w c a _ : Z) : Z * Z := let t := wrap 128 (wrap 128 (w * a) + c) in (Lw t, Hw t).
Definition bn_mul_add_words (r a : list Z) (w : Z) : Z * list Z := map_acc (mul_add w) r a 0.
Definition bn_mul_words (a : list Z) (w : Z) : Z * list Z := map_acc (mul w) a a 0.
Definition bn_sqr_words (a : list Z) : list Z := a ≫= λ x, let t := wrap 128 (x * x) in [Lw t; Hw t].

(** Three-word columns [(c0, c1, c2)]: [c += a * b], [c += 2 * a * b], [c += a * a]. *)
Definition mul_add_c (c : Z * Z * Z) (a b : Z) : Z * Z * Z :=
  let '(c0, c1, c2) := c in
  let t := wrap 128 (wrap 128 (a * b) + c0) in
  let c0 := Lw t in
  let hi := Hw t in
  let c1 := u64 (c1 + hi) in
  (c0, c1, if c1 <? hi then u64 (c2 + 1) else c2).
Definition mul_add_c2 (c : Z * Z * Z) (a b : Z) : Z * Z * Z :=
  let '(c0, c1, c2) := c in
  let t := wrap 128 (a * b) in
  let tt := wrap 128 (t + c0) in
  let c0 := Lw tt in
  let hi := Hw tt in
  let c1 := u64 (c1 + hi) in
  let c2 := if c1 <? hi then u64 (c2 + 1) else c2 in
  let t := wrap 128 (t + c0) in
  let c0 := Lw t in
  let hi := Hw t in
  let c1 := u64 (c1 + hi) in
  (c0, c1, if c1 <? hi then u64 (c2 + 1) else c2).
Definition sqr_add_c (a : list Z) (i : Z) (c : Z * Z * Z) : Z * Z * Z := mul_add_c c (nthZ a i) (nthZ a i).
Definition sqr_add_c2 (a : list Z) (i j : Z) (c : Z * Z * Z) : Z * Z * Z := mul_add_c2 c (nthZ a i) (nthZ a j).

(** Column after column: the low word is the result's, the others move down and the next top word is zero.
    After the last column the low word is the result's last. *)
Fixpoint comba (f : Z * Z * Z → Z * Z → Z * Z * Z) (c0 c1 : Z) (cols : list (list (Z * Z))) : list Z :=
  match cols with
  | [] => [c0]
  | col :: cols => let '(x, y, z) := fold_left f col (c0, c1, 0) in x :: comba f y z cols
  end.
Definition mul_turn (a b : list Z) (c : Z * Z * Z) (ij : Z * Z) : Z * Z * Z := mul_add_c c (nthZ a ij.1) (nthZ b ij.2).
Definition sqr_turn (a : list Z) (c : Z * Z * Z) (ij : Z * Z) : Z * Z * Z :=
  if ij.1 =? ij.2 then sqr_add_c a ij.1 c else sqr_add_c2 a ij.1 ij.2 c.

Definition bn_mul_comba8 (a b : list Z) : list Z :=
  comba (mul_turn a b) 0 0
    [[(0, 0)]; [(0, 1); (1, 0)]; [(2, 0); (1, 1); (0, 2)]; [(0, 3); (1, 2); (2, 1); (3, 0)];
     [(4, 0); (3, 1); (2, 2); (1, 3); (0, 4)]; [(0, 5); (1, 4); (2, 3); (3, 2); (4, 1); (5, 0)];
     [(6, 0); (5, 1); (4, 2); (3, 3); (2, 4); (1, 5); (0, 6)];
     [(0, 7); (1, 6); (2, 5); (3, 4); (4, 3); (5, 2); (6, 1); (7, 0)];
     [(7, 1); (6, 2); (5, 3); (4, 4); (3, 5); (2, 6); (1, 7)]; [(2, 7); (3, 6); (4, 5); (5, 4); (6, 3); (7, 2)];
     [(7, 3); (6, 4); (5, 5); (4, 6); (3, 7)]; [(4, 7); (5, 6); (6, 5); (7, 4)]; [(7, 5); (6, 6); (5, 7)];
     [(6, 7); (7, 6)]; [(7, 7)]].
Definition bn_mul_comba4 (a b : list Z) : list Z :=
  comba (mul_turn a b) 0 0
    [[(0, 0)]; [(0, 1); (1, 0)]; [(2, 0); (1, 1); (0, 2)]; [(0, 3); (1, 2); (2, 1); (3, 0)];
     [(3, 1); (2, 2); (1, 3)]; [(2, 3); (3, 2)]; [(3, 3)]].
Definition bn_sqr_comba8 (a : list Z) : list Z :=
  comba (sqr_turn a) 0 0
    [[(0, 0)]; [(1, 0)]; [(1, 1); (2, 0)]; [(3, 0); (2, 1)]; [(2, 2); (3, 1); (4, 0)]; [(5, 0); (4, 1); (3, 2)];
     [(3, 3); (4, 2); (5, 1); (6, 0)]; [(7, 0); (6, 1); (5, 2); (4, 3)]; [(4, 4); (5, 3); (6, 2); (7, 1)];
     [(7, 2); (6, 3); (5, 4)]; [(5, 5); (6, 4); (7, 3)]; [(7, 4); (6, 5)]; [(6, 6); (7, 5)]; [(7, 6)]; [(7, 7)]].
Definition bn_sqr_comba4 (a : list Z) : list Z :=
  comba (sqr_turn a) 0 0
    [[(0, 0)]; [(1, 0)]; [(1, 1); (2, 0)]; [(3, 0); (2, 1)]; [(2, 2); (3, 1)]; [(3, 2)]; [(3, 3)]].

(** One row of the multiplication for each of the remaining words of [b]: [rr[i] = bn_mul_add_words(&r[i], a, na, b[i])]. *)
Fixpoint mul_rows (a b r : list Z) (i : Z) : list Z :=
  match b with
  | [] => r
  | w :: b =>
      let '(c, row) := bn_mul_add_words (takeZ (lenZ a) (dropZ i r)) a w in
      mul_rows a b (write_at r i (row ++ [c])) (i + 1)
  end.
(** [r] is the array from the pointer on; the lengths of [a] and [b] are those of the lists. *)
Definition bn_mul_normal (r a b : list Z) : list Z :=
  let '(a, b) := if lenZ a <? lenZ b then (b, a) else (a, b) in
  match b with
  | [] => write_at r 0 (replicate (length a) 0)
  | w :: b => let '(c, row) := bn_mul_words a w in mul_rows a b (write_at r 0 (row ++ [c])) 1
  end.

(** * The word loops *)

Lemma wrap_128 z : 0 <= z < 2 ^ 64 * 2 ^ 64 → wrap 128 z = z.
Proof. intros. apply wrap_small. split; [lia|]. change (2 ^ 128) with (2 ^ 64 * 2 ^ 64). lia. Qed.

Lemma lw_hw t : 0 <= t < 2 ^ 64 * 2 ^ 64 → fits 64 (Lw t) ∧ fits 64 (Hw t) ∧ Lw t + 2 ^ 64 * Hw t = t.
Proof.
  intros Ht. unfold Lw, Hw, BN_BITS2, wrap. rewrite shiftr_div by lia. unfold fits. assert (0 < 2 ^ 64) as P by (rewrite pow2_64; lia).
  assert (0 <= t / 2 ^ 64 < 2 ^ 64) as Hq by (split; [apply Z.div_pos; lia|apply Z.div_lt_upper_bound; lia]).
  rewrite (Z.mod_small (t / _)) by done. pose proof (Z.div_mod t (2 ^ 64) ltac:(lia)). pose proof (Z.mod_pos_bound t (2 ^ 64) P). lia.
Qed.

Lemma product_range a b : fits 64 a → fits 64 b → 0 <= a * b ∧ a * b + 2 ^ 64 + 2 ^ 64 <= 2 ^ 64 * 2 ^ 64 + 1.
Proof. unfold fits. generalize (2 ^ 64). intros B Ha Hb. nia. Qed.

Lemma mul_add_spec w c r a :
  fits 64 w → fits 64 c → fits 64 r → fits 64 a →
  fits 64 (mul_add w c r a).1 ∧ fits 64 (mul_add w c r a).2 ∧
  (mul_add w c r a).1 + 1 * (2 ^ 64 * (mul_add w c r a).2) = 1 * r + w * a + 1 * c.
Proof.
  intros Hw Hc Hr Ha. unfold mul_add. pose proof (product_range w a Hw Ha). unfold fits in Hc, Hr.
  rewrite (wrap_128 (w * a)), (wrap_128 (w * a + r)), (wrap_128 (w * a + r + c)) by lia. destruct (lw_hw (w * a + r + c)) as (H1 & H2 & H3); [lia|]. cbn [fst snd]. split; [done|]. split; [done|]. lia.
Qed.

Lemma mul_spec w c a y :
  fits 64 w → fits 64 c → fits 64 a →
  fits 64 (mul w c a y).1 ∧ fits 64 (mul w c a y).2 ∧ (mul w c a y).1 + 1 * (2 ^ 64 * (mul w c a y).2) = w * a + 0 * y + 1 * c.
Proof.
  intros Hw Hc Ha. unfold mul. pose proof (product_range w a Hw Ha). unfold fits in Hc.
  rewrite (wrap_128 (w * a)), (wrap_128 (w * a + c)) by lia. destruct (lw_hw (w * a + c)) as (H1 & H2 & H3); [lia|]. cbn [fst snd]. split; [done|]. split; [done|]. lia.
Qed.

Lemma fits_zero : fits 64 0.
Proof. by apply fits_0. Qed.

Lemma mul_add_words_spec r a w :
  Forall (fits 64) r → Forall (fits 64) a → fits 64 w → lenZ r = lenZ a →
  ∃ c row, bn_mul_add_words r a w = (c, row) ∧ fits 64 c ∧ Forall (fits 64) row ∧ lenZ row = lenZ r ∧
    words_value row + 2 ^ (64 * lenZ r) * c = words_value r + words_value a * w.
Proof.
  intros Hr Ha Hw L. destruct (map_acc_linear (mul_add w) (fits 64) 1 1 w (λ c x y Hc Hx Hy, mul_add_spec w c x y Hw Hc Hx Hy) r a 0 fits_zero Hr Ha) as (C & F & LR & V).
  { unfold lenZ in L. lia. }
  unfold bn_mul_add_words. destruct (map_acc (mul_add w) r a 0) as [c row]. cbn [fst snd] in *. exists c, row.
  repeat (split; [done|]). lia.
Qed.

Lemma mul_words_spec a w :
  Forall (fits 64) a → fits 64 w →
  ∃ c row, bn_mul_words a w = (c, row) ∧ fits 64 c ∧ Forall (fits 64) row ∧ lenZ row = lenZ a ∧
    words_value row + 2 ^ (64 * lenZ a) * c = words_value a * w.
Proof.
  intros Ha Hw. destruct (map_acc_linear (mul w) (fits 64) w 1 0 (λ c x y Hc Hx _, mul_spec w c x y Hw Hc Hx) a a 0 fits_zero Ha Ha eq_refl) as (C & F & LR & V).
  unfold bn_mul_words. destruct (map_acc (mul w) a a 0) as [c row]. cbn [fst snd] in *. exists c, row. repeat (split; [done|]). lia.
Qed.

Lemma sqr_words_spec a :
  Forall (fits 64) a → Forall (fits 64) (bn_sqr_words a) ∧ lenZ (bn_sqr_words a) = 2 * lenZ a.
Proof.
  induction 1 as [|x a Hx _ [IH1 IH2]]; [split; [constructor|done]|]. pose proof (product_range x x Hx Hx).
  unfold bn_sqr_words. cbn [mbind list_bind]. fold (bn_sqr_words a). rewrite wrap_128 by lia.
  destruct (lw_hw (x * x)) as (H1 & H2 & _); [lia|]. cbn [app]. rewrite !lenZ_cons, IH2. split; [|lia]. by constructor; [|constructor].
Qed.

Lemma add_words_spec a b :
  Forall (fits 64) a → Forall (fits 64) b → lenZ a = lenZ b →
  ∃ c r, add_words a b = (c, r) ∧ 0 <= c <= 1 ∧ Forall (fits 64) r ∧ lenZ r = lenZ a ∧
    words_value r + 2 ^ (64 * lenZ a) * c = words_value a + words_value b.
Proof.
  intros Ha Hb L. destruct (map_acc_sum add_step (λ c, 0 <= c <= 1) 1 1 add_step_spec a b 0 (conj (Z.le_refl 0) Z.le_0_1) Ha Hb) as (C & F & LR & V).
  { unfold lenZ in L. lia. }
  unfold add_words. destruct (map_acc add_step a b 0) as [c r]. cbn [fst snd] in *. exists c, r.
  rewrite wrap_small by (split; rewrite ?pow2_64; lia). repeat (split; [done|]). lia.
Qed.

Lemma sub_words_spec a b :
  Forall (fits 64) a → Forall (fits 64) b → lenZ a = lenZ b →
  ∃ c r, sub_words a b = (c, r) ∧ 0 <= c <= 1 ∧ Forall (fits 64) r ∧ lenZ r = lenZ a ∧
    words_value r - 2 ^ (64 * lenZ a) * c = words_value a - words_value b.
Proof.
  intros Ha Hb L. destruct (map_acc_sum sub_step (λ c, 0 <= c <= 1) (-1) (-1) sub_step_spec a b 0 (conj (Z.le_refl 0) Z.le_0_1) Ha Hb) as (C & F & LR & V).
  { unfold lenZ in L. lia. }
  unfold sub_words. destruct (map_acc sub_step a b 0) as [c r]. cbn [fst snd] in *. exists c, r. repeat (split; [done|]). lia.
Qed.

Lemma select_words_mask c a b :
  Forall (fits 64) a → Forall (fits 64) b → lenZ a = lenZ b → select_words (mask_of c) a b = if c then a else b.
Proof.
  intros Ha. revert b. induction Ha as [|x a Hx _ IH]; intros b Hb L; destruct Hb as [|y b Hy Hb]; try (by destruct c).
  unfold select_words. cbn [zip_with]. fold (select_words (mask_of c) a b). rewrite !lenZ_cons in L. rewrite IH by (done || lia).
    rewrite select_w_spec by done. by destruct c.
Qed.

(** * Columns *)

Lemma nthZ_fits l i : Forall (fits 64) l → fits 64 (nthZ l i).
Proof.
  intros H. unfold nthZ. rewrite nth_lookup. destruct (l !! Z.to_nat i) as [x|] eqn:E; [|apply fits_zero].
  cbn [default]. by apply (Forall_lookup_1 _ _ _ _ H E).
Qed.

Definition val3 (c : Z * Z * Z) : Z := c.1.1 + 2 ^ 64 * c.1.2 + 2 ^ 64 * 2 ^ 64 * c.2.
Definition ok3 (c : Z * Z * Z) : Prop := fits 64 c.1.1 ∧ fits 64 c.1.2 ∧ fits 64 c.2.

(** Adding a high word with its carry into the third. *)
Lemma add_high c1 c2 hi (c1' := u64 (c1 + hi)) (c2' := if c1' <? hi then u64 (c2 + 1) else c2) :
  fits 64 c1 → fits 64 hi → fits 64 c2 → c2 + 1 < 2 ^ 64 →
  fits 64 c1' ∧ fits 64 c2' ∧ c2' <= c2 + 1 ∧ c1' + 2 ^ 64 * c2' = c1 + hi + 2 ^ 64 * c2.
Proof.
  intros H1 Hh H2 Hc. unfold c2', c1', wrap, fits in *. rewrite pow2_64 in *.
  destruct (Z.ltb_spec ((c1 + hi) mod 18446744073709551616) hi); [rewrite (Z.mod_small (c2 + 1)) by lia|]; lia.
Qed.

Lemma mul_add_c_spec c a b :
  ok3 c → fits 64 a → fits 64 b → c.2 + 1 < 2 ^ 64 →
  let c' := mul_add_c c a b in ok3 c' ∧ val3 c' = val3 c + a * b ∧ c'.2 <= c.2 + 1.
Proof.
  destruct c as [[c0 c1] c2]. unfold ok3, val3. cbn [fst snd]. intros (H0 & H1 & H2) Ha Hb Hc. pose proof (product_range a b Ha Hb).
  unfold mul_add_c. unfold fits in H0. rewrite (wrap_128 (a * b)), (wrap_128 (a * b + c0)) by lia.
  destruct (lw_hw (a * b + c0)) as (L1 & L2 & L3); [lia|]. destruct (add_high c1 c2 (Hw (a * b + c0)) H1 L2 H2 Hc) as (A1 & A2 & A3 & A4).
  cbn [fst snd]. split; [done|]. split; [|done]. nia.
Qed.

Lemma mul_add_c2_spec c a b :
  ok3 c → fits 64 a → fits 64 b → c.2 + 2 < 2 ^ 64 →
  let c' := mul_add_c2 c a b in ok3 c' ∧ val3 c' = val3 c + 2 * (a * b) ∧ c'.2 <= c.2 + 2.
Proof.
  destruct c as [[c0 c1] c2]. unfold ok3, val3. cbn [fst snd]. intros (H0 & H1 & H2) Ha Hb Hc. pose proof (product_range a b Ha Hb).
  unfold mul_add_c2. pose proof H0 as H0'. unfold fits in H0'. rewrite (wrap_128 (a * b)), (wrap_128 (a * b + c0)) by lia.
  destruct (lw_hw (a * b + c0)) as (L1 & L2 & L3); [lia|]. destruct (add_high c1 c2 (Hw (a * b + c0)) H1 L2 H2 ltac:(lia)) as (A1 & A2 & A3 & A4).
  set (d0 := Lw (a * b + c0)) in *. set (d1 := u64 (c1 + Hw (a * b + c0))) in *. set (d2 := if d1 <? _ then _ else _) in *.
  pose proof L1 as L1'. unfold fits in L1'. rewrite (wrap_128 (a * b + d0)) by lia.
  destruct (lw_hw (a * b + d0)) as (M1 & M2 & M3); [lia|]. destruct (add_high d1 d2 (Hw (a * b + d0)) A1 M2 A2 ltac:(lia)) as (B1 & B2 & B3 & B4).
  cbn [fst snd]. split; [done|]. split; [|lia]. nia.
Qed.

(** The sum of a column, and of all of them. *)
Definition col_sum (g : Z * Z → Z) (col : list (Z * Z)) : Z := foldr (λ ij v, g ij + v) 0 col.
Definition cols_value (g : Z * Z → Z) (cols : list (list (Z * Z))) : Z := foldr (λ col v, col_sum g col + 2 ^ 64 * v) 0 cols.

Definition turn_ok (f : Z * Z * Z → Z * Z → Z * Z * Z) (g : Z * Z → Z) : Prop :=
  ∀ c ij, ok3 c → c.2 + 2 < 2 ^ 64 → ok3 (f c ij) ∧ val3 (f c ij) = val3 c + g ij ∧ (f c ij).2 <= c.2 + 2.

Lemma column_spec f g col c :
  turn_ok f g → ok3 c → c.2 + 2 * lenZ col < 2 ^ 64 → ok3 (fold_left f col c) ∧ val3 (fold_left f col c) = val3 c + col_sum g col.
Proof.
  intros Hf. revert c. induction col as [|ij col IH]; intros c Hc Hl; cbn [fold_left col_sum foldr]; [split; [done|lia]|].
  rewrite lenZ_cons in Hl. pose proof (lenZ_nonneg col). destruct (Hf c ij Hc ltac:(lia)) as (H1 & H2 & H3).
  destruct (IH _ H1 ltac:(lia)) as [I1 I2]. split; [done|]. fold (col_sum g col). lia.
Qed.

Lemma comba_spec f g cols c0 c1 :
  turn_ok f g → Forall (λ col, lenZ col <= 100) cols → fits 64 c0 → fits 64 c1 →
  ∃ z, 0 <= z ∧ Forall (fits 64) (comba f c0 c1 cols) ∧ lenZ (comba f c0 c1 cols) = lenZ cols + 1 ∧
    words_value (comba f c0 c1 cols) + 2 ^ (64 * (lenZ cols + 1)) * z = c0 + 2 ^ 64 * c1 + cols_value g cols.
Proof.
  intros Hf Hcols. revert c0 c1. induction Hcols as [|col cols Hcol _ IH]; intros c0 c1 H0 H1; cbn [comba cols_value foldr].
  { exists c1. unfold fits in H1. split; [lia|]. split; [by constructor|]. split; [done|]. rewrite words_value_cons.
    change (words_value []) with 0. change (2 ^ (64 * (lenZ (@nil (list (Z * Z))) + 1))) with (2 ^ 64). lia. }
  destruct (column_spec f g col (c0, c1, 0) Hf) as [K V]; [split; [done|split; [done|apply fits_zero]]|cbn [snd]; rewrite pow2_64; lia|].
  destruct (fold_left f col (c0, c1, 0)) as [[x y] z]. destruct K as (Kx & Ky & Kz). unfold val3 in V. cbn [fst snd] in *.
  destruct (IH y z Ky Kz) as (u & Hu & F & L & E). exists u. split; [done|]. split; [by constructor|]. rewrite !lenZ_cons, L. split; [lia|].
  fold (cols_value g cols). rewrite words_value_cons. replace (1 + lenZ cols + 1) with (1 + (lenZ cols + 1)) by lia.
  rewrite pow_64_S by (pose proof (lenZ_nonneg cols); lia). rewrite <-Z.mul_assoc. nia.
Qed.

Lemma mul_turn_ok a b : Forall (fits 64) a → Forall (fits 64) b → turn_ok (mul_turn a b) (λ ij, nthZ a ij.1 * nthZ b ij.2).
Proof.
  intros Ha Hb c ij Hc Hl. destruct (mul_add_c_spec c (nthZ a ij.1) (nthZ b ij.2) Hc (nthZ_fits a _ Ha) (nthZ_fits b _ Hb)) as (H1 & H2 & H3); [lia|].
  split; [done|]. split; [done|]. unfold mul_turn. lia.
Qed.

Lemma sqr_turn_ok a :
  Forall (fits 64) a → turn_ok (sqr_turn a) (λ ij, if ij.1 =? ij.2 then nthZ a ij.1 * nthZ a ij.1 else 2 * (nthZ a ij.1 * nthZ a ij.2)).
Proof.
  intros Ha c ij Hc Hl. unfold sqr_turn. destruct (ij.1 =? ij.2).
  - destruct (mul_add_c_spec c (nthZ a ij.1) (nthZ a ij.1) Hc (nthZ_fits a _ Ha) (nthZ_fits a _ Ha)) as (H1 & H2 & H3); [lia|].
    split; [done|]. split; [done|]. unfold sqr_add_c. lia.
  - destruct (mul_add_c2_spec c (nthZ a ij.1) (nthZ a ij.2) Hc (nthZ_fits a _ Ha) (nthZ_fits a _ Ha) Hl) as (H1 & H2 & H3). done.
Qed.

(** Columns whose sum is a product of two numbers of [n] words compute it. *)
Lemma comba_product f g cols a b :
  turn_ok f g → Forall (λ col, lenZ col <= 100) cols → Forall (fits 64) a → Forall (fits 64) b →
  lenZ cols + 1 = lenZ a + lenZ b → cols_value g cols = words_value a * words_value b →
  Forall (fits 64) (comba f 0 0 cols) ∧ lenZ (comba f 0 0 cols) = lenZ a + lenZ b ∧
  words_value (comba f 0 0 cols) = words_value a * words_value b.
Proof.
  intros Hf Hc Ha Hb L E. destruct (comba_spec f g cols 0 0 Hf Hc fits_zero fits_zero) as (z & Hz & F & LL & V). rewrite L, E in *.
  split; [done|]. split; [done|]. pose proof (words_value_bound a Ha) as Ba. pose proof (words_value_bound b Hb) as Bb.
  pose proof (words_value_bound _ F) as Bc. rewrite LL in Bc. pose proof (lenZ_nonneg a). pose proof (lenZ_nonneg b).
  replace (64 * (lenZ a + lenZ b)) with (64 * lenZ a + 64 * lenZ b) in * by lia. rewrite Z.pow_add_r in * by lia.
  set (A := 2 ^ (64 * lenZ a)) in *. set (B := 2 ^ (64 * lenZ b)) in *. assert (words_value a * words_value b < A * B) by nia.
  assert (z = 0) as -> by nia. lia.
Qed.

Ltac words_of l n :=
  let rec go l n := lazymatch n with
    | O => destruct l; [|by (unfold lenZ in *; cbn in *; lia)]
    | S ?n => let x := fresh "x" in let t := fresh "t" in destruct l as [|x t]; [by (unfold lenZ in *; cbn in *; lia)|go t n]
    end in go l n.

Ltac columns :=
  clear; unfold cols_value, col_sum, words_value, nthZ;
  cbv [foldr fst snd nth Z.to_nat Pos.to_nat Pos.iter_op Nat.add Z.eqb Pos.eqb]; generalize (2 ^ 64); intros B; ring.

Lemma mul_comba8_spec a b :
  Forall (fits 64) a → Forall (fits 64) b → lenZ a = 8 → lenZ b = 8 →
  Forall (fits 64) (bn_mul_comba8 a b) ∧ lenZ (bn_mul_comba8 a b) = 16 ∧ words_value (bn_mul_comba8 a b) = words_value a * words_value b.
Proof.
  intros Ha Hb La Lb. rewrite <-(f_equal2 Z.add La Lb : lenZ a + lenZ b = 16).
  apply (comba_product _ _ _ a b (mul_turn_ok a b Ha Hb)); [decide_now|done|done|by rewrite La, Lb|]. clear Ha Hb.
  words_of a 8%nat. words_of b 8%nat. columns.
Qed.

Lemma mul_comba4_spec a b :
  Forall (fits 64) a → Forall (fits 64) b → lenZ a = 4 → lenZ b = 4 →
  Forall (fits 64) (bn_mul_comba4 a b) ∧ lenZ (bn_mul_comba4 a b) = 8 ∧ words_value (bn_mul_comba4 a b) = words_value a * words_value b.
Proof.
  intros Ha Hb La Lb. rewrite <-(f_equal2 Z.add La Lb : lenZ a + lenZ b = 8).
  apply (comba_product _ _ _ a b (mul_turn_ok a b Ha Hb)); [decide_now|done|done|by rewrite La, Lb|]. clear Ha Hb.
  words_of a 4%nat. words_of b 4%nat. columns.
Qed.

Lemma sqr_comba8_spec a :
  Forall (fits 64) a → lenZ a = 8 →
  Forall (fits 64) (bn_sqr_comba8 a) ∧ lenZ (bn_sqr_comba8 a) = 16 ∧ words_value (bn_sqr_comba8 a) = words_value a * words_value a.
Proof.
  intros Ha La. rewrite <-(f_equal2 Z.add La La : lenZ a + lenZ a = 16).
  apply (comba_product _ _ _ a a (sqr_turn_ok a Ha)); [decide_now|done|done|by rewrite La|]. clear Ha. words_of a 8%nat. columns.
Qed.

Lemma sqr_comba4_spec a :
  Forall (fits 64) a → lenZ a = 4 →
  Forall (fits 64) (bn_sqr_comba4 a) ∧ lenZ (bn_sqr_comba4 a) = 8 ∧ words_value (bn_sqr_comba4 a) = words_value a * words_value a.
Proof.
  intros Ha La. rewrite <-(f_equal2 Z.add La La : lenZ a + lenZ a = 8).
  apply (comba_product _ _ _ a a (sqr_turn_ok a Ha)); [decide_now|done|done|by rewrite La|]. clear Ha. words_of a 4%nat. columns.
Qed.

(** * Row by row *)

Lemma mul_rows_spec a b r i :
  let na := lenZ a in
  Forall (fits 64) a → Forall (fits 64) b → 0 <= i → i + na + lenZ b <= lenZ r → Forall (fits 64) (takeZ (i + na) r) →
  ∃ ws, mul_rows a b r i = ws ++ dropZ (i + na + lenZ b) r ∧ lenZ ws = i + na + lenZ b ∧ Forall (fits 64) ws ∧
    words_value ws = words_value (takeZ (i + na) r) + 2 ^ (64 * i) * (words_value a * words_value b).
Proof.
  intros na Ha Hb. pose proof (lenZ_nonneg a) as Hna. fold na in Hna. revert r i. induction Hb as [|w b Hw Hb IH]; intros r i Hi Hr Hf; cbn [mul_rows].
  { change (lenZ (@nil Z)) with 0 in *. rewrite Z.add_0_r in *. exists (takeZ (i + na) r). rewrite takeZ_dropZ, lenZ_takeZ by lia.
    split; [done|]. split; [done|]. split; [done|]. change (words_value []) with 0. lia. }
  rewrite lenZ_cons in Hr. pose proof (lenZ_nonneg b) as Hnb. fold na.
  destruct (cut_at r i na) as (P & Q & T & -> & LP & LQ); [lia..|]. rewrite !lenZ_app in Hr.
  destruct T as [|x R]; [change (lenZ (@nil Z)) with 0 in Hr; lia|]. rewrite lenZ_cons in Hr.
  rewrite (takeZ_app_ge P) in Hf |- * by lia. rewrite (takeZ_app Q) in Hf |- * by lia. apply Forall_app in Hf as [FP FQ].
  rewrite (dropZ_app P) by done. rewrite (takeZ_app Q) by done.
  destruct (mul_add_words_spec Q a w FQ Ha Hw LQ) as (c & row & -> & Fc & Frow & Lrow & V).
  assert (write_at (P ++ Q ++ x :: R) i (row ++ [c]) = (P ++ row ++ [c]) ++ R) as ->.
  { change (x :: R) with ([x] ++ R). rewrite (app_assoc Q [x] R). rewrite (write_at_app P (Q ++ [x]) R (row ++ [c])) by (rewrite ?lenZ_app, ?lenZ_1; lia).
    by rewrite <-(app_assoc P). }
  assert (lenZ (P ++ row ++ [c]) = i + 1 + na) as Lp by (rewrite !lenZ_app, lenZ_1; lia).
  destruct (IH ((P ++ row ++ [c]) ++ R) (i + 1)) as (ws & E & L & F & VV); [lia|rewrite lenZ_app; lia| |].
  { rewrite takeZ_app by done. apply Forall_app. split; [done|]. apply Forall_app. split; [done|]. by constructor. }
  rewrite (takeZ_app (P ++ row ++ [c])) in VV by done. exists ws. rewrite lenZ_cons. split; [|split; [lia|split; [done|]]].
  - rewrite E. f_equal. replace (i + 1 + na + lenZ b) with (lenZ (P ++ row ++ [c]) + lenZ b) by lia.
    replace (i + na + (1 + lenZ b)) with (lenZ (P ++ Q ++ [x]) + lenZ b) by (rewrite !lenZ_app, lenZ_1; lia).
    rewrite <-!dropZ_dropZ by (apply lenZ_nonneg || lia). rewrite dropZ_app by done.
    replace (P ++ Q ++ x :: R) with ((P ++ Q ++ [x]) ++ R) by (by rewrite <-!app_assoc). by rewrite dropZ_app.
  - rewrite VV, !words_value_app, words_value_cons, words_value_cons, LP, Lrow. change (words_value []) with 0.
    replace (64 * (i + 1)) with (64 * (1 + i)) by lia. rewrite (pow_64_S i) by lia. rewrite LQ in V. rewrite LQ. nia.
Qed.

(** The schoolbook product, whatever the array held. *)
Lemma mul_normal_spec r a b :
  Forall (fits 64) a → Forall (fits 64) b → lenZ a + lenZ b <= lenZ r →
  ∃ ws, bn_mul_normal r a b = ws ++ dropZ (lenZ a + lenZ b) r ∧ lenZ ws = lenZ a + lenZ b ∧ Forall (fits 64) ws ∧
    words_value ws = words_value a * words_value b.
Proof.
  intros Ha Hb Hr. unfold bn_mul_normal.
  assert (∃ a' b', (if lenZ a <? lenZ b then (b, a) else (a, b)) = (a', b') ∧ Forall (fits 64) a' ∧ Forall (fits 64) b' ∧
    lenZ a + lenZ b = lenZ a' + lenZ b' ∧ words_value a * words_value b = words_value a' * words_value b') as (a' & b' & -> & Ha' & Hb' & EL & EV).
  { destruct (lenZ a <? lenZ b); [exists b, a|exists a, b]; (split; [done|]; split; [done|]; split; [done|]; lia). }
  rewrite EL, EV in *. clear a b Ha Hb EL EV. pose proof (lenZ_nonneg a') as Hna. destruct Hb' as [|w b Hw Hb].
  { change (lenZ (@nil Z)) with 0 in *. rewrite Z.add_0_r in *. exists (replicate (length a') 0).
    unfold write_at. rewrite takeZ_0, lenZ_replicate. cbn [app]. split; [done|]. split; [done|]. rewrite words_value_zeros. change (words_value []) with 0.
    split; [apply Forall_replicate, fits_zero|lia]. }
  rewrite lenZ_cons in *. pose proof (lenZ_nonneg b). destruct (mul_words_spec a' w Ha' Hw) as (c & row & -> & Fc & Frow & Lrow & V).
  assert (lenZ (row ++ [c]) = lenZ a' + 1) as Lp by (rewrite lenZ_app, lenZ_1; lia).
  assert (write_at r 0 (row ++ [c]) = (row ++ [c]) ++ dropZ (lenZ a' + 1) r) as ->.
  { unfold write_at. rewrite takeZ_0, Lp. done. }
  destruct (mul_rows_spec a' b ((row ++ [c]) ++ dropZ (lenZ a' + 1) r) 1 Ha' Hb) as (ws & E & L & F & VV).
  { lia. } { rewrite lenZ_app, lenZ_dropZ; lia. } { rewrite takeZ_app by lia. apply Forall_app. split; [done|]. by constructor. }
  exists ws. split; [|split; [lia|split; [done|]]].
  - rewrite E. f_equal. replace (1 + lenZ a' + lenZ b) with (lenZ (row ++ [c]) + lenZ b) by lia. rewrite <-dropZ_dropZ by lia. rewrite dropZ_app by done.
    rewrite dropZ_dropZ by lia. f_equal. lia.
  - rewrite VV, takeZ_app by lia. rewrite words_value_app, words_value_cons, words_value_cons, Lrow. change (words_value []) with 0. change (64 * 1) with 64. nia.
Qed.
