(* ===== verification/BnMulRec.v ===== *)
(** Recursive multiplication and squaring of arrays of words:
    src/HolyWater-Test/Pods/BoringSSL-GRPC/src/crypto/fipsmodule/bn/mul.c.  The result and the scratch
    space are the arrays from the pointers on; each function gives them as it leaves them, and every
    write is at its offset, so that the parts of the scratch space have to stay apart. *)
From S2P Require Import Prelude ConstTime Bn BnAdd BnWords.

Open Scope Z_scope.

Definition BN_MUL_RECURSIVE_SIZE_NORMAL : Z := 16.
Definition BN_SQR_RECURSIVE_SIZE_NORMAL : Z := BN_MUL_RECURSIVE_SIZE_NORMAL.

(** [n] words from [p + i] on, and zeros written there. *)
Definition at_ (p : list Z) (i n : Z) : list Z := takeZ n (dropZ i p).
Definition zero_at (p : list Z) (i n : Z) : list Z := write_at p i (replicate (Z.to_nat n) 0).

(** [r[i] = 0u - b[i] - borrow; borrow |= r[i] != 0]. *)
Definition neg_step (borrow b _ : Z) : Z * Z :=
  let w := u64 (0 - b - borrow) in (w, borrow .| (if w =? 0 then 0 else 1)).
Definition bn_sub_part_words (a b : list Z) (cl dl : Z) : Z * list Z :=
  let '(borrow, r) := sub_words (at_ a 0 cl) (at_ b 0 cl) in
  if dl =? 0 then (borrow, r)
  else if dl <? 0 then
    let '(borrow, r') := map_acc neg_step (at_ b cl (- dl)) (at_ b cl (- dl)) borrow in (borrow, r ++ r')
  else
    let '(borrow, r') := map_acc borrow_step (at_ a cl dl) (at_ a cl dl) borrow in (borrow, r ++ r').

(** The mask, [r] and [tmp]. *)
Definition bn_abs_sub_part_words (a b : list Z) (cl dl : Z) : Z * list Z * list Z :=
  let '(borrow, tmp) := bn_sub_part_words a b cl dl in
  let '(_, r) := bn_sub_part_words b a cl (- dl) in
  let borrow := u64 (0 - borrow) in
  (borrow, select_words borrow r tmp, tmp).

Definition bn_abs_sub_words (a b : list Z) : list Z * list Z :=
  let '(borrow, tmp) := sub_words a b in
  let '(_, r) := sub_words b a in
  (select_words (u64 (0 - borrow)) r tmp, tmp).

(** The last steps of the recursive functions: the middle term, [m] and the carry [c], is added to [r1, r2],
    and the carry propagated. *)
Definition add_middle (r m : list Z) (n c : Z) : list Z :=
  let n2 := 2 * n in
  let '(carry, r12) := add_words (at_ r n n2) m in
  let r := write_at r n r12 in
  let c := u64 (c + carry) in
  let '(_, r3) := map_acc carry_step (at_ r (n + n2) n) (at_ r (n + n2) n) c in
  write_at r (n + n2) r3.

(** The end of the multiplications: [a0 * b0 + a1 * b1] in [t0, t1], the middle term in [t2, t3]. *)
Definition mul_combine (r t : list Z) (n neg : Z) : list Z * list Z :=
  let n2 := 2 * n in
  let '(c, t01) := add_words (at_ r 0 n2) (at_ r n2 n2) in
  let t := write_at t 0 t01 in
  let '(borrow, d) := sub_words (at_ t 0 n2) (at_ t n2 n2) in
  let t := write_at t (n2 * 2) d in
  let c_neg := u64 (c - borrow) in
  let '(carry, s) := add_words (at_ t 0 n2) (at_ t n2 n2) in
  let t := write_at t n2 s in
  let c_pos := u64 (c + carry) in
  let t := write_at t n2 (select_words neg (at_ t (n2 * 2) n2) (at_ t n2 n2)) in
  (add_middle r (at_ t n2 n2) n (constant_time_select_w neg c_neg c_pos), t).

(** [fuel] bounds the depth of the recursion. *)
Fixpoint bn_mul_recursive (fuel : nat) (r a b : list Z) (n2 dna dnb : Z) (t : list Z) : list Z * list Z :=
  match fuel with
  | O => (r, t)
  | S fuel =>
      if (n2 =? 8) && (dna =? 0) && (dnb =? 0) then (write_at r 0 (bn_mul_comba8 (at_ a 0 8) (at_ b 0 8)), t)
      else if n2 <? BN_MUL_RECURSIVE_SIZE_NORMAL then
        let r := bn_mul_normal r (at_ a 0 (n2 + dna)) (at_ b 0 (n2 + dnb)) in
        (if dna + dnb <? 0 then zero_at r (2 * n2 + dna + dnb) (- (dna + dnb)) else r, t)
      else
        let n := n2 / 2 in
        let tna := n + dna in
        let tnb := n + dnb in
        let '(neg, t0, tmp) := bn_abs_sub_part_words a (dropZ n a) tna (n - tna) in
        let t := write_at (write_at t n2 tmp) 0 t0 in
        let '(neg', t1, tmp) := bn_abs_sub_part_words (dropZ n b) b tnb (tnb - n) in
        let t := write_at (write_at t n2 tmp) n t1 in
        let '(r, t) :=
          if (n =? 4) && (dna =? 0) && (dnb =? 0) then
            let t := write_at t n2 (bn_mul_comba4 (at_ t 0 4) (at_ t n 4)) in
            let r := write_at r 0 (bn_mul_comba4 (at_ a 0 4) (at_ b 0 4)) in
            (write_at r n2 (bn_mul_comba4 (at_ a n 4) (at_ b n 4)), t)
          else if (n =? 8) && (dna =? 0) && (dnb =? 0) then
            let t := write_at t n2 (bn_mul_comba8 (at_ t 0 8) (at_ t n 8)) in
            let r := write_at r 0 (bn_mul_comba8 (at_ a 0 8) (at_ b 0 8)) in
            (write_at r n2 (bn_mul_comba8 (at_ a n 8) (at_ b n 8)), t)
          else
            let '(t23, p) := bn_mul_recursive fuel (at_ t n2 n2) (at_ t 0 n) (at_ t n n) n 0 0 (dropZ (n2 * 2) t) in
            let t := write_at t n2 t23 in
            let '(r01, p) := bn_mul_recursive fuel (at_ r 0 n2) (at_ a 0 n) (at_ b 0 n) n 0 0 p in
            let r := write_at r 0 r01 in
            let '(r23, p) := bn_mul_recursive fuel (at_ r n2 n2) (dropZ n a) (dropZ n b) n dna dnb p in
            (write_at r n2 r23, write_at t (n2 * 2) p) in
        mul_combine r t n (neg .^ neg')
  end.

(** [for (;;) { i /= 2; if (i < tna || i < tnb) ...; if (i == tna || i == tnb) ...; }] *)
Fixpoint halve_below (fuel : nat) (i tna tnb : Z) : Z :=
  match fuel with
  | O => i
  | S fuel =>
      let i := i / 2 in
      if (i <? tna) || (i <? tnb) || (i =? tna) || (i =? tnb) then i else halve_below fuel i tna tnb
  end.

(** [memset(r + i, 0, k)], where [k] counts bytes. *)
Definition zero_bytes_at (r : list Z) (i k : Z) : list Z :=
  let r := zero_at r i (k / 8) in
  if k mod 8 =? 0 then r
  else write_at r (i + k / 8) [nthZ r (i + k / 8) .& not_w (2 ^ (8 * (k mod 8)) - 1)].

Fixpoint bn_mul_part_recursive (fuel : nat) (r a b : list Z) (n tna tnb : Z) (t : list Z) : list Z * list Z :=
  match fuel with
  | O => (r, t)
  | S fuel =>
      let n2 := n * 2 in
      if n <? 8 then
        let r := bn_mul_normal r (at_ a 0 (n + tna)) (at_ b 0 (n + tnb)) in
        (zero_bytes_at r (n2 + tna + tnb) (n2 - tna - tnb), t)
      else
        let '(neg, t0, tmp) := bn_abs_sub_part_words a (dropZ n a) tna (n - tna) in
        let t := write_at (write_at t n2 tmp) 0 t0 in
        let '(neg', t1, tmp) := bn_abs_sub_part_words (dropZ n b) b tnb (tnb - n) in
        let t := write_at (write_at t n2 tmp) n t1 in
        let '(r, t) :=
          if n =? 8 then
            let t := write_at t n2 (bn_mul_comba8 (at_ t 0 8) (at_ t n 8)) in
            let r := write_at r 0 (bn_mul_comba8 (at_ a 0 8) (at_ b 0 8)) in
            let r := write_at r n2 (bn_mul_normal (at_ r n2 n2) (at_ a n tna) (at_ b n tnb)) in
            (zero_at r (n2 + tna + tnb) (n2 - tna - tnb), t)
          else
            let '(t23, p) := bn_mul_recursive fuel (at_ t n2 n2) (at_ t 0 n) (at_ t n n) n 0 0 (dropZ (n2 * 2) t) in
            let t := write_at t n2 t23 in
            let '(r01, p) := bn_mul_recursive fuel (at_ r 0 n2) (at_ a 0 n) (at_ b 0 n) n 0 0 p in
            let r := write_at r 0 r01 in
            let r := zero_at r n2 n2 in
            let '(r23, p) :=
              if (tna <? BN_MUL_RECURSIVE_SIZE_NORMAL) && (tnb <? BN_MUL_RECURSIVE_SIZE_NORMAL) then
                (bn_mul_normal (at_ r n2 n2) (at_ a n tna) (at_ b n tnb), p)
              else
                let i := halve_below (Z.to_nat n) n tna tnb in
                if (i <? tna) || (i <? tnb) then bn_mul_part_recursive fuel (at_ r n2 n2) (dropZ n a) (dropZ n b) i (tna - i) (tnb - i) p
                else bn_mul_recursive fuel (at_ r n2 n2) (dropZ n a) (dropZ n b) i (tna - i) (tnb - i) p in
            (write_at r n2 r23, write_at t (n2 * 2) p) in
        mul_combine r t n (neg .^ neg')
  end.

(** * Absolute differences *)

Lemma at_len p i n : 0 <= i → 0 <= n → i + n <= lenZ p → lenZ (at_ p i n) = n.
Proof. intros. unfold at_. rewrite lenZ_takeZ; [done|]. rewrite lenZ_dropZ; lia. Qed.
Lemma at_fits p i n : Forall (fits 64) p → Forall (fits 64) (at_ p i n).
Proof. intros. by apply Forall_take, Forall_drop. Qed.
Lemma at_split p i n m : 0 <= i → 0 <= n → 0 <= m → at_ p i (n + m) = at_ p i n ++ at_ p (i + n) m.
Proof.
  intros. unfold at_. rewrite <-(takeZ_dropZ n (takeZ (n + m) (dropZ i p))) at 1.
  rewrite takeZ_takeZ, dropZ_takeZ, dropZ_dropZ by lia. do 2 f_equal. lia.
Qed.
Lemma at_0 p n : at_ p 0 n = takeZ n p.
Proof. unfold at_. by rewrite dropZ_0. Qed.
Lemma at_drop p i j n : 0 <= i → 0 <= j → at_ (dropZ i p) j n = at_ p (i + j) n.
Proof. intros. unfold at_. by rewrite dropZ_dropZ by lia. Qed.

Lemma neg_step_spec c x y :
  0 <= c <= 1 → fits 64 x → fits 64 y →
  fits 64 (neg_step c x y).1 ∧ 0 <= (neg_step c x y).2 <= 1 ∧
  (neg_step c x y).1 + (-1) * (2 ^ 64 * (neg_step c x y).2) = (-1) * x + 0 * y + (-1) * c.
Proof.
  intros Hc Hx _. unfold neg_step. cbn [fst snd]. split; [apply wrap_fits; lia|]. unfold fits, wrap in *. rewrite pow2_64 in *.
  assert (c = 0 ∨ c = 1) as [-> | ->] by lia; match goal with |- context [?e =? 0] => destruct (Z.eqb_spec e 0) as [E|E] end;
    rewrite ?E; try change (0 .| 0) with 0; try change (0 .| 1) with 1; try change (1 .| 0) with 1; try change (1 .| 1) with 1; lia.
Qed.

(** A carry may be any word. *)
Lemma carry_step_wide acc x y :
  fits 64 acc → fits 64 x → fits 64 y →
  fits 64 (carry_step acc x y).1 ∧ fits 64 (carry_step acc x y).2 ∧
  (carry_step acc x y).1 + 1 * (2 ^ 64 * (carry_step acc x y).2) = x + 0 * y + 1 * acc.
Proof.
  intros Ha Hx _. unfold carry_step. cbn [fst snd]. split; [apply wrap_fits; lia|]. unfold fits, wrap in *. rewrite pow2_64 in *.
  destruct (Z.ltb_spec ((acc + x) mod 18446744073709551616) x); lia.
Qed.

Lemma sub_part_words_spec a b cl dl :
  let na := cl + Z.max dl 0 in let nb := cl + Z.max (- dl) 0 in let nr := cl + Z.abs dl in
  Forall (fits 64) a → Forall (fits 64) b → 0 <= cl → na <= lenZ a → nb <= lenZ b →
  ∃ c r, bn_sub_part_words a b cl dl = (c, r) ∧ 0 <= c <= 1 ∧ Forall (fits 64) r ∧ lenZ r = nr ∧
    words_value r - 2 ^ (64 * nr) * c = words_value (at_ a 0 na) - words_value (at_ b 0 nb).
Proof.
  intros na nb nr Ha Hb Hcl Hna Hnb. unfold bn_sub_part_words.
  destruct (sub_words_spec (at_ a 0 cl) (at_ b 0 cl)) as (c & r & -> & C & F & L & V); [by apply at_fits..|rewrite !at_len by lia; done|].
  rewrite at_len in L, V by lia. destruct (Z.eqb_spec dl 0) as [->|Hd].
  { exists c, r. unfold na, nb, nr. change (Z.max 0 0) with 0. change (Z.max (- 0) 0) with 0. change (Z.abs 0) with 0. rewrite Z.add_0_r. done. }
  destruct (Z.ltb_spec dl 0) as [Hlt|Hgt].
  - assert (na = cl ∧ nb = cl + - dl ∧ nr = cl + - dl) as (-> & -> & ->) by lia. set (y := at_ b cl (- dl)).
    assert (Forall (fits 64) y) as Fy by (by apply at_fits). assert (lenZ y = - dl) as Ly by (apply at_len; lia).
    destruct (map_acc_linear neg_step (λ c, 0 <= c <= 1) (-1) (-1) 0 neg_step_spec y y c C Fy Fy eq_refl) as (C' & F' & L' & V').
    destruct (map_acc neg_step y y c) as [c' r']. cbn [fst snd] in *. exists c', (r ++ r'). split; [done|]. split; [done|].
    split; [by apply Forall_app|]. split; [rewrite lenZ_app; lia|]. rewrite (at_split b 0 cl (- dl)), !words_value_app, !at_len, L by lia.
    change (0 + cl) with cl. fold y. rewrite Z.mul_add_distr_l, Z.pow_add_r by lia. rewrite Ly in V'. nia.
  - assert (na = cl + dl ∧ nb = cl ∧ nr = cl + dl) as (-> & -> & ->) by lia. set (y := at_ a cl dl).
    assert (Forall (fits 64) y) as Fy by (by apply at_fits). assert (lenZ y = dl) as Ly by (apply at_len; lia).
    destruct (map_acc_sum borrow_step (λ c, 0 <= c <= 1) (-1) 0 borrow_step_spec y y c C Fy Fy eq_refl) as (C' & F' & L' & V').
    destruct (map_acc borrow_step y y c) as [c' r']. cbn [fst snd] in *. exists c', (r ++ r'). split; [done|]. split; [done|].
    split; [by apply Forall_app|]. split; [rewrite lenZ_app; lia|]. rewrite (at_split a 0 cl dl), !words_value_app, !at_len, L by lia.
    change (0 + cl) with cl. fold y. rewrite Z.mul_add_distr_l, Z.pow_add_r by lia. rewrite Ly in V'. nia.
Qed.

(** The sign and the magnitude of a difference from its borrow. *)
Lemma borrow_sign c v n va vb : 0 <= c <= 1 → 0 <= v < 2 ^ n → 0 <= va → 0 <= vb < 2 ^ n → v - 2 ^ n * c = va - vb →
  u64 (0 - c) = mask_of (va <? vb) ∧ ((va <? vb) = false → v = va - vb).
Proof.
  intros Hc Hv Ha Hb E. assert (c = 0 ∨ c = 1) as [-> | ->] by lia.
  - rewrite (proj2 (Z.ltb_ge va vb)) by lia. split; [done|]. lia.
  - rewrite (proj2 (Z.ltb_lt va vb)) by lia. split; [done|]. done.
Qed.

Lemma abs_sub_part_words_spec a b cl dl :
  let na := cl + Z.max dl 0 in let nb := cl + Z.max (- dl) 0 in let nr := cl + Z.abs dl in
  Forall (fits 64) a → Forall (fits 64) b → 0 <= cl → na <= lenZ a → nb <= lenZ b →
  let va := words_value (at_ a 0 na) in let vb := words_value (at_ b 0 nb) in
  ∃ r tmp, bn_abs_sub_part_words a b cl dl = (mask_of (va <? vb), r, tmp) ∧ lenZ tmp = nr ∧
    Forall (fits 64) r ∧ lenZ r = nr ∧ words_value r = Z.abs (va - vb).
Proof.
  intros na nb nr Ha Hb Hcl Hna Hnb va vb. unfold bn_abs_sub_part_words.
  destruct (sub_part_words_spec a b cl dl Ha Hb Hcl Hna Hnb) as (c & tmp & -> & C & F & L & V). fold na nb nr va vb in L, V.
  destruct (sub_part_words_spec b a cl (- dl) Hb Ha Hcl) as (c' & r & -> & C' & F' & L' & V'); [lia|rewrite Z.opp_involutive; lia|].
  rewrite Z.opp_involutive in V'. fold na nb va vb in V'. replace (cl + Z.abs (- dl)) with nr in L', V' by lia.
  pose proof (words_value_bound _ F) as B. rewrite L in B. pose proof (words_value_bound _ F') as B'. rewrite L' in B'.
  pose proof (words_value_bound _ (at_fits a 0 na Ha)) as Ba. rewrite at_len in Ba by lia. fold va in Ba.
  pose proof (words_value_bound _ (at_fits b 0 nb Hb)) as Bb. rewrite at_len in Bb by lia. fold vb in Bb.
  assert (2 ^ (64 * na) <= 2 ^ (64 * nr)) as Pa by (apply Z.pow_le_mono_r; lia). assert (2 ^ (64 * nb) <= 2 ^ (64 * nr)) as Pb by (apply Z.pow_le_mono_r; lia).
  destruct (borrow_sign c (words_value tmp) (64 * nr) va vb C B) as [-> S]; [lia|lia|lia|].
  destruct (borrow_sign c' (words_value r) (64 * nr) vb va C' B') as [_ S']; [lia|lia|lia|].
  exists (if va <? vb then r else tmp), tmp. rewrite select_words_mask by (done || lia). split; [done|]. split; [done|].
  destruct (Z.ltb_spec va vb) as [Hlt|Hge].
  - split; [done|]. split; [done|]. rewrite S' by (apply Z.ltb_ge; lia). lia.
  - split; [done|]. split; [done|]. rewrite S by done. lia.
Qed.

(** * Karatsuba's sum *)

Lemma at_mid (p q k : list Z) i n : lenZ p = i → lenZ q = n → at_ (p ++ q ++ k) i n = q.
Proof. intros H1 H2. unfold at_. rewrite dropZ_app by done. by apply takeZ_app. Qed.
Lemma at_front (q k : list Z) n : lenZ q = n → at_ (q ++ k) 0 n = q.
Proof. intros H. rewrite at_0. by apply takeZ_app. Qed.
Lemma write_front (b c src : list Z) : lenZ b = lenZ src → write_at (b ++ c) 0 src = src ++ c.
Proof. intros H. by apply (write_at_app [] b c src 0). Qed.

(** The carry out of the middle term. *)
Lemma middle_carry n s c (borrow carry : Z) x d vd vs :
  0 <= c <= 1 → 0 <= borrow <= 1 → 0 <= carry <= 1 → 0 <= vd < n → 0 <= vs < n →
  vd - n * borrow = x - d → vs + n * carry = x + d → 0 <= (x + n * c) + (if s : bool then - d else d) →
  let c' := constant_time_select_w (mask_of s) (u64 (c - borrow)) (u64 (c + carry)) in
  0 <= c' <= 2 ∧ (if s then vd else vs) + n * c' = x + n * c + (if s then - d else d).
Proof.
  intros Hc Hb Hk Hd Hs E1 E2 Hm c'. unfold c'. rewrite select_w_spec by (apply wrap_fits; lia). destruct s.
  - assert (0 <= c - borrow) by nia. rewrite wrap_small by (split; rewrite ?pow2_64; lia). split; [lia|nia].
  - rewrite wrap_small by (split; rewrite ?pow2_64; lia). split; [lia|nia].
Qed.

Lemma add_middle_spec n X Y Rr m c :
  0 <= n → lenZ X = 2 * n → lenZ Y = 2 * n → lenZ m = 2 * n → Forall (fits 64) X → Forall (fits 64) Y → Forall (fits 64) m → 0 <= c <= 2 →
  let P := 2 ^ (64 * n) in let v := words_value X + P * (words_value m + P * P * c) + P * P * words_value Y in v < P * P * (P * P) →
  ∃ ws, add_middle (X ++ Y ++ Rr) m n c = ws ++ Rr ∧ Forall (fits 64) ws ∧ lenZ ws = 4 * n ∧ words_value ws = v.
Proof.
  intros Hn LX LY Lm FX FY Fm C P v Hv. unfold add_middle. set (n2 := 2 * n) in *.
  assert (2 ^ (64 * n2) = P * P) as PP by (unfold P, n2; rewrite <-Z.pow_add_r by lia; f_equal; lia).
  pose proof (pow_64_pos n Hn) as HP. fold P in HP.
  destruct (cut_at X 0 n) as (X0' & X0 & X1 & EX & LX0' & LX0); [lia..|]. apply Z.eq_le_incl, lenZ_0_nil in LX0' as ->. cbn [app] in EX. subst X.
  destruct (cut_at Y 0 n) as (Y0' & Y0 & Y1 & EY & LY0' & LY0); [lia..|]. apply Z.eq_le_incl, lenZ_0_nil in LY0' as ->. cbn [app] in EY. subst Y.
  rewrite lenZ_app in LX, LY. apply Forall_app in FX as [FX0 FX1]. apply Forall_app in FY as [FY0 FY1].
  replace ((X0 ++ X1) ++ (Y0 ++ Y1) ++ Rr) with (X0 ++ (X1 ++ Y0) ++ Y1 ++ Rr) by (by rewrite <-!app_assoc).
  rewrite (at_mid X0 (X1 ++ Y0)) by (rewrite ?lenZ_app; lia).
  destruct (add_words_spec (X1 ++ Y0) m) as (k & r12 & -> & Ck2 & F12 & L12 & V12); [by apply Forall_app|done|rewrite lenZ_app; lia|].
  rewrite lenZ_app in L12, V12. replace (64 * (lenZ X1 + lenZ Y0)) with (64 * n2) in V12 by lia. rewrite PP in V12.
  rewrite (write_at_app X0 (X1 ++ Y0) (Y1 ++ Rr) r12 n) by (rewrite ?lenZ_app; lia).
  assert (at_ (X0 ++ r12 ++ Y1 ++ Rr) (n + n2) n = Y1) as ->.
  { rewrite (app_assoc X0 r12). apply at_mid; rewrite ?lenZ_app; lia. }
  rewrite (wrap_small 64 (c + k)) by (split; rewrite ?pow2_64; lia).
  destruct (map_acc_sum carry_step (fits 64) 1 0 carry_step_wide Y1 Y1 (c + k)) as (C3 & F3 & L3 & V3); [split; rewrite ?pow2_64; lia|done|done|done|].
  destruct (map_acc carry_step Y1 Y1 (c + k)) as [k' r3]. cbn [fst snd] in *. replace (lenZ Y1) with n in V3, L3 by lia. fold P in V3.
  assert (write_at (X0 ++ r12 ++ Y1 ++ Rr) (n + n2) r3 = (X0 ++ r12 ++ r3) ++ Rr) as ->.
  { rewrite (app_assoc X0 r12), <-!(app_assoc X0 _ Rr), <-(app_assoc r12 r3 Rr), (app_assoc X0 r12 (r3 ++ Rr)). apply write_at_app; rewrite ?lenZ_app; lia. }
  exists (X0 ++ r12 ++ r3). split; [reflexivity|].
  assert (Forall (fits 64) (X0 ++ r12 ++ r3)) as Fws by (apply Forall_app; split; [done|by apply Forall_app]).
  assert (lenZ (X0 ++ r12 ++ r3) = 4 * n) as Lws by (rewrite !lenZ_app; lia). split; [done|]. split; [done|].
  pose proof (words_value_bound _ Fws) as Bws. rewrite Lws in Bws. replace (64 * (4 * n)) with (64 * n2 + 64 * n2) in Bws by lia.
  rewrite Z.pow_add_r, PP in Bws by lia. unfold fits in C3.
  assert (words_value (X0 ++ r12 ++ r3) + P * P * (P * P) * k' = v) as Ev.
  { unfold v. rewrite !words_value_app in *. rewrite L12, LX0. replace (lenZ X1 + lenZ Y0) with n2 by lia. rewrite PP. fold P.
    replace (lenZ X1) with n in * by lia. rewrite LX0, LY0 in *. fold P in V12. fold P. nia. }
  assert (0 <= k') by lia. assert (k' = 0) as -> by nia. lia.
Qed.

Lemma mul_combine_spec n s X Y Rr T0 D U Tr m :
  0 <= n → lenZ X = 2 * n → lenZ Y = 2 * n → lenZ T0 = 2 * n → lenZ D = 2 * n → lenZ U = 2 * n →
  Forall (fits 64) X → Forall (fits 64) Y → Forall (fits 64) D →
  m = words_value X + words_value Y + (if s : bool then - words_value D else words_value D) → 0 <= m →
  let P := 2 ^ (64 * n) in let v := words_value X + P * m + P * P * words_value Y in v < P * P * (P * P) →
  ∃ ws t', mul_combine (X ++ Y ++ Rr) (T0 ++ D ++ U ++ Tr) n (mask_of s) = (ws ++ Rr, t') ∧ lenZ t' = lenZ (T0 ++ D ++ U ++ Tr) ∧
    Forall (fits 64) ws ∧ lenZ ws = 4 * n ∧ words_value ws = v.
Proof.
  intros Hn LX LY LT LD LU FX FY FD Em Hm P v Hv. unfold mul_combine. set (n2 := 2 * n) in *.
  assert (2 ^ (64 * n2) = P * P) as PP by (unfold P, n2; rewrite <-Z.pow_add_r by lia; f_equal; lia).
  pose proof (pow_64_pos n Hn) as HP. fold P in HP. rewrite (at_front X), (at_mid X Y) by done.
  destruct (add_words_spec X Y FX FY ltac:(lia)) as (c & t01 & -> & C & F01 & L01 & V01). rewrite LX in V01. rewrite PP in V01.
  rewrite (write_front T0) by lia. rewrite (at_front t01), (at_mid t01 D) by lia.
  destruct (sub_words_spec t01 D F01 FD ltac:(lia)) as (borrow & d & Ed & Cb & Fd & Ld & Vd). rewrite Ed. clear Ed.
  rewrite L01, LX, PP in Vd.
  assert (write_at (t01 ++ D ++ U ++ Tr) (n2 * 2) d = t01 ++ D ++ d ++ Tr) as ->.
  { rewrite !(app_assoc t01 D). apply write_at_app; rewrite ?lenZ_app; lia. }
  rewrite (at_front t01), (at_mid t01 D) by lia.
  destruct (add_words_spec t01 D F01 FD ltac:(lia)) as (carry & sm & Es & Ck & Fs & Ls & Vs). rewrite Es. clear Es. rewrite L01, LX, PP in Vs.
  rewrite (write_at_app t01 D (d ++ Tr) sm n2) by lia.
  assert (at_ (t01 ++ sm ++ d ++ Tr) (n2 * 2) n2 = d) as ->.
  { rewrite (app_assoc t01 sm). apply at_mid; rewrite ?lenZ_app; lia. }
  rewrite (at_mid t01 sm) by lia. rewrite select_words_mask by (done || lia). set (sel := if s then d else sm).
  assert (Forall (fits 64) sel ∧ lenZ sel = n2) as [Fsel Lsel] by (unfold sel; destruct s; split; done || lia).
  rewrite (write_at_app t01 sm (d ++ Tr) sel n2) by lia. rewrite (at_mid t01 sel) by lia.
  pose proof (words_value_bound d Fd) as Bd. rewrite Ld, L01, LX, PP in Bd. pose proof (words_value_bound sm Fs) as Bs. rewrite Ls, L01, LX, PP in Bs.
  destruct (middle_carry (P * P) s c borrow carry (words_value t01) (words_value D) (words_value d) (words_value sm) C Cb Ck Bd Bs Vd Vs) as [C' V'];
    [rewrite V01, <-Em; done|].
  set (c' := constant_time_select_w _ _ _) in *. rewrite V01, <-Em in V'.
  assert (words_value sel + P * P * c' = m) as Vsel by (unfold sel; destruct s; exact V').
  destruct (add_middle_spec n X Y Rr sel c' Hn LX LY Lsel FX FY Fsel C') as (ws & -> & Fws & Lws & Vws); fold P; rewrite ?Vsel; [exact Hv|].
  fold P in Vws. rewrite Vsel in Vws. eexists ws, _. split; [reflexivity|]. split; [rewrite !lenZ_app; lia|]. done.
Qed.

(** * The recursion *)

(** [N] words of the result are written, with value [v], and the scratch space keeps its length. *)
Definition multiplies (res : list Z * list Z) (r t : list Z) (N v : Z) : Prop :=
  ∃ ws t', res = (ws ++ dropZ N r, t') ∧ lenZ t' = lenZ t ∧ Forall (fits 64) ws ∧ lenZ ws = N ∧ words_value ws = v.

Lemma multiplies_exact res r t N v :
  multiplies res r t N v → lenZ r = N → ∃ ws t', res = (ws, t') ∧ lenZ t' = lenZ t ∧ Forall (fits 64) ws ∧ lenZ ws = N ∧ words_value ws = v.
Proof. intros (ws & t' & -> & H) L. exists ws, t'. rewrite dropZ_all, app_nil_r by lia. done. Qed.

(** A product shorter than the space for it, with zeros above. *)
Lemma padded_product r a b N :
  Forall (fits 64) a → Forall (fits 64) b → lenZ a + lenZ b <= N <= lenZ r →
  ∃ ws, zero_at (bn_mul_normal r a b) (lenZ a + lenZ b) (N - (lenZ a + lenZ b)) = ws ++ dropZ N r ∧ Forall (fits 64) ws ∧ lenZ ws = N ∧
    words_value ws = words_value a * words_value b.
Proof.
  intros Ha Hb HN. pose proof (lenZ_nonneg a). pose proof (lenZ_nonneg b). set (l := lenZ a + lenZ b) in *.
  destruct (mul_normal_spec r a b Ha Hb) as (ws & -> & L & F & V); [fold l; lia|]. fold l in L |- *. unfold zero_at. set (z := replicate _ 0).
  assert (lenZ z = N - l) as Lz by (unfold z; rewrite lenZ_replicate; lia).
  exists (ws ++ z). split; [|split; [|split]].
  - rewrite <-(takeZ_dropZ (N - l) (dropZ l r)). rewrite dropZ_dropZ by lia. replace (l + (N - l)) with N by lia. rewrite <-app_assoc.
    apply write_at_app; [done|]. rewrite lenZ_takeZ; [done|]. rewrite lenZ_dropZ; lia.
  - apply Forall_app. split; [done|]. apply Forall_replicate, fits_zero.
  - rewrite lenZ_app. lia.
  - unfold z. rewrite words_value_app, words_value_zeros. lia.
Qed.

(** The two absolute differences, in the first half of the scratch space. *)
Lemma scratch_writes (t t0 t1 tmp tmp' : list Z) n :
  0 <= n → 4 * n <= lenZ t → lenZ t0 = n → lenZ t1 = n → lenZ tmp = n → lenZ tmp' = n →
  ∃ W, write_at (write_at (write_at (write_at t (2 * n) tmp) 0 t0) (2 * n) tmp') n t1 = t0 ++ t1 ++ W ++ dropZ (2 * n * 2) t ∧ lenZ W = 2 * n.
Proof.
  intros Hn Ht L0 L1 Lt Lt'.
  destruct (cut_at t n n) as (A1 & A2 & q & E & LA1 & LA2); [lia..|]. rewrite E, !lenZ_app in Ht.
  destruct (cut_at q n n) as (A3 & A4 & rest & Eq & LA3 & LA4); [lia..|]. subst t q.
  exists (tmp' ++ A4). split; [|rewrite lenZ_app; lia].
  rewrite (app_assoc A1 A2), (write_at_app (A1 ++ A2) A3 _ tmp) by (rewrite ?lenZ_app; lia). rewrite <-(app_assoc A1 A2), (write_front A1) by lia.
  rewrite (app_assoc t0 A2), (write_at_app (t0 ++ A2) tmp _ tmp') by (rewrite ?lenZ_app; lia). rewrite <-(app_assoc t0 A2), (write_at_app t0 A2 _ t1) by lia.
  rewrite <-(app_assoc tmp' A4). do 4 f_equal. rewrite !app_assoc. rewrite dropZ_app; [done|]. rewrite !lenZ_app. lia.
Qed.

Lemma karatsuba_identity (a0 a1 b0 b1 P : Z) :
  a0 * b0 + P * (a0 * b0 + a1 * b1 + (a0 - a1) * (b1 - b0)) + P * P * (a1 * b1) = (a0 + P * a1) * (b0 + P * b1).
Proof. ring. Qed.

Lemma mask_xor b c : mask_of b .^ mask_of c = mask_of (xorb b c).
Proof. by destruct b, c. Qed.

Lemma signed_product a0 a1 b0 b1 :
  (if xorb (a0 <? a1) (b1 <? b0) then - (Z.abs (a0 - a1) * Z.abs (b1 - b0)) else Z.abs (a0 - a1) * Z.abs (b1 - b0)) = (a0 - a1) * (b1 - b0).
Proof. destruct (Z.ltb_spec a0 a1), (Z.ltb_spec b1 b0); cbn [xorb]; nia. Qed.

(** The sum, once the three products are in place. *)
Lemma karatsuba_finish n a b tna tnb X Y D W U p Rr :
  let a0 := words_value (at_ a 0 n) in let a1 := words_value (at_ a n tna) in
  let b0 := words_value (at_ b 0 n) in let b1 := words_value (at_ b n tnb) in
  0 <= n → 0 <= tna <= n → 0 <= tnb <= n → Forall (fits 64) a → Forall (fits 64) b → n + tna <= lenZ a → n + tnb <= lenZ b →
  Forall (fits 64) X → lenZ X = 2 * n → words_value X = a0 * b0 →
  Forall (fits 64) Y → lenZ Y = 2 * n → words_value Y = a1 * b1 →
  Forall (fits 64) D → lenZ D = 2 * n → words_value D = Z.abs (a0 - a1) * Z.abs (b1 - b0) →
  lenZ W = 2 * n → p = U ++ dropZ (2 * n) p → lenZ U = 2 * n →
  multiplies (mul_combine (X ++ Y ++ Rr) (W ++ D ++ p) n (mask_of (xorb (a0 <? a1) (b1 <? b0)))) (X ++ Y ++ Rr) (W ++ D ++ p) (4 * n)
    (words_value (at_ a 0 (n + tna)) * words_value (at_ b 0 (n + tnb))).
Proof.
  intros a0 a1 b0 b1 Hn Hta Htb Fa Fb La Lb FX LX VX FY LY VY FD LD VD LW Ep LU.
  set (P := 2 ^ (64 * n)). pose proof (pow_64_pos n Hn) as HP. fold P in HP.
  assert (∀ l t, Forall (fits 64) l → 0 <= t <= n → n + t <= lenZ l → 0 <= words_value (at_ l n t) ∧ 0 <= words_value (at_ l 0 n) ∧
    words_value (at_ l 0 (n + t)) = words_value (at_ l 0 n) + P * words_value (at_ l n t) ∧ words_value (at_ l 0 (n + t)) < P * P) as Hparts.
  { intros l t Fl Ht Ll. rewrite (at_split l 0 n t), words_value_app, at_len by lia. change (0 + n) with n. fold P.
    pose proof (words_value_bound _ (at_fits l 0 n Fl)) as B1. pose proof (words_value_bound _ (at_fits l n t Fl)) as B2.
    rewrite at_len in B1 by lia. rewrite at_len in B2 by lia. fold P in B1. assert (2 ^ (64 * t) <= P) by (apply Z.pow_le_mono_r; lia). split; [lia|]. split; [lia|]. split; [done|nia]. }
  destruct (Hparts a tna Fa Hta La) as (A1 & A0 & EA & BA). destruct (Hparts b tnb Fb Htb Lb) as (B1 & B0 & EB & BB). clear Hparts.
  fold a0 a1 in A1, A0, EA. fold b0 b1 in B1, B0, EB.
  assert (words_value X + words_value Y + (if xorb (a0 <? a1) (b1 <? b0) then - words_value D else words_value D) = a0 * b1 + a1 * b0) as Em.
  { rewrite VX, VY, VD, signed_product. ring. }
  assert (0 <= a0 * b1 + a1 * b0) as Hm by nia.
  assert (words_value X + P * (a0 * b1 + a1 * b0) + P * P * words_value Y = words_value (at_ a 0 (n + tna)) * words_value (at_ b 0 (n + tnb))) as Ev.
  { rewrite VX, VY, EA, EB. ring. }
  destruct (mul_combine_spec n (xorb (a0 <? a1) (b1 <? b0)) X Y Rr W D U (dropZ (2 * n) p) (a0 * b1 + a1 * b0) Hn LX LY LW LD LU FX FY FD) as (ws & t' & E & Lt & Fw & Lw & Vw).
  { by rewrite Em. } { done. } { fold P. rewrite Ev. nia. }
  rewrite <-Ep in E, Lt. fold P in Vw. rewrite Ev in Vw. exists ws, t'. split; [|done]. rewrite E. do 2 f_equal.
  rewrite (app_assoc X Y). rewrite dropZ_app; [done|]. rewrite lenZ_app. lia.
Qed.

(** The differences of the halves, as the recursive functions call for them. *)
Lemma half_differences n a b tna tnb :
  0 <= n → 0 <= tna <= n → 0 <= tnb <= n → Forall (fits 64) a → Forall (fits 64) b → n + tna <= lenZ a → n + tnb <= lenZ b →
  let a0 := words_value (at_ a 0 n) in let a1 := words_value (at_ a n tna) in
  let b0 := words_value (at_ b 0 n) in let b1 := words_value (at_ b n tnb) in
  ∃ t0 tmp t1 tmp', bn_abs_sub_part_words a (dropZ n a) tna (n - tna) = (mask_of (a0 <? a1), t0, tmp) ∧
    bn_abs_sub_part_words (dropZ n b) b tnb (tnb - n) = (mask_of (b1 <? b0), t1, tmp') ∧
    lenZ tmp = n ∧ lenZ tmp' = n ∧ lenZ t0 = n ∧ lenZ t1 = n ∧ Forall (fits 64) t0 ∧ Forall (fits 64) t1 ∧
    words_value t0 = Z.abs (a0 - a1) ∧ words_value t1 = Z.abs (b1 - b0).
Proof.
  intros Hn Hta Htb Fa Fb La Lb a0 a1 b0 b1.
  assert (Forall (fits 64) (dropZ n a)) as Fa' by (by apply Forall_drop). assert (Forall (fits 64) (dropZ n b)) as Fb' by (by apply Forall_drop).
  destruct (abs_sub_part_words_spec a (dropZ n a) tna (n - tna) Fa Fa') as (t0 & tmp & E0 & L0 & F0 & L0' & V0); [lia|lia|rewrite lenZ_dropZ; lia|].
  destruct (abs_sub_part_words_spec (dropZ n b) b tnb (tnb - n) Fb' Fb) as (t1 & tmp' & E1 & L1 & F1 & L1' & V1); [lia|rewrite lenZ_dropZ; lia|lia|].
  rewrite !at_drop in * by lia. replace (n + 0) with n in * by lia.
  replace (tna + Z.max (n - tna) 0) with n in * by lia. replace (tna + Z.max (- (n - tna)) 0) with tna in * by lia. replace (tna + Z.abs (n - tna)) with n in * by lia.
  replace (tnb + Z.max (tnb - n) 0) with tnb in * by lia. replace (tnb + Z.max (- (tnb - n)) 0) with n in * by lia. replace (tnb + Z.abs (tnb - n)) with n in * by lia.
  exists t0, tmp, t1, tmp'. done.
Qed.

Lemma write_from_drop (r x : list Z) N : lenZ x = N → N <= lenZ r → write_at r 0 x = x ++ dropZ N r.
Proof. intros <- _. unfold write_at. by rewrite takeZ_0. Qed.

(** Writing the two halves of the result. *)
Lemma write_halves (r X Y : list Z) m : lenZ X = m → lenZ Y = m → 2 * m <= lenZ r → write_at (write_at r 0 X) m Y = X ++ Y ++ dropZ (2 * m) r.
Proof.
  intros LX LY Lr. pose proof (lenZ_nonneg X). rewrite (write_from_drop r X m) by lia.
  rewrite <-(takeZ_dropZ m (dropZ m r)). rewrite dropZ_dropZ by lia. replace (m + m) with (2 * m) by lia.
  apply write_at_app; [done|]. rewrite lenZ_takeZ; [done|]. rewrite lenZ_dropZ; lia.
Qed.

Lemma pow2_half k : 1 <= k → 2 ^ k / 2 = 2 ^ (k - 1) ∧ 2 ^ k = 2 * 2 ^ (k - 1).
Proof.
  intros Hk. assert (2 ^ k = 2 ^ (k - 1) * 2) as E. { rewrite <-(Z.pow_1_r 2) at 3. rewrite <-Z.pow_add_r by lia. f_equal. lia. }
  rewrite E, Z.div_mul by lia. lia.
Qed.

Lemma mul_recursive_spec fuel k r a b dna dnb t :
  let n2 := 2 ^ k in
  0 <= k < Z.of_nat fuel → -8 <= dna <= 0 → -8 <= dnb <= 0 → 0 <= n2 + dna → 0 <= n2 + dnb →
  Forall (fits 64) a → Forall (fits 64) b → n2 + dna <= lenZ a → n2 + dnb <= lenZ b → 2 * n2 <= lenZ r → 4 * n2 <= lenZ t →
  multiplies (bn_mul_recursive fuel r a b n2 dna dnb t) r t (2 * n2) (words_value (at_ a 0 (n2 + dna)) * words_value (at_ b 0 (n2 + dnb))).
Proof.
  revert k r a b dna dnb t. induction fuel as [|fuel IH]; intros k r a b dna dnb t n2 Hk Hda Hdb Hna Hnb Fa Fb La Lb Lr Lt; [lia|].
  cbn [bn_mul_recursive]. unfold BN_MUL_RECURSIVE_SIZE_NORMAL.
  destruct ((n2 =? 8) && (dna =? 0) && (dnb =? 0)) eqn:E8.
  { apply andb_true_iff in E8 as [[E8%Z.eqb_eq Ea%Z.eqb_eq]%andb_true_iff Eb%Z.eqb_eq]. rewrite E8 in *. subst dna dnb. clear n2 E8.
    destruct (mul_comba8_spec (at_ a 0 8) (at_ b 0 8)) as (F & L & V); [by apply at_fits..|apply at_len; lia|apply at_len; lia|].
    eexists _, t. split; [|split; [done|split; [exact F|split; [exact L|exact V]]]]. by rewrite (write_from_drop r _ (2 * 8) L) by lia. }
  clear E8. destruct (Z.ltb_spec n2 16) as [Hlt|Hge].
  { destruct (padded_product r (at_ a 0 (n2 + dna)) (at_ b 0 (n2 + dnb)) (2 * n2)) as (ws & E & F & L & V); [by apply at_fits..|rewrite !at_len by lia; lia|].
    rewrite !at_len in E by lia. replace (n2 + dna + (n2 + dnb)) with (2 * n2 + dna + dnb) in E by lia. replace (2 * n2 - (2 * n2 + dna + dnb)) with (- (dna + dnb)) in E by lia.
    exists ws, t. split; [|done]. f_equal. destruct (Z.ltb_spec (dna + dnb) 0); [exact E|]. assert (dna + dnb = 0) as Ez by lia.
    rewrite <-E, Ez. unfold zero_at. change (replicate (Z.to_nat (- 0)) 0) with (@nil Z). by rewrite write_at_nil. }
  assert (4 <= k) as Hk4. { destruct (Z.le_gt_cases 4 k); [done|]. assert (2 ^ k < 2 ^ 4) by (apply Z.pow_lt_mono_r; lia). change (2 ^ 4) with 16 in *. lia. }
  destruct (pow2_half k ltac:(lia)) as [Eh E2]. fold n2 in Eh, E2. rewrite Eh. set (n := 2 ^ (k - 1)) in *. clearbody n2. subst n2.
  pose proof (λ r a b dna dnb t, IH (k - 1) r a b dna dnb t ltac:(lia)) as IHn. cbv zeta in IHn. fold n in IHn. clearbody n. clear IH.
  destruct (half_differences n a b (n + dna) (n + dnb)) as (t0 & tmp & t1 & tmp' & E0 & E1 & Lx & Lx' & L0 & L1 & F0 & F1 & V0 & V1); [lia..|done|done|lia|lia|].
  rewrite E0, E1. clear E0 E1.
  destruct (scratch_writes t t0 t1 tmp tmp' n) as (W & -> & LW); [lia..|]. set (p := dropZ (2 * n * 2) t).
  assert (4 * n <= lenZ p) as Lp by (unfold p; rewrite lenZ_dropZ; lia).
  rewrite (proj2 (Z.eqb_neq n 4)) by lia. cbn [andb].
  set (res := if (n =? 8) && _ && _ then _ else _).
  assert (∃ X Y D p', res = (X ++ Y ++ dropZ (4 * n) r, (t0 ++ t1) ++ D ++ p') ∧ lenZ p' = lenZ p ∧
    Forall (fits 64) X ∧ lenZ X = 2 * n ∧ words_value X = words_value (at_ a 0 n) * words_value (at_ b 0 n) ∧
    Forall (fits 64) Y ∧ lenZ Y = 2 * n ∧ words_value Y = words_value (at_ a n (n + dna)) * words_value (at_ b n (n + dnb)) ∧
    Forall (fits 64) D ∧ lenZ D = 2 * n ∧ words_value D = words_value t0 * words_value t1) as (X & Y & D & p' & -> & Lp' & FX & LX & VX & FY & LY & VY & FD & LD & VD).
  { unfold res. destruct ((n =? 8) && (dna =? 0) && (dnb =? 0)) eqn:E8.
    - apply andb_true_iff in E8 as [[E8%Z.eqb_eq Ea%Z.eqb_eq]%andb_true_iff Eb%Z.eqb_eq]. rewrite E8 in *. subst dna dnb.
      rewrite (at_front t0), (at_mid t0 t1) by done.
      destruct (mul_comba8_spec t0 t1 F0 F1 L0 L1) as (FD & LD & VD).
      destruct (mul_comba8_spec (at_ a 0 8) (at_ b 0 8)) as (FX & LX & VX); [by apply at_fits..|apply at_len; lia|apply at_len; lia|].
      destruct (mul_comba8_spec (at_ a 8 8) (at_ b 8 8)) as (FY & LY & VY); [by apply at_fits..|apply at_len; lia|apply at_len; lia|].
      set (D := bn_mul_comba8 t0 t1) in *. set (X := bn_mul_comba8 (at_ a 0 8) _) in *. set (Y := bn_mul_comba8 (at_ a 8 8) _) in *. clearbody D X Y.
      exists X, Y, D, p. rewrite (write_halves r X Y (2 * 8) LX LY) by lia. rewrite (app_assoc t0 t1 (W ++ p)), (write_at_app (t0 ++ t1) W p D) by (rewrite ?lenZ_app; lia).
      done.
    - clear E8.
      assert (at_ (t0 ++ t1 ++ W ++ p) (2 * n) (2 * n) = W) as ->. { rewrite (app_assoc t0 t1). apply at_mid; rewrite ?lenZ_app; lia. }
      rewrite (at_front t0), (at_mid t0 t1) by done.
      assert (dropZ (2 * n * 2) (t0 ++ t1 ++ W ++ p) = p) as ->. { rewrite (app_assoc t0 t1), (app_assoc (t0 ++ t1) W). apply dropZ_app. rewrite !lenZ_app. lia. }
      destruct (multiplies_exact _ _ _ _ _ (IHn W t0 t1 0 0 p ltac:(lia) ltac:(lia) ltac:(lia) ltac:(lia) F0 F1 ltac:(lia) ltac:(lia) ltac:(lia) ltac:(lia)))
        as (D & p1 & -> & Lp1 & FD & LD & VD); [lia|].
      set (R1 := at_ r 0 (2 * n)). assert (lenZ R1 = 2 * n) as LR1 by (apply at_len; lia).
      destruct (multiplies_exact _ _ _ _ _ (IHn R1 (at_ a 0 n) (at_ b 0 n) 0 0 p1 ltac:(lia) ltac:(lia) ltac:(lia) ltac:(lia)
        (at_fits a 0 n Fa) (at_fits b 0 n Fb) ltac:(rewrite at_len; lia) ltac:(rewrite at_len; lia) ltac:(lia) ltac:(lia))) as (X & p2 & -> & Lp2 & FX & LX & VX); [done|].
      set (R2 := at_ (write_at r 0 X) (2 * n) (2 * n)).
      assert (lenZ R2 = 2 * n) as LR2 by (apply at_len; rewrite ?lenZ_write_at; lia).
      destruct (multiplies_exact _ _ _ _ _ (IHn R2 (dropZ n a) (dropZ n b) dna dnb p2 Hda Hdb ltac:(lia) ltac:(lia)
        (Forall_drop _ _ _ Fa) (Forall_drop _ _ _ Fb) ltac:(rewrite lenZ_dropZ; lia) ltac:(rewrite lenZ_dropZ; lia) ltac:(lia) ltac:(lia))) as (Y & p3 & -> & Lp3 & FY & LY & VY); [done|].
      exists X, Y, D, p3. rewrite (write_halves r X Y (2 * n) LX LY) by lia.
      split; [f_equal; [f_equal; f_equal; f_equal; lia|]|].
      { rewrite (app_assoc t0 t1 (W ++ p)), (write_at_app (t0 ++ t1) W p D) by (rewrite ?lenZ_app; lia).
        pose proof (write_at_app ((t0 ++ t1) ++ D) p [] p3 (2 * n * 2)) as Ew. rewrite !app_nil_r, <-!(app_assoc (t0 ++ t1) D) in Ew. apply Ew; rewrite ?lenZ_app; lia. }
      rewrite !at_drop in VY by lia. rewrite Z.add_0_r in VD, VX, VY. rewrite !at_0 in VD, VX. rewrite !takeZ_all in VD by lia. rewrite !at_0, !takeZ_takeZ in VX by lia.
      rewrite !at_0. split; [lia|done]. }
  rewrite mask_xor. set (mc := mul_combine _ _ _ _). 
  destruct (karatsuba_finish n a b (n + dna) (n + dnb) X Y D (t0 ++ t1) (takeZ (2 * n) p') p' (dropZ (4 * n) r)) as (ws & t' & E & Lt' & F & L & V); try done; try lia.
  { rewrite lenZ_app. lia. } { by rewrite takeZ_dropZ. } { rewrite lenZ_takeZ; lia. }
  fold mc in E. replace (n + (n + dna)) with (2 * n + dna) in V by lia. replace (n + (n + dnb)) with (2 * n + dnb) in V by lia.
  exists ws, t'. rewrite E. replace (2 * (2 * n)) with (4 * n) by lia. split; [|split; [|done]].
  - do 2 f_equal. rewrite (app_assoc X Y). rewrite dropZ_app; [done|]. rewrite lenZ_app. lia.
  - rewrite Lt', !lenZ_app. unfold p in Lp'. rewrite lenZ_dropZ in Lp' by lia. lia.
Qed.

(** * Numbers a little longer than a power of two *)

Lemma halve_below_spec fuel j tna tnb :
  0 <= j <= Z.of_nat fuel → tna < 2 ^ j → tnb < 2 ^ j → 16 <= Z.max tna tnb →
  let i := halve_below fuel (2 ^ j) tna tnb in
  ∃ j', 0 <= j' < j ∧ i = 2 ^ j' ∧ 8 <= i ∧ tna < 2 * i ∧ tnb < 2 * i ∧ i <= Z.max tna tnb.
Proof.
  revert j. induction fuel as [|fuel IH]; intros j Hj Ha Hb Hm.
  { assert (j = 0) as -> by lia. change (2 ^ 0) with 1 in *. lia. }
  cbn [halve_below]. destruct (Z.le_gt_cases 1 j) as [Hj1|]; [|assert (j = 0) as -> by lia; change (2 ^ 0) with 1 in *; lia].
  destruct (pow2_half j Hj1) as [-> E]. set (i := 2 ^ (j - 1)) in *.
  destruct ((i <? tna) || (i <? tnb) || (i =? tna) || (i =? tnb)) eqn:C.
  - exists (j - 1). split; [lia|]. split; [done|]. assert (i <= Z.max tna tnb); [|lia].
    repeat (apply orb_true_iff in C as [C|C]); (apply Z.ltb_lt in C || apply Z.eqb_eq in C); lia.
  - repeat (apply orb_false_iff in C as [C ?]). apply Z.ltb_ge in C. match goal with H : (i <? tnb) = false |- _ => apply Z.ltb_ge in H end.
    repeat match goal with H : (i =? _) = false |- _ => apply Z.eqb_neq in H end.
    destruct (IH (j - 1)) as (j' & Hj' & Hi'); [lia|fold i; lia|fold i; lia|done|]. exists j'. split; [lia|]. exact Hi'.
Qed.

Lemma write_at_inner (P Q R src : list Z) o i :
  lenZ P = o → 0 <= i → i + lenZ src <= lenZ Q → write_at (P ++ Q ++ R) (o + i) src = P ++ write_at Q i src ++ R.
Proof.
  intros <- Hi Hs. destruct (cut_at Q i (lenZ src)) as (x & y & z & -> & Lx & Ly); [lia|apply lenZ_nonneg|done|].
  rewrite (write_at_app x y z src i Lx Ly), <-!app_assoc, (app_assoc P x). rewrite (write_at_app (P ++ x) y (z ++ R) src) by (rewrite ?lenZ_app; lia).
  by rewrite <-!app_assoc.
Qed.

(** A product written over zeros. *)
Lemma multiplies_zeros res m t N v :
  multiplies res (replicate (Z.to_nat m) 0) t N v → 0 <= N <= m →
  ∃ Y t', res = (Y, t') ∧ lenZ t' = lenZ t ∧ Forall (fits 64) Y ∧ lenZ Y = m ∧ words_value Y = v.
Proof.
  intros (ws & t' & -> & Lt & F & L & V) HN. unfold dropZ. rewrite drop_replicate. set (z := replicate _ 0). exists (ws ++ z), t'.
  split; [done|]. split; [done|]. split; [apply Forall_app; split; [done|apply Forall_replicate, fits_zero]|].
  split; [rewrite lenZ_app; unfold z; rewrite lenZ_replicate; lia|]. rewrite words_value_app. unfold z. rewrite words_value_zeros. lia.
Qed.

Lemma part_recursive_spec fuel k r a b tna tnb t :
  let n := 2 ^ k in
  0 <= k → k + 1 < Z.of_nat fuel → 8 <= n → 0 <= tna < n → 0 <= tnb < n → -1 <= tna - tnb <= 1 →
  Forall (fits 64) a → Forall (fits 64) b → n + tna <= lenZ a → n + tnb <= lenZ b → 4 * n <= lenZ r → 8 * n <= lenZ t →
  multiplies (bn_mul_part_recursive fuel r a b n tna tnb t) r t (4 * n) (words_value (at_ a 0 (n + tna)) * words_value (at_ b 0 (n + tnb))).
Proof.
  revert k r a b tna tnb t. induction fuel as [|fuel IH]; intros k r a b tna tnb t n Hk Hfuel Hn Hta Htb Hd Fa Fb La Lb Lr Lt; [lia|].
  cbn [bn_mul_part_recursive]. unfold BN_MUL_RECURSIVE_SIZE_NORMAL. rewrite (proj2 (Z.ltb_ge n 8)) by lia.
  destruct (half_differences n a b tna tnb) as (t0 & tmp & t1 & tmp' & E0 & E1 & Lx & Lx' & L0 & L1 & F0 & F1 & V0 & V1); [lia..|done|done|lia|lia|].
  rewrite E0, E1. clear E0 E1. replace (n * 2) with (2 * n) by lia.
  destruct (scratch_writes t t0 t1 tmp tmp' n) as (W & -> & LW); [lia..|]. set (p := dropZ (2 * n * 2) t).
  assert (4 * n <= lenZ p) as Lp by (unfold p; rewrite lenZ_dropZ; lia).
  set (res := if n =? 8 then _ else _).
  assert (∃ X Y D p', res = (X ++ Y ++ dropZ (4 * n) r, (t0 ++ t1) ++ D ++ p') ∧ lenZ p' = lenZ p ∧
    Forall (fits 64) X ∧ lenZ X = 2 * n ∧ words_value X = words_value (at_ a 0 n) * words_value (at_ b 0 n) ∧
    Forall (fits 64) Y ∧ lenZ Y = 2 * n ∧ words_value Y = words_value (at_ a n tna) * words_value (at_ b n tnb) ∧
    Forall (fits 64) D ∧ lenZ D = 2 * n ∧ words_value D = words_value t0 * words_value t1) as (X & Y & D & p' & -> & Lp' & FX & LX & VX & FY & LY & VY & FD & LD & VD).
  { unfold res. destruct (Z.eqb_spec n 8) as [E8|_].
    - rewrite E8 in *. rewrite (at_front t0), (at_mid t0 t1) by done.
      destruct (mul_comba8_spec t0 t1 F0 F1 L0 L1) as (FD & LD & VD).
      destruct (mul_comba8_spec (at_ a 0 8) (at_ b 0 8)) as (FX & LX & VX); [by apply at_fits..|apply at_len; lia|apply at_len; lia|].
      set (D := bn_mul_comba8 t0 t1) in *. set (X := bn_mul_comba8 (at_ a 0 8) _) in *. clearbody D X.
      set (R2 := at_ (write_at r 0 X) (2 * 8) (2 * 8)). assert (lenZ R2 = 2 * 8) as LR2 by (apply at_len; rewrite ?lenZ_write_at; lia).
      destruct (padded_product R2 (at_ a 8 tna) (at_ b 8 tnb) (2 * 8)) as (Y & EY & FY & LY & VY); [by apply at_fits..|rewrite !at_len by lia; lia|].
      rewrite !at_len in EY by lia. rewrite dropZ_all, app_nil_r in EY by lia.
      destruct (mul_normal_spec R2 (at_ a 8 tna) (at_ b 8 tnb)) as (q & Eq & Lq & _); [by apply at_fits..|rewrite !at_len by lia; lia|].
      rewrite !at_len in Eq, Lq by lia. set (Z0 := bn_mul_normal R2 _ _) in *.
      assert (lenZ Z0 = 2 * 8) as LZ by (rewrite Eq, lenZ_app, lenZ_dropZ; lia).
      exists X, Y, D, p. rewrite (write_halves r X Z0 (2 * 8) LX LZ) by lia. unfold zero_at. replace (2 * 8 + tna + tnb) with (2 * 8 + (tna + tnb)) by lia.
      rewrite (write_at_inner X Z0) by (rewrite ?lenZ_replicate; lia). replace (2 * 8 - tna - tnb) with (2 * 8 - (tna + tnb)) by lia. unfold zero_at in EY. rewrite EY.
      rewrite (app_assoc t0 t1 (W ++ p)), (write_at_app (t0 ++ t1) W p D) by (rewrite ?lenZ_app; lia). done.
    - assert (at_ (t0 ++ t1 ++ W ++ p) (2 * n) (2 * n) = W) as ->. { rewrite (app_assoc t0 t1). apply at_mid; rewrite ?lenZ_app; lia. }
      rewrite (at_front t0), (at_mid t0 t1) by done.
      assert (dropZ (2 * n * 2) (t0 ++ t1 ++ W ++ p) = p) as ->. { rewrite (app_assoc t0 t1), (app_assoc (t0 ++ t1) W). apply dropZ_app. rewrite !lenZ_app. lia. }
      pose proof (λ r a b dna dnb t, mul_recursive_spec fuel k r a b dna dnb t ltac:(lia)) as Rn. cbv zeta in Rn. fold n in Rn.
      destruct (multiplies_exact _ _ _ _ _ (Rn W t0 t1 0 0 p ltac:(lia) ltac:(lia) ltac:(lia) ltac:(lia) F0 F1 ltac:(lia) ltac:(lia) ltac:(lia) ltac:(lia)))
        as (D & p1 & -> & Lp1 & FD & LD & VD); [lia|].
      set (R1 := at_ r 0 (2 * n)). assert (lenZ R1 = 2 * n) as LR1 by (apply at_len; lia).
      destruct (multiplies_exact _ _ _ _ _ (Rn R1 (at_ a 0 n) (at_ b 0 n) 0 0 p1 ltac:(lia) ltac:(lia) ltac:(lia) ltac:(lia)
        (at_fits a 0 n Fa) (at_fits b 0 n Fb) ltac:(rewrite at_len; lia) ltac:(rewrite at_len; lia) ltac:(lia) ltac:(lia))) as (X & p2 & -> & Lp2 & FX & LX & VX); [done|].
      assert (zero_at (write_at r 0 X) (2 * n) (2 * n) = X ++ replicate (Z.to_nat (2 * n)) 0 ++ dropZ (4 * n) r) as EZ.
      { unfold zero_at. rewrite (write_halves r X _ (2 * n) LX) by (rewrite ?lenZ_replicate; lia). do 3 f_equal. lia. }
      rewrite EZ, (at_mid X) by (rewrite ?lenZ_replicate; lia). set (R2 := replicate (Z.to_nat (2 * n)) 0) in *.
      set (last := if (tna <? 16) && (tnb <? 16) then _ else _).
      assert (∃ Y p3, last = (Y, p3) ∧ lenZ p3 = lenZ p2 ∧ Forall (fits 64) Y ∧ lenZ Y = 2 * n ∧
        words_value Y = words_value (at_ a n tna) * words_value (at_ b n tnb)) as (Y & p3 & -> & Lp3 & FY & LY & VY).
      { unfold last.
        destruct ((tna <? 16) && (tnb <? 16)) eqn:E16.
        - apply andb_true_iff in E16 as [Ea%Z.ltb_lt Eb%Z.ltb_lt].
          destruct (mul_normal_spec R2 (at_ a n tna) (at_ b n tnb)) as (ws & E & L & F & V);
            [by apply at_fits..|rewrite !at_len by lia; unfold R2; rewrite lenZ_replicate; lia|]. rewrite !at_len in E, L by lia.
          destruct (multiplies_zeros (bn_mul_normal R2 (at_ a n tna) (at_ b n tnb), p2) (2 * n) p2 (tna + tnb) (words_value (at_ a n tna) * words_value (at_ b n tnb)))
            as (Y & t' & EY & Lt' & FY & LY & VY); [exists ws, p2; by rewrite E|lia|]. exists Y, t'. done.
        - destruct (halve_below_spec (Z.to_nat n) k tna tnb) as (j & Hj & Ei & Hi & Hia & Hib & Him).
          { rewrite Z2Nat.id by lia. split; [lia|]. apply Z.lt_le_incl, Z.pow_gt_lin_r; lia. } { fold n. lia. } { fold n. lia. }
          { apply andb_false_iff in E16 as [E16|E16]; apply Z.ltb_ge in E16; lia. }
          fold n in Ei, Hi, Hia, Hib, Him. set (i := halve_below _ n tna tnb) in *.
          assert (2 * i <= n) as Hin.
          { rewrite Ei. replace (2 * 2 ^ j) with (2 ^ (j + 1)) by (rewrite Z.pow_add_r by lia; change (2 ^ 1) with 2; lia). apply Z.pow_le_mono_r; lia. }
          clearbody i. assert (Forall (fits 64) (dropZ n a)) as Fda by (by apply Forall_drop). assert (Forall (fits 64) (dropZ n b)) as Fdb by (by apply Forall_drop).
          assert (lenZ R2 = 2 * n) as LR2 by (unfold R2; rewrite lenZ_replicate; lia).
          assert (∀ l t, n + t <= lenZ l → 0 <= t → at_ (dropZ n l) 0 (i + (t - i)) = at_ l n t) as Hat.
          { intros. rewrite at_drop by lia. f_equal; lia. }
          assert (∃ N, multiplies (if (i <? tna) || (i <? tnb) then bn_mul_part_recursive fuel R2 (dropZ n a) (dropZ n b) i (tna - i) (tnb - i) p2
            else bn_mul_recursive fuel R2 (dropZ n a) (dropZ n b) i (tna - i) (tnb - i) p2) R2 p2 N (words_value (at_ a n tna) * words_value (at_ b n tnb)) ∧ 0 <= N <= 2 * n)
            as (N & HM & HN); [|exact (multiplies_zeros _ _ _ _ _ HM HN)].
          rewrite <-(Hat a tna), <-(Hat b tnb) by lia. destruct ((i <? tna) || (i <? tnb)) eqn:Ep.
          + exists (4 * i). split; [|lia]. assert (i <= tna ∧ i <= tnb) as [? ?]. { apply orb_true_iff in Ep as [Ep|Ep]; apply Z.ltb_lt in Ep; lia. }
            rewrite Ei in *. apply (IH j); try done; rewrite ?lenZ_dropZ; lia.
          + exists (2 * i). split; [|lia]. apply orb_false_iff in Ep as [Ep%Z.ltb_ge Ep'%Z.ltb_ge].
            rewrite Ei in *. apply (mul_recursive_spec fuel j); try done; rewrite ?lenZ_dropZ; lia. }
      exists X, Y, D, p3. rewrite (write_at_app X R2 _ Y) by (unfold R2; rewrite ?lenZ_replicate; lia).
      split; [f_equal|].
      { rewrite (app_assoc t0 t1 (W ++ p)), (write_at_app (t0 ++ t1) W p D) by (rewrite ?lenZ_app; lia).
        pose proof (write_at_app ((t0 ++ t1) ++ D) p [] p3 (2 * n * 2)) as Ew. rewrite !app_nil_r, <-!(app_assoc (t0 ++ t1) D) in Ew. apply Ew; rewrite ?lenZ_app; lia. }
      rewrite Z.add_0_r in VD, VX. rewrite !at_0 in VD, VX. rewrite !takeZ_all in VD by lia. rewrite !at_0, !takeZ_takeZ in VX by lia.
      rewrite !at_0. split; [lia|done]. }
  rewrite mask_xor. set (mc := mul_combine _ _ _ _).
  destruct (karatsuba_finish n a b tna tnb X Y D (t0 ++ t1) (takeZ (2 * n) p') p' (dropZ (4 * n) r)) as (ws & t' & E & Lt' & F & L & V); try done; try lia.
  { rewrite lenZ_app. lia. } { by rewrite takeZ_dropZ. } { rewrite lenZ_takeZ; lia. }
  fold mc in E. exists ws, t'. rewrite E. split; [|split; [|done]].
  - do 2 f_equal. rewrite (app_assoc X Y). rewrite dropZ_app; [done|]. rewrite lenZ_app. lia.
  - rewrite Lt', !lenZ_app. unfold p in Lp'. rewrite lenZ_dropZ in Lp' by lia. lia.
Qed.

(** Below eight words the words above the product are not all cleared: the length given to [memset] counts
    words, so only its low bytes are. *)
Example part_recursive_short_clear :
  let r := (bn_mul_part_recursive 1 (replicate 16 7) (replicate 5 1) (replicate 5 1) 4 1 1 (replicate 32 0)).1 in
  takeZ 10 r = bn_mul_normal (replicate 10 0) (replicate 5 1) (replicate 5 1) ∧ dropZ 11 r = replicate 5 7.
Proof. split; vm_compute; reflexivity. Qed.
