(* ===== verification/BnSqr.v ===== *)
(** Squaring arrays of words:
    src/HolyWater-Test/Pods/BoringSSL-GRPC/src/crypto/fipsmodule/bn/mul.c.  As in BnMulRec, the result and
    the scratch space are the arrays from the pointers on. *)
From S2P Require Import Prelude ConstTime Bn BnAdd BnWords BnMulRec.

Open Scope Z_scope.

(** * The code *)

(** [rp[i] = bn_mul_add_words(rp, ap, i, ap[-1]); rp += 2], with [ap] one word further each time. *)
Fixpoint sqr_rows (a r : list Z) (o : Z) : list Z :=
  match a with
  | [] => r
  | w :: a =>
      if lenZ a =? 0 then r
      else let '(c, row) := bn_mul_add_words (at_ r o (lenZ a)) a w in sqr_rows a (write_at r o (row ++ [c])) (o + 2)
  end.

(** The length of [a] is the list's. *)
Definition bn_sqr_normal (r a tmp : list Z) : list Z * list Z :=
  let n := lenZ a in
  if n =? 0 then (r, tmp)
  else
    let max := n * 2 in
    let r := write_at (write_at r (max - 1) [0]) 0 [0] in
    let r :=
      match a with
      | [] => r
      | w :: a =>
          if lenZ a =? 0 then r
          else let '(c, row) := bn_mul_words a w in sqr_rows a (write_at r 1 (row ++ [c])) 3
      end in
    let '(_, doubled) := add_words (at_ r 0 max) (at_ r 0 max) in
    let r := write_at r 0 doubled in
    let tmp := write_at tmp 0 (bn_sqr_words a) in
    let '(_, sum) := add_words (at_ r 0 max) (at_ tmp 0 max) in
    (write_at r 0 sum, tmp).

(** [fuel] bounds the depth of the recursion. *)
Fixpoint bn_sqr_recursive (fuel : nat) (r a : list Z) (n2 : Z) (t : list Z) : list Z * list Z :=
  match fuel with
  | O => (r, t)
  | S fuel =>
      if n2 =? 4 then (write_at r 0 (bn_sqr_comba4 (at_ a 0 4)), t)
      else if n2 =? 8 then (write_at r 0 (bn_sqr_comba8 (at_ a 0 8)), t)
      else if n2 <? BN_SQR_RECURSIVE_SIZE_NORMAL then bn_sqr_normal r (at_ a 0 n2) t
      else
        let n := n2 / 2 in
        let '(t0, tmp) := bn_abs_sub_words (at_ a 0 n) (at_ a n n) in
        let t := write_at (write_at t n tmp) 0 t0 in
        let '(t23, p) := bn_sqr_recursive fuel (at_ t n2 n2) (at_ t 0 n) n (dropZ (n2 * 2) t) in
        let t := write_at t n2 t23 in
        let '(r01, p) := bn_sqr_recursive fuel (at_ r 0 n2) (at_ a 0 n) n p in
        let r := write_at r 0 r01 in
        let '(r23, p) := bn_sqr_recursive fuel (at_ r n2 n2) (at_ a n n) n p in
        let r := write_at r n2 r23 in
        let t := write_at t (n2 * 2) p in
        let '(c, t01) := add_words (at_ r 0 n2) (at_ r n2 n2) in
        let t := write_at t 0 t01 in
        let '(borrow, d) := sub_words (at_ t 0 n2) (at_ t n2 n2) in
        let t := write_at t n2 d in
        (add_middle r (at_ t n2 n2) n (u64 (c - borrow)), t)
  end.

(** * Row by row *)

(** The sum of [a[i] * a[j]] over [i < j], in units of the word [0], and of [a[i] * a[i]]. *)
Fixpoint cross (a : list Z) : Z := match a with [] => 0 | w :: a => 2 ^ 64 * (w * words_value a) + 2 ^ 64 * 2 ^ 64 * cross a end.
Fixpoint squares (a : list Z) : Z := match a with [] => 0 | w :: a => w * w + 2 ^ 64 * 2 ^ 64 * squares a end.

Lemma square_parts a : words_value a * words_value a = squares a + 2 * cross a.
Proof. induction a as [|w a IH]; [done|]. rewrite words_value_cons. cbn [cross squares]. nia. Qed.

Lemma cross_nonneg a : Forall (fits 64) a → 0 <= cross a ∧ 0 <= squares a.
Proof.
  induction 1 as [|w a Hw Ha IH]; cbn [cross squares]; [lia|]. pose proof (words_value_bound a Ha) as B. unfold fits in Hw.
  rewrite pow2_64 in *. split; nia.
Qed.

Lemma sqr_words_value a : Forall (fits 64) a → words_value (bn_sqr_words a) = squares a.
Proof.
  induction 1 as [|x a Hx _ IH]; [done|]. pose proof (product_range x x Hx Hx). unfold bn_sqr_words. cbn [mbind list_bind app].
  fold (bn_sqr_words a). rewrite wrap_128 by lia. destruct (lw_hw (x * x)) as (_ & _ & E); [lia|].
  rewrite !words_value_cons, IH. cbn [squares]. nia.
Qed.

(** A row of products, added above a front of words that is already there. *)
Lemma row_written r a w o :
  Forall (fits 64) a → fits 64 w → 0 <= o → o + lenZ a < lenZ r → Forall (fits 64) (takeZ (o + lenZ a) r) →
  ∃ c row, bn_mul_add_words (at_ r o (lenZ a)) a w = (c, row) ∧
    let r' := write_at r o (row ++ [c]) in
    lenZ r' = lenZ r ∧ dropZ (o + lenZ a + 1) r' = dropZ (o + lenZ a + 1) r ∧ Forall (fits 64) (takeZ (o + lenZ a + 1) r') ∧
    words_value (takeZ (o + lenZ a + 1) r') = words_value (takeZ (o + lenZ a) r) + 2 ^ (64 * o) * (words_value a * w).
Proof.
  intros Ha Hw Ho Hr Hf. pose proof (lenZ_nonneg a).
  destruct (cut_at r o (lenZ a)) as (P & Q & T & -> & LP & LQ); [lia..|]. rewrite !lenZ_app in Hr.
  destruct T as [|x R]; [change (lenZ (@nil Z)) with 0 in Hr; lia|]. rewrite lenZ_cons in Hr.
  rewrite (takeZ_app_ge P) in Hf |- * by lia. replace (o + lenZ a - lenZ P) with (lenZ a) in * by lia. rewrite (takeZ_app Q) in Hf |- * by lia.
  apply Forall_app in Hf as [FP FQ]. rewrite (at_mid P Q) by done.
  destruct (mul_add_words_spec Q a w FQ Ha Hw LQ) as (c & row & -> & Fc & Frow & Lrow & V). exists c, row. split; [done|]. cbv zeta.
  assert (write_at (P ++ Q ++ x :: R) o (row ++ [c]) = (P ++ row ++ [c]) ++ R) as ->.
  { change (x :: R) with ([x] ++ R). rewrite (app_assoc Q [x] R). rewrite (write_at_app P (Q ++ [x]) R (row ++ [c])) by (rewrite ?lenZ_app, ?lenZ_1; lia).
    by rewrite <-(app_assoc P). }
  assert (lenZ (P ++ row ++ [c]) = o + lenZ a + 1) as Lp by (rewrite !lenZ_app, lenZ_1; lia).
  rewrite (dropZ_app (P ++ row ++ [c])), (takeZ_app (P ++ row ++ [c])) by done.
  split; [rewrite !lenZ_app, lenZ_1, lenZ_cons; lia|]. split; [|split].
  - replace (P ++ Q ++ x :: R) with ((P ++ Q ++ [x]) ++ R) by (by rewrite <-!app_assoc). rewrite dropZ_app; [done|]. rewrite !lenZ_app, lenZ_1. lia.
  - apply Forall_app. split; [done|]. apply Forall_app. split; [done|]. by constructor.
  - rewrite !words_value_app, words_value_cons, LP, Lrow. change (words_value []) with 0. rewrite LQ in V. rewrite LQ. nia.
Qed.

Lemma sqr_rows_spec a r o :
  Forall (fits 64) a → 0 < lenZ a → 1 <= o → o + 2 * lenZ a - 2 <= lenZ r → Forall (fits 64) (takeZ (o + lenZ a - 1) r) →
  let k := o + 2 * lenZ a - 2 in let r' := sqr_rows a r o in
  lenZ r' = lenZ r ∧ dropZ k r' = dropZ k r ∧ Forall (fits 64) (takeZ k r') ∧
  words_value (takeZ k r') = words_value (takeZ (o + lenZ a - 1) r) + 2 ^ (64 * (o - 1)) * cross a.
Proof.
  intros Ha. revert r o. induction Ha as [|w a Hw Ha IH]; intros r o Hl Ho Hr Hf; [done|]. cbn [sqr_rows cross]. rewrite lenZ_cons in *. pose proof (lenZ_nonneg a).
  destruct (Z.eqb_spec (lenZ a) 0) as [E|E].
  { assert (a = []) as -> by (apply lenZ_0_nil; lia). change (words_value []) with 0. cbn [cross]. rewrite E in *.
    replace (o + 2 * (1 + 0) - 2) with o in * by lia. replace (o + (1 + 0) - 1) with o in * by lia. repeat (split; [done|]). lia. }
  replace (o + (1 + lenZ a) - 1) with (o + lenZ a) in * by lia.
  destruct (row_written r a w o Ha Hw) as (c & row & -> & L1 & D1 & F1 & V1); [lia|lia|done|]. set (r1 := write_at r o (row ++ [c])) in *.
  destruct (IH r1 (o + 2)) as (L & D & F & V); [lia|lia|lia|by replace (o + 2 + lenZ a - 1) with (o + lenZ a + 1) by lia|].
  replace (o + 2 + 2 * lenZ a - 2) with (o + 2 * (1 + lenZ a) - 2) in * by lia. replace (o + 2 + lenZ a - 1) with (o + lenZ a + 1) in V by lia.
  split; [lia|]. split; [|split; [done|]].
  - rewrite D. replace (o + 2 * (1 + lenZ a) - 2) with (o + lenZ a + 1 + (lenZ a - 1)) by lia. rewrite <-!(dropZ_dropZ _ (o + lenZ a + 1)) by lia. by rewrite D1.
  - rewrite V, V1. replace (64 * (o + 2 - 1)) with (64 + 64 + 64 * (o - 1)) by lia. replace (64 * o) with (64 + 64 * (o - 1)) by lia.
    rewrite !Z.pow_add_r by lia. nia.
Qed.

(** The products of different words, before they are doubled. *)
Lemma cross_rows r a (n := lenZ a) :
  Forall (fits 64) a → 0 < n → 2 * n <= lenZ r →
  let r0 := write_at (write_at r (n * 2 - 1) [0]) 0 [0] in
  let rr :=
    match a with
    | [] => r0
    | w :: a => if lenZ a =? 0 then r0 else let '(c, row) := bn_mul_words a w in sqr_rows a (write_at r0 1 (row ++ [c])) 3
    end in
  ∃ x, rr = x ++ dropZ (2 * n) r ∧ lenZ x = 2 * n ∧ Forall (fits 64) x ∧ words_value x = cross a.
Proof.
  intros Ha Hn Hr r0. destruct (cut_at r 1 (2 * n - 2)) as (A & B & C & E & LA & LB); [lia..|].
  destruct C as [|y R]; [rewrite E, !lenZ_app in Hr; change (lenZ (@nil Z)) with 0 in Hr; lia|].
  assert (dropZ (2 * n) r = R) as ->.
  { rewrite E. change (y :: R) with ([y] ++ R). rewrite !app_assoc. apply dropZ_app. rewrite !lenZ_app, lenZ_1. lia. }
  assert (r0 = [0] ++ B ++ [0] ++ R) as Er.
  { unfold r0. rewrite E. change (y :: R) with ([y] ++ R). rewrite (app_assoc A B), (write_at_app (A ++ B) [y] R [0]) by (rewrite ?lenZ_app; done || lia).
    rewrite <-app_assoc. by apply write_front. }
  clearbody r0. subst r0. clear E A LA y r Hr. unfold n in *. clear n.
  assert (∀ x, lenZ x = 2 * lenZ a - 1 → Forall (fits 64) x → words_value x = cross a →
    ∃ x', x ++ [0] ++ R = x' ++ R ∧ lenZ x' = 2 * lenZ a ∧ Forall (fits 64) x' ∧ words_value x' = cross a) as Hx.
  { intros x Lx Fx Vx. exists (x ++ [0]). rewrite <-app_assoc. split; [done|]. rewrite lenZ_app, lenZ_1. split; [lia|].
    split; [apply Forall_app; split; [done|by constructor; [apply fits_zero|]]|]. rewrite words_value_app. change (words_value [0]) with 0. lia. }
  destruct Ha as [|w a Hw Ha]; [done|]. rewrite lenZ_cons in *. destruct (Z.eqb_spec (lenZ a) 0) as [E|E].
  { assert (a = []) as -> by (apply lenZ_0_nil; lia). assert (B = []) as -> by (apply lenZ_0_nil; change (lenZ (@nil Z)) with 0 in LB; lia).
    apply (Hx [0]); [done|by constructor; [apply fits_zero|]|]. cbn [cross]. change (words_value []) with 0. change (words_value [0]) with 0. lia. }
  destruct (mul_words_spec a w Ha Hw) as (c & row & -> & Fc & Frow & Lrow & V).
  destruct (cut_at B 0 (1 + lenZ a)) as (B0 & B1 & B2 & EB & LB0 & LB1); [lia..|]. apply Z.eq_le_incl, lenZ_0_nil in LB0 as ->. cbn [app] in EB. subst B.
  rewrite lenZ_app in LB. rewrite <-(app_assoc B1). rewrite (write_at_app [0] B1 _ (row ++ [c])) by (rewrite ?lenZ_app, ?lenZ_1; done || lia).
  set (front := 0 :: row ++ [c]). assert (lenZ front = lenZ a + 2) as Lf by (unfold front; rewrite lenZ_cons, lenZ_app, lenZ_1; lia).
  assert ([0] ++ (row ++ [c]) ++ B2 ++ [0] ++ R = (front ++ B2) ++ [0] ++ R) as -> by (unfold front; cbn [app]; by rewrite <-!app_assoc).
  assert (Forall (fits 64) front) as Ff by (constructor; [apply fits_zero|]; apply Forall_app; split; [done|by constructor]).
  assert (takeZ (lenZ a + 2) ((front ++ B2) ++ [0] ++ R) = front) as Et by (rewrite <-app_assoc; by apply takeZ_app).
  assert (lenZ (front ++ B2) = 2 * lenZ a + 1) as Lb by (rewrite lenZ_app; lia).
  destruct (sqr_rows_spec a ((front ++ B2) ++ [0] ++ R) 3 Ha) as (L & D & F & VV); [lia|lia|rewrite !lenZ_app, lenZ_1; pose proof (lenZ_nonneg R); lia| |].
  { replace (3 + lenZ a - 1) with (lenZ a + 2) by lia. by rewrite Et. }
  replace (3 + 2 * lenZ a - 2) with (2 * lenZ a + 1) in * by lia. replace (3 + lenZ a - 1) with (lenZ a + 2) in * by lia.
  rewrite Et in VV. set (rr := sqr_rows _ _ _) in *. rewrite (dropZ_app (front ++ B2)) in D by done.
  rewrite <-(takeZ_dropZ (2 * lenZ a + 1) rr). rewrite D. apply Hx; [|done|].
  - rewrite lenZ_takeZ; [lia|]. rewrite L, !lenZ_app, lenZ_1. pose proof (lenZ_nonneg R). lia.
  - rewrite VV. unfold front. cbn [cross]. rewrite words_value_cons, words_value_app, words_value_cons, Lrow. change (words_value []) with 0.
    change (64 * (3 - 1)) with (64 + 64). rewrite Z.pow_add_r by lia. nia.
Qed.

Lemma sqr_normal_spec r a tmp :
  Forall (fits 64) a → 2 * lenZ a <= lenZ r → 2 * lenZ a <= lenZ tmp →
  multiplies (bn_sqr_normal r a tmp) r tmp (2 * lenZ a) (words_value a * words_value a).
Proof.
  intros Ha Hr Ht. pose proof (lenZ_nonneg a). unfold bn_sqr_normal. set (n := lenZ a) in *. destruct (Z.eqb_spec n 0) as [E|E].
  { assert (a = []) as -> by (apply lenZ_0_nil; lia). rewrite E. exists [], tmp. by rewrite dropZ_0. }
  destruct (cross_rows r a Ha) as (x & Ex & Lx & Fx & Vx); [fold n; lia|fold n; lia|]. fold n in Ex, Lx. cbv zeta in Ex.
  set (rr := match a with [] => _ | _ => _ end) in *. rewrite Ex. clearbody rr. clear rr Ex. replace (n * 2) with (2 * n) by lia.
  assert (2 ^ (64 * (2 * n)) = 2 ^ (64 * n) * 2 ^ (64 * n)) as PP by (rewrite <-Z.pow_add_r by lia; f_equal; lia).
  pose proof (words_value_bound a Ha) as B. fold n in B. destruct (cross_nonneg a Ha) as [C1 C2]. pose proof (square_parts a) as Sq.
  rewrite (at_front x) by done. destruct (add_words_spec x x Fx Fx eq_refl) as (c & x2 & -> & C & F2 & L2 & V2). rewrite Lx, PP in V2.
  pose proof (words_value_bound x2 F2) as B2. assert (c = 0) as -> by nia.
  rewrite (write_front x) by lia. rewrite (at_front x2) by lia.
  destruct (sqr_words_spec a Ha) as [F3 L3]. fold n in L3. rewrite (write_from_drop tmp _ (2 * n) L3), (at_front (bn_sqr_words a)) by lia.
  destruct (add_words_spec x2 (bn_sqr_words a) F2 F3 ltac:(lia)) as (c & x4 & -> & C4 & F4 & L4 & V4). rewrite L2, Lx, PP, (sqr_words_value a Ha) in V4.
  pose proof (words_value_bound x4 F4) as B4. assert (c = 0) as -> by nia.
  rewrite (write_front x2) by lia. eexists x4, _. split; [done|]. split; [rewrite lenZ_app, lenZ_dropZ; lia|]. split; [done|]. split; [lia|]. lia.
Qed.

(** * The recursion *)

Lemma abs_sub_words_spec a b :
  Forall (fits 64) a → Forall (fits 64) b → lenZ a = lenZ b →
  ∃ r tmp, bn_abs_sub_words a b = (r, tmp) ∧ lenZ tmp = lenZ a ∧ Forall (fits 64) r ∧ lenZ r = lenZ a ∧
    words_value r = Z.abs (words_value a - words_value b).
Proof.
  intros Ha Hb L. unfold bn_abs_sub_words.
  destruct (sub_words_spec a b Ha Hb L) as (c & tmp & -> & C & F & LL & V). destruct (sub_words_spec b a Hb Ha) as (c' & r & -> & C' & F' & L' & V'); [done|].
  pose proof (words_value_bound _ F) as B. rewrite LL in B. pose proof (words_value_bound _ F') as B'. rewrite L', <-L in B'.
  pose proof (words_value_bound _ Ha) as Ba. pose proof (words_value_bound _ Hb) as Bb. rewrite <-L in Bb, V'.
  destruct (borrow_sign c (words_value tmp) (64 * lenZ a) (words_value a) (words_value b) C B) as [-> S]; [lia|lia|lia|].
  destruct (borrow_sign c' (words_value r) (64 * lenZ a) (words_value b) (words_value a) C' B') as [_ S']; [lia|lia|lia|].
  exists (if words_value a <? words_value b then r else tmp), tmp. rewrite select_words_mask by (done || lia). split; [done|]. split; [done|].
  destruct (Z.ltb_spec (words_value a) (words_value b)) as [Hlt|Hge].
  - split; [done|]. split; [lia|]. rewrite S' by (apply Z.ltb_ge; lia). lia.
  - split; [done|]. split; [done|]. rewrite S by done. lia.
Qed.

Lemma sqr_combine n (a0 a1 : Z) X Y D T0 p Rr :
  0 <= n → lenZ X = 2 * n → lenZ Y = 2 * n → lenZ D = 2 * n → lenZ T0 = 2 * n →
  Forall (fits 64) X → Forall (fits 64) Y → Forall (fits 64) D →
  let P := 2 ^ (64 * n) in 0 <= a0 < P → 0 <= a1 < P →
  words_value X = a0 * a0 → words_value Y = a1 * a1 → words_value D = Z.abs (a0 - a1) * Z.abs (a0 - a1) →
  let n2 := 2 * n in let r := X ++ Y ++ Rr in let t := T0 ++ D ++ p in
  multiplies
    (let '(c, t01) := add_words (at_ r 0 n2) (at_ r n2 n2) in
     let t := write_at t 0 t01 in
     let '(borrow, d) := sub_words (at_ t 0 n2) (at_ t n2 n2) in
     let t := write_at t n2 d in
     (add_middle r (at_ t n2 n2) n (u64 (c - borrow)), t)) r t (4 * n) ((a0 + P * a1) * (a0 + P * a1)).
Proof.
  intros Hn LX LY LD LT FX FY FD P B0 B1 VX VY VD n2 r t. unfold r, t, n2.
  assert (2 ^ (64 * (2 * n)) = P * P) as PP by (unfold P; rewrite <-Z.pow_add_r by lia; f_equal; lia).
  rewrite (at_front X), (at_mid X Y) by done.
  destruct (add_words_spec X Y FX FY ltac:(lia)) as (c & t01 & -> & C & F01 & L01 & V01). rewrite LX, PP in V01.
  rewrite (write_front T0) by lia. rewrite (at_front t01), (at_mid t01 D) by lia.
  destruct (sub_words_spec t01 D F01 FD ltac:(lia)) as (borrow & d & -> & Cb & Fd & Ld & Vd). rewrite L01, LX, PP in Vd.
  rewrite (write_at_app t01 D p d (2 * n)) by lia. rewrite (at_mid t01 d) by lia.
  assert (Z.abs (a0 - a1) * Z.abs (a0 - a1) = a0 * a0 + a1 * a1 - 2 * (a0 * a1)) as Sq by nia.
  pose proof (words_value_bound d Fd) as Bd. rewrite Ld, L01, LX, PP in Bd. 
  rewrite VX, VY in V01. rewrite VD, Sq in Vd. clear Sq.
  assert (words_value d + P * P * (c - borrow) = 2 * (a0 * a1)) as Vm by lia. assert (0 <= a0 * a1) as Hm by (apply Z.mul_nonneg_nonneg; lia).
  assert (0 <= c - borrow <= 1) as Cc.
  { assert (borrow <= c); [|lia]. apply Z.nlt_ge. intros Hlt. replace (c - borrow) with (-1) in Vm by lia. lia. }
  rewrite (wrap_small 64 (c - borrow)) by (split; rewrite ?pow2_64; lia).
  assert (words_value X + P * (words_value d + P * P * (c - borrow)) + P * P * words_value Y = (a0 + P * a1) * (a0 + P * a1)) as Ev.
  { rewrite Vm, VX, VY. ring. }
  assert ((a0 + P * a1) * (a0 + P * a1) < P * P * (P * P)) as Hlt.
  { assert (a0 + P * a1 < P * P) by nia. apply Z.mul_lt_mono_nonneg; nia. }
  destruct (add_middle_spec n X Y Rr d (c - borrow) Hn LX LY) as (ws & -> & F & L & V); [lia|done..|lia|fold P; rewrite Ev; exact Hlt|].
  fold P in V. rewrite Ev in V. eexists ws, _. split; [f_equal; f_equal|split; [|done]].
  - rewrite (app_assoc X Y). rewrite dropZ_app; [done|]. rewrite lenZ_app. lia.
  - rewrite !lenZ_app. lia.
Qed.

Lemma sqr_recursive_spec fuel k r a t :
  let n2 := 2 ^ k in
  0 <= k < Z.of_nat fuel → Forall (fits 64) a → n2 <= lenZ a → 2 * n2 <= lenZ r → 4 * n2 <= lenZ t →
  multiplies (bn_sqr_recursive fuel r a n2 t) r t (2 * n2) (words_value (at_ a 0 n2) * words_value (at_ a 0 n2)).
Proof.
  revert k r a t. induction fuel as [|fuel IH]; intros k r a t n2 Hk Fa La Lr Lt; [lia|]. pose proof (Z.pow_pos_nonneg 2 k ltac:(lia) ltac:(lia)) as Hn2. fold n2 in Hn2.
  cbn [bn_sqr_recursive]. unfold BN_SQR_RECURSIVE_SIZE_NORMAL, BN_MUL_RECURSIVE_SIZE_NORMAL.
  destruct (Z.eqb_spec n2 4) as [E4|_]; [|destruct (Z.eqb_spec n2 8) as [E8|_]; [|destruct (Z.ltb_spec n2 16) as [Hlt|Hge]]].
  - rewrite E4 in *. destruct (sqr_comba4_spec (at_ a 0 4)) as (F & L & V); [by apply at_fits|apply at_len; lia|].
    eexists _, t. split; [|split; [done|split; [exact F|split; [exact L|exact V]]]]. by rewrite (write_from_drop r _ (2 * 4) L) by lia.
  - rewrite E8 in *. destruct (sqr_comba8_spec (at_ a 0 8)) as (F & L & V); [by apply at_fits|apply at_len; lia|].
    eexists _, t. split; [|split; [done|split; [exact F|split; [exact L|exact V]]]]. by rewrite (write_from_drop r _ (2 * 8) L) by lia.
  - pose proof (sqr_normal_spec r (at_ a 0 n2) t (at_fits a 0 n2 Fa)) as H. rewrite at_len in H by lia. apply H; lia.
  - assert (4 <= k) as Hk4. { destruct (Z.le_gt_cases 4 k); [done|]. assert (2 ^ k < 2 ^ 4) by (apply Z.pow_lt_mono_r; lia). change (2 ^ 4) with 16 in *. lia. }
    destruct (pow2_half k ltac:(lia)) as [Eh E2]. fold n2 in Eh, E2. rewrite Eh. set (n := 2 ^ (k - 1)) in *. clearbody n2. subst n2.
    pose proof (λ r a t, IH (k - 1) r a t ltac:(lia)) as IHn. cbv zeta in IHn. fold n in IHn. clearbody n. clear IH.
    destruct (abs_sub_words_spec (at_ a 0 n) (at_ a n n)) as (t0 & tmp & -> & Lx & F0 & L0 & V0); [by apply at_fits..|rewrite !at_len by lia; done|].
    rewrite at_len in Lx, L0 by lia.
    destruct (cut_at t n n) as (A1 & A2 & q & E & LA1 & LA2); [lia..|]. rewrite E, !lenZ_app in Lt.
    destruct (cut_at q 0 (2 * n)) as (A3 & W & p & Eq & LA3 & LW); [lia..|]. apply Z.eq_le_incl, lenZ_0_nil in LA3 as ->. cbn [app] in Eq. subst t q.
    rewrite (write_at_app A1 A2 _ tmp) by lia. rewrite (write_front A1), (app_assoc t0 tmp) by lia. set (T0 := t0 ++ tmp). rewrite lenZ_app in Lt.
    assert (lenZ T0 = 2 * n) as LT by (unfold T0; rewrite lenZ_app; lia).
    rewrite (at_mid T0 W) by done. rewrite at_0. rewrite (takeZ_app_le T0) by lia. unfold T0 at 1. rewrite (takeZ_app t0) by done.
    assert (dropZ (2 * n * 2) (T0 ++ W ++ p) = p) as ->. { rewrite app_assoc. apply dropZ_app. rewrite lenZ_app. lia. }
    destruct (multiplies_exact _ _ _ _ _ (IHn W t0 p F0 ltac:(lia) ltac:(lia) ltac:(lia)) ltac:(lia)) as (D & p1 & -> & Lp1 & FD & LD & VD).
    set (R1 := at_ r 0 (2 * n)). assert (lenZ R1 = 2 * n) as LR1 by (apply at_len; lia).
    destruct (multiplies_exact _ _ _ _ _ (IHn R1 (at_ a 0 n) p1 (at_fits a 0 n Fa) ltac:(rewrite at_len; lia) ltac:(lia) ltac:(lia)) ltac:(lia)) as (X & p2 & -> & Lp2 & FX & LX & VX).
    set (R2 := at_ (write_at r 0 X) (2 * n) (2 * n)). assert (lenZ R2 = 2 * n) as LR2 by (apply at_len; rewrite ?lenZ_write_at; lia).
    destruct (multiplies_exact _ _ _ _ _ (IHn R2 (at_ a n n) p2 (at_fits a n n Fa) ltac:(rewrite at_len; lia) ltac:(lia) ltac:(lia)) ltac:(lia)) as (Y & p3 & -> & Lp3 & FY & LY & VY).
    rewrite (write_halves r X Y (2 * n) LX LY) by lia. rewrite (write_at_app T0 W p D) by lia.
    assert (write_at (T0 ++ D ++ p) (2 * n * 2) p3 = T0 ++ D ++ p3) as ->.
    { pose proof (write_at_app (T0 ++ D) p [] p3 (2 * n * 2)) as Ew. rewrite !app_nil_r, <-!app_assoc in Ew. apply Ew; rewrite ?lenZ_app; lia. }
    rewrite !at_0 in VX, VY, VD. rewrite takeZ_all in VD by lia. rewrite ?at_0, takeZ_takeZ in VX by lia. rewrite takeZ_all in VY by (rewrite at_len; lia).
    rewrite V0 in VD. rewrite at_0 in VD. replace (4 * n) with (2 * (2 * n)) by lia.
    assert (∀ i, 0 <= i → i + n <= lenZ a → 0 <= words_value (at_ a i n) < 2 ^ (64 * n)) as Hb.
    { intros i ? ?. pose proof (words_value_bound _ (at_fits a i n Fa)) as B. by rewrite at_len in B by lia. }
    destruct (sqr_combine n (words_value (takeZ n a)) (words_value (at_ a n n)) X Y D T0 p3 (dropZ (2 * (2 * n)) r)) as (ws & t' & E & Lt' & F & L & V); try done; try lia.
    { rewrite <-at_0. apply Hb; lia. } { apply Hb; lia. }
    exists ws, t'. split; [etransitivity; [exact E|]|split; [|split; [done|split; [lia|]]]].
    + do 2 f_equal. rewrite (app_assoc X Y). rewrite dropZ_app; [done|]. rewrite lenZ_app. lia.
    + rewrite Lt', !lenZ_app. lia.
    + rewrite V. replace (2 * n) with (n + n) by lia. rewrite (at_split a 0 n n), words_value_app, at_len, at_0 by lia. done.
Qed.

(** * Properties *)

(** Two arrays written in full are the same when they hold the same number. *)
Lemma multiplies_unique x y r t N v :
  multiplies x r t N v → (∃ ws, y = ws ++ dropZ N r ∧ Forall (fits 64) ws ∧ lenZ ws = N ∧ words_value ws = v) → x.1 = y.
Proof.
  intros (ws & t1 & -> & _ & F & L & V) (ws' & -> & F' & L' & V'). cbn [fst]. f_equal.
  apply words_value_inj; [done|done|unfold lenZ in *; lia|lia].
Qed.

Lemma padded_at r a b n :
  Forall (fits 64) a → Forall (fits 64) b → lenZ a + lenZ b <= n → n <= lenZ r →
  ∃ ws, zero_at (bn_mul_normal r a b) (lenZ a + lenZ b) (n - (lenZ a + lenZ b)) = ws ++ dropZ n r ∧ Forall (fits 64) ws ∧ lenZ ws = n ∧
    words_value ws = words_value a * words_value b.
Proof. intros. by apply padded_product. Qed.

(** C17. Karatsuba's recursion computes the schoolbook product, word for word: multiplying numbers of about
    a power of two of words, a little more than a power of two, or squaring, it leaves in the result array
    what the row-by-row multiplication would have left there, and zeros above where the numbers are
    shorter, and touches nothing beyond; whatever the result and the scratch array held. *)
Theorem karatsuba_is_schoolbook k r a b da db t :
  let n := 2 ^ k in let x := at_ a 0 (n + da) in let y := at_ b 0 (n + db) in
  let normal N := zero_at (bn_mul_normal r x y) (2 * n + da + db) (N - (2 * n + da + db)) in
  0 <= k < 62 → 0 <= n + da → 0 <= n + db →
  Forall (fits 64) a → Forall (fits 64) b → n + da <= lenZ a → n + db <= lenZ b → 4 * n <= lenZ r → 8 * n <= lenZ t →
  (-8 <= da <= 0 → -8 <= db <= 0 → (bn_mul_recursive 64 r a b n da db t).1 = normal (2 * n)) ∧
  (8 <= n → 0 <= da < n → 0 <= db < n → -1 <= da - db <= 1 → (bn_mul_part_recursive 64 r a b n da db t).1 = normal (4 * n)) ∧
  (da = 0 → (bn_sqr_recursive 64 r a n t).1 = bn_mul_normal r x x).
Proof.
  intros n x y normal Hk Ha Hb Fa Fb La Lb Lr Lt.
  assert (Forall (fits 64) x ∧ Forall (fits 64) y ∧ lenZ x = n + da ∧ lenZ y = n + db) as (Fx & Fy & Lx & Ly) by (split; [by apply at_fits|split; [by apply at_fits|split; apply at_len; lia]]).
  assert (∀ N, 2 * n + da + db <= N <= lenZ r → ∃ ws, normal N = ws ++ dropZ N r ∧ Forall (fits 64) ws ∧ lenZ ws = N ∧ words_value ws = words_value x * words_value y) as Hn.
  { intros N HN. pose proof (padded_at r x y N Fx Fy) as P. rewrite Lx, Ly in P. unfold normal. replace (2 * n + da + db) with (n + da + (n + db)) by lia. apply P; lia. }
  split; [|split].
  - intros Hda Hdb. apply (multiplies_unique (bn_mul_recursive 64 r a b n da db t) (normal (2 * n)) r t (2 * n) (words_value x * words_value y)); [|apply Hn; lia]. apply (mul_recursive_spec 64 k); first [assumption|lia].
  - intros H8 Hda Hdb Hd. apply (multiplies_unique (bn_mul_part_recursive 64 r a b n da db t) (normal (4 * n)) r t (4 * n) (words_value x * words_value y)); [|apply Hn; lia]. apply (part_recursive_spec 64 k); first [assumption|lia].
  - intros ->. apply (multiplies_unique (bn_sqr_recursive 64 r a n t) (bn_mul_normal r x x) r t (2 * n) (words_value x * words_value x)).
    + unfold x. rewrite Z.add_0_r. apply (sqr_recursive_spec 64 k); first [assumption|lia].
    + destruct (mul_normal_spec r x x Fx Fx) as (ws & E & L & F & V); [lia|]. rewrite Lx in *. exists ws. replace (2 * n) with (n + 0 + (n + 0)) by lia. done.
Qed.

(** Sixteen words of different digits, and the array before full of ones. *)
Lemma karatsuba_is_schoolbook_witness :
  let n := 2 ^ 4 in let a := map Z.of_nat (seq 1 16) in let b := replicate 16 (2 ^ 64 - 1) in let r := replicate 64 1 in let t := replicate 128 3 in
  (bn_mul_recursive 64 r a b n 0 0 t).1 = zero_at (bn_mul_normal r (at_ a 0 (n + 0)) (at_ b 0 (n + 0))) (2 * n + 0 + 0) (2 * n - (2 * n + 0 + 0)).
Proof.
  intros n a b r t. assert (Forall (fits 64) a) as Fa by decide_now. assert (Forall (fits 64) b) as Fb by decide_now.
  assert (n = 16) as En by reflexivity. assert (lenZ a = 16 ∧ lenZ b = 16 ∧ lenZ r = 64 ∧ lenZ t = 128) as (La & Lb & Lr & Lt) by done.
  clearbody a b r t. destruct (karatsuba_is_schoolbook 4 r a b 0 0 t) as [H _]; fold n; [lia|lia|lia|exact Fa|exact Fb|lia|lia|lia|lia|].
  apply H; lia.
Defined.
