(* ===== verification/BnCtx.v ===== *)
(** The context that hands out scratch numbers:
    src/HolyWater-Test/Pods/BoringSSL-GRPC/src/crypto/fipsmodule/bn/ctx.c.

    The pool is a stack of pointers, as in stack.c; the name of a number in the store is its address.  The
    allocator gives a new number an address at which there is none.  [ctx_later] is any sequence of later
    calls and of the client's own work, over which a failure is final. *)
From stdpp Require Import gmap.
From S2P Require Import Prelude Mem Stack Bn.

Open Scope Z_scope.

(** * The code *)

Definition BN_CTX_START_FRAMES : Z := 32.

Record BN_STACK := { indexes : option (list Z); depth : Z; size : Z }.
Record BN_CTX := { bignums : option (STACK unit); stack : BN_STACK; used : Z; error : bool; defer_error : bool }.

Definition BN_STACK_init : BN_STACK := {| indexes := None; depth := 0; size := 0 |}.

(** The number a pointer points to. *)
Definition number_at (p : Z) : var := Z.to_nat p.

Section ctx.
Context {libc : Libc} {addrs : AddrAlloc}.

Definition BN_STACK_push (st : BN_STACK) (idx : Z) : option BN_STACK :=
  st ← (if depth st =? size st then
          let new_size := if negb (size st =? 0) then size_t (size st * 3) / 2 else BN_CTX_START_FRAMES in
          if (new_size <=? size st) || ((2 ^ 64 - 1) / 8 <? new_size) then None
          else new_indexes ← realloc_ptrs (default [] (indexes st)) new_size;
               Some {| indexes := Some new_indexes; depth := depth st; size := new_size |}
        else Some st);
  Some {| indexes := (λ l, <[Z.to_nat (depth st) := idx]> l) <$> indexes st; depth := depth st + 1; size := size st |}.

Definition BN_STACK_pop (st : BN_STACK) : BN_STACK * Z :=
  let st := {| indexes := indexes st; depth := depth st - 1; size := size st |} in
  (st, nthZ (default [] (indexes st)) (depth st)).

Definition sizeof_BN_CTX : Z := 48.
Definition BN_CTX_new : option BN_CTX :=
  _ ← OPENSSL_malloc sizeof_BN_CTX;
  Some {| bignums := None; stack := BN_STACK_init; used := 0; error := false; defer_error := false |}.

Definition set_error (e d : bool) (ctx : BN_CTX) : BN_CTX :=
  {| bignums := bignums ctx; stack := stack ctx; used := used ctx; error := e; defer_error := d |}.
Definition set_bignums (b : option (STACK unit)) (ctx : BN_CTX) : BN_CTX :=
  {| bignums := b; stack := stack ctx; used := used ctx; error := error ctx; defer_error := defer_error ctx |}.
Definition set_used (n : Z) (ctx : BN_CTX) : BN_CTX :=
  {| bignums := bignums ctx; stack := stack ctx; used := n; error := error ctx; defer_error := defer_error ctx |}.
Definition set_stack (st : BN_STACK) (ctx : BN_CTX) : BN_CTX :=
  {| bignums := bignums ctx; stack := st; used := used ctx; error := error ctx; defer_error := defer_error ctx |}.

Definition BN_CTX_start (ctx : BN_CTX) : BN_CTX :=
  if error ctx then ctx
  else match BN_STACK_push (stack ctx) (used ctx) with
       | Some st => set_stack st ctx
       | None => set_error true true ctx
       end.

(** [BN_new], at the address the allocator gives. *)
Definition new_number : M bns Z := λ s,
  match new_addr (Z.of_nat <$> elements (dom s)), BN_new with
  | Some a, Some b => (Some a, <[number_at a := b]> s)
  | _, _ => (None, s)
  end.

(** The pool when it is there, and with a number more when all are in use; [None] is a failure. *)
Definition with_pool (ctx : BN_CTX) : BN_CTX * bool :=
  match bignums ctx with
  | Some _ => (ctx, true)
  | None => match sk_new_null with
            | Some sk => (set_bignums (Some sk) ctx, true)
            | None => (set_error true (defer_error ctx) ctx, false)
            end
  end.
Definition with_number (ctx : BN_CTX) : M bns BN_CTX := λ s,
  if used ctx =? sk_num (bignums ctx) then
    match new_number s with
    | (None, s) => (None, s)
    | (Some bn, s) =>
        match sk_push (bignums ctx) bn with
        | (r, sk) => if r =? 0 then (None, delete (number_at bn) s) else (Some (set_bignums sk ctx), s)
        end
    end
  else (Some ctx, s).

Definition BN_CTX_get : M (BN_CTX * bns) Z := λ '(ctx, s),
  if error ctx then (None, (set_error true false ctx, s))
  else
    let '(ctx, ok) := with_pool ctx in
    if negb ok then (None, (ctx, s))
    else
      match with_number ctx s with
      | (None, s) => (None, (set_error true (defer_error ctx) ctx, s))
      | (Some ctx, s) =>
          let ret := sk_value (bignums ctx) (used ctx) in
          (Some ret, (set_used (used ctx + 1) ctx, upd (number_at ret) BN_zero s))
      end.

Definition BN_CTX_end (ctx : BN_CTX) : BN_CTX :=
  if error ctx then ctx
  else let '(st, n) := BN_STACK_pop (stack ctx) in set_used n (set_stack st ctx).

Definition BN_CTX_free (ctx : option BN_CTX) (s : bns) : bns :=
  match ctx with
  | None => s
  | Some ctx => fold_left (λ s p, delete (number_at p) s) (from_option items [] (bignums ctx)) s
  end.
End ctx.

(** * Frames *)

(** The abstract context: the numbers handed out since each [BN_CTX_start] not yet ended, the innermost
    first; those from before any are the last. *)
Definition frames : Type := list (list Z).
Definition in_use (fs : frames) : list Z := concat (reverse fs).
(** How many numbers were in use when each frame was started, the outermost first. *)
Fixpoint starts (fs : frames) : list Z :=
  match fs with
  | [] | [_] => []
  | _ :: fs => starts fs ++ [lenZ (in_use fs)]
  end.
Definition pool (ctx : BN_CTX) : list Z := from_option items [] (bignums ctx).

(** The pool holds different addresses of numbers of the store, those in use first, and the stack of
    indexes is where the frames start. *)
Record holds (ctx : BN_CTX) (s : bns) (fs : frames) : Prop := {
  h_ok : error ctx = false;
  h_frames : fs ≠ [];
  h_stack : from_option stack_wf True (bignums ctx);
  h_used : used ctx = lenZ (in_use fs);
  h_prefix : takeZ (used ctx) (pool ctx) = in_use fs;
  h_nodup : NoDup (pool ctx);
  h_live : Forall (λ p, 0 < p ∧ number_at p ∈ dom s) (pool ctx);
  h_depth : depth (stack ctx) = lenZ (starts fs);
  h_size : size (stack ctx) = lenZ (default [] (indexes (stack ctx))) ∧ 0 <= depth (stack ctx) <= size (stack ctx);
  h_indexes : takeZ (depth (stack ctx)) (default [] (indexes (stack ctx))) = starts fs;
  h_alloc : indexes (stack ctx) = None → size (stack ctx) = 0;
}.

Lemma in_use_start fs : in_use ([] :: fs) = in_use fs.
Proof. unfold in_use. rewrite reverse_cons, concat_app. cbn. by rewrite app_nil_r. Qed.
Lemma in_use_get f fs a : in_use ((f ++ [a]) :: fs) = in_use (f :: fs) ++ [a].
Proof. unfold in_use. rewrite !reverse_cons, !concat_app. cbn. by rewrite !app_nil_r, app_assoc. Qed.
Lemma in_use_end f fs : in_use (f :: fs) = in_use fs ++ f.
Proof. unfold in_use. rewrite reverse_cons, concat_app. cbn. by rewrite app_nil_r. Qed.
Lemma starts_cons f fs : fs ≠ [] → starts (f :: fs) = starts fs ++ [lenZ (in_use fs)].
Proof. by destruct fs. Qed.

Section facts.
Context {libc : Libc} {addrs : AddrAlloc}.

Lemma push_spec st idx :
  size st = lenZ (default [] (indexes st)) → 0 <= depth st <= size st → (indexes st = None → size st = 0) →
  match BN_STACK_push st idx with
  | Some st' => depth st' = depth st + 1 ∧ size st' = lenZ (default [] (indexes st')) ∧ depth st' <= size st' ∧ is_Some (indexes st') ∧
      takeZ (depth st') (default [] (indexes st')) = takeZ (depth st) (default [] (indexes st)) ++ [idx]
  | None => True
  end.
Proof.
  intros Hs Hd Hn. unfold BN_STACK_push. set (grown := if depth st =? size st then _ else Some st).
  assert (∀ st', grown = Some st' → depth st' = depth st ∧ depth st < size st' ∧ size st' = lenZ (default [] (indexes st')) ∧ is_Some (indexes st') ∧
    takeZ (depth st) (default [] (indexes st')) = takeZ (depth st) (default [] (indexes st))) as Hg.
  { unfold grown. destruct (Z.eqb_spec (depth st) (size st)) as [E|E]; intros st'.
    - set (n := if negb (size st =? 0) then _ else _). destruct ((n <=? size st) || ((2 ^ 64 - 1) / 8 <? n)) eqn:Eg; [done|].
      apply orb_false_iff in Eg as [Eg%Z.leb_gt _]. destruct (realloc_ptrs (default [] (indexes st)) n) as [l|] eqn:Er; cbn; [|done]. intros [= <-]. cbn.
      apply realloc_ptrs_spec in Er as [Ll Tl]; [|lia]. split; [done|]. split; [lia|]. split; [lia|]. split; [by eexists|]. by rewrite E, Hs, Tl, takeZ_all.
    - intros [= <-]. split; [done|]. split; [lia|]. split; [done|]. split; [|done]. destruct (indexes st); [by eexists|]. specialize (Hn eq_refl). cbn in Hs. lia. }
  clearbody grown. destruct grown as [st'|]; cbn; [|done]. destruct (Hg st' eq_refl) as (E1 & E2 & E3 & [l El] & E4). rewrite El in *. cbn in *. rewrite E1 in *.
  split; [done|]. split; [unfold lenZ in *; by rewrite length_insert|]. split; [lia|]. split; [by eexists|].
  rewrite (insert_write_at l) by lia. rewrite takeZ_write_at by (rewrite ?lenZ_1; lia). by rewrite E4.
Qed.

Lemma start_refines ctx s fs : holds ctx s fs → error (BN_CTX_start ctx) = false → holds (BN_CTX_start ctx) s ([] :: fs).
Proof.
  intros [H1 H2 H3 H4 H5 H6 H7 H8 [H9 H10] H11 H12]. unfold BN_CTX_start. rewrite H1. pose proof (push_spec (stack ctx) (used ctx) H9 H10 H12) as P.
  destruct (BN_STACK_push _ _) as [st|]; [|done]. intros _. destruct P as (P1 & P2 & P3 & [l El] & P5).
  split; rewrite ?in_use_start, ?starts_cons by done; cbn [set_stack bignums stack used error defer_error]; try done.
  - rewrite lenZ_app, lenZ_1. lia.
  - split; [done|lia].
  - rewrite P5, H11, H4. done.
  - rewrite El. done.
Qed.

Lemma end_refines ctx s f fs : holds ctx s (f :: fs) → fs ≠ [] → holds (BN_CTX_end ctx) s fs.
Proof.
  intros [H1 H2 H3 H4 H5 H6 H7 H8 [H9 H10] H11 H12] Hfs. unfold BN_CTX_end. rewrite H1. rewrite starts_cons in H8, H11 by done. rewrite lenZ_app, lenZ_1 in H8.
  pose proof (lenZ_nonneg (starts fs)). set (l := default [] (indexes (stack ctx))) in *.
  assert (takeZ (depth (stack ctx) - 1) l = starts fs) as E1 by (rewrite <-(takeZ_takeZ _ (depth (stack ctx))), H11 by lia; apply takeZ_app; lia).
  assert (nthZ l (depth (stack ctx) - 1) = lenZ (in_use fs)) as E2.
  { rewrite (takeZ_snoc l (depth (stack ctx))), E1 in H11 by lia. by apply app_inj_tail in H11 as [_ ->]. }
  unfold BN_STACK_pop. cbn [depth indexes]. fold l. rewrite in_use_end, lenZ_app in H4. pose proof (lenZ_nonneg f).
  split; cbn [set_used set_stack bignums stack used error defer_error depth size indexes]; fold l; try done.
  - rewrite E2. rewrite <-(takeZ_takeZ (lenZ (in_use fs)) (used ctx)) by lia. change (pool _) with (pool ctx). rewrite H5, in_use_end. by apply takeZ_app.
  - lia.
  - split; [done|lia].
Qed.

Lemma number_at_inj a b : 0 < a → 0 < b → number_at a = number_at b → a = b.
Proof. unfold number_at. lia. Qed.

Lemma new_number_spec s :
  match new_number s with
  | (Some a, s') => 0 < a ∧ (number_at a ∉ dom s) ∧ ∃ b, s' = <[number_at a := b]> s ∧ bn_wf b
  | (None, s') => s' = s
  end.
Proof.
  unfold new_number. destruct (new_addr _) as [a|] eqn:Ea; [|done]. destruct BN_new as [b|] eqn:Eb; [|done].
  apply new_addr_fresh in Ea as [Hf Ha]. split; [lia|]. split.
  - intros Hd. apply Hf. apply list_elem_of_fmap. exists (number_at a). split; [unfold number_at; lia|by apply elem_of_elements].
  - exists b. split; [done|]. unfold BN_new in Eb. destruct (OPENSSL_malloc _); [|done]. injection Eb as <-. split; [cbn; lia|done|cbn; by vm_compute|constructor].
Qed.

(** A pool with a number to hand out. *)
Definition pool_ready (ctx ctx' : BN_CTX) (s s' : bns) : Prop :=
  error ctx' = false ∧ stack ctx' = stack ctx ∧ used ctx' = used ctx ∧ from_option stack_wf True (bignums ctx') ∧
  ((pool ctx' = pool ctx ∧ s' = s ∧ used ctx < lenZ (pool ctx)) ∨
   (∃ a b, pool ctx' = pool ctx ++ [a] ∧ used ctx = lenZ (pool ctx) ∧ 0 < a ∧ (number_at a ∉ dom s) ∧ s' = <[number_at a := b]> s ∧ bn_wf b)).

Lemma with_number_spec ctx s :
  error ctx = false → is_Some (bignums ctx) → from_option stack_wf True (bignums ctx) → used ctx <= lenZ (pool ctx) →
  match with_number ctx s with
  | (Some ctx', s') => pool_ready ctx ctx' s s'
  | (None, s') => s' = s
  end.
Proof.
  intros He [sk Ek] Hw Hu. unfold with_number, pool in *. rewrite Ek in *. cbn [from_option sk_num] in *. pose proof (lenZ_items sk Hw) as Ls. rewrite Ls in Hu.
  destruct (Z.eqb_spec (used ctx) (num sk)) as [E|E].
  2:{ split; [done|]. split; [done|]. split; [done|]. rewrite Ek. split; [done|]. left. unfold pool. rewrite Ek. cbn [from_option]. split; [done|]. split; [done|lia]. }
  pose proof (new_number_spec s) as Hn. destruct (new_number s) as [[a|] s1]; [|done]. destruct Hn as (Ha & Hd & b & -> & Hb).
  pose proof (sk_insert_spec sk a (num sk) Hw ltac:(destruct Hw; lia)) as Hi. unfold sk_push. cbn [sk_num]. destruct (sk_insert (Some sk) a (num sk)) as [r [sk'|]]; [|done].
  destruct Hi as [(Er & W & Ei & _)|[-> ->]].
  - rewrite (proj2 (Z.eqb_neq r 0)) by (destruct Hw; lia). split; [done|]. split; [done|]. split; [done|]. split; [exact W|]. right. exists a, b. unfold pool, set_bignums. cbn [bignums from_option].
    rewrite Ek. cbn [from_option]. split; [|split; [lia|done]]. rewrite Ei. unfold insert_at. rewrite takeZ_all, dropZ_all by lia. done.
  - rewrite Z.eqb_refl. apply delete_insert_id. by apply not_elem_of_dom.
Qed.

(** The number at index [used] of a pool that is ready. *)
Lemma ready_number ctx ctx' s s' l :
  pool_ready ctx ctx' s s' → takeZ (used ctx) (pool ctx) = l → lenZ l = used ctx → NoDup (pool ctx) → Forall (λ p, 0 < p ∧ number_at p ∈ dom s) (pool ctx) →
  let ret := sk_value (bignums ctx') (used ctx') in
  takeZ (used ctx + 1) (pool ctx') = l ++ [ret] ∧ NoDup (pool ctx') ∧ Forall (λ p, 0 < p ∧ number_at p ∈ dom s') (pool ctx') ∧
  (ret ∈ pool ctx ∨ number_at ret ∉ dom s) ∧ (∀ x, x ≠ number_at ret → s' !! x = s !! x) ∧ ((∀ x, bn_wf (s !!! x)) → ∀ x, bn_wf (s' !!! x)).
Proof.
  intros (N1 & N2 & N3 & N4 & N5) Hl Ll Hd Hlive ret. pose proof (lenZ_nonneg l).
  assert (used ctx < lenZ (pool ctx')) as Hu.
  { destruct N5 as [(-> & _ & ?)|(a & b & -> & E & _)]; [done|]. rewrite lenZ_app, lenZ_1. lia. }
  assert (ret = nthZ (pool ctx') (used ctx)) as Er.
  { unfold ret, pool in *. rewrite N3. destruct (bignums ctx') as [sk|]; [|cbn in Hu; change (lenZ []) with 0 in Hu; lia]. cbn [from_option] in *. rewrite (lenZ_items sk N4) in Hu.
    unfold sk_value. rewrite (proj2 (Z.leb_gt _ _)) by lia. symmetry. apply nthZ_items. lia. }
  clearbody ret. destruct N5 as [(Ep & -> & Hlt)|(a & b & Ep & E & Ha & Hds & -> & Hb)]; rewrite Ep in *.
  - split; [rewrite (takeZ_snoc _ (used ctx + 1)) by lia; replace (used ctx + 1 - 1) with (used ctx) by lia; by rewrite Hl, Er|].
    split; [done|]. split; [done|]. split; [|done]. left. rewrite Er. unfold nthZ. apply nth_In_stdpp || (rewrite nth_lookup; destruct (lookup_lt_is_Some_2 (pool ctx) (Z.to_nat (used ctx))) as [x Ex]; [unfold lenZ in Hlt; lia|]; rewrite Ex; by eapply list_elem_of_lookup_2).
  - assert (ret = a) as ->.
    { rewrite Er. unfold nthZ. rewrite app_nth2; rewrite E; unfold lenZ; rewrite Nat2Z.id; [by rewrite Nat.sub_diag|lia]. }
    rewrite takeZ_all in Hl by lia. rewrite Forall_forall in Hlive. split; [rewrite takeZ_all by (rewrite lenZ_app, lenZ_1; lia); by rewrite Hl|].
    split; [|split; [|split; [by right|split]]].
    + apply NoDup_app. split; [done|]. split; [|apply NoDup_singleton]. intros p Hp Hpa. apply list_elem_of_singleton in Hpa as ->. by destruct (Hlive a Hp).
    + apply Forall_app. split; [apply Forall_forall; intros p Hp; destruct (Hlive p Hp); set_solver|]. constructor; [set_solver|done].
    + intros x Hx. by apply lookup_insert_ne.
    + intros Hw x. rewrite lookup_total_insert. case_decide; [done|apply Hw].
Qed.

Lemma get_refines ctx s f fs :
  holds ctx s (f :: fs) →
  match BN_CTX_get (ctx, s) with
  | (Some a, (ctx', s')) => holds ctx' s' ((f ++ [a]) :: fs) ∧ (a ∉ in_use (f :: fs)) ∧ (a ∈ pool ctx ∨ number_at a ∉ dom s) ∧
      width (s' !!! number_at a) = 0 ∧ neg (s' !!! number_at a) = false ∧ (∀ x, x ≠ number_at a → s' !! x = s !! x) ∧
      ((∀ x, bn_wf (s !!! x)) → ∀ x, bn_wf (s' !!! x))
  | (None, (ctx', s')) => error ctx' = true ∧ s' = s
  end.
Proof.
  intros H. pose proof H as [H1 H2 H3 H4 H5 H6 H7 H8 H9 H11 H12]. unfold BN_CTX_get. rewrite H1.
  assert (used ctx <= lenZ (pool ctx)) as Hu by (rewrite <-H5 in H4; rewrite H4; unfold lenZ, takeZ; rewrite length_take; lia).
  assert (match with_pool ctx with
    | (ctx1, true) => error ctx1 = false ∧ is_Some (bignums ctx1) ∧ from_option stack_wf True (bignums ctx1) ∧ pool ctx1 = pool ctx ∧ used ctx1 = used ctx ∧ stack ctx1 = stack ctx
    | (ctx1, false) => error ctx1 = true end) as Hp.
  { unfold with_pool. destruct (bignums ctx) as [sk|] eqn:Eb; [rewrite Eb; split; [done|]; by split; [eexists|]|].
    destruct sk_new_null as [sk|] eqn:En; [|done]. destruct (sk_new_ok (λ _ _ _, 0) None sk En) as [[W _] Ei]. split; [done|]. split; [by eexists|]. split; [exact W|]. split; [|done]. unfold pool. rewrite Eb. exact Ei. }
  destruct (with_pool ctx) as [ctx1 [|]]; [|done]. destruct Hp as (P1 & P2 & P3 & P4 & P5 & P6). cbn [negb].
  pose proof (with_number_spec ctx1 s P1 P2 P3 ltac:(rewrite P4, P5; done)) as Hn. destruct (with_number ctx1 s) as [[ctx2|] s2]; [|done].
  pose proof (ready_number ctx1 ctx2 s s2 (in_use (f :: fs)) Hn) as Hr. cbv zeta in Hr. rewrite P4, P5 in Hr. specialize (Hr H5 (eq_sym H4) H6 H7).
  destruct Hn as (N1 & N2 & N3 & N4 & _). set (ret := sk_value _ _) in *. clearbody ret. destruct Hr as (R1 & R2 & R3 & R4 & R5 & R6).
  assert (ret ∉ in_use (f :: fs)) as Hout.
  { rewrite <-(takeZ_dropZ (used ctx + 1) (pool ctx2)), R1 in R2. apply NoDup_app in R2 as [R2 _]. apply NoDup_app in R2 as (_ & R2 & _). intros Hin. apply (R2 ret Hin). set_solver. }
  assert (number_at ret ∈ dom s2) as Hdom.
  { rewrite Forall_forall in R3. apply R3. rewrite <-(takeZ_dropZ (used ctx + 1) (pool ctx2)), R1. set_solver. }
  split; [|split; [exact Hout|split; [exact R4|]]].
  - split; rewrite ?in_use_get; cbn [set_used bignums stack used error defer_error]; change (pool (set_used _ ctx2)) with (pool ctx2); rewrite ?N2, ?N3, ?P5, ?P6; try done.
    + rewrite lenZ_app, lenZ_1. lia.
    + eapply Forall_impl; [exact R3|]. intros p [Hp Hpd]. split; [done|]. unfold upd. set_solver.
  - unfold upd. rewrite lookup_total_insert_eq. split; [done|]. split; [done|]. split; [intros x Hx; rewrite lookup_insert_ne by done; by apply R5|].
    intros Hw x. rewrite lookup_total_insert. case_decide; [apply zero_wf|]; by apply R6.
Qed.

Lemma new_holds ctx s : BN_CTX_new = Some ctx → holds ctx s [[]].
Proof.
  unfold BN_CTX_new. destruct (OPENSSL_malloc _); cbn; [|done]. intros [= <-]. split; cbn; try done. constructor.
Qed.

(** The store may grow between the calls. *)
Lemma holds_grow ctx s s' fs : dom s ⊆ dom s' → holds ctx s fs → holds ctx s' fs.
Proof. intros Hs [H1 H2 H3 H4 H5 H6 H7 H8 H9 H10 H11]. split; try done. eapply Forall_impl; [exact H7|]. intros p [Hp Hd]. split; [done|]. by apply Hs. Qed.

(** What a client does: make a context, start frames, get numbers, end frames, and in between use and make
    numbers. *)
Inductive ctx_reach : BN_CTX → bns → frames → Prop :=
| reach_new_ctx ctx s : BN_CTX_new = Some ctx → ctx_reach ctx s [[]]
| reach_client ctx s s' fs : ctx_reach ctx s fs → dom s ⊆ dom s' → ctx_reach ctx s' fs
| reach_start ctx s fs : ctx_reach ctx s fs → error (BN_CTX_start ctx) = false → ctx_reach (BN_CTX_start ctx) s ([] :: fs)
| reach_get ctx s ctx' s' a f fs : ctx_reach ctx s (f :: fs) → BN_CTX_get (ctx, s) = (Some a, (ctx', s')) → ctx_reach ctx' s' ((f ++ [a]) :: fs)
| reach_end ctx s f fs : ctx_reach ctx s (f :: fs) → fs ≠ [] → ctx_reach (BN_CTX_end ctx) s fs.

Lemma reach_holds ctx s fs : ctx_reach ctx s fs → holds ctx s fs.
Proof.
  induction 1 as [ctx s E|ctx s s' fs _ IH Hd|ctx s fs _ IH E|ctx s ctx' s' a f fs _ IH E|ctx s f fs _ IH Hfs].
  - by apply new_holds.
  - by apply (holds_grow ctx s).
  - by apply start_refines.
  - pose proof (get_refines ctx s f fs IH) as H. rewrite E in H. apply H.
  - by apply (end_refines ctx s f).
Qed.
(** * After a failure *)

(** What may follow: any calls, successful or not, with the client's own work on the numbers in between. *)
Inductive ctx_later : BN_CTX * bns → BN_CTX * bns → Prop :=
| later_now st : ctx_later st st
| later_client st ctx s s' : ctx_later st (ctx, s) → ctx_later st (ctx, s')
| later_start st ctx s : ctx_later st (ctx, s) → ctx_later st (BN_CTX_start ctx, s)
| later_get st st' : ctx_later st st' → ctx_later st (BN_CTX_get st').2
| later_end st ctx s : ctx_later st (ctx, s) → ctx_later st (BN_CTX_end ctx, s).

(** [BN_CTX_get] hands out nothing and leaves the numbers alone. *)
Definition refuses (ctx : BN_CTX) (s : bns) : Prop := ∃ ctx', BN_CTX_get (ctx, s) = (None, (ctx', s)).

Lemma error_refuses ctx s : error ctx = true → refuses ctx s.
Proof. intros E. unfold refuses, BN_CTX_get. rewrite E. by eexists. Qed.

Lemma later_error st st' : ctx_later st st' → error st.1 = true → error st'.1 = true.
Proof.
  intros H Hst. induction H as [st|st ctx s s' _ IH|st ctx s _ IH|st [ctx s] _ IH|st ctx s _ IH]; [done|..]; specialize (IH Hst); cbn [fst] in IH |- *.
  - done.
  - unfold BN_CTX_start. by rewrite IH.
  - unfold BN_CTX_get. by rewrite IH.
  - unfold BN_CTX_end. by rewrite IH.
Qed.
End facts.

(** * Properties *)

(** C19. The context of scratch numbers, whatever its client does within the frames: the numbers in use,
    those handed out in frames that have not ended, are all different; the next one handed out is none of
    them and none of the client's other numbers, it is zero, and handing it out changes no other number.
    When [BN_CTX_get] refuses, or [BN_CTX_start] finds no room for its frame, no number changes and the
    failure is final: whatever calls follow, in any order and also ones that are refused themselves, and
    whatever the client does in between, [BN_CTX_get] hands out nothing and changes no number. *)
Theorem bn_ctx_frames {libc : Libc} {addrs : AddrAlloc} ctx s fs :
  ctx_reach ctx s fs →
  NoDup (in_use fs) ∧ Forall (λ p, number_at p ∈ dom s) (in_use fs) ∧
  match BN_CTX_get (ctx, s) with
  | (Some a, (ctx', s')) => (a ∉ in_use fs) ∧ (a ∈ pool ctx ∨ number_at a ∉ dom s) ∧
      width (s' !!! number_at a) = 0 ∧ neg (s' !!! number_at a) = false ∧ (∀ x, x ≠ number_at a → s' !! x = s !! x)
  | (None, (ctx', s')) => s' = s ∧ ∀ ctx2 s2, ctx_later (ctx', s') (ctx2, s2) → refuses ctx2 s2
  end ∧
  (error (BN_CTX_start ctx) = true → ∀ ctx2 s2, ctx_later (BN_CTX_start ctx, s) (ctx2, s2) → refuses ctx2 s2).
Proof.
  intros H%reach_holds. pose proof H as [_ Hfs _ _ H5 H6 H7 _ _ _ _]. assert (∃ l, pool ctx = in_use fs ++ l) as [l El].
  { exists (dropZ (used ctx) (pool ctx)). by rewrite <-H5, takeZ_dropZ. }
  rewrite El in H6, H7. apply NoDup_app in H6 as [H6 _]. apply Forall_app in H7 as [H7 _]. split; [done|]. split; [eapply Forall_impl; [exact H7|]; by intros p [_ ?]|].
  destruct fs as [|f fs]; [done|]. pose proof (get_refines ctx s f fs H) as Hg. split.
  - destruct (BN_CTX_get (ctx, s)) as [[a|] [ctx' s']].
    + destruct Hg as (_ & G1 & G2 & G3 & G4 & G5 & _). done.
    + destruct Hg as [E ->]. split; [done|]. intros ctx2 s2 Hl. by apply error_refuses, (later_error _ _ Hl).
  - intros E ctx2 s2 Hl. by apply error_refuses, (later_error _ _ Hl).
Qed.

(** Two frames with a number each, the inner one ended and its number handed out again. *)
Lemma bn_ctx_frames_witness :
  let libc := calloc_libc in let addrs := counting_alloc in
  ∃ ctx s, ctx_reach (libc := libc) (addrs := addrs) ctx s [[2]; [1]; []] ∧
    match BN_CTX_get (libc := libc) (addrs := addrs) (ctx, s) with (Some a, _) => a ∉ [1; 2] | (None, _) => False end.
Proof.
  intros libc addrs.
  destruct (BN_CTX_new (libc := libc)) as [c0|] eqn:E0; [|vm_compute in E0; discriminate].
  pose proof (reach_new_ctx (libc := libc) (addrs := addrs) c0 ∅ E0) as R0. vm_compute in E0. injection E0 as <-.
  apply reach_start in R0; [|reflexivity].
  set (c1 := BN_CTX_start _) in R0. destruct (BN_CTX_get (libc := libc) (addrs := addrs) (c1, ∅)) as [[a1|] [c2 s2]] eqn:E1; [|vm_compute in E1; discriminate].
  pose proof (reach_get _ _ _ _ _ _ _ R0 E1) as R1. vm_compute in E1. injection E1 as <- <- <-. apply reach_start in R1; [|reflexivity].
  match type of R1 with ctx_reach ?c ?s _ => destruct (BN_CTX_get (libc := libc) (addrs := addrs) (c, s)) as [[a2|] [c3 s3]] eqn:E2; [|vm_compute in E2; discriminate] end.
  pose proof (reach_get _ _ _ _ _ _ _ R1 E2) as R2. vm_compute in E2. injection E2 as <- <- <-. cbn [app] in R2.
  match type of R2 with ctx_reach ?c ?s _ => exists c, s end. split; [exact R2|].
  pose proof (bn_ctx_frames (libc := libc) (addrs := addrs) _ _ _ R2) as (_ & _ & H & _).
  match type of H with match ?g with _ => _ end => destruct g as [[a|] [c4 s4]] eqn:E3 end; [exact (proj1 H)|vm_compute in E3; discriminate].
Defined.
