(* ===== verification/BnMul.v ===== *)
(** Multiplication and squaring of big numbers:
    src/HolyWater-Test/Pods/BoringSSL-GRPC/src/crypto/fipsmodule/bn/mul.c.

    The scratch numbers that the context hands out are names in the store, in the order of their use. *)
From stdpp Require Import gmap.
From S2P Require Import Prelude Mem ConstTime Bn BnAdd BnWords BnMulRec BnSqr.

Open Scope Z_scope.

(** * The code *)

(** The depth of the recursions is below the number of bits of a width. *)
Definition DEPTH : nat := 64.
Definition BN_SMALL_MAX_WORDS : Z := 9.

(** [BN_CTX_get]: the next number, set to zero; where it comes from is in BnCtx. *)
Definition ctx_get (ctx : list var) : M bns (var * list var) :=
  match ctx with
  | [] => λ s, (None, s)
  | x :: ctx => modifyS (upd x BN_zero);; mret (x, ctx)
  end.

(** A function that writes the array of [r]. *)
Definition write_words_of (r : var) (f : list Z → list Z) : bns → bns := upd r (λ b, set_d (f (d b)) b).
(** A function that writes the arrays of [r] and of [t]. *)
Definition write_words_and (r t : var) (f : list Z → list Z → list Z * list Z) (s : bns) : bns :=
  let '(rd, td) := f (d (s !!! r)) (d (s !!! t)) in upd t (set_d td) (upd r (set_d rd) s).

Section mul.
Context {libc : Libc}.

Definition bn_abs_sub_consttime (ctx : list var) (r a b : var) : M bns () :=
  s ← getS;
  let aw := width (s !!! a) in
  let bw := width (s !!! b) in
  let cl := if aw <? bw then aw else bw in
  let dl := aw - bw in
  let r_len := if aw <? bw then bw else aw in
  '(tmp, _) ← ctx_get ctx;
  wexpand r r_len;;
  wexpand tmp r_len;;
  s ← getS;
  modifyS (write_words_and r tmp (λ rd td,
    let '(_, r', t') := bn_abs_sub_part_words (takeZ aw (d (s !!! a))) (takeZ bw (d (s !!! b))) cl dl in
    (write_at rd 0 r', write_at td 0 t')));;
  modifyS (upd r (set_width r_len)).

(** The product in [rr], which is not an operand. *)
Definition mul_into (ctx : list var) (rr a b : var) : M bns () :=
  s ← getS;
  let aw := words (s !!! a) in
  let bw := words (s !!! b) in
  let al := width (s !!! a) in
  let bl := width (s !!! b) in
  let i := al - bl in
  if (i =? 0) && (al =? 8) then
    wexpand rr 16;;
    modifyS (upd rr (set_width 16));;
    modifyS (write_words_of rr (λ rd, write_at rd 0 (bn_mul_comba8 aw bw)))
  else
    let top := al + bl in
    if (16 <=? al) && (16 <=? bl) && (-1 <=? i) && (i <=? 1) then
      let j := 1 ≪ (BN_num_bits_word (if 0 <=? i then al else bl) - 1) in
      '(t, _) ← ctx_get ctx;
      (if (j <? al) || (j <? bl) then
        wexpand t (j * 8);;
        wexpand rr (j * 4);;
        modifyS (write_words_and rr t (λ rd td, bn_mul_part_recursive DEPTH rd aw bw j (al - j) (bl - j) td))
      else
        wexpand t (j * 4);;
        wexpand rr (j * 2);;
        modifyS (write_words_and rr t (λ rd td, bn_mul_recursive DEPTH rd aw bw j (al - j) (bl - j) td)));;
      modifyS (upd rr (set_width top))
    else
      wexpand rr top;;
      modifyS (upd rr (set_width top));;
      modifyS (write_words_of rr (λ rd, bn_mul_normal rd aw bw)).

Definition bn_mul_impl (ctx : list var) (r a b : var) : M bns () :=
  s ← getS;
  if (width (s !!! a) =? 0) || (width (s !!! b) =? 0) then modifyS (upd r BN_zero)
  else
    '(rr, ctx) ← (if bool_decide (r = a) || bool_decide (r = b) then ctx_get ctx else mret (r, ctx));
    modifyS (upd rr (set_neg (xorb (neg (s !!! a)) (neg (s !!! b)))));;
    mul_into ctx rr a b;;
    if bool_decide (r = rr) then mret () else BN_copy r rr.

Definition BN_mul (ctx : list var) (r a b : var) : M bns () :=
  bn_mul_impl ctx r a b;;
  modifyS (upd r bn_set_minimal_width).
Definition bn_mul_consttime (ctx : list var) (r a b : var) : M bns () :=
  s ← getS;
  ensure (negb (neg (s !!! a) || neg (s !!! b)));;
  bn_mul_impl ctx r a b.

(** The square of the [al] words of [aw], written to [rr]; [t] is what the array on the stack held. *)
Definition sqr_words_to (rr : var) (aw : list Z) (al : Z) (tmp : var) (t : list Z) : M bns () :=
  let max := 2 * al in
  if al =? 4 then modifyS (write_words_of rr (λ rd, write_at rd 0 (bn_sqr_comba4 aw)))
  else if al =? 8 then modifyS (write_words_of rr (λ rd, write_at rd 0 (bn_sqr_comba8 aw)))
  else if al <? BN_SQR_RECURSIVE_SIZE_NORMAL then modifyS (write_words_of rr (λ rd, fst (bn_sqr_normal rd aw t)))
  else if negb (al =? 0) && (al .& (al - 1) =? 0) then
    wexpand tmp (al * 4);;
    modifyS (write_words_and rr tmp (λ rd td, bn_sqr_recursive DEPTH rd aw al td))
  else
    wexpand tmp max;;
    modifyS (write_words_and rr tmp (λ rd td, bn_sqr_normal rd aw td)).
Definition sqr_into (rr a tmp : var) (t : list Z) : M bns () :=
  s ← getS;
  let al := width (s !!! a) in
  let max := 2 * al in
  wexpand rr max;;
  sqr_words_to rr (words (s !!! a)) al tmp t;;
  modifyS (upd rr (set_neg false));;
  modifyS (upd rr (set_width max)).

Definition bn_sqr_consttime (ctx : list var) (t : list Z) (r a : var) : M bns () :=
  s ← getS;
  if width (s !!! a) <=? 0 then
    modifyS (upd r (set_width 0));;
    modifyS (upd r (set_neg false))
  else
    '(rr, ctx) ← (if bool_decide (r = a) then ctx_get ctx else mret (r, ctx));
    '(tmp, _) ← ctx_get ctx;
    sqr_into rr a tmp t;;
    if bool_decide (r = rr) then mret () else BN_copy r rr.
Definition BN_sqr (ctx : list var) (t : list Z) (r a : var) : M bns () :=
  bn_sqr_consttime ctx t r a;;
  modifyS (upd r bn_set_minimal_width).

Definition BN_mul_word (w : Z) : M BIGNUM () := λ bn,
  if width bn =? 0 then (Some (), bn)
  else if w =? 0 then (Some (), BN_zero bn)
  else
    let '(ll, ws) := bn_mul_words (words bn) w in
    let bn := put_words ws bn in
    if ll =? 0 then (Some (), bn)
    else
      match bn_wexpand bn (width bn + 1) with
      | None => (None, bn)
      | Some bn => (Some (), set_width (width bn + 1) (set_d (write_at (d bn) (width bn) [ll]) bn))
      end.
End mul.

(** [None] is a call of [abort]. *)
Definition bn_mul_small (r a b : list Z) : option (list Z) :=
  if negb (lenZ r =? lenZ a + lenZ b) then None
  else if (lenZ a =? 8) && (lenZ b =? 8) then Some (write_at r 0 (bn_mul_comba8 a b))
  else Some (bn_mul_normal r a b).
Definition bn_sqr_small (tmp r a : list Z) : option (list Z) :=
  if negb (lenZ r =? 2 * lenZ a) || (BN_SMALL_MAX_WORDS <? lenZ a) then None
  else if lenZ a =? 4 then Some (write_at r 0 (bn_sqr_comba4 a))
  else if lenZ a =? 8 then Some (write_at r 0 (bn_sqr_comba8 a))
  else Some (bn_sqr_normal r a tmp).1.

(** * Specifications *)

Definition wfs (s : bns) : Prop := ∀ x, bn_wf (s !!! x).
(** Only the numbers of [xs] differ. *)
Definition only (xs : list var) (s s' : bns) : Prop := ∀ y, y ∉ xs → s' !!! y = s !!! y.
(** The context hands out numbers that are not in use. *)
Definition fresh (ctx xs : list var) : Prop := NoDup ctx ∧ ∀ x, x ∈ ctx → x ∉ xs.

Lemma only_refl xs s : only xs s s.
Proof. done. Qed.
Lemma only_trans xs s s' s'' : only xs s s' → only xs s' s'' → only xs s s''.
Proof. intros H1 H2 y Hy. by rewrite H2, H1. Qed.
Lemma only_sub xs ys s s' : only xs s s' → (∀ x, x ∈ xs → x ∈ ys) → only ys s s'.
Proof. intros H Hs y Hy. apply H. naive_solver. Qed.
Lemma sets_only r b s s' xs : sets r b s s' → r ∈ xs → only xs s s'.
Proof. intros H Hr y Hy. apply (sets_ne _ _ _ _ _ H). by intros ->. Qed.
Lemma sets_wfs r b s s' : sets r b s s' → bn_wf b → wfs s → wfs s'.
Proof. intros H Hb Hs y. rewrite (H y). by destruct (decide (y = r)). Qed.

(** The words above a number's are zeros, so it can be cut to any width that holds it. *)
Lemma stored_value b ws N n v :
  bn_wf b → lenZ ws = N → N <= dmax b → 0 <= n <= N → Forall (fits 64) ws → words_value ws = v → v < 2 ^ (64 * n) →
  let b' := set_width n (set_d (ws ++ dropZ N (d b)) b) in bn_wf b' ∧ mag b' = v ∧ width b' = n ∧ neg b' = neg b.
Proof.
  intros [W D M _] L HN Hn F V Hv b'. assert (Forall (fits 64) (takeZ n ws) ∧ Forall (fits 64) (dropZ n ws)) as [F1 F2] by (split; [by apply Forall_take|by apply Forall_drop]).
  assert (words b' = takeZ n ws) as E by (unfold words, b'; cbn [set_width set_d d width]; by apply takeZ_app_le; lia).
  assert (mag b' = v) as Ev.
  { unfold mag. rewrite E. rewrite <-(takeZ_dropZ n ws), words_value_app, lenZ_takeZ in V by lia.
    pose proof (words_value_bound _ F1). pose proof (words_value_bound _ F2). pose proof (pow_64_pos n ltac:(lia)).
    assert (words_value (dropZ n ws) = 0) as Ez by (apply (tail_zero (words_value (takeZ n ws)) _ (2 ^ (64 * n))); lia). rewrite Ez in V. lia. }
  split; [|split; [exact Ev|done]]. split; [cbn; lia| |done|by rewrite E]. unfold b'. cbn. rewrite lenZ_app, lenZ_dropZ by lia. lia.
Qed.

(** An array of the same length may replace that of a number of no words. *)
Lemma scratch_wf b l : bn_wf b → width b = 0 → lenZ l = lenZ (d b) → bn_wf (set_d l b).
Proof. intros [W D M F] H L. split; [done|cbn; lia|done|]. unfold words. cbn. rewrite H. constructor. Qed.

Section mul_facts.
Context {libc : Libc}.

(** Each of the numbers has, or can get, any number of words up to [n]. *)
Definition rooms (n : Z) (xs : list var) (s : bns) : Prop := ∀ x, x ∈ xs → ∀ k, 0 <= k <= n → can_hold (s !!! x) k.

Lemma can_hold_cong b b' n : dmax b' = dmax b → flags b' = flags b → can_hold b' n → can_hold b n.
Proof. unfold can_hold. by intros -> ->. Qed.

Lemma words_fits b : bn_wf b → Forall (fits 64) (words b) ∧ lenZ (words b) = width b ∧ mag b < 2 ^ (64 * width b) ∧ 0 <= mag b.
Proof. intros H. pose proof (mag_bound b H). pose proof (lenZ_bn_words b H). destruct H as [W D M F]. repeat split; done || lia. Qed.

Lemma product_fits a b : bn_wf a → bn_wf b → 0 <= width a ∧ 0 <= width b ∧ mag a * mag b < 2 ^ (64 * (width a + width b)).
Proof.
  intros Ha Hb. pose proof (mag_bound a Ha). pose proof (mag_bound b Hb). destruct Ha, Hb. split; [lia|]. split; [lia|].
  rewrite Z.mul_add_distr_l, Z.pow_add_r by lia. nia.
Qed.

(** What [mul_into] and [sqr_into] do to the store when they succeed. *)
Definition stored (rr : var) (ctx : list var) (s s' : bns) (n v : Z) : Prop :=
  only (rr :: ctx) s s' ∧ wfs s' ∧ mag (s' !!! rr) = v ∧ width (s' !!! rr) = n.

(** A product computed without scratch space. *)
Lemma write_product rr s N n v f :
  wfs s → 0 <= n <= N → N <= dmax (s !!! rr) → v < 2 ^ (64 * n) →
  (∃ ws, f (d (s !!! rr)) = ws ++ dropZ N (d (s !!! rr)) ∧ lenZ ws = N ∧ Forall (fits 64) ws ∧ words_value ws = v) →
  ∀ s', (∀ y, s' !!! y = if decide (y = rr) then set_width n (set_d (f (d (s !!! rr))) (s !!! rr)) else s !!! y) →
  only [rr] s s' ∧ wfs s' ∧ mag (s' !!! rr) = v ∧ width (s' !!! rr) = n ∧ neg (s' !!! rr) = neg (s !!! rr).
Proof.
  intros Hs Hn HN Hv (ws & E & L & F & V) s' H. rewrite E in H. destruct (stored_value (s !!! rr) ws N n v (Hs rr) L HN Hn F V Hv) as (W & Em & Ew & En).
  pose proof (sets_at _ _ _ _ H) as Er. rewrite Er. split; [by apply (sets_only _ _ _ _ _ H), list_elem_of_here|]. split; [by apply (sets_wfs _ _ _ _ H)|done].
Qed.

(** A product computed with scratch space. *)
Lemma write_product_and rr t s N n v f :
  wfs s → rr ≠ t → width (s !!! t) = 0 → 0 <= n <= N → N <= dmax (s !!! rr) → v < 2 ^ (64 * n) →
  multiplies (f (d (s !!! rr)) (d (s !!! t))) (d (s !!! rr)) (d (s !!! t)) N v →
  let s' := upd rr (set_width n) (write_words_and rr t f s) in
  only [rr; t] s s' ∧ wfs s' ∧ mag (s' !!! rr) = v ∧ width (s' !!! rr) = n ∧ neg (s' !!! rr) = neg (s !!! rr).
Proof.
  intros Hs Hne Ht Hn HN Hv (ws & td & E & Lt & F & L & V). unfold write_words_and. rewrite E. cbv zeta.
  destruct (stored_value (s !!! rr) ws N n v (Hs rr) L HN Hn F V Hv) as (W & Em & Ew & En).
  set (l := ws ++ dropZ N (d (s !!! rr))) in *. set (s1 := upd rr (set_d l) s) in *. set (s2 := upd t (set_d td) s1) in *. set (s' := upd rr (set_width n) s2).
  pose proof (sets_upd rr (set_d l) s) as S1. fold s1 in S1. pose proof (sets_upd t (set_d td) s1) as S2. fold s2 in S2.
  pose proof (sets_upd rr (set_width n) s2) as S3. fold s' in S3.
  assert (s2 !!! rr = set_d l (s !!! rr)) as E2 by (rewrite (sets_ne _ _ _ _ _ S2 Hne); by apply (sets_at _ _ _ _ S1)).
  assert (s1 !!! t = s !!! t) as Et by (by apply (sets_ne _ _ _ _ _ S1)). rewrite E2 in S3.
  assert (s' !!! rr = set_width n (set_d l (s !!! rr))) as Er by apply (sets_at _ _ _ _ S3). rewrite Er. split; [|split; [|done]].
  - intros y Hy. rewrite (sets_ne _ _ _ _ _ S3), (sets_ne _ _ _ _ _ S2), (sets_ne _ _ _ _ _ S1) by set_solver. done.
  - intros y. rewrite (S3 y). destruct (decide (y = rr)) as [->|Hy]; [exact W|]. rewrite (S2 y). destruct (decide (y = t)) as [->|Hyt].
    + rewrite Et. by apply scratch_wf.
    + rewrite (sets_ne _ _ _ _ _ S1) by done. apply Hs.
Qed.

(** Room in the scratch number, then in the result. *)
Lemma two_rooms rr t n m s :
  wfs s → rr ≠ t → width (s !!! t) = 0 → 0 <= n → 0 <= m →
  let fails s' := only [rr; t] s s' ∧ wfs s' ∧ ¬ (can_hold (s !!! t) n ∧ can_hold (s !!! rr) m) in
  match wexpand t n s with
  | (Some _, s1) =>
      match wexpand rr m s1 with
      | (Some _, s') => only [rr; t] s s' ∧ wfs s' ∧ width (s' !!! t) = 0 ∧ n <= dmax (s' !!! t) ∧ m <= dmax (s' !!! rr) ∧ neg (s' !!! rr) = neg (s !!! rr)
      | (None, s') => fails s'
      end
  | (None, s') => fails s'
  end.
Proof.
  intros Hs Hne Ht Hn Hm fails. pose proof (wexpand_spec t n s (Hs t) Hn) as H1. destruct (wexpand t n s) as [[|] s1].
  - destruct H1 as (C1 & b1 & S1 & W1 & Wi1 & _ & _ & D1 & _). assert (wfs s1) as Hs1 by (by apply (sets_wfs _ _ _ _ S1)).
    assert (s1 !!! rr = s !!! rr) as Er by (by apply (sets_ne _ _ _ _ _ S1)).
    pose proof (wexpand_spec rr m s1 (Hs1 rr) Hm) as H2. rewrite Er in H2. destruct (wexpand rr m s1) as [[|] s2].
    + destruct H2 as (C2 & b2 & S2 & W2 & _ & N2 & _ & D2 & _). rewrite (sets_at _ _ _ _ S2), (sets_ne _ _ _ _ _ S2) by done.
      rewrite (sets_at _ _ _ _ S1). split; [|split; [by apply (sets_wfs _ _ _ _ S2)|rewrite Wi1; done]].
      eapply only_trans; [apply (sets_only _ _ _ _ _ S1); set_solver|apply (sets_only _ _ _ _ _ S2); set_solver].
    + destruct H2 as [-> C2]. split; [apply (sets_only _ _ _ _ _ S1); set_solver|]. split; [done|]. by intros [_ ?].
  - destruct H1 as [-> C1]. split; [apply only_refl|]. split; [done|]. by intros [? _].
Qed.

(** The next number of the context. *)
Lemma ctx_get_spec ctx s :
  wfs s →
  match ctx_get ctx s with
  | (Some (x, ctx'), s') => ctx = x :: ctx' ∧ sets x (BN_zero (s !!! x)) s s' ∧ wfs s'
  | (None, s') => s' = s ∧ ctx = []
  end.
Proof.
  intros Hs. destruct ctx as [|x ctx]; cbn [ctx_get]; [done|]. unfold mbind, M_bind, modifyS, mret, M_ret. split; [done|].
  pose proof (sets_upd x BN_zero s) as S. split; [exact S|]. apply (sets_wfs _ _ _ _ S); [|done]. by apply zero_wf.
Qed.

(** The power of two just below the larger width. *)
Lemma power_below al bl :
  16 <= al <= BN_MAX_WORDS → 16 <= bl <= BN_MAX_WORDS → -1 <= al - bl <= 1 →
  let k := BN_num_bits_word (if 0 <=? al - bl then al else bl) - 1 in
  4 <= k < 23 ∧ 1 ≪ k = 2 ^ k ∧ 2 ^ k <= Z.max al bl ∧ al < 2 * 2 ^ k ∧ bl < 2 * 2 ^ k ∧ 16 <= 2 ^ k.
Proof.
  intros Ha Hb Hi k. assert (BN_MAX_WORDS = 8388607) as EM by reflexivity.
  assert ((if 0 <=? al - bl then al else bl) = Z.max al bl) as Em by (destruct (Z.leb_spec 0 (al - bl)); lia).
  assert (k = Z.log2 (Z.max al bl)) as Ek.
  { unfold k. rewrite Em, num_bits_word_spec by (split; mlia). unfold bit_length. rewrite (proj2 (Z.eqb_neq _ 0)) by lia. lia. }
  clearbody k. subst k. set (m := Z.max al bl) in *. destruct (Z.log2_spec m ltac:(lia)) as [L1 L2]. rewrite Z.pow_succ_r in L2 by apply Z.log2_nonneg.
  assert (4 <= Z.log2 m) as L3 by (apply Z.log2_le_pow2; [lia|]; change (2 ^ 4) with 16; lia).
  assert (Z.log2 m < 23) as L4 by (apply Z.log2_lt_pow2; [lia|]; change (2 ^ 23) with 8388608; lia).
  assert (2 ^ 4 <= 2 ^ Z.log2 m) as L5 by (apply Z.pow_le_mono_r; lia). change (2 ^ 4) with 16 in L5.
  split; [lia|]. split; [by rewrite Z.shiftl_1_l|]. lia.
Qed.

Definition mul_room (n : nat) (ctx : list var) (r a b : var) (s : bns) : Prop :=
  (n <= length ctx)%nat ∧ rooms (8 * Z.max (width (s !!! a)) (width (s !!! b))) (r :: ctx) s.

(** The two ways [mul_into] stores a product [v] of [n] words: in [N] words of the result, *)
Lemma plain_branch ctx rr a b s N n v f :
  let room := 8 * Z.max (width (s !!! a)) (width (s !!! b)) in
  wfs s → 0 <= n <= N → N <= room → v < 2 ^ (64 * n) →
  (∀ r, N <= lenZ r → ∃ ws, f r = ws ++ dropZ N r ∧ lenZ ws = N ∧ Forall (fits 64) ws ∧ words_value ws = v) →
  match wexpand rr N s with
  | (Some _, s0) => let s' := write_words_of rr f (upd rr (set_width n) s0) in stored rr ctx s s' n v ∧ neg (s' !!! rr) = neg (s !!! rr)
  | (None, s') => only (rr :: ctx) s s' ∧ wfs s' ∧ ¬ mul_room 1 ctx rr a b s
  end.
Proof.
  intros room Hs HN HN8 Hv Hprod. pose proof (wexpand_spec rr N s (Hs rr) ltac:(lia)) as H. destruct (wexpand rr N s) as [[|] s1].
  - destruct H as (_ & b1 & S1 & W1 & _ & N1 & _ & D1 & _). assert (wfs s1) as Hs1 by (by apply (sets_wfs _ _ _ _ S1)).
    destruct (write_product rr s1 N n v f Hs1) with (s' := write_words_of rr f (upd rr (set_width n) s1)) as (O & W & M & Wi & Ng); [lia|rewrite (sets_at _ _ _ _ S1); lia|done| | |].
    + apply Hprod. rewrite (sets_at _ _ _ _ S1). destruct W1 as [_ -> _ _]. lia.
    + intros y. unfold write_words_of. pose proof (sets_upd rr (set_width n) s1) as S2.
      pose proof (sets_upd rr (λ b, set_d (f (d b)) b) (upd rr (set_width n) s1) y) as S3. rewrite S3, (sets_at _ _ _ _ S2).
      destruct (decide (y = rr)); [done|]. by apply (sets_ne _ _ _ _ _ S2).
    + split; [|rewrite Ng, (sets_at _ _ _ _ S1); done]. split; [|done].
      eapply only_trans; [apply (sets_only _ _ _ _ _ S1); set_solver|]. eapply only_sub; [exact O|set_solver].
  - destruct H as [-> C]. split; [apply only_refl|]. split; [done|]. intros [_ R]. apply C, (R rr); [set_solver|]. fold room. lia.
Qed.

(** or in [m] words with [k] words of scratch space. *)
Lemma scratch_branch t ctx rr a b s s1 k m n v f :
  let room := 8 * Z.max (width (s !!! a)) (width (s !!! b)) in
  wfs s1 → sets t (BN_zero (s !!! t)) s s1 → rr ≠ t → 0 <= k <= room → 0 <= n <= m → m <= room → v < 2 ^ (64 * n) →
  (∀ r t, m <= lenZ r → k <= lenZ t → multiplies (f r t) r t m v) →
  let fails s' := only (rr :: t :: ctx) s s' ∧ wfs s' ∧ ¬ mul_room 1 (t :: ctx) rr a b s in
  match wexpand t k s1 with
  | (Some _, s2) =>
      match wexpand rr m s2 with
      | (Some _, s3) => let s' := upd rr (set_width n) (write_words_and rr t f s3) in stored rr (t :: ctx) s s' n v ∧ neg (s' !!! rr) = neg (s !!! rr)
      | (None, s') => fails s'
      end
  | (None, s') => fails s'
  end.
Proof.
  intros room Hs1 S1 Hrt Hk Hn Hm Hv Hprod. assert (width (s1 !!! t) = 0) as Wt by (by rewrite (sets_at _ _ _ _ S1)).
  assert (s1 !!! rr = s !!! rr) as Er by (by apply (sets_ne _ _ _ _ _ S1)).
  pose proof (two_rooms rr t k m s1 Hs1 Hrt Wt ltac:(lia) ltac:(lia)) as H. cbv zeta in H.
  assert (∀ s', only [rr; t] s1 s' → only (rr :: t :: ctx) s s') as Ho.
  { intros s' O. eapply only_trans; [apply (sets_only _ _ _ _ _ S1); set_solver|]. eapply only_sub; [exact O|set_solver]. }
  assert (¬ (can_hold (s1 !!! t) k ∧ can_hold (s1 !!! rr) m) → ¬ mul_room 1 (t :: ctx) rr a b s) as Hroom.
  { intros C [_ R]. fold room in R. apply C. rewrite Er. split; [|apply (R rr); [set_solver|lia]].
    rewrite (sets_at _ _ _ _ S1). apply (can_hold_cong _ (s !!! t)); [done..|]. apply (R t); [set_solver|lia]. }
  destruct (wexpand t k s1) as [[|] s2]; [destruct (wexpand rr m s2) as [[|] s3]|]; [|destruct H as (O & W & C); split; [by apply Ho|by split; [|apply Hroom]]..].
  destruct H as (O & W & W0 & D1 & D2 & N3). pose proof (wf_dmax _ (W rr)). pose proof (wf_dmax _ (W t)).
  destruct (write_product_and rr t s3 m n v f W Hrt W0) as (O' & W' & M' & Wi' & Ng'); [lia|done|done|apply Hprod; lia|].
  split; [|rewrite Ng', N3, Er; done]. split; [|done]. apply Ho. eapply only_trans; [exact O|exact O'].
Qed.

Lemma mul_into_spec ctx rr a b s :
  wfs s → rr ≠ a → rr ≠ b → fresh ctx [rr; a; b] →
  match mul_into ctx rr a b s with
  | (Some _, s') => stored rr ctx s s' (width (s !!! a) + width (s !!! b)) (mag (s !!! a) * mag (s !!! b)) ∧ neg (s' !!! rr) = neg (s !!! rr)
  | (None, s') => only (rr :: ctx) s s' ∧ wfs s' ∧ ¬ mul_room 1 ctx rr a b s
  end.
Proof.
  intros Hs Ha Hb [_ Hf]. destruct (words_fits _ (Hs a)) as (Fa & La & _ & _). destruct (words_fits _ (Hs b)) as (Fb & Lb & _ & _).
  destruct (product_fits _ _ (Hs a) (Hs b)) as (Na & Nb & Hp).
  assert (width (s !!! a) <= BN_MAX_WORDS ∧ width (s !!! b) <= BN_MAX_WORDS) as [Ma Mb] by (destruct (Hs a), (Hs b); lia).
  assert (mag (s !!! a) * mag (s !!! b) = words_value (words (s !!! a)) * words_value (words (s !!! b))) as Ev by done.
  pose proof (plain_branch ctx rr a b s) as Hplain. pose proof (λ t ctx, scratch_branch t ctx rr a b s) as Hscratch. cbv zeta in Hplain, Hscratch.
  unfold mul_into, mbind, M_bind, getS, modifyS. cbn beta iota. set (aw := words (s !!! a)) in *. set (bw := words (s !!! b)) in *.
  set (al := width (s !!! a)) in *. set (bl := width (s !!! b)) in *. set (v := mag (s !!! a) * mag (s !!! b)) in *. clearbody v.
  destruct ((al - bl =? 0) && (al =? 8)) eqn:E8.
  { apply andb_true_iff in E8 as [E0%Z.eqb_eq E8%Z.eqb_eq]. assert (16 = al + bl) as E16 by lia. rewrite E16.
    specialize (Hplain (al + bl) (al + bl) v (λ rd, write_at rd 0 (bn_mul_comba8 aw bw)) Hs ltac:(lia) ltac:(lia) Hp).
    destruct (mul_comba8_spec aw bw Fa Fb) as (F & L & V); [lia|lia|].
    destruct (wexpand rr (al + bl) s) as [[|] s0]; apply Hplain; intros r Hr; exists (bn_mul_comba8 aw bw); (split; [apply write_from_drop; lia|]; split; [lia|]; split; [done|lia]). }
  destruct ((16 <=? al) && (16 <=? bl) && (-1 <=? al - bl) && (al - bl <=? 1)) eqn:Ek.
  2:{ specialize (Hplain (al + bl) (al + bl) v (λ rd, bn_mul_normal rd aw bw) Hs ltac:(lia) ltac:(lia) Hp).
      assert (∀ r, al + bl <= lenZ r → ∃ ws, bn_mul_normal r aw bw = ws ++ dropZ (al + bl) r ∧ lenZ ws = al + bl ∧ Forall (fits 64) ws ∧ words_value ws = v) as Hn.
      { intros r Hr. destruct (mul_normal_spec r aw bw Fa Fb) as (ws & E & L & F & V); [lia|]. rewrite La, Lb in *. exists ws. split; [done|]. split; [done|]. split; [done|]. lia. }
      destruct (wexpand rr (al + bl) s) as [[|] s0]; exact (Hplain Hn). }
  clear Hplain E8. apply andb_true_iff in Ek as [[[K1%Z.leb_le K2%Z.leb_le]%andb_true_iff K3%Z.leb_le]%andb_true_iff K4%Z.leb_le].
  pose proof (power_below al bl ltac:(lia) ltac:(lia) ltac:(lia)) as P. cbv zeta in P.
  set (k := BN_num_bits_word _ - 1) in *. clearbody k. destruct P as (Hk & -> & P1 & P2 & P3 & P4).
  pose proof (ctx_get_spec ctx s Hs) as Hg. destruct (ctx_get ctx s) as [[[t ctx']|] s1].
  2:{ destruct Hg as [-> ->]. split; [apply only_refl|]. split; [done|]. intros [R _]. cbn in R. lia. }
  destruct Hg as (-> & S1 & Hs1). assert (rr ≠ t) as Hrt by (specialize (Hf t); set_solver).
  assert (∀ l n, lenZ l = n → at_ l 0 n = l) as Hat by (intros; rewrite at_0; apply takeZ_all; lia).
  destruct ((2 ^ k <? al) || (2 ^ k <? bl)) eqn:Ep.
  - assert (2 ^ k <= al ∧ 2 ^ k <= bl) as [J1 J2] by (apply orb_true_iff in Ep as [Ep%Z.ltb_lt|Ep%Z.ltb_lt]; lia).
    specialize (Hscratch t ctx' s1 (2 ^ k * 8) (2 ^ k * 4) (al + bl) v (λ rd td, bn_mul_part_recursive DEPTH rd aw bw (2 ^ k) (al - 2 ^ k) (bl - 2 ^ k) td)
      Hs1 S1 Hrt ltac:(lia) ltac:(lia) ltac:(lia) Hp).
    destruct (wexpand t _ s1) as [[|] s2]; [destruct (wexpand rr _ s2) as [[|] s3]|]; apply Hscratch; intros r t' Hr Ht;
      pose proof (part_recursive_spec DEPTH k r aw bw (al - 2 ^ k) (bl - 2 ^ k) t') as R; cbv zeta in R;
      rewrite !Zplus_minus, !Hat in R by lia; rewrite Ev, (Z.mul_comm (2 ^ k)); (apply R; unfold DEPTH; done || lia).
  - apply orb_false_iff in Ep as [Ep%Z.ltb_ge Ep'%Z.ltb_ge].
    specialize (Hscratch t ctx' s1 (2 ^ k * 4) (2 ^ k * 2) (al + bl) v (λ rd td, bn_mul_recursive DEPTH rd aw bw (2 ^ k) (al - 2 ^ k) (bl - 2 ^ k) td)
      Hs1 S1 Hrt ltac:(lia) ltac:(lia) ltac:(lia) Hp).
    destruct (wexpand t _ s1) as [[|] s2]; [destruct (wexpand rr _ s2) as [[|] s3]|]; apply Hscratch; intros r t' Hr Ht;
      pose proof (mul_recursive_spec DEPTH k r aw bw (al - 2 ^ k) (bl - 2 ^ k) t') as R; cbv zeta in R;
      rewrite !Zplus_minus, !Hat in R by lia; rewrite Ev, (Z.mul_comm (2 ^ k)); (apply R; unfold DEPTH; done || lia).
Qed.

(** The number the result is computed in: [r], or one of the context's where [r] is an operand. *)
Lemma result_number (alias : bool) ctx r xs s :
  wfs s → fresh ctx (r :: xs) → (alias = false → r ∉ xs) →
  match (if alias then ctx_get ctx else mret (r, ctx)) s with
  | (Some (rr, ctx'), s') => only [rr] s s' ∧ wfs s' ∧ (rr ∉ xs) ∧ fresh ctx' (r :: rr :: xs) ∧
      dmax (s' !!! rr) = dmax (s !!! rr) ∧ flags (s' !!! rr) = flags (s !!! rr) ∧ ((rr = r ∧ ctx' = ctx) ∨ (rr ≠ r ∧ ctx = rr :: ctx'))
  | (None, s') => s' = s ∧ ctx = []
  end.
Proof.
  intros Hs [Hd Hf] Ha. destruct alias.
  - pose proof (ctx_get_spec ctx s Hs) as H. destruct (ctx_get ctx s) as [[[x ctx']|] s']; [|done]. destruct H as (-> & S & W).
    apply NoDup_cons in Hd as [Hx Hd]. rewrite (sets_at _ _ _ _ S). pose proof (Hf x ltac:(set_solver)) as Hfx.
    split; [apply (sets_only _ _ _ _ _ S); set_solver|]. split; [done|]. split; [set_solver|].
    split; [split; [done|]; intros y Hy; specialize (Hf y); set_solver|]. split; [done|]. split; [done|]. right. split; [set_solver|done].
  - cbn. split; [apply only_refl|]. split; [done|]. split; [by apply Ha|]. split; [split; [done|]; intros y Hy; specialize (Hf y Hy); set_solver|]. split; [done|]. split; [done|]. by left.
Qed.

(** Copying the result to where it belongs. *)
Lemma copy_result r rr ctx s :
  wfs s → r = rr ∨ rr ∈ ctx →
  match (if bool_decide (r = rr) then mret () else BN_copy r rr) s with
  | (Some _, s') => only (r :: ctx) s s' ∧ wfs s' ∧ mag (s' !!! r) = mag (s !!! rr) ∧ width (s' !!! r) = width (s !!! rr) ∧ neg (s' !!! r) = neg (s !!! rr)
  | (None, s') => s' = s ∧ r ≠ rr ∧ ¬ can_hold (s !!! r) (width (s !!! rr))
  end.
Proof.
  intros Hs Hrr. destruct (bool_decide_reflect (r = rr)) as [->|Hne]; [cbn; split; [apply only_refl|done]|].
  pose proof (copy_wf_spec r rr s (Hs r) (Hs rr)) as H. destruct (BN_copy r rr s) as [[|] s']; [|naive_solver].
  destruct H as (b' & S & W & E & N & Wi). rewrite (sets_at _ _ _ _ S). split; [apply (sets_only _ _ _ _ _ S); set_solver|].
  split; [by apply (sets_wfs _ _ _ _ S)|]. unfold mag. by rewrite E.
Qed.

Lemma value_of_product a b c : mag c = mag a * mag b → neg c = xorb (neg a) (neg b) → bn_value c = bn_value a * bn_value b.
Proof. unfold bn_value. intros -> ->. destruct (neg a), (neg b); cbn [xorb]; lia. Qed.

Lemma mul_impl_spec ctx r a b s :
  wfs s → fresh ctx [r; a; b] →
  match bn_mul_impl ctx r a b s with
  | (Some _, s') => only (r :: ctx) s s' ∧ wfs s' ∧ bn_value (s' !!! r) = bn_value (s !!! a) * bn_value (s !!! b) ∧
      (neg (s' !!! r) = true → neg (s !!! a) ≠ neg (s !!! b)) ∧
      (width (s !!! a) ≠ 0 → width (s !!! b) ≠ 0 → width (s' !!! r) = width (s !!! a) + width (s !!! b))
  | (None, s') => only (r :: ctx) s s' ∧ wfs s' ∧ ¬ mul_room 2 ctx r a b s
  end.
Proof.
  intros Hs Hf. unfold bn_mul_impl, mbind, M_bind, getS, modifyS. cbn beta iota.
  destruct ((width (s !!! a) =? 0) || (width (s !!! b) =? 0)) eqn:E0.
  { pose proof (sets_upd r BN_zero s) as S. split; [apply (sets_only _ _ _ _ _ S); set_solver|]. destruct (zero_wf _ (Hs r)) as [Wz Vz].
    split; [by apply (sets_wfs _ _ _ _ S)|]. rewrite (sets_at _ _ _ _ S). split; [|split; [done|]].
    - pose proof (mag_bound _ (Hs a)). pose proof (mag_bound _ (Hs b)). apply orb_true_iff in E0 as [E0%Z.eqb_eq|E0%Z.eqb_eq]; rewrite E0 in *; change (2 ^ (64 * 0)) with 1 in *.
      + assert (mag (s !!! a) = 0) as Em by lia. unfold bn_value. rewrite Em, Vz. destruct (neg (s !!! a)); cbn; lia.
      + assert (mag (s !!! b) = 0) as Em by lia. unfold bn_value. rewrite Em, Vz. destruct (neg (s !!! b)); cbn; lia.
    - intros ? ?. apply orb_true_iff in E0 as [E0%Z.eqb_eq|E0%Z.eqb_eq]; done. }
  assert (bool_decide (r = a) || bool_decide (r = b) = false → r ∉ [a; b]) as Hal.
  { intros E. apply orb_false_iff in E as [E1%bool_decide_eq_false E2%bool_decide_eq_false]. set_solver. }
  set (alias := bool_decide (r = a) || bool_decide (r = b)) in *. pose proof (result_number alias ctx r [a; b] s Hs Hf Hal) as Hg. clearbody alias.
  destruct ((if alias then ctx_get ctx else mret (r, ctx)) s) as [[[rr ctx']|] s1].
  2:{ destruct Hg as [-> ->]. split; [apply only_refl|]. split; [done|]. intros [R _]. cbn in R. lia. }
  destruct Hg as (O1 & W1 & Hrr & [Hd' Hf'] & D1 & F1 & Hcase).
  set (sign := xorb (neg (s !!! a)) (neg (s !!! b))). set (s2 := upd rr (set_neg sign) s1). pose proof (sets_upd rr (set_neg sign) s1) as S2. fold s2 in S2.
  assert (wfs s2) as W2 by (apply (sets_wfs _ _ _ _ S2); [by apply set_neg_wf|done]).
  assert (only [rr] s s2) as O2 by (eapply only_trans; [exact O1|apply (sets_only _ _ _ _ _ S2); set_solver]).
  assert (s2 !!! a = s !!! a ∧ s2 !!! b = s !!! b) as [Ea Eb] by (split; apply O2; set_solver).
  assert (rr ≠ a ∧ rr ≠ b) as [Ha Hb] by set_solver.
  assert (r = rr ∨ rr ∈ ctx) as Hin by (destruct Hcase as [[-> _]|[_ ->]]; set_solver).
  assert (∀ s', only (rr :: ctx') s2 s' → only (r :: ctx) s s') as Ho.
  { intros s' O. eapply only_trans; eapply only_sub; [exact O2| |exact O|]; destruct Hcase as [[-> ->]|[_ ->]]; set_solver. }
  pose proof (mul_into_spec ctx' rr a b s2 W2 Ha Hb) as Hm. rewrite Ea, Eb, (sets_at _ _ _ _ S2) in Hm.
  destruct (mul_into ctx' rr a b s2) as [[|] s3].
  - destruct Hm as ((O3 & W3 & M3 & Wi3) & N3); [split; [done|intros y Hy; specialize (Hf' y Hy); set_solver]|]. cbn [set_neg neg] in N3.
    pose proof (copy_result r rr ctx s3 W3 Hin) as Hc. destruct ((if bool_decide (r = rr) then mret () else BN_copy r rr) s3) as [[|] s4].
    + destruct Hc as (O4 & W4 & M4 & Wi4 & N4). split; [eapply only_trans; [by apply Ho|done]|]. split; [done|]. rewrite M3 in M4. rewrite N3 in N4. rewrite Wi3 in Wi4.
      split; [by apply value_of_product|]. split; [|done]. rewrite N4. unfold sign. by destruct (neg (s !!! a)), (neg (s !!! b)).
    + destruct Hc as (-> & Hne & C). split; [by apply Ho|]. split; [done|]. intros [_ R]. apply C. rewrite Wi3.
      destruct Hcase as [[-> _]|[_ ->]]; [done|]. rewrite (O3 r), (O2 r) by (specialize (Hf' r); set_solver).
      destruct (product_fits _ _ (Hs a) (Hs b)) as (? & ? & _). apply (R r); [set_solver|]. lia.
  - destruct Hm as (O3 & W3 & C); [split; [done|intros y Hy; specialize (Hf' y Hy); set_solver]|]. split; [by apply Ho|]. split; [done|].
    intros [Rl R]. apply C. unfold mul_room. rewrite Ea, Eb. split; [destruct Hcase as [[-> ->]|[_ ->]]; cbn in Rl; lia|].
    intros x Hx k Hk. destruct (decide (x = rr)) as [->|Hxr].
    + rewrite (sets_at _ _ _ _ S2). apply (can_hold_cong _ (s !!! rr)); [done..|]. apply (R rr); [destruct Hcase as [[-> ->]|[_ ->]]; set_solver|done].
    + rewrite (O2 x) by set_solver. apply (R x); [|done]. destruct Hcase as [[-> ->]|[_ ->]]; set_solver.
Qed.

Lemma mul_value_spec ctx r a b s :
  wfs s → fresh ctx [r; a; b] →
  match BN_mul ctx r a b s with
  | (Some _, s') => only (r :: ctx) s s' ∧ wfs s' ∧ bn_canonical (s' !!! r) ∧ bn_value (s' !!! r) = bn_value (s !!! a) * bn_value (s !!! b)
  | (None, s') => only (r :: ctx) s s' ∧ wfs s' ∧ ¬ mul_room 2 ctx r a b s
  end.
Proof.
  intros Hs Hf. unfold BN_mul, mbind, M_bind, modifyS. pose proof (mul_impl_spec ctx r a b s Hs Hf) as H.
  destruct (bn_mul_impl ctx r a b s) as [[|] s1]; [|done]. destruct H as (O & W & V & _).
  pose proof (sets_upd r bn_set_minimal_width s1) as S. destruct (set_minimal_width_spec _ (W r)) as (W2 & C2 & _ & V2 & _). rewrite (sets_at _ _ _ _ S), V2.
  split; [eapply only_trans; [exact O|apply (sets_only _ _ _ _ _ S); set_solver]|]. split; [by apply (sets_wfs _ _ _ _ S)|done].
Qed.

Lemma mul_consttime_spec ctx r a b s :
  wfs s → fresh ctx [r; a; b] →
  match bn_mul_consttime ctx r a b s with
  | (Some _, s') => only (r :: ctx) s s' ∧ wfs s' ∧ neg (s !!! a) = false ∧ neg (s !!! b) = false ∧ neg (s' !!! r) = false ∧
      mag (s' !!! r) = mag (s !!! a) * mag (s !!! b) ∧
      (width (s !!! a) ≠ 0 → width (s !!! b) ≠ 0 → width (s' !!! r) = width (s !!! a) + width (s !!! b))
  | (None, s') => only (r :: ctx) s s' ∧ wfs s' ∧ (neg (s !!! a) = true ∨ neg (s !!! b) = true ∨ ¬ mul_room 2 ctx r a b s)
  end.
Proof.
  intros Hs Hf. unfold bn_mul_consttime, mbind, M_bind, getS, ensure. cbn beta iota. pose proof (mul_impl_spec ctx r a b s Hs Hf) as H.
  destruct (neg (s !!! a)) eqn:Na; [cbn; split; [apply only_refl|naive_solver]|]. destruct (neg (s !!! b)) eqn:Nb; [cbn; split; [apply only_refl|naive_solver]|]. cbn [negb orb].
  destruct (bn_mul_impl ctx r a b s) as [[|] s1]; [|naive_solver]. destruct H as (O & W & V & N & Wi). split; [done|]. split; [done|]. split; [done|]. split; [done|].
  assert (neg (s1 !!! r) = false) as Nr by (destruct (neg (s1 !!! r)); [by destruct N|done]). split; [done|].
  unfold bn_value in V. rewrite Na, Nb, Nr in V. done.
Qed.

(** * Squares *)

Definition sqr_room (n : nat) (ctx : list var) (r a : var) (s : bns) : Prop :=
  (n <= length ctx)%nat ∧ rooms (4 * width (s !!! a)) (r :: ctx) s.

Lemma power_test n : 0 < n < 2 ^ 64 → negb (n =? 0) && (n .& (n - 1) =? 0) = true → ∃ k, 0 <= k < 64 ∧ n = 2 ^ k.
Proof.
  intros Hn E. apply andb_true_iff in E as [_ E%Z.eqb_eq]. exists (Z.log2 n).
  destruct (Z.log2_spec n ltac:(lia)) as [L1 L2]. rewrite Z.pow_succ_r in L2 by apply Z.log2_nonneg.
  split; [split; [apply Z.log2_nonneg|apply Z.log2_lt_pow2; lia]|].
  destruct (Z.eq_dec n (2 ^ Z.log2 n)) as [|Hne]; [done|]. exfalso.
  assert (Z.testbit (n .& (n - 1)) (Z.log2 n) = true) as T; [|by rewrite E, Z.testbit_0_l in T].
  rewrite Z.land_spec, Z.bit_log2 by lia. cbn [andb]. assert (Z.log2 (n - 1) = Z.log2 n) as <- by (apply Z.log2_unique; [apply Z.log2_nonneg|]; rewrite Z.pow_succ_r by apply Z.log2_nonneg; lia).
  apply Z.bit_log2. pose proof (Z.pow_pos_nonneg 2 (Z.log2 n) ltac:(lia) (Z.log2_nonneg n)). lia.
Qed.

(** The sign is cleared before the width is set. *)
Lemma set_unsigned n rr xs v s sx :
  let s' := upd rr (set_width n) sx in let s'' := upd rr (set_width n) (upd rr (set_neg false) sx) in
  rr ∈ xs → only xs s s' ∧ wfs s' ∧ mag (s' !!! rr) = v ∧ width (s' !!! rr) = n →
  only xs s s'' ∧ wfs s'' ∧ mag (s'' !!! rr) = v ∧ width (s'' !!! rr) = n ∧ neg (s'' !!! rr) = false.
Proof.
  intros s' s'' Hrr (O & W & M & Wi). pose proof (sets_upd rr (set_width n) sx) as S1. fold s' in S1.
  pose proof (sets_upd rr (set_neg false) sx) as S2. pose proof (sets_upd rr (set_width n) (upd rr (set_neg false) sx)) as S3. fold s'' in S3.
  rewrite (sets_at _ _ _ _ S2) in S3. assert (s'' !!! rr = set_neg false (s' !!! rr)) as Er by (by rewrite (sets_at _ _ _ _ S3), (sets_at _ _ _ _ S1)).
  assert (∀ y, y ≠ rr → s'' !!! y = s' !!! y) as Ey.
  { intros y Hy. by rewrite (sets_ne _ _ _ _ _ S3), (sets_ne _ _ _ _ _ S2), (sets_ne _ _ _ _ _ S1). }
  rewrite Er. split; [|split; [|done]].
  - intros y Hy. rewrite Ey by (intros ->; done). by apply O.
  - intros y. destruct (decide (y = rr)) as [->|Hy]; [rewrite Er; apply set_neg_wf, W|rewrite Ey by done; apply W].
Qed.

(** The square, once there is room for it. *)
Lemma sqr_body rr tmp s n v m f g k :
  wfs s → rr ≠ tmp → width (s !!! tmp) = 0 → 0 <= n → n <= dmax (s !!! rr) → v < 2 ^ (64 * n) → 0 <= k →
  (∀ r, n <= lenZ r → ∃ ws, f r = ws ++ dropZ n r ∧ lenZ ws = n ∧ Forall (fits 64) ws ∧ words_value ws = v) →
  (∀ r t, n <= lenZ r → k <= lenZ t → multiplies (g r t) r t n v) →
  m = (λ s, (Some (), write_words_of rr f s)) ∨ m = (wexpand tmp k;; modifyS (write_words_and rr tmp g)) →
  match m s with
  | (Some _, s') => let s'' := upd rr (set_width n) s' in only [rr; tmp] s s'' ∧ wfs s'' ∧ mag (s'' !!! rr) = v ∧ width (s'' !!! rr) = n
  | (None, s') => s' = s ∧ ¬ can_hold (s !!! tmp) k
  end.
Proof.
  intros Hs Hne Ht Hn HN Hv Hk Hf Hg [->| ->].
  - destruct (write_product rr s n n v f Hs) with (s' := upd rr (set_width n) (write_words_of rr f s)) as (O & W & M & Wi & _); [lia|done|done|..].
    + apply Hf. rewrite (wf_dmax _ (Hs rr)). done.
    + intros y. unfold write_words_of. pose proof (sets_upd rr (λ b, set_d (f (d b)) b) s) as S2.
      rewrite (sets_upd rr (set_width n) (upd rr (λ b, set_d (f (d b)) b) s) y), (sets_at _ _ _ _ S2).
      destruct (decide (y = rr)); [done|]. by apply (sets_ne _ _ _ _ _ S2).
    + split; [|done]. eapply only_sub; [exact O|set_solver].
  - unfold mbind, M_bind, modifyS. pose proof (wexpand_spec tmp k s (Hs tmp) Hk) as H. destruct (wexpand tmp k s) as [[|] s1]; [|done].
    destruct H as (_ & b1 & S1 & W1 & Wi1 & _ & _ & D1 & _). assert (wfs s1) as Hs1 by (by apply (sets_wfs _ _ _ _ S1)).
    assert (s1 !!! rr = s !!! rr) as Er by (by apply (sets_ne _ _ _ _ _ S1)).
    destruct (write_product_and rr tmp s1 n n v g Hs1 Hne) as (O & W & M & Wi & _); [rewrite (sets_at _ _ _ _ S1); lia|lia|by rewrite Er|done| |].
    { apply Hg; [rewrite Er, (wf_dmax _ (Hs rr)); done|]. rewrite (wf_dmax _ (Hs1 tmp)), (sets_at _ _ _ _ S1). done. }
    split; [|done]. eapply only_trans; [apply (sets_only _ _ _ _ _ S1); set_solver|exact O].
Qed.

(** Whichever way is taken, the square is written, and in the last two with [k] words of scratch space. *)
Lemma sqr_ways rr aw al tmp t :
  Forall (fits 64) aw → lenZ aw = al → 0 < al < 2 ^ 64 → 32 <= lenZ t →
  let v := words_value aw * words_value aw in let m := sqr_words_to rr aw al tmp t in
  ∃ f g k, 0 <= k <= 4 * al ∧ (∀ r, 2 * al <= lenZ r → ∃ ws, f r = ws ++ dropZ (2 * al) r ∧ lenZ ws = 2 * al ∧ Forall (fits 64) ws ∧ words_value ws = v) ∧
    (∀ r t, 2 * al <= lenZ r → k <= lenZ t → multiplies (g r t) r t (2 * al) v) ∧
    (m = (λ s, (Some (), write_words_of rr f s)) ∨ m = (wexpand tmp k;; modifyS (write_words_and rr tmp g))).
Proof.
  intros Fa La Hal Lt v m.
  assert (∀ r t, 2 * al <= lenZ r → 2 * al <= lenZ t → multiplies (bn_sqr_normal r aw t) r t (2 * al) v) as Hn.
  { intros r t' Hr Ht'. rewrite <-La. apply sqr_normal_spec; [done|lia|lia]. }
  assert (∀ x, lenZ x = 2 * al → Forall (fits 64) x → words_value x = v →
    ∀ r, 2 * al <= lenZ r → ∃ ws, write_at r 0 x = ws ++ dropZ (2 * al) r ∧ lenZ ws = 2 * al ∧ Forall (fits 64) ws ∧ words_value ws = v) as Hx.
  { intros x L F V r Hr. exists x. split; [by apply write_from_drop|done]. }
  assert (∀ t, 2 * al <= lenZ t → ∀ r, 2 * al <= lenZ r → ∃ ws, (bn_sqr_normal r aw t).1 = ws ++ dropZ (2 * al) r ∧ lenZ ws = 2 * al ∧ Forall (fits 64) ws ∧ words_value ws = v) as Hf.
  { intros t' Ht' r Hr. destruct (Hn r t' Hr Ht') as (ws & t2 & -> & _ & F & L & V). by exists ws. }
  assert (2 * al <= lenZ (replicate (Z.to_nat (2 * al)) 0)) as Hz by (rewrite lenZ_replicate; lia).
  assert (∀ k, 0 <= k < 64 → al = 2 ^ k → ∀ r t, 2 * al <= lenZ r → al * 4 <= lenZ t → multiplies (bn_sqr_recursive DEPTH r aw al t) r t (2 * al) v) as Hr.
  { intros k Hk Ek r t' Hr Ht'. pose proof (sqr_recursive_spec DEPTH k r aw t') as R. cbv zeta in R. rewrite <-Ek, at_0, takeZ_all in R by lia. apply R; [exact Hk|exact Fa|lia..]. }
  assert (al = 4 → Forall (fits 64) (bn_sqr_comba4 aw) ∧ lenZ (bn_sqr_comba4 aw) = 2 * al ∧ words_value (bn_sqr_comba4 aw) = v) as H4.
  { intros E. rewrite E in *. exact (sqr_comba4_spec aw Fa La). }
  assert (al = 8 → Forall (fits 64) (bn_sqr_comba8 aw) ∧ lenZ (bn_sqr_comba8 aw) = 2 * al ∧ words_value (bn_sqr_comba8 aw) = v) as H8.
  { intros E. rewrite E in *. exact (sqr_comba8_spec aw Fa La). }
  clearbody v.
  unfold m, sqr_words_to. clear m. destruct (Z.eqb_spec al 4) as [E|_]; [|destruct (Z.eqb_spec al 8) as [E|_]; [|destruct (Z.ltb_spec al BN_SQR_RECURSIVE_SIZE_NORMAL) as [E|_]; [|destruct (negb (al =? 0) && (al .& (al - 1) =? 0)) eqn:E]]].
  - destruct (H4 E) as (F & L & V). eexists _, (λ r t, bn_sqr_normal r aw t), (2 * al). split; [lia|]. split; [exact (Hx _ L F V)|]. split; [exact Hn|by left].
  - destruct (H8 E) as (F & L & V). eexists _, (λ r t, bn_sqr_normal r aw t), (2 * al). split; [lia|]. split; [exact (Hx _ L F V)|]. split; [exact Hn|by left].
  - eexists _, (λ r t, bn_sqr_normal r aw t), (2 * al). split; [lia|]. split; [apply (Hf t); change BN_SQR_RECURSIVE_SIZE_NORMAL with 16 in E; lia|]. split; [exact Hn|by left].
  - destruct (power_test al) as (k & Hk & Ek); [lia|done|]. eexists _, (λ r t, bn_sqr_recursive DEPTH r aw al t), (al * 4). split; [lia|]. split; [exact (Hf _ Hz)|]. split; [|by right].
    exact (Hr k Hk Ek).
  - eexists _, (λ r t, bn_sqr_normal r aw t), (2 * al). split; [lia|]. split; [exact (Hf _ Hz)|]. split; [exact Hn|by right].
Qed.

Lemma sqr_into_spec rr a tmp t s :
  wfs s → rr ≠ a → tmp ≠ rr → tmp ≠ a → width (s !!! tmp) = 0 → 0 < width (s !!! a) → 32 <= lenZ t →
  match sqr_into rr a tmp t s with
  | (Some _, s') => only [rr; tmp] s s' ∧ wfs s' ∧ mag (s' !!! rr) = mag (s !!! a) * mag (s !!! a) ∧ width (s' !!! rr) = 2 * width (s !!! a) ∧ neg (s' !!! rr) = false
  | (None, s') => only [rr; tmp] s s' ∧ wfs s' ∧ ¬ rooms (4 * width (s !!! a)) [rr; tmp] s
  end.
Proof.
  intros Hs Ha Ht Hta H0 Hal Lt. destruct (words_fits _ (Hs a)) as (Fa & La & _ & _). destruct (product_fits _ _ (Hs a) (Hs a)) as (_ & _ & Hp).
  assert (width (s !!! a) <= BN_MAX_WORDS) as Ma by (destruct (Hs a); lia). assert (BN_MAX_WORDS = 8388607) as EM by reflexivity.
  unfold sqr_into, mbind, M_bind, getS. cbn beta iota. set (al := width (s !!! a)) in *.
  pose proof (wexpand_spec rr (2 * al) s (Hs rr) ltac:(lia)) as H. destruct (wexpand rr (2 * al) s) as [[|] s1].
  2:{ destruct H as [-> C]. split; [apply only_refl|]. split; [done|]. intros R. apply C, (R rr); [set_solver|lia]. }
  destruct H as (_ & b1 & S1 & W1 & _ & _ & _ & D1 & _). assert (wfs s1) as Hs1 by (by apply (sets_wfs _ _ _ _ S1)).
  assert (s1 !!! tmp = s !!! tmp) as Et by (by apply (sets_ne _ _ _ _ _ S1)). assert (2 * al <= dmax (s1 !!! rr)) as D2 by (by rewrite (sets_at _ _ _ _ S1)).
  destruct (sqr_ways rr (words (s !!! a)) al tmp t Fa La ltac:(rewrite pow2_64; lia) Lt) as (f & g & k & Hk & Hf & Hg & Em).
  set (m := sqr_words_to _ _ _ _ _) in *. clearbody m. replace (64 * (al + al)) with (64 * (2 * al)) in Hp by lia.
  pose proof (sqr_body rr tmp s1 (2 * al) _ m f g k Hs1 (not_eq_sym Ht) ltac:(by rewrite Et) ltac:(lia) D2 Hp ltac:(lia) Hf Hg Em) as Hb.
  assert (only [rr; tmp] s s1) as O1 by (apply (sets_only _ _ _ _ _ S1); set_solver).
  destruct (m s1) as [[|] s2].
  - unfold modifyS. apply set_unsigned; [set_solver|]. cbv zeta in Hb. destruct Hb as (O & Hb). split; [by eapply only_trans|done].
  - destruct Hb as [-> C]. split; [done|]. split; [done|]. intros R. apply C. rewrite Et. apply (R tmp); [set_solver|lia].
Qed.


Lemma sqr_consttime_spec ctx t r a s :
  wfs s → fresh ctx [r; a] → 32 <= lenZ t →
  match bn_sqr_consttime ctx t r a s with
  | (Some _, s') => only (r :: ctx) s s' ∧ wfs s' ∧ neg (s' !!! r) = false ∧ mag (s' !!! r) = mag (s !!! a) * mag (s !!! a) ∧ width (s' !!! r) = 2 * width (s !!! a)
  | (None, s') => only (r :: ctx) s s' ∧ wfs s' ∧ ¬ sqr_room 2 ctx r a s
  end.
Proof.
  intros Hs Hf Lt. unfold bn_sqr_consttime, mbind, M_bind, getS. cbn beta iota. pose proof (wf_width _ (Hs a)) as Wa.
  destruct (Z.leb_spec (width (s !!! a)) 0) as [H0|Hpos].
  { assert (mag (s !!! a) = 0 ∧ width (s !!! a) = 0) as [Em Ew].
    { pose proof (mag_bound _ (Hs a)) as B. assert (width (s !!! a) = 0) as E by lia. rewrite E in B. change (2 ^ (64 * 0)) with 1 in B. lia. }
    unfold modifyS. pose proof (sets_upd r (set_width 0) s) as S1. pose proof (sets_upd r (set_neg false) (upd r (set_width 0) s)) as S2. rewrite (sets_at _ _ _ _ S1) in S2.
    pose proof (sets_trans _ _ _ _ _ _ S1 S2) as S. rewrite (sets_at _ _ _ _ S). split; [apply (sets_only _ _ _ _ _ S); set_solver|].
    split; [apply (sets_wfs _ _ _ _ S); [|done]; apply (zero_wf _ (Hs r))|]. split; [done|]. rewrite Em, Ew. done. }
  assert (bool_decide (r = a) = false → r ∉ [a]) as Hal by (intros E%bool_decide_eq_false; set_solver).
  set (alias := bool_decide (r = a)) in *. pose proof (result_number alias ctx r [a] s Hs Hf Hal) as Hg. clearbody alias.
  destruct ((if alias then ctx_get ctx else mret (r, ctx)) s) as [[[rr ctx1]|] s1].
  2:{ destruct Hg as [-> ->]. split; [apply only_refl|]. split; [done|]. intros [R _]. cbn in R. lia. }
  destruct Hg as (O1 & W1 & Hrr & [Hd' Hf'] & D1 & F1 & Hcase).
  assert (r = rr ∨ rr ∈ ctx) as Hin by (destruct Hcase as [[-> _]|[_ ->]]; set_solver).
  pose proof (ctx_get_spec ctx1 s1 W1) as Hg. destruct (ctx_get ctx1 s1) as [[[tmp ctx2]|] s2].
  2:{ destruct Hg as [-> ->]. split; [eapply only_sub; [exact O1|set_solver]|]. split; [done|]. intros [R _]. destruct Hcase as [[-> <-]|[_ ->]]; cbn in R; lia. }
  destruct Hg as (-> & S2 & W2). assert (tmp ∉ [r; rr; a]) as Htmp by (apply Hf'; set_solver).
  assert (only [rr; tmp] s s2) as O2 by (eapply only_trans; [eapply only_sub; [exact O1|set_solver]|apply (sets_only _ _ _ _ _ S2); set_solver]).
  assert (∀ s', only [rr; tmp] s2 s' → only (r :: ctx) s s') as Ho.
  { intros s' O. eapply only_trans; eapply only_sub; [exact O2| |exact O|]; destruct Hcase as [[-> <-]|[_ ->]]; set_solver. }
  assert (s2 !!! a = s !!! a) as Ea by (apply O2; set_solver).
  pose proof (sqr_into_spec rr a tmp t s2 W2 ltac:(set_solver) ltac:(set_solver) ltac:(set_solver) ltac:(by rewrite (sets_at _ _ _ _ S2)) ltac:(rewrite Ea; lia) Lt) as Hm.
  rewrite Ea in Hm. destruct (sqr_into rr a tmp t s2) as [[|] s3].
  - destruct Hm as (O3 & W3 & M3 & Wi3 & N3). pose proof (copy_result r rr ctx s3 W3 Hin) as Hc.
    destruct ((if bool_decide (r = rr) then mret () else BN_copy r rr) s3) as [[|] s4].
    + destruct Hc as (O4 & W4 & M4 & Wi4 & N4). split; [eapply only_trans; [by apply Ho|done]|]. split; [done|]. rewrite N4, M4, Wi4. done.
    + destruct Hc as (-> & Hne & C). split; [by apply Ho|]. split; [done|]. intros [_ R]. apply C. rewrite Wi3.
      rewrite (O3 r), (O2 r) by set_solver. apply (R r); [set_solver|]. lia.
  - destruct Hm as (O3 & W3 & C). split; [by apply Ho|]. split; [done|]. intros [Rl R]. apply C. intros x Hx k Hk.
    assert (x ∈ r :: ctx) as Hxc by (destruct Hcase as [[-> <-]|[_ ->]]; set_solver). specialize (R x Hxc k Hk).
    assert (s2 !!! rr = s1 !!! rr) as Err by (apply (sets_ne _ _ _ _ _ S2); set_solver).
    destruct (decide (x = tmp)) as [->|Hxt]; [rewrite (sets_at _ _ _ _ S2), (O1 tmp) by set_solver; by apply (can_hold_cong _ (s !!! tmp))|].
    assert (x = rr) as -> by set_solver. rewrite Err. by apply (can_hold_cong _ (s !!! rr)).
Qed.

Lemma sqr_value_spec ctx t r a s :
  wfs s → fresh ctx [r; a] → 32 <= lenZ t →
  match BN_sqr ctx t r a s with
  | (Some _, s') => only (r :: ctx) s s' ∧ wfs s' ∧ bn_canonical (s' !!! r) ∧ bn_value (s' !!! r) = bn_value (s !!! a) * bn_value (s !!! a)
  | (None, s') => only (r :: ctx) s s' ∧ wfs s' ∧ ¬ sqr_room 2 ctx r a s
  end.
Proof.
  intros Hs Hf Lt. unfold BN_sqr, mbind, M_bind, modifyS. pose proof (sqr_consttime_spec ctx t r a s Hs Hf Lt) as H.
  destruct (bn_sqr_consttime ctx t r a s) as [[|] s1]; [|done]. destruct H as (O & W & N & M & _).
  pose proof (sets_upd r bn_set_minimal_width s1) as S. destruct (set_minimal_width_spec _ (W r)) as (W2 & C2 & _ & V2 & _). rewrite (sets_at _ _ _ _ S), V2.
  split; [eapply only_trans; [exact O|apply (sets_only _ _ _ _ _ S); set_solver]|]. split; [by apply (sets_wfs _ _ _ _ S)|]. split; [done|].
  unfold bn_value. rewrite N, M. destruct (neg (s !!! a)); lia.
Qed.

(** * A word, and differences *)

Lemma push_word b c :
  bn_wf b → width b + 1 <= dmax b → fits 64 c →
  let b' := set_width (width b + 1) (set_d (write_at (d b) (width b) [c]) b) in bn_wf b' ∧ words b' = words b ++ [c].
Proof.
  intros Hb Hd Hc. pose proof Hb as [W D M F]. assert (write_at (d b) (width b) [c] = write_at (d b) 0 (words b ++ [c])) as ->.
  { unfold write_at, words. rewrite takeZ_0, lenZ_app, lenZ_takeZ by lia. cbn [app]. by rewrite <-app_assoc. }
  apply write_words; [done|rewrite lenZ_app, (lenZ_bn_words b Hb), lenZ_1; lia|done|]. apply Forall_app. split; [done|by constructor].
Qed.

Lemma mul_word_spec w b :
  bn_wf b → fits 64 w →
  match BN_mul_word w b with
  | (Some _, b') => bn_wf b' ∧ bn_value b' = bn_value b * w ∧ (bn_canonical b → bn_canonical b')
  | (None, b') => bn_wf b' ∧ ¬ can_hold b (width b + 1)
  end.
Proof.
  intros Hb Hw. unfold BN_mul_word. destruct (Z.eqb_spec (width b) 0) as [E0|_].
  { pose proof (mag_bound b Hb) as B. rewrite E0 in B. change (2 ^ (64 * 0)) with 1 in B. assert (mag b = 0) as Em by lia. split; [done|]. unfold bn_value. rewrite Em. split; [destruct (neg b); lia|done]. }
  destruct (Z.eqb_spec w 0) as [->|Hw0]; [split; [by apply zero_wf|split; [|done]]; unfold bn_value; rewrite (proj2 (zero_wf b Hb)); cbn; lia|].
  destruct (words_fits b Hb) as (F & L & _ & Hm). destruct (mul_words_spec (words b) w F Hw) as (c & ws & -> & Fc & Fr & Lr & V). fold (mag b) in V. rewrite L in *.
  destruct (put_words_spec b ws Hb Lr Fr) as (P1 & P2 & P3 & P4 & P5 & P6).
  assert (∀ b', mag b' = mag b * w → neg b' = neg b → bn_value b' = bn_value b * w ∧ (bn_canonical b → bn_canonical b')) as Hv.
  { intros b' E N. unfold bn_value, bn_canonical. rewrite E, N. split; [destruct (neg b); lia|]. intros H Hn. specialize (H Hn). unfold fits in Hw. nia. }
  destruct (Z.eqb_spec c 0) as [->|Hc]; [split; [done|]; apply Hv; [unfold mag at 1; rewrite P2; lia|done]|].
  pose proof (bn_wexpand_spec _ (width b + 1) P1 ltac:(destruct Hb; lia)) as He. rewrite P3. destruct (bn_wexpand _ _) as [b1|].
  - destruct He as (_ & W1 & Hw1 & Hn1 & Hwo & Hd1 & _). destruct (push_word b1 c W1) as [W2 E2]; [lia|done|]. split; [done|]. apply Hv; [|by rewrite <-P4].
    unfold mag at 1. rewrite E2, Hwo, P2, words_value_app, Lr, words_value_cons. change (words_value []) with 0. lia.
  - split; [done|]. intros C. apply He. by apply (can_hold_cong _ b).
Qed.

Lemma abs_sub_consttime_spec ctx r a b s :
  wfs s → fresh ctx [r; a; b] →
  let n := Z.max (width (s !!! a)) (width (s !!! b)) in
  match bn_abs_sub_consttime ctx r a b s with
  | (Some _, s') => only (r :: ctx) s s' ∧ wfs s' ∧ mag (s' !!! r) = Z.abs (mag (s !!! a) - mag (s !!! b)) ∧ width (s' !!! r) = n ∧ neg (s' !!! r) = neg (s !!! r)
  | (None, s') => only (r :: ctx) s s' ∧ wfs s' ∧ ¬ ((1 <= length ctx)%nat ∧ rooms n (r :: ctx) s)
  end.
Proof.
  intros Hs [_ Hf] n. destruct (words_fits _ (Hs a)) as (Fa & La & Ba & Na). destruct (words_fits _ (Hs b)) as (Fb & Lb & Bb & Nb).
  unfold bn_abs_sub_consttime, mbind, M_bind, getS, modifyS. cbn beta iota. set (aw := width (s !!! a)) in *. set (bw := width (s !!! b)) in *.
  pose proof (wf_width _ (Hs a)) as Wa. pose proof (wf_width _ (Hs b)) as Wb. fold aw in Wa. fold bw in Wb.
  assert ((if aw <? bw then bw else aw) = n) as -> by (unfold n; destruct (Z.ltb_spec aw bw); lia).
  assert ((if aw <? bw then aw else bw) = Z.min aw bw) as -> by (destruct (Z.ltb_spec aw bw); lia).
  pose proof (ctx_get_spec ctx s Hs) as Hg. destruct (ctx_get ctx s) as [[[t ctx']|] s1].
  2:{ destruct Hg as [-> ->]. split; [apply only_refl|]. split; [done|]. intros [R _]. cbn in R. lia. }
  destruct Hg as (-> & S1 & W1). assert (t ∉ [r; a; b]) as Ht by (apply Hf; set_solver).
  assert (s1 !!! a = s !!! a ∧ s1 !!! b = s !!! b ∧ s1 !!! r = s !!! r) as (Ea & Eb & Er) by (split; [|split]; apply (sets_ne _ _ _ _ _ S1); set_solver).
  assert (only (r :: t :: ctx') s s1) as O1 by (apply (sets_only _ _ _ _ _ S1); set_solver).
  pose proof (make_room r n s1 W1 ltac:(lia)) as Hr. destruct (wexpand r n s1) as [[|] s2].
  2:{ destruct Hr as [-> C]. split; [done|]. split; [done|]. intros [_ R]. apply C. rewrite Er. apply (R r); [set_solver|lia]. }
  destruct Hr as (b1 & S2 & W2 & D2 & N2 & _ & _ & Hops). assert (wfs s2) as Hs2 by (by apply (sets_wfs _ _ _ _ S2)).
  destruct (Hops a) as [Oa _]. destruct (Hops b) as [Ob _]. rewrite Ea in Oa. rewrite Eb in Ob. fold aw in Oa. fold bw in Ob.
  assert (only (r :: t :: ctx') s s2) as O2 by (eapply only_trans; [exact O1|apply (sets_only _ _ _ _ _ S2); set_solver]).
  assert (s2 !!! t = BN_zero (s !!! t)) as Et by (rewrite (sets_ne _ _ _ _ _ S2) by set_solver; apply (sets_at _ _ _ _ S1)).
  pose proof (wexpand_spec t n s2 (Hs2 t) ltac:(lia)) as Hx. rewrite Et in Hx. destruct (wexpand t n s2) as [[|] s3].
  2:{ destruct Hx as [-> C]. split; [done|]. split; [done|]. intros [_ R]. apply C. apply (can_hold_cong _ (s !!! t)); [done..|]. apply (R t); [set_solver|lia]. }
  destruct Hx as (_ & b2 & S3 & W3 & Wi3 & _ & _ & D3 & _). assert (wfs s3) as Hs3 by (by apply (sets_wfs _ _ _ _ S3)).
  assert (s3 !!! a = s2 !!! a ∧ s3 !!! b = s2 !!! b ∧ s3 !!! r = b1) as (Ea3 & Eb3 & Er3).
  { split; [|split]; [apply (sets_ne _ _ _ _ _ S3); set_solver..|]. rewrite (sets_ne _ _ _ _ _ S3) by set_solver. apply (sets_at _ _ _ _ S2). }
  rewrite Ea3, Eb3, Oa, Ob. assert (∀ m l, lenZ l = m → at_ l 0 m = l) as Hat by (intros; rewrite at_0; apply takeZ_all; lia).
  destruct (abs_sub_part_words_spec (words (s !!! a)) (words (s !!! b)) (Z.min aw bw) (aw - bw) Fa Fb) as (r' & t' & E & Lt & Fr & Lr & V); [lia..|]. rewrite E.
  replace (Z.min aw bw + Z.max (aw - bw) 0) with aw in V by lia. replace (Z.min aw bw + Z.max (- (aw - bw)) 0) with bw in V by lia. rewrite !Hat in V by done.
  replace (Z.min aw bw + Z.abs (aw - bw)) with n in * by lia. fold (mag (s !!! a)) (mag (s !!! b)) in V.
  destruct (write_product_and r t s3 n n (Z.abs (mag (s !!! a) - mag (s !!! b))) (λ rd td, (write_at rd 0 r', write_at td 0 t')) Hs3 ltac:(set_solver)) as (O & W & M & Wi & Ng).
  { rewrite (sets_at _ _ _ _ S3). exact Wi3. } { lia. } { rewrite Er3. lia. }
  { assert (2 ^ (64 * aw) <= 2 ^ (64 * n)) by (apply Z.pow_le_mono_r; lia). assert (2 ^ (64 * bw) <= 2 ^ (64 * n)) by (apply Z.pow_le_mono_r; lia). lia. }
  { exists r', (write_at (d (s3 !!! t)) 0 t'). rewrite (write_from_drop _ r' n) by (rewrite ?(wf_dmax _ (Hs3 r)), ?Er3; done || lia). split; [done|].
    split; [|done]. rewrite lenZ_write_at; [done|lia|]. rewrite (wf_dmax _ (Hs3 t)), (sets_at _ _ _ _ S3). lia. }
  split; [|split; [done|split; [done|split; [done|]]]].
  - eapply only_trans; [exact O2|]. eapply only_trans; [apply (sets_only _ _ _ _ _ S3); set_solver|]. eapply only_sub; [exact O|set_solver].
  - rewrite Ng, Er3, N2. by rewrite Er.
Qed.
End mul_facts.

Lemma mul_small_spec r a b :
  Forall (fits 64) a → Forall (fits 64) b →
  if decide (lenZ r = lenZ a + lenZ b) then ∃ ws, bn_mul_small r a b = Some ws ∧ Forall (fits 64) ws ∧ lenZ ws = lenZ r ∧ words_value ws = words_value a * words_value b
  else bn_mul_small r a b = None.
Proof.
  intros Fa Fb. unfold bn_mul_small. destruct (decide _) as [E|E]; [|by rewrite (proj2 (Z.eqb_neq _ _) E)]. rewrite (proj2 (Z.eqb_eq _ _) E). cbn [negb].
  destruct ((lenZ a =? 8) && (lenZ b =? 8)) eqn:E8.
  - apply andb_true_iff in E8 as [E1%Z.eqb_eq E2%Z.eqb_eq]. destruct (mul_comba8_spec a b Fa Fb E1 E2) as (F & L & V).
    eexists. split; [done|]. rewrite (write_from_drop r _ 16), dropZ_all, app_nil_r by lia. split; [done|]. split; [lia|done].
  - destruct (mul_normal_spec r a b Fa Fb) as (ws & -> & L & F & V); [lia|]. eexists. split; [done|]. rewrite dropZ_all, app_nil_r by lia. split; [done|]. split; [lia|done].
Qed.

Lemma sqr_small_spec tmp r a :
  Forall (fits 64) a → lenZ tmp = 2 * BN_SMALL_MAX_WORDS →
  if decide (lenZ r = 2 * lenZ a ∧ lenZ a <= BN_SMALL_MAX_WORDS)
  then ∃ ws, bn_sqr_small tmp r a = Some ws ∧ Forall (fits 64) ws ∧ lenZ ws = lenZ r ∧ words_value ws = words_value a * words_value a
  else bn_sqr_small tmp r a = None.
Proof.
  intros Fa Lt. unfold bn_sqr_small. destruct (decide _) as [[E1 E2]|E].
  2:{ destruct (Z.eqb_spec (lenZ r) (2 * lenZ a)), (Z.ltb_spec BN_SMALL_MAX_WORDS (lenZ a)); try done. destruct E. split; [done|lia]. }
  rewrite (proj2 (Z.eqb_eq _ _) E1), (proj2 (Z.ltb_ge _ _) E2). cbn [negb orb].
  assert (∀ x, lenZ x = lenZ r → Forall (fits 64) x → words_value x = words_value a * words_value a →
    ∃ ws, Some (write_at r 0 x) = Some ws ∧ Forall (fits 64) ws ∧ lenZ ws = lenZ r ∧ words_value ws = words_value a * words_value a) as Hx.
  { intros x L F V. eexists. split; [done|]. rewrite (write_from_drop r _ (lenZ r)), dropZ_all, app_nil_r by lia. done. }
  destruct (Z.eqb_spec (lenZ a) 4) as [E4|_]; [destruct (sqr_comba4_spec a Fa E4) as (F & L & V); apply Hx; [lia|exact F|exact V]|].
  destruct (Z.eqb_spec (lenZ a) 8) as [E8|_]; [destruct (sqr_comba8_spec a Fa E8) as (F & L & V); apply Hx; [lia|exact F|exact V]|].
  destruct (sqr_normal_spec r a tmp Fa) as (ws & t & -> & _ & F & L & V); [lia|lia|]. eexists. split; [done|]. cbn [fst].
  rewrite dropZ_all, app_nil_r by lia. split; [done|]. split; [lia|done].
Qed.

(** * Properties *)

(** C18. Multiplication and squaring of signed big numbers: with room in the result and in the two numbers
    the context hands out they succeed, the result is the product, normalised and with no negative zero,
    every number is well-formed, and none but the result and the scratch numbers changes, also when the
    result is one of the operands. *)
Theorem bn_products {libc : Libc} ctx t r a b s :
  wfs s → fresh ctx [r; a; b] → 32 <= lenZ t → mul_room 2 ctx r a b s →
  (∃ s', BN_mul ctx r a b s = (Some (), s') ∧ only (r :: ctx) s s' ∧ wfs s' ∧ bn_canonical (s' !!! r) ∧
    bn_value (s' !!! r) = bn_value (s !!! a) * bn_value (s !!! b)) ∧
  (∃ s', BN_sqr ctx t r a s = (Some (), s') ∧ only (r :: ctx) s s' ∧ wfs s' ∧ bn_canonical (s' !!! r) ∧
    bn_value (s' !!! r) = bn_value (s !!! a) * bn_value (s !!! a)).
Proof.
  intros Hs Hf Lt [Rl R]. split.
  - pose proof (mul_value_spec ctx r a b s Hs Hf) as H. destruct (BN_mul ctx r a b s) as [[[]|] s']; [by exists s'|]. by destruct H as (_ & _ & []).
  - pose proof (sqr_value_spec ctx t r a s Hs) as H. destruct (BN_sqr ctx t r a s) as [[[]|] s'].
    + exists s'. split; [done|]. apply H; [|done]. destruct Hf as [Hd Hf]. split; [done|]. intros x Hx. specialize (Hf x Hx). set_solver.
    + destruct H as (_ & _ & []); [destruct Hf as [Hd Hf]; split; [done|]; intros x Hx; specialize (Hf x Hx); set_solver|done|].
      split; [done|]. intros x Hx k Hk. apply (R x Hx). pose proof (wf_width _ (Hs a)). lia.
Qed.

(** [a *= b] in place, with signs and leading zeros. *)
Lemma bn_products_witness :
  let s : bns := {[ 0%nat := bn_of true [5; 0]; 1%nat := bn_of false [0; 1; 0]; 2%nat := bn_of false []; 3%nat := bn_of false [] ]} in
  (∃ s', BN_mul (libc := calloc_libc) [2%nat; 3%nat] 0 0 1 s = (Some (), s') ∧ bn_value (s' !!! 0%nat) = -5 * 2 ^ 64) ∧
  (∃ s', BN_sqr (libc := calloc_libc) [2%nat; 3%nat] (replicate 32 1) 0 0 s = (Some (), s') ∧ bn_value (s' !!! 0%nat) = 25).
Proof.
  intros s. assert (wfs s) as Hs.
  { unfold wfs. apply store_wf. repeat (apply map_Forall_insert_2; [apply (bn_of_ok _ _); decide_now|]). apply map_Forall_empty. }
  destruct (bn_products (libc := calloc_libc) [2%nat; 3%nat] (replicate 32 1) 0 0 1 s Hs) as [(s1 & E1 & _ & _ & _ & V1) (s2 & E2 & _ & _ & _ & V2)].
  - split; [repeat constructor; set_solver|]. intros x Hx. set_solver.
  - vm_compute. discriminate.
  - split; [done|]. intros x Hx k Hk. change (0 <= k <= 24) in Hk.
    assert (x = 0 ∨ x = 2 ∨ x = 3)%nat as [-> | [-> | ->]] by set_solver; (apply calloc_room; [reflexivity|assert (BN_MAX_WORDS = 8388607) as -> by reflexivity; lia]).
  - split; [exists s1; split; [exact E1|rewrite V1; reflexivity]|exists s2; split; [exact E2|rewrite V2; reflexivity]].
Defined.
