(* ===== verification/BnProgram.v ===== *)
(** Programs over big numbers: sequences of calls of the functions of BnAdd, BnMul and BnShift, which may
    name the same number more than once, against programs over the integers. *)
From stdpp Require Import gmap functions relations.
From S2P Require Import Prelude Mem Bn BnAdd BnShift BnWords BnMulRec BnSqr BnMul.

Open Scope Z_scope.

(** * Calls *)

Inductive bn_call :=
| Copy (r a : var)
| Add (r a b : var)
| Sub (r a b : var)
| Mul (r a b : var)
| Sqr (r a : var)
| Lshift (r a : var) (n : Z)
| Rshift (r a : var) (n : Z)
| Set_word (r : var) (w : Z)
| Set_negative (r : var) (sign : bool)
| Add_word (r : var) (w : Z)
| Sub_word (r : var) (w : Z)
| Mul_word (r : var) (w : Z).

(** A function of one number. *)
Definition at_var (r : var) (f : M BIGNUM ()) : M bns () := λ s, let '(o, b) := f (s !!! r) in (o, <[r := b]> s).

(** [ctx] are the scratch numbers, [t] what the stack holds. *)
Definition call {libc : Libc} (ctx : list var) (t : list Z) (c : bn_call) : M bns () :=
  match c with
  | Copy r a => BN_copy r a
  | Add r a b => BN_add r a b
  | Sub r a b => BN_sub r a b
  | Mul r a b => BN_mul ctx r a b
  | Sqr r a => BN_sqr ctx t r a
  | Lshift r a n => BN_lshift r a n
  | Rshift r a n => BN_rshift r a n
  | Set_word r w => at_var r (λ b, match BN_set_word b w with Some b => (Some (), b) | None => (None, b) end)
  | Set_negative r sign => at_var r (λ b, (Some (), BN_set_negative b sign))
  | Add_word r w => at_var r (BN_add_word w)
  | Sub_word r w => at_var r (BN_sub_word w)
  | Mul_word r w => at_var r (BN_mul_word w)
  end.

(** The number a call writes, the numbers it reads, and the value it is to give. *)
Definition result (c : bn_call) : var :=
  match c with
  | Copy r _ | Add r _ _ | Sub r _ _ | Mul r _ _ | Sqr r _ | Lshift r _ _ | Rshift r _ _
  | Set_word r _ | Set_negative r _ | Add_word r _ | Sub_word r _ | Mul_word r _ => r
  end.
Definition operands (c : bn_call) : list var :=
  match c with
  | Copy _ a | Sqr _ a | Lshift _ a _ | Rshift _ a _ => [a]
  | Add _ a b | Sub _ a b | Mul _ a b => [a; b]
  | _ => []
  end.
Definition meaning (c : bn_call) (v : var → Z) : Z :=
  match c with
  | Copy _ a => v a
  | Add _ a b => v a + v b
  | Sub _ a b => v a - v b
  | Mul _ a b => v a * v b
  | Sqr _ a => v a * v a
  | Lshift _ a n => v a * 2 ^ n
  | Rshift _ a n => Z.quot (v a) (2 ^ n)
  | Set_word _ w => w
  | Set_negative r sign => if sign then - Z.abs (v r) else Z.abs (v r)
  | Add_word r w => v r + w
  | Sub_word r w => v r - w
  | Mul_word r w => v r * w
  end.
(** The word of a call is a word. *)
Definition call_word (c : bn_call) : Z :=
  match c with Set_word _ w | Add_word _ w | Sub_word _ w | Mul_word _ w => w | _ => 0 end.
Definition well_formed_call (ctx : list var) (c : bn_call) : Prop :=
  fits 64 (call_word c) ∧ ∀ x, x ∈ result c :: operands c → x ∉ ctx.

Lemma meaning_cong c f g : (∀ y, y ∈ result c :: operands c → f y = g y) → meaning c f = meaning c g.
Proof.
  destruct c; cbn [meaning result operands]; intros H; try done;
    repeat match goal with |- context [f ?x] => rewrite (H x) by (repeat first [apply list_elem_of_here|apply list_elem_of_further]) end; done.
Qed.

Section program.
Context {libc : Libc} (ctx : list var) (t : list Z).

(** Every number is well-formed, and none but the scratch numbers is a negative zero. *)
Definition typed (s : bns) : Prop := wfs s ∧ ∀ x, x ∉ ctx → bn_canonical (s !!! x).
(** The integers the numbers stand for. *)
Definition models (s : bns) (v : var → Z) : Prop := ∀ x, x ∉ ctx → bn_value (s !!! x) = v x.

Inductive step : bns → bns → Prop :=
| call_succeeds c s s' : well_formed_call ctx c → call ctx t c s = (Some (), s') → step s s'.

Fixpoint run (p : list bn_call) : M bns () :=
  match p with
  | [] => mret ()
  | c :: p => call ctx t c;; run p
  end.
Definition int_step (v : var → Z) (c : bn_call) : var → Z := <[result c := meaning c v]> v.

(** What a call that writes the number [b] to its result has done. *)
Definition call_done (c : bn_call) (s s' : bns) : Prop :=
  typed s' ∧ ∀ x, x ∉ ctx → bn_value (s' !!! x) = int_step (λ x, bn_value (s !!! x)) c x.

Lemma done_sets c s s' b :
  typed s → sets (result c) b s s' → bn_ok b → bn_value b = meaning c (λ x, bn_value (s !!! x)) → call_done c s s'.
Proof.
  intros [Hs Hc] S [W C] V. split; [split; [by apply (sets_wfs _ _ _ _ S)|]|]; intros x Hx; rewrite (S x); unfold int_step; destruct (decide (x = result c)) as [->|Hne].
  - exact C.
  - by apply Hc.
  - by rewrite fn_lookup_insert.
  - by rewrite fn_lookup_insert_ne.
Qed.

Lemma done_only c s s' :
  typed s → result c ∉ ctx → only (result c :: ctx) s s' → wfs s' → bn_canonical (s' !!! result c) →
  bn_value (s' !!! result c) = meaning c (λ x, bn_value (s !!! x)) → call_done c s s'.
Proof.
  intros [Hs Hc] Hr O W C V. split; [split; [done|]|]; intros x Hx; unfold int_step; (destruct (decide (x = result c)) as [->|Hne]; [|rewrite (O x) by set_solver]).
  - exact C.
  - by apply Hc.
  - by rewrite fn_lookup_insert.
  - by rewrite fn_lookup_insert_ne.
Qed.

Lemma done_at c s f s' :
  typed s → at_var (result c) f s = (Some (), s') →
  (∀ b', f (s !!! result c) = (Some (), b') → bn_ok b' ∧ bn_value b' = meaning c (λ x, bn_value (s !!! x))) → call_done c s s'.
Proof.
  intros Hs E H. unfold at_var in E. destruct (f (s !!! result c)) as [o b] eqn:Ef. injection E as -> <-. destruct (H b eq_refl) as [O V].
  apply (done_sets c s _ b Hs); [apply sets_insert|done|done].
Qed.

Lemma set_negative_spec b sign : bn_ok b → bn_ok (BN_set_negative b sign) ∧ bn_value (BN_set_negative b sign) = if sign then - Z.abs (bn_value b) else Z.abs (bn_value b).
Proof.
  intros [W C]. pose proof (mag_bound b W) as B. unfold BN_set_negative. rewrite (is_zero_spec b W). split.
  - split; [by apply set_neg_wf|]. unfold bn_canonical. cbn [set_neg neg]. intros E. apply andb_true_iff in E as [_ E]. apply negb_true_iff, Z.eqb_neq in E. exact E.
  - unfold bn_value at 1. cbn [set_neg neg]. change (mag (set_neg _ b)) with (mag b). assert (Z.abs (bn_value b) = mag b) as -> by (unfold bn_value; destruct (neg b); lia).
    destruct sign; cbn [andb]; [|done]. destruct (Z.eqb_spec (mag b) 0); cbn [negb]; lia.
Qed.

Hypothesis Hctx : NoDup ctx.
Hypothesis Ht : 32 <= lenZ t.

Lemma operands_fresh c xs : well_formed_call ctx c → (∀ x, x ∈ xs → x ∈ result c :: operands c) → fresh ctx xs.
Proof. intros [_ H] Hx. split; [done|]. intros x Hc Hi. by apply (H x); [apply Hx|]. Qed.

Lemma call_spec c s s' : typed s → well_formed_call ctx c → call ctx t c s = (Some (), s') → call_done c s s'.
Proof.
  intros Hty Hc E. pose proof Hty as [Hs Hcan]. destruct Hc as [Hw Hx]. assert (result c ∉ ctx) as Hr by (apply Hx, list_elem_of_here).
  assert (∀ x, x ∈ operands c → bn_ok (s !!! x)) as Hop. { intros x Hi. split; [apply Hs|]. by apply Hcan, Hx, list_elem_of_further. }
  assert (bn_ok (s !!! result c)) as Hres by (split; [apply Hs|by apply Hcan]).
  destruct c as [r a|r a b|r a b|r a b|r a|r a n|r a n|r w|r sign|r w|r w|r w]; cbn [call result operands call_word] in *.
  - pose proof (copy_spec r a s (Hs r) (Hop a ltac:(set_solver))) as H. rewrite E in H. destruct H as (b' & S & O & Ew & En).
    apply (done_sets (Copy r a) s s' b' Hty S O). unfold bn_value, mag. by rewrite Ew, En.
  - pose proof (add_spec r a b s Hs (proj2 (Hop a ltac:(set_solver))) (proj2 (Hop b ltac:(set_solver)))) as H. rewrite E in H. destruct H as (b' & S & O & V). by apply (done_sets (Add r a b) s s' b').
  - pose proof (sub_spec r a b s Hs (proj2 (Hop a ltac:(set_solver))) (proj2 (Hop b ltac:(set_solver)))) as H. rewrite E in H. destruct H as (b' & S & O & V). by apply (done_sets (Sub r a b) s s' b').
  - pose proof (mul_value_spec ctx r a b s Hs (operands_fresh (Mul r a b) [r; a; b] (conj Hw Hx) ltac:(set_solver))) as H. rewrite E in H. destruct H as (O & W & C & V). by apply (done_only (Mul r a b)).
  - pose proof (sqr_value_spec ctx t r a s Hs (operands_fresh (Sqr r a) [r; a] (conj Hw Hx) ltac:(set_solver)) Ht) as H. rewrite E in H. destruct H as (O & W & C & V). by apply (done_only (Sqr r a)).
  - pose proof (lshift_spec r a n s Hs) as H. rewrite E in H. destruct H as (_ & b' & S & O & V). by apply (done_sets (Lshift r a n) s s' b').
  - pose proof (rshift_spec r a n s Hs) as H. rewrite E in H. destruct H as (_ & b' & S & O & V). by apply (done_sets (Rshift r a n) s s' b').
  - apply (done_at (Set_word r w) s _ s' Hty E). intros b' Eb. cbn [result] in Eb. pose proof (set_word_spec (s !!! r) w (Hs r) Hw) as H. destruct (BN_set_word (s !!! r) w) as [b1|]; [|done].
    injection Eb as <-. destruct H as (O & V & _). split; [exact O|exact V].
  - apply (done_at (Set_negative r sign) s _ s' Hty E). intros b' [= <-]. by apply set_negative_spec.
  - apply (done_at (Add_word r w) s _ s' Hty E). intros b' Eb. cbn [result] in Eb. pose proof (add_word_spec w (s !!! r) Hres Hw) as H. rewrite Eb in H. exact H.
  - apply (done_at (Sub_word r w) s _ s' Hty E). intros b' Eb. cbn [result] in Eb. pose proof (sub_word_spec w (s !!! r) Hres Hw) as H. rewrite Eb in H. exact H.
  - apply (done_at (Mul_word r w) s _ s' Hty E). intros b' Eb. cbn [result] in Eb. pose proof (mul_word_spec w (s !!! r) (Hs r) Hw) as H. rewrite Eb in H. destruct H as (W & V & C).
    split; [split; [done|]; by apply C, Hres|done].
Qed.
End program.

(** * Properties *)

(** C20. The type of big numbers: at most as many words in use as the array has, each a word, and no
    negative zero.  From numbers of that type, calls that succeed, in any order and with any operands, lead
    only to numbers of that type. *)
Theorem bn_calls_typed {libc : Libc} ctx t s s' :
  NoDup ctx → 32 <= lenZ t → typed ctx s → rtc (step ctx t) s s' → typed ctx s'.
Proof.
  intros Hctx Ht Hs H. induction H as [|s s1 s' Hstep _ IH]; [done|]. apply IH. destruct Hstep as [c s s1 Hc E].
  by apply (call_spec ctx t Hctx Ht c s s1).
Qed.

(** C16. A program of calls refines the program over the integers: when all of its calls succeed, every
    number holds what the same assignments give over unbounded integers, whichever calls name the same number
    twice and whatever was in the arrays beyond the words in use. *)
Theorem bn_program_refines {libc : Libc} ctx t p s s' v :
  NoDup ctx → 32 <= lenZ t → typed ctx s → models ctx s v → Forall (well_formed_call ctx) p →
  run ctx t p s = (Some (), s') → models ctx s' (fold_left int_step p v).
Proof.
  intros Hctx Ht Hs Hv Hp. revert s v Hs Hv. induction Hp as [|c p Hc _ IH]; intros s v Hs Hv E; cbn [run fold_left] in *.
  - injection E as <-. exact Hv.
  - unfold mbind, M_bind in E. destruct (call ctx t c s) as [[[]|] s1] eqn:Ec; [|done].
    destruct (call_spec ctx t Hctx Ht c s s1 Hs Hc Ec) as [Hs1 V1]. apply (IH s1 (int_step v c)); [done| |done].
    intros x Hx. rewrite V1 by done. unfold int_step. destruct (decide (x = result c)) as [->|Hne]; [|rewrite !fn_lookup_insert_ne by done; by apply Hv].
    rewrite !fn_lookup_insert. apply meaning_cong. intros y Hy. by apply Hv, Hc.
Qed.

(** [(a + b) * (a - b)], then the remainder shifted out, with the operands overwritten on the way. *)
Definition difference_of_squares : list bn_call :=
  [Copy 2 0; Add 0 0 1; Sub 2 2 1; Mul 0 0 2; Set_negative 0 true; Rshift 1 0 3; Add_word 1 7].
Definition two_numbers : bns :=
  {[ 0%nat := bn_of true [5; 0]; 1%nat := bn_of false [0; 1; 0]; 2%nat := bn_of false []; 3%nat := bn_of false []; 4%nat := bn_of false [] ]}.

Lemma two_numbers_typed : typed [3%nat; 4%nat] two_numbers.
Proof.
  assert (map_Forall (λ _ b, bn_ok b) two_numbers) as H.
  { unfold two_numbers. repeat (apply map_Forall_insert_2; [apply (bn_of_ok _ _); decide_now|]). apply map_Forall_empty. }
  split; [unfold wfs; apply store_wf; intros x b E; apply (H x b E)|].
  intros x _. rewrite lookup_total_alt. destruct (two_numbers !! x) as [b|] eqn:E; [apply (H x b E)|done].
Qed.

Lemma scratch_nodup : NoDup [3%nat; 4%nat].
Proof. repeat constructor; set_solver. Qed.

Lemma difference_of_squares_calls : Forall (well_formed_call [3%nat; 4%nat]) difference_of_squares.
Proof. repeat (constructor; [split; [split; vm_compute; done|cbn; set_solver]|]). constructor. Qed.

Lemma bn_program_refines_witness :
  ∃ s', run (libc := calloc_libc) [3%nat; 4%nat] (replicate 32 0) difference_of_squares two_numbers = (Some (), s') ∧
    bn_value (s' !!! 1%nat) = 7 - (2 ^ 128 - 25) / 8.
Proof.
  destruct (run (libc := calloc_libc) [3%nat; 4%nat] (replicate 32 0) difference_of_squares two_numbers) as [[[]|] s'] eqn:E; [|vm_compute in E; discriminate].
  exists s'. split; [reflexivity|]. assert (1%nat ∉ [3%nat; 4%nat]) as H1 by (clear; set_solver).
  pose proof (bn_program_refines (libc := calloc_libc) [3%nat; 4%nat] (replicate 32 0) difference_of_squares two_numbers s' (λ x, bn_value (two_numbers !!! x)) scratch_nodup
    ltac:(vm_compute; discriminate) two_numbers_typed (λ x _, eq_refl) difference_of_squares_calls E 1%nat H1) as V.
  clear E. rewrite V. vm_compute. reflexivity.
Defined.

Lemma bn_calls_typed_witness :
  ∃ s', step (libc := calloc_libc) [3%nat; 4%nat] (replicate 32 0) two_numbers s' ∧ typed [3%nat; 4%nat] s'.
Proof.
  destruct (call (libc := calloc_libc) [3%nat; 4%nat] (replicate 32 0) (Sqr 0 0) two_numbers) as [[[]|] s'] eqn:E; [|vm_compute in E; discriminate].
  assert (step (libc := calloc_libc) [3%nat; 4%nat] (replicate 32 0) two_numbers s') as Hs.
  { apply (call_succeeds _ _ (Sqr 0 0)); [|exact E]. clear E. split; [split; vm_compute; done|cbn; set_solver]. }
  exists s'. split; [exact Hs|].
  apply (bn_calls_typed (libc := calloc_libc) [3%nat; 4%nat] (replicate 32 0) two_numbers s').
  - exact scratch_nodup.
  - vm_compute; discriminate.
  - exact two_numbers_typed.
  - apply rtc_once. exact Hs.
Defined.
